(* ===== verification/_CoqProject ===== *)
-Q . S2P
Prelude.v
Str.v
BTree.v
Fmt.v
Lines.v
Helpers.v
Lex.v
Highlight.v
PolicyRuntime.v
Policy.v
Ir.v
Expr.v
PolicyCodegen.v
Rbac.v
Graph.v
LifecycleTransition.v
LifecycleGate.v
LifecycleSyntax.v
LifecycleLowering.v
Changelog.v
Waiver.v
Fix.v
TextPos.v
SqlName.v
Catalog.v
MigrationOrder.v
SqlColumn.v
CreateTable.v
SchemaDiff.v
SchemaRead.v
AlterTable.v
Casing.v
ReferentialGuard.v
PlanSyntax.v
PlanCatalog.v
PlanRuntime.v
PlanGate.v
PlanQuota.v
SqlRows.v
RuntimeSql.v
RuntimeRead.v
RuntimeWrite.v
RuntimeNames.v
FieldConstraints.v
QuerySyntax.v
TypeToken.v
QueryLowering.v
QueryCodegen.v
GoSource.v
QueryExact.v
CommandSyntax.v
CommandLowering.v
CommandCodegen.v
CommandExact.v
CommandCreate.v
IrEq.v
CrudSyntax.v
Conventions.v
ConventionsExact.v
RecordSet.v
FieldSyntax.v
ResourceSyntax.v
ResourceLowering.v
SpacedWords.v
FieldExact.v
ResourceExact.v
