(* ===== verification/Prelude.v ===== *)
(** Lazuli: verification library of the compiler core.

    Lazuli compiles feature declarations ([.lzi]) and surfaces ([.lzx]) to Go,
    TypeScript and SQL.  A source goes through a parser ([lazuli_syntax]), an
    analyzer that lowers it to an intermediate representation and checks it
    ([lazuli_analyzer], [lazuli_ir]), and emitters ([lazuli_codegen_go], ...); the
    emitted Go runs on a support library ([runtime/go]).  Around the pipeline
    are the doctor's waivers, the fix engine, the changelog of two snapshots and
    the language server.  Paths below are relative to [src/crates] unless they
    start with [runtime].

    * Conventions

    Texts are the byte strings of their UTF-8 encoding and positions are byte
    indices, as in Rust.  A panic or an index outside a character is [None]; a
    [Result] is [result]; [BTreeMap] and [BTreeSet] are sorted lists
    ([BTree.v]), a [HashMap] whose order is not read is a [gmap] or a function.
    A [writeln!] is a line of [unlines].  Mutation is explicit state passing.
    An operation keeps the name it has in the source.  Machine integers wrap
    where the code can reach the bound ([TextPos.v], [Highlight.v]).

    * Files

    - [Prelude], [Str], [BTree], [Fmt], [Lines]: bytes, strings, ordered maps and
      stable sorting, number and debug formatting, lines of a text; the shared
      lemmas and the tactics [by_bytes], [bool_prop].
    - [Helpers]: [lazuli_analyzer/src/helpers.rs].
    - [Lex]: [lazuli_syntax/src/parser/common.rs], [error.rs].
    - [Highlight]: [parser/highlight.rs], [lazuli_lsp/src/semantic_tokens.rs].
    - [TextPos]: [lazuli_lsp/src/text_utils.rs].
    - [Policy]: [parser/lzx/policy_expr/]. [PolicyRuntime]:
      [runtime/go/lazuli/policy.go]. [PolicyCodegen]: lowering and
      [lazuli_codegen_go/src/emitter/command/policy.rs], from the AST to the atom
      list the runtime evaluates.
    - [Ir], [Catalog]: the IR types the passes exchange ([lazuli_ir]); [Catalog]
      also the index of owners ([emitter/cross_feature.rs]).
    - [Expr]: [lazuli_analyzer/src/expr.rs] and the closed predicates of
      [agent.rs].
    - [Rbac]: [lazuli_analyzer/src/rbac.rs], [lazuli_ir/src/nodes/rbac.rs].
    - [Graph], [LifecycleSyntax], [LifecycleLowering], [LifecycleTransition],
      [LifecycleGate]: the lifecycle of a resource from its block
      ([parser/lzi/lifecycle.rs]) through its lowering
      ([lazuli_analyzer/src/lifecycle/]) to the check of command triggers
      ([checks/lifecycle_transition/]) and of view gates
      ([checks/lifecycle_gate.rs], [lifecycle_gate_helpers/]).
    - [Changelog]: [lazuli_changelog]. [Waiver]: [parser/lzi/doctor_allow.rs],
      [lazuli_doctor/src/allow_comment.rs]. [Fix]: [lazuli_fix].
    - [SqlName], [MigrationOrder], [SqlColumn], [CreateTable], [AlterTable]: the
      migration emitter, [lazuli_codegen_go/src/emitter/migration_ddl/]
      ([sql_builder.rs]; [topo.rs]; [sql_column.rs], [constraint.rs],
      [index.rs]; [create_table.rs], [drop_table.rs], [mod.rs];
      [alter_table.rs]).
    - [SchemaDiff], [SchemaRead]: [emitter/schema_diff/], and its reader against
      the emitter.
    - [Casing]: [emitter/casing.rs].
    - [ReferentialGuard]: the scope passes ([lazuli_analyzer/src/resource_p1.rs],
      [lib.rs]) and [emitter/referential_guard.rs].
    - [PlanSyntax], [PlanCatalog], [PlanGate], [PlanRuntime], [PlanQuota]: plans
      and gates from the source to the running call: [parser/lzi/plan.rs]; the
      catalog, the aggregation and the diagnostics
      ([lazuli_analyzer/src/plan_gate/]) with the collectors of the doctor and of
      the generator; the emitted catalog and preludes ([emitter/plan.rs],
      [command/emit_p1.rs], [query/header.rs]); the checks they call
      ([runtime/go/lazuli/billing/]); concurrent calls and the dispatchers.
    - [SqlRows], [RuntimeSql], [RuntimeRead], [RuntimeWrite], [RuntimeNames]: the
      queries and effects of a running call ([runtime/go/lazuli/run.go],
      [handle.go], [effect.go], [query.go], [read_projection.go]).  [RuntimeSql]
      builds the statements; [SqlRows] reads the text of a statement and relates
      the database before and after it; the others state what each statement
      does, and whether the table it names was created.
    - [FieldConstraints], [QuerySyntax], [TypeToken], [QueryLowering],
      [QueryCodegen], [QueryExact]: queries from the source to the running call
      ([parser/lzi/query/], [field_constraints/]; [lazuli_analyzer/src/query.rs],
      [types.rs]; [emitter/query/]).  [GoSource] reads the emitted text as Go
      does.
    - [CommandSyntax], [CommandLowering], [CommandCodegen], [CommandExact],
      [CommandCreate]: the inputs and effects of commands, the same way
      ([parser/lzi/command/]; [lazuli_analyzer/src/command.rs],
      [command_decl.rs]; [emitter/command/]).
    - [CrudSyntax], [Conventions], [ConventionsExact]: the entries of
      [conventions [crud, me]] and their overlays
      ([parser/lzi/resource/conventions.rs], [crud_overlay.rs];
      [lazuli_analyzer/src/conventions/]), and what they do when they run.
      [IrEq] has the decidable equality of the representation the pass compares
      signatures with.
    - [FieldSyntax], [ResourceSyntax], [ResourceLowering]: resource blocks, their
      fields and their lowering ([parser/lzi/resource/], [field_constraints/];
      [lazuli_analyzer/src/resource_p1.rs], [resource_p2.rs],
      [resource_validators.rs]).  [FieldExact] takes a field line and
      [ResourceExact] a block from the source to the columns of the migration;
      [SpacedWords] has the lemmas on words with spaces between them, and
      [RecordSet] the notation for a record with a field changed.

    * What is shown

    Policies: parsing answers on every text within a closed grammar, the display
    form is read back, the compiled atoms are evaluated by the runtime to the
    meaning of the expression, a reference that does not resolve denies.

    RBAC: closures, cycle reports and the grant query are exact against the
    inheritance graph.

    Lifecycles: the printed block is read back; the parser accepts only
    well-formed blocks; lowering is consistent; the check of a command is silent
    exactly when its triggers are a run of the state machine, from the source
    block on; the coverage pass is exact; the redirect pass answers, and is
    silent exactly when no view sends a user on forever by an arm written for his
    state, where being sent on is a relation between views apart from the pass
    (it misses redirects by wildcards and by the application's arm alone).

    Migrations: identifiers and slugs are faithful; the index of owners is exact;
    the order is complete, least-first, and without a warning exactly when the
    foreign keys have no cycle, so a key's table is created before it is named;
    paths do not clash; an emitted table is read back column by column; the
    planned difference gives every plain field its new type, and takes the whole
    table to the new one when the projection sees all of it ([intrinsic]); the
    text of an [ALTER] file, read and run, does what the difference says and only
    what it may, and the text of its rollback restores the columns, types,
    nullability and defaults (rows are not modelled).

    Resources: a block an author writes, its lines in any order with comments
    and blank lines anywhere, is parsed up to the next block, lowers without a
    diagnostic to the resource it declares, and the table of its migration has
    exactly the declared columns.

    Referential guards: the flags of a guard are the schema of the resource its
    relation names; the columns its query compares are or are not in the
    emitted table; the file does not depend on declaration order.

    Plans and gates: plan blocks are read back and the gate scan is exact; the
    catalog is the declared one and the diagnostics are silent exactly for sound
    declarations; the emitted catalog is read by Go as the catalog, and its file
    compiles exactly when some plan has a trial; in a project without diagnostics
    a gated command admits exactly the callers its gates allow, and a trial's end
    takes no feature away; calls of several callers, however many, overrun a
    limit by no more than what is in flight, every run of them ends and wastes no
    room; dispatchers decide as commands do.

    Queries and effects: an effect block is read back, and so are type tokens and
    filter lines; a declared list or lookup, parsed, lowered, emitted, read by Go
    and run, returns the visible rows its lines ask for (in requests whose values
    are not the zero of their type, which the runtime skips); an update or a deletion
    changes, and a creation adds, the rows its block and the scopes of its policy
    name, and always has a statement in a request that gives its values; reads
    and writes keep to the tenant (the user's rows of an owner table count in any),
    a deleted row is listed by no statement run after the deletion, a masked
    column is never read, an owner scope of a plain policy confines the writer to
    its own rows.

    Conventions: an overlay block is read back; the pass adds the entries the
    author has not written and no others, twice is once, and is silent exactly
    for sound declarations; the synthesized entries of a resource with an owner
    axis read, change and create only rows of the user's (unless the policy of an
    overlay takes the owner column, [axis_dropped]), its update writes the inputs
    it is given, [lookup_my] finds the actor's own row.

    Waivers and fixes: a waiver is read back by both readers and honoured; a
    preview never writes and an application does what was previewed; migrating a
    comment keeps its effect.

    Changelog, tokens and positions: breaking entries are exactly the lost
    payloads; tokens decode to what was classified; the word under the cursor
    and the ranges are those of the text, inside it.

    Theorems that show a defect or a stale comment are named for it
    ([wildcard_cycle_missed], [app_redirect_missed], [guard_scope_overwritten],
    [regenerate_plans_changes], [rollback_loses_not_null], [axis_dropped],
    [owner_rows_of_any_tenant], ...).

    * Fuel

    Each bound is a measure that decreases, and a theorem says the result does
    not depend on it or is never the out-of-fuel one: [Policy.parse_fuel],
    six calls per byte; [PolicyRuntime.eval_fuel], four calls per atom;
    [Graph.dfs_fuel], the edges of the graph; [Rbac.walk_fuel] and
    [LifecycleGate.cycle_fuel], one step per role or view, after which a name
    repeats; [CrudSyntax.overlay_blocks],
    [ResourceSyntax.resource_children] and [payload_fields], one turn per line;
    the loops that peel modifiers, the length of the text; [Expr.lower_raw_expr] and the scanners of [Helpers] and
    [Highlight], the length of the text, of which each step consumes a byte;
    [MigrationOrder.kahn_loop], one turn per resource, none twice.

    * Parameters

    The Unicode case tables ([LifecycleLowering], [Casing]); the checkers of
    roles and permissions that generated code registers ([PolicyRuntime]); the
    keyword registry ([Highlight]); the derived [{:?}] rendering of a predicate
    that has no SQL ([SqlColumn.restrict_where_sql]); the subscription store, the
    usage store and the clock ([PlanRuntime]).  A law is assumed of the usage
    store only, that an increment adds one to its own counter
    ([billing.UsageLaws]); the store [log] keeps it.  Of a running call the
    registered functions, the columns' codecs, the default tenant and the
    printing of other values ([RuntimeSql.Host]); the constants of the generated
    package ([GoSource]); the text of a return type ([CommandCodegen]).

    * Not modelled

    Reading and writing files and processes (the command line, the doctor driver,
    [parse_baseline_from_migration]); static tables (keywords, diagnostics); the
    protocol glue of the language and MCP servers; the doctor's rules, which are
    hundreds of independent lints; the emitters of handlers, clients, OpenAPI
    and specs, whose contract is the target language's.  Still to come: the other
    blocks of the [.lzi] and [.lzx] parsers, the public contract of a resource, the doctor's
    configuration, the planner, and [json.rs] of the gate check; of a query its
    header and the Go types of its arguments; of a command what is not its input
    or effect (jobs, events; the audit and rate limit of a synthesized command
    are data only); of the runtime what surrounds
    the statements (transactions, the query cache, whose answers are not run on
    the database, decryption, [RunSQL]).

    This file: bytes, the [result] type and its notation, tactics, and lemmas on
    lists, options and booleans. *)
From Stdlib Require Export Ascii String ZArith Lia Bool.
From stdpp Require Export base tactics list strings.

#[export] Set Warnings "-register-all".

(** * Bytes *)

(** A Rust [u8]/ASCII [char] is a Rocq [ascii]; its numeric value is [code]. *)
Abbreviation byte := ascii (only parsing).
Definition code (b : byte) : N := N_of_ascii b.

(** [lo ..= hi] as a boolean test on bytes. *)
Definition in_range (lo hi : N) (b : byte) : bool :=
  ((lo <=? code b) && (code b <=? hi))%N.

(** The [u8::is_ascii_*] / [char::is_ascii_*] predicates the sources use. *)
Definition is_ascii_lowercase (b : byte) : bool := in_range 97 122 b.
Definition is_ascii_uppercase (b : byte) : bool := in_range 65 90 b.
Definition is_ascii_digit (b : byte) : bool := in_range 48 57 b.
Definition is_ascii_alphabetic (b : byte) : bool :=
  is_ascii_lowercase b || is_ascii_uppercase b.
Definition is_ascii_alphanumeric (b : byte) : bool :=
  is_ascii_alphabetic b || is_ascii_digit b.
Definition is_ascii_hexdigit (b : byte) : bool :=
  is_ascii_digit b || in_range 97 102 b || in_range 65 70 b.
(** [u8::is_ascii_whitespace]: space, tab, LF, FF, CR (not VT). *)
Definition is_ascii_whitespace (b : byte) : bool :=
  match code b with
  | 32 | 9 | 10 | 12 | 13 => true
  | _ => false
  end%N.

Definition to_ascii_lowercase (b : byte) : byte :=
  if is_ascii_uppercase b then ascii_of_N (code b + 32) else b.
Definition to_ascii_uppercase (b : byte) : byte :=
  if is_ascii_lowercase b then ascii_of_N (code b - 32) else b.

Notation "x =a? y" := (Ascii.eqb x y) (at level 70, no associativity).

(** Bytes that have no printable literal. *)
Definition LF : byte := ascii_of_N 10.
Definition CR : byte := ascii_of_N 13.
Definition TAB : byte := ascii_of_N 9.
Definition DQ : byte := ascii_of_N 34.
Definition SQ : byte := ascii_of_N 39.
Definition BSL : byte := ascii_of_N 92.

(** Exhaustive checking over the 256 bytes, used to settle questions about
    byte classes by computation. *)
Definition all_bytes : list byte :=
  List.map (fun n => ascii_of_nat n) (seq 0 256).

Lemma all_bytes_complete (b : byte) : In b all_bytes.
Proof.
  unfold all_bytes. apply in_map_iff. exists (nat_of_ascii b). split.
  - apply ascii_nat_embedding.
  - apply in_seq. pose proof (nat_ascii_bounded b). lia.
Qed.

Lemma byte_check (P : byte -> bool) :
  forallb P all_bytes = true -> forall b, P b = true.
Proof.
  intros H b. rewrite forallb_forall in H. apply H, all_bytes_complete.
Qed.

(** * Errors *)

(** [Result<T, E>] of the sources, with the error type first so that
    [result E] is a monad and stdpp's [x ← m; k] is the [?] operator. *)
Inductive result (E T : Type) : Type :=
| Ok (v : T)
| Err (e : E).
Arguments Ok {E T} v.
Arguments Err {E T} e.

Definition is_ok {E T} (r : result E T) : bool :=
  match r with Ok _ => true | Err _ => false end.

#[export] Instance result_ret {E} : MRet (result E) := fun T v => Ok v.
#[export] Instance result_bind {E} : MBind (result E) :=
  fun T U k r => match r with Ok v => k v | Err e => Err e end.

(** [Option::ok_or] *)
Definition ok_or {E T} (o : option T) (e : E) : result E T :=
  match o with Some v => Ok v | None => Err e end.

Lemma bind_Ok {E T U} (r : result E T) (k : T -> result E U) v :
  r ≫= k = Ok v <-> exists x, r = Ok x /\ k x = Ok v.
Proof.
  destruct r; cbn; split.
  - eauto.
  - intros (x & [= ->] & H). exact H.
  - discriminate.
  - intros (x & H & _). discriminate.
Qed.

(** * Tactics and hints shared by the development *)

(** Facts of the ordered containers; facts of strings. *)
Create HintDb btree.
Create HintDb str.

(** Closed computations, compared without reading their values back. *)
Ltac compute_eq :=
  lazymatch goal with |- ?a = ?b =>
    tryif has_evar b then let v := eval vm_compute in a in unify b v; exact (eq_refl v <: a = v) else exact (eq_refl b <: a = b)
  end.

(** Turn boolean connectives and tests in hypotheses and goal into
    propositions. *)
Ltac bool_prop :=
  repeat match goal with
  | H : _ && _ = true |- _ => apply andb_true_iff in H as [? ?]
  | H : _ || _ = false |- _ => apply orb_false_iff in H as [? ?]
  | H : negb _ = true |- _ => apply negb_true_iff in H
  | H : negb _ = false |- _ => apply negb_false_iff in H
  | H : (_ =a? _) = true |- _ => apply Ascii.eqb_eq in H
  | H : String.eqb _ _ = true |- _ => apply String.eqb_eq in H
  | H : String.eqb _ _ = false |- _ => apply String.eqb_neq in H
  | H : Nat.eqb _ _ = true |- _ => apply Nat.eqb_eq in H
  | H : Nat.eqb _ _ = false |- _ => apply Nat.eqb_neq in H
  | H : Nat.ltb _ _ = true |- _ => apply Nat.ltb_lt in H
  | H : Nat.ltb _ _ = false |- _ => apply Nat.ltb_ge in H
  | H : Nat.leb _ _ = true |- _ => apply Nat.leb_le in H
  | H : Nat.leb _ _ = false |- _ => apply Nat.leb_gt in H
  end.

(** Split the outermost [if]/[match] of a hypothesis or of the goal. *)
Ltac case_in H :=
  match type of H with
  | context [if ?b then _ else _] => let E := fresh "E" in destruct b eqn:E
  | context [match ?x with _ => _ end] => let E := fresh "E" in destruct x eqn:E
  end.

(** Answer a question about one byte's classes by checking all 256 bytes. *)
Ltac by_bytes b :=
  pattern b; match goal with
  | |- ?P b =>
    let H := fresh in
    enough (H : forall b', P b') by exact (H b);
    clear; intros [[] [] [] [] [] [] [] []]; vm_compute; try congruence; try tauto
  end.

(** ** Generic list lemmas *)

Lemma existsb_In {A} (p : A -> bool) l :
  existsb p l = true <-> exists x, In x l /\ p x = true.
Proof. apply existsb_exists. Qed.

Lemma existsb_false {A} (p : A -> bool) l :
  existsb p l = false <-> forall x, In x l -> p x = false.
Proof.
  induction l as [|a l IH]; simpl; [naive_solver|].
  rewrite orb_false_iff, IH. split; [intros [? ?] ? [<-|?]; auto | eauto 6].
Qed.

Lemma find_app {A} (p : A -> bool) l1 l2 :
  List.find p (l1 ++ l2) =
  match List.find p l1 with Some x => Some x | None => List.find p l2 end.
Proof. induction l1 as [|a l1 IH]; simpl; [done|]. by destruct (p a). Qed.

Lemma filter_none {A} (f : A -> bool) l :
  (forall x, In x l -> f x = false) -> List.filter f l = [].
Proof.
  induction l as [|a l IH]; simpl; [done|]. intros H. rewrite H by auto. auto.
Qed.

Lemma filter_all {A} (f : A -> bool) l :
  (forall x, In x l -> f x = true) -> List.filter f l = l.
Proof.
  induction l as [|a l IH]; simpl; [done|]. intros H. rewrite H by auto. f_equal. auto.
Qed.

Lemma In_firstn {A} (x : A) n l : In x (List.firstn n l) -> In x l.
Proof.
  intros H. rewrite <- (List.firstn_skipn n l). apply in_or_app. by left.
Qed.

Lemma Forall2_In_r {A B} (P : A -> B -> Prop) l k y :
  Forall2 P l k -> In y k -> exists x, In x l /\ P x y.
Proof. induction 1 as [|a b l k Hab H IH]; [done|]. intros [<-|Hy]; [|destruct IH as (x & ? & ?)]; simpl; eauto. Qed.

Lemma NoDup_map_eq {A B} (f : A -> B) l x y : List.NoDup (List.map f l) -> In x l -> In y l -> f x = f y -> x = y.
Proof.
  induction l as [|a l IH]; cbn; [done|]. intros Hn. inversion_clear Hn as [|? ? Ha Hl]. intros [->|Hx] [->|Hy] E; [done| | |by apply IH].
  - destruct Ha. rewrite E. by apply in_map.
  - destruct Ha. rewrite <- E. by apply in_map.
Qed.

Lemma split_two {A} (l : list A) i j x y : l !! i = Some x -> l !! j = Some y -> i < j ->
  exists a b c, l = (a ++ x :: b ++ y :: c)%list.
Proof.
  intros Hi Hj Hlt. exists (take i l), (take (j - S i) (drop (S i) l)), (drop (S (j - S i)) (drop (S i) l)).
  rewrite take_drop_middle; [by rewrite take_drop_middle|]. rewrite lookup_drop. by replace (S i + (j - S i)) with j by lia.
Qed.
