(* ===== verification/Str.v ===== *)
(** Rust [&str] as the byte string of its UTF-8 encoding.

    A [str] of the sources is modelled by the Rocq [string] of its bytes, and
    an index into it is a byte index, as in Rust.  The operations below are
    the methods of [str] and [[u8]] the sources call.  Those that test
    [char]s for Unicode [White_Space] ([trim], [split_whitespace]) recognise
    the UTF-8 encodings of the White_Space code points, so they agree with
    Rust on every valid UTF-8 string (no such encoding starts with a
    continuation byte). *)
From S2P Require Import Prelude.

Open Scope string_scope.

#[global] Arguments String.append : simpl nomatch.

(** * Slices *)

Fixpoint str_take (n : nat) (s : string) : string :=
  match n, s with
  | S n, String b s => String b (str_take n s)
  | _, _ => ""
  end.

Fixpoint str_drop (n : nat) (s : string) : string :=
  match n, s with
  | O, s => s
  | S n, String _ s => str_drop n s
  | S _, "" => ""
  end.

(** [&s[a..b]] *)
Definition slice (a b : nat) (s : string) : string := str_take (b - a) (str_drop a s).

Abbreviation str_len := String.length.

(** [bytes[i]] *)
Fixpoint byte_at (s : string) (i : nat) : option byte :=
  match s, i with
  | String b _, O => Some b
  | String _ s, S i => byte_at s i
  | "", _ => None
  end.

(** * Searching *)

Fixpoint starts_with (p s : string) : bool :=
  match p, s with
  | "", _ => true
  | String a p, String b s => (a =a? b) && starts_with p s
  | String _ _, "" => false
  end.

(** [s.strip_prefix(p)] *)
Definition strip_prefix (p s : string) : option string :=
  if starts_with p s then Some (str_drop (str_len p) s) else None.

Definition ends_with (p s : string) : bool :=
  (str_len p <=? str_len s)%nat && (str_drop (str_len s - str_len p) s =? p).

(** [s.strip_suffix(p)] *)
Definition strip_suffix (p s : string) : option string :=
  if ends_with p s then Some (str_take (str_len s - str_len p) s) else None.

(** [s.find(needle)]: byte index of the first occurrence. *)
Fixpoint str_find (needle s : string) : option nat :=
  if starts_with needle s then Some O else
  match s with
  | "" => None
  | String _ s => S <$> str_find needle s
  end.

Definition contains (needle s : string) : bool :=
  match str_find needle s with Some _ => true | None => false end.

(** [s.find(|c| p(c))] on bytes. *)
Fixpoint find_byte (p : byte -> bool) (s : string) : option nat :=
  match s with
  | "" => None
  | String b s => if p b then Some O else S <$> find_byte p s
  end.

(** All bytes satisfy [p] ([s.chars().all(p)] for an ASCII class [p]). *)
Fixpoint str_all (p : byte -> bool) (s : string) : bool :=
  match s with
  | "" => true
  | String b s => p b && str_all p s
  end.

(** [s.bytes().take_while(p).count()] *)
Fixpoint count_while (p : byte -> bool) (s : string) : nat :=
  match s with
  | "" => O
  | String b s => if p b then S (count_while p s) else O
  end.

(** [!s.is_empty()] *)
Definition nonempty (s : string) : bool := negb (s =? "").

(** * Splitting *)

(** [s.split(c)]: always at least one part. *)
Fixpoint split_char (c : byte) (s : string) : list string :=
  match s with
  | "" => [""]
  | String b s =>
    if b =a? c then "" :: split_char c s
    else match split_char c s with
         | p :: ps => String b p :: ps
         | [] => [String b ""]
         end
  end.

(** [s.split_once(c)] *)
Fixpoint split_once (c : byte) (s : string) : option (string * string) :=
  match s with
  | "" => None
  | String b s =>
    if b =a? c then Some ("", s)
    else match split_once c s with
         | Some (h, t) => Some (String b h, t)
         | None => None
         end
  end.

(** [parts.join(sep)] *)
Fixpoint join (sep : string) (l : list string) : string :=
  match l with
  | [] => ""
  | [x] => x
  | x :: l => x +:+ sep +:+ join sep l
  end.

(** * White space *)

(** One-byte White_Space code points: U+0009..U+000D and U+0020. *)
Definition ws1 (a : byte) : bool := in_range 9 13 a || (code a =? 32)%N.
(** Two-byte encodings: U+0085, U+00A0. *)
Definition ws2 (a b : byte) : bool :=
  (code a =? 194)%N && ((code b =? 133)%N || (code b =? 160)%N).
(** Three-byte encodings: U+1680, U+2000..U+200A, U+2028, U+2029, U+202F,
    U+205F, U+3000. *)
Definition ws3 (a b c : byte) : bool :=
  ((code a =? 225) && (code b =? 154) && (code c =? 128) ||
   (code a =? 226) && (code b =? 128) &&
     (in_range 128 138 c || (code c =? 168) || (code c =? 169) || (code c =? 175)) ||
   (code a =? 226) && (code b =? 129) && (code c =? 159) ||
   (code a =? 227) && (code b =? 128) && (code c =? 128))%N.

(** [s.trim_start()] *)
Fixpoint trim_start (s : string) : string :=
  match s with
  | "" => ""
  | String a r =>
    if ws1 a then trim_start r else
    match r with
    | "" => s
    | String b r2 =>
      if ws2 a b then trim_start r2 else
      match r2 with
      | "" => s
      | String c r3 => if ws3 a b c then trim_start r3 else s
      end
    end
  end.

(** [s.trim_end()]: drop the longest all-white suffix. *)
Fixpoint trim_end (s : string) : string :=
  match s with
  | "" => ""
  | String a r =>
    match trim_start s with
    | "" => ""
    | _ => String a (trim_end r)
    end
  end.

Definition trim (s : string) : string := trim_end (trim_start s).

(** Number of bytes of the White_Space character [s] starts with, 0 when it
    starts with another character (or is empty). *)
Definition ws_len (s : string) : nat :=
  match s with
  | "" => 0
  | String a r =>
    if ws1 a then 1 else
    match r with
    | "" => 0
    | String b r2 =>
      if ws2 a b then 2 else
      match r2 with
      | "" => 0
      | String c _ => if ws3 a b c then 3 else 0
      end
    end
  end.

(** [s.split_whitespace()]: the maximal runs of non-white characters.  [cur]
    holds the word being read, [skip] the bytes left of a white character. *)
Fixpoint split_ws_go (s cur : string) (skip : nat) : list string :=
  match s with
  | "" => if cur =? "" then [] else [cur]
  | String b r =>
    match skip with
    | S k => split_ws_go r cur k
    | O =>
      match ws_len s with
      | O => split_ws_go r (cur +:+ String b "") 0
      | S k => if cur =? "" then split_ws_go r "" k
               else cur :: split_ws_go r "" k
      end
    end
  end.
Definition split_whitespace (s : string) : list string := split_ws_go s "" 0.

(** * Lines *)

(** Drop the [\r] of a [\r\n] terminator. *)
Definition strip_cr (s : string) : string :=
  match strip_suffix (String CR "") s with Some t => t | None => s end.

(** [s.split_inclusive('\n')]: each record with its terminator; no empty last
    record. *)
Fixpoint split_inclusive (s : string) : list string :=
  match s with
  | "" => []
  | String b r =>
    if b =a? LF then String b "" :: split_inclusive r
    else match split_inclusive r with
         | p :: ps => String b p :: ps
         | [] => [String b ""]
         end
  end.

(** The text of a record: [\n] dropped, then the [\r] before it. *)
Definition line_text (rec : string) : string :=
  match strip_suffix (String LF "") rec with
  | Some t => strip_cr t
  | None => rec
  end.

(** [s.lines()] *)
Definition str_lines (s : string) : list string := List.map line_text (split_inclusive s).

(** [str::to_ascii_lowercase], [str::to_ascii_uppercase] *)
Fixpoint lower_ascii (s : string) : string :=
  match s with "" => "" | String b s => String (to_ascii_lowercase b) (lower_ascii s) end.
Fixpoint upper_ascii (s : string) : string :=
  match s with "" => "" | String b s => String (to_ascii_uppercase b) (upper_ascii s) end.

(** * Lemmas *)

(** ** Append, length, slices *)

Lemma sapp_nil_r s : s +:+ "" = s.
Proof. induction s; simpl; congruence. Qed.

Lemma sapp_assoc a b c : (a +:+ b) +:+ c = a +:+ (b +:+ c).
Proof. induction a; simpl; congruence. Qed.

Lemma len_app a b : str_len (a +:+ b) = str_len a + str_len b.
Proof. induction a; simpl; congruence. Qed.

Lemma sapp_inj_l a b c : a +:+ b = a +:+ c -> b = c.
Proof. induction a; simpl; [done|]. intros [= H]. auto. Qed.

Lemma sapp_eq_nil a b : a +:+ b = "" <-> a = "" /\ b = "".
Proof. destruct a; simpl; split; try done; by intros [? ?]. Qed.

Lemma sapp_cons a b s : a +:+ String b s = (a +:+ String b "") +:+ s.
Proof. rewrite sapp_assoc. done. Qed.

Lemma len_zero s : str_len s = 0 <-> s = "".
Proof. by destruct s. Qed.

Lemma take_drop_id n s : str_take n s +:+ str_drop n s = s.
Proof. revert s; induction n; intros [|b s]; simpl; congruence. Qed.

Lemma drop_app p s : str_drop (str_len p) (p +:+ s) = s.
Proof. induction p; simpl; done. Qed.

Lemma take_app p s : str_take (str_len p) (p +:+ s) = p.
Proof. induction p; simpl; congruence. Qed.

Lemma sapp_inj_r a b c : a +:+ c = b +:+ c -> a = b.
Proof.
  intros H. assert (str_len a = str_len b) as Hl by (apply (f_equal str_len) in H; rewrite !len_app in H; lia).
  apply (f_equal (str_take (str_len a))) in H. rewrite take_app, Hl, take_app in H. done.
Qed.

Lemma drop_0 s : str_drop 0 s = s.
Proof. by destruct s. Qed.

Lemma take_0 s : str_take 0 s = "".
Proof. by destruct s. Qed.

Lemma drop_nil n : str_drop n "" = "".
Proof. by destruct n. Qed.

Lemma take_nil n : str_take n "" = "".
Proof. by destruct n. Qed.

Lemma drop_drop n m s : str_drop n (str_drop m s) = str_drop (m + n) s.
Proof.
  revert s; induction m as [|m IH]; intros s; [by rewrite drop_0|].
  destruct s as [|b s]; [by rewrite !drop_nil|]. apply IH.
Qed.

Lemma len_drop n s : str_len (str_drop n s) = str_len s - n.
Proof. revert s; induction n; intros [|b s]; simpl; auto. Qed.

Lemma len_take n s : str_len (str_take n s) = Nat.min n (str_len s).
Proof. revert s; induction n; intros [|b s]; simpl; auto. Qed.

Lemma drop_all n s : str_len s <= n -> str_drop n s = "".
Proof. revert s; induction n; intros [|b s]; simpl; try done; try lia. intros; apply IHn; lia. Qed.

Lemma take_all n s : str_len s <= n -> str_take n s = s.
Proof.
  revert s; induction n; intros [|b s]; simpl; try done; try lia.
  intros; f_equal; apply IHn; lia.
Qed.

Lemma slice_app a b c : slice (str_len a) (str_len a + str_len b) (a +:+ b +:+ c) = b.
Proof.
  unfold slice. rewrite drop_app. replace (_ - _) with (str_len b) by lia. apply take_app.
Qed.

Lemma byte_at_app a b i : byte_at (a +:+ b) (str_len a + i) = byte_at b i.
Proof. induction a; simpl; done. Qed.

Lemma byte_at_lt s i : i < str_len s -> exists b, byte_at s i = Some b.
Proof.
  revert i; induction s as [|a s IH]; intros [|i] Hi; simpl in *; try lia; eauto.
  apply IH; lia.
Qed.

Lemma byte_at_None s i : byte_at s i = None <-> str_len s <= i.
Proof.
  revert i; induction s as [|a s IH]; intros [|i]; simpl; split; try done; try lia;
    rewrite IH; lia.
Qed.

Lemma drop_cons s i b : byte_at s i = Some b -> str_drop i s = String b (str_drop (S i) s).
Proof.
  revert i; induction s as [|a s IH]; intros [|i]; simpl; try done.
  - intros [= ->]. done.
  - apply IH.
Qed.

Lemma len_cons b s : str_len (String b s) = S (str_len s).
Proof. done. Qed.

(** ** Prefixes, suffixes, search *)

Lemma starts_with_iff p s : starts_with p s = true <-> exists t, s = p +:+ t.
Proof.
  revert s; induction p as [|a p IH]; intros s; simpl.
  - split; [eauto|done].
  - destruct s as [|b s].
    + split; [done|]. by intros [t H].
    + rewrite andb_true_iff, IH, Ascii.eqb_eq. split.
      * intros [-> [t ->]]. eauto.
      * intros [t [= -> ->]]. eauto.
Qed.

Lemma starts_with_app p s : starts_with p (p +:+ s) = true.
Proof. apply starts_with_iff; eauto. Qed.

Lemma strip_prefix_Some p s t : strip_prefix p s = Some t <-> s = p +:+ t.
Proof.
  unfold strip_prefix. destruct (starts_with p s) eqn:E.
  - apply starts_with_iff in E as [u ->]. rewrite drop_app. split.
    + by intros [= ->].
    + intros H%sapp_inj_l. congruence.
  - split; [done|]. intros ->. by rewrite starts_with_app in E.
Qed.

Lemma strip_prefix_app p t : strip_prefix p (p +:+ t) = Some t.
Proof. by apply strip_prefix_Some. Qed.

Lemma strip_suffix_Some p s t : strip_suffix p s = Some t <-> s = t +:+ p.
Proof.
  unfold strip_suffix, ends_with. split.
  - destruct (_ && _) eqn:E; [|done]. bool_prop. intros [= <-].
    rewrite <- (take_drop_id (str_len s - str_len p) s) at 1. by f_equal.
  - intros ->. rewrite len_app. replace (_ + _ - _) with (str_len t) by lia.
    rewrite drop_app, take_app, String.eqb_refl, andb_true_r.
    rewrite (proj2 (Nat.leb_le _ _)); [done|lia].
Qed.

Lemma strip_suffix_None p s : strip_suffix p s = None <-> forall t, s <> t +:+ p.
Proof.
  split.
  - intros H t ->. enough (strip_suffix p (t +:+ p) = Some t) by congruence.
    by apply strip_suffix_Some.
  - intros H. destruct (strip_suffix p s) eqn:E; [|done].
    apply strip_suffix_Some in E. by destruct (H s0).
Qed.

Lemma strip_suffix_app p s : strip_suffix p (s +:+ p) = Some s.
Proof. by apply strip_suffix_Some. Qed.

Lemma no_suffix_tail h p q : (forall t, p <> t +:+ q) -> (forall t, q <> t +:+ p) -> forall t, h +:+ p <> t +:+ q.
Proof.
  intros H1 H2 t E. assert (G : forall h t, h +:+ p = t +:+ q -> (exists x, p = x +:+ q) \/ (exists x, q = x +:+ p)).
  { clear. induction h as [|b h IH]; intros t E; [left; by exists t|]. destruct t as [|c t]; [right; by exists (String b h)|].
    cbn in E. injection E as -> E. by apply IH in E. }
  destruct (G _ _ E) as [[x Hx]|[x Hx]]; [by apply (H1 x)|by apply (H2 x)].
Qed.

Lemma strip_suffix_other h p q : strip_suffix q p = None -> strip_suffix p q = None -> strip_suffix q (h +:+ p) = None.
Proof.
  rewrite !strip_suffix_None. apply no_suffix_tail.
Qed.

Lemma ends_with_strip p s : ends_with p s = true <-> exists t, s = t +:+ p.
Proof.
  split.
  - intros H. exists (str_take (str_len s - str_len p) s).
    apply strip_suffix_Some. unfold strip_suffix. by rewrite H.
  - intros [t H]. apply strip_suffix_Some in H. unfold strip_suffix in H.
    by destruct (ends_with p s).
Qed.

(** [find] returns the first occurrence. *)
Lemma str_find_Some needle s i :
  str_find needle s = Some i ->
  starts_with needle (str_drop i s) = true /\
  (forall j, j < i -> starts_with needle (str_drop j s) = false).
Proof.
  revert i; induction s as [|b s IH]; intros i; simpl.
  - destruct (starts_with _ _) eqn:E; [|done]. intros [= <-]. split; [done|lia].
  - destruct (starts_with _ _) eqn:E.
    + intros [= <-]. split; [done|lia].
    + destruct (str_find needle s) as [k|]; [|done]. intros [= <-].
      destruct (IH k eq_refl) as [H1 H2]. split; [done|].
      intros [|j] Hj; [done|]. apply H2. lia.
Qed.

Lemma str_find_None needle s :
  str_find needle s = None -> forall i, starts_with needle (str_drop i s) = false.
Proof.
  induction s as [|b s IH]; simpl.
  - destruct (starts_with _ _) eqn:E; [done|]. intros _ i. by rewrite drop_nil.
  - destruct (starts_with _ _) eqn:E; [done|].
    destruct (str_find needle s); [done|]. intros _ [|i]; [done|]. by apply IH.
Qed.

Lemma str_all_app p a b : str_all p (a +:+ b) = str_all p a && str_all p b.
Proof. induction a; simpl; [done|]. by rewrite IHa, andb_assoc. Qed.

Lemma str_all_byte_at p s k b : str_all p s = true -> byte_at s k = Some b -> p b = true.
Proof.
  revert k. induction s as [|x s IH]; intros [|k]; simpl; try done; intros H; bool_prop.
  - by intros [= <-].
  - by apply IH.
Qed.

Lemma str_all_impl (p q : byte -> bool) s :
  (forall b, p b = true -> q b = true) -> str_all p s = true -> str_all q s = true.
Proof.
  intros Hpq. induction s as [|b s IH]; simpl; [done|]. intros [Hb Hs]%andb_true_iff. by rewrite Hpq, IH.
Qed.

Lemma find_byte_Some p s i :
  find_byte p s = Some i ->
  (exists b, byte_at s i = Some b /\ p b = true) /\
  str_all (fun b => negb (p b)) (str_take i s) = true.
Proof.
  revert i; induction s as [|a s IH]; intros i; simpl; [done|].
  destruct (p a) eqn:E.
  - intros [= <-]. simpl. eauto.
  - destruct (find_byte p s) as [k|]; [|done]. intros [= <-].
    destruct (IH k eq_refl) as [H1 H2]. simpl. rewrite E. eauto.
Qed.

Lemma find_byte_None p s :
  find_byte p s = None <-> str_all (fun b => negb (p b)) s = true.
Proof.
  induction s as [|a s IH]; simpl; [done|]. destruct (p a); [done|]. simpl.
  rewrite <- IH. by destruct (find_byte p s).
Qed.

(** The byte at which a byte-class search first succeeds, on a split string. *)
Lemma find_byte_app p a b s :
  str_all (fun b => negb (p b)) a = true -> p b = true ->
  find_byte p (a +:+ String b s) = Some (str_len a).
Proof.
  intros Ha Hb. induction a as [|x a IH]; simpl in *; [by rewrite Hb|].
  bool_prop. rewrite H. by rewrite IH.
Qed.

(** ** Splitting and joining *)

(** [p] holds of no byte of [s]. *)
Abbreviation lacks c s := (str_all (fun b => negb (b =a? c)) s = true).

Lemma split_char_ne c s : split_char c s <> [].
Proof. destruct s as [|b s]; simpl; [done|]. destruct (b =a? c); [done|]. by destruct (split_char c s). Qed.

Lemma join_cons sep x l : l <> [] -> join sep (x :: l) = x +:+ sep +:+ join sep l.
Proof. by destruct l. Qed.

Lemma split_char_join c s : join (String c "") (split_char c s) = s.
Proof.
  induction s as [|b s IH]; simpl; [done|]. destruct (b =a? c) eqn:E.
  - apply Ascii.eqb_eq in E as ->. rewrite join_cons by apply split_char_ne.
    rewrite IH. done.
  - destruct (split_char c s) as [|p ps] eqn:Es; [by apply split_char_ne in Es|].
    destruct ps; simpl in *; congruence.
Qed.

Lemma split_char_lacks c s : Forall (fun p => lacks c p) (split_char c s).
Proof.
  induction s as [|b s IH]; simpl; [by repeat constructor|]. destruct (b =a? c) eqn:E.
  - by constructor.
  - destruct (split_char c s); inversion_clear IH; repeat constructor; simpl; by rewrite ?E.
Qed.

Lemma split_char_none c s : lacks c s -> split_char c s = [s].
Proof.
  induction s as [|b s IH]; simpl; [done|]. intros H. bool_prop. rewrite H. by rewrite IH.
Qed.

Lemma split_char_app c a s :
  lacks c a -> split_char c (a +:+ String c s) = a :: split_char c s.
Proof.
  induction a as [|b a IH]; simpl; [by rewrite Ascii.eqb_refl|].
  intros H. bool_prop. rewrite H. by rewrite IH.
Qed.

Lemma split_join c x l :
  Forall (fun p => lacks c p) (x :: l) -> split_char c (join (String c "") (x :: l)) = x :: l.
Proof.
  revert x. induction l as [|y l IH]; intros x H; inversion_clear H as [|?? Hx Hl].
  - by apply split_char_none.
  - rewrite join_cons by done. change (String c "" +:+ ?r) with (String c r).
    rewrite split_char_app by done. by rewrite IH.
Qed.

Lemma split_once_Some c s h t : split_once c s = Some (h, t) <-> s = h +:+ String c t /\ lacks c h.
Proof.
  revert h t. induction s as [|b s IH]; intros h t; simpl.
  - split; [done|]. by intros [H _]; destruct h.
  - destruct (b =a? c) eqn:E.
    + apply Ascii.eqb_eq in E as ->. split.
      * by intros [= <- <-].
      * intros [H Hl]. destruct h as [|a h]; simpl in *; [congruence|].
        injection H as <- _. by rewrite Ascii.eqb_refl in Hl.
    + destruct (split_once c s) as [[h' t']|] eqn:Es.
      * split.
        -- intros [= <- <-]. apply IH in Es as [-> ?] || (destruct (proj1 (IH _ _) eq_refl) as [-> ?]).
           simpl. by rewrite E.
        -- intros [H Hl]. destruct h as [|a h]; simpl in *.
           ++ injection H as -> _. by rewrite Ascii.eqb_refl in E.
           ++ injection H as <- H. bool_prop.
              assert (Some (h', t') = Some (h, t)) as [= -> ->] by (apply IH; done). done.
      * split; [done|]. intros [H Hl]. destruct h as [|a h]; simpl in *.
        -- injection H as -> _. by rewrite Ascii.eqb_refl in E.
        -- injection H as <- H. bool_prop.
           assert (@None (string * string) = Some (h, t)) by (apply IH; done). done.
Qed.

Lemma split_once_lacks c s : lacks c s -> split_once c s = None.
Proof. induction s as [|b s IH]; [done|]. cbn. intros H. bool_prop. rewrite H, IH; done. Qed.

Lemma split_once_app c h t : lacks c h -> split_once c (h +:+ String c t) = Some (h, t).
Proof. intros H. by apply split_once_Some. Qed.

Lemma str_find_le needle a s : exists i, str_find needle (a +:+ needle +:+ s) = Some i /\ i <= str_len a.
Proof.
  induction a as [|x a (i & Hi & Hl)].
  - exists 0. split; [|done]. cbn [String.append]. pose proof (starts_with_app needle s) as H. destruct (needle +:+ s); cbn; by rewrite H.
  - cbn [String.append str_find]. destruct (starts_with _ _); [exists 0; cbn; split; [done|lia]|]. rewrite Hi. exists (S i). cbn. split; [done|lia].
Qed.

Lemma contains_iff k s : contains k s = true <-> exists a b, s = a +:+ k +:+ b.
Proof.
  unfold contains. split.
  - destruct (str_find k s) as [i|] eqn:E; [|done]. intros _. apply str_find_Some in E as [E _].
    apply starts_with_iff in E as [t Et]. exists (str_take i s), t. by rewrite <- Et, take_drop_id.
  - intros (a & b & ->). destruct (str_find_le k a b) as (i & -> & _). done.
Qed.

(** ** White space *)

Lemma trim_start_ws_len s : ws_len s = 0 -> trim_start s = s.
Proof.
  destruct s as [|a [|b [|c s]]]; simpl; try done;
    repeat (case_match; try done).
Qed.

(** Induction along the characters [trim_start] reads: at most three bytes at
    a time. *)
Lemma str_ind3 (P : string -> Prop) :
  (forall s, (forall t, str_len t < str_len s -> P t) -> P s) -> forall s, P s.
Proof.
  intros H s. remember (str_len s) as n eqn:En. revert s En.
  induction (lt_wf n) as [n _ IH]. intros s ->. apply H. intros t Ht. by eapply IH.
Qed.

Lemma trim_start_step s : ws_len s <> 0 -> trim_start s = trim_start (str_drop (ws_len s) s).
Proof.
  destruct s as [|a [|b [|c s]]]; simpl; try done;
    repeat (case_match; simpl; try done).
Qed.

Lemma ws_len_le s : ws_len s <= str_len s.
Proof.
  destruct s as [|a [|b [|c s]]]; simpl; try done; repeat (case_match; simpl; try lia).
Qed.

Lemma trim_start_ind (P : string -> string -> Prop) :
  (forall s, ws_len s = 0 -> P s s) ->
  (forall s, ws_len s <> 0 -> P (str_drop (ws_len s) s) (trim_start s) -> P s (trim_start s)) ->
  forall s, P s (trim_start s).
Proof.
  intros H0 H1. apply str_ind3. intros s IH. destruct (decide (ws_len s = 0)) as [E|E].
  - rewrite trim_start_ws_len by done. auto.
  - apply H1; [done|]. rewrite trim_start_step by done. apply IH.
    rewrite len_drop. pose proof (ws_len_le s). lia.
Qed.

Lemma trim_start_suffix s : exists w, s = w +:+ trim_start s.
Proof.
  apply (trim_start_ind (fun s t => exists w, s = w +:+ t)); clear s; intros s Hs.
  - by exists "".
  - intros [w Hw]. exists (str_take (ws_len s) s +:+ w). rewrite sapp_assoc, <- Hw.
    by rewrite take_drop_id.
Qed.

Lemma ws_len_trim_start s : ws_len (trim_start s) = 0.
Proof. by apply (trim_start_ind (fun _ t => ws_len t = 0)). Qed.

Lemma trim_start_idem s : trim_start (trim_start s) = trim_start s.
Proof. apply trim_start_ws_len, ws_len_trim_start. Qed.

Lemma trim_end_prefix s : exists w, s = trim_end s +:+ w /\ trim_start w = "".
Proof.
  induction s as [|a s IH]; [by exists ""|]. cbn [trim_end].
  destruct (trim_start (String a s)) eqn:E.
  - by exists (String a s).
  - destruct IH as (w & H & Hw). exists w. simpl. by rewrite <- H.
Qed.

Lemma trim_end_nonempty s : trim_start s <> "" -> trim_end s <> "".
Proof. destruct s as [|a s]; [done|]. intros H. cbn [trim_end]. by destruct (trim_start (String a s)). Qed.

Lemma len_trim_start s : str_len (trim_start s) <= str_len s.
Proof. destruct (trim_start_suffix s) as [w Hw]. rewrite Hw at 2. rewrite len_app. lia. Qed.

Lemma len_trim_end s : str_len (trim_end s) <= str_len s.
Proof. destruct (trim_end_prefix s) as (w & Hw & _). rewrite Hw at 2. rewrite len_app. lia. Qed.

Lemma trim_infix s : exists a b, s = a +:+ trim s +:+ b.
Proof.
  destruct (trim_start_suffix s) as [a Ha]. destruct (trim_end_prefix (trim_start s)) as (b & Hb & _).
  exists a, b. unfold trim. rewrite <- Hb. done.
Qed.

Lemma trim_space s : trim (String " " s) = trim s.
Proof. done. Qed.

(** ** Lines *)

Lemma split_inclusive_concat s : foldr String.append "" (split_inclusive s) = s.
Proof.
  induction s as [|b s IH]; simpl; [done|]. destruct (b =a? LF); simpl; [by rewrite IH|].
  destruct (split_inclusive s); simpl in *; congruence.
Qed.

(** Every record but the last is terminated. *)
Lemma split_inclusive_lf s k r r' :
  nth_error (split_inclusive s) k = Some r -> nth_error (split_inclusive s) (S k) = Some r' ->
  exists t, r = t +:+ String LF "".
Proof.
  revert k r r'. induction s as [|b s IH]; intros k r r'; simpl; [by destruct k|].
  destruct (b =a? LF) eqn:E.
  - apply Ascii.eqb_eq in E as ->. destruct k as [|k]; simpl.
    + intros [= <-] _. by exists "".
    + apply IH.
  - destruct (split_inclusive s) as [|p ps] eqn:Es; simpl; [by destruct k|].
    destruct k as [|k]; simpl.
    + intros [= <-] H. destruct (IH 0 p r' eq_refl H) as [t ->]. by exists (String b t).
    + intros H1 H2. by apply (IH (S k) r r').
Qed.
