(* ===== verification/BTree.v ===== *)
(** Rust's [BTreeMap] and [BTreeSet] as strictly sorted lists.

    The analyzer indexes everything by [BTreeMap]/[BTreeSet] and lets their
    iteration order decide the order of its output, so the model keeps that
    order: a map is the list of its entries in strictly ascending key order.
    A strictly sorted list is canonical, hence maps with the same lookups are
    equal ([bt_ext]). *)
From S2P Require Import Prelude Str.

(** * Key orders *)

(** What a key type promises to the containers: Rust's [Ord]. *)
Class OrdKey (K : Type) := {
  kcmp : K -> K -> comparison;
  kcmp_eq : forall a b, kcmp a b = Eq <-> a = b;
  kcmp_antisym : forall a b, kcmp b a = CompOpp (kcmp a b);
  kcmp_trans : forall a b c, kcmp a b = Lt -> kcmp b c = Lt -> kcmp a c = Lt
}.

Section OrdFacts.
Context {K : Type} `{OrdKey K}.

Lemma kcmp_refl a : kcmp a a = Eq.
Proof. by apply kcmp_eq. Qed.

Lemma kcmp_gt a b : kcmp a b = Gt <-> kcmp b a = Lt.
Proof. rewrite (kcmp_antisym a b). by destruct (kcmp a b). Qed.

Lemma kcmp_lt_irrefl a : kcmp a a <> Lt.
Proof. by rewrite kcmp_refl. Qed.

Definition keqb (a b : K) : bool := match kcmp a b with Eq => true | _ => false end.

Lemma keqb_eq a b : keqb a b = true <-> a = b.
Proof. unfold keqb. rewrite <- kcmp_eq. by destruct (kcmp a b). Qed.

Lemma keqb_refl a : keqb a a = true.
Proof. by apply keqb_eq. Qed.

Lemma keqb_sym a b : keqb a b = keqb b a.
Proof. unfold keqb. rewrite (kcmp_antisym b a). by destruct (kcmp b a). Qed.

Lemma keqb_neq a b : keqb a b = false <-> a <> b.
Proof. rewrite <- keqb_eq. by destruct (keqb a b). Qed.
End OrdFacts.

(** [str] is ordered bytewise. *)
Definition byte_cmp (a b : byte) : comparison := N.compare (code a) (code b).

Lemma byte_cmp_eq a b : byte_cmp a b = Eq <-> a = b.
Proof.
  unfold byte_cmp, code. rewrite N.compare_eq_iff. split; [|congruence].
  intros H. rewrite <- (ascii_N_embedding a), <- (ascii_N_embedding b). congruence.
Qed.

Fixpoint str_cmp (s t : string) : comparison :=
  match s, t with
  | "", "" => Eq
  | "", _ => Lt
  | _, "" => Gt
  | String a s, String b t =>
    match byte_cmp a b with Eq => str_cmp s t | c => c end
  end.

Lemma str_cmp_eq s t : str_cmp s t = Eq <-> s = t.
Proof.
  revert t; induction s as [|a s IH]; intros [|b t]; simpl; try done.
  destruct (byte_cmp a b) eqn:E.
  - apply byte_cmp_eq in E as ->. rewrite IH. split; congruence.
  - split; [done|]. intros [= -> ->]. by rewrite (proj2 (byte_cmp_eq b b)) in E.
  - split; [done|]. intros [= -> ->]. by rewrite (proj2 (byte_cmp_eq b b)) in E.
Qed.

Lemma str_cmp_antisym s t : str_cmp t s = CompOpp (str_cmp s t).
Proof.
  revert t; induction s as [|a s IH]; intros [|b t]; simpl; try done.
  unfold byte_cmp. rewrite (N.compare_antisym (code a) (code b)).
  destruct (N.compare _ _); simpl; auto.
Qed.

Lemma str_cmp_trans s t u : str_cmp s t = Lt -> str_cmp t u = Lt -> str_cmp s u = Lt.
Proof.
  revert t u; induction s as [|a s IH]; intros [|b t] [|c u]; simpl; try done.
  unfold byte_cmp.
  destruct (N.compare_spec (code a) (code b)), (N.compare_spec (code b) (code c)),
    (N.compare_spec (code a) (code c)); intros; try done; try lia; eauto.
Qed.

#[export] Instance string_ord : OrdKey string := {
  kcmp := str_cmp;
  kcmp_eq := str_cmp_eq;
  kcmp_antisym := str_cmp_antisym;
  kcmp_trans := str_cmp_trans
}.

(** [usize] keys. *)
#[export] Instance nat_ord : OrdKey nat.
Proof.
  refine {| kcmp := Nat.compare |}.
  - apply Nat.compare_eq_iff.
  - intros a b. apply Nat.compare_antisym.
  - intros a b c. rewrite !Nat.compare_lt_iff. lia.
Defined.

(** Tuples are ordered lexicographically. *)
#[export] Instance pair_ord {A B} `{OrdKey A} `{OrdKey B} : OrdKey (A * B).
Proof.
  refine {| kcmp p q := match kcmp p.1 q.1 with Eq => kcmp p.2 q.2 | c => c end |}.
  - intros [a b] [c d]; simpl. destruct (kcmp a c) eqn:E.
    + apply kcmp_eq in E as ->. rewrite kcmp_eq. split; congruence.
    + split; [done|]. intros [= -> ->]. by rewrite kcmp_refl in E.
    + split; [done|]. intros [= -> ->]. by rewrite kcmp_refl in E.
  - intros [a b] [c d]; simpl. rewrite (kcmp_antisym a c).
    destruct (kcmp a c); simpl; auto using kcmp_antisym.
  - intros [a b] [c d] [e f]; simpl.
    destruct (kcmp a c) eqn:E1; [|destruct (kcmp c e) eqn:E2|done]; intros H1 H2; try done.
    + apply kcmp_eq in E1 as ->. destruct (kcmp c e); eauto using kcmp_trans.
    + apply kcmp_eq in E2 as ->. by rewrite E1.
    + by rewrite (kcmp_trans _ _ _ E1 E2).
Defined.

(** [None] sorts before every [Some]. *)
#[export] Instance option_ord {A} `{OrdKey A} : OrdKey (option A).
Proof.
  refine {| kcmp p q := match p, q with
                        | None, None => Eq | None, Some _ => Lt
                        | Some _, None => Gt | Some a, Some b => kcmp a b end |}.
  - intros [a|] [b|]; try done. rewrite kcmp_eq. split; congruence.
  - intros [a|] [b|]; try done. apply kcmp_antisym.
  - intros [a|] [b|] [c|]; try done. apply kcmp_trans.
Defined.

(** * Maps *)

Section Map.
Context {K V : Type} `{OrdKey K}.

Abbreviation map := (list (K * V)).

Fixpoint bt_get (k : K) (m : map) : option V :=
  match m with
  | [] => None
  | (k', v) :: m => if keqb k k' then Some v else bt_get k m
  end.

(** [BTreeMap::insert]: an existing key keeps its place and gets the new
    value. *)
Fixpoint bt_insert (k : K) (v : V) (m : map) : map :=
  match m with
  | [] => [(k, v)]
  | (k', v') :: m' =>
    match kcmp k k' with
    | Lt => (k, v) :: m
    | Eq => (k, v) :: m'
    | Gt => (k', v') :: bt_insert k v m'
    end
  end.

Definition bt_contains (k : K) (m : map) : bool :=
  match bt_get k m with Some _ => true | None => false end.

(** [entry(k).or_insert(v)] *)
Definition bt_or_insert (k : K) (v : V) (m : map) : map :=
  match bt_get k m with Some _ => m | None => bt_insert k v m end.

(** [iter.collect::<BTreeMap<_, _>>()] *)
Definition bt_collect (l : list (K * V)) : map :=
  fold_left (fun m kv => bt_insert kv.1 kv.2 m) l [].

(** Strictly ascending keys. *)
Fixpoint bt_sorted (m : map) : Prop :=
  match m with
  | [] => True
  | (k, _) :: m => Forall (fun kv => kcmp k kv.1 = Lt) m /\ bt_sorted m
  end.

Lemma bt_get_insert k v m k' :
  bt_get k' (bt_insert k v m) = if keqb k' k then Some v else bt_get k' m.
Proof.
  induction m as [|[k0 v0] m IH]; simpl; [done|].
  destruct (kcmp k k0) eqn:E; simpl.
  - apply kcmp_eq in E as ->. by destruct (keqb k' k0).
  - by destruct (keqb k' k).
  - rewrite IH. destruct (keqb k' k) eqn:E1, (keqb k' k0) eqn:E2; try done.
    apply keqb_eq in E1 as ->. apply keqb_eq in E2 as ->. by rewrite kcmp_refl in E.
Qed.

Lemma bt_get_insert_eq k v m : bt_get k (bt_insert k v m) = Some v.
Proof. by rewrite bt_get_insert, keqb_refl. Qed.

Lemma bt_get_insert_ne k v m k' : k' <> k -> bt_get k' (bt_insert k v m) = bt_get k' m.
Proof. intros Hne%keqb_neq. by rewrite bt_get_insert, Hne. Qed.

Lemma bt_insert_Forall (P : K * V -> Prop) k v m :
  P (k, v) -> Forall P m -> Forall P (bt_insert k v m).
Proof.
  intros Hk Hm. induction Hm as [|[k0 v0] m H0 Hm IH]; simpl; [by constructor|].
  destruct (kcmp k k0); repeat constructor; auto.
Qed.

Lemma bt_insert_sorted k v m : bt_sorted m -> bt_sorted (bt_insert k v m).
Proof.
  induction m as [|[k0 v0] m IH]; simpl; [done|]. intros [H1 H2].
  destruct (kcmp k k0) eqn:E; simpl.
  - apply kcmp_eq in E as ->. done.
  - split; [|done]. constructor; [done|]. eapply Forall_impl; [exact H1|].
    intros [k1 v1] Hlt; simpl in *. eauto using kcmp_trans.
  - split; [|auto]. apply bt_insert_Forall; [|done]. by apply kcmp_gt.
Qed.

Lemma bt_get_Forall_lt k m : Forall (fun kv => kcmp k kv.1 = Lt) m -> bt_get k m = None.
Proof.
  induction 1 as [|[k0 v0] m H0 Hm IH]; simpl in *; [done|].
  unfold keqb. by rewrite H0.
Qed.

Lemma bt_get_In k v m : bt_get k m = Some v -> In (k, v) m.
Proof.
  induction m as [|[k0 v0] m IH]; simpl; [done|]. destruct (keqb k k0) eqn:E.
  - apply keqb_eq in E as ->. intros [= ->]. by left.
  - intros Hg. right. auto.
Qed.

Lemma bt_In_get k v m : bt_sorted m -> In (k, v) m -> bt_get k m = Some v.
Proof.
  induction m as [|[k0 v0] m IH]; simpl; [done|]. intros [H1 H2] [[= -> ->]|Hin].
  - by rewrite keqb_refl.
  - destruct (keqb k k0) eqn:E; [|auto]. apply keqb_eq in E as ->.
    rewrite Forall_forall in H1. apply list_elem_of_In in Hin.
    specialize (H1 _ Hin). by apply kcmp_lt_irrefl in H1.
Qed.

Lemma bt_get_None k m : bt_get k m = None <-> ~ In k (m.*1).
Proof.
  induction m as [|[k0 v0] m IH]; simpl; [tauto|].
  destruct (keqb k k0) eqn:E.
  - apply keqb_eq in E as ->. split; [done|]. tauto.
  - apply keqb_neq in E. rewrite IH. naive_solver.
Qed.

Lemma bt_keys_In k m : In k (m.*1) <-> exists v, bt_get k m = Some v.
Proof.
  destruct (bt_get k m) eqn:E.
  - split; [eauto|]. intros _. apply bt_get_In in E. by apply (in_map fst) in E.
  - split; [by apply bt_get_None in E|]. by intros [v Hv].
Qed.

Lemma bt_contains_iff k m : bt_contains k m = true <-> exists v, bt_get k m = Some v.
Proof. unfold bt_contains. destruct (bt_get k m); naive_solver. Qed.

Lemma bt_sorted_NoDup m : bt_sorted m -> NoDup (m.*1).
Proof.
  induction m as [|[k v] m IH]; simpl; [constructor|]. intros [H1 H2].
  constructor; [|auto]. rewrite list_elem_of_In, in_map_iff. intros ([k' v'] & Hk & Hin); simpl in *.
  rewrite Forall_forall in H1. apply list_elem_of_In in Hin.
  specialize (H1 _ Hin). simpl in H1. subst. by apply kcmp_lt_irrefl in H1.
Qed.

(** [map.remove(&k)] *)
Definition bt_remove (k : K) (m : map) : map := List.filter (fun kv => negb (keqb k kv.1)) m.

Lemma bt_get_remove k m k' : bt_get k' (bt_remove k m) = if keqb k k' then None else bt_get k' m.
Proof.
  unfold bt_remove. induction m as [|[k0 v0] m IH]; simpl; [by destruct (keqb k k')|].
  destruct (keqb k k0) eqn:E; simpl; rewrite IH.
  - apply keqb_eq in E as ->. destruct (keqb k0 k') eqn:E'; [done|]. apply keqb_neq in E'.
    destruct (keqb k' k0) eqn:E''; [|done]. apply keqb_eq in E''. congruence.
  - destruct (keqb k' k0) eqn:E'; [|done]. apply keqb_eq in E' as ->. by rewrite E.
Qed.

Lemma bt_remove_sorted k m : bt_sorted m -> bt_sorted (bt_remove k m).
Proof.
  unfold bt_remove. induction m as [|[k0 v0] m IH]; simpl; [done|]. intros [H1 H2].
  destruct (keqb k k0); simpl; [auto|]. split; [|auto]. apply Forall_forall. intros kv Hkv.
  apply list_elem_of_In, filter_In in Hkv as [Hkv _]. rewrite Forall_forall in H1. apply H1. by apply list_elem_of_In.
Qed.

(** Two maps with the same lookups are the same list. *)
Lemma bt_ext m1 m2 :
  bt_sorted m1 -> bt_sorted m2 -> (forall k, bt_get k m1 = bt_get k m2) -> m1 = m2.
Proof.
  revert m2. induction m1 as [|[k1 v1] m1 IH]; intros [|[k2 v2] m2]; simpl; [done| | |].
  - intros _ _ Hg. specialize (Hg k2). by rewrite keqb_refl in Hg.
  - intros _ _ Hg. specialize (Hg k1). by rewrite keqb_refl in Hg.
  - intros [F1 S1] [F2 S2] Hg.
    assert (k1 = k2) as ->.
    { destruct (kcmp k1 k2) eqn:E; [by apply kcmp_eq| |].
      - pose proof (Hg k1) as G. rewrite keqb_refl in G.
        unfold keqb in G. rewrite E in G.
        rewrite bt_get_Forall_lt in G; [done|].
        eapply Forall_impl; [exact F2|]. intros [k v]; simpl; eauto using kcmp_trans.
      - apply kcmp_gt in E. pose proof (Hg k2) as G. rewrite keqb_refl in G.
        unfold keqb in G. rewrite E in G.
        rewrite bt_get_Forall_lt in G; [done|].
        eapply Forall_impl; [exact F1|]. intros [k v]; simpl; eauto using kcmp_trans. }
    pose proof (Hg k2) as G. rewrite !keqb_refl in G. injection G as ->.
    f_equal. apply IH; [done..|]. intros k. specialize (Hg k).
    destruct (keqb k k2) eqn:E; [|done]. apply keqb_eq in E as ->.
    by rewrite !bt_get_Forall_lt.
Qed.

Lemma bt_fold_get l m k :
  bt_get k (fold_left (fun m kv => bt_insert kv.1 kv.2 m) l m) =
  match List.find (fun kv => keqb k kv.1) (rev l) with
  | Some kv => Some kv.2
  | None => bt_get k m
  end.
Proof.
  revert m. induction l as [|[k0 v0] l IH]; intros m; simpl; [done|].
  rewrite IH, find_app. destruct (List.find _ (rev l)); [done|]. simpl.
  rewrite bt_get_insert. by destruct (keqb k k0).
Qed.

Lemma bt_fold_sorted l m :
  bt_sorted m -> bt_sorted (fold_left (fun m kv => bt_insert kv.1 kv.2 m) l m).
Proof.
  revert m. induction l as [|kv l IH]; intros m Hm; simpl; [done|].
  by apply IH, bt_insert_sorted.
Qed.

(** [collect] keeps the last value given to a key. *)
Lemma bt_collect_get l k :
  bt_get k (bt_collect l) = snd <$> List.find (fun kv => keqb k kv.1) (rev l).
Proof. unfold bt_collect. rewrite bt_fold_get. by destruct (List.find _ _). Qed.

Lemma bt_collect_sorted l : bt_sorted (bt_collect l).
Proof. by apply bt_fold_sorted. Qed.

Lemma bt_insert_length k v m : List.length (bt_insert k v m) <= S (List.length m).
Proof. induction m as [|[k' v'] m IH]; simpl; [lia|]. destruct (kcmp k k'); simpl; lia. Qed.

Lemma bt_collect_length l : List.length (bt_collect l) <= List.length l.
Proof.
  unfold bt_collect. change (List.length l) with (List.length (@nil (K * V)) + List.length l).
  generalize (@nil (K * V)) as m. induction l as [|kv l IH]; intros m; simpl; [lia|].
  specialize (IH (bt_insert kv.1 kv.2 m)). pose proof (bt_insert_length kv.1 kv.2 m). lia.
Qed.

Lemma bt_collect_keys l k : In k ((bt_collect l).*1) <-> In k (l.*1).
Proof.
  rewrite bt_keys_In, bt_collect_get. split.
  - intros [v Hv]. destruct (List.find _ _) as [[k' v']|] eqn:E; [|done].
    apply find_some in E as [Hin Heq]. apply keqb_eq in Heq; simpl in *; subst.
    apply in_rev in Hin. by apply (in_map fst) in Hin.
  - intros Hin. destruct (List.find _ _) as [kv|] eqn:E; [by exists kv.2|].
    apply in_map_iff in Hin as (kv & <- & Hin). apply in_rev in Hin.
    apply (find_none _ _ E) in Hin. by rewrite keqb_refl in Hin.
Qed.

Lemma bt_insert_perm k v m : ~ In k (m.*1) -> bt_insert k v m ≡ₚ (k, v) :: m.
Proof.
  induction m as [|[k' v'] m IH]; intros Hk; simpl in *; [done|].
  destruct (kcmp k k') eqn:E; [|done|].
  - apply kcmp_eq in E as ->. tauto.
  - rewrite IH by tauto. apply perm_swap.
Qed.
(** Distinct keys: the entries, sorted. *)
Lemma bt_collect_perm l : NoDup (l.*1) -> bt_collect l ≡ₚ l.
Proof.
  intros Hl. unfold bt_collect. change l with ([] ++ l)%list at 2.
  assert (Hd : NoDup (([] ++ l)%list.*1)) by done. revert Hd. generalize (@nil (K * V)). clear Hl.
  induction l as [|[k v] l IH]; intros m Hd; simpl; [by rewrite app_nil_r|].
  assert (Hp : (bt_insert k v m ++ l ≡ₚ m ++ (k, v) :: l)%list).
  { rewrite bt_insert_perm; [simpl; apply Permutation_middle|]. intros Hin. rewrite fmap_app in Hd. apply NoDup_app in Hd as (_ & Hd & _).
    apply (Hd k); [by apply list_elem_of_In|simpl; left]. }
  rewrite IH; [done|]. by rewrite Hp.
Qed.

Lemma bt_or_insert_get k v m k' :
  bt_get k' (bt_or_insert k v m) =
  match bt_get k' m with Some w => Some w | None => if keqb k' k then Some v else None end.
Proof.
  unfold bt_or_insert. destruct (bt_get k m) eqn:E.
  - destruct (bt_get k' m) eqn:E'; [done|]. destruct (keqb k' k) eqn:Ek; [|done].
    apply keqb_eq in Ek as ->. congruence.
  - rewrite bt_get_insert. destruct (keqb k' k) eqn:Ek.
    + apply keqb_eq in Ek as ->. by rewrite E.
    + by destruct (bt_get k' m).
Qed.

Lemma bt_or_insert_sorted k v m : bt_sorted m -> bt_sorted (bt_or_insert k v m).
Proof. unfold bt_or_insert. destruct (bt_get k m); auto using bt_insert_sorted. Qed.
End Map.

(** Mapping the values keeps the keys. *)
Lemma bt_get_fmap {K A B} `{OrdKey K} (f : A -> B) (m : list (K * A)) k :
  bt_get k (List.map (fun kv => (kv.1, f kv.2)) m) = f <$> bt_get k m.
Proof.
  induction m as [|[k0 v0] m IH]; simpl; [done|]. by destruct (keqb k k0).
Qed.

(** * Sets *)

Section Set_.
Context {K : Type} `{OrdKey K}.

Fixpoint bs_mem (k : K) (s : list K) : bool :=
  match s with [] => false | k' :: s => keqb k k' || bs_mem k s end.

Fixpoint bs_insert (k : K) (s : list K) : list K :=
  match s with
  | [] => [k]
  | k' :: s' =>
    match kcmp k k' with
    | Lt => k :: s
    | Eq => s
    | Gt => k' :: bs_insert k s'
    end
  end.

(** [iter.collect::<BTreeSet<_>>()] *)
Definition bs_collect (l : list K) : list K := fold_left (fun s k => bs_insert k s) l [].

Fixpoint bs_sorted (s : list K) : Prop :=
  match s with [] => True | k :: s => Forall (fun k' => kcmp k k' = Lt) s /\ bs_sorted s end.

Lemma bs_mem_In k s : bs_mem k s = true <-> In k s.
Proof.
  induction s as [|k0 s IH]; simpl; [done|]. rewrite orb_true_iff, keqb_eq, IH.
  naive_solver.
Qed.

Lemma bs_mem_false k s : bs_mem k s = false <-> ~ In k s.
Proof. rewrite <- bs_mem_In. by destruct (bs_mem k s). Qed.

Lemma bs_insert_In k s k' : In k' (bs_insert k s) <-> k' = k \/ In k' s.
Proof.
  induction s as [|k0 s IH]; simpl; [naive_solver|]. destruct (kcmp k k0) eqn:E; simpl.
  - apply kcmp_eq in E as ->. naive_solver.
  - naive_solver.
  - rewrite IH. naive_solver.
Qed.

Lemma bs_insert_sorted k s : bs_sorted s -> bs_sorted (bs_insert k s).
Proof.
  induction s as [|k0 s IH]; simpl; [done|]. intros [H1 H2].
  destruct (kcmp k k0) eqn:E; simpl; [done| |].
  - split; [|done]. constructor; [done|]. eapply Forall_impl; [exact H1|].
    intros k1 Hlt. eauto using kcmp_trans.
  - split; [|auto]. apply Forall_forall. intros k1 Hk1.
    apply list_elem_of_In, bs_insert_In in Hk1 as [->|Hk1].
    + by apply kcmp_gt.
    + rewrite Forall_forall in H1. apply H1. by apply list_elem_of_In.
Qed.

Lemma bs_fold_In l s k : In k (fold_left (fun s k => bs_insert k s) l s) <-> In k l \/ In k s.
Proof.
  revert s. induction l as [|k0 l IH]; intros s; simpl; [tauto|].
  rewrite IH, bs_insert_In. naive_solver.
Qed.

Lemma bs_collect_In l k : In k (bs_collect l) <-> In k l.
Proof. unfold bs_collect. rewrite bs_fold_In. simpl. tauto. Qed.

Lemma bs_fold_sorted l s : bs_sorted s -> bs_sorted (fold_left (fun s k => bs_insert k s) l s).
Proof.
  revert s. induction l as [|k l IH]; intros s Hs; simpl; [done|].
  by apply IH, bs_insert_sorted.
Qed.

Lemma bs_collect_sorted l : bs_sorted (bs_collect l).
Proof. by apply bs_fold_sorted. Qed.

Lemma bs_sorted_NoDup s : bs_sorted s -> NoDup s.
Proof.
  induction s as [|k s IH]; simpl; [constructor|]. intros [H1 H2].
  constructor; [|auto]. intros Hin. rewrite Forall_forall in H1.
  specialize (H1 _ Hin). by apply kcmp_lt_irrefl in H1.
Qed.

(** A sorted list is determined by its elements. *)
Lemma bs_ext s1 s2 :
  bs_sorted s1 -> bs_sorted s2 -> (forall k, In k s1 <-> In k s2) -> s1 = s2.
Proof.
  intros S1 S2 Hin.
  assert (G : List.map (fun k => (k, tt)) s1 = List.map (fun k => (k, tt)) s2).
  { assert (Hs : forall s, bs_sorted s -> bt_sorted (List.map (fun k => (k, tt)) s)).
    { induction s as [|k s IH]; simpl; [done|]. intros [F S]. split; [|auto].
      rewrite Forall_forall in F. apply Forall_forall. intros kv Hkv.
      apply list_elem_of_In, in_map_iff in Hkv as (k' & <- & Hk'). apply F.
      by apply list_elem_of_In. }
    assert (Hg : forall k s, bt_get k (List.map (fun k => (k, tt)) s) =
                   if bs_mem k s then Some tt else None).
    { intros k s. induction s as [|k0 s IH]; simpl; [done|]. rewrite IH.
      by destruct (keqb k k0). }
    apply bt_ext; [auto..|]. intros k. rewrite !Hg.
    destruct (bs_mem k s1) eqn:E1, (bs_mem k s2) eqn:E2; try done; exfalso.
    - apply bs_mem_In, Hin, bs_mem_In in E1. congruence.
    - apply bs_mem_In, Hin, bs_mem_In in E2. congruence. }
  apply (f_equal (List.map fst)) in G. rewrite !map_map, !map_id in G. done.
Qed.

Lemma bs_collect_snoc l k : bs_collect (l ++ [k]) = bs_insert k (bs_collect l).
Proof. unfold bs_collect. by rewrite fold_left_app. Qed.

Lemma bs_insert_mem k s : bs_sorted s -> In k s -> bs_insert k s = s.
Proof.
  intros Hs Hk. apply bs_ext; [by apply bs_insert_sorted|done|]. intros k'. rewrite bs_insert_In. split; [|by right].
  by intros [->|].
Qed.

Lemma bs_insert_new k s : ~ In k s -> bs_insert k s ≡ₚ k :: s.
Proof.
  induction s as [|k0 s IH]; intros Hk; cbn [bs_insert]; [done|]. destruct (kcmp k k0) eqn:E.
  - apply kcmp_eq in E as ->. destruct Hk. by left.
  - done.
  - rewrite IH; [apply Permutation_swap|]. intros ?. apply Hk. by right.
Qed.
End Set_.

#[export] Hint Resolve bt_insert_sorted bt_collect_sorted bt_or_insert_sorted
  bs_insert_sorted bs_collect_sorted : btree.

(** * Sorting

    [sort_by(|a, b| a.key.cmp(&b.key))] on string keys, stable. *)
Section Sort.
Context {A : Type} (key : A -> string).
Fixpoint insert_by (x : A) (l : list A) : list A :=
  match l with
  | [] => [x]
  | y :: l' => match str_cmp (key x) (key y) with Gt => y :: insert_by x l' | _ => x :: l end
  end.
Definition sort_by (l : list A) : list A := List.fold_right insert_by [] l.
End Sort.

Lemma insert_by_perm {A} (key : A -> string) x l : insert_by key x l ≡ₚ x :: l.
Proof.
  induction l as [|y l IH]; [done|]. cbn. destruct (str_cmp _ _); try done. rewrite IH. apply Permutation_swap.
Qed.
Lemma sort_by_perm {A} (key : A -> string) l : sort_by key l ≡ₚ l.
Proof. induction l as [|x l IH]; [done|]. cbn. by rewrite insert_by_perm, IH. Qed.

Lemma sort_by_In {A} (key : A -> string) l x : In x (sort_by key l) <-> In x l.
Proof. split; intros H; apply list_elem_of_In; apply list_elem_of_In in H; [by rewrite <- (sort_by_perm key)|by rewrite (sort_by_perm key)]. Qed.

Lemma insert_by_comm {A} (key : A -> string) x y l : key x <> key y -> insert_by key x (insert_by key y l) = insert_by key y (insert_by key x l).
Proof.
  intros Hne. pose proof (str_cmp_antisym (key x) (key y)) as Hxy.
  assert (Hn : str_cmp (key x) (key y) <> Eq) by (by rewrite str_cmp_eq).
  induction l as [|z l IH]; cbn [insert_by].
  - rewrite Hxy. by destruct (str_cmp (key x) (key y)).
  - destruct (str_cmp (key y) (key z)) eqn:Eyz; destruct (str_cmp (key x) (key z)) eqn:Exz; cbn [insert_by]; rewrite ?Eyz, ?Exz, ?Hxy, ?IH; try done;
      repeat match goal with H : str_cmp _ _ = Eq |- _ => apply str_cmp_eq in H; rewrite <- ?H in * end;
      try congruence; destruct (str_cmp (key x) (key y)) eqn:E; try done; cbn [CompOpp]; rewrite ?Eyz, ?Exz; try done.
  all: exfalso; repeat match goal with H : str_cmp ?a ?b = Gt |- _ =>
      assert (str_cmp b a = Lt) by (rewrite (str_cmp_antisym a b), H; done); clear H end.
  all: repeat match goal with H1 : str_cmp ?a ?b = Lt, H2 : str_cmp ?b ?c = Lt |- _ =>
      lazymatch goal with H3 : str_cmp a c = Lt |- _ => fail | _ => pose proof (str_cmp_trans a b c H1 H2) end end.
  all: repeat match goal with H : str_cmp ?a ?a = _ |- _ => rewrite (proj2 (str_cmp_eq a a) eq_refl) in H; done end.
Qed.

(** The order of the elements of a list with distinct keys does not matter. *)
Lemma sort_by_stable {A} (key : A -> string) l l' : l ≡ₚ l' -> NoDup (List.map key l) -> sort_by key l = sort_by key l'.
Proof.
  induction 1 as [|x l l' _ IH|x y l|l l' l'' H1 IH1 _ IH2]; intros Hn; [done|..].
  - apply NoDup_cons in Hn as [_ Hn]. change (insert_by key x (sort_by key l) = insert_by key x (sort_by key l')). by rewrite IH.
  - apply insert_by_comm. intros E. apply NoDup_cons in Hn as [Hn _]. apply Hn. rewrite E. by left.
  - rewrite IH1 by done. apply IH2. change (List.map key) with (fmap (M := list) key) in *. by rewrite <- H1.
Qed.

(** A list already in order is left alone. *)
Lemma sort_by_sorted {A} (key : A -> string) l : bs_sorted (List.map key l) -> sort_by key l = l.
Proof.
  induction l as [|x l IH]; cbn; [done|]. intros [Hx Hl].
  change (insert_by key x (sort_by key l) = x :: l). rewrite IH by done. destruct l as [|y l]; [done|].
  cbn. inversion_clear Hx as [|? ? Hy _]. cbn in Hy. by rewrite Hy.
Qed.

Lemma bt_sorted_keys {K V} `{OrdKey K} (m : list (K * V)) : bt_sorted m <-> bs_sorted (List.map fst m).
Proof.
  induction m as [|[k v] m IH]; cbn; [done|]. rewrite IH. change (List.map fst m) with (m.*1). by rewrite Forall_fmap.
Qed.

Lemma bt_sorted_map {K A B} `{OrdKey K} (f : K * A -> B) (m : list (K * A)) :
  bt_sorted m -> bt_sorted (List.map (fun kv => (kv.1, f kv)) m).
Proof. rewrite !bt_sorted_keys, map_map. done. Qed.
