(* ===== verification/Fmt.v ===== *)
(** Rust's numeric parsing and formatting as the sources use them:
    [str::parse::<i64>], [Display] of integers, [Debug] of strings ([{:?}]),
    and when [str::trim] leaves a text alone. *)
From S2P Require Import Prelude Str.

(** * Integers *)

Definition i64_min : Z := -9223372036854775808.
Definition i64_max : Z := 9223372036854775807.
Definition in_i64 (n : Z) : bool := (i64_min <=? n)%Z && (n <=? i64_max)%Z.

Definition digit_val (b : byte) : option N :=
  if is_ascii_digit b then Some (code b - 48)%N else None.

(** Value of a digit run, most significant digit first; [None] on any other
    byte. *)
Fixpoint digits_val (acc : N) (s : string) : option N :=
  match s with
  | "" => Some acc
  | String b s => d ← digit_val b; digits_val (acc * 10 + d) s
  end.

(** [s.parse::<i64>().ok()]: an optional sign, at least one digit, no overflow. *)
Definition parse_i64 (s : string) : option Z :=
  let '(neg, ds) :=
    match s with
    | String b r => if b =a? "-" then (true, r) else if b =a? "+" then (false, r) else (false, s)
    | "" => (false, "")
    end in
  if ds =? "" then None else
  n ← digits_val 0 ds;
  let z := (if neg : bool then - Z.of_N n else Z.of_N n)%Z in
  if in_i64 z then Some z else None.

(** Decimal digits of [n] in front of [acc]; [fuel] bounds the number of
    digits. *)
Fixpoint digits_go (fuel : nat) (n : N) (acc : string) : string :=
  match fuel with
  | O => acc
  | S fuel =>
    let acc := String (ascii_of_N (48 + n mod 10)) acc in
    if (n <? 10)%N then acc else digits_go fuel (n / 10) acc
  end.
Definition show_N (n : N) : string := digits_go (S (N.to_nat (N.log2 n))) n "".

(** [n.to_string()] for signed integers. *)
Definition show_Z (n : Z) : string :=
  if (n <? 0)%Z then "-" +:+ show_N (Z.to_N (- n)) else show_N (Z.to_N n).

(** * Debug formatting of strings *)

Definition hex_digit (n : N) : string :=
  String (ascii_of_N (if (n <? 10)%N then 48 + n else 87 + n)) "".

(** One byte of [{:?}]: Rust escapes NUL, TAB, LF, CR, the double quote and the
    backslash by name and the other control characters by number.  Bytes from
    0x80 on are copied, as Rust does for printable characters. *)
Definition debug_byte (b : byte) : string :=
  let c := code b in
  if (c =? 0)%N then "\0"
  else if (c =? 9)%N then "\t"
  else if (c =? 10)%N then "\n"
  else if (c =? 13)%N then "\r"
  else if (c =? 34)%N then String BSL (String DQ "")
  else if (c =? 92)%N then "\\"
  else if ((c <? 32) || (c =? 127))%N then
    "\u{" +:+ (if (c <? 16)%N then "" else hex_digit (c / 16)) +:+ hex_digit (c mod 16) +:+ "}"
  else String b "".

Fixpoint debug_body (s : string) : string :=
  match s with
  | "" => ""
  | String b s => debug_byte b +:+ debug_body s
  end.

(** A text between double quotes, and [format!("{:?}", s)]. *)
Definition quoted (s : string) : string := String DQ (s +:+ String DQ "").
Definition debug_str (s : string) : string := quoted (debug_body s).

(** * Character classes *)

(** Printable ASCII other than the space. *)
Definition graphic (b : byte) : bool := in_range 33 126 b.
(** Printable ASCII that no string literal escapes. *)
Definition plain_byte (b : byte) : bool :=
  in_range 32 126 b && negb (b =a? DQ) && negb (b =a? BSL).
Definition plain (s : string) : bool := str_all plain_byte s.

Definition last_byte (s : string) : option byte := byte_at s (str_len s - 1).

(** Non-empty, with a graphic first and last byte: nothing for [trim] to drop. *)
Definition edges_ok (s : string) : bool :=
  match byte_at s 0, last_byte s with
  | Some a, Some b => graphic a && graphic b
  | _, _ => false
  end.

(** * Lemmas *)

Lemma digit_of_val (d : N) : (d < 10)%N -> digit_val (ascii_of_N (48 + d)) = Some d.
Proof.
  intros H. assert (In d [0;1;2;3;4;5;6;7;8;9]%N) as Hi by (simpl; lia).
  simpl in Hi. repeat (destruct Hi as [<-|Hi]; [done|]). done.
Qed.

Lemma digits_val_go fuel n acc :
  (n < 10 ^ N.of_nat fuel)%N -> digits_val 0 (digits_go fuel n acc) = digits_val n acc.
Proof.
  revert n acc. induction fuel as [|fuel IH]; intros n acc Hn.
  - simpl in *. by replace n with 0%N by lia.
  - assert (n mod 10 < 10)%N by (apply N.mod_lt; lia).
    cbn [digits_go]. destruct (n <? 10)%N eqn:E.
    + apply N.ltb_lt in E. cbn [digits_val]. rewrite digit_of_val by done. simpl.
      by rewrite N.mod_small.
    + rewrite IH.
      * cbn [digits_val]. rewrite digit_of_val by done. simpl. f_equal.
        rewrite N.mul_comm. symmetry. apply N.div_mod. lia.
      * rewrite Nat2N.inj_succ, N.pow_succ_r' in Hn. apply N.Div0.div_lt_upper_bound. lia.
Qed.

Lemma digits_go_app fuel n acc : digits_go fuel n acc = digits_go fuel n "" +:+ acc.
Proof.
  revert n acc. induction fuel as [|fuel IH]; intros n acc; [done|]. cbn [digits_go].
  destruct (n <? 10)%N; [done|]. rewrite IH, (IH _ (String _ "")). by rewrite sapp_assoc.
Qed.

Lemma show_N_val n : digits_val 0 (show_N n) = Some n.
Proof.
  unfold show_N. rewrite digits_val_go; [done|].
  rewrite Nat2N.inj_succ, N2Nat.id. destruct (N.eq_dec n 0%N) as [->|Hn]; [done|].
  eapply N.lt_le_trans; [apply N.log2_spec; lia|]. apply N.pow_le_mono_l. lia.
Qed.

Lemma digits_go_digits fuel n acc :
  str_all is_ascii_digit acc = true -> str_all is_ascii_digit (digits_go fuel n acc) = true.
Proof.
  revert n acc. induction fuel as [|fuel IH]; intros n acc H; [done|]. cbn [digits_go].
  assert (str_all is_ascii_digit (String (ascii_of_N (48 + n mod 10)) acc) = true) as H'.
  { cbn [str_all]. rewrite H, andb_true_r.
    assert (n mod 10 < 10)%N as Hd by (apply N.mod_lt; lia).
    pose proof (digit_of_val _ Hd) as Hv. unfold digit_val in Hv. by case_match. }
  destruct (n <? 10)%N; auto.
Qed.

Lemma show_N_digits n : str_all is_ascii_digit (show_N n) = true.
Proof. by apply digits_go_digits. Qed.

Lemma show_N_cons n : exists b r, show_N n = String b r /\ is_ascii_digit b = true.
Proof.
  pose proof (show_N_digits n) as H. destruct (show_N n) as [|b r] eqn:E.
  - exfalso. unfold show_N in E. cbn [digits_go] in E. destruct (n <? 10)%N; [done|].
    rewrite digits_go_app in E. by apply sapp_eq_nil in E as [_ ?].
  - simpl in H. bool_prop. eauto.
Qed.

(** Printing then parsing an [i64] gives it back. *)
Lemma parse_show_Z n : in_i64 n = true -> parse_i64 (show_Z n) = Some n.
Proof.
  intros Hn. unfold show_Z. destruct (n <? 0)%Z eqn:E.
  - unfold parse_i64. simpl.
    destruct (show_N_cons (Z.to_N (- n))) as (b & r & Hb & _).
    pose proof (show_N_val (Z.to_N (- n))) as Hv. rewrite Hb in Hv |- *. cbn [String.eqb].
    rewrite Hv. simpl. apply Z.ltb_lt in E.
    replace (- Z.of_N (Z.to_N (- n)))%Z with n by lia. by rewrite Hn.
  - destruct (show_N_cons (Z.to_N n)) as (b & r & Hb & Hd).
    pose proof (show_N_val (Z.to_N n)) as Hv. rewrite Hb in Hv |- *.
    unfold parse_i64. destruct (b =a? "-") eqn:E1; [bool_prop; by subst|].
    destruct (b =a? "+") eqn:E2; [bool_prop; by subst|]. cbn [String.eqb].
    rewrite Hv. simpl. apply Z.ltb_ge in E.
    replace (Z.of_N (Z.to_N n)) with n by lia. by rewrite Hn.
Qed.

(** [parse_i64] only accepts texts that start with a digit or a sign. *)
Lemma parse_i64_head b r :
  is_ascii_digit b = false -> (b =a? "-") = false -> (b =a? "+") = false ->
  parse_i64 (String b r) = None.
Proof.
  intros H1 H2 H3. unfold parse_i64. rewrite H2, H3. simpl. unfold digit_val. by rewrite H1.
Qed.

(** ** Debug formatting *)

Lemma debug_byte_plain b : plain_byte b = true -> debug_byte b = String b "".
Proof. by_bytes b. Qed.

Lemma debug_body_plain s : plain s = true -> debug_body s = s.
Proof.
  unfold plain. induction s as [|b s IH]; simpl; [done|]. intros H. bool_prop.
  rewrite debug_byte_plain by done. simpl. by rewrite IH.
Qed.

Lemma debug_str_plain s : plain s = true -> debug_str s = quoted s.
Proof. intros H. unfold debug_str. by rewrite debug_body_plain. Qed.

(** ** Trimming *)

Lemma graphic_not_ws a : graphic a = true ->
  ws1 a = false /\ (forall b, ws2 a b = false /\ ws2 b a = false) /\
  (forall b c, ws3 a b c = false /\ ws3 b a c = false /\ ws3 b c a = false).
Proof.
  unfold graphic, ws1, ws2, ws3, in_range. intros H. apply andb_true_iff in H as [H1 H2].
  apply N.leb_le in H1, H2.
  repeat split; repeat match goal with
  | |- context [(code ?x =? ?n)%N] => destruct (N.eqb_spec (code x) n); try lia
  | |- context [(?m <=? code ?x)%N] => destruct (N.leb_spec m (code x)); try lia
  | |- context [(code ?x <=? ?n)%N] => destruct (N.leb_spec (code x) n); try lia
  end; simpl; rewrite ?andb_false_r; done.
Qed.

Lemma ws_len_graphic a s : graphic a = true -> ws_len (String a s) = 0.
Proof.
  intros H. destruct (graphic_not_ws a H) as (H1 & H2 & H3). simpl. rewrite H1.
  destruct s as [|b [|c s]]; [done|by rewrite (proj1 (H2 b))|].
  by rewrite (proj1 (H2 b)), (proj1 (H3 b c)).
Qed.

(** A White_Space character does not reach past a graphic byte. *)
Lemma ws_len_app_graphic r a s : graphic a = true -> ws_len (r +:+ String a s) <= str_len r.
Proof.
  intros H. destruct (graphic_not_ws a H) as (H1 & H2 & H3).
  destruct r as [|x [|y [|z r]]]; simpl.
  - pose proof (ws_len_graphic a s H) as E. simpl in E. lia.
  - destruct (ws1 x); [lia|]. rewrite (proj2 (H2 x)). destruct s as [|c s]; [lia|].
    rewrite (proj1 (proj2 (H3 x c))). lia.
  - destruct (ws1 x); [lia|]. destruct (ws2 x y); [lia|]. rewrite (proj2 (proj2 (H3 x y))). lia.
  - destruct (ws1 x), (ws2 x y), (ws3 x y z); lia.
Qed.

Lemma drop_app_le n r s : n <= str_len r -> str_drop n (r +:+ s) = str_drop n r +:+ s.
Proof.
  revert r. induction n as [|n IH]; intros [|b r]; simpl; intros H; try done; [lia|].
  apply IH. lia.
Qed.

Lemma trim_start_app_graphic r a s :
  graphic a = true -> exists r', trim_start (r +:+ String a s) = r' +:+ String a s.
Proof.
  intros H. remember (r +:+ String a s) as t eqn:E. revert r E.
  apply (trim_start_ind (fun t u => forall r, t = r +:+ String a s -> exists r', u = r' +:+ String a s));
    clear t; intros t Ht.
  - intros r ->. by exists r.
  - intros IH r ->. apply (IH (str_drop (ws_len (r +:+ String a s)) r)).
    apply drop_app_le. by apply ws_len_app_graphic.
Qed.

Lemma trim_end_graphic r a : graphic a = true -> trim_end (r +:+ String a "") = r +:+ String a "".
Proof.
  intros H. induction r as [|b r IH].
  - cbn [String.append trim_end]. rewrite trim_start_ws_len by (by apply ws_len_graphic). done.
  - cbn [String.append trim_end].
    destruct (trim_start_app_graphic (String b r) a "" H) as [r' Hr].
    change (String b r +:+ String a "") with (String b (r +:+ String a "")) in Hr. rewrite Hr.
    rewrite IH. by destruct r'.
Qed.

Lemma last_byte_snoc r a : last_byte (r +:+ String a "") = Some a.
Proof.
  unfold last_byte. rewrite len_app. simpl.
  replace (str_len r + 1 - 1) with (str_len r + 0) by lia. by rewrite byte_at_app.
Qed.

Lemma str_snoc s : s = "" \/ exists r a, s = r +:+ String a "".
Proof.
  induction s as [|b s [->|(r & a & ->)]]; [by left|right; by exists "", b|].
  right. by exists (String b r), a.
Qed.

Lemma edges_ok_iff s : edges_ok s = true <->
  (exists a t, s = String a t /\ graphic a = true) /\
  (exists r b, s = r +:+ String b "" /\ graphic b = true).
Proof.
  unfold edges_ok. destruct s as [|a t]; [split; [done|by intros [(? & ? & ? & _) _]]|].
  destruct (str_snoc (String a t)) as [?|(r & b & Hs)]; [done|]. rewrite Hs, last_byte_snoc, <- Hs. cbn [byte_at].
  split.
  - intros ?; bool_prop. split; [by exists a, t|by exists r, b].
  - intros [(a' & t' & [= <- <-] & Ha) (r' & b' & Hs' & Hb)]. rewrite Ha. simpl.
    rewrite Hs' in Hs. apply (f_equal last_byte) in Hs. rewrite !last_byte_snoc in Hs.
    by injection Hs as <-.
Qed.

Lemma trim_edges s : edges_ok s = true -> trim s = s.
Proof.
  rewrite edges_ok_iff. intros [(a & t & E & Ha) (r & b & E' & Hb)]. unfold trim.
  rewrite (trim_start_ws_len s), E' by (rewrite E; by apply ws_len_graphic).
  by apply trim_end_graphic.
Qed.

(** Leading spaces before a clean text. *)
Lemma trim_space_edges s : edges_ok s = true -> trim (String " " s) = s.
Proof. intros H. rewrite trim_space. by apply trim_edges. Qed.

Lemma edges_ok_app a b : edges_ok a = true -> edges_ok b = true -> edges_ok (a +:+ b) = true.
Proof.
  rewrite !edges_ok_iff. intros [(x & t & -> & Hx) _] [_ (r & y & -> & Hy)]. split.
  - eexists x, _. by split; [simpl|].
  - exists (String x t +:+ r), y. by rewrite sapp_assoc.
Qed.

Lemma edges_ok_mid a m b :
  edges_ok a = true -> edges_ok b = true -> edges_ok (a +:+ m +:+ b) = true.
Proof.
  rewrite !edges_ok_iff. intros [(x & t & -> & Hx) _] [_ (r & y & -> & Hy)]. split.
  - eexists x, _. by split; [simpl|].
  - exists (String x t +:+ m +:+ r), y. by rewrite !sapp_assoc.
Qed.

Lemma str_all_edges p s :
  (forall b, p b = true -> graphic b = true) -> s <> "" -> str_all p s = true -> edges_ok s = true.
Proof.
  intros Hp Hne Hs. apply edges_ok_iff. split.
  - destruct s as [|a t]; [done|]. simpl in Hs. bool_prop. eauto.
  - destruct (str_snoc s) as [?|(r & b & ->)]; [done|]. rewrite str_all_app in Hs. simpl in Hs.
    bool_prop. eauto.
Qed.

Lemma trim_end_space s : edges_ok s = true -> trim_end (s +:+ " ") = s.
Proof.
  rewrite edges_ok_iff. intros [_ (r & b & -> & Hb)]. rewrite sapp_assoc. cbn [String.append]. induction r as [|c r IH].
  - cbn [String.append trim_end]. rewrite trim_start_ws_len by (by apply ws_len_graphic). done.
  - cbn [String.append trim_end].
    destruct (trim_start_app_graphic (String c r) b " " Hb) as [r' Hr].
    change (String c r +:+ String b " ") with (String c (r +:+ String b " ")) in Hr. rewrite Hr, IH.
    by destruct r'.
Qed.

Lemma trim_edges_space s : edges_ok s = true -> trim (s +:+ " ") = s.
Proof.
  intros H. unfold trim. destruct (proj1 (edges_ok_iff s) H) as [(a & t & E & Ha) _].
  rewrite (trim_start_ws_len (s +:+ " ")) by (rewrite E; by apply ws_len_graphic). by apply trim_end_space.
Qed.

(** ** Words *)

(** A word: non-empty and graphic throughout. *)
Definition word (s : string) : bool := nonempty s && str_all graphic s.

Lemma word_edges s : word s = true -> edges_ok s = true.
Proof. unfold word, nonempty. intros H. bool_prop. by apply (str_all_edges graphic). Qed.

Lemma split_ws_copy w cur r : str_all graphic w = true -> split_ws_go (w +:+ r) cur 0 = split_ws_go r (cur +:+ w) 0.
Proof.
  revert cur. induction w as [|b w IH]; intros cur Hw; [by rewrite sapp_nil_r|].
  cbn [str_all] in Hw. bool_prop. cbn [String.append split_ws_go].
  rewrite ws_len_graphic by done. rewrite IH by done. by rewrite sapp_assoc.
Qed.

(** Words joined by single spaces are split into the same words. *)
Lemma split_whitespace_words l : Forall (fun w => word w = true) l -> split_whitespace (join " " l) = l.
Proof.
  unfold split_whitespace. induction 1 as [|w l Hw Hl IH]; [done|]. unfold word in Hw. bool_prop.
  assert (Hne : (w =? "") = false) by (by destruct w). destruct l as [|w' l].
  - cbn [join]. rewrite <- (sapp_nil_r w) at 1. rewrite split_ws_copy by done. cbn. by rewrite Hne.
  - rewrite join_cons by done. rewrite split_ws_copy by done. cbn [String.append split_ws_go]. cbn [ws_len].
    change (ws1 " ") with true. cbn match. by rewrite Hne, IH.
Qed.

Lemma split_whitespace_word w : word w = true -> split_whitespace w = [w].
Proof. intros H. apply (split_whitespace_words [w]). by constructor. Qed.

(** ** What trimming removes *)

Abbreviation blank w := (str_all (fun b => negb (graphic b)) w = true).

Lemma ws_len_blank s : blank (str_take (ws_len s) s).
Proof.
  destruct s as [|a s]; [done|]. cbn [ws_len].
  assert (Hg : forall x, graphic x = true -> ws1 x = false) by (intros x H; by destruct (graphic_not_ws x H)).
  destruct (ws1 a) eqn:E1.
  { cbn. destruct (graphic a) eqn:Eg; [by rewrite Hg in E1|done]. }
  destruct s as [|b s]; [done|]. destruct (ws2 a b) eqn:E2.
  { cbn. destruct (graphic a) eqn:Ea; [destruct (graphic_not_ws a Ea) as (_ & H & _); by rewrite (proj1 (H b)) in E2|].
    destruct (graphic b) eqn:Eb; [destruct (graphic_not_ws b Eb) as (_ & H & _); by rewrite (proj2 (H a)) in E2|done]. }
  destruct s as [|c s]; [done|]. destruct (ws3 a b c) eqn:E3; [|done]. cbn.
  destruct (graphic a) eqn:Ea; [destruct (graphic_not_ws a Ea) as (_ & _ & H); by rewrite (proj1 (H b c)) in E3|].
  destruct (graphic b) eqn:Eb; [destruct (graphic_not_ws b Eb) as (_ & _ & H); by rewrite (proj1 (proj2 (H a c))) in E3|].
  destruct (graphic c) eqn:Ec; [destruct (graphic_not_ws c Ec) as (_ & _ & H); by rewrite (proj2 (proj2 (H a b))) in E3|done].
Qed.

Lemma trim_start_blank s : exists w, s = w +:+ trim_start s /\ blank w.
Proof.
  apply (trim_start_ind (fun s u => exists w, s = w +:+ u /\ blank w)).
  - intros t _. by exists "".
  - intros t _ IH. destruct IH as (w & E & Hw). exists (str_take (ws_len t) t +:+ w).
    rewrite sapp_assoc, <- E, take_drop_id, str_all_app, Hw, ws_len_blank. done.
Qed.

Lemma trim_end_blank s : exists w, s = trim_end s +:+ w /\ blank w.
Proof.
  destruct (trim_end_prefix s) as (w & E & Hw). exists w. split; [done|].
  destruct (trim_start_blank w) as (v & Ev & Hv). rewrite Hw, sapp_nil_r in Ev. by subst.
Qed.

Lemma trim_end_app_graphic r a s : graphic a = true -> trim_end (r +:+ String a s) = r +:+ String a (trim_end s).
Proof.
  intros H. induction r as [|b r IH]; cbn [String.append trim_end].
  - rewrite trim_start_ws_len by (by apply ws_len_graphic). done.
  - destruct (trim_start_app_graphic (String b r) a s H) as [r' Hr].
    change (String b r +:+ String a s) with (String b (r +:+ String a s)) in Hr. rewrite Hr, IH. by destruct r'.
Qed.

Lemma trim_start_graphic a s : graphic a = true -> trim_start (String a s) = String a s.
Proof. intros H. apply trim_start_ws_len. by apply ws_len_graphic. Qed.
