(* ===== verification/Lines.v ===== *)
(** Texts as lines: what [str::lines] gives back of lines joined by newlines. *)
From S2P Require Import Prelude Str Fmt.

Definition NL : string := String LF "".

(** A line without terminators. *)
Definition plain_line (l : string) : bool := str_all (fun b => negb (b =a? LF) && negb (b =a? CR)) l.

Lemma plain_line_iff l : plain_line l = true <-> lacks LF l /\ lacks CR l.
Proof.
  unfold plain_line. induction l as [|b l IH]; cbn; [done|]. rewrite !andb_true_iff, IH. tauto.
Qed.

Lemma split_inclusive_line l s : lacks LF l -> split_inclusive (l +:+ String LF s) = (l +:+ NL) :: split_inclusive s.
Proof.
  induction l as [|b l IH]; intros H; [done|]. cbn [str_all] in H. bool_prop.
  cbn [String.append split_inclusive]. rewrite H, IH by done. done.
Qed.

Lemma split_inclusive_last l : lacks LF l -> l <> "" -> split_inclusive l = [l].
Proof.
  induction l as [|b l IH]; intros H Hne; [done|]. cbn [str_all] in H. bool_prop. cbn [split_inclusive]. rewrite H.
  destruct l as [|c l]; [done|]. by rewrite IH.
Qed.

Lemma strip_cr_plain l : lacks CR l -> strip_cr l = l.
Proof.
  unfold strip_cr. intros H. destruct (strip_suffix _ l) as [t|] eqn:E; [|done]. apply strip_suffix_Some in E. subst.
  rewrite str_all_app in H. apply andb_true_iff in H as [_ H]. by vm_compute in H.
Qed.

Lemma line_text_lf l : line_text (l +:+ NL) = strip_cr l.
Proof.
  unfold line_text. destruct (strip_suffix (String LF "") (l +:+ NL)) as [t|] eqn:E.
  - apply strip_suffix_Some in E. by apply sapp_inj_r in E as ->.
  - apply strip_suffix_None with (t := l) in E. done.
Qed.

Lemma line_text_last l : lacks LF l -> line_text l = l.
Proof.
  intros H. unfold line_text. destruct (strip_suffix _ l) as [t|] eqn:E; [|done]. apply strip_suffix_Some in E. subst.
  rewrite str_all_app in H. apply andb_true_iff in H as [_ H]. by vm_compute in H.
Qed.

(** Lines joined by newlines are read back; an empty last one is lost. *)
Lemma str_lines_join ls l : Forall (fun l => plain_line l = true) (ls ++ [l]) ->
  str_lines (join NL (ls ++ [l])) = (ls ++ if l =? "" then [] else [l])%list.
Proof.
  unfold str_lines. induction ls as [|x ls IH]; intros H; cbn [app] in *; apply Forall_cons in H as [[Hlf Hcr]%plain_line_iff H].
  - cbn [join]. destruct (String.eqb_spec l "") as [->|]; [done|]. rewrite split_inclusive_last by done. cbn. by rewrite line_text_last.
  - rewrite join_cons by (by destruct ls). change (NL +:+ join NL (ls ++ [l])) with (String LF (join NL (ls ++ [l]))).
    rewrite split_inclusive_line by done. cbn [List.map]. rewrite IH by done. by rewrite line_text_lf, strip_cr_plain.
Qed.

(** A text without carriage returns is its lines joined by newlines. *)
Lemma source_parts source : lacks CR source -> exists ls l,
  source = join NL (ls ++ [l]) /\ Forall (fun l => plain_line l = true) (ls ++ [l]).
Proof.
  intros H. destruct (exists_last (split_char_ne LF source)) as (ls & l & E).
  exists ls, l. split; [rewrite <- E; symmetry; apply split_char_join|]. rewrite <- E.
  pose proof (split_char_lacks LF source) as Hl. rewrite <- (split_char_join LF source) in H.
  assert (Hc : Forall (fun p => lacks CR p) (split_char LF source)).
  { clear Hl E. revert H. induction (split_char LF source) as [|y L IH]; [constructor|]. intros H. destruct L as [|z L].
    - by constructor.
    - rewrite join_cons, !str_all_app in H by done. bool_prop. constructor; auto. }
  clear -Hl Hc. induction Hl as [|y L Hy _ IH]; inversion_clear Hc; constructor; [by apply plain_line_iff|auto].
Qed.

Lemma plain_app a b : plain_line (a +:+ b) = plain_line a && plain_line b.
Proof. apply str_all_app. Qed.

Lemma join_snoc sep ls l : ls <> [] -> join sep (ls ++ [l]) = join sep ls +:+ sep +:+ l.
Proof.
  induction ls as [|x ls IH]; [done|]. intros _. destruct ls as [|y ls]; [done|].
  change ((x :: y :: ls) ++ [l])%list with (x :: ((y :: ls) ++ [l]))%list. rewrite !join_cons by (by destruct ls).
  rewrite IH by done. by rewrite !sapp_assoc.
Qed.

Definition unlines (ls : list string) : string := foldr (fun l s => l +:+ NL +:+ s) "" ls.

Lemma unlines_app a b : unlines (a ++ b) = unlines a +:+ unlines b.
Proof. induction a as [|x a IH]; cbn [app unlines foldr]; [done|]. fold (unlines (a ++ b)) (unlines a). by rewrite IH, !sapp_assoc. Qed.

Lemma str_lines_unlines ls : Forall (fun l => plain_line l = true) ls -> str_lines (unlines ls) = ls.
Proof.
  intros H. assert (unlines ls = join NL (ls ++ [""])) as ->.
  { clear. induction ls as [|x ls IH]; [done|]. cbn [unlines foldr app]. fold (unlines ls). rewrite IH, join_cons; [done|by destruct ls]. }
  rewrite str_lines_join by (apply Forall_app; by repeat constructor). cbn. by rewrite app_nil_r.
Qed.

(** Full lines in front of a text. *)
Lemma unlines_lines before s : Forall (fun l => plain_line l = true) before ->
  str_lines (unlines before +:+ s) = (before ++ str_lines s)%list.
Proof.
  unfold str_lines. induction 1 as [|x l Hx _ IH]; [done|]. cbn [unlines foldr app]. fold (unlines l).
  apply plain_line_iff in Hx as [Hlf Hcr].
  rewrite sapp_assoc. change ((NL +:+ unlines l) +:+ s) with (String LF (unlines l +:+ s)).
  rewrite split_inclusive_line by done. cbn [List.map]. by rewrite IH, line_text_lf, strip_cr_plain.
Qed.
