(* ===== verification/Helpers.v ===== *)
(** The pure helpers the analyzer's lowering shares
    ([lazuli_analyzer/src/helpers.rs]): edit distance, case conversion, quote-
    and bracket-aware scans. *)
From S2P Require Import Prelude Str Fmt.

(** * Characters *)

Definition is_cont (b : byte) : bool := in_range 128 191 b.

(** [s.chars()]: the UTF-8 characters of [s], each as its byte group (two
    characters are equal iff their byte groups are).  The first component holds
    the continuation bytes still waiting for their leading byte. *)
Fixpoint chars_go (s : string) : string * list string :=
  match s with
  | "" => ("", [])
  | String b r =>
    let '(pending, cs) := chars_go r in
    if is_cont b then (String b pending, cs) else ("", String b pending :: cs)
  end.
Definition chars (s : string) : list string := (chars_go s).2.

(** [s.is_char_boundary(i)] for [i < len]. *)
Definition char_start (s : string) : bool :=
  match s with String b _ => negb (is_cont b) | "" => true end.

(** * Edit distance *)

Section Levenshtein.
Context {A : Type} `{EqDecision A}.
Variable x0 : A.

Definition at_ (l : list A) (i : nat) : A := nth i l x0.
Definition cost (x y : A) : nat := if decide (x = y) then 0 else 1.

Definition dp_get (dp : list (list nat)) (i j : nat) : nat :=
  default 0 (row ← dp !! i; row !! j).
Definition dp_set (dp : list (list nat)) (i j v : nat) : list (list nat) :=
  alter (fun row => <[j := v]> row) i dp.

(** The table of [levenshtein]: row heads and column heads set, 0 inside. *)
Definition dp_init (n m : nat) : list (list nat) :=
  let dp := replicate (S n) (replicate (S m) 0) in
  let dp := foldl (fun dp i => dp_set dp i 0 i) dp (seq 0 (S n)) in
  foldl (fun dp j => dp_set dp 0 j j) dp (seq 0 (S m)).

Definition dp_cell (a b : list A) (dp : list (list nat)) (i j : nat) : list (list nat) :=
  dp_set dp i j
    (Nat.min (Nat.min (dp_get dp (i - 1) j + 1) (dp_get dp i (j - 1) + 1))
             (dp_get dp (i - 1) (j - 1) + cost (at_ a (i - 1)) (at_ b (j - 1)))).

(** [levenshtein], on the two character vectors. *)
Definition levenshtein_chars (a b : list A) : nat :=
  let n := List.length a in
  let m := List.length b in
  let dp := foldl (fun dp i => foldl (fun dp j => dp_cell a b dp i j) dp (seq 1 m))
                  (dp_init n m) (seq 1 n) in
  dp_get dp n m.

Definition vget (v : list nat) (i : nat) : nat := default 0 (v !! i).

Definition row_cell (a b : list A) (i : nat) (prev curr : list nat) (j : nat) : list nat :=
  <[j := Nat.min (Nat.min (vget curr (j - 1) + 1) (vget prev j + 1))
                 (vget prev (j - 1) + cost (at_ a (i - 1)) (at_ b (j - 1)))]> curr.

(** One round of the two-row loop; the result is the swapped pair
    [(prev, curr)]. *)
Definition row_step (a b : list A) (st : list nat * list nat) (i : nat) : list nat * list nat :=
  let '(prev, curr) := st in
  let curr := <[0 := i]> curr in
  let curr := foldl (row_cell a b i prev) curr (seq 1 (List.length b)) in
  (curr, prev).

(** [conventions_levenshtein] *)
Definition conventions_levenshtein_chars (a b : list A) : nat :=
  let n := List.length a in
  let m := List.length b in
  if (n =? 0)%nat then m else if (m =? 0)%nat then n else
  let '(prev, _) := foldl (row_step a b) (seq 0 (S m), replicate (S m) 0) (seq 1 n) in
  vget prev m.

(** ** Specification: edit scripts *)

(** [edits a b n]: [a] becomes [b] with [n] insertions, deletions and
    substitutions. *)
Inductive edits : list A -> list A -> nat -> Prop :=
| ed_nil : edits [] [] 0
| ed_keep x a b n : edits a b n -> edits (x :: a) (x :: b) n
| ed_sub x y a b n : edits a b n -> edits (x :: a) (y :: b) (S n)
| ed_del x a b n : edits a b n -> edits (x :: a) b (S n)
| ed_ins y a b n : edits a b n -> edits a (y :: b) (S n).

(** The recursive reference definition. *)
Fixpoint edit (a : list A) : list A -> nat :=
  match a with
  | [] => fun b => List.length b
  | x :: a' =>
    fix go (b : list A) : nat :=
      match b with
      | [] => S (List.length a')
      | y :: b' => Nat.min (Nat.min (edit a' (y :: b') + 1) (go b' + 1)) (edit a' b' + cost x y)
      end
  end.

Lemma edit_nil_r a : edit a [] = List.length a.
Proof. by destruct a. Qed.

Lemma edit_cons x a y b :
  edit (x :: a) (y :: b) =
  Nat.min (Nat.min (edit a (y :: b) + 1) (edit (x :: a) b + 1)) (edit a b + cost x y).
Proof. done. Qed.

Lemma edits_len_l (a : list A) : edits a [] (List.length a).
Proof. induction a as [|x a IH]; simpl; by constructor. Qed.
Lemma edits_len_r (b : list A) : edits [] b (List.length b).
Proof. induction b as [|x b IH]; simpl; by constructor. Qed.

Lemma edit_edits a b : edits a b (edit a b).
Proof.
  revert b. induction a as [|x a IHa]; intros b; [apply edits_len_r|].
  induction b as [|y b IHb]; [apply (edits_len_l (x :: a))|]. rewrite edit_cons.
  destruct (Nat.min_dec (Nat.min (edit a (y :: b) + 1) (edit (x :: a) b + 1)) (edit a b + cost x y))
    as [-> | ->].
  - destruct (Nat.min_dec (edit a (y :: b) + 1) (edit (x :: a) b + 1)) as [-> | ->];
      rewrite Nat.add_1_r; by constructor.
  - unfold cost. destruct (decide (x = y)) as [->|].
    + rewrite Nat.add_0_r. by constructor.
    + rewrite Nat.add_1_r. by constructor.
Qed.

Lemma edit_del x a b : edit (x :: a) b <= edit a b + 1.
Proof. destruct b as [|y b]; [rewrite !edit_nil_r; simpl; lia|]. rewrite edit_cons. lia. Qed.
Lemma edit_ins y a b : edit a (y :: b) <= edit a b + 1.
Proof. destruct a as [|x a]; [simpl; lia|]. rewrite edit_cons. lia. Qed.

Lemma edit_least a b n : edits a b n -> edit a b <= n.
Proof.
  induction 1.
  - done.
  - rewrite edit_cons. unfold cost. rewrite decide_True by done. lia.
  - rewrite edit_cons. unfold cost. case_decide; lia.
  - pose proof (edit_del x a b). lia.
  - pose proof (edit_ins y a b). lia.
Qed.

Lemma edits_app a b n a' b' n' :
  edits a b n -> edits a' b' n' -> edits (a ++ a') (b ++ b') (n + n').
Proof. induction 1; intros H'; simpl; try (constructor; auto). auto. Qed.

Lemma edits_rev a b n : edits a b n -> edits (List.rev a) (List.rev b) n.
Proof.
  induction 1 as [|x a b n H IH|x y a b n H IH|x a b n H IH|y a b n H IH]; simpl.
  - constructor.
  - rewrite <- (Nat.add_0_r n). apply edits_app; [done|]. repeat constructor.
  - rewrite <- Nat.add_1_r. apply edits_app; [done|]. repeat constructor.
  - rewrite <- Nat.add_1_r, <- (app_nil_r (List.rev b)).
    apply edits_app; [done|]. repeat constructor.
  - rewrite <- Nat.add_1_r, <- (app_nil_r (List.rev a)).
    apply edits_app; [done|]. repeat constructor.
Qed.

Lemma edit_rev a b : edit (List.rev a) (List.rev b) = edit a b.
Proof.
  assert (H : forall a b, edit (List.rev a) (List.rev b) <= edit a b).
  { intros. apply edit_least, edits_rev, edit_edits. }
  pose proof (H a b). pose proof (H (List.rev a) (List.rev b)). rewrite !rev_involutive in *. lia.
Qed.

Lemma edits_sym a b n : edits a b n -> edits b a n.
Proof. induction 1; by constructor. Qed.

(** ** The table holds the distances of the prefixes *)

Definition D (a b : list A) (i j : nat) : nat :=
  edit (List.rev (firstn i a)) (List.rev (firstn j b)).

Lemma D_0_l a b j : j <= List.length b -> D a b 0 j = j.
Proof. intros H. unfold D. simpl. rewrite length_rev, length_firstn. lia. Qed.
Lemma D_0_r a b i : i <= List.length a -> D a b i 0 = i.
Proof. intros H. unfold D. simpl. rewrite edit_nil_r, length_rev, length_firstn. lia. Qed.

Lemma rev_firstn_S (l : list A) i :
  i < List.length l -> List.rev (firstn (S i) l) = at_ l i :: List.rev (firstn i l).
Proof.
  revert i. induction l as [|x l IH]; intros [|i] H; simpl in *; try lia; [done|].
  cbn [firstn] in IH. rewrite IH by lia. done.
Qed.

Lemma D_S a b i j : i < List.length a -> j < List.length b ->
  D a b (S i) (S j) =
  Nat.min (Nat.min (D a b i (S j) + 1) (D a b (S i) j + 1)) (D a b i j + cost (at_ a i) (at_ b j)).
Proof.
  intros Hi Hj. unfold D. rewrite (rev_firstn_S a i), (rev_firstn_S b j) by done. apply edit_cons.
Qed.

Lemma D_full a b : D a b (List.length a) (List.length b) = edit a b.
Proof. unfold D. rewrite !List.firstn_all. apply edit_rev. Qed.

Lemma fold_seq_inv {B} (f : B -> nat -> B) (P : nat -> B -> Prop) s n b :
  P s b -> (forall i b, s <= i < s + n -> P i b -> P (S i) (f b i)) -> P (s + n) (foldl f b (seq s n)).
Proof.
  revert s b. induction n as [|n IH]; intros s b H0 H; simpl; [by rewrite Nat.add_0_r|].
  rewrite Nat.add_succ_r. apply (IH (S s)); [apply H; [lia|done]|]. intros i b' Hi. apply H. lia.
Qed.

(** *** The full table *)

(** [n + 1] rows of [m + 1] cells. *)
Definition shape (n m : nat) (dp : list (list nat)) : Prop :=
  List.length dp = S n /\ forall i row, dp !! i = Some row -> List.length row = S m.

Lemma shape_set n m dp i j v : shape n m dp -> shape n m (dp_set dp i j v).
Proof.
  intros [Hl Hr]. split.
  - unfold dp_set. by rewrite length_alter.
  - intros i' row. unfold dp_set. destruct (decide (i = i')) as [->|Hne].
    + rewrite list_lookup_alter_eq. destruct (dp !! i') eqn:E; simpl; [|done].
      intros [= <-]. rewrite length_insert. eauto.
    + rewrite list_lookup_alter_ne by done. apply Hr.
Qed.

Lemma dp_get_set n m dp i j v i' j' : shape n m dp -> i <= n -> j <= m ->
  dp_get (dp_set dp i j v) i' j' = if decide (i = i' /\ j = j') then v else dp_get dp i' j'.
Proof.
  intros [Hl Hr] Hi Hj. unfold dp_get, dp_set. destruct (decide (i = i')) as [->|Hne].
  - rewrite list_lookup_alter_eq. destruct (dp !! i') as [row|] eqn:E.
    + simpl. specialize (Hr _ _ E). destruct (decide (j = j')) as [->|Hne].
      * rewrite list_lookup_insert_eq by lia. by rewrite decide_True.
      * rewrite list_lookup_insert_ne by done. rewrite decide_False by tauto. done.
    + apply lookup_ge_None in E. lia.
  - rewrite list_lookup_alter_ne by done. rewrite decide_False by tauto. done.
Qed.

Lemma dp_init_spec n m :
  shape n m (dp_init n m) /\
  (forall i, i <= n -> dp_get (dp_init n m) i 0 = i) /\
  (forall j, j <= m -> dp_get (dp_init n m) 0 j = j).
Proof.
  unfold dp_init. set (dp0 := replicate _ _).
  assert (H0 : shape n m dp0).
  { split; [apply length_replicate|]. intros i row [-> _]%lookup_replicate. apply length_replicate. }
  pose (P := fun k dp => shape n m dp /\ forall i, i < k -> dp_get dp i 0 = i).
  assert (H1 : P (0 + S n) (foldl (fun dp i => dp_set dp i 0 i) dp0 (seq 0 (S n)))).
  { apply fold_seq_inv; [split; [done|lia]|]. intros i dp Hi [Hs Hd]. split; [by apply shape_set|].
    intros i' Hi'. rewrite (dp_get_set n m) by (done || lia). case_decide; [lia|]. apply Hd. lia. }
  set (dp1 := foldl (fun dp i => dp_set dp i 0 i) dp0 (seq 0 (S n))) in *. destruct H1 as [Hs1 Hd1].
  pose (Q := fun k dp => shape n m dp /\ (forall i, i <= n -> dp_get dp i 0 = i) /\
                         forall j, j < k -> dp_get dp 0 j = j).
  assert (H2 : Q (0 + S m) (foldl (fun dp j => dp_set dp 0 j j) dp1 (seq 0 (S m)))).
  { apply fold_seq_inv; [split_and!; [done| |lia]; intros; apply Hd1; lia|].
    intros j dp Hj (Hs & Hd & He). split_and!; [by apply shape_set|..]; intros k Hk;
      rewrite (dp_get_set n m) by (done || lia); case_decide; try lia; [auto|apply He; lia]. }
  destruct H2 as (? & ? & H2). split_and!; [done..|]. intros j Hj. apply H2. lia.
Qed.

(** Rows before [i] and the cells of row [i] before column [j] are final; the
    first column is set everywhere. *)
Definition filled (a b : list A) (i j : nat) (dp : list (list nat)) : Prop :=
  shape (List.length a) (List.length b) dp /\
  (forall i', i' <= List.length a -> dp_get dp i' 0 = i') /\
  (forall i' j', i' < i -> i' <= List.length a -> j' <= List.length b -> dp_get dp i' j' = D a b i' j') /\
  (forall j', j' < j -> i <= List.length a -> j' <= List.length b -> dp_get dp i j' = D a b i j').

Lemma filled_cell a b i j dp : 1 <= i <= List.length a -> 1 <= j <= List.length b ->
  filled a b i j dp -> filled a b i (S j) (dp_cell a b dp i j).
Proof.
  intros Hi Hj (Hs & H0 & Hr & Hc). unfold dp_cell.
  split_and!; [by apply shape_set|..]; intros i'; intros;
    rewrite (dp_get_set (List.length a) (List.length b)) by (done || lia); case_decide; try lia; auto.
  - destruct i as [|i], j as [|j]; try lia. assert (i' = S j) as -> by lia. rewrite D_S by lia. simpl.
    rewrite !Nat.sub_0_r, (Hr i (S j)), (Hr i j), Hc by lia. done.
  - apply Hc; lia.
Qed.

Lemma filled_next_row a b i dp : 1 <= i <= List.length a ->
  filled a b i (S (List.length b)) dp -> filled a b (S i) 1 dp.
Proof.
  intros Hi (Hs & H0 & Hr & Hc). split_and!; [done..| |].
  - intros i' j' ???. destruct (decide (i' = i)) as [->|]; [apply Hc; lia|apply Hr; lia].
  - intros j' Hj Hle _. assert (j' = 0) as -> by lia. by rewrite H0, D_0_r.
Qed.

Lemma levenshtein_chars_edit a b : levenshtein_chars a b = edit a b.
Proof.
  unfold levenshtein_chars. rewrite <- D_full.
  set (n := List.length a). set (m := List.length b).
  assert (H : filled a b (1 + n) 1
    (foldl (fun dp i => foldl (fun dp j => dp_cell a b dp i j) dp (seq 1 m)) (dp_init n m) (seq 1 n))).
  { apply (fold_seq_inv _ (fun i => filled a b i 1)).
    - destruct (dp_init_spec n m) as (Hs & H1 & H2). split_and!; [done..| |].
      + intros i' j' ???. assert (i' = 0) as -> by lia. by rewrite H2, D_0_l.
      + intros j' Hj ??. assert (j' = 0) as -> by lia. by rewrite H1, D_0_r.
    - intros i dp Hi Hf. apply filled_next_row; [lia|].
      apply (fold_seq_inv _ (fun j => filled a b i j) 1 m); [done|].
      intros j dp' Hj. apply filled_cell; lia. }
  destruct H as (_ & _ & H & _). apply H; lia.
Qed.

(** *** The two rows *)

Lemma vget_insert v j x k : j < List.length v ->
  vget (<[j := x]> v) k = if decide (j = k) then x else vget v k.
Proof.
  intros H. unfold vget. case_decide as Hjk; [subst k|].
  - by rewrite list_lookup_insert_eq.
  - by rewrite list_lookup_insert_ne.
Qed.

(** [row a b i k v]: the first [k] cells of [v] are those of table row [i]. *)
Definition row_ok (a b : list A) (i k : nat) (v : list nat) : Prop :=
  List.length v = S (List.length b) /\ forall j, j < k -> j <= List.length b -> vget v j = D a b i j.

Lemma row_cell_ok a b i prev curr j : 1 <= i <= List.length a -> 1 <= j <= List.length b ->
  row_ok a b (i - 1) (S (List.length b)) prev ->
  row_ok a b i j curr -> row_ok a b i (S j) (row_cell a b i prev curr j).
Proof.
  intros Hi Hj [_ Hp] [Hl Hc]. split; [unfold row_cell; by rewrite length_insert|].
  intros k Hk Hkm. unfold row_cell. rewrite vget_insert by lia. case_decide as E.
  - subst k. destruct i as [|i], j as [|j]; try lia. rewrite D_S by lia. simpl in *.
    rewrite !Nat.sub_0_r in *. rewrite !Hp, Hc by lia. lia.
  - apply Hc; lia.
Qed.

Lemma row_step_ok a b st i : 1 <= i <= List.length a ->
  row_ok a b (i - 1) (S (List.length b)) st.1 /\ List.length st.2 = S (List.length b) ->
  row_ok a b i (S (List.length b)) (row_step a b st i).1 /\
  List.length (row_step a b st i).2 = S (List.length b).
Proof.
  destruct st as [prev curr]. intros Hi [Hp Hl]. simpl in *. split; [|by destruct Hp].
  apply (fold_seq_inv _ (fun j => row_ok a b i j) 1).
  - split; [by rewrite length_insert|]. intros j Hj _. assert (j = 0) as -> by lia.
    rewrite vget_insert by lia. rewrite decide_True by done. by rewrite D_0_r by lia.
  - intros j c Hj. apply row_cell_ok; [lia..|done].
Qed.

Lemma conventions_chars_edit a b : conventions_levenshtein_chars a b = edit a b.
Proof.
  unfold conventions_levenshtein_chars.
  destruct (Nat.eqb_spec (List.length a) 0) as [E|E].
  { apply nil_length_inv in E as ->. done. }
  destruct (Nat.eqb_spec (List.length b) 0) as [E'|E'].
  { apply nil_length_inv in E' as ->. by rewrite edit_nil_r. }
  set (m := List.length b). set (n := List.length a).
  assert (H : row_ok a b (1 + n - 1) (S m) (foldl (row_step a b) (seq 0 (S m), replicate (S m) 0) (seq 1 n)).1 /\
              List.length (foldl (row_step a b) (seq 0 (S m), replicate (S m) 0) (seq 1 n)).2 = S m).
  { apply (fold_seq_inv _ (fun i st => row_ok a b (i - 1) (S m) st.1 /\ List.length st.2 = S m)).
    - split; [|apply length_replicate]. split; [apply length_seq|]. intros j Hj Hjm. cbn [fst].
      unfold vget. rewrite lookup_seq_lt by done. simpl. by rewrite D_0_l.
    - intros i st Hi H. simpl. rewrite Nat.sub_0_r. by apply row_step_ok; [unfold n in *; lia|]. }
  destruct H as [[_ H] _]. destruct (foldl _ _ _) as [prev curr]. simpl in *.
  rewrite H by (unfold m; lia). rewrite Nat.sub_0_r. apply D_full.
Qed.
End Levenshtein.

(** [levenshtein] and [conventions_levenshtein] *)
Definition levenshtein (a b : string) : nat := levenshtein_chars "" (chars a) (chars b).
Definition conventions_levenshtein (a b : string) : nat :=
  conventions_levenshtein_chars "" (chars a) (chars b).

(** * Offsets and scans *)

(** [find_keyword_line_offset]; [offset] grows by the line's length plus one
    per line, whatever its terminator. *)
Fixpoint keyword_line_go (keyword : string) (offset : nat) (ls : list string) : option nat :=
  match ls with
  | [] => None
  | l :: ls =>
    if starts_with keyword (trim_start l) then Some offset
    else keyword_line_go keyword (offset + str_len l + 1) ls
  end.
Definition find_keyword_line_offset (body keyword : string) : option nat :=
  keyword_line_go keyword 0 (str_lines body).

Definition opens (b : byte) : bool := (b =a? "(") || (b =a? "[").
Definition closes (b : byte) : bool := (b =a? ")") || (b =a? "]").

(** [first_paren_balanced_token]: [idx] is the offset reached. *)
Fixpoint balanced_token_go (text : string) (depth : Z) (idx : nat) (s : string) : string :=
  match s with
  | "" => text
  | String b r =>
    if opens b then balanced_token_go text (depth + 1) (S idx) r
    else if closes b then balanced_token_go text (depth - 1) (S idx) r
    else if (0 <? ws_len s)%nat && (depth =? 0)%Z then trim_end (str_take idx text)
    else balanced_token_go text depth (S idx) r
  end.
Definition first_paren_balanced_token (text : string) : string :=
  let text := trim text in balanced_token_go text 0 0 text.

(** [find_balanced_decorator_end]: state is the depth, whether the scan is
    inside a string literal and whether the last character was an escape. *)
Fixpoint decorator_go (depth : Z) (in_string escaped : bool) (pos : nat) (s : string) : option nat :=
  match s with
  | "" => None
  | String b r =>
    if in_string then
      if escaped then decorator_go depth true false (S pos) r
      else if b =a? BSL then decorator_go depth true true (S pos) r
      else if b =a? DQ then decorator_go depth false false (S pos) r
      else decorator_go depth true false (S pos) r
    else if b =a? DQ then decorator_go depth true escaped (S pos) r
    else if opens b then decorator_go (depth + 1) false escaped (S pos) r
    else if closes b then
      if (depth - 1 =? 0)%Z then Some (S pos) else decorator_go (depth - 1) false escaped (S pos) r
    else decorator_go depth false escaped (S pos) r
  end.
Definition find_balanced_decorator_end (text : string) (start : nat) : option nat :=
  decorator_go 0 false false start (str_drop start text).

(** [strip_quotes] *)
Definition strip_quotes (raw : string) : option string :=
  let trimmed := trim raw in
  let wrapped (q : byte) :=
    starts_with (String q "") trimmed && ends_with (String q "") trimmed && (2 <=? str_len trimmed)%nat in
  if wrapped DQ || wrapped SQ then Some (slice 1 (str_len trimmed - 1) trimmed) else None.

(** [find_word]: [None] is a scan that did not end within the fuel. *)
Definition white_at (text : string) (i : nat) : bool :=
  match byte_at text i with Some b => is_ascii_whitespace b | None => false end.

Definition word_at (text word : string) (abs : nat) : bool :=
  ((abs =? 0)%nat || white_at text (abs - 1)) &&
  ((str_len text <=? abs + str_len word)%nat || white_at text (abs + str_len word)).

Fixpoint find_word_go (fuel : nat) (text word : string) (from : nat) : option (option nat) :=
  match fuel with
  | O => None
  | S fuel =>
    match str_find word (str_drop from text) with
    | None => Some None
    | Some rel =>
      let abs := from + rel in
      if word_at text word abs then Some (Some abs)
      else find_word_go fuel text word (abs + str_len word)
    end
  end.
Definition find_word (text word : string) : option (option nat) :=
  find_word_go (S (str_len text)) text word 0.

(** [find_top_level_operator]: the byte loop slices [text[i..]] at every offset
    outside quotes, which panics ([None]) inside a multi-byte character. *)
Fixpoint operator_go (op : string) (in_quote : bool) (i : nat) (s : string) : option (option nat) :=
  match s with
  | "" => Some None
  | String b r =>
    if b =a? DQ then operator_go op (negb in_quote) (S i) r
    else if in_quote then operator_go op in_quote (S i) r
    else if negb (char_start s) then None
    else if starts_with op s then Some (Some i)
    else operator_go op in_quote (S i) r
  end.
Definition find_top_level_operator (text op : string) : option (option nat) :=
  operator_go op false 0 text.

(** [has_top_level_comma] *)
Fixpoint comma_go (depth : Z) (in_quote : bool) (s : string) : bool :=
  match s with
  | "" => false
  | String b r =>
    if (b =a? DQ) || (b =a? SQ) then comma_go depth (negb in_quote) r
    else if opens b && negb in_quote then comma_go (depth + 1) in_quote r
    else if closes b && negb in_quote then comma_go (depth - 1) in_quote r
    else if (b =a? ",") && negb in_quote && (depth =? 0)%Z then true
    else comma_go depth in_quote r
  end.
Definition has_top_level_comma (text : string) : bool := comma_go 0 false text.

(** [is_valid_design_hex] *)
Definition is_valid_design_hex (text : string) : bool :=
  let trimmed := trim text in
  match strip_prefix "#" trimmed with
  | None => false
  | Some rest =>
    let len := str_len rest in
    if negb ((len =? 3)%nat || (len =? 4)%nat || (len =? 6)%nat || (len =? 8)%nat) then false
    else str_all is_ascii_hexdigit rest
  end.

(** * Case conversion *)

(** [pascal_to_snake]; [prev] is the character before, [started] is
    [!out.is_empty()]. *)
Fixpoint pascal_go (prev : option byte) (started : bool) (s : string) : string :=
  match s with
  | "" => ""
  | String ch r =>
    if is_ascii_uppercase ch then
      let next_is_lower := match r with String n _ => is_ascii_lowercase n | "" => false end in
      let prev_needs_sep :=
        match prev with
        | Some p => is_ascii_lowercase p || is_ascii_digit p || (is_ascii_uppercase p && next_is_lower)
        | None => false
        end in
      (if started && prev_needs_sep then "_" else "") +:+
      String (to_ascii_lowercase ch) (pascal_go (Some ch) true r)
    else String ch (pascal_go (Some ch) true r)
  end.
Definition pascal_to_snake (s : string) : string := pascal_go None false s.

(** [snake_to_pascal] *)
Fixpoint snake_go (capitalize_next : bool) (s : string) : string :=
  match s with
  | "" => ""
  | String ch r =>
    if ch =a? "_" then snake_go true r
    else if capitalize_next then String (to_ascii_uppercase ch) (snake_go false r)
    else String ch (snake_go false r)
  end.
Definition snake_to_pascal (s : string) : string := snake_go true s.

Definition quoted_table (resource_name : string) : string := quoted (pascal_to_snake resource_name).
Definition quoted_ident (ident : string) : string := quoted ident.

(** * Lemmas *)

(** ** Case conversion *)

Definition lower_digit (b : byte) : bool := is_ascii_lowercase b || is_ascii_digit b.

(** A snake-case segment: a lower-case letter and at least one more
    letter or digit. *)
Definition snake_segment (s : string) : bool :=
  match s with
  | String a r => is_ascii_lowercase a && (1 <=? str_len r)%nat && str_all lower_digit r
  | "" => false
  end.

Lemma lower_digit_facts b : lower_digit b = true ->
  is_ascii_uppercase b = false /\ (b =a? "_") = false.
Proof. by_bytes b. Qed.

Lemma upper_facts b : is_ascii_lowercase b = true ->
  is_ascii_uppercase (to_ascii_uppercase b) = true /\
  to_ascii_lowercase (to_ascii_uppercase b) = b /\ (b =a? "_") = false.
Proof. by_bytes b. Qed.

Lemma snake_go_body r t : str_all lower_digit r = true -> snake_go false (r +:+ t) = r +:+ snake_go false t.
Proof.
  induction r as [|b r IH]; simpl; [done|]. intros H. bool_prop.
  destruct (lower_digit_facts b H) as [_ ->]. by rewrite IH.
Qed.

(** A run of letters and digits is copied; the separator test afterwards looks
    at its last byte. *)
Lemma pascal_go_body r t p : str_all lower_digit r = true -> r <> "" ->
  exists b, lower_digit b = true /\ pascal_go p true (r +:+ t) = r +:+ pascal_go (Some b) true t.
Proof.
  revert p. induction r as [|b r IH]; intros p H Hne; [done|]. simpl in H. bool_prop. simpl.
  destruct (lower_digit_facts b H) as [-> _].
  destruct r as [|c r]; [by exists b|]. destruct (IH (Some b)) as (b' & ? & ->); [done..|]. eauto.
Qed.

(** [capitalized] segments, as [snake_to_pascal] writes them. *)
Definition capitalize (s : string) : string :=
  match s with String a r => String (to_ascii_uppercase a) r | "" => "" end.

Lemma snake_go_segments segs : Forall (fun g => snake_segment g = true) segs ->
  snake_go true (join "_" segs) = foldr String.append "" (List.map capitalize segs).
Proof.
  induction 1 as [|g segs Hg Hs IH]; [done|].
  destruct g as [|a r]; [done|]. simpl in Hg. bool_prop.
  destruct (upper_facts a) as (_ & _ & Ha); [done|].
  destruct segs as [|g' segs].
  - cbn [join snake_go List.map foldr capitalize]. rewrite Ha, sapp_nil_r.
    rewrite <- (sapp_nil_r r) at 1. rewrite snake_go_body by done. simpl. by rewrite !sapp_nil_r.
  - rewrite join_cons by done. cbn [String.append snake_go List.map foldr capitalize]. rewrite Ha.
    simpl. f_equal. rewrite snake_go_body by done. f_equal. simpl. exact IH.
Qed.

Lemma pascal_go_segments segs p : Forall (fun g => snake_segment g = true) segs -> segs <> [] ->
  (exists b, p = Some b /\ lower_digit b = true) ->
  pascal_go p true (foldr String.append "" (List.map capitalize segs)) = "_" +:+ join "_" segs.
Proof.
  intros Hs. revert p. induction Hs as [|g segs Hg Hs IH]; intros p Hne (b & -> & Hb); [done|].
  destruct g as [|a r]; [done|]. simpl in Hg. bool_prop.
  destruct (upper_facts a) as (Hu & Hl & _); [done|].
  cbn [List.map foldr capitalize String.append pascal_go]. rewrite Hu, Hl.
  unfold lower_digit in Hb. rewrite Hb. cbn [orb andb String.append]. f_equal.
  destruct (pascal_go_body r (foldr String.append "" (List.map capitalize segs))
              (Some (to_ascii_uppercase a))) as (b' & Hb' & ->); [done|by destruct r|].
  destruct segs as [|g' segs].
  - simpl. by rewrite sapp_nil_r.
  - rewrite join_cons by done. rewrite IH by eauto. done.
Qed.

(** ** Whole words *)

(** [word] occurs at [i], delimited by white space or the ends of the text. *)
Definition occurs (text word : string) (i : nat) : Prop :=
  starts_with word (str_drop i text) = true /\ word_at text word i = true.

Definition no_white (s : string) : bool := str_all (fun b => negb (is_ascii_whitespace b)) s.

Lemma byte_at_drop s i k : byte_at (str_drop i s) k = byte_at s (i + k).
Proof. revert i. induction s as [|b s IH]; intros [|i]; simpl; try done; by destruct k. Qed.

Lemma starts_with_byte_at p s k b :
  starts_with p s = true -> byte_at p k = Some b -> byte_at s k = Some b.
Proof.
  revert s k. induction p as [|x p IH]; intros [|y s] k; simpl; try done.
  intros H. bool_prop. subst. destruct k as [|k]; simpl; [done|]. by apply IH.
Qed.

(** An occurrence cannot start strictly inside another one of a word without
    white space. *)
Lemma occurs_no_overlap text word abs j :
  no_white word = true -> starts_with word (str_drop abs text) = true ->
  abs < j < abs + str_len word -> ~ occurs text word j.
Proof.
  intros Hw Hs Hj [_ Ho]. unfold word_at in Ho. bool_prop. clear H0.
  replace (j =? 0)%nat with false in H by (symmetry; apply Nat.eqb_neq; lia). simpl in H.
  destruct (byte_at_lt word (j - 1 - abs)) as [b Hb]; [lia|].
  pose proof (str_all_byte_at _ _ _ _ Hw Hb) as Hn.
  apply (starts_with_byte_at _ _ _ _ Hs) in Hb. rewrite byte_at_drop in Hb.
  unfold white_at in H. replace (abs + (j - 1 - abs)) with (j - 1) in Hb by lia. rewrite Hb in H.
  simpl in Hn. by rewrite H in Hn.
Qed.

Lemma find_word_go_exact fuel text word from :
  word <> "" -> no_white word = true -> from <= str_len text -> str_len text - from < fuel ->
  (forall j, j < from -> ~ occurs text word j) ->
  exists r, find_word_go fuel text word from = Some r /\
    match r with
    | Some i => occurs text word i /\ forall j, j < i -> ~ occurs text word j
    | None => forall j, ~ occurs text word j
    end.
Proof.
  intros Hne Hw. revert from. induction fuel as [|fuel IH]; intros from Hf Hfu Hb; [lia|].
  cbn [find_word_go]. destruct (str_find word (str_drop from text)) as [rel|] eqn:E.
  - apply str_find_Some in E as [Hs Hmin]. rewrite drop_drop in Hs.
    assert (Hpos : 0 < str_len word) by (destruct word; simpl; [done|lia]).
    assert (Hlen : from + rel + str_len word <= str_len text).
    { apply starts_with_iff in Hs as [t Ht]. apply (f_equal str_len) in Ht.
      rewrite len_drop, len_app in Ht. lia. }
    assert (Hbefore : forall j, j < from + rel -> ~ occurs text word j).
    { intros j Hj. destruct (decide (j < from)) as [?|Hge]; [by apply Hb|]. intros [Hs' _].
      specialize (Hmin (j - from)). rewrite drop_drop in Hmin.
      replace (from + (j - from)) with j in Hmin by lia. rewrite Hs' in Hmin.
      discriminate Hmin. lia. }
    destruct (word_at text word (from + rel)) eqn:Ew.
    + exists (Some (from + rel)). by split_and!.
    + apply IH; [lia..|]. intros j Hj. destruct (decide (j < from + rel)) as [?|Hge]; [by apply Hbefore|].
      destruct (decide (j = from + rel)) as [->|Hj'].
      * intros [_ Ho]. congruence.
      * by apply (occurs_no_overlap _ _ (from + rel)); [..|lia].
  - exists None. split; [done|]. intros j Ho.
    destruct (decide (j < from)) as [Hj|Hj]; [by apply (Hb j)|]. destruct Ho as [Hs _].
    apply (str_find_None _ _) with (i := j - from) in E. rewrite drop_drop in E.
    replace (from + (j - from)) with j in E by lia. congruence.
Qed.

(** ** Bracketed groups *)

(** Text in which brackets nest and string literals are closed: the body of a
    decorator's argument list.  (The scan does not tell the two kinds of bracket
    apart.) *)
Inductive balanced : string -> Prop :=
| bal_nil : balanced ""
| bal_byte b s : opens b = false -> closes b = false -> (b =a? DQ) = false ->
    balanced s -> balanced (String b s)
| bal_string lit s : literal_body lit -> balanced s ->
    balanced (String DQ (lit +:+ String DQ s))
| bal_group o s c t : opens o = true -> closes c = true -> balanced s -> balanced t ->
    balanced (String o (s +:+ String c t))
with literal_body : string -> Prop :=
| lit_nil : literal_body ""
| lit_byte b s : (b =a? BSL) = false -> (b =a? DQ) = false -> literal_body s -> literal_body (String b s)
| lit_escape b s : literal_body s -> literal_body (String BSL (String b s)).

Lemma decorator_go_literal lit depth pos rest : literal_body lit ->
  decorator_go depth true false pos (lit +:+ String DQ rest) =
  decorator_go depth false false (pos + str_len lit + 1) rest.
Proof.
  intros H. revert pos. induction H as [|b s H1 H2 _ IH|b s _ IH]; intros pos.
  - simpl. f_equal. lia.
  - simpl. rewrite H1, H2, IH. f_equal. lia.
  - simpl. rewrite IH. f_equal. lia.
Qed.

Lemma opens_not b : opens b = true -> (b =a? DQ) = false.
Proof. by_bytes b. Qed.
Lemma closes_not b : closes b = true -> (b =a? DQ) = false /\ opens b = false.
Proof. by_bytes b. Qed.

(** Inside a group, balanced text leaves the depth as it was. *)
Lemma decorator_go_balanced s : balanced s -> forall depth pos rest, (0 < depth)%Z ->
  decorator_go depth false false pos (s +:+ rest) =
  decorator_go depth false false (pos + str_len s) rest.
Proof.
  induction 1 as [|b s H1 H2 H3 _ IH|lit s Hl _ IH|o s c t Ho Hc _ IHs _ IHt]; intros depth pos rest Hd.
  - simpl. f_equal. lia.
  - simpl. rewrite H1, H2, H3, IH by done. f_equal. lia.
  - simpl. rewrite sapp_assoc. cbn [String.append]. rewrite decorator_go_literal, IH by done.
    f_equal. rewrite len_app. simpl. lia.
  - cbn [String.append decorator_go]. rewrite (opens_not _ Ho), Ho, sapp_assoc, IHs by lia.
    cbn [String.append decorator_go]. destruct (closes_not _ Hc) as [-> ->]. rewrite Hc.
    destruct (Z.eqb_spec (depth + 1 - 1) 0) as [?|_]; [lia|].
    replace (depth + 1 - 1)%Z with depth by lia. rewrite IHt by done. f_equal.
    cbn [String.length]. rewrite len_app. simpl. lia.
Qed.

(** ** Operators outside quotes *)

Definition is_ascii (s : string) : bool := str_all (fun b => (code b <? 128)%N) s.

(** Whether offset [i] lies inside a double-quoted region. *)
Fixpoint quoted_at (in_quote : bool) (s : string) (i : nat) : bool :=
  match s, i with
  | "", _ => in_quote
  | _, O => in_quote
  | String b r, S i => quoted_at (if b =a? DQ then negb in_quote else in_quote) r i
  end.

(** [op] occurs at [i], outside quotes. *)
Definition operator_at (op text : string) (q : bool) (i : nat) : bool :=
  negb (quoted_at q text i) && starts_with op (str_drop i text).

Lemma operator_go_exact op q i s :
  is_ascii s = true -> op <> "" -> starts_with (String DQ "") op = false ->
  exists r, operator_go op q i s = Some r /\
    match r with
    | Some k => exists j, k = i + j /\ operator_at op s q j = true /\
                          forall j', j' < j -> operator_at op s q j' = false
    | None => forall j, operator_at op s q j = false
    end.
Proof.
  intros Ha Hop Hdq. unfold operator_at. revert q i Ha. induction s as [|b s IH]; intros q i Ha.
  - exists None. split; [done|]. intros j. rewrite drop_nil. destruct op; [done|]. simpl.
    by rewrite andb_false_r.
  - cbn [operator_go]. unfold is_ascii in Ha. cbn [str_all] in Ha. bool_prop.
    assert (Hrec : forall q', (if b =a? DQ then negb q else q) = q' ->
      negb q && starts_with op (String b s) = false ->
      exists r, operator_go op q' (S i) s = Some r /\
        match r with
        | Some k => exists j, k = i + j /\
            negb (quoted_at q (String b s) j) && starts_with op (str_drop j (String b s)) = true /\
            forall j', j' < j ->
              negb (quoted_at q (String b s) j') && starts_with op (str_drop j' (String b s)) = false
        | None => forall j, negb (quoted_at q (String b s) j) && starts_with op (str_drop j (String b s)) = false
        end).
    { intros q' <- Hnot. destruct (IH (if b =a? DQ then negb q else q) (S i)) as (r & Hr & Hspec); [done|].
      exists r. split; [done|]. destruct r as [k|].
      - destruct Hspec as (j & -> & Hj & Hbefore). exists (S j). split_and!; [lia|done|].
        intros [|j'] Hj'; [done|]. apply Hbefore. lia.
      - intros [|j]; [done|]. apply Hspec. }
    destruct (b =a? DQ) eqn:Eb.
    { apply Hrec; [done|]. bool_prop. subst. destruct op as [|o op]; [done|].
      cbn [starts_with] in Hdq |- *. rewrite Ascii.eqb_sym. destruct (DQ =a? o); [done|]. by rewrite andb_false_r. }
    destruct q; [by apply Hrec|]. cbn [char_start].
    replace (is_cont b) with false
      by (unfold is_cont, in_range; apply N.ltb_lt in H; symmetry; apply andb_false_iff; left; by apply N.leb_gt).
    cbn [negb]. destruct (starts_with op (String b s)) eqn:E; [|by apply Hrec].
    exists (Some i). split; [done|]. exists 0. split_and!; [lia|by rewrite drop_0, E|lia].
Qed.

(** * Properties *)

(** [levenshtein] is the least number of single-character insertions, deletions
    and substitutions turning [a] into [b], and the two-row variant computes the
    same number. *)
Theorem levenshtein_least a b :
  edits (chars a) (chars b) (levenshtein a b) /\
  (forall n, edits (chars a) (chars b) n -> levenshtein a b <= n) /\
  conventions_levenshtein a b = levenshtein a b.
Proof.
  unfold conventions_levenshtein, levenshtein. rewrite conventions_chars_edit, levenshtein_chars_edit.
  split_and!; [apply edit_edits|apply edit_least|done].
Qed.

(** [find_word] ends on every non-empty word without white space, and finds
    the first whole-word occurrence when there is one. *)
Theorem find_word_exact text word :
  word <> "" -> no_white word = true ->
  exists r, find_word text word = Some r /\
    match r with
    | Some i => occurs text word i /\ forall j, j < i -> ~ occurs text word j
    | None => forall j, ~ occurs text word j
    end.
Proof. intros Hne Hw. apply find_word_go_exact; [done..|lia|lia|lia]. Qed.

Lemma find_word_exact_witness :
  exists r, find_word "withdrawn with reason" "with" = Some r /\
    match r with
    | Some i => occurs "withdrawn with reason" "with" i /\
                forall j, j < i -> ~ occurs "withdrawn with reason" "with" j
    | None => forall j, ~ occurs "withdrawn with reason" "with" j
    end.
Proof. apply (find_word_exact "withdrawn with reason" "with"); [done|reflexivity]. Defined.

(** [find_balanced_decorator_end] returns the offset just past the bracket that
    closes the group starting at [start], whatever follows it. *)
Theorem find_balanced_decorator_end_exact pre o body c rest :
  opens o = true -> closes c = true -> balanced body ->
  find_balanced_decorator_end (pre +:+ String o (body +:+ String c rest)) (str_len pre) =
  Some (str_len pre + str_len body + 2).
Proof.
  intros Ho Hc Hb. unfold find_balanced_decorator_end. rewrite drop_app. cbn [decorator_go].
  rewrite (opens_not _ Ho), Ho. cbn [Z.add]. rewrite decorator_go_balanced by done.
  cbn [decorator_go]. destruct (closes_not _ Hc) as [-> ->]. rewrite Hc. simpl. f_equal. lia.
Qed.

Lemma find_balanced_decorator_end_witness :
  find_balanced_decorator_end "@x(a[1]) y" 2 = Some 8.
Proof.
  apply (find_balanced_decorator_end_exact "@x" "(" "a[1]" ")" " y"); [done|done|].
  apply bal_byte; [done..|]. apply (bal_group "[" "1" "]" ""); [done|done| |apply bal_nil].
  apply bal_byte; [done..|apply bal_nil].
Defined.

(** On ASCII text [find_top_level_operator] finds the first occurrence of the
    operator outside double quotes, or reports that there is none. *)
Theorem find_top_level_operator_exact text op :
  is_ascii text = true -> op <> "" -> starts_with (String DQ "") op = false ->
  exists r, find_top_level_operator text op = Some r /\
    match r with
    | Some i => operator_at op text false i = true /\
                forall j, j < i -> operator_at op text false j = false
    | None => forall j, operator_at op text false j = false
    end.
Proof.
  intros Ha Hop Hdq. destruct (operator_go_exact op false 0 text Ha Hop Hdq) as (r & Hr & H).
  exists r. split; [done|]. destruct r as [k|]; [|done]. destruct H as (j & -> & H). done.
Qed.

Lemma find_top_level_operator_witness :
  exists r, find_top_level_operator "input.x == 3" "==" = Some r /\
    match r with
    | Some i => operator_at "==" "input.x == 3" false i = true /\
                forall j, j < i -> operator_at "==" "input.x == 3" false j = false
    | None => forall j, operator_at "==" "input.x == 3" false j = false
    end.
Proof. apply (find_top_level_operator_exact "input.x == 3" "=="); [reflexivity|done|reflexivity]. Defined.

(** A character outside ASCII before the operator makes the scan slice inside
    that character: [find_top_level_operator] panics on an accented name. *)
Theorem find_top_level_operator_panics s op b c :
  starts_with op (String b (String c s)) = false ->
  is_cont b = false -> (b =a? DQ) = false -> is_cont c = true ->
  find_top_level_operator (String b (String c s)) op = None.
Proof.
  intros Hs Hb Hq Hc. unfold find_top_level_operator. cbn [operator_go char_start].
  rewrite Hq, Hb, Hs. cbn [negb].
  destruct (c =a? DQ) eqn:E; [bool_prop; by subst|]. by rewrite Hc.
Qed.

Lemma find_top_level_operator_panics_witness :
  find_top_level_operator "é == 1" "==" = None.
Proof.
  apply (find_top_level_operator_panics " == 1" "==" (ascii_of_N 195) (ascii_of_N 169));
    reflexivity.
Defined.

(** Snake case survives the trip through Pascal case, for segments of two or
    more characters. *)
Lemma snake_pascal_roundtrip segs :
  segs <> [] -> Forall (fun g => snake_segment g = true) segs ->
  pascal_to_snake (snake_to_pascal (join "_" segs)) = join "_" segs.
Proof.
  intros Hne Hs. unfold snake_to_pascal, pascal_to_snake. rewrite snake_go_segments by done.
  destruct Hs as [|g segs Hg Hs]; [done|]. destruct g as [|a r]; [done|]. simpl in Hg. bool_prop.
  destruct (upper_facts a) as (Hu & Hl & _); [done|].
  cbn [List.map foldr capitalize String.append pascal_go]. rewrite Hu, Hl. cbn [andb String.append].
  destruct (pascal_go_body r (foldr String.append "" (List.map capitalize segs))
              (Some (to_ascii_uppercase a))) as (b' & Hb' & ->); [done|by destruct r|].
  destruct segs as [|g' segs].
  - simpl. by rewrite sapp_nil_r.
  - rewrite join_cons by done. rewrite (pascal_go_segments (g' :: segs)) by eauto. done.
Qed.

Lemma snake_pascal_roundtrip_witness :
  pascal_to_snake (snake_to_pascal "order_line2_item") = "order_line2_item".
Proof.
  apply (snake_pascal_roundtrip ["order"; "line2"; "item"]); [done|].
  repeat apply List.Forall_cons; try reflexivity. apply List.Forall_nil.
Defined.
