(* ===== verification/Lex.v ===== *)
(** The shared parser mechanics of [lazuli_syntax/src/parser/common.rs] and
    [parser/error.rs]: indexed source lines, trivia, comments, depth- and
    quote-aware scanning, spans and the parse error type. *)
From S2P Require Import Prelude Str.

(** * Spans and errors *)

Record Span := { span_start : nat; span_end : nat }.
Definition span_new (start end_ : nat) : Span := {| span_start := start; span_end := end_ |}.

Inductive ParseError :=
| Pest (message : string) (span : Span)
| Expected (expected : string).

(** [ParseError::span] *)
Definition error_span (e : ParseError) : Span :=
  match e with
  | Pest _ span => span
  | Expected _ => span_new 0 1
  end.

Definition presult := result ParseError.

(** * Source lines *)

Record SourceLine := {
  text : string;
  indent : nat;
  start : nat;
  end_ : nat
}.

Definition is_space (b : byte) : bool := b =a? " "%char.

Fixpoint source_lines_go (offset : nat) (texts : list string) : list SourceLine :=
  match texts with
  | [] => []
  | t :: ts =>
    let e := offset + str_len t in
    {| text := t; indent := count_while is_space t; start := offset; end_ := e |}
      :: source_lines_go (e + 1) ts
  end.

Definition source_lines (source : string) : list SourceLine :=
  source_lines_go 0 (str_lines source).

Definition is_trivia (trimmed : string) : bool :=
  (trimmed =? "") || starts_with "#" trimmed.

(** ** Inline comments *)

(** The scanning loop: the index of the [#] that opens the comment.  [q] is
    [in_quote]; a backslash inside quotes skips the next byte. *)
Fixpoint comment_index (s : string) (q : option byte) (i : nat) : option nat :=
  match s with
  | "" => None
  | String b r =>
    match q with
    | Some c =>
      if b =a? c then comment_index r None (S i)
      else if b =a? BSL then
        match r with
        | String _ r' => comment_index r' q (S (S i))
        | "" => None
        end
      else comment_index r q (S i)
    | None =>
      if (b =a? DQ) || (b =a? SQ) then comment_index r (Some b) (S i)
      else if b =a? "#"%char then Some i
      else comment_index r None (S i)
    end
  end.

Definition strip_inline_comment (line : string) : string :=
  match comment_index line None 0 with
  | Some i => trim_end (str_take i line)
  | None => line
  end.

(** ** Errors anchored on a line *)

Definition line_error (line : SourceLine) (message : string) : ParseError :=
  Pest message (span_new (start line) (Nat.max (end_ line) (start line + 1))).

Definition line_error_owned (line : SourceLine) (message : string) : ParseError :=
  Pest message (span_new (start line) (Nat.max (end_ line) (start line + 1))).

(** ** Token scanning *)

Definition is_open (b : byte) : bool := (b =a? "(") || (b =a? "[").
Definition is_close (b : byte) : bool := (b =a? ")") || (b =a? "]").

(** One step of the depth counter ([i32] in the source; see [tl_depth_bound]). *)
Definition depth_step (d : Z) (b : byte) : Z :=
  if is_open b then (d + 1)%Z else if is_close b then (d - 1)%Z else d.

Fixpoint find_token_go (s needle : string) (depth : Z) (i : nat) : option nat :=
  match s with
  | "" => None
  | String b r =>
    if (str_len needle <=? str_len s)%nat then
      let depth := depth_step depth b in
      if (depth =? 0)%Z && starts_with needle s then Some i
      else find_token_go r needle depth (S i)
    else None
  end.

(** [find_token], for the non-empty needles its callers pass. *)
Definition find_token (text needle : string) : option nat := find_token_go text needle 0 0.

(** One step of the scanner of [find_top_level_token]: (depth, in_quote). *)
Definition tl_step (st : Z * bool) (b : byte) : Z * bool :=
  let '(d, q) := st in
  if b =a? DQ then (d, negb q)
  else if q then (d, q)
  else (depth_step d b, q).

Fixpoint find_top_level_go (s needle : string) (st : Z * bool) (i : nat) : option nat :=
  match s with
  | "" => None
  | String b r =>
    if (str_len needle <=? str_len s)%nat then
      let st := tl_step st b in
      if negb st.2 && (st.1 =? 0)%Z && starts_with needle s then Some i
      else find_top_level_go r needle st (S i)
    else None
  end.

(** [find_top_level_token], for the non-empty needles its callers pass. *)
Definition find_top_level_token (text needle : string) : option nat :=
  find_top_level_go text needle (0%Z, false) 0.

(** ** Small value parsers *)

Definition parse_lzx_bool (value : string) : option bool :=
  if value =? "true" then Some true
  else if value =? "false" then Some false
  else None.

Definition kebab_tail (b : byte) : bool :=
  is_ascii_lowercase b || is_ascii_digit b || (b =a? "_") || (b =a? "-").

Definition is_kebab_or_snake_ident (s : string) : bool :=
  match s with
  | "" => false
  | String first rest => is_ascii_lowercase first && str_all kebab_tail rest
  end.

Definition ident_tail (b : byte) : bool := is_ascii_alphanumeric b || (b =a? "_").

Definition is_lzx_bare_ident (s : string) : bool :=
  match s with
  | "" => false
  | String first rest => is_ascii_alphabetic first && str_all ident_tail rest
  end.

Definition is_lzx_resume_ref (s : string) : bool :=
  match split_char "." s with
  | [name] => is_lzx_bare_ident name
  | [feature; name] => is_lzx_bare_ident feature && is_lzx_bare_ident name
  | _ => false
  end.


Definition split_lzx_list (value : string) : list string :=
  List.filter nonempty (List.map trim (split_char "," value)).

Definition unquote_lzx_value (value : string) : string :=
  match strip_prefix (String DQ "") value with
  | Some rest =>
    match strip_suffix (String DQ "") rest with
    | Some v => v
    | None => value
    end
  | None => value
  end.

(** U+2192 RIGHTWARDS ARROW in UTF-8. *)
Definition uni_arrow : string :=
  String (ascii_of_N 226) (String (ascii_of_N 134) (String (ascii_of_N 146) "")).

Definition split_lzx_arrow (text : string) : option (string * string) :=
  let unicode := (fun idx => (idx, 3)) <$> str_find uni_arrow text in
  let ascii := (fun idx => (idx, 2)) <$> str_find "->" text in
  match
    match unicode, ascii with
    | Some u, Some a => Some (if (u.1 <=? a.1)%nat then u else a)
    | Some u, None => Some u
    | None, Some a => Some a
    | None, None => None
    end
  with
  | Some (idx, len) => Some (str_take idx text, str_drop (idx + len) text)
  | None => None
  end.

(** * Source lines: what the offsets are *)

(** Where record [k] of the source really starts. *)
Definition true_offset (source : string) (k : nat) : nat :=
  str_len (foldr String.append "" (List.firstn k (split_inclusive source))).

Definition CRLF : string := String CR (String LF "").

(** How many of the first [k] records end in [\r\n]. *)
Definition crlf_before (source : string) (k : nat) : nat :=
  List.length (List.filter (ends_with CRLF) (List.firstn k (split_inclusive source))).

Lemma line_text_prefix r : exists w, r = line_text r +:+ w.
Proof.
  unfold line_text, strip_cr. destruct (strip_suffix (String LF "") r) as [t|] eqn:E.
  - apply strip_suffix_Some in E as ->. destruct (strip_suffix (String CR "") t) as [u|] eqn:E2.
    + apply strip_suffix_Some in E2 as ->. exists CRLF. by rewrite sapp_assoc.
    + by exists (String LF "").
  - exists "". by rewrite sapp_nil_r.
Qed.

(** A terminated record is one byte longer than its text, two with [\r\n]. *)
Lemma line_text_len t :
  str_len (t +:+ String LF "") =
  str_len (line_text (t +:+ String LF "")) + 1 + (if ends_with CRLF (t +:+ String LF "") then 1 else 0).
Proof.
  unfold line_text. rewrite (proj2 (strip_suffix_Some _ _ t) eq_refl). unfold strip_cr.
  destruct (strip_suffix (String CR "") t) as [u|] eqn:E.
  - apply strip_suffix_Some in E as ->.
    rewrite (proj2 (ends_with_strip CRLF _)) by (exists u; by rewrite sapp_assoc).
    rewrite !len_app. simpl. lia.
  - destruct (ends_with CRLF _) eqn:E2.
    + apply ends_with_strip in E2 as [u Hu].
      assert (t = u +:+ String CR "") as ->.
      { change CRLF with (String CR "" +:+ String LF "") in Hu.
        rewrite <- sapp_assoc in Hu.
        assert (Some t = Some (u +:+ String CR "")) as [= ->]; [|done].
        rewrite <- (proj2 (strip_suffix_Some (String LF "") _ t) eq_refl).
        apply strip_suffix_Some. done. }
      by rewrite (proj2 (strip_suffix_Some _ _ u) eq_refl) in E.
    + rewrite len_app. simpl. lia.
Qed.

Lemma concat_firstn_drop (l : list string) k r :
  nth_error l k = Some r ->
  exists post, foldr String.append "" l = foldr String.append "" (List.firstn k l) +:+ r +:+ post.
Proof.
  revert k; induction l as [|x l IH]; intros [|k]; simpl; try done.
  - intros [= ->]. eauto.
  - intros H. destruct (IH _ H) as [post ->]. exists post. by rewrite sapp_assoc.
Qed.

Lemma source_lines_go_nth (recs : list string) off k l :
  (forall j r r', nth_error recs j = Some r -> nth_error recs (S j) = Some r' ->
     exists t, r = t +:+ String LF "") ->
  nth_error (source_lines_go off (List.map line_text recs)) k = Some l ->
  exists r, nth_error recs k = Some r /\ text l = line_text r /\
    indent l = count_while is_space (line_text r) /\
    end_ l = start l + str_len (text l) /\
    start l + List.length (List.filter (ends_with CRLF) (List.firstn k recs)) =
    off + str_len (foldr String.append "" (List.firstn k recs)).
Proof.
  revert off k. induction recs as [|r recs IH]; intros off k Hlf H; simpl in H; [by destruct k|].
  destruct k as [|k]; simpl in H.
  - injection H as <-. exists r. simpl. repeat split.
  - apply IH in H; [|intros j r1 r2 H1 H2; by apply (Hlf (S j) r1 r2)].
    destruct H as (r' & Hr & Ht & Hi & He & Hs). exists r'. split; [done|].
    split; [done|]. split; [done|]. split; [done|]. simpl. rewrite len_app.
    assert (exists t, r = t +:+ String LF "") as [t Hrt].
    { destruct recs as [|r2 recs]; [by destruct k|]. by apply (Hlf 0 r r2). }
    pose proof (line_text_len t) as HL. rewrite <- Hrt in HL.
    destruct (ends_with CRLF r); simpl; lia.
Qed.

(** What [source_lines] records for line [k], for every source. *)
Lemma source_lines_spec source k l :
  nth_error (source_lines source) k = Some l ->
  let off := true_offset source k in
  slice off (off + str_len (text l)) source = text l /\
  start l + crlf_before source k = off /\
  end_ l = start l + str_len (text l) /\
  indent l = count_while is_space (text l).
Proof.
  unfold source_lines, str_lines. intros H.
  apply source_lines_go_nth in H;
    [|intros j r r' H1 H2; by apply (split_inclusive_lf source j r r')].
  destruct H as (r & Hr & Ht & Hi & He & Hs). cbn zeta.
  split_and!; [|exact Hs|done|by rewrite Ht].
  destruct (concat_firstn_drop _ _ _ Hr) as [post Hpost].
  rewrite split_inclusive_concat in Hpost. unfold true_offset.
  set (pre := foldr _ _ _) in *. destruct (line_text_prefix r) as [w Hw].
  assert (Hsrc : source = pre +:+ line_text r +:+ (w +:+ post)).
  { by rewrite Hpost at 1; rewrite Hw at 1; rewrite sapp_assoc. }
  rewrite Ht. clearbody pre. rewrite Hsrc. apply slice_app.
Qed.

Lemma crlf_before_lacks source k : lacks CR source -> crlf_before source k = 0.
Proof.
  intros H. unfold crlf_before. apply length_zero_iff_nil, filter_none.
  intros r Hr%In_firstn. destruct (ends_with CRLF r) eqn:E; [|done]. exfalso.
  apply ends_with_strip in E as [t ->].
  apply In_nth_error in Hr as [j Hj]. destruct (concat_firstn_drop _ _ _ Hj) as [post Hp].
  rewrite split_inclusive_concat in Hp. rewrite Hp, !str_all_app in H. simpl in H.
  by rewrite !andb_false_r in H.
Qed.

(** ** Inline comments *)

(** A comment found in a prefix is the one found in the whole line. *)
Lemma comment_index_extend p s q i j :
  comment_index p q i = Some j -> comment_index (p +:+ s) q i = Some j.
Proof.
  revert p q i. apply (str_ind3 (fun p => forall q i, _ -> comment_index (p +:+ s) q i = Some j)).
  intros p IH q i. destruct p as [|b p]; [done|]. simpl. destruct q as [c|].
  - destruct (b =a? c); [apply IH; simpl; lia|]. destruct (b =a? BSL).
    + destruct p as [|b' p]; [done|]. simpl. apply IH; simpl; lia.
    + apply IH; simpl; lia.
  - destruct (_ || _); [apply IH; simpl; lia|]. destruct (b =a? "#"); [done|].
    apply IH; simpl; lia.
Qed.

Lemma comment_index_bound s q i j : comment_index s q i = Some j -> i <= j < i + str_len s.
Proof.
  revert s q i. apply (str_ind3 (fun s => forall q i, comment_index s q i = Some j -> _)).
  intros s IH q i. destruct s as [|b s]; [done|]. simpl. destruct q as [c|].
  - destruct (b =a? c); [intros H%IH; simpl; lia|]. destruct (b =a? BSL).
    + destruct s as [|b' s]; [done|]. intros H%IH; simpl in *; lia.
    + intros H%IH; simpl; lia.
  - destruct (_ || _); [intros H%IH; simpl; lia|]. destruct (b =a? "#").
    + intros [= <-]. lia.
    + intros H%IH; simpl; lia.
Qed.

(** The scanner reports the index of a [#]. *)
Lemma comment_index_hash s q i j :
  comment_index s q i = Some j -> byte_at s (j - i) = Some "#"%char.
Proof.
  revert s q i. apply (str_ind3 (fun s => forall q i, comment_index s q i = Some j -> _)).
  intros s IH q i. destruct s as [|b s]; [done|]. intros H.
  assert (Hs : forall q', comment_index s q' (S i) = Some j -> byte_at (String b s) (j - i) = Some "#"%char).
  { intros q' H'. pose proof (comment_index_bound _ _ _ _ H'). apply IH in H'; [|simpl; lia].
    replace (j - i) with (S (j - S i)) by lia. done. }
  simpl in H. destruct q as [c|].
  - destruct (b =a? c); [eauto|]. destruct (b =a? BSL); [|eauto].
    destruct s as [|b' s]; [done|]. pose proof (comment_index_bound _ _ _ _ H).
    apply IH in H; [|simpl; lia]. by replace (j - i) with (S (S (j - S (S i)))) by lia.
  - destruct (_ || _); [eauto|]. destruct (b =a? "#") eqn:E; [|eauto].
    injection H as <-. rewrite Nat.sub_diag. simpl. bool_prop. congruence.
Qed.

(** ** Top-level scanning *)

(** The scanner state after bytes [0..=i] of [s]. *)
Fixpoint tl_state (s : string) (st : Z * bool) (i : nat) : Z * bool :=
  match s, i with
  | "", _ => st
  | String b _, O => tl_step st b
  | String b r, S i => tl_state r (tl_step st b) i
  end.

(** [needle] occurs at [i], with the scanner at depth 0 and outside quotes. *)
Definition tl_hit (s needle : string) (st : Z * bool) (i : nat) : Prop :=
  i + str_len needle <= str_len s /\
  (tl_state s st i).2 = false /\ (tl_state s st i).1 = 0%Z /\
  starts_with needle (str_drop i s) = true.

Lemma starts_with_len p s : starts_with p s = true -> str_len p <= str_len s.
Proof. intros [t ->]%starts_with_iff. rewrite len_app. lia. Qed.

Lemma find_top_level_go_Some s needle st k i :
  find_top_level_go s needle st k = Some i ->
  k <= i /\ tl_hit s needle st (i - k) /\ forall j, j < i - k -> ~ tl_hit s needle st j.
Proof.
  revert st k. induction s as [|b s IH]; intros st k; cbn [find_top_level_go]; [done|].
  destruct (_ <=? _)%nat eqn:El; [|done]. destruct (negb _ && _ && _) eqn:E.
  - intros [= <-]. bool_prop. rewrite Nat.sub_diag. split; [done|]. split; [|lia].
    split_and!; try done. by apply Z.eqb_eq.
  - intros H. destruct (IH _ _ H) as (Hk & Hh & Hn). split; [lia|].
    replace (i - k) with (S (i - S k)) by lia. split.
    + destruct Hh as (? & ? & ? & ?). split_and!; simpl; try done; try lia.
    + intros [|j] Hj (H1 & H2 & H3 & H4).
      * simpl in H2, H3. rewrite H2, H3 in E. rewrite drop_0 in H4. by rewrite H4 in E.
      * apply (Hn j); [lia|]. split_and!; simpl in *; try done; lia.
Qed.

Lemma find_top_level_go_None s needle st k :
  needle <> "" -> find_top_level_go s needle st k = None -> forall j, ~ tl_hit s needle st j.
Proof.
  intros Hne. revert st k. induction s as [|b s IH]; intros st k; cbn [find_top_level_go].
  - intros _ j (H & _). destruct needle; simpl in *; [done|lia].
  - destruct (_ <=? _)%nat eqn:El.
    + destruct (negb _ && _ && _) eqn:E; [done|]. intros H [|j] (H1 & H2 & H3 & H4).
      * simpl in H2, H3. rewrite H2, H3 in E. rewrite drop_0 in H4. by rewrite H4 in E.
      * apply (IH _ _ H j). split_and!; simpl in *; try done; lia.
    + intros _ j (H1 & _). bool_prop. simpl in *. lia.
Qed.

Lemma depth_step_bound d b : (Z.abs (depth_step d b - d) <= 1)%Z.
Proof. unfold depth_step. repeat case_match; lia. Qed.

Lemma tl_state_depth s st i :
  (Z.abs ((tl_state s st i).1 - st.1) <= Z.of_nat (Nat.min (S i) (str_len s)))%Z.
Proof.
  revert st i. induction s as [|b s IH]; intros st i; [simpl; lia|].
  assert (Hb : (Z.abs ((tl_step st b).1 - st.1) <= 1)%Z).
  { destruct st as [d q]; unfold tl_step. pose proof (depth_step_bound d b).
    repeat case_match; simpl; lia. }
  destruct i as [|i]; cbn [tl_state]; [simpl; lia|].
  specialize (IH (tl_step st b) i). rewrite len_cons. lia.
Qed.

(** * Properties *)

(** Every line of a source without carriage returns is exactly the slice
    [start..end] of the source, its indent is its number of leading spaces,
    and the lines start where the records do. *)
Theorem source_lines_exact source k l :
  lacks CR source -> nth_error (source_lines source) k = Some l ->
  slice (start l) (end_ l) source = text l /\ start l = true_offset source k /\
  indent l = count_while is_space (text l).
Proof.
  intros Hcr Hk. destruct (source_lines_spec _ _ _ Hk) as (Hs & Ho & He & Hi).
  rewrite crlf_before_lacks, Nat.add_0_r in Ho by done. rewrite He, Ho. done.
Qed.

(** With [\r\n] terminators the recorded offsets lag behind the source: line
    [k] really is the slice at [true_offset source k], and the recorded
    [start] is short of it by the number of [\r\n] records before it. *)
Theorem source_lines_crlf_lag source k l :
  nth_error (source_lines source) k = Some l ->
  slice (true_offset source k) (true_offset source k + str_len (text l)) source = text l /\
  start l + crlf_before source k = true_offset source k.
Proof. intros Hk. by destruct (source_lines_spec _ _ _ Hk) as (Hs & Ho & _ & _). Qed.

(** The index the comment scanner returns is the [#], what is kept is a
    prefix of the line before it, and no comment is left: stripping again
    changes nothing. *)
Theorem strip_inline_comment_idem line :
  (exists w, line = strip_inline_comment line +:+ w) /\
  strip_inline_comment (strip_inline_comment line) = strip_inline_comment line.
Proof.
  unfold strip_inline_comment at 1 3 4. destruct (comment_index line None 0) as [i|] eqn:E.
  - destruct (trim_end_prefix (str_take i line)) as (w & Hw & _).
    split; [exists (w +:+ str_drop i line); by rewrite <- sapp_assoc, <- Hw, take_drop_id|].
    unfold strip_inline_comment. destruct (comment_index (trim_end _) None 0) as [j|] eqn:E2; [|done].
    exfalso. pose proof (comment_index_bound _ _ _ _ E2) as Hj.
    apply (comment_index_extend _ (w +:+ str_drop i line)) in E2.
    rewrite <- sapp_assoc, <- Hw, take_drop_id in E2.
    pose proof (len_trim_end (str_take i line)). rewrite len_take in *.
    assert (i = j) by congruence. lia.
  - split; [exists ""; by rewrite sapp_nil_r|]. unfold strip_inline_comment. by rewrite E.
Qed.

(** [find_top_level_token] finds the first occurrence of the needle outside
    string literals and brackets, and nothing else. *)
Theorem find_top_level_token_first text needle :
  needle <> "" ->
  (forall i, find_top_level_token text needle = Some i <->
     tl_hit text needle (0%Z, false) i /\ forall j, j < i -> ~ tl_hit text needle (0%Z, false) j) /\
  (find_top_level_token text needle = None <-> forall j, ~ tl_hit text needle (0%Z, false) j).
Proof.
  intros Hne. unfold find_top_level_token.
  destruct (find_top_level_go _ _ _ _) as [k|] eqn:E.
  - destruct (find_top_level_go_Some _ _ _ _ _ E) as (_ & Hh & Hn).
    rewrite Nat.sub_0_r in *. split.
    + intros i. split; [intros [= <-]; done|]. intros [Hi Hj].
      destruct (lt_eq_lt_dec i k) as [ [ | -> ] | ]; [by destruct (Hn i)|done|by destruct (Hj k)].
    + split; [done|]. intros H. by destruct (H k).
  - pose proof (find_top_level_go_None _ _ _ _ Hne E) as Hn. split; [|done].
    intros i. split; [done|]. intros [Hi _]. by destruct (Hn i).
Qed.

(** The [i32] nesting counter never leaves [-len .. len], so it cannot
    overflow on a line shorter than 2 GiB. *)
Theorem tl_depth_bound text i :
  (Z.abs (tl_state text (0%Z, false) i).1 <= Z.of_nat (str_len text))%Z.
Proof. pose proof (tl_state_depth text (0%Z, false) i) as H. cbn [fst] in H. lia. Qed.

(** A list entry as the grammar means it: trimmed, non-empty, comma-free. *)
Definition clean_entry (s : string) : Prop := trim s = s /\ s <> "" /\ lacks "," s.

(** Printing clean entries separated by [, ] and splitting them again gives
    the entries back; whatever the input, no entry is empty. *)
Lemma split_lzx_list_join x l :
  Forall clean_entry (x :: l) -> split_lzx_list (join ", " (x :: l)) = x :: l.
Proof.
  unfold split_lzx_list. revert x. induction l as [|y l IH]; intros x H;
    inversion_clear H as [|?? (Ht & Hne & Hl) Hr].
  - simpl. rewrite split_char_none by done. simpl. rewrite Ht.
    unfold nonempty. by destruct x.
  - rewrite join_cons by done.
    change (", " +:+ ?r) with (String "," (String " " r)). rewrite split_char_app by done.
    cbn [List.map List.filter]. rewrite Ht. replace (nonempty x) with true by (by destruct x).
    f_equal. etransitivity; [|exact (IH y Hr)].
    set (r := join ", " (y :: l)). simpl. destruct (split_char "," r); done.
Qed.

(** * Concrete inputs *)

Definition two_lines : string := "feature a" +:+ String LF ("  uses b" +:+ String LF "").

Lemma source_lines_exact_witness :
  exists l, nth_error (source_lines two_lines) 1 = Some l /\ slice (start l) (end_ l) two_lines = text l.
Proof.
  eexists. split; [vm_compute; reflexivity|].
  apply (source_lines_exact two_lines 1); [vm_compute; reflexivity|vm_compute; reflexivity].
Defined.

Definition crlf_lines : string := "a" +:+ String CR (String LF "b").

Lemma source_lines_crlf_lag_witness :
  exists l, nth_error (source_lines crlf_lines) 1 = Some l /\ start l + crlf_before crlf_lines 1 = true_offset crlf_lines 1.
Proof.
  eexists. split; [vm_compute; reflexivity|].
  apply (source_lines_crlf_lag crlf_lines 1). vm_compute. reflexivity.
Defined.

Lemma find_top_level_token_first_witness :
  find_top_level_token "f(a when b) when c" "when" = None <->
  forall j, ~ tl_hit "f(a when b) when c" "when" (0%Z, false) j.
Proof. apply (find_top_level_token_first "f(a when b) when c" "when"). discriminate. Defined.
