(* ===== verification/Highlight.v ===== *)
(** The positioned-token classifier of [lazuli_syntax/src/parser/highlight.rs]
    and its LSP encoding in [lazuli_lsp/src/semantic_tokens.rs].

    The keyword registry ([lazuli_keywords::ALL]) is read only through
    [find]; the classifier is modelled for every registry [ALL]. *)
From S2P Require Import Prelude Str Lex.

(** * Data *)

(** [lazuli_keywords::SemanticToken] *)
Inductive SemanticToken :=
| Keyword | Type_ | Function_ | Namespace | Decorator | Modifier | EnumMember
| String_ | Comment | Operator | Variable_ | Property.

#[export] Instance SemanticToken_eq_dec : EqDecision SemanticToken.
Proof. solve_decision. Defined.

Record ClassifiedToken := {
  line : nat;
  start_col : nat;
  len : nat;
  token : SemanticToken
}.

(** The two fields of [CapabilitySpec] the classifier reads. *)
Record CapabilitySpec := { literal : string; spec_token : SemanticToken }.

(** [lazuli_keywords::find]: the first row with the literal. *)
Definition find (ALL : list CapabilitySpec) (lit : string) : option CapabilitySpec :=
  List.find (fun c => literal c =? lit) ALL.

Definition token_is (t u : SemanticToken) : bool := if decide (t = u) then true else false.

(** * The classifier *)

(** The bytes at which [scan_word_end] stops. *)
Definition word_boundary (b : byte) : bool :=
  (b =a? " ") || (b =a? TAB) || (b =a? DQ) || (b =a? SQ) || (b =a? "#") ||
  (b =a? "(") || (b =a? ")") || (b =a? "[") || (b =a? "]") ||
  (b =a? "{") || (b =a? "}") || (b =a? ",").

(** [scan_word_end], from [start]. *)
Definition scan_word_end (bytes : string) (start : nat) : nat :=
  start + count_while (fun b => negb (word_boundary b)) (str_drop start bytes).

(** [IDENT_UPPER] *)
Definition is_ident_upper (s : string) : bool :=
  match s with
  | "" => false
  | String c rest => is_ascii_uppercase c && str_all ident_tail rest
  end.

Definition tok (l s n : nat) (t : SemanticToken) : ClassifiedToken :=
  {| line := l; start_col := s; len := n; token := t |}.

(** The scan for the closing quote: the index just past the string literal
    whose body [s] starts at [i]. *)
Fixpoint scan_string (s : string) (quote : byte) (i : nat) : nat :=
  match s with
  | "" => i
  | String b r =>
    if b =a? BSL then
      match r with
      | String _ r' => scan_string r' quote (S (S i))
      | "" => S i
      end
    else if b =a? quote then S i
    else scan_string r quote (S i)
  end.

Section Classifier.
Variable ALL : list CapabilitySpec.

(** [classify_at_token]: the tokens pushed and the index past the sigil
    token that starts at [at_]. *)
Definition classify_at_token (line_idx : nat) (text : string) (at_ : nat)
    : list ClassifiedToken * nat :=
  let token_end := scan_word_end text at_ in
  let token := slice at_ token_end text in
  if starts_with "@doctor.allow" token then
    ([tok line_idx at_ (str_len "@doctor.allow") Decorator], token_end)
  else
  let head_end := match str_find "." token with Some d => at_ + d | None => token_end end in
  let head := slice at_ head_end text in
  let head_is_known :=
    match find ALL head with
    | Some spec => token_is (spec_token spec) Decorator
    | None => false
    end in
  if head_is_known then
    let suffix_toks :=
      if (head_end <? token_end)%nat then
        let suffix_start := head_end + 1 in
        if (suffix_start <? token_end)%nat then
          if is_ident_upper (slice suffix_start token_end text)
          then [tok line_idx suffix_start (token_end - suffix_start) Type_]
          else []
        else []
      else [] in
    (tok line_idx at_ (head_end - at_) Decorator :: suffix_toks, token_end)
  else ([], token_end).

(** [classify_bare_word] *)
Definition classify_bare_word (line_idx : nat) (word : string) (start : nat) (is_head : bool)
    : list ClassifiedToken :=
  if word =? "" then []
  else if is_ident_upper word then [tok line_idx start (str_len word) Type_]
  else if negb is_head then []
  else match find ALL word with
       | Some spec =>
         if token_is (spec_token spec) Keyword
         then [tok line_idx start (str_len word) Keyword] else []
       | None => []
       end.

(** The loop of [classify_line] at index [i]; [first] is
    [first_word_start.is_none()].  [None] is "out of fuel". *)
Fixpoint classify_line_go (fuel line_idx : nat) (text : string) (i : nat) (first : bool)
    : option (list ClassifiedToken) :=
  match fuel with
  | O => None
  | S fuel =>
    match byte_at text i with
    | None => Some []
    | Some b =>
      if (b =a? " ") || (b =a? TAB) then classify_line_go fuel line_idx text (S i) first
      else if b =a? "#" then Some [tok line_idx i (str_len text - i) Comment]
      else if (b =a? DQ) || (b =a? SQ) then
        let i' := scan_string (str_drop (S i) text) b (S i) in
        app [tok line_idx i (i' - i) String_] <$> classify_line_go fuel line_idx text i' first
      else if b =a? "@" then
        let '(toks, i') := classify_at_token line_idx text i in
        app toks <$> classify_line_go fuel line_idx text i' false
      else
        let word_end := scan_word_end text i in
        if (word_end =? i)%nat then classify_line_go fuel line_idx text (S i) false
        else
          let word := slice i word_end text in
          app (classify_bare_word line_idx word i first)
            <$> classify_line_go fuel line_idx text word_end false
    end
  end.

(** [classify_line]; the loop always advances, so [1 + len] rounds are
    enough ([classify_line_total]). *)
Definition classify_line (line_idx : nat) (text : string) : list ClassifiedToken :=
  match classify_line_go (S (str_len text)) line_idx text 0 true with
  | Some toks => toks
  | None => []
  end.

Fixpoint classify_lines (line_idx : nat) (lines : list SourceLine) : list ClassifiedToken :=
  match lines with
  | [] => []
  | l :: ls => classify_line line_idx (text l) ++ classify_lines (S line_idx) ls
  end%list.

(** [classify_tokens] *)
Definition classify_tokens (source : string) : list ClassifiedToken :=
  classify_lines 0 (source_lines source).
End Classifier.

(** * The LSP encoding *)

Definition SEMANTIC_TOKEN_ORDER : list SemanticToken :=
  [Keyword; Type_; Function_; Namespace; Decorator; Modifier; EnumMember;
   String_; Comment; Operator; Variable_; Property].

(** [SemanticToken as u32] *)
Definition token_type_index (t : SemanticToken) : N :=
  match t with
  | Keyword => 0 | Type_ => 1 | Function_ => 2 | Namespace => 3 | Decorator => 4
  | Modifier => 5 | EnumMember => 6 | String_ => 7 | Comment => 8 | Operator => 9
  | Variable_ => 10 | Property => 11
  end%N.

(** One encoded token of the protocol. *)
Record LspSemanticToken := {
  delta_line : N;
  delta_start : N;
  length : N;
  token_type : N;
  token_modifiers_bitset : N
}.

(** [x as u32] on a [usize]. *)
Definition as_u32 (n : nat) : N := (N.of_nat n mod 2 ^ 32)%N.

(** [u32] subtraction; [None] is the arithmetic-overflow panic. *)
Definition sub_u32 (a b : N) : option N := if (b <=? a)%N then Some (a - b)%N else None.

Fixpoint encode_delta_go (prev_line prev_start : N) (tokens : list ClassifiedToken)
    : option (list LspSemanticToken) :=
  match tokens with
  | [] => Some []
  | t :: ts =>
    let l := as_u32 (line t) in
    let s := as_u32 (start_col t) in
    dl ← sub_u32 l prev_line;
    ds ← (if (dl =? 0)%N then sub_u32 s prev_start else Some s);
    rest ← encode_delta_go l s ts;
    Some ({| delta_line := dl; delta_start := ds; length := as_u32 (len t);
             token_type := token_type_index (token t); token_modifiers_bitset := 0 |} :: rest)
  end.

Definition encode_delta (tokens : list ClassifiedToken) : option (list LspSemanticToken) :=
  encode_delta_go 0 0 tokens.

(** [semantic_tokens_full] *)
Definition semantic_tokens_full (ALL : list CapabilitySpec) (source : string)
    : option (list LspSemanticToken) :=
  encode_delta (classify_tokens ALL source).

(** * What a client does with the data *)

(** The protocol's decoder: accumulate lines, and columns within a line. *)
Fixpoint decode_go (l s : N) (data : list LspSemanticToken) : list ClassifiedToken :=
  match data with
  | [] => []
  | d :: ds =>
    let l' := (l + delta_line d)%N in
    let s' := (if (delta_line d =? 0)%N then s + delta_start d else delta_start d)%N in
    {| line := N.to_nat l'; start_col := N.to_nat s'; len := N.to_nat (length d);
       token := nth (N.to_nat (token_type d)) SEMANTIC_TOKEN_ORDER Keyword |}
      :: decode_go l' s' ds
  end.
Definition decode (data : list LspSemanticToken) : list ClassifiedToken := decode_go 0 0 data.

(** * Lemmas *)

(** ** Scanning *)

Lemma count_while_le p s : count_while p s <= str_len s.
Proof. induction s; simpl; [lia|]. case_match; lia. Qed.

(** A run of [p]-bytes followed by a byte that is not one. *)
Lemma count_while_split p s :
  exists a b, s = a +:+ b /\ str_len a = count_while p s /\ str_all p a = true /\
    match b with "" => True | String c _ => p c = false end.
Proof.
  induction s as [|c s IH]; simpl; [by exists "", ""|]. destruct (p c) eqn:E.
  - destruct IH as (a & b & -> & Hl & Ha & Hb). exists (String c a), b.
    simpl. rewrite E, Hl. done.
  - by exists "", (String c s).
Qed.

Lemma scan_word_end_le bytes i : i <= str_len bytes -> i <= scan_word_end bytes i <= str_len bytes.
Proof.
  intros Hi. unfold scan_word_end.
  pose proof (count_while_le (fun b => negb (word_boundary b)) (str_drop i bytes)).
  rewrite len_drop in *. lia.
Qed.

Lemma scan_word_end_gt bytes i b :
  byte_at bytes i = Some b -> word_boundary b = false -> i < scan_word_end bytes i.
Proof.
  intros Hb Hw. unfold scan_word_end. rewrite (drop_cons _ _ _ Hb). simpl. rewrite Hw. simpl. lia.
Qed.

Lemma scan_string_bound s q i : i <= scan_string s q i <= i + str_len s.
Proof.
  revert s i. apply (str_ind3 (fun s => forall i, i <= scan_string s q i <= i + str_len s)).
  intros s IH i. destruct s as [|b r]; simpl; [lia|].
  destruct (b =a? BSL).
  - destruct r as [|b' r]; simpl; [lia|]. specialize (IH r ltac:(simpl; lia) (S (S i))). lia.
  - destruct (b =a? q); [lia|]. specialize (IH r ltac:(simpl; lia) (S i)). lia.
Qed.

Lemma slice_len a b s : b <= str_len s -> str_len (slice a b s) = b - a.
Proof. intros. unfold slice. rewrite len_take, len_drop. lia. Qed.

Lemma byte_at_len s i b : byte_at s i = Some b -> i < str_len s.
Proof.
  intros H. destruct (decide (i < str_len s)); [done|].
  rewrite (proj2 (byte_at_None s i)) in H by lia. done.
Qed.

(** ** Ordered runs of tokens *)

(** The tokens lie, in order, without overlap and non-empty, in [lo, hi) of
    line [l]. *)
Fixpoint chain (l lo : nat) (toks : list ClassifiedToken) (hi : nat) : Prop :=
  match toks with
  | [] => lo <= hi
  | t :: ts => line t = l /\ lo <= start_col t /\ 0 < len t /\
               chain l (start_col t + len t) ts hi
  end.

Lemma chain_le l lo toks hi : chain l lo toks hi -> lo <= hi.
Proof.
  revert lo. induction toks as [|t ts IH]; intros lo; simpl; [done|].
  intros (_ & ? & ? & H%IH). lia.
Qed.

Lemma chain_app l a t1 b t2 c :
  chain l a t1 b -> chain l b t2 c -> chain l a (t1 ++ t2)%list c.
Proof.
  revert a. induction t1 as [|t ts IH]; intros a; simpl.
  - intros Hab H. destruct t2 as [|t2 ts2]; simpl in *; [lia|]. naive_solver lia.
  - intros (? & ? & ? & ?) ?. eauto.
Qed.

Lemma chain_one l lo hi s n t : lo <= s -> 0 < n -> s + n <= hi -> chain l lo [tok l s n t] hi.
Proof. simpl. lia. Qed.

Lemma chain_weaken l lo toks hi hi' : chain l lo toks hi -> hi <= hi' -> chain l lo toks hi'.
Proof.
  intros H Hle. rewrite <- (app_nil_r toks). by apply (chain_app _ _ _ hi).
Qed.

#[export] Hint Resolve chain_one chain_app : str.

Section ClassifierLemmas.
Variable ALL : list CapabilitySpec.

Lemma bare_word_chain l word s fw hi :
  s + str_len word <= hi -> chain l s (classify_bare_word ALL l word s fw) hi.
Proof.
  intros Hhi. unfold classify_bare_word. destruct (word =? "") eqn:E; [simpl; lia|].
  assert (0 < str_len word) by (destruct word; simpl; [done|lia]).
  repeat case_match; first [by apply chain_one | simpl; lia].
Qed.

Lemma str_find_len needle s d : str_find needle s = Some d -> d + str_len needle <= str_len s.
Proof.
  intros H. destruct (str_find_Some _ _ _ H) as [Hs _]. apply starts_with_len in Hs.
  rewrite len_drop in Hs. destruct (decide (d <= str_len s)); [lia|].
  exfalso. clear Hs. revert d H n. induction s as [|b s IH]; intros d; simpl; case_match; try done;
    intros [= <-] || (destruct (str_find needle s) eqn:Es; [|done]; intros [= <-]); try lia.
  intros Hn. eapply IH; [done|lia].
Qed.

Lemma at_token_chain l text i toks i' :
  byte_at text i = Some "@"%char -> classify_at_token ALL l text i = (toks, i') ->
  chain l i toks i' /\ i < i' <= str_len text.
Proof.
  intros Hb. pose proof (scan_word_end_gt _ _ _ Hb eq_refl) as Hgt.
  pose proof (scan_word_end_le text i ltac:(apply byte_at_len in Hb; lia)) as [_ Hle].
  unfold classify_at_token. set (e := scan_word_end text i) in *.
  assert (Hl : str_len (slice i e text) = e - i) by (by apply slice_len).
  destruct (starts_with _ (slice i e text)) eqn:Ed.
  { intros [= <- <-]. split; [|done]. apply starts_with_len in Ed. rewrite Hl in Ed.
    apply chain_one; simpl in *; lia. }
  set (h := match str_find "." _ with Some d => i + d | None => e end).
  assert (i < h <= e) as Hh.
  { subst h. destruct (str_find "." _) as [d|] eqn:Ef; [|lia].
    pose proof (str_find_len _ _ _ Ef) as Hd. rewrite Hl in Hd. simpl in Hd.
    destruct d as [|d]; [|lia]. exfalso. apply str_find_Some in Ef as [Ef _].
    unfold slice in Ef. rewrite (drop_cons _ _ _ Hb) in Ef.
    destruct (e - i) eqn:?; [lia|]. done. }
  repeat case_match; intros [= <- <-]; (split; [|done]); bool_prop; simpl;
    rewrite ?(proj2 (Nat.ltb_lt _ _)) by lia; simpl; split_and?; try lia; try done.
Qed.

(** The loop ends, and the tokens it pushes are ordered and in bounds. *)
Lemma classify_line_go_chain l text fuel i first :
  i <= str_len text -> str_len text - i < fuel ->
  exists toks, classify_line_go ALL fuel l text i first = Some toks /\
    chain l i toks (str_len text).
Proof.
  revert i first. induction fuel as [|fuel IH]; intros i first Hi Hf; [lia|].
  cbn [classify_line_go]. destruct (byte_at text i) as [b|] eqn:Eb; [|exists []; simpl; split; [done|lia]].
  pose proof (byte_at_len _ _ _ Eb) as Hlt.
  assert (Hgo : forall t1 j fw, i < j <= str_len text -> chain l i t1 j ->
    exists toks, (app t1 <$> classify_line_go ALL fuel l text j fw) = Some toks /\
      chain l i toks (str_len text)).
  { intros t1 j fw Hj Hc. destruct (IH j fw) as (ts & -> & Hts); [lia..|].
    simpl. eexists; split; [done|]. eauto using chain_app. }
  assert (Hgo0 : forall j fw, i < j <= str_len text ->
    exists toks, classify_line_go ALL fuel l text j fw = Some toks /\
      chain l i toks (str_len text)).
  { intros j fw Hj. destruct (Hgo [] j fw) as (ts & Hts & Hc); [done|simpl; lia|].
    destruct (classify_line_go ALL fuel l text j fw); [|done]. by eexists. }
  destruct ((b =a? " ") || (b =a? TAB)) eqn:E1; [apply Hgo0; lia|].
  destruct (b =a? "#") eqn:E2; [eexists; split; [done|]; apply chain_one; lia|].
  destruct ((b =a? DQ) || (b =a? SQ)) eqn:E3.
  { pose proof (scan_string_bound (str_drop (S i) text) b (S i)) as Hs. rewrite len_drop in Hs.
    apply Hgo; [lia|]. apply chain_one; lia. }
  destruct (b =a? "@") eqn:E4.
  { apply Ascii.eqb_eq in E4 as ->. destruct (classify_at_token ALL l text i) as [t1 j] eqn:Ea.
    destruct (at_token_chain _ _ _ _ _ Eb Ea). by apply Hgo. }
  pose proof (scan_word_end_le text i Hi) as Hw.
  destruct (_ =? _)%nat eqn:E5; bool_prop; [apply Hgo0; lia|].
  apply Hgo; [lia|]. apply bare_word_chain. rewrite slice_len by lia. lia.
Qed.
End ClassifierLemmas.

(** ** Comments: agreement with [strip_inline_comment] *)

(** Skipping a string literal leaves the comment scanner outside quotes. *)
Lemma comment_index_string s q i :
  q = DQ \/ q = SQ ->
  comment_index s (Some q) i = comment_index (str_drop (scan_string s q i - i) s) None (scan_string s q i).
Proof.
  intros Hq. revert s i.
  apply (str_ind3 (fun s => forall i, comment_index s (Some q) i =
    comment_index (str_drop (scan_string s q i - i) s) None (scan_string s q i))).
  intros s IH i. destruct s as [|b r]; [by rewrite drop_nil|]. cbn [comment_index scan_string].
  assert (Hb : (b =a? q) = true -> (b =a? BSL) = false).
  { intros H. bool_prop. subst. by destruct Hq as [-> | ->]. }
  assert (Hskip : forall t n, i < n <= scan_string t q n -> str_drop (n - i) (String b r) = t ->
    str_drop (scan_string t q n - n) t = str_drop (scan_string t q n - i) (String b r)).
  { intros t n Hn <-. rewrite drop_drop. f_equal. lia. }
  destruct (b =a? q) eqn:E1.
  - rewrite (Hb eq_refl). by replace (S i - i) with 1 by lia.
  - destruct (b =a? BSL) eqn:E2.
    + destruct r as [|b' r']; [by replace (S i - i) with 1 by lia|].
      rewrite IH by (simpl; lia). pose proof (scan_string_bound r' q (S (S i))).
      f_equal. apply Hskip; [lia|]. replace (S (S i) - i) with 2 by lia. apply drop_0.
    + rewrite IH by (simpl; lia). pose proof (scan_string_bound r q (S i)).
      f_equal. apply Hskip; [lia|]. replace (S i - i) with 1 by lia. apply drop_0.
Qed.

(** Bytes that open neither a string nor a comment are skipped. *)
Lemma comment_index_skip a s i :
  str_all (fun b => negb ((b =a? DQ) || (b =a? SQ) || (b =a? "#"))) a = true ->
  comment_index (a +:+ s) None i = comment_index s None (i + str_len a).
Proof.
  revert i. induction a as [|b a IH]; intros i; simpl; [by rewrite Nat.add_0_r|].
  intros H. bool_prop.
  repeat match goal with E : (_ =a? _) = false |- _ => rewrite E; clear E end.
  simpl. rewrite IH by done. f_equal. lia.
Qed.

Lemma comment_index_word text i :
  i <= str_len text ->
  comment_index (str_drop i text) None i =
  comment_index (str_drop (scan_word_end text i) text) None (scan_word_end text i).
Proof.
  intros Hi. unfold scan_word_end.
  destruct (count_while_split (fun b => negb (word_boundary b)) (str_drop i text))
    as (a & r & Heq & Hl & Ha & _).
  rewrite <- Hl. rewrite <- drop_drop, Heq, drop_app. rewrite comment_index_skip; [done|].
  revert Ha. apply str_all_impl. intros b. unfold word_boundary.
  destruct (b =a? DQ), (b =a? SQ), (b =a? "#"); rewrite ?orb_true_r; done.
Qed.

Definition comment_cols (toks : list ClassifiedToken) : list nat :=
  List.map start_col (List.filter (fun t => token_is (token t) Comment) toks).

Lemma comment_cols_app t1 t2 : comment_cols (t1 ++ t2)%list = (comment_cols t1 ++ comment_cols t2)%list.
Proof. unfold comment_cols. by rewrite List.filter_app, map_app. Qed.

Section CommentLemmas.
Variable ALL : list CapabilitySpec.

Lemma bare_word_comment_cols l w s fw : comment_cols (classify_bare_word ALL l w s fw) = [].
Proof. unfold classify_bare_word. by repeat case_match. Qed.

Lemma at_token_comment_cols l text i : comment_cols (classify_at_token ALL l text i).1 = [].
Proof. unfold classify_at_token. by repeat case_match. Qed.

Lemma at_token_end l text i : (classify_at_token ALL l text i).2 = scan_word_end text i.
Proof. unfold classify_at_token. by repeat case_match. Qed.

Lemma classify_line_go_comment l text fuel i first toks :
  i <= str_len text ->
  classify_line_go ALL fuel l text i first = Some toks ->
  comment_cols toks = match comment_index (str_drop i text) None i with Some j => [j] | None => [] end.
Proof.
  revert i first toks. induction fuel as [|fuel IH]; intros i first toks Hi; [done|].
  cbn [classify_line_go]. destruct (byte_at text i) as [b|] eqn:Eb.
  2:{ intros [= <-]. apply byte_at_None in Eb. by rewrite drop_all. }
  pose proof (byte_at_len _ _ _ Eb) as Hlt. pose proof (drop_cons _ _ _ Eb) as Hdrop.
  assert (Happ : forall t1 j fw, comment_cols t1 = [] -> j <= str_len text ->
    app t1 <$> classify_line_go ALL fuel l text j fw = Some toks ->
    comment_cols toks = match comment_index (str_drop j text) None j with Some k => [k] | None => [] end).
  { intros t1 j fw H1 Hj. destruct (classify_line_go _ _ _ _ j fw) as [ts|] eqn:Ets; [|done].
    intros [= <-]. rewrite comment_cols_app, H1. by apply IH in Ets. }
  destruct ((b =a? " ") || (b =a? TAB)) eqn:E1.
  { intros H%IH; [|lia]. rewrite H, Hdrop. apply orb_true_iff in E1 as [E1|E1]; bool_prop; by subst. }
  destruct (b =a? "#") eqn:E2.
  { intros [= <-]. rewrite Hdrop. bool_prop. by subst. }
  destruct ((b =a? DQ) || (b =a? SQ)) eqn:E3.
  { pose proof (scan_string_bound (str_drop (S i) text) b (S i)) as Hs. rewrite len_drop in Hs.
    intros H%Happ; [|done|lia]. rewrite H, Hdrop. cbn [comment_index]. rewrite E3.
    rewrite (comment_index_string (str_drop (S i) text)).
    - rewrite drop_drop. by rewrite Nat.add_comm, Nat.sub_add by lia.
    - apply orb_true_iff in E3 as [?|?]; bool_prop; auto. }
  destruct (b =a? "@") eqn:E4.
  { pose proof (at_token_comment_cols l text i) as Hc. pose proof (at_token_end l text i) as He.
    destruct (classify_at_token ALL l text i) as [t1 j]; simpl in *. subst j.
    pose proof (scan_word_end_le text i Hi). intros H1%Happ; [|done|lia].
    by rewrite H1, (comment_index_word text i Hi). }
  pose proof (scan_word_end_le text i Hi).
  destruct (_ =? _)%nat eqn:E5.
  - intros H1%IH; [|lia]. rewrite H1, Hdrop. cbn [comment_index]. by rewrite E3, E2.
  - intros H1%Happ; [|apply bare_word_comment_cols|lia].
    by rewrite H1, (comment_index_word text i Hi).
Qed.
End CommentLemmas.

(** ** Delta encoding *)

(** Lexicographic order of token starts, which is what the encoder needs. *)
Fixpoint starts_ordered (l s : nat) (toks : list ClassifiedToken) : Prop :=
  match toks with
  | [] => True
  | t :: ts => (l < line t \/ l = line t /\ s <= start_col t) /\
               starts_ordered (line t) (start_col t) ts
  end.

Definition fits_u32 (t : ClassifiedToken) : Prop :=
  (N.of_nat (line t) < 2 ^ 32 /\ N.of_nat (start_col t) < 2 ^ 32 /\ N.of_nat (len t) < 2 ^ 32)%N.

Lemma as_u32_small n : (N.of_nat n < 2 ^ 32)%N -> as_u32 n = N.of_nat n.
Proof. apply N.mod_small. Qed.

Lemma token_type_index_nth t :
  nth (N.to_nat (token_type_index t)) SEMANTIC_TOKEN_ORDER Keyword = t.
Proof. by destruct t. Qed.

Lemma sub_u32_le a b : (b <= a)%N -> sub_u32 a b = Some (a - b)%N.
Proof. intros H. unfold sub_u32. by rewrite (proj2 (N.leb_le _ _)). Qed.

Lemma encode_decode_go l s toks :
  Forall fits_u32 toks -> starts_ordered l s toks ->
  exists data, encode_delta_go (N.of_nat l) (N.of_nat s) toks = Some data /\
    decode_go (N.of_nat l) (N.of_nat s) data = toks.
Proof.
  revert l s. induction toks as [|t ts IH]; intros l s Hf Ho; [by exists []|].
  inversion_clear Hf as [|?? (H1 & H2 & H3) Hts]. destruct Ho as [Ho Hos].
  destruct (IH _ _ Hts Hos) as (data & Hd & Hdec). cbn [encode_delta_go].
  rewrite !as_u32_small by done.
  rewrite (sub_u32_le (N.of_nat (line t)) (N.of_nat l)) by lia. cbn [mbind option_bind].
  destruct (N.eqb_spec (N.of_nat (line t) - N.of_nat l) 0) as [E|E].
  - rewrite sub_u32_le by lia. simpl. rewrite Hd. simpl. eexists; split; [done|].
    cbn [decode_go delta_line delta_start length token_type].
    rewrite (proj2 (N.eqb_eq _ _)) by done.
    replace (N.of_nat l + _)%N with (N.of_nat (line t)) by lia.
    replace (N.of_nat s + _)%N with (N.of_nat (start_col t)) by lia.
    rewrite Hdec, !Nat2N.id, token_type_index_nth. by destruct t.
  - simpl. rewrite Hd. simpl. eexists; split; [done|].
    cbn [decode_go delta_line delta_start length token_type].
    rewrite (proj2 (N.eqb_neq _ _)) by done.
    replace (N.of_nat l + _)%N with (N.of_nat (line t)) by lia.
    rewrite Hdec, !Nat2N.id, token_type_index_nth. by destruct t.
Qed.

(** The tokens of whole files. *)
Lemma classify_line_chain ALL l text :
  chain l 0 (classify_line ALL l text) (str_len text).
Proof.
  unfold classify_line.
  destruct (classify_line_go_chain ALL l text (S (str_len text)) 0 true) as (toks & -> & H); [lia..|done].
Qed.

Lemma chain_starts_ordered l lo toks hi s l0 rest :
  chain l lo toks hi -> l0 < l \/ l0 = l /\ s <= lo ->
  (forall l1 s1, l1 <= l -> starts_ordered l1 s1 rest) ->
  starts_ordered l0 s (toks ++ rest)%list.
Proof.
  revert lo s l0. induction toks as [|t ts IH]; intros lo s l0 Hc Hl Hr; cbn [app].
  - apply Hr. lia.
  - destruct Hc as (E & H1 & H2 & H3). simpl. split; [lia|].
    eapply IH; [done| |done]. lia.
Qed.

Lemma classify_lines_ordered ALL ls l l0 s :
  l0 < l \/ (l0 = l /\ s = 0) -> starts_ordered l0 s (classify_lines ALL l ls).
Proof.
  revert l l0 s. induction ls as [|x ls IH]; intros l l0 s Hl; [done|].
  cbn [classify_lines]. eapply chain_starts_ordered; [apply classify_line_chain|lia|].
  intros l1 s1 H1. apply IH. lia.
Qed.

Lemma classify_lines_In ALL ls l t :
  In t (classify_lines ALL l ls) ->
  exists k x, nth_error ls k = Some x /\ line t = l + k /\ 0 < len t /\
    start_col t + len t <= str_len (text x).
Proof.
  revert l. induction ls as [|x ls IH]; intros l; [done|]. cbn [classify_lines].
  intros [Hin|Hin]%in_app_or.
  - exists 0, x. split; [done|]. pose proof (classify_line_chain ALL l (text x)) as Hc.
    revert Hin Hc. generalize 0 at 1 as lo. induction (classify_line ALL l (text x)) as [|a ts IHc];
      [done|]. intros lo [->|Hin] (E & H1 & H2 & H3).
    + apply chain_le in H3. lia.
    + by eapply IHc.
  - destruct (IH (S l) Hin) as (k & y & Hk & ? & ?). exists (S k), y. split; [done|]. lia.
Qed.

Lemma split_inclusive_length s : List.length (split_inclusive s) <= str_len s.
Proof.
  induction s as [|b s IH]; simpl; [lia|]. destruct (b =a? LF); simpl; [lia|].
  destruct (split_inclusive s); simpl in *; lia.
Qed.

Lemma source_lines_go_length off ls : List.length (source_lines_go off ls) = List.length ls.
Proof. revert off. induction ls; intros; simpl; auto. Qed.

Lemma source_lines_bounds source k x :
  nth_error (source_lines source) k = Some x -> k < str_len source /\ str_len (text x) <= str_len source.
Proof.
  intros H. split.
  - assert (k < List.length (source_lines source)) as Hk
      by (apply nth_error_Some; congruence).
    unfold source_lines, str_lines in Hk. rewrite source_lines_go_length, length_map in Hk.
    pose proof (split_inclusive_length source). lia.
  - destruct (source_lines_spec _ _ _ H) as (Hs & _). rewrite <- Hs.
    unfold slice. rewrite len_take, len_drop. lia.
Qed.

(** * Properties *)

(** The classifier's loop always advances: within [1 + len] rounds it has read
    the whole line (no input makes it spin on a byte it cannot consume). *)
Theorem classify_line_total ALL l text fuel :
  str_len text < fuel ->
  exists toks, classify_line_go ALL fuel l text 0 true = Some toks /\ chain l 0 toks (str_len text).
Proof. intros Hf. apply classify_line_go_chain; lia. Qed.

(** Every token of a file is non-empty and lies inside its line, and the
    tokens of one line are disjoint and in order: the precondition of the
    delta encoder. *)
Theorem classify_tokens_ordered ALL source :
  starts_ordered 0 0 (classify_tokens ALL source) /\
  (forall k x, nth_error (source_lines source) k = Some x ->
     chain k 0 (classify_line ALL k (text x)) (str_len (text x))) /\
  (forall t, In t (classify_tokens ALL source) ->
     exists x, nth_error (source_lines source) (line t) = Some x /\ 0 < len t /\
       start_col t + len t <= str_len (text x)).
Proof.
  split_and!.
  - apply classify_lines_ordered. lia.
  - intros k x _. apply classify_line_chain.
  - intros t (k & x & Hk & Hl & H)%classify_lines_In. exists x. by rewrite Hl.
Qed.

(** A line gets a comment token exactly where [strip_inline_comment] cuts it:
    one, at the index of the opening [#], when there is one, none otherwise. *)
Theorem classify_line_comment ALL l text :
  comment_cols (classify_line ALL l text) =
  match comment_index text None 0 with Some j => [j] | None => [] end.
Proof.
  unfold classify_line.
  destruct (classify_line_go_chain ALL l text (S (str_len text)) 0 true) as (toks & Ht & _); [lia..|].
  rewrite Ht. rewrite (classify_line_go_comment ALL l text _ 0 _ _ ltac:(lia) Ht). by rewrite drop_0.
Qed.

(** Encoding ordered tokens never underflows, and the protocol's decoder gives
    the tokens back. *)
Theorem encode_delta_roundtrip toks :
  Forall fits_u32 toks -> starts_ordered 0 0 toks ->
  exists data, encode_delta toks = Some data /\ decode data = toks.
Proof. apply (encode_decode_go 0 0). Qed.

(** For a source shorter than 4 GiB [semantic_tokens_full] never panics and
    the client reads back exactly the classified tokens. *)
Theorem semantic_tokens_full_faithful ALL source :
  (N.of_nat (str_len source) < 2 ^ 32)%N ->
  exists data, semantic_tokens_full ALL source = Some data /\
    decode data = classify_tokens ALL source.
Proof.
  intros Hlen. apply (encode_decode_go 0 0); [|apply classify_lines_ordered; lia].
  apply Forall_forall. intros t Ht%list_elem_of_In.
  apply classify_lines_In in Ht as (k & x & Hk & Hl & Hp & Hb).
  pose proof (source_lines_bounds _ _ _ Hk). unfold fits_u32. lia.
Qed.

Lemma semantic_tokens_full_faithful_witness :
  exists data, semantic_tokens_full [] "resource Post # note" = Some data /\
    decode data = classify_tokens [] "resource Post # note".
Proof. apply (semantic_tokens_full_faithful [] "resource Post # note"). vm_compute. reflexivity. Defined.
