(* ===== verification/PolicyRuntime.v ===== *)
(** The runtime side of policies: what the Go runtime
    ([runtime/go/lazuli/policy.go], [handle.go]) does with the atom lists the
    compiler emits. *)
From S2P Require Import Prelude Str Fmt BTree.

(** * Data *)

(** The value kinds an input field or a policy literal can have. *)
Inductive GoVal := VString (s : string) | VInt (n : Z) | VBool (b : bool) | VNil.

Record PolicyWhen := { Path_ : string; Op : string; Value : GoVal }.
Record GoAtom := { Namespace : string; Name : string; When : option PolicyWhen }.
Record GoPolicy := { PolicyName : string; Atoms : list GoAtom }.

Inductive Actor := ActorUser | ActorSystem | ActorAnonymous.
Record User := { Roles : list string }.
Record Ctx := { ctx_Actor : Actor; ctx_User : option User; ctx_Tenant : bool }.

(** The request input as [readPath] sees it: the value at a dotted path, [None]
    when the path does not resolve. *)
Definition Input := string -> option GoVal.

Inductive PolicyError := InternalError | PolicyDenied.

(** * Input-value predicates *)

Definition toInt64 (v : GoVal) : option Z := match v with VInt n => Some n | _ => None end.

(** [fmt.Sprintf("%v", v)] *)
Definition sprint (v : GoVal) : string :=
  match v with
  | VString s => s
  | VInt n => show_Z n
  | VBool b => if b then "true" else "false"
  | VNil => "<nil>"
  end.

Definition whenEqual (got want : GoVal) : bool :=
  match toInt64 got, toInt64 want with
  | Some gi, Some wi => (gi =? wi)%Z
  | _, _ =>
    match got, want with
    | VBool gb, VBool wb => eqb gb wb
    | _, _ => sprint got =? sprint want
    end
  end.

Definition whenOrder (got want : GoVal) : option comparison :=
  match toInt64 got, toInt64 want with
  | Some gi, Some wi => Some (gi ?= wi)%Z
  | _, _ =>
    match got, want with
    | VString gs, VString ws => Some (str_cmp gs ws)
    | _, _ => None
    end
  end.

Definition compareWhen (got : GoVal) (op : string) (want : GoVal) : bool :=
  if op =? "=" then whenEqual got want
  else if op =? "!=" then negb (whenEqual got want)
  else if (op =? "<") || (op =? "<=") || (op =? ">") || (op =? ">=") then
    match whenOrder got want with
    | None => false
    | Some c =>
      if op =? "<" then match c with Lt => true | _ => false end
      else if op =? "<=" then match c with Gt => false | _ => true end
      else if op =? ">" then match c with Gt => true | _ => false end
      else match c with Lt => false | _ => true end
    end
  else false.

(** [PolicyWhen.holds] on a non-nil guard. *)
Definition holds (w : PolicyWhen) (input : option Input) : bool :=
  match input with
  | None => false
  | Some read =>
    let path := match strip_prefix "input." (Path_ w) with Some p => p | None => Path_ w end in
    match read path with
    | None => false
    | Some got => compareWhen got (Op w) (Value w)
    end
  end.

(** * Evaluation *)

Definition isPredicate (a : GoAtom) (name : string) : bool :=
  (Namespace a =? "predicate") && (Name a =? name).

Definition hasPredicateAtom (atoms : list GoAtom) : bool :=
  existsb (fun a => Namespace a =? "predicate") atoms.

Section Eval.
(** The RBAC hooks generated code registers ([RegisterRbac]). *)
Variables rbacHasRole rbacHasPermission : string -> string -> bool.
Variable ctx : Ctx.

Definition some_role (p : string -> bool) : bool :=
  match ctx_User ctx with None => false | Some u => existsb p (Roles u) end.
Definition signed_in : bool := match ctx_User ctx with Some _ => true | None => false end.

Definition atomMatches (atom : GoAtom) : bool :=
  let ns := Namespace atom in
  let nm := Name atom in
  if ns =? "actor" then
    if nm =? "user" then match ctx_Actor ctx with ActorUser => true | _ => false end
    else if nm =? "system" then match ctx_Actor ctx with ActorSystem => true | _ => false end
    else if nm =? "anonymous" then match ctx_Actor ctx with ActorAnonymous => true | _ => false end
    else false
  else if ns =? "role" then some_role (fun r => r =? nm)
  else if ns =? "scope" then
    if nm =? "public" then true
    else if nm =? "authenticated" then signed_in
    else if nm =? "same_org" then ctx_Tenant ctx
    else false
  else if ns =? "rbac.role" then some_role (fun r => rbacHasRole r nm)
  else if ns =? "rbac.permission" then some_role (fun r => rbacHasPermission r nm)
  else if ns =? "predicate" then
    if nm =? "authenticated" then signed_in else false
  else false.

Variable input : option Input.

Definition atomMatchesInput (atom : GoAtom) : bool :=
  match When atom with
  | Some w => if holds w input then atomMatches atom else false
  | None => atomMatches atom
  end.

(** The recursive descent over [atoms[i:]]; the result is the value and the
    atoms lhs.  [None] is out of fuel. *)
Fixpoint evalOr (fuel : nat) (atoms : list GoAtom) {struct fuel} : option (bool * list GoAtom) :=
  match fuel with
  | O => None
  | S fuel => '(lhs, atoms) ← evalAnd fuel atoms; evalOr_loop fuel lhs atoms
  end
with evalOr_loop (fuel : nat) (lhs : bool) (atoms : list GoAtom) {struct fuel} : option (bool * list GoAtom) :=
  match fuel with
  | O => None
  | S fuel =>
    match atoms with
    | a :: rest =>
      if isPredicate a "or" then
        '(rhs, atoms) ← evalAnd fuel rest; evalOr_loop fuel (lhs || rhs) atoms
      else Some (lhs, atoms)
    | [] => Some (lhs, atoms)
    end
  end
with evalAnd (fuel : nat) (atoms : list GoAtom) {struct fuel} : option (bool * list GoAtom) :=
  match fuel with
  | O => None
  | S fuel => '(lhs, atoms) ← evalUnary fuel atoms; evalAnd_loop fuel lhs atoms
  end
with evalAnd_loop (fuel : nat) (lhs : bool) (atoms : list GoAtom) {struct fuel} : option (bool * list GoAtom) :=
  match fuel with
  | O => None
  | S fuel =>
    match atoms with
    | a :: rest =>
      if isPredicate a "and" then
        '(rhs, atoms) ← evalUnary fuel rest; evalAnd_loop fuel (lhs && rhs) atoms
      else Some (lhs, atoms)
    | [] => Some (lhs, atoms)
    end
  end
with evalUnary (fuel : nat) (atoms : list GoAtom) {struct fuel} : option (bool * list GoAtom) :=
  match fuel with
  | O => None
  | S fuel =>
    match atoms with
    | [] => Some (false, atoms)
    | a :: rest =>
      if isPredicate a "not" then
        '(v, atoms) ← evalUnary fuel rest; Some (negb v, atoms)
      else if isPredicate a "(" then
        '(v, atoms) ← evalOr fuel rest;
        match atoms with
        | c :: rest' => if isPredicate c ")" then Some (v, rest') else Some (v, atoms)
        | [] => Some (v, atoms)
        end
      else Some (atomMatchesInput a, rest)
    end
  end.

(** Enough rounds for any list (see [eval_total]). *)
Definition eval_fuel (atoms : list GoAtom) : nat := 4 * List.length atoms + 4.

(** [EvalPolicyInput]; the outer [None] would be an endless walk. *)
Definition EvalPolicyInput (p : GoPolicy) : option (result PolicyError unit) :=
  if (List.length (Atoms p) =? 0)%nat then Some (Err InternalError)
  else if hasPredicateAtom (Atoms p) then
    '(ok, _) ← evalOr (eval_fuel (Atoms p)) (Atoms p);
    Some (if ok : bool then Ok tt else Err PolicyDenied)
  else Some (if existsb atomMatchesInput (Atoms p) then Ok tt else Err PolicyDenied).
End Eval.

(** * Lemmas *)

Section EvalLemmas.
Local Open Scope list_scope.
Variables rbacHasRole rbacHasPermission : string -> string -> bool.
Variable ctx : Ctx.
Variable input : option Input.

Abbreviation eOr := (evalOr rbacHasRole rbacHasPermission ctx input).
Abbreviation eOrL := (evalOr_loop rbacHasRole rbacHasPermission ctx input).
Abbreviation eAnd := (evalAnd rbacHasRole rbacHasPermission ctx input).
Abbreviation eAndL := (evalAnd_loop rbacHasRole rbacHasPermission ctx input).
Abbreviation eUn := (evalUnary rbacHasRole rbacHasPermission ctx input).
Abbreviation matches := (atomMatchesInput rbacHasRole rbacHasPermission ctx input).

(** The equations of the walk. *)
Lemma evalOr_S f l : eOr (S f) l = ('(lhs, l) ← eAnd f l; eOrL f lhs l).
Proof. reflexivity. Qed.
Lemma evalOr_loop_S f b l : eOrL (S f) b l =
  match l with
  | a :: rest => if isPredicate a "or" then '(rhs, l) ← eAnd f rest; eOrL f (b || rhs) l else Some (b, l)
  | [] => Some (b, l)
  end.
Proof. reflexivity. Qed.
Lemma evalAnd_S f l : eAnd (S f) l = ('(lhs, l) ← eUn f l; eAndL f lhs l).
Proof. reflexivity. Qed.
Lemma evalAnd_loop_S f b l : eAndL (S f) b l =
  match l with
  | a :: rest => if isPredicate a "and" then '(rhs, l) ← eUn f rest; eAndL f (b && rhs) l else Some (b, l)
  | [] => Some (b, l)
  end.
Proof. reflexivity. Qed.
Lemma evalUnary_S f l : eUn (S f) l =
  match l with
  | [] => Some (false, l)
  | a :: rest =>
    if isPredicate a "not" then '(v, l) ← eUn f rest; Some (negb v, l)
    else if isPredicate a "(" then
      '(v, l) ← eOr f rest;
      match l with
      | c :: rest' => if isPredicate c ")" then Some (v, rest') else Some (v, l)
      | [] => Some (v, l)
      end
    else Some (matches a, rest)
  end.
Proof. reflexivity. Qed.

Ltac ev := rewrite ?evalOr_S, ?evalOr_loop_S, ?evalAnd_S, ?evalAnd_loop_S, ?evalUnary_S in *.
Ltac bind_in H := apply bind_Some in H as ([? ?] & ? & H).

(** A walk never grows the list; a unary on a non-empty list shrinks it. *)
Lemma eval_shrinks fuel :
  (forall l v r, eOr fuel l = Some (v, r) -> List.length r <= List.length l - 1) /\
  (forall b l v r, eOrL fuel b l = Some (v, r) -> List.length r <= List.length l) /\
  (forall l v r, eAnd fuel l = Some (v, r) -> List.length r <= List.length l - 1) /\
  (forall b l v r, eAndL fuel b l = Some (v, r) -> List.length r <= List.length l) /\
  (forall l v r, eUn fuel l = Some (v, r) -> List.length r <= List.length l - 1).
Proof.
  induction fuel as [|fuel (IHo & IHol & IHa & IHal & IHu)]; [by split_and!|].
  split_and!; intros; ev.
  - bind_in H. apply IHa in H0. apply IHol in H. lia.
  - destruct l as [|a l]; [by injection H as <- <-|]. case_match; [|by injection H as <- <-].
    bind_in H. apply IHa in H1. apply IHol in H. simpl. lia.
  - bind_in H. apply IHu in H0. apply IHal in H. lia.
  - destruct l as [|a l]; [by injection H as <- <-|]. case_match; [|by injection H as <- <-].
    bind_in H. apply IHu in H1. apply IHal in H. simpl. lia.
  - destruct l as [|a l]; [injection H as <- <-; simpl; lia|]. case_match.
    { bind_in H. apply IHu in H1. injection H as <- <-. simpl. lia. }
    case_match; [|injection H as <- <-; simpl; lia]. bind_in H. apply IHo in H2.
    destruct l0 as [|c l0]; [injection H as <- <-; simpl; lia|]. case_match; injection H as <- <-; simpl in *; lia.
Qed.

Lemma eval_enough fuel :
  (forall l, 4 * List.length l + 4 <= fuel -> eOr fuel l <> None) /\
  (forall b l, 4 * List.length l + 2 <= fuel -> eOrL fuel b l <> None) /\
  (forall l, 4 * List.length l + 3 <= fuel -> eAnd fuel l <> None) /\
  (forall b l, 4 * List.length l + 1 <= fuel -> eAndL fuel b l <> None) /\
  (forall l, 4 * List.length l + 1 <= fuel -> eUn fuel l <> None).
Proof.
  assert (Hb : forall (m : option (bool * list GoAtom)) (k : bool * list GoAtom -> option (bool * list GoAtom)),
    m <> None -> (forall v r, m = Some (v, r) -> k (v, r) <> None) -> m ≫= k <> None).
  { intros [[v r]|] k Hm Hk; [|done]. by apply Hk. }
  induction fuel as [|fuel (IHo & IHol & IHa & IHal & IHu)]; [split_and!; lia|].
  destruct (eval_shrinks fuel) as (So & _ & Sa & _ & Su).
  split_and!; intros; ev.
  - apply Hb; [apply IHa; lia|]. intros v r H1%Sa. apply IHol. lia.
  - destruct l as [|a l]; [done|]. case_match; [|done]. simpl in H.
    apply Hb; [apply IHa; lia|]. intros v r H1%Sa. apply IHol. lia.
  - apply Hb; [apply IHu; lia|]. intros v r H1%Su. apply IHal. lia.
  - destruct l as [|a l]; [done|]. case_match; [|done]. simpl in H.
    apply Hb; [apply IHu; lia|]. intros v r H1%Su. apply IHal. lia.
  - destruct l as [|a l]; [done|]. simpl in H. case_match; [apply Hb; [apply IHu; lia|done]|].
    case_match; [|done]. apply Hb; [apply IHo; lia|]. intros v r _. by repeat case_match.
Qed.

Lemma eval_mono fuel fuel' : fuel <= fuel' ->
  (forall l r, eOr fuel l = Some r -> eOr fuel' l = Some r) /\
  (forall b l r, eOrL fuel b l = Some r -> eOrL fuel' b l = Some r) /\
  (forall l r, eAnd fuel l = Some r -> eAnd fuel' l = Some r) /\
  (forall b l r, eAndL fuel b l = Some r -> eAndL fuel' b l = Some r) /\
  (forall l r, eUn fuel l = Some r -> eUn fuel' l = Some r).
Proof.
  revert fuel'. induction fuel as [|fuel IH]; intros fuel' Hle; [by split_and!|].
  destruct fuel' as [|fuel']; [lia|].
  destruct (IH fuel' ltac:(lia)) as (IHo & IHol & IHa & IHal & IHu). clear IH.
  split_and!; intros; ev.
  - bind_in H. rewrite (IHa _ _ H0). cbn [mbind option_bind]. auto.
  - destruct l as [|a l]; [done|]. case_match; [|done]. bind_in H. rewrite (IHa _ _ H1). cbn [mbind option_bind]. auto.
  - bind_in H. rewrite (IHu _ _ H0). cbn [mbind option_bind]. auto.
  - destruct l as [|a l]; [done|]. case_match; [|done]. bind_in H. rewrite (IHu _ _ H1). cbn [mbind option_bind]. auto.
  - destruct l as [|a l]; [done|]. case_match; [bind_in H; rewrite (IHu _ _ H1); cbn [mbind option_bind]; auto|].
    case_match; [|done]. bind_in H. rewrite (IHo _ _ H2). cbn [mbind option_bind]. auto.
Qed.

(** The value of a walk, without fuel. *)
Definition evalsOr (l : list GoAtom) (v : bool) (r : list GoAtom) : Prop := exists f, eOr f l = Some (v, r).
Definition evalsUn (l : list GoAtom) (v : bool) (r : list GoAtom) : Prop := exists f, eUn f l = Some (v, r).
Definition evalsAnd (l : list GoAtom) (v : bool) (r : list GoAtom) : Prop := exists f, eAnd f l = Some (v, r).

Lemma evalsOr_fuel l v r : evalsOr l v r -> eOr (eval_fuel l) l = Some (v, r).
Proof.
  intros [f Hf]. destruct (eOr (eval_fuel l) l) as [x|] eqn:E.
  - destruct (eval_mono f (f + eval_fuel l) ltac:(lia)) as [H1 _].
    destruct (eval_mono (eval_fuel l) (f + eval_fuel l) ltac:(lia)) as [H2 _].
    apply H1 in Hf. apply H2 in E. congruence.
  - exfalso. destruct (eval_enough (eval_fuel l)) as [H _]. apply (H l); [|done]. unfold eval_fuel. lia.
Qed.

(** ** Building a walk *)

Definition marker (n : string) : GoAtom := {| Namespace := "predicate"; Name := n; When := None |}.
Definition starts (n : string) (l : list GoAtom) : bool :=
  match l with a :: _ => isPredicate a n | [] => false end.

Lemma evalsUn_not l v r : evalsUn l v r -> evalsUn (marker "not" :: l) (negb v) r.
Proof. intros [f Hf]. exists (S f). ev. simpl. by rewrite Hf. Qed.

Lemma evalsUn_group l v r : evalsOr l v (marker ")" :: r) -> evalsUn (marker "(" :: l) v r.
Proof. intros [f Hf]. exists (S f). ev. simpl. by rewrite Hf. Qed.

Lemma evalsUn_leaf a r : isPredicate a "not" = false -> isPredicate a "(" = false -> evalsUn (a :: r) (matches a) r.
Proof. intros H1 H2. exists 1. ev. by rewrite H1, H2. Qed.

(** A chain [u1 and u2 and ... un], then something that is not [and]. *)
Lemma evalAnd_chain_loop us vs acc r : starts "and" r = false ->
  Forall2 (fun u v => forall r, evalsUn (u ++ r) v r) us vs ->
  exists f, eAndL f acc (flat_map (fun u => marker "and" :: u) us ++ r) = Some (foldl andb acc vs, r).
Proof.
  intros Hr H. revert acc. induction H as [|u v us vs Hu H IH]; intros acc; simpl.
  - exists 1. ev. destruct r as [|a r]; [done|]. simpl in Hr. by rewrite Hr.
  - destruct (IH (acc && v)) as [f1 Hf1].
    destruct (Hu (flat_map (fun u => marker "and" :: u) us ++ r)) as [f2 Hf2].
    exists (S (f1 + f2)). ev. cbn [isPredicate marker Namespace Name]. simpl. rewrite <- app_assoc.
    destruct (eval_mono f2 (f1 + f2) ltac:(lia)) as (_ & _ & _ & _ & M2).
    destruct (eval_mono f1 (f1 + f2) ltac:(lia)) as (_ & _ & _ & M1 & _).
    rewrite (M2 _ _ Hf2). cbn [mbind option_bind]. by apply M1.
Qed.

Lemma evalsAnd_chain u v us vs r : starts "and" r = false ->
  (forall r, evalsUn (u ++ r) v r) -> Forall2 (fun u v => forall r, evalsUn (u ++ r) v r) us vs ->
  evalsAnd (u ++ flat_map (fun u => marker "and" :: u) us ++ r) (foldl andb v vs) r.
Proof.
  intros Hr Hu Hus. destruct (evalAnd_chain_loop us vs v r Hr Hus) as [f1 Hf1].
  destruct (Hu (flat_map (fun u => marker "and" :: u) us ++ r)) as [f2 Hf2].
  exists (S (f1 + f2)). ev.
  destruct (eval_mono f2 (f1 + f2) ltac:(lia)) as (_ & _ & _ & _ & M2).
  destruct (eval_mono f1 (f1 + f2) ltac:(lia)) as (_ & _ & _ & M1 & _).
  rewrite (M2 _ _ Hf2). cbn [mbind option_bind]. by apply M1.
Qed.

Lemma evalOr_chain_loop us vs acc r : starts "or" r = false -> starts "and" r = false ->
  Forall2 (fun u v => forall r, evalsUn (u ++ r) v r) us vs ->
  exists f, eOrL f acc (flat_map (fun u => marker "or" :: u) us ++ r) = Some (foldl orb acc vs, r).
Proof.
  intros Hr Hra H. revert acc. induction H as [|u v us vs Hu H IH]; intros acc; simpl.
  - exists 1. ev. destruct r as [|a r]; [done|]. simpl in Hr. by rewrite Hr.
  - destruct (IH (acc || v)) as [f1 Hf1].
    destruct (evalsAnd_chain u v [] [] (flat_map (fun u => marker "or" :: u) us ++ r)) as [f2 Hf2];
      [by destruct us|done|constructor|]. simpl in Hf2.
    exists (S (f1 + f2)). ev. simpl. rewrite <- app_assoc.
    destruct (eval_mono f2 (f1 + f2) ltac:(lia)) as (_ & _ & M2 & _ & _).
    destruct (eval_mono f1 (f1 + f2) ltac:(lia)) as (_ & M1 & _ & _ & _).
    rewrite (M2 _ _ Hf2). cbn [mbind option_bind]. by apply M1.
Qed.

Lemma evalsOr_of_and l v r : starts "or" r = false -> evalsAnd l v r -> evalsOr l v r.
Proof.
  intros Hr [f Hf]. exists (S (S f)). rewrite evalOr_S.
  destruct (eval_mono f (S f) ltac:(lia)) as (_ & _ & M & _ & _). rewrite (M _ _ Hf). cbn [mbind option_bind]. rewrite evalOr_loop_S.
  destruct r as [|a r]; [done|]. simpl in Hr. by rewrite Hr.
Qed.

Lemma evalsOr_chain u v us vs r : starts "or" r = false -> starts "and" r = false ->
  (forall r, evalsUn (u ++ r) v r) -> Forall2 (fun u v => forall r, evalsUn (u ++ r) v r) us vs ->
  evalsOr (u ++ flat_map (fun u => marker "or" :: u) us ++ r) (foldl orb v vs) r.
Proof.
  intros Hr Hra Hu Hus. destruct (evalOr_chain_loop us vs v r Hr Hra Hus) as [f1 Hf1].
  destruct (evalsAnd_chain u v [] [] (flat_map (fun u => marker "or" :: u) us ++ r)) as [f2 Hf2];
    [by destruct us|done|constructor|]. simpl in Hf2.
  exists (S (f1 + f2)). ev.
  destruct (eval_mono f2 (f1 + f2) ltac:(lia)) as (_ & _ & M2 & _ & _).
  destruct (eval_mono f1 (f1 + f2) ltac:(lia)) as (_ & M1 & _ & _ & _).
  rewrite (M2 _ _ Hf2). cbn [mbind option_bind]. by apply M1.
Qed.
End EvalLemmas.

Lemma foldl_andb acc vs : foldl andb acc vs = acc && forallb id vs.
Proof.
  revert acc. induction vs as [|v vs IH]; intros acc; simpl; [by rewrite andb_true_r|].
  by rewrite IH, andb_assoc.
Qed.

Lemma foldl_orb acc vs : foldl orb acc vs = acc || existsb id vs.
Proof.
  revert acc. induction vs as [|v vs IH]; intros acc; simpl; [by rewrite orb_false_r|].
  by rewrite IH, orb_assoc.
Qed.

(** * Properties *)

(** The runtime evaluator returns on every atom list, and more rounds than
    [eval_fuel] change nothing. *)
Theorem eval_total hasRole hasPerm ctx input atoms :
  exists v rest, forall fuel, eval_fuel atoms <= fuel ->
    evalOr hasRole hasPerm ctx input fuel atoms = Some (v, rest).
Proof.
  destruct (evalOr hasRole hasPerm ctx input (eval_fuel atoms) atoms) as [[v r]|] eqn:E.
  - exists v, r. intros fuel Hf. by apply (eval_mono _ _ _ _ _ _ Hf).
  - exfalso. destruct (eval_enough hasRole hasPerm ctx input (eval_fuel atoms)) as [H _].
    by apply (H atoms).
Qed.
