(* ===== verification/Policy.v ===== *)
(** Policy expressions: the recursive-descent parser of
    [lazuli_syntax/src/parser/lzx/policy_expr/] ([mod.rs], [parser.rs],
    [atom.rs]) and its AST. *)
From S2P Require Import Prelude Str Lex.

(** * AST ([lazuli_syntax/src/ast/feature/policy.rs]) *)

Record PolicyAtomAst := {
  namespace : string;
  name : string;
  args : option string;
  span : Span
}.

Inductive PolicyExprAst :=
| Authenticated
| HasRole (name : string)
| HasPermission (perm : string)
| Atom (atom : PolicyAtomAst)
| And (terms : list PolicyExprAst)
| Or (terms : list PolicyExprAst)
| Not (inner : PolicyExprAst).

(** * Atoms *)

Definition policy_namespaces : list string :=
  ["scope"; "role"; "actor"; "mfa"; "session"; "rate_budget"; "time"].

Definition in_catalog (ns : string) : bool := existsb (String.eqb ns) policy_namespaces.

(** [parse_policy_atom] *)
Definition parse_policy_atom (line : SourceLine) (value : string) : presult PolicyAtomAst :=
  let atom := trim value in
  body ← ok_or (strip_prefix "@" atom)
    (line_error line "policy atoms start with `@` (e.g. `@scope.workspace_admin`)");
  '(body, args) ←
    (match split_once "(" body with
     | Some (head, tail) =>
       match strip_suffix ")" tail with
       | None => Err (line_error line "policy atom arguments must be closed with `)`")
       | Some tail' =>
         let args := trim tail' in
         if args =? "" then Err (line_error line "policy atom arguments cannot be empty")
         else Ok (trim head, Some args)
       end
     | None => Ok (trim body, None)
     end);
  '(ns, nm) ← ok_or (split_once "." body)
    (line_error line "policy atom must include a namespace and name (`@<ns>.<name>`)");
  if negb (in_catalog ns) then
    Err (line_error_owned line
      ("policy atom namespace `" +:+ ns +:+ "` is not in the closed catalog (`scope` | `role` | `actor` | `mfa` | `session` | `rate_budget` | `time`)"))
  else if negb (is_kebab_or_snake_ident nm) then
    Err (line_error_owned line ("policy atom name `" +:+ nm +:+ "` must be kebab/snake case"))
  else Ok {| namespace := ns; name := nm; args := args;
             span := span_new (start line) (end_ line) |}.

(** * The expression parser

    [PolicyExprParser { input, pos, line }]: the state is [input[pos..]], the
    text still to be read. *)

Fixpoint skip_ws (s : string) : string :=
  match s with
  | "" => ""
  | String b r => if is_ascii_whitespace b then skip_ws r else s
  end.

Definition is_at_end (s : string) : bool := skip_ws s =? "".

(** [consume_keyword]: success flag and new state; white space is skipped even
    when the keyword is not there. *)
Definition consume_keyword (kw : string) (s : string) : bool * string :=
  let rest := skip_ws s in
  match strip_prefix kw rest with
  | None => (false, rest)
  | Some after =>
    match after with
    | "" => (true, after)
    | String c _ =>
      if is_ascii_whitespace c || (c =a? "(") || (c =a? ")") then (true, after)
      else (false, rest)
    end
  end.

Definition consume_char (c : byte) (s : string) : bool * string :=
  let rest := skip_ws s in
  match rest with
  | String b r => if b =a? c then (true, r) else (false, rest)
  | "" => (false, rest)
  end.

(** Number of bytes [read_ident]/[read_permission_ref] take: [p] for the first
    byte, [p] or a digit afterwards. *)
Definition token_len (p : byte -> bool) (s : string) : nat :=
  match s with
  | "" => 0
  | String b r => if p b then S (count_while (fun c => p c || is_ascii_digit c) r) else 0
  end.

Definition read_with (p : byte -> bool) (s : string) : option string * string :=
  let rest := skip_ws s in
  match token_len p rest with
  | O => (None, rest)
  | n => (Some (str_take n rest), str_drop n rest)
  end.

Definition ident_byte (b : byte) : bool := is_ascii_lowercase b || (b =a? "_").
Definition perm_byte (b : byte) : bool := is_ascii_lowercase b || (b =a? "_") || (b =a? ":").

Definition read_ident (s : string) : option string * string := read_with ident_byte s.
Definition read_permission_ref (s : string) : option string * string := read_with perm_byte s.

Definition atom_byte (b : byte) : bool :=
  is_ascii_lowercase b || is_ascii_digit b || (b =a? "_") || (b =a? "-") || (b =a? ".").

(** [read_atom_token] *)
Definition read_atom_token (s : string) : option string * string :=
  let rest := skip_ws s in
  match rest with
  | String b body =>
    if b =a? "@" then
      match count_while atom_byte body with
      | O => (None, rest)
      | n =>
        let len :=
          match str_drop n body with
          | String c tail =>
            if c =a? "(" then
              let m := count_while (fun d => negb (d =a? ")")) tail in
              n + 1 + (if (m <? str_len tail)%nat then m + 1 else m)
            else n
          | "" => n
          end in
        (Some (str_take (S len) rest), str_drop (S len) rest)
      end
    else (None, rest)
  | "" => (None, rest)
  end.

Definition valid_segment (seg : string) : bool :=
  match seg with
  | "" => false
  | String first rest =>
    is_ascii_lowercase first &&
    str_all (fun c => is_ascii_lowercase c || is_ascii_digit c || (c =a? "_")) rest
  end.

(** [is_valid_permission_ref]: 2 to 4 segments. *)
Definition is_valid_permission_ref (s : string) : bool :=
  let segments := split_char ":" s in
  let n := List.length segments in
  negb ((n <? 2)%nat || (4 <? n)%nat) && forallb valid_segment segments.

(** Outcome of a parser run with fuel: [None] is out of fuel. *)
Definition prun := option (presult (PolicyExprAst * string)).

Definition pbind (m : prun) (k : PolicyExprAst -> string -> prun) : prun :=
  match m with
  | Some (Ok (e, s)) => k e s
  | r => r
  end.

Definition one_or (mk : list PolicyExprAst -> PolicyExprAst) (terms : list PolicyExprAst)
    : PolicyExprAst :=
  match terms with [t] => t | _ => mk terms end.

Section Parser.
Variable line : SourceLine.

Fixpoint parse_or (fuel : nat) (s : string) {struct fuel} : prun :=
  match fuel with
  | O => None
  | S fuel => pbind (parse_and fuel s) (fun t s => or_loop fuel [t] s)
  end
with or_loop (fuel : nat) (terms : list PolicyExprAst) (s : string) {struct fuel} : prun :=
  match fuel with
  | O => None
  | S fuel =>
    match consume_keyword "or" s with
    | (true, s) => pbind (parse_and fuel s) (fun t s => or_loop fuel (terms ++ [t])%list s)
    | (false, s) => Some (Ok (one_or Or terms, s))
    end
  end
with parse_and (fuel : nat) (s : string) {struct fuel} : prun :=
  match fuel with
  | O => None
  | S fuel => pbind (parse_unary fuel s) (fun t s => and_loop fuel [t] s)
  end
with and_loop (fuel : nat) (terms : list PolicyExprAst) (s : string) {struct fuel} : prun :=
  match fuel with
  | O => None
  | S fuel =>
    match consume_keyword "and" s with
    | (true, s) => pbind (parse_unary fuel s) (fun t s => and_loop fuel (terms ++ [t])%list s)
    | (false, s) => Some (Ok (one_or And terms, s))
    end
  end
with parse_unary (fuel : nat) (s : string) {struct fuel} : prun :=
  match fuel with
  | O => None
  | S fuel =>
    match consume_keyword "not" s with
    | (true, s) => pbind (parse_unary fuel s) (fun inner s => Some (Ok (Not inner, s)))
    | (false, s) => parse_atom fuel s
    end
  end
with parse_atom (fuel : nat) (s : string) {struct fuel} : prun :=
  match fuel with
  | O => None
  | S fuel =>
    match consume_char "(" s with
    | (true, s) =>
      pbind (parse_or fuel s) (fun inner s =>
        match consume_char ")" s with
        | (true, s) => Some (Ok (inner, s))
        | (false, _) =>
          Some (Err (line_error line "unbalanced parens in policy expression (expected `)`)"))
        end)
    | (false, s) =>
    match consume_keyword "authenticated" s with
    | (true, s) => Some (Ok (Authenticated, s))
    | (false, s) =>
    match consume_keyword "has_role" s with
    | (true, s) =>
      match read_ident s with
      | (Some name, s) => Some (Ok (HasRole name, s))
      | (None, _) =>
        Some (Err (line_error line "`has_role` requires an identifier (e.g. `has_role manager`)"))
      end
    | (false, s) =>
    match consume_keyword "has_permission" s with
    | (true, s) =>
      match read_permission_ref s with
      | (Some perm, s) =>
        if is_valid_permission_ref perm then Some (Ok (HasPermission perm, s))
        else Some (Err (line_error_owned line
          ("`has_permission` argument `" +:+ perm +:+
           "` must be 2-4 colon-separated lowercase segments")))
      | (None, _) =>
        Some (Err (line_error line
          "`has_permission` requires a permission ref (e.g. `has_permission users:read`)"))
      end
    | (false, s) =>
    match read_atom_token s with
    | (Some tok, s) =>
      match parse_policy_atom line tok with
      | Ok atom => Some (Ok (Atom atom, s))
      | Err e => Some (Err e)
      end
    | (None, s) =>
      Some (Err (line_error_owned line
        ("expected `authenticated`, `has_role`, `has_permission`, `not`, `(`, or `@<ns>.<name>` in policy expression; found `" +:+ s +:+ "`")))
    end end end end end
  end.
End Parser.

(** Enough rounds for any input (see [parse_or_total]). *)
Definition parse_fuel (s : string) : nat := 6 * str_len s + 6.

(** * Entry points *)

Definition expr_keywords : list string :=
  ["authenticated"; "has_role"; "has_permission"; "and"; "or"; "not"].

(** [looks_like_policy_expr] *)
Definition looks_like_policy_expr (payload : string) : bool :=
  if contains "(" payload || contains ")" payload then true
  else existsb (fun tok => existsb (String.eqb tok) expr_keywords) (split_whitespace payload).

(** [parse_inline_atom_term] *)
Definition parse_inline_atom_term (term : string) : option PolicyAtomAst :=
  if negb (List.length (split_whitespace term) =? 1)%nat then None else
  body ← strip_prefix "@" term;
  if contains "(" body || contains ")" body then None else
  '(ns, nm) ← split_once "." body;
  if (ns =? "") || (nm =? "") then None
  else if ns =? "policy" then None
  else Some {| namespace := ns; name := nm; args := None; span := span_new 0 0 |}.

Fixpoint parse_inline_terms (raws : list string) : option (list PolicyExprAst) :=
  match raws with
  | [] => Some []
  | raw :: raws =>
    a ← parse_inline_atom_term (trim raw);
    rest ← parse_inline_terms raws;
    Some (Atom a :: rest)
  end.

(** [try_parse_inline_atom_list] *)
Definition try_parse_inline_atom_list (payload : string) : option PolicyExprAst :=
  if negb (contains "," payload) then None
  else if looks_like_policy_expr payload then None
  else if existsb (fun tok => tok =? "when") (split_whitespace payload) then None
  else
    atoms ← parse_inline_terms (split_char "," payload);
    if (List.length atoms <? 2)%nat then None else Some (Or atoms).

(** [try_parse_policy_expr] *)
Definition try_parse_policy_expr (line : SourceLine) (payload : string)
    : option (presult (option PolicyExprAst)) :=
  let trimmed := trim payload in
  if trimmed =? "" then Some (Ok None)
  else match try_parse_inline_atom_list trimmed with
  | Some expr => Some (Ok (Some expr))
  | None =>
    if negb (looks_like_policy_expr trimmed) then Some (Ok None)
    else match parse_or line (parse_fuel trimmed) trimmed with
    | None => None
    | Some (Err e) => Some (Err e)
    | Some (Ok (expr, rest)) =>
      if is_at_end rest then Some (Ok (Some expr))
      else Some (Err (line_error_owned line
        ("unexpected trailing input in policy expression: `" +:+ rest +:+ "`")))
    end
  end.

(** * Lemmas *)

(** ** Induction over expressions *)

Section ExprInd.
Variable P : PolicyExprAst -> Prop.
Hypothesis H_auth : P Authenticated.
Hypothesis H_role : forall n, P (HasRole n).
Hypothesis H_perm : forall p, P (HasPermission p).
Hypothesis H_atom : forall a, P (Atom a).
Hypothesis H_and : forall ts, Forall P ts -> P (And ts).
Hypothesis H_or : forall ts, Forall P ts -> P (Or ts).
Hypothesis H_not : forall i, P i -> P (Not i).

Fixpoint expr_ind' (e : PolicyExprAst) : P e :=
  let fix go (ts : list PolicyExprAst) : Forall P ts :=
    match ts with
    | [] => @List.Forall_nil _ P
    | t :: ts => @List.Forall_cons _ P t ts (expr_ind' t) (go ts)
    end in
  match e with
  | Authenticated => H_auth
  | HasRole n => H_role n
  | HasPermission p => H_perm p
  | Atom a => H_atom a
  | And ts => H_and ts (go ts)
  | Or ts => H_or ts (go ts)
  | Not i => H_not i (expr_ind' i)
  end.
End ExprInd.

(** What the grammar guarantees of a parsed expression. *)
Fixpoint wf_expr (e : PolicyExprAst) : bool :=
  match e with
  | Authenticated => true
  | HasRole n => nonempty n && (token_len ident_byte n =? str_len n)%nat
  | HasPermission p => is_valid_permission_ref p
  | Atom a => in_catalog (namespace a) && is_kebab_or_snake_ident (name a)
  | And ts => (2 <=? List.length ts)%nat && forallb wf_expr ts
  | Or ts => (2 <=? List.length ts)%nat && forallb wf_expr ts
  | Not i => wf_expr i
  end.

(** ** The run monad *)

Lemma pbind_Ok m k r :
  pbind m k = Some (Ok r) <-> exists e s, m = Some (Ok (e, s)) /\ k e s = Some (Ok r).
Proof.
  destruct m as [[[e s]|err]|]; simpl; split; try (intros (? & ? & [= <- <-] & ?); done);
    try (by intros (? & ? & ? & ?)); eauto; done.
Qed.

Lemma pbind_not_None m k :
  m <> None -> (forall e s, m = Some (Ok (e, s)) -> k e s <> None) -> pbind m k <> None.
Proof. destruct m as [[[e s]|err]|]; simpl; [|done..]. intros _ H. by apply H. Qed.

(** ** Tokens only shorten the input *)

Lemma skip_ws_len s : str_len (skip_ws s) <= str_len s.
Proof. induction s as [|b s IH]; simpl; [lia|]. case_match; simpl; lia. Qed.

Lemma skip_ws_idem s : skip_ws (skip_ws s) = skip_ws s.
Proof. induction s as [|b s IH]; simpl; [done|]. destruct (is_ascii_whitespace b) eqn:E; [done|]. simpl. by rewrite E. Qed.

Lemma consume_keyword_len kw s b s' :
  consume_keyword kw s = (b, s') -> str_len s' + (if b then str_len kw else 0) <= str_len s.
Proof.
  unfold consume_keyword. pose proof (skip_ws_len s).
  destruct (strip_prefix kw (skip_ws s)) as [after|] eqn:E.
  - apply strip_prefix_Some in E. rewrite E, len_app in H.
    destruct after as [|c r]; [|case_match]; intros [= <- <-]; simpl in *; rewrite ?E, ?len_app; simpl; lia.
  - intros [= <- <-]. lia.
Qed.

Lemma consume_char_len c s b s' :
  consume_char c s = (b, s') -> str_len s' + (if b then 1 else 0) <= str_len s.
Proof.
  unfold consume_char. pose proof (skip_ws_len s).
  destruct (skip_ws s) as [|x r] eqn:E; [|case_match]; intros [= <- <-]; simpl in *; lia.
Qed.

Lemma read_with_len p s t s' : read_with p s = (Some t, s') -> str_len s' < str_len s.
Proof.
  unfold read_with. pose proof (skip_ws_len s).
  destruct (skip_ws s) as [|x r] eqn:E; simpl; [done|]. destruct (p x); [|done].
  intros [= _ <-]. rewrite len_drop. simpl in *. lia.
Qed.

Lemma read_atom_token_len s t s' : read_atom_token s = (Some t, s') -> str_len s' < str_len s.
Proof.
  unfold read_atom_token. pose proof (skip_ws_len s).
  destruct (skip_ws s) as [|x r] eqn:E; [done|]. destruct (x =a? "@"); [|done].
  destruct (count_while atom_byte r) as [|n]; [done|]. cbv zeta. intros [= _ <-].
  rewrite len_drop. simpl in *. lia.
Qed.

(** ** Every sub-parser consumes input *)

Section ParserLemmas.
Variable line : SourceLine.

Abbreviation shrinks m s :=
  (forall t s', m = Some (Ok (t, s')) -> str_len s' < str_len s).

Lemma parse_shrinks fuel :
  (forall s, shrinks (parse_or line fuel s) s) /\
  (forall ts s t s', or_loop line fuel ts s = Some (Ok (t, s')) -> str_len s' <= str_len s) /\
  (forall s, shrinks (parse_and line fuel s) s) /\
  (forall ts s t s', and_loop line fuel ts s = Some (Ok (t, s')) -> str_len s' <= str_len s) /\
  (forall s, shrinks (parse_unary line fuel s) s) /\
  (forall s, shrinks (parse_atom line fuel s) s).
Proof.
  induction fuel as [|fuel (IHo & IHol & IHa & IHal & IHu & IHat)]; [by split_and!|].
  split_and!; intros; cbn [parse_or or_loop parse_and and_loop parse_unary parse_atom] in *.
  - apply pbind_Ok in H as (e & s1 & H1%IHa & H2%IHol). lia.
  - destruct (consume_keyword "or" s) as [[] s1] eqn:E; apply consume_keyword_len in E.
    + apply pbind_Ok in H as (e & s2 & H1%IHa & H2%IHol). lia.
    + injection H as <- <-. lia.
  - apply pbind_Ok in H as (e & s1 & H1%IHu & H2%IHal). lia.
  - destruct (consume_keyword "and" s) as [[] s1] eqn:E; apply consume_keyword_len in E.
    + apply pbind_Ok in H as (e & s2 & H1%IHu & H2%IHal). lia.
    + injection H as <- <-. lia.
  - destruct (consume_keyword "not" s) as [[] s1] eqn:E; apply consume_keyword_len in E.
    + apply pbind_Ok in H as (e & s2 & H1%IHu & [= <- <-]). lia.
    + apply IHat in H. lia.
  - destruct (consume_char "(" s) as [[] s1] eqn:E; apply consume_char_len in E.
    { apply pbind_Ok in H as (e & s2 & H1%IHo & H2).
      destruct (consume_char ")" s2) as [[] s3] eqn:E2; [|done]. apply consume_char_len in E2.
      injection H2 as <- <-. lia. }
    destruct (consume_keyword "authenticated" s1) as [[] s2] eqn:E2; apply consume_keyword_len in E2; simpl in E2.
    { injection H as <- <-. lia. }
    destruct (consume_keyword "has_role" s2) as [[] s3] eqn:E3; apply consume_keyword_len in E3; simpl in E3.
    { unfold read_ident in H. destruct (read_with _ s3) as [[n|] s4] eqn:E4; [|done].
      apply read_with_len in E4. injection H as <- <-. lia. }
    destruct (consume_keyword "has_permission" s3) as [[] s4] eqn:E4; apply consume_keyword_len in E4; simpl in E4.
    { unfold read_permission_ref in H. destruct (read_with _ s4) as [[n|] s5] eqn:E5; [|done].
      apply read_with_len in E5. destruct (is_valid_permission_ref n); [|done].
      injection H as <- <-. lia. }
    destruct (read_atom_token s4) as [[tok|] s5] eqn:E5; [|done]. apply read_atom_token_len in E5.
    destruct (parse_policy_atom line tok); [|done]. injection H as <- <-. lia.
Qed.

(** The fuel each sub-parser needs. *)
Lemma parse_enough fuel :
  (forall s, 6 * str_len s + 6 <= fuel -> parse_or line fuel s <> None) /\
  (forall ts s, 6 * str_len s + 5 <= fuel -> or_loop line fuel ts s <> None) /\
  (forall s, 6 * str_len s + 4 <= fuel -> parse_and line fuel s <> None) /\
  (forall ts s, 6 * str_len s + 4 <= fuel -> and_loop line fuel ts s <> None) /\
  (forall s, 6 * str_len s + 2 <= fuel -> parse_unary line fuel s <> None) /\
  (forall s, 6 * str_len s + 1 <= fuel -> parse_atom line fuel s <> None).
Proof.
  induction fuel as [|fuel (IHo & IHol & IHa & IHal & IHu & IHat)]; [split_and!; lia|].
  pose proof (parse_shrinks fuel) as (So & _ & Sa & _ & Su & _).
  split_and!; intros; cbn [parse_or or_loop parse_and and_loop parse_unary parse_atom].
  - apply pbind_not_None; [apply IHa; lia|]. intros e s1 H1%Sa. apply IHol. lia.
  - destruct (consume_keyword "or" s) as [[] s1] eqn:E; [|done]. apply consume_keyword_len in E. simpl in E.
    apply pbind_not_None; [apply IHa; lia|]. intros e s2 H1%Sa. apply IHol. lia.
  - apply pbind_not_None; [apply IHu; lia|]. intros e s1 H1%Su. apply IHal. lia.
  - destruct (consume_keyword "and" s) as [[] s1] eqn:E; [|done]. apply consume_keyword_len in E. simpl in E.
    apply pbind_not_None; [apply IHu; lia|]. intros e s2 H1%Su. apply IHal. lia.
  - destruct (consume_keyword "not" s) as [[] s1] eqn:E; apply consume_keyword_len in E; simpl in E.
    + apply pbind_not_None; [apply IHu; lia|]. done.
    + apply IHat. lia.
  - destruct (consume_char "(" s) as [[] s1] eqn:E; apply consume_char_len in E.
    { apply pbind_not_None; [apply IHo; lia|]. intros e s2 _. by destruct (consume_char ")" s2) as [[] ?]. }
    repeat case_match; try done.
Qed.

(** More fuel changes nothing once there is a result. *)
Lemma parse_mono fuel fuel' : fuel <= fuel' ->
  (forall s r, parse_or line fuel s = Some r -> parse_or line fuel' s = Some r) /\
  (forall ts s r, or_loop line fuel ts s = Some r -> or_loop line fuel' ts s = Some r) /\
  (forall s r, parse_and line fuel s = Some r -> parse_and line fuel' s = Some r) /\
  (forall ts s r, and_loop line fuel ts s = Some r -> and_loop line fuel' ts s = Some r) /\
  (forall s r, parse_unary line fuel s = Some r -> parse_unary line fuel' s = Some r) /\
  (forall s r, parse_atom line fuel s = Some r -> parse_atom line fuel' s = Some r).
Proof.
  assert (Hb : forall m m' k k', (forall r, m = Some r -> m' = Some r) ->
    (forall e s r, k e s = Some r -> k' e s = Some r) ->
    forall r, pbind m k = Some r -> pbind m' k' = Some r).
  { intros m m' k k' Hm Hk r. destruct m as [r0|]; [|done]. rewrite (Hm _ eq_refl).
    destruct r0 as [[e s]|]; simpl; auto. }
  revert fuel'. induction fuel as [|fuel IH]; intros fuel' Hle; [by split_and!|].
  destruct fuel' as [|fuel']; [lia|].
  destruct (IH fuel' ltac:(lia)) as (IHo & IHol & IHa & IHal & IHu & IHat). clear IH.
  split_and!; intros; cbn [parse_or or_loop parse_and and_loop parse_unary parse_atom] in *;
    repeat (case_match; try done); eauto; revert H; apply Hb; eauto.
Qed.
End ParserLemmas.

(** ** Results are well formed *)

Lemma wf_one_or (mk : list PolicyExprAst -> PolicyExprAst) ts :
  (forall l, wf_expr (mk l) = ((2 <=? List.length l)%nat && forallb wf_expr l)) ->
  ts <> [] -> forallb wf_expr ts = true -> wf_expr (one_or mk ts) = true.
Proof.
  intros Hmk Hne Hts. destruct ts as [|t [|t2 ts]]; [done|simpl in *; by rewrite andb_true_r in Hts|].
  cbn [one_or]. rewrite Hmk. done.
Qed.

Lemma read_with_token p s t s' :
  (forall c, p c = true -> is_ascii_digit c = false) ->
  read_with p s = (Some t, s') -> token_len p t = str_len t /\ t <> "".
Proof.
  intros Hp. unfold read_with. destruct (skip_ws s) as [|b r]; simpl; [done|].
  destruct (p b) eqn:E; [|done]. intros [= <- _]. split; [|done]. simpl. rewrite E.
  f_equal. generalize (fun c => p c || is_ascii_digit c). intros q. clear.
  induction r as [|b r IH]; simpl; [done|]. destruct (q b) eqn:Eb; simpl; [|done].
  rewrite Eb. f_equal. apply IH.
Qed.

Lemma parse_policy_atom_wf line tok a :
  parse_policy_atom line tok = Ok a -> in_catalog (namespace a) && is_kebab_or_snake_ident (name a) = true.
Proof.
  unfold parse_policy_atom. intros (body & _ & H)%bind_Ok.
  apply bind_Ok in H as ([b2 args] & _ & H). apply bind_Ok in H as ([ns nm] & _ & H).
  destruct (in_catalog ns) eqn:E1; [|done]. destruct (is_kebab_or_snake_ident nm) eqn:E2; [|done].
  injection H as <-. simpl. by rewrite E1, E2.
Qed.

Lemma parse_results_wf line fuel :
  (forall s t s', parse_or line fuel s = Some (Ok (t, s')) -> wf_expr t = true) /\
  (forall ts s t s', or_loop line fuel ts s = Some (Ok (t, s')) -> ts <> [] ->
     forallb wf_expr ts = true -> wf_expr t = true) /\
  (forall s t s', parse_and line fuel s = Some (Ok (t, s')) -> wf_expr t = true) /\
  (forall ts s t s', and_loop line fuel ts s = Some (Ok (t, s')) -> ts <> [] ->
     forallb wf_expr ts = true -> wf_expr t = true) /\
  (forall s t s', parse_unary line fuel s = Some (Ok (t, s')) -> wf_expr t = true) /\
  (forall s t s', parse_atom line fuel s = Some (Ok (t, s')) -> wf_expr t = true).
Proof.
  induction fuel as [|fuel (IHo & IHol & IHa & IHal & IHu & IHat)]; [by split_and!|].
  assert (Hsnoc : forall ts (t : PolicyExprAst), forallb wf_expr ts = true -> wf_expr t = true ->
    (ts ++ [t])%list <> [] /\ forallb wf_expr (ts ++ [t])%list = true).
  { intros ts t H1 H2. rewrite forallb_app, H1. simpl. rewrite H2. split; [by destruct ts|done]. }
  split_and!; intros; cbn [parse_or or_loop parse_and and_loop parse_unary parse_atom] in *.
  - apply pbind_Ok in H as (e & s1 & H1%IHa & H2). eapply IHol; [done..|]. simpl. by rewrite H1.
  - destruct (consume_keyword "or" s) as [[] s1].
    + apply pbind_Ok in H as (e & s2 & H2%IHa & H3). destruct (Hsnoc ts e H1 H2). eauto.
    + injection H as <- <-. by apply (wf_one_or Or).
  - apply pbind_Ok in H as (e & s1 & H1%IHu & H2). eapply IHal; [done..|]. simpl. by rewrite H1.
  - destruct (consume_keyword "and" s) as [[] s1].
    + apply pbind_Ok in H as (e & s2 & H2%IHu & H3). destruct (Hsnoc ts e H1 H2). eauto.
    + injection H as <- <-. by apply (wf_one_or And).
  - destruct (consume_keyword "not" s) as [[] s1]; [|eauto].
    apply pbind_Ok in H as (e & s2 & H1%IHu & [= <- <-]). done.
  - destruct (consume_char "(" s) as [[] s1].
    { apply pbind_Ok in H as (e & s2 & H1%IHo & H2).
      destruct (consume_char ")" s2) as [[] s3]; [|done]. by injection H2 as <- <-. }
    destruct (consume_keyword "authenticated" s1) as [[] s2]; [by injection H as <- <-|].
    destruct (consume_keyword "has_role" s2) as [[] s3].
    { unfold read_ident in H. destruct (read_with _ s3) as [[n|] s4] eqn:E4; [|done].
      apply read_with_token in E4 as [Ht Hne]; [|intros c; by_bytes c].
      injection H as <- <-. simpl. rewrite Ht, Nat.eqb_refl. by destruct n. }
    destruct (consume_keyword "has_permission" s3) as [[] s4].
    { destruct (read_permission_ref s4) as [[n|] s5]; [|done].
      destruct (is_valid_permission_ref n) eqn:E; [|done]. by injection H as <- <-. }
    destruct (read_atom_token s4) as [[tok|] s5]; [|done].
    destruct (parse_policy_atom line tok) eqn:E; [|done].
    apply parse_policy_atom_wf in E. by injection H as <- <-.
Qed.

(** * Properties *)

(** The parser always returns: [parse_fuel] rounds suffice for any input, and
    no larger budget changes the outcome. *)
Theorem parse_or_total line s :
  exists r, forall fuel, parse_fuel s <= fuel -> parse_or line fuel s = Some r.
Proof.
  destruct (parse_or line (parse_fuel s) s) as [r|] eqn:E.
  - exists r. intros fuel Hf. by apply (parse_mono line _ _ Hf).
  - exfalso. destruct (parse_enough line (parse_fuel s)) as [H _]. by apply (H s).
Qed.

(** [try_parse_policy_expr] always answers, and a structured answer obeys the
    closed grammar: conjunctions and disjunctions have at least two terms,
    roles and permission refs are well formed, atoms are in the namespace
    catalog.  (The other source of [Some] is the inline atom list, an [Or] of
    two or more plain atoms outside the [policy] namespace.) *)
Theorem try_parse_policy_expr_wf line payload :
  exists r, try_parse_policy_expr line payload = Some r /\
  forall e, r = Ok (Some e) ->
    wf_expr e = true \/
    exists atoms, e = Or atoms /\ 2 <= List.length atoms /\
      Forall (fun t => exists a, t = Atom a /\ namespace a <> "" /\ name a <> "" /\
                                 namespace a <> "policy" /\ args a = None) atoms.
Proof.
  unfold try_parse_policy_expr. destruct (trim payload =? ""); [by eexists|].
  destruct (try_parse_inline_atom_list (trim payload)) as [e|] eqn:Ei.
  { eexists; split; [done|]. intros ? [= <-]. right. unfold try_parse_inline_atom_list in Ei.
    repeat (case_match; try done). apply bind_Some in Ei as (atoms & Ha & H').
    destruct (_ <? 2)%nat eqn:El; [done|]. injection H' as <-. bool_prop.
    exists atoms. split; [done|]. split; [done|]. clear -Ha. revert atoms Ha.
    generalize (split_char "," (trim payload)). induction l as [|raw l IH]; simpl; intros atoms.
    - intros [= <-]. constructor.
    - intros (a & Ha & (rest & Hr & [= <-])%bind_Some)%bind_Some. constructor; [|eauto].
      exists a. split; [done|]. unfold parse_inline_atom_term in Ha.
      destruct (negb _); [done|]. apply bind_Some in Ha as (b & _ & Ha).
      destruct (_ || _); [done|]. apply bind_Some in Ha as ([ns nm] & _ & Ha).
      destruct ((ns =? "") || (nm =? "")) eqn:E1; [done|]. destruct (ns =? "policy") eqn:E2; [done|].
      injection Ha as <-. bool_prop. done. }
  destruct (negb _); [by eexists|].
  destruct (parse_or_total line (trim payload)) as [r Hr]. rewrite Hr by done.
  destruct r as [[e rest]|]; [|by eexists]. destruct (is_at_end rest); [|by eexists].
  eexists; split; [done|]. intros ? [= <-]. left.
  destruct (parse_results_wf line (parse_fuel (trim payload))) as [Hwf _]. by eapply Hwf, Hr.
Qed.
