(* ===== verification/Ir.v ===== *)
(** The parts of the intermediate representation ([lazuli_ir]) that the modelled
    passes exchange: names, types, expressions, predicates and policies. *)
From S2P Require Import Prelude Str Lex.

(** [lazuli_ir/src/lib.rs] *)
Record QualifiedName := { qn_feature : option string; qn_name : string }.
Record EnumLiteral := { type_name : option QualifiedName; variant : string }.

Module types.
(** [lazuli_ir/src/nodes/resource/type_ref.rs] *)
Inductive CurrencyCode := BRL | USD | EUR | GBP | JPY | CHF.
Inductive BuiltinType :=
| Id | Text | Boolean | Integer | Decimal | Date | DateTime | Json
| SemanticEmail | SemanticMoney (currency : CurrencyCode) | SemanticPhone | SemanticUrl | SemanticUuid
| SemanticCurrency | SemanticGeoPoint | SemanticHexColor | SemanticPercentage | SemanticPositiveDecimal
| SemanticNonNegativeInt | SemanticPluginType (plugin name : string) (carrier : BuiltinType)
    (validator go_module ts_package error_code message_key ts_validator : string)
| CapSecret | CapFile.

(** [lazuli_ir/src/nodes/resource/mod.rs] *)
Inductive StorageValue := SInteger (n : Z) | SString (s : string).
Record EnumVariant := { ev_name : string; storage_value : option StorageValue }.
Record EnumDecl := { en_name : string; variants : list EnumVariant; en_span : option Span }.
End types.

(** [lazuli_ir/src/nodes/query.rs] *)
Record Path := { segments : list string }.

Inductive CompareOp := Eq_ | Ne | Lt_ | Le | Gt_ | Ge.

Inductive Expr :=
| EPath (p : Path)
| EString (s : string)
| EInteger (n : Z)
| EBoolean (b : bool)
| EEnum (e : EnumLiteral)
| ENil
| EFnCall (fn : QualifiedName) (fn_args : list Expr).

Inductive Predicate :=
| Comparison (left : Expr) (op : CompareOp) (right : Expr)
| Has (collection element : Expr)
| PAnd (ps : list Predicate)
| POr (ps : list Predicate).

(** [lazuli_ir/src/nodes/ai_primitives.rs]; the variants that only evals use
    carry their text. *)
Inductive EvalPredicate :=
| Closed (p : Predicate)
| Contains_ (lhs : Path) (rhs : string)
| ToolsCalls (op : string) (target : string)
| Unparsed (text : string).

(** [lazuli_ir/src/nodes/policy_expr.rs] *)
Module ir.
Record PolicyAtom := { namespace : string; name : string; args : option string }.

Inductive PolicyExpr :=
| Authenticated
| HasRole (name : string)
| HasPermission (perm : string)
| Atom (atom : PolicyAtom)
| And (terms : list PolicyExpr)
| Or (terms : list PolicyExpr)
| Not (inner : PolicyExpr).

Section ExprInd.
Variable P : PolicyExpr -> Prop.
Hypothesis H_auth : P Authenticated.
Hypothesis H_role : forall n, P (HasRole n).
Hypothesis H_perm : forall p, P (HasPermission p).
Hypothesis H_atom : forall a, P (Atom a).
Hypothesis H_and : forall ts, Forall P ts -> P (And ts).
Hypothesis H_or : forall ts, Forall P ts -> P (Or ts).
Hypothesis H_not : forall i, P i -> P (Not i).

Fixpoint policy_ind (e : PolicyExpr) : P e :=
  let fix go (ts : list PolicyExpr) : Forall P ts :=
    match ts with
    | [] => @List.Forall_nil _ P
    | t :: ts => @List.Forall_cons _ P t ts (policy_ind t) (go ts)
    end in
  match e with
  | Authenticated => H_auth
  | HasRole n => H_role n
  | HasPermission p => H_perm p
  | Atom a => H_atom a
  | And ts => H_and ts (go ts)
  | Or ts => H_or ts (go ts)
  | Not i => H_not i (policy_ind i)
  end.
End ExprInd.
End ir.

(** [lazuli_ir/src/nodes/command_p2.rs] *)
Inductive PolicyRef :=
| RLocal (name : string)
| RAtom (atom : string)
| RExternal (feature name : string)
| RUnresolved (raw : string)
| RNone.

(** [lazuli_ir/src/nodes/test_and_policy.rs]; field policies, rename history,
    denial messages and routes are not read by the modelled passes. *)
Record ConditionalPolicyAtom := { ca_atom : string; ca_when : EvalPredicate }.
Record PolicyCategory := {
  pc_name : string;
  pc_atoms : list string;
  pc_conditional_atoms : list ConditionalPolicyAtom
}.
Record Policies := { categories : list PolicyCategory }.

(** Induction over expressions with their argument lists. *)
Section ExprInd.
Variable P : Expr -> Prop.
Hypothesis H_path : forall p, P (EPath p).
Hypothesis H_string : forall s, P (EString s).
Hypothesis H_int : forall n, P (EInteger n).
Hypothesis H_bool : forall b, P (EBoolean b).
Hypothesis H_enum : forall e, P (EEnum e).
Hypothesis H_nil : P ENil.
Hypothesis H_call : forall f args, Forall P args -> P (EFnCall f args).

Fixpoint Expr_ind' (e : Expr) : P e :=
  let fix go (es : list Expr) : Forall P es :=
    match es with
    | [] => @List.Forall_nil _ P
    | x :: es => @List.Forall_cons _ P x es (Expr_ind' x) (go es)
    end in
  match e with
  | EPath p => H_path p
  | EString s => H_string s
  | EInteger n => H_int n
  | EBoolean b => H_bool b
  | EEnum e => H_enum e
  | ENil => H_nil
  | EFnCall f args => H_call f args (go args)
  end.
End ExprInd.
