(* ===== verification/Expr.v ===== *)
(** Expression lowering ([lazuli_analyzer/src/expr.rs]) and the closed predicate
    subset ([parse_closed_predicate] in [lazuli_analyzer/src/agent.rs]). *)
From S2P Require Import Prelude Str Fmt Helpers Ir.

(** * Names and paths *)

Definition lower_qualified_name (text : string) : QualifiedName :=
  let trimmed := trim text in
  match split_once "." trimmed with
  | Some (feature, name) => {| qn_feature := Some feature; qn_name := name |}
  | None => {| qn_feature := None; qn_name := trimmed |}
  end.

Definition lower_path_string (text : string) : Path :=
  let head := match split_char "," text with h :: _ => h | [] => text end in
  {| segments := List.filter nonempty (List.map trim (split_char "." head)) |}.

Definition lower_policy_atom (atom : string) : PolicyRef :=
  match strip_prefix "@" atom with
  | Some rest => RAtom rest
  | None => RLocal atom
  end.

(** * Literals *)

(** [text.strip_prefix('"').and_then(|s| s.strip_suffix('"'))] *)
Definition unquote (text : string) : option string :=
  rest ← strip_prefix (String DQ "") text; strip_suffix (String DQ "") rest.

(** The literal shapes [lower_raw_expr] and [expr_from_text] try first. *)
Definition literal_of (text : string) : option Expr :=
  match unquote text with
  | Some s => Some (EString s)
  | None =>
    match parse_i64 text with
    | Some n => Some (EInteger n)
    | None =>
      if text =? "true" then Some (EBoolean true)
      else if text =? "false" then Some (EBoolean false)
      else if text =? "nil" then Some ENil
      else None
    end
  end.

Definition expr_from_text (text : string) : Expr :=
  let text := trim text in
  match literal_of text with
  | Some e => e
  | None => EPath {| segments := split_char "." text |}
  end.

(** * Function calls *)

Definition push_part (cur : string) (rest : list string) : list string :=
  let part := trim cur in if part =? "" then rest else part :: rest.

(** [split_fn_call_args]; [cur] is [input[start..i]]. *)
Fixpoint split_args_go (depth : nat) (in_quote : bool) (cur s : string) : list string :=
  match s with
  | "" => push_part cur []
  | String b r =>
    let cur' := cur +:+ String b "" in
    if b =a? DQ then split_args_go depth (negb in_quote) cur' r
    else if in_quote then split_args_go depth in_quote cur' r
    else if b =a? "(" then split_args_go (S depth) in_quote cur' r
    else if b =a? ")" then split_args_go (depth - 1) in_quote cur' r
    else if (b =a? ",") && (depth =? 0)%nat then push_part cur (split_args_go depth in_quote "" r)
    else split_args_go depth in_quote cur' r
  end.
Definition split_fn_call_args (input : string) : list string := split_args_go 0 false "" input.

Section Lower.
(** [rec] lowers the arguments. *)
Variable rec : string -> Expr.

Definition parse_fn_call_expr (text : string) : option Expr :=
  rest ← strip_prefix "@fn." text;
  match str_find "(" rest with
  | None =>
    let name := trim rest in
    if (name =? "") || contains "." name then None
    else Some (EFnCall {| qn_feature := None; qn_name := name |} [])
  | Some paren_idx =>
    if negb (ends_with ")" rest) then None else
    let name_text := str_take paren_idx rest in
    let after := str_drop paren_idx rest in
    let inside := slice 1 (str_len after - 1) after in
    let name := trim name_text in
    if name =? "" then None else
    let args := if trim inside =? "" then [] else List.map rec (split_fn_call_args inside) in
    Some (EFnCall {| qn_feature := None; qn_name := name |} args)
  end.

Definition lower_step (text : string) : Expr :=
  let trimmed := trim text in
  match literal_of trimmed with
  | Some e => e
  | None =>
    match parse_fn_call_expr trimmed with
    | Some e => e
    | None => EPath {| segments := List.map trim (split_char "." trimmed) |}
    end
  end.
End Lower.

(** [lower_raw_expr]: the recursion goes through ever shorter argument texts;
    [lower_raw_expr_unfold] shows the fuel is never exhausted. *)
Fixpoint lower_fuel (fuel : nat) (text : string) : Expr :=
  lower_step (match fuel with O => fun _ => ENil | S fuel => lower_fuel fuel end) text.
Definition lower_raw_expr (text : string) : Expr := lower_fuel (str_len text) text.

(** * Closed predicates *)

(** The operators in the order [parse_closed_predicate] tries them. *)
Definition predicate_ops : list (string * CompareOp) :=
  [("<=", Le); (">=", Ge); ("!=", Ne); ("<", Lt_); (">", Gt_); ("==", Eq_)].

(** [None] is the panic of [find_top_level_operator]. *)
Fixpoint closed_predicate_go (text trimmed : string) (ops : list (string * CompareOp))
    : option EvalPredicate :=
  match ops with
  | [] => Some (Unparsed text)
  | (token, op) :: ops =>
    found ← find_top_level_operator trimmed token;
    match found with
    | None => closed_predicate_go text trimmed ops
    | Some idx =>
      let lhs := trim (str_take idx trimmed) in
      let rhs := trim (str_drop (idx + str_len token) trimmed) in
      if (lhs =? "") || (rhs =? "") then Some (Unparsed text)
      else Some (Closed (Comparison (expr_from_text lhs) op (expr_from_text rhs)))
    end
  end.
Definition parse_closed_predicate (text : string) : option EvalPredicate :=
  closed_predicate_go text (trim text) predicate_ops.

(** * Lemmas *)

(** ** The recursion of [lower_raw_expr] *)

Lemma len_trim s : str_len (trim s) <= str_len s.
Proof. unfold trim. etransitivity; [apply len_trim_end|apply len_trim_start]. Qed.

Lemma push_part_len cur rest n :
  str_len cur <= n -> Forall (fun p => str_len p <= n) rest -> Forall (fun p => str_len p <= n) (push_part cur rest).
Proof.
  intros Hc Hr. unfold push_part. destruct (trim cur =? ""); [done|]. constructor; [|done].
  pose proof (len_trim cur). lia.
Qed.

Lemma split_args_len depth q cur s :
  Forall (fun p => str_len p <= str_len cur + str_len s) (split_args_go depth q cur s).
Proof.
  revert depth q cur. induction s as [|b s IH]; intros depth q cur; cbn [split_args_go].
  - apply push_part_len; [simpl; lia|constructor].
  - assert (H : forall d q', Forall (fun p => str_len p <= str_len cur + str_len (String b s))
                        (split_args_go d q' (cur +:+ String b "") s)).
    { intros d q'. eapply List.Forall_impl; [|apply IH]. intros p Hp. rewrite len_app in Hp. simpl in *. lia. }
    repeat case_match; auto. apply push_part_len; [simpl; lia|].
    eapply List.Forall_impl; [|apply IH]. intros p Hp. simpl in *. lia.
Qed.

Lemma lower_step_ext rec rec' text :
  (forall t, str_len t < str_len text -> rec t = rec' t) -> lower_step rec text = lower_step rec' text.
Proof.
  intros H. unfold lower_step. destruct (literal_of (trim text)); [done|].
  enough (parse_fn_call_expr rec (trim text) = parse_fn_call_expr rec' (trim text)) as -> by done.
  unfold parse_fn_call_expr. pose proof (len_trim text) as Hl.
  destruct (strip_prefix "@fn." (trim text)) as [rest|] eqn:E; simpl; [|done].
  apply strip_prefix_Some in E. rewrite E, len_app in Hl. simpl in Hl.
  destruct (str_find "(" rest) as [i|] eqn:Ei; [|done]. destruct (negb (ends_with ")" rest)); [done|].
  destruct (trim (str_take i rest) =? ""); [done|]. do 2 f_equal.
  destruct (_ =? ""); [done|]. apply List.map_ext_in. intros t Ht. apply H.
  unfold split_fn_call_args in Ht.
  pose proof (split_args_len 0 false "" (slice 1 (str_len (str_drop i rest) - 1) (str_drop i rest))) as Hf.
  rewrite List.Forall_forall in Hf. apply Hf in Ht. unfold slice in Ht.
  rewrite len_take, !len_drop in Ht. simpl in Ht. lia.
Qed.

Lemma lower_fuel_enough f f' text :
  str_len text <= f -> str_len text <= f' -> lower_fuel f text = lower_fuel f' text.
Proof.
  revert f' text. induction f as [|f IH]; intros [|f'] text H H'; [done| | |]; cbn [lower_fuel];
    apply lower_step_ext; intros t Ht; try lia. apply IH; lia.
Qed.

Lemma lower_raw_expr_eq text : lower_raw_expr text = lower_step lower_raw_expr text.
Proof.
  unfold lower_raw_expr at 1. destruct (str_len text) as [|n] eqn:E; cbn [lower_fuel];
    apply lower_step_ext; intros t Ht; [lia|]. apply lower_fuel_enough; lia.
Qed.

(** ** The surface form of an expression *)

(** How an author writes an expression. *)
Fixpoint show_expr (e : Expr) : string :=
  match e with
  | EPath p => join "." (segments p)
  | EString s => quoted s
  | EInteger n => show_Z n
  | EBoolean b => if b then "true" else "false"
  | EEnum _ => ""
  | ENil => "nil"
  | EFnCall f args => "@fn." +:+ qn_name f +:+ "(" +:+ join ", " (List.map show_expr args) +:+ ")"
  end.

Definition ident_start (b : byte) : bool := is_ascii_alphabetic b || (b =a? "_").
Definition ident_char (b : byte) : bool := is_ascii_alphanumeric b || (b =a? "_").
Definition ident (s : string) : bool :=
  match s with String a r => ident_start a && str_all ident_char r | "" => false end.

Definition reserved (s : string) : bool := (s =? "true") || (s =? "false") || (s =? "nil").

(** Expressions the surface syntax can spell: identifiers in paths and calls,
    no double quote inside a string, integers in range.  (Enum literals have no
    spelling of their own here.) *)
Fixpoint spellable (e : Expr) : bool :=
  match e with
  | EPath p =>
    nonempty (join "." (segments p)) && forallb ident (segments p) &&
    negb (reserved (join "." (segments p)))
  | EString s => str_all (fun b => negb (b =a? DQ)) s
  | EInteger n => in_i64 n
  | EBoolean _ => true
  | EEnum _ => false
  | ENil => true
  | EFnCall f args =>
    match qn_feature f with None => true | Some _ => false end &&
    ident (qn_name f) && forallb spellable args
  end.

(** Text the argument splitter copies, at any depth from [k] on. *)
Definition inert (k : nat) (x : string) : Prop :=
  forall d, k <= d -> forall cur r,
  split_args_go d false cur (x +:+ r) = split_args_go d false (cur +:+ x) r.

Lemma inert_nil k : inert k "".
Proof. intros d _ cur r. by rewrite sapp_nil_r. Qed.

Lemma inert_app k x y : inert k x -> inert k y -> inert k (x +:+ y).
Proof. intros Hx Hy d Hd cur r. by rewrite sapp_assoc, Hx, Hy, sapp_assoc. Qed.

Lemma inert_weaken k k' x : k <= k' -> inert k x -> inert k' x.
Proof. intros Hk Hx d Hd. apply Hx. lia. Qed.

Definition neutral (b : byte) : bool :=
  negb ((b =a? DQ) || (b =a? "(") || (b =a? ")") || (b =a? ",")).

Lemma inert_neutral k s : str_all neutral s = true -> inert k s.
Proof.
  induction s as [|b s IH]; [intros; apply inert_nil|]. cbn [str_all]. intros H. bool_prop.
  intros d Hd cur r. cbn [String.append split_args_go]. unfold neutral in H.
  apply negb_true_iff, orb_false_iff in H as [H Hc]. apply orb_false_iff in H as [H Hr].
  apply orb_false_iff in H as [Hq Hl]. rewrite Hq, Hl, Hr, Hc. cbn [andb]. rewrite IH by done. by rewrite sapp_assoc.
Qed.

Lemma inert_comma : inert 1 ", ".
Proof.
  intros [|d] Hd cur r; [lia|]. cbn. by rewrite sapp_assoc.
Qed.

Lemma inert_parens k x : inert 1 x -> inert k ("(" +:+ x +:+ ")").
Proof.
  intros Hx d Hd cur r. cbn [String.append split_args_go]. cbn -[split_args_go].
  rewrite sapp_assoc, Hx by lia. cbn. by rewrite Nat.sub_0_r, !sapp_assoc.
Qed.

Lemma inert_quoted k s : str_all (fun b => negb (b =a? DQ)) s = true -> inert k (quoted s).
Proof.
  intros Hs d Hd cur r. unfold quoted. cbn [String.append split_args_go]. rewrite Ascii.eqb_refl.
  cbn [negb]. rewrite sapp_assoc.
  assert (H : forall cur r, split_args_go d true cur (s +:+ r) = split_args_go d true (cur +:+ s) r).
  { clear -Hs. induction s as [|b s IH]; intros cur r; [by rewrite sapp_nil_r|].
    cbn [str_all] in Hs. bool_prop. cbn [String.append split_args_go]. rewrite H, IH by done.
    by rewrite sapp_assoc. }
  rewrite H. cbn [String.append split_args_go]. rewrite Ascii.eqb_refl. cbn [negb].
  by rewrite !sapp_assoc.
Qed.

Lemma inert_join k l : inert k ", " -> Forall (inert k) l -> inert k (join ", " l).
Proof.
  intros Hc. induction 1 as [|x l Hx Hl IH]; [apply inert_nil|].
  destruct l as [|y l]; [done|]. rewrite join_cons by done. by repeat apply inert_app.
Qed.

Lemma ident_chars s : ident s = true -> str_all ident_char s = true /\ s <> "".
Proof.
  destruct s as [|a r]; simpl; [done|]. intros H. bool_prop. split; [|done].
  apply andb_true_iff. split; [|done]. unfold ident_start, ident_char, is_ascii_alphanumeric in *.
  by destruct (is_ascii_alphabetic a), (is_ascii_digit a), (a =a? "_").
Qed.

Lemma ident_edges s : ident s = true -> edges_ok s = true.
Proof.
  intros [H1 H2]%ident_chars. eapply str_all_edges; [|done..]. intros b. by_bytes b.
Qed.

Lemma ident_lacks_dot s : ident s = true -> lacks "." s.
Proof. intros [H _]%ident_chars. eapply str_all_impl; [|done]. intros b. by_bytes b. Qed.

Lemma str_all_join p sep l :
  str_all p sep = true -> Forall (fun s => str_all p s = true) l -> str_all p (join sep l) = true.
Proof.
  intros Hs. induction 1 as [|x l Hx Hl IH]; [done|].
  destruct l as [|y l]; [done|]. by rewrite join_cons, !str_all_app, Hx, Hs, IH.
Qed.

Lemma join_edges sep l : l <> [] -> Forall (fun s => edges_ok s = true) l -> edges_ok (join sep l) = true.
Proof.
  intros Hne. induction 1 as [|x l Hx Hl IH]; [done|].
  destruct l as [|y l]; [done|]. rewrite join_cons by done. apply edges_ok_mid; [done|]. by apply IH.
Qed.

Definition path_char (b : byte) : bool := ident_char b || (b =a? ".").

Lemma path_text segs : forallb ident segs = true ->
  Forall (fun s => ident s = true) segs /\ str_all path_char (join "." segs) = true.
Proof.
  rewrite List.forallb_forall, <- List.Forall_forall. intros H. split; [done|].
  apply str_all_join; [done|]. eapply List.Forall_impl; [|done]. intros s [Hs _]%ident_chars.
  eapply str_all_impl; [|done]. intros b Hb. unfold path_char. by rewrite Hb.
Qed.

Lemma show_Z_chars n : str_all (fun b => is_ascii_digit b || (b =a? "-")) (show_Z n) = true.
Proof.
  assert (H : forall m, str_all (fun b => is_ascii_digit b || (b =a? "-")) (show_N m) = true).
  { intros m. eapply str_all_impl; [|apply show_N_digits]. intros b. by_bytes b. }
  unfold show_Z. case_match; [|apply H]. cbn [String.append str_all]. by rewrite H.
Qed.

Lemma show_Z_ne n : show_Z n <> "".
Proof.
  unfold show_Z. case_match; [done|]. by destruct (show_N_cons (Z.to_N n)) as (b & r & -> & _).
Qed.

Lemma quoted_edges s : edges_ok (quoted s) = true.
Proof.
  apply edges_ok_iff. split; [by exists DQ, (s +:+ String DQ "")|by exists (String DQ s), DQ].
Qed.

Lemma show_edges e : spellable e = true -> edges_ok (show_expr e) = true.
Proof.
  destruct e as [p|s|n|[]|en| |f args]; cbn [spellable show_expr]; intros H; bool_prop; try done.
  - apply path_text in H1 as [H1 _]. apply join_edges.
    + intros E. by rewrite E in H.
    + eapply List.Forall_impl; [|done]. apply ident_edges.
  - apply quoted_edges.
  - eapply str_all_edges; [|apply show_Z_ne|apply show_Z_chars]. intros b. by_bytes b.
  - apply edges_ok_iff. split; [by eexists _, _|].
    exists ("@fn." +:+ qn_name f +:+ "(" +:+ join ", " (List.map show_expr args)), ")"%char.
    by rewrite !sapp_assoc.
Qed.

Lemma show_inert e : spellable e = true -> inert 0 (show_expr e).
Proof.
  induction e as [p|s|n|[]|en| |f args IH] using Expr_ind'; cbn [spellable show_expr]; intros H; bool_prop;
    try (by apply inert_neutral).
  - apply path_text in H1 as [_ H1]. apply inert_neutral. eapply str_all_impl; [|done]. intros b. by_bytes b.
  - by apply inert_quoted.
  - apply inert_neutral. eapply str_all_impl; [|apply show_Z_chars]. intros b. by_bytes b.
  - apply inert_app; [by apply inert_neutral|]. apply inert_app.
    + apply ident_chars in H1 as [H1 _]. apply inert_neutral. eapply str_all_impl; [|done]. intros b. by_bytes b.
    + apply inert_parens, inert_join; [apply inert_comma|].
      rewrite List.forallb_forall in H0. apply List.Forall_map.
      rewrite List.Forall_forall in IH |- *. intros x Hx. apply (inert_weaken 0); [lia|]. auto.
Qed.

(** Splitting the printed argument list gives the arguments back. *)
Lemma split_args_join l cur : l <> [] -> (cur = "" \/ cur = " ") ->
  Forall (fun x => inert 0 x /\ edges_ok x = true) l ->
  split_args_go 0 false cur (join ", " l) = l.
Proof.
  intros Hne Hcur Hl. revert cur Hcur Hne. induction Hl as [|x l [Hx He] Hl IH]; intros cur Hcur Hne; [done|].
  assert (Hp : forall rest, push_part (cur +:+ x) rest = x :: rest).
  { intros rest. unfold push_part. replace (trim (cur +:+ x)) with x.
    - by destruct x.
    - symmetry. destruct Hcur as [-> | ->]; [by apply trim_edges|by apply trim_space_edges]. }
  destruct l as [|y l].
  - cbn [join]. rewrite <- (sapp_nil_r x) at 1. rewrite Hx by lia. apply Hp.
  - rewrite join_cons by done. rewrite Hx by lia. cbn [String.append split_args_go]. cbn -[split_args_go push_part join].
    rewrite Hp. f_equal. by apply IH; [right|].
Qed.

Lemma literal_of_word s : unquote s = None -> parse_i64 s = None -> reserved s = false -> literal_of s = None.
Proof.
  unfold literal_of, reserved. intros -> -> H. apply orb_false_iff in H as [H ->].
  apply orb_false_iff in H as [-> ->]. done.
Qed.

Lemma unquote_head b r : (b =a? DQ) = false -> unquote (String b r) = None.
Proof.
  intros H. unfold unquote. destruct (strip_prefix _ _) as [t|] eqn:E; [|done].
  apply strip_prefix_Some in E. simpl in E. injection E as -> _. by rewrite Ascii.eqb_refl in H.
Qed.

Lemma lower_step_word rec s b r : s = String b r ->
  (ident_start b || (b =a? "@")) = true -> edges_ok s = true -> reserved s = false ->
  lower_step rec s =
  match parse_fn_call_expr rec s with
  | Some e => e
  | None => EPath {| segments := List.map trim (split_char "." s) |}
  end.
Proof.
  intros -> Hb He Hr. unfold lower_step. rewrite trim_edges by done. rewrite literal_of_word; [done|..|done].
  - apply unquote_head. revert Hb. by_bytes b.
  - apply parse_i64_head; revert Hb; by_bytes b.
Qed.

Lemma unquote_quoted s : unquote (quoted s) = Some s.
Proof.
  unfold unquote, quoted. change (String DQ (s +:+ String DQ "")) with (String DQ "" +:+ (s +:+ String DQ "")).
  rewrite strip_prefix_app. simpl. by apply strip_suffix_Some.
Qed.

Lemma show_Z_unquote n : unquote (show_Z n) = None.
Proof.
  pose proof (show_Z_chars n) as H. destruct (show_Z n) as [|b r]; [done|]. cbn [str_all] in H. bool_prop.
  apply unquote_head. revert H. by_bytes b.
Qed.

Lemma str_find_byte c a r : lacks c a -> str_find (String c "") (a +:+ String c r) = Some (str_len a).
Proof.
  induction a as [|b a IH]; cbn [str_all String.append]; intros H.
  - simpl. by rewrite Ascii.eqb_refl.
  - bool_prop. cbn [str_find starts_with]. rewrite Ascii.eqb_sym, H. cbn [andb].
    by rewrite IH.
Qed.

Lemma parse_fn_call_shown rec name l :
  ident name = true -> Forall (fun x => inert 0 x /\ edges_ok x = true) l ->
  parse_fn_call_expr rec ("@fn." +:+ name +:+ "(" +:+ join ", " l +:+ ")") =
  Some (EFnCall {| qn_feature := None; qn_name := name |} (List.map rec l)).
Proof.
  intros Hn Hl. unfold parse_fn_call_expr. rewrite strip_prefix_app. cbn [mbind option_bind].
  set (body := join ", " l).
  assert (Hlack : lacks "(" name).
  { apply ident_chars in Hn as [Hn _]. eapply str_all_impl; [|done]. intros b. by_bytes b. }
  change ("(" +:+ body +:+ ")") with (String "(" (body +:+ ")")). rewrite str_find_byte by done.
  replace (ends_with ")" (name +:+ String "(" (body +:+ ")"))) with true.
  2: { symmetry. apply ends_with_strip. exists (name +:+ String "(" body). by rewrite sapp_assoc. }
  cbn [negb]. rewrite take_app, drop_app, (trim_edges name) by (by apply ident_edges).
  replace (name =? "") with false by (by destruct name).
  assert (Hin : slice 1 (str_len (String "(" (body +:+ ")")) - 1) (String "(" (body +:+ ")")) = body).
  { rewrite len_cons, len_app. simpl str_len.
    replace (S (str_len body + 1) - 1) with (str_len "(" + str_len body) by (simpl; lia).
    apply (slice_app "(" body ")"). }
  rewrite Hin. do 2 f_equal. destruct l as [|x l].
  - done.
  - assert (He : edges_ok body = true).
    { apply join_edges; [done|]. eapply List.Forall_impl; [|done]. by intros ? []. }
    rewrite trim_edges by done. replace (body =? "") with false by (by destruct body).
    unfold split_fn_call_args, body. rewrite split_args_join by auto. done.
Qed.

(** ** Predicates *)

Definition op_token (op : CompareOp) : string :=
  match op with Eq_ => "==" | Ne => "!=" | Lt_ => "<" | Le => "<=" | Gt_ => ">" | Ge => ">=" end.

(** Bytes no operator starts with, outside quotes and multi-byte characters. *)
Definition op_free (b : byte) : bool :=
  negb (b =a? DQ) && negb (is_cont b) &&
  negb (existsb (fun p => starts_with (String b "") p.1) predicate_ops).

Definition is_op (tok : string) : Prop := In tok (List.map fst predicate_ops).

Lemma op_free_start tok b r : is_op tok -> op_free b = true -> starts_with tok (String b r) = false.
Proof.
  intros Ht Hb. unfold op_free in Hb. bool_prop. unfold predicate_ops in H0. simpl in H0. bool_prop.
  unfold is_op in Ht. simpl in Ht.
  rewrite !andb_true_r in *. repeat destruct Ht as [<-|Ht]; try done; cbn [starts_with];
    rewrite (Ascii.eqb_sym _ b); by (rewrite H0 || rewrite H2 || rewrite H3 || rewrite H4 || rewrite H5 || rewrite H6).
Qed.

Lemma operator_go_skip tok i x r : is_op tok -> str_all op_free x = true ->
  operator_go tok false i (x +:+ r) = operator_go tok false (i + str_len x) r.
Proof.
  intros Ht. revert i. induction x as [|b x IH]; intros i Hx; [by rewrite Nat.add_0_r|].
  cbn [str_all] in Hx. bool_prop. cbn [String.append operator_go char_start].
  rewrite op_free_start by done. unfold op_free in H. bool_prop. rewrite H, H2. cbn [negb].
  rewrite IH by done. f_equal. simpl. lia.
Qed.

Lemma operator_go_quoted tok i s : str_all (fun b => negb (b =a? DQ)) s = true ->
  operator_go tok false i (quoted s) = Some None.
Proof.
  intros Hs. unfold quoted. cbn [operator_go]. rewrite Ascii.eqb_refl. cbn [negb]. generalize (S i).
  induction s as [|b s IH]; intros k; cbn [String.append operator_go].
  - by rewrite Ascii.eqb_refl.
  - cbn [str_all] in Hs. bool_prop. rewrite H. by apply IH.
Qed.

(** The right-hand sides a closed comparison may have. *)
Definition literal (e : Expr) : bool :=
  match e with EString _ | EInteger _ | EBoolean _ | ENil => spellable e | _ => false end.

Lemma operator_go_literal tok i e : is_op tok -> literal e = true ->
  operator_go tok false i (show_expr e) = Some None.
Proof.
  intros Ht He.
  assert (H : forall x, str_all op_free x = true -> operator_go tok false i x = Some None).
  { intros x Hx. rewrite <- (sapp_nil_r x), operator_go_skip by done. done. }
  destruct e as [p|s|n|[]|en| |f args]; try done; cbn [literal spellable show_expr] in *.
  - by apply operator_go_quoted.
  - apply H. eapply str_all_impl; [|apply show_Z_chars]. intros b. by_bytes b.
  - by apply H.
  - by apply H.
  - by apply H.
Qed.

Lemma literal_of_show e : literal e = true -> literal_of (show_expr e) = Some e.
Proof.
  destruct e as [p|s|n|[]|en| |f args]; try done; cbn [literal spellable show_expr]; intros H.
  - unfold literal_of. by rewrite unquote_quoted.
  - unfold literal_of. by rewrite show_Z_unquote, parse_show_Z.
Qed.

Lemma literal_edges e : literal e = true -> edges_ok (show_expr e) = true.
Proof. intros H. apply show_edges. by destruct e. Qed.

Lemma expr_from_path p : spellable (EPath p) = true -> expr_from_text (show_expr (EPath p)) = EPath p.
Proof.
  intros H. unfold expr_from_text. rewrite trim_edges by (by apply show_edges). cbn [spellable show_expr] in *.
  bool_prop. destruct p as [segs]. cbn [segments] in *. destruct (path_text segs) as [Hs Hc]; [done|].
  destruct segs as [|[|x g] segs]; [done|by apply List.Forall_inv in Hs|].
  pose proof (List.Forall_inv Hs) as Hx. simpl in Hx. bool_prop.
  rewrite literal_of_word; [|..|done].
  - do 2 f_equal. apply split_join. eapply List.Forall_impl; [|exact Hs]. apply ident_lacks_dot.
  - destruct segs; cbn [join String.append]; apply unquote_head; revert H2; by_bytes x.
  - destruct segs; cbn [join String.append]; apply parse_i64_head; revert H2; by_bytes x.
Qed.

(** Scanning [x OP t] for a token stops at the operator, if it is the token. *)
Lemma find_operator_text tok op x t : is_op tok -> str_all op_free x = true -> (forall i, operator_go tok false i t = Some None) ->
  find_top_level_operator (x +:+ " " +:+ op_token op +:+ " " +:+ t) tok =
  Some (if starts_with tok (op_token op +:+ " ") then Some (str_len x + 1) else None).
Proof.
  intros Ht Hx Hlit. unfold find_top_level_operator. rewrite operator_go_skip by done. generalize (str_len x). intros n.
  unfold is_op in Ht. simpl in Ht.
  destruct op; repeat destruct Ht as [<-|Ht]; try done; cbn; rewrite ?Hlit; try done; by rewrite Nat.add_1_r.
Qed.

Lemma find_operator_comparison tok op x e : is_op tok -> str_all op_free x = true -> literal e = true ->
  find_top_level_operator (x +:+ " " +:+ op_token op +:+ " " +:+ show_expr e) tok =
  Some (if starts_with tok (op_token op +:+ " ") then Some (str_len x + 1) else None).
Proof. intros Ht Hx He. apply find_operator_text; [done..|]. intros i. by apply operator_go_literal. Qed.

(** * Properties *)

(** [lower_raw_expr] satisfies the recursion the source writes, for every text:
    the call on each argument is on a shorter text. *)
Theorem lower_raw_expr_unfold text : lower_raw_expr text = lower_step lower_raw_expr text.
Proof. apply lower_raw_expr_eq. Qed.

(** Round trip: lowering the spelling of an expression gives the expression
    back, nested calls and quoted commas included. *)
Theorem lower_raw_expr_roundtrip e : spellable e = true -> lower_raw_expr (show_expr e) = e.
Proof.
  induction e as [p|s|n|b|en| |f args IH] using Expr_ind'; intros H; rewrite lower_raw_expr_eq;
    pose proof (show_edges _ H) as He; cbn [spellable show_expr] in *.
  - bool_prop. destruct p as [segs]. cbn [segments] in *. destruct (path_text segs) as [Hs Hc]; [done|].
    destruct (join "." segs) as [|b r] eqn:E; [done|].
    assert (Hb : ident_start b = true).
    { destruct segs as [|[|x g] segs]; [done|by apply List.Forall_inv in Hs|].
      apply List.Forall_inv in Hs. simpl in Hs. bool_prop. destruct segs; simpl in E; by injection E as <- _. }
    rewrite (lower_step_word _ _ b r) by (done || by rewrite Hb).
    unfold parse_fn_call_expr. replace (strip_prefix "@fn." (String b r)) with (@None string).
    2: { symmetry. destruct (strip_prefix _ _) as [t|] eqn:E'; [|done]. apply strip_prefix_Some in E'.
         simpl in E'. injection E' as -> _. done. }
    cbn [mbind option_bind]. do 2 f_equal. rewrite <- E.
    replace (split_char "." (join "." segs)) with segs.
    2: { symmetry. destruct segs as [|g segs]; [done|]. apply split_join.
         eapply List.Forall_impl; [|exact Hs]. apply ident_lacks_dot. }
    rewrite <- (List.map_id segs) at 2. apply List.map_ext_in. intros g Hg. apply trim_edges, ident_edges.
    rewrite List.Forall_forall in Hs. auto.
  - unfold lower_step, literal_of. rewrite trim_edges, unquote_quoted by done. done.
  - unfold lower_step, literal_of. rewrite trim_edges, show_Z_unquote, parse_show_Z by done. done.
  - by destruct b.
  - done.
  - done.
  - bool_prop. destruct f as [[?|] name]; cbn [qn_feature qn_name] in *; [done|].
    rewrite (lower_step_word _ _ "@" ("fn." +:+ name +:+ "(" +:+ join ", " (List.map show_expr args) +:+ ")")) by done.
    rewrite List.forallb_forall in H0. rewrite List.Forall_forall in IH.
    rewrite parse_fn_call_shown; [|done|].
    + f_equal. rewrite List.map_map. etransitivity; [|apply List.map_id].
      apply List.map_ext_in. intros x Hx. by rewrite IH by auto.
    + apply List.Forall_map, List.Forall_forall. intros x Hx. split; [apply show_inert|apply show_edges]; auto.
Qed.

Lemma lower_raw_expr_roundtrip_witness :
  lower_raw_expr (show_expr
    (EFnCall {| qn_feature := None; qn_name := "mask" |}
       [EPath {| segments := ["input"; "email"] |}; EString "a,b";
        EFnCall {| qn_feature := None; qn_name := "now" |} [EInteger (-3)]])) =
  EFnCall {| qn_feature := None; qn_name := "mask" |}
       [EPath {| segments := ["input"; "email"] |}; EString "a,b";
        EFnCall {| qn_feature := None; qn_name := "now" |} [EInteger (-3)]].
Proof. apply lower_raw_expr_roundtrip. reflexivity. Defined.

(** A comparison [path op literal] parses to the comparison, whatever operator
    characters the quoted literal contains: the order in which the operators are
    tried never mistakes one for another. *)
Theorem parse_closed_predicate_comparison p op e :
  spellable (EPath p) = true -> literal e = true ->
  parse_closed_predicate (show_expr (EPath p) +:+ " " +:+ op_token op +:+ " " +:+ show_expr e) =
  Some (Closed (Comparison (EPath p) op e)).
Proof.
  intros Hp He. pose proof (show_edges _ Hp) as Ex. pose proof (literal_edges _ He) as Ee.
  set (x := show_expr (EPath p)) in *.
  assert (Hx : str_all op_free x = true).
  { unfold x. cbn [spellable show_expr] in *. bool_prop. apply path_text in H1 as [_ H1].
    eapply str_all_impl; [|done]. intros b. by_bytes b. }
  assert (Hlhs : expr_from_text x = EPath p) by (by apply expr_from_path).
  assert (Hrhs : expr_from_text (show_expr e) = e).
  { unfold expr_from_text. by rewrite trim_edges, literal_of_show. }
  clearbody x. unfold parse_closed_predicate.
  rewrite (trim_edges (x +:+ _)).
  2: { apply (edges_ok_mid x (" " +:+ op_token op +:+ " ") (show_expr e)) in Ex; [|done].
       by rewrite !sapp_assoc in Ex. }
  assert (Hsplit : forall tok, tok = op_token op ->
    trim (str_take (str_len x + 1) (x +:+ " " +:+ op_token op +:+ " " +:+ show_expr e)) = x /\
    trim (str_drop (str_len x + 1 + str_len tok) (x +:+ " " +:+ op_token op +:+ " " +:+ show_expr e)) = show_expr e).
  { intros tok ->. replace (str_len x + 1) with (str_len (x +:+ " ")) by (by rewrite len_app).
    rewrite <- (sapp_assoc x " "), take_app, <- drop_drop, !drop_app. split; [by apply trim_edges_space|].
    by apply trim_space_edges. }
  assert (Hne : (x =? "") || (show_expr e =? "") = false).
  { apply orb_false_iff. split; [by destruct x|by destruct (show_expr e)]. }
  generalize (x +:+ " " +:+ op_token op +:+ " " +:+ show_expr e) at 1. intros text.
  destruct op; cbn [closed_predicate_go predicate_ops];
    repeat (rewrite find_operator_comparison by (done || unfold is_op; simpl; tauto); cbn [mbind option_bind];
            match goal with |- context [starts_with ?t ?u] =>
              let b := eval vm_compute in (starts_with t u) in change (starts_with t u) with b end; cbv iota);
    destruct (Hsplit _ eq_refl) as [Hl Hr]; cbn [op_token] in Hl, Hr |- *; rewrite Hl, Hr, Hne, Hlhs, Hrhs; done.
Qed.

Lemma parse_closed_predicate_witness :
  parse_closed_predicate (show_expr (EPath {| segments := ["input"; "scope"] |}) +:+ " " +:+
    op_token Eq_ +:+ " " +:+ show_expr (EString "a <= b")) =
  Some (Closed (Comparison (EPath {| segments := ["input"; "scope"] |}) Eq_ (EString "a <= b"))).
Proof. apply parse_closed_predicate_comparison; reflexivity. Defined.
