(* ===== verification/PolicyCodegen.v ===== *)
(** Policies from the AST to the emitted Go literal: lowering
    ([lazuli_analyzer/src/expr.rs]), the reference parser of
    [lazuli_ir/src/nodes/command_p2.rs], and the Go emitter
    ([lazuli_codegen_go/src/emitter/command/policy.rs]). *)
From S2P Require Import Prelude Str Fmt Lex Policy Ir Expr PolicyRuntime.

(** * Lowering *)

(** [lower_policy_expr] *)
Fixpoint lower_policy_expr (expr : Policy.PolicyExprAst) : ir.PolicyExpr :=
  match expr with
  | Policy.Authenticated => ir.Authenticated
  | Policy.HasRole name => ir.HasRole name
  | Policy.HasPermission perm => ir.HasPermission perm
  | Policy.Atom atom =>
    ir.Atom {| ir.namespace := Policy.namespace atom; ir.name := Policy.name atom;
               ir.args := Policy.args atom |}
  | Policy.And terms => ir.And (List.map lower_policy_expr terms)
  | Policy.Or terms => ir.Or (List.map lower_policy_expr terms)
  | Policy.Not inner => ir.Not (lower_policy_expr inner)
  end.

(** * Conditional reference lists *)

Record ConditionalPolicyRef := { cr_name : string; cr_when : option string }.

(** [split_ref_when]; [search] moves past each [ when ] that has an empty side. *)
Fixpoint split_ref_when_go (fuel : nat) (entry : string) (search : nat) : string * option string :=
  match fuel with
  | O => (trim entry, None)
  | S fuel =>
    match str_find " when " (str_drop search entry) with
    | None => (trim entry, None)
    | Some rel =>
      let idx := search + rel in
      let atom := trim (str_take idx entry) in
      let when_ := trim (str_drop (idx + 6) entry) in
      if nonempty atom && nonempty when_ then (atom, Some when_)
      else split_ref_when_go fuel entry (idx + 6)
    end
  end.
Definition split_ref_when (entry : string) : string * option string :=
  split_ref_when_go (S (str_len entry)) entry 0.

(** [split_top_level_commas]; [cur] is [raw[start..i]]. *)
Fixpoint top_level_commas_go (in_str : bool) (cur s : string) : list string :=
  match s with
  | "" => [cur]
  | String ch r =>
    if ch =a? DQ then top_level_commas_go (negb in_str) (cur +:+ String ch "") r
    else if (ch =a? ",") && negb in_str then cur :: top_level_commas_go in_str "" r
    else top_level_commas_go in_str (cur +:+ String ch "") r
  end.
Definition split_top_level_commas (raw : string) : list string := top_level_commas_go false "" raw.

Definition strip_at (s : string) : string :=
  match strip_prefix "@" s with Some r => r | None => s end.

(** [name.contains(char::is_whitespace)] *)
Fixpoint has_white (s : string) : bool :=
  (0 <? ws_len s)%nat || match s with String _ r => has_white r | "" => false end.

(** One entry of [parse_conditional_policy_refs]. *)
Definition parse_policy_entry (entry : string) : option ConditionalPolicyRef :=
  let trimmed := trim entry in
  if trimmed =? "" then None else
  let '(ref_text, when_text) := split_ref_when trimmed in
  name ← strip_prefix "policy." (strip_at ref_text);
  if (name =? "") || has_white name then None
  else Some {| cr_name := name; cr_when := when_text |}.

Fixpoint parse_policy_entries (entries : list string) : option (list ConditionalPolicyRef) :=
  match entries with
  | [] => Some []
  | entry :: entries =>
    r ← parse_policy_entry entry;
    rs ← parse_policy_entries entries;
    Some (r :: rs)
  end.

Definition parse_conditional_policy_refs (raw : string) : option (list ConditionalPolicyRef) :=
  refs ← parse_policy_entries (split_top_level_commas raw);
  if (2 <=? List.length refs)%nat || existsb (fun r => match cr_when r with Some _ => true | None => false end) refs
  then Some refs else None.

(** * Emitting Go literals *)

(** [escape_string] *)
Fixpoint escape_string (raw : string) : string :=
  match raw with
  | "" => ""
  | String ch r =>
    if ch =a? BSL then String BSL (String BSL (escape_string r))
    else if ch =a? DQ then String BSL (String DQ (escape_string r))
    else String ch (escape_string r)
  end.

(** [{Namespace: .., Name: ..}] from already rendered parts. *)
Definition atom_text (ns nm : string) : string := "{Namespace: " +:+ ns +:+ ", Name: " +:+ nm +:+ "}".
Definition atom_when_text (ns nm w : string) : string :=
  "{Namespace: " +:+ ns +:+ ", Name: " +:+ nm +:+ ", When: " +:+ w +:+ "}".
Definition when_text (path op value_lit : string) : string :=
  "&lazuli.PolicyWhen{Path: " +:+ path +:+ ", Op: " +:+ op +:+ ", Value: " +:+ value_lit +:+ "}".
Definition policy_text (name inner : string) : string :=
  "lazuli.Policy{Name: " +:+ name +:+ ", Atoms: []lazuli.PolicyAtom{" +:+ inner +:+ "}},".
Definition marker_text (nm : string) : string := atom_text (quoted "predicate") (quoted nm).

(** [render_when_literal] *)
Definition render_when_literal (rhs : string) : option string :=
  match unquote rhs with
  | Some inner => Some (debug_str inner)
  | None =>
    if (rhs =? "true") || (rhs =? "false") then Some rhs
    else if rhs =? "nil" then Some "nil"
    else n ← parse_i64 rhs; Some ("int64(" +:+ show_Z n +:+ ")")
  end.

Definition when_tokens : list (string * string) :=
  [("<=", "<="); (">=", ">="); ("!=", "!="); ("==", "="); ("<", "<"); (">", ">")].

(** [render_when_text] *)
Fixpoint render_when_go (trimmed : string) (tokens : list (string * string)) : option string :=
  match tokens with
  | [] => None
  | (token, op_go) :: tokens =>
    match str_find token trimmed with
    | None => render_when_go trimmed tokens
    | Some idx =>
      let lhs := trim (str_take idx trimmed) in
      let rhs := trim (str_drop (idx + str_len token) trimmed) in
      if (lhs =? "") || (rhs =? "") then None
      else
        match lhs with
        | "" => None
        | String c _ =>
          if (c =a? DQ) || is_ascii_digit c then None
          else
            value_lit ← render_when_literal rhs;
            Some (when_text (debug_str lhs) (debug_str op_go) value_lit)
        end
    end
  end.
Definition render_when_text (text : string) : option string := render_when_go (trim text) when_tokens.

(** [format_deny_policy] *)
Definition format_deny_policy (name : string) : string :=
  policy_text (debug_str name) (atom_text (quoted "predicate") (quoted "deny")).

(** [format_builtin_policy] *)
Definition format_builtin_policy (name : string) : option string :=
  if (name =? "public") || (name =? "authenticated") then
    Some (policy_text (quoted ("@policy." +:+ name)) (atom_text (quoted "scope") (quoted name)))
  else None.

(** [builtin_scope_atom] *)
Definition builtin_scope_atom (name : string) : option string :=
  if name =? "public" then Some "public"
  else if name =? "authenticated" then Some "authenticated"
  else None.

(** [splitn(2, '.')], a missing second part read as empty. *)
Definition split_dot (s : string) : string * string :=
  match split_once "." s with
  | Some (ns, nm) => (ns, nm)
  | None => (s, "")
  end.

(** [split_ns_name] *)
Definition split_ns_name (atom : string) : string * string := split_dot (strip_at atom).

(** [render_when_value] *)
Definition render_when_value (e : Expr) : option string :=
  match e with
  | EString s => Some (debug_str s)
  | EInteger n => Some ("int64(" +:+ show_Z n +:+ ")")
  | EBoolean b => Some (if b then "true" else "false")
  | ENil => Some "nil"
  | _ => None
  end.

Definition go_op (op : CompareOp) : string :=
  match op with Eq_ => "=" | Ne => "!=" | Lt_ => "<" | Le => "<=" | Gt_ => ">" | Ge => ">=" end.

(** [render_policy_when] *)
Definition render_policy_when (when_ : EvalPredicate) : option string :=
  match when_ with
  | Closed (Comparison l op r) =>
    '(path, value) ←
      match l, r with
      | EPath p, v => Some (p, v)
      | v, EPath p => Some (p, v)
      | _, _ => None
      end;
    value_lit ← render_when_value value;
    Some (when_text (debug_str (join "." (segments path))) (debug_str (go_op op)) value_lit)
  | _ => None
  end.

(** The closures of [format_local_policy]. *)
Definition render_atom (atom : string) : string :=
  let '(ns, nm) := split_ns_name atom in atom_text (quoted ns) (quoted nm).
Definition render_conditional (atom : string) (when_ : EvalPredicate) : option string :=
  let '(ns, nm) := split_ns_name atom in
  guard ← render_policy_when when_;
  Some (atom_when_text (quoted ns) (quoted nm) guard).

(** [a or b or c], the separator as an atom of its own. *)
Fixpoint intersperse {A} (sep : A) (l : list A) : list A :=
  match l with
  | [] => []
  | [x] => [x]
  | x :: l => x :: sep :: intersperse sep l
  end.

Definition find_category (name : string) (policies : Policies) : option PolicyCategory :=
  List.find (fun c => pc_name c =? name) (categories policies).

(** [format_local_policy] *)
Definition format_local_policy (name : string) (policies : Policies) : option string :=
  category ← find_category name policies;
  let plain_atoms :=
    if (2 <=? List.length (pc_atoms category))%nat then
      ([marker_text "("] ++ intersperse (marker_text "or") (List.map render_atom (pc_atoms category)) ++ [marker_text ")"])%list
    else List.map render_atom (pc_atoms category) in
  let conditional :=
    List.map (fun ca =>
      match render_conditional (ca_atom ca) (ca_when ca) with
      | Some rendered => rendered
      | None => render_atom (ca_atom ca)
      end) (pc_conditional_atoms category) in
  Some (policy_text (quoted ("@policy." +:+ escape_string name)) (join ", " (plain_atoms ++ conditional)%list)).

(** The group of one reference of [format_conditional_policy]: [None] returns
    [None] from the whole function (the [?] on a missing category), [Some None]
    returns [Some(None)]. *)
Definition conditional_group (policies : Policies) (r : ConditionalPolicyRef) : option (option string) :=
  let when_lit := w ← cr_when r; render_when_text w in
  atoms ←
    match builtin_scope_atom (cr_name r) with
    | Some scope => Some [("scope", scope)]
    | None =>
      category ← find_category (cr_name r) policies;
      Some (List.map split_ns_name (pc_atoms category) ++
            List.map (fun ca => split_ns_name (ca_atom ca)) (pc_conditional_atoms category))%list
    end;
  match atoms with
  | [] => Some None
  | _ =>
    let rendered :=
      List.map (fun '(ns, nm) =>
        match when_lit with
        | Some w => atom_when_text (debug_str ns) (debug_str nm) w
        | None => atom_text (debug_str ns) (debug_str nm)
        end) atoms in
    Some (Some (
      if (2 <=? List.length rendered)%nat
      then join ", " ([marker_text "("] ++ intersperse (marker_text "or") rendered ++ [marker_text ")"])%list
      else join ", " rendered))
  end.

Fixpoint conditional_groups (policies : Policies) (refs : list ConditionalPolicyRef)
    : option (option (list string)) :=
  match refs with
  | [] => Some (Some [])
  | r :: refs =>
    g ← conditional_group policies r;
    match g with
    | None => Some None
    | Some g =>
      gs ← conditional_groups policies refs;
      match gs with None => Some None | Some gs => Some (Some (g :: gs)) end
    end
  end.

(** [format_conditional_policy] *)
Definition format_conditional_policy (raw : string) (policies : Policies) : option (option string) :=
  refs ← parse_conditional_policy_refs raw;
  groups ← conditional_groups policies refs;
  match groups with
  | None => Some None
  | Some groups =>
    Some (Some (policy_text (debug_str raw) (join ", " (intersperse (marker_text "or") groups))))
  end.

(** Concatenate, with [sep] before every part but the first. *)
Definition sep_concat {A} (sep : A) (us : list (list A)) : list A :=
  match us with
  | [] => []
  | u :: us => (u ++ flat_map (fun u => sep :: u) us)%list
  end.

(** [walk_policy_expr_atoms] (what it pushes) and [render_policy_expr_atoms] *)
Fixpoint walk_policy_expr_atoms (expr : ir.PolicyExpr) : list string :=
  match expr with
  | ir.Authenticated => [marker_text "authenticated"]
  | ir.HasRole name => [atom_text (quoted "rbac.role") (debug_str name)]
  | ir.HasPermission perm => [atom_text (quoted "rbac.permission") (debug_str perm)]
  | ir.Atom atom => [atom_text (debug_str (ir.namespace atom)) (debug_str (ir.name atom))]
  | ir.And terms =>
    ([marker_text "("] ++ sep_concat (marker_text "and") (List.map walk_policy_expr_atoms terms) ++ [marker_text ")"])%list
  | ir.Or terms =>
    ([marker_text "("] ++ sep_concat (marker_text "or") (List.map walk_policy_expr_atoms terms) ++ [marker_text ")"])%list
  | ir.Not inner => marker_text "not" :: walk_policy_expr_atoms inner
  end.
Definition render_policy_expr_atoms (expr : ir.PolicyExpr) : list string := walk_policy_expr_atoms expr.

(** [write_policy_expr_display] (what it appends) and [policy_expr_display_name] *)
Fixpoint write_policy_expr_display (expr : ir.PolicyExpr) (parenthesize : bool) : string :=
  let paren (s : string) := if parenthesize then "(" +:+ s +:+ ")" else s in
  match expr with
  | ir.Authenticated => "authenticated"
  | ir.HasRole name => "has_role " +:+ name
  | ir.HasPermission perm => "has_permission " +:+ perm
  | ir.Atom atom => "@" +:+ ir.namespace atom +:+ "." +:+ ir.name atom
  | ir.And terms => paren (join " and " (List.map (fun t => write_policy_expr_display t true) terms))
  | ir.Or terms => paren (join " or " (List.map (fun t => write_policy_expr_display t true) terms))
  | ir.Not inner => "not " +:+ write_policy_expr_display inner true
  end.
Definition policy_expr_display_name (expr : ir.PolicyExpr) : string := write_policy_expr_display expr false.

(** [format_policy_with_expr] *)
Definition format_policy_with_expr (policy : PolicyRef) (policy_expr : option ir.PolicyExpr)
    (policies : option Policies) : string :=
  match policy_expr with
  | Some expr =>
    let atoms := render_policy_expr_atoms expr in
    let name := policy_expr_display_name expr in
    match atoms with
    | [] => "lazuli.Policy{Name: " +:+ debug_str name +:+ "},"
    | _ => policy_text (debug_str name) (join ", " atoms)
    end
  | None =>
    let local name := p ← policies; format_local_policy name p in
    let conditional raw := p ← policies; format_conditional_policy raw p in
    match policy with
    | RLocal name =>
      match local name with
      | Some rendered => rendered
      | None =>
        match format_builtin_policy name with
        | Some builtin => builtin
        | None =>
          match conditional name with
          | Some (Some rendered) => rendered
          | Some None => format_deny_policy name
          | None => format_deny_policy ("@policy." +:+ escape_string name)
          end
        end
      end
    | RAtom atom =>
      let stripped := strip_at atom in
      match conditional atom with
      | Some (Some rendered) => rendered
      | Some None => format_deny_policy atom
      | None =>
        match strip_prefix "policy." stripped with
        | Some name =>
          match local name with
          | Some rendered => rendered
          | None =>
            match format_builtin_policy name with
            | Some builtin => builtin
            | None => format_deny_policy ("@policy." +:+ escape_string name)
            end
          end
        | None =>
          let '(ns, nm) := split_dot stripped in
          policy_text (quoted ("@" +:+ stripped)) (atom_text (quoted ns) (quoted nm))
        end
      end
    | RExternal feature name => format_deny_policy (feature +:+ ".policy." +:+ name)
    | RUnresolved raw => "lazuli.Policy{Name: " +:+ quoted (escape_string raw) +:+ "},"
    | RNone => "lazuli.Policy{},"
    end
  end.

(** * The Go values the literals denote *)

Definition go_value_literal (v : GoVal) : string :=
  match v with
  | VString s => debug_str s
  | VInt n => "int64(" +:+ show_Z n +:+ ")"
  | VBool b => if b then "true" else "false"
  | VNil => "nil"
  end.
Definition go_when_literal (w : PolicyWhen) : string :=
  when_text (debug_str (Path_ w)) (debug_str (Op w)) (go_value_literal (Value w)).
Definition go_atom_literal (a : GoAtom) : string :=
  match When a with
  | None => atom_text (debug_str (Namespace a)) (debug_str (Name a))
  | Some w => atom_when_text (debug_str (Namespace a)) (debug_str (Name a)) (go_when_literal w)
  end.
Definition go_policy_literal (p : GoPolicy) : string :=
  policy_text (debug_str (PolicyName p)) (join ", " (List.map go_atom_literal (Atoms p))).

Definition plain_atom (ns nm : string) : GoAtom := {| Namespace := ns; Name := nm; When := None |}.

(** The atoms an expression stands for. *)
Fixpoint flatten (e : ir.PolicyExpr) : list GoAtom :=
  match e with
  | ir.Authenticated => [marker "authenticated"]
  | ir.HasRole name => [plain_atom "rbac.role" name]
  | ir.HasPermission perm => [plain_atom "rbac.permission" perm]
  | ir.Atom a => [plain_atom (ir.namespace a) (ir.name a)]
  | ir.And ts => ([marker "("] ++ sep_concat (marker "and") (List.map flatten ts) ++ [marker ")"])%list
  | ir.Or ts => ([marker "("] ++ sep_concat (marker "or") (List.map flatten ts) ++ [marker ")"])%list
  | ir.Not i => marker "not" :: flatten i
  end.

(** ** What an expression means *)

Section Denote.
Variables hasRole hasPerm : string -> string -> bool.
Variable ctx : Ctx.

(** The boolean reading of a policy expression for an actor. *)
Fixpoint denote (e : ir.PolicyExpr) : bool :=
  match e with
  | ir.Authenticated => signed_in ctx
  | ir.HasRole name => some_role ctx (fun r => hasRole r name)
  | ir.HasPermission perm => some_role ctx (fun r => hasPerm r perm)
  | ir.Atom a => atomMatches hasRole hasPerm ctx (plain_atom (ir.namespace a) (ir.name a))
  | ir.And ts => forallb denote ts
  | ir.Or ts => existsb denote ts
  | ir.Not i => negb (denote i)
  end.
End Denote.

(** No empty conjunction or disjunction, and no atom that spells a runtime
    marker. *)
Fixpoint wf_ir (e : ir.PolicyExpr) : bool :=
  match e with
  | ir.Atom a => negb (ir.namespace a =? "predicate")
  | ir.And ts | ir.Or ts => (1 <=? List.length ts)%nat && forallb wf_ir ts
  | ir.Not i => wf_ir i
  | _ => true
  end.

(** * Lemmas *)

Lemma marker_literal nm : debug_str nm = quoted nm -> go_atom_literal (marker nm) = marker_text nm.
Proof. intros H. unfold go_atom_literal, marker_text. cbn [When marker Namespace Name]. by rewrite H. Qed.

Lemma map_sep_concat {A B} (f : A -> B) sep us :
  List.map f (sep_concat sep us) = sep_concat (f sep) (List.map (List.map f) us).
Proof.
  destruct us as [|u us]; [done|]. cbn [sep_concat List.map]. rewrite List.map_app. f_equal.
  induction us as [|v us IH]; [done|]. cbn [flat_map List.map app]. by rewrite List.map_app, IH.
Qed.

Lemma walk_flatten e : walk_policy_expr_atoms e = List.map go_atom_literal (flatten e).
Proof.
  assert (H : forall ts, Forall (fun t => walk_policy_expr_atoms t = List.map go_atom_literal (flatten t)) ts ->
    List.map walk_policy_expr_atoms ts = List.map (List.map go_atom_literal) (List.map flatten ts)).
  { intros ts. rewrite List.map_map, List.Forall_forall. intros Hts. by apply List.map_ext_in. }
  induction e as [| | |a|ts IH|ts IH|i IH] using ir.policy_ind; try done;
    cbn [walk_policy_expr_atoms flatten].
  - rewrite !List.map_app, map_sep_concat, (H ts IH). done.
  - rewrite !List.map_app, map_sep_concat, (H ts IH). done.
  - cbn [List.map]. by rewrite IH.
Qed.

(** ** Evaluating the flattened form *)

Section EvalFlatten.
Variables hasRole hasPerm : string -> string -> bool.
Variable ctx : Ctx.
Variable input : option Input.
Local Open Scope list_scope.

Abbreviation evals := (evalsUn hasRole hasPerm ctx input).
Abbreviation den := (denote hasRole hasPerm ctx).

Lemma evals_leaf ns nm r : ns <> "predicate" -> 
  evals (plain_atom ns nm :: r) (atomMatches hasRole hasPerm ctx (plain_atom ns nm)) r.
Proof.
  intros H. apply evalsUn_leaf; unfold isPredicate; cbn [Namespace plain_atom];
    by apply String.eqb_neq in H as ->.
Qed.

(** The one unary a well-formed expression flattens to has its value. *)
Lemma evals_flatten e : wf_ir e = true -> forall r, evals (flatten e ++ r) (den e) r.
Proof.
  induction e as [| | |a|ts IH|ts IH|i IH] using ir.policy_ind; intros Hwf r.
  - apply (evalsUn_leaf hasRole hasPerm ctx input (marker "authenticated")); done.
  - by apply evals_leaf.
  - by apply evals_leaf.
  - apply evals_leaf. cbn [wf_ir] in Hwf. by bool_prop.
  - cbn [wf_ir] in Hwf. bool_prop. cbn [flatten denote]. rewrite <- !app_assoc. cbn [app].
    apply evalsUn_group, evalsOr_of_and; [done|]. destruct ts as [|t ts]; [simpl in H; lia|].
    cbn [List.map sep_concat]. rewrite List.forallb_forall in H0. rewrite List.Forall_forall in IH.
    rewrite <- app_assoc.
    replace (forallb den (t :: ts)) with (foldl andb (den t) (List.map den ts)).
    2: { rewrite foldl_andb. cbn [forallb]. f_equal. clear. induction ts; simpl; [done|]. by rewrite IHts. }
    apply evalsAnd_chain; [done| |].
    { intros r'. apply IH; [by left|]. apply H0. by left. }
    assert (Hts : Forall (fun t => forall r, evals (flatten t ++ r) (den t) r) ts).
    { apply List.Forall_forall. intros x Hx. apply IH; [by right|]. apply H0. by right. }
    clear -Hts. induction Hts; simpl; by constructor.
  - cbn [wf_ir] in Hwf. bool_prop. cbn [flatten denote]. rewrite <- !app_assoc. cbn [app].
    apply evalsUn_group. destruct ts as [|t ts]; [simpl in H; lia|].
    cbn [List.map sep_concat]. rewrite List.forallb_forall in H0. rewrite List.Forall_forall in IH.
    rewrite <- app_assoc.
    replace (existsb den (t :: ts)) with (foldl orb (den t) (List.map den ts)).
    2: { rewrite foldl_orb. cbn [existsb]. f_equal. clear. induction ts; simpl; [done|]. by rewrite IHts. }
    apply evalsOr_chain; [done|done| |].
    { intros r'. apply IH; [by left|]. apply H0. by left. }
    assert (Hts : Forall (fun t => forall r, evals (flatten t ++ r) (den t) r) ts).
    { apply List.Forall_forall. intros x Hx. apply IH; [by right|]. apply H0. by right. }
    clear -Hts. induction Hts; simpl; by constructor.
  - cbn [flatten denote]. apply (evalsUn_not hasRole hasPerm ctx input). by apply IH.
Qed.

(** A list the walk reads as one unary. *)
Lemma eval_structured name l v : hasPredicateAtom l = true -> evals l v [] ->
  EvalPolicyInput hasRole hasPerm ctx input {| PolicyName := name; Atoms := l |} =
  Some (if v then Ok tt else Err PolicyDenied).
Proof.
  intros Hp He. unfold EvalPolicyInput. cbn [Atoms].
  destruct l as [|a l]; [done|]. cbn [List.length Nat.eqb]. rewrite Hp.
  assert (Ho : evalsOr hasRole hasPerm ctx input (a :: l) v []).
  { apply evalsOr_of_and; [done|].
    pose proof (evalsAnd_chain hasRole hasPerm ctx input) as Hc. destruct He as [f Hf].
    exists (S (S f)). rewrite evalAnd_S.
    destruct (eval_mono hasRole hasPerm ctx input f (S f) ltac:(lia)) as (_ & _ & _ & _ & M).
    rewrite (M _ _ Hf). done. }
  apply evalsOr_fuel in Ho. by rewrite Ho.
Qed.

Lemma eval_flatten name e : wf_ir e = true ->
  EvalPolicyInput hasRole hasPerm ctx input {| PolicyName := name; Atoms := flatten e |} =
  Some (if den e then Ok tt else Err PolicyDenied).
Proof.
  intros Hwf. destruct (hasPredicateAtom (flatten e)) eqn:E.
  - apply eval_structured; [done|]. pose proof (evals_flatten e Hwf []) as H. by rewrite app_nil_r in H.
  - destruct e; try done; unfold EvalPolicyInput; cbn [Atoms flatten List.length Nat.eqb] in *; rewrite E;
      cbn [existsb atomMatchesInput When plain_atom]; by rewrite orb_false_r.
Qed.
End EvalFlatten.

(** ** Parsing the display form *)

(** The AST of an expression, every atom with the line's span. *)
Fixpoint to_ast (line : SourceLine) (e : ir.PolicyExpr) : PolicyExprAst :=
  match e with
  | ir.Authenticated => Authenticated
  | ir.HasRole n => HasRole n
  | ir.HasPermission p => HasPermission p
  | ir.Atom a => Atom {| namespace := ir.namespace a; name := ir.name a; args := ir.args a;
                         span := span_new (start line) (end_ line) |}
  | ir.And ts => And (List.map (to_ast line) ts)
  | ir.Or ts => Or (List.map (to_ast line) ts)
  | ir.Not i => Not (to_ast line i)
  end.

(** No atom carries arguments (the display drops them). *)
Fixpoint no_args (e : ir.PolicyExpr) : bool :=
  match e with
  | ir.Atom a => match ir.args a with None => true | Some _ => false end
  | ir.And ts | ir.Or ts => forallb no_args ts
  | ir.Not i => no_args i
  | _ => true
  end.

Lemma lower_to_ast line e : lower_policy_expr (to_ast line e) = e.
Proof.
  induction e as [| | |[]|ts IH|ts IH|i IH] using ir.policy_ind; try done; cbn [to_ast lower_policy_expr].
  - f_equal. rewrite List.map_map. etransitivity; [|apply List.map_id]. apply List.map_ext_in.
    rewrite List.Forall_forall in IH. auto.
  - f_equal. rewrite List.map_map. etransitivity; [|apply List.map_id]. apply List.map_ext_in.
    rewrite List.Forall_forall in IH. auto.
  - by rewrite IH.
Qed.

(** What may follow a complete term: nothing, a space or a closing paren. *)
Definition ended (r : string) : bool :=
  match r with "" => true | String c _ => (c =a? " ") || (c =a? ")") end.
(** A text [skip_ws] leaves alone. *)
Definition solid (s : string) : Prop := skip_ws s = s.

Lemma consume_keyword_skip kw s : consume_keyword kw s = consume_keyword kw (skip_ws s).
Proof. unfold consume_keyword. by rewrite skip_ws_idem. Qed.

Lemma count_while_stop p x r : str_all p x = true -> match r with "" => true | String c _ => negb (p c) end = true ->
  count_while p (x +:+ r) = str_len x.
Proof.
  intros Hx Hr. induction x as [|b x IH]; cbn [str_all String.append count_while] in *.
  - destruct r as [|c r]; [done|]. simpl. bool_prop. by rewrite Hr.
  - bool_prop. rewrite H, IH by done. done.
Qed.

Lemma count_while_full p x : count_while p x = str_len x <-> str_all p x = true.
Proof.
  induction x as [|b x IH]; simpl; [done|]. destruct (p b); simpl; [|done].
  rewrite <- IH. split; [by intros [=]|by intros ->].
Qed.

Lemma read_with_stop (p : byte -> bool) x r :
  (forall b, p b = true -> is_ascii_whitespace b = false) ->
  token_len p x = str_len x -> x <> "" ->
  match r with "" => true | String c _ => negb (p c || is_ascii_digit c) end = true ->
  read_with p (String " " (x +:+ r)) = (Some x, r).
Proof.
  intros Hp Hx Hne Hr. unfold read_with. cbn [skip_ws is_ascii_whitespace].
  change (is_ascii_whitespace " ") with true. cbv iota.
  destruct x as [|b x]; [done|]. cbn [token_len String.append] in *.
  destruct (p b) eqn:Eb; [|done]. injection Hx as Hx. apply count_while_full in Hx.
  cbn [skip_ws]. rewrite (Hp b Eb). cbn [token_len]. rewrite Eb, count_while_stop by done.
  change (String b (x +:+ r)) with (String b x +:+ r).
  by rewrite (take_app (String b x)), (drop_app (String b x)).
Qed.

Lemma catalog_chars ns : in_catalog ns = true -> str_all atom_byte ns = true /\ lacks "." ns /\ ns <> "".
Proof.
  unfold in_catalog. rewrite existsb_exists. intros (x & Hx & E). bool_prop. subst x.
  unfold policy_namespaces in Hx. simpl in Hx. repeat destruct Hx as [<-|Hx]; done.
Qed.

Lemma kebab_chars nm : is_kebab_or_snake_ident nm = true -> str_all atom_byte nm = true /\ nm <> "".
Proof.
  destruct nm as [|a r]; [done|]. cbn [is_kebab_or_snake_ident str_all]. intros H. bool_prop. split; [|done].
  apply andb_true_iff. split; [revert H; by_bytes a|]. eapply str_all_impl; [|done]. intros b. by_bytes b.
Qed.

(** A permission reference is one token of [read_permission_ref]. *)
Lemma permission_chars p : is_valid_permission_ref p = true -> token_len perm_byte p = str_len p /\ p <> "".
Proof.
  unfold is_valid_permission_ref. intros H. bool_prop. rewrite List.forallb_forall in H0.
  assert (Hs : str_all (fun c => perm_byte c || is_ascii_digit c) p = true).
  { rewrite <- (split_char_join ":" p). apply str_all_join; [done|]. apply List.Forall_forall. intros g Hg.
    apply H0 in Hg. destruct g as [|a g]; [done|]. cbn [valid_segment str_all] in *. apply andb_true_iff in Hg as [Ha Hg].
    apply andb_true_iff. split; [revert Ha; by_bytes a|]. eapply str_all_impl; [|exact Hg]. intros b. by_bytes b. }
  destruct p as [|a p]; [by specialize (H0 "" (or_introl eq_refl))|]. split; [|done]. cbn [token_len str_all] in *. bool_prop.
  assert (Ha : perm_byte a = true).
  { cbn [split_char] in H0. destruct (a =a? ":") eqn:E.
    - exfalso. specialize (H0 "" (or_introl eq_refl)). done.
    - destruct (split_char ":" p) as [|g gs]; specialize (H0 _ (or_introl eq_refl)); cbn [valid_segment] in H0;
        apply andb_true_iff in H0 as [Ha _]; revert Ha; by_bytes a. }
  rewrite Ha. by apply (f_equal S), count_while_full.
Qed.

Section ParseDisplay.
Variable line : SourceLine.
Local Open Scope string_scope.

(** Some amount of fuel gives this result. *)
Definition pUn (s : string) (e : PolicyExprAst) (r : string) : Prop :=
  exists f, parse_unary line f s = Some (Ok (e, r)).
Definition pAnd (s : string) (e : PolicyExprAst) (r : string) : Prop :=
  exists f, parse_and line f s = Some (Ok (e, r)).
Definition pOr (s : string) (e : PolicyExprAst) (r : string) : Prop :=
  exists f, parse_or line f s = Some (Ok (e, r)).

Lemma parse_unary_skip f s : parse_unary line f s = parse_unary line f (skip_ws s).
Proof. destruct f as [|f]; [done|]. cbn [parse_unary]. by rewrite consume_keyword_skip. Qed.

Lemma pUn_space s e r : solid s -> pUn s e r -> pUn (String " " s) e r.
Proof.
  intros Hs [f Hf]. exists f. rewrite parse_unary_skip.
  change (skip_ws (String " " s)) with (skip_ws s). by rewrite Hs.
Qed.

Lemma pUn_atom f s e r : consume_keyword "not" s = (false, s) ->
  parse_atom line f s = Some (Ok (e, r)) -> pUn s e r.
Proof. intros Hn Hf. exists (S f). cbn [parse_unary]. by rewrite Hn. Qed.

Lemma after_keyword r : ended r = true ->
  match r with
  | "" => (true, r)
  | String c _ => if is_ascii_whitespace c || (c =a? "(") || (c =a? ")") then (true, r) else (false, "authenticated" +:+ r)
  end = (true, r).
Proof. destruct r as [|c r]; [done|]. simpl. intros [H|H]%orb_true_iff; bool_prop; subst c; done. Qed.

Lemma pUn_authenticated r : ended r = true -> pUn ("authenticated" +:+ r) Authenticated r.
Proof.
  intros Hr. apply (pUn_atom 1); [done|]. cbn [parse_atom].
  change (consume_char "(" ("authenticated" +:+ r)) with (false, "authenticated" +:+ r). cbv iota beta.
  replace (consume_keyword "authenticated" ("authenticated" +:+ r)) with (true, r); [done|].
  symmetry. by apply after_keyword.
Qed.

Lemma pUn_role n r : ended r = true -> n <> "" -> token_len ident_byte n = str_len n ->
  pUn ("has_role " +:+ n +:+ r) (HasRole n) r.
Proof.
  intros Hr Hne Hn. apply (pUn_atom 1); [done|]. cbn [parse_atom].
  change (consume_char "(" ("has_role " +:+ n +:+ r)) with (false, "has_role " +:+ n +:+ r). cbv iota beta.
  change (consume_keyword "authenticated" ("has_role " +:+ n +:+ r)) with (false, "has_role " +:+ n +:+ r).
  cbv iota beta.
  change (consume_keyword "has_role" ("has_role " +:+ n +:+ r)) with (true, String " " (n +:+ r)). cbv iota beta.
  unfold read_ident. rewrite read_with_stop; [done| |done|done|].
  - intros b. by_bytes b.
  - destruct r as [|c r]; [done|]. simpl in Hr |- *. apply orb_true_iff in Hr as [Hr|Hr]; bool_prop; by subst c.
Qed.

Lemma pUn_permission p r : ended r = true -> is_valid_permission_ref p = true ->
  token_len perm_byte p = str_len p -> p <> "" ->
  pUn ("has_permission " +:+ p +:+ r) (HasPermission p) r.
Proof.
  intros Hr Hv Hp Hne. apply (pUn_atom 1); [done|]. cbn [parse_atom].
  change (consume_char "(" ("has_permission " +:+ p +:+ r)) with (false, "has_permission " +:+ p +:+ r). cbv iota beta.
  change (consume_keyword "authenticated" ("has_permission " +:+ p +:+ r)) with (false, "has_permission " +:+ p +:+ r).
  cbv iota beta.
  change (consume_keyword "has_role" ("has_permission " +:+ p +:+ r)) with (false, "has_permission " +:+ p +:+ r).
  cbv iota beta.
  change (consume_keyword "has_permission" ("has_permission " +:+ p +:+ r)) with (true, String " " (p +:+ r)). cbv iota beta.
  unfold read_permission_ref. rewrite read_with_stop; [by rewrite Hv| |done|done|].
  - intros b. by_bytes b.
  - destruct r as [|c r]; [done|]. simpl in Hr |- *. apply orb_true_iff in Hr as [Hr|Hr]; bool_prop; by subst c.
Qed.

Lemma parse_policy_atom_shown ns nm : in_catalog ns = true -> is_kebab_or_snake_ident nm = true ->
  parse_policy_atom line ("@" +:+ ns +:+ "." +:+ nm) =
  Ok {| namespace := ns; name := nm; args := None; span := span_new (start line) (end_ line) |}.
Proof.
  intros Hns Hnm. unfold parse_policy_atom.
  assert (Hb : str_all atom_byte (ns +:+ "." +:+ nm) = true /\ lacks "." ns /\ ns <> "" /\ nm <> "").
  { destruct (catalog_chars ns Hns) as (? & ? & ?). destruct (kebab_chars nm Hnm) as (? & ?).
    split_and!; [|done..]. rewrite !str_all_app. by apply andb_true_iff. }
  destruct Hb as (Hb & Hl & Hne & Hne').
  assert (He : edges_ok (ns +:+ "." +:+ nm) = true).
  { eapply str_all_edges; [|by destruct ns|done]. intros b. by_bytes b. }
  rewrite trim_edges.
  2: { apply (edges_ok_app "@"); [done|exact He]. }
  rewrite strip_prefix_app. cbn [mbind result_bind ok_or].
  replace (split_once "(" (ns +:+ "." +:+ nm)) with (@None (string * string)).
  2: { symmetry. apply split_once_lacks. eapply str_all_impl; [|exact Hb]. intros b. by_bytes b. }
  rewrite trim_edges by done. cbn [mbind result_bind ok_or].
  change (ns +:+ "." +:+ nm) with (ns +:+ String "." nm). rewrite split_once_app by done.
  cbn [mbind result_bind ok_or]. by rewrite Hns, Hnm.
Qed.

Lemma pUn_shown_atom ns nm r : ended r = true -> in_catalog ns = true -> is_kebab_or_snake_ident nm = true ->
  pUn ("@" +:+ ns +:+ "." +:+ nm +:+ r)
      (Atom {| namespace := ns; name := nm; args := None; span := span_new (start line) (end_ line) |}) r.
Proof.
  intros Hr Hns Hnm. apply (pUn_atom 1); [done|]. cbn [parse_atom].
  set (s := "@" +:+ ns +:+ "." +:+ nm +:+ r).
  change (consume_char "(" s) with (false, s). cbv iota beta.
  change (consume_keyword "authenticated" s) with (false, s). cbv iota beta.
  change (consume_keyword "has_role" s) with (false, s). cbv iota beta.
  change (consume_keyword "has_permission" s) with (false, s). cbv iota beta.
  replace (read_atom_token s) with (Some ("@" +:+ ns +:+ "." +:+ nm), r).
  { by rewrite parse_policy_atom_shown. }
  symmetry. unfold read_atom_token. change (skip_ws s) with s. unfold s. cbn [String.append].
  change (("@" =a? "@")%char) with true. cbv iota.
  destruct (catalog_chars ns Hns) as (Hc & _ & Hne). destruct (kebab_chars nm Hnm) as (Hk & _).
  replace (ns +:+ String "." (nm +:+ r)) with ((ns +:+ String "." nm) +:+ r) by (by rewrite sapp_assoc).
  rewrite count_while_stop.
  2: { rewrite str_all_app. cbn [str_all]. by rewrite Hc, Hk. }
  2: { destruct r as [|c r]; [done|]. simpl in Hr |- *. apply orb_true_iff in Hr as [Hr|Hr]; bool_prop; by subst c. }
  destruct (str_len (ns +:+ String "." nm)) as [|n] eqn:El; [by destruct ns|].
  rewrite <- El, drop_app.
  replace (match r with "" => str_len (ns +:+ String "." nm) | String c tail => _ end) with (str_len (ns +:+ String "." nm)).
  2: { destruct r as [|c r]; [done|]. simpl in Hr. apply orb_true_iff in Hr as [Hr|Hr]; bool_prop; by subst c. }
  cbn [str_take str_drop]. by rewrite take_app, drop_app.
Qed.

(** *** Chains *)

Abbreviation disp e := (write_policy_expr_display e true).

Definition shown (e : ir.PolicyExpr) : Prop :=
  forall r, ended r = true -> pUn (disp e +:+ r) (to_ast line e) r /\ solid (disp e +:+ r).

(** The terms after the first, each behind its separator. *)
Definition tail (sep : string) (ts : list ir.PolicyExpr) : string :=
  foldr (fun t acc => sep +:+ disp t +:+ acc) "" ts.

Lemma tail_ended sep ts r : (exists s, sep = String " " s) -> ended r = true -> ended (tail sep ts +:+ r) = true.
Proof. intros [s ->] Hr. by destruct ts. Qed.

Lemma and_loop_tail ts acc r : Forall shown ts -> ended r = true ->
  consume_keyword "and" r = (false, skip_ws r) ->
  exists f, and_loop line f acc (tail " and " ts +:+ r) =
    Some (Ok (one_or And (acc ++ List.map (to_ast line) ts)%list, skip_ws r)).
Proof.
  intros Hts Hr Hk. revert acc. induction Hts as [|t ts Ht Hts IH]; intros acc.
  - exists 1. cbn [tail foldr String.append and_loop]. rewrite Hk. cbn [List.map]. by rewrite app_nil_r.
  - destruct (IH (acc ++ [to_ast line t])%list) as [f1 Hf1].
    destruct (Ht (tail " and " ts +:+ r)) as [Hu Hs]; [apply tail_ended; eauto|].
    apply pUn_space in Hu as [f2 Hf2]; [|done]. exists (S (f1 + f2)).
    cbn [tail foldr]. rewrite !sapp_assoc. cbn [and_loop].
    change (consume_keyword "and" (" and " +:+ ?x)) with (true, String " " x). cbv iota beta.
    destruct (parse_mono line f2 (f1 + f2) ltac:(lia)) as (_ & _ & _ & _ & M2 & _).
    destruct (parse_mono line f1 (f1 + f2) ltac:(lia)) as (_ & _ & _ & M1 & _ & _).
    fold (tail " and " ts). rewrite (M2 _ _ Hf2). cbn [pbind]. rewrite (M1 _ _ _ Hf1).
    cbn [List.map]. by rewrite <- app_assoc.
Qed.

Lemma pAnd_chain t ts r : Forall shown (t :: ts) -> ended r = true ->
  consume_keyword "and" r = (false, skip_ws r) ->
  pAnd (disp t +:+ tail " and " ts +:+ r) (one_or And (List.map (to_ast line) (t :: ts))) (skip_ws r).
Proof.
  intros Hts Hr Hk. inversion_clear Hts as [|?? Ht Hts'].
  destruct (and_loop_tail ts [to_ast line t] r Hts' Hr Hk) as [f1 Hf1].
  destruct (Ht (tail " and " ts +:+ r)) as [[f2 Hf2] _]; [apply tail_ended; eauto|].
  exists (S (f1 + f2)). cbn [parse_and].
  destruct (parse_mono line f2 (f1 + f2) ltac:(lia)) as (_ & _ & _ & _ & M2 & _).
  destruct (parse_mono line f1 (f1 + f2) ltac:(lia)) as (_ & _ & _ & M1 & _ & _).
  rewrite (M2 _ _ Hf2). cbn [pbind]. by rewrite (M1 _ _ _ Hf1).
Qed.

Lemma pAnd_single t r : shown t -> ended r = true -> consume_keyword "and" r = (false, skip_ws r) ->
  pAnd (disp t +:+ r) (to_ast line t) (skip_ws r).
Proof.
  intros Ht Hr Hk. pose proof (pAnd_chain t [] r) as H. cbn [tail foldr String.append List.map one_or] in H.
  apply H; [|done|done]. by apply List.Forall_cons; [|apply List.Forall_nil].
Qed.

Lemma parse_and_skip f s : parse_and line f s = parse_and line f (skip_ws s).
Proof. destruct f as [|f]; [done|]. cbn [parse_and]. by rewrite parse_unary_skip. Qed.

(** Where a disjunction stops: at the end or at a closing paren. *)
Definition closing (r : string) : Prop := r = "" \/ exists r', r = String ")" r'.

Lemma closing_facts r : closing r ->
  ended r = true /\ skip_ws r = r /\
  consume_keyword "and" r = (false, r) /\ consume_keyword "or" r = (false, r).
Proof. by intros [-> | [r' ->]]. Qed.

Lemma and_stops ts r : closing r ->
  consume_keyword "and" (tail " or " ts +:+ r) = (false, skip_ws (tail " or " ts +:+ r)).
Proof.
  intros Hr. destruct ts as [|t ts]; [|done].
  destruct (closing_facts r Hr) as (_ & E & E' & _). cbn [tail foldr String.append]. by rewrite E.
Qed.

Lemma or_loop_tail ts acc r : Forall shown ts -> closing r ->
  exists f, or_loop line f acc (skip_ws (tail " or " ts +:+ r)) =
    Some (Ok (one_or Or (acc ++ List.map (to_ast line) ts)%list, r)).
Proof.
  intros Hts Hr. destruct (closing_facts r Hr) as (He & Hs & _ & Ho).
  revert acc. induction Hts as [|t ts Ht Hts IH]; intros acc.
  - exists 1. cbn [tail foldr String.append or_loop]. rewrite Hs, Ho. cbn [List.map]. by rewrite app_nil_r.
  - destruct (IH (acc ++ [to_ast line t])%list) as [f1 Hf1].
    destruct (pAnd_single t (tail " or " ts +:+ r)) as [f2 Hf2];
      [done|apply tail_ended; eauto|by apply and_stops|].
    destruct (Ht (tail " or " ts +:+ r)) as [_ Hso]; [apply tail_ended; eauto|].
    exists (S (f1 + f2)). cbn [tail foldr]. rewrite !sapp_assoc. cbn [or_loop].
    rewrite <- consume_keyword_skip.
    change (consume_keyword "or" (" or " +:+ ?x)) with (true, String " " x). cbv iota beta.
    destruct (parse_mono line f2 (f1 + f2) ltac:(lia)) as (_ & _ & M2 & _ & _ & _).
    destruct (parse_mono line f1 (f1 + f2) ltac:(lia)) as (_ & M1 & _ & _ & _ & _).
    fold (tail " or " ts). rewrite parse_and_skip. change (skip_ws (String " " ?x)) with (skip_ws x).
    rewrite Hso, (M2 _ _ Hf2). cbn [pbind]. rewrite (M1 _ _ _ Hf1). cbn [List.map]. by rewrite <- app_assoc.
Qed.

Lemma pOr_chain t ts r : Forall shown (t :: ts) -> closing r ->
  pOr (disp t +:+ tail " or " ts +:+ r) (one_or Or (List.map (to_ast line) (t :: ts))) r.
Proof.
  intros Hts Hr. inversion_clear Hts as [|?? Ht Hts'].
  destruct (or_loop_tail ts [to_ast line t] r Hts' Hr) as [f1 Hf1].
  destruct (closing_facts r Hr) as (He & _).
  destruct (pAnd_single t (tail " or " ts +:+ r)) as [f2 Hf2];
    [done|apply tail_ended; eauto|by apply and_stops|].
  exists (S (f1 + f2)). cbn [parse_or].
  destruct (parse_mono line f2 (f1 + f2) ltac:(lia)) as (_ & _ & M2 & _ & _ & _).
  destruct (parse_mono line f1 (f1 + f2) ltac:(lia)) as (_ & M1 & _ & _ & _ & _).
  rewrite (M2 _ _ Hf2). cbn [pbind]. by rewrite (M1 _ _ _ Hf1).
Qed.

Lemma pOr_and_chain t ts r : Forall shown (t :: ts) -> closing r ->
  pOr (disp t +:+ tail " and " ts +:+ r) (one_or And (List.map (to_ast line) (t :: ts))) r.
Proof.
  intros Hts Hr. destruct (closing_facts r Hr) as (He & Hs & Ha & Ho).
  destruct (pAnd_chain t ts r Hts He) as [f Hf]; [by rewrite Hs|].
  exists (S (S f)). cbn [parse_or].
  destruct (parse_mono line f (S f) ltac:(lia)) as (_ & _ & M & _). rewrite (M _ _ Hf). cbn [pbind or_loop].
  by rewrite Hs, Ho.
Qed.

Lemma pUn_group s e r : pOr s e (String ")" r) -> pUn ("(" +:+ s) e r.
Proof.
  intros [f Hf]. apply (pUn_atom (S f)); [done|]. cbn [parse_atom].
  change (consume_char "(" ("(" +:+ s)) with (true, s). cbv iota beta. by rewrite Hf.
Qed.

Lemma join_tail sep t ts :
  join sep (List.map (fun t => disp t) (t :: ts)) = disp t +:+ tail sep ts.
Proof.
  revert t. induction ts as [|t' ts IH]; intros t; [by rewrite sapp_nil_r|].
  cbn [List.map]. rewrite join_cons by done. cbn [List.map] in IH. rewrite IH. done.
Qed.

(** Everything the parser needs of a well-formed expression. *)
Lemma shown_all e : wf_expr (to_ast line e) = true -> no_args e = true -> shown e.
Proof.
  induction e as [|n|p|a|ts IH|ts IH|i IH] using ir.policy_ind; intros Hwf Hna r Hr;
    cbn [to_ast wf_expr no_args write_policy_expr_display] in *.
  - split; [by apply pUn_authenticated|done].
  - bool_prop. rewrite sapp_assoc. split; [|done]. apply pUn_role; [done| |done]. by destruct n.
  - rewrite sapp_assoc. split; [|done]. destruct (permission_chars p Hwf). by apply pUn_permission.
  - bool_prop. rewrite !sapp_assoc. split; [|done]. destruct a as [ns nm [|]]; [done|].
    cbn [ir.namespace ir.name ir.args namespace name] in *. by apply pUn_shown_atom.
  - bool_prop. destruct ts as [|t ts]; [simpl in H; lia|]. rewrite join_tail, !sapp_assoc. split; [|done].
    apply pUn_group. cbn [List.map] in *.
    pose proof (pOr_and_chain t ts (String ")" r)) as H1. destruct ts as [|t' ts]; [simpl in H; lia|].
    apply H1; [|right; eauto]. rewrite List.Forall_forall in IH |- *. rewrite List.forallb_forall in Hna, H0.
    intros x Hx. apply IH; auto. apply H0. change (to_ast line t :: ?l) with (List.map (to_ast line) (t :: t' :: ts)).
    by apply List.in_map.
  - bool_prop. destruct ts as [|t ts]; [simpl in H; lia|]. rewrite join_tail, !sapp_assoc. split; [|done].
    apply pUn_group. cbn [List.map] in *.
    pose proof (pOr_chain t ts (String ")" r)) as H1. destruct ts as [|t' ts]; [simpl in H; lia|].
    apply H1; [|right; eauto]. rewrite List.Forall_forall in IH |- *. rewrite List.forallb_forall in Hna, H0.
    intros x Hx. apply IH; auto. apply H0. change (to_ast line t :: ?l) with (List.map (to_ast line) (t :: t' :: ts)).
    by apply List.in_map.
  - destruct (IH Hwf Hna r Hr) as [Hu Hs]. rewrite sapp_assoc. split; [|done].
    apply pUn_space in Hu as [f Hf]; [|done]. exists (S f). cbn [parse_unary].
    change (consume_keyword "not" ("not " +:+ ?x)) with (true, String " " x). cbv iota beta. by rewrite Hf.
Qed.

(** The unparenthesised form, as a whole. *)
Lemma pOr_display e : wf_expr (to_ast line e) = true -> no_args e = true ->
  pOr (policy_expr_display_name e) (to_ast line e) "".
Proof.
  intros Hwf Hna. unfold policy_expr_display_name.
  assert (Hsub : forall ts, forallb wf_expr (List.map (to_ast line) ts) = true -> forallb no_args ts = true ->
    Forall shown ts).
  { intros ts H1 H2. rewrite List.forallb_forall in H1, H2. apply List.Forall_forall. intros x Hx.
    apply shown_all; auto. apply H1. by apply List.in_map. }
  destruct e as [|n|p|a|ts|ts|i].
  5,6: cbn [write_policy_expr_display to_ast wf_expr no_args] in *; bool_prop; destruct ts as [|t ts]; [simpl in H; lia|];
    rewrite join_tail, <- (sapp_nil_r (tail _ ts)); cbn [List.map] in *; destruct ts as [|t' ts]; [simpl in H; lia|].
  5: apply (pOr_and_chain t (t' :: ts) ""); [by apply Hsub|by left].
  5: apply (pOr_chain t (t' :: ts) ""); [by apply Hsub|by left].
  all: match goal with |- pOr ?s (to_ast line ?e) "" =>
    change s with (disp e); pose proof (pOr_chain e [] "") as Hc;
    cbn [tail foldr List.map one_or] in Hc; rewrite !sapp_nil_r in Hc; apply Hc; [|by left];
    apply List.Forall_cons; [by apply shown_all|apply List.Forall_nil] end.
Qed.
End ParseDisplay.

(** *** The display form is recognised as an expression *)

(** The bytes of a display form. *)
Definition display_byte (b : byte) : bool :=
  is_ascii_lowercase b || is_ascii_digit b || existsb (Ascii.eqb b) ["_"; "-"; "."; ":"; "@"; "("; ")"; " "]%char.

Lemma ws_len_display b s : display_byte b = true -> ws_len (String b s) = (if b =a? " " then 1 else 0)%nat.
Proof.
  intros Hb. destruct (b =a? " ") eqn:E; [bool_prop; by subst|]. apply ws_len_graphic.
  revert Hb E. by_bytes b.
Qed.

Lemma split_ws_prefix a cur r w : str_all display_byte a = true ->
  In w (split_ws_go r "" 0) -> In w (split_ws_go (a +:+ String " " r) cur 0).
Proof.
  intros Ha Hw. revert cur. induction a as [|b a IH]; intros cur.
  - cbn [String.append split_ws_go]. rewrite ws_len_display by done. cbn [Ascii.eqb Bool.eqb].
    destruct (cur =? ""); [done|by right].
  - cbn [str_all] in Ha. bool_prop. cbn [String.append split_ws_go].
    rewrite ws_len_display by done. destruct (b =a? " "); [|by apply IH].
    destruct (cur =? ""); [by apply IH|right; by apply IH].
Qed.

Lemma split_ws_word w r : w <> "" -> str_all graphic w = true -> (r = "" \/ exists r', r = String " " r') ->
  In w (split_ws_go (w +:+ r) "" 0).
Proof.
  intros Hne Hw Hr. rewrite split_ws_copy by done. destruct w as [|b w]; [done|].
  destruct Hr as [-> | [r' ->]]; cbn [split_ws_go String.append]; simpl; by left.
Qed.

Lemma looks_like_word payload w : In w expr_keywords -> In w (split_whitespace payload) ->
  looks_like_policy_expr payload = true.
Proof.
  intros Hk Hin. unfold looks_like_policy_expr. case_match; [done|]. apply existsb_In. exists w. split; [done|].
  apply existsb_In. exists w. split; [done|]. apply String.eqb_refl.
Qed.

Lemma display_bytes line e : wf_expr (to_ast line e) = true -> forall par,
  str_all display_byte (write_policy_expr_display e par) = true /\
  edges_ok (write_policy_expr_display e par) = true.
Proof.
  pose (ok := fun s => str_all display_byte s = true /\ edges_ok s = true).
  assert (Hjoin : forall sep l (par : bool), str_all display_byte sep = true -> l <> [] -> Forall ok l ->
    ok (if par then "(" +:+ join sep l +:+ ")" else join sep l)).
  { intros sep l par Hsep Hne Hl. assert (H : ok (join sep l)).
    { split; [apply str_all_join|apply join_edges]; try done; (eapply List.Forall_impl; [|exact Hl]); by intros ? []. }
    destruct H as [H1 H2]. destruct par; [|done]. split; [by rewrite !str_all_app, H1|].
    by apply (edges_ok_mid "(" _ ")"). }
  assert (Hpre : forall a m x, str_all display_byte (String a m) = true /\ graphic a = true -> ok x -> ok (String a (m +:+ x))).
  { intros a m x [Ha Hg] [Hx1 Hx2]. split.
    - change (String a (m +:+ x)) with (String a m +:+ x). by rewrite str_all_app, Ha, Hx1.
    - apply (edges_ok_mid (String a "") m x); [|done]. unfold edges_ok. simpl. by rewrite Hg. }
  induction e as [|n|p|a|ts IH|ts IH|i IH] using ir.policy_ind; intros Hwf par;
    cbn [to_ast wf_expr write_policy_expr_display] in *; [done|..].
  - bool_prop. assert (Hn : str_all (fun c => ident_byte c || is_ascii_digit c) n = true).
    { destruct n as [|b n]; [done|]. cbn [token_len str_len String.length str_all] in *. destruct (ident_byte b); [|done].
      injection H0 as H0. by apply count_while_full in H0. }
    apply (Hpre "h"%char "as_role " n); [done|]. split.
    + eapply str_all_impl; [|exact Hn]. intros b. by_bytes b.
    + eapply str_all_edges; [|by destruct n|exact Hn]. intros b. by_bytes b.
  - destruct (permission_chars p Hwf) as [Hp Hne].
    assert (Hn : str_all (fun c => perm_byte c || is_ascii_digit c) p = true).
    { destruct p as [|b p]; [done|]. cbn [token_len str_len String.length str_all] in *. destruct (perm_byte b); [|done].
      injection Hp as Hp. by apply count_while_full in Hp. }
    apply (Hpre "h"%char "as_permission " p); [done|]. split.
    + eapply str_all_impl; [|exact Hn]. intros b. by_bytes b.
    + eapply str_all_edges; [|by destruct p|exact Hn]. intros b. by_bytes b.
  - bool_prop. destruct (catalog_chars _ H) as (Hc & _ & Hne). destruct (kebab_chars _ H0) as (Hk & Hne').
    cbn [namespace name] in *.
    assert (Hk' : str_all display_byte (ir.name a) = true) by (eapply str_all_impl; [|exact Hk]; intros b; by_bytes b).
    assert (Hc' : str_all display_byte (ir.namespace a) = true) by (eapply str_all_impl; [|exact Hc]; intros b; by_bytes b).
    assert (Hok : ok (String "@" ((ir.namespace a +:+ ".") +:+ ir.name a))).
    { apply Hpre; [by cbn [str_all]; rewrite str_all_app, Hc'|]. split; [done|].
      eapply str_all_edges; [|done|exact Hk]. intros b. by_bytes b. }
    by rewrite sapp_assoc in Hok.
  - bool_prop. rewrite List.length_map in H. apply Hjoin; [done|by destruct ts; [simpl in H; lia|]|]. apply List.Forall_map.
    rewrite List.Forall_forall in IH |- *. rewrite List.forallb_forall in H0. intros t Ht. apply IH; [done|].
    by apply H0, List.in_map.
  - bool_prop. rewrite List.length_map in H. apply Hjoin; [done|by destruct ts; [simpl in H; lia|]|]. apply List.Forall_map.
    rewrite List.Forall_forall in IH |- *. rewrite List.forallb_forall in H0. intros t Ht. apply IH; [done|].
    by apply H0, List.in_map.
  - apply (Hpre "n"%char "ot "); [done|]. by apply IH.
Qed.

(** An expression that is not a bare atom contains one of the keywords. *)
Lemma display_looks_like line e : wf_expr (to_ast line e) = true ->
  match e with ir.Atom _ => False | _ => True end ->
  looks_like_policy_expr (policy_expr_display_name e) = true.
Proof.
  intros Hwf He. unfold policy_expr_display_name.
  assert (Hinfix : forall kw t t' ts, In kw ["and"; "or"] -> wf_expr (to_ast line t) = true ->
    looks_like_policy_expr (join (" " +:+ kw +:+ " ") (List.map (fun t => write_policy_expr_display t true) (t :: t' :: ts))) = true).
  { intros kw t t' ts Hkw Ht. destruct (display_bytes line t Ht true) as [Hd _].
    apply (looks_like_word _ kw).
    - simpl in *. tauto.
    - cbn [List.map]. rewrite join_cons by done. rewrite !sapp_assoc. apply split_ws_prefix; [done|].
      apply split_ws_word; [..|by right; eexists]; simpl in Hkw; by repeat destruct Hkw as [<-|Hkw]. }
  destruct e as [|n|p|a|ts|ts|i]; cbn [write_policy_expr_display]; [done|..].
  - apply (looks_like_word _ "has_role"); [simpl; tauto|]. apply (split_ws_word "has_role"); [done..|right; eauto].
  - apply (looks_like_word _ "has_permission"); [simpl; tauto|].
    apply (split_ws_word "has_permission"); [done..|right; eauto].
  - done.
  - cbn [to_ast wf_expr] in Hwf. bool_prop. destruct ts as [|t [|t' ts]]; [simpl in H; lia..|].
    cbn [List.map forallb] in H0. bool_prop. by apply (Hinfix "and"); [left|].
  - cbn [to_ast wf_expr] in Hwf. bool_prop. destruct ts as [|t [|t' ts]]; [simpl in H; lia..|].
    cbn [List.map forallb] in H0. bool_prop. by apply (Hinfix "or"); [right; left|].
  - apply (looks_like_word _ "not"); [simpl; tauto|]. apply (split_ws_word "not"); [done..|right; eauto].
Qed.

Lemma contains_byte_false c s : lacks c s -> contains (String c "") s = false.
Proof.
  intros H. unfold contains. destruct (str_find (String c "") s) as [i|] eqn:E; [|done].
  apply str_find_Some in E as [E _]. apply starts_with_iff in E as [t Ht].
  rewrite <- (take_drop_id i s), Ht, str_all_app in H. cbn [String.append str_all] in H.
  rewrite Ascii.eqb_refl in H. simpl in H. by rewrite andb_false_r in H.
Qed.

(** ** Categories *)

(** The guard a [when] clause becomes, if it can be rendered. *)
Definition when_value (e : Expr) : option GoVal :=
  match e with
  | EString s => Some (VString s)
  | EInteger n => Some (VInt n)
  | EBoolean b => Some (VBool b)
  | ENil => Some VNil
  | _ => None
  end.
Definition when_of (w : EvalPredicate) : option PolicyWhen :=
  match w with
  | Closed (Comparison l op r) =>
    '(path, value) ←
      match l, r with
      | EPath p, v => Some (p, v)
      | v, EPath p => Some (p, v)
      | _, _ => None
      end;
    v ← when_value value;
    Some {| Path_ := join "." (segments path); Op := go_op op; Value := v |}
  | _ => None
  end.

Definition atom_of (s : string) : GoAtom := plain_atom (split_ns_name s).1 (split_ns_name s).2.
Definition cond_atom_of (ca : ConditionalPolicyAtom) : GoAtom :=
  {| Namespace := (split_ns_name (ca_atom ca)).1; Name := (split_ns_name (ca_atom ca)).2;
     When := when_of (ca_when ca) |}.

(** Atom texts that need no escaping and do not spell a runtime marker. *)
Definition atom_ok (s : string) : bool := plain s && negb ((split_ns_name s).1 =? "predicate").

Lemma split_ns_name_plain s : plain s = true ->
  debug_str (split_ns_name s).1 = quoted (split_ns_name s).1 /\
  debug_str (split_ns_name s).2 = quoted (split_ns_name s).2.
Proof.
  intros Hs. assert (H : plain (strip_at s) = true).
  { unfold strip_at. destruct (strip_prefix "@" s) as [t|] eqn:E; [|done]. apply strip_prefix_Some in E.
    unfold plain in *. rewrite E, str_all_app in Hs. by bool_prop. }
  unfold split_ns_name, split_dot. destruct (split_once "." (strip_at s)) as [[h t]|] eqn:E.
  - apply split_once_Some in E as [E _]. unfold plain in H. rewrite E, str_all_app in H. cbn [str_all] in H.
    bool_prop. by split; apply debug_str_plain.
  - by split; [apply debug_str_plain|].
Qed.

Lemma render_atom_literal s : plain s = true -> render_atom s = go_atom_literal (atom_of s).
Proof.
  intros [H1 H2]%split_ns_name_plain. unfold render_atom, go_atom_literal, atom_of. cbn [When plain_atom Namespace Name].
  rewrite H1, H2. by destruct (split_ns_name s).
Qed.

Lemma render_value_literal e : render_when_value e = go_value_literal <$> when_value e.
Proof. by destruct e as [| | |[]| | |]. Qed.

Lemma render_when_literal_of w : render_policy_when w = go_when_literal <$> when_of w.
Proof.
  destruct w as [[l op r| | |]| | |]; try done. unfold render_policy_when, when_of.
  set (m := match l with EPath p => Some (p, r) | _ => match r with EPath p => Some (p, l) | _ => None end end).
  replace (match l with EPath p => _ | _ => _ end) with m by (by destruct l, r).
  replace (match l with EPath p => _ | _ => _ end) with m by (by destruct l, r).
  destruct m as [[path value]|]; [|done]. cbn [mbind option_bind]. rewrite render_value_literal.
  by destruct (when_value value).
Qed.

Lemma render_conditional_literal ca : plain (ca_atom ca) = true ->
  match render_conditional (ca_atom ca) (ca_when ca) with
  | Some rendered => rendered
  | None => render_atom (ca_atom ca)
  end = go_atom_literal (cond_atom_of ca).
Proof.
  intros Hp. pose proof (split_ns_name_plain _ Hp) as [H1 H2].
  unfold render_conditional, go_atom_literal, cond_atom_of. cbn [When Namespace Name].
  rewrite render_when_literal_of. destruct (when_of (ca_when ca)) as [w|].
  - rewrite H1, H2. by destruct (split_ns_name (ca_atom ca)).
  - rewrite (surjective_pairing (split_ns_name (ca_atom ca))). cbn [fmap option_fmap option_map mbind option_bind].
    rewrite render_atom_literal by done. done.
Qed.

Lemma intersperse_sep {A} (sep : A) l : intersperse sep l = sep_concat sep (List.map (fun x => [x]) l).
Proof.
  induction l as [|x l IH]; [done|]. destruct l as [|y l]; [done|]. cbn [intersperse List.map sep_concat flat_map app] in *.
  by rewrite IH.
Qed.

Lemma map_intersperse {A B} (f : A -> B) sep l : List.map f (intersperse sep l) = intersperse (f sep) (List.map f l).
Proof. induction l as [|x l IH]; [done|]. destruct l as [|y l]; [done|]. cbn [intersperse List.map] in *. by rewrite IH. Qed.

(** The atoms a category stands for. *)
Definition category_atoms (c : PolicyCategory) : list GoAtom :=
  ((if (2 <=? List.length (pc_atoms c))%nat
    then [marker "("] ++ intersperse (marker "or") (List.map atom_of (pc_atoms c)) ++ [marker ")"]
    else List.map atom_of (pc_atoms c)) ++
   List.map cond_atom_of (pc_conditional_atoms c))%list.

Lemma escape_plain s : plain s = true -> escape_string s = s.
Proof.
  unfold plain. induction s as [|b s IH]; cbn [str_all escape_string]; [done|]. intros H. bool_prop.
  rewrite IH by done. unfold plain_byte in H. bool_prop. by rewrite H1, H2.
Qed.

Lemma format_local_literal name p c : find_category name p = Some c ->
  plain name = true -> forallb plain (pc_atoms c) = true ->
  forallb (fun ca => plain (ca_atom ca)) (pc_conditional_atoms c) = true ->
  format_local_policy name p =
  Some (go_policy_literal {| PolicyName := "@policy." +:+ name; Atoms := category_atoms c |}).
Proof.
  intros Hc Hn Ha Hca. unfold format_local_policy. rewrite Hc. cbn [mbind option_bind].
  unfold go_policy_literal. cbn [PolicyName Atoms]. rewrite escape_plain by done.
  replace (debug_str ("@policy." +:+ name)) with (quoted ("@policy." +:+ name)).
  2: { symmetry. apply debug_str_plain. unfold plain in *. by rewrite str_all_app, Hn. }
  do 3 f_equal. unfold category_atoms. rewrite List.map_app. rewrite List.forallb_forall in Ha, Hca.
  assert (Hmap : List.map render_atom (pc_atoms c) = List.map go_atom_literal (List.map atom_of (pc_atoms c))).
  { rewrite List.map_map. apply List.map_ext_in. intros x Hx. apply render_atom_literal. auto. }
  f_equal.
  - destruct (2 <=? List.length (pc_atoms c))%nat; [|done].
    rewrite !List.map_app, map_intersperse, Hmap. done.
  - rewrite List.map_map. apply List.map_ext_in. intros x Hx. apply render_conditional_literal. auto.
Qed.

Section EvalCategory.
Variables hasRole hasPerm : string -> string -> bool.
Variable ctx : Ctx.
Variable input : option Input.
Local Open Scope list_scope.
Abbreviation matches := (atomMatchesInput hasRole hasPerm ctx input).

Lemma no_marker a : (Namespace a =? "predicate") = false -> forall n, isPredicate a n = false.
Proof. intros H n. unfold isPredicate. by rewrite H. Qed.

(** [( a or b or ... )] is one unary with the value of the disjunction. *)
Lemma evals_or_group a l r : Forall (fun a => (Namespace a =? "predicate") = false) (a :: l) ->
  evalsUn hasRole hasPerm ctx input ([marker "("] ++ intersperse (marker "or") (a :: l) ++ [marker ")"] ++ r)
    (existsb matches (a :: l)) r.
Proof.
  intros Hl. apply evalsUn_group. rewrite intersperse_sep. cbn [List.map sep_concat]. rewrite <- app_assoc.
  replace (existsb matches (a :: l)) with (foldl orb (matches a) (List.map matches l)).
  2: { rewrite foldl_orb. cbn [existsb]. f_equal. clear. induction l; simpl; [done|]. by rewrite IHl. }
  inversion_clear Hl as [|?? Ha Hl'].
  apply evalsOr_chain; [done|done| |].
  - intros r'. apply evalsUn_leaf; by apply no_marker.
  - clear -Hl'. induction Hl' as [|b l Hb Hl IH]; constructor; [|done].
    intros r'. apply evalsUn_leaf; by apply no_marker.
Qed.

Lemma evalsOr_of_un l v r : starts "or" r = false -> starts "and" r = false ->
  evalsUn hasRole hasPerm ctx input l v r -> evalsOr hasRole hasPerm ctx input l v r.
Proof.
  intros Ho Ha [f Hf]. apply evalsOr_of_and; [done|]. exists (S (S f)). rewrite evalAnd_S.
  destruct (eval_mono hasRole hasPerm ctx input f (S f) ltac:(lia)) as (_ & _ & _ & _ & M).
  rewrite (M _ _ Hf). cbn [mbind option_bind]. rewrite evalAnd_loop_S. destruct r as [|c r]; [done|].
  simpl in Ha. by rewrite Ha.
Qed.

Lemma hasPredicate_none l : Forall (fun a => (Namespace a =? "predicate") = false) l -> hasPredicateAtom l = false.
Proof. intros H. apply existsb_false. by apply List.Forall_forall. Qed.

Lemma eval_category name c :
  forallb atom_ok (pc_atoms c) = true ->
  forallb (fun ca => atom_ok (ca_atom ca)) (pc_conditional_atoms c) = true ->
  category_atoms c <> [] ->
  EvalPolicyInput hasRole hasPerm ctx input {| PolicyName := name; Atoms := category_atoms c |} =
  Some (if existsb matches (List.map atom_of (pc_atoms c)) ||
           (if (2 <=? List.length (pc_atoms c))%nat then false
            else existsb matches (List.map cond_atom_of (pc_conditional_atoms c)))
        then Ok tt else Err PolicyDenied).
Proof.
  intros Ha Hc Hne. rewrite List.forallb_forall in Ha, Hc.
  assert (HA : Forall (fun a => (Namespace a =? "predicate") = false) (List.map atom_of (pc_atoms c))).
  { apply List.Forall_map, List.Forall_forall. intros x Hx. apply Ha in Hx. unfold atom_ok in Hx.
    bool_prop. by apply String.eqb_neq. }
  assert (HC : Forall (fun a => (Namespace a =? "predicate") = false) (List.map cond_atom_of (pc_conditional_atoms c))).
  { apply List.Forall_map, List.Forall_forall. intros x Hx. apply Hc in Hx. unfold atom_ok in Hx.
    bool_prop. by apply String.eqb_neq. }
  unfold category_atoms in *. destruct (2 <=? List.length (pc_atoms c))%nat eqn:E.
  - destruct (pc_atoms c) as [|a l] eqn:El; [done|]. cbn [List.map] in *.
    pose proof (evals_or_group (atom_of a) (List.map atom_of l) (List.map cond_atom_of (pc_conditional_atoms c)) HA) as Hev.
    rewrite <- app_assoc, <- app_assoc. unfold EvalPolicyInput. cbn [Atoms List.length Nat.eqb app].
    change (hasPredicateAtom (marker "(" :: ?l)) with true. cbv iota.
    apply evalsOr_of_un, evalsOr_fuel in Hev.
    + cbn [app] in Hev. rewrite Hev. cbn [mbind option_bind]. by rewrite orb_false_r.
    + destruct HC as [|x ? Hx ?]; [done|]. by apply no_marker.
    + destruct HC as [|x ? Hx ?]; [done|]. by apply no_marker.
  - unfold EvalPolicyInput. cbn [Atoms].
    destruct (List.map atom_of (pc_atoms c) ++ List.map cond_atom_of (pc_conditional_atoms c)) as [|x l] eqn:El; [done|].
    cbn [List.length Nat.eqb]. rewrite hasPredicate_none by (rewrite <- El; by apply List.Forall_app).
    by rewrite <- El, List.existsb_app.
Qed.
End EvalCategory.

(** ** References that resolve to nothing *)

(** A reference the per-feature pass cannot resolve to atoms. *)
Definition unresolved (policies : option Policies) (r : PolicyRef) : bool :=
  let no_category name :=
    match (p ← policies; find_category name p) with None => true | Some _ => false end in
  let no_list raw := match (p ← policies; format_conditional_policy raw p) with Some (Some _) => false | _ => true end in
  match r with
  | RLocal name =>
    no_category name && match builtin_scope_atom name with None => true | Some _ => false end && no_list name
  | RAtom atom =>
    no_list atom &&
    match strip_prefix "policy." (strip_at atom) with
    | Some name => no_category name && match builtin_scope_atom name with None => true | Some _ => false end
    | None => false
    end
  | RExternal _ _ => true
  | _ => false
  end.

Definition deny_policy (name : string) : GoPolicy := {| PolicyName := name; Atoms := [marker "deny"] |}.

Lemma format_deny_literal name : format_deny_policy name = go_policy_literal (deny_policy name).
Proof. reflexivity. Qed.

Lemma eval_deny hasRole hasPerm ctx input name :
  EvalPolicyInput hasRole hasPerm ctx input (deny_policy name) = Some (Err PolicyDenied).
Proof. reflexivity. Qed.

Lemma builtin_none name : builtin_scope_atom name = None -> format_builtin_policy name = None.
Proof.
  unfold builtin_scope_atom, format_builtin_policy. destruct (name =? "public"); [done|].
  by destruct (name =? "authenticated").
Qed.

Lemma local_none policies name : (p ← policies; find_category name p) = None ->
  (p ← policies; format_local_policy name p) = None.
Proof. destruct policies as [p|]; [|done]. cbn [mbind option_bind]. unfold format_local_policy. by intros ->. Qed.

(** * Properties *)

(** C1: Compiler correctness for structured policies: the emitted atom list, read
    by the Go evaluator, grants exactly the actors the expression describes, and
    never fails with anything but a denial. The expression has no empty [and] or
    [or], and no atom in the namespace [predicate], which the inline predicates
    are marked by ([wf_ir]; the parser lets an author write one,
    [inline_marker_grants]). *)
Theorem policy_expr_compiles e : wf_ir e = true ->
  exists atoms, render_policy_expr_atoms e = List.map go_atom_literal atoms /\
  forall hasRole hasPerm ctx input name,
    EvalPolicyInput hasRole hasPerm ctx input {| PolicyName := name; Atoms := atoms |} =
    Some (if denote hasRole hasPerm ctx e then Ok tt else Err PolicyDenied).
Proof.
  intros Hwf. exists (flatten e). split; [apply walk_flatten|]. intros. by apply eval_flatten.
Qed.

Lemma policy_expr_compiles_witness :
  exists atoms, render_policy_expr_atoms
      (ir.Or [ir.HasRole "admin"; ir.And [ir.Authenticated; ir.Not (ir.HasPermission "users:read")]]) =
    List.map go_atom_literal atoms /\
  forall hasRole hasPerm ctx input name,
    EvalPolicyInput hasRole hasPerm ctx input {| PolicyName := name; Atoms := atoms |} =
    Some (if denote hasRole hasPerm ctx
               (ir.Or [ir.HasRole "admin"; ir.And [ir.Authenticated; ir.Not (ir.HasPermission "users:read")]])
          then Ok tt else Err PolicyDenied).
Proof. apply policy_expr_compiles. reflexivity. Defined.

(** Round trip: parsing the display name of a structured policy and lowering it
    gives the policy back (for expressions the grammar can produce, without atom
    arguments, which the display drops). *)
Theorem policy_display_roundtrip line e :
  wf_expr (to_ast line e) = true -> no_args e = true ->
  match e with ir.Atom _ => False | _ => True end ->
  exists ast, try_parse_policy_expr line (policy_expr_display_name e) = Some (Ok (Some ast)) /\
              lower_policy_expr ast = e.
Proof.
  intros Hwf Hna He. exists (to_ast line e). split; [|apply lower_to_ast].
  destruct (display_bytes line e Hwf false) as [Hb Hed]. fold (policy_expr_display_name e) in Hb, Hed.
  unfold try_parse_policy_expr. rewrite trim_edges by done.
  replace (policy_expr_display_name e =? "") with false by (by destruct (policy_expr_display_name e)).
  unfold try_parse_inline_atom_list. rewrite contains_byte_false.
  2: { eapply str_all_impl; [|exact Hb]. intros b. by_bytes b. }
  cbn [negb]. rewrite (display_looks_like line) by done. cbn [negb].
  destruct (pOr_display line e Hwf Hna) as [f Hf].
  destruct (parse_or line (parse_fuel (policy_expr_display_name e)) (policy_expr_display_name e)) as [r|] eqn:E.
  - destruct (parse_mono line f (f + parse_fuel (policy_expr_display_name e)) ltac:(lia)) as [M1 _].
    destruct (parse_mono line _ (f + parse_fuel (policy_expr_display_name e)) (Nat.le_add_l _ f)) as [M2 _].
    apply M1 in Hf. apply M2 in E. rewrite Hf in E. injection E as <-. done.
  - exfalso. destruct (parse_enough line (parse_fuel (policy_expr_display_name e))) as [H _].
    by apply (H (policy_expr_display_name e)).
Qed.

Lemma policy_display_roundtrip_witness :
  exists ast, try_parse_policy_expr (Build_SourceLine "" 0 0 0)
    (policy_expr_display_name
      (ir.Or [ir.HasRole "admin"; ir.And [ir.Authenticated; ir.Not (ir.HasPermission "users:read")]])) =
    Some (Ok (Some ast)) /\
  lower_policy_expr ast = ir.Or [ir.HasRole "admin"; ir.And [ir.Authenticated; ir.Not (ir.HasPermission "users:read")]].
Proof. apply policy_display_roundtrip; [reflexivity|reflexivity|exact I]. Defined.

(** What a feature-local category grants at run time, exactly.  Up to one
    unconditional atom, the category is the disjunction of its atoms, the
    conditional ones under their guards.  From two unconditional atoms on, the
    emitted list is [( a or b ) c ...] without an [or] before [c], and the
    conditional atoms are never consulted. *)
Theorem local_policy_semantics name p c :
  find_category name p = Some c -> plain name = true ->
  forallb atom_ok (pc_atoms c) = true ->
  forallb (fun ca => atom_ok (ca_atom ca)) (pc_conditional_atoms c) = true ->
  category_atoms c <> [] ->
  exists pol, format_local_policy name p = Some (go_policy_literal pol) /\
  forall hasRole hasPerm ctx input,
    let m := atomMatchesInput hasRole hasPerm ctx input in
    EvalPolicyInput hasRole hasPerm ctx input pol =
    Some (if existsb m (List.map atom_of (pc_atoms c)) ||
             (if (2 <=? List.length (pc_atoms c))%nat then false
              else existsb m (List.map cond_atom_of (pc_conditional_atoms c)))
          then Ok tt else Err PolicyDenied).
Proof.
  intros Hc Hn Ha Hca Hne. eexists. split.
  - apply format_local_literal; [done..| |].
    + apply List.forallb_forall. intros x Hx. rewrite List.forallb_forall in Ha. apply Ha in Hx.
      unfold atom_ok in Hx. by bool_prop.
    + apply List.forallb_forall. intros x Hx. rewrite List.forallb_forall in Hca. apply Hca in Hx.
      unfold atom_ok in Hx. by bool_prop.
  - intros. by apply eval_category.
Qed.

Definition two_plus_one : PolicyCategory :=
  {| pc_name := "edit"; pc_atoms := ["@role.admin"; "@role.owner"];
     pc_conditional_atoms := [{| ca_atom := "@role.host";
       ca_when := Closed (Comparison (EPath {| segments := ["input"; "scope"] |}) Eq_ (EString "media")) |}] |}.

Lemma local_policy_semantics_witness :
  exists pol, format_local_policy "edit" {| categories := [two_plus_one] |} = Some (go_policy_literal pol) /\
  forall hasRole hasPerm ctx input,
    let m := atomMatchesInput hasRole hasPerm ctx input in
    EvalPolicyInput hasRole hasPerm ctx input pol =
    Some (if existsb m (List.map atom_of (pc_atoms two_plus_one)) ||
             (if (2 <=? List.length (pc_atoms two_plus_one))%nat then false
              else existsb m (List.map cond_atom_of (pc_conditional_atoms two_plus_one)))
          then Ok tt else Err PolicyDenied).
Proof. apply local_policy_semantics; [reflexivity..|discriminate]. Defined.

(** A reference that resolves to no atoms fails closed: whatever the shape of
    the reference, the emitted policy denies every actor and every input. *)
Theorem unresolved_policy_denied policies r :
  unresolved policies r = true ->
  exists pol, format_policy_with_expr r None policies = go_policy_literal pol /\
  forall hasRole hasPerm ctx input, EvalPolicyInput hasRole hasPerm ctx input pol = Some (Err PolicyDenied).
Proof.
  intros H.
  enough (exists name, format_policy_with_expr r None policies = format_deny_policy name) as [name ->].
  { exists (deny_policy name). split; [apply format_deny_literal|]. intros. apply eval_deny. }
  destruct r as [name|atom|feature name|raw|]; try done; cbn [unresolved format_policy_with_expr] in *; [..|eauto].
  - destruct (p ← policies; find_category name p) eqn:E1; [done|]. rewrite (local_none policies name E1).
    destruct (builtin_scope_atom name) eqn:E2; [done|]. rewrite (builtin_none name E2).
    destruct (p ← policies; format_conditional_policy name p) as [[?|]|]; [done|eauto|eauto].
  - destruct (p ← policies; format_conditional_policy atom p) as [[?|]|]; [done|eauto|].
    cbn [andb] in H. destruct (strip_prefix "policy." (strip_at atom)) as [name|]; [|done].
    destruct (p ← policies; find_category name p) eqn:E1; [done|]. rewrite (local_none policies name E1).
    destruct (builtin_scope_atom name) eqn:E2; [done|]. rewrite (builtin_none name E2). eauto.
Qed.

Lemma unresolved_policy_denied_witness :
  exists pol, format_policy_with_expr (RAtom "policy.missing") None (Some {| categories := [two_plus_one] |}) =
    go_policy_literal pol /\
  forall hasRole hasPerm ctx input, EvalPolicyInput hasRole hasPerm ctx input pol = Some (Err PolicyDenied).
Proof. apply unresolved_policy_denied. reflexivity. Defined.

(** The inline list form does not check the namespace of its atoms, so an atom
    can spell a runtime marker: [@predicate.not, @role.admin] compiles to a policy
    that grants every caller. *)
Theorem inline_marker_grants line :
  exists ast, try_parse_policy_expr line "@predicate.not, @role.admin" = Some (Ok (Some ast)) /\
  exists atoms, render_policy_expr_atoms (lower_policy_expr ast) = List.map go_atom_literal atoms /\
  forall hasRole hasPerm ctx input name,
    EvalPolicyInput hasRole hasPerm ctx input {| PolicyName := name; Atoms := atoms |} = Some (Ok tt).
Proof.
  eexists. split; [reflexivity|]. eexists. split; [apply walk_flatten|]. intros. reflexivity.
Qed.
