(* ===== verification/Rbac.v ===== *)
(** The RBAC catalog pass ([lazuli_analyzer/src/rbac.rs]): duplicate and
    dangling references, inheritance cycles, permission closures, unused
    permissions. *)
From stdpp Require Import relations.
From S2P Require Import Prelude Str BTree Lex.

(** * Data *)

(** [lazuli_syntax/src/ast/feature/rbac.rs] and [lazuli_ir/src/nodes/rbac.rs];
    the two grant enums have the same variants. *)
Inductive RoleGrants := Explicit (list_ : list string) | All | InheritedOnly.

Record PermissionDeclAst := { p_name : string; p_segments : list string; p_span : Span }.
Record RoleDeclAst := {
  r_name : string; r_inherits : option string; r_grants : RoleGrants; r_span : Span
}.
Record PackageSkeleton := { permissions : list PermissionDeclAst; roles : list RoleDeclAst }.

Record PermissionEntry := { pe_name : string; pe_segments : list string; pe_span : option Span }.
Record RoleEntry := {
  re_name : string; re_inherits : option string; re_grants : RoleGrants;
  closure : list string; re_span : option Span
}.
Record RbacCatalog := { c_permissions : list PermissionEntry; c_roles : list RoleEntry }.

Record RbacIssue := { code_ : string; message : string; issue_span : option Span }.

(** * Passes *)

(** First occurrences enter the catalog, later ones are issues.  State: the
    entries, the names seen, the issues. *)
Definition dedupe_permission (st : list PermissionEntry * list string * list RbacIssue)
    (p : PermissionDeclAst) : list PermissionEntry * list string * list RbacIssue :=
  let '(entries, names, issues) := st in
  if bs_mem (p_name p) names then
    (entries, names, (issues ++ [{| code_ := "RBAC-PERM-DUPLICATE-001";
       message := "duplicate permission `" +:+ p_name p +:+ "` in catalog";
       issue_span := Some (p_span p) |}])%list)
  else
    ((entries ++ [{| pe_name := p_name p; pe_segments := p_segments p; pe_span := Some (p_span p) |}])%list,
     bs_insert (p_name p) names, issues).

Definition unknown_grants (perm_names : list string) (r : RoleDeclAst) : list RbacIssue :=
  match r_grants r with
  | Explicit l =>
    List.map (fun g => {| code_ := "RBAC-PERM-UNKNOWN-001";
        message := "role `" +:+ r_name r +:+ "` grants undeclared permission `" +:+ g +:+ "`";
        issue_span := Some (r_span r) |})
      (List.filter (fun g => negb (bs_mem g perm_names)) l)
  | _ => []
  end.

Definition dedupe_role (perm_names : list string) (st : list RoleEntry * list string * list RbacIssue)
    (r : RoleDeclAst) : list RoleEntry * list string * list RbacIssue :=
  let '(entries, names, issues) := st in
  if bs_mem (r_name r) names then
    (entries, names, (issues ++ [{| code_ := "RBAC-ROLE-DUPLICATE-001";
       message := "duplicate role `" +:+ r_name r +:+ "` in catalog";
       issue_span := Some (r_span r) |}])%list)
  else
    ((entries ++ [{| re_name := r_name r; re_inherits := r_inherits r; re_grants := r_grants r;
                     closure := []; re_span := Some (r_span r) |}])%list,
     bs_insert (r_name r) names, (issues ++ unknown_grants perm_names r)%list).

Definition unknown_inherits (role_names : list string) (rs : list RoleDeclAst) : list RbacIssue :=
  flat_map (fun r =>
    match r_inherits r with
    | Some parent =>
      if bs_mem parent role_names then []
      else [{| code_ := "RBAC-ROLE-INHERIT-UNKNOWN-001";
               message := "role `" +:+ r_name r +:+ "` inherits from unknown role `" +:+ parent +:+ "`";
               issue_span := Some (r_span r) |}]
    | None => []
    end) rs.

Definition role_parent_map (entries : list RoleEntry) : list (string * option string) :=
  bt_collect (List.map (fun r => (re_name r, re_inherits r)) entries).

(** [role_parent.get(&name).cloned().flatten()] *)
Definition parent_of (role_parent : list (string * option string)) (name : string) : option string :=
  mjoin (bt_get name role_parent).

(** The chain walk of the cycle detection: [None] is out of fuel, [Some None]
    an acyclic chain, [Some (Some (chain, name))] the repetition of [name]. *)
Fixpoint cycle_walk (fuel : nat) (parent : string -> option string) (chain : list string)
    (cur : option string) : option (option (list string * string)) :=
  match fuel with
  | O => None
  | S fuel =>
    match cur with
    | None => Some None
    | Some name =>
      if existsb (String.eqb name) chain then Some (Some (chain, name))
      else cycle_walk fuel parent (chain ++ [name])%list (parent name)
    end
  end.

(** Insertion sort, for [key.sort()]. *)
Fixpoint insert_sorted (x : string) (l : list string) : list string :=
  match l with
  | [] => [x]
  | y :: l' => match str_cmp x y with Gt => y :: insert_sorted x l' | _ => x :: l end
  end.
Definition sort (l : list string) : list string := List.fold_right insert_sorted [] l.

(** One role of the cycle loop; the state is [cycles_reported] and the issues. *)
Definition report_cycle (fuel : nat) (parent : string -> option string)
    (st : list string * list RbacIssue) (r : RoleEntry) : option (list string * list RbacIssue) :=
  let '(reported, issues) := st in
  found ← cycle_walk fuel parent [] (Some (re_name r));
  match found with
  | None => Some st
  | Some (chain, name) =>
    let key := join "," (sort (chain ++ [name])%list) in
    if bs_mem key reported then Some st
    else Some (bs_insert key reported, (issues ++ [{| code_ := "RBAC-CYCLE-001";
           message := "role inheritance cycle detected: " +:+ join " -> " chain +:+ " -> " +:+ name;
           issue_span := re_span r |}])%list)
  end.

Fixpoint report_cycles (fuel : nat) (parent : string -> option string)
    (st : list string * list RbacIssue) (rs : list RoleEntry) : option (list string * list RbacIssue) :=
  match rs with
  | [] => Some st
  | r :: rs => st ← report_cycle fuel parent st r; report_cycles fuel parent st rs
  end.

(** The closure walk.  State: [acc], [visited], [stack]; the result is
    [bail_all] and [acc]. *)
Fixpoint closure_walk (fuel : nat) (grants : string -> option RoleGrants) (parent : string -> option string)
    (all_perms : list string) (acc visited stack : list string) : option (bool * list string) :=
  match fuel with
  | O => None
  | S fuel =>
    match stack with
    | [] => Some (false, acc)
    | name :: stack =>
      if bs_mem name visited then closure_walk fuel grants parent all_perms acc visited stack
      else
        let visited := bs_insert name visited in
        let push := match parent name with Some p => p :: stack | None => stack end in
        match grants name with
        | Some All => Some (true, acc)
        | Some (Explicit l) =>
          let acc := fold_left (fun acc g => if existsb (String.eqb g) all_perms then bs_insert g acc else acc) l acc in
          closure_walk fuel grants parent all_perms acc visited push
        | Some InheritedOnly | None => closure_walk fuel grants parent all_perms acc visited push
        end
    end
  end.

Definition role_closure (fuel : nat) (grants : string -> option RoleGrants) (parent : string -> option string)
    (all_perms : list string) (name : string) : option (list string) :=
  '(bail_all, acc) ← closure_walk fuel grants parent all_perms [] [] [name];
  Some (if bail_all : bool then all_perms else acc).

Fixpoint close_roles (fuel : nat) (grants : string -> option RoleGrants) (parent : string -> option string)
    (all_perms : list string) (rs : list RoleEntry) : option (list RoleEntry) :=
  match rs with
  | [] => Some []
  | r :: rs =>
    c ← role_closure fuel grants parent all_perms (re_name r);
    rs ← close_roles fuel grants parent all_perms rs;
    Some ({| re_name := re_name r; re_inherits := re_inherits r; re_grants := re_grants r;
             closure := c; re_span := re_span r |} :: rs)
  end.

Definition is_all (g : RoleGrants) : bool := match g with All => true | _ => false end.

Definition unused_issue (p : PermissionEntry) : RbacIssue :=
  {| code_ := "RBAC-PERM-UNUSED-001";
     message := "permission `" +:+ pe_name p +:+ "` is declared but no role grants it";
     issue_span := pe_span p |}.

Definition unused_permissions (perms : list PermissionEntry) (rs : list RoleEntry) : list RbacIssue :=
  if existsb (fun r => is_all (re_grants r)) rs then []
  else
    let used := bs_collect (flat_map closure rs) in
    List.map unused_issue
      (List.filter (fun p => negb (bs_mem (pe_name p) used)) perms).

Definition walk_fuel (entries : list RoleEntry) : nat := List.length entries + 3.

(** [analyze_rbac_catalog]; the outer [None] would be an endless walk. *)
Definition analyze_rbac_catalog (pkg : PackageSkeleton)
    : option (option RbacCatalog * list RbacIssue) :=
  if (List.length (permissions pkg) =? 0)%nat && (List.length (roles pkg) =? 0)%nat then Some (None, []) else
  let '(perm_entries, perm_names, perm_issues) :=
    fold_left dedupe_permission (permissions pkg) ([], [], []) in
  let '(role_entries, _, role_issues) :=
    fold_left (dedupe_role perm_names) (roles pkg) ([], [], []) in
  let inherit_issues := unknown_inherits (bs_collect (List.map re_name role_entries)) (roles pkg) in
  let role_parent := role_parent_map role_entries in
  let fuel := walk_fuel role_entries in
  '(_, cycle_issues) ← report_cycles fuel (parent_of role_parent) ([], []) role_entries;
  let all_perm_names := List.map pe_name perm_entries in
  let grants_by_role := bt_collect (List.map (fun r => (re_name r, re_grants r)) role_entries) in
  closed ← close_roles fuel (fun n => bt_get n grants_by_role) (parent_of role_parent) all_perm_names role_entries;
  Some (Some {| c_permissions := perm_entries; c_roles := closed |},
        (perm_issues ++ role_issues ++ inherit_issues ++ cycle_issues ++ unused_permissions perm_entries closed)%list).

(** [role_grants_permission] *)
Definition role_grants_permission (catalog : RbacCatalog) (role perm : string) : bool :=
  match List.find (fun r => re_name r =? role) (c_roles catalog) with
  | Some r => existsb (fun p => p =? perm) (closure r)
  | None => false
  end.

(** * Lemmas *)

(** ** Chains of a functional graph *)

Section Chain.
Variable parent : string -> option string.
Variable start : string.

(** The [n]-th name of the chain from [start]. *)
Fixpoint step (n : nat) : option string :=
  match n with O => Some start | S n => step n ≫= parent end.

Definition inherits (x y : string) : Prop := parent x = Some y.

Lemma step_rtc y : rtc inherits start y <-> exists n, step n = Some y.
Proof.
  split.
  - intros H. apply rtc_nsteps in H as [n H]. exists n. revert y H. induction n as [|n IH]; intros y H.
    + inversion H; by subst.
    + apply nsteps_inv_r in H as (x & Hx & Hy). simpl. by rewrite (IH x Hx).
  - intros [n H]. revert y H. induction n as [|n IH]; intros y H; simpl in H.
    + by injection H as <-.
    + apply bind_Some in H as (x & Hx & Hy). eapply rtc_r; [by apply IH|done].
Qed.

Lemma step_None_le n m : n <= m -> step n = None -> step m = None.
Proof. induction 1 as [|m Hm IH]; [done|]. intros H. simpl. by rewrite IH. Qed.

Lemma step_shift n m k : step n = step m -> step (n + k) = step (m + k).
Proof. intros H. induction k as [|k IH]; [by rewrite !Nat.add_0_r|]. rewrite !Nat.add_succ_r. simpl. by rewrite IH. Qed.

(** Once a name repeats, the chain has shown everything it reaches. *)
Lemma step_covered k i : i < k -> step i = step k ->
  forall j, exists i', i' < k /\ step j = step i'.
Proof.
  intros Hi Hk j. induction (lt_wf j) as [j _ IH]. destruct (decide (j < k)) as [?|Hj]; [by exists j|].
  destruct (IH (i + (j - k))) as (i' & Hi' & E); [lia|]. exists i'. split; [done|]. rewrite <- E.
  replace (step j) with (step (k + (j - k))) by (f_equal; lia). by apply step_shift.
Qed.

(** The first [k] names. *)
Definition prefix (k : nat) : list string := omap step (seq 0 k).

Lemma prefix_S k : prefix (S k) = (prefix k ++ match step k with Some x => [x] | None => [] end)%list.
Proof. unfold prefix. rewrite seq_S, omap_app. simpl. by destruct (step k). Qed.

Lemma prefix_In k x : In x (prefix k) <-> exists i, i < k /\ step i = Some x.
Proof.
  unfold prefix. rewrite <- list_elem_of_In, list_elem_of_omap. split.
  - intros (i & Hi%elem_of_seq & Hx). exists i. split; [lia|done].
  - intros (i & Hi & Hx). exists i. split; [apply elem_of_seq; lia|done].
Qed.

Lemma prefix_length k : (forall i, i < k -> step i <> None) -> List.length (prefix k) = k.
Proof.
  induction k as [|k IH]; intros H; [done|]. rewrite prefix_S, length_app, IH by (intros; apply H; lia).
  destruct (step k) eqn:E; simpl; [lia|]. exfalso. by apply (H k); [lia|].
Qed.

(** Names that have a parent. *)
Variable keys : list string.
Hypothesis keys_complete : forall x y, parent x = Some y -> In x keys.

(** Pigeonhole: a chain without repetition that can still be extended is no
    longer than the number of names with a parent. *)
Lemma prefix_bound k : NoDup (prefix k) -> step k <> None -> k <= List.length keys.
Proof.
  intros Hn Hs. rewrite <- (prefix_length k).
  - apply List.NoDup_incl_length; [by apply NoDup_ListNoDup|]. intros x (i & Hi & Hx)%prefix_In.
    destruct (step (S i)) as [y|] eqn:E.
    + simpl in E. rewrite Hx in E. by apply (keys_complete x y).
    + exfalso. apply Hs. apply (step_None_le (S i)); [lia|done].
  - intros i Hi E. apply Hs. apply (step_None_le i); [lia|done].
Qed.

(** ** The cycle walk *)

Lemma cycle_walk_spec fuel k : NoDup (prefix k) -> List.length keys + 1 - k < fuel ->
  (exists m, cycle_walk fuel parent (prefix k) (step k) = Some None /\ step m = None) \/
  (exists m name, cycle_walk fuel parent (prefix k) (step k) = Some (Some (prefix m, name)) /\
                step m = Some name /\ In name (prefix m)).
Proof.
  revert k. induction fuel as [|fuel IH]; intros k Hn Hf; [lia|]. cbn [cycle_walk].
  destruct (step k) as [name|] eqn:E; [|left; by exists k].
  destruct (existsb (String.eqb name) (prefix k)) eqn:Ex.
  - right. exists k, name. split_and!; [done..|]. apply existsb_In in Ex as (y & Hy & Heq). bool_prop. by subst.
  - assert (Hfresh : ~ In name (prefix k)).
    { intros Hin. apply existsb_false with (x := name) in Ex; [|done]. by rewrite String.eqb_refl in Ex. }
    assert (Hp : prefix (S k) = (prefix k ++ [name])%list) by (by rewrite prefix_S, E).
    assert (Hs : parent name = step (S k)) by (simpl; by rewrite E).
    assert (Hn' : NoDup (prefix (S k))).
    { rewrite Hp. apply NoDup_app. split_and!; [done| |apply NoDup_singleton].
      intros x Hx%list_elem_of_In ->%list_elem_of_singleton. done. }
    rewrite <- Hp, Hs. destruct (step (S k)) as [y|] eqn:E'.
    + destruct (IH (S k)) as [(m & Hm)|(m & nm & Hm)]; [done| | |].
      * assert (S k <= List.length keys) by (apply prefix_bound; [done|by rewrite E']). lia.
      * left. exists m. by rewrite <- E'.
      * right. exists m, nm. by rewrite <- E'.
    + left. exists (S k). split; [|done]. destruct fuel as [|fuel]; [|done].
      exfalso. assert (k <= List.length keys) by (apply prefix_bound; [done|by rewrite E]). lia.
Qed.

Lemma step_tc i j x y : i < j -> step i = Some x -> step j = Some y -> tc inherits x y.
Proof.
  intros Hij Hx. revert y. induction Hij as [|j Hij IH]; intros y Hy.
  - simpl in Hy. rewrite Hx in Hy. by apply tc_once.
  - destruct (step j) as [z|] eqn:E.
    + eapply tc_r; [by apply IH|]. simpl in Hy. by rewrite E in Hy.
    + simpl in Hy. by rewrite E in Hy.
Qed.

(** A chain that enters a cycle never ends. *)
Lemma step_cycle_endless n x m : step n = Some x -> tc inherits x x -> step m <> None.
Proof.
  intros Hn Hx%tc_nsteps Hm. destruct Hx as (p & Hp & Hx).
  assert (Hadv : forall q a b, nsteps inherits q a b -> forall n, step n = Some a -> step (n + q) = Some b).
  { clear. intros q a b H. induction H as [a|q a b c Hab H IH]; intros n Hn; [by rewrite Nat.add_0_r|].
    replace (n + S q) with (S n + q) by lia. apply IH. simpl. by rewrite Hn. }
  assert (Hq : forall q, step (n + q * p) = Some x).
  { induction q as [|q IH]; [by rewrite Nat.add_0_r|]. simpl. replace (n + (p + q * p)) with ((n + q * p) + p) by lia.
    by apply (Hadv p x x Hx). }
  specialize (Hq m). rewrite (step_None_le m) in Hq; [done| |done]. nia.
Qed.

(** The walk finds a repetition exactly when the chain enters a cycle. *)
Lemma cycle_walk_exact fuel : List.length keys + 1 < fuel ->
  exists r, cycle_walk fuel parent [] (Some start) = Some r /\
  match r with
  | Some _ => exists x, rtc inherits start x /\ tc inherits x x
  | None => ~ exists x, rtc inherits start x /\ tc inherits x x
  end.
Proof.
  intros Hf. destruct (cycle_walk_spec fuel 0) as [(m & Hw & Hm)|(m & name & Hw & Hm & Hin)];
    [apply NoDup_nil_2|lia|..]; cbn [step prefix seq omap list_omap] in Hw.
  - exists None. split; [done|]. intros (x & [n Hn]%step_rtc & Hx).
    by apply (step_cycle_endless n x m).
  - eexists. split; [done|]. exists name.
    apply prefix_In in Hin as (i & Hi & Hs). split; [apply step_rtc; eauto|]. by apply (step_tc i m).
Qed.

(** ** The closure walk *)

Variable grants : string -> option RoleGrants.
Variable all_perms : list string.

Definition explicit (x g : string) : Prop := exists l, grants x = Some (Explicit l) /\ In g l.

Lemma fold_grants_In l acc g :
  In g (fold_left (fun acc g => if existsb (String.eqb g) all_perms then bs_insert g acc else acc) l acc) <->
  In g acc \/ (In g l /\ In g all_perms).
Proof.
  revert acc. induction l as [|h l IH]; intros acc; simpl; [tauto|]. rewrite IH.
  destruct (existsb (String.eqb h) all_perms) eqn:E.
  - apply existsb_In in E as (y & Hy & Heq). bool_prop. subst y. rewrite bs_insert_In.
    naive_solver.
  - assert (Hh : ~ In h all_perms).
    { intros Hin. apply existsb_false with (x := h) in E; [|done]. by rewrite String.eqb_refl in E. }
    naive_solver.
Qed.

Lemma fold_grants_sorted l acc : bs_sorted acc ->
  bs_sorted (fold_left (fun acc g => if existsb (String.eqb g) all_perms then bs_insert g acc else acc) l acc).
Proof.
  revert acc. induction l as [|h l IH]; intros acc H; simpl; [done|]. apply IH. case_match; [|done].
  by apply bs_insert_sorted.
Qed.

(** What the walk knows after [k] roles of the chain. *)
Record closure_inv (k : nat) (acc visited : list string) : Prop := {
  ci_nodup : NoDup (prefix k);
  ci_visited : forall x, In x visited <-> In x (prefix k);
  ci_sorted : bs_sorted acc;
  ci_acc : forall g, In g acc <-> In g all_perms /\ exists x, In x (prefix k) /\ explicit x g;
  ci_no_all : forall x, In x (prefix k) -> grants x <> Some All
}.

Definition closure_result (bail : bool) (acc : list string) : Prop :=
  if bail then exists x, rtc inherits start x /\ grants x = Some All
  else bs_sorted acc /\ (forall x, rtc inherits start x -> grants x <> Some All) /\
       forall g, In g acc <-> In g all_perms /\ exists x, rtc inherits start x /\ explicit x g.

(** The chain ended or repeats: the prefix is everything reachable. *)
Lemma closure_inv_done k acc visited : closure_inv k acc visited ->
  (step k = None \/ exists i, i < k /\ step i = step k) -> closure_result false acc.
Proof.
  intros [Hn Hv Hs Ha Hall] Hdone.
  assert (Hcov : forall x, rtc inherits start x <-> In x (prefix k)).
  { intros x. rewrite step_rtc, prefix_In. split; [|intros (i & _ & ?); eauto]. intros [j Hj].
    destruct Hdone as [Hnone|(i & Hi & Heq)].
    - exists j. split; [|done]. destruct (decide (j < k)) as [?|?]; [done|].
      rewrite (step_None_le k) in Hj; [done|lia|done].
    - destruct (step_covered k i Hi Heq j) as (i' & Hi' & E). exists i'. by rewrite <- E. }
  split_and!; [done|intros x Hx; apply Hall; by apply Hcov|].
  intros g. rewrite Ha. setoid_rewrite Hcov. done.
Qed.

Lemma closure_inv_step k acc visited acc' name : closure_inv k acc visited ->
  step k = Some name -> ~ In name (prefix k) -> grants name <> Some All -> bs_sorted acc' ->
  (forall g, In g acc' <-> In g acc \/ (In g all_perms /\ explicit name g)) ->
  closure_inv (S k) acc' (bs_insert name visited).
Proof.
  intros [Hn Hv Hs Ha Hall] E Hfresh Hna Hs' Hacc.
  assert (Hp : prefix (S k) = (prefix k ++ [name])%list) by (by rewrite prefix_S, E).
  assert (Hin : forall x, In x (prefix (S k)) <-> In x (prefix k) \/ x = name).
  { intros x. rewrite Hp, in_app_iff. simpl. naive_solver. }
  split; [| |done| |].
  - rewrite Hp. apply NoDup_app. split_and!; [done| |apply NoDup_singleton].
    intros x Hx%list_elem_of_In ->%list_elem_of_singleton. done.
  - intros x. rewrite Hin, bs_insert_In, Hv. tauto.
  - intros g. rewrite Hacc, Ha. setoid_rewrite Hin. naive_solver.
  - intros x [Hx | ->]%Hin; auto.
Qed.

Lemma closure_walk_spec fuel k acc visited : closure_inv k acc visited -> List.length keys + 2 - k < fuel ->
  exists bail acc',
    closure_walk fuel grants parent all_perms acc visited (match step k with Some x => [x] | None => [] end) =
      Some (bail, acc') /\ closure_result bail acc'.
Proof.
  revert k acc visited. induction fuel as [|fuel IH]; intros k acc visited Hinv Hf; [lia|].
  cbn [closure_walk]. destruct (step k) as [name|] eqn:E.
  2: { exists false, acc. split; [done|]. eapply closure_inv_done; [done|by left]. }
  assert (Hk : k <= List.length keys) by (apply prefix_bound; [by destruct Hinv|by rewrite E]).
  destruct (bs_mem name visited) eqn:Ev.
  { apply bs_mem_In, (ci_visited _ _ _ Hinv), prefix_In in Ev as (i & Hi & Hs).
    destruct fuel as [|fuel]; [lia|]. exists false, acc. split; [done|].
    eapply closure_inv_done; [done|]. right. exists i. by rewrite Hs, E. }
  assert (Hfresh : ~ In name (prefix k)).
  { intros Hin%(ci_visited _ _ _ Hinv). by apply bs_mem_false in Ev. }
  assert (Hnext : (match parent name with Some p => [p] | None => [] end) =
                  match step (S k) with Some x => [x] | None => [] end) by (simpl; by rewrite E).
  assert (Hrec : forall acc', grants name <> Some All -> bs_sorted acc' ->
    (forall g, In g acc' <-> In g acc \/ (In g all_perms /\ explicit name g)) ->
    exists bail acc'',
    closure_walk fuel grants parent all_perms acc' (bs_insert name visited)
      (match parent name with Some p => [p] | None => [] end) = Some (bail, acc'') /\ closure_result bail acc'').
  { intros acc' Hna Hs' Hacc. rewrite Hnext. apply IH; [|lia]. by eapply closure_inv_step. }
  destruct Hinv as [_ _ Hsorted _ _].
  destruct (grants name) as [[l| |]|] eqn:Eg.
  - apply Hrec; [done|by apply fold_grants_sorted|]. intros g. rewrite fold_grants_In. unfold explicit. rewrite Eg.
    naive_solver.
  - exists true, acc. split; [done|]. exists name. split; [apply step_rtc; eauto|done].
  - apply Hrec; [done..|]. intros g. unfold explicit. rewrite Eg. naive_solver.
  - apply Hrec; [done..|]. intros g. unfold explicit. rewrite Eg. naive_solver.
Qed.

(** A role's closure is exactly what the roles it inherits from grant. *)
Lemma role_closure_exact fuel : List.length keys + 2 < fuel ->
  exists c, role_closure fuel grants parent all_perms start = Some c /\
  forall g, In g c <-> In g all_perms /\
    exists x, rtc inherits start x /\ (grants x = Some All \/ explicit x g).
Proof.
  intros Hf. destruct (closure_walk_spec fuel 0 [] []) as (bail & acc & Hw & Hr).
  { split; [apply NoDup_nil_2|done|done| |done]. intros g. split; [done|]. by intros (_ & x & [] & _). }
  { lia. }
  cbn [step] in Hw. unfold role_closure. rewrite Hw. cbn [mbind option_bind]. eexists. split; [done|].
  intros g. destruct bail.
  - destruct Hr as (x & Hx & Hg). split; [|tauto]. intros H. split; [done|]. exists x. auto.
  - destruct Hr as (_ & Hno & Hacc). rewrite Hacc. split.
    + intros (H & x & Hx & Hg). split; [done|]. exists x. auto.
    + intros (H & x & Hx & [Hg|Hg]); [by apply Hno in Hg|]. split; [done|]. eauto.
Qed.
End Chain.

(** ** Catalog entries *)

(** Collecting unique keys: lookup is membership. *)
Lemma collect_get_unique {A V} (key : A -> string) (val : A -> V) l k v :
  List.NoDup (List.map key l) ->
  bt_get k (bt_collect (List.map (fun r => (key r, val r)) l)) = Some v <->
  exists r, In r l /\ key r = k /\ val r = v.
Proof.
  intros Hn. rewrite bt_collect_get. split.
  - destruct (List.find _ _) as [[k' v']|] eqn:E; [|done]. intros [= <-].
    apply find_some in E as [Hin Heq]. apply keqb_eq in Heq. cbn [fst snd] in *. subst k'.
    apply in_rev, in_map_iff in Hin as (r & [= <- <-] & Hr). eauto.
  - intros (r & Hr & <- & <-).
    destruct (List.find _ _) as [[k' v']|] eqn:E.
    + apply find_some in E as [Hin Heq]. apply keqb_eq in Heq. cbn [fst snd] in *. subst k'.
      apply in_rev, in_map_iff in Hin as (r' & [= Hk <-] & Hr'). cbn. f_equal. f_equal.
      clear -Hn Hr Hr' Hk. induction l as [|a l IH]; [done|]. cbn [List.map] in Hn. inversion_clear Hn as [|?? Ha Hn'].
      destruct Hr as [<-|Hr], Hr' as [<-|Hr']; [done| | |by apply IH].
      * exfalso. apply Ha. rewrite <- Hk. by apply in_map.
      * exfalso. apply Ha. rewrite Hk. by apply in_map.
    + exfalso. assert (Hin : In (key r, val r) (rev (List.map (fun r => (key r, val r)) l))).
      { rewrite <- in_rev. apply in_map_iff. eauto. }
      apply (find_none _ _ E) in Hin. cbn [fst] in Hin. by rewrite keqb_refl in Hin.
Qed.

Definition role_entry_ok (entries : list RoleEntry) (names : list string) : Prop :=
  List.NoDup (List.map re_name entries) /\ forall n, In n names <-> In n (List.map re_name entries).

Lemma NoDup_snoc {A} (l : list A) x : List.NoDup l -> ~ In x l -> List.NoDup (l ++ [x])%list.
Proof.
  intros Hl Hx. apply NoDup_ListNoDup, NoDup_app. rewrite NoDup_ListNoDup. split_and!; [done| |apply NoDup_singleton].
  intros y Hy%list_elem_of_In ->%list_elem_of_singleton. done.
Qed.

Lemma dedupe_roles_ok pn rs entries names issues :
  role_entry_ok entries names ->
  let '(entries', names', _) := fold_left (dedupe_role pn) rs (entries, names, issues) in
  role_entry_ok entries' names'.
Proof.
  revert entries names issues. induction rs as [|r rs IH]; intros entries names issues [Hn Hv]; [done|].
  cbn [fold_left dedupe_role]. destruct (bs_mem (r_name r) names) eqn:E; [by apply IH|]. apply IH. split.
  - rewrite map_app. apply NoDup_snoc; [done|]. cbn. rewrite <- Hv. by apply bs_mem_false in E.
  - intros n. rewrite bs_insert_In, map_app, in_app_iff, Hv. cbn. naive_solver.
Qed.

Lemma dedupe_perms_nodup ps entries names issues :
  List.NoDup (List.map pe_name entries) /\ (forall n, In n names <-> In n (List.map pe_name entries)) ->
  let '(entries', names', _) := fold_left dedupe_permission ps (entries, names, issues) in
  List.NoDup (List.map pe_name entries').
Proof.
  revert entries names issues. induction ps as [|p ps IH]; intros entries names issues [Hn Hv]; [done|].
  cbn [fold_left dedupe_permission]. destruct (bs_mem (p_name p) names) eqn:E; [by apply IH|]. apply IH. split.
  - rewrite map_app. apply NoDup_snoc; [done|]. cbn. rewrite <- Hv. by apply bs_mem_false in E.
  - intros n. rewrite bs_insert_In, map_app, in_app_iff, Hv. cbn. naive_solver.
Qed.

(** *** Which codes each pass emits *)

Definition codes_in (cs : list string) (issues : list RbacIssue) : Prop := Forall (fun i => In (code_ i) cs) issues.

Lemma dedupe_perms_codes ps entries names issues cs : In "RBAC-PERM-DUPLICATE-001" cs -> codes_in cs issues ->
  let '(_, _, issues') := fold_left dedupe_permission ps (entries, names, issues) in codes_in cs issues'.
Proof.
  intros Hc. revert entries names issues. induction ps as [|p ps IH]; intros entries names issues H; [done|].
  cbn [fold_left dedupe_permission]. destruct (bs_mem (p_name p) names); apply IH; [|done].
  apply Forall_app. split; [done|]. by repeat constructor.
Qed.

Lemma dedupe_roles_codes pn rs entries names issues cs :
  In "RBAC-ROLE-DUPLICATE-001" cs -> In "RBAC-PERM-UNKNOWN-001" cs -> codes_in cs issues ->
  let '(_, _, issues') := fold_left (dedupe_role pn) rs (entries, names, issues) in codes_in cs issues'.
Proof.
  intros Hc Hu. revert entries names issues. induction rs as [|r rs IH]; intros entries names issues H; [done|].
  cbn [fold_left dedupe_role]. destruct (bs_mem (r_name r) names); apply IH; apply Forall_app; split; try done.
  - by repeat constructor.
  - unfold unknown_grants. destruct (r_grants r); [|constructor..]. apply List.Forall_map, List.Forall_forall. done.
Qed.

Lemma unknown_inherits_codes names rs : codes_in ["RBAC-ROLE-INHERIT-UNKNOWN-001"] (unknown_inherits names rs).
Proof.
  apply List.Forall_forall. intros i Hi. unfold unknown_inherits in Hi. apply in_flat_map in Hi as (r & _ & Hi).
  destruct (r_inherits r); [|done]. destruct (bs_mem _ _); [done|]. destruct Hi as [<-|[]]. by left.
Qed.

Lemma unused_codes ps rs : codes_in ["RBAC-PERM-UNUSED-001"] (unused_permissions ps rs).
Proof.
  unfold unused_permissions. case_match; [constructor|]. apply List.Forall_map, List.Forall_forall.
  intros. by left.
Qed.

(** *** Cycles over all roles *)

Lemma report_cycles_spec fuel parent rs st :
  (forall r, In r rs -> cycle_walk fuel parent [] (Some (re_name r)) <> None) ->
  (st.1 = [] <-> st.2 = []) -> codes_in ["RBAC-CYCLE-001"] st.2 ->
  exists st', report_cycles fuel parent st rs = Some st' /\ codes_in ["RBAC-CYCLE-001"] st'.2 /\
    (st'.2 <> [] <-> st.2 <> [] \/ exists r x, In r rs /\ cycle_walk fuel parent [] (Some (re_name r)) = Some (Some x)).
Proof.
  revert st. induction rs as [|r rs IH]; intros [reported issues] Ht Hst Hc.
  - exists (reported, issues). split_and!; [done..|]. split; [tauto|]. intros [?|(? & ? & [] & _)]; done.
  - cbn [report_cycles report_cycle]. destruct (cycle_walk fuel parent [] (Some (re_name r))) as [[[chain name]|]|] eqn:E.
    + cbn [mbind option_bind]. set (key := join "," _).
      destruct (bs_mem key reported) eqn:Ek; cbn [mbind option_bind].
      * destruct (IH (reported, issues)) as (st' & Hr & Hc' & Hiff); [by intros; apply Ht; right|done|done|].
        exists st'. split_and!; [done..|]. rewrite Hiff. cbn [snd]. split.
        -- intros [?|(r' & x & ? & ?)]; [by left|]. right. exists r', x. split; [by right|done].
        -- intros [?|(r' & x & [<-|Hin] & Hx)]; [by left| |right; eauto]. left. cbn in Hst. rewrite <- Hst.
           by destruct reported.
      * destruct (IH (bs_insert key reported, (issues ++ [{| code_ := "RBAC-CYCLE-001";
           message := "role inheritance cycle detected: " +:+ join " -> " chain +:+ " -> " +:+ name;
           issue_span := re_span r |}])%list)) as (st' & Hr & Hc' & Hiff).
        { by intros; apply Ht; right. }
        { cbn. split; intros H.
          - exfalso. assert (In key (bs_insert key reported)) as Hin by (apply bs_insert_In; by left). by rewrite H in Hin.
          - by apply app_eq_nil in H as [_ ?]. }
        { apply Forall_app. split; [done|]. repeat constructor. }
        exists st'. split_and!; [done..|]. rewrite Hiff. split; [|intros _; left; cbn; by destruct issues].
        intros _. right. exists r, (chain, name). split; [by left|done].
    + cbn [mbind option_bind].
      destruct (IH (reported, issues)) as (st' & Hr & Hc' & Hiff); [by intros; apply Ht; right|done|done|].
      exists st'. split_and!; [done..|]. rewrite Hiff. split.
      * intros [?|(r' & x & ? & ?)]; [by left|]. right. exists r', x. split; [by right|done].
      * intros [?|(r' & x & [<-|Hin] & Hx)]; [by left|congruence|right; eauto].
    + exfalso. apply (Ht r); [by left|done].
Qed.

Lemma close_roles_spec fuel grants parent perms rs :
  (forall r, In r rs -> role_closure fuel grants parent perms (re_name r) <> None) ->
  exists closed, close_roles fuel grants parent perms rs = Some closed /\
  Forall2 (fun r c => re_name c = re_name r /\ re_inherits c = re_inherits r /\ re_grants c = re_grants r /\
             role_closure fuel grants parent perms (re_name r) = Some (closure c)) rs closed.
Proof.
  induction rs as [|r rs IH]; intros Ht; [eexists; split; [done|constructor]|].
  cbn [close_roles]. destruct (role_closure fuel grants parent perms (re_name r)) as [c|] eqn:E; [|by exfalso; eapply Ht; [left|]].
  destruct IH as (closed & Hc & Hf); [intros; apply Ht; by right|]. cbn [mbind option_bind]. rewrite Hc. cbn [mbind option_bind].
  eexists. split; [done|]. by constructor.
Qed.

(** *** The catalog as a graph *)

(** [x] inherits from [y], in a list of catalog entries. *)
Definition inherits_in (rs : list RoleEntry) (x y : string) : Prop :=
  exists r, In r rs /\ re_name r = x /\ re_inherits r = Some y.

(** Some role named [a] grants [p] itself. *)
Definition grants_in (rs : list RoleEntry) (a p : string) : Prop :=
  exists r, In r rs /\ re_name r = a /\
    (re_grants r = All \/ exists l, re_grants r = Explicit l /\ In p l).

Lemma parent_of_iff rs x y : List.NoDup (List.map re_name rs) ->
  parent_of (role_parent_map rs) x = Some y <-> inherits_in rs x y.
Proof.
  intros Hn. unfold parent_of, role_parent_map, inherits_in. split.
  - intros H. destruct (bt_get x _) as [o|] eqn:E; [|done]. cbn in H. subst o.
    by apply (collect_get_unique re_name re_inherits) in E.
  - intros H. apply (collect_get_unique re_name re_inherits rs x (Some y) Hn) in H. by rewrite H.
Qed.

Lemma tc_iff {A} (R S : A -> A -> Prop) : (forall x y, R x y <-> S x y) -> forall x y, tc R x y <-> tc S x y.
Proof. intros H x y. split; induction 1; (econstructor; [by apply H|done]) || (constructor; by apply H). Qed.
Lemma rtc_iff {A} (R S : A -> A -> Prop) : (forall x y, R x y <-> S x y) -> forall x y, rtc R x y <-> rtc S x y.
Proof. intros H x y. split; induction 1; (econstructor; [by apply H|done]) || constructor. Qed.

(** What [analyze_rbac_catalog] computes, pass by pass. *)
Record analysis (pkg : PackageSkeleton) (cat : RbacCatalog) (issues : list RbacIssue) : Prop := {
  an_names : List.NoDup (List.map re_name (c_roles cat));
  an_closure : forall r, In r (c_roles cat) -> forall g, In g (closure r) <->
    In g (List.map pe_name (c_permissions cat)) /\
    exists a, rtc (inherits_in (c_roles cat)) (re_name r) a /\ grants_in (c_roles cat) a g;
  an_issues : exists others cycles,
    issues = (others ++ cycles ++ unused_permissions (c_permissions cat) (c_roles cat))%list /\
    codes_in ["RBAC-PERM-DUPLICATE-001"; "RBAC-ROLE-DUPLICATE-001"; "RBAC-PERM-UNKNOWN-001";
              "RBAC-ROLE-INHERIT-UNKNOWN-001"] others /\
    codes_in ["RBAC-CYCLE-001"] cycles /\
    (cycles <> [] <-> exists x, tc (inherits_in (c_roles cat)) x x)
}.

Lemma Forall2_names (rs closed : list RoleEntry) (P : RoleEntry -> RoleEntry -> Prop) :
  Forall2 (fun r c => re_name c = re_name r /\ re_inherits c = re_inherits r /\ re_grants c = re_grants r /\ P r c) rs closed ->
  List.map re_name closed = List.map re_name rs /\
  (forall x y, inherits_in closed x y <-> inherits_in rs x y) /\
  (forall a p, grants_in closed a p <-> grants_in rs a p).
Proof.
  unfold inherits_in, grants_in. induction 1 as [|r c rs closed (Hn & Hi & Hg & _) H (IH1 & IH2 & IH3)]; [done|].
  split_and!.
  - cbn. by rewrite Hn, IH1.
  - intros x y. split; intros (z & [<-|Hz] & H1 & H2).
    + exists r. split; [by left|]. by rewrite <- Hn, <- Hi.
    + destruct (IH2 x y) as [Hf _]. destruct Hf as (w & ? & ?); [eauto|]. exists w. split; [by right|done].
    + exists c. split; [by left|]. by rewrite Hn, Hi.
    + destruct (IH2 x y) as [_ Hf]. destruct Hf as (w & ? & ?); [eauto|]. exists w. split; [by right|done].
  - intros a p. split; intros (z & [<-|Hz] & H1 & H2).
    + exists r. split; [by left|]. by rewrite <- Hn, <- Hg.
    + destruct (IH3 a p) as [Hf _]. destruct Hf as (w & ? & ?); [eauto|]. exists w. split; [by right|done].
    + exists c. split; [by left|]. by rewrite Hn, Hg.
    + destruct (IH3 a p) as [_ Hf]. destruct Hf as (w & ? & ?); [eauto|]. exists w. split; [by right|done].
Qed.

Section Entries.
Variable rs : list RoleEntry.
Hypothesis rs_nodup : List.NoDup (List.map re_name rs).

Abbreviation parent := (parent_of (role_parent_map rs)).
Abbreviation grants := (fun n => bt_get n (bt_collect (List.map (fun r => (re_name r, re_grants r)) rs))).

Lemma entries_keys x y : parent x = Some y -> In x (List.map re_name rs).
Proof. intros (r & Hr & <- & _)%parent_of_iff; [|done]. by apply in_map. Qed.

Lemma entries_grants a g : (grants a = Some All \/ explicit grants a g) <-> grants_in rs a g.
Proof.
  unfold explicit, grants_in.
  pose proof (collect_get_unique re_name re_grants rs a) as H. split.
  - intros [Ha|(l & Hl & Hin)].
    + apply H in Ha as (r & ? & ? & ?); [|done]. exists r. auto.
    + apply H in Hl as (r & ? & ? & ?); [|done]. exists r. eauto 6.
  - intros (r & Hr & Hn & [Hg|(l & Hg & Hin)]).
    + left. apply H; [done|]. eauto.
    + right. exists l. split; [|done]. apply H; [done|]. eauto.
Qed.

Lemma entries_cycle r : exists w, cycle_walk (walk_fuel rs) parent [] (Some (re_name r)) = Some w /\
  match w with
  | Some _ => exists x, rtc (inherits_in rs) (re_name r) x /\ tc (inherits_in rs) x x
  | None => ~ exists x, rtc (inherits_in rs) (re_name r) x /\ tc (inherits_in rs) x x
  end.
Proof.
  destruct (cycle_walk_exact parent (re_name r) (List.map re_name rs) entries_keys (walk_fuel rs)) as (w & Hw & H).
  { unfold walk_fuel. rewrite length_map. lia. }
  exists w. split; [done|].
  assert (Hiff : forall x y, inherits parent x y <-> inherits_in rs x y) by (intros; by apply parent_of_iff).
  destruct w; setoid_rewrite (rtc_iff _ _ Hiff) in H; setoid_rewrite (tc_iff _ _ Hiff) in H; done.
Qed.

Lemma entries_closure perms r : exists c, role_closure (walk_fuel rs) grants parent perms (re_name r) = Some c /\
  forall g, In g c <-> In g perms /\ exists a, rtc (inherits_in rs) (re_name r) a /\ grants_in rs a g.
Proof.
  destruct (role_closure_exact parent (re_name r) (List.map re_name rs) entries_keys grants perms (walk_fuel rs))
    as (c & Hc & H).
  { unfold walk_fuel. rewrite length_map. lia. }
  exists c. split; [done|]. intros g. rewrite H.
  assert (Hiff : forall x y, inherits parent x y <-> inherits_in rs x y) by (intros; by apply parent_of_iff).
  setoid_rewrite (rtc_iff _ _ Hiff). setoid_rewrite entries_grants. done.
Qed.
End Entries.

Lemma analyze_spec pkg : exists o issues, analyze_rbac_catalog pkg = Some (o, issues) /\
  match o with
  | None => permissions pkg = [] /\ roles pkg = [] /\ issues = []
  | Some cat => analysis pkg cat issues
  end.
Proof.
  unfold analyze_rbac_catalog. destruct (_ && _) eqn:E0.
  { bool_prop. exists None, []. split; [done|]. by split_and!; [apply nil_length_inv..|]. }
  pose proof (dedupe_perms_codes (permissions pkg) [] [] [] ["RBAC-PERM-DUPLICATE-001"; "RBAC-ROLE-DUPLICATE-001";
    "RBAC-PERM-UNKNOWN-001"; "RBAC-ROLE-INHERIT-UNKNOWN-001"]) as Hpc.
  destruct (fold_left dedupe_permission (permissions pkg) ([], [], [])) as [[perms pn] pi].
  pose proof (dedupe_roles_ok pn (roles pkg) [] [] []) as Hro.
  pose proof (dedupe_roles_codes pn (roles pkg) [] [] [] ["RBAC-PERM-DUPLICATE-001"; "RBAC-ROLE-DUPLICATE-001";
    "RBAC-PERM-UNKNOWN-001"; "RBAC-ROLE-INHERIT-UNKNOWN-001"]) as Hrc.
  destruct (fold_left (dedupe_role pn) (roles pkg) ([], [], [])) as [[rs rn] ri].
  destruct Hro as [Hn _]; [split; [constructor|done]|].
  destruct (report_cycles_spec (walk_fuel rs) (parent_of (role_parent_map rs)) rs ([], [])) as ([rep cyc] & Hrep & Hcc & Hciff);
    [|done|constructor|].
  { intros r _. destruct (entries_cycle rs Hn r) as (w & -> & _). done. }
  rewrite Hrep. cbn [mbind option_bind].
  destruct (close_roles_spec (walk_fuel rs)
    (fun n => bt_get n (bt_collect (List.map (fun r => (re_name r, re_grants r)) rs)))
    (parent_of (role_parent_map rs)) (List.map pe_name perms) rs) as (closed & Hcl & Hf).
  { intros r _. destruct (entries_closure rs Hn (List.map pe_name perms) r) as (c & -> & _). done. }
  rewrite Hcl. cbn [mbind option_bind]. eexists (Some _), _. split; [done|].
  destruct (Forall2_names _ _ _ Hf) as (Hnames & Hinh & Hgr).
  split; cbn [c_roles c_permissions].
  - by rewrite Hnames.
  - intros c Hc g. destruct (Forall2_In_r _ _ _ _ Hf Hc) as (r & _ & Hrn & _ & _ & Hcl').
    destruct (entries_closure rs Hn (List.map pe_name perms) r) as (c' & Hc' & Hspec).
    rewrite Hc' in Hcl'. injection Hcl' as ->. rewrite Hspec, Hrn.
    setoid_rewrite (rtc_iff _ _ Hinh). setoid_rewrite Hgr. done.
  - exists (pi ++ ri ++ unknown_inherits (bs_collect (List.map re_name rs)) (roles pkg))%list, cyc.
    split_and!; [by rewrite <- !app_assoc| |done|].
    + apply Forall_app. split; [apply Hpc; [by left|constructor]|]. apply Forall_app. split; [apply Hrc; [by right; left|by do 2 right; left|constructor]|].
      eapply List.Forall_impl; [|apply unknown_inherits_codes]. intros i [<-|[]]. by do 3 right; left.
    + cbn [snd] in Hciff. rewrite Hciff. split.
      * intros [?|(r & x & Hr & Hw)]; [done|]. destruct (entries_cycle rs Hn r) as (w & Hw' & Hiff).
        rewrite Hw in Hw'. injection Hw' as <-. destruct Hiff as (y & _ & Hy).
        exists y. by apply (tc_iff _ _ Hinh).
      * intros [x Hx]. right. apply (tc_iff _ _ Hinh) in Hx.
        assert (exists r, In r rs /\ re_name r = x) as (r & Hr & <-).
        { inversion Hx as [? ? (r & ? & ? & _)|? ? ? (r & ? & ? & _)]; eauto. }
        destruct (entries_cycle rs Hn r) as ([w|] & Hw & Hiff); [eauto 6|].
        exfalso. apply Hiff. exists (re_name r). split; [apply rtc_refl|done].
Qed.

Lemma code_absent c cs issues i : codes_in cs issues -> ~ In c cs -> code_ i = c -> ~ In i issues.
Proof. intros Hc Hn <- Hi. unfold codes_in in Hc. rewrite List.Forall_forall in Hc. auto. Qed.

Lemma existsb_is_all rs : existsb (fun r => is_all (re_grants r)) rs = true <-> exists r, In r rs /\ re_grants r = All.
Proof.
  rewrite existsb_In. split; intros (r & Hr & H); exists r; (split; [done|]).
  - by destruct (re_grants r).
  - by rewrite H.
Qed.

(** * Properties *)

(** C27: The catalog pass always returns, and the closure it stores for a role is
    exactly the set of declared permissions that the role or a role it
    inherits from, at any distance, grants; [grants_all] grants every declared
    permission.  This holds on cyclic catalogs too. *)
Theorem rbac_closure_exact pkg :
  exists o issues, analyze_rbac_catalog pkg = Some (o, issues) /\
  forall cat, o = Some cat -> forall r, In r (c_roles cat) -> forall p,
    In p (closure r) <->
    In p (List.map pe_name (c_permissions cat)) /\
    exists a, rtc (inherits_in (c_roles cat)) (re_name r) a /\ grants_in (c_roles cat) a p.
Proof.
  destruct (analyze_spec pkg) as (o & issues & H & Hs). exists o, issues. split; [done|].
  intros cat ->. by destruct Hs as [_ ? _].
Qed.

(** A cycle is reported exactly when the inheritance graph has one. *)
Theorem rbac_cycle_exact pkg cat issues :
  analyze_rbac_catalog pkg = Some (Some cat, issues) ->
  (exists i, In i issues /\ code_ i = "RBAC-CYCLE-001") <-> exists x, tc (inherits_in (c_roles cat)) x x.
Proof.
  intros H. destruct (analyze_spec pkg) as (o & issues' & H' & Hs). rewrite H in H'. injection H' as <- <-.
  destruct Hs as [_ _ (others & cycles & -> & Ho & Hc & Hiff)]. rewrite <- Hiff. split.
  - intros (i & Hi & Hcode). apply in_app_iff in Hi as [Hi|Hi].
    { exfalso. eapply (code_absent _ _ _ _ Ho); [|done..]. simpl. by intros [?|[?|[?|[?|[]]]]]. }
    apply in_app_iff in Hi as [Hi|Hi]; [by destruct cycles|].
    exfalso. eapply (code_absent _ _ _ _ (unused_codes _ _)); [|done..]. simpl. by intros [?|[]].
  - intros Hne. destruct cycles as [|i cycles]; [done|]. exists i. split.
    + apply in_app_iff. right. by left.
    + apply List.Forall_inv in Hc. by destruct Hc as [<-|[]].
Qed.

(** A declared permission is reported unused exactly when no role grants it
    itself, by name or by [grants_all]. *)
Theorem rbac_unused_exact pkg cat issues p :
  analyze_rbac_catalog pkg = Some (Some cat, issues) -> In p (c_permissions cat) ->
  In (unused_issue p) issues <-> forall a, ~ grants_in (c_roles cat) a (pe_name p).
Proof.
  intros H Hp. destruct (analyze_spec pkg) as (o & issues' & H' & Hs). rewrite H in H'. injection H' as <- <-.
  destruct Hs as [_ Hcl (others & cycles & -> & Ho & Hc & _)].
  assert (Hin : In (unused_issue p) (others ++ cycles ++ unused_permissions (c_permissions cat) (c_roles cat))%list <->
                In (unused_issue p) (unused_permissions (c_permissions cat) (c_roles cat))).
  { rewrite !in_app_iff. split; [|tauto]. intros [Hi|[Hi|Hi]]; [exfalso..|done].
    - eapply (code_absent "RBAC-PERM-UNUSED-001" _ _ (unused_issue p) Ho); [|done..]. simpl. by intros [?|[?|[?|[?|[]]]]].
    - eapply (code_absent "RBAC-PERM-UNUSED-001" _ _ (unused_issue p) Hc); [|done..]. simpl. by intros [?|[]]. }
  rewrite Hin. unfold unused_permissions.
  destruct (existsb (fun r => is_all (re_grants r)) (c_roles cat)) eqn:E.
  - apply existsb_is_all in E as (r & Hr & Hg). split; [done|]. intros Hno. exfalso.
    apply (Hno (re_name r)). exists r. auto.
  - assert (Hall : forall r, In r (c_roles cat) -> re_grants r <> All).
    { intros r Hr Hg. apply not_true_iff_false in E. apply E, existsb_is_all. eauto. }
    rewrite in_map_iff. split.
    + intros (p' & Heq & Hp'). apply filter_In in Hp' as [_ Hu]. bool_prop.
      intros a (r & Hr & <- & Hg). assert (pe_name p' = pe_name p) as En.
      { unfold unused_issue in Heq. injection Heq as Hm _. by apply sapp_inj_r in Hm. }
      apply bs_mem_false in Hu. apply Hu. rewrite En. apply bs_collect_In, in_flat_map. exists r. split; [done|].
      apply Hcl; [done|]. split; [by apply in_map|]. exists (re_name r). split; [apply rtc_refl|]. exists r. auto.
    + intros Hno. exists p. split; [done|]. apply filter_In. split; [done|]. apply negb_true_iff, bs_mem_false.
      rewrite bs_collect_In, in_flat_map. intros (r & Hr & Hc'). apply Hcl in Hc' as (_ & a & _ & Ha); [|done].
      by apply (Hno a).
Qed.

Definition span0 : Span := span_new 0 0.
(** Three roles; [lead] inherits from [member], which grants [users:read]. *)
Definition sample_pkg : PackageSkeleton := {|
  permissions := [{| p_name := "users:read"; p_segments := ["users"; "read"]; p_span := span0 |};
                  {| p_name := "users:drop"; p_segments := ["users"; "drop"]; p_span := span0 |}];
  roles := [{| r_name := "lead"; r_inherits := Some "member"; r_grants := InheritedOnly; r_span := span0 |};
            {| r_name := "member"; r_inherits := None; r_grants := Explicit ["users:read"]; r_span := span0 |}] |}.
Definition sample_catalog : RbacCatalog := {|
  c_permissions := [{| pe_name := "users:read"; pe_segments := ["users"; "read"]; pe_span := Some span0 |};
                    {| pe_name := "users:drop"; pe_segments := ["users"; "drop"]; pe_span := Some span0 |}];
  c_roles := [{| re_name := "lead"; re_inherits := Some "member"; re_grants := InheritedOnly;
                 closure := ["users:read"]; re_span := Some span0 |};
              {| re_name := "member"; re_inherits := None; re_grants := Explicit ["users:read"];
                 closure := ["users:read"]; re_span := Some span0 |}] |}.
Definition sample_unused : PermissionEntry :=
  {| pe_name := "users:drop"; pe_segments := ["users"; "drop"]; pe_span := Some span0 |}.

Lemma rbac_cycle_exact_witness :
  (exists i, In i [unused_issue sample_unused] /\ code_ i = "RBAC-CYCLE-001") <->
  exists x, tc (inherits_in (c_roles sample_catalog)) x x.
Proof. apply (rbac_cycle_exact sample_pkg). vm_compute. reflexivity. Defined.

Lemma rbac_unused_exact_witness :
  In (unused_issue sample_unused) [unused_issue sample_unused] <->
  forall a, ~ grants_in (c_roles sample_catalog) a "users:drop".
Proof.
  apply (rbac_unused_exact sample_pkg sample_catalog [unused_issue sample_unused] sample_unused).
  - vm_compute. reflexivity.
  - right. left. reflexivity.
Defined.

(** [role_grants_permission] answers from the closure: on an analysed catalog it
    is the reachability of a granting role. *)
Theorem role_grants_permission_exact pkg cat issues role perm :
  analyze_rbac_catalog pkg = Some (Some cat, issues) ->
  role_grants_permission cat role perm = true <->
  In role (List.map re_name (c_roles cat)) /\ In perm (List.map pe_name (c_permissions cat)) /\
  exists a, rtc (inherits_in (c_roles cat)) role a /\ grants_in (c_roles cat) a perm.
Proof.
  intros H. destruct (analyze_spec pkg) as (o & issues' & H' & Hs). rewrite H in H'. injection H' as <- <-.
  destruct Hs as [_ Hcl _]. unfold role_grants_permission.
  destruct (List.find _ (c_roles cat)) as [r|] eqn:E.
  - apply find_some in E as [Hr Hn]. bool_prop. subst role. rewrite existsb_In. split.
    + intros (p & Hp & Heq). bool_prop. subst p. split; [by apply in_map|]. by apply Hcl.
    + intros (_ & Hp). exists perm. split; [by apply Hcl|apply String.eqb_refl].
  - split; [done|]. intros (Hin & _). apply in_map_iff in Hin as (r & <- & Hr).
    apply (find_none _ _ E) in Hr. by rewrite String.eqb_refl in Hr.
Qed.

Lemma role_grants_permission_witness :
  role_grants_permission sample_catalog "lead" "users:read" = true <->
  In "lead" (List.map re_name (c_roles sample_catalog)) /\
  In "users:read" (List.map pe_name (c_permissions sample_catalog)) /\
  exists a, rtc (inherits_in (c_roles sample_catalog)) "lead" a /\ grants_in (c_roles sample_catalog) a "users:read".
Proof.
  apply (role_grants_permission_exact sample_pkg sample_catalog [unused_issue sample_unused]).
  vm_compute. reflexivity.
Defined.

(** One inheritance cycle of two roles is reported twice, once from each role:
    the deduplication key repeats the name the walk came back to. *)
Theorem rbac_cycle_reported_twice :
  exists cat issues, analyze_rbac_catalog {| permissions := [];
    roles := [{| r_name := "a"; r_inherits := Some "b"; r_grants := InheritedOnly; r_span := span0 |};
              {| r_name := "b"; r_inherits := Some "a"; r_grants := InheritedOnly; r_span := span0 |}] |} =
    Some (Some cat, issues) /\
  List.length (List.filter (fun i => code_ i =? "RBAC-CYCLE-001") issues) = 2.
Proof. eexists _, _. split; [vm_compute; reflexivity|reflexivity]. Qed.

(** The closure of a [grants_all] role keeps the declaration order, so it is not
    sorted in general. *)
Theorem rbac_all_closure_unsorted :
  exists cat issues r, analyze_rbac_catalog {|
    permissions := [{| p_name := "b:x"; p_segments := ["b"; "x"]; p_span := span0 |};
                    {| p_name := "a:x"; p_segments := ["a"; "x"]; p_span := span0 |}];
    roles := [{| r_name := "root"; r_inherits := None; r_grants := All; r_span := span0 |}] |} =
    Some (Some cat, issues) /\ c_roles cat = [r] /\ closure r = ["b:x"; "a:x"] /\ ~ bs_sorted (closure r).
Proof.
  eexists _, _, _. split_and!; [vm_compute; reflexivity|reflexivity|reflexivity|].
  cbn. intros [H _]. inversion_clear H as [|?? H' _]. done.
Qed.
