(* ===== verification/Graph.v ===== *)
(** Reachability by an explicit stack, as the analyzer's cross-feature lookups
    compute it: pop a name, skip it if it was seen, skip it if it is unknown,
    push the names it uses. *)
From stdpp Require Import relations.
From S2P Require Import Prelude Str BTree.

Section Dfs.
(** The names to push after visiting a node, the next to be popped first;
    [None] for an unknown name. *)
Variable succ : string -> option (list string).

(** The names visited, in order; [None] is out of fuel. *)
Fixpoint dfs (fuel : nat) (seen stack : list string) : option (list string) :=
  match fuel with
  | O => None
  | S fuel =>
    match stack with
    | [] => Some []
    | name :: stack =>
      if bs_mem name seen then dfs fuel seen stack
      else
        let seen := bs_insert name seen in
        match succ name with
        | None => dfs fuel seen stack
        | Some next => out ← dfs fuel seen (next ++ stack)%list; Some (name :: out)
        end
    end
  end.

(** ** Specification *)

Definition edge (x y : string) : Prop := exists next, succ x = Some next /\ In y next.
Definition known (x : string) : Prop := exists next, succ x = Some next.

(** Reachable from one of [from] along a path none of whose nodes is in [seen]. *)
Inductive fresh_path (seen : list string) : string -> string -> Prop :=
| fp_here x : ~ In x seen -> fresh_path seen x x
| fp_step x y z : ~ In x seen -> edge x y -> fresh_path seen y z -> fresh_path seen x z.

Lemma fresh_path_rtc seen x y : fresh_path seen x y -> rtc edge x y.
Proof. induction 1; [apply rtc_refl|by eapply rtc_l]. Qed.

Lemma rtc_fresh_path x y : rtc edge x y -> fresh_path [] x y.
Proof. induction 1; [apply fp_here; by intros []|eapply fp_step; [by intros []|done..]]. Qed.

Lemma fresh_path_end seen x y : fresh_path seen x y -> ~ In y seen.
Proof. by induction 1. Qed.

(** A path either avoids [n] or, cut at its last visit of [n], starts at a
    successor of [n]. *)
Lemma fresh_path_split seen n x y : fresh_path seen x y ->
  fresh_path (bs_insert n seen) x y \/ y = n \/
  exists z, edge n z /\ fresh_path (bs_insert n seen) z y.
Proof.
  induction 1 as [x Hx|x z y Hx He H IH].
  - destruct (decide (x = n)) as [->|Hne]; [by right; left|]. left. apply fp_here. rewrite bs_insert_In. tauto.
  - destruct IH as [Hp|[->|Hz]]; [|by right; left|by right; right].
    destruct (decide (x = n)) as [->|Hne]; [right; right; eauto|]. left. eapply fp_step; [|done..].
    rewrite bs_insert_In. tauto.
Qed.

Lemma fresh_path_weaken seen n x y : fresh_path (bs_insert n seen) x y -> fresh_path seen x y.
Proof.
  induction 1 as [x Hx|x z y Hx He H IH].
  - apply fp_here. rewrite bs_insert_In in Hx. tauto.
  - eapply fp_step; [|done..]. rewrite bs_insert_In in Hx. tauto.
Qed.

(** What is left to visit. *)
Definition todo (seen stack : list string) (y : string) : Prop :=
  known y /\ exists x, In x stack /\ fresh_path seen x y.

Lemma dfs_sound fuel seen stack out : dfs fuel seen stack = Some out ->
  List.NoDup out /\ forall y, In y out <-> todo seen stack y.
Proof.
  revert seen stack out. induction fuel as [|fuel IH]; intros seen stack out H; [done|]. cbn [dfs] in H.
  destruct stack as [|n stack].
  { injection H as <-. split; [constructor|]. intros y. split; [done|]. by intros (_ & x & [] & _). }
  destruct (bs_mem n seen) eqn:En.
  { apply bs_mem_In in En. apply IH in H as [Hn H]. split; [done|]. intros y. rewrite H. unfold todo.
    split; intros (Hk & x & Hx & Hp); (split; [done|]).
    - exists x. split; [by right|done].
    - destruct Hx as [<-|Hx]; [|eauto]. exfalso. inversion Hp; by subst. }
  apply bs_mem_false in En.
  destruct (succ n) as [next|] eqn:Es.
  - apply bind_Some in H as (out' & H & [= <-]). apply IH in H as [Hn H]. split.
    + constructor; [|done]. rewrite H. intros (_ & x & _ & Hp). apply fresh_path_end in Hp. apply Hp.
      rewrite bs_insert_In. by left.
    + intros y. cbn [In]. rewrite H. unfold todo. split.
      * intros [<-|(Hk & x & Hx & Hp)].
        { split; [by exists next|]. exists n. split; [by left|]. by apply fp_here. }
        split; [done|]. apply in_app_iff in Hx as [Hx|Hx].
        -- exists n. split; [by left|]. eapply fp_step; [done|exists next; split; eassumption|]. by eapply fresh_path_weaken.
        -- exists x. split; [by right|]. by eapply fresh_path_weaken.
      * intros (Hk & x & Hx & Hp). destruct (decide (y = n)) as [->|Hyn]; [by left|]. right. split; [done|].
        destruct (fresh_path_split seen n x y Hp) as [Hp'|[->|(z & (next' & Hn' & Hz) & Hp')]]; [|done|].
        -- destruct Hx as [<-|Hx].
           ++ exfalso. inversion Hp' as [? Hni|? ? ? Hni]; apply Hni; rewrite bs_insert_In; by left.
           ++ exists x. split; [apply in_app_iff; by right|done].
        -- rewrite Es in Hn'. injection Hn' as <-. exists z. split; [apply in_app_iff; by left|done].
  - apply IH in H as [Hn H]. split; [done|]. intros y. rewrite H. unfold todo. split.
    + intros (Hk & x & Hx & Hp). split; [done|]. exists x. split; [by right|]. by eapply fresh_path_weaken.
    + intros (Hk & x & Hx & Hp). split; [done|].
      destruct (fresh_path_split seen n x y Hp) as [Hp'|[->|(z & (next' & Hn' & Hz) & Hp')]].
      * destruct Hx as [<-|Hx]; [|eauto].
        exfalso. inversion Hp' as [? Hni|? ? ? Hni]; apply Hni; rewrite bs_insert_In; by left.
      * exfalso. destruct Hk as [? ?]. congruence.
      * congruence.
Qed.

(** ** Termination *)

(** Known names not seen yet, and how much they can still push. *)
Variable nodes : list string.
Hypothesis nodes_complete : forall x, known x -> In x nodes.

Definition weight (x : string) : nat := match succ x with Some next => List.length next | None => 0 end.
Definition pending (seen : list string) : nat :=
  List.list_sum (List.map weight (List.filter (fun x => negb (bs_mem x seen)) nodes)).

Lemma bs_mem_insert (x n : string) seen : bs_mem x (bs_insert n seen) = keqb x n || bs_mem x seen.
Proof.
  apply eq_true_iff_eq. rewrite orb_true_iff, !bs_mem_In, bs_insert_In, keqb_eq. tauto.
Qed.

Lemma pending_mono l n seen :
  List.list_sum (List.map weight (List.filter (fun x => negb (bs_mem x (bs_insert n seen))) l)) <=
  List.list_sum (List.map weight (List.filter (fun x => negb (bs_mem x seen)) l)).
Proof.
  unfold List.list_sum. induction l as [|x l IH]; [done|]. cbn [List.filter]. rewrite bs_mem_insert.
  destruct (keqb x n), (bs_mem x seen); cbn [orb negb List.map fold_right]; lia.
Qed.

Lemma pending_insert n seen : pending (bs_insert n seen) <= pending seen.
Proof.
  apply pending_mono.
Qed.

Lemma pending_visit n seen next : succ n = Some next -> ~ In n seen ->
  pending (bs_insert n seen) + List.length next <= pending seen.
Proof.
  intros Hs Hn. assert (Hin : In n nodes) by (apply nodes_complete; by exists next).
  clear nodes_complete. revert Hin. unfold pending. induction nodes as [|x l IH]; [done|]. cbn [List.filter].
  rewrite bs_mem_insert. intros [->|Hin].
  - rewrite keqb_refl. apply bs_mem_false in Hn. rewrite Hn. pose proof (pending_mono l n seen) as Hp.
    unfold List.list_sum in *. cbn [orb negb List.map fold_right]. unfold weight at 2. rewrite Hs. lia.
  - specialize (IH Hin). unfold List.list_sum in *.
    destruct (keqb x n), (bs_mem x seen); cbn [orb negb List.map fold_right]; lia.
Qed.

Lemma dfs_enough fuel seen stack : pending seen + List.length stack < fuel -> dfs fuel seen stack <> None.
Proof.
  revert seen stack. induction fuel as [|fuel IH]; intros seen stack Hf; [lia|]. cbn [dfs].
  destruct stack as [|n stack]; [done|]. simpl in Hf.
  destruct (bs_mem n seen) eqn:En; [apply IH; lia|]. apply bs_mem_false in En.
  destruct (succ n) as [next|] eqn:Es.
  - pose proof (pending_visit n seen next Es En) as Hp.
    destruct (dfs fuel (bs_insert n seen) (next ++ stack)%list) as [out|] eqn:E; [done|].
    exfalso. apply (IH (bs_insert n seen) (next ++ stack)%list); [|done]. rewrite length_app. lia.
  - pose proof (pending_insert n seen). apply IH. lia.
Qed.

(** Enough rounds from a single start. *)
Definition dfs_fuel : nat := 2 + List.list_sum (List.map weight nodes).

Lemma dfs_exact start : exists out, dfs dfs_fuel [] [start] = Some out /\ List.NoDup out /\
  forall y, In y out <-> known y /\ rtc edge start y.
Proof.
  destruct (dfs dfs_fuel [] [start]) as [out|] eqn:E.
  - exists out. split; [done|]. apply dfs_sound in E as [Hn H]. split; [done|]. intros y. rewrite H. unfold todo. split.
    + intros (Hk & x & [<-|[]] & Hp). split; [done|]. by eapply fresh_path_rtc.
    + intros (Hk & Hp). split; [done|]. exists start. split; [by left|]. by apply rtc_fresh_path.
  - exfalso. apply (dfs_enough dfs_fuel [] [start]); [|done]. unfold dfs_fuel, pending. simpl.
    replace (List.filter (fun x => negb (bs_mem x [])) nodes) with nodes; [lia|].
    symmetry. by apply filter_all.
Qed.
End Dfs.
