(* ===== verification/LifecycleTransition.v ===== *)
(** Command triggers against resource lifecycles
    ([lazuli_analyzer/src/checks/lifecycle_transition/mod.rs]). *)
From stdpp Require Import relations.
From S2P Require Import Prelude Str BTree Lex Ir Graph.

(** * Data *)

Inductive Severity := Error | Warning.
Record Diagnostic := { d_code : string; d_severity : Severity; d_message : string; d_span : option Span }.

Record TransitionFacts := { t_name : string; t_from : list string; t_to : string }.
Record LifecycleFacts := { discriminator_field : string; transitions : list TransitionFacts }.
Record ResourceFacts := { res_name : string; lifecycle : option LifecycleFacts }.
Inductive CommandEffectFacts :=
| Updates (resource : QualifiedName) (assignments : list string)
| Other.
Record CommandFacts := {
  cmd_feature : string; cmd_name : string; triggers : list string;
  effect : CommandEffectFacts; cmd_span : option Span
}.
Record FeatureFacts := {
  f_name : string; uses : list string; f_resources : list ResourceFacts; f_commands : list CommandFacts
}.
Record CheckInput := { features : list FeatureFacts }.

Definition diag (code : string) (severity : Severity) (span : option Span) (message : string) : Diagnostic :=
  {| d_code := code; d_severity := severity; d_message := message; d_span := span |}.

(** [Option::or] *)
Definition or_else {A} (a b : option A) : option A := match a with Some _ => a | None => b end.

Definition list_or_none (values : list string) : string :=
  match values with [] => "<none>" | _ => join ", " values end.

(** * The index *)

Record Index := {
  ix_features : list (string * FeatureFacts);
  ix_resources : list ((string * string) * ResourceFacts)
}.

Definition index_new (input : CheckInput) : Index := {|
  ix_features := bt_collect (List.map (fun f => (f_name f, f)) (features input));
  ix_resources := bt_collect (flat_map (fun f =>
    List.map (fun r => ((f_name f, res_name r), r)) (f_resources f)) (features input))
|}.

(** The uses of a feature of the index, the first to be visited first. *)
Definition index_succ (ix : Index) (name : string) : option (list string) :=
  uses <$> bt_get name (ix_features ix).

(** [Index::reachable]: the features in the order visited. *)
Definition reachable (ix : Index) (feature : string) : option (list FeatureFacts) :=
  match dfs (index_succ ix) (dfs_fuel (index_succ ix) (List.map fst (ix_features ix))) [] [feature] with
  | Some names => Some (omap (fun n => bt_get n (ix_features ix)) names)
  | None => None
  end.

(** The first of the reachable features that declares the resource. *)
Fixpoint first_resource (ix : Index) (fs : list FeatureFacts) (name : string) : option ResourceFacts :=
  match fs with
  | [] => None
  | f :: fs =>
    match bt_get (f_name f, name) (ix_resources ix) with
    | Some r => Some r
    | None => first_resource ix fs name
    end
  end.

(** [Index::resource]; the outer [None] is an endless walk. *)
Definition index_resource (ix : Index) (feature : string) (resource : QualifiedName)
    : option (option ResourceFacts) :=
  match qn_feature resource with
  | Some owner => Some (bt_get (owner, qn_name resource) (ix_resources ix))
  | None => fs ← reachable ix feature; Some (first_resource ix fs (qn_name resource))
  end.

(** * The checks *)

(** The overlap diagnostic of one pair of commands. *)
Definition overlap (feature : FeatureFacts) (lhs rhs : CommandFacts) : list Diagnostic :=
  let shared := bs_collect (List.filter (fun t => bs_mem t (bs_collect (triggers lhs))) (triggers rhs)) in
  match shared with
  | [] => []
  | _ => [diag "LIFECYCLE-TRANSITION-003" Warning (or_else (cmd_span rhs) (cmd_span lhs))
      ("commands `" +:+ cmd_name lhs +:+ "` and `" +:+ cmd_name rhs +:+ "` in feature `" +:+ f_name feature +:+
       "` both trigger lifecycle transition(s): " +:+ join ", " shared +:+
       ". Only one command should own each lifecycle transition.")]
  end.

Definition is_empty {A} (l : list A) : bool := match l with [] => true | _ => false end.

Fixpoint feature_overlaps (feature : FeatureFacts) (commands : list CommandFacts) : list Diagnostic :=
  match commands with
  | [] => []
  | lhs :: rest =>
    ((if is_empty (triggers lhs) then []
      else flat_map (fun rhs => if is_empty (triggers rhs) then [] else overlap feature lhs rhs) rest) ++
     feature_overlaps feature rest)%list
  end.

Definition check_overlaps (input : CheckInput) : list Diagnostic :=
  flat_map (fun f => feature_overlaps f (f_commands f)) (features input).

Definition assigns_lifecycle_field (assignments : list string) (lc : option LifecycleFacts) : bool :=
  existsb (fun field => (field =? "lifecycle_state") ||
    match lc with Some lc => field =? discriminator_field lc | None => false end) assignments.

Definition transition_map (lc : LifecycleFacts) : list (string * TransitionFacts) :=
  bt_collect (List.map (fun t => (t_name t, t)) (transitions lc)).

Definition backtick (s : string) : string := "`" +:+ s +:+ "`".

(** The 001 diagnostics: one per undeclared trigger; [missing] holds the ones
    already reported. *)
Fixpoint missing_triggers (command : CommandFacts) (resource : string) (tm : list (string * TransitionFacts))
    (missing ts : list string) : list Diagnostic :=
  match ts with
  | [] => []
  | trigger :: ts =>
    if negb (bt_contains trigger tm) && negb (bs_mem trigger missing) then
      diag "LIFECYCLE-TRANSITION-001" Error (cmd_span command)
        ("command `" +:+ cmd_name command +:+ "` triggers `" +:+ trigger +:+ "`, but resource `" +:+ resource +:+
         "` declares no lifecycle transition with that name. Declared transitions: " +:+
         list_or_none (List.map backtick (List.map fst tm)) +:+ ".")
      :: missing_triggers command resource tm (bs_insert trigger missing) ts
    else missing_triggers command resource tm missing ts
  end.

(** The 006 diagnostics, over [triggers.windows(2)]. *)
Fixpoint broken_chain (command : CommandFacts) (tm : list (string * TransitionFacts)) (ts : list string)
    : list Diagnostic :=
  match ts with
  | a :: ((b :: _) as rest) =>
    ((match bt_get a tm, bt_get b tm with
      | Some l, Some r =>
        if existsb (fun state => state =? t_to l) (t_from r) then []
        else [diag "LIFECYCLE-TRANSITION-006" Error (cmd_span command)
          ("command `" +:+ cmd_name command +:+ "` triggers a non-contiguous lifecycle chain: `" +:+ t_name l +:+
           "` ends at `" +:+ t_to l +:+ "` but `" +:+ t_name r +:+ "` starts from " +:+ list_or_none (t_from r) +:+ ".")]
      | _, _ => []
      end) ++ broken_chain command tm rest)%list
  | _ => []
  end.

(** [check_command] *)
Definition check_command (command : CommandFacts) (ix : Index) : option (list Diagnostic) :=
  if is_empty (triggers command) then Some [] else
  match effect command with
  | Other =>
    Some [diag "LIFECYCLE-TRANSITION-004" Error (cmd_span command)
      ("command `" +:+ cmd_name command +:+ "` declares `triggers` but has no `updates` block to advance.")]
  | Updates resource assignments =>
    resource_facts ← index_resource ix (cmd_feature command) resource;
    let lc := r ← resource_facts; lifecycle r in
    let direct :=
      if assigns_lifecycle_field assignments lc then
        [diag "LIFECYCLE-TRANSITION-005" Error (cmd_span command)
          ("command `" +:+ cmd_name command +:+
           "` both declares `triggers` and assigns the lifecycle discriminator directly; runtime owns lifecycle advancement.")]
      else [] in
    match resource_facts, lc with
    | None, _ => Some direct
    | Some r, None =>
      Some (direct ++ [diag "LIFECYCLE-TRANSITION-002" Error (cmd_span command)
        ("command `" +:+ cmd_name command +:+ "` declares `triggers`, but updates resource `" +:+ res_name r +:+
         "` has no lifecycle block.")])%list
    | Some r, Some lc =>
      let tm := transition_map lc in
      Some (direct ++ missing_triggers command (res_name r) tm [] (triggers command) ++
            broken_chain command tm (triggers command))%list
    end
  end.

Fixpoint check_commands (ix : Index) (cs : list CommandFacts) : option (list Diagnostic) :=
  match cs with
  | [] => Some []
  | c :: cs => ds ← check_command c ix; rest ← check_commands ix cs; Some (ds ++ rest)%list
  end.

(** [check_input] *)
Definition check_input (input : CheckInput) : option (list Diagnostic) :=
  let ix := index_new input in
  ds ← check_commands ix (flat_map f_commands (features input));
  Some (check_overlaps input ++ ds)%list.

(** * Lemmas *)

(** ** Reachable features *)

(** [x] uses [y], in the index. *)
Definition uses_in (ix : Index) (x y : string) : Prop :=
  exists f, bt_get x (ix_features ix) = Some f /\ In y (uses f).

Definition index_ok (ix : Index) : Prop :=
  forall n f, bt_get n (ix_features ix) = Some f -> f_name f = n.

Lemma index_new_ok input : index_ok (index_new input).
Proof.
  intros n f. cbn [ix_features index_new]. rewrite bt_collect_get.
  destruct (List.find _ _) as [[k v]|] eqn:E; [|done]. intros [= ->].
  apply find_some in E as [Hin Heq]. apply keqb_eq in Heq. cbn [fst snd] in *.
  apply in_rev, in_map_iff in Hin as (f' & [= <- <-] & _). done.
Qed.

Lemma edge_uses ix x y : edge (index_succ ix) x y <-> uses_in ix x y.
Proof.
  unfold edge, uses_in, index_succ. destruct (bt_get x (ix_features ix)) as [f|]; cbn; naive_solver.
Qed.

Lemma known_index ix x : known (index_succ ix) x <-> exists f, bt_get x (ix_features ix) = Some f.
Proof. unfold known, index_succ. destruct (bt_get x (ix_features ix)); cbn; naive_solver. Qed.

Lemma reachable_spec ix feature : exists names fs, reachable ix feature = Some fs /\
  fs = omap (fun n => bt_get n (ix_features ix)) names /\ List.NoDup names /\
  forall y, In y names <-> (exists f, bt_get y (ix_features ix) = Some f) /\ rtc (uses_in ix) feature y.
Proof.
  destruct (dfs_exact (index_succ ix) (List.map fst (ix_features ix))) with (start := feature) as (names & Hd & Hn & H).
  { intros x [f Hf]%known_index. apply bt_keys_In. eauto. }
  exists names, (omap (fun n => bt_get n (ix_features ix)) names). unfold reachable. rewrite Hd. split_and!; [done..|].
  intros y. rewrite H, known_index. split; intros [Hk Hp]; (split; [done|]).
  - clear -Hp. induction Hp; [apply rtc_refl|]. eapply rtc_l; [by apply edge_uses|done].
  - clear -Hp. induction Hp; [apply rtc_refl|]. eapply rtc_l; [by apply edge_uses|done].
Qed.

Lemma first_resource_spec ix fs name r : first_resource ix fs name = Some r <->
  exists l1 f l2, fs = (l1 ++ f :: l2)%list /\ bt_get (f_name f, name) (ix_resources ix) = Some r /\
    Forall (fun f' => bt_get (f_name f', name) (ix_resources ix) = None) l1.
Proof.
  induction fs as [|f fs IH]; cbn [first_resource].
  - split; [done|]. intros (l1 & f & l2 & E & _). by destruct l1.
  - destruct (bt_get (f_name f, name) (ix_resources ix)) as [r'|] eqn:E.
    + split.
      * intros [= <-]. exists [], f, fs. by split_and!.
      * intros (l1 & f' & l2 & E' & Hg & Hn). destruct l1 as [|g l1]; cbn in E'; injection E' as -> ->; [congruence|].
        inversion_clear Hn. congruence.
    + rewrite IH. split.
      * intros (l1 & f' & l2 & -> & Hg & Hn). exists (f :: l1), f', l2. split_and!; [done..|]. by constructor.
      * intros (l1 & f' & l2 & E' & Hg & Hn). destruct l1 as [|g l1]; cbn in E'; injection E' as -> ->; [congruence|].
        inversion_clear Hn. eauto 7.
Qed.

(** ** Chains of transitions *)

(** Firing a transition from a state. *)
Definition fires (t : TransitionFacts) (s s' : string) : Prop := In s (t_from t) /\ s' = t_to t.

(** Running a list of triggers against a lifecycle. *)
Inductive runs (tm : list (string * TransitionFacts)) : list string -> string -> string -> Prop :=
| run_nil s : runs tm [] s s
| run_cons name t ts s s' s'' :
    bt_get name tm = Some t -> fires t s s' -> runs tm ts s' s'' -> runs tm (name :: ts) s s''.

Lemma missing_triggers_nil c r tm seen ts : (forall x, In x seen -> bt_contains x tm = false) ->
  missing_triggers c r tm seen ts = [] <-> Forall (fun t => bt_contains t tm = true \/ In t seen) ts.
Proof.
  revert seen. induction ts as [|t ts IH]; intros seen Hs; cbn [missing_triggers]; [split; [constructor|done]|].
  destruct (bt_contains t tm) eqn:E; cbn [negb andb].
  - rewrite IH by done. split; [intros; constructor; auto|by inversion 1].
  - destruct (bs_mem t seen) eqn:Em; cbn [negb].
    + rewrite IH by done. split; [intros; constructor; [|done]; right; by apply bs_mem_In|by inversion 1].
    + split; [done|]. intros H. inversion_clear H as [|?? [?|Hin] _]; [congruence|].
      apply bs_mem_false in Em. done.
Qed.

(** Consecutive triggers meet. *)
Fixpoint contiguous (tm : list (string * TransitionFacts)) (ts : list string) : Prop :=
  match ts with
  | a :: ((b :: _) as rest) =>
    (forall l r, bt_get a tm = Some l -> bt_get b tm = Some r -> In (t_to l) (t_from r)) /\ contiguous tm rest
  | _ => True
  end.

Lemma broken_chain_nil c tm ts : broken_chain c tm ts = [] <-> contiguous tm ts.
Proof.
  induction ts as [|a ts IH]; [done|]. destruct ts as [|b ts]; [done|].
  change (broken_chain c tm (a :: b :: ts)) with
    ((match bt_get a tm, bt_get b tm with
      | Some l, Some r =>
        if existsb (fun state => state =? t_to l) (t_from r) then []
        else [diag "LIFECYCLE-TRANSITION-006" Error (cmd_span c)
          ("command `" +:+ cmd_name c +:+ "` triggers a non-contiguous lifecycle chain: `" +:+ t_name l +:+
           "` ends at `" +:+ t_to l +:+ "` but `" +:+ t_name r +:+ "` starts from " +:+ list_or_none (t_from r) +:+ ".")]
      | _, _ => []
      end) ++ broken_chain c tm (b :: ts))%list.
  change (contiguous tm (a :: b :: ts)) with
    ((forall l r, bt_get a tm = Some l -> bt_get b tm = Some r -> In (t_to l) (t_from r)) /\ contiguous tm (b :: ts)).
  rewrite <- IH. destruct (bt_get a tm) as [l|] eqn:Ea; [|cbn [app]; naive_solver].
  destruct (bt_get b tm) as [r|] eqn:Eb; [|cbn [app]; naive_solver].
  destruct (existsb _ (t_from r)) eqn:E.
  - apply existsb_In in E as (x & Hx & Heq). bool_prop. subst x. cbn [app]. naive_solver.
  - cbn [app]. split; [done|]. intros [H _]. exfalso. specialize (H l r eq_refl eq_refl).
    apply existsb_false with (x := t_to l) in E; [|done]. by rewrite String.eqb_refl in E.
Qed.

(** A declared, contiguous chain runs from every state its first transition
    starts from. *)
Lemma contiguous_runs tm t ts : Forall (fun t => bt_contains t tm = true) (t :: ts) -> contiguous tm (t :: ts) ->
  exists tr, bt_get t tm = Some tr /\ forall s, In s (t_from tr) -> exists s', runs tm (t :: ts) s s'.
Proof.
  revert t. induction ts as [|u ts IH]; intros t Hd Hc; inversion_clear Hd as [|?? Ht Hts];
    apply bt_contains_iff in Ht as [tr Htr]; exists tr; (split; [done|]); intros s Hs.
  - exists (t_to tr). econstructor; [done|by split|constructor].
  - destruct Hc as [Hc1 Hc2]. destruct (IH u Hts Hc2) as (tr' & Htr' & Hrun).
    destruct (Hrun (t_to tr)) as [s' Hs']; [by apply Hc1|]. exists s'. econstructor; [done|by split|done].
Qed.

Lemma runs_contiguous tm t ts s s' : runs tm (t :: ts) s s' ->
  Forall (fun t => bt_contains t tm = true) (t :: ts) /\ contiguous tm (t :: ts).
Proof.
  revert t s. induction ts as [|u ts IH]; intros t s H; inversion H as [|? tr ? ? s1 ? Ht [Hin ->] Hrest]; subst.
  - split; [|done]. constructor; [|constructor]. apply bt_contains_iff. eauto.
  - destruct (IH u _ Hrest) as [Hd Hc]. split; [constructor; [apply bt_contains_iff; eauto|done]|].
    split; [|done]. intros l r Hl Hr. rewrite Ht in Hl. injection Hl as <-.
    inversion Hrest as [|? tr' ? ? ? ? Ht' [Hin' _] _]; subst. rewrite Hr in Ht'. by injection Ht' as <-.
Qed.

(** ** Overlaps *)

Lemma overlap_nil f l r : overlap f l r = [] <-> forall t, In t (triggers l) -> ~ In t (triggers r).
Proof.
  unfold overlap. destruct (bs_collect _) as [|x s] eqn:E; cbv zeta iota.
  - split; [|done]. intros _ t Hl Hr.
    assert (In t (bs_collect (List.filter (fun t => bs_mem t (bs_collect (triggers l))) (triggers r)))) as H.
    { apply bs_collect_In, filter_In. split; [done|]. by apply bs_mem_In, bs_collect_In. }
    by rewrite E in H.
  - split; [done|]. intros H. exfalso.
    assert (In x (bs_collect (List.filter (fun t => bs_mem t (bs_collect (triggers l))) (triggers r)))) as Hx
      by (rewrite E; by left).
    apply bs_collect_In, filter_In in Hx as [Hr Hl]. apply bs_mem_In in Hl. apply (bs_collect_In (triggers l)) in Hl.
    by apply (H x).
Qed.

Lemma feature_overlaps_nil f cs : feature_overlaps f cs = [] <->
  forall l1 a l2 b l3, cs = (l1 ++ a :: l2 ++ b :: l3)%list -> forall t, In t (triggers a) -> ~ In t (triggers b).
Proof.
  induction cs as [|c cs IH]; cbn [feature_overlaps].
  - split; [|done]. intros _ l1 a l2 b l3 E. by destruct l1.
  - assert (Hflat : (if is_empty (triggers c) then []
        else flat_map (fun rhs => if is_empty (triggers rhs) then [] else overlap f c rhs) cs) = [] <->
        forall b, In b cs -> forall t, In t (triggers c) -> ~ In t (triggers b)).
    { destruct (triggers c) as [|x tc] eqn:Ec; cbn [is_empty]; [split; [by intros _ b Hb t []|done]|].
      rewrite <- Ec. clear Ec. induction cs as [|b cs IHcs] in |-*; cbn [flat_map]; [split; [by intros _ b []|done]|].
      rewrite app_nil, IHcs. assert (Hb : (if is_empty (triggers b) then [] else overlap f c b) = [] <->
        forall t, In t (triggers c) -> ~ In t (triggers b)).
      { destruct (triggers b) as [|y tb] eqn:Eb; cbn [is_empty]; [split; [by intros _ t _ []|done]|].
        rewrite <- Eb. apply overlap_nil. }
      rewrite Hb. split; [intros [H1 H2] b' [<-|Hb']; auto|]. intros H. split; [|intros b' Hb'].
      - apply (H b). by left.
      - apply (H b'). by right. }
    rewrite app_nil, IH, Hflat. split.
    + intros [H1 H2] l1 a l2 b l3 E. destruct l1 as [|x l1]; cbn in E; injection E as -> ->.
      * apply H1. apply in_app_iff. right. by left.
      * by eapply H2.
    + intros H. split.
      * intros b (l2 & l3 & ->)%in_split. by eapply (H [] c l2 b l3).
      * intros l1 a l2 b l3 ->. by eapply (H (c :: l1) a l2 b l3).
Qed.

Lemma index_resource_total ix feature res : exists r, index_resource ix feature res = Some r.
Proof.
  unfold index_resource. destruct (qn_feature res); [eauto|].
  destruct (reachable_spec ix feature) as (names & fs & -> & _). cbn. eauto.
Qed.

Lemma check_command_total c ix : exists ds, check_command c ix = Some ds.
Proof.
  unfold check_command. destruct (is_empty (triggers c)); [eauto|]. destruct (effect c) as [res assigns|]; [|eauto].
  destruct (index_resource_total ix (cmd_feature c) res) as [r ->]. cbn [mbind option_bind].
  destruct r as [r|]; [|eauto]. cbn [mbind option_bind]. destruct (lifecycle r); eauto.
Qed.

Lemma transition_map_from lc : Forall (fun t => t_from t <> []) (transitions lc) ->
  forall n t, bt_get n (transition_map lc) = Some t -> t_from t <> [].
Proof.
  intros H n t. unfold transition_map. rewrite bt_collect_get.
  destruct (List.find _ _) as [[k v]|] eqn:E; [|done]. intros [= ->].
  apply find_some in E as [Hin _]. apply in_rev, in_map_iff in Hin as (t' & [= _ <-] & Hin).
  rewrite List.Forall_forall in H. auto.
Qed.

(** The check is silent exactly on runs of the state machine. *)
Lemma check_command_runs c ix res assigns r lc :
  effect c = Updates res assigns -> index_resource ix (cmd_feature c) res = Some (Some r) ->
  lifecycle r = Some lc -> triggers c <> [] -> assigns_lifecycle_field assigns (Some lc) = false ->
  Forall (fun t => t_from t <> []) (transitions lc) ->
  exists ds, check_command c ix = Some ds /\
    (ds = [] <-> exists s s', runs (transition_map lc) (triggers c) s s').
Proof.
  intros He Hr Hl Hne Ha Hfrom. unfold check_command.
  destruct (triggers c) as [|t ts] eqn:Et; [done|]. cbn [is_empty]. rewrite He, Hr. cbn [mbind option_bind].
  rewrite Hl, Ha. eexists. split; [done|]. cbn [app]. rewrite app_nil, broken_chain_nil.
  rewrite missing_triggers_nil by done. split.
  - intros [Hd Hc]. destruct (contiguous_runs (transition_map lc) t ts) as (tr & Htr & Hrun).
    + eapply List.Forall_impl; [|exact Hd]. by intros x [?|[]].
    + done.
    + pose proof (transition_map_from lc Hfrom t tr Htr) as Hf. destruct (t_from tr) as [|s l] eqn:E; [done|].
      exists s. apply Hrun. by left.
  - intros (s & s' & Hrun). apply runs_contiguous in Hrun as [Hd Hc]. split; [|done].
    eapply List.Forall_impl; [|exact Hd]. by left.
Qed.

(** Resources found through the index are resources of the input. *)
Lemma index_resource_In input feature res r :
  index_resource (index_new input) feature res = Some (Some r) -> exists f, In f (features input) /\ In r (f_resources f).
Proof.
  assert (Hget : forall k, bt_get k (ix_resources (index_new input)) = Some r ->
    exists f, In f (features input) /\ In r (f_resources f)).
  { intros k. cbn. rewrite bt_collect_get. destruct (List.find _ _) as [[k' r']|] eqn:E; [|done]. intros [= ->].
    apply find_some in E as [Hin _]. apply in_rev, in_flat_map in Hin as (f & Hf & Hin).
    apply in_map_iff in Hin as (r0 & [= _ ->] & Hin). eauto. }
  unfold index_resource. destruct (qn_feature res); [intros [= H]; by eapply Hget|].
  intros H. apply bind_Some in H as (fs & _ & [= H]). induction fs as [|f fs IH]; [done|]. cbn in H.
  destruct (bt_get (f_name f, qn_name res) _) as [r'|] eqn:E; [injection H as ->; by eapply Hget|auto].
Qed.

(** * Properties *)

(** Cross-feature visibility is the reflexive-transitive closure of [uses]: the
    walk returns each feature reachable from the given one exactly once, and
    always ends, cycles of [uses] included. *)
Theorem reachable_exact input feature :
  exists fs, reachable (index_new input) feature = Some fs /\ List.NoDup (List.map f_name fs) /\
  forall y, In y (List.map f_name fs) <->
    (exists f, bt_get y (ix_features (index_new input)) = Some f) /\ rtc (uses_in (index_new input)) feature y.
Proof.
  destruct (reachable_spec (index_new input) feature) as (names & fs & Hr & -> & Hn & Hiff).
  eexists. split; [done|].
  enough (Hm : List.map f_name (omap (fun n => bt_get n (ix_features (index_new input))) names) = names).
  { by rewrite Hm. }
  assert (Hk : forall y, In y names -> exists f, bt_get y (ix_features (index_new input)) = Some f)
    by (intros y Hy; by apply Hiff in Hy as [? _]).
  clear -Hk. induction names as [|n names IH]; [done|]. cbn [omap list_omap].
  destruct (Hk n) as [f Hf]; [by left|]. rewrite Hf. cbn [List.map]. rewrite (index_new_ok input n f Hf). f_equal.
  apply IH. intros y Hy. apply Hk. by right.
Qed.

(** For a command that updates a resource with a lifecycle and leaves the
    discriminator alone, the check is exact: it reports nothing if and only if
    the triggers, fired in order, are a run of the lifecycle's state machine. *)
Theorem check_command_exact c ix res assigns r lc :
  effect c = Updates res assigns -> index_resource ix (cmd_feature c) res = Some (Some r) ->
  lifecycle r = Some lc -> triggers c <> [] -> assigns_lifecycle_field assigns (Some lc) = false ->
  Forall (fun t => t_from t <> []) (transitions lc) ->
  exists ds, check_command c ix = Some ds /\
    (ds = [] <-> exists s s', runs (transition_map lc) (triggers c) s s').
Proof. apply check_command_runs. Qed.

Definition sample_lifecycle : LifecycleFacts := {| discriminator_field := "status"; transitions :=
  [{| t_name := "publish"; t_from := ["draft"]; t_to := "published" |};
   {| t_name := "archive"; t_from := ["published"]; t_to := "archived" |}] |}.
Definition sample_input : CheckInput := {| features :=
  [{| f_name := "blog"; uses := []; f_resources := [{| res_name := "Post"; lifecycle := Some sample_lifecycle |}];
      f_commands := [] |}] |}.
Definition sample_command : CommandFacts := {| cmd_feature := "blog"; cmd_name := "retire";
  triggers := ["publish"; "archive"];
  effect := Updates {| qn_feature := None; qn_name := "Post" |} ["title"]; cmd_span := None |}.

Lemma check_command_exact_witness :
  exists ds, check_command sample_command (index_new sample_input) = Some ds /\
    (ds = [] <-> exists s s', runs (transition_map sample_lifecycle) ["publish"; "archive"] s s').
Proof.
  apply (check_command_exact sample_command (index_new sample_input) {| qn_feature := None; qn_name := "Post" |} ["title"]
    {| res_name := "Post"; lifecycle := Some sample_lifecycle |} sample_lifecycle);
    [reflexivity|reflexivity|reflexivity|discriminate|reflexivity|].
  apply List.Forall_cons; [discriminate|]. apply List.Forall_cons; [discriminate|]. apply List.Forall_nil.
Defined.

(** The overlap pass reports nothing if and only if no two commands of a feature
    share a trigger. *)
Theorem check_overlaps_exact input :
  check_overlaps input = [] <->
  forall f, In f (features input) -> forall l1 a l2 b l3, f_commands f = (l1 ++ a :: l2 ++ b :: l3)%list ->
  forall t, In t (triggers a) -> ~ In t (triggers b).
Proof.
  unfold check_overlaps. induction (features input) as [|f fs IH]; cbn [flat_map]; [split; [by intros _ f []|done]|].
  rewrite app_nil, feature_overlaps_nil, IH. split.
  - intros [H1 H2] g [<-|Hg]; [exact H1|exact (H2 g Hg)].
  - intros H. split; [apply H; by left|]. intros g Hg. apply H. by right.
Qed.

(** An unqualified resource resolves to the first declaration along the walk, and
    to nothing exactly when no reachable feature declares it. *)
Theorem index_resource_exact input feature name :
  exists r, index_resource (index_new input) feature {| qn_feature := None; qn_name := name |} = Some r /\
  (r = None <-> forall y f, bt_get y (ix_features (index_new input)) = Some f ->
     rtc (uses_in (index_new input)) feature y ->
     bt_get (y, name) (ix_resources (index_new input)) = None).
Proof.
  destruct (reachable_spec (index_new input) feature) as (names & fs & Hr & Hfs & Hn & Hiff).
  exists (first_resource (index_new input) fs name). unfold index_resource. cbn [qn_feature qn_name]. rewrite Hr.
  split; [done|]. split.
  - intros Hnone y f Hf Hp. destruct (bt_get (y, name) (ix_resources (index_new input))) as [r|] eqn:E; [|done].
    exfalso. assert (Hin : In f fs).
    { rewrite Hfs. apply list_elem_of_In, list_elem_of_omap. exists y. split; [|done].
      apply list_elem_of_In, Hiff. eauto. }
    clear Hfs Hr. induction fs as [|g fs IH]; [done|]. cbn [first_resource] in Hnone.
    destruct (bt_get (f_name g, name) (ix_resources (index_new input))) as [r'|] eqn:E'; [done|].
    destruct Hin as [<-|Hin]; [|by apply IH]. rewrite (index_new_ok input y g Hf) in E'. congruence.
  - intros H. destruct (first_resource (index_new input) fs name) as [r|] eqn:E; [|done]. exfalso.
    apply first_resource_spec in E as (l1 & f & l2 & Hl & Hg & _).
    assert (Hin : In f fs) by (rewrite Hl; apply in_app_iff; right; by left).
    rewrite Hfs in Hin. apply list_elem_of_In, list_elem_of_omap in Hin as (y & Hy%list_elem_of_In & Hf).
    apply Hiff in Hy as [_ Hp]. specialize (H y f Hf Hp). by rewrite (index_new_ok input y f Hf), H in Hg.
Qed.
