(* ===== verification/LifecycleGate.v ===== *)
(** View gates on lifecycle states
    ([lazuli_analyzer/src/checks/lifecycle_gate.rs] and
    [lifecycle_gate_helpers/]): the views, resumes and redirect-cycle passes over
    the projected input. *)
From stdpp Require Import relations.
From S2P Require Import Prelude Str BTree Lex Graph.

(** * Data *)

Inductive GateSeverity := GError | GWarning | GInfo.
Inductive GateOrigin := App | Lzx.
Record GateDiagnostic := {
  g_code : string; g_severity : GateSeverity; g_origin : GateOrigin;
  g_span : option Span; g_message : string
}.

(** What the pass reads of the IR. *)
Inductive QueryKind := QList | QLookup | QSql.
Record Query := { q_kind : QueryKind; q_name : string; q_span : option Span }.
Record Resource := { rs_name : string; rs_states : option (list string); rs_span : option Span }.
Record Feature := {
  ft_name : string; ft_uses : list string; ft_resources : list Resource; ft_queries : list Query
}.

Record RequiresLifecycle := {
  rq_resource : string; rq_state : string; rq_substep : option string; rq_span : option Span
}.
Record GateView := {
  v_feature : string; v_name : string; policy_present : bool;
  requires : option RequiresLifecycle; on_lifecycle_pending : option string; v_span : option Span
}.
Record GateResumeSource := {
  s_feature : option string; s_kind : option string; s_query : string; s_text : string; s_span : option Span
}.
Record GateResumeArm := {
  a_state : string; a_substep : option string; target_view : string; a_span : option Span
}.
Record GateResume := {
  rm_feature : string; rm_name : string; source : option GateResumeSource;
  arms : list GateResumeArm; rm_span : option Span
}.
Record GateInput := {
  views : list GateView; resumes : list GateResume;
  app_on_lifecycle_pending : option string; app_span : option Span
}.

Definition gdiag (code : string) (severity : GateSeverity) (span : option Span) (message : string)
    : GateDiagnostic :=
  {| g_code := code; g_severity := severity; g_origin := Lzx; g_span := span; g_message := message |}.

Definition gor {A} (a b : option A) : option A := match a with Some _ => a | None => b end.
Definition glist_or_none (values : list string) : string :=
  match values with [] => "<none>" | _ => join ", " values end.

(** * Text forms ([parse.rs]) *)

(** [trim_start_matches(p)] for a non-empty [p]; the fuel is the length. *)
Fixpoint trim_start_matches (fuel : nat) (p s : string) : string :=
  match fuel with
  | O => s
  | S fuel => match strip_prefix p s with Some r => trim_start_matches fuel p r | None => s end
  end.

Fixpoint trim_start_bytes (f : byte -> bool) (s : string) : string :=
  match s with
  | "" => ""
  | String b r => if f b then trim_start_bytes f r else s
  end.

Definition parse_resume_ref (default_feature text : string) : option (string * string) :=
  let raw := trim_start_bytes (fun b => (b =a? ".") || (b =a? " "))
               (trim_start_matches (str_len text) "@resume" (trim text)) in
  match split_char "." raw with
  | [name] => if nonempty name then Some (default_feature, name) else None
  | [feature; name] => Some (feature, name)
  | _ => None
  end.

Definition strip_or (p s : string) : string := match strip_prefix p s with Some r => r | None => s end.

Definition parse_view_ref (default_feature text : string) : string * string :=
  let raw := strip_or "view " (trim text) in
  match split_char "." raw with
  | [feature; mid; name] => if mid =? "view" then (feature, name) else (default_feature, raw)
  | [name] => (default_feature, name)
  | _ => (default_feature, raw)
  end.

Definition parse_requires (text : string) : option (string * string) :=
  rest ← strip_prefix "requires_lifecycle" (trim text);
  '(resource, state) ← split_once "=" (trim rest);
  Some (trim resource, match split_whitespace state with w :: _ => w | [] => trim state end).

Definition parse_source (default_feature text : string) (span : option Span) : option GateResumeSource :=
  let raw := strip_or "source " (trim text) in
  '(head, query) ←
    match split_whitespace raw with
    | [head; query] => Some (head, query)
    | [single] => Some (single, "")
    | _ => None
    end;
  let '(feature, kind, query) :=
    match split_char "." head with
    | [q; kind] => if q =? "query" then (None, Some kind, query) else (Some default_feature, None, query)
    | [feature; q; kind; name] =>
      if q =? "query" then (Some feature, Some kind, name) else (Some default_feature, None, query)
    | [feature; q; name] =>
      if q =? "query" then (Some feature, Some "lookup", name) else (Some default_feature, None, query)
    | [name] => if nonempty query then (None, Some "lookup", query) else (None, Some "lookup", name)
    | _ => (Some default_feature, None, query)
    end in
  Some {| s_feature := feature; s_kind := kind; s_query := query; s_text := raw; s_span := span |}.

(** * The index ([mod.rs]) *)

Record GIndex := {
  gx_features : list (string * Feature);
  gx_resources : list ((string * string) * Resource);
  gx_queries : list ((string * string) * Query);
  gx_resumes : list ((string * string) * GateResume)
}.

Definition gindex_new (features : list Feature) (input : GateInput) : GIndex := {|
  gx_features := bt_collect (List.map (fun f => (ft_name f, f)) features);
  gx_resources := bt_collect (flat_map (fun f =>
    List.map (fun r => ((ft_name f, rs_name r), r)) (ft_resources f)) features);
  gx_queries := bt_collect (flat_map (fun f =>
    List.map (fun q => ((ft_name f, q_name q), q)) (ft_queries f)) features);
  gx_resumes := bt_collect (List.map (fun r => ((rm_feature r, rm_name r), r)) (resumes input))
|}.

(** [stack.extend(uses)]: the last use is popped first. *)
Definition gindex_succ (ix : GIndex) (name : string) : option (list string) :=
  (fun f => List.rev (ft_uses f)) <$> bt_get name (gx_features ix).

Definition greachable (ix : GIndex) (feature : string) : option (list Feature) :=
  match dfs (gindex_succ ix) (dfs_fuel (gindex_succ ix) (List.map fst (gx_features ix))) [] [feature] with
  | Some names => Some (omap (fun n => bt_get n (gx_features ix)) names)
  | None => None
  end.

Fixpoint first_gresource (ix : GIndex) (fs : list Feature) (name : string) : option (string * Resource) :=
  match fs with
  | [] => None
  | f :: fs =>
    match bt_get (ft_name f, name) (gx_resources ix) with
    | Some r => Some (ft_name f, r)
    | None => first_gresource ix fs name
    end
  end.

(** [Index::resource]; the walk always returns, so an endless one reads as no
    resource ([gresource_total]). *)
Definition gresource (ix : GIndex) (feature name : string) : option (string * Resource) :=
  fs ← greachable ix feature; first_gresource ix fs name.

Definition declared_resources (ix : GIndex) (feature : string) : list string :=
  match greachable ix feature with
  | Some fs => flat_map (fun f => List.map rs_name (ft_resources f)) fs
  | None => []
  end.

Definition gresume (ix : GIndex) (feature resume_ref : string) : option GateResume :=
  '(resume_feature, name) ← parse_resume_ref feature resume_ref;
  bt_get (resume_feature, name) (gx_resumes ix).

(** [max_by_key]: the last of the maximal elements. *)
Definition res_start (r : Resource) : nat := match rs_span r with Some s => span_start s | None => 0 end.
Definition max_by_start (l : list Resource) : option Resource :=
  fold_left (fun best r =>
    match best with
    | None => Some r
    | Some b => if (res_start b <=? res_start r)%nat then Some r else best
    end) l None.

Definition query_resource (ix : GIndex) (feature : string) (query : Query) : option Resource :=
  q_start ← (span_start <$> q_span query);
  f ← bt_get feature (gx_features ix);
  let candidates := List.filter (fun r =>
    match rs_span r with Some s => (span_start s <=? q_start)%nat | None => false end) (ft_resources f) in
  match List.find (fun r => match rs_states r with Some _ => true | None => false end) (List.rev candidates) with
  | Some with_lifecycle => Some with_lifecycle
  | None =>
    gor (max_by_start candidates) (match ft_resources f with [r] => Some r | _ => None end)
  end.

Definition lifecycle_states (resource : Resource) : list string :=
  match rs_states resource with Some l => l | None => [] end.

Definition mem (x : string) (l : list string) : bool := existsb (String.eqb x) l.

Definition valid_requires (ix : GIndex) (feature : string) (req : RequiresLifecycle) : bool :=
  match gresource ix feature (rq_resource req) with
  | Some (_, resource) => mem (rq_state req) (lifecycle_states resource)
  | None => false
  end.

Definition query_kind (query : Query) : string :=
  match q_kind query with QList => "list" | QLookup => "lookup" | QSql => "sql" end.

(** * The passes *)

(** [source_diag] *)
Definition source_diag (resume : GateResume) (src : GateResumeSource) (reason : string) : GateDiagnostic :=
  gdiag "LIFECYCLE-GATE-008" GError (gor (s_span src) (rm_span resume))
    ("resume `" +:+ rm_name resume +:+ "` declares source `" +:+ s_text src +:+ "`, but it " +:+ reason +:+ ".").

Record QueryHit := { h_feature : string; h_query : Query; h_resource : option Resource }.

(** [valid_lookup_source]: what it pushes, and what it returns. *)
Definition valid_lookup_source (ix : GIndex) (resume : GateResume) : list GateDiagnostic * option QueryHit :=
  match source resume with
  | None => ([], None)
  | Some src =>
    let feature := match s_feature src with Some f => f | None => rm_feature resume end in
    match bt_get (feature, s_query src) (gx_queries ix) with
    | None => ([source_diag resume src "does not resolve to a declared query"], None)
    | Some query =>
      let actual_kind := query_kind query in
      if negb (match s_kind src with Some k => k =? "lookup" | None => false end) || negb (actual_kind =? "lookup") then
        ([source_diag resume src
            ("is declared as `query." +:+ actual_kind +:+ "`, but a resume source must be `query.lookup`")], None)
      else ([], Some {| h_feature := feature; h_query := query; h_resource := query_resource ix feature query |})
    end
  end.

(** States with an arm of their own. *)
Definition explicit_states (resume : GateResume) : list string :=
  bs_collect (List.map a_state
    (List.filter (fun arm => negb (a_state arm =? "*") && negb (a_state arm =? "none")) (arms resume))).
Definition wildcard (resume : GateResume) : option GateResumeArm :=
  List.find (fun arm => a_state arm =? "*") (arms resume).

(** The coverage diagnostics (003, 004, 005) of a resume over a resource. *)
Definition check_coverage (resume : GateResume) (resource : Resource) : list GateDiagnostic :=
  let states := lifecycle_states resource in
  let explicit := explicit_states resume in
  let missing := List.filter (fun state => negb (bs_mem state explicit)) states in
  let extra := List.filter (fun state => negb (mem state states)) explicit in
  match states with
  | [] => []
  | _ =>
    ((match missing, wildcard resume with
      | _ :: _, None =>
        [gdiag "LIFECYCLE-GATE-003" GError (rm_span resume)
          ("resume `" +:+ rm_name resume +:+ "` does not cover states of `" +:+ rs_name resource +:+ "`: " +:+
           join ", " missing +:+ ". Add explicit arms or a wildcard `*` arm.")]
      | _, _ => []
      end) ++
     (match extra with
      | [] => []
      | _ =>
        [gdiag "LIFECYCLE-GATE-004" GWarning (rm_span resume)
          ("resume `" +:+ rm_name resume +:+ "` has arms for states not declared in `" +:+ rs_name resource +:+ "`: " +:+
           join ", " extra +:+ ". Declared states: " +:+ join ", " states +:+ ".")]
      end) ++
     (match wildcard resume, missing with
      | Some w, [] =>
        [gdiag "LIFECYCLE-GATE-005" GInfo (gor (a_span w) (rm_span resume))
          ("resume `" +:+ rm_name resume +:+ "` has wildcard `*` but every declared state is already explicitly covered.")]
      | _, _ => []
      end))%list
  end.

Definition check_resume (ix : GIndex) (resume : GateResume) : list GateDiagnostic :=
  let '(pushed, hit) := valid_lookup_source ix resume in
  (pushed ++
   match hit with
   | Some h => match h_resource h with Some resource => check_coverage resume resource | None => [] end
   | None => []
   end)%list.

Definition check_resumes (ix : GIndex) : list GateDiagnostic :=
  flat_map (fun kv => check_resume ix kv.2) (gx_resumes ix).

Definition has_matching_substep (input : GateInput) (view : GateView) (resume : GateResume) (substep : string) : bool :=
  let is_substep (o : option string) := match o with Some s => s =? substep | None => false end in
  match requires view with
  | None => false
  | Some req =>
    existsb (fun arm => (a_state arm =? rq_state req) && is_substep (a_substep arm)) (arms resume) ||
    existsb (fun other =>
      (v_feature other =? v_feature view) && negb (v_name other =? v_name view) &&
      match requires other with
      | Some r => (rq_resource r =? rq_resource req) && (rq_state r =? rq_state req) && is_substep (rq_substep r)
      | None => false
      end) (views input)
  end.

Definition resume_ref_of (input : GateInput) (view : GateView) : option string :=
  gor (on_lifecycle_pending view) (app_on_lifecycle_pending input).

(** One view of [check_views]. *)
Definition check_view (input : GateInput) (ix : GIndex) (view : GateView) : list GateDiagnostic :=
  match requires view with
  | None => []
  | Some req =>
    let span := gor (rq_span req) (v_span view) in
    let declares := "view `" +:+ v_name view +:+ "` declares `requires_lifecycle " +:+ rq_resource req in
    match gresource ix (v_feature view) (rq_resource req) with
    | None =>
      [gdiag "LIFECYCLE-GATE-001" GError span
        (declares +:+ " = " +:+ rq_state req +:+ "`, but resource `" +:+ rq_resource req +:+
         "` is not declared in any reachable feature. Declared resources: " +:+
         glist_or_none (declared_resources ix (v_feature view)) +:+ ".")]
    | Some (_, resource) =>
      let states := lifecycle_states resource in
      ((match states with
        | [] =>
          [gdiag "LIFECYCLE-GATE-002" GError span
            (declares +:+ " = " +:+ rq_state req +:+ "`, but resource `" +:+ rq_resource req +:+
             "` does not declare a lifecycle status block.")]
        | _ =>
          if mem (rq_state req) states then []
          else [gdiag "LIFECYCLE-GATE-002" GError span
            (declares +:+ " = " +:+ rq_state req +:+ "`, but `" +:+ rq_state req +:+
             "` is not declared in `lifecycle status of " +:+ rq_resource req +:+ "`. Declared states: " +:+
             join ", " states +:+ ".")]
        end) ++
       (if policy_present view then []
        else [gdiag "LIFECYCLE-GATE-009" GWarning span (declares +:+ "` but has no actor `policy` gate.")]) ++
       match resume_ref_of input view with
       | None => []
       | Some resume_ref =>
         match gresume ix (v_feature view) resume_ref with
         | None => []
         | Some resume =>
           let '(pushed, hit) := valid_lookup_source ix resume in
           (pushed ++
            match hit with
            | None => []
            | Some h =>
              ((match h_resource h with
                | Some source_resource =>
                  if negb (rs_name source_resource =? rq_resource req) then
                    [gdiag "LIFECYCLE-GATE-007" GError span
                      (declares +:+ "` but `on_lifecycle_pending " +:+ resume_ref +:+ "` resolves to resume `" +:+
                       rm_name resume +:+ "`, whose source query returns `" +:+ rs_name source_resource +:+ "`.")]
                  else []
                | None => []
                end) ++
               match rq_substep req with
               | Some substep =>
                 if negb (has_matching_substep input view resume substep) then
                   [gdiag "LIFECYCLE-SUBSTEP-001" GError span
                     (declares +:+ " = " +:+ rq_state req +:+ " substep " +:+ substep +:+
                      "`, but no matching resume arm or sibling view declares that substep.")]
                 else []
               | None => []
               end)
            end)
         end
       end)%list
    end
  end.

Definition check_views (input : GateInput) (ix : GIndex) : list GateDiagnostic :=
  flat_map (check_view input ix) (views input).

(** ** Redirect cycles ([cycles.rs]) *)

Definition view_map (input : GateInput) : list ((string * string) * GateView) :=
  bt_collect (List.map (fun v => ((v_feature v, v_name v), v)) (views input)).

Definition view_key (feature name : string) : string := feature +:+ "." +:+ name.

(** The arm a pending user in [state] is sent on by [resume]. *)
Definition arm_for (resume : GateResume) (state : string) : option GateResumeArm :=
  gor (List.find (fun c => a_state c =? state) (arms resume)) (wildcard resume).

(** Where the view the arm points at sends a user who is in [state] next: the
    view's feature and the arm taken; [None] when the user may stay. *)
Definition next_hop (ix : GIndex) (vm : list ((string * string) * GateView)) (resource state : string)
    (default_feature : string) (arm : GateResumeArm) : option (string * GateResumeArm) :=
  let '(feature, view_name) := parse_view_ref default_feature (target_view arm) in
  target ← bt_get (feature, view_name) vm;
  req ← requires target;
  if negb (valid_requires ix (v_feature target) req) then None
  else if negb (rq_resource req =? resource) || (rq_state req =? state) then None
  else
    resume_ref ← on_lifecycle_pending target;
    resume ← gresume ix (v_feature target) resume_ref;
    next ← arm_for resume state;
    Some (v_feature target, next).

Definition hop_key (default_feature : string) (arm : GateResumeArm) : string :=
  let '(feature, view_name) := parse_view_ref default_feature (target_view arm) in view_key feature view_name.

(** [walk_cycle]: the answer and the final path; [None] is out of fuel. *)
Fixpoint walk_cycle (fuel : nat) (ix : GIndex) (vm : list ((string * string) * GateView))
    (default_feature resource state : string) (arm : GateResumeArm) (path : list string)
    : option (bool * list string) :=
  match fuel with
  | O => None
  | S fuel =>
    let key := hop_key default_feature arm in
    if mem key path then Some (true, (path ++ [key])%list)
    else
      match next_hop ix vm resource state default_feature arm with
      | None => Some (false, path)
      | Some (feature, next) => walk_cycle fuel ix vm feature resource state next (path ++ [key])%list
      end
  end.

Definition last_or_empty (l : list string) : string := List.last l "".

(** The arms of one view in [check_cycles]; the state is [seen] and what was
    pushed. *)
Fixpoint check_arms (fuel : nat) (ix : GIndex) (vm : list ((string * string) * GateView)) (view : GateView)
    (req : RequiresLifecycle) (resume : GateResume) (l : list GateResumeArm)
    (st : list string * list GateDiagnostic) : option (list string * list GateDiagnostic) :=
  match l with
  | [] => Some st
  | arm :: l =>
    if (a_state arm =? "*") || (a_state arm =? "none") || (a_state arm =? rq_state req) then
      check_arms fuel ix vm view req resume l st
    else
      '(found, path) ← walk_cycle fuel ix vm (v_feature view) (rq_resource req) (a_state arm) arm
                          [view_key (v_feature view) (v_name view)];
      if found : bool then
        let key := rq_resource req +:+ ":" +:+ a_state arm +:+ ":" +:+ last_or_empty path in
        if bs_mem key st.1 then check_arms fuel ix vm view req resume l st
        else check_arms fuel ix vm view req resume l
          (bs_insert key st.1,
           (st.2 ++ [gdiag "LIFECYCLE-GATE-006" GError (gor (a_span arm) (rm_span resume))
             ("resume `" +:+ rm_name resume +:+ "` arm `" +:+ a_state arm +:+ "` creates a redirect cycle: " +:+
              join " -> " path +:+ ".")])%list)
      else check_arms fuel ix vm view req resume l st
  end.

Definition cycle_fuel (input : GateInput) : nat := List.length (views input) + 3.

Fixpoint check_cycles_go (input : GateInput) (ix : GIndex) (vs : list GateView)
    (st : list string * list GateDiagnostic) : option (list string * list GateDiagnostic) :=
  match vs with
  | [] => Some st
  | view :: vs =>
    st ← match requires view with
         | None => Some st
         | Some req =>
           if negb (valid_requires ix (v_feature view) req) then Some st
           else match resume_ref_of input view with
                | None => Some st
                | Some resume_ref =>
                  match gresume ix (v_feature view) resume_ref with
                  | None => Some st
                  | Some resume =>
                    check_arms (cycle_fuel input) ix (view_map input) view req resume (arms resume) st
                  end
                end
         end;
    check_cycles_go input ix vs st
  end.

Definition check_cycles (input : GateInput) (ix : GIndex) : option (list GateDiagnostic) :=
  '(_, ds) ← check_cycles_go input ix (views input) ([], []); Some ds.

(** [dedupe]: keep the first diagnostic of each (code, span, message). *)
Definition diag_key (d : GateDiagnostic) : string * option (nat * nat) * string :=
  (g_code d, (fun s => (span_start s, span_end s)) <$> g_span d, g_message d).

Fixpoint dedupe (seen : list (string * option (nat * nat) * string)) (l : list GateDiagnostic) : list GateDiagnostic :=
  match l with
  | [] => []
  | d :: l => if bs_mem (diag_key d) seen then dedupe seen l else d :: dedupe (bs_insert (diag_key d) seen) l
  end.

(** [check_input] *)
Definition gate_check_input (input : GateInput) (features : list Feature) : option (list GateDiagnostic) :=
  let ix := gindex_new features input in
  cycles ← check_cycles input ix;
  Some (dedupe [] (check_views input ix ++ check_resumes ix ++ cycles)%list).

(** * Lemmas *)

Lemma mem_In x l : mem x l = true <-> In x l.
Proof.
  unfold mem. rewrite existsb_exists. split; [intros (y & Hy & ->%String.eqb_eq); done|].
  intros H. exists x. split; [done|apply String.eqb_refl].
Qed.

Lemma mem_false x l : mem x l = false <-> ~ In x l.
Proof. rewrite <- mem_In. destruct (mem x l); naive_solver. Qed.

(** ** Reachability *)

Lemma greachable_spec ix feature :
  exists names fs, greachable ix feature = Some fs /\
    fs = omap (fun n => bt_get n (gx_features ix)) names /\ List.NoDup names /\
    forall y, In y names <-> known (gindex_succ ix) y /\ rtc (edge (gindex_succ ix)) feature y.
Proof.
  destruct (dfs_exact (gindex_succ ix) (List.map fst (gx_features ix))) with (start := feature)
    as (names & H & Hn & Hiff).
  { intros x (next & Hx). unfold gindex_succ in Hx. destruct (bt_get x (gx_features ix)) as [f|] eqn:E; [|done].
    apply bt_get_In in E. apply in_map_iff. by exists (x, f). }
  exists names. eexists. unfold greachable. rewrite H. eauto.
Qed.

(** ** Redirect walks *)

Section Walk.
Variable ix : GIndex.
Variable vm : list ((string * string) * GateView).
Variables resource state : string.

(** A position of the walk: the feature a view reference is relative to, and
    the arm that holds it. *)
Local Abbreviation hop := (string * GateResumeArm)%type (only parsing).
Definition hnext (h : hop) : option hop := next_hop ix vm resource state h.1 h.2.
Definition hkey (h : hop) : string := hop_key h.1 h.2.

(** [redirects h l h']: from [h] the user passes through [l] and is at [h']. *)
Inductive redirects : hop -> list hop -> hop -> Prop :=
| rd_here h : redirects h [] h
| rd_step h h' l h'' : hnext h = Some h' -> redirects h' l h'' -> redirects h (h :: l) h''.

(** [n] redirects from [h], if the user is not let through before. *)
Fixpoint hops (n : nat) (h : hop) : option hop :=
  match n with O => Some h | S n => h' ← hnext h; hops n h' end.
Definition endless (h : hop) : Prop := forall n, hops n h <> None.

Lemma walk_cycle_step fuel h path :
  walk_cycle (S fuel) ix vm h.1 resource state h.2 path =
  if mem (hkey h) path then Some (true, (path ++ [hkey h])%list)
  else match hnext h with
       | None => Some (false, path)
       | Some h' => walk_cycle fuel ix vm h'.1 resource state h'.2 (path ++ [hkey h])%list
       end.
Proof.
  unfold hkey, hnext. cbn [walk_cycle]. destruct (mem (hop_key h.1 h.2) path); [done|].
  by destruct (next_hop ix vm resource state h.1 h.2) as [[f a]|].
Qed.

Lemma walk_cycle_sound fuel h path found out :
  walk_cycle fuel ix vm h.1 resource state h.2 path = Some (found, out) -> List.NoDup path ->
  exists l h', redirects h l h' /\ List.NoDup (path ++ List.map hkey l) /\
    if found : bool then In (hkey h') (path ++ List.map hkey l) /\ out = (path ++ List.map hkey l ++ [hkey h'])%list
    else hnext h' = None /\ out = (path ++ List.map hkey l)%list.
Proof.
  revert h path. induction fuel as [|fuel IH]; intros h path H Hn; [done|]. rewrite walk_cycle_step in H.
  destruct (mem (hkey h) path) eqn:Em.
  { injection H as <- <-. exists [], h. cbn. rewrite app_nil_r. apply mem_In in Em.
    repeat split; [constructor|done..]. }
  apply mem_false in Em. destruct (hnext h) as [h'|] eqn:Eh.
  - apply IH in H as (l & h'' & Hr & Hn' & H).
    2:{ apply NoDup_ListNoDup, NoDup_app. rewrite !NoDup_ListNoDup. split; [done|]. split.
        - intros x Hx%list_elem_of_In. rewrite list_elem_of_In. by intros [<-|[]].
        - constructor; [by intros []|constructor]. }
    exists (h :: l), h''. rewrite <- app_assoc in Hn'. cbn in *. split; [by econstructor|]. split; [done|].
    rewrite <- !app_assoc in H. done.
  - injection H as <- <-. exists [], h. cbn. rewrite app_nil_r. repeat split; [constructor|done..].
Qed.

(** Every key the walk passes is that of a view of the map. *)
Definition view_keys : list string := List.map (fun kv => view_key kv.1.1 kv.1.2) vm.

Lemma hnext_target h h' : hnext h = Some h' -> In (hkey h) view_keys.
Proof.
  unfold hnext, hkey, next_hop, hop_key, view_keys.
  destruct (parse_view_ref h.1 (target_view h.2)) as [f v]. intros H.
  apply bind_Some in H as (t & Ht & _). apply bt_get_In in Ht. apply in_map_iff. by exists ((f, v), t).
Qed.

Lemma walk_cycle_enough fuel h start l :
  List.NoDup (start :: l) -> incl l view_keys -> List.length view_keys < fuel + List.length l ->
  walk_cycle fuel ix vm h.1 resource state h.2 (start :: l) <> None.
Proof.
  revert h l. induction fuel as [|fuel IH]; intros h l Hn Hi Hf.
  { inversion Hn; subst. exfalso. pose proof (NoDup_incl_length (l := l) (l' := view_keys)). intuition lia. }
  rewrite walk_cycle_step. destruct (mem (hkey h) (start :: l)) eqn:Em; [done|]. apply mem_false in Em.
  destruct (hnext h) as [h'|] eqn:Eh; [|done]. apply (IH h' (l ++ [hkey h])%list).
  - apply (Permutation_NoDup (l := hkey h :: start :: l)); [|by constructor].
    rewrite app_comm_cons. apply Permutation_cons_append.
  - apply incl_app; [done|]. intros x [<-|[]]. by eapply hnext_target.
  - rewrite length_app. cbn. lia.
Qed.

Lemma hops_redirects h l h' : redirects h l h' -> hops (List.length l) h = Some h'.
Proof. induction 1 as [|h h' l h'' Hn _ IH]; [done|]. cbn. by rewrite Hn. Qed.

Lemma hops_stop n h h' : hops n h = Some h' -> hnext h' = None -> hops (S n) h = None.
Proof.
  revert h. induction n as [|n IH]; intros h; cbn; [by intros [= ->] ->|].
  destruct (hnext h) as [h1|]; [|done]. intros H Hs. apply IH in H; done.
Qed.

(** A finite set of positions closed under redirects never lets the user through. *)
Lemma closed_endless (L : list hop) :
  (forall x, In x L -> exists y, hnext x = Some y /\ In y L) -> forall x, In x L -> endless x.
Proof.
  intros Hc x Hx n. revert x Hx. induction n as [|n IH]; intros x Hx; [done|].
  destruct (Hc x Hx) as (y & Hy & HyL). cbn. rewrite Hy. by apply IH.
Qed.

Lemma redirects_closed h l h' : redirects h l h' -> In h (l ++ [h']) /\
  forall x, In x l -> exists y, hnext x = Some y /\ In y (l ++ [h']).
Proof.
  induction 1 as [h|h h1 l h' Hn _ [IH1 IH2]]; [cbn; by split; [left|]|]. split; [by left|].
  intros x [<-|Hx]; [exists h1; split; [done|by right]|]. destruct (IH2 x Hx) as (y & ? & ?).
  exists y. split; [done|by right].
Qed.
End Walk.

(** ** Keys identify views when feature names have no dot *)

Lemma view_key_inj f n f' n' : lacks "." f -> lacks "." f' -> view_key f n = view_key f' n' -> f = f' /\ n = n'.
Proof.
  unfold view_key. cbn. intros Hf Hf' E. pose proof (split_once_app "." f n Hf) as H.
  rewrite E, split_once_app in H by done. by injection H as -> ->.
Qed.

Lemma parse_view_ref_lacks d t : lacks "." d -> lacks "." (parse_view_ref d t).1.
Proof.
  intros Hd. unfold parse_view_ref. pose proof (split_char_lacks "." (strip_or "view " (trim t))) as Hs.
  destruct (split_char "." _) as [|a [|b [|c [|]]]]; try done. inversion_clear Hs. by destruct (b =? "view").
Qed.

(** The next hop is a function of the view reached. *)
Lemma hnext_parse ix vm resource state h h' :
  parse_view_ref h.1 (target_view h.2) = parse_view_ref h'.1 (target_view h'.2) ->
  hnext ix vm resource state h = hnext ix vm resource state h'.
Proof. unfold hnext, next_hop. by intros ->. Qed.

Lemma hkey_hnext ix vm resource state h h' : lacks "." h.1 -> lacks "." h'.1 -> hkey h = hkey h' ->
  hnext ix vm resource state h = hnext ix vm resource state h'.
Proof.
  intros H H' E. apply hnext_parse. unfold hkey, hop_key in E.
  pose proof (parse_view_ref_lacks h.1 (target_view h.2) H) as L.
  pose proof (parse_view_ref_lacks h'.1 (target_view h'.2) H') as L'.
  destruct (parse_view_ref h.1 _), (parse_view_ref h'.1 _). apply view_key_inj in E as [-> ->]; done.
Qed.

Definition dot_free (input : GateInput) : Prop := Forall (fun v => lacks "." (v_feature v)) (views input).

Lemma view_map_In input k v : bt_get k (view_map input) = Some v -> In v (views input) /\ k = (v_feature v, v_name v).
Proof.
  unfold view_map. rewrite bt_collect_get. destruct (List.find _ _) as [[k' v']|] eqn:E; [|done]. intros [= ->].
  apply find_some in E as [Hin Hk]. apply in_rev, in_map_iff in Hin as (v' & [= <- <-] & Hin).
  by apply keqb_eq in Hk.
Qed.

Lemma hnext_lacks ix input resource state h h' : dot_free input ->
  hnext ix (view_map input) resource state h = Some h' -> lacks "." h'.1.
Proof.
  intros Hd. unfold hnext, next_hop. destruct (parse_view_ref h.1 _) as [f v]. intros H.
  apply bind_Some in H as (t & Ht & H). apply bind_Some in H as (req & _ & H).
  apply view_map_In in Ht as [Hin _]. repeat case_in H; try done.
  apply bind_Some in H as (? & _ & H). apply bind_Some in H as (? & _ & H). apply bind_Some in H as (? & _ & [= <-]).
  unfold dot_free in Hd. rewrite List.Forall_forall in Hd. by apply Hd.
Qed.

Lemma redirects_lacks ix input resource state h l h' : dot_free input -> lacks "." h.1 ->
  redirects ix (view_map input) resource state h l h' -> Forall (fun x => lacks "." x.1) (l ++ [h'])%list.
Proof.
  intros Hd Hh H. induction H as [h|h h1 l h' Hn _ IH]; [by repeat constructor|].
  constructor; [done|]. apply IH. by eapply hnext_lacks.
Qed.

Lemma view_keys_length input : List.length (view_keys (view_map input)) <= List.length (views input).
Proof.
  unfold view_keys, view_map. rewrite length_map. etransitivity; [apply bt_collect_length|]. by rewrite length_map.
Qed.

Lemma walk_cycle_total ix input f resource state arm start : exists found path,
  walk_cycle (cycle_fuel input) ix (view_map input) f resource state arm [start] = Some (found, path).
Proof.
  destruct (walk_cycle _ _ _ _ _ _ _ _) as [[found path]|] eqn:E; [eauto|]. exfalso.
  apply (walk_cycle_enough ix (view_map input) resource state (cycle_fuel input) (f, arm) start []); [..|done].
  - constructor; [by intros []|constructor].
  - intros x [].
  - pose proof (view_keys_length input). unfold cycle_fuel. cbn. lia.
Qed.

(** The walk that starts at a gated view's own redirect answers whether the user
    is redirected forever. *)
Lemma walk_cycle_endless ix input view req ref resume state arm found path :
  dot_free input -> bt_get (v_feature view, v_name view) (view_map input) = Some view ->
  requires view = Some req -> valid_requires ix (v_feature view) req = true ->
  on_lifecycle_pending view = Some ref -> gresume ix (v_feature view) ref = Some resume ->
  arm_for resume state = Some arm -> rq_state req <> state ->
  walk_cycle (cycle_fuel input) ix (view_map input) (v_feature view) (rq_resource req) state arm
    [view_key (v_feature view) (v_name view)] = Some (found, path) ->
  found = true <-> endless ix (view_map input) (rq_resource req) state (v_feature view, arm).
Proof.
  intros Hd Hv Hreq Hval Hpend Hres Harm Hne H.
  assert (Hf : lacks "." (v_feature view)).
  { apply view_map_In in Hv as [Hin _]. unfold dot_free in Hd. rewrite List.Forall_forall in Hd. by apply Hd. }
  apply (walk_cycle_sound ix (view_map input) _ _ _ (v_feature view, arm)) in H as (l & h' & Hr & _ & H).
  2:{ constructor; [by intros []|constructor]. }
  pose proof (redirects_lacks ix input _ _ (v_feature view, arm) l h' Hd Hf Hr) as Hl. rewrite List.Forall_forall in Hl.
  assert (Hh' : lacks "." h'.1) by (apply Hl, in_app_iff; right; by left).
  destruct found; (split; [intros Hfound|]); try done.
  - destruct H as [Hin _]. apply redirects_closed in Hr as [H0 Hc].
    apply closed_endless with (L := (l ++ [h'])%list); [|done].
    intros x [Hx|[<-|[]]]%in_app_iff; [by apply Hc|].
    destruct Hin as [Hk|(x & Hk & Hx)%in_map_iff].
    + exists (v_feature view, arm). split; [|done]. unfold hnext, next_hop.
      unfold hkey, hop_key in Hk. pose proof (parse_view_ref_lacks h'.1 (target_view h'.2) Hh') as Lh.
      destruct (parse_view_ref h'.1 (target_view h'.2)) as [f n]. apply view_key_inj in Hk as [<- <-]; [|done..].
      rewrite Hv. cbn [mbind option_bind]. rewrite Hreq. cbn [mbind option_bind].
      rewrite Hval, String.eqb_refl. cbn. apply String.eqb_neq in Hne. rewrite Hne.
      rewrite Hpend. cbn [mbind option_bind]. rewrite Hres. cbn [mbind option_bind]. by rewrite Harm.
    + destruct (Hc x Hx) as (y & Hy & HyL). exists y. split; [|done]. rewrite <- Hy. apply hkey_hnext; [done| |done].
      apply Hl, in_app_iff. by left.
  - destruct H as [Hs _]. intros Hfor. exfalso. apply (Hfor (S (List.length l))).
    eapply hops_stop; [|exact Hs]. by apply hops_redirects.
Qed.

(** ** The cycle pass *)

(** The arms of a view's resume the pass follows. *)
Definition followed (req : RequiresLifecycle) (arm : GateResumeArm) : bool :=
  negb ((a_state arm =? "*") || (a_state arm =? "none") || (a_state arm =? rq_state req)).

(** The walk of one arm. *)
Definition arm_walk (input : GateInput) (ix : GIndex) (view : GateView) (req : RequiresLifecycle) (arm : GateResumeArm) :=
  walk_cycle (cycle_fuel input) ix (view_map input) (v_feature view) (rq_resource req) (a_state arm) arm
    [view_key (v_feature view) (v_name view)].

(** [seen] is only extended together with a report, so the pass is silent
    exactly when no walk finds a cycle. *)
Definition silent (st : list string * list GateDiagnostic) : Prop := st.1 = [] /\ st.2 = [].
Definition coherent (st : list string * list GateDiagnostic) : Prop := st.1 <> [] -> st.2 <> [].

Lemma coherent_silent st : coherent st -> st.2 = [] -> silent st.
Proof. destruct st as [[|k s] ds]; [done|]. intros H E. exfalso. by apply (H ltac:(done)). Qed.

Lemma check_arms_spec input ix view req resume l st : coherent st ->
  exists st', check_arms (cycle_fuel input) ix (view_map input) view req resume l st = Some st' /\ coherent st' /\
    (st'.2 = [] <-> st.2 = [] /\ forall arm, In arm l -> followed req arm = true ->
                      exists path, arm_walk input ix view req arm = Some (false, path)).
Proof.
  revert st. induction l as [|arm l IH]; intros st Hc; cbn [check_arms].
  { exists st. split; [done|]. split; [done|]. split; [intros H; split; [done|by intros ? []]|by intros [? _]]. }
  unfold followed. destruct ((a_state arm =? "*") || (a_state arm =? "none") || (a_state arm =? rq_state req)) eqn:Ef.
  { destruct (IH st Hc) as (st' & H1 & H2 & H3). exists st'. split; [done|]. split; [done|]. rewrite H3. split.
    - intros [H4 H5]. split; [done|]. intros a [<-|Ha] Hf; [by rewrite Ef in Hf|by apply H5].
    - intros [H4 H5]. split; [done|]. intros a Ha Hf. apply H5; [by right|done]. }
  destruct (walk_cycle_total ix input (v_feature view) (rq_resource req) (a_state arm) arm
    (view_key (v_feature view) (v_name view))) as (found & path & Hw).
  assert (Hcons : forall st1, coherent st1 -> (st1.2 = [] <-> st.2 = [] /\ found = false) ->
    exists st', check_arms (cycle_fuel input) ix (view_map input) view req resume l st1 = Some st' /\ coherent st' /\
    (st'.2 = [] <-> st.2 = [] /\ forall a, In a (arm :: l) -> followed req a = true ->
                      exists path, arm_walk input ix view req a = Some (false, path))).
  { intros st1 Hc1 He. destruct (IH st1 Hc1) as (st' & H1 & H2 & H3). exists st'. split; [done|]. split; [done|].
    rewrite H3, He. split.
    - intros [[H4 ->] H5]. split; [done|]. intros a [<-|Ha] Hf; [by exists path|by apply H5].
    - intros [H4 H5]. split; [split; [done|]|intros a Ha; apply H5; by right].
      destruct (H5 arm) as (path' & Hp); [by left|unfold followed; by rewrite Ef|].
      unfold arm_walk in Hp. rewrite Hw in Hp. congruence. }
  rewrite Hw. cbn [mbind option_bind]. destruct found; [|apply Hcons; [done|naive_solver]].
  destruct (bs_mem _ st.1) eqn:Em; apply Hcons; try done.
  - split; [|by intros [_ ?]]. intros E. apply coherent_silent in E as [E _]; [|done]. by rewrite E in Em.
  - intros _. cbn. by destruct st.2.
  - cbn. split; [by destruct st.2|by intros [_ ?]].
Qed.

(** The resume a view redirects pending users to, when its gate is valid. *)
Definition view_resume (input : GateInput) (ix : GIndex) (view : GateView) : option (RequiresLifecycle * GateResume) :=
  req ← requires view;
  if valid_requires ix (v_feature view) req then
    ref ← resume_ref_of input view; resume ← gresume ix (v_feature view) ref; Some (req, resume)
  else None.

Lemma check_cycles_go_spec input ix vs st : coherent st ->
  exists st', check_cycles_go input ix vs st = Some st' /\ coherent st' /\
    (st'.2 = [] <-> st.2 = [] /\ forall view req resume arm, In view vs ->
       view_resume input ix view = Some (req, resume) -> In arm (arms resume) -> followed req arm = true ->
       exists path, arm_walk input ix view req arm = Some (false, path)).
Proof.
  revert st. induction vs as [|view vs IH]; intros st Hc; cbn [check_cycles_go].
  { exists st. split; [done|]. split; [done|]. split; [intros H; split; [done|by intros ? ? ? ? []]|by intros [? _]]. }
  assert (Hskip : view_resume input ix view = None -> exists st', check_cycles_go input ix vs st = Some st' /\ coherent st' /\
    (st'.2 = [] <-> st.2 = [] /\ forall v req resume arm, In v (view :: vs) ->
       view_resume input ix v = Some (req, resume) -> In arm (arms resume) -> followed req arm = true ->
       exists path, arm_walk input ix v req arm = Some (false, path))).
  { intros Hn. destruct (IH st Hc) as (st' & H1 & H2 & H3). exists st'. split; [done|]. split; [done|]. rewrite H3.
    split; intros [H4 H5]; (split; [done|]).
    - intros v req resume arm [<-|Hv]; [congruence|by apply H5].
    - intros v req resume arm Hv. apply H5. by right. }
  unfold view_resume in Hskip at 1.
  destruct (requires view) as [req|] eqn:Ereq; cbn [mbind option_bind] in *; [|by apply Hskip].
  destruct (valid_requires ix (v_feature view) req) eqn:Ev; cbn [negb mbind option_bind] in *; [|by apply Hskip].
  destruct (resume_ref_of input view) as [ref|] eqn:Er; cbn [mbind option_bind] in *; [|by apply Hskip].
  destruct (gresume ix (v_feature view) ref) as [resume|] eqn:Eg; cbn [mbind option_bind] in *; [|by apply Hskip].
  clear Hskip. destruct (check_arms_spec input ix view req resume (arms resume) st Hc) as (st1 & H1 & Hc1 & H2).
  rewrite H1. cbn [mbind option_bind]. destruct (IH st1 Hc1) as (st' & H3 & Hc' & H4). exists st'.
  split; [done|]. split; [done|]. rewrite H4, H2.
  assert (Hvr : view_resume input ix view = Some (req, resume)).
  { unfold view_resume. rewrite Ereq. cbn. rewrite Ev, Er. cbn. by rewrite Eg. }
  split.
  - intros [[H5 H6] H7]. split; [done|]. intros v req' resume' arm [<-|Hv] Hr; [|by eapply H7].
    rewrite Hvr in Hr. injection Hr as <- <-. apply H6.
  - intros [H5 H6]. split; [split; [done|]|].
    + intros arm. by eapply H6; [left|].
    + intros v req' resume' arm Hv. apply H6. by right.
Qed.

(** The first arm for a state is the one followed, when states do not repeat. *)
Lemma arm_for_unique resume arm : List.NoDup (List.map a_state (arms resume)) -> In arm (arms resume) ->
  arm_for resume (a_state arm) = Some arm.
Proof.
  intros Hn Hin. unfold arm_for.
  enough (List.find (fun c => a_state c =? a_state arm) (arms resume) = Some arm) as -> by done.
  induction (arms resume) as [|a l IH]; [done|]. cbn in *. inversion Hn as [|? ? Ha Hl]; subst.
  destruct Hin as [->|Hin]; [by rewrite String.eqb_refl|].
  destruct (String.eqb_spec (a_state a) (a_state arm)) as [E|]; [|by apply IH].
  exfalso. apply Ha. rewrite E. by apply in_map.
Qed.

Lemma view_map_unique input view :
  List.NoDup (List.map (fun v => (v_feature v, v_name v)) (views input)) -> In view (views input) ->
  bt_get (v_feature view, v_name view) (view_map input) = Some view.
Proof.
  intros Hn Hin. unfold view_map. rewrite bt_collect_get.
  destruct (List.find _ _) as [[k v]|] eqn:E.
  - apply find_some in E as [Hv Hk]. apply keqb_eq in Hk. cbn in Hk. subst k.
    apply in_rev, in_map_iff in Hv as (v' & [= E1 E2 <-] & Hv). cbn. f_equal.
    clear -Hn Hin Hv E1 E2. induction (views input) as [|a l IH]; [done|]. cbn in *.
    inversion Hn as [|? ? Ha Hl]; subst. destruct Hin as [->|Hin], Hv as [->|Hv]; [done| | |by apply IH].
    + exfalso. apply Ha, in_map_iff. exists v'. by rewrite E1, E2.
    + exfalso. apply Ha, in_map_iff. exists view. by rewrite E1, E2.
  - exfalso. assert (Hf : keqb (v_feature view, v_name view) ((v_feature view, v_name view), view).1 = false).
    { apply (find_none _ _ E), in_rev. rewrite rev_involutive. apply in_map_iff. by exists view. }
    cbn [fst] in Hf. by rewrite keqb_refl in Hf.
Qed.

(** ** Coverage *)

Lemma explicit_states_In resume state : In state (explicit_states resume) <->
  state <> "*" /\ state <> "none" /\ exists arm, In arm (arms resume) /\ a_state arm = state.
Proof.
  unfold explicit_states. rewrite bs_collect_In, in_map_iff. split.
  - intros (arm & <- & [Hin Hf]%filter_In). bool_prop. eauto.
  - intros (H1 & H2 & arm & Hin & <-). exists arm. split; [done|]. apply filter_In. split; [done|].
    apply String.eqb_neq in H1, H2. by rewrite H1, H2.
Qed.

Lemma filter_nil {A} (p : A -> bool) l : List.filter p l = [] <-> forall x, In x l -> p x = false.
Proof.
  split; [|apply filter_none]. intros H x Hx. destruct (p x) eqn:E; [|done]. exfalso.
  assert (Hin : In x (List.filter p l)) by by apply filter_In. by rewrite H in Hin.
Qed.

Lemma find_In {A} (p : A -> bool) l x : In x l -> p x = true -> List.find p l <> None.
Proof. intros Hin Hp E. by rewrite (find_none _ _ E x Hin) in Hp. Qed.

Lemma arm_for_Some resume state :
  arm_for resume state <> None <-> (exists arm, In arm (arms resume) /\ a_state arm = state) \/ wildcard resume <> None.
Proof.
  unfold arm_for. destruct (List.find _ (arms resume)) as [a|] eqn:E; cbn [gor].
  - split; [|done]. intros _. left. apply find_some in E as [Hin Ha]. apply String.eqb_eq in Ha. eauto.
  - split; [by right|]. intros [(arm & Hin & Ha)|H]; [|done]. exfalso.
    eapply find_In; [exact Hin| |exact E]. by apply String.eqb_eq.
Qed.

(** ** Deduplication *)

Lemma dedupe_spec seen l :
  List.NoDup (List.map diag_key (dedupe seen l)) /\
  (forall d, In d (dedupe seen l) -> In d l /\ ~ In (diag_key d) seen) /\
  (forall d, In d l -> In (diag_key d) seen \/ In (diag_key d) (List.map diag_key (dedupe seen l))).
Proof.
  revert seen. induction l as [|d l IH]; intros seen; cbn [dedupe]; [by repeat split; [constructor|..]|].
  destruct (bs_mem (diag_key d) seen) eqn:Em.
  - apply bs_mem_In in Em. destruct (IH seen) as (H1 & H2 & H3). split; [done|]. split.
    + intros e He. apply H2 in He as [? ?]. split; [by right|done].
    + intros e [<-|He]; [by left|by apply H3].
  - apply bs_mem_false in Em. destruct (IH (bs_insert (diag_key d) seen)) as (H1 & H2 & H3). cbn [List.map]. split; [|split].
    + constructor; [|done]. intros (e & He & Hin)%in_map_iff. apply H2 in Hin as [_ Hn]. apply Hn.
      rewrite He. apply bs_insert_In. by left.
    + intros e [<-|He]; [split; [by left|done]|]. apply H2 in He as [? Hn]. split; [by right|].
      intros Hs. apply Hn. apply bs_insert_In. by right.
    + intros e [<-|He]; [right; by left|]. destruct (H3 e He) as [[Hk|Hk]%bs_insert_In|Hk]; [|by left|right; by right].
      right. left. done.
Qed.

(** ** Redirects between views

    What the gates mean, apart from the pass: a user whose resource is in some
    state opens a view; a view gated on another state of that resource sends him
    by its resume, on the arm written for his state, or else on the first [*]
    arm, to the view that arm names. The resource and the resume a name stands
    for are those of the index ([gresource], [gresume]). *)

(** The arm [resume] has for a user in [state]. *)
Inductive takes (resume : GateResume) (state : string) : GateResumeArm -> Prop :=
| takes_own pre arm post : arms resume = (pre ++ arm :: post)%list -> a_state arm = state ->
    (forall a, In a pre -> a_state a <> state) -> takes resume state arm
| takes_wildcard pre arm post : (forall a, In a (arms resume) -> a_state a <> state) ->
    arms resume = (pre ++ arm :: post)%list -> a_state arm = "*" ->
    (forall a, In a pre -> a_state a <> "*") -> takes resume state arm.

(** A target, read in [feature], names a view: by its name in the same feature,
    or as [other.view.name]; the word [view] may come first. *)
Definition names_view (feature target : string) (v : GateView) : Prop :=
  let raw := strip_or "view " (trim target) in
  v_feature v = feature /\ raw = v_name v \/ raw = v_feature v +:+ ".view." +:+ v_name v.

(** [v] sends a user who is in [state] of [resource] to [v']. *)
Inductive sends (input : GateInput) (ix : GIndex) (resource state : string) : GateView -> GateView -> Prop :=
| sends_pending v v' req declared_in res ref resume arm :
    requires v = Some req -> rq_resource req = resource ->
    gresource ix (v_feature v) resource = Some (declared_in, res) -> In (rq_state req) (lifecycle_states res) ->
    rq_state req <> state ->
    (on_lifecycle_pending v = Some ref \/ on_lifecycle_pending v = None /\ app_on_lifecycle_pending input = Some ref) ->
    gresume ix (v_feature v) ref = Some resume -> takes resume state arm ->
    In v' (views input) -> names_view (v_feature v) (target_view arm) v' ->
    sends input ix resource state v v'.

(** The user is sent on as often as one likes, and never let through. *)
Definition forever (input : GateInput) (ix : GIndex) (resource state : string) (v : GateView) : Prop :=
  forall n, exists v', nsteps (sends input ix resource state) n v v'.

(** [v] has an arm written for [state], not a wildcard's. *)
Definition written_for (input : GateInput) (ix : GIndex) (v : GateView) (state : string) : Prop :=
  exists ref resume arm,
    (on_lifecycle_pending v = Some ref \/ on_lifecycle_pending v = None /\ app_on_lifecycle_pending input = Some ref) /\
    gresume ix (v_feature v) ref = Some resume /\ In arm (arms resume) /\ a_state arm = state /\
    state <> "*" /\ state <> "none".

(** Names the references of the language can tell apart: no dots, no view twice,
    no state twice in a resume. *)
Record clear_names (input : GateInput) : Prop := {
  cn_dots : Forall (fun v => lacks "." (v_feature v) /\ lacks "." (v_name v)) (views input);
  cn_views : List.NoDup (List.map (fun v => (v_feature v, v_name v)) (views input));
  cn_arms : Forall (fun r => List.NoDup (List.map a_state (arms r))) (resumes input)
}.

(** The application's redirect is not relied on: every view has its own, or the
    application has none. *)
Definition own_redirects (input : GateInput) : Prop :=
  app_on_lifecycle_pending input = None \/ Forall (fun v => on_lifecycle_pending v <> None) (views input).

Lemma find_split {A} (p : A -> bool) l x : List.find p l = Some x <->
  exists pre post, l = (pre ++ x :: post)%list /\ p x = true /\ forall a, In a pre -> p a = false.
Proof.
  split.
  - induction l as [|a l IH]; cbn; [done|]. destruct (p a) eqn:E.
    + intros [= ->]. exists [], l. repeat split; [done|by intros ? []].
    + intros (pre & post & -> & Hx & Hp)%IH. exists (a :: pre), post. repeat split; [done|]. intros y [<-|Hy]; auto.
  - intros (pre & post & -> & Hx & Hp). induction pre as [|a pre IH]; cbn; [by rewrite Hx|].
    rewrite Hp by by left. apply IH. intros y Hy. apply Hp. by right.
Qed.

Lemma takes_arm_for resume state arm : takes resume state arm <-> arm_for resume state = Some arm.
Proof.
  assert (Hnone : List.find (fun c => a_state c =? state) (arms resume) = None <->
    forall a, In a (arms resume) -> a_state a <> state).
  { split; [intros E a Ha; apply String.eqb_neq; by apply (find_none _ _ E)|]. intros H.
    destruct (List.find _ _) as [x|] eqn:E; [|done]. apply find_some in E as [Hin He].
    exfalso. apply (H x Hin). by apply String.eqb_eq. }
  unfold arm_for, wildcard. split.
  - intros [pre a post E Ha Hp|pre a post Hn E Ha Hp].
    + enough (List.find (fun c => a_state c =? state) (arms resume) = Some a) as -> by done.
      apply find_split. exists pre, post. split; [done|]. split; [by apply String.eqb_eq|].
      intros x Hx. by apply String.eqb_neq, Hp.
    + apply Hnone in Hn as ->. cbn. apply find_split. exists pre, post. split; [done|].
      split; [by apply String.eqb_eq|]. intros x Hx. by apply String.eqb_neq, Hp.
  - destruct (List.find _ (arms resume)) as [a|] eqn:E; cbn [gor].
    + intros [= <-]. apply find_split in E as (pre & post & E & Ha & Hp).
      apply (takes_own _ _ pre a post E); [by apply String.eqb_eq|]. intros x Hx. by apply String.eqb_neq, Hp.
    + intros (pre & post & E' & Ha & Hp)%find_split.
      apply (takes_wildcard _ _ pre arm post (proj1 Hnone eq_refl) E'); [by apply String.eqb_eq|].
      intros x Hx. by apply String.eqb_neq, Hp.
Qed.

Lemma names_view_parse feature target v : lacks "." (v_feature v) -> lacks "." (v_name v) ->
  names_view feature target v <-> parse_view_ref feature target = (v_feature v, v_name v).
Proof.
  intros Hf Hn. unfold names_view, parse_view_ref. set (raw := strip_or "view " (trim target)). clearbody raw. split.
  - intros [[<- ->]| ->]; [by rewrite split_char_none|].
    change (v_feature v +:+ ".view." +:+ v_name v) with (v_feature v +:+ String "." ("view" +:+ String "." (v_name v))).
    rewrite split_char_app, split_char_app, split_char_none by done. done.
  - intros E. pose proof (split_char_join "." raw) as Hj.
    assert (Hself : (feature, raw) = (v_feature v, v_name v) -> v_feature v = feature /\ raw = v_name v \/
      raw = v_feature v +:+ ".view." +:+ v_name v) by (intros [= -> ->]; by left).
    destruct (split_char "." raw) as [|a [|b [|c [|d r]]]]; try by apply Hself.
    + cbn in Hj. left. injection E as -> ->. done.
    + destruct (String.eqb_spec b "view") as [->|]; [|by apply Hself]. injection E as -> ->. right. by rewrite <- Hj.
Qed.

(** Where a view sends the user, as the walk has it: the arm taken, and the
    feature it is read in. *)
Definition exit_of (input : GateInput) (ix : GIndex) (resource state : string) (v : GateView)
    : option (string * GateResumeArm) :=
  req ← requires v;
  if negb (valid_requires ix (v_feature v) req) then None
  else if negb (rq_resource req =? resource) || (rq_state req =? state) then None
  else ref ← resume_ref_of input v; resume ← gresume ix (v_feature v) ref;
       arm ← arm_for resume state; Some (v_feature v, arm).

Lemma resume_ref_iff input v ref : resume_ref_of input v = Some ref <->
  on_lifecycle_pending v = Some ref \/ on_lifecycle_pending v = None /\ app_on_lifecycle_pending input = Some ref.
Proof. unfold resume_ref_of. destruct (on_lifecycle_pending v); cbn; naive_solver. Qed.

Lemma valid_requires_iff ix feature req : valid_requires ix feature req = true <->
  exists f res, gresource ix feature (rq_resource req) = Some (f, res) /\ In (rq_state req) (lifecycle_states res).
Proof.
  unfold valid_requires. destruct (gresource _ _ _) as [[f res]|]; [rewrite mem_In|]; naive_solver.
Qed.

Lemma sends_exit input ix resource state v v' : clear_names input ->
  sends input ix resource state v v' <->
  In v' (views input) /\ exists h, exit_of input ix resource state v = Some h /\
    parse_view_ref h.1 (target_view h.2) = (v_feature v', v_name v').
Proof.
  intros Hc. assert (Hdots : forall u, In u (views input) -> lacks "." (v_feature u) /\ lacks "." (v_name u)).
  { pose proof (cn_dots _ Hc) as Hd. rewrite List.Forall_forall in Hd. apply Hd. }
  unfold exit_of. split.
  - intros [w w' req f res ref resume arm Hreq Hr Hg Hst Hne Href Hres Ht Hin Hnm]. split; [done|].
    exists (v_feature w, arm). rewrite Hreq. cbn [mbind option_bind].
    assert (valid_requires ix (v_feature w) req = true) as ->.
    { apply valid_requires_iff. exists f, res. by rewrite Hr. }
    apply String.eqb_neq in Hne. rewrite Hr, String.eqb_refl, Hne. cbn [negb orb].
    apply resume_ref_iff in Href as ->. cbn [mbind option_bind]. rewrite Hres. cbn [mbind option_bind].
    apply takes_arm_for in Ht as ->. cbn. split; [done|]. apply names_view_parse; [by apply Hdots|by apply Hdots|done].
  - intros (Hin & h & Hx & Hp). apply bind_Some in Hx as (req & Hreq & Hx).
    destruct (valid_requires ix (v_feature v) req) eqn:Ev; [|done]. apply valid_requires_iff in Ev as (f & res & Hg & Hst).
    destruct (String.eqb_spec (rq_resource req) resource) as [Hr|]; [|done].
    destruct (String.eqb_spec (rq_state req) state) as [|Hne]; [done|].
    apply bind_Some in Hx as (ref & Href & Hx). apply bind_Some in Hx as (resume & Hres & Hx).
    apply bind_Some in Hx as (arm & Ha & [= <-]). apply resume_ref_iff in Href. apply takes_arm_for in Ha.
    rewrite Hr in Hg. apply names_view_parse in Hp; [|by apply Hdots|by apply Hdots]. by econstructor.
Qed.

(** The next position of the walk is the exit of the view reached. *)
Lemma hnext_exit input ix resource state h h' : clear_names input -> own_redirects input ->
  hnext ix (view_map input) resource state h = Some h' <->
  exists v, In v (views input) /\ parse_view_ref h.1 (target_view h.2) = (v_feature v, v_name v) /\
    exit_of input ix resource state v = Some h'.
Proof.
  intros Hc Ho. assert (Href : forall v, In v (views input) -> resume_ref_of input v = on_lifecycle_pending v).
  { intros v Hv. unfold resume_ref_of. destruct Ho as [-> | Ho]; [by destruct (on_lifecycle_pending v)|].
    rewrite List.Forall_forall in Ho. specialize (Ho v Hv). by destruct (on_lifecycle_pending v). }
  assert (Hx : forall v, In v (views input) -> exit_of input ix resource state v = Some h' <->
    (req ← requires v;
     if negb (valid_requires ix (v_feature v) req) then None
     else if negb (rq_resource req =? resource) || (rq_state req =? state) then None
     else ref ← on_lifecycle_pending v; resume ← gresume ix (v_feature v) ref;
          arm ← arm_for resume state; Some (v_feature v, arm)) = Some h').
  { intros v Hv. unfold exit_of. by rewrite Href. }
  unfold hnext, next_hop. destruct (parse_view_ref h.1 (target_view h.2)) as [f n]. split.
  - intros (v & Hv & H)%bind_Some. apply view_map_In in Hv as [Hin [= -> ->]]. exists v.
    split; [done|]. split; [done|]. by apply Hx.
  - intros (v & Hin & [= -> ->] & H). rewrite (view_map_unique input v (cn_views _ Hc) Hin).
    cbn [mbind option_bind]. by apply Hx.
Qed.

(** Being sent on forever is walking on forever. *)
Lemma forever_endless input ix resource state v h : clear_names input -> own_redirects input ->
  In v (views input) -> exit_of input ix resource state v = Some h ->
  forever input ix resource state v <-> endless ix (view_map input) resource state h.
Proof.
  intros Hc Ho Hv Hx. split.
  - intros Hf n. destruct (Hf (S n)) as (v' & Hs). clear Hf. revert v h Hv Hx Hs.
    induction n as [|n IH]; intros v h Hv Hx Hs; [done|].
    inversion Hs as [|? ? w ? Hvw Hw]; subst. inversion Hw as [|? ? w2 ? Hww Hw2]; subst.
    pose proof Hvw as Hvw'. apply sends_exit in Hvw' as (Hin & h1 & Hh1 & Hp); [|done].
    apply sends_exit in Hww as (_ & h2 & Hh2 & _); [|done]. rewrite Hx in Hh1. injection Hh1 as <-.
    assert (Hn : hnext ix (view_map input) resource state h = Some h2).
    { apply hnext_exit; [done..|]. by exists w. }
    cbn. rewrite Hn. by apply (IH w h2).
  - intros He n. specialize (He n). revert v h Hv Hx He. induction n as [|n IH]; intros v h Hv Hx He.
    { exists v. constructor. }
    cbn in He. destruct (hnext ix (view_map input) resource state h) as [h'|] eqn:En; [|done].
    apply hnext_exit in En as (w & Hin & Hp & Hw); [|done..].
    destruct (IH w h' Hin Hw He) as (v' & Hs). exists v'. apply nsteps_l with w; [|done].
    apply sends_exit; [done|]. split; [done|]. by exists h.
Qed.

Lemma resume_ref_own input v : own_redirects input -> In v (views input) -> resume_ref_of input v = on_lifecycle_pending v.
Proof.
  unfold resume_ref_of. intros [-> | Ho] Hv; [by destruct (on_lifecycle_pending v)|].
  rewrite List.Forall_forall in Ho. specialize (Ho v Hv). by destruct (on_lifecycle_pending v).
Qed.

Lemma view_resume_iff input ix view req resume : view_resume input ix view = Some (req, resume) <->
  exists ref, requires view = Some req /\ valid_requires ix (v_feature view) req = true /\
    resume_ref_of input view = Some ref /\ gresume ix (v_feature view) ref = Some resume.
Proof.
  unfold view_resume. split.
  - intros (req' & Hreq & H)%bind_Some. destruct (valid_requires _ _ req') eqn:Ev; [|done].
    apply bind_Some in H as (ref & Href & H). apply bind_Some in H as (resume' & Hres & [= -> ->]). by exists ref.
  - intros (ref & -> & Hv & Href & Hres). cbn. rewrite Hv, Href. cbn. by rewrite Hres.
Qed.

(** One walk of the pass answers whether the view sends the user on forever. *)
Lemma arm_walk_exact features input view req resume arm : let ix := gindex_new features input in
  clear_names input -> own_redirects input -> In view (views input) ->
  view_resume input ix view = Some (req, resume) -> In arm (arms resume) -> followed req arm = true ->
  (exists path, arm_walk input ix view req arm = Some (false, path)) <->
  ~ forever input ix (rq_resource req) (a_state arm) view.
Proof.
  intros ix Hc Ho Hv Hvr Harm Hf. apply view_resume_iff in Hvr as (ref & Hreq & Hval & Href & Hres).
  destruct (walk_cycle_total ix input (v_feature view) (rq_resource req) (a_state arm) arm
    (view_key (v_feature view) (v_name view))) as (found & path & Hw).
  assert (Hne : rq_state req <> a_state arm) by (unfold followed in Hf; bool_prop; congruence).
  assert (Ha : arm_for resume (a_state arm) = Some arm).
  { apply arm_for_unique; [|done]. pose proof (cn_arms _ Hc) as Har. rewrite List.Forall_forall in Har. apply Har.
    unfold gresume in Hres. apply bind_Some in Hres as ([rf rn] & _ & Hres).
    cbn in Hres. rewrite bt_collect_get in Hres. destruct (List.find _ _) as [[k r]|] eqn:E; [|done].
    injection Hres as ->. by apply find_some in E as [(r' & [= _ ->] & Hin)%in_rev%in_map_iff _]. }
  rewrite (forever_endless input ix _ _ view (v_feature view, arm)); [|done..|].
  2:{ unfold exit_of. rewrite Hreq. cbn [mbind option_bind]. rewrite Hval, String.eqb_refl.
      apply String.eqb_neq in Hne. rewrite Hne. cbn [negb orb]. rewrite Href. cbn [mbind option_bind].
      rewrite Hres. cbn [mbind option_bind]. by rewrite Ha. }
  unfold arm_walk. rewrite Hw. rewrite resume_ref_own in Href by done.
  rewrite <- (walk_cycle_endless ix input view req ref resume (a_state arm) arm found path); try done.
  - destruct found; naive_solver.
  - pose proof (cn_dots _ Hc) as Hd. unfold dot_free. revert Hd. apply List.Forall_impl. by intros v [? _].
  - apply view_map_unique; [by apply cn_views|done].
Qed.

(** * Properties *)

(** C14: The redirect-cycle pass always answers, and it is exact for the arms
    written for a state: it is silent if and only if no view whose resume has an
    arm written for a state sends a user who is in that state on forever. Being
    sent on is defined on views, apart from the pass: the view's gate is on
    another declared state of the user's resource, its resume (its own, or the
    application's) has an arm for the user's state - the one written for it, else
    the first wildcard - and the arm names the next view. Conditions: feature and
    view names hold no dot, no view and no state of a resume is written twice, and
    the application declares no redirect or every view has its own. Outside: a
    redirect that never ends but meets wildcard arms only is not reported
    ([wildcard_cycle_missed]), nor one that relies on the application's redirect
    after the first view ([app_redirect_missed]). *)
Theorem check_cycles_exact input features :
  let ix := gindex_new features input in
  clear_names input -> own_redirects input ->
  exists ds, check_cycles input ix = Some ds /\
    (ds = [] <-> forall view req state, In view (views input) -> requires view = Some req ->
       written_for input ix view state -> ~ forever input ix (rq_resource req) state view).
Proof.
  intros ix Hc Ho. unfold check_cycles.
  destruct (check_cycles_go_spec input ix (views input) ([], [])) as ([seen ds] & Hgo & _ & Hiff); [by intros []|].
  rewrite Hgo. exists ds. split; [done|]. cbn [snd] in Hiff. rewrite Hiff. split.
  - intros [_ H] view req state Hv Hreq (ref & resume & arm & Href & Hres & Ha & <- & Hs & Hn) Hfor.
    destruct (Hfor 1) as (v1 & H1). inversion H1 as [|? ? w ? Hs1 _]; subst.
    inversion Hs1 as [? ? req' f res ? ? ? Hreq' _ Hg Hst Hne]; subst. rewrite Hreq in Hreq'. injection Hreq' as <-.
    assert (Hvr : view_resume input ix view = Some (req, resume)).
    { apply view_resume_iff. exists ref. split; [done|]. split; [|by split; [apply resume_ref_iff|]].
      apply valid_requires_iff. eauto. }
    assert (Hf : followed req arm = true).
    { unfold followed. apply String.eqb_neq in Hs, Hn. assert ((a_state arm =? rq_state req) = false) as ->.
      { by apply String.eqb_neq. } by rewrite Hs, Hn. }
    by apply (arm_walk_exact features input view req resume arm Hc Ho Hv Hvr Ha Hf) in Hfor; [|by eapply H].
  - intros H. split; [done|]. intros view req resume arm Hv Hvr Ha Hf.
    apply (arm_walk_exact features input view req resume arm); [done..|].
    apply view_resume_iff in Hvr as (ref & Hreq & _ & Href & Hres). apply H; [done..|].
    exists ref, resume, arm. split; [by apply resume_ref_iff|]. unfold followed in Hf. bool_prop. by repeat split.
Qed.

(** A resume over a resource passes the coverage check (no error) if and only if
    every state of the lifecycle has an arm to follow; the three diagnostics tell
    apart uncovered states, arms for unknown states and an idle wildcard. *)
Theorem check_coverage_exact resume resource :
  lifecycle_states resource <> [] -> ~ In "*" (lifecycle_states resource) -> ~ In "none" (lifecycle_states resource) ->
  let codes := List.map g_code (check_coverage resume resource) in
  (~ In "LIFECYCLE-GATE-003" codes <-> forall s, In s (lifecycle_states resource) -> arm_for resume s <> None) /\
  (~ In "LIFECYCLE-GATE-004" codes <-> forall arm, In arm (arms resume) -> a_state arm <> "*" -> a_state arm <> "none" ->
     In (a_state arm) (lifecycle_states resource)) /\
  (In "LIFECYCLE-GATE-005" codes <-> wildcard resume <> None /\
     forall s, In s (lifecycle_states resource) -> exists arm, In arm (arms resume) /\ a_state arm = s).
Proof.
  intros Hne Hstar Hnone codes. unfold codes, check_coverage. clear codes.
  set (states := lifecycle_states resource) in *.
  set (missing := List.filter (fun state => negb (bs_mem state (explicit_states resume))) states).
  set (extra := List.filter (fun state => negb (mem state states)) (explicit_states resume)).
  assert (Hmiss : missing = [] <-> forall s, In s states -> exists arm, In arm (arms resume) /\ a_state arm = s).
  { unfold missing. rewrite filter_nil. split; intros H s Hs.
    - specialize (H s Hs). apply negb_false_iff, bs_mem_In, explicit_states_In in H. tauto.
    - apply negb_false_iff, bs_mem_In, explicit_states_In. split; [by intros ->|]. split; [by intros ->|]. by apply H. }
  assert (Hextra : extra = [] <-> forall arm, In arm (arms resume) -> a_state arm <> "*" -> a_state arm <> "none" ->
     In (a_state arm) states).
  { unfold extra. rewrite filter_nil. split.
    - intros H arm Ha H1 H2. apply mem_In. apply negb_false_iff, H, explicit_states_In. eauto.
    - intros H s (H1 & H2 & arm & Ha & <-)%explicit_states_In. by apply negb_false_iff, mem_In, H. }
  assert (Harm : (missing = [] \/ wildcard resume <> None) <-> forall s, In s states -> arm_for resume s <> None).
  { rewrite Hmiss. split.
    - intros H s Hs. apply arm_for_Some. destruct H as [H|H]; [left; by apply H|by right].
    - intros H. destruct (wildcard resume) eqn:Ew; [by right|]. left. intros s Hs.
      specialize (H s Hs). apply arm_for_Some in H as [H|H]; [done|by rewrite Ew in H]. }
  rewrite <- Hextra, <- Hmiss, <- Harm. clear Hmiss Hextra Harm.
  destruct states as [|s0 ss]; [done|]. clearbody missing extra.
  destruct missing, extra, (wildcard resume); cbn; intuition congruence.
Qed.

(** Codes other than those of an invalid [requires_lifecycle]. *)
Definition other_code (c : string) : Prop := c <> "LIFECYCLE-GATE-001" /\ c <> "LIFECYCLE-GATE-002".

Lemma other_codes l : Forall (fun d => other_code (g_code d)) l ->
  ~ In "LIFECYCLE-GATE-001" (List.map g_code l) /\ ~ In "LIFECYCLE-GATE-002" (List.map g_code l).
Proof.
  rewrite List.Forall_forall. intros H. split; intros (d & E & Hd)%in_map_iff; apply H in Hd as [? ?]; congruence.
Qed.

Lemma valid_lookup_source_codes ix resume : Forall (fun d => other_code (g_code d)) (valid_lookup_source ix resume).1.
Proof.
  unfold valid_lookup_source. repeat case_match; cbn; repeat constructor; discriminate.
Qed.

(** A gated view is free of 001 and 002 if and only if its [requires_lifecycle]
    names a state of a resource visible from its feature. *)
Theorem check_view_requires_exact input ix view req :
  requires view = Some req ->
  let codes := List.map g_code (check_view input ix view) in
  (valid_requires ix (v_feature view) req = true <->
   ~ In "LIFECYCLE-GATE-001" codes /\ ~ In "LIFECYCLE-GATE-002" codes).
Proof.
  intros Hreq codes. unfold codes, check_view, valid_requires. rewrite Hreq. clear codes.
  destruct (gresource ix (v_feature view) (rq_resource req)) as [[f res]|] eqn:Er.
  2:{ cbn. intuition congruence. }
  match goal with |- context [List.map g_code (?h ++ ?t)%list] => set (tail := t) end.
  assert (Ht : Forall (fun d => other_code (g_code d)) tail).
  { unfold tail. pose proof (valid_lookup_source_codes ix) as Hv. clear -Hv.
    repeat first [apply List.Forall_app; split | case_match | apply List.Forall_nil
      | apply List.Forall_cons; [split; discriminate|]];
    match goal with E : valid_lookup_source ix ?r = _ |- _ => specialize (Hv r); by rewrite E in Hv end. }
  rewrite !map_app, !in_app_iff.
  apply other_codes in Ht as [T1 T2].
  destruct (lifecycle_states res) as [|s ss] eqn:Es; [cbn; intuition congruence|].
  destruct (mem (rq_state req) (s :: ss)) eqn:Em; cbn [List.map In]; intuition (try done; try congruence).
Qed.

(** C39: The whole check always answers; its output has each diagnostic once (same
    code, span and message), loses none of the three passes' diagnostics and
    invents none. *)
Theorem gate_check_input_total input features :
  let ix := gindex_new features input in
  exists cycles out, check_cycles input ix = Some cycles /\ gate_check_input input features = Some out /\
    List.NoDup (List.map diag_key out) /\
    (forall d, In d out -> In d (check_views input ix ++ check_resumes ix ++ cycles)) /\
    (forall d, In d (check_views input ix ++ check_resumes ix ++ cycles) -> In (diag_key d) (List.map diag_key out)).
Proof.
  intros ix. unfold gate_check_input. fold ix. unfold check_cycles.
  destruct (check_cycles_go_spec input ix (views input) ([], [])) as ([seen ds] & Hgo & _ & _); [by intros []|].
  rewrite Hgo. cbn [mbind option_bind]. exists ds. eexists. split; [done|]. split; [done|].
  destruct (dedupe_spec [] (check_views input ix ++ check_resumes ix ++ ds)) as (H1 & H2 & H3).
  split; [done|]. split.
  - intros d Hd. by apply H2.
  - intros d Hd. by destruct (H3 d Hd) as [[]|].
Qed.

(** * Concrete inputs *)

Definition order_resource : Resource := {| rs_name := "Order"; rs_states := Some ["draft"; "paid"; "sent"]; rs_span := None |}.
Definition shop : Feature := {| ft_name := "shop"; ft_uses := []; ft_resources := [order_resource]; ft_queries := [] |}.
Definition gate (state : string) : RequiresLifecycle :=
  {| rq_resource := "Order"; rq_state := state; rq_substep := None; rq_span := None |}.
Definition shop_view (name state resume : string) : GateView := {| v_feature := "shop"; v_name := name; policy_present := true;
  requires := Some (gate state); on_lifecycle_pending := Some resume; v_span := None |}.
Definition to_view (state view : string) : GateResumeArm :=
  {| a_state := state; a_substep := None; target_view := view; a_span := None |}.
Definition shop_resume (name : string) (l : list GateResumeArm) : GateResume :=
  {| rm_feature := "shop"; rm_name := name; source := None; arms := l; rm_span := None |}.

(** A user in [draft] bounces between the two views. *)
Definition bounce : GateInput := {|
  views := [shop_view "track" "sent" "@resume.late"; shop_view "pay" "paid" "@resume.early"];
  resumes := [shop_resume "late" [to_view "draft" "view pay"; to_view "sent" "view track"];
              shop_resume "early" [to_view "draft" "view track"; to_view "paid" "view pay"]];
  app_on_lifecycle_pending := None; app_span := None |}.

Lemma check_cycles_exact_witness : let ix := gindex_new [shop] bounce in
  exists ds, check_cycles bounce ix = Some ds /\
    (ds = [] <-> forall view req state, In view (views bounce) -> requires view = Some req ->
       written_for bounce ix view state -> ~ forever bounce ix (rq_resource req) state view).
Proof.
  apply (check_cycles_exact bounce [shop]); [constructor|left; reflexivity].
  - apply List.Forall_cons; [split; reflexivity|]. apply List.Forall_cons; [split; reflexivity|]. apply List.Forall_nil.
  - constructor; [intros [H|[]]; discriminate H|]. constructor; [intros []|constructor].
  - apply List.Forall_cons; [|apply List.Forall_cons; [|apply List.Forall_nil]];
      (constructor; [intros [H|[]]; discriminate H|]; constructor; [intros []|constructor]).
Defined.

Example bounce_reported :
  option_map (List.map g_code) (check_cycles bounce (gindex_new [shop] bounce)) =
  Some ["LIFECYCLE-GATE-006"; "LIFECYCLE-GATE-006"].
Proof. vm_compute. reflexivity. Qed.

(** Arms taken by wildcard are not followed: a user in [draft] is sent from the
    view back to the same view forever, and the pass is silent. *)
Definition wildcard_loop : GateInput := {|
  views := [shop_view "track" "sent" "@resume.any"];
  resumes := [shop_resume "any" [to_view "*" "view track"]];
  app_on_lifecycle_pending := None; app_span := None |}.

Lemma wildcard_sends : sends wildcard_loop (gindex_new [shop] wildcard_loop) "Order" "draft"
  (shop_view "track" "sent" "@resume.any") (shop_view "track" "sent" "@resume.any").
Proof.
  eapply (sends_pending _ _ _ _ _ _ (gate "sent") "shop" order_resource "@resume.any"
    (shop_resume "any" [to_view "*" "view track"]) (to_view "*" "view track"));
    [reflexivity|reflexivity|vm_compute; reflexivity|right; right; left; reflexivity|discriminate|by left
    |vm_compute; reflexivity| |by left|left; split; reflexivity].
  apply (takes_wildcard _ _ [] _ []); [intros a [<-|[]]; discriminate|done..].
Qed.

Theorem wildcard_cycle_missed : let ix := gindex_new [shop] wildcard_loop in
  check_cycles wildcard_loop ix = Some [] /\
  forever wildcard_loop ix "Order" "draft" (shop_view "track" "sent" "@resume.any").
Proof.
  intros ix. split; [vm_compute; reflexivity|]. intros n. exists (shop_view "track" "sent" "@resume.any").
  induction n as [|n IH]; [constructor|]. apply nsteps_l with (shop_view "track" "sent" "@resume.any"); [|done].
  apply wildcard_sends.
Qed.

(** A view without a redirect of its own relies on the application's, which is
    read in the view's feature; the walk follows it at its first view only. Two
    such views of two features send a user in [draft] to each other, and the pass
    is silent. *)
Definition depot : Feature := {| ft_name := "depot"; ft_uses := ["shop"]; ft_resources := []; ft_queries := [] |}.
Definition app_view (feature name state : string) : GateView := {| v_feature := feature; v_name := name;
  policy_present := true; requires := Some (gate state); on_lifecycle_pending := None; v_span := None |}.
Definition app_resume (feature : string) (l : list GateResumeArm) : GateResume :=
  {| rm_feature := feature; rm_name := "any"; source := None; arms := l; rm_span := None |}.
Definition app_loop : GateInput := {|
  views := [app_view "shop" "track" "sent"; app_view "depot" "pack" "paid"];
  resumes := [app_resume "shop" [to_view "draft" "depot.view.pack"]; app_resume "depot" [to_view "draft" "shop.view.track"]];
  app_on_lifecycle_pending := Some "@resume.any"; app_span := None |}.

Lemma app_sends feature name state arm to :
  gresource (gindex_new [shop; depot] app_loop) feature "Order" = Some ("shop", order_resource) ->
  In state ["draft"; "paid"; "sent"] -> state <> "draft" ->
  gresume (gindex_new [shop; depot] app_loop) feature "@resume.any" = Some (app_resume feature [arm]) ->
  a_state arm = "draft" -> In to (views app_loop) ->
  names_view feature (target_view arm) to ->
  sends app_loop (gindex_new [shop; depot] app_loop) "Order" "draft" (app_view feature name state) to.
Proof.
  intros Hg Hst Hne Hres Ha Hin Hnm.
  eapply (sends_pending _ _ _ _ _ _ (gate state) "shop" order_resource "@resume.any" (app_resume feature [arm]) arm);
    [done|done|done|done|done|by right|done| |done|done].
  apply (takes_own _ _ [] _ []); [done..|by intros ? []].
Qed.

Theorem app_redirect_missed : let ix := gindex_new [shop; depot] app_loop in
  check_cycles app_loop ix = Some [] /\ forever app_loop ix "Order" "draft" (app_view "shop" "track" "sent").
Proof.
  intros ix. split; [vm_compute; reflexivity|].
  assert (H1 : sends app_loop ix "Order" "draft" (app_view "shop" "track" "sent") (app_view "depot" "pack" "paid")).
  { apply (app_sends _ _ _ (to_view "draft" "depot.view.pack"));
      [vm_compute; reflexivity|cbn; tauto|done|vm_compute; reflexivity|done|right; by left|by right]. }
  assert (H2 : sends app_loop ix "Order" "draft" (app_view "depot" "pack" "paid") (app_view "shop" "track" "sent")).
  { apply (app_sends _ _ _ (to_view "draft" "shop.view.track"));
      [vm_compute; reflexivity|cbn; tauto|done|vm_compute; reflexivity|done|by left|by right]. }
  assert (H : forall n, (exists v, nsteps (sends app_loop ix "Order" "draft") n (app_view "shop" "track" "sent") v) /\
    exists v, nsteps (sends app_loop ix "Order" "draft") n (app_view "depot" "pack" "paid") v).
  { induction n as [|n [(v & IH1) (w & IH2)]]; [split; eexists; constructor|].
    split; [exists w|exists v]; eapply nsteps_l; eauto. }
  intros n. apply H.
Qed.

Lemma check_coverage_exact_witness :
  let codes := List.map g_code (check_coverage (shop_resume "r" [to_view "draft" "a"; to_view "*" "b"]) order_resource) in
  (~ In "LIFECYCLE-GATE-003" codes <-> forall s, In s ["draft"; "paid"; "sent"] ->
     arm_for (shop_resume "r" [to_view "draft" "a"; to_view "*" "b"]) s <> None).
Proof.
  apply (check_coverage_exact (shop_resume "r" [to_view "draft" "a"; to_view "*" "b"]) order_resource);
    [discriminate|intros [H|[H|[H|[]]]]; discriminate H|intros [H|[H|[H|[]]]]; discriminate H].
Defined.

Lemma check_view_requires_exact_witness :
  let codes := List.map g_code (check_view bounce (gindex_new [shop] bounce) (shop_view "x" "lost" "@resume.late")) in
  (valid_requires (gindex_new [shop] bounce) "shop" (gate "lost") = true <->
   ~ In "LIFECYCLE-GATE-001" codes /\ ~ In "LIFECYCLE-GATE-002" codes).
Proof.
  apply (check_view_requires_exact bounce (gindex_new [shop] bounce) (shop_view "x" "lost" "@resume.late") (gate "lost")).
  reflexivity.
Defined.
