(* ===== verification/LifecycleSyntax.v ===== *)
(** The [lifecycle] block of a resource
    ([lazuli_syntax/src/parser/lzi/lifecycle.rs], the invariant catalog of
    [lzi/helpers.rs] and the AST of [lzi/types.rs]).

    A parser position, an index into the slice of source lines in the code, is
    here the list of the lines from that index on. *)
From S2P Require Import Prelude Str Fmt Lex.

(** * AST *)

Inductive LifecycleInvariantForm :=
| TerminalImmutable
| SingleStatePerScope (state scope_field : string)
| NoJumpMoreThanOne.

Record LifecycleInvariantAst := { inv_form : LifecycleInvariantForm; inv_span : Span }.
Record LifecycleStateAst := { st_name : string; kind_keyword : option string; st_span : Span }.
Record LifecycleTransitionAst := {
  tr_name : string; tr_from : list string; tr_to : string;
  tr_policy : option string; tr_audit : option string; tr_timestamps : option string;
  tr_emits : list string; tr_requires : option string; tr_tests : list string;
  tr_previously : list string; tr_span : Span
}.
Record LifecycleBlockAst := {
  discriminator_field : string; states : list LifecycleStateAst;
  transitions : list LifecycleTransitionAst; invariants : list LifecycleInvariantAst;
  invariant_handlers : list string; lc_span : Span
}.

(** * Clauses *)

Definition parse_invariant_form (line : SourceLine) (raw : string) : result ParseError LifecycleInvariantForm :=
  let raw := trim raw in
  if raw =? "terminal_immutable" then Ok TerminalImmutable
  else if raw =? "no_jump_more_than_one" then Ok NoJumpMoreThanOne
  else
    let unknown := line_error_owned line ("unknown invariant form `" +:+ raw +:+
      "` - closed catalog is `terminal_immutable`, `single <state> per <scope_field>`, `no_jump_more_than_one` (see docs/proposals/lifecycle-vocab.md §3.4)") in
    match split_whitespace raw with
    | [k0; state; k2; scope_field] =>
      if (k0 =? "single") && (k2 =? "per") then
        if negb (nonempty state) || negb (nonempty scope_field) then
          Err (line_error line "`invariant single <state> per <scope_field>` requires both names")
        else Ok (SingleStatePerScope state scope_field)
      else Err unknown
    | _ => Err unknown
    end.

Definition parse_lifecycle_state (line : SourceLine) (rest : string)
    : result ParseError ((string * option string) * Span) :=
  match split_whitespace rest with
  | [] => Err (line_error line "`state` requires a name")
  | name :: parts =>
    '(kind_keyword, parts) ←
      match parts with
      | [] => Ok (None, [])
      | k :: parts =>
        if (k =? "initial") || (k =? "terminal") then Ok (Some k, parts)
        else Err (line_error_owned line
          ("`state` modifier must be `initial` or `terminal`, got `" +:+ k +:+ "`"))
      end;
    match parts with
    | _ :: _ => Err (line_error line "`state` accepts at most one modifier (initial | terminal)")
    | [] => Ok ((name, kind_keyword), span_new (start line) (end_ line))
    end
  end.

Definition ensure_lifecycle_once (line : SourceLine) (keyword : string) (already_seen : bool)
    : result ParseError unit :=
  if already_seen then Err (line_error_owned line ("transition declares `" +:+ keyword +:+ "` at most once"))
  else Ok tt.

Definition parse_lifecycle_single_identifier (line : SourceLine) (keyword rest : string)
    : result ParseError string :=
  match split_whitespace rest with
  | [value] => Ok value
  | _ => Err (line_error_owned line (keyword +:+ " requires exactly one identifier"))
  end.

(** * Transitions *)

(** The loop's variables. *)
Record TransitionAcc := {
  x_from : list string; x_to : option string; x_policy : option string; x_audit : option string;
  x_timestamps : option string; x_emits : list string; x_requires : option string;
  x_tests : list string; tests_seen : bool; x_previously : list string; x_last_end : nat
}.

Definition acc_new (last_end : nat) : TransitionAcc := {|
  x_from := []; x_to := None; x_policy := None; x_audit := None; x_timestamps := None; x_emits := [];
  x_requires := None; x_tests := []; tests_seen := false; x_previously := []; x_last_end := last_end |}.

Definition is_some {A} (o : option A) : bool := match o with Some _ => true | None => false end.

(** The clauses that take one line; [None] when the line is none of them. *)
Definition transition_clause (line : SourceLine) (trimmed : string) (a : TransitionAcc)
    : option (result ParseError TransitionAcc) :=
  let e := end_ line in
  match strip_prefix "from " trimmed with
  | Some rest => Some
    (match split_lzx_list rest with
     | [] => Err (line_error line "`from` requires at least one state")
     | l => Ok {| x_from := x_from a ++ l; x_to := x_to a; x_policy := x_policy a; x_audit := x_audit a;
                  x_timestamps := x_timestamps a; x_emits := x_emits a; x_requires := x_requires a;
                  x_tests := x_tests a; tests_seen := tests_seen a; x_previously := x_previously a; x_last_end := e |}
     end)
  | None =>
  match strip_prefix "to " trimmed with
  | Some rest => Some
    (_ ← ensure_lifecycle_once line "to" (is_some (x_to a));
     target ← parse_lifecycle_single_identifier line "`to`" rest;
     Ok {| x_from := x_from a; x_to := Some target; x_policy := x_policy a; x_audit := x_audit a;
           x_timestamps := x_timestamps a; x_emits := x_emits a; x_requires := x_requires a;
           x_tests := x_tests a; tests_seen := tests_seen a; x_previously := x_previously a; x_last_end := e |})
  | None =>
  match strip_prefix "policy " trimmed with
  | Some rest => Some
    (_ ← ensure_lifecycle_once line "policy" (is_some (x_policy a));
     Ok {| x_from := x_from a; x_to := x_to a; x_policy := Some (trim rest); x_audit := x_audit a;
           x_timestamps := x_timestamps a; x_emits := x_emits a; x_requires := x_requires a;
           x_tests := x_tests a; tests_seen := tests_seen a; x_previously := x_previously a; x_last_end := e |})
  | None =>
  match strip_prefix "audit " trimmed with
  | Some rest => Some
    (_ ← ensure_lifecycle_once line "audit" (is_some (x_audit a));
     Ok {| x_from := x_from a; x_to := x_to a; x_policy := x_policy a; x_audit := Some ("audit " +:+ trim rest);
           x_timestamps := x_timestamps a; x_emits := x_emits a; x_requires := x_requires a;
           x_tests := x_tests a; tests_seen := tests_seen a; x_previously := x_previously a; x_last_end := e |})
  | None =>
  match strip_prefix "timestamps " trimmed with
  | Some rest => Some
    (_ ← ensure_lifecycle_once line "timestamps" (is_some (x_timestamps a));
     field ← parse_lifecycle_single_identifier line "`timestamps`" rest;
     Ok {| x_from := x_from a; x_to := x_to a; x_policy := x_policy a; x_audit := x_audit a;
           x_timestamps := Some field; x_emits := x_emits a; x_requires := x_requires a;
           x_tests := x_tests a; tests_seen := tests_seen a; x_previously := x_previously a; x_last_end := e |})
  | None =>
  match strip_prefix "emits " trimmed with
  | Some rest => Some
    (match List.filter nonempty (List.map trim (split_char "," rest)) with
     | [] => Err (line_error line "`emits` requires an event name")
     | l => Ok {| x_from := x_from a; x_to := x_to a; x_policy := x_policy a; x_audit := x_audit a;
                  x_timestamps := x_timestamps a; x_emits := x_emits a ++ l; x_requires := x_requires a;
                  x_tests := x_tests a; tests_seen := tests_seen a; x_previously := x_previously a; x_last_end := e |}
     end)
  | None =>
  match strip_prefix "requires " trimmed with
  | Some rest => Some
    (_ ← ensure_lifecycle_once line "requires" (is_some (x_requires a));
     Ok {| x_from := x_from a; x_to := x_to a; x_policy := x_policy a; x_audit := x_audit a;
           x_timestamps := x_timestamps a; x_emits := x_emits a; x_requires := Some (trim rest);
           x_tests := x_tests a; tests_seen := tests_seen a; x_previously := x_previously a; x_last_end := e |})
  | None =>
  match strip_prefix "previously " trimmed with
  | Some rest => Some
    (Ok {| x_from := x_from a; x_to := x_to a; x_policy := x_policy a; x_audit := x_audit a;
           x_timestamps := x_timestamps a; x_emits := x_emits a; x_requires := x_requires a;
           x_tests := x_tests a; tests_seen := tests_seen a; x_previously := x_previously a ++ [trim rest];
           x_last_end := e |})
  | None => None
  end end end end end end end end%list.

(** The [tests] header: the clause's guard, and its own [last_end]. *)
Definition open_tests (line : SourceLine) (a : TransitionAcc) : result ParseError TransitionAcc :=
  _ ← ensure_lifecycle_once line "tests" (tests_seen a);
  Ok {| x_from := x_from a; x_to := x_to a; x_policy := x_policy a; x_audit := x_audit a;
        x_timestamps := x_timestamps a; x_emits := x_emits a; x_requires := x_requires a;
        x_tests := x_tests a; tests_seen := true; x_previously := x_previously a; x_last_end := end_ line |}.

Definition push_test (line : SourceLine) (trimmed : string) (a : TransitionAcc) : TransitionAcc :=
  {| x_from := x_from a; x_to := x_to a; x_policy := x_policy a; x_audit := x_audit a;
     x_timestamps := x_timestamps a; x_emits := x_emits a; x_requires := x_requires a;
     x_tests := x_tests a ++ [trimmed]; tests_seen := tests_seen a; x_previously := x_previously a;
     x_last_end := end_ line |}%list.

Definition trimmed (line : SourceLine) : string := trim_start (text line).

(** The transition's two loops: [in_tests] while the inner one runs.  Both skip
    trivia; the inner one leaves the line that ends it to the outer one. *)
Fixpoint transition_lines (block_indent child_indent : nat) (in_tests : bool) (a : TransitionAcc) (lines : list SourceLine)
    : result ParseError (TransitionAcc * list SourceLine) :=
  match lines with
  | [] => Ok (a, [])
  | line :: rest =>
    if is_trivia (trimmed line) then transition_lines block_indent child_indent in_tests a rest
    else if in_tests && negb (indent line <=? child_indent)%nat then
      if negb (indent line =? child_indent + 2)%nat then
        Err (line_error line "`tests` children use one indentation level deeper than the `tests` header")
      else transition_lines block_indent child_indent true (push_test line (trimmed line) a) rest
    else if (indent line <=? block_indent)%nat then Ok (a, lines)
    else if negb (indent line =? child_indent)%nat then
      Err (line_error line "transition children use one indentation level deeper than the `transition` header")
    else if trimmed line =? "tests" then
      a ← open_tests line a; transition_lines block_indent child_indent true a rest
    else
      match transition_clause line (trimmed line) a with
      | Some r => a ← r; transition_lines block_indent child_indent false a rest
      | None => Err (line_error line
          "transition children are `from`, `to`, `policy`, `audit`, `timestamps`, `emits`, `requires`, `tests`, or `previously`")
      end
  end.

(** [parse_lifecycle_transition] at [header], the lines after it in [lines]. *)
Definition parse_lifecycle_transition (header : SourceLine) (lines : list SourceLine) (name : string) (child_indent : nat)
    : result ParseError (LifecycleTransitionAst * list SourceLine) :=
  '(a, next) ← transition_lines (indent header) child_indent false (acc_new (end_ header)) lines;
  match x_from a with
  | [] => Err (line_error header "`transition` requires at least one `from`")
  | _ =>
    to ← ok_or (x_to a) (line_error header "`transition` requires `to <state>`");
    Ok ({| tr_name := name; tr_from := x_from a; tr_to := to; tr_policy := x_policy a; tr_audit := x_audit a;
           tr_timestamps := x_timestamps a; tr_emits := x_emits a; tr_requires := x_requires a;
           tr_tests := x_tests a; tr_previously := x_previously a;
           tr_span := span_new (start header) (x_last_end a) |}, next)
  end.

(** * Blocks *)

Record BlockAcc := {
  b_states : list LifecycleStateAst; b_transitions : list LifecycleTransitionAst;
  b_invariants : list LifecycleInvariantAst; b_handlers : list string; b_last_end : nat
}.

(** The end of the last of the first [S k] lines. *)
Definition end_at (k : nat) (lines : list SourceLine) : nat :=
  match nth_error lines k with Some l => end_ l | None => 0 end.

(** The block's loop; [skip] lines at the head belong to the last transition. *)
Fixpoint block_lines (block_indent skip : nat) (a : BlockAcc) (lines : list SourceLine)
    : result ParseError (BlockAcc * list SourceLine) :=
  match lines with
  | [] => Ok (a, [])
  | line :: rest =>
    match skip with
    | S skip => block_lines block_indent skip a rest
    | O =>
      let child_indent := block_indent + 2 in
      if is_trivia (trimmed line) then block_lines block_indent 0 a rest
      else if (indent line <=? block_indent)%nat then Ok (a, lines)
      else if negb (indent line =? child_indent)%nat then
        Err (line_error line "lifecycle children use one indentation level deeper than the `lifecycle` header")
      else
        match strip_prefix "state " (trimmed line) with
        | Some r =>
          '((name, kind), span) ← parse_lifecycle_state line r;
          block_lines block_indent 0
            {| b_states := b_states a ++ [{| st_name := name; kind_keyword := kind; st_span := span |}];
               b_transitions := b_transitions a; b_invariants := b_invariants a; b_handlers := b_handlers a;
               b_last_end := end_ line |} rest
        | None =>
        match strip_prefix "transition " (trimmed line) with
        | Some r =>
          let transition_name := trim r in
          if negb (nonempty transition_name) then Err (line_error line "`transition` requires a name")
          else
            '(transition, next) ← parse_lifecycle_transition line rest transition_name (block_indent + 4);
            let consumed := (List.length rest - List.length next)%nat in
            block_lines block_indent consumed
              {| b_states := b_states a; b_transitions := b_transitions a ++ [transition];
                 b_invariants := b_invariants a; b_handlers := b_handlers a;
                 b_last_end := end_at consumed lines |} rest
        | None =>
        match strip_prefix "invariant_handler " (trimmed line) with
        | Some r =>
          block_lines block_indent 0
            {| b_states := b_states a; b_transitions := b_transitions a; b_invariants := b_invariants a;
               b_handlers := b_handlers a ++ [trim r]; b_last_end := end_ line |} rest
        | None =>
        match strip_prefix "invariant " (trimmed line) with
        | Some r =>
          form ← parse_invariant_form line (trim r);
          block_lines block_indent 0
            {| b_states := b_states a; b_transitions := b_transitions a;
               b_invariants := b_invariants a ++ [{| inv_form := form; inv_span := span_new (start line) (end_ line) |}];
               b_handlers := b_handlers a; b_last_end := end_ line |} rest
        | None => Err (line_error line "lifecycle children are `state`, `transition`, `invariant`, `invariant_handler`")
        end end end end
    end
  end%list.

(** [parse_lifecycle_block] at [header], the lines after it in [lines]. *)
Definition parse_lifecycle_block (header : SourceLine) (lines : list SourceLine)
    : result ParseError (LifecycleBlockAst * list SourceLine) :=
  let discriminator := trim (match strip_prefix "lifecycle " (trimmed header) with Some r => r | None => "" end) in
  '(a, next) ← block_lines (indent header) 0
    {| b_states := []; b_transitions := []; b_invariants := []; b_handlers := []; b_last_end := end_ header |} lines;
  if (List.length (b_states a) <? 2)%nat then
    Err (line_error header "lifecycle requires at least 2 `state` declarations")
  else
    match b_transitions a with
    | [] => Err (line_error header "lifecycle requires at least 1 `transition`")
    | _ =>
      Ok ({| discriminator_field := discriminator; states := b_states a; transitions := b_transitions a;
             invariants := b_invariants a; invariant_handlers := b_handlers a;
             lc_span := span_new (start header) (b_last_end a) |}, next)
    end.

(** * Lemmas *)

(** ** Positions *)

Lemma transition_lines_suffix b c m a ls a' r :
  transition_lines b c m a ls = Ok (a', r) -> exists p, ls = (p ++ r)%list.
Proof.
  revert m a. induction ls as [|l ls IH]; intros m a H; cbn [transition_lines] in H; [injection H as <- <-; by exists []|].
  assert (Hrec : forall m a, transition_lines b c m a ls = Ok (a', r) -> exists p, l :: ls = (p ++ r)%list).
  { intros m' a0 E. apply IH in E as [p ->]. by exists (l :: p). }
  repeat case_in H; try done; eauto; try (injection H as <- <-; by exists []);
    apply bind_Ok in H as (? & _ & H); eauto.
Qed.

Lemma block_lines_skip b p a r : block_lines b (List.length p) a (p ++ r) = block_lines b 0 a r.
Proof. induction p as [|l p IH]; [done|]. cbn [List.length app]. rewrite <- IH. done. Qed.

(** What the block loop does with a transition: parse it and go on after it. *)
Lemma block_lines_transition b a l ls name :
  is_trivia (trimmed l) = false -> indent l = b + 2 -> strip_prefix "state " (trimmed l) = None ->
  strip_prefix "transition " (trimmed l) = Some name -> trim name <> "" ->
  block_lines b 0 a (l :: ls) =
  ('(t, next) ← parse_lifecycle_transition l ls (trim name) (b + 4);
   block_lines b 0 {| b_states := b_states a; b_transitions := b_transitions a ++ [t]; b_invariants := b_invariants a;
     b_handlers := b_handlers a; b_last_end := end_at (List.length ls - List.length next) (l :: ls) |} next)%list.
Proof.
  intros Ht Hi Hs Hp Hn. cbn [block_lines]. rewrite Ht, Hi, Nat.eqb_refl, Hs, Hp.
  replace (b + 2 <=? b)%nat with false by (symmetry; apply Nat.leb_gt; lia). cbn [negb].
  unfold nonempty. apply String.eqb_neq in Hn. rewrite Hn. cbn [negb].
  destruct (parse_lifecycle_transition l ls (trim name) (b + 4)) as [[t next]|e] eqn:E; [|done].
  cbn [mbind result_bind]. unfold parse_lifecycle_transition in E.
  apply bind_Ok in E as ([x next'] & E & H). apply transition_lines_suffix in E as [p ->].
  assert (next' = next) as ->.
  { destruct (x_from x); [done|]. apply bind_Ok in H as (? & _ & [= _ <-]). done. }
  rewrite length_app. replace (List.length p + List.length next - List.length next) with (List.length p) by lia.
  apply block_lines_skip.
Qed.

(** ** Comments and blank lines *)

Definition nontrivia (l : SourceLine) : bool := negb (is_trivia (trimmed l)).
Definition nt (ls : list SourceLine) : list SourceLine := List.filter nontrivia ls.

Definition res_map {E A B} (f : A -> B) (r : result E A) : result E B :=
  match r with Ok v => Ok (f v) | Err e => Err e end.

Lemma res_map_bind {E A B C} (f : B -> C) (r : result E A) (k : A -> result E B) :
  res_map f (r ≫= k) = r ≫= (fun x => res_map f (k x)).
Proof. by destruct r. Qed.

Lemma nt_nontrivia l ls : is_trivia (trimmed l) = false -> nt (l :: ls) = l :: nt ls.
Proof. intros H. unfold nt. cbn. unfold nontrivia at 1. by rewrite H. Qed.

Lemma nt_trivia l ls : is_trivia (trimmed l) = true -> nt (l :: ls) = nt ls.
Proof. intros H. unfold nt. cbn. unfold nontrivia at 1. by rewrite H. Qed.

Lemma transition_lines_nt b c m a ls :
  transition_lines b c m a (nt ls) = res_map (fun x => (x.1, nt x.2)) (transition_lines b c m a ls).
Proof.
  revert m a. induction ls as [|l ls IH]; intros m a; [done|].
  destruct (is_trivia (trimmed l)) eqn:Et.
  - rewrite nt_trivia by done. cbn [transition_lines]. rewrite Et. apply IH.
  - rewrite nt_nontrivia by done. cbn [transition_lines]. rewrite Et.
    destruct (m && negb _); [destruct (negb _); [done|apply IH]|].
    destruct (indent l <=? b)%nat; [cbn [res_map fst snd]; by rewrite nt_nontrivia|]. destruct (negb _); [done|].
    destruct (trimmed l =? "tests").
    + rewrite res_map_bind. by destruct (open_tests l a); cbn [mbind result_bind].
    + destruct (transition_clause l (trimmed l) a) as [x|]; [|done]. rewrite res_map_bind.
      by destruct x; cbn [mbind result_bind].
Qed.

Lemma parse_lifecycle_transition_nt h ls name c :
  parse_lifecycle_transition h (nt ls) name c = res_map (fun x => (x.1, nt x.2)) (parse_lifecycle_transition h ls name c).
Proof.
  unfold parse_lifecycle_transition. rewrite transition_lines_nt.
  destruct (transition_lines _ _ _ _ ls) as [[x r]|]; [|done]. cbn. destruct (x_from x); [done|].
  rewrite res_map_bind. by destruct (ok_or _ _).
Qed.

(** Equal but for the position the block ends at. *)
Definition same_block (a a' : BlockAcc) : Prop :=
  b_states a = b_states a' /\ b_transitions a = b_transitions a' /\ b_invariants a = b_invariants a' /\
  b_handlers a = b_handlers a'.

Definition agree {A B} (R : A -> B -> Prop) (x : result ParseError A) (y : result ParseError B) : Prop :=
  match x, y with Ok v, Ok w => R v w | Err e, Err e' => e = e' | _, _ => False end.

Lemma agree_bind {A B C} (R : B -> C -> Prop) (r : result ParseError A) k k' :
  (forall x, r = Ok x -> agree R (k x) (k' x)) -> agree R (r ≫= k) (r ≫= k').
Proof. destruct r; cbn; auto. Qed.

Lemma block_lines_nt b a a' ls : same_block a a' ->
  agree (fun x y => same_block x.1 y.1 /\ y.2 = nt x.2) (block_lines b 0 a ls) (block_lines b 0 a' (nt ls)).
Proof.
  remember (List.length ls) as n eqn:En. assert (Hn : List.length ls <= n) by lia. clear En.
  revert a a' ls Hn. induction n as [|n IH]; intros a a' ls Hn Ha.
  { destruct ls; [|cbn in Hn; lia]. cbn. by split. }
  destruct ls as [|l ls]; [cbn; by split|]. cbn [List.length] in Hn.
  destruct (is_trivia (trimmed l)) eqn:Et.
  { rewrite nt_trivia by done. cbn [block_lines]. rewrite Et. apply IH; [lia|done]. }
  destruct (strip_prefix "state " (trimmed l)) as [r|] eqn:Es, (strip_prefix "transition " (trimmed l)) as [tn|] eqn:Ep.
  3:{ destruct (Nat.eqb_spec (indent l) (b + 2)) as [Ei|Ei], (String.eqb_spec (trim tn) "") as [En|En].
      2:{ rewrite nt_nontrivia by done. rewrite !(block_lines_transition b _ l _ tn) by done.
          rewrite parse_lifecycle_transition_nt.
          destruct (parse_lifecycle_transition l ls (trim tn) (b + 4)) as [[t next]|] eqn:E; cbn [res_map mbind result_bind fst snd]; [|done].
          apply IH.
          - unfold parse_lifecycle_transition in E. apply bind_Ok in E as ([x next'] & E & H).
            apply transition_lines_suffix in E as [p ->]. destruct (x_from x); [done|].
            apply bind_Ok in H as (? & _ & [= _ <-]). rewrite length_app in Hn. lia.
          - destruct Ha as (H1 & H2 & H3 & H4). repeat split; cbn; congruence. }
      all: rewrite nt_nontrivia by done; cbn [block_lines]; rewrite Et; destruct (indent l <=? b)%nat;
        [cbn [agree fst snd]; by rewrite nt_nontrivia|]; unfold nonempty; rewrite Es, Ep.
      - rewrite Ei, Nat.eqb_refl, En. done.
      - apply Nat.eqb_neq in Ei. by rewrite Ei.
      - apply Nat.eqb_neq in Ei. by rewrite Ei. }
  all: rewrite nt_nontrivia by done; cbn [block_lines]; rewrite Et;
    destruct (indent l <=? b)%nat; [cbn [agree fst snd]; by rewrite nt_nontrivia|]; destruct (negb _); [done|]; rewrite ?Es, ?Ep.
  1,2: apply agree_bind; intros [[name kind] span] _; apply IH; [lia|];
    destruct Ha as (H1 & H2 & H3 & H4); repeat split; cbn; congruence.
  destruct (strip_prefix "invariant_handler " (trimmed l)).
  - apply IH; [lia|]. destruct Ha as (H1 & H2 & H3 & H4). repeat split; cbn; congruence.
  - destruct (strip_prefix "invariant " (trimmed l)); [|done]. apply agree_bind. intros form _. apply IH; [lia|].
    destruct Ha as (H1 & H2 & H3 & H4). repeat split; cbn; congruence.
Qed.

(** ** Printing *)

(** A line is printed as its indentation and its text after it. *)
Definition renders (l : SourceLine) (p : nat * string) : Prop := indent l = p.1 /\ trimmed l = p.2.

Definition opt_line (n : nat) (kw : string) (o : option string) : list (nat * string) :=
  match o with Some v => [(n, kw +:+ v)] | None => [] end.
Definition list_line (n : nat) (kw : string) (l : list string) : list (nat * string) :=
  match l with [] => [] | _ => [(n, kw +:+ join ", " l)] end.

Definition print_transition_body (c : nat) (t : LifecycleTransitionAst) : list (nat * string) :=
  ([(c, "from " +:+ join ", " (tr_from t)); (c, "to " +:+ tr_to t)] ++ opt_line c "policy " (tr_policy t) ++
   opt_line c "" (tr_audit t) ++ opt_line c "timestamps " (tr_timestamps t) ++ list_line c "emits " (tr_emits t) ++
   opt_line c "requires " (tr_requires t) ++ List.map (fun p => (c, "previously " +:+ p)) (tr_previously t) ++
   match tr_tests t with [] => [] | l => (c, "tests") :: List.map (fun s => ((c + 2)%nat, s)) l end)%list.

Definition print_form (f : LifecycleInvariantForm) : string :=
  match f with
  | TerminalImmutable => "terminal_immutable"
  | NoJumpMoreThanOne => "no_jump_more_than_one"
  | SingleStatePerScope s f => "single " +:+ s +:+ " per " +:+ f
  end.

Definition print_state (s : LifecycleStateAst) : string :=
  "state " +:+ st_name s +:+ match kind_keyword s with Some k => " " +:+ k | None => "" end.

Definition print_block (b : nat) (x : LifecycleBlockAst) : list (nat * string) :=
  (List.map (fun s => (b + 2, print_state s)) (states x) ++
   flat_map (fun t => (b + 2, "transition " +:+ tr_name t) :: print_transition_body (b + 4) t) (transitions x) ++
   List.map (fun i => (b + 2, "invariant " +:+ print_form (inv_form i))) (invariants x) ++
   List.map (fun h => (b + 2, "invariant_handler " +:+ h)) (invariant_handlers x))%nat%list.

(** ** Well-formed blocks *)

Definition opt_all (p : string -> bool) (o : option string) : bool := match o with Some s => p s | None => true end.
Definition entry (s : string) : bool := edges_ok s && str_all (fun b => negb (b =a? ",")) s.
(** An [audit] clause is kept with its keyword. *)
Definition audit_ok (s : string) : bool :=
  match strip_prefix "audit " s with Some r => edges_ok r | None => false end.

Definition transition_ok (t : LifecycleTransitionAst) : bool :=
  edges_ok (tr_name t) && negb (List.length (tr_from t) =? 0)%nat && forallb entry (tr_from t) && word (tr_to t) &&
  opt_all edges_ok (tr_policy t) && opt_all audit_ok (tr_audit t) && opt_all word (tr_timestamps t) &&
  forallb entry (tr_emits t) && opt_all edges_ok (tr_requires t) && forallb edges_ok (tr_previously t) &&
  forallb (fun s => negb (is_trivia s)) (tr_tests t).
Definition state_ok (s : LifecycleStateAst) : bool :=
  word (st_name s) && opt_all (fun k => (k =? "initial") || (k =? "terminal")) (kind_keyword s).
Definition form_ok (f : LifecycleInvariantForm) : bool :=
  match f with SingleStatePerScope s f => word s && word f | _ => true end.
Definition block_ok (x : LifecycleBlockAst) : bool :=
  edges_ok (discriminator_field x) && (2 <=? List.length (states x))%nat && negb (List.length (transitions x) =? 0)%nat &&
  forallb state_ok (states x) && forallb transition_ok (transitions x) &&
  forallb (fun i => form_ok (inv_form i)) (invariants x) && forallb edges_ok (invariant_handlers x).

(** Forget the positions. *)
Definition no_span : Span := span_new 0 0.
Definition erase_state (s : LifecycleStateAst) :=
  {| st_name := st_name s; kind_keyword := kind_keyword s; st_span := no_span |}.
Definition erase_transition (t : LifecycleTransitionAst) :=
  {| tr_name := tr_name t; tr_from := tr_from t; tr_to := tr_to t; tr_policy := tr_policy t; tr_audit := tr_audit t;
     tr_timestamps := tr_timestamps t; tr_emits := tr_emits t; tr_requires := tr_requires t; tr_tests := tr_tests t;
     tr_previously := tr_previously t; tr_span := no_span |}.
Definition erase (x : LifecycleBlockAst) : LifecycleBlockAst :=
  {| discriminator_field := discriminator_field x; states := List.map erase_state (states x);
     transitions := List.map erase_transition (transitions x);
     invariants := List.map (fun i => {| inv_form := inv_form i; inv_span := no_span |}) (invariants x);
     invariant_handlers := invariant_handlers x; lc_span := no_span |}.

(** ** Parsing what was printed *)

Lemma entry_clean s : entry s = true -> clean_entry s.
Proof.
  unfold entry. intros H. bool_prop. split; [by apply trim_edges|]. split; [by intros ->|done].
Qed.

Lemma split_entries l : l <> [] -> forallb entry l = true -> split_lzx_list (join ", " l) = l.
Proof.
  destruct l as [|x l]; [done|]. intros _ H. apply split_lzx_list_join. apply Forall_forall. intros y Hy.
  apply entry_clean. rewrite forallb_forall in H. by apply H, list_elem_of_In.
Qed.

Section Transition.
Variables b c : nat.
Hypothesis Hbc : b < c.

Definition with_end (e : nat) (a : TransitionAcc) : TransitionAcc :=
  {| x_from := x_from a; x_to := x_to a; x_policy := x_policy a; x_audit := x_audit a; x_timestamps := x_timestamps a;
     x_emits := x_emits a; x_requires := x_requires a; x_tests := x_tests a; tests_seen := tests_seen a;
     x_previously := x_previously a; x_last_end := e |}.

(** The loop reads the lines [ls] and has turned [a] into [a']. *)
Definition reads (ls : list SourceLine) (a a' : TransitionAcc) : Prop :=
  forall r e, exists e', transition_lines b c false (with_end e a) (ls ++ r) = transition_lines b c false (with_end e' a') r.

Lemma reads_nil a : reads [] a a.
Proof. intros r e. by exists e. Qed.

Lemma reads_app l1 l2 a1 a2 a3 : reads l1 a1 a2 -> reads l2 a2 a3 -> reads (l1 ++ l2) a1 a3.
Proof.
  intros H1 H2 r e. destruct (H1 (l2 ++ r)%list e) as [e1 E1]. destruct (H2 r e1) as [e2 E2]. exists e2.
  by rewrite <- app_assoc, E1.
Qed.

Lemma reads_clause l kw v a a' :
  renders l (c, kw +:+ v) -> is_trivia (kw +:+ v) = false -> (kw +:+ v =? "tests") = false ->
  (forall e, transition_clause l (kw +:+ v) (with_end e a) = Some (Ok (with_end (end_ l) a'))) -> reads [l] a a'.
Proof.
  intros [Hi Ht] H1 H2 H3 r e. exists (end_ l). cbn [app transition_lines]. cbn in Hi, Ht. rewrite Ht, H1, Hi, H2, H3.
  replace (c <=? b)%nat with false by (symmetry; apply Nat.leb_gt; lia). by rewrite Nat.eqb_refl.
Qed.

Lemma reads_opt ls kw o a a' :
  Forall2 renders ls (opt_line c kw o) ->
  match o with
  | None => a' = a
  | Some v => is_trivia (kw +:+ v) = false /\ (kw +:+ v =? "tests") = false /\
      forall l e, transition_clause l (kw +:+ v) (with_end e a) = Some (Ok (with_end (end_ l) a'))
  end -> reads ls a a'.
Proof.
  destruct o as [v|]; cbn [opt_line]; intros H Ho.
  - inversion H as [|l ? ls' ? Hl Hls]; subst. inversion Hls; subst. destruct Ho as (H1 & H2 & H3). by eapply reads_clause.
  - inversion H; subst. apply reads_nil.
Qed.

Lemma reads_previously ls ps f t po au ti em rq te ts pv e0 :
  forallb edges_ok ps = true -> Forall2 renders ls (List.map (fun p => (c, "previously " +:+ p)) ps) ->
  reads ls
    {| x_from := f; x_to := t; x_policy := po; x_audit := au; x_timestamps := ti; x_emits := em; x_requires := rq;
       x_tests := te; tests_seen := ts; x_previously := pv; x_last_end := e0 |}
    {| x_from := f; x_to := t; x_policy := po; x_audit := au; x_timestamps := ti; x_emits := em; x_requires := rq;
       x_tests := te; tests_seen := ts; x_previously := (pv ++ ps)%list; x_last_end := e0 |}.
Proof.
  revert ls pv. induction ps as [|p ps IH]; intros ls pv Hok H; cbn [List.map] in H.
  - inversion H; subst. rewrite app_nil_r. apply reads_nil.
  - inversion H as [|l ? ls' ? Hl Hls]; subst. cbn [forallb] in Hok. bool_prop.
    apply (reads_app [l] ls' _
      {| x_from := f; x_to := t; x_policy := po; x_audit := au; x_timestamps := ti; x_emits := em; x_requires := rq;
         x_tests := te; tests_seen := ts; x_previously := (pv ++ [p])%list; x_last_end := e0 |}).
    + apply (reads_clause l "previously " p); [exact Hl|done|done|]. intros e. cbn -[trim]. by rewrite trim_edges.
    + replace (pv ++ p :: ps)%list with ((pv ++ [p]) ++ ps)%list by by rewrite <- app_assoc. by apply IH.
Qed.

(** The [tests] block, read to its end with the inner loop still running. *)
Lemma tests_read ls tests a e r :
  forallb (fun s => negb (is_trivia s)) tests = true ->
  Forall2 renders ls (List.map (fun s => ((c + 2)%nat, s)) tests) ->
  exists e', transition_lines b c true (with_end e a) (ls ++ r) =
    transition_lines b c true
      {| x_from := x_from a; x_to := x_to a; x_policy := x_policy a; x_audit := x_audit a; x_timestamps := x_timestamps a;
         x_emits := x_emits a; x_requires := x_requires a; x_tests := (x_tests a ++ tests)%list;
         tests_seen := tests_seen a; x_previously := x_previously a; x_last_end := e' |} r.
Proof.
  revert ls a e. induction tests as [|s tests IH]; intros ls a e Hok H; cbn [List.map] in H.
  - inversion H; subst. exists e. rewrite app_nil_r. done.
  - inversion H as [|l ? ls' ? [Hi Ht] Hls]; subst. cbn in Hi, Ht. cbn [forallb] in Hok. bool_prop.
    destruct (IH ls' (push_test l s (with_end e a)) (end_ l)) as [e' E]; [done..|]. exists e'.
    cbn [app transition_lines]. rewrite Ht, Hi. rewrite H0.
    replace (c + 2 <=? c)%nat with false by (symmetry; apply Nat.leb_gt; lia). cbn [andb negb].
    rewrite Nat.eqb_refl. cbn [negb].
    etransitivity; [exact E|]. cbn. by rewrite <- app_assoc.
Qed.
End Transition.

(** The line a transition's block ends at: shallower than its children. *)
Definition ends (b : nat) (r : list SourceLine) : Prop :=
  match r with [] => True | l :: _ => is_trivia (trimmed l) = false /\ indent l <= b end.

Lemma transition_lines_end b c m a r : ends b r -> b < c -> transition_lines b c m a r = Ok (a, r).
Proof.
  destruct r as [|l r]; [done|]. intros [Ht Hi] Hbc. cbn [transition_lines]. rewrite Ht.
  replace (indent l <=? c)%nat with true by (symmetry; apply Nat.leb_le; lia).
  replace (indent l <=? b)%nat with true by (symmetry; apply Nat.leb_le; lia).
  by destruct m.
Qed.

Lemma audit_ok_iff s : audit_ok s = true -> exists r, s = "audit " +:+ r /\ edges_ok r = true.
Proof.
  unfold audit_ok. destruct (strip_prefix "audit " s) as [r|] eqn:E; [|done]. apply strip_prefix_Some in E. eauto.
Qed.

Definition acc_of (t : LifecycleTransitionAst) (tests : list string) (seen : bool) (e : nat) : TransitionAcc :=
  {| x_from := tr_from t; x_to := Some (tr_to t); x_policy := tr_policy t; x_audit := tr_audit t;
     x_timestamps := tr_timestamps t; x_emits := tr_emits t; x_requires := tr_requires t; x_tests := tests;
     tests_seen := seen; x_previously := tr_previously t; x_last_end := e |}.

Lemma transition_ok_parts t : transition_ok t = true ->
  edges_ok (tr_name t) = true /\ tr_from t <> [] /\ forallb entry (tr_from t) = true /\ word (tr_to t) = true /\
  opt_all edges_ok (tr_policy t) = true /\ opt_all audit_ok (tr_audit t) = true /\ opt_all word (tr_timestamps t) = true /\
  forallb entry (tr_emits t) = true /\ opt_all edges_ok (tr_requires t) = true /\ forallb edges_ok (tr_previously t) = true /\
  forallb (fun s => negb (is_trivia s)) (tr_tests t) = true.
Proof.
  unfold transition_ok. intros H. rewrite !andb_true_iff in H.
  destruct H as [[[[[[[[[[H1 H2] H3] H4] H5] H6] H7] H8] H9] H10] H11]. repeat split; try done.
  intros E. by rewrite E in H2.
Qed.

(** Everything but the [tests] block. *)
Lemma reads_clauses b c ls t tail : b < c -> transition_ok t = true ->
  Forall2 renders ls
    ([(c, "from " +:+ join ", " (tr_from t)); (c, "to " +:+ tr_to t)] ++ opt_line c "policy " (tr_policy t) ++
     opt_line c "" (tr_audit t) ++ opt_line c "timestamps " (tr_timestamps t) ++ list_line c "emits " (tr_emits t) ++
     opt_line c "requires " (tr_requires t) ++ List.map (fun p => (c, "previously " +:+ p)) (tr_previously t) ++ tail) ->
  exists l1 l2, ls = (l1 ++ l2)%list /\ Forall2 renders l2 tail /\ reads b c l1 (acc_new 0) (acc_of t [] false 0).
Proof.
  intros Hbc Hok H. apply transition_ok_parts in Hok as (Oname & Hne & Ofrom & Oto & Opol & Oaud & Ots & Oem & Oreq & Oprev & _).
  apply Forall2_app_inv_r in H as (s1 & r1 & H1 & H & ->). apply Forall2_app_inv_r in H as (s2 & r2 & H2' & H & ->).
  apply Forall2_app_inv_r in H as (s3 & r3 & H3' & H & ->). apply Forall2_app_inv_r in H as (s4 & r4 & H4' & H & ->).
  apply Forall2_app_inv_r in H as (s5 & r5 & H5' & H & ->). apply Forall2_app_inv_r in H as (s6 & r6 & H6' & H & ->).
  apply Forall2_app_inv_r in H as (s7 & r7 & H7' & H & ->).
  exists (s1 ++ s2 ++ s3 ++ s4 ++ s5 ++ s6 ++ s7)%list, r7. split; [by rewrite <- !app_assoc|]. split; [done|].
  inversion H1 as [|lf ? s1' ? Hf Ht']; subst. inversion Ht' as [|lt ? s1'' ? Ht Hnil]; subst. inversion Hnil; subst.
  set (A po au ti em rq pv := {| x_from := tr_from t; x_to := Some (tr_to t); x_policy := po; x_audit := au;
    x_timestamps := ti; x_emits := em; x_requires := rq; x_tests := []; tests_seen := false; x_previously := pv;
    x_last_end := 0 |}).
  apply (reads_app b c _ _ _ (A None None None [] None [])).
  { apply (reads_app b c [lf] [lt] _ {| x_from := tr_from t; x_to := None; x_policy := None; x_audit := None;
      x_timestamps := None; x_emits := []; x_requires := None; x_tests := []; tests_seen := false; x_previously := [];
      x_last_end := 0 |}).
    - apply (reads_clause b c Hbc lf "from " (join ", " (tr_from t))); [done..|]. intros e.
      unfold transition_clause. rewrite strip_prefix_app. rewrite split_entries by done. by destruct (tr_from t).
    - apply (reads_clause b c Hbc lt "to " (tr_to t)); [done..|]. intros e. cbn -[parse_lifecycle_single_identifier].
      unfold parse_lifecycle_single_identifier. by rewrite split_whitespace_word. }
  apply (reads_app b c _ _ _ (A (tr_policy t) None None [] None [])).
  { apply (reads_opt b c Hbc s2 "policy " (tr_policy t)); [done|]. destruct (tr_policy t) as [v|]; [|done].
    split; [done|]. split; [done|]. intros l e. cbn -[trim]. by rewrite trim_edges. }
  apply (reads_app b c _ _ _ (A (tr_policy t) (tr_audit t) None [] None [])).
  { apply (reads_opt b c Hbc s3 "" (tr_audit t)); [done|]. destruct (tr_audit t) as [v|]; [|done].
    apply audit_ok_iff in Oaud as (r & -> & Hr). split; [done|]. split; [done|]. intros l e. cbn -[trim]. by rewrite trim_edges. }
  apply (reads_app b c _ _ _ (A (tr_policy t) (tr_audit t) (tr_timestamps t) [] None [])).
  { apply (reads_opt b c Hbc s4 "timestamps " (tr_timestamps t)); [done|]. destruct (tr_timestamps t) as [v|]; [|done].
    split; [done|]. split; [done|]. intros l e. cbn -[parse_lifecycle_single_identifier]. unfold parse_lifecycle_single_identifier. by rewrite split_whitespace_word. }
  apply (reads_app b c _ _ _ (A (tr_policy t) (tr_audit t) (tr_timestamps t) (tr_emits t) None [])).
  { destruct (tr_emits t) as [|v em] eqn:Ee; cbn [list_line] in H5'; [inversion H5'; subst; apply reads_nil|].
    apply (reads_opt b c Hbc s5 "emits " (Some (join ", " (v :: em)))); [done|].
    split; [done|]. split; [done|]. intros l e. unfold transition_clause. rewrite strip_prefix_app. cbn [strip_prefix starts_with].
    fold (split_lzx_list (join ", " (v :: em))). rewrite split_entries by done. done. }
  apply (reads_app b c _ _ _ (A (tr_policy t) (tr_audit t) (tr_timestamps t) (tr_emits t) (tr_requires t) [])).
  { apply (reads_opt b c Hbc s6 "requires " (tr_requires t)); [done|]. destruct (tr_requires t) as [v|]; [|done].
    split; [done|]. split; [done|]. intros l e. cbn -[trim]. by rewrite trim_edges. }
  unfold A, acc_of. by apply (reads_previously b c Hbc s7 (tr_previously t)).
Qed.

Lemma parse_transition_print b h ls t r :
  transition_ok t = true -> indent h = b + 2 -> Forall2 renders ls (print_transition_body (b + 4) t) -> ends (b + 2) r ->
  exists t', parse_lifecycle_transition h (ls ++ r) (tr_name t) (b + 4) = Ok (t', r) /\
    erase_transition t' = erase_transition t.
Proof.
  intros Hok Hh H Hr. unfold parse_lifecycle_transition. rewrite Hh.
  apply reads_clauses with (b := b + 2) in H as (l1 & l2 & -> & H2 & Hrd); [|lia|done].
  rewrite <- app_assoc. change (acc_new (end_ h)) with (with_end (end_ h) (acc_new 0)). destruct (Hrd (l2 ++ r)%list (end_ h)) as [e ->].
  apply transition_ok_parts in Hok as (_ & Hne & _ & _ & _ & _ & _ & _ & _ & _ & Ote).
  assert (Hl : exists seen e', transition_lines (b + 2) (b + 4) false (with_end e (acc_of t [] false 0)) (l2 ++ r) =
    Ok (acc_of t (tr_tests t) seen e', r)).
  { destruct (tr_tests t) as [|s tests].
    - inversion H2; subst. exists false, e. apply (transition_lines_end (b + 2) (b + 4) false); [done|lia].
    - inversion H2 as [|lt ? l2' ? [Hi Ht] Hls]; subst. cbn in Hi, Ht. cbn [app transition_lines]. rewrite Ht, Hi.
      replace (b + 4 <=? b + 2)%nat with false by (symmetry; apply Nat.leb_gt; lia). rewrite Nat.eqb_refl. cbn [negb andb].
      change (is_trivia "tests") with false. cbn match. cbn [String.eqb Ascii.eqb Bool.eqb]. cbn [open_tests mbind result_bind].
      unfold open_tests. cbn [tests_seen with_end acc_of ensure_lifecycle_once mbind result_bind].
      destruct (tests_read (b + 2) (b + 4) ltac:(lia) l2' (s :: tests) (acc_of t [] true 0) (end_ lt) r) as [e' E]; [done..|].
      exists true, e'. etransitivity; [exact E|]. apply transition_lines_end; [done|lia]. }
  destruct Hl as (seen & e' & ->). cbn [mbind result_bind acc_of x_from]. destruct (tr_from t) eqn:Ef; [done|].
  cbn. eexists. split; [done|]. unfold erase_transition. cbn. by rewrite Ef.
Qed.

(** The block's variables without positions. *)
Definition view (a : BlockAcc) :=
  (List.map erase_state (b_states a), List.map erase_transition (b_transitions a),
   List.map inv_form (b_invariants a), b_handlers a).

Lemma block_line_step b l body : indent l = b + 2 -> trimmed l = body -> is_trivia body = false ->
  is_trivia (trimmed l) = false /\ (indent l <=? b)%nat = false /\ (indent l =? b + 2)%nat = true.
Proof.
  intros Hi -> Hb. rewrite Hi. repeat split; [done|apply Nat.leb_gt; lia|apply Nat.eqb_refl].
Qed.

Lemma parse_state_print l s : state_ok s = true ->
  parse_lifecycle_state l (st_name s +:+ match kind_keyword s with Some k => " " +:+ k | None => "" end) =
  Ok ((st_name s, kind_keyword s), span_new (start l) (end_ l)).
Proof.
  unfold state_ok. intros [Hn Hk]%andb_true_iff. unfold parse_lifecycle_state. destruct (kind_keyword s) as [k|]; cbn [opt_all] in *.
  - change (st_name s +:+ (" " +:+ k)) with (join " " [st_name s; k]).
    rewrite split_whitespace_words by (constructor; [done|constructor; [|done]];
      apply orb_true_iff in Hk as [->%String.eqb_eq| ->%String.eqb_eq]; done).
    by rewrite Hk.
  - rewrite sapp_nil_r. by rewrite split_whitespace_word.
Qed.

Lemma print_form_ok l f : form_ok f = true -> parse_invariant_form l (trim (print_form f)) = Ok f.
Proof.
  destruct f as [|s sc|]; [done| |done]. cbn [form_ok print_form]. intros [H1 H2]%andb_true_iff.
  assert (Hj : "single " +:+ s +:+ " per " +:+ sc = join " " ["single"; s; "per"; sc]) by done.
  assert (He : edges_ok ("single " +:+ s +:+ " per " +:+ sc) = true).
  { change ("single " +:+ s +:+ " per " +:+ sc) with ("single" +:+ " " +:+ (s +:+ " per " +:+ sc)).
    apply edges_ok_mid; [done|]. apply edges_ok_mid; by apply word_edges. }
  unfold parse_invariant_form. rewrite !trim_edges by (rewrite ?trim_edges by done; done).
  rewrite Hj, split_whitespace_words by by repeat (constructor; [done|]).
  unfold word in *. apply andb_true_iff in H1 as [-> _], H2 as [-> _]. done.
Qed.

Lemma block_states_print b ls ss a r : forallb state_ok ss = true ->
  Forall2 renders ls (List.map (fun s => ((b + 2)%nat, print_state s)) ss) ->
  exists a', block_lines b 0 a (ls ++ r) = block_lines b 0 a' r /\
    view a' = (((view a).1.1.1 ++ List.map erase_state ss)%list, (view a).1.1.2, (view a).1.2, (view a).2).
Proof.
  revert ls a. induction ss as [|s ss IH]; intros ls a Hok H; cbn [List.map] in H.
  { inversion H; subst. exists a. split; [done|]. by rewrite app_nil_r. }
  inversion H as [|l ? ls' ? [Hi Ht] Hls]; subst. cbn [fst snd] in Hi, Ht. cbn [forallb] in Hok.
  apply andb_true_iff in Hok as [Hs Hss]. cbn [app block_lines].
  destruct (block_line_step b l (print_state s)) as (-> & -> & ->); [done..|]. cbn [negb].
  rewrite Ht. unfold print_state. rewrite strip_prefix_app, (parse_state_print l s Hs). cbn [mbind result_bind].
  match goal with |- context [block_lines b 0 ?x (ls' ++ r)] => destruct (IH ls' x Hss Hls) as (a' & E & Hv) end.
  exists a'. split; [exact E|]. rewrite Hv. cbn. rewrite map_app, <- app_assoc. done.
Qed.

Lemma block_invariants_print b ls invs a r : forallb (fun i => form_ok (inv_form i)) invs = true ->
  Forall2 renders ls (List.map (fun i => ((b + 2)%nat, "invariant " +:+ print_form (inv_form i))) invs) ->
  exists a', block_lines b 0 a (ls ++ r) = block_lines b 0 a' r /\
    view a' = ((view a).1.1.1, (view a).1.1.2, ((view a).1.2 ++ List.map inv_form invs)%list, (view a).2).
Proof.
  revert ls a. induction invs as [|i invs IH]; intros ls a Hok H; cbn [List.map] in H.
  { inversion H; subst. exists a. split; [done|]. by rewrite app_nil_r. }
  inversion H as [|l ? ls' ? [Hi Ht] Hls]; subst. cbn [fst snd] in Hi, Ht. cbn [forallb] in Hok.
  apply andb_true_iff in Hok as [Hs Hss]. cbn [app block_lines].
  destruct (block_line_step b l ("invariant " +:+ print_form (inv_form i))) as (-> & -> & ->); [done..|]. cbn [negb].
  assert (Ht' : trimmed l = "invariant " +:+ print_form (inv_form i)) by exact Ht. rewrite Ht', strip_prefix_app.
  change (strip_prefix ?p ("invariant " +:+ _)) with (@None string). cbn match.
  rewrite print_form_ok by done. cbn [mbind result_bind].
  match goal with |- context [block_lines b 0 ?x (ls' ++ r)] => destruct (IH ls' x Hss Hls) as (a' & E & Hv) end.
  exists a'. split; [exact E|]. rewrite Hv. cbn. rewrite map_app, <- app_assoc. done.
Qed.

Lemma block_handlers_print b ls hs a r : forallb edges_ok hs = true ->
  Forall2 renders ls (List.map (fun h => ((b + 2)%nat, "invariant_handler " +:+ h)) hs) ->
  exists a', block_lines b 0 a (ls ++ r) = block_lines b 0 a' r /\
    view a' = ((view a).1.1.1, (view a).1.1.2, (view a).1.2, ((view a).2 ++ hs)%list).
Proof.
  revert ls a. induction hs as [|h hs IH]; intros ls a Hok H; cbn [List.map] in H.
  { inversion H; subst. exists a. split; [done|]. by rewrite app_nil_r. }
  inversion H as [|l ? ls' ? [Hi Ht] Hls]; subst. cbn [fst snd] in Hi, Ht. cbn [forallb] in Hok.
  apply andb_true_iff in Hok as [Hs Hss]. cbn [app block_lines].
  destruct (block_line_step b l ("invariant_handler " +:+ h)) as (-> & -> & ->); [done..|]. cbn [negb].
  assert (Ht' : trimmed l = "invariant_handler " +:+ h) by exact Ht. rewrite Ht', strip_prefix_app.
  change (strip_prefix ?p ("invariant_handler " +:+ _)) with (@None string). cbn match.
  rewrite trim_edges by done.
  match goal with |- context [block_lines b 0 ?x (ls' ++ r)] => destruct (IH ls' x Hss Hls) as (a' & E & Hv) end.
  exists a'. split; [exact E|]. rewrite Hv. cbn. rewrite <- app_assoc. done.
Qed.

(** Rendered lines that open with a child of the block end what is before them. *)
Lemma ends_app b ls exp r : Forall2 renders ls exp ->
  match exp with [] => ends b r | p :: _ => p.1 <= b /\ is_trivia p.2 = false end -> ends b (ls ++ r).
Proof.
  intros H. destruct H as [|l p ls exp [Hi Ht] _]; [done|]. intros [H1 H2]. cbn. rewrite Ht. split; [done|lia].
Qed.

Lemma block_transitions_print b ls ts a r : forallb transition_ok ts = true -> ends (b + 2) r ->
  Forall2 renders ls
    (flat_map (fun t => ((b + 2)%nat, "transition " +:+ tr_name t) :: print_transition_body (b + 4) t) ts) ->
  exists a', block_lines b 0 a (ls ++ r) = block_lines b 0 a' r /\
    view a' = ((view a).1.1.1, ((view a).1.1.2 ++ List.map erase_transition ts)%list, (view a).1.2, (view a).2).
Proof.
  intros Hok Hr. revert ls a Hok. induction ts as [|t ts IH]; intros ls a Hok H; cbn [flat_map] in H.
  { inversion H; subst. exists a. split; [done|]. by rewrite app_nil_r. }
  rewrite <- app_comm_cons in H. apply Forall2_cons_inv_r in H as (l & ls' & [Hi Ht] & Hls & ->). cbn [fst snd] in Hi, Ht.
  apply Forall2_app_inv_r in Hls as (l1 & l2 & H1 & H2 & ->). cbn [forallb] in Hok. apply andb_true_iff in Hok as [Hs Hss].
  assert (Hend : ends (b + 2) (l2 ++ r)).
  { eapply ends_app; [exact H2|]. by destruct ts. }
  pose proof Hs as (He & _)%transition_ok_parts. cbn [app]. rewrite <- app_assoc.
  rewrite (block_lines_transition b a l _ (tr_name t)).
  - destruct (parse_transition_print b l l1 t (l2 ++ r)) as (t' & Hp & Ht'); [done..|].
    rewrite trim_edges by done. rewrite Hp. cbn [mbind result_bind].
    match goal with |- context [block_lines b 0 ?x (l2 ++ r)] => destruct (IH l2 x Hss H2) as (a' & E & Hv) end.
    exists a'. split; [exact E|]. rewrite Hv. cbn. rewrite map_app, <- app_assoc. cbn. by rewrite Ht'.
  - by rewrite Ht.
  - done.
  - by rewrite Ht.
  - rewrite Ht. apply strip_prefix_app.
  - rewrite trim_edges by done. intros E. by rewrite E in He.
Qed.

Lemma block_end b a r : ends b r -> block_lines b 0 a r = Ok (a, r).
Proof.
  destruct r as [|l r]; [done|]. intros [Ht Hi]. cbn [block_lines]. rewrite Ht.
  by replace (indent l <=? b)%nat with true by (symmetry; apply Nat.leb_le; lia).
Qed.

Lemma block_ok_parts x : block_ok x = true ->
  edges_ok (discriminator_field x) = true /\ 2 <= List.length (states x) /\ transitions x <> [] /\
  forallb state_ok (states x) = true /\ forallb transition_ok (transitions x) = true /\
  forallb (fun i => form_ok (inv_form i)) (invariants x) = true /\ forallb edges_ok (invariant_handlers x) = true.
Proof.
  unfold block_ok. intros H. rewrite !andb_true_iff in H. destruct H as [[[[[[H1 H2] H3] H4] H5] H6] H7].
  apply Nat.leb_le in H2. repeat split; try done. intros E. by rewrite E in H3.
Qed.

Lemma block_lines_print b ls x a r : block_ok x = true -> ends b r -> Forall2 renders ls (print_block b x) ->
  view a = ([], [], [], []) ->
  exists a', block_lines b 0 a (ls ++ r) = Ok (a', r) /\
    view a' = (List.map erase_state (states x), List.map erase_transition (transitions x),
               List.map inv_form (invariants x), invariant_handlers x).
Proof.
  intros (_ & _ & Hne & Os & Ot & Oi & Oh)%block_ok_parts Hr H Ha. unfold print_block in H.
  apply Forall2_app_inv_r in H as (s1 & r1 & H1 & H & ->). apply Forall2_app_inv_r in H as (s2 & r2 & H2 & H & ->).
  apply Forall2_app_inv_r in H as (s3 & s4 & H3 & H4 & ->). rewrite <- !app_assoc.
  destruct (block_states_print b s1 (states x) a (s2 ++ s3 ++ s4 ++ r) Os H1) as (a1 & -> & V1).
  assert (Hend : ends (b + 2) (s3 ++ s4 ++ r)).
  { eapply ends_app; [exact H3|]. destruct (invariants x); [|by split]. eapply ends_app; [exact H4|].
    destruct (invariant_handlers x); [|by split]. destruct r as [|l r]; [done|]. cbn in *. split; [tauto|lia]. }
  destruct (block_transitions_print b s2 (transitions x) a1 (s3 ++ s4 ++ r) Ot Hend H2) as (a2 & -> & V2).
  destruct (block_invariants_print b s3 (invariants x) a2 (s4 ++ r) Oi H3) as (a3 & -> & V3).
  destruct (block_handlers_print b s4 (invariant_handlers x) a3 r Oh H4) as (a4 & -> & V4).
  exists a4. split; [by apply block_end|]. rewrite V4, V3, V2, V1, Ha. done.
Qed.

(** ** What a parsed block guarantees *)

(** Names that came from [split_lzx_list] or [split_whitespace]. *)
Lemma split_lzx_list_nonempty s : Forall (fun x => x <> "") (split_lzx_list s).
Proof.
  apply List.Forall_forall. intros x Hx. apply filter_In in Hx as [_ H]. unfold nonempty in H. by bool_prop.
Qed.

Lemma split_ws_nonempty s cur k : Forall (fun x => x <> "") (split_ws_go s cur k).
Proof.
  revert cur k. induction s as [|b s IH]; intros cur k; cbn [split_ws_go].
  - destruct (String.eqb_spec cur ""); repeat constructor; done.
  - destruct k; [|apply IH]. destruct (ws_len (String b s)); [apply IH|].
    destruct (String.eqb_spec cur ""); [apply IH|]. by constructor.
Qed.

(** What holds of the transition's variables throughout. *)
Definition acc_inv (a : TransitionAcc) : Prop :=
  Forall (fun x => x <> "") (x_from a) /\ (forall t, x_to a = Some t -> t <> "") /\
  Forall (fun x => x <> "") (x_emits a) /\ (forall t, x_timestamps a = Some t -> t <> "").

Lemma single_identifier_nonempty l kw s v : parse_lifecycle_single_identifier l kw s = Ok v -> v <> "".
Proof.
  unfold parse_lifecycle_single_identifier. pose proof (split_ws_nonempty s "" 0) as H. unfold split_whitespace.
  destruct (split_ws_go s "" 0) as [|x [|y k]]; try done. intros [= <-]. by inversion H.
Qed.

Lemma transition_clause_inv l s a a' : acc_inv a -> transition_clause l s a = Some (Ok a') -> acc_inv a'.
Proof.
  intros (H1 & H2 & H3 & H4) H. unfold transition_clause in H.
  destruct (strip_prefix "from " s) as [r|].
  { pose proof (split_lzx_list_nonempty r) as Hr. destruct (split_lzx_list r); [done|]. injection H as <-.
    repeat split; [apply Forall_app_2|..]; done. }
  destruct (strip_prefix "to " s) as [r|].
  { injection H as H. apply bind_Ok in H as (? & _ & H). apply bind_Ok in H as (v & Hv%single_identifier_nonempty & [= <-]).
    repeat split; try done. cbn. congruence. }
  destruct (strip_prefix "policy " s) as [r|]; [injection H as H; apply bind_Ok in H as (? & _ & [= <-]); done|].
  destruct (strip_prefix "audit " s) as [r|]; [injection H as H; apply bind_Ok in H as (? & _ & [= <-]); done|].
  destruct (strip_prefix "timestamps " s) as [r|].
  { injection H as H. apply bind_Ok in H as (? & _ & H). apply bind_Ok in H as (v & Hv%single_identifier_nonempty & [= <-]).
    repeat split; try done. cbn. congruence. }
  destruct (strip_prefix "emits " s) as [r|].
  { pose proof (split_lzx_list_nonempty r) as Hr. unfold split_lzx_list in Hr. destruct (List.filter _ _); [done|].
    injection H as <-. repeat split; try done. by apply Forall_app_2. }
  destruct (strip_prefix "requires " s) as [r|]; [injection H as H; apply bind_Ok in H as (? & _ & [= <-]); done|].
  destruct (strip_prefix "previously " s) as [r|]; [by injection H as <-|done].
Qed.

Lemma transition_lines_inv b c m a ls a' r : transition_lines b c m a ls = Ok (a', r) -> acc_inv a -> acc_inv a'.
Proof.
  revert m a. induction ls as [|l ls IH]; intros m a H Ha; cbn [transition_lines] in H; [by injection H as <- <-|].
  destruct (is_trivia _); [by eapply IH|].
  destruct (m && _); [destruct (negb _); [done|]; eapply IH; [exact H|]; by destruct Ha as (?&?&?&?)|].
  destruct (indent l <=? b)%nat; [by injection H as <- <-|]. destruct (negb _); [done|].
  destruct (trimmed l =? "tests").
  - apply bind_Ok in H as (a1 & H1 & H). eapply IH; [exact H|]. unfold open_tests in H1.
    apply bind_Ok in H1 as (? & _ & [= <-]). done.
  - destruct (transition_clause l (trimmed l) a) as [x|] eqn:E; [|done]. apply bind_Ok in H as (a1 & -> & H).
    eapply IH; [exact H|]. by eapply transition_clause_inv.
Qed.

(** Where a loop stops: at the end, or at a line of the enclosing block. *)
Lemma transition_lines_ends b c m a ls a' r : transition_lines b c m a ls = Ok (a', r) -> ends b r.
Proof.
  revert m a. induction ls as [|l ls IH]; intros m a H; cbn [transition_lines] in H; [by injection H as <- <-|].
  destruct (is_trivia _) eqn:Et; [by eapply IH|].
  destruct (m && _); [destruct (negb _); [done|]; by eapply IH|].
  destruct (indent l <=? b)%nat eqn:Ei; [injection H as <- <-; split; [done|by apply Nat.leb_le]|].
  destruct (negb _); [done|].
  destruct (trimmed l =? "tests"); [apply bind_Ok in H as (a1 & _ & H); by eapply IH|].
  destruct (transition_clause _ _ _); [|done]. apply bind_Ok in H as (a1 & _ & H). by eapply IH.
Qed.

Definition transition_wf (t : LifecycleTransitionAst) : Prop :=
  tr_name t <> "" /\ tr_from t <> [] /\ Forall (fun s => s <> "") (tr_from t) /\ tr_to t <> "" /\
  Forall (fun s => s <> "") (tr_emits t) /\ (forall f, tr_timestamps t = Some f -> f <> "").
Definition state_wf (s : LifecycleStateAst) : Prop :=
  st_name s <> "" /\ (kind_keyword s = None \/ kind_keyword s = Some "initial" \/ kind_keyword s = Some "terminal").

Lemma parse_lifecycle_transition_wf h ls name c t r : name <> "" ->
  parse_lifecycle_transition h ls name c = Ok (t, r) -> transition_wf t.
Proof.
  intros Hn H. unfold parse_lifecycle_transition in H. apply bind_Ok in H as ([a r'] & Ha & H).
  apply transition_lines_inv in Ha as (H1 & H2 & H3 & H4); [|by repeat split; try constructor].
  destruct (x_from a) eqn:Ef; [done|]. apply bind_Ok in H as (to & Hto & [= <- <-]). unfold ok_or in Hto.
  destruct (x_to a) as [to'|] eqn:Et; [|done]. injection Hto as ->. repeat split; cbn; auto; try done.
Qed.

Lemma parse_lifecycle_state_wf l s n k sp : parse_lifecycle_state l s = Ok ((n, k), sp) ->
  state_wf {| st_name := n; kind_keyword := k; st_span := sp |}.
Proof.
  unfold parse_lifecycle_state. pose proof (split_ws_nonempty s "" 0) as Hne. unfold split_whitespace.
  destruct (split_ws_go s "" 0) as [|x [|y k']]; [done| |]; inversion_clear Hne.
  - cbn. intros [= <- <- <-]. split; [done|by left].
  - destruct (String.eqb_spec y "initial") as [->|]; [|destruct (String.eqb_spec y "terminal") as [->|]; [|done]];
      cbn; destruct k'; try done; intros [= <- <- <-]; (split; [done|]); cbn; tauto.
Qed.

Lemma block_lines_inv b skip a ls a' r : block_lines b skip a ls = Ok (a', r) ->
  Forall state_wf (b_states a) -> Forall transition_wf (b_transitions a) ->
  Forall state_wf (b_states a') /\ Forall transition_wf (b_transitions a').
Proof.
  revert skip a. induction ls as [|l ls IH]; intros skip a H Hs Ht; cbn [block_lines] in H; [by injection H as <- <-|].
  destruct skip; [|by eapply IH]. destruct (is_trivia _); [by eapply IH|].
  destruct (indent l <=? b)%nat; [by injection H as <- <-|]. destruct (negb _); [done|].
  destruct (strip_prefix "state " (trimmed l)) as [s|].
  { apply bind_Ok in H as ([[n k] sp] & Hst%parse_lifecycle_state_wf & H). eapply IH; [exact H| |done]. cbn.
    apply Forall_app_2; [done|]. by constructor. }
  destruct (strip_prefix "transition " (trimmed l)) as [s|].
  { unfold nonempty in H. destruct (String.eqb_spec (trim s) "") as [|Hn]; [done|]. cbn [negb] in H.
    apply bind_Ok in H as ([t next] & Htr & H). apply parse_lifecycle_transition_wf in Htr; [|done].
    eapply IH; [exact H|done|]. cbn. apply Forall_app_2; [done|]. by constructor. }
  destruct (strip_prefix "invariant_handler " (trimmed l)) as [s|]; [by eapply IH|].
  destruct (strip_prefix "invariant " (trimmed l)) as [s|]; [|done].
  apply bind_Ok in H as (f & _ & H). by eapply IH.
Qed.

Lemma block_lines_suffix b skip a ls a' r : block_lines b skip a ls = Ok (a', r) -> exists p, ls = (p ++ r)%list.
Proof.
  revert skip a. induction ls as [|l ls IH]; intros skip a H; cbn [block_lines] in H; [injection H as <- <-; by exists []|].
  assert (Hrec : forall skip a, block_lines b skip a ls = Ok (a', r) -> exists p, l :: ls = (p ++ r)%list).
  { intros k a0 E. apply IH in E as [p ->]. by exists (l :: p). }
  repeat case_in H; try done; eauto; try (injection H as <- <-; by exists []);
    apply bind_Ok in H as (x & _ & H); repeat (destruct x as [x ?]); eauto;
    destruct x; eauto.
Qed.

Lemma block_lines_ends b skip a ls a' r : block_lines b skip a ls = Ok (a', r) -> ends b r.
Proof.
  revert skip a. induction ls as [|l ls IH]; intros skip a H; cbn [block_lines] in H; [by injection H as <- <-|].
  destruct skip; [|by eapply IH]. destruct (is_trivia _) eqn:Et; [by eapply IH|].
  destruct (indent l <=? b)%nat eqn:Ei; [injection H as <- <-; split; [done|by apply Nat.leb_le]|].
  destruct (negb _); [done|].
  destruct (strip_prefix "state " (trimmed l)) as [s|]; [apply bind_Ok in H as ([[n k] sp] & _ & H); by eapply IH|].
  destruct (strip_prefix "transition " (trimmed l)) as [s|].
  { destruct (negb _); [done|]. apply bind_Ok in H as ([t next] & _ & H). by eapply IH. }
  destruct (strip_prefix "invariant_handler " (trimmed l)) as [s|]; [by eapply IH|].
  destruct (strip_prefix "invariant " (trimmed l)) as [s|]; [|done].
  apply bind_Ok in H as (f & _ & H). by eapply IH.
Qed.

(** Equal but for where the block ends. *)
Definition same_ast (x y : LifecycleBlockAst) : Prop :=
  discriminator_field x = discriminator_field y /\ states x = states y /\ transitions x = transitions y /\
  invariants x = invariants y /\ invariant_handlers x = invariant_handlers y.

Lemma parse_block_nt h ls :
  agree (fun x y => same_ast x.1 y.1 /\ y.2 = nt x.2) (parse_lifecycle_block h ls) (parse_lifecycle_block h (nt ls)).
Proof.
  unfold parse_lifecycle_block.
  set (a0 := {| b_states := []; b_transitions := []; b_invariants := []; b_handlers := []; b_last_end := end_ h |}).
  pose proof (block_lines_nt (indent h) a0 a0 ls) as H. cbn zeta.
  destruct (block_lines (indent h) 0 a0 ls) as [[x r]|e], (block_lines (indent h) 0 a0 (nt ls)) as [[y r']|e'];
    cbn [agree mbind result_bind] in *; try (exfalso; by apply H).
  - destruct H as [(E1 & E2 & E3 & E4) Er]; [done|]. cbn [fst snd] in *. subst r'. rewrite E1, E2.
    destruct (_ <? 2)%nat; [done|]. destruct (b_transitions y) as [|t ts] eqn:Et; [done|].
    cbn. repeat split; try done; cbn; congruence.
  - by apply H.
Qed.

Lemma parse_block_sound h ls x r : parse_lifecycle_block h ls = Ok (x, r) ->
  2 <= List.length (states x) /\ transitions x <> [] /\ Forall state_wf (states x) /\
  Forall transition_wf (transitions x) /\ (exists p, ls = (p ++ r)%list) /\ ends (indent h) r.
Proof.
  unfold parse_lifecycle_block. intros H. apply bind_Ok in H as ([a r'] & Ha & H).
  pose proof (block_lines_suffix _ _ _ _ _ _ Ha) as Hp. pose proof (block_lines_ends _ _ _ _ _ _ Ha) as He.
  apply block_lines_inv in Ha as [Hs Ht]; [|constructor..].
  destruct (List.length (b_states a) <? 2)%nat eqn:El; [done|]. apply Nat.ltb_ge in El.
  destruct (b_transitions a) as [|t ts] eqn:Et; [done|]. injection H as <- <-. cbn. repeat split; try done.
Qed.

(** * Properties *)

(** C40: What parses is a lifecycle: at least two states and one transition, every
    transition named with at least one source and a target, no empty name, state
    modifiers from the catalog; and the parser stops at the first line of the
    enclosing block. *)
Theorem parse_lifecycle_block_wf h ls x r : parse_lifecycle_block h ls = Ok (x, r) ->
  2 <= List.length (states x) /\ transitions x <> [] /\ Forall state_wf (states x) /\
  Forall transition_wf (transitions x) /\ (exists p, ls = (p ++ r)%list) /\ ends (indent h) r.
Proof. apply parse_block_sound. Qed.

(** Comments and blank lines mean nothing: dropping them changes neither the
    error nor the block, but for the offset it is said to end at. *)
Theorem parse_lifecycle_trivia h ls :
  agree (fun x y => same_ast x.1 y.1 /\ y.2 = nt x.2) (parse_lifecycle_block h ls) (parse_lifecycle_block h (nt ls)).
Proof. apply parse_block_nt. Qed.

(** C30: Printing a block and parsing it gives the block back, with comments and blank
    lines anywhere between the printed lines. *)
Theorem parse_lifecycle_roundtrip h ls b x printed tail :
  block_ok x = true -> renders h (b, "lifecycle " +:+ discriminator_field x) ->
  nt ls = (printed ++ tail)%list -> Forall2 renders printed (print_block b x) -> ends b tail ->
  exists x' r, parse_lifecycle_block h ls = Ok (x', r) /\ erase x' = erase x /\ nt r = tail.
Proof.
  intros Hok [Hi Hh] Hnt Hp He. pose proof (block_ok_parts x Hok) as (Hd & H2 & Ht & _).
  pose proof (parse_block_nt h ls) as Hag. rewrite Hnt in Hag.
  assert (Hy : exists y, parse_lifecycle_block h (printed ++ tail) = Ok (y, tail) /\ erase y = erase x).
  { unfold parse_lifecycle_block. cbn [fst snd] in Hi, Hh. rewrite Hi, Hh, strip_prefix_app, trim_edges by done.
    destruct (block_lines_print b printed x
      {| b_states := []; b_transitions := []; b_invariants := []; b_handlers := []; b_last_end := end_ h |} tail)
      as (a & -> & Hv); [done..|]. cbn [mbind result_bind].
    unfold view in Hv. injection Hv as V1 V2 V3 V4.
    replace (List.length (b_states a)) with (List.length (states x)) by
      (rewrite <- (length_map erase_state (states x)), <- V1; apply length_map).
    replace (List.length (states x) <? 2)%nat with false by (symmetry; by apply Nat.ltb_ge).
    destruct (b_transitions a) as [|t ts] eqn:Et; [by destruct (transitions x)|].
    eexists. split; [done|]. unfold erase. cbn. rewrite V1, V4. f_equal; [exact V2|].
    apply (f_equal (List.map (fun f => {| inv_form := f; inv_span := no_span |}))) in V3. by rewrite !map_map in V3. }
  destruct Hy as (y & Hy & Hey). rewrite Hy in Hag.
  destruct (parse_lifecycle_block h ls) as [[x' r]|]; [|done]. destruct Hag as [(E1 & E2 & E3 & E4 & E5) Hr].
  cbn [fst snd] in *. exists x', r. split; [done|]. split; [|done]. rewrite <- Hey. unfold erase. congruence.
Qed.

Definition sample_block : LifecycleBlockAst := {|
  discriminator_field := "status";
  states := [{| st_name := "draft"; kind_keyword := Some "initial"; st_span := no_span |};
             {| st_name := "published"; kind_keyword := None; st_span := no_span |}];
  transitions := [{| tr_name := "publish"; tr_from := ["draft"]; tr_to := "published"; tr_policy := Some "@policy.publish";
    tr_audit := Some "audit actor, target.id"; tr_timestamps := Some "published_at"; tr_emits := ["Published"];
    tr_requires := None; tr_tests := ["allows as @role.admin"]; tr_previously := ["activate"]; tr_span := no_span |}];
  invariants := [{| inv_form := SingleStatePerScope "draft" "author_id"; inv_span := no_span |}];
  invariant_handlers := ["@fn.check"]; lc_span := no_span |}.

Definition sample_line (t : string) : SourceLine :=
  {| text := t; indent := count_while is_space t; start := 0; end_ := str_len t |}.
Definition sample_printed : list SourceLine := List.map sample_line
  ["  state draft initial"; "  state published"; "  transition publish"; "    from draft"; "    to published";
   "    policy @policy.publish"; "    audit actor, target.id"; "    timestamps published_at"; "    emits Published";
   "    previously activate"; "    tests"; "      allows as @role.admin"; "  invariant single draft per author_id";
   "  invariant_handler @fn.check"].
Definition sample_lines : list SourceLine :=
  (sample_line "# the states" :: firstn 4 sample_printed ++ sample_line "" :: skipn 4 sample_printed ++ [sample_line "resource Next"])%list.

Lemma parse_lifecycle_roundtrip_witness :
  exists x' r, parse_lifecycle_block (sample_line "lifecycle status") sample_lines = Ok (x', r) /\
    erase x' = erase sample_block /\ nt r = [sample_line "resource Next"].
Proof.
  apply (parse_lifecycle_roundtrip (sample_line "lifecycle status") sample_lines 0 sample_block sample_printed
    [sample_line "resource Next"]).
  - reflexivity.
  - split; reflexivity.
  - reflexivity.
  - repeat constructor.
  - split; [reflexivity|apply Nat.le_refl].
Defined.

Lemma parse_lifecycle_block_wf_witness : exists x r,
  parse_lifecycle_block (sample_line "lifecycle status") sample_lines = Ok (x, r) /\ 2 <= List.length (states x).
Proof.
  let v := eval vm_compute in (parse_lifecycle_block (sample_line "lifecycle status") sample_lines) in
  match v with
  | Ok (?x, ?r) =>
    assert (E : parse_lifecycle_block (sample_line "lifecycle status") sample_lines = Ok (x, r)) by (vm_compute; reflexivity);
    exists x, r; exact (conj E (proj1 (parse_lifecycle_block_wf _ _ x r E)))
  end.
Defined.
