(* ===== verification/LifecycleLowering.v ===== *)
(** Lowering of [lifecycle] blocks into the IR
    ([lazuli_analyzer/src/lifecycle/mod.rs], [test_lowering.rs]) and the facts the
    transition check reads off the result
    ([checks/lifecycle_transition/mod.rs]).

    The IR records carry the slots these passes read or write; the slots of a
    synthesized command, field or enum that the code always leaves empty
    (defaults, constraints, rate limits, ...) are not represented. *)
From S2P Require Import Prelude Str Fmt Lex Helpers Ir.
From S2P Require LifecycleSyntax LifecycleTransition.
Module syntax := LifecycleSyntax.
Module check := LifecycleTransition.
Export Ir.types.

(** * IR *)

(** The structured arguments of a capability are kept as text. *)
Inductive TypeRef :=
| Builtin (b : BuiltinType) | UserDefined (q : QualifiedName) | EnumRef (q : QualifiedName)
| Many (t : TypeRef) | Unresolved (s : string) | Capability (s : string).

(** [nodes/resource/mod.rs], [nodes/resource/field.rs] *)
Record Field := { fd_name : string; type_ref : TypeRef; required : bool; fd_span : option Span }.

(** [nodes/test_and_policy.rs] *)
Inductive TestAssertion :=
| PolicyAllow (actors : list string) | PolicyDeny (actors : list string)
| AllowsWhen (p : Predicate) | DeniesWhen (p : Predicate)
| AllowsFrom (state : string) | DeniesFrom (state : string)
| AllowsAs (actor : string) | DeniesAs (actor : string)
| AllowsFromAs (state actor : string) | DeniesFromAs (state actor : string)
| AllowsExtension (feature : string) | DeniesExtension (feature : string)
| Raw (line : string).
Record TestBlock := { assertions : list TestAssertion; tb_span : option Span }.

(** [nodes/lifecycle.rs] *)
Inductive LifecycleStateKind := Initial | Intermediate | Terminal.
Record LifecycleState := { ls_name : string; ls_kind : LifecycleStateKind; ls_span : option Span }.
Record AuditSpec := { subjects : list string }.
Record HandlerRef := { hr_namespace : string; hr_name : string; hr_span : option Span }.
Inductive LifecycleInvariant :=
| TerminalImmutable | SingleStatePerScope (state scope_field : string) | NoJumpMoreThanOne.
Record LifecycleTransition := {
  lt_name : string; lt_from : list string; lt_to : string; lt_policy : option PolicyRef;
  lt_audit : option AuditSpec; lt_timestamps : option string; lt_emits : list string;
  lt_requires : option PolicyRef; lt_tests : option TestBlock; lt_previous_names : list string;
  lt_span : option Span
}.
Record Lifecycle := {
  lc_discriminator : string; generated_enum : string; lc_states : list LifecycleState;
  lc_transitions : list LifecycleTransition; lc_invariants : list LifecycleInvariant;
  lc_handlers : list HandlerRef; lc_span : option Span
}.

(** [nodes/command_p1.rs], [nodes/command_p2.rs] *)
Record Assignment := { as_field : string; as_value : Expr }.
Record UpdateEffect := { up_resource : QualifiedName; assignments : list Assignment }.
(** The effects other than [updates] are not looked into. *)
Inductive CommandEffect := Updates (u : UpdateEffect) | OtherEffect (text : string).
Inductive DerivedFrom := FromLifecycle (resource transition : string).
Record NamedArg := { na_name : string; na_value : Expr }.
Record TargetExpr := { tg_query : QualifiedName; tg_args : list NamedArg }.
Record RouteSlot := { rt_name : string; rt_type : TypeRef }.
Inductive CommandKind := Create | Update | Delete | Returns | Reorder.
Record Command := {
  c_name : string; c_kind : CommandKind; c_route : list RouteSlot; c_target : option TargetExpr;
  c_effect : CommandEffect; c_policy : PolicyRef; c_emits : list string; c_audit : option AuditSpec;
  c_tests : option TestBlock; c_triggers : list string; c_previous_names : list string;
  c_span : option Span; c_derived_from : option DerivedFrom
}.

Record Resource := { r_name : string; fields : list Field; r_lifecycle : option Lifecycle }.
Record Feature := {
  f_name : string; f_uses : list string; enums : list EnumDecl; resources : list Resource; commands : list Command
}.

(** [syntax::ResourceDecl], the slots the pass reads. *)
Record ResourceDecl := { rd_name : string; rd_lifecycle : option syntax.LifecycleBlockAst }.

(** * Test lines ([test_lowering.rs]) *)

Definition lower_test_line (line : string) : option TestAssertion :=
  match split_whitespace line with
  | [verb; k1; a; k2; b] =>
    if (verb =? "allows") && (k1 =? "from") && (k2 =? "as") then Some (AllowsFromAs a b)
    else if (verb =? "denies") && (k1 =? "from") && (k2 =? "as") then Some (DeniesFromAs a b)
    else if ((verb =? "allows") || (verb =? "denies")) && (k1 =? "when") then Some (Raw (trim line))
    else None
  | [verb; k; a] =>
    if (verb =? "allows") && (k =? "from") then Some (AllowsFrom a)
    else if (verb =? "denies") && (k =? "from") then Some (DeniesFrom a)
    else if (verb =? "allows") && (k =? "as") then Some (AllowsAs a)
    else if (verb =? "denies") && (k =? "as") then Some (DeniesAs a)
    else if ((verb =? "allows") || (verb =? "denies")) && (k =? "when") then Some (Raw (trim line))
    else None
  | verb :: k :: _ =>
    if ((verb =? "allows") || (verb =? "denies")) && (k =? "when") then Some (Raw (trim line)) else None
  | _ => None
  end.

Definition lower_test_block (lines : list string) (span : Span) : option TestBlock :=
  match omap lower_test_line lines with
  | [] => None
  | l => Some {| assertions := l; tb_span := Some span |}
  end.

(** * Leaves *)

Definition lower_policy_ref (raw : string) : PolicyRef :=
  match strip_prefix "@" (trim raw) with Some rest => RAtom rest | None => RLocal (trim raw) end.

Definition lower_audit_spec (raw : string) : AuditSpec :=
  let tail := trim (match strip_prefix "audit " (trim raw) with Some r => r | None => raw end) in
  {| subjects := List.filter nonempty (List.map trim (split_char "," tail)) |}.

Fixpoint trim_ats (s : string) : string :=
  match s with String b r => if b =a? "@" then trim_ats r else s | "" => "" end.

Definition lower_handler_ref (raw : string) (span : Span) : HandlerRef :=
  let trimmed := trim_ats (trim raw) in
  let '(ns, name) := match split_once "." trimmed with Some p => p | None => ("fn", trimmed) end in
  {| hr_namespace := ns; hr_name := name; hr_span := Some span |}.

Definition lower_invariant_form (f : syntax.LifecycleInvariantForm) : LifecycleInvariant :=
  match f with
  | syntax.TerminalImmutable => TerminalImmutable
  | syntax.NoJumpMoreThanOne => NoJumpMoreThanOne
  | syntax.SingleStatePerScope s f => SingleStatePerScope s f
  end.

Definition lower_state (s : syntax.LifecycleStateAst) : LifecycleState := {|
  ls_name := syntax.st_name s;
  ls_kind := match syntax.kind_keyword s with
             | Some k => if k =? "initial" then Initial else if k =? "terminal" then Terminal else Intermediate
             | None => Intermediate
             end;
  ls_span := Some (syntax.st_span s) |}.

Definition lower_transition (t : syntax.LifecycleTransitionAst) : LifecycleTransition := {|
  lt_name := syntax.tr_name t; lt_from := syntax.tr_from t; lt_to := syntax.tr_to t;
  lt_policy := lower_policy_ref <$> syntax.tr_policy t; lt_audit := lower_audit_spec <$> syntax.tr_audit t;
  lt_timestamps := syntax.tr_timestamps t; lt_emits := syntax.tr_emits t;
  lt_requires := lower_policy_ref <$> syntax.tr_requires t;
  lt_tests := lower_test_block (syntax.tr_tests t) (syntax.tr_span t);
  lt_previous_names := syntax.tr_previously t; lt_span := Some (syntax.tr_span t) |}.

Definition lower_lifecycle (x : syntax.LifecycleBlockAst) (gen : string) : Lifecycle := {|
  lc_discriminator := syntax.discriminator_field x; generated_enum := gen;
  lc_states := List.map lower_state (syntax.states x);
  lc_transitions := List.map lower_transition (syntax.transitions x);
  lc_invariants := List.map (fun i => lower_invariant_form (syntax.inv_form i)) (syntax.invariants x);
  lc_handlers := List.map (fun h => lower_handler_ref h (syntax.lc_span x)) (syntax.invariant_handlers x);
  lc_span := Some (syntax.lc_span x) |}.

(** * Synthesis *)

Definition has_field (n : string) (fs : list Field) : bool := existsb (fun f => fd_name f =? n) fs.

Definition emit_discriminator_field (r : Resource) (x : syntax.LifecycleBlockAst) (gen : string) : Resource :=
  if has_field (syntax.discriminator_field x) (fields r) then r
  else {| r_name := r_name r; r_lifecycle := r_lifecycle r;
          fields := fields r ++ [{| fd_name := syntax.discriminator_field x;
            type_ref := EnumRef {| qn_feature := None; qn_name := gen |}; required := true;
            fd_span := Some (syntax.lc_span x) |}] |}%list.

Definition emit_timestamp_field (r : Resource) (t : syntax.LifecycleTransitionAst) : Resource :=
  match syntax.tr_timestamps t with
  | None => r
  | Some ts =>
    if has_field ts (fields r) then r
    else {| r_name := r_name r; r_lifecycle := r_lifecycle r;
            fields := fields r ++ [{| fd_name := ts; type_ref := Builtin DateTime; required := false;
                                      fd_span := Some (syntax.tr_span t) |}] |}%list
  end.
Definition emit_timestamp_fields (r : Resource) (x : syntax.LifecycleBlockAst) : Resource :=
  fold_left emit_timestamp_field (syntax.transitions x) r.

Section CaseMapping.
(** The Unicode case tables: [char::to_uppercase] of one encoded character, and
    [str::to_lowercase]. *)
Variable char_to_uppercase : string -> string.
Variable str_to_lowercase : string -> string.

Fixpoint pascal_chars (uppercase_next : bool) (cs : list string) : string :=
  match cs with
  | [] => ""
  | ch :: cs =>
    if (ch =? "_") || (ch =? "-") || (ch =? " ") then pascal_chars true cs
    else if uppercase_next then char_to_uppercase ch +:+ pascal_chars false cs
    else ch +:+ pascal_chars false cs
  end.
Definition pascal_case (value : string) : string := pascal_chars true (chars value).

Definition emit_lifecycle_enum (f : Feature) (x : syntax.LifecycleBlockAst) (gen : string) : Feature :=
  if existsb (fun d => en_name d =? gen) (enums f) then f
  else {| f_name := f_name f; f_uses := f_uses f; resources := resources f; commands := commands f;
          enums := enums f ++ [{| en_name := gen;
            variants := List.map (fun s => {| ev_name := pascal_case (syntax.st_name s);
              storage_value := Some (SString (syntax.st_name s)) |}) (syntax.states x);
            en_span := Some (syntax.lc_span x) |}] |}%list.

Definition lower_transition_command (resource_name : string) (x : syntax.LifecycleBlockAst)
    (t : syntax.LifecycleTransitionAst) (gen : string) : Command := {|
  c_name := syntax.tr_name t; c_kind := Update;
  c_route := [{| rt_name := "id"; rt_type := Builtin Id |}];
  c_target := Some {| tg_query := {| qn_feature := None; qn_name := str_to_lowercase resource_name +:+ "_by_id" |};
                      tg_args := [{| na_name := "id"; na_value := EPath {| segments := ["route"; "id"] |} |}] |};
  c_effect := Updates {| up_resource := {| qn_feature := None; qn_name := resource_name |};
    assignments := {| as_field := syntax.discriminator_field x;
                      as_value := EEnum {| type_name := Some {| qn_feature := None; qn_name := gen |};
                                           variant := pascal_case (syntax.tr_to t) |} |} ::
      match syntax.tr_timestamps t with
      | Some ts => [{| as_field := ts; as_value := EPath {| segments := ["ctx"; "now"] |} |}]
      | None => []
      end |};
  c_policy := match check.or_else (syntax.tr_policy t) (syntax.tr_requires t) with
              | Some raw => lower_policy_ref raw | None => RNone end;
  c_emits := syntax.tr_emits t; c_audit := lower_audit_spec <$> syntax.tr_audit t;
  c_tests := lower_test_block (syntax.tr_tests t) (syntax.tr_span t);
  c_triggers := []; c_previous_names := syntax.tr_previously t; c_span := Some (syntax.tr_span t);
  c_derived_from := Some (FromLifecycle resource_name (syntax.tr_name t)) |}.

Definition emit_lifecycle_commands (f : Feature) (resource_name : string) (x : syntax.LifecycleBlockAst) (gen : string)
    : Feature :=
  {| f_name := f_name f; f_uses := f_uses f; enums := enums f; resources := resources f;
     commands := commands f ++ List.map (fun t => lower_transition_command resource_name x t gen) (syntax.transitions x) |}%list.

Definition generated_enum_name (resource_name : string) (x : syntax.LifecycleBlockAst) : string :=
  pascal_case resource_name +:+ pascal_case (syntax.discriminator_field x).

(** The resource with its fields and its lifecycle. *)
Definition lower_resource (x : syntax.LifecycleBlockAst) (r : Resource) : Resource :=
  let gen := generated_enum_name (r_name r) x in
  let r := emit_timestamp_fields (emit_discriminator_field r x gen) x in
  {| r_name := r_name r; fields := fields r; r_lifecycle := Some (lower_lifecycle x gen) |}.

(** [position] of the first resource with a name. *)
Fixpoint position (n : string) (rs : list Resource) : option nat :=
  match rs with
  | [] => None
  | r :: rs => if r_name r =? n then Some 0 else S <$> position n rs
  end.

(** One resource declaration of [lower_lifecycles]. *)
Definition lower_decl (f : Feature) (rd : ResourceDecl) : Feature :=
  match rd_lifecycle rd with
  | None => f
  | Some x =>
    match position (rd_name rd) (resources f) with
    | None => f
    | Some i =>
      match resources f !! i with
      | None => f
      | Some r =>
        match r_lifecycle r with
        | Some _ => f
        | None =>
          let gen := generated_enum_name (r_name r) x in
          let f := emit_lifecycle_enum f x gen in
          let f := emit_lifecycle_commands f (r_name r) x gen in
          {| f_name := f_name f; f_uses := f_uses f; enums := enums f; commands := commands f;
             resources := alter (lower_resource x) i (resources f) |}
        end
      end
    end
  end.

Definition lower_lifecycles (f : Feature) (rds : list ResourceDecl) : Feature := fold_left lower_decl rds f.
End CaseMapping.

(** * Facts for the transition check *)

Definition transition_facts (t : LifecycleTransition) : check.TransitionFacts :=
  {| check.t_name := lt_name t; check.t_from := lt_from t; check.t_to := lt_to t |}.
Definition resource_facts (r : Resource) : check.ResourceFacts :=
  {| check.res_name := r_name r;
     check.lifecycle := (fun l => {| check.discriminator_field := lc_discriminator l;
                                     check.transitions := List.map transition_facts (lc_transitions l) |}) <$> r_lifecycle r |}.
(** The triggers are read back from the command's JSON form, where the slot holds
    the same strings. *)
Definition command_facts (feature : string) (c : Command) : check.CommandFacts :=
  {| check.cmd_feature := feature; check.cmd_name := c_name c; check.triggers := c_triggers c;
     check.effect := match c_effect c with
                     | Updates u => check.Updates (up_resource u) (List.map as_field (assignments u))
                     | OtherEffect _ => check.Other
                     end;
     check.cmd_span := c_span c |}.
Definition feature_facts (f : Feature) : check.FeatureFacts :=
  {| check.f_name := f_name f; check.uses := f_uses f; check.f_resources := List.map resource_facts (resources f);
     check.f_commands := List.map (command_facts (f_name f)) (commands f) |}.
Definition input_from_features (fs : list Feature) : check.CheckInput :=
  {| check.features := List.map feature_facts fs |}.

(** * Lemmas *)

(** ** Fields *)

Lemma has_field_In n fs : has_field n fs = true <-> In n (List.map fd_name fs).
Proof.
  unfold has_field. rewrite existsb_exists, in_map_iff. split.
  - intros (f & Hf & E%String.eqb_eq). eauto.
  - intros (f & E & Hf). exists f. split; [done|by apply String.eqb_eq].
Qed.

(** What the field emitters may do to a resource. *)
Record extends (r r' : Resource) : Prop := {
  ext_name : r_name r' = r_name r;
  ext_lifecycle : r_lifecycle r' = r_lifecycle r;
  ext_fields : exists new, fields r' = (fields r ++ new)%list;
  ext_nodup : List.NoDup (List.map fd_name (fields r)) -> List.NoDup (List.map fd_name (fields r'))
}.

Lemma extends_refl r : extends r r.
Proof. split; [done..|exists []; by rewrite app_nil_r|done]. Qed.

Lemma extends_trans r1 r2 r3 : extends r1 r2 -> extends r2 r3 -> extends r1 r3.
Proof.
  intros [N1 L1 [n1 F1] D1] [N2 L2 [n2 F2] D2]. split; [congruence..| |auto].
  exists (n1 ++ n2)%list. by rewrite F2, F1, app_assoc.
Qed.

(** Push a field unless one has its name. *)
Lemma extends_push r r' fd : r_name r' = r_name r -> r_lifecycle r' = r_lifecycle r ->
  has_field (fd_name fd) (fields r) = false -> fields r' = (fields r ++ [fd])%list -> extends r r'.
Proof.
  intros Hn Hl Hf E. split; [done..|by exists [fd]|]. rewrite E, map_app. intros Hd.
  apply (Permutation_NoDup (l := fd_name fd :: List.map fd_name (fields r))); [apply Permutation_cons_append|].
  constructor; [|done]. rewrite <- has_field_In. by rewrite Hf.
Qed.

Lemma extends_has r r' n : extends r r' -> has_field n (fields r) = true -> has_field n (fields r') = true.
Proof.
  intros [_ _ [new E] _]. rewrite !has_field_In, E, map_app, in_app_iff. tauto.
Qed.

Lemma has_field_snoc n fs f : fd_name f = n -> has_field n (fs ++ [f]) = true.
Proof. intros H. rewrite has_field_In, map_app, in_app_iff. right. by left. Qed.

Lemma emit_discriminator_extends r x gen : extends r (emit_discriminator_field r x gen) /\
  has_field (syntax.discriminator_field x) (fields (emit_discriminator_field r x gen)) = true.
Proof.
  unfold emit_discriminator_field. destruct (has_field _ (fields r)) eqn:E; [split; [apply extends_refl|done]|].
  split; [eapply extends_push; [reflexivity|reflexivity| |reflexivity]; done|]. by apply has_field_snoc.
Qed.

Lemma emit_timestamp_extends r t : extends r (emit_timestamp_field r t) /\
  forall ts, syntax.tr_timestamps t = Some ts -> has_field ts (fields (emit_timestamp_field r t)) = true.
Proof.
  unfold emit_timestamp_field. destruct (syntax.tr_timestamps t) as [ts|]; [|split; [apply extends_refl|done]].
  destruct (has_field ts (fields r)) eqn:E; (split; [|intros ? [= <-]]).
  - apply extends_refl.
  - done.
  - eapply extends_push; [reflexivity|reflexivity| |reflexivity]; done.
  - by apply has_field_snoc.
Qed.

Lemma emit_timestamps_extends r x : extends r (emit_timestamp_fields r x) /\
  forall t ts, In t (syntax.transitions x) -> syntax.tr_timestamps t = Some ts ->
    has_field ts (fields (emit_timestamp_fields r x)) = true.
Proof.
  unfold emit_timestamp_fields. generalize (syntax.transitions x) as l. intros l. revert r.
  induction l as [|t l IH]; intros r; cbn [fold_left]; [split; [apply extends_refl|done]|].
  destruct (emit_timestamp_extends r t) as [E1 H1], (IH (emit_timestamp_field r t)) as [E2 H2].
  split; [by eapply extends_trans|]. intros t' ts [<-|Hin] Hts; [|by eapply H2]. eapply extends_has; eauto.
Qed.

Section Lowering.
Variable upper : string -> string.
Variable lower : string -> string.
Local Abbreviation lower_decl := (lower_decl upper lower).
Local Abbreviation lower_lifecycles := (lower_lifecycles upper lower).
Local Abbreviation lower_resource := (lower_resource upper).
Local Abbreviation gen_name := (generated_enum_name upper).

(** ** Resources *)

Lemma lower_resource_spec x r :
  r_name (lower_resource x r) = r_name r /\
  r_lifecycle (lower_resource x r) = Some (lower_lifecycle x (gen_name (r_name r) x)) /\
  (exists new, fields (lower_resource x r) = (fields r ++ new)%list) /\
  (List.NoDup (List.map fd_name (fields r)) -> List.NoDup (List.map fd_name (fields (lower_resource x r)))) /\
  has_field (syntax.discriminator_field x) (fields (lower_resource x r)) = true /\
  forall t ts, In t (syntax.transitions x) -> syntax.tr_timestamps t = Some ts ->
    has_field ts (fields (lower_resource x r)) = true.
Proof.
  unfold lower_resource. cbn [r_name r_lifecycle fields].
  destruct (emit_discriminator_extends r x (gen_name (r_name r) x)) as [E1 H1].
  destruct (emit_timestamps_extends (emit_discriminator_field r x (gen_name (r_name r) x)) x) as [E2 H2].
  destruct (extends_trans _ _ _ E1 E2) as [Hn Hl Hf Hd].
  split; [done|]. split; [done|]. split; [done|]. split; [done|]. split; [by eapply extends_has|done].
Qed.

Lemma lower_resource_name x r : r_name (lower_resource x r) = r_name r.
Proof. apply lower_resource_spec. Qed.

Lemma position_Some n rs i : position n rs = Some i -> exists r, rs !! i = Some r /\ r_name r = n.
Proof.
  revert i. induction rs as [|r rs IH]; intros i; cbn; [done|]. destruct (String.eqb_spec (r_name r) n).
  - intros [= <-]. by exists r.
  - destruct (position n rs) as [j|]; [|done]. intros [= <-]. by apply IH.
Qed.

Lemma position_alter n rs i x : position n (alter (lower_resource x) i rs) = position n rs.
Proof.
  revert i. induction rs as [|r rs IH]; intros [|i]; [done|done|..]; cbn [alter list_alter position].
  - by rewrite lower_resource_name.
  - by rewrite (IH i).
Qed.

(** The pass has nothing left to do for a declaration. *)
Definition settled (f : Feature) (rd : ResourceDecl) : Prop :=
  rd_lifecycle rd = None \/ position (rd_name rd) (resources f) = None \/
  exists i r l, position (rd_name rd) (resources f) = Some i /\ resources f !! i = Some r /\ r_lifecycle r = Some l.

(** Either the feature is unchanged and the declaration was settled, or the
    resource at an index without a lifecycle is lowered. *)
Lemma lower_decl_cases f rd :
  (settled f rd /\ lower_decl f rd = f) \/
  exists x i r, rd_lifecycle rd = Some x /\ position (rd_name rd) (resources f) = Some i /\
    resources f !! i = Some r /\ r_name r = rd_name rd /\ r_lifecycle r = None /\
    resources (lower_decl f rd) = alter (lower_resource x) i (resources f) /\
    commands (lower_decl f rd) = (commands f ++
      List.map (fun t => lower_transition_command upper lower (r_name r) x t (gen_name (r_name r) x)) (syntax.transitions x))%list /\
    enums (lower_decl f rd) = enums (emit_lifecycle_enum upper f x (gen_name (r_name r) x)) /\
    f_name (lower_decl f rd) = f_name f /\ f_uses (lower_decl f rd) = f_uses f.
Proof.
  unfold LifecycleLowering.lower_decl, settled.
  destruct (rd_lifecycle rd) as [x|] eqn:Ex; [|left; by split; [left|]].
  destruct (position (rd_name rd) (resources f)) as [i|] eqn:Ei; [|left; by split; [right; left|]].
  destruct (position_Some _ _ _ Ei) as (r & Hr & Hn). rewrite Hr.
  destruct (r_lifecycle r) as [l|] eqn:El; [left; split; [right; right; eauto 10|done]|].
  right. exists x, i, r. repeat (split; [done|]). cbn.
  unfold emit_lifecycle_enum. destruct (existsb _ (enums f)); cbn; done.
Qed.

Lemma settled_lower f rd rd' : settled f rd -> settled (lower_decl f rd') rd.
Proof.
  intros H. destruct (lower_decl_cases f rd') as [[_ ->]|(x & j & s & _ & _ & Hs & _ & Hl & Hres & _)]; [done|].
  destruct H as [H|[H|(i & r & l & Hp & Hr & Hrl)]].
  - by left.
  - right; left. by rewrite Hres, position_alter.
  - right; right. exists i, r, l. rewrite Hres, position_alter. split; [done|]. split; [|done].
    destruct (decide (i = j)) as [->|Hne]; [|by rewrite list_lookup_alter_ne].
    rewrite Hs in Hr. injection Hr as ->. congruence.
Qed.

Lemma lower_decl_settles f rd : settled (lower_decl f rd) rd.
Proof.
  destruct (lower_decl_cases f rd) as [[H ->]|(x & i & r & _ & Hp & Hr & _ & _ & Hres & _)]; [done|].
  right; right. exists i, (lower_resource x r). eexists. rewrite Hres, position_alter. split; [done|].
  rewrite list_lookup_alter_eq, Hr. split; [done|]. apply (proj1 (proj2 (lower_resource_spec x r))).
Qed.

Lemma lower_lifecycles_settles f rds : Forall (settled (lower_lifecycles f rds)) rds.
Proof.
  revert f. induction rds as [|rd rds IH]; intros f; [constructor|]. cbn. constructor; [|apply IH].
  assert (H : settled (lower_decl f rd) rd) by apply lower_decl_settles. clear IH. revert H.
  generalize (lower_decl f rd) as g. induction rds as [|rd' rds IH]; intros g H; [done|]. cbn. apply IH. by apply settled_lower.
Qed.

Lemma settled_id f rds : Forall (settled f) rds -> lower_lifecycles f rds = f.
Proof.
  induction 1 as [|rd rds H _ IH]; [done|]. cbn. destruct (lower_decl_cases f rd) as [[_ ->]|(x & i & r & Hx & Hp & Hr & _ & Hl & _)]; [done|].
  exfalso. destruct H as [H|[H|(j & r' & l & Hp' & Hr' & Hl')]]; congruence.
Qed.

(** ** The consistency invariant *)

(** Each lowered lifecycle has what it needs around it: its enum, its fields,
    and an update command per transition that sets the discriminator to the
    target's variant and stamps the timestamp. *)
Definition transition_command (r : Resource) (l : Lifecycle) (t : LifecycleTransition) (c : Command) : Prop :=
  c_name c = lt_name t /\ c_kind c = Update /\ c_derived_from c = Some (FromLifecycle (r_name r) (lt_name t)) /\
  c_emits c = lt_emits t /\ c_audit c = lt_audit t /\ c_tests c = lt_tests t /\
  exists u, c_effect c = Updates u /\ up_resource u = {| qn_feature := None; qn_name := r_name r |} /\
    assignments u = {| as_field := lc_discriminator l;
                       as_value := EEnum {| type_name := Some {| qn_feature := None; qn_name := generated_enum l |};
                                            variant := pascal_case upper (lt_to t) |} |} ::
                    match lt_timestamps t with
                    | Some ts => [{| as_field := ts; as_value := EPath {| segments := ["ctx"; "now"] |} |}]
                    | None => []
                    end.

Definition resource_consistent (f : Feature) (r : Resource) : Prop := forall l, r_lifecycle r = Some l ->
  (exists d, In d (enums f) /\ en_name d = generated_enum l) /\
  has_field (lc_discriminator l) (fields r) = true /\
  forall t, In t (lc_transitions l) ->
    (forall ts, lt_timestamps t = Some ts -> has_field ts (fields r) = true) /\
    exists c, In c (commands f) /\ transition_command r l t c.

Definition consistent (f : Feature) : Prop := Forall (resource_consistent f) (resources f).

Lemma emit_enum_has f x gen : exists d, In d (enums (emit_lifecycle_enum upper f x gen)) /\ en_name d = gen.
Proof.
  unfold emit_lifecycle_enum. destruct (existsb _ (enums f)) eqn:E.
  - apply existsb_exists in E as (d & Hd & E%String.eqb_eq). eauto.
  - eexists. split; [apply in_app_iff; right; by left|done].
Qed.

Lemma emit_enum_prefix f x gen : exists new, enums (emit_lifecycle_enum upper f x gen) = (enums f ++ new)%list.
Proof. unfold emit_lifecycle_enum. destruct (existsb _ (enums f)); [exists []; by rewrite app_nil_r|by eexists]. Qed.

Lemma resource_consistent_mono f f' r : (forall d, In d (enums f) -> In d (enums f')) ->
  (forall c, In c (commands f) -> In c (commands f')) -> resource_consistent f r -> resource_consistent f' r.
Proof.
  intros He Hc H l Hl. destruct (H l Hl) as ((d & Hd & Hn) & Hf & Ht). split; [eauto|]. split; [done|].
  intros t Hin. destruct (Ht t Hin) as [H1 (c & H2 & H3)]. eauto.
Qed.

Lemma lower_decl_consistent f rd : consistent f -> consistent (lower_decl f rd).
Proof.
  intros H. destruct (lower_decl_cases f rd) as [[_ ->]|(x & i & r & _ & _ & Hr & _ & _ & Hres & Hcom & Hen & _)]; [done|].
  assert (Hmono : forall s, resource_consistent f s -> resource_consistent (lower_decl f rd) s).
  { intros s. apply resource_consistent_mono.
    - intros d Hd. rewrite Hen. destruct (emit_enum_prefix f x (gen_name (r_name r) x)) as [new ->]. apply in_app_iff. by left.
    - intros c Hc. rewrite Hcom. apply in_app_iff. by left. }
  unfold consistent. rewrite Hres. apply Forall_lookup. intros j s Hs.
  unfold consistent in H. rewrite Forall_lookup in H.
  destruct (decide (i = j)) as [<-|Hne]; [|rewrite list_lookup_alter_ne in Hs by done; by apply Hmono, (H j)].
  rewrite list_lookup_alter_eq, Hr in Hs. injection Hs as <-.
  destruct (lower_resource_spec x r) as (Hn & Hl & _ & _ & Hdf & Hts). intros l Hl'. rewrite Hl in Hl'. injection Hl' as <-.
  split; [rewrite Hen; apply emit_enum_has|]. split; [done|]. intros t Hin. cbn in Hin.
  apply in_map_iff in Hin as (ta & <- & Hta). split; [intros ts; cbn; by apply Hts|].
  exists (lower_transition_command upper lower (r_name r) x ta (gen_name (r_name r) x)). split.
  - rewrite Hcom. apply in_app_iff. right. by apply in_map_iff; exists ta.
  - unfold transition_command. rewrite Hn. cbn. repeat (split; [done|]). eexists. split; [done|]. split; done.
Qed.
End Lowering.

(** ** Case conversion *)

Definition ascii_byte (b : byte) : bool := (code b <? 128)%N.

Lemma chars_ascii s : str_all ascii_byte s = true -> chars s = List.map (fun b => String b "") (list_ascii_of_string s).
Proof.
  unfold chars. enough (H : str_all ascii_byte s = true ->
    chars_go s = ("", List.map (fun b => String b "") (list_ascii_of_string s))) by (intros Hs; by rewrite H).
  induction s as [|b s IH]; [done|]. cbn [str_all chars_go list_ascii_of_string List.map]. intros Hs. bool_prop.
  rewrite IH by done. assert (is_cont b = false) as -> by (revert H; by_bytes b). done.
Qed.

(** Names in snake case, segments of two or more characters. *)
Definition snake_name (s : string) : bool := forallb snake_segment (split_char "_" s).

Section Case_.
Variable upper : string -> string.
(** [to_uppercase] on ASCII. *)
Hypothesis upper_ascii : forall b, ascii_byte b = true -> upper (String b "") = String (to_ascii_uppercase b) "".

Definition snake_byte (b : byte) : bool := lower_digit b || (b =a? "_").

Lemma pascal_chars_snake u s : str_all snake_byte s = true ->
  pascal_chars upper u (List.map (fun b => String b "") (list_ascii_of_string s)) = snake_go u s.
Proof.
  revert u. induction s as [|b s IH]; intros u; [done|]. cbn [str_all list_ascii_of_string List.map pascal_chars snake_go].
  intros [Hb Hs]%andb_true_iff. assert (Ha : ascii_byte b = true) by (revert Hb; by_bytes b).
  assert (((String b "" =? "_") || (String b "" =? "-") || (String b "" =? " ")) = (b =a? "_")) as -> by (revert Hb; by_bytes b).
  destruct (b =a? "_"); [by apply IH|]. destruct u; rewrite IH by done; [|done].
  by rewrite upper_ascii.
Qed.

Lemma snake_name_bytes s : snake_name s = true -> str_all snake_byte s = true.
Proof.
  unfold snake_name. intros H. rewrite <- (split_char_join "_" s). revert H. generalize (split_char "_" s) as l.
  induction l as [|g l IH]; [done|]. cbn [forallb]. intros [Hg Hl]%andb_true_iff.
  assert (Hgb : str_all snake_byte g = true).
  { destruct g as [|a g]; [done|]. cbn in Hg. bool_prop. cbn [str_all]. apply andb_true_iff. split.
    - revert H. by_bytes a.
    - clear -H0. induction g as [|c g IHg]; [done|]. cbn in *. bool_prop. rewrite IHg by done. rewrite andb_true_r. revert H. by_bytes c. }
  destruct l as [|g' l]; [done|]. rewrite join_cons by done. rewrite !str_all_app, Hgb, IH by done. done.
Qed.

Lemma pascal_case_snake s : snake_name s = true -> pascal_case upper s = snake_to_pascal s.
Proof.
  intros H. unfold pascal_case, snake_to_pascal. pose proof (snake_name_bytes s H) as Hb.
  rewrite chars_ascii, pascal_chars_snake; [done|done|].
  clear -Hb. induction s as [|b s IH]; [done|]. cbn in *. bool_prop. rewrite IH by done. rewrite andb_true_r.
  revert H. by_bytes b.
Qed.

Lemma snake_name_back s : snake_name s = true -> pascal_to_snake (snake_to_pascal s) = s.
Proof.
  unfold snake_name. intros H. rewrite <- (split_char_join "_" s). apply snake_pascal_roundtrip; [apply split_char_ne|].
  apply List.Forall_forall. by apply forallb_forall.
Qed.

Lemma pascal_case_inj s t : snake_name s = true -> snake_name t = true -> pascal_case upper s = pascal_case upper t -> s = t.
Proof.
  intros Hs Ht E. rewrite !pascal_case_snake in E by done. apply (f_equal pascal_to_snake) in E.
  by rewrite !snake_name_back in E.
Qed.
End Case_.

(** * Properties *)

(** Lowering only adds: the feature keeps its enums, commands and resources, in
    order and as prefixes, each resource its fields; and field names stay
    distinct. *)
Theorem lower_lifecycles_extends upper lower f rds :
  let g := lower_lifecycles upper lower f rds in
  (exists new, enums g = (enums f ++ new)%list) /\ (exists new, commands g = (commands f ++ new)%list) /\
  Forall2 (fun r r' => r_name r' = r_name r /\ (exists new, fields r' = (fields r ++ new)%list) /\
    (List.NoDup (List.map fd_name (fields r)) -> List.NoDup (List.map fd_name (fields r')))) (resources f) (resources g).
Proof.
  cbn zeta. revert f. induction rds as [|rd rds IH]; intros f; cbn [lower_lifecycles fold_left].
  { split; [exists []; by rewrite app_nil_r|]. split; [exists []; by rewrite app_nil_r|].
    apply Forall2_same_length_lookup. split; [done|]. intros i x y Hx Hy. rewrite Hx in Hy. injection Hy as <-.
    split; [done|]. split; [exists []; by rewrite app_nil_r|done]. }
  destruct (IH (lower_decl upper lower f rd)) as ([e E] & [c C] & R). clear IH.
  destruct (lower_decl_cases upper lower f rd) as [[_ Hid]|(x & i & r & _ & _ & Hr & _ & _ & Hres & Hcom & Hen & _)].
  { unfold lower_lifecycles in *. rewrite Hid in *. eauto. }
  destruct (emit_enum_prefix upper f x (generated_enum_name upper (r_name r) x)) as [e' E'].
  split; [exists (e' ++ e)%list; by rewrite app_assoc, <- E', <- Hen|].
  split; [eexists; rewrite app_assoc, <- Hcom; exact C|].
  rewrite Hres in R. apply Forall2_same_length_lookup in R as [Hlen R]. apply Forall2_same_length_lookup.
  rewrite length_alter in Hlen. split; [done|]. intros j a b Ha Hb.
  destruct (decide (i = j)) as [<-|Hne].
  - assert (Hj : alter (lower_resource upper x) i (resources f) !! i = Some (lower_resource upper x a)) by
      (by rewrite list_lookup_alter_eq, Ha).
    destruct (R i _ b Hj Hb) as (H1 & [n2 H2] & H3). destruct (lower_resource_spec upper x a) as (L1 & _ & [n1 L2] & L3 & _).
    split; [congruence|]. split; [exists (n1 ++ n2)%list; by rewrite H2, L2, app_assoc|auto].
  - apply (R j); [|done]. by rewrite list_lookup_alter_ne.
Qed.

(** Every lowered lifecycle is completed: its enum, its discriminator and
    timestamp fields, and for each transition an update command that assigns the
    target's variant and stamps the timestamp. *)
Theorem lower_lifecycles_consistent upper lower f rds :
  consistent upper f -> consistent upper (lower_lifecycles upper lower f rds).
Proof.
  revert f. induction rds as [|rd rds IH]; intros f H; [done|]. cbn. by apply IH, lower_decl_consistent.
Qed.

(** Running the pass again changes nothing. *)
Theorem lower_lifecycles_idempotent upper lower f rds :
  lower_lifecycles upper lower (lower_lifecycles upper lower f rds) rds = lower_lifecycles upper lower f rds.
Proof. apply settled_id, lower_lifecycles_settles. Qed.

(** The states of a snake-case lifecycle get distinct variants in the enum
    synthesized for it. *)
Theorem lifecycle_enum_variants_distinct upper f x gen :
  (forall b, ascii_byte b = true -> upper (String b "") = String (to_ascii_uppercase b) "") ->
  Forall (fun d => en_name d <> gen) (enums f) ->
  Forall (fun s => snake_name (syntax.st_name s) = true) (syntax.states x) ->
  List.NoDup (List.map syntax.st_name (syntax.states x)) ->
  exists d, enums (emit_lifecycle_enum upper f x gen) = (enums f ++ [d])%list /\ en_name d = gen /\
    List.NoDup (List.map ev_name (variants d)) /\
    List.map storage_value (variants d) = List.map (fun s => Some (SString (syntax.st_name s))) (syntax.states x).
Proof.
  intros Hup Hf Hs Hn. unfold emit_lifecycle_enum.
  replace (existsb _ (enums f)) with false.
  2:{ symmetry. apply existsb_false. intros d Hd. apply String.eqb_neq. rewrite List.Forall_forall in Hf. auto. }
  eexists. split; [done|]. split; [done|]. cbn. rewrite !map_map. cbn. split; [|done].
  rewrite <- (map_map syntax.st_name (pascal_case upper)). rewrite List.Forall_forall in Hs.
  apply List.NoDup_map_NoDup_ForallPairs; [|done]. intros a b Ha Hb E.
  apply in_map_iff in Ha as (sa & <- & Ha). apply in_map_iff in Hb as (sb & <- & Hb).
  eapply pascal_case_inj; eauto.
Qed.

(** ** From source text to the transition check *)

Definition parsed (rd : ResourceDecl) : Prop := forall x, rd_lifecycle rd = Some x ->
  exists h ls r, syntax.parse_lifecycle_block h ls = Ok (x, r).

(** Every transition of a lowered lifecycle has a source state. *)
Definition sourced (f : Feature) : Prop := forall r l, In r (resources f) -> r_lifecycle r = Some l ->
  Forall (fun t => lt_from t <> []) (lc_transitions l).

Lemma lower_lifecycles_sourced upper lower f rds : Forall parsed rds -> sourced f -> sourced (lower_lifecycles upper lower f rds).
Proof.
  intros H. revert f. induction H as [|rd rds Hp _ IH]; intros f Hf; [done|]. cbn. apply IH.
  destruct (lower_decl_cases upper lower f rd) as [[_ ->]|(x & i & r & Hx & _ & Hr & _ & _ & Hres & _)]; [done|].
  intros s l Hs Hl. rewrite Hres in Hs. apply list_elem_of_In, list_elem_of_lookup in Hs as [j Hs].
  destruct (decide (i = j)) as [<-|Hne].
  - rewrite list_lookup_alter_eq, Hr in Hs. injection Hs as <-.
    destruct (lower_resource_spec upper x r) as (_ & Hl' & _). rewrite Hl' in Hl. injection Hl as <-.
    destruct (Hp x Hx) as (h & ls & rest & Hparse). apply syntax.parse_block_sound in Hparse as (_ & _ & _ & Ht & _).
    cbn. apply List.Forall_map. eapply List.Forall_impl; [|exact Ht]. intros t (_ & Hfrom & _). exact Hfrom.
  - rewrite list_lookup_alter_ne in Hs by done. apply (Hf s); [|done]. apply list_elem_of_In. by eapply list_elem_of_lookup_2.
Qed.

(** C8: From source to verdict: whatever lifecycle blocks the parser accepted, once
    they are lowered the transition check is exact on every [updates] command that
    has triggers and leaves the discriminator alone (an assignment to it, and the
    lack of triggers, have diagnostics of their own): it is silent if and only if
    the triggers can be run one after the other from some state. *)
Theorem source_transition_check_exact upper lower (fs : list (Feature * list ResourceDecl)) c res assigns r lc :
  Forall (fun p => Forall (fun r => r_lifecycle r = None) (resources p.1) /\ Forall parsed p.2) fs ->
  let input := input_from_features (List.map (fun p => lower_lifecycles upper lower p.1 p.2) fs) in
  check.effect c = check.Updates res assigns ->
  check.index_resource (check.index_new input) (check.cmd_feature c) res = Some (Some r) ->
  check.lifecycle r = Some lc -> check.triggers c <> [] -> check.assigns_lifecycle_field assigns (Some lc) = false ->
  exists ds, check.check_command c (check.index_new input) = Some ds /\
    (ds = [] <-> exists s s', check.runs (check.transition_map lc) (check.triggers c) s s').
Proof.
  intros Hfs input He Hr Hl Ht Ha. eapply check.check_command_runs; try eassumption.
  apply check.index_resource_In in Hr as (ff & Hff & Hin). cbn in Hff.
  rewrite map_map in Hff. apply in_map_iff in Hff as ([f rds] & <- & Hp). cbn in Hin.
  apply in_map_iff in Hin as (r0 & <- & Hr0). rewrite List.Forall_forall in Hfs. destruct (Hfs _ Hp) as [Hnone Hparsed].
  cbn in Hl. apply fmap_Some in Hl as (l & Hl & ->). cbn. apply List.Forall_map.
  cbn [fst snd] in *.
  assert (Hs : sourced (lower_lifecycles upper lower f rds)).
  { apply lower_lifecycles_sourced; [done|]. intros s l' Hs' Hl'. rewrite List.Forall_forall in Hnone.
    rewrite (Hnone s Hs') in Hl'. done. }
  exact (Hs r0 l Hr0 Hl).
Qed.

(** ** Concrete inputs *)

Definition ascii_upper (s : string) : string := match s with String b r => String (to_ascii_uppercase b) r | "" => "" end.
Fixpoint ascii_lower (s : string) : string :=
  match s with String b r => String (to_ascii_lowercase b) (ascii_lower r) | "" => "" end.

Definition post : Resource := {| r_name := "Post"; fields := []; r_lifecycle := None |}.
Definition blog : Feature := {| f_name := "blog"; f_uses := []; enums := []; resources := [post]; commands := [] |}.

Lemma lower_lifecycles_consistent_witness :
  consistent ascii_upper (lower_lifecycles ascii_upper ascii_lower blog
    [{| rd_name := "Post"; rd_lifecycle := Some syntax.sample_block |}]).
Proof.
  apply (lower_lifecycles_consistent ascii_upper ascii_lower blog
    [{| rd_name := "Post"; rd_lifecycle := Some syntax.sample_block |}]).
  apply List.Forall_cons; [discriminate|]. apply List.Forall_nil.
Defined.

Lemma lifecycle_enum_variants_distinct_witness :
  exists d, enums (emit_lifecycle_enum ascii_upper blog syntax.sample_block "PostStatus") = [d] /\
    List.NoDup (List.map ev_name (variants d)).
Proof.
  destruct (lifecycle_enum_variants_distinct ascii_upper blog syntax.sample_block "PostStatus") as (d & H1 & _ & H2 & _).
  - reflexivity.
  - apply List.Forall_nil.
  - repeat constructor.
  - constructor; [intros [H|[]]; discriminate H|]. constructor; [intros []|constructor].
  - exists d. split; [exact H1|exact H2].
Defined.

(** The block of [sample_block], read from its text. *)
Definition parsed_block : syntax.LifecycleBlockAst :=
  match syntax.parse_lifecycle_block (syntax.sample_line "lifecycle status") syntax.sample_lines with
  | Ok (x, _) => x
  | Err _ => syntax.sample_block
  end.
Definition blog_source : list (Feature * list ResourceDecl) :=
  [(blog, [{| rd_name := "Post"; rd_lifecycle := Some parsed_block |}])].
Definition blog_input : check.CheckInput :=
  input_from_features (List.map (fun p => lower_lifecycles ascii_upper ascii_lower p.1 p.2) blog_source).
Definition blog_command : check.CommandFacts := {| check.cmd_feature := "blog"; check.cmd_name := "go"; check.triggers := ["publish"];
  check.effect := check.Updates {| qn_feature := None; qn_name := "Post" |} ["title"]; check.cmd_span := None |}.
Definition blog_lifecycle : check.LifecycleFacts := {| check.discriminator_field := "status";
  check.transitions := [{| check.t_name := "publish"; check.t_from := ["draft"]; check.t_to := "published" |}] |}.

Lemma source_transition_check_exact_witness :
  exists ds, check.check_command blog_command (check.index_new blog_input) = Some ds /\
    (ds = [] <-> exists s s', check.runs (check.transition_map blog_lifecycle) ["publish"] s s').
Proof.
  apply (source_transition_check_exact ascii_upper ascii_lower blog_source blog_command
    {| qn_feature := None; qn_name := "Post" |} ["title"]
    {| check.res_name := "Post"; check.lifecycle := Some blog_lifecycle |} blog_lifecycle).
  - apply List.Forall_cons; [|apply List.Forall_nil]. split.
    + apply List.Forall_cons; [reflexivity|apply List.Forall_nil].
    + apply List.Forall_cons; [|apply List.Forall_nil]. intros x H.
      pose proof (Some_inj parsed_block x H) as Hx. rewrite <- Hx.
      let v := eval vm_compute in (syntax.parse_lifecycle_block (syntax.sample_line "lifecycle status") syntax.sample_lines) in
      match v with Ok (_, ?r) => exists (syntax.sample_line "lifecycle status"), syntax.sample_lines, r end.
      vm_compute. reflexivity.
  - reflexivity.
  - vm_compute. reflexivity.
  - reflexivity.
  - discriminate.
  - reflexivity.
Defined.
