(* ===== verification/Changelog.v ===== *)
(** The API changelog ([lazuli_changelog/src/lib.rs]): two IR snapshots are
    compared command by command and the differences are classified and
    rendered.

    Of the IR a command carries what the emitter reads: its name, kind, route
    slots, input and deprecation. *)
From S2P Require Import Prelude Str Fmt Lines BTree Ir.

(** * Data *)

(** [ir::CommandKind], [ir::TypedSlot] (name and requiredness), [ir::CommandInput] *)
Inductive OpKind := Create | Update | Delete | Returns | Reorder.
Record TypedSlot := { slot_name : string; slot_required : bool }.
Inductive CommandInput := Short (names : list string) | Typed (slots : list TypedSlot) | Empty.

Inductive DeprecationReplacement :=
| LocalCommand (name : string) | LocalApi (name : string)
| Qualified (q : QualifiedName) | QualifiedApi (q : QualifiedName) | Url (u : string).
Record Deprecation := { since : option string; replacement : option DeprecationReplacement; sunset : option string }.
Record Op := {
  op_cname : string; op_kind : OpKind; op_route : list string; op_input : CommandInput;
  op_deprecated : option Deprecation
}.
Record OpFeature := { of_name : string; of_commands : list Op }.
Record Module_ := { m_features : list OpFeature }.

Record OperationRef := { feature : string; kind : string; name : string; method : string; path : string }.
Record DeprecatedEntry := {
  d_op : OperationRef; d_since : option string; d_replacement : option string; d_sunset : option string
}.
Record BreakingChange := { bc_op : OperationRef; bc_reason : string }.
Record NonBreakingChange := { nb_op : OperationRef; nb_reason : string }.
Record ChangelogReport := {
  added : list OperationRef; removed : list OperationRef; deprecated : list DeprecatedEntry;
  breaking : list BreakingChange; non_breaking : list NonBreakingChange
}.

(** * Operations *)

Definition index_commands (m : Module_) : list ((string * string) * Op) :=
  bt_collect (flat_map (fun f => List.map (fun c => ((of_name f, op_cname c), c)) (of_commands f)) (m_features m)).

Definition method_of (k : OpKind) : string :=
  match k with
  | Create => "POST" | Update => "PATCH" | Delete => "DELETE" | Returns => "POST" | Reorder => "PATCH"
  end.

Definition operation_ref (feature : string) (cmd : Op) : OperationRef := {|
  feature := feature; kind := "command"; name := op_cname cmd; method := method_of (op_kind cmd);
  path := foldl (fun p slot => p +:+ "/{" +:+ slot +:+ "}") ("/api/" +:+ feature +:+ "/" +:+ op_cname cmd) (op_route cmd)
|}.

Definition or_default (o : option string) : string := match o with Some s => s | None => "" end.

Definition render_replacement (r : DeprecationReplacement) : string :=
  match r with
  | LocalCommand name => name
  | LocalApi name => "api." +:+ name
  | Qualified q => or_default (qn_feature q) +:+ ".command." +:+ qn_name q
  | QualifiedApi q => or_default (qn_feature q) +:+ ".api." +:+ qn_name q
  | Url u => u
  end.

Definition has_slot (n : string) (slots : list TypedSlot) : bool := existsb (fun s => slot_name s =? n) slots.

(** The first loop of [input_breaking_change]: a slot that is gone. *)
Fixpoint removed_slot (old new : list TypedSlot) : option string :=
  match old with
  | [] => None
  | s :: old =>
    if negb (has_slot (slot_name s) new) then Some ("removed input field `" +:+ slot_name s +:+ "`")
    else removed_slot old new
  end.

(** The second loop: a slot newly required. *)
Fixpoint newly_required (old new : list TypedSlot) : option string :=
  match new with
  | [] => None
  | s :: new =>
    if slot_required s && negb (has_slot (slot_name s) old) then
      Some ("added required input field `" +:+ slot_name s +:+ "`")
    else if slot_required s &&
            match List.find (fun o => slot_name o =? slot_name s) old with
            | Some o => negb (slot_required o)
            | None => false
            end then
      Some ("input field `" +:+ slot_name s +:+ "` changed from optional to required")
    else newly_required old new
  end.

Definition input_breaking_change (old new : CommandInput) : option string :=
  match old, new with
  | Typed old, Typed new =>
    match removed_slot old new with
    | Some reason => Some reason
    | None => newly_required old new
    end
  | _, _ => None
  end.

Fixpoint added_optional (old new : list TypedSlot) : option string :=
  match new with
  | [] => None
  | s :: new =>
    if negb (slot_required s) && negb (has_slot (slot_name s) old) then
      Some ("added optional input field `" +:+ slot_name s +:+ "`")
    else added_optional old new
  end.

Definition input_non_breaking_change (old new : CommandInput) : option string :=
  match old, new with Typed old, Typed new => added_optional old new | _, _ => None end.

Definition option_list {A} (o : option A) : list A := match o with Some x => [x] | None => [] end.

Definition deprecated_entry (feature : string) (old new : Op) : option DeprecatedEntry :=
  match op_deprecated old with
  | Some _ => None
  | None =>
    dep ← op_deprecated new;
    Some {| d_op := operation_ref feature new; d_since := since dep;
            d_replacement := render_replacement <$> replacement dep; d_sunset := sunset dep |}
  end.

(** [diff]: the entries of the new snapshot in key order, then those of the old. *)
Definition diff (old new : Module_) : ChangelogReport :=
  let old_cmds := index_commands old in
  let new_cmds := index_commands new in
  let both {A} (f : string -> Op -> Op -> option A) : list A :=
    flat_map (fun kv => match bt_get kv.1 old_cmds with
                        | Some o => option_list (f kv.1.1 o kv.2)
                        | None => []
                        end) new_cmds in
  {| added := flat_map (fun kv => match bt_get kv.1 old_cmds with
                                  | None => [operation_ref kv.1.1 kv.2]
                                  | Some _ => []
                                  end) new_cmds;
     removed := flat_map (fun kv => if negb (bt_contains kv.1 new_cmds) then [operation_ref kv.1.1 kv.2] else []) old_cmds;
     deprecated := both deprecated_entry;
     breaking := both (fun f o n => (fun reason => {| bc_op := operation_ref f n; bc_reason := reason |}) <$>
                                    input_breaking_change (op_input o) (op_input n));
     non_breaking := both (fun f o n => (fun reason => {| nb_op := operation_ref f n; nb_reason := reason |}) <$>
                                        input_non_breaking_change (op_input o) (op_input n)) |}.

(** * Rendering *)

Definition op_line (op : OperationRef) : string :=
  "- `" +:+ method op +:+ " " +:+ path op +:+ "` (" +:+ feature op +:+ ".command." +:+ name op +:+ ")".

Definition section_ {A} (title : string) (line : A -> string) (l : list A) : string :=
  match l with
  | [] => ""
  | _ => "## " +:+ title +:+ NL +:+ NL +:+ foldr (fun x s => line x +:+ NL +:+ s) "" l +:+ NL
  end.

Definition deprecated_suffix (e : DeprecatedEntry) : string :=
  let bits := (option_list ((fun s => "since " +:+ s) <$> d_since e) ++
               option_list ((fun r => "replacement " +:+ r) <$> d_replacement e) ++
               option_list ((fun s => "sunset " +:+ s) <$> d_sunset e))%list in
  match bits with [] => "" | _ => " (" +:+ join ", " bits +:+ ")" end.

Definition render_markdown (r : ChangelogReport) : string :=
  "# API Changelog" +:+ NL +:+ NL +:+
  section_ "Removed" op_line (removed r) +:+
  section_ "Added" op_line (added r) +:+
  section_ "Deprecated" (fun e => op_line (d_op e) +:+ deprecated_suffix e) (deprecated r) +:+
  section_ "Breaking" (fun c => op_line (bc_op c) +:+ " — " +:+ bc_reason c) (breaking r) +:+
  section_ "Non-breaking" (fun c => op_line (nb_op c) +:+ " — " +:+ nb_reason c) (non_breaking r).

(** * Lemmas *)

Lemma has_slot_In n slots : has_slot n slots = true <-> In n (List.map slot_name slots).
Proof.
  unfold has_slot. rewrite existsb_exists, in_map_iff. split.
  - intros (s & Hs & E%String.eqb_eq). eauto.
  - intros (s & E & Hs). exists s. split; [done|by apply String.eqb_eq].
Qed.

Lemma has_slot_false n slots : has_slot n slots = false <-> ~ In n (List.map slot_name slots).
Proof. rewrite <- has_slot_In. destruct (has_slot n slots); naive_solver. Qed.

Lemma removed_slot_None old new :
  removed_slot old new = None <-> forall s, In s old -> In (slot_name s) (List.map slot_name new).
Proof.
  induction old as [|s old IH]; [by split|]. cbn. destruct (has_slot (slot_name s) new) eqn:E; cbn.
  - rewrite IH. apply has_slot_In in E. split; [intros H x [<-|Hx]; auto|auto].
  - split; [done|]. intros H. apply has_slot_false in E. exfalso. apply E, H. by left.
Qed.

(** The slot found first is the slot, when names do not repeat. *)
Lemma find_slot slots s : List.NoDup (List.map slot_name slots) -> In s slots ->
  List.find (fun o => slot_name o =? slot_name s) slots = Some s.
Proof.
  induction slots as [|a l IH]; [done|]. cbn. inversion_clear 1 as [|? ? Ha Hl]. intros [->|Hin].
  - by rewrite String.eqb_refl.
  - destruct (String.eqb_spec (slot_name a) (slot_name s)) as [E|]; [|by apply IH].
    exfalso. apply Ha. rewrite E. by apply in_map.
Qed.

Lemma newly_required_None old new : List.NoDup (List.map slot_name old) ->
  newly_required old new = None <->
  forall s, In s new -> slot_required s = true -> exists o, In o old /\ slot_name o = slot_name s /\ slot_required o = true.
Proof.
  intros Hn. induction new as [|s new IH]; [by split|]. cbn.
  assert (Hs : slot_required s && negb (has_slot (slot_name s) old) = false /\
               slot_required s && match List.find (fun o => slot_name o =? slot_name s) old with
                                  | Some o => negb (slot_required o) | None => false end = false <->
               (slot_required s = true -> exists o, In o old /\ slot_name o = slot_name s /\ slot_required o = true)).
  { destruct (slot_required s); cbn; [|by split]. destruct (List.find _ old) as [o|] eqn:E.
    - pose proof E as [Ho En%String.eqb_eq]%find_some.
      assert (has_slot (slot_name s) old = true) as -> by (apply has_slot_In; rewrite <- En; by apply in_map).
      split.
      + intros [_ Hr] _. apply negb_false_iff in Hr. eauto.
      + intros H. split; [done|]. destruct (H eq_refl) as (o' & Ho' & En' & Hr').
        rewrite <- En', (find_slot old o' Hn Ho') in E. injection E as <-. by rewrite Hr'.
    - split.
      + intros [H _]. apply negb_false_iff, has_slot_In, in_map_iff in H as (o & En & Ho).
        rewrite <- En, (find_slot old o Hn Ho) in E. done.
      + intros H. destruct (H eq_refl) as (o & Ho & En & _). rewrite <- En, (find_slot old o Hn Ho) in E. done. }
  destruct (slot_required s && negb (has_slot (slot_name s) old)) eqn:E1.
  { split; [done|]. intros H. exfalso. destruct Hs as [_ Hs]. destruct Hs; [|done]. intros Hr. apply H; auto. }
  destruct (slot_required s && match List.find _ old with Some _ => _ | None => _ end) eqn:E2.
  { split; [done|]. intros H. exfalso. destruct Hs as [_ Hs]. destruct Hs; [|done]. intros Hr. apply H; auto. }
  rewrite IH. destruct Hs as [Hs _]. split; [intros H x [<-|Hx]; auto|auto].
Qed.

Lemma index_sorted m : bt_sorted (index_commands m).
Proof. apply bt_collect_sorted. Qed.

(** Entries of an index are keyed by their own name. *)
Lemma index_key m k c : bt_get k (index_commands m) = Some c -> op_cname c = k.2.
Proof.
  unfold index_commands. rewrite bt_collect_get. destruct (List.find _ _) as [[k' c']|] eqn:E; [|done]. intros [= ->].
  apply find_some in E as [Hin Hk]. apply keqb_eq in Hk. cbn in Hk. subst k'.
  apply in_rev, in_flat_map in Hin as (f & _ & Hin). apply in_map_iff in Hin as (c' & [= <- ->] & _). done.
Qed.

Lemma index_entry m k c : In (k, c) (index_commands m) <-> bt_get k (index_commands m) = Some c.
Proof. split; [apply bt_In_get, index_sorted|apply bt_get_In]. Qed.

Lemma flat_map_option {A B} (f : A -> option B) l y :
  In y (flat_map (fun x => option_list (f x)) l) <-> exists x, In x l /\ f x = Some y.
Proof.
  rewrite in_flat_map. split; intros (x & Hx & H); exists x; (split; [done|]).
  - destruct (f x); [|done]. by destruct H as [<-|[]].
  - rewrite H. by left.
Qed.

(** A command of the snapshot under a feature; the last declaration wins. *)
Definition declares (m : Module_) (feature_name : string) (c : Op) : Prop :=
  bt_get (feature_name, op_cname c) (index_commands m) = Some c.
Definition knows (m : Module_) (feature_name command : string) : Prop :=
  exists f, In f (m_features m) /\ of_name f = feature_name /\ In command (List.map op_cname (of_commands f)).

Lemma knows_index m f c : knows m f c <-> exists o, bt_get (f, c) (index_commands m) = Some o.
Proof.
  rewrite <- bt_keys_In. unfold index_commands. rewrite bt_collect_keys. unfold knows. split.
  - intros (F & HF & <- & Hc). apply in_map_iff in Hc as (o & <- & Ho).
    apply in_map_iff. exists ((of_name F, op_cname o), o). split; [done|].
    apply in_flat_map. exists F. split; [done|]. apply in_map_iff. by exists o.
  - intros ([k o] & Hk & (F & HF & Hin)%in_flat_map)%in_map_iff. apply in_map_iff in Hin as (o' & [= <- ->] & Ho).
    cbn in Hk. injection Hk as <- <-. exists F. split; [done|]. split; [done|]. by apply in_map.
Qed.

Lemma not_knows_index m f c : ~ knows m f c <-> bt_get (f, c) (index_commands m) = None.
Proof. rewrite knows_index. destruct (bt_get _ _); [|by split; [|intros _ [? ?]]]. split; [intros []; eauto|done]. Qed.

(** The index lists exactly the declared commands, keyed by feature and name. *)
Lemma index_declares m k c : In (k, c) (index_commands m) <-> declares m k.1 c /\ k.2 = op_cname c.
Proof.
  rewrite index_entry. unfold declares. destruct k as [f n]; cbn. split.
  - intros H. pose proof (index_key _ _ _ H) as E. cbn in E. by subst.
  - by intros [H ->].
Qed.

Lemma in_both {A} old new (f : string -> Op -> Op -> option A) x :
  In x (flat_map (fun kv => match bt_get kv.1 (index_commands old) with
                            | Some o => option_list (f kv.1.1 o kv.2)
                            | None => []
                            end) (index_commands new)) <->
  exists fe o n, declares old fe o /\ declares new fe n /\ op_cname o = op_cname n /\ f fe o n = Some x.
Proof.
  rewrite in_flat_map. split.
  - intros ([k n] & Hin & Hx). cbn in Hx. destruct (bt_get k (index_commands old)) as [o|] eqn:E; [|done].
    apply index_declares in Hin as [Hn Hk]. apply index_entry, index_declares in E as [Ho Hk'].
    destruct (f k.1 o n) as [y|] eqn:Ef; [|done]. destruct Hx as [->|[]]. exists k.1, o, n. split_and!; try done. congruence.
  - intros (fe & o & n & Ho & Hn & E & Ef). exists ((fe, op_cname n), n). split; [by apply index_declares|]. cbn.
    unfold declares in Ho. rewrite E in Ho. rewrite Ho, Ef. by left.
Qed.

(** What a report says under each heading, in terms of the two snapshots. *)
Lemma added_In old new r :
  In r (added (diff old new)) <-> exists f c, declares new f c /\ ~ knows old f (op_cname c) /\ r = operation_ref f c.
Proof.
  cbn. rewrite in_flat_map. split.
  - intros ([k c] & Hin%index_declares & Hr). destruct k as [f n], Hin as [Hd E]. cbn in *. subst n.
    destruct (bt_get _ _) eqn:E; [done|]. destruct Hr as [<-|[]]. exists f, c. split_and!; try done. by apply not_knows_index.
  - intros (f & c & Hd & Hk%not_knows_index & ->). exists ((f, op_cname c), c). split; [by apply index_declares|].
    cbn. rewrite Hk. by left.
Qed.

Lemma removed_In old new r :
  In r (removed (diff old new)) <-> exists f c, declares old f c /\ ~ knows new f (op_cname c) /\ r = operation_ref f c.
Proof.
  cbn. rewrite in_flat_map. unfold bt_contains. split.
  - intros ([k c] & Hin%index_declares & Hr). destruct k as [f n], Hin as [Hd E]. cbn in *. subst n.
    destruct (bt_get _ (index_commands new)) eqn:E; [done|]. destruct Hr as [<-|[]]. exists f, c. split_and!; try done. by apply not_knows_index.
  - intros (f & c & Hd & Hk%not_knows_index & ->). exists ((f, op_cname c), c). split; [by apply index_declares|].
    cbn. rewrite Hk. by left.
Qed.

Lemma deprecated_In old new e :
  In e (deprecated (diff old new)) <->
  exists f o n dep, declares old f o /\ declares new f n /\ op_cname o = op_cname n /\
    op_deprecated o = None /\ op_deprecated n = Some dep /\
    e = {| d_op := operation_ref f n; d_since := since dep;
           d_replacement := render_replacement <$> replacement dep; d_sunset := sunset dep |}.
Proof.
  cbn [deprecated diff]. rewrite in_both. unfold deprecated_entry. split.
  - intros (f & o & n & Ho & Hn & E & H). destruct (op_deprecated o) eqn:Eo; [done|].
    destruct (op_deprecated n) as [dep|] eqn:En; [|done]. injection H as <-. exists f, o, n, dep. by split_and!.
  - intros (f & o & n & dep & Ho & Hn & E & Eo & En & ->). exists f, o, n. rewrite Eo, En. by split_and!.
Qed.

(** A list built from at most one element per keyed entry keeps the keys distinct. *)
Lemma NoDup_flat_map_key {A B K} (g : A -> list B) (key : A -> K) (id : B -> K) l :
  List.NoDup (List.map key l) -> (forall x y, In y (g x) -> g x = [y]) ->
  (forall x y, In x l -> In y (g x) -> id y = key x) -> List.NoDup (List.map id (flat_map g l)).
Proof.
  intros Hn Hone Hid. induction l as [|x l IH]; [constructor|]. cbn in *. inversion_clear Hn as [|? ? Hx Hl].
  destruct (g x) as [|y ys] eqn:E; cbn; [apply IH; auto|].
  assert (ys = []) as -> by (specialize (Hone x y); rewrite E in Hone; specialize (Hone (or_introl eq_refl)); by injection Hone).
  cbn. constructor; [|apply IH; auto]. rewrite (Hid x y) by (auto; rewrite E; by left).
  intros (y' & Ey & (x' & Hx' & Hy')%in_flat_map)%in_map_iff. apply Hx. rewrite <- Ey, (Hid x' y') by auto. by apply in_map.
Qed.

Lemma index_NoDup m : List.NoDup (List.map fst (index_commands m)).
Proof. apply NoDup_ListNoDup, (bt_sorted_NoDup (index_commands m)), index_sorted. Qed.

Definition identity (r : OperationRef) : string * string := (feature r, name r).

Lemma operation_ref_identity f c : identity (operation_ref f c) = (f, op_cname c).
Proof. done. Qed.

Lemma index_identity m kv : In kv (index_commands m) -> identity (operation_ref kv.1.1 kv.2) = kv.1.
Proof. destruct kv as [[f n] c]. intros [_ E]%index_declares. cbn in *. by rewrite operation_ref_identity, E. Qed.

Lemma knows_of_declares m f c : declares m f c -> knows m f (op_cname c).
Proof. intros H. apply knows_index. eauto. Qed.

Lemma added_NoDup old new : List.NoDup (List.map identity (added (diff old new))).
Proof.
  apply (NoDup_flat_map_key _ fst); [apply index_NoDup| |]; intros x y.
  - destruct (bt_get _ _); [done|]. by intros [<-|[]].
  - intros Hx. destruct (bt_get _ _); [done|]. intros [<-|[]]. by apply (index_identity new).
Qed.

Lemma removed_NoDup old new : List.NoDup (List.map identity (removed (diff old new))).
Proof.
  apply (NoDup_flat_map_key _ fst); [apply index_NoDup| |]; intros x y.
  - destruct (negb _); [|done]. by intros [<-|[]].
  - intros Hx. destruct (negb _); [|done]. intros [<-|[]]. by apply (index_identity old).
Qed.

Lemma deprecated_NoDup old new : List.NoDup (List.map (fun e => identity (d_op e)) (deprecated (diff old new))).
Proof.
  apply (NoDup_flat_map_key _ fst); [apply index_NoDup| |]; intros x y.
  - destruct (bt_get _ _) as [o|]; [|done]. destruct (deprecated_entry _ _ _); [|done]. by intros [<-|[]].
  - intros Hx. destruct (bt_get _ _) as [o|]; [|done]. unfold deprecated_entry. destruct (op_deprecated o); [done|].
    destruct (op_deprecated x.2); [|done]. intros [<-|[]]. by apply (index_identity new).
Qed.

(** The report's [added], [removed] and [deprecated] are exactly the commands
    only the new snapshot has, those only the old one has, and those of both
    whose deprecation is new, each entry with its operation's reference and
    metadata; no operation occurs twice in the three together. *)
Theorem diff_exact old new :
  (forall r, In r (added (diff old new)) <->
    exists f c, declares new f c /\ ~ knows old f (op_cname c) /\ r = operation_ref f c) /\
  (forall r, In r (removed (diff old new)) <->
    exists f c, declares old f c /\ ~ knows new f (op_cname c) /\ r = operation_ref f c) /\
  (forall e, In e (deprecated (diff old new)) <->
    exists f o n dep, declares old f o /\ declares new f n /\ op_cname o = op_cname n /\
      op_deprecated o = None /\ op_deprecated n = Some dep /\
      e = {| d_op := operation_ref f n; d_since := since dep;
             d_replacement := render_replacement <$> replacement dep; d_sunset := sunset dep |}) /\
  List.NoDup (List.map identity (added (diff old new)) ++ List.map identity (removed (diff old new)) ++
              List.map (fun e => identity (d_op e)) (deprecated (diff old new))).
Proof.
  split_and!; [apply added_In|apply removed_In|apply deprecated_In|].
  apply NoDup_ListNoDup, NoDup_app. rewrite NoDup_app, !NoDup_ListNoDup.
  split_and!; [apply added_NoDup| |apply removed_NoDup| |apply deprecated_NoDup].
  - intros k (r & <- & (f & c & Hc & Hk & ->)%added_In)%list_elem_of_In%in_map_iff.
    rewrite list_elem_of_In, in_app_iff, !in_map_iff, operation_ref_identity.
    intros [(r & E & (f' & c' & Hc' & _ & ->)%removed_In)|(e & E & (f' & o & n & dep & Ho & _ & En & _ & _ & ->)%deprecated_In)];
      cbn in E; injection E as <- E; apply Hk; rewrite <- E; [|rewrite <- En]; by apply knows_of_declares.
  - intros k (r & <- & (f & c & Hc & Hk & ->)%removed_In)%list_elem_of_In%in_map_iff.
    rewrite list_elem_of_In, in_map_iff, operation_ref_identity.
    intros (e & E & (f' & o & n & dep & _ & Hn & _ & _ & _ & ->)%deprecated_In).
    cbn in E. injection E as <- E. apply Hk. rewrite <- E. by apply knows_of_declares.
Qed.

(** * Payload compatibility *)

(** The payloads a typed input takes, by the names of the fields they carry:
    every required slot is there and nothing is unknown. *)
Definition accepts (slots : list TypedSlot) (payload : list string) : Prop :=
  (forall s, In s slots -> slot_required s = true -> In (slot_name s) payload) /\
  (forall n, In n payload -> In n (List.map slot_name slots)).
Definition distinct_slots (slots : list TypedSlot) : Prop := List.NoDup (List.map slot_name slots).
Definition required_names (slots : list TypedSlot) : list string := List.map slot_name (List.filter slot_required slots).

Lemma required_names_In slots n :
  In n (required_names slots) <-> exists s, In s slots /\ slot_required s = true /\ slot_name s = n.
Proof. unfold required_names. rewrite in_map_iff. setoid_rewrite filter_In. naive_solver. Qed.

(** The payloads the two inputs of a breaking change tell apart: all the old
    fields, or only the required ones. *)
Lemma input_breaking_change_None old new : distinct_slots old ->
  input_breaking_change (Typed old) (Typed new) = None <->
  accepts new (List.map slot_name old) /\ accepts new (required_names old).
Proof.
  intros Hn. cbn. assert (Hr : removed_slot old new = None <-> forall n, In n (List.map slot_name old) -> In n (List.map slot_name new)).
  { rewrite removed_slot_None. setoid_rewrite in_map_iff at 2. naive_solver. }
  assert (Hq : newly_required old new = None <-> forall s, In s new -> slot_required s = true -> In (slot_name s) (required_names old)).
  { rewrite newly_required_None by done. setoid_rewrite required_names_In. split; intros H s Hs Hreq;
      destruct (H s Hs Hreq) as (o & H1 & H2 & H3); exists o; by split_and!. }
  assert (Hsub : forall n, In n (required_names old) -> In n (List.map slot_name old)).
  { intros n (s & Hs & _ & <-)%required_names_In. by apply in_map. }
  unfold accepts. destruct (removed_slot old new) eqn:E.
  - split; [done|]. intros [[_ H] _]. destruct Hr as [_ Hr]. by specialize (Hr H).
  - rewrite Hq. destruct Hr as [Hr _]. specialize (Hr eq_refl). split.
    + intros H. split_and!; auto.
    + intros (_ & H & _). auto.
Qed.

Lemma accepts_old slots : accepts slots (List.map slot_name slots) /\ accepts slots (required_names slots).
Proof.
  split; (split; [intros s Hs Hr|intros n]); try done.
  - by apply in_map.
  - apply required_names_In. by exists s.
  - intros (s & Hs & _ & <-)%required_names_In. by apply in_map.
Qed.

Lemma accepts_mono old new payload : accepts new (List.map slot_name old) -> accepts new (required_names old) ->
  accepts old payload -> accepts new payload.
Proof.
  intros [_ Hall] [Hreq _] [Hr Hk]. split; [|auto]. intros s Hs H.
  destruct (proj1 (required_names_In _ _) (Hreq s Hs H)) as (o & Ho & Hro & <-). auto.
Qed.

Definition acceptsb (slots : list TypedSlot) (payload : list string) : bool :=
  forallb (fun s => implb (slot_required s) (existsb (String.eqb (slot_name s)) payload)) slots &&
  forallb (fun n => existsb (String.eqb n) (List.map slot_name slots)) payload.

Lemma acceptsb_spec slots payload : reflect (accepts slots payload) (acceptsb slots payload).
Proof.
  apply iff_reflect. unfold acceptsb, accepts. rewrite andb_true_iff, !forallb_forall.
  assert (Hm : forall n l, existsb (String.eqb n) l = true <-> In n l).
  { intros n l. rewrite existsb_exists. split; [intros (x & Hx & ->%String.eqb_eq)|exists n; rewrite String.eqb_refl]; done. }
  split; intros [H1 H2]; (split; [intros s Hs|intros n Hp; by apply Hm, H2]).
  - destruct (slot_required s) eqn:E; [|done]. apply Hm. auto.
  - intros Hr. specialize (H1 s Hs). rewrite Hr in H1. by apply Hm.
Qed.

(** A reason is given exactly when some payload of the old input is refused
    by the new one. *)
Lemma input_breaking_exact old new : distinct_slots old ->
  (exists reason, input_breaking_change (Typed old) (Typed new) = Some reason) <->
  (exists payload, accepts old payload /\ ~ accepts new payload).
Proof.
  intros Hn. pose proof (input_breaking_change_None old new Hn) as H. destruct (accepts_old old) as [Ha Hr]. split.
  - intros [reason E]. rewrite E in H.
    destruct (acceptsb_spec new (List.map slot_name old)) as [Ha'|]; [|by eauto].
    destruct (acceptsb_spec new (required_names old)) as [Hr'|]; [|by eauto]. exfalso. destruct H as [_ H]. by specialize (H (conj Ha' Hr')).
  - intros (p & Hp & Hq). destruct (input_breaking_change _ _) eqn:E; [by eexists|].
    exfalso. apply Hq. destruct (proj1 H eq_refl) as [H1 H2]. exact (accepts_mono old new p H1 H2 Hp).
Qed.

Lemma breaking_In old new b :
  In b (breaking (diff old new)) <->
  exists f o n, declares old f o /\ declares new f n /\ op_cname o = op_cname n /\
    bc_op b = operation_ref f n /\ input_breaking_change (op_input o) (op_input n) = Some (bc_reason b).
Proof.
  etransitivity; [apply (in_both old new (fun f o n => (fun reason => {| bc_op := operation_ref f n; bc_reason := reason |}) <$>
    input_breaking_change (op_input o) (op_input n)))|]. split.
  - intros (f & o & n & Ho & Hn & E & H). destruct (input_breaking_change _ _) eqn:Ei; [|done]. injection H as <-.
    exists f, o, n. by split_and!.
  - intros (f & o & n & Ho & Hn & E & Hb & H). exists f, o, n. rewrite H. split_and!; try done. cbn. by destruct b; cbn in *; subst.
Qed.

Lemma non_breaking_In old new b :
  In b (non_breaking (diff old new)) <->
  exists f o n, declares old f o /\ declares new f n /\ op_cname o = op_cname n /\
    nb_op b = operation_ref f n /\ input_non_breaking_change (op_input o) (op_input n) = Some (nb_reason b).
Proof.
  etransitivity; [apply (in_both old new (fun f o n => (fun reason => {| nb_op := operation_ref f n; nb_reason := reason |}) <$>
    input_non_breaking_change (op_input o) (op_input n)))|]. split.
  - intros (f & o & n & Ho & Hn & E & H). destruct (input_non_breaking_change _ _) eqn:Ei; [|done]. injection H as <-.
    exists f, o, n. by split_and!.
  - intros (f & o & n & Ho & Hn & E & Hb & H). exists f, o, n. rewrite H. split_and!; try done. cbn. by destruct b; cbn in *; subst.
Qed.

(** For a command of both snapshots with typed inputs whose slot names do not
    repeat, the report has a breaking entry for it if and only if some payload
    the old input accepts is refused by the new one. *)
Theorem breaking_exact old new f o n os ns :
  declares old f o -> declares new f n -> op_cname o = op_cname n ->
  op_input o = Typed os -> op_input n = Typed ns -> distinct_slots os ->
  (exists b, In b (breaking (diff old new)) /\ identity (bc_op b) = (f, op_cname n)) <->
  (exists payload, accepts os payload /\ ~ accepts ns payload).
Proof.
  intros Ho Hn E Io In_ Hd. rewrite <- input_breaking_exact by done. split.
  - intros (b & (f' & o' & n' & Ho' & Hn' & E' & Hb & Hr)%breaking_In & Hid).
    rewrite Hb, operation_ref_identity in Hid. injection Hid as -> Hid. unfold declares in *.
    rewrite E' in Ho'. rewrite Hid in *. rewrite Hn in Hn'. injection Hn' as <-. rewrite E, Ho' in Ho. injection Ho as ->.
    rewrite Io, In_ in Hr. by eexists.
  - intros [reason Hr]. exists {| bc_op := operation_ref f n; bc_reason := reason |}. split; [|done].
    apply breaking_In. exists f, o, n. rewrite Io, In_. by split_and!.
Qed.

Lemma added_optional_None old new :
  added_optional old new = None <-> forall s, In s new -> slot_required s = false -> In (slot_name s) (List.map slot_name old).
Proof.
  induction new as [|s new IH]; [by split|]. cbn. destruct (slot_required s) eqn:Er; cbn.
  - rewrite IH. split; [intros H x [<-|Hx] Hr; [congruence|auto]|auto].
  - destruct (has_slot (slot_name s) old) eqn:E; cbn.
    + rewrite IH. apply has_slot_In in E. split; [intros H x [<-|Hx]; auto|auto].
    + split; [done|]. intros H. apply has_slot_false in E. exfalso. apply E, H; [by left|done].
Qed.

(** Neither classifier has anything to say: the same fields, and every payload
    of the old input still accepted. *)
Lemma input_silent old new : distinct_slots old ->
  input_breaking_change (Typed old) (Typed new) = None /\ input_non_breaking_change (Typed old) (Typed new) = None <->
  (forall x, In x (List.map slot_name old) <-> In x (List.map slot_name new)) /\
  (forall payload, accepts old payload -> accepts new payload).
Proof.
  intros Hd. rewrite input_breaking_change_None by done. cbn. rewrite added_optional_None.
  destruct (accepts_old old) as [Ha Hr]. split.
  - intros [[H1 H2] H3]. split; [|intros p; by apply accepts_mono]. intros x. split; [apply H1|].
    intros (s & <- & Hs)%in_map_iff. destruct (slot_required s) eqn:E; [|auto].
    destruct H2 as [H2 _]. specialize (H2 s Hs E). apply required_names_In in H2 as (o & Ho & _ & <-). by apply in_map.
  - intros [H1 H2]. split_and!; [by apply H2|by apply H2|]. intros s Hs _. apply H1. by apply in_map.
Qed.

Lemma list_empty_In {A} (l : list A) : l = [] <-> forall x, ~ In x l.
Proof. destruct l; split; [intros _ x []|done|done|]. intros H. exfalso. by apply (H a); left. Qed.

Lemma section_empty {A} title line (l : list A) : String.length (section_ title line l) = 0 <-> l = [].
Proof. destruct l; [done|]. split; [|done]. cbn [section_]. rewrite len_app. cbn. lia. Qed.

Definition title_only : string := "# API Changelog" +:+ NL +:+ NL.

Lemma render_title r : render_markdown r = title_only <->
  removed r = [] /\ added r = [] /\ deprecated r = [] /\ breaking r = [] /\ non_breaking r = [].
Proof.
  rewrite <- (section_empty "Removed" op_line), <- (section_empty "Added" op_line),
    <- (section_empty "Deprecated" (fun e => op_line (d_op e) +:+ deprecated_suffix e)),
    <- (section_empty "Breaking" (fun c => op_line (bc_op c) +:+ " — " +:+ bc_reason c)),
    <- (section_empty "Non-breaking" (fun c => op_line (nb_op c) +:+ " — " +:+ nb_reason c)).
  unfold render_markdown, title_only. split.
  - intros H%(f_equal String.length). rewrite !len_app in H. lia.
  - assert (Hz : forall s, String.length s = 0 -> s = "") by (by intros []).
    intros (->%Hz & ->%Hz & ->%Hz & ->%Hz & ->%Hz). done.
Qed.

Lemma missing_none m1 m2 :
  (forall f c, declares m1 f c -> ~ knows m2 f (op_cname c) -> False) <-> (forall f n, knows m1 f n -> knows m2 f n).
Proof.
  split.
  - intros H f n [c Hc]%knows_index. destruct (bt_get (f, n) (index_commands m2)) eqn:E; [apply knows_index; eauto|].
    pose proof (index_key _ _ _ Hc) as En. cbn in En. exfalso. apply (H f c); [|rewrite En; by apply not_knows_index].
    unfold declares. by rewrite En.
  - intros H f c Hc Hk. apply Hk, H, knows_of_declares, Hc.
Qed.

Definition slots_distinct (m : Module_) : Prop :=
  forall f c slots, declares m f c -> op_input c = Typed slots -> distinct_slots slots.

(** The report of two snapshots renders to the bare title if and only if they
    have the same commands, none newly deprecated, and every command with typed
    inputs in both keeps its fields and every payload it accepted. The kind, the
    route and a change between typed and other inputs do not count. *)
Theorem render_title_exact old new : slots_distinct old ->
  render_markdown (diff old new) = title_only <->
  (forall f c, knows old f c <-> knows new f c) /\
  (forall f o n, declares old f o -> declares new f n -> op_cname o = op_cname n ->
    (op_deprecated o = None -> op_deprecated n = None) /\
    (forall os ns, op_input o = Typed os -> op_input n = Typed ns ->
      (forall x, In x (List.map slot_name os) <-> In x (List.map slot_name ns)) /\
      (forall payload, accepts os payload -> accepts ns payload))).
Proof.
  intros Hd. rewrite render_title, !list_empty_In. split.
  - intros (Hrem & Hadd & Hdep & Hb & Hn). split.
    + intros f c. split; apply missing_none; intros f' c' Hc Hk; [eapply Hrem, removed_In|eapply Hadd, added_In];
        by exists f', c'.
    + intros f o n Ho Hn' E. split.
      * intros Eo. destruct (op_deprecated n) as [dep|] eqn:En; [|done]. exfalso. eapply Hdep, deprecated_In.
        exists f, o, n, dep. by split_and!.
      * intros os ns Eo En. apply input_silent; [by eapply Hd|]. split.
        -- destruct (input_breaking_change (Typed os) (Typed ns)) as [r|] eqn:Er; [|done]. exfalso.
           apply (Hb {| bc_op := operation_ref f n; bc_reason := r |}), breaking_In. exists f, o, n. rewrite Eo, En. by split_and!.
        -- destruct (input_non_breaking_change (Typed os) (Typed ns)) as [r|] eqn:Er; [|done]. exfalso.
           apply (Hn {| nb_op := operation_ref f n; nb_reason := r |}), non_breaking_In. exists f, o, n. rewrite Eo, En. by split_and!.
  - intros [Hk Hc]. split_and!; intros x.
    + intros (f & c & H1 & H2 & _)%removed_In. by apply H2, Hk, knows_of_declares.
    + intros (f & c & H1 & H2 & _)%added_In. by apply H2, Hk, knows_of_declares.
    + intros (f & o & n & dep & Ho & Hn & E & Eo & En & _)%deprecated_In. destruct (Hc f o n Ho Hn E) as [H _]. rewrite (H Eo) in En. done.
    + intros (f & o & n & Ho & Hn & E & _ & Hr)%breaking_In. destruct (op_input o) as [|os|] eqn:Eo, (op_input n) as [|ns|] eqn:En; try done.
      destruct (Hc f o n Ho Hn E) as [_ H]. specialize (H os ns Eo En). apply input_silent in H as [H _]; [|by eapply Hd]. congruence.
    + intros (f & o & n & Ho & Hn & E & _ & Hr)%non_breaking_In. destruct (op_input o) as [|os|] eqn:Eo, (op_input n) as [|ns|] eqn:En; try done.
      destruct (Hc f o n Ho Hn E) as [_ H]. specialize (H os ns Eo En). apply input_silent in H as [_ H]; [|by eapply Hd]. congruence.
Qed.

(** * Witnesses *)

Definition reassign (kind : OpKind) (route : list string) (input : CommandInput) : Module_ := {|
  m_features := [{| of_name := "billing"; of_commands :=
    [{| op_cname := "reassign"; op_kind := kind; op_route := route; op_input := input; op_deprecated := None |}] |}] |}.
Definition amount : TypedSlot := {| slot_name := "amount"; slot_required := true |}.
Definition note : TypedSlot := {| slot_name := "note"; slot_required := false |}.
Definition op_of (m : Module_) : Op :=
  hd {| op_cname := ""; op_kind := Create; op_route := []; op_input := Empty; op_deprecated := None |}
     (flat_map of_commands (m_features m)).

Lemma breaking_exact_witness :
  let old := reassign Update ["id"] (Typed [amount; note]) in
  let new := reassign Update ["id"] (Typed [amount]) in
  (exists b, In b (breaking (diff old new)) /\ identity (bc_op b) = ("billing", "reassign")) <->
  (exists payload, accepts [amount; note] payload /\ ~ accepts [amount] payload).
Proof.
  apply (breaking_exact (reassign Update ["id"] (Typed [amount; note])) (reassign Update ["id"] (Typed [amount])) "billing"
    (op_of (reassign Update ["id"] (Typed [amount; note]))) (op_of (reassign Update ["id"] (Typed [amount])))); try reflexivity.
  repeat constructor; cbn; intuition discriminate.
Defined.

Lemma reassign_distinct k r slots : distinct_slots slots -> slots_distinct (reassign k r (Typed slots)).
Proof.
  intros H f c s Hc%bt_get_In. destruct Hc as [E|[]]. injection E as _ _ <-. cbn. by intros [= <-].
Qed.

(** The method, the path and the loss of every input field go unreported: a
    command that turns from [PATCH /api/billing/reassign/{id}] with a required
    field into [DELETE /api/billing/reassign] without input renders as unchanged. *)
Lemma contract_change_unreported :
  let old := reassign Update ["id"] (Typed [amount]) in
  let new := reassign Delete [] Empty in
  render_markdown (diff old new) = title_only /\
  method (operation_ref "billing" (op_of old)) = "PATCH" /\ path (operation_ref "billing" (op_of old)) = "/api/billing/reassign/{id}" /\
  method (operation_ref "billing" (op_of new)) = "DELETE" /\ path (operation_ref "billing" (op_of new)) = "/api/billing/reassign".
Proof. by vm_compute. Qed.

Lemma render_title_exact_witness :
  let m := reassign Update ["id"] (Typed [amount; note]) in
  slots_distinct m /\
  (render_markdown (diff m m) = title_only <->
   (forall f c, knows m f c <-> knows m f c) /\
   (forall f o n, declares m f o -> declares m f n -> op_cname o = op_cname n ->
     (op_deprecated o = None -> op_deprecated n = None) /\
     (forall os ns, op_input o = Typed os -> op_input n = Typed ns ->
       (forall x, In x (List.map slot_name os) <-> In x (List.map slot_name ns)) /\
       (forall payload, accepts os payload -> accepts ns payload)))).
Proof.
  assert (H : slots_distinct (reassign Update ["id"] (Typed [amount; note]))).
  { apply reassign_distinct. repeat constructor; cbn; intuition discriminate. }
  split; [exact H|]. exact (render_title_exact (reassign Update ["id"] (Typed [amount; note])) (reassign Update ["id"] (Typed [amount; note])) H).
Defined.
