(* ===== verification/Waiver.v ===== *)
(** Doctor waivers: the [@doctor.allow(...)] line and the legacy
    [# doctor:allow] comment ([lazuli_syntax/src/parser/lzi/doctor_allow.rs],
    with the call helpers of [parser/lzi/helpers.rs]) and the scan every doctor
    rule consults ([lazuli_doctor/src/allow_comment.rs]). *)
From S2P Require Import Prelude Str Fmt Lex.

(** * Text helpers *)

(** [s.to_ascii_lowercase()] and [a.eq_ignore_ascii_case(b)] *)
Fixpoint str_lower (s : string) : string :=
  match s with "" => "" | String b r => String (to_ascii_lowercase b) (str_lower r) end.
Definition eq_ignore_ascii_case (a b : string) : bool := str_lower a =? str_lower b.

(** [s.rfind(c)] *)
Fixpoint rfind_byte (c : byte) (s : string) : option nat :=
  match s with
  | "" => None
  | String b r =>
    match rfind_byte c r with
    | Some i => Some (S i)
    | None => if b =a? c then Some 0 else None
    end
  end.

(** [" ".repeat(n)] *)
Fixpoint spaces (n : nat) : string := match n with 0 => "" | S n => String " " (spaces n) end.

Definition find_quote (s : string) : option nat := find_byte (fun b => b =a? DQ) s.

(** * Call helpers ([parser/lzi/helpers.rs]) *)

Definition split_call_signature (line : SourceLine) (rest : string) : presult (string * string) :=
  let rest := trim_end rest in
  match find_byte (fun b => b =a? "(") rest with
  | Some open =>
    if negb (ends_with ")" rest) then
      Err (line_error line "call expression must end with `)` (e.g. `query.by_id(id: route.id)`)")
    else Ok (trim (str_take open rest), trim (slice (open + 1) (str_len rest - 1) rest))
  | None => Ok (trim rest, "")
  end.

(** [cur] is [text[start..idx]]. *)
Fixpoint split_commas_go (depth : Z) (in_string : bool) (cur s : string) : list string :=
  match s with
  | "" => [cur]
  | String b r =>
    let cur' := cur +:+ String b "" in
    if b =a? DQ then split_commas_go depth (negb in_string) cur' r
    else if in_string then split_commas_go depth in_string cur' r
    else if is_open b then split_commas_go (depth + 1) in_string cur' r
    else if is_close b then split_commas_go (depth - 1) in_string cur' r
    else if (b =a? ",") && (depth =? 0)%Z then cur :: split_commas_go depth in_string "" r
    else split_commas_go depth in_string cur' r
  end.
Definition split_top_level_commas (text : string) : list string := split_commas_go 0 false "" text.

Record TargetArgDecl := { arg_name : string; arg_value : string; arg_span : Span }.

Fixpoint named_args_go (line : SourceLine) (pieces : list string) : presult (list TargetArgDecl) :=
  match pieces with
  | [] => Ok []
  | piece :: pieces =>
    let piece := trim piece in
    if piece =? "" then named_args_go line pieces else
    nv ← ok_or (split_once ":" piece)
           (line_error line "call arguments use `<name>: <expr>` (e.g. `id: route.id`)");
    let name := trim nv.1 in
    if name =? "" then Err (line_error line "call argument requires a name before `:`") else
    out ← named_args_go line pieces;
    Ok ({| arg_name := name; arg_value := trim nv.2; arg_span := span_new (start line) (end_ line) |} :: out)
  end.

Definition parse_named_args (line : SourceLine) (text : string) : presult (list TargetArgDecl) :=
  let text := trim text in
  if text =? "" then Ok [] else named_args_go line (split_top_level_commas text).

(** * Waivers *)

Definition NODE_HEAD : string := "@doctor.allow".

Inductive DoctorAllowScopeDecl := File | Construct (line : nat).

Record DoctorAllowDecl := {
  code : string; reason : option string; scope : DoctorAllowScopeDecl; legacy : bool; span : option Span
}.

Definition is_node_line (trimmed : string) : bool :=
  match strip_prefix NODE_HEAD trimmed with
  | Some after => starts_with "(" (trim_start after)
  | None => false
  end.

Definition line_is_doctor_allow_node (line : string) : bool := is_node_line (trim_start line).

Definition strip_doctor_allow_reason (line : string) : string :=
  if negb (is_node_line (trim_start line)) then line else
  match str_find "reason" line with
  | None => line
  | Some reason_pos =>
    match find_quote (str_drop reason_pos line) with
    | None => line
    | Some open_rel =>
      let open := reason_pos + open_rel in
      match find_quote (str_drop (open + 1) line) with
      | None => line
      | Some close_rel =>
        let close := open + 1 + close_rel in
        if (close <=? open + 1)%nat then line
        else str_take (open + 1) line +:+ spaces (close - (open + 1)) +:+ str_drop close line
      end
    end
  end.

Definition extract_reason_value (clause : string) : option string :=
  after_key ← strip_prefix "reason" (trim clause);
  after_colon ← strip_prefix ":" (trim_start after_key);
  inner ← strip_prefix (String DQ "") (trim_start after_colon);
  close ← find_quote inner;
  Some (str_take close inner).

Definition parse_args_loose (args : string) : option (string * option string) :=
  let args := trim args in
  if args =? "" then None else
  let '(code_part, rest) :=
    match split_once "," args with
    | Some (c, r) => (trim c, Some (trim r))
    | None => (trim args, None)
    end in
  if (code_part =? "") || contains ":" code_part then None
  else Some (code_part, rest ≫= extract_reason_value).

Definition recognize_node_line (line : string) : option (string * option string) :=
  let trimmed := trim_start line in
  if negb (is_node_line trimmed) then None else
  rest ← strip_prefix NODE_HEAD trimmed;
  inner ← strip_prefix "(" (trim_start rest);
  close ← rfind_byte ")" inner;
  parse_args_loose (str_take close inner).

Definition unquote_reason (line : SourceLine) (value : string) : presult string :=
  let value := trim value in
  inner ← ok_or (strip_prefix (String DQ "") value)
            (line_error line ("`reason` value must be a `" +:+ quoted "..." +:+ "` string literal"));
  close ← ok_or (find_quote inner)
            (line_error line "`reason` string literal is missing its closing quote");
  Ok (str_take close inner).

(** The loop over the named arguments. *)
Fixpoint reason_args (line : SourceLine) (reason : option string) (named : list TargetArgDecl) : presult (option string) :=
  match named with
  | [] => Ok reason
  | arg :: named =>
    if arg_name arg =? "reason" then
      r ← unquote_reason line (arg_value arg);
      reason_args line (Some r) named
    else Err (line_error line ("`@doctor.allow(...)` only accepts a `reason: " +:+ quoted "..." +:+ "` named argument"))
  end.

Definition parse (line : SourceLine) (scope : DoctorAllowScopeDecl) : presult DoctorAllowDecl :=
  let trimmed := trim_start (text line) in
  rest ← ok_or (strip_prefix NODE_HEAD trimmed) (line_error line "expected `@doctor.allow(...)` waiver annotation");
  ha ← split_call_signature line rest;
  let '(head, args) := ha in
  if negb (head =? "") then
    Err (line_error line ("`@doctor.allow` takes its code in parentheses, e.g. `@doctor.allow(CODE, reason: " +:+ quoted "why" +:+ ")`"))
  else if trim args =? "" then
    Err (line_error line ("`@doctor.allow(...)` requires a rule code, e.g. `@doctor.allow(LZI-FILE-SIZE-001, reason: " +:+ quoted "why" +:+ ")`"))
  else
  let '(code_part, named_part) :=
    match split_once "," args with
    | Some (c, r) => (trim c, trim r)
    | None => (trim args, "")
    end in
  if code_part =? "" then Err (line_error line "`@doctor.allow(...)` requires a rule code")
  else if contains ":" code_part then
    Err (line_error line "the first `@doctor.allow(...)` argument is the bare rule code (no `:`)")
  else
  reason ← (if negb (named_part =? "") then
              named ← parse_named_args line named_part;
              reason_args line None named
            else Ok None);
  Ok {| code := code_part; reason := reason; scope := scope; legacy := false;
        span := Some (span_new (start line) (Nat.max (end_ line) (start line + 1))) |}.

(** * Capture *)

Definition transparent (line : SourceLine) : bool :=
  let trimmed := trim_start (text line) in is_trivia trimmed || is_node_line trimmed.

(** [lines.iter().enumerate().skip(from)], [rest] being the skipped list. *)
Fixpoint next_construct_go (offset : nat) (rest : list SourceLine) : option nat :=
  match rest with
  | [] => None
  | line :: rest => if transparent line then next_construct_go (S offset) rest else Some (offset + 1)
  end.
Definition next_construct_line (lines : list SourceLine) (from : nat) : option nat :=
  next_construct_go from (List.skipn from lines).

Definition extract_reason_after (after_keyword : string) : option string :=
  open ← find_quote after_keyword;
  let rest := str_drop (open + 1) after_keyword in
  close ← find_quote rest;
  Some (str_take close rest).

Definition KEYWORD : string := "doctor:allow".

Definition recognize_legacy_comment_line (line : string) : option (string * option string) :=
  let lower := str_lower line in
  pos ← str_find KEYWORD lower;
  if negb (contains "#" (str_take pos line)) then None else
  let after := trim_start (str_drop (pos + str_len KEYWORD) line) in
  code ← head (split_whitespace after);
  if code =? "" then None else
  let reason := str_find "reason" (str_lower after) ≫=
                (fun rpos => extract_reason_after (str_drop (rpos + str_len "reason") after)) in
  Some (code, reason).

Definition legacy_decl (line : string) : list DoctorAllowDecl :=
  match recognize_legacy_comment_line line with
  | Some (code, reason) => [{| code := code; reason := reason; scope := File; legacy := true; span := None |}]
  | None => []
  end.
Definition scan_legacy_comment_allows (source : string) : list DoctorAllowDecl :=
  flat_map legacy_decl (str_lines source).

Fixpoint capture_go (lines : list SourceLine) (idx : nat) (rest : list SourceLine) : presult (list DoctorAllowDecl) :=
  match rest with
  | [] => Ok []
  | line :: rest =>
    if negb (is_node_line (trim_start (text line))) then capture_go lines (S idx) rest else
    let scope := match next_construct_line lines (idx + 1) with Some n => Construct n | None => File end in
    d ← parse line scope;
    ds ← capture_go lines (S idx) rest;
    Ok (d :: ds)
  end.

Definition capture_doctor_allows (source : string) : presult (list DoctorAllowDecl) :=
  let lines := source_lines source in
  out ← capture_go lines 0 lines;
  Ok (out ++ scan_legacy_comment_allows source)%list.

(** * The scan of the doctor rules ([allow_comment.rs]) *)

Definition line_allows (needle_lower code : string) (line : string) : bool :=
  let trimmed := trim_start line in
  (starts_with "#" trimmed && contains needle_lower (str_lower trimmed)) ||
  match recognize_node_line trimmed with
  | Some (node_code, _) => eq_ignore_ascii_case node_code code
  | None => false
  end.

Definition source_contains_doctor_allow (source code : string) : bool :=
  existsb (line_allows ("doctor:allow " +:+ str_lower code) code) (str_lines source).

(** * Printing *)

(** The text the migration writes for a waiver. *)
Definition node_line (code : string) (reason : option string) : string :=
  match reason with
  | Some r => "@doctor.allow(" +:+ code +:+ ", reason: " +:+ quoted r +:+ ")"
  | None => "@doctor.allow(" +:+ code +:+ ")"
  end.

(** A code the node form can carry, a reason its string literal can. *)
Definition clean_code (c : string) : bool :=
  edges_ok c && str_all (fun b => negb (b =a? ",")) c && str_all (fun b => negb (b =a? ":")) c.
Definition clean_reason (r : option string) : bool :=
  match r with Some r => str_all (fun b => negb (b =a? DQ)) r | None => true end.

(** * Lemmas *)

Lemma trim_start_spaces n a s : graphic a = true -> trim_start (spaces n +:+ String a s) = String a s.
Proof. intros Ha. induction n; [by apply trim_start_graphic|done]. Qed.

Lemma rfind_byte_app c a b : lacks c b -> rfind_byte c (a +:+ String c b) = Some (str_len a).
Proof.
  intros Hb. induction a as [|x a IH]; cbn; [|by rewrite IH].
  assert (rfind_byte c b = None) as ->; [|by rewrite Ascii.eqb_refl].
  clear -Hb. induction b as [|x b IH]; [done|]. cbn in *. bool_prop. rewrite IH by done. by rewrite H.
Qed.

Lemma find_quote_app r s : lacks DQ r -> find_quote (r +:+ String DQ s) = Some (str_len r).
Proof. intros H. by apply find_byte_app. Qed.

Lemma contains_colon s : lacks ":" s -> contains ":" s = false.
Proof.
  unfold contains. intros H. destruct (str_find ":" s) as [i|] eqn:E; [|done]. exfalso.
  apply str_find_Some in E as [E _]. apply starts_with_iff in E as [t Ht].
  rewrite <- (take_drop_id i s), Ht, str_all_app in H. cbn in H. bool_prop. done.
Qed.

Lemma clean_code_iff c : clean_code c = true <-> edges_ok c = true /\ lacks "," c /\ lacks ":" c.
Proof. unfold clean_code. rewrite !andb_true_iff. tauto. Qed.

Lemma edges_ne c : edges_ok c = true -> (c =? "") = false.
Proof. by destruct c. Qed.

(** What the recogniser and the parser see between the parentheses. *)
Definition node_args (code : string) (reason : option string) : string :=
  match reason with Some r => code +:+ ", reason: " +:+ quoted r | None => code end.

Lemma node_line_args c r : node_line c r = NODE_HEAD +:+ "(" +:+ node_args c r +:+ ")".
Proof. destruct r as [r|]; cbn [node_args node_line]; [rewrite !sapp_assoc|]; reflexivity. Qed.

Lemma node_args_edges c r : edges_ok c = true -> edges_ok (node_args c r) = true.
Proof. intros H. destruct r as [r|]; [|done]. cbn [node_args]. unfold quoted. apply (edges_ok_mid c (", reason: " +:+ String DQ r) (String DQ "")) in H; [|done]. by rewrite !sapp_assoc in H. Qed.

Lemma is_node_line_app s : is_node_line (NODE_HEAD +:+ "(" +:+ s) = true.
Proof.
  unfold is_node_line. rewrite strip_prefix_app. change ("(" +:+ s) with (String "(" s). by rewrite trim_start_graphic.
Qed.

Lemma trim_space_clause r : trim (" reason: " +:+ quoted r) = "reason: " +:+ quoted r.
Proof. cbn [String.append]. rewrite trim_space. apply trim_edges. apply (edges_ok_mid "r" ("eason: " +:+ String DQ r) (String DQ "")); done. Qed.

Lemma extract_reason_value_clause r : lacks DQ r -> extract_reason_value ("reason: " +:+ quoted r) = Some r.
Proof.
  intros H. unfold extract_reason_value.
  assert (trim ("reason: " +:+ quoted r) = "reason: " +:+ quoted r) as ->.
  { rewrite <- (trim_space_clause r) at 2. cbn [String.append]. by rewrite trim_space. }
  change ("reason: " +:+ quoted r) with ("reason" +:+ ": " +:+ quoted r). rewrite strip_prefix_app.
  change (": " +:+ quoted r) with (String ":" (" " +:+ quoted r)). cbn [mbind option_bind]. rewrite trim_start_graphic by done.
  change (String ":" (" " +:+ quoted r)) with (":" +:+ (" " +:+ quoted r)). rewrite strip_prefix_app. cbn [mbind option_bind].
  change (trim_start (" " +:+ quoted r)) with (trim_start (quoted r)). unfold quoted. rewrite trim_start_graphic by done.
  change (String DQ (r +:+ String DQ "")) with (String DQ "" +:+ (r +:+ String DQ "")). rewrite strip_prefix_app. cbn [mbind option_bind].
  rewrite find_quote_app by done. cbn [mbind option_bind]. by rewrite take_app.
Qed.

Lemma parse_args_loose_node c r : clean_code c = true -> clean_reason r = true -> parse_args_loose (node_args c r) = Some (c, r).
Proof.
  intros (He & Hc & Hk)%clean_code_iff Hr. unfold parse_args_loose. rewrite trim_edges by (by apply node_args_edges).
  rewrite (edges_ne (node_args c r)) by (by apply node_args_edges). destruct r as [r|]; cbn [node_args] in *.
  - change (c +:+ ", reason: " +:+ quoted r) with (c +:+ String "," (" reason: " +:+ quoted r)).
    rewrite split_once_app by done. rewrite trim_edges, edges_ne, contains_colon by done. cbn [orb].
    rewrite trim_space_clause. cbn [mbind option_bind]. rewrite extract_reason_value_clause by done. done.
  - rewrite split_once_lacks by done. rewrite trim_edges, edges_ne, contains_colon by done. done.
Qed.

Lemma recognize_node n c r : clean_code c = true -> clean_reason r = true ->
  recognize_node_line (spaces n +:+ node_line c r) = Some (c, r).
Proof.
  intros Hc Hr. unfold recognize_node_line. rewrite node_line_args.
  change (NODE_HEAD +:+ "(" +:+ node_args c r +:+ ")") with (String "@" ("doctor.allow" +:+ "(" +:+ node_args c r +:+ ")")).
  rewrite trim_start_spaces by done.
  change (String "@" ("doctor.allow" +:+ "(" +:+ node_args c r +:+ ")")) with (NODE_HEAD +:+ "(" +:+ node_args c r +:+ ")").
  rewrite is_node_line_app, strip_prefix_app. cbn [negb mbind option_bind].
  change ("(" +:+ node_args c r +:+ ")") with (String "(" (node_args c r +:+ ")")). rewrite trim_start_graphic by done.
  change (String "(" (node_args c r +:+ ")")) with ("(" +:+ (node_args c r +:+ ")")). rewrite strip_prefix_app. cbn [mbind option_bind].
  rewrite rfind_byte_app by done. cbn [mbind option_bind]. rewrite take_app. by apply parse_args_loose_node.
Qed.

(** ** The strict parser *)

Lemma split_commas_string d cur r s : lacks DQ r ->
  split_commas_go d true cur (r +:+ String DQ s) = split_commas_go d false (cur +:+ r +:+ String DQ "") s.
Proof.
  revert cur. induction r as [|b r IH]; intros cur Hr; [done|]. cbn [str_all] in Hr. bool_prop.
  cbn [String.append split_commas_go]. rewrite H, IH by done. f_equal. by rewrite !sapp_assoc.
Qed.

Lemma split_clause r : lacks DQ r -> split_top_level_commas ("reason: " +:+ quoted r) = ["reason: " +:+ quoted r].
Proof.
  intros H. unfold split_top_level_commas.
  change (split_commas_go 0 false "" ("reason: " +:+ quoted r))
    with (split_commas_go 0 true ("reason: " +:+ String DQ "") (r +:+ String DQ "")).
  rewrite split_commas_string by done. cbn [split_commas_go]. f_equal.
Qed.

Lemma parse_clause line r : lacks DQ r ->
  (named ← parse_named_args line ("reason: " +:+ quoted r); reason_args line None named) = Ok (Some r).
Proof.
  intros H. assert (He : trim ("reason: " +:+ quoted r) = "reason: " +:+ quoted r) by apply (trim_space_clause r).
  assert (Hq : trim (quoted r) = quoted r) by (apply trim_edges; by apply (edges_ok_mid (String DQ "") r (String DQ ""))).
  unfold parse_named_args. rewrite He. change ("reason: " +:+ quoted r =? "") with false. cbn match. rewrite split_clause by done.
  cbn [named_args_go]. rewrite He. change ("reason: " +:+ quoted r =? "") with false. cbn match.
  change ("reason: " +:+ quoted r) with ("reason" +:+ String ":" (" " +:+ quoted r)).
  rewrite split_once_app by done. cbn [ok_or mbind result_bind fst snd].
  change (trim "reason" =? "") with false. cbn match. change (trim (" " +:+ quoted r)) with (trim (quoted r)). rewrite Hq.
  cbn [reason_args arg_name arg_value mbind result_bind]. change (trim "reason" =? "reason") with true. cbn match.
  unfold unquote_reason. rewrite Hq. unfold quoted. change (String DQ (r +:+ String DQ "")) with (String DQ "" +:+ (r +:+ String DQ "")).
  rewrite strip_prefix_app. cbn [ok_or mbind result_bind]. rewrite find_quote_app by done. cbn [ok_or mbind result_bind].
  by rewrite take_app.
Qed.

(** What [split_call_signature] makes of an argument list in parentheses. *)
Lemma split_call_signature_paren line a w : trim_end w = "" ->
  split_call_signature line ("(" +:+ a +:+ ")" +:+ w) = Ok ("", trim a).
Proof.
  intros Hw. unfold split_call_signature.
  assert (trim_end ("(" +:+ a +:+ ")" +:+ w) = "(" +:+ a +:+ ")") as ->.
  { change (")" +:+ w) with (String ")" w). rewrite <- sapp_assoc, trim_end_app_graphic, Hw, sapp_assoc by done. done. }
  cbn [String.append find_byte]. change ("(" =a? "(") with true. cbn match.
  assert (ends_with ")" (String "(" (a +:+ ")")) = true) as -> by (apply ends_with_strip; by exists (String "(" a)).
  cbn [negb]. f_equal. f_equal. f_equal. unfold slice. cbn [str_drop Nat.add].
  rewrite len_cons, len_app. cbn [str_len String.length].
  replace (S (str_len a + 1) - 1 - 1) with (str_len a) by lia. by rewrite take_app.
Qed.

Definition parsed_decl (line : SourceLine) (sc : DoctorAllowScopeDecl) (c : string) (r : option string) : DoctorAllowDecl := {|
  code := c; reason := r; scope := sc; legacy := false; span := Some (span_new (start line) (Nat.max (end_ line) (start line + 1)))
|}.

Lemma parse_node n c r line sc : clean_code c = true -> clean_reason r = true -> text line = spaces n +:+ node_line c r ->
  parse line sc = Ok (parsed_decl line sc c r).
Proof.
  intros Hcc Hr Ht. pose proof Hcc as (He & Hc & Hk)%clean_code_iff. unfold parse. rewrite Ht, node_line_args.
  change (NODE_HEAD +:+ "(" +:+ node_args c r +:+ ")") with (String "@" ("doctor.allow" +:+ "(" +:+ node_args c r +:+ ")")).
  rewrite trim_start_spaces by done.
  change (String "@" ("doctor.allow" +:+ "(" +:+ node_args c r +:+ ")")) with (NODE_HEAD +:+ "(" +:+ node_args c r +:+ ")").
  rewrite strip_prefix_app. cbn [ok_or mbind result_bind]. rewrite <- (sapp_nil_r ")"), split_call_signature_paren by done.
  cbn [mbind result_bind]. change ("" =? "") with true. cbn [negb].
  rewrite (trim_edges (node_args c r)), trim_edges, edges_ne by (by apply node_args_edges).
  destruct r as [r|]; cbn [node_args].
  - change (c +:+ ", reason: " +:+ quoted r) with (c +:+ String "," (" reason: " +:+ quoted r)).
    rewrite split_once_app by done. rewrite trim_edges, edges_ne, contains_colon by done. rewrite trim_space_clause.
    change (negb ("reason: " +:+ quoted r =? "")) with true. cbn match. by rewrite parse_clause.
  - rewrite split_once_lacks by done. rewrite edges_ne, contains_colon by done. done.
Qed.

(** A waiver written with a code without commas or colons and a reason without
    quotes is read back unchanged, at any indentation, by the strict parser of
    the module loader and by the recogniser of the doctor rules. *)
Theorem waiver_roundtrip n c r line sc : clean_code c = true -> clean_reason r = true ->
  text line = spaces n +:+ node_line c r ->
  is_node_line (trim_start (text line)) = true /\ recognize_node_line (text line) = Some (c, r) /\
  parse line sc = Ok (parsed_decl line sc c r).
Proof.
  intros Hc Hr Ht. split_and!; [|rewrite Ht; by apply recognize_node|by eapply parse_node].
  pose proof (recognize_node n c r Hc Hr) as H. rewrite <- Ht in H. unfold recognize_node_line in H. by destruct (is_node_line _).
Qed.

(** ** The strict parser against the recogniser *)

Lemma blank_lacks c w : graphic c = true -> blank w -> lacks c w.
Proof. intros Hc. apply str_all_impl. intros b Hb. destruct (Ascii.eqb_spec b c) as [->|]; [by rewrite Hc in Hb|done]. Qed.

Lemma find_byte_lacks c w s : lacks c w -> find_byte (fun b => b =a? c) (w +:+ String c s) = Some (str_len w).
Proof. intros H. apply find_byte_app; [done|by apply Ascii.eqb_refl]. Qed.

Lemma parse_recognize line sc d : is_node_line (trim_start (text line)) = true -> parse line sc = Ok d ->
  (exists r, recognize_node_line (text line) = Some (code d, r)) /\ scope d = sc /\ legacy d = false.
Proof.
  intros Hn. unfold parse, recognize_node_line. rewrite Hn. cbn [negb]. unfold is_node_line in Hn.
  destruct (strip_prefix NODE_HEAD _) as [rest|]; [|done]. cbn [ok_or mbind result_bind option_bind].
  apply starts_with_iff in Hn as [inner Hi]. rewrite Hi, strip_prefix_app. cbn [mbind option_bind].
  destruct (trim_start_blank rest) as (w & -> & Hw). rewrite Hi.
  change ("(" +:+ inner) with (String "(" inner). unfold split_call_signature.
  rewrite trim_end_app_graphic, find_byte_lacks by (done || by apply blank_lacks).
  destruct (ends_with ")" _) eqn:E; [|done]. cbn [negb].
  destruct (trim_end_blank inner) as (v & Ev & Hv).
  assert (exists x, trim_end inner = x +:+ ")") as [x Hx].
  { apply ends_with_strip in E as [t Et]. destruct (str_snoc (trim_end inner)) as [E0|(x & a & Ex)].
    - rewrite E0 in Et. apply (f_equal last_byte) in Et. by rewrite !last_byte_snoc in Et.
    - exists x. rewrite Ex in Et |- *. change (String "(" (x +:+ String a "")) with (String "(" x +:+ String a "") in Et.
      rewrite <- sapp_assoc in Et. apply (f_equal last_byte) in Et. rewrite !last_byte_snoc in Et. by injection Et as ->. }
  rewrite Hx in Ev |- *. cbn [mbind result_bind].
  assert (slice (str_len w + 1) (str_len (w +:+ String "(" (x +:+ ")")) - 1) (w +:+ String "(" (x +:+ ")")) = x) as ->.
  { replace (str_len (w +:+ String "(" (x +:+ ")")) - 1) with (str_len w + 1 + str_len x) by (rewrite len_app, len_cons, len_app; cbn; lia).
    replace (str_len w + 1) with (str_len (w +:+ "(")) by (rewrite len_app; done).
    pose proof (slice_app (w +:+ "(") x ")") as Hs. rewrite sapp_assoc in Hs. exact Hs. }
  rewrite Ev, sapp_assoc. change (")" +:+ v) with (String ")" v).
  rewrite rfind_byte_app by (by apply blank_lacks). cbn [mbind option_bind]. rewrite take_app.
  rewrite take_app.
  destruct (trim w =? ""); cbn [negb]; [|done]. unfold parse_args_loose. set (args := trim x).
  assert (Hne : args = "" -> trim args = "") by (by intros ->).
  destruct (trim args =? "") eqn:Ea; [done|].
  assert ((args =? "") = false) as -> by (apply String.eqb_neq; intros Ez; by rewrite (Hne Ez) in Ea).
  destruct (split_once "," args) as [[c0 r0]|].
  - destruct (trim c0 =? ""); [done|]. destruct (contains ":" (trim c0)); [done|]. cbn [orb].
    intros (reason & _ & [= <-])%bind_Ok. cbn. eauto.
  - destruct (trim args =? ""); [done|]. destruct (contains ":" (trim args)); [done|]. cbn [orb].
    intros (reason & _ & [= <-])%bind_Ok. cbn. eauto.
Qed.

(** ** Capture *)

Fixpoint enumerate {A} (i : nat) (l : list A) : list (nat * A) :=
  match l with [] => [] | x :: l => (i, x) :: enumerate (S i) l end.

(** The node lines of a file, with their positions. *)
Definition node_lines (lines : list SourceLine) : list (nat * SourceLine) :=
  List.filter (fun il => is_node_line (trim_start (text il.2))) (enumerate 0 lines).

(** The scope of the waiver on line [i]: the first later line that is neither
    blank, a comment nor a waiver, by its 1-based number. *)
Definition scope_at (lines : list SourceLine) (i : nat) (sc : DoctorAllowScopeDecl) : Prop :=
  match sc with
  | Construct n => exists o l, n = o + 1 /\ i < o /\ nth_error lines o = Some l /\ transparent l = false /\
                     forall j l', i < j < o -> nth_error lines j = Some l' -> transparent l' = true
  | File => forall j l', i < j -> nth_error lines j = Some l' -> transparent l' = true
  end.

Lemma next_construct_go_spec offset rest :
  match next_construct_go offset rest with
  | Some n => exists o l, n = offset + o + 1 /\ nth_error rest o = Some l /\ transparent l = false /\
                forall j l', j < o -> nth_error rest j = Some l' -> transparent l' = true
  | None => forall j l', nth_error rest j = Some l' -> transparent l' = true
  end.
Proof.
  revert offset. induction rest as [|a rest IH]; intros offset; cbn; [by intros []|].
  destruct (transparent a) eqn:E.
  - specialize (IH (S offset)). destruct (next_construct_go _ _).
    + destruct IH as (o & l & -> & Hl & Hf & Ho). exists (S o), l. split_and!; [lia|done|done|].
      intros [|j] l' Hj; [by intros [= <-]|]. apply Ho. lia.
    + intros [|j] l'; [by intros [= <-]|]. apply IH.
  - exists 0, a. split_and!; [lia|done|done|lia].
Qed.

Lemma nth_error_skipn' {A} n (l : list A) j : nth_error (List.skipn n l) j = nth_error l (n + j).
Proof. revert l. induction n as [|n IH]; intros l; [done|]. destruct l as [|a l]; [by destruct j|apply IH]. Qed.

Lemma next_construct_line_scope lines i :
  scope_at lines i (match next_construct_line lines (i + 1) with Some n => Construct n | None => File end).
Proof.
  pose proof (next_construct_go_spec (i + 1) (List.skipn (i + 1) lines)) as H. unfold next_construct_line.
  destruct (next_construct_go _ _) as [n|]; unfold scope_at.
  - destruct H as (o & l & -> & Hl & Hf & Ho). rewrite nth_error_skipn' in Hl. exists (i + 1 + o), l.
    split_and!; [lia|lia|done|done|]. intros j l' Hj Hj'. apply (Ho (j - (i + 1))); [lia|].
    rewrite nth_error_skipn'. by replace (i + 1 + (j - (i + 1))) with j by lia.
  - intros j l' Hj Hj'. apply (H (j - (i + 1))). rewrite nth_error_skipn'. by replace (i + 1 + (j - (i + 1))) with j by lia.
Qed.

Definition captured (lines : list SourceLine) (il : nat * SourceLine) (d : DoctorAllowDecl) : Prop :=
  (exists r, recognize_node_line (text il.2) = Some (code d, r)) /\ legacy d = false /\ scope_at lines il.1 (scope d).

Lemma capture_go_spec lines idx rest ds : capture_go lines idx rest = Ok ds ->
  Forall2 (captured lines) (List.filter (fun il => is_node_line (trim_start (text il.2))) (enumerate idx rest)) ds.
Proof.
  revert idx ds. induction rest as [|l rest IH]; intros idx ds; cbn; [by intros [= <-]|].
  destruct (is_node_line (trim_start (text l))) eqn:E; cbn [negb]; [|apply IH].
  intros (d & Hd & (ds' & Hds & [= <-])%bind_Ok)%bind_Ok. constructor; [|by apply IH].
  apply parse_recognize in Hd as (Hr & Hs & Hl); [|done]. split_and!; [done|done|]. rewrite Hs. apply next_construct_line_scope.
Qed.

Lemma source_lines_texts source : List.map text (source_lines source) = str_lines source.
Proof. unfold source_lines. generalize 0. induction (str_lines source) as [|t ts IH]; intros n; cbn; [done|]. by rewrite IH. Qed.

Lemma enumerate_In {A} i (l : list A) n x : In (n, x) (enumerate i l) -> In x l.
Proof. revert i. induction l as [|a l IH]; intros i; cbn; [done|]. intros [[= _ <-]|H]; [by left|right; eauto]. Qed.

Lemma eq_ignore_ascii_case_refl s : eq_ignore_ascii_case s s = true.
Proof. apply String.eqb_refl. Qed.

Lemma recognize_trim_start l : recognize_node_line (trim_start l) = recognize_node_line l.
Proof. unfold recognize_node_line. by rewrite trim_start_idem. Qed.

Lemma line_allows_node needle l c r : recognize_node_line l = Some (c, r) -> line_allows needle c l = true.
Proof. intros H. unfold line_allows. by rewrite recognize_trim_start, H, eq_ignore_ascii_case_refl, orb_true_r. Qed.

(** When the capture of a file succeeds it returns one waiver per node line, in
    source order and attached to the next construct, followed by the lifted
    comments; and every doctor rule honours each captured node waiver. *)
Theorem capture_exact source ds : capture_doctor_allows source = Ok ds ->
  exists nodes, ds = (nodes ++ scan_legacy_comment_allows source)%list /\
    Forall2 (captured (source_lines source)) (node_lines (source_lines source)) nodes /\
    (forall d, In d nodes -> source_contains_doctor_allow source (code d) = true).
Proof.
  intros (nodes & Hg & [= <-])%bind_Ok. exists nodes. apply capture_go_spec in Hg as HF. split_and!; [done|done|].
  intros d Hd. destruct (Forall2_In_r _ _ _ _ HF Hd) as ([i l] & Hin & (r & Hr) & _). cbn in Hr.
  unfold source_contains_doctor_allow. apply existsb_exists. exists (text l). split; [|by eapply line_allows_node].
  apply filter_In in Hin as [Hin _]. apply enumerate_In in Hin. rewrite <- source_lines_texts. by apply in_map.
Qed.

(** ** Masking *)

Lemma len_spaces n : str_len (spaces n) = n.
Proof. induction n; cbn; [done|]. by rewrite IHn. Qed.

Lemma strip_reason_length line : str_len (strip_doctor_allow_reason line) = str_len line.
Proof.
  unfold strip_doctor_allow_reason. destruct (is_node_line _); [|done]. cbn [negb].
  destruct (str_find _ _) as [p|]; [|done]. destruct (find_quote _) as [o|] eqn:Eo; [|done].
  destruct (find_quote (str_drop (p + o + 1) line)) as [c|] eqn:Ec; [|done].
  destruct (_ <=? _)%nat; [done|]. rewrite !len_app, len_take, len_spaces, len_drop.
  apply find_byte_Some in Ec as [(b & Hb & _) _].
  assert (c < str_len (str_drop (p + o + 1) line)).
  { destruct (Nat.lt_ge_cases c (str_len (str_drop (p + o + 1) line))) as [|H]; [done|]. apply byte_at_None in H. congruence. }
  rewrite len_drop in H. lia.
Qed.

Lemma trim_blank s : exists a b, s = a +:+ trim s +:+ b /\ blank a /\ blank b.
Proof.
  destruct (trim_start_blank s) as (a & Ea & Ha). destruct (trim_end_blank (trim_start s)) as (b & Eb & Hb).
  exists a, b. unfold trim. by rewrite <- Eb, <- Ea.
Qed.

(** Reassociate a concatenation to the right, literals spelled out. *)
Ltac flat := repeat progress (cbn [String.append]; rewrite ?sapp_assoc).

(** The quoted reason inside a clause, after the keyword. *)
Lemma extract_reason_value_shape clause r : extract_reason_value clause = Some r ->
  exists a b z, clause = a +:+ "reason" +:+ b +:+ quoted r +:+ z /\ lacks DQ a /\ lacks DQ b /\ lacks DQ r.
Proof.
  unfold extract_reason_value. destruct (trim_blank clause) as (a & z & Ec & Ha & _).
  destruct (strip_prefix "reason" (trim clause)) as [k|] eqn:E1; [|done]. apply strip_prefix_Some in E1. cbn [mbind option_bind].
  destruct (trim_start_blank k) as (w1 & Ek & Hw1).
  destruct (strip_prefix ":" (trim_start k)) as [v|] eqn:E2; [|done]. apply strip_prefix_Some in E2. cbn [mbind option_bind].
  destruct (trim_start_blank v) as (w2 & Ev & Hw2).
  destruct (strip_prefix (String DQ "") (trim_start v)) as [i|] eqn:E3; [|done]. apply strip_prefix_Some in E3. cbn [mbind option_bind].
  destruct (find_quote i) as [n|] eqn:E4; [|done]. intros [= <-].
  apply find_byte_Some in E4 as [(b & Hb & Eb%Ascii.eqb_eq) Hl]. subst b. apply drop_cons in Hb.
  exists a, (w1 +:+ ":" +:+ w2), (str_drop (S n) i +:+ z). split_and!; [|by apply blank_lacks| |done].
  - rewrite Ec at 1. rewrite E1, Ek, E2, Ev, E3. rewrite <- (take_drop_id n i) at 1. rewrite Hb. unfold quoted.
    flat. done.
  - by rewrite !str_all_app, (blank_lacks DQ w1), (blank_lacks DQ w2).
Qed.

Lemma recognize_shape line c r : recognize_node_line line = Some (c, Some r) -> lacks DQ c ->
  is_node_line (trim_start line) = true /\
  exists a b z, line = a +:+ "reason" +:+ b +:+ quoted r +:+ z /\ lacks DQ a /\ lacks DQ b /\ lacks DQ r.
Proof.
  unfold recognize_node_line. destruct (trim_start_blank line) as (w & El & Hw).
  destruct (is_node_line _) eqn:En; [|done]. cbn [negb]. intros H Hc. split; [done|]. revert H.
  destruct (strip_prefix NODE_HEAD _) as [rest|] eqn:E1; [|done]. apply strip_prefix_Some in E1. cbn [mbind option_bind].
  destruct (trim_start_blank rest) as (w1 & Er & Hw1).
  destruct (strip_prefix "(" _) as [inner|] eqn:E2; [|done]. apply strip_prefix_Some in E2. cbn [mbind option_bind].
  destruct (rfind_byte ")" inner) as [n|]; [|done]. cbn [mbind option_bind]. unfold parse_args_loose.
  destruct (trim_blank (str_take n inner)) as (b1 & b2 & Ei & Hb1 & _). set (args := trim (str_take n inner)) in *.
  destruct (args =? ""); [done|]. destruct (split_once "," args) as [[c0 r0]|] eqn:Es; [|by destruct (_ || _)].
  apply split_once_Some in Es as [Ea _]. destruct (trim_blank c0) as (b3 & b4 & Ec0 & Hb3 & Hb4).
  destruct (trim_blank r0) as (b5 & b6 & Er0 & Hb5 & _).
  destruct (_ || _); [done|]. cbn [mbind option_bind]. intros [= Ecode Ereason].
  apply extract_reason_value_shape in Ereason as (a & b & z & Ecl & Ha & Hb & Hr).
  exists (w +:+ NODE_HEAD +:+ w1 +:+ "(" +:+ b1 +:+ b3 +:+ c +:+ b4 +:+ "," +:+ b5 +:+ a), b, (z +:+ b6 +:+ b2 +:+ str_drop n inner).
  split_and!; [|by rewrite !str_all_app, Hc, Ha, (blank_lacks DQ w), (blank_lacks DQ w1), (blank_lacks DQ b1), (blank_lacks DQ b3), (blank_lacks DQ b4), (blank_lacks DQ b5)|done|done].
  rewrite El at 1. rewrite E1, Er, E2. rewrite <- (take_drop_id n inner) at 1. rewrite Ei, Ea, Ec0, Er0, Ecl, Ecode.
  flat. done.
Qed.

(** Masking a waiver blanks exactly the text of its reason: everything else
    stays in place, so columns do not move. *)
Theorem strip_reason_exact line c r : recognize_node_line line = Some (c, Some r) -> lacks DQ c ->
  exists pre post, line = pre +:+ quoted r +:+ post /\ lacks DQ pre /\
    strip_doctor_allow_reason line = pre +:+ quoted (spaces (str_len r)) +:+ post /\
    str_len (strip_doctor_allow_reason line) = str_len line.
Proof.
  intros H Hc. apply recognize_shape in H as (Hn & a & b & z & El & Ha & Hb & Hr); [|done].
  exists (a +:+ "reason" +:+ b), z. rewrite strip_reason_length. split_and!; [by rewrite !sapp_assoc|by rewrite !str_all_app, Ha, Hb| |done].
  unfold strip_doctor_allow_reason. rewrite Hn. cbn [negb].
  destruct (str_find_le "reason" a (b +:+ quoted r +:+ z)) as (p & Hp & Hle). rewrite El at 1. rewrite Hp.
  set (pre := a +:+ "reason" +:+ b). assert (Epre : line = pre +:+ String DQ (r +:+ String DQ z)).
  { rewrite El. unfold pre, quoted. by flat. }
  assert (Hlen : p <= str_len pre) by (unfold pre; rewrite !len_app; lia).
  assert (Hq : find_quote (str_drop p line) = Some (str_len pre - p)).
  { rewrite Epre, drop_app_le by done. unfold find_quote. rewrite find_byte_lacks; [by rewrite len_drop|].
    assert (Hpre : lacks DQ pre) by (unfold pre; by rewrite !str_all_app, Ha, Hb).
    rewrite <- (take_drop_id p pre), str_all_app in Hpre. by bool_prop. }
  rewrite Hq. replace (p + (str_len pre - p)) with (str_len pre) by lia.
  assert (Hd : str_drop (str_len pre + 1) line = r +:+ String DQ z).
  { rewrite <- drop_drop, Epre, drop_app. done. }
  rewrite Hd, find_quote_app by done.
  assert (Hout : pre +:+ quoted (spaces (str_len r)) +:+ z = (pre +:+ String DQ "") +:+ spaces (str_len r) +:+ String DQ z).
  { unfold quoted. by flat. }
  rewrite Hout. destruct (Nat.leb_spec (str_len pre + 1 + str_len r) (str_len pre + 1)).
  - assert (r = "") as -> by (apply len_zero; lia). cbn. rewrite Epre, sapp_assoc. done.
  - replace (str_len pre + 1 + str_len r - (str_len pre + 1)) with (str_len r) by lia. f_equal; [|f_equal].
    + replace (str_len pre + 1) with (str_len (pre +:+ String DQ "")) by (by rewrite len_app).
      rewrite Epre, (sapp_cons pre DQ (r +:+ String DQ z)). apply take_app.
    + rewrite <- drop_drop, Hd. apply drop_app.
Qed.

(** * Witnesses *)

Definition sample_line (t : string) : SourceLine := {| text := t; indent := count_while is_space t; start := 0; end_ := str_len t |}.

Lemma waiver_roundtrip_witness :
  let line := sample_line (spaces 2 +:+ node_line "X-1" (Some "a, b")) in
  is_node_line (trim_start (text line)) = true /\ recognize_node_line (text line) = Some ("X-1", Some "a, b") /\
  parse line File = Ok (parsed_decl line File "X-1" (Some "a, b")).
Proof.
  apply (waiver_roundtrip 2 "X-1" (Some "a, b") (sample_line (spaces 2 +:+ node_line "X-1" (Some "a, b"))) File); reflexivity.
Defined.

Definition waived : string := "@doctor.allow(X-1)" +:+ String LF ("feature a" +:+ String LF "").

Lemma capture_exact_witness :
  exists d nodes, [d] = (nodes ++ scan_legacy_comment_allows waived)%list /\ code d = "X-1" /\ scope d = Construct 2 /\
    Forall2 (captured (source_lines waived)) (node_lines (source_lines waived)) nodes /\
    (forall d, In d nodes -> source_contains_doctor_allow waived (code d) = true).
Proof.
  destruct (capture_exact waived [parsed_decl (sample_line "@doctor.allow(X-1)") (Construct 2) "X-1" None]) as (nodes & E & H1 & H2); [reflexivity|].
  exists (parsed_decl (sample_line "@doctor.allow(X-1)") (Construct 2) "X-1" None), nodes. split_and!; [exact E|reflexivity|reflexivity|exact H1|exact H2].
Defined.

Lemma strip_reason_exact_witness :
  let line := "  @doctor.allow(X-1, reason: " +:+ quoted "see @cap" +:+ ")" in
  exists pre post, line = pre +:+ quoted "see @cap" +:+ post /\ lacks DQ pre /\
    strip_doctor_allow_reason line = pre +:+ quoted (spaces 8) +:+ post /\
    str_len (strip_doctor_allow_reason line) = str_len line.
Proof. apply (strip_reason_exact ("  @doctor.allow(X-1, reason: " +:+ quoted "see @cap" +:+ ")") "X-1" "see @cap"); reflexivity. Defined.

(** A waiver in an inline comment is captured by the loader but not honoured by
    the rules. *)
Lemma inline_waiver_not_honoured :
  let source := "feature x # doctor:allow X-1" in
  capture_doctor_allows source = Ok [{| code := "X-1"; reason := None; scope := File; legacy := true; span := None |}] /\
  source_contains_doctor_allow source "X-1" = false.
Proof. by vm_compute. Qed.

(** The strict parser keeps the last reason, the recogniser the first. *)
Lemma repeated_reason_drift :
  let t := "@doctor.allow(X-1, reason: " +:+ quoted "a" +:+ ", reason: " +:+ quoted "b" +:+ ")" in
  recognize_node_line t = Some ("X-1", Some "a") /\
  parse (sample_line t) File = Ok (parsed_decl (sample_line t) File "X-1" (Some "b")).
Proof. by vm_compute. Qed.
