(* ===== verification/Fix.v ===== *)
(** The fix engine ([lazuli_fix/src]): the four fix actions, the registry that
    dispatches on the rule code, and the preview and apply entry points, over an
    explicit file system.

    The file system maps paths to contents and says which paths can be read and
    written; a write that fails leaves it unchanged. *)
From stdpp Require Import gmap strings.
From S2P Require Import Prelude Str Fmt Lines Lex Waiver.

(** * File system and errors *)

Record Fs := { content : gmap string string; readable : string -> bool; writable : string -> bool }.

(** Effects of an action: an [anyhow] error or a value, and the files after. *)
Definition fixM (A : Type) : Type := Fs -> result string A * Fs.
#[export] Instance fixM_ret : MRet fixM := fun A x fs => (Ok x, fs).
#[export] Instance fixM_bind : MBind fixM := fun A B k m fs =>
  match m fs with (Ok x, fs) => k x fs | (Err e, fs) => (Err e, fs) end.

Definition path_exists (path : string) : fixM bool := fun fs =>
  (Ok (match content fs !! path with Some _ => true | None => false end), fs).

Definition read_to_string (path : string) : fixM string := fun fs =>
  match content fs !! path with
  | Some s => if readable fs path then (Ok s, fs) else (Err ("failed to read " +:+ path), fs)
  | None => (Err ("failed to read " +:+ path), fs)
  end.

Definition write_file (path s : string) : fixM unit := fun fs =>
  if writable fs path then
    (Ok tt, {| content := <[path := s]> (content fs); readable := readable fs; writable := writable fs |})
  else (Err ("failed to write " +:+ path), fs).

(** * Requests, results, registry *)

Record FixRequest := { rule : string; path : string; line : nat; column : nat; apply : bool }.
Inductive FixOutcome := Applied | Preview | NoChange | Skipped.
Record FixResult := { outcome : FixOutcome; preview_text : string; note : option string }.

Record FixAction := { rule_code : string; execute_action : FixRequest -> fixM FixResult }.
Definition FixRegistry := gmap string FixAction.

Definition registry_new : FixRegistry := ∅.
Definition register (action : FixAction) (r : FixRegistry) : FixRegistry := <[rule_code action := action]> r.

Definition registry_execute (r : FixRegistry) (request : FixRequest) : fixM FixResult :=
  match r !! rule request with
  | Some action => execute_action action request
  | None => mret {| outcome := Skipped; preview_text := "";
      note := Some ("no fix action registered for rule " +:+ rule request +:+
                    " (Wave 2.3 ships 2 actions; full migration is the follow-up cell)") |}
  end.

Definition show_nat (n : nat) : string := show_N (N.of_nat n).

(** Results the actions share. *)
Definition skipped (why : string) : FixResult := {| outcome := Skipped; preview_text := ""; note := Some why |}.
Definition no_change (why : string) : FixResult := {| outcome := NoChange; preview_text := ""; note := Some why |}.
Definition previewed (text : string) : FixResult :=
  {| outcome := Preview; preview_text := text; note := Some "pass --apply to write the change to disk" |}.
Definition applied (text : string) : FixResult := {| outcome := Applied; preview_text := text; note := None |}.

Definition out_of_range (request : FixRequest) (lines : list string) : string :=
  "line " +:+ show_nat (line request) +:+ " is out of range (" +:+ show_nat (List.length lines) +:+ " lines)".
Definition diff_text (request : FixRequest) (old tail : string) : string :=
  "--- " +:+ path request +:+ ":" +:+ show_nat (line request) +:+ NL +:+ "-" +:+ old +:+ NL +:+ tail +:+ NL.

(** [lines.join("\n")], with the trailing newline of the source. *)
Definition rejoin (source : string) (lines : list string) : string :=
  let output := join NL lines in if ends_with NL source then output +:+ NL else output.

Definition leading_spaces (line : string) : nat := count_while is_space line.

(** * [DOCTOR-ALLOW-LEGACY-COMMENT-001] ([actions/doctor_allow_comment.rs]) *)

Fixpoint first_construct_indent (lines : list string) : option nat :=
  match lines with
  | [] => None
  | line :: lines =>
    let trimmed := trim_start line in
    if (trimmed =? "") || starts_with "#" trimmed || is_node_line trimmed ||
       (match recognize_legacy_comment_line line with Some _ => true | None => false end)
    then first_construct_indent lines
    else Some (leading_spaces line)
  end.
Definition next_construct_indent (lines : list string) (from : nat) : option nat :=
  first_construct_indent (List.skipn from lines).

Definition node_indent (lines : list string) (target_idx : nat) (old_line : string) : nat :=
  let own := leading_spaces old_line in
  match next_construct_indent lines (target_idx + 1) with
  | Some next => if (own <? next)%nat then next else own
  | None => own
  end.

Definition doctor_allow_execute (request : FixRequest) : fixM FixResult :=
  found ← path_exists (path request);
  if negb found then mret (skipped ("file does not exist: " +:+ path request)) else
  source ← read_to_string (path request);
  let lines := str_lines source in
  let target_idx := line request - 1 in
  match lines !! target_idx with
  | None => mret (skipped (out_of_range request lines))
  | Some old_line =>
    match recognize_legacy_comment_line old_line with
    | None => mret (no_change ("line " +:+ show_nat (line request) +:+
                               " is not a legacy `# doctor:allow` comment (already migrated?)"))
    | Some (code, reason) =>
      let new_line := spaces (node_indent lines target_idx old_line) +:+ node_line code reason in
      let preview := diff_text request old_line ("+" +:+ new_line) in
      if negb (apply request) then mret (previewed preview) else
      _ ← write_file (path request) (rejoin source (<[target_idx := new_line]> lines));
      mret (applied preview)
    end
  end.

Definition DoctorAllowCommentToNode : FixAction :=
  {| rule_code := "DOCTOR-ALLOW-LEGACY-COMMENT-001"; execute_action := doctor_allow_execute |}.

(** * [LZI-COMMENT-PROSE-001] ([actions/comment_prose.rs]) *)

Definition DIVIDER_GLYPHS : list string :=
  ["-"; "="; "*"; "#"; "/"; "_"; "~"; "+"; "."; "<"; ">";
   "─"; "━"; "│"; "┃"; "═"; "║"; "╔"; "╗"; "╚"; "╝"; "╠"; "╣"; "╦"; "╩"; "╬"; "╴"; "╶"; "╸"; "╺"; "■"; "●"].

(** The byte index of the comment's [#]. *)
Fixpoint hash_index (in_string : bool) (line : string) : option nat :=
  match line with
  | "" => None
  | String b r =>
    if b =a? DQ then S <$> hash_index (negb in_string) r
    else if (b =a? "#") && negb in_string then Some 0
    else S <$> hash_index in_string r
  end.
Definition comment_body (line : string) : option (nat * string) :=
  (fun i => (i, str_drop (i + 1) line)) <$> hash_index false line.

Definition is_empty_body (body : string) : bool := trim body =? "".

(** Bytes of the divider glyph the text starts with, 0 if there is none. *)
Definition glyph_len (s : string) : nat :=
  match List.find (fun g => starts_with g s) DIVIDER_GLYPHS with Some g => str_len g | None => 0 end.

(** Character by character; [skip] counts the bytes left of the current one. *)
Fixpoint divider_go (saw : bool) (skip : nat) (s : string) : bool :=
  match s with
  | "" => saw
  | String _ r =>
    match skip with
    | S skip => divider_go saw skip r
    | 0 =>
      match ws_len s with
      | S n => divider_go saw n r
      | 0 => match glyph_len s with
             | S n => divider_go true n r
             | 0 => false
             end
      end
    end
  end.
Definition is_divider_body (body : string) : bool := divider_go false 0 body.

Definition comment_prose_execute (request : FixRequest) : fixM FixResult :=
  found ← path_exists (path request);
  if negb found then mret (skipped ("file does not exist: " +:+ path request)) else
  source ← read_to_string (path request);
  let lines := str_lines source in
  let target_idx := line request - 1 in
  match lines !! target_idx with
  | None => mret (skipped (out_of_range request lines))
  | Some old_line =>
    match recognize_legacy_comment_line old_line with
    | Some _ => execute_action DoctorAllowCommentToNode request
    | None =>
      match comment_body old_line with
      | None => mret (no_change ("line " +:+ show_nat (line request) +:+ " is not a `#` comment (already cleaned?)"))
      | Some (hash_byte, body) =>
        let is_inline := negb (trim (str_take hash_byte old_line) =? "") in
        let mechanical := is_empty_body body || is_divider_body body in
        if negb mechanical then
          mret (skipped ("line " +:+ show_nat (line request) +:+ " is prose (`#" +:+ body +:+
            "`) — MANUAL relocation required: move rationale to a `<feature>.ctx.md` context file, a construct's intent to its `purpose`/`doc`/`description` field, or a waiver to `@doctor.allow(CODE, reason: " +:+ quoted "..." +:+ ")`. The codemod will not guess a semantic move."))
        else
        let kept := trim_end (str_take hash_byte old_line) in
        let '(new_lines, preview) :=
          if is_inline then (<[target_idx := kept]> lines, diff_text request old_line ("+" +:+ kept))
          else (delete target_idx lines, diff_text request old_line "(line deleted)") in
        if negb (apply request) then mret (previewed preview) else
        _ ← write_file (path request) (rejoin source new_lines);
        mret (applied preview)
      end
    end
  end.

Definition CommentProseFix : FixAction :=
  {| rule_code := "LZI-COMMENT-PROSE-001"; execute_action := comment_prose_execute |}.

(** * [TEST-MISSING-AUTHORED-001] ([actions/insert_tests_block.rs]) *)

Definition blank_or_comment (trimmed : string) : bool := (trimmed =? "") || starts_with "#" trimmed.
Definition is_tests_head (trimmed : string) : bool := (trimmed =? "tests") || starts_with "tests " trimmed.

(** The scan of the construct's body: where the block goes, or [None] when the
    construct already has one.  [n] is the number of lines of the file. *)
Fixpoint tests_scan (n construct_indent offset : nat) (rest : list string) : option nat :=
  match rest with
  | [] => Some n
  | line :: rest =>
    let trimmed := trim_start line in
    if blank_or_comment trimmed then tests_scan n construct_indent (S offset) rest
    else if (leading_spaces line <=? construct_indent)%nat then Some offset
    else if (leading_spaces line =? construct_indent + 2)%nat && is_tests_head trimmed then None
    else tests_scan n construct_indent (S offset) rest
  end.

Definition tests_stub (indent : nat) : string :=
  spaces indent +:+ "tests" +:+ NL +:+
  spaces indent +:+ "  # @TODO authored: cover policy + requires-predicate" +:+ NL +:+
  spaces indent +:+ "  allows as @role.editor" +:+ NL +:+
  spaces indent +:+ "  denies as @role.viewer" +:+ NL.

(** The rebuilding loop: the stub before line [insertion_idx]. *)
Fixpoint splice_before (stub : string) (insertion_idx idx : nat) (lines : list string) : string :=
  match lines with
  | [] => ""
  | line :: lines =>
    (if (idx =? insertion_idx)%nat then stub else "") +:+ line +:+ NL +:+ splice_before stub insertion_idx (S idx) lines
  end.

Definition anchor_of (request : FixRequest) (lines : list string) : nat :=
  Nat.min (line request - 1) (List.length lines - 1).

Definition insert_tests_execute (request : FixRequest) : fixM FixResult :=
  found ← path_exists (path request);
  if negb found then mret (skipped ("file does not exist: " +:+ path request)) else
  source ← read_to_string (path request);
  let lines := str_lines source in
  let anchor_idx := anchor_of request lines in
  let anchor_line := default "" (lines !! anchor_idx) in
  let construct_indent := leading_spaces anchor_line in
  match tests_scan (List.length lines) construct_indent (anchor_idx + 1) (List.skipn (anchor_idx + 1) lines) with
  | None => mret (no_change "construct already has a tests block; nothing to do")
  | Some insertion_idx =>
    let stub := tests_stub (construct_indent + 2) in
    let preview := "--- " +:+ path request +:+ ":" +:+ show_nat (line request) +:+ NL +:+ "+++ inserted tests block" +:+ NL +:+ stub in
    if negb (apply request) then mret (previewed preview) else
    let output := splice_before stub insertion_idx 0 lines +:+
                  (if (List.length lines <=? insertion_idx)%nat then stub else "") in
    _ ← write_file (path request) output;
    mret (applied preview)
  end.

Definition InsertTestsBlock : FixAction :=
  {| rule_code := "TEST-MISSING-AUTHORED-001"; execute_action := insert_tests_execute |}.

(** * [ERROR-VOCAB-MISSING-001] ([actions/scaffold_errors_block.rs]) *)

Definition has_errors_block (source : string) : bool :=
  existsb (fun line => let trimmed := trim_start line in (trimmed =? "errors") || starts_with "errors " trimmed) (str_lines source).

Definition feature_name_of (feature_line : string) : string :=
  default "unknown" (rest ← strip_prefix "feature " (trim_start feature_line); head (split_whitespace rest)).

Definition errors_stub (feature_name : string) : string :=
  "  errors" +:+ NL +:+ "    # @TODO authored: choose the 12 stable codes for `" +:+ feature_name +:+ "`" +:+ NL +:+
  "    not_found" +:+ NL +:+ "    invalid_request" +:+ NL +:+ "    forbidden" +:+ NL.

(** The rebuilding loop: the stub after line [anchor_idx]. *)
Fixpoint splice_after (stub : string) (anchor_idx idx : nat) (lines : list string) : string :=
  match lines with
  | [] => ""
  | line :: lines =>
    line +:+ NL +:+ (if (idx =? anchor_idx)%nat then stub else "") +:+ splice_after stub anchor_idx (S idx) lines
  end.

Definition scaffold_errors_execute (request : FixRequest) : fixM FixResult :=
  found ← path_exists (path request);
  if negb found then mret (skipped ("file does not exist: " +:+ path request)) else
  source ← read_to_string (path request);
  let lines := str_lines source in
  let anchor_idx := anchor_of request lines in
  let feature_name := feature_name_of (default "" (lines !! anchor_idx)) in
  if has_errors_block source then
    mret (no_change ("feature `" +:+ feature_name +:+ "` already has an errors block"))
  else
  let stub := errors_stub feature_name in
  let preview := "--- " +:+ path request +:+ ":" +:+ show_nat (line request) +:+ NL +:+
                 "+++ scaffold errors block in feature `" +:+ feature_name +:+ "`" +:+ NL +:+ stub in
  if negb (apply request) then mret (previewed preview) else
  _ ← write_file (path request) (splice_after stub anchor_idx 0 lines);
  mret (applied preview).

Definition ScaffoldErrorsBlock : FixAction :=
  {| rule_code := "ERROR-VOCAB-MISSING-001"; execute_action := scaffold_errors_execute |}.

(** * Entry points ([registry.rs], [lib.rs]) *)

Definition default_registry : FixRegistry :=
  register CommentProseFix (register DoctorAllowCommentToNode
    (register ScaffoldErrorsBlock (register InsertTestsBlock registry_new))).

Definition set_apply (b : bool) (request : FixRequest) : FixRequest :=
  {| rule := rule request; path := path request; line := line request; column := column request; apply := b |}.

Definition execute (request : FixRequest) : fixM FixResult := registry_execute default_registry request.
Definition preview (request : FixRequest) : fixM FixResult := registry_execute default_registry (set_apply false request).

(** * The contract of an action *)

(** An action answers from the request and the text of the file alone: a result
    that writes nothing, or a patch, its display and the new text. *)
Definition patch : Type := FixResult + string * string.

Definition run_plan (plan : FixRequest -> string -> patch) (request : FixRequest) : fixM FixResult :=
  found ← path_exists (path request);
  if negb found then mret (skipped ("file does not exist: " +:+ path request)) else
  source ← read_to_string (path request);
  match plan request source with
  | inl r => mret r
  | inr (text, output) =>
    if negb (apply request) then mret (previewed text) else
    _ ← write_file (path request) output;
    mret (applied text)
  end.

Lemma with_source_ext request (k k' : string -> fixM FixResult) fs :
  (forall s fs, content fs !! path request = Some s -> readable fs (path request) = true -> k s fs = k' s fs) ->
  (found ← path_exists (path request);
   if negb found then mret (skipped ("file does not exist: " +:+ path request)) else
   source ← read_to_string (path request); k source) fs =
  (found ← path_exists (path request);
   if negb found then mret (skipped ("file does not exist: " +:+ path request)) else
   source ← read_to_string (path request); k' source) fs.
Proof.
  intros H. cbv [mbind fixM_bind path_exists read_to_string mret fixM_ret].
  destruct (content fs !! path request) as [s|] eqn:E; [|done]. cbn [negb]. rewrite E.
  destruct (readable fs (path request)) eqn:Er; [|done]. by apply H.
Qed.

Definition silent (r : FixResult) : Prop := outcome r = NoChange \/ outcome r = Skipped.

Class Planned (a : FixAction) := {
  plan : FixRequest -> string -> patch;
  plan_run : forall request fs, execute_action a request fs = run_plan plan request fs;
  plan_apply : forall request b source, plan (set_apply b request) source = plan request source;
  plan_silent : forall request source r, plan request source = inl r -> silent r
}.

Definition doctor_allow_plan (request : FixRequest) (source : string) : patch :=
  let lines := str_lines source in
  let target_idx := line request - 1 in
  match lines !! target_idx with
  | None => inl (skipped (out_of_range request lines))
  | Some old_line =>
    match recognize_legacy_comment_line old_line with
    | None => inl (no_change ("line " +:+ show_nat (line request) +:+
                               " is not a legacy `# doctor:allow` comment (already migrated?)"))
    | Some (code, reason) =>
      let new_line := spaces (node_indent lines target_idx old_line) +:+ node_line code reason in
      inr (diff_text request old_line ("+" +:+ new_line), rejoin source (<[target_idx := new_line]> lines))
    end
  end.

#[export] Instance doctor_allow_planned : Planned DoctorAllowCommentToNode.
Proof.
  refine {| plan := doctor_allow_plan |}.
  - intros request fs. cbn [execute_action DoctorAllowCommentToNode]. unfold doctor_allow_execute, run_plan.
    apply with_source_ext. clear fs. intros s fs _ _. cbv beta zeta. unfold doctor_allow_plan.
    destruct (str_lines s !! _) as [old|]; [|done]. by destruct (recognize_legacy_comment_line old) as [[? ?]|].
  - done.
  - intros request source r. unfold doctor_allow_plan, silent. destruct (_ !! _) as [old|]; [|intros [= <-]; by right].
    destruct (recognize_legacy_comment_line old) as [[? ?]|]; [done|intros [= <-]; by left].
Defined.

Definition comment_prose_plan (request : FixRequest) (source : string) : patch :=
  let lines := str_lines source in
  let target_idx := line request - 1 in
  match lines !! target_idx with
  | None => inl (skipped (out_of_range request lines))
  | Some old_line =>
    match recognize_legacy_comment_line old_line with
    | Some _ => doctor_allow_plan request source
    | None =>
      match comment_body old_line with
      | None => inl (no_change ("line " +:+ show_nat (line request) +:+ " is not a `#` comment (already cleaned?)"))
      | Some (hash_byte, body) =>
        if negb (is_empty_body body || is_divider_body body) then
          inl (skipped ("line " +:+ show_nat (line request) +:+ " is prose (`#" +:+ body +:+
            "`) — MANUAL relocation required: move rationale to a `<feature>.ctx.md` context file, a construct's intent to its `purpose`/`doc`/`description` field, or a waiver to `@doctor.allow(CODE, reason: " +:+ quoted "..." +:+ ")`. The codemod will not guess a semantic move."))
        else
        let kept := trim_end (str_take hash_byte old_line) in
        if negb (trim (str_take hash_byte old_line) =? "") then
          inr (diff_text request old_line ("+" +:+ kept), rejoin source (<[target_idx := kept]> lines))
        else inr (diff_text request old_line "(line deleted)", rejoin source (delete target_idx lines))
      end
    end
  end.

#[export] Instance comment_prose_planned : Planned CommentProseFix.
Proof.
  refine {| plan := comment_prose_plan |}.
  - intros request fs. cbn [execute_action CommentProseFix]. unfold comment_prose_execute, run_plan.
    apply with_source_ext. clear fs. intros s fs Ec Er. cbv beta zeta. unfold comment_prose_plan. destruct (str_lines s !! _) as [old|] eqn:El; [|done].
    destruct (recognize_legacy_comment_line old) as [[c r]|] eqn:Eo.
    + rewrite (plan_run (a := DoctorAllowCommentToNode)). unfold run_plan, plan, doctor_allow_planned, doctor_allow_plan.
      unfold path_exists, read_to_string. cbv [mbind fixM_bind mret fixM_ret]. rewrite Ec. cbn [negb]. rewrite ?Ec, Er, El, Eo. done.
    + destruct (comment_body old) as [[h body]|]; [|done]. destruct (negb (is_empty_body body || is_divider_body body)); [done|].
      by destruct (negb (trim (str_take h old) =? "")).
  - done.
  - intros request source r. unfold comment_prose_plan. destruct (_ !! _) as [old|]; [|intros [= <-]; by right].
    destruct (recognize_legacy_comment_line old) as [[? ?]|]; [exact (plan_silent (a := DoctorAllowCommentToNode) request source r)|].
    destruct (comment_body old) as [[h body]|]; [|intros [= <-]; by left].
    destruct (negb (_ || _)); [intros [= <-]; by right|]. by destruct (negb _).
Defined.

Definition insert_tests_plan (request : FixRequest) (source : string) : patch :=
  let lines := str_lines source in
  let anchor_idx := anchor_of request lines in
  let construct_indent := leading_spaces (default "" (lines !! anchor_idx)) in
  match tests_scan (List.length lines) construct_indent (anchor_idx + 1) (List.skipn (anchor_idx + 1) lines) with
  | None => inl (no_change "construct already has a tests block; nothing to do")
  | Some insertion_idx =>
    let stub := tests_stub (construct_indent + 2) in
    inr ("--- " +:+ path request +:+ ":" +:+ show_nat (line request) +:+ NL +:+ "+++ inserted tests block" +:+ NL +:+ stub,
         splice_before stub insertion_idx 0 lines +:+ (if (List.length lines <=? insertion_idx)%nat then stub else ""))
  end.

#[export] Instance insert_tests_planned : Planned InsertTestsBlock.
Proof.
  refine {| plan := insert_tests_plan |}.
  - intros request fs. cbn [execute_action InsertTestsBlock]. unfold insert_tests_execute, run_plan.
    apply with_source_ext. clear fs. intros s fs _ _. cbv beta zeta. unfold insert_tests_plan. by destruct (tests_scan _ _ _ _).
  - done.
  - intros request source r. unfold insert_tests_plan. destruct (tests_scan _ _ _ _); [done|intros [= <-]; by left].
Defined.

Definition scaffold_errors_plan (request : FixRequest) (source : string) : patch :=
  let lines := str_lines source in
  let anchor_idx := anchor_of request lines in
  let feature_name := feature_name_of (default "" (lines !! anchor_idx)) in
  if has_errors_block source then inl (no_change ("feature `" +:+ feature_name +:+ "` already has an errors block"))
  else
  let stub := errors_stub feature_name in
  inr ("--- " +:+ path request +:+ ":" +:+ show_nat (line request) +:+ NL +:+
       "+++ scaffold errors block in feature `" +:+ feature_name +:+ "`" +:+ NL +:+ stub,
       splice_after stub anchor_idx 0 lines).

#[export] Instance scaffold_errors_planned : Planned ScaffoldErrorsBlock.
Proof.
  refine {| plan := scaffold_errors_plan |}.
  - intros request fs. cbn [execute_action ScaffoldErrorsBlock]. unfold scaffold_errors_execute, run_plan.
    apply with_source_ext. clear fs. intros s fs _ _. cbv beta zeta. unfold scaffold_errors_plan. by destruct (has_errors_block s).
  - done.
  - intros request source r. unfold scaffold_errors_plan. destruct (has_errors_block source); [intros [= <-]; by left|done].
Defined.

(** ** What a planned action does to the file system *)

Definition patched (fs : Fs) (path output : string) : Fs :=
  {| content := <[path := output]> (content fs); readable := readable fs; writable := writable fs |}.

(** The outcomes of one run, without and with [apply]. *)
Inductive ran (request : FixRequest) (fs : Fs) : result string FixResult * Fs -> result string FixResult * Fs -> Prop :=
| ran_silent r : silent r -> ran request fs (Ok r, fs) (Ok r, fs)
| ran_unreadable e : ran request fs (Err e, fs) (Err e, fs)
| ran_patch text output : writable fs (path request) = true ->
    ran request fs (Ok (previewed text), fs) (Ok (applied text), patched fs (path request) output)
| ran_unwritable text : writable fs (path request) = false ->
    ran request fs (Ok (previewed text), fs) (Err ("failed to write " +:+ path request), fs).

Lemma planned_ran a `{Planned a} request fs :
  ran request fs (execute_action a (set_apply false request) fs) (execute_action a (set_apply true request) fs).
Proof.
  rewrite !plan_run. unfold run_plan. cbv [mbind fixM_bind mret fixM_ret path_exists read_to_string].
  cbn [path set_apply apply]. destruct (content fs !! path request) as [s|] eqn:E; cbn [negb]; rewrite ?E.
  - destruct (readable fs (path request)); [|constructor]. rewrite !plan_apply.
    destruct (plan request s) as [r|[text output]] eqn:Ep; [constructor; by eapply plan_silent|].
    cbn [negb]. unfold write_file. destruct (writable fs (path request)) eqn:Ew; by constructor.
  - constructor. by right.
Qed.

Lemma ran_preview request fs p e : ran request fs p e ->
  p.2 = fs /\ (forall r, p.1 = Ok r -> outcome r <> Applied).
Proof.
  destruct 1 as [r Hr| | |]; (split; [done|]); cbn; try done; intros r' [= <-]; [|done|done].
  intros E. destruct Hr as [Hr|Hr]; congruence.
Qed.

Lemma registry_lookup code a : default_registry !! code = Some a ->
  a = CommentProseFix \/ a = DoctorAllowCommentToNode \/ a = ScaffoldErrorsBlock \/ a = InsertTestsBlock.
Proof.
  unfold default_registry, register, registry_new, FixRegistry.
  intros H. repeat (apply lookup_insert_Some in H as [[_ <-]|[_ H]]; [tauto|]). done.
Qed.

(** Whatever the request, previewing it writes nothing and reports no applied
    fix; applying it either does nothing at all, or writes the one file of the
    request and reports as its patch the text the preview showed; when the file
    cannot be written it fails and the files are as before. *)
Theorem preview_faithful request fs :
  (preview request fs).2 = fs /\ (forall r, (preview request fs).1 = Ok r -> outcome r <> Applied) /\
  ran request fs (preview request fs) (execute (set_apply true request) fs).
Proof.
  assert (H : ran request fs (preview request fs) (execute (set_apply true request) fs)).
  { unfold preview, execute, registry_execute. cbn [rule set_apply].
    destruct (default_registry !! rule request) as [a|] eqn:E; [|constructor; by right].
    apply registry_lookup in E as [->|[->|[->| ->]]]; eapply planned_ran; exact _. }
  destruct (ran_preview _ _ _ _ H) as [H1 H2]. by split_and!.
Qed.

(** * Lines of a rewritten file *)

Lemma ends_with_last l s : lacks LF l -> l <> "" -> ends_with NL (s +:+ l) = false.
Proof.
  intros H Hne. destruct (ends_with NL (s +:+ l)) eqn:E; [|done]. exfalso. apply ends_with_strip in E as [t Et].
  destruct (str_snoc l) as [->|(r & a & ->)]; [done|]. rewrite <- sapp_assoc in Et. apply (f_equal last_byte) in Et.
  unfold NL in Et. rewrite !last_byte_snoc in Et. injection Et as ->. rewrite str_all_app in H.
  apply andb_true_iff in H as [_ H]. by vm_compute in H.
Qed.

Definition ends_nl (ls : list string) (l : string) : bool :=
  match ls with [] => false | _ => l =? "" end.

Lemma ends_with_join ls l : plain_line l = true -> ends_with NL (join NL (ls ++ [l])) = ends_nl ls l.
Proof.
  intros [Hl _]%plain_line_iff. destruct ls as [|x ls].
  - cbn [app join ends_nl]. destruct (decide (l = "")) as [->|Hne]; [done|]. by apply (ends_with_last l "").
  - rewrite join_snoc by done. cbn [ends_nl]. destruct (String.eqb_spec l "") as [->|Hne].
    + rewrite sapp_nil_r. apply ends_with_strip. eauto.
    + rewrite <- sapp_assoc. by apply ends_with_last.
Qed.

Lemma source_shape source : lacks CR source -> exists ls l,
  Forall (fun l => plain_line l = true) (ls ++ [l]) /\ source = join NL (ls ++ [l]) /\
  str_lines source = (ls ++ if l =? "" then [] else [l])%list /\ ends_with NL source = ends_nl ls l.
Proof.
  intros H. destruct (source_parts source H) as (ls & l & -> & Hp). exists ls, l. split_and!; [done|done|by apply str_lines_join|].
  apply ends_with_join. apply Forall_app in Hp as [_ Hp]. by inversion_clear Hp.
Qed.

Lemma str_lines_plain source : lacks CR source -> Forall (fun l => plain_line l = true) (str_lines source).
Proof.
  intros H. destruct (source_shape source H) as (ls & l & Hp & _ & -> & _). apply Forall_app in Hp as [Hp Hl].
  apply Forall_app. split; [done|]. by destruct (l =? "").
Qed.

(** Writing lines back keeps them and the trailing newline, unless the last one
    is empty in a file without trailing newline. *)
Lemma rejoin_lines source ls : Forall (fun l => plain_line l = true) ls -> ls <> [] ->
  (ends_with NL source = true \/ last ls <> Some "") ->
  str_lines (rejoin source ls) = ls /\ ends_with NL (rejoin source ls) = ends_with NL source.
Proof.
  intros Hp Hne Hlast. unfold rejoin. destruct (ends_with NL source) eqn:E.
  - rewrite <- (sapp_nil_r NL), <- join_snoc by done.
    assert (Hp' : Forall (fun l => plain_line l = true) (ls ++ [""])) by (apply Forall_app; by repeat constructor).
    rewrite str_lines_join, ends_with_join by done. cbn. rewrite app_nil_r. by destruct ls.
  - destruct Hlast as [|Hlast]; [done|]. destruct (exists_last Hne) as (a & x & ->). rewrite last_snoc in Hlast.
    rewrite str_lines_join, ends_with_join by (done || by apply Forall_app in Hp as [_ Hp]; inversion_clear Hp).
    destruct (String.eqb_spec x "") as [->|Hx]; [done|]. split; [done|]. destruct a; [done|]. cbn. by apply String.eqb_neq.
Qed.

Lemma last_nonempty source : lacks CR source -> ends_with NL source = true \/ last (str_lines source) <> Some "".
Proof.
  intros H. destruct (source_shape source H) as (ls & l & _ & _ & -> & ->). destruct (String.eqb_spec l "") as [->|Hl].
  - destruct ls; [right|left]; done.
  - right. rewrite last_snoc. congruence.
Qed.

Lemma last_insert_ne (ls : list string) i x : last ls <> Some "" -> x <> "" -> last (<[i := x]> ls) <> Some "".
Proof.
  rewrite !last_lookup, length_insert. intros Hl Hx. destruct (decide (pred (length ls) = i)) as [<-|Hi].
  - destruct (decide (ls = [])) as [->|Hne]; [done|]. rewrite list_lookup_insert_eq; [congruence|]. destruct ls; [done|cbn; lia].
  - by rewrite list_lookup_insert_ne.
Qed.

(** * The waiver migration *)

Lemma str_all_take p n s : str_all p s = true -> str_all p (str_take n s) = true.
Proof. rewrite <- (take_drop_id n s) at 1. rewrite str_all_app. intros H. by bool_prop. Qed.
Lemma str_all_drop p n s : str_all p s = true -> str_all p (str_drop n s) = true.
Proof. rewrite <- (take_drop_id n s) at 1. rewrite str_all_app. intros H. by bool_prop. Qed.

Lemma str_all_trim_start p s : str_all p s = true -> str_all p (trim_start s) = true.
Proof. destruct (trim_start_suffix s) as [w E]. rewrite E at 1. rewrite str_all_app. intros H. by bool_prop. Qed.

Lemma split_ws_go_all p s cur skip : str_all p s = true -> str_all p cur = true ->
  Forall (fun w => str_all p w = true) (split_ws_go s cur skip).
Proof.
  revert cur skip. induction s as [|b s IH]; intros cur skip Hs Hc; cbn [split_ws_go].
  - destruct (cur =? ""); by repeat constructor.
  - pose proof Hs as Hs'. cbn in Hs'. bool_prop. destruct skip; [|by apply IH].
    destruct (ws_len (String b s)).
    + apply IH; [done|]. rewrite str_all_app, Hc. cbn. by rewrite H.
    + destruct (cur =? ""); [by apply IH|]. constructor; [done|by apply IH].
Qed.

Lemma find_quote_lacks s n : find_quote s = Some n -> lacks DQ (str_take n s).
Proof. intros H. by apply find_byte_Some in H as [_ H]. Qed.

Lemma recognize_legacy_parts l c r : recognize_legacy_comment_line l = Some (c, r) -> plain_line l = true ->
  plain_line c = true /\ clean_reason r = true /\ (forall s, r = Some s -> plain_line s = true).
Proof.
  unfold recognize_legacy_comment_line. intros H Hl. destruct (str_find KEYWORD (str_lower l)) as [pos|]; [|done].
  cbn [mbind option_bind] in H. destruct (negb _); [done|]. set (after := trim_start _) in H.
  assert (Ha : plain_line after = true) by (by apply str_all_trim_start, str_all_drop).
  pose proof (split_ws_go_all _ after "" 0 Ha eq_refl) as Hw. fold (split_whitespace after) in Hw.
  destruct (split_whitespace after) as [|w ws]; [done|]. cbn [head mbind option_bind] in H. inversion_clear Hw as [|? ? Hw0 _].
  destruct (w =? ""); [done|]. injection H as <- <-. split; [done|].
  destruct (str_find "reason" (str_lower after)) as [rp|]; [|done]. cbn [mbind option_bind]. unfold extract_reason_after.
  destruct (find_quote _) as [open|]; [|done]. cbn [mbind option_bind].
  destruct (find_quote (str_drop (open + 1) _)) as [close|] eqn:Eq; [|done]. cbn [mbind option_bind]. split.
  - by apply find_quote_lacks.
  - intros s [= <-]. by apply str_all_take, str_all_drop, str_all_drop.
Qed.

Lemma plain_spaces n : plain_line (spaces n) = true.
Proof. by induction n. Qed.

Lemma plain_node n c r : plain_line c = true -> (forall s, r = Some s -> plain_line s = true) ->
  plain_line (spaces n +:+ node_line c r) = true.
Proof.
  intros Hc Hr. rewrite plain_app, plain_spaces. cbn [andb]. destruct r as [s|]; cbn [node_line]; rewrite !plain_app, Hc.
  - unfold quoted. change (String DQ (s +:+ String DQ "")) with (String DQ "" +:+ s +:+ String DQ ""). by rewrite !plain_app, (Hr s).
  - done.
Qed.

(** ** The migrated line is no legacy comment *)

Lemma str_lower_app a b : str_lower (a +:+ b) = str_lower a +:+ str_lower b.
Proof. induction a; cbn; [done|]. by rewrite IHa. Qed.

Lemma str_lower_spaces n : str_lower (spaces n) = spaces n.
Proof. induction n; cbn; [done|]. by rewrite IHn. Qed.

Lemma take_app_le n a b : n <= str_len a -> str_take n (a +:+ b) = str_take n a.
Proof. revert a. induction n as [|n IH]; intros [|x a]; cbn; intros H; try done; [lia|]. rewrite IH by lia. done. Qed.

Lemma byte_at_app_l a b i x : byte_at a i = Some x -> byte_at (a +:+ b) i = Some x.
Proof. revert i. induction a as [|y a IH]; intros [|i]; cbn; try done. apply IH. Qed.

(** An occurrence does not straddle a byte the needle lacks. *)
Lemma contains_split k a c b : lacks c k -> contains k (a +:+ String c b) = contains k a || contains k b.
Proof.
  intros Hk. apply eq_bool_prop_intro. rewrite orb_True, !Is_true_true, !contains_iff. split.
  - intros (x & y & E). destruct (Nat.le_gt_cases (str_len x + str_len k) (str_len a)) as [H1|H1].
    + left. exists x, (str_drop (str_len (x +:+ k)) a). rewrite <- sapp_assoc.
      assert (x +:+ k = str_take (str_len (x +:+ k)) a) as E'.
      { rewrite <- (take_app_le _ a (String c b)) by (rewrite len_app; lia). by rewrite E, <- sapp_assoc, take_app. }
      rewrite E' at 1. by rewrite take_drop_id.
    + destruct (Nat.le_gt_cases (str_len x) (str_len a)) as [H2|H2].
      * exfalso. destruct (byte_at_lt k (str_len a - str_len x)) as [d Hd]; [lia|].
        pose proof (byte_at_app a (String c b) 0) as Hb. rewrite Nat.add_0_r, E in Hb. cbn [byte_at] in Hb.
        replace (str_len a) with (str_len x + (str_len a - str_len x)) in Hb by lia.
        rewrite byte_at_app, (byte_at_app_l k y _ d Hd) in Hb. injection Hb as ->.
        apply (str_all_byte_at _ _ _ _ Hk) in Hd. by rewrite Ascii.eqb_refl in Hd.
      * right. exists (str_drop (str_len a + 1) x), y. rewrite <- drop_app_le by lia. rewrite <- E.
        by rewrite <- drop_drop, drop_app.
  - intros [(x & y & ->)|(x & y & ->)].
    + exists x, (y +:+ String c b). by rewrite !sapp_assoc.
    + exists (a +:+ String c x), y. by rewrite !sapp_assoc.
Qed.

Lemma contains_lacks k s d : lacks d s -> str_all (fun b => negb (b =a? d)) k = false -> contains k s = false.
Proof.
  intros Hs Hk. destruct (contains k s) eqn:E; [|done]. apply contains_iff in E as (a & b & ->).
  rewrite !str_all_app, Hk in Hs. by destruct (str_all _ a).
Qed.

Lemma contains_spaces n s : contains KEYWORD (spaces n +:+ s) = contains KEYWORD s.
Proof.
  induction n as [|n IH]; [done|]. cbn [spaces String.append].
  change (String " " (spaces n +:+ s)) with ("" +:+ String " " (spaces n +:+ s)). rewrite contains_split, IH by done. done.
Qed.

(** The reason mentions the legacy keyword itself. *)
Definition reason_mentions (r : option string) : bool :=
  match r with Some s => contains KEYWORD (str_lower s) | None => false end.

Lemma lower_colon b : (to_ascii_lowercase b =a? ":") = (b =a? ":").
Proof. by_bytes b. Qed.

Lemma lower_lacks_colon s : lacks ":" s -> lacks ":" (str_lower s).
Proof. induction s as [|b s IH]; [done|]. cbn. intros H. bool_prop. by rewrite lower_colon, H, IH. Qed.

Lemma node_not_legacy n c r : clean_code c = true -> reason_mentions r = false ->
  recognize_legacy_comment_line (spaces n +:+ node_line c r) = None.
Proof.
  intros (_ & Hc & Hk)%clean_code_iff Hr. unfold recognize_legacy_comment_line.
  assert (contains KEYWORD (str_lower (spaces n +:+ node_line c r)) = false) as H.
  { rewrite str_lower_app, str_lower_spaces, contains_spaces.
    assert (Hcode : contains KEYWORD (str_lower c) = false) by (by apply (contains_lacks _ _ ":"); [apply lower_lacks_colon|]).
    destruct r as [s|]; cbn [node_line]; rewrite !str_lower_app.
    - change (str_lower "@doctor.allow(") with "@doctor.allow(". change (str_lower ", reason: ") with ", reason: ".
      change (str_lower (quoted s)) with (String DQ (str_lower (s +:+ String DQ ""))). rewrite str_lower_app.
      change (str_lower (String DQ "")) with (String DQ ""). change (str_lower ")") with ")".
      match goal with |- contains _ ?t = false => replace t with
        ("@doctor.allow" +:+ String "(" (str_lower c +:+ String "," (" reason: " +:+ String DQ (str_lower s +:+ String DQ ")")))) by (by flat) end.
      rewrite !contains_split, Hcode by done. cbn [reason_mentions] in Hr. by rewrite Hr.
    - change (str_lower "@doctor.allow(") with "@doctor.allow(". change (str_lower ")") with ")".
      change ("@doctor.allow(" +:+ str_lower c +:+ ")") with ("@doctor.allow" +:+ String "(" (str_lower c +:+ String ")" "")).
      rewrite !contains_split, Hcode by done. done. }
  unfold contains in H. by destruct (str_find KEYWORD _).
Qed.

(** ** The fix *)

(** The requests, files and lines the migration works on. *)
Definition migrates (request : FixRequest) (fs : Fs) (source old c : string) (r : option string) : Prop :=
  rule request = "DOCTOR-ALLOW-LEGACY-COMMENT-001" /\ apply request = true /\
  content fs !! path request = Some source /\ readable fs (path request) = true /\ writable fs (path request) = true /\
  lacks CR source /\ str_lines source !! (line request - 1) = Some old /\
  recognize_legacy_comment_line old = Some (c, r) /\ clean_code c = true.

Lemma execute_doctor_allow request fs : rule request = "DOCTOR-ALLOW-LEGACY-COMMENT-001" ->
  execute request fs = run_plan doctor_allow_plan request fs.
Proof.
  intros H. unfold execute, registry_execute. rewrite H.
  change (default_registry !! "DOCTOR-ALLOW-LEGACY-COMMENT-001") with (Some DoctorAllowCommentToNode).
  exact (plan_run (a := DoctorAllowCommentToNode) request fs).
Qed.

Lemma run_plan_patch pl request fs source text output :
  content fs !! path request = Some source -> readable fs (path request) = true -> writable fs (path request) = true ->
  apply request = true -> pl request source = inr (text, output) ->
  run_plan pl request fs = (Ok (applied text), patched fs (path request) output).
Proof.
  intros Hc Hr Hw Ha Hp. unfold run_plan, path_exists, read_to_string, write_file. cbv [mbind fixM_bind mret fixM_ret].
  rewrite Hc. cbn [negb]. rewrite Hc, Hr, Hp, Ha. cbn [negb]. by rewrite Hw.
Qed.

Lemma run_plan_result pl request fs source r :
  content fs !! path request = Some source -> readable fs (path request) = true -> pl request source = inl r ->
  run_plan pl request fs = (Ok r, fs).
Proof.
  intros Hc Hr Hp. unfold run_plan, path_exists, read_to_string. cbv [mbind fixM_bind mret fixM_ret].
  rewrite Hc. cbn [negb]. by rewrite Hc, Hr, Hp.
Qed.

Lemma node_indent_ge lines i old : leading_spaces old <= node_indent lines i old.
Proof. unfold node_indent. destruct (next_construct_indent _ _); [|done]. destruct (Nat.ltb_spec (leading_spaces old) n); lia. Qed.

Lemma spaces_node_ne n c r : spaces n +:+ node_line c r <> "".
Proof. destruct n; [by destruct r|done]. Qed.

(** Applying the migration of a legacy comment replaces that one line and no
    other, never moves it left and keeps the trailing newline; the new line
    reads back as the same waiver, the doctor rules still honour the code, and a
    second run changes nothing unless the reason quotes the legacy keyword. *)
Theorem migration_exact request fs source old c r : migrates request fs source old c r ->
  exists text source' n,
    execute request fs = (Ok (applied text), patched fs (path request) source') /\
    leading_spaces old <= n /\
    str_lines source' = <[line request - 1 := spaces n +:+ node_line c r]> (str_lines source) /\
    ends_with NL source' = ends_with NL source /\
    recognize_node_line (spaces n +:+ node_line c r) = Some (c, r) /\
    source_contains_doctor_allow source' c = true /\
    (reason_mentions r = false -> exists why,
      execute request (patched fs (path request) source') = (Ok (no_change why), patched fs (path request) source')).
Proof.
  intros (Hrule & Ha & Hc & Hr & Hw & Hcr & Hold & Hleg & Hcode).
  pose proof (str_lines_plain source Hcr) as Hplain.
  assert (Hp : plain_line old = true) by (by apply (Forall_lookup_1 _ _ _ _ Hplain Hold)).
  destruct (recognize_legacy_parts old c r Hleg Hp) as (Hpc & Hcr' & Hpr).
  set (n := node_indent (str_lines source) (line request - 1) old). set (new := spaces n +:+ node_line c r).
  set (lines' := <[line request - 1 := new]> (str_lines source)).
  assert (Hrec : recognize_node_line new = Some (c, r)) by (by apply recognize_node).
  assert (Hlt : line request - 1 < length (str_lines source)) by (by eapply lookup_lt_Some).
  destruct (rejoin_lines source lines') as [Hl He].
  { by apply Forall_insert, plain_node. }
  { unfold lines'. intros E. apply (f_equal length) in E. rewrite length_insert in E. cbn in E. lia. }
  { destruct (last_nonempty source Hcr) as [|Hlast]; [by left|right]. by apply last_insert_ne, spaces_node_ne. }
  eexists _, (rejoin source lines'), n. split_and!; [|apply node_indent_ge|done|done|done| |].
  - rewrite execute_doctor_allow by done. eapply run_plan_patch; try done. unfold doctor_allow_plan. rewrite Hold, Hleg. done.
  - unfold source_contains_doctor_allow. apply existsb_exists. exists new. split; [|by eapply line_allows_node].
    rewrite Hl. apply list_elem_of_In. eapply list_elem_of_lookup_2. by apply list_lookup_insert_eq.
  - intros Hm. eexists. rewrite execute_doctor_allow by done. eapply run_plan_result.
    + cbn. by rewrite lookup_insert_eq.
    + done.
    + unfold doctor_allow_plan. rewrite Hl. unfold lines'. rewrite list_lookup_insert_eq by done.
      unfold new. by rewrite node_not_legacy.
Qed.

(** * The inserted blocks *)

Definition tests_stub_lines (indent : nat) : list string :=
  [spaces indent +:+ "tests"; spaces indent +:+ "  # @TODO authored: cover policy + requires-predicate";
   spaces indent +:+ "  allows as @role.editor"; spaces indent +:+ "  denies as @role.viewer"].

Lemma tests_stub_unlines indent : tests_stub indent = unlines (tests_stub_lines indent).
Proof. unfold tests_stub, unlines. cbn [foldr tests_stub_lines]. by rewrite !sapp_assoc, sapp_nil_r. Qed.

Lemma splice_before_spec stub i idx lines : idx <= i ->
  splice_before stub i idx lines +:+ (if (idx + length lines <=? i)%nat then stub else "") =
  unlines (take (i - idx) lines) +:+ stub +:+ unlines (drop (i - idx) lines).
Proof.
  revert idx. induction lines as [|l lines IH]; intros idx Hi; cbn [splice_before length].
  - rewrite firstn_nil, skipn_nil, Nat.add_0_r. destruct (Nat.leb_spec idx i); [|lia]. cbn. by rewrite sapp_nil_r.
  - destruct (Nat.eqb_spec idx i) as [->|Hne].
    + rewrite Nat.sub_diag. cbn [take drop]. destruct (Nat.leb_spec (i + S (length lines)) i); [lia|].
      rewrite sapp_nil_r. change (unlines []) with "". cbn [String.append]. f_equal. cbn [unlines foldr]. fold (unlines lines). f_equal. f_equal.
      clear IH Hi H. assert (Hs : forall k, i < k -> splice_before stub i k lines = unlines lines).
      { induction lines as [|x lines IH]; intros k Hk; [done|]. cbn [splice_before unlines foldr]. fold (unlines lines).
        destruct (Nat.eqb_spec k i); [lia|]. rewrite IH by lia. done. }
      apply Hs. lia.
    + replace (i - idx) with (S (i - S idx)) by lia. cbn [take drop String.append]. specialize (IH (S idx)).
      replace (idx + S (length lines)) with (S idx + length lines) by lia. rewrite sapp_assoc, sapp_assoc, IH by lia.
      cbn [unlines foldr]. by rewrite !sapp_assoc.
Qed.

(** The lines of a construct's body: blank, comment, or indented deeper. *)
Definition in_body (construct_indent : nat) (l : string) : bool :=
  blank_or_comment (trim_start l) || (construct_indent <? leading_spaces l)%nat.
Fixpoint body_len (construct_indent : nat) (rest : list string) : nat :=
  match rest with
  | l :: rest => if in_body construct_indent l then S (body_len construct_indent rest) else 0
  | [] => 0
  end.
Definition is_tests_line (construct_indent : nat) (l : string) : bool :=
  negb (blank_or_comment (trim_start l)) && (leading_spaces l =? construct_indent + 2)%nat && is_tests_head (trim_start l).
Definition has_tests (construct_indent : nat) (rest : list string) : bool :=
  existsb (is_tests_line construct_indent) (take (body_len construct_indent rest) rest).

Lemma tests_scan_spec n ci off rest : n = off + length rest ->
  tests_scan n ci off rest = if has_tests ci rest then None else Some (off + body_len ci rest).
Proof.
  unfold has_tests. revert off. induction rest as [|l rest IH]; intros off Hn; cbn [tests_scan body_len length] in *.
  - cbn. f_equal. lia.
  - unfold in_body. specialize (IH (S off) ltac:(lia)).
    destruct (blank_or_comment (trim_start l)) eqn:Eb; cbn [orb].
    + cbn [take existsb]. unfold is_tests_line at 1. rewrite Eb. cbn [negb andb orb]. rewrite IH.
      destruct (existsb _ _); [done|]. f_equal. lia.
    + destruct (Nat.leb_spec (leading_spaces l) ci), (Nat.ltb_spec ci (leading_spaces l)); try lia.
      * cbn. f_equal. lia.
      * cbn [take existsb]. unfold is_tests_line at 1. rewrite Eb. cbn [negb andb].
        destruct ((leading_spaces l =? ci + 2)%nat && is_tests_head (trim_start l)); [done|]. cbn [orb]. rewrite IH.
        destruct (existsb _ _); [done|]. f_equal. lia.
Qed.

Lemma body_len_le ci rest : body_len ci rest <= length rest.
Proof. induction rest as [|l rest IH]; cbn; [done|]. destruct (in_body ci l); lia. Qed.

Lemma body_len_insert ci rest l more : in_body ci l = true ->
  exists k, body_len ci (take (body_len ci rest) rest ++ l :: more) = S (body_len ci rest + k).
Proof.
  intros Hl. induction rest as [|x rest IH]; cbn.
  - rewrite Hl. eexists. reflexivity.
  - destruct (in_body ci x) eqn:E; cbn; [|rewrite Hl; by eexists]. rewrite E. destruct IH as [k ->]. by exists k.
Qed.

(** A block put at the end of the body is found by the next scan. *)
Lemma has_tests_insert ci rest l more : in_body ci l = true -> is_tests_line ci l = true ->
  has_tests ci (take (body_len ci rest) rest ++ l :: more) = true.
Proof.
  intros Hb Ht. unfold has_tests. destruct (body_len_insert ci rest l more Hb) as [k Hk]. rewrite Hk.
  apply existsb_exists. exists l. split; [|done]. apply list_elem_of_In, (list_elem_of_lookup_2 _ (body_len ci rest)).
  pose proof (body_len_le ci rest). rewrite lookup_take_lt by lia. rewrite lookup_app_r by (rewrite length_take; lia).
  rewrite length_take. by replace (body_len ci rest - _) with 0 by lia.
Qed.

Lemma leading_spaces_tests n : leading_spaces (spaces n +:+ "tests") = n.
Proof. induction n; cbn; [done|]. f_equal. apply IHn. Qed.

Lemma stub_head_tests ci : in_body ci (spaces (ci + 2) +:+ "tests") = true /\ is_tests_line ci (spaces (ci + 2) +:+ "tests") = true.
Proof.
  unfold in_body, is_tests_line. rewrite leading_spaces_tests, (trim_start_spaces _ "t" "ests") by done.
  rewrite Nat.eqb_refl, orb_comm. split; [|done]. destruct (Nat.ltb_spec ci (ci + 2)); [done|lia].
Qed.

Lemma tests_stub_plain n : Forall (fun l => plain_line l = true) (tests_stub_lines n).
Proof. unfold tests_stub_lines. repeat (constructor; [by rewrite plain_app, plain_spaces|]). constructor. Qed.

(** A request and a file an action works on, the anchor line being in the file. *)
Definition anchored (request : FixRequest) (fs : Fs) (source : string) : Prop :=
  apply request = true /\ content fs !! path request = Some source /\
  readable fs (path request) = true /\ writable fs (path request) = true /\
  lacks CR source /\ line request - 1 < length (str_lines source).

Lemma execute_insert_tests request fs : rule request = "TEST-MISSING-AUTHORED-001" ->
  execute request fs = run_plan insert_tests_plan request fs.
Proof.
  intros H. unfold execute, registry_execute. rewrite H.
  change (default_registry !! "TEST-MISSING-AUTHORED-001") with (Some InsertTestsBlock).
  exact (plan_run (a := InsertTestsBlock) request fs).
Qed.

Lemma anchor_in request lines : line request - 1 < length lines -> anchor_of request lines = line request - 1.
Proof. unfold anchor_of. lia. Qed.

Lemma insert_tests_plan_spec request source : line request - 1 < length (str_lines source) ->
  let lines := str_lines source in
  let a := line request - 1 in
  let ci := leading_spaces (default "" (lines !! a)) in
  let e := a + 1 + body_len ci (drop (a + 1) lines) in
  insert_tests_plan request source =
  if has_tests ci (drop (a + 1) lines) then inl (no_change "construct already has a tests block; nothing to do")
  else inr ("--- " +:+ path request +:+ ":" +:+ show_nat (line request) +:+ NL +:+ "+++ inserted tests block" +:+ NL +:+ tests_stub (ci + 2),
            unlines (take e lines ++ tests_stub_lines (ci + 2) ++ drop e lines)).
Proof.
  intros Ha. cbv zeta. unfold insert_tests_plan. rewrite anchor_in by done. rewrite tests_scan_spec by (rewrite length_drop; lia).
  destruct (has_tests _ _); [done|]. do 2 f_equal.
  pose proof (splice_before_spec (tests_stub (leading_spaces (default "" (str_lines source !! (line request - 1))) + 2))
    (line request - 1 + 1 + body_len (leading_spaces (default "" (str_lines source !! (line request - 1)))) (drop (line request - 1 + 1) (str_lines source)))
    0 (str_lines source) ltac:(lia)) as H.
  rewrite Nat.add_0_l, Nat.sub_0_r in H. rewrite H. by rewrite !unlines_app, tests_stub_unlines.
Qed.

Lemma Forall_insert_block (P : string -> Prop) e (lines block : list string) :
  Forall P lines -> Forall P block -> Forall P (take e lines ++ block ++ drop e lines).
Proof. intros Hl Hb. rewrite !Forall_app. split_and!; [by apply Forall_take|done|by apply Forall_drop]. Qed.

Lemma drop_app_le_list (l k : list string) n : n <= length l -> drop n (l ++ k) = (drop n l ++ k)%list.
Proof. intros H. rewrite skipn_app. by replace (n - length l) with 0 by lia. Qed.

(** On a construct whose body has a [tests] block the fix reports that nothing
    changes; otherwise it puts the block right after the body, keeps every other
    line, and a second run changes nothing. *)
Theorem insert_tests_exact request fs source :
  rule request = "TEST-MISSING-AUTHORED-001" -> anchored request fs source ->
  let lines := str_lines source in
  let a := line request - 1 in
  let ci := leading_spaces (default "" (lines !! a)) in
  let e := a + 1 + body_len ci (drop (a + 1) lines) in
  if has_tests ci (drop (a + 1) lines) then
    exists why, execute request fs = (Ok (no_change why), fs)
  else exists text source',
    execute request fs = (Ok (applied text), patched fs (path request) source') /\
    str_lines source' = (take e lines ++ tests_stub_lines (ci + 2) ++ drop e lines)%list /\
    exists why, execute request (patched fs (path request) source') = (Ok (no_change why), patched fs (path request) source').
Proof.
  intros Hrule (Happ & Hc & Hr & Hw & Hcr & Ha) lines a ci e.
  pose proof (insert_tests_plan_spec request source Ha) as Hplan. cbv zeta in Hplan. fold lines a ci e in Hplan.
  destruct (has_tests ci (drop (a + 1) lines)) eqn:Ht.
  - eexists. rewrite execute_insert_tests by done. by eapply run_plan_result.
  - eexists _, _. split; [rewrite execute_insert_tests by done; by eapply run_plan_patch|].
    set (lines' := (take e lines ++ tests_stub_lines (ci + 2) ++ drop e lines)%list).
    assert (Hl : str_lines (unlines lines') = lines').
    { apply str_lines_unlines, Forall_insert_block; [by apply str_lines_plain|apply tests_stub_plain]. }
    split; [done|]. eexists. rewrite execute_insert_tests by done. eapply run_plan_result; [cbn; by rewrite lookup_insert_eq|done|].
    pose proof (body_len_le ci (drop (a + 1) lines)) as Hb. rewrite length_drop in Hb.
    assert (Hal : a < length lines) by exact Ha. assert (Hae : a < e) by (unfold e; lia).
    assert (Hlen : length (take e lines) = e) by (rewrite length_take; unfold e in *; lia).
    assert (Hanchor : lines' !! a = lines !! a) by (unfold lines'; rewrite lookup_app_l, lookup_take_lt by (rewrite ?Hlen; exact Hae); done).
    rewrite insert_tests_plan_spec by (rewrite Hl; unfold lines'; rewrite !length_app, Hlen; fold a; clear -Hae; lia). cbv zeta.
    rewrite Hl. fold a. rewrite Hanchor. fold ci.
    assert (Hd : drop (a + 1) lines' = (take (body_len ci (drop (a + 1) lines)) (drop (a + 1) lines) ++
      (spaces (ci + 2) +:+ "tests") :: (tail (tests_stub_lines (ci + 2)) ++ drop e lines))%list).
    { unfold lines'. rewrite (drop_app_le_list _ _ (a + 1)) by (rewrite Hlen; clear -Hae; lia). rewrite skipn_firstn_comm. unfold e. f_equal.
      by replace (a + 1 + body_len ci (drop (a + 1) lines) - (a + 1)) with (body_len ci (drop (a + 1) lines)) by lia. }
    rewrite Hd. destruct (stub_head_tests ci). by rewrite has_tests_insert.
Qed.

Definition errors_stub_lines (feature_name : string) : list string :=
  ["  errors"; "    # @TODO authored: choose the 12 stable codes for `" +:+ feature_name +:+ "`";
   "    not_found"; "    invalid_request"; "    forbidden"].

Lemma errors_stub_unlines f : errors_stub f = unlines (errors_stub_lines f).
Proof.
  unfold errors_stub, errors_stub_lines, unlines, foldr. rewrite sapp_nil_r.
  set (x := "    # @TODO authored: choose the 12 stable codes for `"). by rewrite !sapp_assoc.
Qed.

Lemma feature_name_plain l : plain_line l = true -> plain_line (feature_name_of l) = true.
Proof.
  intros H. unfold feature_name_of. destruct (strip_prefix "feature " (trim_start l)) as [rest|] eqn:E; [|done].
  cbn [mbind option_bind]. apply strip_prefix_Some in E. apply str_all_trim_start in H. rewrite E, str_all_app in H. bool_prop.
  pose proof (split_ws_go_all _ rest "" 0 H0 eq_refl) as Hw. unfold split_whitespace.
  destruct (split_ws_go rest "" 0) as [|w ws]; [done|]. by inversion_clear Hw.
Qed.

Lemma splice_after_spec stub i idx lines : idx <= i < idx + length lines ->
  splice_after stub i idx lines = unlines (take (S i - idx) lines) +:+ stub +:+ unlines (drop (S i - idx) lines).
Proof.
  revert idx. induction lines as [|l lines IH]; intros idx Hi; cbn [splice_after length] in *; [lia|].
  destruct (Nat.eqb_spec idx i) as [->|Hne].
  - replace (S i - i) with 1 by lia. cbn [take drop unlines foldr]. fold (unlines lines). rewrite sapp_nil_r, !sapp_assoc.
    do 3 f_equal. clear IH Hi. assert (Hs : forall k, i < k -> splice_after stub i k lines = unlines lines).
    { induction lines as [|x lines IH]; intros k Hk; [done|]. cbn [splice_after unlines foldr]. fold (unlines lines).
      destruct (Nat.eqb_spec k i); [lia|]. rewrite IH by lia. done. }
    apply Hs. lia.
  - replace (S i - idx) with (S (S i - S idx)) by lia. cbn [take drop String.append]. rewrite (IH (S idx)) by lia.
    cbn [unlines foldr]. by rewrite !sapp_assoc.
Qed.

Lemma execute_scaffold_errors request fs : rule request = "ERROR-VOCAB-MISSING-001" ->
  execute request fs = run_plan scaffold_errors_plan request fs.
Proof.
  intros H. unfold execute, registry_execute. rewrite H.
  change (default_registry !! "ERROR-VOCAB-MISSING-001") with (Some ScaffoldErrorsBlock).
  exact (plan_run (a := ScaffoldErrorsBlock) request fs).
Qed.

(** On a file with an [errors] block anywhere the fix reports that nothing
    changes; otherwise it puts the block right after the anchor line, keeps every
    other line, and a second run changes nothing. *)
Theorem scaffold_errors_exact request fs source :
  rule request = "ERROR-VOCAB-MISSING-001" -> anchored request fs source ->
  let lines := str_lines source in
  let a := line request - 1 in
  let name := feature_name_of (default "" (lines !! a)) in
  if has_errors_block source then
    exists why, execute request fs = (Ok (no_change why), fs)
  else exists text source',
    execute request fs = (Ok (applied text), patched fs (path request) source') /\
    str_lines source' = (take (S a) lines ++ errors_stub_lines name ++ drop (S a) lines)%list /\
    exists why, execute request (patched fs (path request) source') = (Ok (no_change why), patched fs (path request) source').
Proof.
  intros Hrule (Happ & Hc & Hr & Hw & Hcr & Ha) lines a name. assert (Hal : a < length lines) by exact Ha.
  pose proof (str_lines_plain source Hcr) as Hplain. fold lines in Hplain.
  set (lines' := (take (S a) lines ++ errors_stub_lines name ++ drop (S a) lines)%list).
  assert (Hl : str_lines (unlines lines') = lines').
  { apply str_lines_unlines, Forall_insert_block; [done|].
    assert (Hn : plain_line name = true).
    { apply feature_name_plain. destruct (lookup_lt_is_Some_2 lines a Hal) as [l El]. rewrite El. by apply (Forall_lookup_1 _ _ _ _ Hplain El). }
    unfold errors_stub_lines. repeat (constructor; [by rewrite ?plain_app, ?Hn|]). constructor. }
  assert (Ht : has_errors_block (unlines lines') = true).
  { unfold has_errors_block. rewrite Hl. apply existsb_exists. exists "  errors". split; [|done]. unfold lines'.
    apply in_app_iff. right. by left. }
  destruct (has_errors_block source) eqn:He.
  - eexists. rewrite execute_scaffold_errors by done. eapply run_plan_result; [done|done|]. unfold scaffold_errors_plan. by rewrite He.
  - eexists _, (unlines lines'). split; [|split; [done|]].
    + rewrite execute_scaffold_errors by done. eapply run_plan_patch; try done. unfold scaffold_errors_plan. rewrite He.
      rewrite anchor_in by done. fold lines a name. rewrite splice_after_spec by (split; [lia|done]). rewrite Nat.sub_0_r.
      unfold lines'. rewrite !unlines_app, errors_stub_unlines. done.
    + eexists. rewrite execute_scaffold_errors by done. eapply run_plan_result; [cbn; by rewrite lookup_insert_eq|done|].
      unfold scaffold_errors_plan. by rewrite Ht.
Qed.

(** * Comment discipline *)

(** What is left of a file once inline comments are stripped and blank and
    comment lines dropped. *)
Definition vis (ls : list string) : list string :=
  List.filter (fun l => negb (is_trivia (trim_start l))) (List.map strip_inline_comment ls).
Definition visible (source : string) : list string := vis (str_lines source).

Lemma vis_app a b : vis (a ++ b) = (vis a ++ vis b)%list.
Proof. unfold vis. by rewrite map_app, List.filter_app. Qed.

Lemma vis_rejoin source ls : Forall (fun l => plain_line l = true) ls -> visible (rejoin source ls) = vis ls.
Proof.
  intros Hp. destruct (decide (ls = [])) as [->|Hne]; [unfold rejoin; by destruct (ends_with NL source)|].
  destruct (decide (ends_with NL source = true \/ last ls <> Some "")) as [H|H].
  - unfold visible. by rewrite (proj1 (rejoin_lines source ls Hp Hne H)).
  - destruct (exists_last Hne) as (a & x & ->). rewrite last_snoc in H.
    destruct (ends_with NL source) eqn:E; [exfalso; apply H; by left|].
    destruct (decide (x = "")) as [->|Hx]; [|exfalso; apply H; right; congruence].
    unfold visible, rejoin. rewrite E, str_lines_join by done. cbn. rewrite app_nil_r, vis_app. cbn. by rewrite app_nil_r.
Qed.

(** On a line without single quotes and backslashes the fix and the parser see
    the same comment. *)
Lemma hash_comment_index q s k : lacks SQ s -> lacks BSL s ->
  comment_index s (if q : bool then Some DQ else None) k = (fun i => k + i) <$> hash_index q s.
Proof.
  revert q k. induction s as [|b s IH]; intros q k Hs Hb; [by destruct q|]. cbn [str_all] in Hs, Hb. bool_prop.
  cbn [comment_index hash_index]. destruct (Ascii.eqb_spec b DQ) as [->|Hdq].
  - destruct q; cbn [negb orb]; rewrite ?Ascii.eqb_refl; cbn match.
    + rewrite (IH false) by done. destruct (hash_index false s); cbn; [f_equal; lia|done].
    + rewrite (IH true) by done. destruct (hash_index true s); cbn; [f_equal; lia|done].
  - apply Ascii.eqb_neq in Hdq. destruct q; cbn [negb].
    + repeat match goal with E : (b =a? _) = false |- _ => rewrite E; clear E end. rewrite andb_false_r, (IH true) by done.
      destruct (hash_index true s); cbn; [f_equal; lia|done].
    + repeat match goal with E : (b =a? _) = false |- _ => rewrite E; clear E end. cbn [orb]. destruct (b =a? "#"); cbn; [f_equal; lia|]. rewrite (IH false) by done.
      destruct (hash_index false s); cbn; [f_equal; lia|done].
Qed.

Lemma hash_index_take q s i : hash_index q s = Some i -> hash_index q (str_take i s) = None.
Proof.
  revert q i. induction s as [|b s IH]; intros q i; [done|]. cbn [hash_index]. destruct (b =a? DQ) eqn:E.
  - destruct (hash_index (negb q) s) as [j|] eqn:Ej; [|done]. intros [= <-]. cbn [str_take hash_index]. by rewrite E, IH.
  - destruct ((b =a? "#") && negb q) eqn:Eh; [by intros [= <-]|].
    destruct (hash_index q s) as [j|] eqn:Ej; [|done]. intros [= <-]. cbn [str_take hash_index]. by rewrite E, Eh, IH.
Qed.

Lemma hash_index_prefix q a b : hash_index q (a ++ b) = None -> hash_index q a = None.
Proof.
  revert q. induction a as [|x a IH]; intros q; [done|]. cbn [String.append hash_index]. destruct (x =a? DQ).
  - intros H. rewrite IH; [done|]. by destruct (hash_index (negb q) (a +:+ b)).
  - destruct (_ && _); [done|]. intros H. rewrite IH; [done|]. by destruct (hash_index q (a +:+ b)).
Qed.

(** Stripping the comment's text the way the fix does is what the parser sees. *)
Lemma strip_kept old h : lacks SQ old -> lacks BSL old -> hash_index false old = Some h ->
  let kept := trim_end (str_take h old) in
  strip_inline_comment old = kept /\ strip_inline_comment kept = kept.
Proof.
  intros Hs Hb Hh kept. unfold strip_inline_comment. rewrite (hash_comment_index false old 0), Hh by done. split; [done|].
  destruct (trim_end_blank (str_take h old)) as (w & Ew & _). fold kept in Ew.
  assert (Hk : lacks SQ kept /\ lacks BSL kept).
  { apply (str_all_take _ h) in Hs, Hb. rewrite Ew, str_all_app in Hs, Hb. by bool_prop. }
  destruct Hk as [Hks Hkb]. rewrite (hash_comment_index false kept 0) by done.
  apply hash_index_take in Hh. rewrite Ew in Hh. by rewrite (hash_index_prefix _ _ _ Hh).
Qed.

Lemma trim_empty s : trim s = "" -> trim_end s = "".
Proof.
  unfold trim. intros H. assert (Hs : trim_start s = "").
  { destruct (decide (trim_start s = "")) as [|Hn]; [done|]. exfalso. apply (trim_end_nonempty (trim_start s)); [by rewrite trim_start_idem|done]. }
  destruct s as [|a s]; [done|]. cbn [trim_end]. by rewrite Hs.
Qed.

Lemma trim_end_empty s : trim_end s = "" -> trim s = "".
Proof.
  intros H. destruct (trim_end_prefix s) as (w & E & Hw). rewrite H in E. cbn in E. subst w. unfold trim. by rewrite Hw.
Qed.

Definition mechanical (body : string) : bool := is_empty_body body || is_divider_body body.

Definition wordless (s : string) : Prop := str_all (fun b => negb (is_ascii_alphanumeric b)) s = true.

Lemma blank_wordless s : blank s -> wordless s.
Proof. apply str_all_impl. intros b. by_bytes b. Qed.

Lemma glyphs_wordless : forallb (str_all (fun b => negb (is_ascii_alphanumeric b))) DIVIDER_GLYPHS = true.
Proof. by vm_compute. Qed.

Lemma divider_go_wordless saw skip s : divider_go saw skip s = true -> wordless (str_drop skip s).
Proof.
  revert saw skip. induction s as [|b s IH]; intros saw skip; cbn [divider_go]; [by rewrite drop_nil|].
  destruct skip as [|skip]; [|apply IH]. rewrite drop_0.
  assert (Hstep : forall n saw, divider_go saw n s = true -> wordless (str_take (S n) (String b s)) -> wordless (String b s)).
  { intros n saw' Hd Ht. unfold wordless in *. rewrite <- (take_drop_id (S n) (String b s)), str_all_app, Ht. cbn. by eapply IH. }
  destruct (ws_len (String b s)) as [|n] eqn:Ew.
  - destruct (glyph_len (String b s)) as [|n] eqn:Eg; [done|]. intros H. apply (Hstep n true H).
    unfold glyph_len in Eg. destruct (List.find _ _) as [g|] eqn:Ef; [|done]. apply find_some in Ef as [Hg Hs].
    apply starts_with_iff in Hs as [t ->]. rewrite <- Eg, take_app.
    pose proof glyphs_wordless as Hw. rewrite forallb_forall in Hw. by apply Hw.
  - intros H. apply (Hstep n saw H). rewrite <- Ew. apply blank_wordless, ws_len_blank.
Qed.

(** A comment that is deleted mechanically has no letter and no digit. *)
Lemma mechanical_wordless body : mechanical body = true -> wordless body.
Proof.
  unfold mechanical. intros [H|H]%orb_true_iff.
  - apply String.eqb_eq in H. apply trim_empty in H. destruct (trim_end_blank body) as (w & E & Hw).
    rewrite H in E. cbn in E. subst w. by apply blank_wordless.
  - apply divider_go_wordless in H. by rewrite drop_0 in H.
Qed.

Lemma execute_comment_prose request fs : rule request = "LZI-COMMENT-PROSE-001" ->
  execute request fs = run_plan comment_prose_plan request fs.
Proof.
  intros H. unfold execute, registry_execute. rewrite H.
  change (default_registry !! "LZI-COMMENT-PROSE-001") with (Some CommentProseFix).
  exact (plan_run (a := CommentProseFix) request fs).
Qed.

Lemma vis_insert lines i old kept : lines !! i = Some old -> strip_inline_comment kept = strip_inline_comment old ->
  vis (<[i := kept]> lines) = vis lines.
Proof.
  intros Hi Hs. unfold vis. f_equal. revert i Hi. induction lines as [|l lines IH]; intros [|i] Hi; cbn in *; try done.
  - injection Hi as ->. by rewrite Hs.
  - f_equal. by apply IH.
Qed.

Lemma vis_delete lines i old : lines !! i = Some old -> strip_inline_comment old = "" -> vis (delete i lines) = vis lines.
Proof.
  intros Hi Hs. revert i Hi. induction lines as [|l lines IH]; intros [|i] Hi; try done.
  - injection Hi as ->. unfold vis. cbn. by rewrite Hs.
  - specialize (IH i Hi). change (delete (S i) (l :: lines)) with (l :: delete i lines).
    unfold vis in *. cbn [List.map List.filter]. by destruct (negb _); rewrite IH.
Qed.

Lemma Forall_delete_list (P : string -> Prop) i lines : Forall P lines -> Forall P (delete i lines).
Proof. intros H. revert i. induction H as [|x l Hx Hl IH]; intros [|i]; cbn; try done; constructor; auto. Qed.

(** On a comment that is no waiver and a line without single quotes and
    backslashes: prose is never touched; a comment without words is removed, and
    what the parser reads of the file is as before. *)
Theorem comment_prose_invisible request fs source old :
  rule request = "LZI-COMMENT-PROSE-001" -> anchored request fs source ->
  str_lines source !! (line request - 1) = Some old -> recognize_legacy_comment_line old = None ->
  lacks SQ old -> lacks BSL old ->
  match comment_body old with
  | None => exists why, execute request fs = (Ok (no_change why), fs)
  | Some (_, body) =>
    if mechanical body then wordless body /\ exists text source',
      execute request fs = (Ok (applied text), patched fs (path request) source') /\ visible source' = visible source
    else exists why, execute request fs = (Ok (skipped why), fs)
  end.
Proof.
  intros Hrule (Happ & Hc & Hr & Hw & Hcr & _) Hold Hleg Hs Hb.
  pose proof (str_lines_plain source Hcr) as Hplain.
  assert (Hp : plain_line old = true) by (by apply (Forall_lookup_1 _ _ _ _ Hplain Hold)).
  destruct (comment_body old) as [[h body]|] eqn:Ebody.
  2:{ eexists. rewrite execute_comment_prose by done. eapply run_plan_result; [done|done|].
      unfold comment_prose_plan. by rewrite Hold, Hleg, Ebody. }
  destruct (mechanical body) eqn:Em.
  2:{ eexists. rewrite execute_comment_prose by done. eapply run_plan_result; [done|done|].
      unfold comment_prose_plan. rewrite Hold, Hleg, Ebody. unfold mechanical in Em. by rewrite Em. }
  split; [by apply mechanical_wordless|].
  assert (Hh : hash_index false old = Some h) by (unfold comment_body in Ebody; destruct (hash_index false old); cbn in Ebody; congruence).
  destruct (strip_kept old h Hs Hb Hh) as [Hk1 Hk2]. set (kept := trim_end (str_take h old)) in *.
  assert (Hkp : plain_line kept = true).
  { destruct (trim_end_blank (str_take h old)) as (w & Ew & _). fold kept in Ew.
    apply (str_all_take _ h) in Hp. rewrite Ew, str_all_app in Hp. by apply andb_true_iff in Hp as [Hp _]. }
  destruct (trim (str_take h old) =? "") eqn:Et.
  - apply String.eqb_eq, trim_empty in Et. eexists _, (rejoin source (delete (line request - 1) (str_lines source))). split.
    + rewrite execute_comment_prose by done. eapply run_plan_patch; try done. unfold comment_prose_plan. rewrite Hold, Hleg, Ebody.
      unfold mechanical in Em. rewrite Em. cbn [negb]. apply trim_end_empty in Et. by rewrite Et.
    + rewrite vis_rejoin by (by apply Forall_delete_list). apply (vis_delete _ _ old); [done|]. by rewrite Hk1.
  - eexists _, (rejoin source (<[line request - 1 := kept]> (str_lines source))). split.
    + rewrite execute_comment_prose by done. eapply run_plan_patch; try done. unfold comment_prose_plan. rewrite Hold, Hleg, Ebody.
      unfold mechanical in Em. rewrite Em. cbn [negb]. by rewrite Et.
    + rewrite vis_rejoin by (by apply Forall_insert). apply (vis_insert _ _ old); [done|]. by rewrite Hk1, Hk2.
Qed.

(** * Witnesses *)

Definition one_file (s : string) : Fs := {| content := {["a.lzi" := s]}; readable := fun _ => true; writable := fun _ => true |}.
Definition fix_at (code : string) (n : nat) : FixRequest := {| rule := code; path := "a.lzi"; line := n; column := 1; apply := true |}.
Definition lf (ls : list string) : string := unlines ls.

Definition legacy_file : string := lf ["feature a"; "# doctor:allow X-1 — reason " +:+ quoted "gen"; "  command create"].
Definition legacy_line : string := "# doctor:allow X-1 — reason " +:+ quoted "gen".

Lemma migration_exact_witness :
  exists text source' n,
    execute (fix_at "DOCTOR-ALLOW-LEGACY-COMMENT-001" 2) (one_file legacy_file) = (Ok (applied text), patched (one_file legacy_file) "a.lzi" source') /\
    leading_spaces legacy_line <= n /\
    str_lines source' = <[1 := spaces n +:+ node_line "X-1" (Some "gen")]> (str_lines legacy_file) /\
    ends_with NL source' = ends_with NL legacy_file /\
    recognize_node_line (spaces n +:+ node_line "X-1" (Some "gen")) = Some ("X-1", Some "gen") /\
    source_contains_doctor_allow source' "X-1" = true /\
    (reason_mentions (Some "gen") = false -> exists why,
      execute (fix_at "DOCTOR-ALLOW-LEGACY-COMMENT-001" 2) (patched (one_file legacy_file) "a.lzi" source') =
        (Ok (no_change why), patched (one_file legacy_file) "a.lzi" source')).
Proof.
  apply (migration_exact (fix_at "DOCTOR-ALLOW-LEGACY-COMMENT-001" 2) (one_file legacy_file) legacy_file legacy_line "X-1" (Some "gen")).
  repeat split; vm_compute; reflexivity.
Defined.

Definition plain_file : string := lf ["feature a"; "  command create"; "    policy @role.a"; "  # ===="].

Lemma plain_file_anchored code n : n <= 4 -> anchored (fix_at code n) (one_file plain_file) plain_file.
Proof. intros H. repeat split; try reflexivity. cbn [line fix_at]. change (length (str_lines plain_file)) with 4. lia. Qed.

Lemma insert_tests_exact_witness :
  exists text source',
    execute (fix_at "TEST-MISSING-AUTHORED-001" 2) (one_file plain_file) = (Ok (applied text), patched (one_file plain_file) "a.lzi" source') /\
    str_lines source' = (take 4 (str_lines plain_file) ++ tests_stub_lines 4 ++ drop 4 (str_lines plain_file))%list /\
    exists why, execute (fix_at "TEST-MISSING-AUTHORED-001" 2) (patched (one_file plain_file) "a.lzi" source') =
                (Ok (no_change why), patched (one_file plain_file) "a.lzi" source').
Proof.
  pose proof (insert_tests_exact (fix_at "TEST-MISSING-AUTHORED-001" 2) (one_file plain_file) plain_file eq_refl
    (plain_file_anchored _ 2 ltac:(lia))) as H. cbv zeta in H. cbn [line fix_at path Nat.sub Nat.add] in H.
  set (ci := leading_spaces _) in H. assert (Eci : ci = 2) by (vm_compute; reflexivity). rewrite Eci in H. clear ci Eci.
  assert (Et : has_tests 2 (drop 2 (str_lines plain_file)) = false) by (vm_compute; reflexivity). rewrite Et in H. cbv iota in H.
  assert (Eb : body_len 2 (drop 2 (str_lines plain_file)) = 2) by (vm_compute; reflexivity). rewrite Eb in H. exact H.
Defined.

Lemma scaffold_errors_exact_witness :
  exists text source',
    execute (fix_at "ERROR-VOCAB-MISSING-001" 1) (one_file plain_file) = (Ok (applied text), patched (one_file plain_file) "a.lzi" source') /\
    str_lines source' = (take 1 (str_lines plain_file) ++ errors_stub_lines "a" ++ drop 1 (str_lines plain_file))%list /\
    exists why, execute (fix_at "ERROR-VOCAB-MISSING-001" 1) (patched (one_file plain_file) "a.lzi" source') =
                (Ok (no_change why), patched (one_file plain_file) "a.lzi" source').
Proof.
  pose proof (scaffold_errors_exact (fix_at "ERROR-VOCAB-MISSING-001" 1) (one_file plain_file) plain_file eq_refl
    (plain_file_anchored _ 1 ltac:(lia))) as H. cbv zeta in H. cbn [line fix_at path Nat.sub Nat.add] in H.
  assert (Et : has_errors_block plain_file = false) by (vm_compute; reflexivity). rewrite Et in H. cbv iota in H.
  set (name := feature_name_of _) in H. assert (En : name = "a") by (vm_compute; reflexivity). rewrite En in H. exact H.
Defined.

Lemma comment_prose_invisible_witness :
  wordless " ====" /\ exists text source',
    execute (fix_at "LZI-COMMENT-PROSE-001" 4) (one_file plain_file) = (Ok (applied text), patched (one_file plain_file) "a.lzi" source') /\
    visible source' = visible plain_file.
Proof.
  pose proof (comment_prose_invisible (fix_at "LZI-COMMENT-PROSE-001" 4) (one_file plain_file) plain_file "  # ====" eq_refl
    (plain_file_anchored _ 4 ltac:(lia)) ltac:(vm_compute; reflexivity) ltac:(vm_compute; reflexivity) ltac:(vm_compute; reflexivity) ltac:(vm_compute; reflexivity)) as H.
  assert (Eb : comment_body "  # ====" = Some (2, " ====")) by (vm_compute; reflexivity). rewrite Eb in H. cbv iota beta in H.
  assert (Em : mechanical " ====" = true) by (vm_compute; reflexivity). rewrite Em in H. exact H.
Defined.

(** ** Where the fixes fall short *)

(** A legacy code followed by a colon migrates to a line the loader rejects, and
    the waiver is lost. *)
Lemma colon_migration_breaks :
  let source := lf ["# doctor:allow X-1: generated"; "feature a"] in
  let source' := lf ["@doctor.allow(X-1:)"; "feature a"] in
  (execute (fix_at "DOCTOR-ALLOW-LEGACY-COMMENT-001" 1) (one_file source)).2 = patched (one_file source) "a.lzi" source' /\
  is_ok (capture_doctor_allows source) = true /\ source_contains_doctor_allow source "X-1" = true /\
  is_ok (capture_doctor_allows source') = false /\ source_contains_doctor_allow source' "X-1" = false.
Proof. split; [reflexivity|]. by vm_compute. Qed.

(** In a file with CRLF terminators every line is rewritten. *)
Lemma crlf_migration_rewrites :
  let source := "feature a" +:+ String CR (String LF ("# doctor:allow X-1" +:+ String CR (String LF ""))) in
  (execute (fix_at "DOCTOR-ALLOW-LEGACY-COMMENT-001" 2) (one_file source)).2 =
  patched (one_file source) "a.lzi" (lf ["feature a"; "@doctor.allow(X-1)"]).
Proof. reflexivity. Qed.

(** On an empty file the scaffold reports a patch and writes nothing. *)
Lemma empty_scaffold_applies_nothing :
  exists text, execute (fix_at "ERROR-VOCAB-MISSING-001" 1) (one_file "") = (Ok (applied text), patched (one_file "") "a.lzi" "").
Proof.
  eexists. rewrite execute_scaffold_errors by reflexivity.
  eapply (run_plan_patch scaffold_errors_plan (fix_at "ERROR-VOCAB-MISSING-001" 1) (one_file "") ""); reflexivity.
Qed.

(** A second feature never gets its block: the first one's is taken for it. *)
Lemma second_feature_not_scaffolded :
  let source := lf ["feature a"; "  errors"; "    forbidden"; "feature b"] in
  execute (fix_at "ERROR-VOCAB-MISSING-001" 4) (one_file source) =
    (Ok (no_change "feature `b` already has an errors block"), one_file source).
Proof. reflexivity. Qed.
