(* ===== verification/TextPos.v ===== *)
(** Text positions of the language server ([lazuli_lsp/src/text_utils.rs]):
    byte offsets, UTF-16 positions and the word under the cursor.

    The protocol's [u32] counters wrap at [2^32], as in a release build. *)
From S2P Require Import Prelude Str Fmt Lines Helpers Lex.

(** * Positions *)

(** [tower_lsp::lsp_types::Position] and [Range]: two [u32] counters, and the
    two ends. *)
Record Position := { p_line : N; p_character : N }.
Record Range := { r_start : Position; r_end : Position }.

Definition u32_max : N := 2 ^ 32.
Definition u32_add (a b : N) : N := ((a + b) mod u32_max)%N.

(** [ch.len_utf16()]: a surrogate pair for the characters of four bytes. *)
Definition len_utf16 (ch : string) : N := if (str_len ch =? 4)%nat then 2 else 1.

(** The loop over [source.char_indices()]; [index] is the offset of the first
    character of [cs]. *)
Fixpoint position_go (cs : list string) (index offset : nat) (line character : N) : Position :=
  match cs with
  | [] => {| p_line := line; p_character := character |}
  | ch :: cs =>
    if (offset <=? index)%nat then {| p_line := line; p_character := character |}
    else if ch =? NL then position_go cs (index + str_len ch) offset (u32_add line 1) 0
    else position_go cs (index + str_len ch) offset line (u32_add character (len_utf16 ch))
  end.
Definition position_for_offset (source : string) (offset : nat) : Position :=
  position_go (chars source) 0 offset 0 0.

Fixpoint byte_index_go (cs : list string) (byte_index : nat) (utf16 character : N) (len : nat) : nat :=
  match cs with
  | [] => len
  | ch :: cs =>
    if (character <=? utf16)%N then byte_index
    else
      let next := u32_add utf16 (len_utf16 ch) in
      if (character <? next)%N then byte_index
      else byte_index_go cs (byte_index + str_len ch) next character len
  end.
Definition byte_index_for_utf16_position (line : string) (character : N) : nat :=
  byte_index_go (chars line) 0 0 character (str_len line).

Definition line_prefix_at_position (line : string) (character : N) : string :=
  str_take (byte_index_for_utf16_position line character) line.

(** * The word under the cursor *)

Definition is_word_byte (b : byte) : bool := is_ascii_alphanumeric b || (b =a? "_") || (b =a? ".").
Definition word_byte_at (line : string) (i : nat) : bool :=
  match byte_at line i with Some b => is_word_byte b | None => false end.

(** [while start > 0 && is_word_byte(bytes[start - 1]) { start -= 1 }] *)
Fixpoint word_start (line : string) (start : nat) : nat :=
  match start with
  | 0 => 0
  | S s => if word_byte_at line s then word_start line s else start
  end.

(** [while end < bytes.len() && is_word_byte(bytes[end]) { end += 1 }]; [n] bounds
    the bytes left. *)
Fixpoint word_end_go (n : nat) (line : string) (e : nat) : nat :=
  match n with
  | 0 => e
  | S n => if (e <? str_len line)%nat && word_byte_at line e then word_end_go n line (e + 1) else e
  end.
Definition word_end (line : string) (e : nat) : nat := word_end_go (str_len line - e) line e.

Definition word_in_line (line : string) (character : N) : option string :=
  let target := byte_index_for_utf16_position line character in
  let start := word_start line (Nat.min target (str_len line)) in
  let e := word_end line (Nat.min target (str_len line)) in
  if (start =? e)%nat then None else Some (slice start e line).

Definition word_at_position (source : string) (position : Position) : option string :=
  line ← str_lines source !! N.to_nat (p_line position);
  word_in_line line (p_character position).

(** * Ranges *)

(** [span.start.saturating_add(1)] stays in [usize]. *)
Definition range_from_span (source : string) (span : Span) : Range :=
  let len := str_len source in
  let start := Nat.min (span_start span) len in
  let e := Nat.min (Nat.max (span_end span) (span_start span + 1)) len in
  {| r_start := position_for_offset source start; r_end := position_for_offset source e |}.

Definition origin : Position := {| p_line := 0; p_character := 0 |}.
Definition full_document_range (source : string) : Range :=
  {| r_start := origin; r_end := position_for_offset source (str_len source) |}.

(** [end as u32] of a byte length *)
Definition first_line_range (source : string) : Range :=
  let e := Nat.max (match head (str_lines source) with Some l => str_len l | None => 1 end) 1 in
  {| r_start := origin; r_end := {| p_line := 0; p_character := (N.of_nat e mod u32_max)%N |} |}.

Definition position_at_line_start (line_idx : nat) : Position :=
  {| p_line := (N.of_nat line_idx mod u32_max)%N; p_character := 0 |}.

Definition is_trivia_line (line : string) : bool :=
  let trimmed := trim_start line in (trimmed =? "") || starts_with "#" trimmed.

Definition feature_name (trimmed_line : string) : string :=
  match split_whitespace trimmed_line !! 1 with Some name => name | None => "<anonymous>" end.

(** * UTF-8 *)

(** The length a leading byte announces. *)
Definition lead_len (b : byte) : nat :=
  if (code b <? 128)%N then 1 else if in_range 194 223 b then 2 else if in_range 224 239 b then 3
  else if in_range 240 244 b then 4 else 0.
Definition utf8_char (ch : string) : bool :=
  match ch with String b _ => (str_len ch =? lead_len b)%nat | "" => false end.

(** Every text the server sees: characters of the announced lengths. *)
Definition utf8 (s : string) : bool := ((chars_go s).1 =? "") && forallb utf8_char (chars s).

(** The UTF-16 length of characters and of a text. *)
Fixpoint units (cs : list string) : N := match cs with [] => 0 | ch :: cs => len_utf16 ch + units cs end.
Definition utf16_len (s : string) : N := units (chars s).

(** The bytes of characters. *)
Fixpoint bytes (cs : list string) : nat := match cs with [] => 0 | ch :: cs => str_len ch + bytes cs end.

(** The order of positions in a document. *)
Definition pos_le (p q : Position) : Prop :=
  (p_line p < p_line q \/ p_line p = p_line q /\ p_character p <= p_character q)%N.

(** * Lemmas *)

(** ** Characters *)

Lemma chars_go_app a b : char_start b = true ->
  (chars_go (a +:+ b)).1 = (chars_go a).1 /\ chars (a +:+ b) = (chars a ++ chars b)%list.
Proof.
  intros Hb. unfold chars. induction a as [|x a [IH1 IH2]].
  - split; [|done]. cbn [String.append]. destruct b as [|y b]; [done|]. cbn in *. destruct (chars_go b).
    by destruct (is_cont y).
  - cbn [String.append chars_go]. destruct (chars_go (a +:+ b)), (chars_go a). cbn in *. subst. by destruct (is_cont x).
Qed.

Lemma chars_app a b : char_start b = true -> chars (a +:+ b) = (chars a ++ chars b)%list.
Proof. intros H. apply (chars_go_app a b H). Qed.

Lemma bytes_app a b : bytes (a ++ b) = bytes a + bytes b.
Proof. induction a as [|x a IH]; cbn; [done|]. lia. Qed.
Lemma units_app a b : units (a ++ b) = (units a + units b)%N.
Proof. induction a as [|x a IH]; cbn; [done|]. lia. Qed.

Lemma bytes_chars s : str_len s = str_len (chars_go s).1 + bytes (chars s).
Proof.
  unfold chars. induction s as [|b s IH]; [done|]. cbn [chars_go str_len String.length]. destruct (chars_go s) as [p cs].
  cbn in *. destruct (is_cont b); cbn; lia.
Qed.

Lemma utf8_bytes s : utf8 s = true -> bytes (chars s) = str_len s.
Proof. unfold utf8. intros H. bool_prop. rewrite bytes_chars, H. done. Qed.

Lemma utf8_app a b : char_start b = true -> utf8 (a +:+ b) = utf8 a && utf8 b.
Proof.
  intros Hb. unfold utf8. destruct (chars_go_app a b Hb) as [-> ->]. rewrite forallb_app.
  assert (Hp : ((chars_go b).1 =? "") = true).
  { destruct b as [|y b]; [done|]. cbn in *. destruct (chars_go b). by destruct (is_cont y). }
  by rewrite Hp, andb_true_l, andb_assoc.
Qed.

Lemma chars_len s ch : In ch (chars s) -> 1 <= str_len ch.
Proof.
  unfold chars. induction s as [|b s IH]; [done|]. cbn [chars_go]. destruct (chars_go s) as [p cs]. cbn in *.
  destruct (is_cont b); cbn; [done|]. intros [<-|H]; [cbn; lia|auto].
Qed.

Lemma len_utf16_bounds ch : 1 <= str_len ch -> (1 <= len_utf16 ch <= N.of_nat (str_len ch))%N.
Proof. unfold len_utf16. destruct (Nat.eqb_spec (str_len ch) 4) as [->|]; lia. Qed.

Lemma units_bytes cs : Forall (fun ch => 1 <= str_len ch) cs -> (units cs <= N.of_nat (bytes cs))%N.
Proof.
  induction 1 as [|ch cs H _ IH]; [done|]. cbn. pose proof (len_utf16_bounds ch H). lia.
Qed.

Lemma chars_pos s : Forall (fun ch => 1 <= str_len ch) (chars s).
Proof. apply List.Forall_forall. intros ch. apply chars_len. Qed.

(** ** One line *)

Definition no_break (cs : list string) : Prop := Forall (fun ch => ch <> NL) cs.

Lemma u32_add_small a b : (a + b < u32_max)%N -> u32_add a b = (a + b)%N.
Proof. apply N.mod_small. Qed.

(** Characters of a line advance the column only. *)
Lemma position_go_line cs rest index offset l c :
  no_break cs -> Forall (fun ch => 1 <= str_len ch) cs -> index + bytes cs <= offset -> (c + units cs < u32_max)%N ->
  position_go (cs ++ rest) index offset l c = position_go rest (index + bytes cs) offset l (c + units cs)%N.
Proof.
  intros Hn Hp. revert index c. induction cs as [|ch cs IH]; intros index c Hi Hc; cbn [app bytes units position_go] in *.
  - by rewrite Nat.add_0_r, N.add_0_r.
  - apply Forall_cons in Hn as [Hch Hn]. apply Forall_cons in Hp as [Hl Hp].
    destruct (Nat.leb_spec offset index); [lia|]. apply String.eqb_neq in Hch. rewrite Hch, u32_add_small by lia.
    rewrite IH by (done || lia). by rewrite Nat.add_assoc, N.add_assoc.
Qed.

(** ... and a newline starts the next line. *)
Lemma position_go_break rest index offset l c : index < offset -> (l + 1 < u32_max)%N ->
  position_go (NL :: rest) index offset l c = position_go rest (index + 1) offset (l + 1)%N 0%N.
Proof. intros Hi Hl. cbn [position_go]. destruct (Nat.leb_spec offset index); [lia|]. by rewrite u32_add_small. Qed.

Lemma position_go_stop cs offset l c : position_go cs offset offset l c = {| p_line := l; p_character := c |}.
Proof. destruct cs; [done|]. cbn. by rewrite Nat.leb_refl. Qed.

Lemma chars_no_break s : lacks LF s -> no_break (chars s).
Proof.
  unfold no_break, chars. induction s as [|b s IH]; [constructor|]. cbn [str_all chars_go]. intros H. bool_prop.
  specialize (IH ltac:(done)). destruct (chars_go s) as [p cs]. cbn in *. destruct (is_cont b); cbn; [done|]. constructor; [|done].
  intros [= -> _]. by apply Ascii.eqb_neq in H.
Qed.

(** A newline of a well-formed text is a character of its own. *)
Lemma chars_break s : utf8 (String LF s) = true -> chars (String LF s) = NL :: chars s /\ utf8 s = true.
Proof.
  unfold utf8, chars. cbn [chars_go]. destruct (chars_go s) as [p cs]. change (is_cont LF) with false. cbn [fst snd forallb].
  intros H. bool_prop. unfold utf8_char in H0. cbn [str_len String.length] in H0. bool_prop.
  change (lead_len LF) with 1 in H0. destruct p; [|done]. cbn. by rewrite H1.
Qed.

Lemma char_start_break s : char_start (String LF s) = true.
Proof. done. Qed.

(** The position after [before] full lines and the text [a] of the next one. *)
Lemma position_prefix before a cs index offset l :
  Forall (fun x => lacks LF x) before -> lacks LF a -> utf8 (unlines before +:+ a) = true ->
  offset = index + str_len (unlines before +:+ a) -> (l + N.of_nat (str_len (unlines before +:+ a)) < u32_max)%N ->
  position_go (chars (unlines before +:+ a) ++ cs) index offset l 0 =
  {| p_line := (l + N.of_nat (length before))%N; p_character := utf16_len a |}.
Proof.
  intros Hb Ha. revert index l. induction Hb as [|x before Hx _ IH]; intros index l Hu Ho Hl.
  - cbn [unlines foldr String.append length] in *. pose proof (utf8_bytes a Hu) as Hbytes.
    pose proof (units_bytes _ (chars_pos a)) as Hunits. rewrite Hbytes in Hunits.
    rewrite position_go_line by (try apply chars_no_break; try apply chars_pos; done || lia).
    rewrite Hbytes, <- Ho, position_go_stop, N.add_0_l, N.add_0_r. done.
  - cbn [unlines foldr] in *. fold (unlines before) in *.
    assert (E : (x +:+ NL +:+ unlines before) +:+ a = x +:+ String LF (unlines before +:+ a)) by (by rewrite sapp_assoc).
    rewrite E in *. rewrite utf8_app in Hu by apply char_start_break. apply andb_true_iff in Hu as [Hux Hu].
    apply chars_break in Hu as [Hc Hu]. rewrite len_app, len_cons in Ho, Hl.
    pose proof (utf8_bytes x Hux) as Hbytes. pose proof (units_bytes _ (chars_pos x)) as Hunits. rewrite Hbytes in Hunits.
    rewrite chars_app by apply char_start_break. rewrite Hc, <- app_assoc.
    rewrite position_go_line by (try apply chars_no_break; try apply chars_pos; done || lia).
    cbn [app]. rewrite Hbytes, position_go_break by lia. rewrite IH by (done || lia).
    cbn [length]. f_equal. lia.
Qed.

(** ** From a column to a byte index *)

Lemma byte_index_go_spec cs b u ch len :
  Forall (fun ch => 1 <= str_len ch) cs -> len = b + bytes cs -> (u <= ch)%N -> (u + units cs < u32_max)%N ->
  exists cs1 cs2, cs = (cs1 ++ cs2)%list /\ byte_index_go cs b u ch len = b + bytes cs1 /\ (u + units cs1 <= ch)%N /\
    (forall c cs', cs2 = c :: cs' -> (ch < u + units cs1 + len_utf16 c)%N).
Proof.
  intros Hp. revert b u. induction Hp as [|c cs Hc Hp IH]; intros b u Hl Hu Hm; cbn [bytes units byte_index_go] in *.
  - exists [], []. cbn. split_and!; [done|lia|lia|done].
  - pose proof (len_utf16_bounds c Hc). rewrite u32_add_small by lia.
    destruct (N.leb_spec ch u); [|destruct (N.ltb_spec ch (u + len_utf16 c))].
    + exists [], (c :: cs). cbn. split_and!; [done|lia|lia|]. intros ? ? [= <- <-]. lia.
    + exists [], (c :: cs). cbn. split_and!; [done|lia|lia|]. intros ? ? [= <- <-]. lia.
    + destruct (IH (b + str_len c) (u + len_utf16 c)%N) as (cs1 & cs2 & -> & E & Hle & Hlt); [lia|lia|lia|].
      exists (c :: cs1), cs2. cbn [app bytes units]. split_and!; [done|rewrite E; lia|lia|].
      intros c' cs' E'. specialize (Hlt c' cs' E'). lia.
Qed.

(** A prefix of the characters by its number of units. *)
Lemma units_prefix_unique a1 a2 b1 b2 :
  Forall (fun ch => 1 <= str_len ch) (a1 ++ a2) -> (a1 ++ a2 = b1 ++ b2)%list -> (units b1 <= units a1)%N ->
  (forall c cs, b2 = c :: cs -> (units a1 < units b1 + len_utf16 c)%N) -> a1 = b1.
Proof.
  revert b1. induction a1 as [|x a1 IH]; intros [|y b1] Hp E Hle Hlt; cbn [app units] in *.
  - done.
  - subst. apply Forall_cons in Hp as [Hy _]. pose proof (len_utf16_bounds y Hy). lia.
  - specialize (Hlt x (a1 ++ a2)%list (eq_sym E)). apply Forall_cons in Hp as [Hx _]. lia.
  - injection E as -> E. apply Forall_cons in Hp as [_ Hp]. f_equal. apply IH; [done|done|lia|].
    intros c cs Hc. specialize (Hlt c cs Hc). lia.
Qed.

(** A split of the characters is a split of the text. *)
Lemma chars_go_split s p cs1 cs2 : chars_go s = (p, (cs1 ++ cs2)%list) ->
  exists a b, s = a +:+ b /\ char_start b = true /\ chars_go a = (p, cs1) /\ chars b = cs2.
Proof.
  unfold chars. revert p cs1 cs2. induction s as [|x s IH]; intros p cs1 cs2; cbn [chars_go].
  - intros [= <- E]. symmetry in E. apply app_eq_nil in E as [-> ->]. by exists "", "".
  - destruct (chars_go s) as [q cs] eqn:Es. destruct (is_cont x) eqn:Ex.
    + intros [= <- ->]. destruct (IH q cs1 cs2 eq_refl) as (a & b & -> & Hb & Ha & Hc).
      exists (String x a), b. cbn [chars_go]. rewrite Ha, Ex. by split_and!.
    + intros [= <- E]. destruct cs1 as [|c cs1].
      * exists "", (String x s). cbn [chars_go char_start]. rewrite Es, Ex. by split_and!.
      * injection E as <- ->. destruct (IH q cs1 cs2 eq_refl) as (a & b & -> & Hb & Ha & Hc).
        exists (String x a), b. cbn [chars_go]. rewrite Ha, Ex. by split_and!.
Qed.

(** The byte index found is the character boundary at or just before the column. *)
Theorem byte_index_exact line character : utf8 line = true -> (N.of_nat (str_len line) < u32_max)%N ->
  exists a b, line = a +:+ b /\ char_start b = true /\
    byte_index_for_utf16_position line character = str_len a /\ line_prefix_at_position line character = a /\
    (utf16_len a <= character)%N /\
    (forall c cs, chars b = c :: cs -> (character < utf16_len a + len_utf16 c)%N).
Proof.
  intros Hu Hm. pose proof (utf8_bytes line Hu) as Hb. pose proof (units_bytes _ (chars_pos line)) as Hun.
  destruct (byte_index_go_spec (chars line) 0 0 character (str_len line)) as (cs1 & cs2 & E & Hi & Hle & Hlt);
    [apply chars_pos|lia|lia|lia|].
  assert (Hgo : chars_go line = ("", (cs1 ++ cs2)%list)).
  { unfold utf8 in Hu. bool_prop. unfold chars in E. destruct (chars_go line); cbn in *. by subst. }
  destruct (chars_go_split _ _ _ _ Hgo) as (a & b & -> & Hs & Ha & Hcb). exists a, b.
  assert (Hca : chars a = cs1) by (unfold chars; by rewrite Ha).
  assert (Hba : bytes cs1 = str_len a) by (rewrite bytes_chars, Hca, Ha; done).
  assert (Hidx : byte_index_for_utf16_position (a +:+ b) character = str_len a) by (unfold byte_index_for_utf16_position; by rewrite Hi).
  unfold line_prefix_at_position, utf16_len. rewrite Hidx, take_app, Hca. split_and!; try done; try lia.
  intros c cs Hc. rewrite Hcb in Hc. specialize (Hlt c cs Hc). lia.
Qed.

(** ** Offsets *)

Lemma lf_parts s : exists ls a, s = unlines ls +:+ a /\ Forall (fun l => lacks LF l) ls /\ lacks LF a.
Proof.
  induction s as [|b s (ls & a & -> & Hls & Ha)]; [by exists [], ""|].
  destruct (Ascii.eqb_spec b LF) as [->|Hb].
  - exists ("" :: ls), a. cbn. split_and!; [done|by constructor|done].
  - apply Ascii.eqb_neq in Hb. destruct ls as [|l ls].
    + exists [], (String b a). cbn [str_all]. by rewrite Hb.
    + exists (String b l :: ls), a. apply Forall_cons in Hls as [Hl Hls]. split_and!; [done| |done].
      constructor; [|done]. cbn [str_all]. by rewrite Hb.
Qed.

Lemma lacks_unlines c ls : lacks c (unlines ls) -> Forall (fun l => lacks c l) ls.
Proof.
  induction ls as [|l ls IH]; [constructor|]. cbn [unlines foldr]. rewrite !str_all_app. intros H. bool_prop. constructor; auto.
Qed.

Lemma first_line s : exists b r, s = b +:+ r /\ lacks LF b /\ (r = "" \/ exists r', r = String LF r').
Proof.
  induction s as [|x s (b & r & -> & Hb & Hr)]; [exists "", ""; by auto|]. destruct (Ascii.eqb_spec x LF) as [->|Hx].
  - exists "", (String LF (b +:+ r)). split_and!; eauto.
  - apply Ascii.eqb_neq in Hx. exists (String x b), r. cbn [str_all]. by rewrite Hx.
Qed.

Lemma utf8_prefix a b : utf8 (a +:+ b) = true -> char_start b = true -> utf8 a = true.
Proof. intros H Hb. rewrite utf8_app in H by done. by bool_prop. Qed.

Lemma utf8_last_line before a : utf8 (unlines before +:+ a) = true -> utf8 a = true.
Proof.
  induction before as [|x before IH]; [done|]. cbn [unlines foldr]. fold (unlines before). rewrite !sapp_assoc.
  change (NL +:+ unlines before +:+ a) with (String LF (unlines before +:+ a)). rewrite utf8_app by apply char_start_break.
  intros H. bool_prop. apply chars_break in H0 as [_ H0]. auto.
Qed.

(** The column of a character boundary leads back to it. *)
Lemma byte_index_boundary a b : utf8 a = true -> utf8 (a +:+ b) = true -> char_start b = true ->
  (N.of_nat (str_len (a +:+ b)) < u32_max)%N -> byte_index_for_utf16_position (a +:+ b) (utf16_len a) = str_len a.
Proof.
  intros Ha Hab Hb Hm. pose proof (utf8_bytes _ Hab) as Hl. pose proof (units_bytes _ (chars_pos (a +:+ b))) as Hun.
  unfold byte_index_for_utf16_position, utf16_len.
  destruct (byte_index_go_spec (chars (a +:+ b)) 0 0 (units (chars a)) (str_len (a +:+ b)))
    as (cs1 & cs2 & E & -> & Hle & Hlt); [apply chars_pos|lia|lia|lia|].
  rewrite N.add_0_l in *. rewrite chars_app in E by done.
  rewrite <- (units_prefix_unique (chars a) (chars b) cs1 cs2); [by rewrite (utf8_bytes a Ha)|..|done|done|done].
  apply Forall_app; split; apply chars_pos.
Qed.

Lemma position_boundary source pre post : source = pre +:+ post -> utf8 source = true -> char_start post = true ->
  lacks CR source -> (N.of_nat (str_len source) < u32_max)%N ->
  exists before a b r,
    pre = unlines before +:+ a /\ post = b +:+ r /\ lacks LF a /\ (r = "" \/ exists r', r = String LF r') /\
    position_for_offset source (str_len pre) = {| p_line := N.of_nat (length before); p_character := utf16_len a |} /\
    (str_lines source !! length before = Some (a +:+ b) \/ a +:+ b = "") /\
    byte_index_for_utf16_position (a +:+ b) (utf16_len a) = str_len a /\
    line_prefix_at_position (a +:+ b) (utf16_len a) = a.
Proof.
  intros -> Hu Hs Hcr Hm. destruct (lf_parts pre) as (before & a & -> & Hbef & Ha).
  destruct (first_line post) as (b & r & -> & Hb & Hr). exists before, a, b, r.
  assert (Hup : utf8 (unlines before +:+ a) = true) by (by eapply utf8_prefix).
  assert (Hbs : char_start b = true) by (by destruct b).
  assert (Huab : utf8 (a +:+ b) = true).
  { apply (utf8_last_line before). rewrite <- sapp_assoc. apply (utf8_prefix _ r); [by rewrite sapp_assoc|].
    by destruct Hr as [->|[r' ->]]. }
  assert (Hidx : byte_index_for_utf16_position (a +:+ b) (utf16_len a) = str_len a).
  { apply byte_index_boundary; [by eapply utf8_last_line|done..|]. rewrite !len_app in *. lia. }
  split_and!; [done|done|done|done| | |done|unfold line_prefix_at_position; by rewrite Hidx, take_app].
  - unfold position_for_offset. rewrite chars_app by done. apply (position_prefix before a _ 0 _ 0); try done.
    rewrite len_app in Hm. lia.
  - rewrite !str_all_app in Hcr. bool_prop. rewrite sapp_assoc, unlines_lines.
    2:{ clear -Hbef H. apply lacks_unlines in H. induction Hbef; [constructor|]. inversion_clear H.
        constructor; [by apply plain_line_iff|auto]. }
    rewrite lookup_app_r by lia. rewrite Nat.sub_diag, <- sapp_assoc.
    assert (Hab : lacks LF (a +:+ b)) by (by rewrite str_all_app, Ha). assert (Hcab : lacks CR (a +:+ b)) by (rewrite str_all_app; by apply andb_true_iff).
    destruct Hr as [->|[r' ->]].
    + rewrite sapp_nil_r. destruct (decide (a +:+ b = "")) as [|Hne]; [by right|left].
      unfold str_lines. rewrite split_inclusive_last by done. cbn. by rewrite line_text_last.
    + left. unfold str_lines. rewrite split_inclusive_line by done. cbn. by rewrite line_text_lf, strip_cr_plain.
Qed.

(** The UTF-16 position of a character boundary is the number of newlines
    before it and the UTF-16 length of the text since the last one; in that line
    the column leads back to the same byte. *)
Theorem position_roundtrip source pre post : source = pre +:+ post -> utf8 source = true -> char_start post = true ->
  lacks CR source -> (N.of_nat (str_len source) < u32_max)%N ->
  exists before a b,
    pre = unlines before +:+ a /\ lacks LF a /\
    position_for_offset source (str_len pre) = {| p_line := N.of_nat (length before); p_character := utf16_len a |} /\
    (str_lines source !! length before = Some (a +:+ b) \/ a +:+ b = "") /\
    byte_index_for_utf16_position (a +:+ b) (utf16_len a) = str_len a /\
    line_prefix_at_position (a +:+ b) (utf16_len a) = a.
Proof.
  intros E Hu Hs Hcr Hm. destruct (position_boundary source pre post) as (before & a & b & r & H); [done..|].
  exists before, a, b. tauto.
Qed.

(** ** Order and bounds *)

Lemma pos_le_refl p : pos_le p p.
Proof. right. split; lia. Qed.
Lemma pos_le_trans p q r : pos_le p q -> pos_le q r -> pos_le p r.
Proof. unfold pos_le. lia. Qed.

(** The counters stay below the bytes read, so they never wrap. *)
Lemma position_go_bound cs index offset l c : Forall (fun ch => 1 <= str_len ch) cs ->
  (l + c + N.of_nat (bytes cs) < u32_max)%N ->
  let p := position_go cs index offset l c in
  pos_le {| p_line := l; p_character := c |} p /\ (p_line p + p_character p <= l + c + N.of_nat (bytes cs))%N.
Proof.
  intros Hp. revert index l c. induction Hp as [|ch cs Hc Hp IH]; intros index l c Hm; cbn [position_go bytes] in *.
  { split; [apply pos_le_refl|cbn; lia]. }
  destruct (offset <=? index)%nat; [split; [apply pos_le_refl|cbn; lia]|].
  pose proof (len_utf16_bounds ch Hc). destruct (ch =? NL); rewrite u32_add_small by lia.
  - destruct (IH (index + str_len ch) (l + 1)%N 0%N) as [H1 H2]; [lia|]. split; [|lia].
    eapply pos_le_trans; [|exact H1]. left. cbn. lia.
  - destruct (IH (index + str_len ch) l (c + len_utf16 ch)%N) as [H1 H2]; [lia|]. split; [|lia].
    eapply pos_le_trans; [|exact H1]. right. cbn. lia.
Qed.

Lemma position_go_mono cs index o1 o2 l c : Forall (fun ch => 1 <= str_len ch) cs -> o1 <= o2 ->
  (l + c + N.of_nat (bytes cs) < u32_max)%N -> pos_le (position_go cs index o1 l c) (position_go cs index o2 l c).
Proof.
  intros Hp Ho. revert index l c. induction Hp as [|ch cs Hc Hp IH]; intros index l c Hm; [apply pos_le_refl|].
  destruct (Nat.leb_spec o1 index) as [H1|H1].
  - replace (position_go (ch :: cs) index o1 l c) with {| p_line := l; p_character := c |}.
    + by apply position_go_bound; [constructor|].
    + cbn [position_go]. by apply Nat.leb_le in H1 as ->.
  - cbn [position_go bytes] in *. pose proof (len_utf16_bounds ch Hc).
    rewrite (proj2 (Nat.leb_gt o1 index)) by lia. rewrite (proj2 (Nat.leb_gt o2 index)) by lia.
    destruct (ch =? NL); rewrite u32_add_small by lia; apply IH; lia.
Qed.

Lemma bytes_le s : bytes (chars s) <= str_len s.
Proof. rewrite (bytes_chars s). lia. Qed.

(** In a document under 4 GiB no counter of a range wraps: its ends are in order,
    inside the document, and never past its length. *)
Theorem range_bounds source span : (N.of_nat (str_len source) < u32_max)%N ->
  let r := range_from_span source span in let e := r_end (full_document_range source) in
  pos_le origin (r_start r) /\ pos_le (r_start r) (r_end r) /\ pos_le (r_end r) e /\
  (p_line e + p_character e <= N.of_nat (str_len source))%N.
Proof.
  intros Hm r e. pose proof (bytes_le source).
  assert (M : forall o1 o2, o1 <= o2 -> pos_le (position_for_offset source o1) (position_for_offset source o2)).
  { intros. apply position_go_mono; [apply chars_pos|done|lia]. }
  unfold r, e, range_from_span, full_document_range. cbn [r_start r_end]. split_and!; try (apply M; lia).
  - apply position_go_bound; [apply chars_pos|lia].
  - destruct (position_go_bound (chars source) 0 (str_len source) 0 0) as [_ B]; [apply chars_pos|lia|].
    unfold position_for_offset. lia.
Qed.

(** ** Words *)

Lemma word_start_spec line n : let s := word_start line n in
  s <= n /\ (forall i, s <= i < n -> word_byte_at line i = true) /\ (s = 0 \/ word_byte_at line (s - 1) = false).
Proof.
  cbn. induction n as [|n (H1 & H2 & H3)]; cbn [word_start]; [split_and!; [lia|lia|by left]|].
  destruct (word_byte_at line n) eqn:E; [|split_and!; [lia|lia|right; by rewrite Nat.sub_succ, Nat.sub_0_r]].
  split_and!; [lia| |done]. intros i Hi. destruct (decide (i = n)) as [->|]; [done|]. apply H2. lia.
Qed.

Lemma word_byte_in line i : word_byte_at line i = true -> i < str_len line.
Proof.
  unfold word_byte_at. intros H. destruct (Nat.ltb_spec i (str_len line)) as [|Hi]; [done|].
  apply byte_at_None in Hi. by rewrite Hi in H.
Qed.

Lemma word_end_spec line n : n <= str_len line -> let e := word_end line n in
  n <= e <= str_len line /\ (forall i, n <= i < e -> word_byte_at line i = true) /\ word_byte_at line e = false.
Proof.
  cbn. unfold word_end. remember (str_len line - n) as k eqn:Ek. revert n Ek.
  induction k as [|k IH]; intros n Ek Hn; cbn [word_end_go].
  - split_and!; [lia|lia|lia|]. destruct (word_byte_at line n) eqn:E; [|done]. apply word_byte_in in E. lia.
  - rewrite (proj2 (Nat.ltb_lt n (str_len line))) by lia. cbn [andb].
    destruct (word_byte_at line n) eqn:E; [|split_and!; [lia|lia|lia|done]].
    destruct (IH (n + 1)) as (H1 & H2 & H3); [lia|lia|]. split_and!; [lia|lia| |done].
    intros i Hi. destruct (decide (i = n)) as [->|]; [done|]. apply H2. lia.
Qed.

Lemma sapp_split a b c d : a +:+ b = c +:+ d -> str_len a <= str_len c -> exists t, c = a +:+ t /\ b = t +:+ d.
Proof.
  revert c. induction a as [|x a IH]; intros c E Hl; [by exists c|]. destruct c as [|y c]; [cbn in Hl; lia|].
  injection E as <- E. destruct (IH c E) as (t & -> & ->); [rewrite !len_cons in Hl; lia|]. by exists t.
Qed.

Lemma lacks_suffix ls a p w : unlines ls +:+ a = p +:+ w -> lacks LF w -> exists p' t, a = t +:+ w /\ p = p' +:+ t /\ p' = unlines ls.
Proof.
  revert p. induction ls as [|x ls IH]; intros p E Hw; [by exists "", p|].
  cbn [unlines foldr] in E. fold (unlines ls) in E. rewrite !sapp_assoc in E. rewrite <- sapp_assoc in E.
  destruct (Nat.leb_spec (str_len (x +:+ NL)) (str_len p)) as [Hl|Hl].
  - destruct (sapp_split _ _ _ _ E Hl) as (q & -> & E'). destruct (IH q E' Hw) as (p' & t & -> & -> & ->).
    exists (x +:+ NL +:+ unlines ls), t. split_and!; [done| |done]. by rewrite !sapp_assoc.
  - exfalso. rewrite len_app in Hl. change (str_len NL) with 1 in Hl. rewrite sapp_assoc in E. symmetry in E.
    destruct (sapp_split _ _ _ _ E) as (t & -> & ->); [lia|]. rewrite !str_all_app in Hw. bool_prop. done.
Qed.

Lemma word_byte_app a b i : word_byte_at (a +:+ b) (str_len a + i) = word_byte_at b i.
Proof. unfold word_byte_at. by rewrite byte_at_app. Qed.
Lemma word_byte_before a b i : i < str_len a -> word_byte_at (a +:+ b) i = word_byte_at a i.
Proof.
  intros H. unfold word_byte_at. f_equal. revert i H. induction a as [|x a IH]; intros [|i] H; cbn in *; [lia|lia|done|].
  rewrite IH by lia. done.
Qed.
Lemma word_byte_all w i : str_all is_word_byte w = true -> i < str_len w -> word_byte_at w i = true.
Proof.
  intros H Hi. unfold word_byte_at. destruct (byte_at_lt w i Hi) as [x E]. rewrite E. by eapply str_all_byte_at.
Qed.
Lemma all_word_byte w : (forall i, i < str_len w -> word_byte_at w i = true) -> str_all is_word_byte w = true.
Proof.
  induction w as [|x w IH]; intros H; [done|]. cbn [str_all]. pose proof (H 0 ltac:(cbn; lia)) as H0. change (is_word_byte x = true) in H0. rewrite H0.
  apply IH. intros i Hi. apply (H (S i)). cbn. lia.
Qed.

(** [w] is a maximal run of word bytes of [a ++ w ++ b]. *)
Definition word_between (a w b : string) : Prop :=
  w <> "" /\ str_all is_word_byte w = true /\ (a = "" \/ word_byte_at a (str_len a - 1) = false) /\ word_byte_at b 0 = false.

Lemma word_scan a w b t : word_between a w b -> str_len a <= t <= str_len a + str_len w ->
  word_start (a +:+ w +:+ b) t = str_len a /\ word_end (a +:+ w +:+ b) t = str_len a + str_len w.
Proof.
  intros (_ & Hw & Ha & Hb) Ht. set (line := a +:+ w +:+ b).
  assert (Hin : forall i, str_len a <= i < str_len a + str_len w -> word_byte_at line i = true).
  { intros i Hi. unfold line. replace i with (str_len a + (i - str_len a)) by lia. rewrite word_byte_app.
    rewrite word_byte_before by lia. apply word_byte_all; [done|lia]. }
  assert (He : word_byte_at line (str_len a + str_len w) = false).
  { unfold line. rewrite word_byte_app. replace (str_len w) with (str_len w + 0) by lia. by rewrite word_byte_app. }
  assert (Hs : str_len a = 0 \/ word_byte_at line (str_len a - 1) = false).
  { destruct Ha as [->|Ha]; [by left|]. destruct (decide (str_len a = 0)); [by left|right].
    unfold line. rewrite word_byte_before by lia. done. }
  assert (Hlen : str_len line = str_len a + str_len w + str_len b) by (unfold line; rewrite !len_app; lia).
  destruct (word_start_spec line t) as (S1 & S2 & S3). destruct (word_end_spec line t) as (E1 & E2 & E3); [lia|].
  split.
  - destruct (Nat.lt_trichotomy (word_start line t) (str_len a)) as [H|[H|H]]; [|done|].
    + destruct Hs as [|Hs]; [lia|]. rewrite S2 in Hs by lia. done.
    + destruct S3 as [|S3]; [lia|]. rewrite Hin in S3 by lia. done.
  - destruct (Nat.lt_trichotomy (word_end line t) (str_len a + str_len w)) as [H|[H|H]]; [|done|].
    + rewrite Hin in E3 by lia. done.
    + rewrite E2 in He by lia. done.
Qed.

Lemma word_in_line_intro a w b c : word_between a w b ->
  str_len a <= Nat.min (byte_index_for_utf16_position (a +:+ w +:+ b) c) (str_len (a +:+ w +:+ b)) <= str_len a + str_len w ->
  word_in_line (a +:+ w +:+ b) c = Some w.
Proof.
  intros Hw Hin. unfold word_in_line. destruct (word_scan a w b _ Hw Hin) as [-> ->].
  destruct Hw as [Hne _]. rewrite <- len_zero in Hne. destruct (Nat.eqb_spec (str_len a) (str_len a + str_len w)); [lia|].
  by rewrite slice_app.
Qed.

(** The word under the cursor is the maximal run of word bytes that the byte
    index touches, and there is one exactly when such a run exists. *)
Theorem word_in_line_exact line c w :
  word_in_line line c = Some w <->
  exists a b, line = a +:+ w +:+ b /\ word_between a w b /\
    str_len a <= Nat.min (byte_index_for_utf16_position line c) (str_len line) <= str_len a + str_len w.
Proof.
  split; [|intros (a & b & -> & Hw & Hin); by apply word_in_line_intro].
  unfold word_in_line. set (t := Nat.min _ _). assert (Ht : t <= str_len line) by (unfold t; lia).
  destruct (word_start_spec line t) as (S1 & S2 & S3). destruct (word_end_spec line t Ht) as (E1 & E2 & E3).
  set (s := word_start line t) in *. set (e := word_end line t) in *.
  destruct (Nat.eqb_spec s e) as [|Hne]; [done|]. intros [= <-].
  assert (Hcut : line = str_take s line +:+ slice s e line +:+ str_drop e line).
  { unfold slice. rewrite <- (take_drop_id s line) at 1. f_equal. rewrite <- (take_drop_id (e - s) (str_drop s line)) at 1.
    f_equal. rewrite drop_drop. f_equal. lia. }
  assert (Hls : str_len (str_take s line) = s) by (rewrite len_take; lia).
  assert (Hlw : str_len (slice s e line) = e - s) by (unfold slice; rewrite len_take, len_drop; lia).
  exists (str_take s line), (str_drop e line). rewrite Hls, Hlw. split; [done|]. split; [|lia].
  set (a := str_take s line) in *. set (w := slice s e line) in *. set (b := str_drop e line) in *.
  split_and!.
  + intros E. rewrite E in Hlw. cbn in Hlw. lia.
  + apply all_word_byte. intros i Hi. rewrite <- (word_byte_before w b i Hi), <- (word_byte_app a), <- Hcut.
    destruct (Nat.lt_ge_cases (str_len a + i) t); [apply S2|apply E2]; lia.
  + destruct (decide (a = "")) as [|Ha]; [by left|right]. rewrite <- len_zero in Ha.
    rewrite <- (word_byte_before a (w +:+ b)), <- Hcut by lia. rewrite Hls. destruct S3; [lia|done].
  + rewrite <- (word_byte_app w), <- (word_byte_app a), <- Hcut, Hls, Hlw. replace (s + (e - s + 0)) with e by lia. done.
Qed.

Lemma word_all_lacks_break w : str_all is_word_byte w = true -> lacks LF w.
Proof.
  apply str_all_impl. intros b Hb. destruct (Ascii.eqb_spec b LF) as [->|]; [by vm_compute in Hb|done].
Qed.

Lemma lacks_prefix b r w q : b +:+ r = w +:+ q -> lacks LF w -> r = "" \/ (exists r', r = String LF r') ->
  exists u, b = w +:+ u /\ q = u +:+ r.
Proof.
  intros E Hw Hr. destruct (Nat.leb_spec (str_len w) (str_len b)) as [Hl|Hl].
  - apply sapp_split; [done|lia].
  - destruct (sapp_split b r w q E) as (t & -> & ->); [lia|]. rewrite len_app in Hl.
    rewrite str_all_app in Hw. apply andb_true_iff in Hw as [_ Hw]. destruct t as [|x t]; [cbn in Hl; lia|].
    destruct Hr as [Hr|[r' [= -> _]]]; [done|]. by vm_compute in Hw.
Qed.

(** The word at the position of an offset is the word of the text around that
    offset, on any line and after any characters. *)
Theorem word_at_offset source p w1 w2 q : source = p +:+ w1 +:+ w2 +:+ q -> utf8 source = true -> lacks CR source ->
  (N.of_nat (str_len source) < u32_max)%N -> char_start (w2 +:+ q) = true -> word_between p (w1 +:+ w2) q ->
  word_at_position source (position_for_offset source (str_len (p +:+ w1))) = Some (w1 +:+ w2).
Proof.
  intros E Hu Hcr Hm Hs Hw. pose proof (word_all_lacks_break (w1 +:+ w2)) as Hb. destruct Hw as (Hne & Hall & Hp & Hq).
  specialize (Hb Hall). rewrite str_all_app in Hb. apply andb_true_iff in Hb as [Hb1 Hb2].
  destruct (position_boundary source (p +:+ w1) (w2 +:+ q)) as (before & a & b & r & E1 & E2 & Ha & Hr & Epos & Hl & Hidx & _);
    [by rewrite E, !sapp_assoc|done..|].
  rewrite Epos. unfold word_at_position. cbn [p_line p_character]. rewrite Nat2N.id.
  destruct (lacks_suffix before a p w1 (eq_sym E1) Hb1) as (? & t & -> & -> & ->).
  destruct (lacks_prefix b r w2 q (eq_sym E2) Hb2 Hr) as (u & -> & ->).
  assert (Eab : (t +:+ w1) +:+ w2 +:+ u = t +:+ (w1 +:+ w2) +:+ u) by (by rewrite !sapp_assoc).
  rewrite Eab in Hl, Hidx. destruct Hl as [->|Hl].
  - cbn [mbind option_bind]. apply word_in_line_intro.
    + split_and!; [done|done| |].
      * destruct (decide (t = "")) as [|Ht]; [by left|right]. rewrite <- len_zero in Ht. destruct Hp as [Hp|Hp].
        -- apply sapp_eq_nil in Hp as [_ ->]. done.
        -- rewrite len_app in Hp. rewrite <- (word_byte_app (unlines before)), <- Hp. f_equal. lia.
      * destruct u; [done|]. done.
    + rewrite Hidx, !len_app. lia.
  - apply sapp_eq_nil in Hl as [_ Hl]. apply sapp_eq_nil in Hl as [Hl _]. done.
Qed.

(** * Witnesses *)

Lemma byte_index_exact_witness :
  let line := "é😀x" in utf8 line = true /\ exists a b, line = a +:+ b /\ char_start b = true /\
    byte_index_for_utf16_position line 2 = str_len a /\ line_prefix_at_position line 2 = a /\
    (utf16_len a <= 2)%N /\ (forall c cs, chars b = c :: cs -> (2 < utf16_len a + len_utf16 c)%N).
Proof. split; [by vm_compute|]. apply (byte_index_exact "é😀x" 2); by vm_compute. Defined.

Lemma position_roundtrip_witness :
  exists before a b, "one" +:+ NL +:+ "é😀" = unlines before +:+ a /\ lacks LF a /\
    position_for_offset ("one" +:+ NL +:+ "é😀x") 10 = {| p_line := N.of_nat (length before); p_character := utf16_len a |} /\
    (str_lines ("one" +:+ NL +:+ "é😀x") !! length before = Some (a +:+ b) \/ a +:+ b = "") /\
    byte_index_for_utf16_position (a +:+ b) (utf16_len a) = str_len a /\
    line_prefix_at_position (a +:+ b) (utf16_len a) = a.
Proof. apply (position_roundtrip ("one" +:+ NL +:+ "é😀x") ("one" +:+ NL +:+ "é😀") "x"); by vm_compute. Defined.

Lemma range_bounds_witness :
  let source := "one" +:+ NL +:+ "é😀x" in let r := range_from_span source {| span_start := 2; span_end := 40 |} in
  pos_le origin (r_start r) /\ pos_le (r_start r) (r_end r) /\
  r_end r = {| p_line := 1; p_character := 4 |}.
Proof.
  intros source r. destruct (range_bounds source {| span_start := 2; span_end := 40 |}) as (H1 & H2 & _); [by vm_compute|].
  split; [exact H1|]. split; [exact H2|]. by vm_compute.
Defined.

Lemma word_at_offset_witness :
  let source := "one" +:+ NL +:+ "é😀 a.b_1!" in
  word_at_position source (position_for_offset source 13) = Some "a.b_1".
Proof.
  intros source. apply (word_at_offset source ("one" +:+ NL +:+ "é😀 ") "a." "b_1" "!"); try (by vm_compute).
  split; [done|]. split; [by vm_compute|]. split; [right|]; by vm_compute.
Defined.

(** * Divergence *)

(** [first_line_range] counts the bytes of the line where a column counts UTF-16
    units: its end lies past the end of the document. *)
Lemma first_line_range_overruns :
  let source := "é" in r_end (full_document_range source) = {| p_line := 0; p_character := 1 |} /\
  r_end (first_line_range source) = {| p_line := 0; p_character := 2 |}.
Proof. by vm_compute. Qed.
