(* ===== verification/SqlName.v ===== *)
(** SQL identifiers and slugs of the migration emitter
    ([lazuli_codegen_go/src/emitter/migration_ddl/sql_builder.rs]): quoting,
    reserved words, table names, comment bodies. *)
From S2P Require Import Prelude Str Fmt Helpers.

(** * Definitions *)

(** [s.replace('\n', by)] for one ASCII character. *)
Fixpoint replace_byte (c : byte) (by_ : string) (s : string) : string :=
  match s with
  | "" => ""
  | String b s => (if b =a? c then by_ else String b "") +:+ replace_byte c by_ s
  end.

Definition is_plain_sql_ident (raw : string) : bool :=
  match raw with
  | "" => false
  | String first rest =>
    ((first =a? "_") || is_ascii_lowercase first) &&
    str_all (fun ch => (ch =a? "_") || is_ascii_lowercase ch || is_ascii_digit ch) rest
  end.

Definition reserved_words : list string :=
  ["all"; "analyse"; "analyze"; "and"; "any"; "array"; "as"; "asc"; "asymmetric"; "authorization"; "binary"; "both";
   "case"; "cast"; "check"; "collate"; "collation"; "column"; "concurrently"; "constraint"; "create"; "cross";
   "current_catalog"; "current_date"; "current_role"; "current_schema"; "current_time"; "current_timestamp";
   "current_user"; "default"; "deferrable"; "desc"; "distinct"; "do"; "else"; "end"; "except"; "false"; "fetch"; "for";
   "foreign"; "freeze"; "from"; "full"; "grant"; "group"; "having"; "ilike"; "in"; "initially"; "inner"; "intersect";
   "into"; "is"; "isnull"; "join"; "lateral"; "leading"; "left"; "like"; "limit"; "localtime"; "localtimestamp";
   "natural"; "not"; "notnull"; "null"; "offset"; "on"; "only"; "or"; "order"; "outer"; "overlaps"; "placing";
   "primary"; "references"; "returning"; "right"; "select"; "session_user"; "similar"; "some"; "symmetric";
   "system_user"; "table"; "tablesample"; "then"; "to"; "trailing"; "true"; "union"; "unique"; "user"; "using";
   "variadic"; "verbose"; "when"; "where"; "window"; "with"].
Definition is_sql_reserved_word (raw : string) : bool := existsb (String.eqb raw) reserved_words.

Definition quote_ident (raw : string) : string := quoted (replace_byte DQ (String DQ (String DQ "")) raw).

Definition sql_ident (raw : string) : string :=
  if is_plain_sql_ident raw && negb (is_sql_reserved_word raw) then raw else quote_ident raw.

(** [raw.replace(['\n', '\r'], " ")] *)
Definition comment_value (raw : string) : string := replace_byte CR " " (replace_byte LF " " raw).

(** [while out.ends_with('_') { out.pop(); }] *)
Fixpoint pop_underscores (out : string) : string :=
  match out with
  | "" => ""
  | String b out =>
    match pop_underscores out with
    | "" => if b =a? "_" then "" else String b ""
    | out => String b out
    end
  end.

Definition is_snake_sep (ch : byte) : bool :=
  (ch =a? "-") || (ch =a? " ") || (ch =a? ".") || (ch =a? "/") || (ch =a? BSL) || (ch =a? "_").

(** The loop over [raw.chars()]; a character that is neither a separator nor
    alphanumeric, the bytes of the non-ASCII ones included, leaves the state. *)
Fixpoint lower_snake_go (out : string) (prev_is_lower_or_digit prev_is_sep : bool) (raw : string) : string :=
  match raw with
  | "" => out
  | String ch raw =>
    if is_snake_sep ch then
      lower_snake_go (if nonempty out && negb prev_is_sep then out +:+ "_" else out) false true raw
    else if is_ascii_uppercase ch then
      lower_snake_go ((if prev_is_lower_or_digit && negb prev_is_sep then out +:+ "_" else out) +:+
                      String (to_ascii_lowercase ch) "") false false raw
    else if is_ascii_alphanumeric ch then
      lower_snake_go (out +:+ String (to_ascii_lowercase ch) "") (is_ascii_lowercase ch || is_ascii_digit ch) false raw
    else lower_snake_go out prev_is_lower_or_digit prev_is_sep raw
  end.
Definition lower_snake (raw : string) : string := pop_underscores (lower_snake_go "" false false raw).

(** * Reading an identifier back *)

(** PostgreSQL folds an unquoted identifier to lower case and takes a quoted one
    verbatim, a doubled quote standing for one. *)
Fixpoint unquote_go (s : string) : option string :=
  match s with
  | "" => None
  | String b rest =>
    if b =a? DQ then
      match rest with
      | "" => Some ""
      | String c rest => if c =a? DQ then String DQ <$> unquote_go rest else None
      end
    else String b <$> unquote_go rest
  end.
Definition ident_first (b : byte) : bool := (b =a? "_") || is_ascii_alphabetic b.
Definition ident_rest (b : byte) : bool := ident_first b || is_ascii_digit b || (b =a? "$").
Definition read_ident (s : string) : option string :=
  match s with
  | "" => None
  | String b rest =>
    if b =a? DQ then unquote_go rest
    else if ident_first b && str_all ident_rest rest && negb (is_sql_reserved_word (lower_ascii s)) then Some (lower_ascii s)
    else None
  end.

(** A slug: lower-case words of letters and digits joined by single underscores. *)
Fixpoint slug_go (prev_sep : bool) (s : string) : bool :=
  match s with
  | "" => negb prev_sep
  | String b s => if b =a? "_" then negb prev_sep && slug_go true s else lower_digit b && slug_go false s
  end.
Definition slug (s : string) : bool := (s =? "") || slug_go true s.

(** * Lemmas *)

Lemma replace_byte_lacks c by_ s : lacks c s -> replace_byte c by_ s = s.
Proof. induction s as [|b s IH]; [done|]. cbn [str_all replace_byte]. intros H. bool_prop. rewrite H, IH by done. done. Qed.

Lemma replace_byte_gone c by_ s : lacks c by_ -> lacks c (replace_byte c by_ s).
Proof.
  intros Hb. induction s as [|b s IH]; [done|]. cbn [replace_byte]. rewrite str_all_app, IH, andb_true_r.
  destruct (b =a? c) eqn:E; [done|]. cbn [str_all]. by rewrite E.
Qed.

Lemma replace_byte_keeps c d by_ s : lacks d by_ -> lacks d s -> lacks d (replace_byte c by_ s).
Proof.
  intros Hb. induction s as [|b s IH]; [done|]. cbn [str_all replace_byte]. intros H. bool_prop. rewrite str_all_app, IH by done.
  rewrite andb_true_r. destruct (b =a? c); [done|]. cbn [str_all]. by rewrite H.
Qed.

Lemma comment_value_one_line raw : lacks LF (comment_value raw) /\ lacks CR (comment_value raw).
Proof.
  unfold comment_value. split; [|by apply replace_byte_gone]. apply replace_byte_keeps; [done|]. by apply replace_byte_gone.
Qed.

Lemma unquote_quote raw : unquote_go (replace_byte DQ (String DQ (String DQ "")) raw +:+ String DQ "") = Some raw.
Proof.
  induction raw as [|b raw IH]; [done|]. cbn [replace_byte]. rewrite sapp_assoc.
  destruct (b =a? DQ) eqn:E; cbn [String.append unquote_go].
  - rewrite Ascii.eqb_refl. rewrite IH. apply Ascii.eqb_eq in E as ->. done.
  - rewrite E, IH. done.
Qed.

Lemma lower_plain b : (b =a? "_") || is_ascii_lowercase b || is_ascii_digit b = true ->
  to_ascii_lowercase b = b /\ ident_rest b = true.
Proof. by_bytes b. Qed.
Lemma lower_plain_first b : (b =a? "_") || is_ascii_lowercase b = true ->
  to_ascii_lowercase b = b /\ ident_first b = true /\ (b =a? DQ) = false.
Proof. by_bytes b. Qed.

Lemma lower_plain_rest s : str_all (fun ch => (ch =a? "_") || is_ascii_lowercase ch || is_ascii_digit ch) s = true ->
  lower_ascii s = s /\ str_all ident_rest s = true.
Proof.
  induction s as [|b s IH]; [done|]. cbn [str_all lower_ascii]. intros [Hb Hs]%andb_true_iff.
  destruct (lower_plain b Hb) as [-> ->]. by destruct (IH Hs) as [-> ->].
Qed.

Lemma read_sql_ident raw : read_ident (sql_ident raw) = Some raw.
Proof.
  unfold sql_ident. destruct (is_plain_sql_ident raw && negb (is_sql_reserved_word raw)) eqn:E.
  - apply andb_true_iff in E as [Hp Hr]. destruct raw as [|b rest]; [done|]. cbn [is_plain_sql_ident] in Hp.
    apply andb_true_iff in Hp as [Hb Hrest]. destruct (lower_plain_first b Hb) as (Hl & Hf & Hq).
    destruct (lower_plain_rest rest Hrest) as [Hlr Har]. unfold read_ident. rewrite Hq. cbn [lower_ascii].
    by rewrite Hl, Hlr, Hf, Har, Hr.
  - unfold quote_ident, quoted, read_ident. rewrite Ascii.eqb_refl. apply unquote_quote.
Qed.

Lemma sql_ident_inj a b : sql_ident a = sql_ident b -> a = b.
Proof. intros E. pose proof (read_sql_ident a) as Ha. rewrite E, read_sql_ident in Ha. by injection Ha. Qed.

(** ** Slugs *)

Lemma slug_go_app p w v : slug_go p w = true -> slug_go false v = true -> slug_go p (w +:+ v) = true.
Proof.
  revert p. induction w as [|b w IH]; intros p Hw Hv; [by destruct p|]. cbn [String.append slug_go] in *.
  destruct (b =a? "_"); apply andb_true_iff in Hw as [Hb Hw]; rewrite Hb, IH; done.
Qed.

Lemma pop_slug p w : slug_go p w = true -> pop_underscores w = w.
Proof.
  revert p. induction w as [|b w IH]; intros p Hw; [done|]. cbn [slug_go pop_underscores] in *.
  destruct (b =a? "_") eqn:Eb; apply andb_true_iff in Hw as [Hb Hw]; rewrite (IH _ Hw); destruct w; done.
Qed.

Lemma pop_sep p w : slug_go p w = true -> pop_underscores (w +:+ "_") = w.
Proof.
  revert p. induction w as [|b w IH]; intros p Hw; [done|]. cbn [String.append slug_go pop_underscores] in *.
  destruct (b =a? "_") eqn:Eb; apply andb_true_iff in Hw as [Hb Hw]; rewrite (IH _ Hw); destruct w; try done.
Qed.

(** The text built so far: empty, a slug, or a slug and a separator. *)
Definition slug_state (out : string) (sep : bool) : Prop :=
  out = "" \/ slug_go true out = true /\ sep = false \/ exists w, out = w +:+ "_" /\ slug_go true w = true /\ sep = true.

Lemma slug_state_push out sep v : slug_state out sep -> slug_go true v = true -> slug_state (out +:+ v) false.
Proof.
  assert (Hv2 : slug_go true v = true -> slug_go false v = true).
  { destruct v as [|b v]; [done|]. cbn [slug_go]. destruct (b =a? "_"); [done|]. done. }
  intros [->|[[Ho ->]|(w & -> & Hw & ->)]] Hv; right; left; (split; [|done]).
  - done.
  - apply slug_go_app; auto.
  - rewrite sapp_assoc. by apply slug_go_app.
Qed.

Lemma slug_state_sep out sep : slug_state out sep -> slug_state (if nonempty out && negb sep then out +:+ "_" else out) true.
Proof.
  intros [->|[[Ho ->]|(w & -> & Hw & ->)]].
  - by left.
  - rewrite andb_true_r. unfold nonempty. destruct (String.eqb_spec out "") as [->|Hne]; [by left|].
    right; right. by exists out.
  - rewrite andb_false_r. right; right. by exists w.
Qed.

Lemma slug_state_under out v : slug_state out false -> slug_go true v = true -> slug_state (out +:+ "_" +:+ v) false \/ out = "".
Proof.
  intros [->|[[Ho _]|(w & _ & _ & [=])]] Hv; [by right|left]. right; left. split; [|done].
  apply slug_go_app; [done|]. done.
Qed.

Lemma slug_go_one b : lower_digit b = true -> slug_go true (String b "") = true.
Proof. cbn [slug_go]. intros Hb. destruct (b =a? "_") eqn:E; [|by rewrite Hb]. apply Ascii.eqb_eq in E as ->. done. Qed.

Lemma lower_class b : is_ascii_alphanumeric b = true -> lower_digit (to_ascii_lowercase b) = true.
Proof. by_bytes b. Qed.
Lemma upper_alnum b : is_ascii_uppercase b = true -> is_ascii_alphanumeric b = true.
Proof. by_bytes b. Qed.

Lemma lower_snake_go_state raw out pl sep : slug_state out sep -> (pl = true -> out <> "") ->
  exists sep', slug_state (lower_snake_go out pl sep raw) sep'.
Proof.
  revert out pl sep. induction raw as [|ch raw IH]; intros out pl sep Ho Hp; [by exists sep|]. cbn [lower_snake_go].
  destruct (is_snake_sep ch); [apply IH; [by apply slug_state_sep|done]|].
  destruct (is_ascii_uppercase ch) eqn:Eu.
  - apply IH; [|done]. pose proof (slug_go_one _ (lower_class ch (upper_alnum ch Eu))) as Hc.
    destruct (pl && negb sep) eqn:E; [|by apply (slug_state_push _ sep)]. bool_prop. subst.
    rewrite sapp_assoc. destruct (slug_state_under out _ Ho Hc) as [|Hne]; [done|]. by specialize (Hp eq_refl).
  - destruct (is_ascii_alphanumeric ch) eqn:Ea; [|by apply IH].
    apply IH; [apply (slug_state_push _ sep); [done|]; by apply slug_go_one, lower_class|].
    intros _ E. apply sapp_eq_nil in E as [_ E]. done.
Qed.

Lemma lower_snake_slug raw : slug (lower_snake raw) = true.
Proof.
  unfold lower_snake. destruct (lower_snake_go_state raw "" false false) as [sep Hs]; [by left|done|].
  destruct Hs as [->|[[Ho _]|(w & -> & Hw & _)]]; [done| |]; unfold slug; apply orb_true_iff; right.
  - by rewrite (pop_slug _ _ Ho).
  - by rewrite (pop_sep _ _ Hw).
Qed.

Lemma lower_digit_fixed b : lower_digit b = true ->
  is_snake_sep b = false /\ is_ascii_uppercase b = false /\ is_ascii_alphanumeric b = true /\ to_ascii_lowercase b = b.
Proof. by_bytes b. Qed.

Lemma lower_snake_go_slug s out pl sep : out <> "" -> slug_go sep s = true -> lower_snake_go out pl sep s = out +:+ s.
Proof.
  revert out pl sep. induction s as [|b s IH]; intros out pl sep Hne Hs; [by rewrite sapp_nil_r|]. cbn [slug_go lower_snake_go] in *.
  assert (Hn : forall v, out +:+ v <> "") by (intros v E; by apply sapp_eq_nil in E as [E _]).
  destruct (b =a? "_") eqn:Eb; apply andb_true_iff in Hs as [Hb Hs].
  - apply Ascii.eqb_eq in Eb as ->. change (is_snake_sep "_") with true. cbn [negb]. apply negb_true_iff in Hb as ->.
    rewrite andb_true_r. unfold nonempty. apply String.eqb_neq in Hne as ->. cbn [negb].
    rewrite IH by done. by rewrite sapp_assoc.
  - destruct (lower_digit_fixed b Hb) as (-> & -> & -> & ->). rewrite IH by done. by rewrite sapp_assoc.
Qed.

Lemma lower_snake_fixed s : slug s = true -> lower_snake s = s.
Proof.
  unfold slug. intros [H|H]%orb_true_iff; [by apply String.eqb_eq in H as ->|]. unfold lower_snake.
  destruct s as [|b s]; [done|]. pose proof (pop_slug _ _ H) as Hp. cbn [slug_go] in H.
  destruct (b =a? "_") eqn:Eb; apply andb_true_iff in H as [Hb H]; [done|].
  cbn [lower_snake_go]. destruct (lower_digit_fixed b Hb) as (-> & -> & -> & ->).
  rewrite lower_snake_go_slug by done. done.
Qed.

(** * Properties *)

(** Whatever the name, the identifier written for it is read back by the
    database as that name, and two names never share an identifier. *)
Theorem sql_ident_roundtrip raw :
  read_ident (sql_ident raw) = Some raw /\ forall other, sql_ident other = sql_ident raw -> other = raw.
Proof. split; [apply read_sql_ident|]. intros other. apply sql_ident_inj. Qed.

(** A table slug is made of lower-case words of letters and digits joined by
    single underscores, whatever the name, and slugs are left as they are. *)
Theorem lower_snake_exact raw :
  slug (lower_snake raw) = true /\ (lower_snake raw = raw <-> slug raw = true) /\
  lower_snake (lower_snake raw) = lower_snake raw.
Proof.
  pose proof (lower_snake_slug raw) as H. split; [done|]. split; [|by apply lower_snake_fixed].
  split; [|apply lower_snake_fixed]. intros E. by rewrite E in H.
Qed.

(** The slug does not separate names: two resources can ask for one table. *)
Lemma lower_snake_collides : lower_snake "UserID" = "user_id" /\ lower_snake "UserId" = "user_id".
Proof. by vm_compute. Qed.
