(* ===== verification/Catalog.v ===== *)
(** The declarations of a module that the migration emitter reads
    ([lazuli_ir/src/nodes/resource], [feature_defaults.rs], [capability.rs],
    [auth.rs], [lib.rs]) and the index of the features that own them
    ([lazuli_codegen_go/src/emitter/cross_feature.rs]).

    A record carries the slots these passes read. *)
From S2P Require Import Prelude Str BTree Ir.
Export Ir.types.

(** * Declarations *)

(** The payloads of the capabilities other than the encryption keys are not read. *)
Inductive CapabilityRef := CFile | CPII | CHashed | CEncrypted (key : string) | CE2ee (key : string) | CToken.

Inductive TypeRef :=
| Builtin (b : BuiltinType) | UserDefined (q : QualifiedName) | EnumRef (q : QualifiedName)
| Many (t : TypeRef) | Unresolved (s : string) | Capability (c : CapabilityRef).

Inductive DefaultValue :=
| DString (s : string) | DInteger (n : Z) | DBoolean (b : bool) | DEnumLiteral (e : EnumLiteral) | DNil.

Record CrossFeatureTarget := { ct_feature : string; ct_resource : string }.
Inductive SanitizeHtmlProfile := Strict | Basic | MarkdownSafe.
Record FieldConstraints := {
  ic_min : option Z; ic_max : option Z; ic_pattern : option string; ic_between : option (Z * Z); ic_length : option nat;
  ic_in : option (list string); ic_sanitize_html : option SanitizeHtmlProfile; ic_utf8_safe : option bool;
  ic_max_recursion : option N; ic_max_size : option N; ic_covers_pii : option string
}.
Definition default_constraints : FieldConstraints := {|
  ic_min := None; ic_max := None; ic_pattern := None; ic_between := None; ic_length := None; ic_in := None; ic_sanitize_html := None;
  ic_utf8_safe := None; ic_max_recursion := None; ic_max_size := None; ic_covers_pii := None |}.
(** [@owner_axis(through: <column>)] *)
Record OwnerAxis := { through_column : string }.
Record Field := {
  fd_name : string; type_ref : TypeRef; required : bool; unique : bool; fd_default : option DefaultValue;
  derived_from : option string; full_text : bool; cross_feature_target : option CrossFeatureTarget;
  fd_constraints : FieldConstraints; owner_axis : option OwnerAxis
}.

Inductive Tenancy := Org | Team | Custom (s : string) | NoTenancy.
Record Defaults := { df_tenancy : option Tenancy; df_timestamps : bool }.

Record UniqueConstraint := {
  uq_fields : list string; per : option string; uq_when : option EvalPredicate; error_code : option string
}.
Inductive IndexMethod := Btree | Gin | Gist.
Record IndexConstraint := { ix_fields : list string; ix_method : option IndexMethod; ix_full_text : bool }.
Inductive Constraint := Unique (u : UniqueConstraint) | Index (i : IndexConstraint).

Record CompositeKey := { ck_fields : list string; primary : bool }.
Record PolymorphicRef := { type_field : string; id_field : string; targets : list string }.

(** [tenant_scoped] and [g_soft_delete] are derived by the analyzer. *)
Record RestrictOnDelete := {
  relation : string; fk : string; extra_where : option EvalPredicate; tenant_scoped : bool; g_soft_delete : bool;
  g_error_code : option string
}.

Record Resource := {
  r_name : string; tenancy : option Tenancy; soft_delete : bool; soft_delete_actor : bool; timestamps : option bool;
  fields : list Field; constraints : list Constraint; composite_key : option CompositeKey;
  polymorphic_refs : list PolymorphicRef; restrict_on_delete : list RestrictOnDelete
}.
(** [nodes::resource::Record] *)
Record RecordDecl := { rc_name : string }.

(** [rotation.is_some()] *)
Record AuthSessions := { as_resource : QualifiedName; is_rotation_enabled : bool }.
Record Auth := { sessions : option AuthSessions }.

Record Feature := {
  f_name : string; defaults : Defaults; enums : list EnumDecl; resources : list Resource; records : list RecordDecl;
  auth : option Auth
}.
Record Module_ := { features : list Feature }.

(** * Owners *)

Inductive DeclKind := KResource | KRecord | KEnum.

Record CrossFeatureIndex := { ci_map : list (string * (string * DeclKind)); ambiguous : list (string * list string) }.

Definition register (index : CrossFeatureIndex) (name feature : string) (kind : DeclKind) : CrossFeatureIndex :=
  match bt_get name (ambiguous index) with
  | Some existing =>
    {| ci_map := ci_map index;
       ambiguous := bt_insert name (if existsb (String.eqb feature) existing then existing else existing ++ [feature])%list (ambiguous index) |}
  | None =>
    match bt_get name (ci_map index) with
    | Some (prev_feature, prev_kind) =>
      if prev_feature =? feature then
        {| ci_map := bt_insert name (prev_feature, prev_kind) (bt_remove name (ci_map index)); ambiguous := ambiguous index |}
      else
        {| ci_map := bt_remove name (ci_map index); ambiguous := bt_insert name [prev_feature; feature] (ambiguous index) |}
    | None => {| ci_map := bt_insert name (feature, kind) (ci_map index); ambiguous := ambiguous index |}
    end
  end.

(** The catalogs of a feature, in the order they are indexed. *)
Definition feature_names (f : Feature) : list (string * DeclKind) :=
  List.map (fun r => (r_name r, KResource)) (resources f) ++
  List.map (fun r => (rc_name r, KRecord)) (records f) ++
  List.map (fun e => (en_name e, KEnum)) (enums f).

Definition build (module : Module_) : CrossFeatureIndex :=
  fold_left (fun index f => fold_left (fun index nk => register index nk.1 (f_name f) nk.2) (feature_names f) index)
    (features module) {| ci_map := []; ambiguous := [] |}.

Definition owner (index : CrossFeatureIndex) (type_name : string) : option string := fst <$> bt_get type_name (ci_map index).
Definition kind_of (index : CrossFeatureIndex) (type_name : string) : option DeclKind := snd <$> bt_get type_name (ci_map index).
Definition is_ambiguous (index : CrossFeatureIndex) (type_name : string) : bool := bt_contains type_name (ambiguous index).

(** * Resource references *)

(** [sql_builder.rs] *)
Definition feature_declares_resource (module : Module_) (feature_name resource_name : string) : bool :=
  existsb (fun f => (f_name f =? feature_name) && existsb (fun r => r_name r =? resource_name) (resources f)) (features module).

(** [topo.rs]; the referencing feature is not read. *)
Definition foreign_key_owner (module : Module_) (qname : QualifiedName) (cross_index : CrossFeatureIndex) : option string :=
  owner_ ← match qn_feature qname with Some o => Some o | None => owner cross_index (qn_name qname) end;
  if feature_declares_resource module owner_ (qn_name qname) then Some owner_ else None.

(** * Properties *)

(** The declarations of a module, each with the feature it is in. *)
Definition declarations (module : Module_) : list (string * (string * DeclKind)) :=
  List.concat (List.map (fun f => List.map (fun nk => (nk.1, (f_name f, nk.2))) (feature_names f)) (features module)).

(** The features of a list, each once, in order of first appearance. *)
Definition nub_add (acc : list string) (f : string) : list string := if existsb (String.eqb f) acc then acc else (acc ++ [f])%list.
Definition nub (l : list string) : list string := fold_left nub_add l [].

(** The declarations of one name. *)
Definition named (name : string) (ds : list (string * (string * DeclKind))) : list (string * DeclKind) :=
  List.map snd (List.filter (fun d => d.1 =? name) ds).

Definition register_all (ds : list (string * (string * DeclKind))) (index : CrossFeatureIndex) : CrossFeatureIndex :=
  fold_left (fun index d => register index d.1 d.2.1 d.2.2) ds index.

Lemma build_declarations module : build module = register_all (declarations module) {| ci_map := []; ambiguous := [] |}.
Proof.
  unfold build, declarations, register_all. generalize {| ci_map := []; ambiguous := [] |}.
  induction (features module) as [|f fs IH]; intros index; [done|]. cbn [fold_left List.map List.concat].
  rewrite fold_left_app, IH. f_equal. generalize (feature_names f). intros l. revert index.
  induction l as [|nk l IHl]; intros index; [done|]. cbn [fold_left List.map]. apply IHl.
Qed.

Lemma existsb_eqb f l : existsb (String.eqb f) l = true <-> In f l.
Proof. rewrite existsb_exists. split; [intros (x & H & E); by apply String.eqb_eq in E as ->|]. intros H. exists f. by rewrite String.eqb_refl. Qed.

Lemma nub_snoc l f : nub (l ++ [f]) = nub_add (nub l) f.
Proof. unfold nub. by rewrite fold_left_app. Qed.

Lemma nub_In l f : In f (nub l) <-> In f l.
Proof.
  induction l as [|x l IH] using rev_ind; [done|]. rewrite nub_snoc, in_app_iff. cbn [In]. unfold nub_add.
  destruct (existsb (String.eqb x) (nub l)) eqn:E.
  - apply existsb_eqb in E. rewrite IH in *. naive_solver.
  - rewrite in_app_iff, IH. cbn [In]. naive_solver.
Qed.

Lemma nub_NoDup l : NoDup (nub l).
Proof.
  induction l as [|x l IH] using rev_ind; [constructor|]. rewrite nub_snoc. unfold nub_add.
  destruct (existsb (String.eqb x) (nub l)) eqn:E; [done|]. apply NoDup_app. split; [done|]. split; [|apply NoDup_singleton].
  intros y Hy Hx. apply list_elem_of_singleton in Hx as ->. apply list_elem_of_In, existsb_eqb in Hy. congruence.
Qed.

(** What the index holds of a name declared so. *)
Definition entry_of (ds : list (string * DeclKind)) : option (string * DeclKind) * option (list string) :=
  match nub (List.map fst ds) with
  | [] => (None, None)
  | [f] => (head ds, None)
  | fs => (None, Some fs)
  end.

Lemma named_snoc name ds d : named name (ds ++ [d]) = (named name ds ++ (if d.1 =? name then [d.2] else []))%list.
Proof. unfold named. rewrite List.filter_app, map_app. cbn [List.filter]. by destruct (d.1 =? name). Qed.

Lemma register_other index name f k n : n <> name ->
  bt_get n (ci_map (register index name f k)) = bt_get n (ci_map index) /\
  bt_get n (ambiguous (register index name f k)) = bt_get n (ambiguous index).
Proof.
  intros Hn. unfold register. assert (Hk : keqb name n = false) by (by apply keqb_neq, not_eq_sym).
  destruct (bt_get name (ambiguous index)); cbn; [by rewrite bt_get_insert_ne|].
  destruct (bt_get name (ci_map index)) as [[pf pk]|]; [destruct (pf =? f)|]; cbn;
    rewrite ?bt_get_insert_ne, ?bt_get_remove, ?Hk by done; done.
Qed.

Lemma register_same index name f k ds :
  (bt_get name (ci_map index), bt_get name (ambiguous index)) = entry_of ds ->
  (bt_get name (ci_map (register index name f k)), bt_get name (ambiguous (register index name f k))) =
  entry_of (ds ++ [(f, k)])%list.
Proof.
  unfold entry_of, register. rewrite map_app. cbn [List.map fst]. rewrite nub_snoc. unfold nub_add.
  destruct ds as [|[f0 k0] ds].
  { intros [= E1 E2]. rewrite E1, E2. cbn. by rewrite bt_get_insert_eq, E2. }
  pose proof (nub_In (List.map fst ((f0, k0) :: ds)) f0) as H0. cbn [List.map fst app head] in *.
  destruct (nub (f0 :: List.map fst ds)) as [|a [|b l]]; intros [= E1 E2]; rewrite ?E2, ?E1.
  - destruct H0 as [_ H0]. destruct H0. by left.
  - assert (a = f0) as -> by (destruct H0 as [_ H0]; destruct (H0 (or_introl eq_refl)); done).
    cbn [existsb orb]. rewrite orb_false_r. destruct (String.eqb_spec f0 f) as [->|Hne].
    + rewrite String.eqb_refl. cbn. by rewrite bt_get_insert_eq, E2.
    + apply not_eq_sym, String.eqb_neq in Hne. rewrite Hne. cbn. rewrite bt_get_insert_eq, bt_get_remove. by rewrite keqb_refl.
  - cbn [ci_map ambiguous]. rewrite bt_get_insert_eq, E1. by destruct (existsb (String.eqb f) (a :: b :: l)).
Qed.

Lemma owner_entry module name :
  let index := build module in
  (bt_get name (ci_map index), bt_get name (ambiguous index)) = entry_of (named name (declarations module)).
Proof.
  cbn zeta. rewrite build_declarations. unfold register_all. induction (declarations module) as [|d ds IH] using rev_ind; [done|].
  rewrite fold_left_app. cbn [fold_left]. rewrite named_snoc. destruct (String.eqb_spec d.1 name) as [<-|Hne].
  - destruct d as [n [f k]]. by apply register_same.
  - rewrite app_nil_r, <- IH. by destruct (register_other (fold_left (fun index d => register index d.1 d.2.1 d.2.2) ds
      {| ci_map := []; ambiguous := [] |}) d.1 d.2.1 d.2.2 name) as [-> ->]; [apply not_eq_sym|].
Qed.

Lemma named_In name ds f k : In (f, k) (named name ds) <-> In (name, (f, k)) ds.
Proof.
  unfold named. rewrite in_map_iff. split.
  - intros ([n [f' k']] & E & H). cbn in E. apply filter_In in H as [H En]. apply String.eqb_eq in En. cbn in En. by simplify_eq.
  - intros H. exists (name, (f, k)). split; [done|]. apply filter_In. cbn. by rewrite String.eqb_refl.
Qed.

Lemma nub_named_In name ds f : In f (nub (List.map fst (named name ds))) <-> exists k, In (name, (f, k)) ds.
Proof.
  rewrite nub_In, in_map_iff. split.
  - intros ([f' k] & <- & H). exists k. by apply named_In.
  - intros [k H]. exists (f, k). split; [done|]. by apply named_In.
Qed.

(** A name has an owner exactly when one feature declares it, whatever the kinds
    and the number of declarations, and its kind is that of its first
    declaration; it is ambiguous exactly when two features declare it. *)
Theorem cross_feature_exact module name :
  let index := build module in let ds := declarations module in
  (forall f, owner index name = Some f <->
     (exists k, In (name, (f, k)) ds) /\ forall f' k', In (name, (f', k')) ds -> f' = f) /\
  (forall k, kind_of index name = Some k -> head (named name ds) ≫= (fun d => Some d.2) = Some k) /\
  (is_ambiguous index name = true <-> exists f1 f2 k1 k2, In (name, (f1, k1)) ds /\ In (name, (f2, k2)) ds /\ f1 <> f2).
Proof.
  intros index ds. pose proof (owner_entry module name) as E. cbn zeta in E. fold index ds in E.
  pose proof (fun f => nub_named_In name ds f) as Hin. pose proof (nub_NoDup (List.map fst (named name ds))) as Hnd.
  unfold entry_of, owner, kind_of, is_ambiguous, bt_contains in *. revert E Hin Hnd.
  destruct (nub (List.map fst (named name ds))) as [|a [|b l]] eqn:En; intros [= -> ->] Hin Hnd.
  - split_and!; [|done|].
    + intros f. split; [done|]. intros [[k Hk] _]. destruct (Hin f) as [_ H]. destruct H; eauto.
    + split; [done|]. intros (f1 & _ & k1 & _ & Hk & _). destruct (Hin f1) as [_ H]. destruct H; eauto.
  - assert (Ha : forall f k, In (name, (f, k)) ds -> f = a) by (intros f k Hk; destruct (Hin f) as [_ [?|[]]]; eauto).
    destruct (named name ds) as [|[f0 k0] rest] eqn:Ed; [done|].
    assert (H0 : In (name, (f0, k0)) ds) by (apply named_In; rewrite Ed; by left).
    pose proof (Ha _ _ H0) as ->. cbn. split_and!.
    + intros f. split; [intros [= <-]; eauto|]. intros [[k Hk] _]. by rewrite (Ha _ _ Hk).
    + done.
    + split; [done|]. intros (f1 & f2 & k1 & k2 & H1 & H2 & Hne). by rewrite (Ha _ _ H1), (Ha _ _ H2) in Hne.
  - destruct (Hin a) as [[ka Hka] _]; [by left|]. destruct (Hin b) as [[kb Hkb] _]; [by right; left|].
    assert (Hab : a <> b) by (intros ->; apply NoDup_cons in Hnd as [Hnd _]; apply Hnd; constructor).
    split_and!; [|done|].
    + intros f. split; [done|]. intros [_ Hall]. by rewrite (Hall _ _ Hka), (Hall _ _ Hkb) in Hab.
    + split; [|done]. intros _. by exists a, b, ka, kb.
Qed.
