(* ===== verification/MigrationOrder.v ===== *)
(** The order of the migrations
    ([lazuli_codegen_go/src/emitter/migration_ddl/topo.rs]): a topological sort of
    the resources by their foreign keys, the least ready key first.

    The loop takes a key from [ready] at most once, so one unit of fuel per
    resource and one for the empty test are enough. *)
From stdpp Require Import relations sets.
From S2P Require Import Prelude Str BTree Ir Catalog.

Abbreviation Key := (string * string)%type.

(** * Definitions *)

(** The type parameters keep the loop apart from the declarations it sorts. *)
Section Loop.
Context {K A : Type} `{OrdKey K}.

Record graph := { dependents : list (K * list K); in_degree : list (K * nat) }.

(** [dependents.entry(target).or_default().insert(dependent)], counted once. *)
Definition add_edge (g : graph) (target dependent : K) : graph :=
  let deps := default [] (bt_get target (dependents g)) in
  if bs_mem dependent deps then g
  else {| dependents := bt_insert target (bs_insert dependent deps) (dependents g);
          in_degree := bt_insert dependent (default 0 (bt_get dependent (in_degree g)) + 1) (in_degree g) |}.

Record kahn := { ready : list K; degrees : list (K * nat); ordered : list A; emitted : list K }.

(** The body of [for dependent in deps]. *)
Definition release (dr : list (K * nat) * list K) (dependent : K) : list (K * nat) * list K :=
  match bt_get dependent dr.1 with
  | Some (S deg) => (bt_insert dependent deg dr.1, if (deg =? 0)%nat then bs_insert dependent dr.2 else dr.2)
  | _ => dr
  end.

(** [by_key.get(&k).map(|&idx| resources[idx])]; the indices are in range. *)
Definition resource_of (by_key : list (K * nat)) (resources : list A) (k : K) : list A :=
  match bt_get k by_key ≫= (fun idx => resources !! idx) with Some r => [r] | None => [] end.

Definition kahn_step (by_key : list (K * nat)) (resources : list A) (deps : list (K * list K)) (next_key : K) (st : kahn) : kahn :=
  let next := resource_of by_key resources next_key in
  let dr := fold_left release (default [] (bt_get next_key deps)) (degrees st, ready st) in
  {| ready := dr.2; degrees := dr.1; ordered := ordered st ++ next;
     emitted := match next with [] => emitted st | _ => bs_insert next_key (emitted st) end |}.

Fixpoint kahn_loop (fuel : nat) (by_key : list (K * nat)) (resources : list A) (deps : list (K * list K)) (st : kahn) : option kahn :=
  match fuel with
  | 0 => None
  | S fuel =>
    match ready st with
    | [] => Some st
    | next_key :: rest =>
      kahn_loop fuel by_key resources deps
        (kahn_step by_key resources deps next_key
           {| ready := rest; degrees := degrees st; ordered := ordered st; emitted := emitted st |})
    end
  end.

Definition index_keys (key : A -> K) (resources : list A) : list (K * nat) :=
  fold_left (fun m ir => bt_insert (key ir.2) ir.1 m) (zip (seq 0 (length resources)) resources) [].

(** The sort over a built graph; the second part is the warning about the keys
    left over: how many, of how many. *)
Definition kahn_sort (key : A -> K) (resources : list A) (g : graph) : option (list A * option (nat * nat)) :=
  let by_key := index_keys key resources in
  let ready0 := bs_collect (List.map fst (List.filter (fun kd => (kd.2 =? 0)%nat) (in_degree g))) in
  st ← kahn_loop (S (length resources)) by_key resources (dependents g)
         {| ready := ready0; degrees := in_degree g; ordered := []; emitted := [] |};
  if (length (ordered st) =? length resources)%nat then Some (ordered st, None)
  else
    let remainder := bs_collect (List.filter (fun k => negb (bs_mem k (emitted st))) (List.map fst (degrees st))) in
    Some ((ordered st ++ List.concat (List.map (resource_of by_key resources) remainder))%list,
          Some (length resources - length (ordered st), length resources)).
End Loop.
Arguments graph K : clear implicits.

Definition key (fr : Feature * Resource) : Key := (f_name fr.1, r_name fr.2).

(** The target a field makes its resource wait for; self-references do not. *)
Definition edge_of (module : Module_) (cross_index : CrossFeatureIndex) (dependent_key : Key) (field : Field) : option Key :=
  match type_ref field with
  | UserDefined qname =>
    owner_ ← match qn_feature qname with Some o => Some o | None => owner cross_index (qn_name qname) end;
    if negb (feature_declares_resource module owner_ (qn_name qname)) then None
    else if keqb (owner_, qn_name qname) dependent_key then None
    else Some (owner_, qn_name qname)
  | _ => None
  end.

Definition dependency_graph (module : Module_) (resources : list (Feature * Resource)) (cross_index : CrossFeatureIndex) : graph Key :=
  fold_left (fun g fr =>
      fold_left (fun g field =>
          match edge_of module cross_index (key fr) field with Some target => add_edge g target (key fr) | None => g end)
        (fields fr.2) g)
    resources
    {| dependents := []; in_degree := fold_left (fun m fr => bt_insert (key fr) 0 m) resources [] |}.

Definition topo_sort_resources (module : Module_) (resources : list (Feature * Resource)) (cross_index : CrossFeatureIndex) :
    option (list (Feature * Resource) * option (nat * nat)) :=
  kahn_sort key resources (dependency_graph module resources cross_index).

(** [emit_migrations]: the resources of a module, in declaration order. *)
Definition raw_resources (module : Module_) : list (Feature * Resource) :=
  List.concat (List.map (fun f => List.map (fun r => (f, r)) (resources f)) (features module)).

(** * The sort *)

Section Spec.
Context {K : Type} `{OrdKey K}.
Variables (ks : list K) (W : K -> K -> Prop).

(** [out] takes, at each place, the least key that waits for nothing left. *)
Definition greedy_order (out : list K) : Prop := forall pre k post, out = (pre ++ k :: post)%list ->
  (forall t, W k t -> In t pre) /\
  (forall k', In k' ks -> ~ In k' pre -> (forall t, W k' t -> In t pre) -> k' = k \/ kcmp k k' = Lt).

(** A set of keys each of which waits for one of them. *)
Definition stuck (rest : list K) : Prop := forall k, In k rest -> exists t, W k t /\ In t rest.

(** Two such orders of the same keys agree as far as both go. *)
Lemma greedy_prefix pre s1 s2 : incl (pre ++ s1) ks -> incl (pre ++ s2) ks ->
  List.NoDup (pre ++ s1) -> List.NoDup (pre ++ s2) -> greedy_order (pre ++ s1) -> greedy_order (pre ++ s2) ->
  (exists s, s2 = s1 ++ s)%list \/ (exists s, s1 = s2 ++ s)%list.
Proof.
  revert pre s2. induction s1 as [|k1 s1 IH]; intros pre s2 I1 I2 N1 N2 G1 G2; [left; by exists s2|].
  destruct s2 as [|k2 s2]; [right; by exists (k1 :: s1)|].
  destruct (G1 pre k1 s1 eq_refl) as [W1 L1]. destruct (G2 pre k2 s2 eq_refl) as [W2 L2].
  assert (Hin : forall k s, In k (pre ++ k :: s)) by (intros k s; apply in_app_iff; right; by left).
  assert (Hni : forall k s, List.NoDup (pre ++ k :: s) -> ~ In k pre).
  { intros k s Hnd Hk. apply List.NoDup_remove_2 in Hnd. apply Hnd, in_app_iff. by left. }
  assert (k1 = k2) as <-.
  { destruct (L1 k2) as [->|Hlt]; [by apply I2|by eapply Hni|done|done|].
    destruct (L2 k1) as [->|Hlt']; [by apply I1|by eapply Hni|done|done|]. apply kcmp_gt in Hlt'. congruence. }
  assert (E : forall s, (pre ++ k1 :: s)%list = ((pre ++ [k1]) ++ s)%list) by (intros s; by rewrite <- app_assoc).
  destruct (IH (pre ++ [k1])%list s2) as [[s ->]|[s ->]]; rewrite <- ?E; try done; [left|right]; by exists s.
Qed.

Lemma greedy_unique o1 o2 : incl o1 ks -> incl o2 ks -> List.NoDup o1 -> List.NoDup o2 -> greedy_order o1 -> greedy_order o2 ->
  (forall k, In k ks -> ~ In k o1 -> exists t, W k t /\ ~ In t o1) ->
  (forall k, In k ks -> ~ In k o2 -> exists t, W k t /\ ~ In t o2) -> o1 = o2.
Proof.
  intros I1 I2 N1 N2 G1 G2 M1 M2.
  assert (Hmax : forall o s, incl (o ++ s) ks -> List.NoDup (o ++ s) -> greedy_order (o ++ s) ->
    (forall k, In k ks -> ~ In k o -> exists t, W k t /\ ~ In t o) -> s = []).
  { intros o [|k s] I N G M; [done|]. destruct (G o k s eq_refl) as [Hw _]. destruct (M k) as (t & Ht & Hn).
    - apply I, in_app_iff. right. by left.
    - apply List.NoDup_remove_2 in N. intros Hk. apply N, in_app_iff. by left.
    - destruct Hn. by apply Hw. }
  destruct (greedy_prefix [] o1 o2) as [[s ->]|[s ->]]; try done.
  - by rewrite (Hmax o1 s I2 N2 G2 M1), app_nil_r.
  - by rewrite (Hmax o2 s I1 N1 G1 M2), app_nil_r.
Qed.

(** Finitely many keys that wait on no cycle are never stuck. *)
Lemma acyclic_not_stuck rest : (forall k t, W k t -> In t ks) -> (forall k, ~ tc W k k) -> stuck rest -> rest = [].
Proof.
  intros Hf Ha Hs. destruct rest as [|k rest]; [done|]. exfalso.
  assert (Hsn : sn W k).
  { apply tc_finite_sn; [exact Ha|]. exists ks. intros t Ht. apply list_elem_of_In. revert Ht. clear -Hf. induction 1; eauto. }
  assert (Hk : In k (k :: rest)) by (by left). revert Hk. generalize (k :: rest) as l, Hs. intros l Hl. clear Hs.
  induction Hsn as [x _ IH]. intros Hx. destruct (Hl x Hx) as (t & Ht & Hin). by apply (IH t Ht).
Qed.
End Spec.

Lemma remaining_keys {K} `{OrdKey K} (ks done_ : list K) : List.NoDup ks -> List.NoDup done_ -> incl done_ ks ->
  let l := (done_ ++ bs_collect (List.filter (fun k => negb (bs_mem k done_)) ks))%list in
  List.NoDup l /\ incl l ks /\ length l = length ks.
Proof.
  intros Hk Hd Hi l.
  assert (Hrest : forall k, In k (bs_collect (List.filter (fun k => negb (bs_mem k done_)) ks)) <-> In k ks /\ ~ In k done_).
  { intros k. by rewrite bs_collect_In, filter_In, negb_true_iff, bs_mem_false. }
  assert (Hp : l ≡ₚ ks).
  { apply NoDup_Permutation; [|by apply NoDup_ListNoDup|].
    - apply NoDup_app. split_and!; [by apply NoDup_ListNoDup| |apply bs_sorted_NoDup, bs_collect_sorted].
      intros x Hx Hx'. apply list_elem_of_In in Hx, Hx'. by apply Hrest in Hx' as [_ ?].
    - intros x. unfold l. rewrite !list_elem_of_In, in_app_iff, Hrest. split; [intros [?|[? _]]; auto|].
      intros Hx. destruct (bs_mem x done_) eqn:Em; [left; by apply bs_mem_In|right]. split; [done|]. by apply bs_mem_false. }
  split_and!; [apply NoDup_ListNoDup; rewrite Hp; by apply NoDup_ListNoDup| |by rewrite Hp].
  intros x Hx. apply list_elem_of_In. rewrite <- Hp. by apply list_elem_of_In.
Qed.

Section Kahn.
Context {K A : Type} `{OrdKey K}.
Variables (key_of : A -> K) (items : list A) (edges : list (K * K)).

(** What a key waits for, as a set. *)
Definition preds (d : K) : list K := bs_collect (List.map fst (List.filter (fun e => keqb e.2 d) edges)).
Definition succs (t : K) : list K := bs_collect (List.map snd (List.filter (fun e => keqb e.1 t) edges)).
Definition waits (d t : K) : Prop := In (t, d) edges.

Lemma preds_In d t : In t (preds d) <-> waits d t.
Proof.
  unfold preds, waits. rewrite bs_collect_In, in_map_iff. split.
  - intros ([t' d'] & <- & Hf). apply filter_In in Hf as [Hf E]. apply keqb_eq in E. cbn in *. by subst.
  - intros Hi. exists (t, d). split; [done|]. apply filter_In. split; [done|]. apply keqb_refl.
Qed.

Lemma succs_In d t : In d (succs t) <-> waits d t.
Proof.
  unfold succs, waits. rewrite bs_collect_In, in_map_iff. split.
  - intros ([t' d'] & <- & Hf). apply filter_In in Hf as [Hf E]. apply keqb_eq in E. cbn in *. by subst.
  - intros Hi. exists (t, d). split; [done|]. apply filter_In. split; [done|]. apply keqb_refl.
Qed.

Lemma preds_NoDup d : List.NoDup (preds d).
Proof. apply NoDup_ListNoDup, bs_sorted_NoDup, bs_collect_sorted. Qed.
Lemma succs_NoDup t : List.NoDup (succs t).
Proof. apply NoDup_ListNoDup, bs_sorted_NoDup, bs_collect_sorted. Qed.

Definition keys : list K := List.map key_of items.

(** The graph the loop starts from. *)
Record graph_of (g : graph K) : Prop := {
  go_deps : forall t, default [] (bt_get t (dependents g)) = succs t;
  go_degree : forall d, bt_get d (in_degree g) = if bs_mem d keys then Some (length (preds d)) else None;
  go_sorted : bt_sorted (in_degree g)
}.

Hypothesis keys_NoDup : List.NoDup keys.
Hypothesis edges_keys : forall d t, waits d t -> In d keys /\ In t keys.

(** What is left to wait for once [done_] are out. *)
Definition left_of (done_ : list K) (d : K) : nat := length (List.filter (fun t => negb (bs_mem t done_)) (preds d)).

Lemma left_zero done_ d : left_of done_ d = 0 <-> forall t, waits d t -> In t done_.
Proof.
  unfold left_of. split.
  - intros E t Ht. apply length_zero_iff_nil in E. apply preds_In in Ht. destruct (bs_mem t done_) eqn:Em; [by apply bs_mem_In|].
    assert (Hin : In t (List.filter (fun t => negb (bs_mem t done_)) (preds d))) by (apply filter_In; by rewrite Em).
    by rewrite E in Hin.
  - intros Ha. rewrite filter_none; [done|]. intros t Ht. apply preds_In, Ha, bs_mem_In in Ht. by rewrite Ht.
Qed.

Lemma bs_mem_snoc (k t : K) l : bs_mem t (l ++ [k]) = bs_mem t l || keqb t k.
Proof. induction l as [|x l IH]; cbn; [by rewrite orb_false_r|]. by rewrite IH, orb_assoc. Qed.

Lemma left_step done_ k d : ~ In k done_ ->
  left_of done_ d = left_of (done_ ++ [k]) d + (if bs_mem k (preds d) then 1 else 0).
Proof.
  intros Hk. unfold left_of. pose proof (preds_NoDup d) as Hnd. revert Hnd. generalize (preds d). intros l Hl.
  induction Hl as [|t l Ht _ IH]; [done|]. cbn [List.filter bs_mem]. rewrite bs_mem_snoc, (keqb_sym k t).
  destruct (keqb t k) eqn:E.
  - apply keqb_eq in E as ->. apply bs_mem_false in Hk. rewrite Hk. cbn [negb orb length].
    apply bs_mem_false in Ht. rewrite Ht in IH. lia.
  - rewrite orb_false_r. cbn [orb]. destruct (bs_mem t done_); cbn [negb length]; lia.
Qed.

(** ** Releasing the dependents of a key *)

Lemma release_get dr x d : bt_get d (release dr x).1 =
  if keqb d x then match bt_get d dr.1 with Some (S n) => Some n | o => o end else bt_get d dr.1.
Proof.
  unfold release. destruct (keqb d x) eqn:E.
  - apply keqb_eq in E as ->. destruct (bt_get x dr.1) as [[|n]|] eqn:Eg; cbn; rewrite ?bt_get_insert_eq; done.
  - apply keqb_neq in E. destruct (bt_get x dr.1) as [[|n]|]; cbn; rewrite ?bt_get_insert_ne by done; done.
Qed.

Lemma release_ready dr x d : In d (release dr x).2 <-> In d dr.2 \/ d = x /\ bt_get x dr.1 = Some 1.
Proof.
  unfold release. destruct (bt_get x dr.1) as [[|[|n]]|]; cbn; rewrite ?bs_insert_In; naive_solver.
Qed.

Lemma release_sorted dr x : bt_sorted dr.1 -> bs_sorted dr.2 -> bt_sorted (release dr x).1 /\ bs_sorted (release dr x).2.
Proof.
  intros H1 H2. unfold release. destruct (bt_get x dr.1) as [[|n]|]; cbn; [done| |done].
  split; [by apply bt_insert_sorted|]. destruct (n =? 0)%nat; [by apply bs_insert_sorted|done].
Qed.

Lemma release_fold ds dr : List.NoDup ds -> bt_sorted dr.1 -> bs_sorted dr.2 ->
  let dr' := fold_left release ds dr in
  (forall d, bt_get d dr'.1 = if bs_mem d ds then match bt_get d dr.1 with Some (S n) => Some n | o => o end else bt_get d dr.1) /\
  (forall d, In d dr'.2 <-> In d dr.2 \/ In d ds /\ bt_get d dr.1 = Some 1) /\ bt_sorted dr'.1 /\ bs_sorted dr'.2.
Proof.
  intros Hnd. revert dr. induction Hnd as [|x ds Hx _ IH]; intros dr H1 H2; cbn [fold_left]; [naive_solver|].
  destruct (release_sorted dr x H1 H2) as [H1' H2']. destruct (IH _ H1' H2') as (Hd & Hr & S1 & S2). clear IH.
  split_and!; [| |done|done].
  - intros d. rewrite Hd, release_get. cbn [bs_mem]. destruct (keqb d x) eqn:E; [|done]. apply keqb_eq in E as ->.
    apply bs_mem_false in Hx. by rewrite Hx.
  - intros d. rewrite Hr, release_ready, release_get. cbn [In]. destruct (keqb d x) eqn:E.
    + apply keqb_eq in E as ->. naive_solver.
    + apply keqb_neq in E. naive_solver.
Qed.

(** ** The items of keys *)

Lemma index_keys_get k i : bt_get k (index_keys key_of items) = Some i -> exists a, items !! i = Some a /\ key_of a = k.
Proof.
  unfold index_keys.
  assert (Hz : forall ir, In ir (zip (seq 0 (length items)) items) -> items !! ir.1 = Some ir.2).
  { intros [i' a] Hi. apply list_elem_of_In, list_elem_of_lookup in Hi as [n Hn]. apply lookup_zip_Some in Hn as [Hs Ha].
    apply lookup_seq in Hs as [-> _]. done. }
  revert Hz. generalize (zip (seq 0 (length items)) items). intros l.
  assert (Hm : forall k i, bt_get k ([] : list (K * nat)) = Some i -> exists a, items !! i = Some a /\ key_of a = k) by done.
  revert Hm. generalize ([] : list (K * nat)). induction l as [|[j a] l IH]; intros m Hm Hz; [apply Hm|].
  cbn [fold_left]. apply IH; [|by intros ? ?; apply Hz; right].
  intros k' i'. cbn [fst snd]. rewrite bt_get_insert. destruct (keqb k' (key_of a)) eqn:E; [|apply Hm].
  apply keqb_eq in E as ->. intros [= <-]. exists a. split; [|done]. by apply (Hz (j, a)); left.
Qed.

Lemma index_keys_some k : In k keys -> exists i, bt_get k (index_keys key_of items) = Some i.
Proof.
  unfold index_keys, keys. intros Hk.
  assert (Hz : exists i a, In (i, a) (zip (seq 0 (length items)) items) /\ key_of a = k).
  { apply in_map_iff in Hk as (a & <- & Ha). apply list_elem_of_In, list_elem_of_lookup in Ha as [i Hi]. exists i, a.
    split; [|done]. apply list_elem_of_In, list_elem_of_lookup. exists i. apply lookup_zip_Some. split; [|done].
    apply lookup_seq. split; [done|]. by apply lookup_lt_Some in Hi. }
  clear Hk. destruct Hz as (i & a & Hi & <-). revert Hi. generalize (zip (seq 0 (length items)) items). intros l.
  generalize ([] : list (K * nat)).
  assert (G : forall (l : list (nat * A)) m, (exists j, bt_get (key_of a) m = Some j) ->
    exists j, bt_get (key_of a) (fold_left (fun m ir => bt_insert (key_of ir.2) ir.1 m) l m) = Some j).
  { clear l. induction l as [|[j b] l IH]; intros m Hm; [done|]. cbn [fold_left]. apply IH. cbn [fst snd]. rewrite bt_get_insert.
    destruct (keqb (key_of a) (key_of b)); eauto. }
  induction l as [|[j b] l IH]; intros m; [done|]. intros [[= -> ->]|Hi]; cbn [fold_left]; [|auto].
  apply G. rewrite bt_get_insert_eq. eauto.
Qed.

Lemma resource_of_key k : In k keys -> exists a, resource_of (index_keys key_of items) items k = [a] /\ key_of a = k /\ In a items.
Proof.
  intros Hk. destruct (index_keys_some k Hk) as [i Hi]. destruct (index_keys_get k i Hi) as (a & Ha & <-). exists a.
  unfold resource_of. rewrite Hi. cbn. rewrite Ha. split_and!; [done|done|]. by apply list_elem_of_lookup_2, list_elem_of_In in Ha.
Qed.

(** ** The loop *)

Definition greedy : list K -> Prop := greedy_order keys waits.

Lemma greedy_snoc out k : greedy out -> (forall t, waits k t -> In t out) ->
  (forall k', In k' keys -> ~ In k' out -> (forall t, waits k' t -> In t out) -> k' = k \/ kcmp k k' = Lt) ->
  greedy (out ++ [k]).
Proof.
  intros Hg H1 H2 pre x post E. destruct post as [|y post] using rev_ind.
  - apply app_inj_tail in E as [<- <-]. done.
  - clear IHpost. change (pre ++ x :: post ++ [y])%list with (pre ++ (x :: post) ++ [y])%list in E.
    rewrite app_assoc in E. apply app_inj_tail in E as [E _]. by apply (Hg pre x post).
Qed.

Lemma greedy_left out d : greedy out -> In d out -> left_of out d = 0.
Proof.
  intros Hg Hd. apply in_split in Hd as (pre & post & ->). apply left_zero. intros t Ht.
  destruct (Hg pre d post eq_refl) as [Hw _]. apply in_app_iff. left. auto.
Qed.

Record kahn_inv (done_ : list K) (st : kahn) : Prop := {
  ki_ready_sorted : bs_sorted (ready st);
  ki_degrees_sorted : bt_sorted (degrees st);
  ki_degrees : forall d, bt_get d (degrees st) = if bs_mem d keys then Some (left_of done_ d) else None;
  ki_ready : forall d, In d (ready st) <-> In d keys /\ left_of done_ d = 0 /\ ~ In d done_;
  ki_done : List.NoDup done_ /\ incl done_ keys;
  ki_ordered : ordered st = List.concat (List.map (resource_of (index_keys key_of items) items) done_);
  ki_emitted : forall d, In d (emitted st) <-> In d done_;
  ki_greedy : greedy done_
}.

Lemma ordered_keys done_ : incl done_ keys ->
  List.map key_of (List.concat (List.map (resource_of (index_keys key_of items) items) done_)) = done_.
Proof.
  induction done_ as [|k l IH]; intros Hi; [done|]. cbn [List.map List.concat].
  destruct (resource_of_key k) as (a & -> & <- & _); [apply Hi; by left|]. cbn [app List.map].
  rewrite IH; [done|]. intros x Hx. apply Hi. by right.
Qed.

Lemma kahn_step_inv g done_ st k rest : graph_of g -> kahn_inv done_ st -> ready st = k :: rest ->
  kahn_inv (done_ ++ [k]) (kahn_step (index_keys key_of items) items (dependents g) k
    {| ready := rest; degrees := degrees st; ordered := ordered st; emitted := emitted st |}).
Proof.
  intros Hg I Er. destruct I as [RS DS DG RD [ND IN] OR EM GR]. rewrite Er in *.
  destruct (RD k) as [RDk _]. destruct RDk as (Hkk & Hlk & Hkd); [by left|].
  assert (Hks : forall d, In d rest -> d <> k).
  { intros d Hd ->. apply bs_sorted_NoDup, NoDup_cons in RS as [RS _]. by apply RS, list_elem_of_In. }
  destruct RS as [Rlt Rs]. destruct (resource_of_key k Hkk) as (a & Ea & _).
  unfold kahn_step. rewrite Ea. cbn [ready degrees ordered emitted].
  destruct (release_fold (succs k) (degrees st, rest)) as (Fd & Fr & FS & RS'); [apply succs_NoDup|done|done|].
  rewrite (go_deps _ Hg). set (dr := fold_left release (succs k) (degrees st, rest)) in *. cbn [fst snd] in *.
  assert (Hsp : forall d, bs_mem d (succs k) = bs_mem k (preds d)).
  { intros d. apply eq_true_iff_eq. by rewrite !bs_mem_In, succs_In, preds_In. }
  split; cbn [ready degrees ordered emitted].
  - done.
  - done.
  - intros d. rewrite Fd, DG, Hsp, (left_step done_ k d Hkd). destruct (bs_mem k (preds d)), (bs_mem d keys); try done.
    + by rewrite Nat.add_1_r.
    + by rewrite Nat.add_0_r.
  - intros d. rewrite Fr, DG. specialize (RD d). pose proof (left_step done_ k d Hkd) as Hls.
    pose proof (greedy_left done_ d GR) as Hg0. pose proof (Hks d) as Hdk. cbn [In] in RD.
    rewrite <- (bs_mem_In d (succs k)), Hsp, in_app_iff. cbn [In]. rewrite <- (bs_mem_In d keys) in RD |- *.
    destruct (bs_mem k (preds d)), (bs_mem d keys); split; intros Hx; destruct RD as [RD1 RD2].
    + destruct Hx as [Hr|[_ [= Hl]]].
      * destruct RD1 as (_ & ? & ?); [by right|]. split_and!; [done|lia|]. intros [?|[<-|[]]]; [done|]. by apply Hdk.
      * split_and!; [done|lia|]. intros [Hd|[<-|[]]]; [apply Hg0 in Hd|]; lia.
    + right. destruct Hx as (_ & Hl & _). split; [done|]. f_equal. lia.
    + destruct Hx as [Hr|[_ [=]]]. destruct RD1 as [[=] _]. by right.
    + by destruct Hx as [[=] _].
    + destruct Hx as [Hr|[[=] _]]. destruct RD1 as (_ & ? & ?); [by right|]. split_and!; [done|lia|].
      intros [?|[<-|[]]]; [done|]. by apply Hdk.
    + left. destruct Hx as (_ & Hl & Hn). destruct RD2 as [->|?]; [|destruct Hn; right; by left|done].
      split_and!; [done|lia|]. intros ?. apply Hn. by left.
    + destruct Hx as [Hr|[[=] _]]. destruct RD1 as [[=] _]. by right.
    + by destruct Hx as [[=] _].
  - split; [|intros x [Hx|[<-|[]]]%in_app_iff; auto]. apply NoDup_ListNoDup, NoDup_app. split; [by apply NoDup_ListNoDup|].
    split; [|apply NoDup_singleton]. intros x Hx Hx'. apply list_elem_of_singleton in Hx' as ->. by apply Hkd, list_elem_of_In.
  - by rewrite OR, map_app, concat_app; cbn [List.map List.concat]; rewrite Ea, app_nil_r.
  - intros d. rewrite bs_insert_In, EM, in_app_iff. cbn [In]. naive_solver.
  - apply greedy_snoc; [done|by apply left_zero|]. intros k' Hk' Hn Hw. apply left_zero in Hw.
    destruct (RD k') as [_ [->|Hr]]; [done|by left|]. right. rewrite Forall_forall in Rlt. by apply Rlt, list_elem_of_In.
Qed.

Lemma kahn_loop_inv g fuel done_ st : graph_of g -> kahn_inv done_ st -> length done_ + fuel = S (length items) ->
  exists done' st', kahn_loop fuel (index_keys key_of items) items (dependents g) st = Some st' /\
    kahn_inv done' st' /\ ready st' = [].
Proof.
  intros Hg. revert done_ st. induction fuel as [|fuel IH]; intros done_ st I Hf.
  - exfalso. destruct (ki_done _ _ I) as [ND IN]. pose proof (List.NoDup_incl_length ND IN) as Hl.
    unfold keys in Hl. rewrite length_map in Hl. lia.
  - cbn [kahn_loop]. destruct (ready st) as [|k rest] eqn:Er; [eauto|].
    apply (IH (done_ ++ [k])%list); [by apply kahn_step_inv|]. rewrite length_app. cbn. lia.
Qed.

Lemma kahn_init_inv g : graph_of g ->
  kahn_inv [] {| ready := bs_collect (List.map fst (List.filter (fun kd => (kd.2 =? 0)%nat) (in_degree g)));
                 degrees := in_degree g; ordered := []; emitted := [] |}.
Proof.
  intros [_ DG DS]. assert (Hl : forall d, left_of [] d = length (preds d)) by (intros d; unfold left_of; by rewrite filter_all).
  split; cbn [ready degrees ordered emitted].
  - apply bs_collect_sorted.
  - done.
  - intros d. by rewrite DG, Hl.
  - intros d. rewrite bs_collect_In, in_map_iff, Hl. specialize (DG d). split.
    + intros ([d' n] & <- & Hf). apply filter_In in Hf as [Hf En]. cbn in En |- *. apply Nat.eqb_eq in En as ->.
      apply (bt_In_get _ _ _ DS) in Hf. cbn [fst] in DG. rewrite DG in Hf. destruct (bs_mem d' keys) eqn:Em; [|done].
      apply bs_mem_In in Em. injection Hf as Hf. split_and!; [done|done|by intros []].
    + intros (Hk & Hz & _). apply bs_mem_In in Hk. rewrite Hk, Hz in DG. exists (d, 0). split; [done|].
      apply filter_In. split; [by apply bt_get_In|done].
  - split; [constructor|intros ? []].
  - done.
  - done.
  - intros pre k post E. by apply app_cons_not_nil in E.
Qed.

(** ** The result *)

Lemma kahn_sort_spec g : graph_of g -> exists done_ out w, let rest := bs_collect (List.filter (fun k => negb (bs_mem k done_)) keys) in
  kahn_sort key_of items g = Some (out, w) /\ out = List.concat (List.map (resource_of (index_keys key_of items) items) (done_ ++ rest)) /\
  greedy done_ /\ List.NoDup done_ /\ incl done_ keys /\ stuck waits rest /\
  w = match rest with [] => None | _ => Some (length rest, length items) end.
Proof.
  intros Hg. destruct (kahn_loop_inv g (S (length items)) [] _ Hg (kahn_init_inv g Hg) eq_refl) as (done_ & st & El & I & Er).
  destruct I as [_ DS DG RD [ND IN] OR EM GR]. rewrite Er in RD. set (rest := bs_collect (List.filter (fun k => negb (bs_mem k done_)) keys)).
  exists done_, (List.concat (List.map (resource_of (index_keys key_of items) items) (done_ ++ rest))),
    (match rest with [] => None | _ => Some (length rest, length items) end).
  assert (Hrest : forall k, In k rest <-> In k keys /\ ~ In k done_).
  { intros k. unfold rest. rewrite bs_collect_In, filter_In. rewrite negb_true_iff, bs_mem_false. done. }
  assert (Hlen : length (ordered st) = length done_).
  { rewrite <- (ordered_keys done_ IN), length_map, OR. done. }
  destruct (remaining_keys keys done_ keys_NoDup ND IN) as (_ & _ & Hn). fold rest in Hn. rewrite length_app in Hn.
  unfold keys in Hn. rewrite length_map in Hn.
  cbn zeta. split_and!; [|done|done|done|done| |done].
  - unfold kahn_sort. rewrite El. cbn [mbind option_bind]. rewrite Hlen, OR. destruct (Nat.eqb_spec (length done_) (length items)) as [E|E].
    + destruct rest; [|cbn in Hn; lia]. by rewrite app_nil_r.
    + assert (Hrem : bs_collect (List.filter (fun k => negb (bs_mem k (emitted st))) (List.map fst (degrees st))) = rest).
      { apply bs_ext; [apply bs_collect_sorted|apply bs_collect_sorted|]. intros k.
        rewrite bs_collect_In, filter_In, negb_true_iff, bs_mem_false, EM, Hrest. apply and_iff_compat_r.
        specialize (DG k). rewrite <- (bs_mem_In k keys). change (List.map fst (degrees st)) with (fst <$> degrees st).
        rewrite bt_keys_In, DG. destruct (bs_mem k keys); split; try done; [eauto|by intros [? ?]]. }
      rewrite Hrem, map_app, concat_app. replace (length items - length done_) with (length rest) by lia.
      destruct rest; [cbn in Hn; lia|done].
  - intros k Hk. pose proof Hk as [Hkk Hkd]%Hrest. destruct (List.Exists_dec (fun t => In t rest) (preds k)) as [Hex|Hne].
    + intros t. apply In_dec. intros a b. destruct (keqb a b) eqn:E; [left; by apply keqb_eq|right; by apply keqb_neq].
    + apply List.Exists_exists in Hex as (t & Ht & Hr). exists t. split; [by apply preds_In|done].
    + exfalso. apply RD with (d := k). split_and!; [done| |done]. apply left_zero. intros t Ht.
      destruct (bs_mem t done_) eqn:Em; [by apply bs_mem_In|]. exfalso. apply Hne, List.Exists_exists. exists t.
      split; [by apply preds_In|]. apply Hrest. split; [by apply (edges_keys k)|]. by apply bs_mem_false.
Qed.

Lemma sorted_keys l : incl l keys ->
  List.map key_of (List.concat (List.map (resource_of (index_keys key_of items) items) l)) = l /\
  incl (List.concat (List.map (resource_of (index_keys key_of items) items) l)) items.
Proof.
  intros Hl. split; [by apply ordered_keys|]. intros a Ha. apply in_concat in Ha as (x & Hx & Ha).
  apply in_map_iff in Hx as (k & <- & Hk). destruct (resource_of_key k (Hl k Hk)) as (b & Eb & _ & Hb). rewrite Eb in Ha.
  by destruct Ha as [<-|[]].
Qed.
End Kahn.

(** ** The graph *)

Section Build.
Context {K : Type} `{OrdKey K}.
Variable ks : list K.

Definition add_all (edges : list (K * K)) (g : graph K) : graph K := fold_left (fun g e => add_edge g e.1 e.2) edges g.

Lemma preds_snoc (edges : list (K * K)) t d x : preds (edges ++ [(t, d)]) x = if keqb d x then bs_insert t (preds edges x) else preds edges x.
Proof.
  unfold preds. rewrite List.filter_app, map_app. cbn [List.filter snd].
  destruct (keqb d x); cbn [List.map fst]; [apply bs_collect_snoc|by rewrite app_nil_r].
Qed.
Lemma succs_snoc (edges : list (K * K)) t d x : succs (edges ++ [(t, d)]) x = if keqb t x then bs_insert d (succs edges x) else succs edges x.
Proof.
  unfold succs. rewrite List.filter_app, map_app. cbn [List.filter fst].
  destruct (keqb t x); cbn [List.map snd]; [apply bs_collect_snoc|by rewrite app_nil_r].
Qed.

Lemma add_all_graph edges degrees0 : bt_sorted degrees0 ->
  (forall d, bt_get d degrees0 = if bs_mem d ks then Some 0 else None) -> (forall t d, In (t, d) edges -> In d ks) ->
  let g := add_all edges {| dependents := []; in_degree := degrees0 |} in
  (forall t, default [] (bt_get t (dependents g)) = succs edges t) /\
  (forall d, bt_get d (in_degree g) = if bs_mem d ks then Some (length (preds edges d)) else None) /\
  bt_sorted (in_degree g).
Proof.
  intros S0 D0. induction edges as [|[t d] edges IH] using rev_ind; intros Hk; [done|].
  destruct IH as (Hs & Hd & Hso). { intros t' d' Hi. apply (Hk t'), in_app_iff. by left. }
  unfold add_all in *. rewrite fold_left_app. cbn [fold_left fst snd].
  set (g := fold_left (fun g e => add_edge g e.1 e.2) edges {| dependents := []; in_degree := degrees0 |}) in *.
  assert (Hkd : bs_mem d ks = true) by (apply bs_mem_In, (Hk t), in_app_iff; right; by left).
  unfold add_edge. rewrite Hs. destruct (bs_mem d (succs edges t)) eqn:Em.
  - apply bs_mem_In in Em. pose proof Em as Ep. apply succs_In in Ep. apply preds_In in Ep. split_and!; [| |done].
    + intros t'. rewrite Hs, succs_snoc. destruct (keqb t t') eqn:E; [|done]. apply keqb_eq in E as <-.
      by rewrite bs_insert_mem by (done || apply bs_collect_sorted).
    + intros d'. rewrite Hd, preds_snoc. destruct (keqb d d') eqn:E; [|done]. apply keqb_eq in E as <-.
      by rewrite bs_insert_mem by (done || apply bs_collect_sorted).
  - apply bs_mem_false in Em. assert (Ep : ~ In t (preds edges d)) by (rewrite preds_In; rewrite succs_In in Em; done).
    cbn [dependents in_degree]. split_and!; [| |by apply bt_insert_sorted].
    + intros t'. rewrite bt_get_insert, succs_snoc, (keqb_sym t' t). destruct (keqb t t') eqn:E; [|apply Hs].
      apply keqb_eq in E as <-. done.
    + intros d'. rewrite bt_get_insert, preds_snoc, (keqb_sym d' d). destruct (keqb d d') eqn:E; [|apply Hd].
      apply keqb_eq in E as <-. rewrite Hd, Hkd. cbn [default]. f_equal. rewrite (Permutation_length (bs_insert_new t _ Ep)).
      cbn. lia.
Qed.
End Build.

(** The edges in the order the emitter adds them. *)
Definition edges_of (module : Module_) (cross_index : CrossFeatureIndex) (rs : list (Feature * Resource)) : list (Key * Key) :=
  List.concat (List.map (fun fr =>
    List.concat (List.map (fun field =>
      match edge_of module cross_index (key fr) field with Some t => [(t, key fr)] | None => [] end) (fields fr.2))) rs).

Lemma fold_concat {S E X} (step : S -> E -> S) (es : X -> list E) (l : list X) s :
  fold_left (fun s x => fold_left step (es x) s) l s = fold_left step (List.concat (List.map es l)) s.
Proof. revert s. induction l as [|x l IH]; intros s; [done|]. cbn. rewrite fold_left_app. apply IH. Qed.

Lemma dependency_graph_edges module rs cross_index :
  dependency_graph module rs cross_index =
  add_all (edges_of module cross_index rs)
    {| dependents := []; in_degree := fold_left (fun m fr => bt_insert (key fr) 0 m) rs [] |}.
Proof.
  unfold dependency_graph, add_all, edges_of. rewrite <- fold_concat. generalize {| dependents := []; in_degree := fold_left (fun m fr => bt_insert (key fr) 0 m) rs [] |}.
  induction rs as [|fr rs IH]; intros g; [done|]. cbn [fold_left]. rewrite <- IH. f_equal. clear IH.
  rewrite <- fold_concat. revert g. induction (fields fr.2) as [|f fs IH]; intros g; [done|]. cbn [fold_left]. rewrite <- IH. f_equal.
  by destruct (edge_of module cross_index (key fr) f).
Qed.

Lemma zero_degrees (rs : list (Feature * Resource)) :
  let m := fold_left (fun m fr => bt_insert (key fr) 0 m) rs [] in
  bt_sorted m /\ forall d, bt_get d m = if bs_mem d (List.map key rs) then Some 0 else None.
Proof.
  cbn zeta. induction rs as [|fr rs [IHs IHg]] using rev_ind; [done|]. rewrite fold_left_app, map_app. cbn [fold_left List.map].
  split; [by apply bt_insert_sorted|]. intros d. rewrite bt_get_insert, bs_mem_snoc, IHg.
  destruct (keqb d (key fr)); [by rewrite orb_true_r|by rewrite orb_false_r].
Qed.

(** [d] has a foreign key to another resource [t]. *)
Definition references (module : Module_) (d t : Key) : Prop := exists fr field qname,
  In fr (raw_resources module) /\ key fr = d /\ In field (fields fr.2) /\ type_ref field = UserDefined qname /\
  foreign_key_owner module qname (build module) = Some t.1 /\ qn_name qname = t.2 /\ t <> d.

Lemma edge_of_iff module index d field t : edge_of module index d field = Some t <->
  exists qname, type_ref field = UserDefined qname /\ foreign_key_owner module qname index = Some t.1 /\ qn_name qname = t.2 /\ t <> d.
Proof.
  unfold edge_of, foreign_key_owner. destruct (type_ref field) as [b|q|q|t'|s|c]; try (split; [done|by intros (? & ? & _)]).
  destruct (match qn_feature q with Some o => Some o | None => owner index (qn_name q) end) as [o|] eqn:Eo; cbn [mbind option_bind].
  - destruct (feature_declares_resource module o (qn_name q)) eqn:Ed; cbn [negb].
    + destruct (keqb (o, qn_name q) d) eqn:Ek.
      * apply keqb_eq in Ek. split; [done|]. intros (q' & [= <-] & Hq & Hn & Hne). rewrite Eo in Hq. cbn in Hq.
        rewrite Ed in Hq. injection Hq as Hq. destruct Hne. rewrite <- Ek, Hq, Hn. by destruct t.
      * apply keqb_neq in Ek. split.
        -- intros [= <-]. exists q. rewrite Eo. cbn. by rewrite Ed.
        -- intros (q' & [= <-] & Hq & Hn & Hne). rewrite Eo in Hq. cbn in Hq. rewrite Ed in Hq. injection Hq as ->.
           rewrite Hn. by destruct t.
    + split; [done|]. intros (q' & [= <-] & Hq & _). rewrite Eo in Hq. cbn in Hq. by rewrite Ed in Hq.
  - split; [done|]. intros (q' & [= <-] & Hq & _). by rewrite Eo in Hq.
Qed.

Lemma edges_references module rs d t : rs ≡ₚ raw_resources module ->
  In (t, d) (edges_of module (build module) rs) <-> references module d t.
Proof.
  intros Hp. unfold edges_of, references. rewrite in_concat. split.
  - intros (x & Hx & Hi). apply in_map_iff in Hx as (fr & <- & Hfr). apply in_concat in Hi as (y & Hy & Hi).
    apply in_map_iff in Hy as (field & <- & Hf). destruct (edge_of module (build module) (key fr) field) as [t'|] eqn:E; [|done].
    destruct Hi as [[= -> <-]|[]]. apply edge_of_iff in E as (q & Hq). exists fr, field, q. split; [|tauto].
    rewrite <- list_elem_of_In, <- Hp. by apply list_elem_of_In.
  - intros (fr & field & q & Hfr & <- & Hf & Hq). assert (E : edge_of module (build module) (key fr) field = Some t).
    { apply edge_of_iff. exists q. tauto. }
    eexists. split.
    + apply in_map_iff. exists fr. split; [reflexivity|]. apply list_elem_of_In. rewrite Hp. by apply list_elem_of_In.
    + apply in_concat. exists [(t, key fr)]. split; [|by left]. apply in_map_iff. exists field. by rewrite E.
Qed.

(** A foreign key points at a resource of the module. *)
Lemma declared_key module f r : feature_declares_resource module f r = true -> In (f, r) (List.map key (raw_resources module)).
Proof.
  unfold feature_declares_resource. intros (ft & Hft & Hr)%existsb_exists. apply andb_true_iff in Hr as [Hn Hr].
  apply existsb_exists in Hr as (rs & Hrs & En). bool_prop. subst. apply in_map_iff. exists (ft, rs). split; [done|].
  unfold raw_resources. apply in_concat. exists (List.map (fun r => (ft, r)) (resources ft)). split.
  - by apply (in_map (fun f => List.map (fun r => (f, r)) (resources f))).
  - by apply in_map.
Qed.

Lemma references_keys module d t : references module d t ->
  In d (List.map key (raw_resources module)) /\ In t (List.map key (raw_resources module)).
Proof.
  intros (fr & field & q & Hfr & <- & _ & _ & Ho & Hn & _). split; [by apply in_map|]. destruct t as [tf tr]. cbn in *. subst.
  apply declared_key. unfold foreign_key_owner in Ho. destruct (match qn_feature q with Some o => Some o | None => _ end) as [o|]; [|done].
  cbn in Ho. destruct (feature_declares_resource module o (qn_name q)) eqn:Ed; [|done]. by injection Ho as <-.
Qed.

(** * Properties *)

Section Sorted.
Variables (module : Module_) (rs : list (Feature * Resource)).
Hypothesis rs_all : rs ≡ₚ raw_resources module.
Hypothesis rs_distinct : List.NoDup (List.map key rs).

Abbreviation edges := (edges_of module (build module) rs).

Lemma rs_references d t : references module d t -> In d (List.map key rs) /\ In t (List.map key rs).
Proof.
  intros [Hd Ht]%references_keys. apply list_elem_of_In in Hd, Ht. split; apply list_elem_of_In; change (List.map key rs) with (key <$> rs);
    by rewrite rs_all.
Qed.

Lemma topo_spec : exists done_ out w, let rest := bs_collect (List.filter (fun k => negb (bs_mem k done_)) (List.map key rs)) in
  topo_sort_resources module rs (build module) = Some (out, w) /\
  out = List.concat (List.map (resource_of (index_keys key rs) rs) (done_ ++ rest)) /\
  greedy_order (List.map key rs) (references module) done_ /\ List.NoDup done_ /\ incl done_ (List.map key rs) /\
  stuck (references module) rest /\ w = match rest with [] => None | _ => Some (length rest, length rs) end.
Proof.
  assert (HW : forall d t, waits edges d t <-> references module d t) by (intros; by apply edges_references).
  assert (Hk : forall d t, waits edges d t -> In d (keys key rs) /\ In t (keys key rs)) by (intros d t Hw; by apply rs_references, HW).
  destruct (zero_degrees rs) as [Zs Zg].
  destruct (add_all_graph (List.map key rs) edges _ Zs Zg) as (Gd & Gg & Gs); [intros t d Hi; by apply (Hk d t)|].
  rewrite <- dependency_graph_edges in Gd, Gg, Gs.
  destruct (kahn_sort_spec key rs edges rs_distinct Hk (dependency_graph module rs (build module))) as (done_ & out & w & H); [by split|].
  cbn zeta in H. destruct H as (H1 & H2 & H3 & H4 & H5 & H6 & H7). exists done_, out, w. cbn zeta. split_and!; try done.
  - intros pre k post E. destruct (H3 pre k post E) as [Hw Hl]. split; [intros t Ht; by apply Hw, HW|].
    intros k' Hk' Hn Ha. apply Hl; [done|done|]. intros t Ht. by apply Ha, HW.
  - intros k Hkr. destruct (H6 k Hkr) as (t & Ht & Hr). exists t. split; [by apply HW|done].
Qed.
End Sorted.

Lemma out_keys rs l : incl l (List.map key rs) -> List.NoDup l -> length l = length rs -> List.NoDup (List.map key rs) ->
  let out := List.concat (List.map (resource_of (index_keys key rs) rs) l) in List.map key out = l /\ out ≡ₚ rs.
Proof.
  intros Hi Hn Hl Hd out. destruct (sorted_keys key rs l Hi) as [Hk Hin]. fold out in Hk, Hin. split; [exact Hk|].
  apply NoDup_Permutation; [|by apply NoDup_ListNoDup, (List.NoDup_map_inv key)|].
  - apply NoDup_ListNoDup, (List.NoDup_map_inv key). by rewrite Hk.
  - intros x. rewrite !list_elem_of_In. split; [apply Hin|]. intros Hx.
    assert (Hkx : In (key x) l) by (apply (List.NoDup_length_incl (l' := List.map key rs) Hn); [by rewrite length_map, Hl|exact Hi|by apply in_map]).
    rewrite <- Hk in Hkx. apply in_map_iff in Hkx as (y & Ey & Hy). pose proof (Hin y Hy) as Hy'.
    by rewrite <- (NoDup_map_eq key rs y x).
Qed.

Lemma topo_shape module rs : rs ≡ₚ raw_resources module -> List.NoDup (List.map key rs) ->
  exists sorted_ rest out w,
    topo_sort_resources module rs (build module) = Some (out, w) /\ out ≡ₚ rs /\ List.map key out = (sorted_ ++ rest)%list /\
    greedy_order (List.map key rs) (references module) sorted_ /\ bs_sorted rest /\ stuck (references module) rest /\
    w = match rest with [] => None | _ => Some (length rest, length rs) end.
Proof.
  intros Hp Hn. destruct (topo_spec module rs Hp Hn) as (done_ & out & w & H). cbn zeta in H.
  set (rest := bs_collect (List.filter (fun k => negb (bs_mem k done_)) (List.map key rs))) in *.
  destruct H as (E & Eo & G & N & I & S & W). exists done_, rest, out, w.
  destruct (remaining_keys (List.map key rs) done_ Hn N I) as (Ni & Ii & Hlen). fold rest in Ni, Ii, Hlen.
  destruct (out_keys rs (done_ ++ rest) Ii Ni) as [Ek Ep]; [by rewrite Hlen, length_map|done|]. rewrite <- Eo in Ek, Ep.
  split_and!; try done. apply bs_collect_sorted.
Qed.

(** The sort returns every resource once. First come the keys a foreign-key
    target at a time, each the least of those waiting for nothing left; then, in
    lexical order, those that each wait for another of them, if any, and the
    warning counts exactly these. *)
Theorem topo_sort_exact module rs : rs ≡ₚ raw_resources module -> List.NoDup (List.map key rs) ->
  exists sorted_ rest out w,
    topo_sort_resources module rs (build module) = Some (out, w) /\ out ≡ₚ rs /\ List.map key out = (sorted_ ++ rest)%list /\
    (forall pre k post, sorted_ = (pre ++ k :: post)%list ->
       (forall t, references module k t -> In t pre) /\
       (forall k', In k' (List.map key rs) -> ~ In k' pre -> (forall t, references module k' t -> In t pre) ->
          k' = k \/ kcmp k k' = Lt)) /\
    bs_sorted rest /\ (forall k, In k rest -> exists t, references module k t /\ In t rest) /\
    w = match rest with [] => None | _ => Some (length rest, length rs) end.
Proof. apply topo_shape. Qed.

Lemma topo_acyclic module rs : rs ≡ₚ raw_resources module -> List.NoDup (List.map key rs) ->
  exists out w, topo_sort_resources module rs (build module) = Some (out, w) /\ out ≡ₚ rs /\
    (w = None <-> forall k, ~ tc (references module) k k) /\
    (w = None -> forall d t, references module d t -> exists a b c, List.map key out = (a ++ t :: b ++ d :: c)%list).
Proof.
  intros Hp Hn. destruct (topo_shape module rs Hp Hn) as (sorted_ & rest & out & w & E & Ep & Ek & G & _ & Hst & W).
  exists out, w. split; [done|]. split; [done|].
  assert (Hw : w = None -> forall d t, references module d t -> exists a b c, List.map key out = (a ++ t :: b ++ d :: c)%list).
  { intros ->. destruct rest; [|done]. intros d t Hr. rewrite app_nil_r in Ek. rewrite Ek.
    assert (Hd : In d sorted_).
    { rewrite <- Ek. destruct (rs_references module rs Hp d t Hr) as [Hd _]. apply list_elem_of_In in Hd. apply list_elem_of_In.
      change (List.map key out) with (key <$> out). by rewrite Ep. }
    apply in_split in Hd as (pre & c & ->). destruct (G pre d c eq_refl) as [Hin _]. specialize (Hin t Hr).
    apply in_split in Hin as (a & b & ->). exists a, b, c. by rewrite <- app_assoc. }
  split; [|exact Hw]. split.
  - intros Hnone k Hc. specialize (Hw Hnone). assert (Ndk : List.NoDup (List.map key out)).
    { apply NoDup_ListNoDup. change (List.map key out) with (key <$> out). rewrite Ep. by apply NoDup_ListNoDup. }
    assert (Hidx : forall d t, references module d t -> exists i j, (List.map key out) !! i = Some t /\ (List.map key out) !! j = Some d /\ i < j).
    { intros d t Hr. destruct (Hw d t Hr) as (a & b & c & ->). exists (length a), (length a + S (length b)). split_and!.
      - by apply list_lookup_middle.
      - rewrite lookup_app_r by lia. replace (length a + S (length b) - length a) with (S (length b)) by lia. cbn.
        by apply list_lookup_middle.
      - lia. }
    assert (Hmono : forall d t, tc (references module) d t -> exists i j, (List.map key out) !! i = Some t /\ (List.map key out) !! j = Some d /\ i < j).
    { induction 1 as [d t Hr|d m t Hr _ (i & j & Hi & Hj & Hlt)]; [by apply Hidx|].
      destruct (Hidx d m Hr) as (i' & j' & Hi' & Hj' & Hlt'). exists i, j'. split_and!; [done|done|].
      assert (i' = j) by (apply NoDup_ListNoDup in Ndk; by eapply NoDup_lookup). lia. }
    destruct (Hmono k k Hc) as (i & j & Hi & Hj & Hlt).
    assert (i = j) by (apply NoDup_ListNoDup in Ndk; by eapply NoDup_lookup). lia.
  - intros Ha. subst w. rewrite (acyclic_not_stuck (List.map key rs) (references module) rest); try done.
    intros k t Hr. by apply (rs_references module rs Hp k t).
Qed.

(** C24: There is a warning exactly when the foreign keys form a cycle; without one,
    the target of every foreign key comes before the resource that has it. *)
Theorem topo_sort_acyclic module rs : rs ≡ₚ raw_resources module -> List.NoDup (List.map key rs) ->
  exists out w, topo_sort_resources module rs (build module) = Some (out, w) /\
    (w = None <-> forall k, ~ tc (references module) k k) /\
    (w = None -> forall d t, references module d t -> exists a b c, List.map key out = (a ++ t :: b ++ d :: c)%list).
Proof. intros Hp Hn. destruct (topo_acyclic module rs Hp Hn) as (out & w & E & _ & H). by exists out, w. Qed.

(** The order depends on the resources, not on the order they are listed in. *)
Theorem topo_sort_stable module rs1 rs2 : rs1 ≡ₚ raw_resources module -> rs2 ≡ₚ rs1 -> List.NoDup (List.map key rs1) ->
  topo_sort_resources module rs2 (build module) = topo_sort_resources module rs1 (build module).
Proof.
  intros Hp1 Hp Hn1. assert (Hp2 : rs2 ≡ₚ raw_resources module) by (by rewrite Hp).
  assert (Hkp : List.map key rs2 ≡ₚ List.map key rs1) by (change (List.map key rs2) with (key <$> rs2); by rewrite Hp).
  assert (Hn2 : List.NoDup (List.map key rs2)) by (apply NoDup_ListNoDup; rewrite Hkp; by apply NoDup_ListNoDup).
  assert (Hin : forall k, In k (List.map key rs2) <-> In k (List.map key rs1)) by (intros k; by rewrite <- !list_elem_of_In, Hkp).
  destruct (topo_spec module rs1 Hp1 Hn1) as (d1 & o1 & w1 & H1). destruct (topo_spec module rs2 Hp2 Hn2) as (d2 & o2 & w2 & H2).
  cbn zeta in H1, H2. destruct H1 as (-> & -> & G1 & N1 & I1 & S1 & ->). destruct H2 as (-> & -> & G2 & N2 & I2 & S2 & ->).
  assert (Ed : d2 = d1).
  { apply (greedy_unique (List.map key rs1) (references module)); try done.
    - intros k Hk. by apply Hin, I2.
    - intros pre k post E. destruct (G2 pre k post E) as [Hw Hl]. split; [done|]. intros k' Hk'. by apply Hl, Hin.
    - intros k Hk Hnk. destruct (S2 k) as (t & Ht & Hr); [apply bs_collect_In, filter_In; by rewrite Hin, negb_true_iff, bs_mem_false|].
      exists t. split; [done|]. by apply bs_collect_In, filter_In in Hr as [_ Hr%negb_true_iff%bs_mem_false].
    - intros k Hk Hnk. destruct (S1 k) as (t & Ht & Hr); [apply bs_collect_In, filter_In; by rewrite negb_true_iff, bs_mem_false|].
      exists t. split; [done|]. by apply bs_collect_In, filter_In in Hr as [_ Hr%negb_true_iff%bs_mem_false]. }
  subst d2. assert (Er : bs_collect (List.filter (fun k => negb (bs_mem k d1)) (List.map key rs2)) =
                        bs_collect (List.filter (fun k => negb (bs_mem k d1)) (List.map key rs1))).
  { apply bs_ext; [apply bs_collect_sorted..|]. intros k. by rewrite !bs_collect_In, !filter_In, Hin. }
  rewrite Er, (Permutation_length Hp). do 3 f_equal. apply map_ext_in. intros k Hk.
  assert (Hk1 : In k (List.map key rs1)).
  { apply in_app_iff in Hk as [Hk|Hk]; [by apply I1|]. by apply bs_collect_In, filter_In in Hk as [? _]. }
  destruct (resource_of_key key rs1 k Hk1) as (a & -> & <- & Ha). destruct (resource_of_key key rs2 (key a)) as (b & -> & Eb & Hb).
  { by apply Hin. }
  f_equal. apply (NoDup_map_eq key rs1); [done| |done|done]. apply list_elem_of_In. rewrite <- Hp. by apply list_elem_of_In.
Qed.

(** * Witnesses *)

Definition example_field (name : string) (t : TypeRef) : Field :=
  {| fd_name := name; type_ref := t; required := true; unique := false; fd_default := None; derived_from := None;
     full_text := false; cross_feature_target := None; fd_constraints := default_constraints; owner_axis := None |}.
Definition example_resource (name : string) (fs : list Field) : Resource :=
  {| r_name := name; tenancy := None; soft_delete := false; soft_delete_actor := false; timestamps := None; fields := fs;
     constraints := []; composite_key := None; polymorphic_refs := []; restrict_on_delete := [] |}.
Definition example_feature (name : string) (rs : list Resource) : Feature :=
  {| f_name := name; defaults := {| df_tenancy := None; df_timestamps := true |}; enums := []; resources := rs; records := [];
     auth := None |}.
Definition to_resource (f : option string) (n : string) : TypeRef := UserDefined {| qn_feature := f; qn_name := n |}.

(** Two resources that refer to each other, one that refers to both, and one
    that both depend on. *)
Definition example_module (cyclic : bool) : Module_ :=
  {| features :=
       [example_feature "billing"
          [example_resource "Invoice" [example_field "order" (to_resource None "Order"); example_field "user" (to_resource None "User")];
           example_resource "Order" ([example_field "user" (to_resource (Some "account") "User")] ++
              if cyclic then [example_field "last_invoice" (to_resource None "Invoice")] else [])];
        example_feature "account" [example_resource "User" [example_field "manager" (to_resource None "User")]]] |}.

Lemma topo_sort_exact_witness :
  let rs := raw_resources (example_module true) in
  rs ≡ₚ raw_resources (example_module true) /\ List.NoDup (List.map key rs) /\
  exists sorted_ rest out w,
    topo_sort_resources (example_module true) rs (build (example_module true)) = Some (out, w) /\ out ≡ₚ rs /\
    List.map key out = (sorted_ ++ rest)%list /\ w = match rest with [] => None | _ => Some (length rest, length rs) end.
Proof.
  intros rs. assert (Hn : List.NoDup (List.map key rs)) by (apply NoDup_ListNoDup; vm_compute; by apply (bool_decide_unpack _)).
  split; [reflexivity|]. split; [exact Hn|].
  destruct (topo_sort_exact (example_module true) rs (reflexivity _) Hn) as (s & r & o & w & H1 & H2 & H3 & _ & _ & _ & H4).
  exists s, r, o, w. split_and!; [exact H1|exact H2|exact H3|exact H4].
Defined.

Lemma topo_sort_acyclic_witness :
  let m := example_module false in let rs := raw_resources m in
  (exists out, topo_sort_resources m rs (build m) = Some (out, None) /\
     List.map key out = [("account", "User"); ("billing", "Order"); ("billing", "Invoice")]) /\
  (forall k, ~ tc (references m) k k).
Proof.
  intros m rs. assert (Hn : List.NoDup (List.map key rs)) by (apply NoDup_ListNoDup; vm_compute; by apply (bool_decide_unpack _)).
  destruct (topo_sort_acyclic m rs (reflexivity _) Hn) as (out & w & E & Hw & _).
  assert (Ew : exists o, topo_sort_resources m rs (build m) = Some (o, None) /\
     List.map key o = [("account", "User"); ("billing", "Order"); ("billing", "Invoice")]) by (eexists; split; [by vm_compute|done]).
  destruct Ew as (o & Eo & Ek). rewrite Eo in E. injection E as -> <-. split; [by exists out|]. by apply Hw.
Defined.

Lemma topo_sort_stable_witness :
  let m := example_module true in let rs := raw_resources m in
  rev rs ≡ₚ rs /\ topo_sort_resources m (rev rs) (build m) = topo_sort_resources m rs (build m).
Proof.
  intros m rs. assert (Hn : List.NoDup (List.map key rs)) by (apply NoDup_ListNoDup; vm_compute; by apply (bool_decide_unpack _)).
  assert (Hp : rev rs ≡ₚ rs) by (symmetry; apply Permutation_rev). split; [exact Hp|].
  exact (topo_sort_stable m rs (rev rs) (reflexivity _) Hp Hn).
Defined.
