(* ===== verification/SqlColumn.v ===== *)
(** Columns, constraints and indexes of a resource table
    ([lazuli_codegen_go/src/emitter/migration_ddl/sql_column.rs], [constraint.rs],
    [index.rs], the rest of [sql_builder.rs], [emitter/enums/mod.rs]). *)
From S2P Require Import Prelude Str Fmt Ir Catalog SqlName.

(** * Types *)

Record PgType := { sql : string; uses_postgis : bool }.
Definition pg (s : string) : PgType := {| sql := s; uses_postgis := false |}.

Fixpoint pg_type_for_builtin (builtin : BuiltinType) : PgType :=
  match builtin with
  | Id => pg "BIGINT"
  | Text => pg "TEXT"
  | Boolean => pg "BOOLEAN"
  | Integer => pg "BIGINT"
  | Decimal => pg "NUMERIC(20, 6)"
  | Date => pg "DATE"
  | DateTime => pg "TIMESTAMPTZ"
  | Json => pg "JSONB"
  | SemanticEmail | SemanticPhone | SemanticUrl | SemanticUuid | SemanticCurrency | SemanticHexColor => pg "TEXT"
  | SemanticPercentage => pg "NUMERIC(20, 6)"
  | SemanticPositiveDecimal => pg "NUMERIC(20, 6)"
  | SemanticNonNegativeInt => pg "BIGINT"
  | SemanticMoney _ => pg "NUMERIC(20,4)"
  | SemanticGeoPoint => {| sql := "geography(point, 4326)"; uses_postgis := true |}
  | SemanticPluginType _ _ carrier _ _ _ _ _ _ => pg_type_for_builtin carrier
  | CapSecret => pg "TEXT"
  | CapFile => pg "JSONB"
  end.

Definition pg_type_for_capability (capability : CapabilityRef) : PgType :=
  match capability with CEncrypted _ | CE2ee _ => pg "BYTEA" | CFile => pg "JSONB" | _ => pg "TEXT" end.

Fixpoint pg_type_for (t : TypeRef) : PgType :=
  match t with
  | Builtin builtin => pg_type_for_builtin builtin
  | Many inner =>
    let inner := pg_type_for inner in {| sql := sql inner +:+ "[]"; uses_postgis := uses_postgis inner |}
  | Capability capability => pg_type_for_capability capability
  | UserDefined _ | EnumRef _ | Unresolved _ => pg "TEXT"
  end.

Inductive StorageKind := SkInt | SkString.
Definition classify_storage (decl : EnumDecl) : StorageKind :=
  if existsb (fun v => match storage_value v with Some (SInteger _) => true | _ => false end) (variants decl) then SkInt else SkString.

Definition find_enum_decl (module : Module_) (name : string) : option EnumDecl :=
  List.find (fun e => en_name e =? name) (List.concat (List.map enums (features module))).
Definition name_is_record (module : Module_) (name : string) : bool :=
  existsb (fun r => rc_name r =? name) (List.concat (List.map records (features module))).

(** The resolution of a bare name that is neither a foreign key nor a record. *)
Definition enum_type (module : Module_) (name : string) : option PgType :=
  (fun decl => match classify_storage decl with SkInt => pg "BIGINT" | SkString => pg "TEXT" end) <$> find_enum_decl module name.

Definition pg_type_for_field (module : Module_) (field : Field) (cross_index : CrossFeatureIndex) : PgType :=
  match type_ref field with
  | UserDefined qname =>
    if foreign_key_owner module qname cross_index is Some _ then pg "BIGINT"
    else if name_is_record module (qn_name qname) then pg "JSONB"
    else default (pg_type_for (type_ref field)) (enum_type module (qn_name qname))
  | EnumRef qname => default (pg_type_for (type_ref field)) (enum_type module (qn_name qname))
  | Many (UserDefined inner_q) =>
    if name_is_record module (qn_name inner_q) then pg "JSONB" else pg_type_for (type_ref field)
  | _ => pg_type_for (type_ref field)
  end.

Definition resource_uses_postgis (resource : Resource) : bool :=
  existsb (fun field => uses_postgis (pg_type_for (type_ref field))) (fields resource).
Definition is_direct_geo_point (t : TypeRef) : bool := match t with Builtin SemanticGeoPoint => true | _ => false end.

Definition effective_tenancy (feature : Feature) (resource : Resource) : Tenancy :=
  match tenancy resource with Some t => t | None => default NoTenancy (df_tenancy (defaults feature)) end.
Definition uses_timestamps (feature : Feature) (resource : Resource) : bool :=
  default (df_timestamps (defaults feature)) (timestamps resource).

(** * Columns *)

Inductive SqlColumn :=
| Raw (sql : string)
| Typed (name pg_type : string) (required : bool) (generated_as trailing_comment : option string).

Definition raw (s : string) : SqlColumn := Raw s.
Definition typed (name pg_type : string) (required : bool) : SqlColumn := Typed name pg_type required None None.
Definition typed_generated (name pg_type : string) (required : bool) (generated_as : option string) : SqlColumn :=
  Typed name pg_type required generated_as None.
Definition with_trailing_comment (c : SqlColumn) (comment : string) : SqlColumn :=
  match c with Typed n t r g _ => Typed n t r g (Some comment) | Raw _ => c end.

Definition render_body (c : SqlColumn) : string :=
  match c with
  | Raw sql => sql
  | Typed name pg_type required generated_as _ =>
    sql_ident name +:+ " " +:+ pg_type +:+ (if required then " NOT NULL" else "") +:+
    match generated_as with Some expr => " GENERATED ALWAYS AS (" +:+ expr +:+ ") STORED" | None => "" end
  end.
Definition trailing_comment (c : SqlColumn) : option string := match c with Typed _ _ _ _ tc => tc | Raw _ => None end.

Definition encryption_marker_for (field : Field) : option string :=
  match type_ref field with
  | Capability (CEncrypted k) => Some ("lazuli:encrypted " +:+ k +:+ " algorithm=aes_256_gcm")
  | Capability (CE2ee k) => Some ("lazuli:e2ee " +:+ k +:+ " algorithm=aes_256_gcm")
  | _ => None
  end.

(** * Constraints *)

(** [s.replace('\'', "''")] between single quotes. *)
Definition sql_string (s : string) : string := "'" +:+ replace_byte SQ "''" s +:+ "'".

Definition field_slug (fs : list string) : string := join "_" (List.map lower_snake fs).
Definition unique_constraint_name (table_name : string) (fs : list string) : string :=
  table_name +:+ "_" +:+ field_slug fs +:+ "_key".
Definition partial_unique_index_name (table_name : string) (fs : list string) : string :=
  table_name +:+ "_" +:+ field_slug fs +:+ "_uidx".

Definition unique_violation_codes (resource : Resource) : list (string * string) :=
  let table_name := lower_snake (r_name resource) in
  omap (fun c =>
    match c with
    | Unique u =>
      code_ ← error_code u;
      if uq_fields u is [] then None
      else Some (if uq_when u is Some _ then partial_unique_index_name table_name (uq_fields u)
                 else unique_constraint_name table_name (uq_fields u), code_)
    | Index _ => None
    end) (constraints resource).

Definition unique_fields_sql (fs : list string) (per_ constraint_name : option string) : option SqlColumn :=
  if fs is [] then None
  else
    let cols := (List.map sql_ident fs ++
                 match per_ with Some p => [sql_ident (lower_snake p +:+ "_id")] | None => [] end)%list in
    let prefix := match constraint_name with Some n => "CONSTRAINT " +:+ sql_ident n +:+ " " | None => "" end in
    Some (raw (prefix +:+ "UNIQUE (" +:+ join ", " cols +:+ ")")).

Definition unique_constraint_sql (table_name : string) (c : Constraint) : option SqlColumn :=
  match c with
  | Unique u =>
    if uq_when u is Some _ then None
    else
      let name := (fun _ => unique_constraint_name table_name (uq_fields u)) <$> error_code u in
      unique_fields_sql (uq_fields u) (per u) name
  | Index _ => None
  end.

Definition inline_unique_constraint_sql (resource : Resource) (t : Tenancy) : list SqlColumn :=
  let per_ := match t with Org => Some "Org" | _ => None end in
  omap (fun field => if unique field then unique_fields_sql [fd_name field] per_ None else None) (fields resource).

Definition composite_key_sql (resource : Resource) : option SqlColumn :=
  ck ← composite_key resource;
  if ck_fields ck is [] then None
  else
    let cols := join ", " (List.map sql_ident (ck_fields ck)) in
    Some (raw (if primary ck then "PRIMARY KEY (" +:+ cols +:+ ")" else "UNIQUE (" +:+ cols +:+ ")")).

Definition polymorphic_ref_columns (resource : Resource) : list SqlColumn :=
  List.concat (List.map (fun pref =>
    let type_col := sql_ident (type_field pref) in
    [raw (type_col +:+ " TEXT NOT NULL CHECK (" +:+ type_col +:+ " IN (" +:+ join ", " (List.map sql_string (targets pref)) +:+ "))");
     raw (sql_ident (id_field pref) +:+ " BIGINT NOT NULL")]) (polymorphic_refs resource)).

Definition foreign_key_constraint (module : Module_) (cross_index : CrossFeatureIndex) (field : Field) : option SqlColumn :=
  match type_ref field with
  | UserDefined qname =>
    _ ← foreign_key_owner module qname cross_index;
    Some (raw ("FOREIGN KEY (" +:+ sql_ident (fd_name field) +:+ ") REFERENCES " +:+ quote_ident (lower_snake (qn_name qname)) +:+ " (id)"))
  | _ => None
  end.
Definition foreign_key_constraints (module : Module_) (resource : Resource) (cross_index : CrossFeatureIndex) : list SqlColumn :=
  omap (foreign_key_constraint module cross_index) (fields resource).

(** * Indexes *)

Definition index_method_sql (m : IndexMethod) : string := match m with Btree => "BTREE" | Gin => "GIN" | Gist => "GIST" end.

Definition authored_index_name (table_name : string) (index : IndexConstraint) : option string :=
  if ix_fields index is [] then None
  else
    let suffix := if ix_full_text index then "fts"
                  else match ix_method index with Some Gin => "gin" | Some Gist => "gist" | Some Btree | None => "idx" end in
    Some (table_name +:+ "_" +:+ field_slug (ix_fields index) +:+ "_" +:+ suffix).

Definition create_index (name table_name rest : string) : string :=
  "CREATE INDEX " +:+ sql_ident name +:+ " ON " +:+ quote_ident table_name +:+ rest.

Definition authored_index_sql (table_name : string) (index : IndexConstraint) : option string :=
  name ← authored_index_name table_name index;
  let cols := join ", " (List.map sql_ident (ix_fields index)) in
  if ix_full_text index then
    Some (create_index name table_name (" USING GIN (" +:+ "to_tsvector('english', concat_ws(' ', " +:+ cols +:+ "))" +:+ ");"))
  else
    let using_ := match ix_method index with Some m => " USING " +:+ index_method_sql m | None => "" end in
    Some (create_index name table_name (using_ +:+ " (" +:+ cols +:+ ");")).

Definition compare_op_sql (op : CompareOp) : string :=
  match op with Eq_ => "=" | Ne => "!=" | Lt_ => "<" | Le => "<=" | Gt_ => ">" | Ge => ">=" end.

Definition expr_sql (e : Expr) : option string :=
  match e with
  | EPath p => match segments p with [s] => Some (sql_ident s) | _ => None end
  | EString s => Some (sql_string s)
  | EInteger n => Some (show_Z n)
  | EBoolean b => Some (if b then "true" else "false")
  | _ => None
  end.

Definition nil_comparison_sql (l : Expr) (op : CompareOp) (r : Expr) : option string :=
  column ← match l, r with
           | ENil, other => expr_sql other
           | other, ENil => expr_sql other
           | _, _ => None
           end;
  predicate ← match op with Eq_ => Some "IS NULL" | Ne => Some "IS NOT NULL" | _ => None end;
  Some (column +:+ " " +:+ predicate).

Definition eval_predicate_sql (pred : EvalPredicate) : option string :=
  match pred with
  | Closed (Comparison l op r) =>
    match nil_comparison_sql l op r with
    | Some null_sql => Some null_sql
    | None =>
      lhs ← expr_sql l;
      rhs ← expr_sql r;
      Some (lhs +:+ " " +:+ compare_op_sql op +:+ " " +:+ rhs)
    end
  | _ => None
  end.

Section Debug.
(** [format!("{pred:?}")], the derived rendering. *)
Variable debug : EvalPredicate -> string.
Definition restrict_where_sql (pred : EvalPredicate) : string :=
  match eval_predicate_sql pred with
  | Some sql => sql
  | None => match pred with Unparsed text => text | other => debug other end
  end.
End Debug.

Definition partial_unique_index_sql (table_name : string) (u : UniqueConstraint) : option string :=
  when ← uq_when u;
  if uq_fields u is [] then None
  else
    let head := "CREATE UNIQUE INDEX " +:+ sql_ident (partial_unique_index_name table_name (uq_fields u)) +:+ " ON " +:+
                quote_ident table_name +:+ " (" +:+ join ", " (List.map sql_ident (uq_fields u)) +:+ ")" in
    Some (match eval_predicate_sql when with
          | Some predicate_sql => head +:+ " WHERE " +:+ predicate_sql +:+ ";"
          | None => head +:+ "; -- WHERE clause unsupported (predicate not lowerable)"
          end).

Definition cross_feature_target_indexes (table_name : string) (resource : Resource) : list string :=
  omap (fun field =>
    target ← cross_feature_target field;
    Some (create_index (table_name +:+ "_" +:+ lower_snake (fd_name field) +:+ "_fkidx") table_name
            (" (" +:+ sql_ident (fd_name field) +:+ "); -- logical FK -> " +:+ ct_feature target +:+ "." +:+ ct_resource target +:+
             " (cross-feature; no hard constraint)"))) (fields resource).

Definition polymorphic_ref_indexes (table_name : string) (resource : Resource) : list string :=
  List.map (fun pref =>
    create_index (table_name +:+ "_" +:+ lower_snake (type_field pref) +:+ "_" +:+ lower_snake (id_field pref) +:+ "_pidx") table_name
      (" (" +:+ sql_ident (type_field pref) +:+ ", " +:+ sql_ident (id_field pref) +:+ ");")) (polymorphic_refs resource).
