(* ===== verification/CreateTable.v ===== *)
(** The migrations of a module
    ([lazuli_codegen_go/src/emitter/migration_ddl/create_table.rs],
    [drop_table.rs], [mod.rs]): one [CREATE TABLE] file and one rollback per
    resource, in foreign-key order.

    Each [writeln!] is a line of [unlines]. *)
From S2P Require Import Prelude Str BTree Fmt Lines Helpers Ir Catalog MigrationOrder SqlName SqlColumn.

(** * The columns of a resource *)

Definition as_iso (c : CurrencyCode) : string :=
  match c with BRL => "BRL" | USD => "USD" | EUR => "EUR" | GBP => "GBP" | JPY => "JPY" | CHF => "CHF" end.

Definition session_resource_matches (auth_feature : Feature) (s : AuthSessions) (resource_feature : Feature) (resource : Resource) : bool :=
  if negb (qn_name (as_resource s) =? r_name resource) then false
  else match qn_feature (as_resource s) with
       | Some owner_ => owner_ =? f_name resource_feature
       | None => f_name auth_feature =? f_name resource_feature
       end.

(** [iter().find_map(..)] *)
Fixpoint session_rotation_go (fs : list Feature) (resource_feature : Feature) (resource : Resource) : option AuthSessions :=
  match fs with
  | [] => None
  | auth_feature :: fs =>
    match a ← auth auth_feature; sessions a with
    | Some s =>
      if is_rotation_enabled s && session_resource_matches auth_feature s resource_feature resource then Some s
      else session_rotation_go fs resource_feature resource
    | None => session_rotation_go fs resource_feature resource
    end
  end.
Definition session_rotation_enabled_for_resource (module : Module_) (resource_feature : Feature) (resource : Resource) : option AuthSessions :=
  session_rotation_go (features module) resource_feature resource.

Definition push_if_missing (resource : Resource) (name ddl : string) : list SqlColumn :=
  if existsb (fun f => fd_name f =? name) (fields resource) then [] else [raw ddl].
Definition session_rotation_columns (resource : Resource) (table : string) : list SqlColumn :=
  (push_if_missing resource "refresh_token_hash" "refresh_token_hash TEXT NOT NULL DEFAULT ''" ++
   push_if_missing resource "refresh_expires_at" "refresh_expires_at TIMESTAMPTZ" ++
   push_if_missing resource "parent_session_id"
     ("parent_session_id BIGINT REFERENCES " +:+ quote_ident table +:+ " (id) ON DELETE SET NULL") ++
   push_if_missing resource "theft_detected_at" "theft_detected_at TIMESTAMPTZ")%list.

(** The stems of the [<stem>_currency: Currency] fields. *)
Definition explicit_currency_overrides (resource : Resource) : list string :=
  omap (fun f => match type_ref f with
                 | Builtin SemanticCurrency => strip_suffix "_currency" (fd_name f)
                 | _ => None
                 end) (fields resource).

Definition currency_column (field : Field) (currency : CurrencyCode) : SqlColumn :=
  let iso := as_iso currency in
  let name := fd_name field +:+ "_currency" in
  raw (name +:+ " TEXT" +:+ (if required field then " NOT NULL" else "") +:+ " CHECK (" +:+ name +:+ " = '" +:+ iso +:+
       "') DEFAULT '" +:+ iso +:+ "'").

Definition field_columns (module : Module_) (cross_index : CrossFeatureIndex) (overrides : list string) (field : Field) : list SqlColumn :=
  let column := typed_generated (fd_name field) (sql (pg_type_for_field module field cross_index)) (required field) (derived_from field) in
  let column := match encryption_marker_for field with Some marker => with_trailing_comment column marker | None => column end in
  column ::
  match type_ref field with
  | Builtin (SemanticMoney currency) =>
    if existsb (String.eqb (fd_name field)) overrides then [] else [currency_column field currency]
  | _ => []
  end.

Definition composite_primary (resource : Resource) : bool :=
  match composite_key resource with Some ck => primary ck | None => false end.

Definition resource_columns (module : Module_) (feature : Feature) (resource : Resource) (cross_index : CrossFeatureIndex) : list SqlColumn :=
  let tenancy := effective_tenancy feature resource in
  let table_name := lower_snake (r_name resource) in
  ((if composite_primary resource then [] else [raw "id BIGSERIAL PRIMARY KEY"]) ++
   match tenancy with Org => [typed "org_id" "BIGINT" true] | _ => [] end ++
   List.concat (List.map (field_columns module cross_index (explicit_currency_overrides resource)) (fields resource)) ++
   match session_rotation_enabled_for_resource module feature resource with
   | Some _ => session_rotation_columns resource table_name
   | None => []
   end ++
   (if uses_timestamps feature resource then
      [raw "created_at TIMESTAMPTZ NOT NULL DEFAULT NOW()"; raw "updated_at TIMESTAMPTZ NOT NULL DEFAULT NOW()"] else []) ++
   (if soft_delete resource then
      typed "deleted_at" "TIMESTAMPTZ" false ::
      (if soft_delete_actor resource then [typed "deleted_by" "BIGINT" false] else []) else []) ++
   inline_unique_constraint_sql resource tenancy ++
   omap (unique_constraint_sql table_name) (constraints resource) ++
   match composite_key_sql resource with Some c => [c] | None => [] end ++
   foreign_key_constraints module resource cross_index ++
   polymorphic_ref_columns resource)%list.

(** * The files *)

(** The loop with [idx + 1 == columns.len()]. *)
Fixpoint column_lines (columns : list SqlColumn) : list string :=
  match columns with
  | [] => []
  | column :: rest =>
    let comma := match rest with [] => "" | _ => "," end in
    match trailing_comment column with
    | Some comment => "    " +:+ render_body column +:+ comma +:+ " -- " +:+ comment
    | None => "    " +:+ render_body column +:+ comma
    end :: column_lines rest
  end.

(** A blank line and a statement. *)
Definition statements (l : list string) : list string := List.concat (List.map (fun s => [""; s]) l).

Definition session_rotation_indexes (table : string) : list string :=
  ["CREATE INDEX ON " +:+ quote_ident table +:+ " (parent_session_id) WHERE parent_session_id IS NOT NULL;";
   "CREATE INDEX ON " +:+ quote_ident table +:+ " (refresh_token_hash) WHERE refresh_token_hash != '';"].

Definition index_statements (module : Module_) (feature : Feature) (resource : Resource) : list string :=
  let table_name := lower_snake (r_name resource) in
  (List.map (fun field => create_index (table_name +:+ "_" +:+ fd_name field +:+ "_gist") table_name
                            (" USING GIST (" +:+ sql_ident (fd_name field) +:+ ");"))
     (List.filter (fun f => is_direct_geo_point (type_ref f)) (fields resource)) ++
   List.map (fun field => create_index (table_name +:+ "_" +:+ fd_name field +:+ "_fts") table_name
                            (" USING GIN (to_tsvector('english', " +:+ sql_ident (fd_name field) +:+ "));"))
     (List.filter full_text (fields resource)) ++
   omap (fun c => match c with Index i => authored_index_sql table_name i | Unique _ => None end) (constraints resource) ++
   omap (fun c => match c with Unique u => partial_unique_index_sql table_name u | Index _ => None end) (constraints resource) ++
   cross_feature_target_indexes table_name resource ++
   polymorphic_ref_indexes table_name resource ++
   match session_rotation_enabled_for_resource module feature resource with
   | Some _ => session_rotation_indexes table_name
   | None => []
   end)%list.

Definition create_table_line (table_name : string) : string := "CREATE TABLE IF NOT EXISTS " +:+ quote_ident table_name +:+ " (".

Definition migration_header (feature : Feature) (resource : Resource) (source_label : string) : list string :=
  (["-- Code generated by lazuli; DO NOT EDIT.";
    "-- source: " +:+ comment_value source_label;
    "-- resource: " +:+ comment_value (f_name feature) +:+ "." +:+ comment_value (r_name resource);
    ""] ++
   (if resource_uses_postgis resource then ["CREATE EXTENSION IF NOT EXISTS postgis;"; ""] else []))%list.

Definition emit_resource_migration (module : Module_) (feature : Feature) (resource : Resource) (source_label : string)
    (cross_index : CrossFeatureIndex) : string :=
  unlines (migration_header feature resource source_label ++
           [create_table_line (lower_snake (r_name resource))] ++
           column_lines (resource_columns module feature resource cross_index) ++
           [");"] ++
           statements (index_statements module feature resource)).

Definition drop_index (name : string) : string := "-- DROP INDEX " +:+ sql_ident name +:+ ";".

Definition emit_resource_down_migration (feature : Feature) (resource : Resource) : string :=
  let table_name := lower_snake (r_name resource) in
  let geo_fields := List.filter (fun f => is_direct_geo_point (type_ref f)) (fields resource) in
  let full_text_fields := List.filter full_text (fields resource) in
  let authored := omap (fun c => match c with Index i => authored_index_name table_name i | Unique _ => None end) (constraints resource) in
  unlines
    (["-- Code generated by lazuli; DO NOT EDIT.";
      "-- rollback for " +:+ comment_value (f_name feature) +:+ "." +:+ comment_value (r_name resource);
      "";
      "DROP TABLE IF EXISTS " +:+ quote_ident table_name +:+ ";";
      "-- Note: cross-feature FK columns rely on parent feature's down migration";
      "-- to drop their target. Run rollbacks in reverse order if cascading."] ++
     match geo_fields with
     | [] => []
     | _ => "" :: List.map (fun f => drop_index (table_name +:+ "_" +:+ fd_name f +:+ "_gist")) geo_fields ++
            ["-- Note: `CREATE EXTENSION postgis` is NOT dropped here — extension";
             "-- removal is operational, not migration-driven."]
     end ++
     match full_text_fields with
     | [] => []
     | _ => "" :: List.map (fun f => drop_index (table_name +:+ "_" +:+ fd_name f +:+ "_fts")) full_text_fields
     end ++
     match authored with [] => [] | _ => "" :: List.map drop_index authored end)%list.

Record GeneratedFile := { g_path : string; g_contents : string }.

Definition emit_audit_log_down_migration : GeneratedFile :=
  {| g_path := "migrations/audit_log.down.sql";
     g_contents := unlines ["-- Code generated by lazuli; DO NOT EDIT."; "-- rollback for audit_log"; "";
                            "DROP TABLE IF EXISTS audit_log;"] |}.

(** [{:03}] *)
Definition pad3 (n : nat) : string :=
  let s := show_N (N.of_nat n) in
  (if (str_len s <? 2)%nat then "00" else if (str_len s <? 3)%nat then "0" else "") +:+ s.

Definition migration_stem (idx : nat) (feature : Feature) (resource : Resource) : string :=
  "migrations/" +:+ pad3 (idx + 1) +:+ "_" +:+ f_name feature +:+ "_" +:+ lower_snake (r_name resource).

(** The files and the warning; [None] never happens ([topo_sort_resources]). *)
Definition emit_migrations (module : Module_) (source_label : string) : option (list GeneratedFile * option (nat * nat)) :=
  let cross_index := build module in
  sorted_ ← topo_sort_resources module (raw_resources module) cross_index;
  let numbered := zip (seq 0 (length sorted_.1)) sorted_.1 in
  Some
    ((List.map (fun ir => {| g_path := migration_stem ir.1 ir.2.1 ir.2.2 +:+ ".sql";
                            g_contents := emit_resource_migration module ir.2.1 ir.2.2 source_label cross_index |}) numbered ++
      List.map (fun ir => {| g_path := migration_stem ir.1 ir.2.1 ir.2.2 +:+ ".down.sql";
                            g_contents := emit_resource_down_migration ir.2.1 ir.2.2 |}) numbered ++
      [emit_audit_log_down_migration])%list, sorted_.2).

(** * Lemmas *)

Lemma digits_zero s : digits_val 0 (String "0" s) = digits_val 0 s.
Proof. done. Qed.

Lemma pad3_val n : digits_val 0 (pad3 n) = Some (N.of_nat n).
Proof.
  unfold pad3. destruct (str_len _ <? 2)%nat; [|destruct (str_len _ <? 3)%nat]; cbn [String.append];
    rewrite ?digits_zero; apply show_N_val.
Qed.

Lemma pad3_digits n : str_all is_ascii_digit (pad3 n) = true.
Proof.
  unfold pad3. destruct (str_len _ <? 2)%nat; [|destruct (str_len _ <? 3)%nat]; cbn [String.append str_all];
    apply show_N_digits.
Qed.

Lemma pad3_sep n : lacks "_" (pad3 n).
Proof. eapply str_all_impl; [|apply pad3_digits]. intros b. by_bytes b. Qed.

Lemma pad3_inj n m x y : pad3 n +:+ "_" +:+ x = pad3 m +:+ "_" +:+ y -> n = m /\ x = y.
Proof.
  intros E. pose proof (split_once_app "_" (pad3 n) x (pad3_sep n)) as H1.
  pose proof (split_once_app "_" (pad3 m) y (pad3_sep m)) as H2. change (String "_" x) with ("_" +:+ x) in H1.
  change (String "_" y) with ("_" +:+ y) in H2. rewrite E, H2 in H1. injection H1 as Ep ->. split; [|done].
  pose proof (pad3_val n) as Hn. rewrite <- Ep, pad3_val in Hn. injection Hn as Hn. lia.
Qed.

Lemma pad3_head n s : exists b r, pad3 n +:+ s = String b r /\ is_ascii_digit b = true.
Proof.
  pose proof (pad3_digits n) as H. destruct (pad3 n) as [|b r] eqn:E.
  - pose proof (pad3_val n) as Hv. rewrite E in Hv. cbn in Hv. injection Hv as Hv. assert (n = 0) as -> by lia. by vm_compute in E.
  - cbn [str_all] in H. apply andb_true_iff in H as [Hb _]. by exists b, (r +:+ s).
Qed.

Lemma stem_inj i j fi ri fj rj si sj :
  migration_stem i fi ri +:+ si = migration_stem j fj rj +:+ sj -> i = j /\
  f_name fi +:+ "_" +:+ lower_snake (r_name ri) +:+ si = f_name fj +:+ "_" +:+ lower_snake (r_name rj) +:+ sj.
Proof.
  unfold migration_stem. rewrite !sapp_assoc. intros E. apply sapp_inj_l in E.
  apply pad3_inj in E as [E1 E2]. split; [lia|done].
Qed.

Lemma stem_not_audit i f r s : migration_stem i f r +:+ s <> "migrations/audit_log.down.sql".
Proof.
  unfold migration_stem. rewrite !sapp_assoc. change "migrations/audit_log.down.sql" with ("migrations/" +:+ "audit_log.down.sql").
  intros E. apply sapp_inj_l in E. destruct (pad3_head (i + 1) ("_" +:+ f_name f +:+ "_" +:+ lower_snake (r_name r) +:+ s)) as (b & t & Eb & Hb).
  rewrite Eb in E. injection E as -> _. done.
Qed.

Lemma comment_value_plain raw : plain_line (comment_value raw) = true.
Proof. apply plain_line_iff. destruct (comment_value_one_line raw). done. Qed.

Lemma quote_plain s : plain_line s = true -> plain_line (quote_ident s) = true.
Proof.
  intros H. unfold quote_ident, quoted. change (String DQ ?x) with (String DQ "" +:+ x). rewrite !plain_app.
  replace (plain_line (replace_byte DQ _ s)) with true; [done|]. symmetry. apply plain_line_iff in H as [H1 H2].
  apply plain_line_iff. split; by apply replace_byte_keeps.
Qed.

Lemma numbered_NoDup {A} (l : list A) (path : nat -> A -> string) :
  (forall i j x y, path i x = path j y -> i = j) -> NoDup (List.map (fun ir => path ir.1 ir.2) (zip (seq 0 (length l)) l)).
Proof.
  intros Hp. apply NoDup_alt. intros i j p Hi Hj. change (List.map (fun ir => path ir.1 ir.2)) with (fmap (M := list) (fun ir : nat * A => path ir.1 ir.2)) in *.
  apply list_lookup_fmap_Some in Hi as ([k x] & -> & Hz). apply list_lookup_fmap_Some in Hj as ([k' y] & E & Hz').
  apply lookup_zip_Some in Hz as [Hs _], Hz' as [Hs' _]. apply lookup_seq in Hs as [-> _], Hs' as [-> _]. cbn in *. by eapply Hp.
Qed.

Lemma NoDup_LNoDup {A} (l : list A) : List.NoDup l <-> NoDup l.
Proof. symmetry. apply NoDup_ListNoDup. Qed.

(** No file of a run overwrites another. *)
Theorem migration_paths_distinct module source_label files w :
  emit_migrations module source_label = Some (files, w) -> List.NoDup (List.map g_path files).
Proof.
  unfold emit_migrations. destruct (topo_sort_resources module (raw_resources module) (build module)) as [[rs w']|]; [|done].
  cbn [mbind option_bind fst snd]. intros [= <- <-]. rewrite !map_app, !map_map. cbn [List.map g_path emit_audit_log_down_migration].
  apply NoDup_LNoDup, NoDup_app. split_and!; [|
    |apply NoDup_app; split_and!; [| |apply NoDup_singleton]].
  - apply (numbered_NoDup rs (fun i fr => migration_stem i fr.1 fr.2 +:+ ".sql")). intros i j x y E. by apply stem_inj in E as [? _].
  - intros p Hp Hq. apply list_elem_of_In in Hp, Hq. apply in_map_iff in Hp as ([i [fi ri]] & <- & Hi). cbn [fst snd] in Hq.
    apply in_app_iff in Hq as [Hq|[Hq|[]]]; [|by apply eq_sym, stem_not_audit in Hq].
    apply in_map_iff in Hq as ([j [fj rj]] & E & Hj). cbn [fst snd] in E. apply stem_inj in E as [<- E]. apply (f_equal str_len) in E.
    rewrite !len_app in E. change (str_len ".down.sql") with 9 in E. change (str_len ".sql") with 4 in E.
    apply list_elem_of_In, list_elem_of_lookup in Hi as [n Hn], Hj as [m Hm]. apply lookup_zip_Some in Hn as [Hn1 Hn2], Hm as [Hm1 Hm2].
    apply lookup_seq in Hn1 as [-> _], Hm1 as [Em _]. cbn in Em, Hn2, Hm2. subst. rewrite Hn2 in Hm2. injection Hm2 as -> ->. lia.
  - apply (numbered_NoDup rs (fun i fr => migration_stem i fr.1 fr.2 +:+ ".down.sql")). intros i j x y E. by apply stem_inj in E as [? _].
  - intros p Hp Hq. apply list_elem_of_singleton in Hq as ->. apply list_elem_of_In, in_map_iff in Hp as ([i [fi ri]] & E & _).
    by apply stem_not_audit in E.
Qed.

Lemma migration_paths_distinct_witness :
  exists files w, emit_migrations (example_module true) "app.lzi" = Some (files, w) /\
    List.map g_path (firstn 2 files) = ["migrations/001_account_user.sql"; "migrations/002_billing_invoice.sql"] /\
    List.NoDup (List.map g_path files).
Proof.
  destruct (emit_migrations (example_module true) "app.lzi") as [[files w]|] eqn:E; [|by vm_compute in E].
  exists files, w. split; [done|]. split; [|exact (migration_paths_distinct _ _ _ _ E)].
  assert (E' : (fun fw => List.map g_path (firstn 2 fw.1)) <$> emit_migrations (example_module true) "app.lzi" =
    Some ["migrations/001_account_user.sql"; "migrations/002_billing_invoice.sql"]) by (by vm_compute).
  rewrite E in E'. by injection E'.
Defined.

(** ** The foreign keys of a run *)

(** The up migration of the resource at place [n] is the file at place [n]. *)
Lemma up_file module source_label rs w files n fr :
  topo_sort_resources module (raw_resources module) (build module) = Some (rs, w) ->
  emit_migrations module source_label = Some (files, w) -> rs !! n = Some fr ->
  exists file, files !! n = Some file /\ g_contents file = emit_resource_migration module fr.1 fr.2 source_label (build module).
Proof.
  intros Et Em Hn. unfold emit_migrations in Em. rewrite Et in Em. cbn [mbind option_bind fst snd] in Em. injection Em as <-.
  eexists. split.
  - apply lookup_app_l_Some. change (List.map (fun ir : nat * (Feature * Resource) => _)) with (fmap (M := list)
      (fun ir : nat * (Feature * Resource) => {| g_path := migration_stem ir.1 ir.2.1 ir.2.2 +:+ ".sql";
         g_contents := emit_resource_migration module ir.2.1 ir.2.2 source_label (build module) |})).
    apply list_lookup_fmap_Some. exists (n, fr). split; [reflexivity|]. apply lookup_zip_Some. split; [|done].
    apply lookup_seq. split; [done|]. by apply lookup_lt_Some in Hn.
  - done.
Qed.

(** Every resource gets a table, and when there is no warning a foreign key names
    a table that an earlier migration of the run creates. *)
Theorem foreign_keys_resolved module source_label : List.NoDup (List.map key (raw_resources module)) ->
  exists files w, emit_migrations module source_label = Some (files, w) /\
    (forall fr, In fr (raw_resources module) -> exists file, In file files /\
       g_contents file = emit_resource_migration module fr.1 fr.2 source_label (build module)) /\
    (w = None -> forall d t, references module d t -> exists a b c target file fr,
       files = (a ++ target :: b ++ file :: c)%list /\ In fr (raw_resources module) /\ key fr = d /\
       g_contents file = emit_resource_migration module fr.1 fr.2 source_label (build module) /\
       exists before after, g_contents target = unlines before +:+ unlines (create_table_line (lower_snake t.2) :: after)).
Proof.
  intros Hn. destruct (topo_acyclic module (raw_resources module) (reflexivity _) Hn) as (rs & w & Et & Ep & _ & Ho).
  assert (Em : exists files, emit_migrations module source_label = Some (files, w)).
  { unfold emit_migrations. rewrite Et. eexists. reflexivity. }
  destruct Em as [files Em]. exists files, w. split; [done|]. split.
  - intros fr Hfr. assert (Hr : fr ∈ rs) by (rewrite Ep; by apply list_elem_of_In). apply list_elem_of_lookup in Hr as [n Hr].
    destruct (up_file module source_label rs w files n fr Et Em Hr) as (file & Hf & E). exists file. split; [|done].
    by apply list_elem_of_lookup_2, list_elem_of_In in Hf.
  - intros Hw d t Hr. destruct (Ho Hw d t Hr) as (a & b & c & Ek).
    assert (Hi : (List.map key rs) !! length a = Some t) by (rewrite Ek; by apply list_lookup_middle).
    assert (Hj : (List.map key rs) !! (length a + Datatypes.S (length b)) = Some d).
    { rewrite Ek, lookup_app_r by lia. replace (_ - _) with (Datatypes.S (length b)) by lia. cbn. by apply list_lookup_middle. }
    change (List.map key rs) with (key <$> rs) in Hi, Hj. apply list_lookup_fmap_Some in Hi as (tr & Et' & Hi).
    apply list_lookup_fmap_Some in Hj as (fr & Ed & Hj).
    destruct (up_file module source_label rs w files _ tr Et Em Hi) as (target & Hti & Ect).
    destruct (up_file module source_label rs w files _ fr Et Em Hj) as (file & Hfj & Ecf).
    destruct (split_two files _ _ _ _ Hti Hfj) as (pre & mid & post & Ef); [lia|].
    exists pre, mid, post, target, file, fr. split_and!; [done| |done|done|].
    + apply list_elem_of_In. rewrite <- Ep. by apply list_elem_of_lookup_2 in Hj.
    + rewrite Ect, Et'. unfold emit_resource_migration. rewrite unlines_app. eexists _, _. reflexivity.
Qed.

Lemma foreign_keys_resolved_witness :
  let m := example_module false in List.NoDup (List.map key (raw_resources m)) /\
  exists files w, emit_migrations m "app.lzi" = Some (files, w) /\
    (w = None -> forall d t, references m d t -> exists a b c target file fr,
       files = (a ++ target :: b ++ file :: c)%list /\ In fr (raw_resources m) /\ key fr = d /\
       g_contents file = emit_resource_migration m fr.1 fr.2 "app.lzi" (build m) /\
       exists before after, g_contents target = unlines before +:+ unlines (create_table_line (lower_snake t.2) :: after)).
Proof.
  intros m. assert (Hn : List.NoDup (List.map key (raw_resources m))) by (apply NoDup_ListNoDup; vm_compute; by apply (bool_decide_unpack _)).
  split; [exact Hn|]. destruct (foreign_keys_resolved m "app.lzi" Hn) as (files & w & E & _ & H). by exists files, w.
Defined.
