(* ===== verification/SchemaDiff.v ===== *)
(** Incremental migrations ([lazuli_codegen_go/src/emitter/schema_diff/mod.rs],
    [parse.rs], [ir.rs]): the columns of an emitted migration read back, the
    columns of the current declarations, and their difference. *)
From S2P Require Import Prelude Str Fmt Lines Helpers Ir Catalog SqlName SqlColumn CreateTable.

(** * Schemas and their difference *)

Record Column := { col_name : string; sql_type : string; nullable : bool; col_default : option string }.
Definition column_new (name ty : string) (n : bool) : Column := {| col_name := name; sql_type := ty; nullable := n; col_default := None |}.
Definition with_default (c : Column) (d : string) : Column :=
  {| col_name := col_name c; sql_type := sql_type c; nullable := nullable c; col_default := Some d |}.

Record TypeChange := { tc_column : string; old_type : string; new_type : string }.
Record ResourceSchema := { columns : list Column }.
Record SchemaDiff := { adds : list Column; drops : list Column; type_changes : list TypeChange }.

Definition find_column (s : ResourceSchema) (name : string) : option Column := List.find (fun c => col_name c =? name) (columns s).

Definition is_empty (d : SchemaDiff) : bool :=
  match adds d, drops d, type_changes d with [], [], [] => true | _, _, _ => false end.

(** One turn of the first loop. *)
Definition diff_column (baseline : ResourceSchema) (out : SchemaDiff) (current_col : Column) : SchemaDiff :=
  match find_column baseline (col_name current_col) with
  | None => {| adds := adds out ++ [current_col]; drops := drops out; type_changes := type_changes out |}
  | Some baseline_col =>
    if sql_type baseline_col =? sql_type current_col then out
    else {| adds := adds out; drops := drops out;
            type_changes := type_changes out ++
              [{| tc_column := col_name current_col; old_type := sql_type baseline_col; new_type := sql_type current_col |}] |}
  end.

Definition diff (baseline current : ResourceSchema) : SchemaDiff :=
  let out := fold_left (diff_column baseline) (columns current) {| adds := []; drops := []; type_changes := [] |} in
  fold_left (fun out baseline_col =>
      match find_column current (col_name baseline_col) with
      | None => {| adds := adds out; drops := drops out ++ [baseline_col]; type_changes := type_changes out |}
      | Some _ => out
      end) (columns baseline) out.

(** * Reading a migration *)

Inductive ParseError := MissingCreateTable | UnterminatedCreateTable.

Definition line_starts_create_table (line : string) : bool := starts_with "CREATE TABLE" (upper_ascii (trim_start line)).

Definition is_table_level_constraint (body : string) : bool :=
  let upper := upper_ascii body in
  existsb (fun p => starts_with p upper)
    ["PRIMARY KEY "; "PRIMARY KEY("; "UNIQUE "; "UNIQUE("; "FOREIGN KEY "; "FOREIGN KEY("; "CHECK "; "CHECK("; "CONSTRAINT "].

(** [raw.trim_matches(DQ)] *)
Fixpoint trim_end_quotes (s : string) : string :=
  match s with
  | "" => ""
  | String b s => match trim_end_quotes s with "" => if b =a? DQ then "" else String b "" | s => String b s end
  end.
Fixpoint trim_start_quotes (s : string) : string :=
  match s with "" => "" | String b r => if b =a? DQ then trim_start_quotes r else s end.
Definition strip_ident_quotes (raw : string) : string := trim_end_quotes (trim_start_quotes raw).

Definition structural_suffix (upper : string) : bool :=
  existsb (String.eqb upper) ["PRIMARY"; "REFERENCES"; "CHECK"; "UNIQUE"; "GENERATED"; "COLLATE"].

(** [if !expr.is_empty() { default = Some(expr.join(" ")) }] *)
Definition close_default (expr : list string) (dflt : option string) : option string :=
  match expr with [] => dflt | _ => Some (join " " expr) end.

(** The loop over the tokens after the name. [in_default] holds the tokens of the
    inner loop of [DEFAULT]; the token that ends it also ends the outer loop. *)
Fixpoint column_go (rest : list string) (in_default : option (list string)) (parts : list string) (n : bool) (dflt : option string)
    : list string * bool * option string :=
  match rest with
  | [] => (parts, n, match in_default with Some expr => close_default expr dflt | None => dflt end)
  | tok :: rest =>
    let upper := upper_ascii tok in
    match in_default with
    | Some expr =>
      if structural_suffix upper then (parts, n, close_default expr dflt)
      else column_go rest (Some (expr ++ [tok])%list) parts n dflt
    | None =>
      if upper =? "NOT" then
        match rest with
        | next :: rest' => if upper_ascii next =? "NULL" then column_go rest' None parts false dflt else column_go rest None parts n dflt
        | [] => column_go rest None parts n dflt
        end
      else if upper =? "NULL" then column_go rest None parts n dflt
      else if upper =? "DEFAULT" then column_go rest (Some []) parts n dflt
      else if structural_suffix upper then (parts, n, dflt)
      else if dflt is Some _ then (parts, n, dflt)
      else column_go rest None (parts ++ [tok])%list n dflt
    end
  end.

Definition parse_column_line (body : string) : option Column :=
  match split_whitespace body with
  | [] => None
  | raw_name :: rest =>
    let name := strip_ident_quotes raw_name in
    if name =? "" then None
    else
      let '(parts, n, dflt) := column_go rest None [] true None in
      match parts with
      | [] => None
      | _ => Some {| col_name := name; sql_type := join " " parts; nullable := n; col_default := dflt |}
      end
  end.

(** The text of a body line without its comment and trailing comma. *)
Definition line_body (line : string) : string :=
  let without_comment := match str_find "--" line with Some idx => trim_end (str_take idx line) | None => line end in
  trim (default without_comment (strip_suffix "," without_comment)).

Fixpoint body_go (ls : list string) : option (list Column) :=
  match ls with
  | [] => None
  | raw :: ls =>
    let line := trim raw in
    if line =? "" then body_go ls
    else if starts_with ");" line || (line =? ")") then Some []
    else
      let body := line_body line in
      let column := if (body =? "") || is_table_level_constraint body then None else parse_column_line body in
      rest ← body_go ls;
      Some (match column with Some c => c :: rest | None => rest end)
  end.

Fixpoint after_create_table (ls : list string) : option (list string) :=
  match ls with
  | [] => None
  | line :: ls => if line_starts_create_table line then Some ls else after_create_table ls
  end.

Definition parse_baseline_from_str (sql : string) : result ParseError ResourceSchema :=
  match after_create_table (str_lines sql) with
  | None => Err MissingCreateTable
  | Some body_lines =>
    match body_go body_lines with None => Err UnterminatedCreateTable | Some cs => Ok {| columns := cs |} end
  end.

(** * The current declarations *)

Fixpoint ir_pg_type_for_builtin (builtin : BuiltinType) : string :=
  match builtin with
  | Id => "BIGINT"
  | Text => "TEXT"
  | Boolean => "BOOLEAN"
  | Integer => "BIGINT"
  | Decimal => "NUMERIC(20, 6)"
  | Date => "DATE"
  | DateTime => "TIMESTAMPTZ"
  | Json => "JSONB"
  | SemanticEmail | SemanticPhone | SemanticUrl | SemanticUuid | SemanticCurrency | SemanticHexColor => "TEXT"
  | SemanticPercentage => "NUMERIC(20, 6)"
  | SemanticPositiveDecimal => "NUMERIC(20, 6)"
  | SemanticNonNegativeInt => "BIGINT"
  | SemanticMoney _ => "NUMERIC(20,4)"
  | SemanticGeoPoint => "geography(point, 4326)"
  | SemanticPluginType _ _ carrier _ _ _ _ _ _ => ir_pg_type_for_builtin carrier
  | CapSecret => "TEXT"
  | CapFile => "JSONB"
  end.

Definition ir_pg_type_for_capability (capability : CapabilityRef) : string :=
  match capability with CEncrypted _ | CE2ee _ => "BYTEA" | CFile => "JSONB" | _ => "TEXT" end.

Fixpoint ir_pg_type (t : TypeRef) : string :=
  match t with
  | Builtin builtin => ir_pg_type_for_builtin builtin
  | Many inner => ir_pg_type inner +:+ "[]"
  | Capability cap => ir_pg_type_for_capability cap
  | UserDefined _ | EnumRef _ | Unresolved _ => "TEXT"
  end.

Definition render_default (d : DefaultValue) : string :=
  match d with
  | DString s => sql_string s
  | DInteger i => show_Z i
  | DBoolean b => if b then "true" else "false"
  | DEnumLiteral lit => "'" +:+ variant lit +:+ "'"
  | DNil => "NULL"
  end.

Definition field_to_column (field : Field) : Column :=
  {| col_name := fd_name field; sql_type := ir_pg_type (type_ref field); nullable := negb (required field);
     col_default := render_default <$> fd_default field |}.

(** [lazuli_ir/src/nodes/resource/mod.rs] *)
Definition IDENTITY : string := "id".
Definition TIMESTAMPS : list string := ["created_at"; "updated_at"].
Definition synthesized_soft_delete_columns (resource : Resource) : list string :=
  if negb (soft_delete resource) then []
  else if soft_delete_actor resource then ["deleted_at"; "deleted_by"] else ["deleted_at"].

Definition current_schema_from_ir (resource : Resource) : ResourceSchema :=
  {| columns :=
       ([column_new IDENTITY "BIGSERIAL" false] ++
        List.map field_to_column (List.filter (fun f => match derived_from f with Some _ => false | None => true end) (fields resource)) ++
        (if default true (timestamps resource) then
           List.map (fun name => with_default (column_new name "TIMESTAMPTZ" false) "NOW()") TIMESTAMPS else []) ++
        List.map (fun name => column_new name (if name =? "deleted_by" then "BIGINT" else "TIMESTAMPTZ") true)
          (synthesized_soft_delete_columns resource) ++
        List.concat (List.map (fun pref => [column_new (type_field pref) "TEXT" false; column_new (id_field pref) "BIGINT" false])
          (polymorphic_refs resource)))%list |}.

(** * What a difference does *)

(** The types of the columns of a table. *)
Definition table (s : ResourceSchema) : list (string * string) := List.map (fun c => (col_name c, sql_type c)) (columns s).
Definition type_of (t : list (string * string)) (name : string) : option string := snd <$> List.find (fun c => c.1 =? name) t.

(** [ALTER TABLE]: drop, retype, add. *)
Definition retype (changes : list TypeChange) (c : string * string) : string * string :=
  match List.find (fun t => tc_column t =? c.1) changes with Some t => (c.1, new_type t) | None => c end.
Definition apply_diff (d : SchemaDiff) (t : list (string * string)) : list (string * string) :=
  (List.map (retype (type_changes d)) (List.filter (fun c => negb (existsb (fun x => col_name x =? c.1) (drops d))) t) ++
   List.map (fun c => (col_name c, sql_type c)) (adds d))%list.

(** * Lemmas *)

Definition missing (s : ResourceSchema) (c : Column) : bool := match find_column s (col_name c) with None => true | Some _ => false end.
Definition change_of (baseline : ResourceSchema) (c : Column) : option TypeChange :=
  b ← find_column baseline (col_name c);
  if sql_type b =? sql_type c then None else Some {| tc_column := col_name c; old_type := sql_type b; new_type := sql_type c |}.

Lemma diff_lists baseline current : diff baseline current =
  {| adds := List.filter (missing baseline) (columns current);
     drops := List.filter (missing current) (columns baseline);
     type_changes := omap (change_of baseline) (columns current) |}.
Proof.
  unfold diff.
  assert (H1 : forall l out, fold_left (diff_column baseline) l out =
    {| adds := adds out ++ List.filter (missing baseline) l; drops := drops out;
       type_changes := type_changes out ++ omap (change_of baseline) l |}%list).
  { induction l as [|c l IH]; intros out; cbn [fold_left]; [destruct out; cbn; by rewrite !app_nil_r|].
    rewrite IH. unfold diff_column. cbn [List.filter omap list_omap]. unfold missing, change_of at 2.
    destruct (find_column baseline (col_name c)) as [b|]; cbn; [|by rewrite <- app_assoc].
    destruct (sql_type b =? sql_type c); cbn; [done|by rewrite <- app_assoc]. }
  assert (H2 : forall l out, fold_left (fun out baseline_col =>
      match find_column current (col_name baseline_col) with
      | None => {| adds := adds out; drops := drops out ++ [baseline_col]; type_changes := type_changes out |}%list
      | Some _ => out end) l out =
    {| adds := adds out; drops := drops out ++ List.filter (missing current) l; type_changes := type_changes out |}%list).
  { induction l as [|c l IH]; intros out; cbn [fold_left]; [destruct out; cbn; by rewrite app_nil_r|].
    rewrite IH. cbn [List.filter]. unfold missing at 2. destruct (find_column current (col_name c)); cbn; [done|by rewrite <- app_assoc]. }
  rewrite H1, H2. done.
Qed.

Lemma type_of_table s name : type_of (table s) name = sql_type <$> find_column s name.
Proof.
  unfold type_of, table, find_column. induction (columns s) as [|c l IH]; [done|]. cbn [List.map List.find fst].
  by destruct (col_name c =? name).
Qed.

Lemma find_column_name s name c : find_column s name = Some c -> col_name c = name /\ In c (columns s).
Proof. intros H. apply List.find_some in H as [H E]. by apply String.eqb_eq in E. Qed.

Lemma find_column_In s c : List.NoDup (List.map col_name (columns s)) -> In c (columns s) -> find_column s (col_name c) = Some c.
Proof.
  intros Hn Hc. destruct (find_column s (col_name c)) as [c'|] eqn:E.
  - apply find_column_name in E as [E Hc']. f_equal. by apply (NoDup_map_eq col_name (columns s)).
  - pose proof (List.find_none _ _ E c Hc) as H. cbn in H. by rewrite String.eqb_refl in H.
Qed.

Lemma find_column_None s name : find_column s name = None <-> forall c, In c (columns s) -> col_name c <> name.
Proof.
  split.
  - intros E c Hc. pose proof (List.find_none _ _ E c Hc) as H. cbn in H. by apply String.eqb_neq.
  - intros Ha. destruct (find_column s name) as [c|] eqn:E; [|done]. apply find_column_name in E as [E Hc]. by apply Ha in Hc.
Qed.

Lemma type_of_app a b name : type_of (a ++ b) name = match type_of a name with Some t => Some t | None => type_of b name end.
Proof. unfold type_of. rewrite find_app. by destruct (List.find _ a). Qed.

Lemma retype_eq changes n ty : retype changes (n, ty) =
  (n, match List.find (fun c => tc_column c =? n) changes with Some c => new_type c | None => ty end).
Proof. unfold retype. cbn [fst]. by destruct (List.find _ changes). Qed.

Lemma type_of_retype changes t name : type_of (List.map (retype changes) t) name =
  ty ← type_of t name; Some (match List.find (fun c => tc_column c =? name) changes with Some c => new_type c | None => ty end).
Proof.
  unfold type_of. induction t as [|[n ty] t IH]; [done|]. cbn [List.map List.find fst].
  rewrite retype_eq. cbn [fst]. destruct (String.eqb_spec n name) as [->|_]; [done|exact IH].
Qed.

Lemma type_of_filter (p : string -> bool) t name : type_of (List.filter (fun c => p c.1) t) name = if p name then type_of t name else None.
Proof.
  unfold type_of. induction t as [|[n ty] t IH]; [by destruct (p name)|]. cbn [List.filter fst List.find].
  destruct (String.eqb_spec n name) as [->|Hne].
  - destruct (p name); cbn [List.find fst]; [by rewrite String.eqb_refl|]. done.
  - apply String.eqb_neq in Hne. destruct (p n); cbn [List.find fst]; rewrite ?Hne; exact IH.
Qed.

Lemma change_of_name baseline c t : change_of baseline c = Some t -> tc_column t = col_name c.
Proof.
  unfold change_of. destruct (find_column baseline (col_name c)) as [b|]; cbn; [|done]. destruct (_ =? _); [done|]. by intros [= <-].
Qed.

Lemma find_change baseline l name : List.NoDup (List.map col_name l) ->
  List.find (fun t => tc_column t =? name) (omap (change_of baseline) l) =
  (c ← List.find (fun c => col_name c =? name) l; change_of baseline c).
Proof.
  induction l as [|c l IH]; intros Hn; [done|]. cbn [List.map] in Hn. inversion_clear Hn as [|? ? Hc Hl]. specialize (IH Hl).
  cbn [omap list_omap List.find]. destruct (change_of baseline c) as [t|] eqn:E.
  - cbn [List.find]. rewrite (change_of_name _ _ _ E). destruct (col_name c =? name); [cbn; by rewrite E|done].
  - destruct (String.eqb_spec (col_name c) name) as [<-|Hne]; [|done]. cbn [mbind option_bind]. rewrite E, IH.
    destruct (List.find (fun c0 => col_name c0 =? col_name c) l) as [c0|] eqn:Ef; [|done].
    apply List.find_some in Ef as [Hi En]. apply String.eqb_eq in En. destruct Hc. rewrite <- En. by apply in_map.
Qed.

Lemma drops_iff baseline current name : (exists b, In b (columns baseline) /\ col_name b = name) ->
  existsb (fun x => col_name x =? name) (drops (diff baseline current)) = match find_column current name with None => true | Some _ => false end.
Proof.
  rewrite diff_lists. cbn [drops]. intros (b & Hb & <-). apply eq_true_iff_eq. rewrite existsb_exists. split.
  - intros (x & Hx & E). apply filter_In in Hx as [_ Hm]. apply String.eqb_eq in E. unfold missing in Hm. by rewrite E in Hm.
  - intros Hm. exists b. split; [by apply filter_In|by apply String.eqb_eq].
Qed.

Lemma find_adds baseline current name : find_column {| columns := adds (diff baseline current) |} name =
  match find_column baseline name with Some _ => None | None => find_column current name end.
Proof.
  rewrite diff_lists. cbn [adds]. unfold find_column at 1 3. cbn [columns]. induction (columns current) as [|c l IH].
  - by destruct (find_column baseline name).
  - cbn [List.filter List.find]. unfold missing at 1. destruct (String.eqb_spec (col_name c) name) as [En|Hne].
    + rewrite En. destruct (find_column baseline name) eqn:E; [exact IH|]. cbn [List.find]. by rewrite En, String.eqb_refl.
    + destruct (find_column baseline (col_name c)); [exact IH|]. cbn [List.find]. apply String.eqb_neq in Hne. by rewrite Hne.
Qed.

Lemma diff_facts baseline current :
  List.NoDup (List.map col_name (columns baseline)) -> List.NoDup (List.map col_name (columns current)) ->
  let d := diff baseline current in
  (forall name, type_of (apply_diff d (table baseline)) name = type_of (table current) name) /\
  (forall c, In c (adds d) <-> In c (columns current) /\ type_of (table baseline) (col_name c) = None) /\
  (forall c, In c (drops d) <-> In c (columns baseline) /\ type_of (table current) (col_name c) = None) /\
  (forall t, In t (type_changes d) <-> type_of (table baseline) (tc_column t) = Some (old_type t) /\
     type_of (table current) (tc_column t) = Some (new_type t) /\ old_type t <> new_type t) /\
  (is_empty d = true <-> forall name, type_of (table baseline) name = type_of (table current) name).
Proof.
  intros Hb Hc d.
  assert (Hmiss : forall s c, missing s c = true <-> type_of (table s) (col_name c) = None).
  { intros s c. unfold missing. rewrite type_of_table. by destruct (find_column s (col_name c)). }
  assert (Hadds : forall c, In c (adds d) <-> In c (columns current) /\ type_of (table baseline) (col_name c) = None).
  { intros c. unfold d. rewrite diff_lists. cbn [adds]. by rewrite filter_In, Hmiss. }
  assert (Hdrops : forall c, In c (drops d) <-> In c (columns baseline) /\ type_of (table current) (col_name c) = None).
  { intros c. unfold d. rewrite diff_lists. cbn [drops]. by rewrite filter_In, Hmiss. }
  assert (Hch : forall t, In t (type_changes d) <-> type_of (table baseline) (tc_column t) = Some (old_type t) /\
     type_of (table current) (tc_column t) = Some (new_type t) /\ old_type t <> new_type t).
  { intros t. unfold d. rewrite diff_lists. cbn [type_changes]. rewrite <- list_elem_of_In, list_elem_of_omap, !type_of_table. split.
    - intros (c & Hcc & E). apply list_elem_of_In in Hcc. pose proof (find_column_In _ _ Hc Hcc) as Fc. unfold change_of in E.
      destruct (find_column baseline (col_name c)) as [b|] eqn:Eb; [|done]. cbn in E.
      destruct (String.eqb_spec (sql_type b) (sql_type c)) as [|Hne]; [done|]. injection E as <-. cbn. by rewrite Eb, Fc.
    - intros (H1 & H2 & Hne). destruct (find_column baseline (tc_column t)) as [b|] eqn:Eb; [|done].
      destruct (find_column current (tc_column t)) as [c|] eqn:Ec; [|done]. apply find_column_name in Ec as [En Hcc].
      exists c. split; [by apply list_elem_of_In|]. unfold change_of. rewrite En, Eb. cbn in H1, H2 |- *. injection H1 as H1. injection H2 as H2.
      rewrite H1, H2. apply String.eqb_neq in Hne. rewrite Hne. by destruct t. }
  split_and!; [|exact Hadds|exact Hdrops|exact Hch|].
  - intros name. unfold apply_diff. rewrite type_of_app, type_of_retype.
    rewrite (type_of_filter (fun n => negb (existsb (fun x => col_name x =? n) (drops d)))).
    change (List.map (fun c => (col_name c, sql_type c)) (adds d)) with (table {| columns := adds d |}). rewrite !type_of_table. unfold d. rewrite find_adds. destruct (find_column baseline name) as [b|] eqn:Eb.
    + rewrite drops_iff by (apply find_column_name in Eb as [? ?]; eauto).
      destruct (find_column current name) as [c|] eqn:Ec; cbn [negb fmap option_fmap option_map mbind option_bind].
      * rewrite diff_lists. cbn [type_changes]. rewrite find_change by done. fold (find_column current name). rewrite Ec.
        cbn [mbind option_bind]. unfold change_of. apply find_column_name in Ec as [-> _]. rewrite Eb. cbn [mbind option_bind].
        destruct (String.eqb_spec (sql_type b) (sql_type c)) as [->|]; done.
      * done.
    + by destruct (negb _).
  - unfold is_empty. split.
    + intros E name. destruct (adds d) eqn:Ea, (drops d) eqn:Ed, (type_changes d) eqn:Et; try done.
      destruct (type_of (table baseline) name) as [tb|] eqn:Tb, (type_of (table current) name) as [tc|] eqn:Tc; [..|done].
      * destruct (String.eqb_spec tb tc) as [->|Hne]; [done|]. exfalso.
        apply (Hch {| tc_column := name; old_type := tb; new_type := tc |}). by cbn.
      * exfalso. rewrite type_of_table in Tb. destruct (find_column baseline name) as [b|] eqn:Eb; [|done].
        apply find_column_name in Eb as [<- Hbb]. by apply (Hdrops b).
      * exfalso. rewrite type_of_table in Tc. destruct (find_column current name) as [c|] eqn:Ec; [|done].
        apply find_column_name in Ec as [<- Hcc]. by apply (Hadds c).
    + intros Ha. assert (Has : forall c s, In c (columns s) -> type_of (table s) (col_name c) <> None).
      { intros c s Hcs. rewrite type_of_table. destruct (find_column s (col_name c)) eqn:E; [done|].
        rewrite find_column_None in E. by apply E in Hcs. }
      destruct (adds d) as [|a l] eqn:Ea; [|exfalso; destruct (Hadds a) as [H _]; destruct H as [H1 H2]; [rewrite ?Ea; by left|]; rewrite Ha in H2; by apply (Has a current)].
      destruct (drops d) as [|a l] eqn:Ed; [|exfalso; destruct (Hdrops a) as [H _]; destruct H as [H1 H2]; [rewrite ?Ed; by left|]; rewrite <- Ha in H2; by apply (Has a baseline)].
      destruct (type_changes d) as [|t l] eqn:Et; [done|]. exfalso. destruct (Hch t) as [H _]. destruct H as (H1 & H2 & Hne); [rewrite ?Et; by left|].
      rewrite Ha, H2 in H1. injection H1 as H1. done.
Qed.

(** * Properties *)

(** Applied to the table of the baseline, the difference gives every column of
    the declarations its type and no other column; nothing is dropped, added or
    retyped without need. *)
Theorem schema_diff_exact baseline current :
  List.NoDup (List.map col_name (columns baseline)) -> List.NoDup (List.map col_name (columns current)) ->
  let d := diff baseline current in
  (forall name, type_of (apply_diff d (table baseline)) name = type_of (table current) name) /\
  (forall c, In c (adds d) <-> In c (columns current) /\ type_of (table baseline) (col_name c) = None) /\
  (forall c, In c (drops d) <-> In c (columns baseline) /\ type_of (table current) (col_name c) = None) /\
  (forall t, In t (type_changes d) <-> type_of (table baseline) (tc_column t) = Some (old_type t) /\
     type_of (table current) (tc_column t) = Some (new_type t) /\ old_type t <> new_type t) /\
  (is_empty d = true <-> forall name, type_of (table baseline) name = type_of (table current) name).
Proof. apply diff_facts. Qed.

Lemma schema_diff_exact_witness :
  let b := {| columns := [column_new "id" "BIGSERIAL" false; column_new "name" "TEXT" false; column_new "photo" "TEXT" true] |} in
  let c := {| columns := [column_new "id" "BIGSERIAL" false; column_new "email" "TEXT" false; column_new "photo" "JSONB" true] |} in
  List.NoDup (List.map col_name (columns b)) /\ List.NoDup (List.map col_name (columns c)) /\
  (forall name, type_of (apply_diff (diff b c) (table b)) name = type_of (table c) name) /\
  diff b c = {| adds := [column_new "email" "TEXT" false]; drops := [column_new "name" "TEXT" false];
                type_changes := [{| tc_column := "photo"; old_type := "TEXT"; new_type := "JSONB" |}] |}.
Proof.
  intros b c. assert (Hb : List.NoDup (List.map col_name (columns b))) by (apply NoDup_ListNoDup; vm_compute; by apply (bool_decide_unpack _)).
  assert (Hc : List.NoDup (List.map col_name (columns c))) by (apply NoDup_ListNoDup; vm_compute; by apply (bool_decide_unpack _)).
  split; [exact Hb|]. split; [exact Hc|]. destruct (schema_diff_exact b c Hb Hc) as [H _]. split; [exact H|]. by vm_compute.
Defined.
