(* ===== verification/SchemaRead.v ===== *)
(** Reading back an emitted migration: the parser of [schema_diff/parse.rs]
    against the emitter of [migration_ddl/create_table.rs], and what regenerating
    unchanged declarations plans. *)
From S2P Require Import Prelude Str Fmt Lines Helpers Ir Catalog MigrationOrder SqlName SqlColumn CreateTable SchemaDiff.

(** * Clean texts *)

(** Printable ASCII and the space, without the dash that could start a comment. *)
Definition body_byte (b : byte) : bool := in_range 32 126 b && negb (b =a? "-").
Definition body_text (s : string) : bool := str_all body_byte s.

(** A body line the parser cuts where the emitter wrote it. *)
Definition clean_body (b : string) : bool :=
  edges_ok b && body_text b &&
  match last_byte b with Some c => negb (c =a? ",") | None => false end &&
  match byte_at b 0 with Some c => negb (c =a? ")") | None => false end.

(** Names as the language has them. *)
Definition name_byte (b : byte) : bool := is_ascii_alphanumeric b || (b =a? "_").
Definition clean_name (n : string) : bool := nonempty n && str_all name_byte n.

(** What the parser makes of one body line. *)
Definition line_column (body : string) : option Column :=
  if is_table_level_constraint body then None else parse_column_line body.

(** * Cutting a line *)

Lemma find_dashes_none x c : lacks "-" x -> c <> "-"%char -> str_find "--" (x +:+ String c "") = None.
Proof.
  intros Hx Hc. apply Ascii.eqb_neq in Hc. induction x as [|b x IH]; cbn [String.append str_find starts_with].
  - rewrite Ascii.eqb_sym, Hc. done.
  - cbn [str_all] in Hx. bool_prop. rewrite Ascii.eqb_sym, H. cbn [andb]. by rewrite IH.
Qed.

Lemma find_dashes_some x c : lacks "-" x -> str_find "--" (x +:+ String " " (String "-" (String "-" c))) = Some (str_len x + 1).
Proof.
  induction x as [|b x IH]; intros Hx; [done|]. cbn [str_all] in Hx. bool_prop.
  cbn [String.append str_find starts_with]. rewrite Ascii.eqb_sym, H. cbn [andb]. by rewrite IH.
Qed.

Lemma body_text_lacks s : body_text s = true -> lacks "-" s /\ plain_line s = true.
Proof.
  intros H. split; eapply str_all_impl; try exact H; intros b; by_bytes b.
Qed.

Lemma edges_cons s : edges_ok s = true -> exists a t, s = String a t /\ graphic a = true.
Proof. by intros [? _]%edges_ok_iff. Qed.
Lemma edges_snoc s : edges_ok s = true -> exists r b, s = r +:+ String b "" /\ graphic b = true.
Proof. by intros [_ ?]%edges_ok_iff. Qed.

Lemma strip_comma_none s r c : s = r +:+ String c "" -> c <> ","%char -> strip_suffix "," s = None.
Proof.
  intros -> Hc. apply strip_suffix_None. intros t E. apply (f_equal last_byte) in E. rewrite !last_byte_snoc in E. by injection E.
Qed.

Lemma trim_indent s : trim ("    " +:+ s) = trim s.
Proof. change ("    " +:+ s) with (String " " (String " " (String " " (String " " s)))). by rewrite !trim_space. Qed.

Lemma clean_body_facts b : clean_body b = true ->
  edges_ok b = true /\ lacks "-" b /\ plain_line b = true /\ (exists r c, b = r +:+ String c "" /\ c <> ","%char /\ graphic c = true) /\
  (exists c t, b = String c t /\ c <> ")"%char /\ graphic c = true).
Proof.
  unfold clean_body. intros H. bool_prop. destruct (body_text_lacks b H2) as [Hd Hp].
  destruct (edges_snoc b H) as (r & c & E & Hc). destruct (edges_cons b H) as (d & t & E' & Hd').
  split_and!; try done.
  - exists r, c. split_and!; [done| |done]. intros ->. rewrite E, last_byte_snoc in H1. done.
  - exists d, t. split_and!; [done| |done]. intros ->. by rewrite E' in H0.
Qed.

(** The line of a column without a comment. *)
Lemma line_body_plain b comma : clean_body b = true -> comma = "" \/ comma = "," ->
  trim ("    " +:+ b +:+ comma) = b +:+ comma /\ line_body (b +:+ comma) = b.
Proof.
  intros Hb Hc. destruct (clean_body_facts b Hb) as (He & Hd & _ & (r & c & Er & Hcc & Hgc) & _).
  assert (Hbt : edges_ok (b +:+ comma) = true) by (destruct Hc as [->| ->]; [by rewrite sapp_nil_r|by apply edges_ok_app]).
  split; [rewrite trim_indent; by apply trim_edges|]. unfold line_body. destruct Hc as [->| ->].
  - rewrite sapp_nil_r. assert (Hn : str_find "--" b = None).
    { rewrite Er. rewrite Er, str_all_app in Hd. apply andb_true_iff in Hd as [Hd1 Hd2]. cbn [str_all] in Hd2. bool_prop.
      apply find_dashes_none; [done|]. by apply Ascii.eqb_neq. }
    rewrite Hn, (strip_comma_none b r c Er Hcc). cbn [default]. by apply trim_edges.
  - rewrite find_dashes_none by done. rewrite (proj2 (strip_suffix_Some "," _ b)) by done. cbn [default]. by apply trim_edges.
Qed.

(** ... and with one. *)
Lemma line_body_comment b comma comment : clean_body b = true -> comma = "" \/ comma = "," ->
  exists rest, trim ("    " +:+ b +:+ comma +:+ " -- " +:+ comment) = b +:+ rest /\ line_body (b +:+ rest) = b.
Proof.
  intros Hb Hc. destruct (clean_body_facts b Hb) as (He & Hd & _ & (r & c & Er & Hcc & Hgc) & (d & t & Et & _ & Hgd)).
  assert (Hbt : edges_ok (b +:+ comma) = true) by (destruct Hc as [->| ->]; [by rewrite sapp_nil_r|by apply edges_ok_app]).
  assert (Hdc : lacks "-" (b +:+ comma)) by (rewrite str_all_app, Hd; by destruct Hc as [->| ->]).
  exists (comma +:+ String " " (String "-" (String "-" (trim_end (" " +:+ comment))))). split.
  - rewrite trim_indent. unfold trim. rewrite Et at 1. change (String d t +:+ ?x) with (String d (t +:+ x)). rewrite trim_start_graphic by done.
    change (String d (t +:+ ?x)) with (String d t +:+ x). rewrite <- Et, <- sapp_assoc.
    change (" -- " +:+ comment) with (" -" +:+ String "-" (" " +:+ comment)). rewrite <- sapp_assoc, trim_end_app_graphic by done.
    by rewrite !sapp_assoc.
  - unfold line_body. rewrite <- sapp_assoc, find_dashes_some by done.
    replace (str_take _ _) with ((b +:+ comma) +:+ " ").
    2:{ match goal with |- _ = str_take _ (_ +:+ String " " ?x) =>
          change (String " " x) with (" " +:+ x); rewrite <- (sapp_assoc (b +:+ comma) " " x) end.
        replace (str_len (b +:+ comma) + 1) with (str_len ((b +:+ comma) +:+ " ")) by (by rewrite len_app).
        by rewrite take_app. }
    rewrite (trim_end_space (b +:+ comma) Hbt). destruct Hc as [->| ->].
    + rewrite sapp_nil_r, (strip_comma_none b r c Er Hcc). by apply trim_edges.
    + rewrite (proj2 (strip_suffix_Some "," _ b)) by done. by apply trim_edges.
Qed.

(** * The columns of a table *)

Definition clean_column (c : SqlColumn) : bool :=
  clean_body (render_body c) && match trailing_comment c with Some comment => plain_line comment | None => true end.

Lemma body_go_column b rest ls : clean_body b = true -> line_body (b +:+ rest) = b -> forall raw, trim raw = b +:+ rest ->
  body_go (raw :: ls) = (cs ← body_go ls; Some (match line_column b with Some c => c :: cs | None => cs end)).
Proof.
  intros Hb El raw Er. destruct (clean_body_facts b Hb) as (_ & _ & _ & _ & (d & t & Et & Hd & _)). cbn [body_go]. rewrite Er, El.
  assert (Hs : starts_with ");" (b +:+ rest) = false).
  { rewrite Et. cbn [String.append starts_with]. apply not_eq_sym, Ascii.eqb_neq in Hd. by rewrite Hd. }
  assert (Hq : (b +:+ rest =? ")") = false).
  { apply String.eqb_neq. rewrite Et. cbn [String.append]. intros [= -> _]. done. }
  assert (Hn : (b +:+ rest =? "") = false) by (by rewrite Et). assert (Hbn : (b =? "") = false) by (by rewrite Et).
  rewrite Hn, Hs, Hq, Hbn. cbn [orb]. done.
Qed.

Lemma body_go_columns cols after : Forall (fun c => clean_column c = true) cols ->
  body_go (column_lines cols ++ ");" :: after) = Some (omap (fun c => line_column (render_body c)) cols).
Proof.
  induction 1 as [|c cols Hc _ IH]; [done|]. unfold clean_column in Hc. apply andb_true_iff in Hc as [Hb _].
  cbn [column_lines app]. set (comma := match cols with [] => "" | _ => "," end).
  assert (Hcomma : comma = "" \/ comma = ",") by (unfold comma; destruct cols; auto).
  cbn [omap list_omap]. destruct (trailing_comment c) as [comment|].
  - destruct (line_body_comment (render_body c) comma comment Hb Hcomma) as (rest & Et & El).
    rewrite (body_go_column _ _ _ Hb El _ Et), IH. cbn. by destruct (line_column (render_body c)).
  - destruct (line_body_plain (render_body c) comma Hb Hcomma) as [Et El].
    rewrite (body_go_column _ _ _ Hb El _ Et), IH. cbn. by destruct (line_column (render_body c)).
Qed.

Lemma column_lines_plain cols : Forall (fun c => clean_column c = true) cols -> Forall (fun l => plain_line l = true) (column_lines cols).
Proof.
  induction 1 as [|c cols Hc _ IH]; [constructor|]. unfold clean_column in Hc. apply andb_true_iff in Hc as [Hb Hcm].
  destruct (clean_body_facts _ Hb) as (_ & _ & Hp & _). cbn [column_lines]. constructor; [|done].
  assert (Hk : plain_line (match cols with [] => "" | _ => "," end) = true) by (by destruct cols).
  destruct (trailing_comment c) as [comment|]; rewrite !plain_app, Hp, Hk, ?Hcm; done.
Qed.

(** ** The whole file *)

Lemma header_not_create l rest : starts_with "--" l = true -> after_create_table (l :: rest) = after_create_table rest.
Proof.
  intros H. cbn [after_create_table]. apply starts_with_iff in H as [t ->]. unfold line_starts_create_table.
  change ("--" +:+ t) with (String "-" (String "-" t)). by rewrite trim_start_graphic.
Qed.

Lemma slug_plain s : slug s = true -> plain_line s = true.
Proof.
  assert (H : forall p s, slug_go p s = true -> plain_line s = true).
  { intros p t. revert p. induction t as [|b t IH]; intros p Ht; [done|]. cbn [slug_go] in Ht. unfold plain_line in *. cbn [str_all].
    destruct (b =a? "_") eqn:E; apply andb_true_iff in Ht as [Hb Ht]; rewrite (IH _ Ht), andb_true_r.
    - by apply Ascii.eqb_eq in E as ->.
    - revert Hb. clear. by_bytes b. }
  unfold slug. intros [E|Hs]%orb_true_iff; [by apply String.eqb_eq in E as ->|by eapply H].
Qed.

(** The columns of an emitted migration are read back one by one. *)
Lemma baseline_columns module feature resource label index :
  Forall (fun c => clean_column c = true) (resource_columns module feature resource index) ->
  parse_baseline_from_str (emit_resource_migration module feature resource label index) =
  Ok {| columns := omap (fun c => line_column (render_body c)) (resource_columns module feature resource index) |}.
Proof.
  intros Hc. unfold parse_baseline_from_str, emit_resource_migration.
  set (cols := resource_columns module feature resource index) in *. set (after := statements _).
  set (hdr := migration_header feature resource label). set (create := create_table_line (lower_snake (r_name resource))).
  assert (Hcp : plain_line create = true).
  { unfold create, create_table_line. rewrite !plain_app, quote_plain; [done|]. apply slug_plain, lower_snake_slug. }
  assert (Hh : Forall (fun l => plain_line l = true) hdr).
  { unfold hdr, migration_header. repeat (apply Forall_app; split); repeat constructor; rewrite ?plain_app, ?comment_value_plain; try done.
    destruct (resource_uses_postgis resource); repeat constructor. }
  replace (hdr ++ [create] ++ column_lines cols ++ [");"] ++ after)%list with
    ((hdr ++ create :: column_lines cols ++ [");"]) ++ after)%list by (by rewrite <- !app_assoc; cbn; rewrite <- app_assoc).
  rewrite unlines_app, unlines_lines.
  2:{ apply Forall_app. split; [done|]. constructor; [done|]. apply Forall_app. split; [by apply column_lines_plain|by repeat constructor]. }
  assert (Ha : forall rest, after_create_table (hdr ++ create :: rest) = Some rest).
  { intros rest. unfold hdr, migration_header. cbn [app]. rewrite !header_not_create by done. cbn [after_create_table app].
    change (line_starts_create_table "") with false. cbn match.
    assert (Hs : line_starts_create_table create = true) by done.
    destruct (resource_uses_postgis resource); cbn [app after_create_table]; by rewrite Hs. }
  rewrite <- app_assoc. cbn [app]. rewrite Ha, <- app_assoc. cbn [app]. by rewrite body_go_columns.
Qed.

(** * Bodies *)

Definition head_ok (p : string) : bool := match p with String c _ => graphic c && negb (c =a? ")") | "" => false end.
Definition tail_ok (s : string) : bool := match last_byte s with Some c => graphic c && negb (c =a? ",") | None => false end.

Lemma last_byte_app a b : b <> "" -> last_byte (a +:+ b) = last_byte b.
Proof. intros Hb. destruct (str_snoc b) as [|(r & x & ->)]; [done|]. rewrite <- sapp_assoc. by rewrite !last_byte_snoc. Qed.

Lemma tail_ok_app a b : tail_ok b = true -> tail_ok (a +:+ b) = true.
Proof. unfold tail_ok. intros H. rewrite last_byte_app; [done|]. intros ->. done. Qed.

Lemma clean_body_intro p s : head_ok p = true -> tail_ok s = true -> body_text p = true -> body_text s = true ->
  clean_body (p +:+ s) = true.
Proof.
  intros Hh Ht Hp Hs. destruct p as [|a p]; [done|]. unfold tail_ok in Ht. destruct (str_snoc s) as [->|(r & c & ->)]; [done|].
  rewrite last_byte_snoc in Ht. cbn [head_ok] in Hh. bool_prop. unfold clean_body, body_text in *.
  rewrite str_all_app, Hp, Hs. rewrite <- sapp_assoc, last_byte_snoc. cbn [String.append byte_at]. rewrite H2, H0. cbn [negb andb]. rewrite !andb_true_r.
  apply edges_ok_iff. split; [eexists _, _; by split|]. by exists (String a p +:+ r), c.
Qed.

(** ** Identifiers *)

Definition name_text (s : string) : bool := str_all name_byte s.

Lemma name_text_body s : name_text s = true -> body_text s = true /\ lacks DQ s.
Proof. intros H. split; eapply str_all_impl; try exact H; intros b; by_bytes b. Qed.

Lemma slug_name s : slug s = true -> name_text s = true.
Proof.
  assert (H : forall p t, slug_go p t = true -> name_text t = true).
  { intros p t. revert p. induction t as [|b t IH]; intros p Ht; [done|]. cbn [slug_go] in Ht. unfold name_text in *. cbn [str_all].
    destruct (b =a? "_") eqn:E; apply andb_true_iff in Ht as [Hb Ht]; rewrite (IH _ Ht), andb_true_r.
    - by apply Ascii.eqb_eq in E as ->.
    - revert Hb. clear. by_bytes b. }
  unfold slug. intros [E|Hs]%orb_true_iff; [by apply String.eqb_eq in E as ->|by eapply H].
Qed.

Lemma sql_ident_cases n : lacks DQ n ->
  sql_ident n = n /\ is_plain_sql_ident n = true /\ is_sql_reserved_word n = false \/ sql_ident n = quoted n.
Proof.
  intros H. unfold sql_ident. destruct (is_plain_sql_ident n && negb (is_sql_reserved_word n)) eqn:E.
  - bool_prop. by left.
  - right. unfold quote_ident. by rewrite replace_byte_lacks.
Qed.

Lemma quoted_body n : body_text n = true -> body_text (quoted n) = true.
Proof. unfold quoted, body_text. intros H. change (String DQ ?x) with (String DQ "" +:+ x). by rewrite !str_all_app, H. Qed.

Lemma ident_body n : name_text n = true -> body_text (sql_ident n) = true.
Proof.
  intros H. destruct (name_text_body n H) as [Hb Hq]. destruct (sql_ident_cases n Hq) as [[-> _]|E]; [done|]. rewrite E. by apply quoted_body.
Qed.

Lemma ident_head n : name_text n = true -> head_ok (sql_ident n) = true.
Proof.
  intros H. destruct (name_text_body n H) as [_ Hq]. destruct (sql_ident_cases n Hq) as [(-> & Hp & _)|E]; [|by rewrite E].
  destruct n as [|b n]; [done|]. unfold name_text in H. cbn [str_all head_ok] in *. apply andb_true_iff in H as [Hb _].
  revert Hb. clear. by_bytes b.
Qed.

Lemma ident_word n : name_text n = true -> word (sql_ident n) = true.
Proof.
  intros H. destruct (name_text_body n H) as [_ Hq]. assert (Hg : str_all graphic n = true).
  { eapply str_all_impl; [|exact H]. intros b. by_bytes b. }
  unfold word, nonempty. destruct (sql_ident_cases n Hq) as [(-> & Hp & _)|E].
  - destruct n; [done|]. by rewrite Hg.
  - rewrite E. unfold quoted. cbn [str_all]. rewrite str_all_app, Hg. done.
Qed.

Lemma trim_end_quotes_lacks n : lacks DQ n -> trim_end_quotes n = n /\ trim_end_quotes (n +:+ String DQ "") = n.
Proof.
  induction n as [|b n IH]; intros H; [done|]. cbn [str_all] in H. bool_prop. destruct (IH H0) as [E1 E2].
  cbn [String.append trim_end_quotes]. rewrite E1, E2. destruct n; [by rewrite H|done].
Qed.

Lemma strip_ident n : clean_name n = true -> strip_ident_quotes (sql_ident n) = n.
Proof.
  unfold clean_name. intros H. apply andb_true_iff in H as [Hne H]. destruct (name_text_body n H) as [_ Hq].
  destruct (trim_end_quotes_lacks n Hq) as [E1 E2]. destruct n as [|b n]; [done|]. pose proof Hq as Hb. cbn [str_all] in Hb. bool_prop.
  unfold strip_ident_quotes. destruct (sql_ident_cases (String b n) Hq) as [[-> _]|E].
  - cbn [trim_start_quotes]. by rewrite H0.
  - rewrite E. unfold quoted. cbn [trim_start_quotes String.append]. rewrite Ascii.eqb_refl, H0. exact E2.
Qed.

(** A column line is not taken for a constraint. *)
Lemma key_prefix k c q m r : name_text k = true -> name_text m = true -> name_byte c = false ->
  starts_with (k +:+ String c q) (m +:+ String " " r) = true -> k = m.
Proof.
  intros Hk. revert m. induction k as [|a k IH]; intros m Hm Hc.
  - destruct m as [|b m]; [done|]. cbn [String.append starts_with]. unfold name_text in Hm. cbn [str_all] in Hm. intros H. bool_prop. subst. congruence.
  - unfold name_text in Hk. cbn [str_all] in Hk. apply andb_true_iff in Hk as [Ha Hk]. destruct m as [|b m]; cbn [String.append starts_with]; intros H; bool_prop.
    + subst. done.
    + subst. unfold name_text in Hm. cbn [str_all] in Hm. bool_prop. f_equal. by apply IH.
Qed.

Lemma upper_app a b : upper_ascii (a +:+ b) = upper_ascii a +:+ upper_ascii b.
Proof. induction a as [|x a IH]; [done|]. cbn. by rewrite IH. Qed.

Lemma upper_name n : name_text n = true -> name_text (upper_ascii n) = true.
Proof.
  unfold name_text. induction n as [|b n IH]; [done|]. cbn [str_all upper_ascii]. intros [Hb Hn]%andb_true_iff. rewrite (IH Hn), andb_true_r.
  revert Hb. clear. by_bytes b.
Qed.

Lemma lower_upper n : is_plain_sql_ident n = true -> lower_ascii (upper_ascii n) = n.
Proof.
  destruct n as [|b n]; [done|]. cbn [is_plain_sql_ident upper_ascii lower_ascii]. intros [Hb Hn]%andb_true_iff.
  assert (E : to_ascii_lowercase (to_ascii_uppercase b) = b) by (revert Hb; clear; by_bytes b). rewrite E. f_equal.
  induction n as [|c n IH]; [done|]. cbn [str_all upper_ascii lower_ascii] in *. apply andb_true_iff in Hn as [Hc Hn].
  rewrite (IH Hn). f_equal. revert Hc. clear. by_bytes c.
Qed.

Lemma column_not_constraint n rest : name_text n = true -> is_table_level_constraint (sql_ident n +:+ " " +:+ rest) = false.
Proof.
  intros H. destruct (name_text_body n H) as [_ Hq]. unfold is_table_level_constraint.
  destruct (sql_ident_cases n Hq) as [(-> & Hp & Hr)|E]; [|by rewrite E].
  rewrite upper_app. change (upper_ascii (" " +:+ rest)) with (String " " (upper_ascii rest)).
  pose proof (upper_name n H) as Hu. pose proof (lower_upper n Hp) as Hl.
  assert (K : forall k c q, name_text k = true -> name_byte c = false -> is_sql_reserved_word (lower_ascii k) = true ->
    starts_with (k +:+ String c q) (upper_ascii n +:+ String " " (upper_ascii rest)) = false).
  { intros k c q Hk Hc Hrk. destruct (starts_with _ _) eqn:Es; [|done]. apply key_prefix in Es as ->; [|done..].
    rewrite Hl in Hrk. congruence. }
  cbn [existsb].
  rewrite (K "PRIMARY" " "%char "KEY " eq_refl eq_refl eq_refl : starts_with "PRIMARY KEY " _ = false).
  rewrite (K "PRIMARY" " "%char "KEY(" eq_refl eq_refl eq_refl : starts_with "PRIMARY KEY(" _ = false).
  rewrite (K "UNIQUE" " "%char "" eq_refl eq_refl eq_refl : starts_with "UNIQUE " _ = false).
  rewrite (K "UNIQUE" "("%char "" eq_refl eq_refl eq_refl : starts_with "UNIQUE(" _ = false).
  rewrite (K "FOREIGN" " "%char "KEY " eq_refl eq_refl eq_refl : starts_with "FOREIGN KEY " _ = false).
  rewrite (K "FOREIGN" " "%char "KEY(" eq_refl eq_refl eq_refl : starts_with "FOREIGN KEY(" _ = false).
  rewrite (K "CHECK" " "%char "" eq_refl eq_refl eq_refl : starts_with "CHECK " _ = false).
  rewrite (K "CHECK" "("%char "" eq_refl eq_refl eq_refl : starts_with "CHECK(" _ = false).
  rewrite (K "CONSTRAINT" " "%char "" eq_refl eq_refl eq_refl : starts_with "CONSTRAINT " _ = false).
  done.
Qed.

(** ** Types and tokens *)

Definition is_keyword (upper : string) : bool :=
  (upper =? "NOT") || (upper =? "NULL") || (upper =? "DEFAULT") || structural_suffix upper.
Definition type_word (w : string) : bool := word w && body_text w && negb (is_keyword (upper_ascii w)).
Definition type_text (ty : string) : Prop :=
  exists ws, ty = join " " ws /\ ws <> [] /\ Forall (fun w => type_word w = true) ws /\ tail_ok ty = true.

Lemma type_word_iff w : type_word w = true <-> word w = true /\ body_text w = true /\ is_keyword (upper_ascii w) = false.
Proof. unfold type_word. rewrite !andb_true_iff, negb_true_iff. tauto. Qed.

Lemma word_app a b : word a = true -> str_all graphic b = true -> word (a +:+ b) = true.
Proof. unfold word. intros [Hn Ha]%andb_true_iff Hb. rewrite str_all_app, Ha, Hb. by destruct a. Qed.

Lemma join_snoc_app sep ws w x : join sep (ws ++ [w +:+ x]) = join sep (ws ++ [w]) +:+ x.
Proof.
  induction ws as [|y ws IH]; [done|]. cbn [app]. rewrite !join_cons by (by destruct ws). rewrite IH. by rewrite !sapp_assoc.
Qed.

Lemma keyword_suffix u : is_keyword (u +:+ "[]") = false.
Proof.
  assert (H : forall k, last_byte k <> Some "]"%char -> (u +:+ "[]" =? k) = false).
  { intros k Hk. apply String.eqb_neq. intros <-. apply Hk. by rewrite last_byte_app. }
  unfold is_keyword, structural_suffix. cbn [existsb]. rewrite !H by (by vm_compute). done.
Qed.

Lemma type_text_many ty : type_text ty -> type_text (ty +:+ "[]").
Proof.
  intros (ws & -> & Hne & Hw & _). destruct (exists_last Hne) as (ws' & w & ->). exists (ws' ++ [w +:+ "[]"])%list. split_and!.
  - by rewrite join_snoc_app.
  - by destruct ws'.
  - apply Forall_app in Hw as [Hw' Hl]. apply Forall_app. split; [done|]. apply Forall_cons in Hl as [Hl _]. constructor; [|constructor].
    apply type_word_iff in Hl as (Hwd & Hb & _). apply type_word_iff. split_and!; [by apply word_app| |].
    + unfold body_text in *. by rewrite str_all_app, Hb.
    + rewrite upper_app. apply keyword_suffix.
  - by apply tail_ok_app.
Qed.

Ltac by_words ws := exists ws; split_and!; [reflexivity|done|repeat constructor|reflexivity].

Lemma builtin_text b : type_text (sql (pg_type_for_builtin b)).
Proof.
  induction b; cbn [pg_type_for_builtin sql pg]; try assumption;
    match goal with
    | |- type_text "NUMERIC(20, 6)" => by_words ["NUMERIC(20,"; "6)"]
    | |- type_text "geography(point, 4326)" => by_words ["geography(point,"; "4326)"]
    | |- type_text ?s => by_words [s]
    end.
Qed.

Lemma pg_type_text t : type_text (sql (pg_type_for t)).
Proof.
  induction t as [b|q|q|t IH|s|c]; cbn [pg_type_for sql pg]; try (by_words ["TEXT"]).
  - apply builtin_text.
  - by apply type_text_many.
  - destruct c; cbn [pg_type_for_capability sql pg]; [by_words ["JSONB"]|by_words ["TEXT"]|by_words ["TEXT"]|by_words ["BYTEA"]|by_words ["BYTEA"]|by_words ["TEXT"]].
Qed.

Lemma field_type_text module field index : type_text (sql (pg_type_for_field module field index)).
Proof.
  unfold pg_type_for_field. destruct (type_ref field) as [b|q|q|t|s|c] eqn:E; try apply pg_type_text.
  - destruct (foreign_key_owner module q index); [by_words ["BIGINT"]|]. destruct (name_is_record module (qn_name q)); [by_words ["JSONB"]|].
    unfold enum_type. destruct (find_enum_decl module (qn_name q)) as [d|]; cbn [fmap option_fmap option_map default]; [|apply pg_type_text].
    destruct (classify_storage d); [by_words ["BIGINT"]|by_words ["TEXT"]].
  - unfold enum_type. destruct (find_enum_decl module (qn_name q)) as [d|]; cbn [fmap option_fmap option_map default]; [|apply pg_type_text].
    destruct (classify_storage d); [by_words ["BIGINT"]|by_words ["TEXT"]].
  - destruct t as [b|q|q|t'|s|c]; try apply pg_type_text. destruct (name_is_record module (qn_name q)); [by_words ["JSONB"]|apply pg_type_text].
Qed.

Lemma type_text_body ty : type_text ty -> body_text ty = true /\ tail_ok ty = true.
Proof.
  intros (ws & -> & _ & Hw & Ht). split; [|exact Ht]. clear Ht. unfold body_text.
  induction Hw as [|w ws Hw _ IH]; [done|]. apply type_word_iff in Hw as (_ & Hb & _). destruct ws as [|w' ws]; [done|].
  rewrite join_cons by done. rewrite !str_all_app, IH. unfold body_text in Hb. by rewrite Hb.
Qed.

Lemma split_words_app ws r : Forall (fun w => word w = true) ws -> split_whitespace (join " " (ws ++ [r])) = (ws ++ split_whitespace r)%list.
Proof.
  unfold split_whitespace. induction 1 as [|w ws Hw Hws IH]; [done|]. unfold word in Hw. bool_prop.
  assert (Hne : (w =? "") = false) by (by destruct w). cbn [app]. rewrite join_cons by (by destruct ws).
  rewrite split_ws_copy by done. cbn [String.append split_ws_go]. cbn [ws_len]. change (ws1 " ") with true. cbn match. by rewrite Hne, IH.
Qed.

Lemma column_go_types ws rest parts n : Forall (fun w => type_word w = true) ws ->
  column_go (ws ++ rest) None parts n None = column_go rest None (parts ++ ws) n None.
Proof.
  intros Hw. revert parts. induction Hw as [|w ws Hw _ IH]; intros parts; [by rewrite app_nil_r|]. apply type_word_iff in Hw as (_ & _ & Hk). unfold is_keyword in Hk.
  apply orb_false_iff in Hk as [Hk K4]. apply orb_false_iff in Hk as [Hk K3]. apply orb_false_iff in Hk as [K1 K2].
  cbn [app column_go]. rewrite K1, K2, K3, K4, IH, <- app_assoc. done.
Qed.

(** A column line from its tokens. *)
Lemma parse_column_tokens body n ws rest nl d : clean_name n = true -> ws <> [] -> Forall (fun w => type_word w = true) ws ->
  is_table_level_constraint body = false -> split_whitespace body = sql_ident n :: ws ++ rest ->
  column_go rest None ws true None = (ws, nl, d) ->
  line_column body = Some {| col_name := n; sql_type := join " " ws; nullable := nl; col_default := d |}.
Proof.
  intros Hn Hne Hw Hc Hs Hgo. unfold line_column, parse_column_line. rewrite Hc, Hs, strip_ident by done.
  unfold clean_name, nonempty in Hn. apply andb_true_iff in Hn as [Hn _]. apply negb_true_iff in Hn as ->.
  rewrite column_go_types by done. cbn [app]. rewrite Hgo. destruct ws; [by destruct Hne|done].
Qed.

Lemma words_of n ws : clean_name n = true -> Forall (fun w => type_word w = true) ws -> Forall (fun w => word w = true) (sql_ident n :: ws).
Proof.
  intros Hn Hw. apply andb_true_iff in Hn as [_ Hn]. constructor; [by apply ident_word|].
  eapply Forall_impl; [exact Hw|]. intros w Hww. apply type_word_iff in Hww as (Hwd & _ & _). exact Hwd.
Qed.

Lemma column_text n ws tail : ws <> [] -> sql_ident n +:+ " " +:+ join " " ws +:+ " " +:+ tail = join " " ((sql_ident n :: ws) ++ [tail]).
Proof. intros Hne. rewrite join_snoc by done. rewrite join_cons by done. by rewrite !sapp_assoc. Qed.

Lemma parse_bare n ty : clean_name n = true -> type_text ty -> line_column (sql_ident n +:+ " " +:+ ty) = Some (column_new n ty true).
Proof.
  intros Hn (ws & -> & Hne & Hw & _). pose proof Hn as [_ Hnt]%andb_true_iff.
  apply (parse_column_tokens _ n ws [] true None); try done; [by apply column_not_constraint|].
  rewrite app_nil_r, <- join_cons by done. by apply split_whitespace_words, words_of.
Qed.

Lemma parse_tail n ty tail nl d : clean_name n = true -> type_text ty ->
  (forall ws, column_go (split_whitespace tail) None ws true None = (ws, nl, d)) ->
  line_column (sql_ident n +:+ " " +:+ ty +:+ " " +:+ tail) = Some {| col_name := n; sql_type := ty; nullable := nl; col_default := d |}.
Proof.
  intros Hn (ws & -> & Hne & Hw & _) Ht. pose proof Hn as [_ Hnt]%andb_true_iff.
  apply (parse_column_tokens _ n ws (split_whitespace tail)); try done; [by apply column_not_constraint|].
  by rewrite column_text, split_words_app by (done || by apply words_of).
Qed.

(** * The columns an emitted table declares *)

(** What the declarations put in the table, as the parser reports it. *)
Definition field_spec (module : Module_) (index : CrossFeatureIndex) (overrides : list string) (f : Field) : list Column :=
  column_new (fd_name f) (sql (pg_type_for_field module f index)) (negb (required f)) ::
  match type_ref f with
  | Builtin (SemanticMoney _) =>
    if existsb (String.eqb (fd_name f)) overrides then [] else [column_new (fd_name f +:+ "_currency") "TEXT" (negb (required f))]
  | _ => []
  end.

Definition session_spec (r : Resource) : list Column :=
  List.filter (fun c => negb (existsb (fun f => fd_name f =? col_name c) (fields r)))
    [with_default (column_new "refresh_token_hash" "TEXT" false) "''"; column_new "refresh_expires_at" "TIMESTAMPTZ" true;
     column_new "parent_session_id" "BIGINT" true; column_new "theft_detected_at" "TIMESTAMPTZ" true].

Definition timestamps_spec : list Column :=
  [with_default (column_new "created_at" "TIMESTAMPTZ" false) "NOW()"; with_default (column_new "updated_at" "TIMESTAMPTZ" false) "NOW()"].

Definition soft_delete_spec (r : Resource) : list Column :=
  if soft_delete r then
    column_new "deleted_at" "TIMESTAMPTZ" true :: (if soft_delete_actor r then [column_new "deleted_by" "BIGINT" true] else [])
  else [].

Definition polymorphic_spec (r : Resource) : list Column :=
  List.concat (List.map (fun p => [column_new (type_field p) "TEXT" false; column_new (id_field p) "BIGINT" false]) (polymorphic_refs r)).

Definition table_spec (module : Module_) (f : Feature) (r : Resource) (index : CrossFeatureIndex) : list Column :=
  ((if composite_primary r then [] else [column_new "id" "BIGSERIAL" true]) ++
   match effective_tenancy f r with Org => [column_new "org_id" "BIGINT" false] | _ => [] end ++
   List.concat (List.map (field_spec module index (explicit_currency_overrides r)) (fields r)) ++
   match session_rotation_enabled_for_resource module f r with Some _ => session_spec r | None => [] end ++
   (if uses_timestamps f r then timestamps_spec else []) ++ soft_delete_spec r ++ polymorphic_spec r)%list.

(** Identifiers of the language, and derived expressions and keys on one line. *)
Definition clean_field (f : Field) : bool :=
  clean_name (fd_name f) && match derived_from f with Some e => body_text e | None => true end &&
  match encryption_marker_for f with Some m => plain_line m | None => true end &&
  match type_ref f with Builtin (SemanticMoney _) => is_plain_sql_ident (fd_name f) | _ => true end.
Definition clean_resource (r : Resource) : bool :=
  forallb clean_field (fields r) &&
  forallb (fun c => match c with Unique u => forallb clean_name (uq_fields u) | Index _ => true end) (constraints r) &&
  match composite_key r with Some ck => forallb clean_name (ck_fields ck) | None => true end &&
  forallb (fun p => clean_name (type_field p) && clean_name (id_field p) && forallb name_text (targets p)) (polymorphic_refs r).

(** ** Pieces of a table *)

Definition reads (l : list SqlColumn) (cs : list Column) : Prop :=
  Forall (fun c => clean_column c = true) l /\ omap (fun c => line_column (render_body c)) l = cs.

Lemma columns_nil : reads [] [].
Proof. by split. Qed.
Lemma columns_app a b ca cb : reads a ca -> reads b cb -> reads (a ++ b) (ca ++ cb).
Proof. intros [Ha <-] [Hb <-]. split; [by apply Forall_app|by rewrite omap_app]. Qed.
Lemma reads_concat {A} (f : A -> list SqlColumn) (g : A -> list Column) l :
  (forall x, In x l -> reads (f x) (g x)) -> reads (List.concat (List.map f l)) (List.concat (List.map g l)).
Proof.
  induction l as [|x l IH]; intros H; [apply columns_nil|]. cbn. apply columns_app; [apply H; by left|apply IH]. intros y Hy. apply H. by right.
Qed.
Lemma reads_if (b : bool) l cs : reads l cs -> reads (if b then l else []) (if b then cs else []).
Proof. intros H. destruct b; [done|apply columns_nil]. Qed.

Lemma clean_body_of b : head_ok b = true -> tail_ok b = true -> body_text b = true -> clean_body b = true.
Proof.
  intros Hh Ht Hb. destruct b as [|a b]; [done|]. cbn [head_ok] in Hh. unfold tail_ok in Ht.
  destruct (str_snoc (String a b)) as [|(r & c & E)]; [done|]. rewrite E, last_byte_snoc in Ht.
  apply andb_true_iff in Hh as [Hh1 Hh2]. apply andb_true_iff in Ht as [Ht1 Ht2].
  unfold clean_body. rewrite Hb. rewrite E at 2. rewrite last_byte_snoc, Ht2. cbn [byte_at]. rewrite Hh2, !andb_true_r.
  apply edges_ok_iff. split; [by eexists _, _|]. by exists r, c.
Qed.

Lemma head_ok_app p s : head_ok p = true -> head_ok (p +:+ s) = true.
Proof. by destruct p. Qed.
Lemma body_app a b : body_text (a +:+ b) = body_text a && body_text b.
Proof. apply str_all_app. Qed.

Lemma reads_column c l : clean_body (render_body c) = true -> match trailing_comment c with Some m => plain_line m | None => true end = true ->
  match line_column (render_body c) with Some x => [x] | None => [] end = l -> reads [c] l.
Proof.
  intros Hb Hc <-. split.
  - constructor; [|constructor]. unfold clean_column. by rewrite Hb, Hc.
  - cbn. by destruct (line_column _).
Qed.

(** ** The columns *)

Lemma reads_uncommented c n ty : render_body c = sql_ident n +:+ " " +:+ ty -> trailing_comment c = None ->
  clean_name n = true -> type_text ty -> reads [c] [column_new n ty true].
Proof.
  intros E Hc Hn Ht. pose proof Hn as [_ Hnt]%andb_true_iff. destruct (type_text_body ty Ht) as [Hb Htl].
  apply reads_column; rewrite ?E, ?Hc; [|done|by rewrite parse_bare].
  apply clean_body_of; [by apply head_ok_app, ident_head|by do 2 apply tail_ok_app|]. by rewrite !body_app, ident_body, Hb.
Qed.

Lemma reads_tail c n ty tail nl d : render_body c = sql_ident n +:+ " " +:+ ty +:+ " " +:+ tail ->
  match trailing_comment c with Some m => plain_line m | None => true end = true ->
  clean_name n = true -> type_text ty -> tail_ok tail = true -> body_text tail = true ->
  (forall ws, column_go (split_whitespace tail) None ws true None = (ws, nl, d)) ->
  reads [c] [{| col_name := n; sql_type := ty; nullable := nl; col_default := d |}].
Proof.
  intros E Hc Hn Ht Htl Htb Hgo. pose proof Hn as [_ Hnt]%andb_true_iff. destruct (type_text_body ty Ht) as [Hb _].
  apply reads_column; rewrite ?E; [|done|by rewrite (parse_tail n ty tail nl d)].
  apply clean_body_of; [by apply head_ok_app, ident_head|by do 4 apply tail_ok_app|]. by rewrite !body_app, ident_body, Hb, Htb.
Qed.

Lemma reads_typed n ty req gen tc : clean_name n = true -> type_text ty ->
  match gen with Some e => body_text e | None => true end = true -> match tc with Some m => plain_line m | None => true end = true ->
  reads [Typed n ty req gen tc] [column_new n ty (negb req)].
Proof.
  intros Hn Ht Hg Hc.
  destruct gen as [e|], req; cbn [negb].
  - apply (reads_tail _ n ty ("NOT NULL GENERATED ALWAYS AS (" +:+ e +:+ ") STORED")); try done.
    + by do 2 apply tail_ok_app.
    + by rewrite !body_app, Hg.
  - apply (reads_tail _ n ty ("GENERATED ALWAYS AS (" +:+ e +:+ ") STORED")); try done.
    + by do 2 apply tail_ok_app.
    + by rewrite !body_app, Hg.
  - by apply (reads_tail _ n ty "NOT NULL").
  - pose proof Hn as [_ Hnt]%andb_true_iff. destruct (type_text_body ty Ht) as [Hb Htl].
    assert (E : render_body (Typed n ty false None tc) = sql_ident n +:+ " " +:+ ty) by (cbn; by rewrite !sapp_nil_r).
    apply reads_column; [|done|by rewrite E, parse_bare]. rewrite E.
    apply clean_body_of; [by apply head_ok_app, ident_head|by do 2 apply tail_ok_app|]. by rewrite !body_app, ident_body, Hb.
Qed.

Lemma reads_raw_words n ty : sql_ident n = n -> clean_name n = true -> type_text ty -> reads [raw (n +:+ " " +:+ ty)] [column_new n ty true].
Proof. intros E Hn Ht. apply reads_uncommented; [cbn; by rewrite E|done..]. Qed.

Lemma reads_raw_tail n ty tail nl d : sql_ident n = n -> clean_name n = true -> type_text ty -> tail_ok tail = true -> body_text tail = true ->
  (forall ws, column_go (split_whitespace tail) None ws true None = (ws, nl, d)) ->
  reads [raw (n +:+ " " +:+ ty +:+ " " +:+ tail)] [{| col_name := n; sql_type := ty; nullable := nl; col_default := d |}].
Proof. intros E Hn Ht H1 H2 H3. eapply reads_tail; try done. cbn. by rewrite E. Qed.

Lemma currency_ident n : is_plain_sql_ident n = true -> sql_ident (n +:+ "_currency") = n +:+ "_currency".
Proof.
  intros H. unfold sql_ident. replace (is_plain_sql_ident (n +:+ "_currency")) with true.
  2:{ symmetry. destruct n as [|b n]; [done|]. cbn [String.append is_plain_sql_ident] in *. apply andb_true_iff in H as [Hb Hn].
      by rewrite Hb, str_all_app, Hn. }
  cbn [andb]. destruct (is_sql_reserved_word _) eqn:E; [|done]. exfalso. unfold is_sql_reserved_word in E.
  apply existsb_exists in E as (w & Hw & Ew). apply String.eqb_eq in Ew.
  assert (Hall : forallb (fun w => match strip_suffix "_currency" w with Some _ => false | None => true end) reserved_words = true) by (by vm_compute).
  rewrite forallb_forall in Hall. apply Hall in Hw. by rewrite <- Ew, (proj2 (strip_suffix_Some "_currency" _ n)) in Hw.
Qed.

Lemma reads_eq s s' cs : s = s' -> reads [raw s'] cs -> reads [raw s] cs.
Proof. by intros ->. Qed.

Lemma type_bigint : type_text "BIGINT". Proof. by_words ["BIGINT"]. Qed.
Lemma type_bigserial : type_text "BIGSERIAL". Proof. by_words ["BIGSERIAL"]. Qed.
Lemma type_txt : type_text "TEXT". Proof. by_words ["TEXT"]. Qed.
Lemma type_timestamptz : type_text "TIMESTAMPTZ". Proof. by_words ["TIMESTAMPTZ"]. Qed.

Lemma reads_currency f c : clean_name (fd_name f) = true -> is_plain_sql_ident (fd_name f) = true ->
  reads [currency_column f c] [column_new (fd_name f +:+ "_currency") "TEXT" (negb (required f))].
Proof.
  intros Hn Hp. pose proof Hn as [_ Hnt]%andb_true_iff. destruct (name_text_body _ Hnt) as [Hb _].
  assert (Hc : clean_name (fd_name f +:+ "_currency") = true).
  { unfold clean_name, nonempty. rewrite str_all_app, Hnt. by destruct (fd_name f). }
  assert (Hi : body_text (as_iso c) = true) by (by destruct c).
  set (tail := "CHECK (" +:+ fd_name f +:+ "_currency = '" +:+ as_iso c +:+ "') DEFAULT '" +:+ as_iso c +:+ "'").
  assert (Ht : body_text tail = true) by (unfold tail; by rewrite !body_app, Hb, Hi).
  assert (Hl : tail_ok tail = true) by (unfold tail; by do 6 apply tail_ok_app).
  unfold currency_column. destruct (required f); cbn [negb].
  - eapply reads_eq; [|apply (reads_raw_tail (fd_name f +:+ "_currency") "TEXT" ("NOT NULL " +:+ tail)); try done;
      [by apply currency_ident|apply type_txt]].
    unfold tail. by rewrite !sapp_assoc.
  - eapply reads_eq; [|apply (reads_raw_tail (fd_name f +:+ "_currency") "TEXT" tail); try done; [by apply currency_ident|apply type_txt]].
    unfold tail. by rewrite !sapp_assoc.
Qed.


Lemma reads_field module index overrides f : clean_field f = true ->
  reads (field_columns module index overrides f) (field_spec module index overrides f).
Proof.
  unfold clean_field. rewrite !andb_true_iff. intros [[[Hn Hd] Hm] Hp]. pose proof (field_type_text module f index) as Ht.
  unfold field_columns, field_spec.
  apply (columns_app [_] _ [_]).
  - unfold typed_generated. destruct (encryption_marker_for f); cbn [with_trailing_comment]; by apply reads_typed.
  - destruct (type_ref f) as [b|q|q|t|s|c]; try apply columns_nil. destruct b; try apply columns_nil.
    destruct (existsb _ overrides); [apply columns_nil|by apply reads_currency].
Qed.

Lemma reads_missing r n ddl c : col_name c = n -> reads [raw ddl] [c] ->
  reads (push_if_missing r n ddl) (List.filter (fun c => negb (existsb (fun f => fd_name f =? col_name c) (fields r))) [c]).
Proof. intros En H. unfold push_if_missing. cbn [List.filter]. rewrite En. destruct (existsb _ _); [apply columns_nil|done]. Qed.

Lemma reads_session r t : slug t = true -> reads (session_rotation_columns r t) (session_spec r).
Proof.
  intros Ht. unfold session_rotation_columns, session_spec.
  match goal with |- reads _ (List.filter ?p [?a; ?b; ?c; ?d]) => change [a; b; c; d] with ([a] ++ [b] ++ [c] ++ [d])%list end.
  rewrite !List.filter_app. repeat apply columns_app; apply reads_missing; try done.
  - by apply (reads_raw_tail "refresh_token_hash" "TEXT" "NOT NULL DEFAULT ''"); try apply type_txt.
  - by apply (reads_raw_words "refresh_expires_at" "TIMESTAMPTZ"); try apply type_timestamptz.
  - apply (reads_raw_tail "parent_session_id" "BIGINT" ("REFERENCES " +:+ quote_ident t +:+ " (id) ON DELETE SET NULL")); try done.
    + apply type_bigint.
    + by do 2 apply tail_ok_app.
    + destruct (name_text_body t (slug_name t Ht)) as [Hb Hq]. rewrite !body_app. unfold quote_ident. rewrite replace_byte_lacks by done. by rewrite quoted_body.
  - by apply (reads_raw_words "theft_detected_at" "TIMESTAMPTZ"); try apply type_timestamptz.
Qed.

(** Constraint lines declare no column. *)
Definition constraint_line (s : string) : Prop := head_ok s = true /\ tail_ok s = true /\ body_text s = true /\ is_table_level_constraint s = true.

Lemma reads_constraint s : constraint_line s -> reads [raw s] [].
Proof.
  intros (Hh & Ht & Hb & Hc). apply reads_column; [by apply clean_body_of|done|]. unfold line_column. cbn [raw render_body]. by rewrite Hc.
Qed.

Lemma reads_constraints {A} (f : A -> option SqlColumn) l :
  (forall x c, In x l -> f x = Some c -> exists s, c = raw s /\ constraint_line s) -> reads (omap f l) [].
Proof.
  induction l as [|x l IH]; intros H; [apply columns_nil|]. cbn [omap list_omap]. assert (Hl : reads (omap f l) []) by (apply IH; intros y c Hy; apply H; by right).
  destruct (f x) as [c|] eqn:E; [|done]. destruct (H x c) as (s & -> & Hs); [by left|done|]. apply (columns_app [raw s] _ [] []); [by apply reads_constraint|done].
Qed.

Lemma idents_body l : forallb clean_name l = true -> body_text (join ", " (List.map sql_ident l)) = true.
Proof.
  induction l as [|n l IH]; [done|]. cbn [forallb]. intros [Hn Hl]%andb_true_iff. apply andb_true_iff in Hn as [_ Hn]. cbn [List.map].
  destruct l as [|m l]; [by apply ident_body|]. rewrite join_cons by done. by rewrite !body_app, ident_body, IH.
Qed.

Lemma body_cons c s : body_byte c = true -> body_text s = true -> body_text (String c s) = true.
Proof. unfold body_text. cbn [str_all]. by intros -> ->. Qed.

Ltac by_body := repeat first [reflexivity | assumption | rewrite body_app; apply andb_true_iff; split | by apply ident_body |
  apply body_cons; [reflexivity|]].
Ltac by_tail := repeat first [reflexivity | apply tail_ok_app | apply (tail_ok_app (String _ ""))].

Lemma unique_line fs p name s : forallb clean_name fs = true -> match name with Some n => name_text n = true | None => True end ->
  unique_fields_sql fs p name = Some (raw s) -> constraint_line s.
Proof.
  intros Hf Hn. unfold unique_fields_sql. destruct fs as [|f fs]; [done|].
  set (cols := (List.map sql_ident (f :: fs) ++ _)%list). assert (Hb : body_text (join ", " cols) = true).
  { unfold cols. destruct p as [q|]; [|rewrite app_nil_r; by apply idents_body].
    replace (List.map sql_ident (f :: fs) ++ [sql_ident (lower_snake q +:+ "_id")])%list
      with (List.map sql_ident ((f :: fs) ++ [lower_snake q +:+ "_id"])%list) by apply map_app.
    apply idents_body. rewrite forallb_app, Hf. cbn [forallb]. unfold clean_name, nonempty. rewrite str_all_app.
    pose proof (slug_name _ (lower_snake_slug q)) as Hq. unfold name_text in Hq. rewrite Hq. by destruct (lower_snake q). }
  clearbody cols. destruct name as [n|]; intros [= <-]; split_and!; try done.
  - by_tail.
  - by_body.
  - by_tail.
  - by_body.
Qed.

Lemma field_slug_name fs : name_text (field_slug fs) = true.
Proof.
  unfold field_slug. induction fs as [|f fs IH]; [done|]. cbn [List.map]. pose proof (slug_name _ (lower_snake_slug f)) as Hf.
  destruct fs as [|g fs]; [exact Hf|]. rewrite join_cons by done. unfold name_text in *. by rewrite !str_all_app, Hf, IH.
Qed.

Lemma unique_key_name t fs : slug t = true -> name_text (unique_constraint_name t fs) = true.
Proof.
  intros Ht%slug_name. unfold unique_constraint_name. pose proof (field_slug_name fs) as Hf. unfold name_text in *. by rewrite !str_all_app, Ht, Hf.
Qed.

Lemma unique_fields_raw fs p name c : unique_fields_sql fs p name = Some c -> exists s, c = raw s.
Proof. unfold unique_fields_sql. destruct fs; [done|]. intros [= <-]. by eexists. Qed.

Lemma field_names r f : forallb clean_field (fields r) = true -> In f (fields r) -> clean_name (fd_name f) = true.
Proof. intros H Hf. rewrite forallb_forall in H. apply H in Hf. unfold clean_field in Hf. rewrite !andb_true_iff in Hf. tauto. Qed.

Lemma reads_inline r t : forallb clean_field (fields r) = true -> reads (inline_unique_constraint_sql r t) [].
Proof.
  intros H. apply reads_constraints. intros f c Hf. destruct (unique f); [|done]. intros E. destruct (unique_fields_raw _ _ _ _ E) as [s ->].
  exists s. split; [done|]. eapply unique_line; [| |exact E]; [|done]. cbn [forallb]. by rewrite (field_names r).
Qed.

Lemma reads_unique r t : slug t = true ->
  forallb (fun c => match c with Unique u => forallb clean_name (uq_fields u) | Index _ => true end) (constraints r) = true ->
  reads (omap (unique_constraint_sql t) (constraints r)) [].
Proof.
  intros Ht H. apply reads_constraints. intros [u|i] c Hc; [|done]. rewrite forallb_forall in H. apply H in Hc. cbn [unique_constraint_sql].
  destruct (uq_when u); [done|]. intros E. destruct (unique_fields_raw _ _ _ _ E) as [s ->].
  exists s. split; [done|]. eapply unique_line; [exact Hc| |exact E]. destruct (error_code u); cbn; [by apply unique_key_name|done].
Qed.

Lemma reads_composite r : match composite_key r with Some ck => forallb clean_name (ck_fields ck) | None => true end = true ->
  reads match composite_key_sql r with Some c => [c] | None => [] end [].
Proof.
  unfold composite_key_sql. destruct (composite_key r) as [ck|]; intros H; [|apply columns_nil]. cbn [mbind option_bind].
  destruct (ck_fields ck) as [|f fs] eqn:E; [apply columns_nil|]. rewrite <- E in *. pose proof (idents_body _ H) as Hb.
  apply reads_constraint. destruct (primary ck); split_and!; try done; first [solve [by_tail]|by_body].
Qed.

Lemma reads_foreign module index r : forallb clean_field (fields r) = true -> reads (foreign_key_constraints module r index) [].
Proof.
  intros H. apply reads_constraints. intros f c Hf. unfold foreign_key_constraint. destruct (type_ref f) as [b|q|q|t|s|cap]; try done.
  destruct (foreign_key_owner module q index); [|done]. intros [= <-]. eexists. split; [reflexivity|].
  apply (field_names r) in Hf as [_ Hn]%andb_true_iff; [|done].
  assert (Hq : body_text (quote_ident (lower_snake (qn_name q))) = true).
  { destruct (name_text_body _ (slug_name _ (lower_snake_slug (qn_name q)))) as [Hb Hl]. unfold quote_ident.
    rewrite replace_byte_lacks by done. by apply quoted_body. }
  split_and!; try done; [by_tail|by_body].
Qed.

Lemma reads_poly r : forallb (fun p => clean_name (type_field p) && clean_name (id_field p) && forallb name_text (targets p)) (polymorphic_refs r) = true ->
  reads (polymorphic_ref_columns r) (polymorphic_spec r).
Proof.
  intros H. unfold polymorphic_ref_columns, polymorphic_spec. apply reads_concat. intros p Hp. rewrite forallb_forall in H. apply H in Hp.
  rewrite !andb_true_iff in Hp. destruct Hp as [[Ht Hi] Htg]. pose proof Ht as [_ Htn]%andb_true_iff.
  assert (Hb : body_text (join ", " (List.map sql_string (targets p))) = true).
  { clear - Htg. induction (targets p) as [|x l IH]; [done|]. cbn [forallb] in Htg. apply andb_true_iff in Htg as [Hx Hl].
    assert (Hs : body_text (sql_string x) = true).
    { unfold sql_string. destruct (name_text_body x Hx) as [Hb _]. rewrite replace_byte_lacks; [by rewrite !body_app, Hb|].
      eapply str_all_impl; [|exact Hx]. intros b. by_bytes b. }
    cbn [List.map]. destruct l as [|y l]; [exact Hs|]. rewrite join_cons by done. by rewrite !body_app, Hs, IH. }
  apply (columns_app [_] [_] [_]).
  - set (tail := "NOT NULL CHECK (" +:+ sql_ident (type_field p) +:+ " IN (" +:+ join ", " (List.map sql_string (targets p)) +:+ "))").
    apply (reads_tail _ (type_field p) "TEXT" tail); try done.
    + apply type_txt.
    + unfold tail. by_tail.
    + unfold tail. by rewrite !body_app, ident_body, Hb.
  - by apply (reads_tail _ (id_field p) "BIGINT" "NOT NULL"); try apply type_bigint.
Qed.

Lemma resource_reads module feature r index : clean_resource r = true ->
  reads (resource_columns module feature r index) (table_spec module feature r index).
Proof.
  unfold clean_resource. rewrite !andb_true_iff. intros [[[Hf Hu] Hk] Hp].
  pose proof (lower_snake_slug (r_name r)) as Hs. unfold resource_columns, table_spec.
  apply columns_app; [|apply columns_app; [|apply columns_app; [|apply columns_app; [|apply columns_app; [|apply columns_app]]]]].
  - destruct (composite_primary r); [apply columns_nil|]. by apply (reads_raw_tail "id" "BIGSERIAL" "PRIMARY KEY"); try apply type_bigserial.
  - destruct (effective_tenancy feature r); try apply columns_nil. apply reads_typed; try done. apply type_bigint.
  - apply reads_concat. intros f Hi. apply reads_field. rewrite forallb_forall in Hf. by apply Hf.
  - destruct (session_rotation_enabled_for_resource module feature r); [by apply reads_session|apply columns_nil].
  - apply reads_if. apply (columns_app [_] [_] [_]);
      [by apply (reads_raw_tail "created_at" "TIMESTAMPTZ" "NOT NULL DEFAULT NOW()"); try apply type_timestamptz|
       by apply (reads_raw_tail "updated_at" "TIMESTAMPTZ" "NOT NULL DEFAULT NOW()"); try apply type_timestamptz].
  - unfold soft_delete_spec. apply reads_if. apply (columns_app [_] _ [_]); [by apply reads_typed; try apply type_timestamptz|].
    apply reads_if. by apply reads_typed; try apply type_bigint.
  - rewrite <- (app_nil_l (polymorphic_spec r)). apply columns_app; [by apply reads_inline|].
    rewrite <- (app_nil_l (polymorphic_spec r)). apply columns_app; [by apply reads_unique|].
    rewrite <- (app_nil_l (polymorphic_spec r)). apply columns_app; [by apply reads_composite|].
    rewrite <- (app_nil_l (polymorphic_spec r)). apply columns_app; [by apply reads_foreign|by apply reads_poly].
Qed.

(** * Declarations the projection sees whole *)

(** A type whose column does not depend on the rest of the module. *)
Definition intrinsic_type (module : Module_) (index : CrossFeatureIndex) (t : TypeRef) : bool :=
  let text_enum q := match find_enum_decl module (qn_name q) with
                     | Some d => match classify_storage d with SkInt => false | SkString => true end
                     | None => true
                     end in
  match t with
  | UserDefined q => match foreign_key_owner module q index with Some _ => false | None => true end &&
                     negb (name_is_record module (qn_name q)) && text_enum q
  | EnumRef q => text_enum q
  | Many (UserDefined q) => negb (name_is_record module (qn_name q))
  | _ => true
  end.
Definition intrinsic_field (module : Module_) (index : CrossFeatureIndex) (overrides : list string) (f : Field) : bool :=
  intrinsic_type module index (type_ref f) && match derived_from f with Some _ => false | None => true end &&
  match type_ref f with Builtin (SemanticMoney _) => existsb (String.eqb (fd_name f)) overrides | _ => true end.
Definition intrinsic (module : Module_) (index : CrossFeatureIndex) (feature : Feature) (r : Resource) : bool :=
  forallb (intrinsic_field module index (explicit_currency_overrides r)) (fields r) &&
  negb (composite_primary r) && match effective_tenancy feature r with Org => false | _ => true end &&
  match session_rotation_enabled_for_resource module feature r with Some _ => false | None => true end &&
  Bool.eqb (uses_timestamps feature r) (default true (timestamps r)).

Lemma ir_builtin b : sql (pg_type_for_builtin b) = ir_pg_type_for_builtin b.
Proof. induction b; try done. Qed.

Lemma ir_type t : sql (pg_type_for t) = ir_pg_type t.
Proof.
  induction t as [b|q|q|t IH|s|c]; cbn [pg_type_for ir_pg_type sql]; try done; [apply ir_builtin|by rewrite IH|by destruct c].
Qed.

Lemma intrinsic_sql module index f : intrinsic_type module index (type_ref f) = true ->
  sql (pg_type_for_field module f index) = ir_pg_type (type_ref f).
Proof.
  unfold pg_type_for_field, intrinsic_type, enum_type. destruct (type_ref f) as [b|q|q|t|s|c]; try (intros _; apply ir_type).
  - destruct (foreign_key_owner module q index); [done|]. destruct (name_is_record module (qn_name q)); [done|].
    destruct (find_enum_decl module (qn_name q)) as [d|]; [|done]. cbn. by destruct (classify_storage d).
  - destruct (find_enum_decl module (qn_name q)) as [d|]; [|done]. cbn. by destruct (classify_storage d).
  - destruct t; intros H; try apply ir_type. destruct (name_is_record module (qn_name q)); [done|apply ir_type].
Qed.

Lemma intrinsic_columns module index overrides fs : forallb (intrinsic_field module index overrides) fs = true ->
  List.concat (List.map (field_spec module index overrides) fs) =
  List.map (fun f => column_new (fd_name f) (ir_pg_type (type_ref f)) (negb (required f))) fs /\
  List.filter (fun f => match derived_from f with Some _ => false | None => true end) fs = fs.
Proof.
  induction fs as [|f fs IH]; [done|]. cbn [forallb]. rewrite andb_true_iff. intros [Hf Hfs]. destruct (IH Hfs) as [E1 E2].
  unfold intrinsic_field in Hf. rewrite !andb_true_iff in Hf. destruct Hf as [[Ht Hd] Hm]. cbn [List.map List.concat List.filter].
  rewrite Hd, E1, E2. split; [|done]. unfold field_spec. rewrite (intrinsic_sql _ _ _ Ht).
  destruct (type_ref f) as [b|q|q|t|s|c]; try done. destruct b; try done. by rewrite Hm.
Qed.

(** The projection has the columns of the table. *)
Lemma intrinsic_table module index feature r : intrinsic module index feature r = true ->
  table (current_schema_from_ir r) = table {| columns := table_spec module feature r index |}.
Proof.
  unfold intrinsic. rewrite !andb_true_iff. intros [[[[Hf Hk] Ho] Hs] Ht]. apply negb_true_iff in Hk. apply Bool.eqb_prop in Ht.
  destruct (intrinsic_columns _ _ _ _ Hf) as [E1 E2]. unfold table, current_schema_from_ir, table_spec. cbn [columns].
  rewrite Hk, E1, E2, Ht. destruct (effective_tenancy feature r); [done|..];
    (destruct (session_rotation_enabled_for_resource module feature r); [done|]);
    rewrite !map_app, !map_map; unfold soft_delete_spec, synthesized_soft_delete_columns, polymorphic_spec;
    destruct (default true (timestamps r)), (soft_delete r), (soft_delete_actor r); done.
Qed.

(** * Properties *)

(** An emitted migration, read back, is exactly the columns of the table with
    their types, nullability and defaults. *)
Theorem baseline_exact module feature resource label index : clean_resource resource = true ->
  parse_baseline_from_str (emit_resource_migration module feature resource label index) =
  Ok {| columns := table_spec module feature resource index |}.
Proof.
  intros H. destruct (resource_reads module feature resource index H) as [Hc <-]. by apply baseline_columns.
Qed.

Lemma table_names s : List.map col_name (columns s) = List.map fst (table s).
Proof. unfold table. rewrite map_map. done. Qed.

Lemma type_of_In s c : List.NoDup (List.map col_name (columns s)) -> In c (columns s) -> type_of (table s) (col_name c) = Some (sql_type c).
Proof.
  rewrite type_of_table. unfold find_column. induction (columns s) as [|x l IH]; [done|]. cbn [List.map List.find].
  intros Hn Hin. inversion Hn as [|? ? Hx Hl]; subst. destruct Hin as [->|Hin]; [by rewrite String.eqb_refl|].
  destruct (String.eqb_spec (col_name x) (col_name c)) as [E|]; [|by apply IH].
  exfalso. apply Hx. rewrite E. by apply in_map.
Qed.

(** A plain field has its column in the table and in the projection. *)
Lemma intrinsic_field_columns module index feature r f : In f (fields r) ->
  intrinsic_field module index (explicit_currency_overrides r) f = true ->
  (exists c, In c (table_spec module feature r index) /\ col_name c = fd_name f /\ sql_type c = ir_pg_type (type_ref f)) /\
  In (field_to_column f) (columns (current_schema_from_ir r)).
Proof.
  intros Hin Hf. unfold intrinsic_field in Hf. rewrite !andb_true_iff in Hf. destruct Hf as [[Ht Hd] _]. split.
  - eexists. split; [unfold table_spec; apply in_app_iff; right; apply in_app_iff; right; apply in_app_iff; left|].
    + apply in_concat. eexists. split; [by apply in_map|by left].
    + by rewrite (intrinsic_sql module index f Ht).
  - unfold current_schema_from_ir. cbn [columns]. apply in_app_iff. right. apply in_app_iff. left. apply in_map.
    by apply filter_In.
Qed.

(** C17: Altering the table of the last emitted migration by the planned
    difference. Whatever the resource, every plain field ([intrinsic_field]: not
    derived, not a reference, a record or an integer enum, not money with a
    currency column of its own) gets the column type it has when the table is
    created afresh. When the whole resource is plain ([intrinsic]: such fields
    only, not scoped to an organisation, no composite primary key, no session
    rotation, its own timestamps setting), so does every column, and the
    difference is empty exactly when the two tables have the same columns and
    types. Outside, the projection misses columns of the table, and unchanged
    declarations plan changes ([regenerate_plans_changes], [org_column_dropped]). *)
Theorem alter_as_created module0 feature0 r0 label index0 module feature r index :
  clean_resource r0 = true ->
  let old := {| columns := table_spec module0 feature0 r0 index0 |} in let new := {| columns := table_spec module feature r index |} in
  List.NoDup (List.map col_name (columns old)) -> List.NoDup (List.map col_name (columns new)) ->
  List.NoDup (List.map col_name (columns (current_schema_from_ir r))) ->
  exists baseline, parse_baseline_from_str (emit_resource_migration module0 feature0 r0 label index0) = Ok baseline /\
    let d := diff baseline (current_schema_from_ir r) in
    (forall f, In f (fields r) -> intrinsic_field module index (explicit_currency_overrides r) f = true ->
       type_of (apply_diff d (table baseline)) (fd_name f) = type_of (table new) (fd_name f)) /\
    (intrinsic module index feature r = true ->
     (forall name, type_of (apply_diff d (table baseline)) name = type_of (table new) name) /\
     (is_empty d = true <-> forall name, type_of (table old) name = type_of (table new) name)).
Proof.
  intros Hc old new Ho Hn Hcur. destruct (resource_reads module0 feature0 r0 index0 Hc) as [Hcl E].
  exists old. split; [unfold old; rewrite <- E; by apply baseline_columns|].
  pose proof (diff_facts old (current_schema_from_ir r) Ho Hcur) as (H1 & _ & _ & _ & H2). split.
  - intros f Hin Hf. rewrite H1. destruct (intrinsic_field_columns module index feature r f Hin Hf) as [(c & Hcin & En & Ht) Hp].
    rewrite <- En at 2. rewrite (type_of_In new c Hn Hcin), Ht. exact (type_of_In _ _ Hcur Hp).
  - intros Hi. pose proof (intrinsic_table _ _ _ _ Hi) as Et. rewrite Et in H1, H2. by split.
Qed.

(** ** At concrete inputs *)

Definition sample_field (n : string) (t : TypeRef) (req : bool) : Field :=
  {| fd_name := n; type_ref := t; required := req; unique := false; fd_default := None; derived_from := None;
     full_text := false; cross_feature_target := None; fd_constraints := default_constraints; owner_axis := None |}.
Definition sample_resource (fs : list Field) (key : option CompositeKey) : Resource :=
  {| r_name := "Invoice"; tenancy := None; soft_delete := true; soft_delete_actor := false; timestamps := None; fields := fs;
     constraints := [Unique {| uq_fields := ["number"]; per := Some "User"; uq_when := None; error_code := Some "taken" |}];
     composite_key := key; polymorphic_refs := [{| type_field := "owner_type"; id_field := "owner_id"; targets := ["User"; "Team"] |}];
     restrict_on_delete := [] |}.
Definition sample_feature (r : Resource) (sessions_ : option AuthSessions) : Feature :=
  {| f_name := "billing"; defaults := {| df_tenancy := None; df_timestamps := true |}; enums := []; resources := [r];
     records := [{| rc_name := "Address" |}]; auth := Some {| sessions := sessions_ |} |}.
Definition sample_module (f : Feature) : Module_ := {| features := [f] |}.
Definition sample_fields : list Field :=
  [sample_field "number" (Builtin Text) true; sample_field "order" (Builtin Decimal) false; sample_field "total_currency" (Builtin SemanticCurrency) true;
   sample_field "total" (Builtin (SemanticMoney EUR)) true; sample_field "secret" (Capability (CEncrypted "main_key")) false].

Lemma baseline_exact_witness :
  let r := sample_resource sample_fields None in let f := sample_feature r None in let m := sample_module f in
  clean_resource r = true /\
  parse_baseline_from_str (emit_resource_migration m f r "app.lzi" (build m)) =
  Ok {| columns := [column_new "id" "BIGSERIAL" true; column_new "number" "TEXT" false; column_new "order" "NUMERIC(20, 6)" true;
                    column_new "total_currency" "TEXT" false; column_new "total" "NUMERIC(20,4)" false; column_new "secret" "BYTEA" true;
                    with_default (column_new "created_at" "TIMESTAMPTZ" false) "NOW()"; with_default (column_new "updated_at" "TIMESTAMPTZ" false) "NOW()";
                    column_new "deleted_at" "TIMESTAMPTZ" true; column_new "owner_type" "TEXT" false; column_new "owner_id" "BIGINT" false] |}.
Proof.
  intros r f m. assert (H : clean_resource r = true) by (by vm_compute). split; [exact H|].
  rewrite (baseline_exact m f r "app.lzi" (build m) H). by vm_compute.
Defined.

Lemma alter_as_created_witness :
  let r0 := sample_resource sample_fields None in
  let r := sample_resource (sample_fields ++ [sample_field "note" (Builtin Json) false]) None in
  let f0 := sample_feature r0 None in let m0 := sample_module f0 in let f := sample_feature r None in let m := sample_module f in
  clean_resource r0 = true /\ intrinsic m (build m) f r = true /\
  exists baseline, parse_baseline_from_str (emit_resource_migration m0 f0 r0 "app.lzi" (build m0)) = Ok baseline /\
    let d := diff baseline (current_schema_from_ir r) in
    (forall name, type_of (apply_diff d (table baseline)) name = type_of (table {| columns := table_spec m f r (build m) |}) name).
Proof.
  intros r0 r f0 m0 f m. assert (H0 : clean_resource r0 = true) by (by vm_compute).
  assert (H1 : intrinsic m (build m) f r = true) by (by vm_compute). split; [exact H0|]. split; [exact H1|].
  destruct (alter_as_created m0 f0 r0 "app.lzi" (build m0) m f r (build m) H0) as (b & Eb & _ & Hd).
  - apply NoDup_ListNoDup. vm_compute. by apply (bool_decide_unpack _).
  - apply NoDup_ListNoDup. vm_compute. by apply (bool_decide_unpack _).
  - apply NoDup_ListNoDup. vm_compute. by apply (bool_decide_unpack _).
  - exists b. split; [exact Eb|]. exact (proj1 (Hd H1)).
Defined.

(** Unchanged declarations outside that set plan changes: a composite primary key
    an [id] column to add, a record field a retype, the session columns drops. *)
Definition regenerated (r : Resource) (s : option AuthSessions) : result ParseError SchemaDiff :=
  let f := sample_feature r s in let m := sample_module f in
  match parse_baseline_from_str (emit_resource_migration m f r "app.lzi" (build m)) with
  | Ok baseline => Ok (diff baseline (current_schema_from_ir r))
  | Err e => Err e
  end.

Lemma org_column_dropped :
  let r := {| r_name := "Invoice"; tenancy := Some Org; soft_delete := false; soft_delete_actor := false; timestamps := None;
              fields := [sample_field "number" (Builtin Text) true]; constraints := []; composite_key := None; polymorphic_refs := [];
              restrict_on_delete := [] |} in
  exists d, regenerated r None = Ok d /\ adds d = [] /\ type_changes d = [] /\ List.map col_name (drops d) = ["org_id"].
Proof. eexists. split; [by vm_compute|]. split_and!; by vm_compute. Qed.

Lemma regenerate_plans_changes :
  regenerated (sample_resource [sample_field "number" (Builtin Text) true] (Some {| ck_fields := ["number"]; primary := true |})) None =
    Ok {| adds := [column_new "id" "BIGSERIAL" false]; drops := []; type_changes := [] |} /\
  regenerated (sample_resource [sample_field "address" (UserDefined {| qn_feature := None; qn_name := "Address" |}) true] None) None =
    Ok {| adds := []; drops := []; type_changes := [{| tc_column := "address"; old_type := "JSONB"; new_type := "TEXT" |}] |} /\
  (exists d, regenerated (sample_resource [sample_field "number" (Builtin Text) true] None)
     (Some {| as_resource := {| qn_feature := None; qn_name := "Invoice" |}; is_rotation_enabled := true |}) = Ok d /\
   List.map col_name (drops d) = ["refresh_token_hash"; "refresh_expires_at"; "parent_session_id"; "theft_detected_at"]).
Proof. split_and!; [by vm_compute|by vm_compute|eexists; split; by vm_compute]. Qed.
