(* ===== verification/AlterTable.v ===== *)
(** [ALTER TABLE] migrations and their rollbacks
    ([lazuli_codegen_go/src/emitter/migration_ddl/alter_table.rs]), with a
    reading of the statements as changes of a database. *)
From stdpp Require Import gmap.
From S2P Require Import Prelude Str BTree Fmt Lines Helpers SqlName SqlColumn CreateTable.

(** * Definitions *)

Inductive AlterDefault := ADString (s : string) | ADInteger (n : Z) | ADBoolean (b : bool) | ADNull | ADRaw (raw : string).

Definition render_default_sql (d : AlterDefault) : string :=
  match d with
  | ADString s => sql_string s
  | ADInteger n => show_Z n
  | ADBoolean b => if b then "TRUE" else "FALSE"
  | ADNull => "NULL"
  | ADRaw raw => raw
  end.

Record ColumnAdd := { ca_table : string; ca_column : string; ca_type : string; not_null : bool; ca_default : option AlterDefault }.
Record ColumnDrop := {
  cd_table : string; cd_column : string; previous_sql_type : string; previous_not_null : bool; previous_default : option AlterDefault
}.
Record TypeChange := { ct_table : string; ct_column : string; ct_previous : string; new_sql_type : string }.
Record SchemaDiff := { adds : list ColumnAdd; drops : list ColumnDrop; type_changes : list TypeChange }.

Definition is_empty (d : SchemaDiff) : bool :=
  match adds d, drops d, type_changes d with [], [], [] => true | _, _, _ => false end.

Definition is_safe_cast (from to : string) : bool :=
  existsb (fun p => (upper_ascii from =? p.1) && (upper_ascii to =? p.2))
    [("TEXT", "JSONB"); ("TEXT", "JSON"); ("INTEGER", "BIGINT"); ("INT", "BIGINT"); ("INT4", "BIGINT"); ("INT4", "INT8");
     ("SMALLINT", "INTEGER"); ("SMALLINT", "BIGINT"); ("VARCHAR", "TEXT"); ("CHAR", "TEXT")].

Definition render_alter_add (add : ColumnAdd) : string :=
  "ALTER TABLE " +:+ quote_ident (ca_table add) +:+ " ADD COLUMN IF NOT EXISTS " +:+ sql_ident (ca_column add) +:+ " " +:+ ca_type add +:+
  match ca_default add with
  | Some d => (if not_null add then " NOT NULL" else "") +:+ " DEFAULT " +:+ render_default_sql d
  | None => ""
  end +:+ ";" +:+
  match ca_default add with
  | None =>
    if not_null add then
      " -- TODO: backfill " +:+ ca_table add +:+ "." +:+ ca_column add +:+ ", then `ALTER TABLE " +:+ quote_ident (ca_table add) +:+
      " ALTER COLUMN " +:+ sql_ident (ca_column add) +:+ " SET NOT NULL;`"
    else ""
  | Some _ => ""
  end.

Definition render_drop_column (table column : string) : string :=
  "ALTER TABLE " +:+ quote_ident table +:+ " DROP COLUMN IF EXISTS " +:+ sql_ident column +:+ ";".
Definition render_alter_add_down (add : ColumnAdd) : string := render_drop_column (ca_table add) (ca_column add).
Definition render_alter_drop (drop : ColumnDrop) : string := render_drop_column (cd_table drop) (cd_column drop).

Definition recreated (drop : ColumnDrop) : ColumnAdd :=
  {| ca_table := cd_table drop; ca_column := cd_column drop; ca_type := previous_sql_type drop; not_null := previous_not_null drop;
     ca_default := previous_default drop |}.
Definition render_alter_drop_down (drop : ColumnDrop) : string := render_alter_add (recreated drop).

Definition render_alter_type_change (change : TypeChange) : string :=
  "ALTER TABLE " +:+ quote_ident (ct_table change) +:+ " ALTER COLUMN " +:+ sql_ident (ct_column change) +:+ " TYPE " +:+
  new_sql_type change +:+ " USING " +:+ sql_ident (ct_column change) +:+ "::" +:+ lower_ascii (new_sql_type change) +:+ ";".
Definition inverse (change : TypeChange) : TypeChange :=
  {| ct_table := ct_table change; ct_column := ct_column change; ct_previous := new_sql_type change; new_sql_type := ct_previous change |}.
Definition render_alter_type_change_down (change : TypeChange) : string := render_alter_type_change (inverse change).

Definition cast_is_safe (change : TypeChange) : bool := is_safe_cast (ct_previous change) (new_sql_type change).
Definition gate (live : bool) (stmt : string) : string := if live then stmt else "-- " +:+ stmt.
Definition nonempty_list {A} (l : list A) : bool := match l with [] => false | _ => true end.

Definition render_alter_up (feature resource source_label : string) (diff : SchemaDiff) (allow_drops : bool) : string :=
  let drops_commented := negb allow_drops && nonempty_list (drops diff) in
  let unsafe_present := existsb (fun tc => negb (cast_is_safe tc)) (type_changes diff) in
  unlines
    (["-- Code generated by lazuli; DO NOT EDIT."; "-- source: " +:+ comment_value source_label;
      "-- alter for " +:+ comment_value feature +:+ "." +:+ comment_value resource] ++
     (if drops_commented || unsafe_present then
        [""; "-- WARNING:"] ++
        (if drops_commented then
           ["--   DROP COLUMN statements are COMMENTED OUT. Re-run `lazuli generate go --allow-drops`"; "--   to emit them as live SQL."] else []) ++
        (if unsafe_present then
           ["--   Some ALTER COLUMN TYPE casts are NOT in the safe catalog and are commented out.";
            "--   Review the cast manually, write a backfill if needed, then uncomment."] else []) else []) ++
     [""] ++
     (if nonempty_list (adds diff) then "-- ADDS" :: List.map render_alter_add (sort_by ca_column (adds diff)) else []) ++
     (if nonempty_list (drops diff) then
        (if nonempty_list (adds diff) then [""] else []) ++
        "-- DROPS" :: List.map (fun d => gate allow_drops (render_alter_drop d)) (sort_by cd_column (drops diff)) else []) ++
     (if nonempty_list (type_changes diff) then
        (if nonempty_list (adds diff) || nonempty_list (drops diff) then [""] else []) ++
        "-- TYPE CHANGES" :: List.map (fun c => gate (cast_is_safe c) (render_alter_type_change c)) (sort_by ct_column (type_changes diff)) else []))%list.

Definition render_alter_down (feature resource source_label : string) (diff : SchemaDiff) (allow_drops : bool) : string :=
  unlines
    (["-- Code generated by lazuli; DO NOT EDIT."; "-- source: " +:+ comment_value source_label;
      "-- rollback for " +:+ comment_value feature +:+ "." +:+ comment_value resource +:+ " alter"; ""] ++
     (if nonempty_list (type_changes diff) then
        "-- TYPE CHANGES (inverse)" ::
        List.map (fun c => gate (cast_is_safe c) (render_alter_type_change_down c)) (sort_by ct_column (type_changes diff)) else []) ++
     (if nonempty_list (drops diff) then
        (if nonempty_list (type_changes diff) then [""] else []) ++
        "-- DROPS (inverse: re-add)" :: List.map (fun d => gate allow_drops (render_alter_drop_down d)) (sort_by cd_column (drops diff)) else []) ++
     (if nonempty_list (adds diff) then
        (if nonempty_list (type_changes diff) || nonempty_list (drops diff) then [""] else []) ++
        "-- ADDS (inverse: drop)" :: List.map render_alter_add_down (sort_by ca_column (adds diff)) else []))%list.

Definition emit_alter_migration_file (sequence : nat) (feature resource source_label : string) (diff : SchemaDiff) (allow_drops : bool) :
    option (GeneratedFile * GeneratedFile) :=
  if is_empty diff then None
  else
    let stem := "migrations/" +:+ pad3 sequence +:+ "_" +:+ feature +:+ "_" +:+ lower_snake resource in
    Some ({| g_path := stem +:+ "_alter.sql"; g_contents := render_alter_up feature resource source_label diff allow_drops |},
          {| g_path := stem +:+ "_alter.down.sql"; g_contents := render_alter_down feature resource source_label diff allow_drops |}).

(** * Running a file *)

(** ** The statements *)

Inductive Stmt :=
| AddColumn (table column ty : string) (not_null_ : bool) (default_ : option string)
| DropColumn (table column : string)
| Retype (table column ty : string).

(** An identifier of SQL, and the text after it. *)
Fixpoint quoted_tail (s : string) : option (string * string) :=
  match s with
  | "" => None
  | String b r =>
    if b =a? DQ then
      match r with
      | String c r' => if c =a? DQ then '(t, rest) ← quoted_tail r'; Some (String b (String c t), rest) else Some (String b "", r)
      | "" => Some (String b "", "")
      end
    else '(t, rest) ← quoted_tail r; Some (String b t, rest)
  end.
Definition ident_token (s : string) : option (string * string) :=
  match s with
  | "" => None
  | String b r =>
    if b =a? DQ then '(t, rest) ← quoted_tail r; Some (String b t, rest)
    else let n := count_while ident_rest s in Some (str_take n s, str_drop n s)
  end.
Definition ident (s : string) : option (string * string) := '(token, rest) ← ident_token s; name ← read_ident token; Some (name, rest).

(** A type ends at the next clause or at the end of the statement. *)
Definition clause (s : string) : bool := existsb (fun p => starts_with p s) [" NOT NULL"; " DEFAULT "; " USING "; ";"].
Fixpoint type_text (s : string) : string * string :=
  match s with
  | "" => ("", "")
  | String b r => if clause s then ("", s) else let '(t, rest) := type_text r in (String b t, rest)
  end.
(** An expression ends at the first semicolon outside a string. *)
Fixpoint expression (in_string : bool) (s : string) : option (string * string) :=
  match s with
  | "" => None
  | String b r =>
    if (b =a? ";") && negb in_string then Some ("", s)
    else '(e, rest) ← expression (if b =a? SQ then negb in_string else in_string) r; Some (String b e, rest)
  end.
(** The end of the statement, and a comment after it. *)
Definition ended (s : string) : option unit := r ← strip_prefix ";" s; if (r =? "") || starts_with " --" r then Some tt else None.

Definition read_add (table s : string) : option Stmt :=
  '(column, s) ← ident s;
  s ← strip_prefix " " s;
  let '(ty, s) := type_text s in
  let '(nn, s) := match strip_prefix " NOT NULL" s with Some s => (true, s) | None => (false, s) end in
  '(default_, s) ← match strip_prefix " DEFAULT " s with
                   | Some s => '(e, s) ← expression false s; Some (Some e, s)
                   | None => Some (None, s)
                   end;
  _ ← ended s;
  Some (AddColumn table column ty nn default_).
Definition read_drop (table s : string) : option Stmt := '(column, s) ← ident s; _ ← ended s; Some (DropColumn table column).
(** [ALTER COLUMN c TYPE t USING c::t] *)
Definition read_retype (table s : string) : option Stmt :=
  '(column, s) ← ident s;
  s ← strip_prefix " TYPE " s;
  let '(ty, s) := type_text s in
  s ← strip_prefix " USING " s;
  '(source, s) ← ident s;
  s ← strip_prefix ("::" +:+ lower_ascii ty) s;
  _ ← ended s;
  if source =? column then Some (Retype table column ty) else None.
Definition read_stmt (line : string) : option Stmt :=
  s ← strip_prefix "ALTER TABLE " line;
  '(table, s) ← ident s;
  match strip_prefix " ADD COLUMN IF NOT EXISTS " s with
  | Some s => read_add table s
  | None =>
  match strip_prefix " DROP COLUMN IF EXISTS " s with
  | Some s => read_drop table s
  | None => s ← strip_prefix " ALTER COLUMN " s; read_retype table s
  end end.

(** ** What they do *)

(** A column: its type, whether it refuses nulls, its default. *)
Record ColumnDef := { d_type : string; d_not_null : bool; d_default : option string }.
(** The columns of each table. *)
Abbreviation database := (gmap (string * string) ColumnDef).

Definition target (s : Stmt) : string * string :=
  match s with AddColumn t c _ _ _ => (t, c) | DropColumn t c => (t, c) | Retype t c _ => (t, c) end.

(** What a statement makes of its column: [IF NOT EXISTS] keeps one that is
    there, [IF EXISTS] passes over one that is not, [TYPE] fails on it and keeps
    the rest of the others. *)
Definition on_column (s : Stmt) (now : option ColumnDef) : option (option ColumnDef) :=
  match s, now with
  | AddColumn _ _ _ _ _, Some d => Some (Some d)
  | AddColumn _ _ ty nn def, None => Some (Some {| d_type := ty; d_not_null := nn; d_default := def |})
  | DropColumn _ _, _ => Some None
  | Retype _ _ ty, Some d => Some (Some {| d_type := ty; d_not_null := d_not_null d; d_default := d_default d |})
  | Retype _ _ _, None => None
  end.

Definition exec (db : database) (s : Stmt) : option database :=
  after ← on_column s (db !! target s);
  Some (match after with Some d => <[target s := d]> db | None => delete (target s) db end).
Fixpoint exec_all (db : database) (l : list Stmt) : option database :=
  match l with [] => Some db | s :: l => db' ← exec db s; exec_all db' l end.

(** The lines of a file that are neither blank nor comments. *)
Definition live (contents : string) : list string :=
  List.filter (fun l => nonempty l && negb (starts_with "--" l)) (str_lines contents).
(** A migration file run on a database. *)
Definition run_file (contents : string) (db : database) : option database := ss ← mapM read_stmt (live contents); exec_all db ss.

(** ** What a difference asks for *)

(** A column that is added without a default takes nulls until it is backfilled. *)
Definition column_def (a : ColumnAdd) : ColumnDef := {|
  d_type := ca_type a; d_not_null := not_null a && match ca_default a with Some _ => true | None => false end;
  d_default := render_default_sql <$> ca_default a |}.
Definition added_stmt (a : ColumnAdd) : Stmt := AddColumn (ca_table a) (ca_column a) (ca_type a) (d_not_null (column_def a)) (d_default (column_def a)).
Definition undo_add (a : ColumnAdd) : Stmt := DropColumn (ca_table a) (ca_column a).
Definition dropped_stmt (x : ColumnDrop) : Stmt := DropColumn (cd_table x) (cd_column x).
Definition undo_drop (x : ColumnDrop) : Stmt := added_stmt (recreated x).
Definition retyped_stmt (c : TypeChange) : Stmt := Retype (ct_table c) (ct_column c) (new_sql_type c).
Definition undo_retype (c : TypeChange) : Stmt := retyped_stmt (inverse c).

Definition up_stmts (d : SchemaDiff) (allow_drops : bool) : list Stmt :=
  (List.map added_stmt (sort_by ca_column (adds d)) ++ List.map dropped_stmt (List.filter (fun _ => allow_drops) (sort_by cd_column (drops d))) ++
   List.map retyped_stmt (List.filter cast_is_safe (sort_by ct_column (type_changes d))))%list.
Definition down_stmts (d : SchemaDiff) (allow_drops : bool) : list Stmt :=
  (List.map undo_retype (List.filter cast_is_safe (sort_by ct_column (type_changes d))) ++
   List.map undo_drop (List.filter (fun _ => allow_drops) (sort_by cd_column (drops d))) ++
   List.map undo_add (sort_by ca_column (adds d)))%list.

(** * Reading the statements back *)

(** Texts on one line; types without a semicolon whose words do not start as the
    clauses do, defaults whose strings are closed. *)
Fixpoint calm_spaces (s : string) : bool :=
  match s with
  | "" => true
  | String b r =>
    (if b =a? " " then match r with String c _ => negb ((c =a? "N") || (c =a? "D") || (c =a? "U")) | "" => false end else true) && calm_spaces r
  end.
Definition sql_type_ok (ty : string) : bool := plain_line ty && str_all (fun b => negb (b =a? ";")) ty && calm_spaces ty.
Definition closed (e : string) : bool := match expression false (e +:+ ";") with Some (e', r) => (e' =? e) && (r =? ";") | None => false end.
Definition plain_default (d : option AlterDefault) : bool :=
  match d with Some (ADString s) => plain_line s | Some (ADRaw s) => plain_line s && closed s | _ => true end.
Definition plain_add (a : ColumnAdd) : bool :=
  plain_line (ca_table a) && plain_line (ca_column a) && sql_type_ok (ca_type a) && plain_default (ca_default a).
Definition plain_drop (d : ColumnDrop) : bool := plain_add (recreated d).
Definition plain_change (c : TypeChange) : bool :=
  plain_line (ct_table c) && plain_line (ct_column c) && sql_type_ok (ct_previous c) && sql_type_ok (new_sql_type c).
Definition plain_diff (d : SchemaDiff) : bool :=
  forallb plain_add (adds d) && forallb plain_drop (drops d) && forallb plain_change (type_changes d).

(** ** Identifiers *)

Definition ends_ident (s : string) : bool := match s with "" => true | String b _ => negb (ident_rest b) && negb (b =a? DQ) end.
Lemma quoted_tail_reads n r : ends_ident r = true -> quoted_tail (replace_byte DQ (String DQ (String DQ "")) n +:+ String DQ r) =
  Some (replace_byte DQ (String DQ (String DQ "")) n +:+ String DQ "", r).
Proof.
  intros Hr. induction n as [|b n IH].
  - cbn [replace_byte String.append quoted_tail]. rewrite Ascii.eqb_refl. destruct r as [|c r]; [done|]. unfold ends_ident in Hr.
    apply andb_true_iff in Hr as [_ Hc%negb_true_iff]. by rewrite Hc.
  - cbn [replace_byte]. destruct (b =a? DQ) eqn:E; cbn [String.append quoted_tail].
    + rewrite !Ascii.eqb_refl. by rewrite IH.
    + rewrite E. by rewrite IH.
Qed.
Lemma quote_ident_reads n r : ends_ident r = true -> ident (quote_ident n +:+ r) = Some (n, r).
Proof.
  intros Hr. unfold ident, quote_ident, quoted. cbn [String.append ident_token]. rewrite Ascii.eqb_refl, sapp_assoc. cbn [String.append].
  rewrite quoted_tail_reads by done. cbn [mbind option_bind]. unfold read_ident. rewrite Ascii.eqb_refl, unquote_quote. done.
Qed.
Lemma bare_token n r : str_all ident_rest n = true -> ends_ident r = true -> str_take (count_while ident_rest (n +:+ r)) (n +:+ r) = n /\ str_drop (count_while ident_rest (n +:+ r)) (n +:+ r) = r.
Proof.
  intros Hn Hr. assert (count_while ident_rest (n +:+ r) = str_len n) as ->; [|by rewrite take_app, drop_app].
  induction n as [|b n IH].
  - cbn [String.append]. destruct r as [|c r]; [done|]. unfold ends_ident in Hr. apply andb_true_iff in Hr as [Hc%negb_true_iff _]. cbn. by rewrite Hc.
  - cbn [str_all] in Hn. apply andb_true_iff in Hn as [Hb Hn]. cbn. rewrite Hb. f_equal. by apply IH.
Qed.
Lemma sql_ident_reads n r : ends_ident r = true -> ident (sql_ident n +:+ r) = Some (n, r).
Proof.
  intros Hr. pose proof (read_sql_ident n) as Hread. unfold sql_ident in *. destruct (is_plain_sql_ident n && negb (is_sql_reserved_word n)) eqn:E; [|by apply quote_ident_reads].
  assert (Hn : str_all ident_rest n = true /\ match n with "" => false | String b _ => negb (b =a? DQ) end = true).
  { apply andb_true_iff in E as [E _]. unfold is_plain_sql_ident in E. destruct n as [|b n]; [done|]. apply andb_true_iff in E as [Hb Hrest]. split.
    - cbn [str_all]. apply andb_true_iff. split; [revert Hb; clear; by_bytes b|]. eapply str_all_impl; [|exact Hrest]. clear. intros c. by_bytes c.
    - revert Hb. clear. by_bytes b. }
  destruct Hn as [Hn Hq]. unfold ident, ident_token. destruct n as [|b n]; [done|]. cbn [String.append]. apply negb_true_iff in Hq as ->. cbv zeta.
  change (String b (n +:+ r)) with (String b n +:+ r). destruct (bare_token _ r Hn Hr) as [-> ->]. cbn [mbind option_bind]. by rewrite Hread.
Qed.

(** ** Types and expressions *)

Lemma not_clause b s : (b =a? ";") = false -> (b =a? " ") = false -> clause (String b s) = false.
Proof.
  intros H1 H2. unfold clause. cbn [existsb starts_with]. replace (" " =a? b) with (b =a? " ") by apply Ascii.eqb_sym. replace (";" =a? b) with (b =a? ";") by apply Ascii.eqb_sym.
  by rewrite H1, H2.
Qed.
Lemma not_clause_space c s : (c =a? "N") || (c =a? "D") || (c =a? "U") = false -> clause (String " " (String c s)) = false.
Proof.
  rewrite !orb_false_iff. intros [[H1 H2] H3]. unfold clause. cbn [existsb starts_with]. replace ("N" =a? c) with (c =a? "N") by apply Ascii.eqb_sym.
  replace ("D" =a? c) with (c =a? "D") by apply Ascii.eqb_sym. replace ("U" =a? c) with (c =a? "U") by apply Ascii.eqb_sym. by rewrite H1, H2, H3.
Qed.
Lemma type_reads ty r : sql_type_ok ty = true -> clause r = true -> type_text (ty +:+ r) = (ty, r).
Proof.
  unfold sql_type_ok. rewrite !andb_true_iff. intros [[_ Hs] Hc] Hr. induction ty as [|b ty IH].
  - destruct r as [|c r]; [done|]. cbn [String.append type_text]. by rewrite Hr.
  - cbn [str_all calm_spaces] in *. apply andb_true_iff in Hs as [Hb%negb_true_iff Hs]. apply andb_true_iff in Hc as [Hsp Hc].
    cbn [String.append type_text]. rewrite IH by done. destruct (b =a? " ") eqn:E; [|by rewrite not_clause].
    apply Ascii.eqb_eq in E as ->. destruct ty as [|c ty]; [done|]. apply negb_true_iff in Hsp. cbn [String.append]. by rewrite not_clause_space.
Qed.

Lemma expression_more q e r t rest : expression q e = Some (t, rest) -> expression q (e +:+ r) = Some (t, rest +:+ r).
Proof.
  revert q t rest. induction e as [|b e IH]; intros q t rest H; [done|]. cbn [String.append expression] in *. destruct ((b =a? ";") && negb q); [by injection H as <- <-|].
  destruct (expression _ e) as [[t' rest']|] eqn:E; [|done]. injection H as <- <-. by rewrite (IH _ _ _ E).
Qed.
Lemma closed_reads e r : closed e = true -> expression false (e +:+ ";" +:+ r) = Some (e, ";" +:+ r).
Proof.
  unfold closed. destruct (expression false (e +:+ ";")) as [[e' s]|] eqn:E; [|done]. intros [->%String.eqb_eq ->%String.eqb_eq]%andb_true_iff.
  rewrite <-sapp_assoc. by apply (expression_more false _ r) in E.
Qed.
Lemma quoted_closed s r : expression true (replace_byte SQ (String SQ (String SQ "")) s +:+ String SQ r) = '(e, rest) ← expression false r; Some (replace_byte SQ (String SQ (String SQ "")) s +:+ String SQ e, rest).
Proof.
  assert (Hq : forall q t, expression q (String SQ t) = '(e, rest) ← expression (negb q) t; Some (String SQ e, rest)) by done.
  induction s as [|b s IH]; [apply Hq|]. cbn [replace_byte]. destruct (b =a? SQ) eqn:E.
  - cbn [String.append]. rewrite !Hq. cbn [negb]. rewrite IH. by destruct (expression false r) as [[? ?]|].
  - cbn [String.append expression]. rewrite andb_false_r, E, IH. by destruct (expression false r) as [[? ?]|].
Qed.
Lemma simple_closed e : str_all (fun b => negb (b =a? ";") && negb (b =a? SQ)) e = true -> closed e = true.
Proof.
  intros H. unfold closed. assert (expression false (e +:+ ";") = Some (e, ";")) as ->; [|by rewrite !String.eqb_refl].
  induction e as [|b e IH]; [done|]. cbn [str_all] in H. apply andb_true_iff in H as [[H1%negb_true_iff H2%negb_true_iff]%andb_true_iff H].
  cbn [String.append expression]. by rewrite H1, H2, IH.
Qed.
Lemma default_closed d : plain_default (Some d) = true -> closed (render_default_sql d) = true.
Proof.
  destruct d as [s|n|b| |s]; cbn [plain_default render_default_sql]; intros H.
  - pose proof (quoted_closed s ";") as E. change (String SQ (String SQ "")) with "''" in E. change (String SQ ";") with ("'" +:+ ";") in E.
    unfold closed, sql_string. rewrite !sapp_assoc. change (expression false ("'" +:+ ?t)) with ('(e, rest) ← expression true t; Some (String SQ e, rest)).
    rewrite E. cbn [expression mbind option_bind]. cbn. by rewrite !String.eqb_refl.
  - apply simple_closed. assert (Hd : forall k, str_all (fun b => negb (b =a? ";") && negb (b =a? SQ)) (show_N k) = true).
    { intros k. eapply str_all_impl; [|apply show_N_digits]. clear. intros b. by_bytes b. }
    unfold show_Z. destruct (n <? 0)%Z; [cbn; apply Hd|apply Hd].
  - by destruct b.
  - done.
  - by apply andb_true_iff in H as [_ ?].
Qed.

(** ** Statements *)

Lemma ended_reads c : (c =? "") || starts_with " --" c = true -> ended (";" +:+ c) = Some tt.
Proof. intros H. unfold ended. rewrite strip_prefix_app. cbn [mbind option_bind]. by rewrite H. Qed.

Lemma read_added a : plain_add a = true -> read_stmt (render_alter_add a) = Some (added_stmt a).
Proof.
  unfold plain_add. rewrite !andb_true_iff. intros [[_ Hty] Hd]. unfold render_alter_add, read_stmt. rewrite strip_prefix_app. cbn [mbind option_bind].
  rewrite quote_ident_reads by done. cbn [mbind option_bind]. rewrite strip_prefix_app. unfold read_add. rewrite sql_ident_reads by done. cbn [mbind option_bind].
  rewrite strip_prefix_app. cbn [mbind option_bind]. unfold added_stmt, column_def. cbn [d_not_null d_default].
  destruct (ca_default a) as [d|].
  - apply default_closed in Hd. destruct (not_null a); cbn [andb fmap option_fmap option_map]; rewrite type_reads by done.
    + rewrite !sapp_assoc. rewrite strip_prefix_app. rewrite strip_prefix_app. rewrite closed_reads by done. cbn [mbind option_bind]. by rewrite ended_reads.
    + rewrite !sapp_assoc. change ("" +:+ ?t) with t. change (strip_prefix " NOT NULL" (" DEFAULT " +:+ ?t)) with (@None string). cbv beta iota. rewrite strip_prefix_app, closed_reads by done. cbn [mbind option_bind]. by rewrite ended_reads.
  - change ("" +:+ ?t) with t. rewrite type_reads by done. destruct (not_null a); [|done].
    change (strip_prefix " NOT NULL" (";" +:+ ?t)) with (@None string). cbv beta iota. change (strip_prefix " DEFAULT " (";" +:+ ?t)) with (@None string). cbv beta iota.
    cbn [mbind option_bind]. by rewrite ended_reads.
Qed.
Lemma read_dropped t c : read_stmt (render_drop_column t c) = Some (DropColumn t c).
Proof.
  unfold render_drop_column, read_stmt. rewrite strip_prefix_app. cbn [mbind option_bind]. rewrite quote_ident_reads by done. cbn [mbind option_bind].
  change (strip_prefix " ADD COLUMN IF NOT EXISTS " (" DROP COLUMN IF EXISTS " +:+ ?r)) with (@None string). cbv iota. rewrite strip_prefix_app. unfold read_drop. by rewrite sql_ident_reads.
Qed.
Lemma read_retyped c : plain_change c = true -> read_stmt (render_alter_type_change c) = Some (retyped_stmt c).
Proof.
  unfold plain_change. rewrite !andb_true_iff. intros [_ Hty]. unfold render_alter_type_change, read_stmt. rewrite strip_prefix_app. cbn [mbind option_bind].
  rewrite quote_ident_reads by done. cbn [mbind option_bind]. change (strip_prefix " ADD COLUMN IF NOT EXISTS " (" ALTER COLUMN " +:+ ?r)) with (@None string).
  change (strip_prefix " DROP COLUMN IF EXISTS " (" ALTER COLUMN " +:+ ?r)) with (@None string). cbv iota. rewrite strip_prefix_app. cbn [mbind option_bind]. unfold read_retype.
  rewrite sql_ident_reads by done. cbn [mbind option_bind]. rewrite strip_prefix_app. cbn [mbind option_bind]. rewrite type_reads by done. rewrite strip_prefix_app. cbn [mbind option_bind].
  rewrite sql_ident_reads by done. cbn [mbind option_bind]. rewrite <-sapp_assoc, strip_prefix_app. cbn [mbind option_bind]. change ";" with (";" +:+ ""). rewrite ended_reads by done. cbn [mbind option_bind]. by rewrite String.eqb_refl.
Qed.
Lemma plain_inverse c : plain_change c = true -> plain_change (inverse c) = true.
Proof. unfold plain_change. cbn. rewrite !andb_true_iff. tauto. Qed.

(** ** Files *)

Lemma ident_plain n : plain_line n = true -> plain_line (sql_ident n) = true.
Proof. intros H. unfold sql_ident. destruct (_ && _); [done|by apply quote_plain]. Qed.

Lemma lower_ascii_plain s : plain_line s = true -> plain_line (lower_ascii s) = true.
Proof.
  unfold plain_line. induction s as [|b s IH]; [done|]. cbn [str_all lower_ascii]. intros [Hb Hs]%andb_true_iff. rewrite (IH Hs), andb_true_r.
  revert Hb. clear. by_bytes b.
Qed.

Lemma show_Z_plain n : plain_line (show_Z n) = true.
Proof.
  assert (H : forall k, plain_line (show_N k) = true).
  { intros k. eapply str_all_impl; [|apply show_N_digits]. intros b. by_bytes b. }
  unfold show_Z. destruct (n <? 0)%Z; [by rewrite plain_app, H|apply H].
Qed.

Lemma default_plain d : plain_default (Some d) = true -> plain_line (render_default_sql d) = true.
Proof.
  destruct d as [s|n|b| |s]; cbn; intros H; [|apply show_Z_plain|by destruct b|done|by apply andb_true_iff in H as [? _]].
  unfold sql_string. rewrite !plain_app. replace (plain_line (replace_byte SQ _ s)) with true; [done|]. symmetry.
  apply plain_line_iff in H as [H1 H2]. apply plain_line_iff. split; by apply replace_byte_keeps.
Qed.
Lemma type_plain ty : sql_type_ok ty = true -> plain_line ty = true.
Proof. unfold sql_type_ok. by intros [[? _]%andb_true_iff _]%andb_true_iff. Qed.

Lemma drop_plain t c : plain_line t = true -> plain_line c = true -> plain_line (render_drop_column t c) = true.
Proof. intros Ht Hc. unfold render_drop_column. by rewrite !plain_app, quote_plain, ident_plain. Qed.

Lemma add_plain a : plain_add a = true -> plain_line (render_alter_add a) = true.
Proof.
  unfold plain_add, render_alter_add. rewrite !andb_true_iff. intros [[[Ht Hc] Hy%type_plain] Hd].
  destruct (ca_default a) as [d|]; [apply default_plain in Hd|]; destruct (not_null a);
    rewrite !plain_app, ?quote_plain, ?ident_plain, ?Ht, ?Hc, ?Hy, ?Hd by done; done.
Qed.

Lemma change_plain c : plain_change c = true -> plain_line (render_alter_type_change c) = true.
Proof.
  unfold plain_change, render_alter_type_change. rewrite !andb_true_iff. intros [[[Ht Hc] _] Hn%type_plain].
  by rewrite !plain_app, quote_plain, ident_plain, lower_ascii_plain, Hn.
Qed.

Definition keep (l : string) : bool := nonempty l && negb (starts_with "--" l).

Lemma unlines_live ls : Forall (fun l => plain_line l = true) ls -> live (unlines ls) = List.filter keep ls.
Proof. intros H. unfold live. by rewrite str_lines_unlines. Qed.
Lemma mapM_parts {A B} (f : A -> option B) l1 l2 r1 r2 : mapM f l1 = Some r1 -> mapM f l2 = Some r2 -> mapM f (l1 ++ l2)%list = Some (r1 ++ r2)%list.
Proof. rewrite !mapM_Some. apply Forall2_app. Qed.

(** A section of a file: a title and the gated statements, one for each element. *)
Section section.
Context {A : Type} (g : A -> string) (f : A -> Stmt) (p ok : A -> bool) (column : A -> string) (l : list A) (sep : list string) (title : string).
Context (Hok : forallb ok l = true) (Hg : forall x, ok x = true -> plain_line (g x) = true /\ keep (g x) = true /\ read_stmt (g x) = Some (f x)).
Definition sect : list string := if nonempty_list l then (sep ++ title :: List.map (fun x => gate (p x) (g x)) (sort_by column l))%list else [].

Lemma sorted_ok x : In x (sort_by column l) -> ok x = true.
Proof. rewrite sort_by_In. intros Hx. rewrite forallb_forall in Hok. by apply Hok. Qed.
Lemma sect_reads : List.filter keep sep = [] -> keep title = false -> mapM read_stmt (List.filter keep sect) = Some (List.map f (List.filter p (sort_by column l))).
Proof.
  intros Hs Ht. unfold sect. destruct (nonempty_list l) eqn:E; [|by destruct l].
  rewrite List.filter_app, Hs. cbn [app List.filter]. rewrite Ht. pose proof sorted_ok as Hall. revert Hall. clear Hok. induction (sort_by column l) as [|x xs IH]; intros Hall; [done|].
  destruct (Hg x (Hall x (or_introl eq_refl))) as (_ & Hk & Hr). specialize (IH (fun y Hy => Hall y (or_intror Hy))). cbn [List.map List.filter]. unfold gate at 1. destruct (p x); [|exact IH].
  rewrite Hk. apply mapM_Some. constructor; [exact Hr|]. by apply mapM_Some.
Qed.
Lemma sect_plain : Forall (fun l => plain_line l = true) (sep ++ [title]) -> Forall (fun l => plain_line l = true) sect.
Proof.
  intros [Hs Ht]%Forall_app. unfold sect. destruct (nonempty_list l); [|done]. apply Forall_app. split; [done|]. apply Forall_cons in Ht as [Ht _].
  constructor; [done|]. apply Forall_forall. intros y (x & <- & Hx%sorted_ok)%list_elem_of_In%in_map_iff. apply Hg in Hx as (Hp & _). unfold gate. destruct (p x); [done|]. by rewrite plain_app, Hp.
Qed.
End section.

Lemma added_ok a : plain_add a = true -> plain_line (render_alter_add a) = true /\ keep (render_alter_add a) = true /\ read_stmt (render_alter_add a) = Some (added_stmt a).
Proof. intros H. split_and!; [by apply add_plain|done|by apply read_added]. Qed.
Lemma undo_add_ok a : plain_add a = true -> plain_line (render_alter_add_down a) = true /\ keep (render_alter_add_down a) = true /\ read_stmt (render_alter_add_down a) = Some (undo_add a).
Proof. intros H. unfold plain_add in H. rewrite !andb_true_iff in H. destruct H as [[[Ht Hc] _] _]. split_and!; [by apply drop_plain|done|apply read_dropped]. Qed.
Lemma dropped_ok x : plain_drop x = true -> plain_line (render_alter_drop x) = true /\ keep (render_alter_drop x) = true /\ read_stmt (render_alter_drop x) = Some (dropped_stmt x).
Proof. apply (undo_add_ok (recreated x)). Qed.
Lemma undo_drop_ok x : plain_drop x = true -> plain_line (render_alter_drop_down x) = true /\ keep (render_alter_drop_down x) = true /\ read_stmt (render_alter_drop_down x) = Some (undo_drop x).
Proof. apply added_ok. Qed.
Lemma retyped_ok c : plain_change c = true -> plain_line (render_alter_type_change c) = true /\ keep (render_alter_type_change c) = true /\ read_stmt (render_alter_type_change c) = Some (retyped_stmt c).
Proof. intros H. split_and!; [by apply change_plain|done|by apply read_retyped]. Qed.
Lemma undo_retype_ok c : plain_change c = true ->
  plain_line (render_alter_type_change_down c) = true /\ keep (render_alter_type_change_down c) = true /\ read_stmt (render_alter_type_change_down c) = Some (undo_retype c).
Proof. intros H. by apply (retyped_ok (inverse c)), plain_inverse. Qed.

Lemma filter_true {A} (l : list A) : List.filter (fun _ => true) l = l.
Proof. induction l as [|x l IH]; cbn; congruence. Qed.

(** The live statements of the two files. *)
Lemma up_reads feature resource label d allow : plain_diff d = true ->
  mapM read_stmt (live (render_alter_up feature resource label d allow)) = Some (up_stmts d allow).
Proof.
  unfold plain_diff. rewrite !andb_true_iff. intros [[Ha Hd] Hc]. unfold render_alter_up, up_stmts.
  set (warn := (_ || _)%bool). set (dc := (_ && _)%bool). set (un := existsb _ _).
  set (sepd := if nonempty_list (adds d) then [""] else []). set (sepc := if nonempty_list (adds d) || nonempty_list (drops d) then [""] else []).
  change (if nonempty_list (adds d) then "-- ADDS" :: List.map render_alter_add (sort_by ca_column (adds d)) else [])
    with (sect render_alter_add (fun _ => true) ca_column (adds d) [] "-- ADDS").
  change (if nonempty_list (drops d) then _ else []) with (sect render_alter_drop (fun _ => allow) cd_column (drops d) sepd "-- DROPS").
  change (if nonempty_list (type_changes d) then _ else []) with (sect render_alter_type_change cast_is_safe ct_column (type_changes d) sepc "-- TYPE CHANGES").
  rewrite unlines_live.
  - rewrite !List.filter_app. replace (List.filter keep (if warn then _ else [])) with (@nil string) by (by destruct warn, dc, un).
    change (List.filter keep [?a; ?b; ?c]) with (@nil string). change (List.filter keep [""]) with (@nil string). cbn [app].
    rewrite <-(filter_true (sort_by ca_column (adds d))). repeat apply mapM_parts.
    + apply (sect_reads _ added_stmt _ plain_add); [done|apply added_ok|done|done].
    + apply (sect_reads _ dropped_stmt _ plain_drop); [done|apply dropped_ok|by (unfold sepd; destruct (nonempty_list (adds d)))|done].
    + apply (sect_reads _ retyped_stmt _ plain_change); [done|apply retyped_ok|by (unfold sepc; destruct (nonempty_list (adds d)), (nonempty_list (drops d)))|done].
  - repeat apply Forall_app_2.
    + by repeat constructor; rewrite ?plain_app, ?comment_value_plain.
    + destruct warn, dc, un; by repeat constructor.
    + by repeat constructor.
    + apply (sect_plain _ added_stmt _ plain_add); [done|apply added_ok|by repeat constructor].
    + apply (sect_plain _ dropped_stmt _ plain_drop); [done|apply dropped_ok|unfold sepd; destruct (nonempty_list (adds d)); by repeat constructor].
    + apply (sect_plain _ retyped_stmt _ plain_change); [done|apply retyped_ok|unfold sepc; destruct (nonempty_list (adds d)), (nonempty_list (drops d)); by repeat constructor].
Qed.
Lemma down_reads feature resource label d allow : plain_diff d = true ->
  mapM read_stmt (live (render_alter_down feature resource label d allow)) = Some (down_stmts d allow).
Proof.
  unfold plain_diff. rewrite !andb_true_iff. intros [[Ha Hd] Hc]. unfold render_alter_down, down_stmts.
  set (sepd := if nonempty_list (type_changes d) then [""] else []). set (sepa := if nonempty_list (type_changes d) || nonempty_list (drops d) then [""] else []).
  change (if nonempty_list (type_changes d) then "-- TYPE CHANGES (inverse)" :: _ else []) with
    (sect render_alter_type_change_down cast_is_safe ct_column (type_changes d) [] "-- TYPE CHANGES (inverse)").
  change (if nonempty_list (drops d) then _ else []) with (sect render_alter_drop_down (fun _ => allow) cd_column (drops d) sepd "-- DROPS (inverse: re-add)").
  change (if nonempty_list (adds d) then _ else []) with (sect render_alter_add_down (fun _ => true) ca_column (adds d) sepa "-- ADDS (inverse: drop)").
  rewrite unlines_live.
  - rewrite !List.filter_app. change (List.filter keep [?a; ?b; ?c; ?e]) with (@nil string). cbn [app].
    rewrite <-(filter_true (sort_by ca_column (adds d))). repeat apply mapM_parts.
    + apply (sect_reads _ undo_retype _ plain_change); [done|apply undo_retype_ok|done|done].
    + apply (sect_reads _ undo_drop _ plain_drop); [done|apply undo_drop_ok|by (unfold sepd; destruct (nonempty_list _))|done].
    + apply (sect_reads _ undo_add _ plain_add); [done|apply undo_add_ok|by (unfold sepa; destruct (nonempty_list (type_changes d)), (nonempty_list (drops d)))|done].
  - repeat apply Forall_app_2.
    + by repeat constructor; rewrite ?plain_app, ?comment_value_plain.
    + apply (sect_plain _ undo_retype _ plain_change); [done|apply undo_retype_ok|by repeat constructor].
    + apply (sect_plain _ undo_drop _ plain_drop); [done|apply undo_drop_ok|unfold sepd; destruct (nonempty_list _); by repeat constructor].
    + apply (sect_plain _ undo_add _ plain_add); [done|apply undo_add_ok|unfold sepa; destruct (nonempty_list (type_changes d)), (nonempty_list (drops d)); by repeat constructor].
Qed.

(** ** Execution *)

(** Statements on distinct columns: each has its effect and no other. *)
Lemma exec_all_exact ss db : List.NoDup (List.map target ss) ->
  (forall s, In s ss -> is_Some (on_column s (db !! target s))) ->
  exists db', exec_all db ss = Some db' /\
    (forall s, In s ss -> on_column s (db !! target s) = Some (db' !! target s)) /\
    (forall k, ~ In k (List.map target ss) -> db' !! k = db !! k).
Proof.
  revert db. induction ss as [|s ss IH]; intros db Hn Hok; [by exists db|]. cbn [List.map] in Hn. apply List.NoDup_cons_iff in Hn as [Hs Hn].
  destruct (Hok s (or_introl eq_refl)) as [after Ea].
  set (db1 := match after with Some d => <[target s := d]> db | None => delete (target s) db end).
  assert (H1 : db1 !! target s = after) by (unfold db1; destruct after; by rewrite ?lookup_insert_eq, ?lookup_delete_eq).
  assert (H2 : forall k, k <> target s -> db1 !! k = db !! k).
  { intros k Hk. unfold db1. destruct after; by rewrite ?lookup_insert_ne, ?lookup_delete_ne by done. }
  assert (Ht : forall s', In s' ss -> target s' <> target s) by (intros s' Hs' E; apply Hs; rewrite <- E; by apply in_map).
  destruct (IH db1 Hn) as (db' & E & Hin & Hout).
  { intros s' Hs'. rewrite H2 by auto. apply Hok. by right. }
  exists db'. split_and!.
  - cbn [exec_all]. unfold exec. rewrite Ea. exact E.
  - intros s' [<-|Hs']; [by rewrite Hout, H1|]. rewrite <- Hin by done. by rewrite H2 by auto.
  - intros k Hk. cbn [List.map In] in Hk. rewrite Hout by tauto. apply H2. intros ->. tauto.
Qed.

Definition add_key (a : ColumnAdd) : string * string := (ca_table a, ca_column a).
Definition drop_key (x : ColumnDrop) : string * string := (cd_table x, cd_column x).
Definition change_key (c : TypeChange) : string * string := (ct_table c, ct_column c).
Definition previous_def (x : ColumnDrop) : ColumnDef :=
  {| d_type := previous_sql_type x; d_not_null := previous_not_null x; d_default := render_default_sql <$> previous_default x |}.
Definition with_type (ty : string) (d : ColumnDef) : ColumnDef := {| d_type := ty; d_not_null := d_not_null d; d_default := d_default d |}.

(** A difference of the database: every column once, the added ones not there,
    the dropped ones as they are said to be, the others with the type they are
    said to have. *)
Record differs (d : SchemaDiff) (db : database) : Prop := {
  distinct : List.NoDup (List.map add_key (adds d) ++ List.map drop_key (drops d) ++ List.map change_key (type_changes d));
  added : forall a, In a (adds d) -> db !! add_key a = None;
  dropped : forall x, In x (drops d) -> db !! drop_key x = Some (previous_def x);
  changed : forall c, In c (type_changes d) -> exists def, db !! change_key c = Some def /\ d_type def = ct_previous c
}.
(** A column that refused nulls and had no default comes back taking nulls. *)
Definition rebuildable (d : SchemaDiff) (allow : bool) : Prop :=
  allow = true -> forall x, In x (drops d) -> previous_not_null x = true -> previous_default x <> None.

Lemma sort_by_keys {A} (key : A -> string * string) (column : A -> string) l : List.map key (sort_by column l) ≡ₚ List.map key l.
Proof. change (List.map key) with (fmap (M := list) key). by rewrite sort_by_perm. Qed.

Lemma filter_keys {A} (key : A -> string * string) (p : A -> bool) (l : list A) : sublist (List.map key (List.filter p l)) (List.map key l).
Proof. induction l as [|x l IH]; [done|]. cbn. destruct (p x); by constructor. Qed.

Lemma up_keys d allow : exists drops_ changes_, List.map target (up_stmts d allow) =
    (List.map add_key (sort_by ca_column (adds d)) ++ drops_ ++ changes_)%list /\
  sublist drops_ (List.map drop_key (sort_by cd_column (drops d))) /\ sublist changes_ (List.map change_key (sort_by ct_column (type_changes d))).
Proof. unfold up_stmts. rewrite !map_app, !map_map. eexists _, _. split; [reflexivity|]. split; apply filter_keys. Qed.

Lemma stmts_distinct d allow : List.NoDup (List.map add_key (adds d) ++ List.map drop_key (drops d) ++ List.map change_key (type_changes d)) ->
  List.NoDup (List.map target (up_stmts d allow)) /\ List.NoDup (List.map target (down_stmts d allow)).
Proof.
  intros H. apply NoDup_LNoDup in H. assert (Hu : NoDup (List.map target (up_stmts d allow))).
  { destruct (up_keys d allow) as (ds & cs & -> & Hd & Hc). eapply sublist_NoDup; [|by apply sublist_app; [reflexivity|apply sublist_app]].
    by rewrite !sort_by_keys. }
  split; apply NoDup_LNoDup; [exact Hu|]. eapply NoDup_Permutation_proper; [|exact Hu].
  unfold up_stmts, down_stmts. rewrite !map_app, !map_map.
  assert (P : forall x y z : list (string * string), (z ++ y ++ x ≡ₚ x ++ y ++ z)%list).
  { intros x y z. rewrite (Permutation_app_comm z), <- app_assoc, (Permutation_app_comm y), <- app_assoc.
    apply Permutation_app_head, Permutation_app_comm. }
  apply P.
Qed.

Lemma live_In {A} (f : A -> Stmt) (p : A -> bool) (column : A -> string) l s :
  In s (List.map f (List.filter p (sort_by column l))) <-> exists x, s = f x /\ In x l /\ p x = true.
Proof.
  rewrite in_map_iff. split.
  - intros (x & <- & Hx). rewrite filter_In, sort_by_In in Hx. by exists x.
  - intros (x & -> & Hx). exists x. by rewrite filter_In, sort_by_In.
Qed.
Lemma up_In d allow s : In s (up_stmts d allow) <->
  (exists a, s = added_stmt a /\ In a (adds d)) \/ (exists x, s = dropped_stmt x /\ In x (drops d) /\ allow = true) \/
  (exists c, s = retyped_stmt c /\ In c (type_changes d) /\ cast_is_safe c = true).
Proof.
  unfold up_stmts. rewrite <-(filter_true (sort_by ca_column (adds d))), !in_app_iff, !live_In. naive_solver.
Qed.
Lemma down_In d allow s : In s (down_stmts d allow) <->
  (exists a, s = undo_add a /\ In a (adds d)) \/ (exists x, s = undo_drop x /\ In x (drops d) /\ allow = true) \/
  (exists c, s = undo_retype c /\ In c (type_changes d) /\ cast_is_safe c = true).
Proof.
  unfold down_stmts. rewrite <-(filter_true (sort_by ca_column (adds d))), !in_app_iff, !live_In. naive_solver.
Qed.

(** The two lists change the same columns. *)
Lemma same_targets d allow k : In k (List.map target (up_stmts d allow)) <-> In k (List.map target (down_stmts d allow)).
Proof.
  rewrite !in_map_iff. split; intros (s & <- & Hs).
  - apply up_In in Hs as [(a & -> & Ha)|[(x & -> & Hx)|(c & -> & Hc)]]; [exists (undo_add a)|exists (undo_drop x)|exists (undo_retype c)];
      (split; [done|apply down_In; eauto 6]).
  - apply down_In in Hs as [(a & -> & Ha)|[(x & -> & Hx)|(c & -> & Hc)]]; [exists (added_stmt a)|exists (dropped_stmt x)|exists (retyped_stmt c)];
      (split; [done|apply up_In; eauto 6]).
Qed.

Lemma differs_facts d db : differs d db ->
  (forall x c, In x (drops d) -> In c (type_changes d) -> drop_key x <> change_key c) /\
  (forall c c', In c (type_changes d) -> In c' (type_changes d) -> change_key c = change_key c' -> c = c').
Proof.
  intros [Hn _ _ _]. apply List.NoDup_app_remove_l in Hn. split.
  - intros x c Hx Hc E. apply NoDup_LNoDup, NoDup_app in Hn as (_ & H & _). apply (H (drop_key x)); apply list_elem_of_In.
    + by apply in_map.
    + rewrite E. by apply in_map.
  - intros c c' Hc Hc' E. apply List.NoDup_app_remove_l in Hn. by apply (NoDup_map_eq change_key (type_changes d)).
Qed.

(** The column of a statement that is not live is left alone. *)
Lemma gated_out d allow db : differs d db ->
  (forall x, In x (drops d) -> allow = false -> ~ In (drop_key x) (List.map target (up_stmts d allow))) /\
  (forall c, In c (type_changes d) -> cast_is_safe c = false -> ~ In (change_key c) (List.map target (up_stmts d allow))).
Proof.
  intros H. destruct (differs_facts d db H) as [Hdc Hcc]. destruct H as [_ Ha Hd Hc].
  split; [intros x Hx E|intros c0 Hx E]; rewrite in_map_iff; intros (s & Et & Hs); apply up_In in Hs as [(a & -> & Hi)|[(y & -> & Hi & Ea)|(c & -> & Hi & Hsafe)]].
  - change (add_key a = drop_key x) in Et. pose proof (Ha a Hi) as H0. rewrite Et, (Hd x Hx) in H0. done.
  - congruence.
  - symmetry in Et. by apply (Hdc x c Hx Hi) in Et.
  - change (add_key a = change_key c0) in Et. pose proof (Ha a Hi) as H0. destruct (Hc c0 Hx) as (def & Hdef & _). rewrite Et, Hdef in H0. done.
  - by apply (Hdc y c0 Hi Hx) in Et.
  - apply (Hcc c c0 Hi Hx) in Et as ->. congruence.
Qed.

(** What a migration makes of the columns of its difference. *)
Record migrated (d : SchemaDiff) (allow : bool) (db db' : database) : Prop := {
  m_added : forall a, In a (adds d) -> db' !! add_key a = Some (column_def a);
  m_dropped : forall x, In x (drops d) -> db' !! drop_key x = if allow then None else Some (previous_def x);
  m_changed : forall c, In c (type_changes d) -> exists def, db !! change_key c = Some def /\
    db' !! change_key c = Some (if is_safe_cast (ct_previous c) (new_sql_type c) then with_type (new_sql_type c) def else def);
  m_other : forall k, ~ In k (List.map add_key (adds d) ++ List.map drop_key (drops d) ++ List.map change_key (type_changes d)) -> db' !! k = db !! k
}.

Lemma up_exact d allow db : differs d db -> exists db',
  exec_all db (up_stmts d allow) = Some db' /\ migrated d allow db db' /\ (forall k, ~ In k (List.map target (up_stmts d allow)) -> db' !! k = db !! k).
Proof.
  intros H. destruct (gated_out d allow db H) as [Gd Gc]. destruct H as [Hn Ha Hd Hc]. destruct (stmts_distinct d allow Hn) as [Nu _].
  destruct (exec_all_exact (up_stmts d allow) db Nu) as (db' & Eu & Hin & Hout).
  { intros s [(a & -> & Hi)|[(x & -> & Hi)|(c & -> & Hi & _)]]%up_In; [|done|].
    - change (is_Some (on_column (added_stmt a) (db !! add_key a))). by rewrite Ha.
    - change (is_Some (on_column (retyped_stmt c) (db !! change_key c))). by destruct (Hc c Hi) as (def & -> & _). }
  exists db'. split; [exact Eu|]. split; [|exact Hout]. constructor.
  - intros a Hi. assert (Hs : on_column (added_stmt a) (db !! add_key a) = Some (db' !! add_key a)) by (apply (Hin (added_stmt a)), up_In; eauto).
    rewrite Ha in Hs by done. by injection Hs.
  - intros x Hi. destruct allow eqn:E; [|by rewrite Hout, Hd by auto].
    assert (Hs : on_column (dropped_stmt x) (db !! drop_key x) = Some (db' !! drop_key x)) by (apply (Hin (dropped_stmt x)), up_In; eauto 6).
    by injection Hs.
  - intros c Hi. destruct (Hc c Hi) as (def & Hdef & _). exists def. split; [done|]. change (is_safe_cast _ _) with (cast_is_safe c). destruct (cast_is_safe c) eqn:E; [|by rewrite Hout by auto].
    assert (Hs : on_column (retyped_stmt c) (db !! change_key c) = Some (db' !! change_key c)) by (apply (Hin (retyped_stmt c)), up_In; eauto 6).
    rewrite Hdef in Hs. by injection Hs.
  - intros k Hk. apply Hout. intros (s & <- & Hs)%in_map_iff. apply Hk. rewrite !in_app_iff.
    apply up_In in Hs as [(a & -> & Hi)|[(x & -> & Hi & _)|(c & -> & Hi & _)]]; [left|right; left|right; right]; [by apply (in_map add_key)|by apply (in_map drop_key)|by apply (in_map change_key)].
Qed.

Lemma rebuilt x : (previous_not_null x = true -> previous_default x <> None) -> column_def (recreated x) = previous_def x.
Proof. intros H. unfold column_def, previous_def. cbn. f_equal. destruct (previous_not_null x), (previous_default x); try done. by destruct (H eq_refl). Qed.

Lemma rollback_exact d allow db db' : differs d db -> rebuildable d allow -> exec_all db (up_stmts d allow) = Some db' -> exec_all db' (down_stmts d allow) = Some db.
Proof.
  intros H Hreb Eu. destruct (up_exact d allow db H) as (db1 & E1 & [HA HD HC _] & HO). rewrite Eu in E1. injection E1 as <-.
  destruct H as [Hn Ha Hd Hc]. destruct (stmts_distinct d allow Hn) as [_ Nd].
  destruct (exec_all_exact (down_stmts d allow) db' Nd) as (db2 & Ed & Hin & Hout).
  { intros s [(a & -> & Hi)|[(x & -> & Hi)|(c & -> & Hi & _)]]%down_In; [done|..].
    - cbn. by destruct (db' !! _).
    - change (is_Some (on_column (undo_retype c) (db' !! change_key c))). by destruct (HC c Hi) as (def & _ & ->). }
  rewrite Ed. f_equal. apply map_eq. intros k. destruct (in_dec (fun x y => decide (x = y)) k (List.map target (down_stmts d allow))) as [Hk|Hk].
  - apply in_map_iff in Hk as (s & <- & Hs). pose proof (Hin s Hs) as E.
    apply down_In in Hs as [(a & -> & Hi)|[(x & -> & Hi & ->)|(c & -> & Hi & Hsafe)]].
    + change (Some None = Some (db2 !! add_key a)) in E. change (db2 !! add_key a = db !! add_key a). rewrite Ha by done. by injection E as <-.
    + change (on_column (undo_drop x) (db' !! drop_key x) = Some (db2 !! drop_key x)) in E.
      change (db2 !! drop_key x = db !! drop_key x). rewrite HD in E by done. rewrite Hd, <-(rebuilt x (Hreb eq_refl x Hi)) by done. by injection E as <-.
    + change (on_column (undo_retype c) (db' !! change_key c) = Some (db2 !! change_key c)) in E.
      change (db2 !! change_key c = db !! change_key c). destruct (HC c Hi) as (def & Hdef & Hnow). change (is_safe_cast _ _) with (cast_is_safe c) in Hnow.
      rewrite Hnow, Hsafe in E. destruct (Hc c Hi) as (def' & Hdef' & Hty). rewrite Hdef in Hdef'. injection Hdef' as <-. rewrite Hdef. injection E as <-. destruct def. cbn in *. by subst.
  - rewrite Hout by done. apply HO. by rewrite same_targets.
Qed.

(** * Properties *)

(** An [ALTER] migration is written exactly when something changed; its live
    lines are statements of SQL that drop no column without [allow_drops] and run
    no cast outside the catalog. *)
Theorem alter_live_exact sequence feature resource label d allow : plain_diff d = true ->
  (emit_alter_migration_file sequence feature resource label d allow = None <-> d = {| adds := []; drops := []; type_changes := [] |}) /\
  forall up down, emit_alter_migration_file sequence feature resource label d allow = Some (up, down) ->
    exists ss, mapM read_stmt (live (g_contents up)) = Some ss /\ (forall t c, In (DropColumn t c) ss -> allow = true) /\
      (forall t c ty, In (Retype t c ty) ss -> exists x, In x (type_changes d) /\ new_sql_type x = ty /\ is_safe_cast (ct_previous x) ty = true).
Proof.
  intros Hp. unfold emit_alter_migration_file. destruct d as [a x c] eqn:Ed. rewrite <- Ed in Hp |- *. split.
  - rewrite Ed. unfold is_empty. cbn [adds drops type_changes]. split; [by destruct a, x, c|by intros [= -> -> ->]].
  - intros up down. destruct (is_empty d); [done|]. intros [= <- _]. cbn [g_contents]. exists (up_stmts d allow). split_and!.
    + by apply up_reads.
    + intros t k [(? & ? & _)|[(? & _ & _ & ->)|(? & ? & _)]]%up_In; done.
    + intros t k ty [(? & ? & _)|[(? & ? & _)|(k' & [= -> -> ->] & Hk & Hs)]]%up_In; [done..|]. by exists k'.
Qed.


(** A dropped column that refused nulls and had no default comes back taking
    them: the rollback leaves out its [NOT NULL]. *)
Theorem rollback_loses_not_null :
  let d := {| adds := []; type_changes := [];
              drops := [{| cd_table := "invoice"; cd_column := "number"; previous_sql_type := "TEXT"; previous_not_null := true; previous_default := None |}] |} in
  let db : database := {[("invoice", "number") := {| d_type := "TEXT"; d_not_null := true; d_default := None |}]} in
  match emit_alter_migration_file 4 "billing" "Invoice" "app.lzi" d true with
  | Some (up, down) =>
    db' ← run_file (g_contents up) db; run_file (g_contents down) db'
  | None => None
  end = Some {[("invoice", "number") := {| d_type := "TEXT"; d_not_null := false; d_default := None |}]}.
Proof. vm_compute. reflexivity. Qed.

(** ** At a concrete input *)

Definition sample_diff : SchemaDiff :=
  {| adds := [{| ca_table := "invoice"; ca_column := "note"; ca_type := "TEXT"; not_null := true; ca_default := Some (ADString "it's; ok") |};
              {| ca_table := "invoice"; ca_column := "due"; ca_type := "DATE"; not_null := true; ca_default := None |}];
     drops := [{| cd_table := "invoice"; cd_column := "legacy"; previous_sql_type := "BIGINT"; previous_not_null := false; previous_default := None |}];
     type_changes := [{| ct_table := "invoice"; ct_column := "meta"; ct_previous := "TEXT"; new_sql_type := "JSONB" |};
                      {| ct_table := "invoice"; ct_column := "total"; ct_previous := "TEXT"; new_sql_type := "BIGINT" |}] |}.
Definition def_of (ty : string) : ColumnDef := {| d_type := ty; d_not_null := false; d_default := None |}.
Definition sample_db : database :=
  {[("invoice", "legacy") := def_of "BIGINT"; ("invoice", "meta") := def_of "TEXT"; ("invoice", "total") := def_of "TEXT"; ("invoice", "id") := def_of "BIGSERIAL"]}.

