(* ===== verification/Casing.v ===== *)
(** Go identifier casing ([lazuli_codegen_go/src/emitter/casing.rs]).

    Every test the splitter makes is an ASCII one, so it runs on bytes; the
    upper case of a first character outside ASCII is the parameter
    [to_uppercase]. *)
From S2P Require Import Prelude Str Fmt Helpers.

(** * Definitions *)

Definition gen_package_name (feature : string) : string := feature +:+ "gen".

Definition is_acronym (word : string) : bool :=
  existsb (String.eqb (lower_ascii word)) ["id"; "url"; "uri"; "api"; "html"; "json"; "sql"; "ttl"; "uuid"].

(** [flush] *)
Definition flush (current : string) (words : list string) : list string := match current with "" => words | _ => current :: words end.

(** The loop of [split_words]; [prev] is the character before. The words come
    out in order. *)
Fixpoint split_go (prev : option byte) (current s : string) : list string :=
  match s with
  | "" => flush current []
  | String ch rest =>
    if (ch =a? "_") || (ch =a? "-") then flush current (split_go (Some ch) "" rest)
    else
      let pushed := split_go (Some ch) (current +:+ String ch "") rest in
      if is_ascii_uppercase ch then
        let prev_lower := match prev with Some p => is_ascii_lowercase p || is_ascii_digit p | None => false end in
        let next_lower := match rest with String n _ => is_ascii_lowercase n | "" => false end in
        if nonempty current && (prev_lower || next_lower) then
          if negb next_lower then pushed else flush current (split_go (Some ch) (String ch "") rest)
        else pushed
      else pushed
  end.
Definition split_words (s : string) : list string := split_go None "" s.

Section Unicode.
(** [char::to_uppercase] of one encoded character outside ASCII. *)
Variable to_uppercase : string -> string.

(** The first character raised, the others as they are. *)
Definition raise_first (word : string) : string :=
  match chars word with
  | [] => ""
  | first :: rest =>
    match first with
    | String b "" => String (to_ascii_uppercase b) ""
    | _ => to_uppercase first
    end +:+ join "" rest
  end.

Definition cased (word : string) : string := if is_acronym word then upper_ascii word else raise_first word.

(** Its [continue] for an empty word never happens. *)
Definition pascal_case (s : string) : string :=
  join "" (List.map (fun word => if word =? "" then "" else cased word) (split_words s)).

Definition lower_camel (s : string) : string :=
  match split_words s with
  | [] => ""
  | word :: words => lower_ascii word +:+ join "" (List.map cased words)
  end.
End Unicode.

(** * Lemmas *)

Lemma flush_concat current l : join "" (flush current l) = current +:+ join "" l.
Proof. destruct current as [|b c]; [done|]. cbn [flush]. destruct l; [by rewrite sapp_nil_r|by rewrite join_cons]. Qed.

Definition is_sep (b : byte) : bool := (b =a? "_") || (b =a? "-").
Fixpoint without_seps (s : string) : string := match s with "" => "" | String b s => if is_sep b then without_seps s else String b (without_seps s) end.

Lemma split_go_concat prev current s : join "" (split_go prev current s) = current +:+ without_seps s.
Proof.
  revert prev current. induction s as [|b s IH]; intros prev current; [cbn [split_go]; by rewrite flush_concat|]. cbn [split_go without_seps]. fold (is_sep b).
  destruct (is_sep b); [by rewrite flush_concat, IH|].
  assert (P : join "" (split_go (Some b) (current +:+ String b "") s) = current +:+ String b (without_seps s)) by (by rewrite IH, sapp_assoc).
  destruct (is_ascii_uppercase b); [|done]. destruct (nonempty current && _); [|done]. destruct (negb _); [done|].
  by rewrite flush_concat, IH.
Qed.

Definition word_ok (w : string) : bool := nonempty w && str_all (fun b => negb (is_sep b)) w.

Lemma flush_words current l : str_all (fun b => negb (is_sep b)) current = true -> Forall (fun w => word_ok w = true) l ->
  Forall (fun w => word_ok w = true) (flush current l).
Proof. intros Hc Hl. destruct current as [|b c]; [done|]. constructor; [|done]. unfold word_ok. by rewrite Hc. Qed.

Lemma split_go_words prev current s : str_all (fun b => negb (is_sep b)) current = true ->
  Forall (fun w => word_ok w = true) (split_go prev current s).
Proof.
  revert prev current. induction s as [|b s IH]; intros prev current Hc; [apply flush_words; [done|constructor]|].
  cbn [split_go]. fold (is_sep b). destruct (is_sep b) eqn:Eb; [apply flush_words; [done|by apply IH]|].
  assert (P : Forall (fun w => word_ok w = true) (split_go (Some b) (current +:+ String b "") s)).
  { apply IH. rewrite str_all_app, Hc. cbn. by rewrite Eb. }
  destruct (is_ascii_uppercase b); [|done]. destruct (nonempty current && _); [|done]. destruct (negb _); [done|].
  apply flush_words; [done|]. apply IH. cbn. by rewrite Eb.
Qed.

(** ** Snake case *)

(** A segment of a snake-case name. *)
Definition segment (w : string) : bool :=
  match w with String b w => is_ascii_lowercase b && str_all (fun c => is_ascii_lowercase c || is_ascii_digit c) w | "" => false end.
Definition small (w : string) : bool := str_all (fun c => is_ascii_lowercase c || is_ascii_digit c) w.

Lemma small_go prev current w rest : small w = true -> exists p, split_go prev current (w +:+ rest) = split_go p (current +:+ w) rest.
Proof.
  revert prev current. induction w as [|b w IH]; intros prev current; [by exists prev; rewrite sapp_nil_r|].
  unfold small. cbn [str_all]. intros [Hb Hw]%andb_true_iff. cbn [String.append split_go].
  assert (E1 : is_ascii_uppercase b = false) by (revert Hb; clear; by_bytes b). assert (E2 : is_sep b = false) by (revert Hb; clear; by_bytes b).
  fold (is_sep b). rewrite E1, E2. destruct (IH (Some b) (current +:+ String b "") Hw) as [p ->]. exists p. by rewrite sapp_assoc.
Qed.

Lemma segment_small w : segment w = true -> small w = true /\ w <> "".
Proof. destruct w as [|b w]; [done|]. cbn [segment]. unfold small. cbn [str_all]. intros [-> ->]%andb_true_iff. done. Qed.

Lemma split_snake ws : Forall (fun w => segment w = true) ws -> split_words (join "_" ws) = ws.
Proof.
  intros H. unfold split_words. generalize (@None byte). induction H as [|w ws Hw Hws IH]; intros prev; [done|].
  destruct (segment_small w Hw) as [Hs Hne]. destruct ws as [|w' ws].
  - cbn [join]. rewrite <- (sapp_nil_r w) at 1. destruct (small_go prev "" w "" Hs) as [p ->]. cbn [String.append split_go]. by destruct w.
  - rewrite join_cons by done. destruct (small_go prev "" w ("_" +:+ join "_" (w' :: ws)) Hs) as [p ->]. cbn [String.append].
    cbn [split_go]. change (("_" =a? "_") || ("_" =a? "-")) with true. cbn match. rewrite IH. by destruct w.
Qed.

(** ASCII words are raised by the ASCII table. *)
Lemma chars_of_ascii s : is_ascii s = true -> chars s = List.map (fun b => String b "") (list_ascii_of_string s) /\ join "" (chars s) = s.
Proof.
  intros H. assert (E : chars_go s = ("", chars s) /\ chars s = List.map (fun b => String b "") (list_ascii_of_string s)).
  { unfold chars. induction s as [|b s IH]; [done|]. unfold is_ascii in *. cbn [str_all] in H. apply andb_true_iff in H as [Hb Hs].
    destruct (IH Hs) as [E1 E2]. cbn [chars_go list_ascii_of_string List.map]. rewrite E1.
    assert (Hc : is_cont b = false) by (revert Hb; clear; by_bytes b). rewrite Hc. cbn. split; [done|by rewrite E2]. }
  destruct E as [_ E]. split; [done|]. rewrite E. clear. induction s as [|b s IH]; [done|]. cbn [list_ascii_of_string List.map].
  destruct (List.map _ (list_ascii_of_string s)) eqn:El; [by destruct s|]. rewrite join_cons by done. cbn [String.append]. by rewrite IH.
Qed.

Lemma raise_ascii up w : is_ascii w = true -> raise_first up w = capitalize w.
Proof.
  intros H. destruct (chars_of_ascii w H) as [E _]. unfold raise_first. rewrite E. destruct w as [|b r]; [done|].
  cbn [list_ascii_of_string List.map]. unfold is_ascii in H. cbn [str_all] in H. apply andb_true_iff in H as [_ H].
  destruct (chars_of_ascii r H) as [E2 Ej]. rewrite <- E2, Ej. done.
Qed.

Lemma segment_ascii w : snake_segment w = true -> segment w = true /\ is_ascii w = true.
Proof.
  destruct w as [|b w]; [done|]. cbn [snake_segment segment]. unfold is_ascii. cbn [str_all]. rewrite !andb_true_iff. intros [[Hb _] Hw].
  split_and!; [done|exact Hw|revert Hb; clear; by_bytes b|]. eapply str_all_impl; [|exact Hw]. intros c. by_bytes c.
Qed.

(** A segment as it is written in Go. *)
Definition go_word (w : string) : string := if is_acronym w then upper_ascii w else capitalize w.

Lemma cased_segment up w : snake_segment w = true -> cased up w = go_word w.
Proof. intros H. unfold cased, go_word. destruct (segment_ascii w H) as [_ Ha]. by rewrite raise_ascii. Qed.

Lemma pascal_case_segments up ws : Forall (fun w => snake_segment w = true) ws ->
  pascal_case up (join "_" ws) = join "" (List.map go_word ws).
Proof.
  intros H. unfold pascal_case. rewrite split_snake by (eapply Forall_impl; [exact H|]; intros w Hw; by apply segment_ascii).
  f_equal. apply map_ext_in. intros w Hw. rewrite List.Forall_forall in H. pose proof (H w Hw) as Hs.
  rewrite cased_segment by done. by destruct w.
Qed.

(** Reading the words of a Go name back: an acronym ends in upper case, so the
    next word is seen only when it is not an acronym and goes on in lower case. *)
Fixpoint readable (ws : list string) : bool :=
  match ws with
  | w :: (w' :: _) as rest =>
    (negb (is_acronym w) || negb (is_acronym w') && match w' with String _ (String c _) => is_ascii_lowercase c | _ => false end) && readable rest
  | _ => true
  end.

Lemma acronym_letters w : is_acronym w = true -> snake_segment w = true -> str_all is_ascii_lowercase w = true.
Proof.
  unfold is_acronym. intros H Hs. apply existsb_exists in H as (a & Ha & E). apply String.eqb_eq in E.
  assert (El : lower_ascii w = w).
  { apply segment_ascii in Hs as [Hs _]. apply segment_small in Hs as [Hs _]. clear - Hs. unfold small in Hs. induction w as [|b w IH]; [done|].
    cbn [str_all lower_ascii] in *. apply andb_true_iff in Hs as [Hb Hw]. rewrite (IH Hw). f_equal. revert Hb. clear. by_bytes b. }
  rewrite El in E. rewrite E. cbn in Ha. intuition (subst; done).
Qed.

(** A run of capitals is one word of the snake form. *)
Lemma pascal_go_run u t p : is_ascii_uppercase p = true -> str_all is_ascii_lowercase u = true ->
  match t with String n _ => is_ascii_lowercase n | "" => false end = false -> u <> "" ->
  exists q, is_ascii_uppercase q = true /\ pascal_go (Some p) true (upper_ascii u +:+ t) = u +:+ pascal_go (Some q) true t.
Proof.
  intros Hp Hu Ht Hne. revert p Hp. induction u as [|b u IH]; intros p Hp; [done|]. cbn [str_all] in Hu. apply andb_true_iff in Hu as [Hb Hu].
  destruct (upper_facts b Hb) as (H1 & H2 & _). cbn [upper_ascii String.append pascal_go]. rewrite H1, H2, Hp.
  assert (Hn : match upper_ascii u +:+ t with String n _ => is_ascii_lowercase n | "" => false end = false).
  { destruct u as [|c u]; [exact Ht|]. cbn [str_all] in Hu. apply andb_true_iff in Hu as [Hc _]. cbn. revert Hc. clear. by_bytes c. }
  rewrite Hn. assert (Hq : is_ascii_lowercase p || is_ascii_digit p || (true && false) = false) by (revert Hp; clear; by_bytes p).
  rewrite Hq. cbn [andb String.append]. destruct u as [|c u]; [by exists (to_ascii_uppercase b)|].
  destruct (IH Hu ltac:(done) (to_ascii_uppercase b) H1) as (q & Hq' & ->). by exists q.
Qed.

(** One word of a Go name, after the byte [p]. *)
Lemma go_word_go w t p : snake_segment w = true -> match t with String n _ => is_ascii_lowercase n | "" => false end = false ->
  exists q, (if is_acronym w then is_ascii_uppercase q else lower_digit q) = true /\
    forall started, let sep := started && (lower_digit p || is_ascii_uppercase p && negb (is_acronym w) &&
        match w with String _ (String c _) => is_ascii_lowercase c | _ => false end) in
      pascal_go (Some p) started (go_word w +:+ t) = (if sep then "_" else "") +:+ w +:+ pascal_go (Some q) true t.
Proof.
  intros Hs Ht. destruct w as [|a r]; [done|]. pose proof Hs as Hs'. cbn [snake_segment] in Hs'. rewrite !andb_true_iff in Hs'.
  destruct Hs' as [[Ha Hr] Hl]. destruct (upper_facts a Ha) as (H1 & H2 & _). unfold go_word. destruct (is_acronym (String a r)) eqn:E.
  - pose proof (acronym_letters _ E Hs) as Hlet. cbn [str_all] in Hlet. apply andb_true_iff in Hlet as [_ Hlet].
    destruct (pascal_go_run r t (to_ascii_uppercase a) H1 Hlet Ht) as (q & Hq & Eq); [by destruct r|]. exists q. split; [done|]. intros started.
    cbn [upper_ascii String.append pascal_go]. rewrite H1, H2, Eq.
    assert (Hn : match upper_ascii r +:+ t with String n _ => is_ascii_lowercase n | "" => false end = false).
    { destruct r as [|c r]; [done|]. cbn [str_all] in Hlet. apply andb_true_iff in Hlet as [Hc _]. cbn. revert Hc. clear. by_bytes c. }
    rewrite Hn. cbn [negb]. rewrite !andb_false_r, andb_false_l, !orb_false_r. done.
  - destruct (pascal_go_body r t (Some (to_ascii_uppercase a)) Hl) as (q & Hq & Eq); [by destruct r|]. exists q. split; [done|]. intros started.
    cbn [capitalize String.append pascal_go]. rewrite H1, H2, Eq. destruct r as [|c r]; [done|]. cbn [String.append negb]. rewrite andb_true_r.
    unfold lower_digit. by rewrite andb_comm, andb_comm.
Qed.

Lemma go_words_head ws : Forall (fun w => snake_segment w = true) ws ->
  match join "" (List.map go_word ws) with String n _ => is_ascii_lowercase n | "" => false end = false.
Proof.
  destruct 1 as [|w ws Hw _]; [done|]. destruct w as [|a r]; [done|]. cbn [snake_segment] in Hw. rewrite !andb_true_iff in Hw.
  destruct Hw as [[Ha _] _]. assert (Hu : is_ascii_lowercase (to_ascii_uppercase a) = false) by (revert Ha; clear; by_bytes a).
  cbn [List.map]. unfold go_word at 1. destruct ws as [|w' ws].
  - cbn [List.map join]. by destruct (is_acronym _).
  - rewrite join_cons by done. by destruct (is_acronym _).
Qed.

Lemma join_empty_cons x l : join "" (x :: l) = x +:+ join "" l.
Proof. destruct l; [by rewrite sapp_nil_r|by rewrite join_cons]. Qed.

Lemma go_words_go ws : Forall (fun w => snake_segment w = true) ws -> readable ws = true -> forall p started w ws', ws = w :: ws' ->
  let sep := started && (lower_digit p || is_ascii_uppercase p && negb (is_acronym w) &&
        match w with String _ (String c _) => is_ascii_lowercase c | _ => false end) in
  pascal_go (Some p) started (join "" (List.map go_word ws)) = (if sep then "_" else "") +:+ join "_" ws.
Proof.
  induction 1 as [|w0 ws0 Hw Hws IH]; intros Hr p started w ws' [= <- <-]. cbn [List.map]. rewrite join_empty_cons.
  destruct (go_word_go w0 (join "" (List.map go_word ws0)) p Hw (go_words_head ws0 Hws)) as (q & Hq & E). cbn zeta in E. rewrite E.
  destruct ws0 as [|w1 ws1]; [cbn; by rewrite sapp_nil_r|]. cbn [readable] in Hr. apply andb_true_iff in Hr as [Hrw Hr].
  rewrite (IH Hr q true w1 ws1 eq_refl), (join_cons "_" w0) by done. f_equal. f_equal.
  replace (true && _) with true; [done|]. symmetry. cbn [andb]. destruct (is_acronym w0); [|by rewrite Hq].
  cbn [negb orb] in Hrw. rewrite Hq. apply andb_true_iff in Hrw as [-> Hc]. cbn [andb]. rewrite Hc. by rewrite orb_true_r.
Qed.

Lemma pascal_go_first s p : pascal_go None false s = pascal_go (Some p) false s.
Proof. destruct s as [|c s]; [done|]. cbn [pascal_go andb]. done. Qed.

(** * Properties *)

(** Splitting a name into words loses only its separators, and every word has a
    character and no separator. *)
Theorem split_words_exact s : join "" (split_words s) = without_seps s /\ Forall (fun w => word_ok w = true) (split_words s).
Proof. split; [apply split_go_concat|by apply split_go_words]. Qed.

(** A snake-case name becomes the Go name of its words, which the analyzer reads
    back as the snake-case name it was. *)
Theorem pascal_case_roundtrip up ws : Forall (fun w => snake_segment w = true) ws -> readable ws = true ->
  pascal_case up (join "_" ws) = join "" (List.map go_word ws) /\ pascal_to_snake (pascal_case up (join "_" ws)) = join "_" ws.
Proof.
  intros Hw Hr. rewrite pascal_case_segments by done. split; [done|]. unfold pascal_to_snake. destruct ws as [|w ws]; [done|].
  rewrite (pascal_go_first _ "0"), (go_words_go _ Hw Hr "0" false w ws eq_refl). done.
Qed.

Lemma pascal_case_roundtrip_witness :
  let ws := ["user"; "id"; "lookup"; "table2"] in
  readable ws = true /\ pascal_case (fun c => c) (join "_" ws) = "UserIDLookupTable2" /\ pascal_to_snake "UserIDLookupTable2" = "user_id_lookup_table2".
Proof.
  intros ws. assert (Hw : Forall (fun w => snake_segment w = true) ws) by (repeat constructor).
  assert (Hr : readable ws = true) by reflexivity. destruct (pascal_case_roundtrip (fun c => c) ws Hw Hr) as [H1 H2].
  split; [exact Hr|]. rewrite H1 in H2. split; [rewrite H1; reflexivity|exact H2].
Defined.

(** The two spellings of a name do not meet: the Pascal form of [user_id] is one
    word to [split_words]. *)
Theorem lower_camel_spellings up : pascal_case up "user_id" = "UserID" /\ lower_camel up "user_id" = "userID" /\ lower_camel up "UserID" = "userid".
Proof. done. Qed.
