(* ===== verification/ReferentialGuard.v ===== *)
(** Referential guards: the derived scope flags
    ([lazuli_analyzer/src/resource_p1.rs], [lib.rs]) and the emitted Go functions
    ([lazuli_codegen_go/src/emitter/referential_guard.rs], with the printer and
    the pattern header it uses). *)
From stdpp Require Import gmap.
From S2P Require Import Prelude Str BTree Fmt Lines Helpers Ir Expr Catalog SqlName SqlColumn CreateTable SchemaDiff SchemaRead Casing.

(** * Scopes *)

Definition has_tenant_axis (t : option Tenancy) : bool := match t with Some (Org | Team | Custom _) => true | _ => false end.
Definition restrict_on_delete_scope_entry (res : Resource) : string * (bool * bool) :=
  (pascal_to_snake (r_name res), (has_tenant_axis (tenancy res), soft_delete res)).

(** The [HashMap] the entries are collected into: the last of a key stays. *)
Abbreviation scopes := (gmap string (bool * bool)).
Definition collect_scopes (entries : list (string * (bool * bool))) : scopes := fold_left (fun m e => <[e.1 := e.2]> m) entries ∅.

Definition with_scope (g : RestrictOnDelete) (flags : bool * bool) : RestrictOnDelete :=
  {| relation := relation g; fk := fk g; extra_where := extra_where g; tenant_scoped := flags.1; g_soft_delete := flags.2;
     g_error_code := g_error_code g |}.
Definition with_guards (r : Resource) (gs : list RestrictOnDelete) : Resource :=
  {| r_name := r_name r; tenancy := tenancy r; soft_delete := soft_delete r; soft_delete_actor := soft_delete_actor r;
     timestamps := timestamps r; fields := fields r; constraints := constraints r; composite_key := composite_key r;
     polymorphic_refs := polymorphic_refs r; restrict_on_delete := gs |}.
Definition with_resources (f : Feature) (rs : list Resource) : Feature :=
  {| f_name := f_name f; defaults := defaults f; enums := enums f; resources := rs; records := records f; auth := auth f |}.

Definition apply_scope (s : scopes) (guard : RestrictOnDelete) : RestrictOnDelete :=
  match s !! pascal_to_snake (relation guard) with Some flags => with_scope guard flags | None => guard end.
Definition apply_restrict_on_delete_scopes (s : scopes) (rs : list Resource) : list Resource :=
  List.map (fun res => with_guards res (List.map (apply_scope s) (restrict_on_delete res))) rs.

Definition resolve_restrict_on_delete_scopes (rs : list Resource) : list Resource :=
  apply_restrict_on_delete_scopes (collect_scopes (List.map restrict_on_delete_scope_entry rs)) rs.

Definition all_resources (module : Module_) : list Resource := List.concat (List.map resources (features module)).
Definition resolve_restrict_on_delete_scopes_module (module : Module_) : Module_ :=
  let s := collect_scopes (List.map restrict_on_delete_scope_entry (all_resources module)) in
  {| features := List.map (fun f => with_resources f (apply_restrict_on_delete_scopes s (resources f))) (features module) |}.

(** Every feature as it is lowered. *)
Definition lowered (module : Module_) : Module_ :=
  {| features := List.map (fun f => with_resources f (resolve_restrict_on_delete_scopes (resources f))) (features module) |}.

(** * Emission *)

(** [GoPrinter::line] at an indent level. *)
Fixpoint tabs (indent_level : nat) (s : string) : string :=
  match indent_level with 0 => s | Datatypes.S n => String TAB (tabs n s) end.

Definition banner (source_path package_name : string) : list string :=
  ["// Code generated by lazuli; DO NOT EDIT."; "// source: " +:+ source_path; ""; "package " +:+ package_name; ""].

Definition emit_pattern_header (pattern : string * string) : string := "//lazuli:pattern " +:+ pattern.1 +:+ " " +:+ pattern.2.
Definition PATTERN_REFERENTIAL_GUARD : string * string := ("referential_guard", "v1").

Section Emit.
Variable to_uppercase : string -> string.
Variable debug : EvalPredicate -> string.

Definition guard_fn_name (protected relation_ : string) : string :=
  "guard" +:+ pascal_case to_uppercase protected +:+ pascal_case to_uppercase relation_ +:+ "Refs".

Definition source_clause (guard : RestrictOnDelete) : string :=
  "restrict on_delete references " +:+ relation guard +:+ " via " +:+ fk guard +:+
  match g_error_code guard with Some code_ => " error " +:+ code_ | None => "" end +:+
  match extra_where guard with Some extra => " where " +:+ restrict_where_sql debug extra | None => "" end.

(** The lines of the query. *)
Definition query_lines (guard : RestrictOnDelete) : list string :=
  List.map (tabs 1)
    (["const q = `SELECT EXISTS ("; String TAB "SELECT 1 FROM " +:+ relation guard; String TAB "WHERE " +:+ fk guard +:+ " = $1"] ++
     (if tenant_scoped guard then [String TAB "  AND tenant_id = $" +:+ show_N 2] else []) ++
     (if g_soft_delete guard then [String TAB "  AND deleted_at IS NULL"] else []) ++
     match extra_where guard with Some extra => [String TAB "  AND (" +:+ restrict_where_sql debug extra +:+ ")"] | None => [] end ++
     [")`"])%list.
(** The arguments after the context. *)
Definition query_args (guard : RestrictOnDelete) : list string := if tenant_scoped guard then ["q"; "id"; "tenantID"] else ["q"; "id"].

Definition emit_one_guard (protected : string) (guard : RestrictOnDelete) : list string :=
  (["// referential guard: " +:+ source_clause guard;
    "// rejects deletion of " +:+ protected +:+ " while a live " +:+ relation guard +:+ " references it.";
    emit_pattern_header PATTERN_REFERENTIAL_GUARD;
    "func " +:+ guard_fn_name protected (relation guard) +:+ "(ctx context.Context, db lazuli.DBTX, tenantID, id any) error {"] ++
   query_lines guard ++
   [tabs 1 "var inUse bool";
    tabs 1 ("if err := db.QueryRow(ctx, " +:+ join ", " (query_args guard) +:+ ").Scan(&inUse); err != nil {");
    tabs 2 "return err";
    tabs 1 "}";
    tabs 1 "if inUse {";
    tabs 2 match g_error_code guard with
           | Some code_ => "return runtime.NewReferencedInUseError(" +:+ debug_str code_ +:+ ")"
           | None => "return runtime.ErrReferencedInUse"
           end;
    tabs 1 "}";
    tabs 1 "return nil";
    "}"])%list.

(** The functions of the guarded resources, in order. *)
Definition guards_of (guarded : list Resource) : list (list string) :=
  List.concat (List.map (fun r => List.map (emit_one_guard (r_name r)) (restrict_on_delete r)) guarded).

(** [if !first { p.blank(); }] *)
Fixpoint separated (l : list (list string)) : list string :=
  match l with [] => [] | [x] => x | x :: l => (x ++ "" :: separated l)%list end.

Definition is_guarded (r : Resource) : bool := match restrict_on_delete r with [] => false | _ => true end.

Definition emit_referential_guard_file (source_label : string) (feature : Feature) : option string :=
  match sort_by r_name (List.filter is_guarded (resources feature)) with
  | [] => None
  | guarded =>
    Some (unlines
      (banner source_label (gen_package_name (f_name feature)) ++
       ["import ("; tabs 1 (quoted "context"); ""; tabs 1 (quoted "lazuli.dev/runtime/lazuli"); tabs 1 (quoted "lazuli.dev/runtime/lazuli/runtime");
        ")"; ""] ++
       separated (guards_of guarded)))
  end.
End Emit.

(** * Lemmas *)

(** ** Scopes *)

(** The last resource a relation names. *)
Definition referenced (rs : list Resource) (guard : RestrictOnDelete) : option Resource :=
  last (List.filter (fun r => pascal_to_snake (r_name r) =? pascal_to_snake (relation guard)) rs).

Definition derived (rs : list Resource) (guard : RestrictOnDelete) : RestrictOnDelete :=
  match referenced rs guard with Some r => with_scope guard (has_tenant_axis (tenancy r), soft_delete r) | None => guard end.

Lemma collect_last rs k : collect_scopes (List.map restrict_on_delete_scope_entry rs) !! k =
  (fun r => (has_tenant_axis (tenancy r), soft_delete r)) <$> last (List.filter (fun r => pascal_to_snake (r_name r) =? k) rs).
Proof.
  unfold collect_scopes. induction rs as [|r rs IH] using rev_ind; [done|].
  rewrite map_app, fold_left_app, List.filter_app. cbn [List.map fold_left restrict_on_delete_scope_entry fst snd List.filter].
  destruct (String.eqb_spec (pascal_to_snake (r_name r)) k) as [->|Hne].
  - rewrite lookup_insert_eq, last_snoc. done.
  - rewrite lookup_insert_ne by done. by rewrite IH, app_nil_r.
Qed.

Lemma apply_scope_derived rs guard : apply_scope (collect_scopes (List.map restrict_on_delete_scope_entry rs)) guard = derived rs guard.
Proof. unfold apply_scope, derived, referenced. rewrite collect_last. by destruct (last _). Qed.

Definition derive_all (rs0 rs : list Resource) : list Resource :=
  List.map (fun r => with_guards r (List.map (derived rs0) (restrict_on_delete r))) rs.

Lemma apply_derived rs0 rs : apply_restrict_on_delete_scopes (collect_scopes (List.map restrict_on_delete_scope_entry rs0)) rs = derive_all rs0 rs.
Proof.
  unfold apply_restrict_on_delete_scopes, derive_all. apply map_ext. intros r. f_equal. apply map_ext. intros g. apply apply_scope_derived.
Qed.

(** The schema of a resource is not touched, so the index is not. *)
Lemma referenced_derived rs0 rs guard g : relation guard = relation g -> referenced (derive_all rs0 rs) guard =
  (fun r => with_guards r (List.map (derived rs0) (restrict_on_delete r))) <$> referenced rs g.
Proof.
  intros E. unfold referenced, derive_all. rewrite E. generalize (pascal_to_snake (relation g)) as k. intros k. clear.
  induction rs as [|r rs IH] using rev_ind; [done|]. rewrite map_app, !List.filter_app. cbn [List.map List.filter with_guards r_name].
  destruct (_ =? k); [by rewrite !last_snoc|by rewrite !app_nil_r].
Qed.

Lemma derived_relation rs g : relation (derived rs g) = relation g.
Proof. unfold derived. by destruct (referenced rs g). Qed.

Lemma entries_derived rs0 rs : List.map restrict_on_delete_scope_entry (derive_all rs0 rs) = List.map restrict_on_delete_scope_entry rs.
Proof. unfold derive_all. rewrite map_map. by apply map_ext. Qed.

Lemma entries_all (h : Feature -> list Resource) module : (forall f, In f (features module) ->
    List.map restrict_on_delete_scope_entry (h f) = List.map restrict_on_delete_scope_entry (resources f)) ->
  List.map restrict_on_delete_scope_entry (all_resources {| features := List.map (fun f => with_resources f (h f)) (features module) |}) =
  List.map restrict_on_delete_scope_entry (all_resources module).
Proof.
  intros H. unfold all_resources. cbn [features]. rewrite map_map, !concat_map, !map_map. f_equal. by apply map_ext_in.
Qed.

(** Both passes: the flags of a guard come from the whole module. *)
Definition derive_module (module : Module_) : Module_ :=
  {| features := List.map (fun f => with_resources f (derive_all (all_resources module) (resources f))) (features module) |}.

Lemma derived_again rs_all rs g : (forall r, In r rs -> In r rs_all) -> derived rs_all (derived rs g) = derived rs_all g.
Proof.
  intros Hi. assert (E : referenced rs_all (derived rs g) = referenced rs_all g) by (unfold referenced; by rewrite derived_relation).
  unfold derived at 1 3. rewrite E. destruct (referenced rs_all g) as [r|] eqn:Er; [by unfold derived; destruct (referenced rs g)|].
  unfold derived. destruct (referenced rs g) as [r|] eqn:Er'; [|done]. exfalso. unfold referenced in *.
  apply last_Some in Er' as [l' El]. apply last_None in Er.
  assert (Hr : In r (List.filter (fun r => pascal_to_snake (r_name r) =? pascal_to_snake (relation g)) rs)) by (rewrite El; apply in_app_iff; right; by left).
  apply filter_In in Hr as [Hr Hk]. assert (Hr' : In r []) by (rewrite <- Er; apply filter_In; auto). done.
Qed.

Lemma derive_all_again rs_all rs0 rs : (forall r, In r rs0 -> In r rs_all) -> derive_all rs_all (derive_all rs0 rs) = derive_all rs_all rs.
Proof.
  intros Hi. unfold derive_all. rewrite map_map. apply map_ext. intros r. cbn. unfold with_guards. cbn. f_equal.
  rewrite map_map. apply map_ext. intros g. by apply derived_again.
Qed.

Lemma resolve_derive module : resolve_restrict_on_delete_scopes_module module = derive_module module.
Proof.
  unfold resolve_restrict_on_delete_scopes_module, derive_module. f_equal. apply map_ext. intros f. by rewrite apply_derived.
Qed.

Lemma resolve_after (h : Feature -> list Resource) module rs0 : (forall f, In f (features module) -> h f = derive_all (rs0 f) (resources f) /\
    forall r, In r (rs0 f) -> In r (all_resources module)) ->
  resolve_restrict_on_delete_scopes_module {| features := List.map (fun f => with_resources f (h f)) (features module) |} = derive_module module.
Proof.
  intros H. unfold resolve_restrict_on_delete_scopes_module. rewrite entries_all by (intros f Hf; destruct (H f Hf) as [-> _]; apply entries_derived).
  unfold derive_module. cbn [features]. f_equal. rewrite map_map. apply map_ext_in. intros f Hf. destruct (H f Hf) as [E Hi].
  rewrite apply_derived. cbn [with_resources resources]. rewrite E. unfold with_resources at 1. cbn. unfold with_resources. f_equal.
  by apply derive_all_again.
Qed.

Lemma all_resources_In module f r : In f (features module) -> In r (resources f) -> In r (all_resources module).
Proof. intros Hf Hr. unfold all_resources. apply in_concat. exists (resources f). split; [by apply in_map|done]. Qed.

(** ** The file *)

Lemma filter_perm {A} (p : A -> bool) l l' : l ≡ₚ l' -> List.filter p l ≡ₚ List.filter p l'.
Proof.
  induction 1 as [|x l l' _ IH|x y l|l l' l'' _ IH1 _ IH2]; [done|..|by rewrite IH1]; cbn.
  - destruct (p x); [by rewrite IH|done].
  - destruct (p x), (p y); try done. apply Permutation_swap.
Qed.

Lemma filter_map_NoDup {A B} (k : A -> B) (p : A -> bool) l : NoDup (List.map k l) -> NoDup (List.map k (List.filter p l)).
Proof.
  induction l as [|x l IH]; [done|]. cbn. intros [Hx Hn]%NoDup_cons. destruct (p x); [|by apply IH]. cbn. apply NoDup_cons. split; [|by apply IH].
  intros Hi. apply Hx. apply list_elem_of_In, in_map_iff in Hi as (y & <- & Hy). apply filter_In in Hy as [Hy _]. apply list_elem_of_In. by apply in_map.
Qed.

(** ** Placeholders *)

Fixpoint placeholders (s : string) : list byte :=
  match s with
  | String b (String d _ as r) => if (b =a? "$") && is_ascii_digit d then d :: placeholders r else placeholders r
  | _ => []
  end.
Lemma placeholders_none s : lacks "$" s -> placeholders s = [].
Proof.
  induction s as [|b s IH]; [done|]. cbn [str_all]. intros [Hb Hs]%andb_true_iff. apply negb_true_iff in Hb. cbn [placeholders]. rewrite Hb.
  destruct s; [done|]. by rewrite IH.
Qed.
Lemma placeholders_app a c s : lacks "$" a -> placeholders (a +:+ String c s) = placeholders (String c s).
Proof.
  induction a as [|b a IH]; [done|]. cbn [str_all]. intros [Hb Ha]%andb_true_iff. apply negb_true_iff in Hb.
  cbn [String.append placeholders]. rewrite Hb. cbn [andb]. rewrite IH by done. by destruct a.
Qed.

Definition query_placeholders debug guard : list byte := List.concat (List.map placeholders (query_lines debug guard)).

Definition dollar_free debug guard : Prop :=
  lacks "$" (relation guard) /\ lacks "$" (fk guard) /\ match extra_where guard with Some e => lacks "$" (restrict_where_sql debug e) | None => True end.

Lemma query_placeholders_eq debug guard : dollar_free debug guard ->
  query_placeholders debug guard = if tenant_scoped guard then ["1"; "2"]%char else ["1"]%char.
Proof.
  intros (Hr & Hf & He). unfold query_placeholders, query_lines. rewrite !map_app, !concat_app. cbn [List.map List.concat tabs].
  assert (E1 : placeholders (String TAB (String TAB "SELECT 1 FROM " +:+ relation guard)) = []).
  { apply placeholders_none. change (String TAB (String TAB "SELECT 1 FROM " +:+ relation guard)) with (String TAB (String TAB "SELECT 1 FROM ") +:+ relation guard).
    by rewrite str_all_app, Hr. }
  assert (E2 : placeholders (String TAB (String TAB "WHERE " +:+ fk guard +:+ " = $1")) = ["1"]%char).
  { change (String TAB (String TAB "WHERE " +:+ fk guard +:+ " = $1")) with (String TAB (String TAB "WHERE ") +:+ fk guard +:+ " = $1").
    rewrite <- sapp_assoc, placeholders_app; [done|]. by rewrite str_all_app, Hf. }
  rewrite E1, E2.
  assert (E3 : List.concat (List.map placeholders (List.map (tabs 1) match extra_where guard with
      Some extra => [String TAB "  AND (" +:+ restrict_where_sql debug extra +:+ ")"] | None => [] end)) = []).
  { destruct (extra_where guard) as [e|]; [|done]. cbn [List.map List.concat tabs]. rewrite app_nil_r. apply placeholders_none.
    change (String TAB (String TAB "  AND (" +:+ restrict_where_sql debug e +:+ ")")) with (String TAB (String TAB "  AND (") +:+ restrict_where_sql debug e +:+ ")").
    by rewrite !str_all_app, He. }
  change (List.map (fun s : string => String TAB s)) with (List.map (tabs 1)). rewrite E3.
  destruct (tenant_scoped guard), (g_soft_delete guard); reflexivity.
Qed.

(** ** Columns *)

(** The names the author gives columns. *)
Definition authored (r : Resource) (n : string) : Prop :=
  (exists f, In f (fields r) /\ fd_name f = n) \/ (exists p, In p (polymorphic_refs r) /\ (type_field p = n \/ id_field p = n)).

Lemma tenant_id_authored module f r index : In "tenant_id" (List.map col_name (table_spec module f r index)) -> authored r "tenant_id".
Proof.
  unfold table_spec. rewrite !map_app, !in_app_iff. intros H.
  destruct H as [H|[H|[H|[H|[H|[H|H]]]]]].
  - destruct (composite_primary r); [done|]. by destruct H.
  - destruct (effective_tenancy f r); try done. by destruct H.
  - left. apply in_map_iff in H as (c & En & Hc). apply in_concat in Hc as (cs & Hcs & Hc). apply in_map_iff in Hcs as (fd & <- & Hfd).
    unfold field_spec in Hc. destruct Hc as [<-|Hc]; [by exists fd|]. exfalso.
    assert (E : col_name c = fd_name fd +:+ "_currency").
    { destruct (type_ref fd) as [b|q|q|t|s|cap]; try done. destruct b; try done. destruct (existsb _ _); [done|]. by destruct Hc as [<-|[]]. }
    rewrite En in E. apply strip_suffix_Some in E. by vm_compute in E.
  - destruct (session_rotation_enabled_for_resource module f r); [|done]. apply in_map_iff in H as (c & En & Hc). unfold session_spec in Hc.
    apply filter_In in Hc as [Hc _]. cbn in Hc. intuition (subst; done).
  - destruct (uses_timestamps f r); [|done]. cbn in H. intuition done.
  - unfold soft_delete_spec in H. destruct (soft_delete r); [|done]. destruct (soft_delete_actor r); cbn in H; intuition done.
  - right. unfold polymorphic_spec in H. apply in_map_iff in H as (c & En & Hc). apply in_concat in Hc as (cs & Hcs & Hc).
    apply in_map_iff in Hcs as (p & <- & Hp). exists p. split; [done|]. destruct Hc as [<-|[<-|[]]]; auto.
Qed.

Lemma deleted_at_column module f r index : soft_delete r = true -> In (column_new "deleted_at" "TIMESTAMPTZ" true) (table_spec module f r index).
Proof. intros H. unfold table_spec. do 5 (apply in_app_iff; right). apply in_app_iff. left. unfold soft_delete_spec. rewrite H. by left. Qed.

(** * Properties *)

(** After both passes the flags of a guard are the schema of the last resource
    of the module its relation names, whatever a feature's own pass found; the
    passes are idempotent, and a relation that one resource answers to is scoped
    by that resource. *)
Theorem guard_scopes_exact module :
  resolve_restrict_on_delete_scopes_module (lowered module) = derive_module module /\
  resolve_restrict_on_delete_scopes_module (derive_module module) = derive_module module /\
  forall g r, In r (all_resources module) -> pascal_to_snake (r_name r) = pascal_to_snake (relation g) ->
    (forall r', In r' (all_resources module) -> pascal_to_snake (r_name r') = pascal_to_snake (relation g) -> r' = r) ->
    derived (all_resources module) g = with_scope g (has_tenant_axis (tenancy r), soft_delete r).
Proof.
  split_and!.
  - unfold lowered. apply (resolve_after _ _ resources). intros f Hf. split; [apply apply_derived|]. intros r. by apply all_resources_In.
  - unfold derive_module at 1. apply (resolve_after _ _ (fun _ => all_resources module)). auto.
  - intros g r Hr Hk Hu. unfold derived, referenced. destruct (last _) as [r'|] eqn:E.
    + apply last_Some in E as [l' El].
      assert (Hi : In r' (List.filter (fun x => pascal_to_snake (r_name x) =? pascal_to_snake (relation g)) (all_resources module)))
        by (rewrite El; apply in_app_iff; right; by left).
      apply filter_In in Hi as [Hi Hk']. apply String.eqb_eq in Hk'. by rewrite (Hu r' Hi Hk').
    + apply last_None in E. assert (Hi : In r []) by (rewrite <- E; apply filter_In; split; [done|by apply String.eqb_eq]). done.
Qed.

(** The guards file exists exactly when a resource of the feature has a guard,
    and does not depend on the order of the resources. *)
Theorem guard_file_stable up debug label f f' : f_name f' = f_name f -> resources f' ≡ₚ resources f ->
  List.NoDup (List.map r_name (resources f)) ->
  emit_referential_guard_file up debug label f' = emit_referential_guard_file up debug label f /\
  (emit_referential_guard_file up debug label f = None <-> forall r, In r (resources f) -> restrict_on_delete r = []).
Proof.
  intros En Hp Hn. apply NoDup_LNoDup in Hn. unfold emit_referential_guard_file. rewrite En.
  assert (E : sort_by r_name (List.filter is_guarded (resources f')) = sort_by r_name (List.filter is_guarded (resources f))).
  { symmetry. apply sort_by_stable; [by apply filter_perm|by apply filter_map_NoDup]. }
  rewrite E. clear E. split; [done|]. destruct (sort_by r_name (List.filter is_guarded (resources f))) as [|r rs] eqn:Es; split; try done.
  - intros _ r Hr. destruct (restrict_on_delete r) eqn:Eg; [done|]. exfalso.
    assert (Hi : In r (sort_by r_name (List.filter is_guarded (resources f)))).
    { apply sort_by_In, filter_In. split; [done|]. unfold is_guarded. by rewrite Eg. }
    by rewrite Es in Hi.
  - intros Ha. assert (Hi : In r (sort_by r_name (List.filter is_guarded (resources f)))) by (rewrite Es; by left).
    apply sort_by_In, filter_In in Hi as [Hi Hg]. unfold is_guarded in Hg. by rewrite (Ha r Hi) in Hg.
Qed.

(** The query of a guard has one placeholder per argument that follows it, in
    order: the row's id, and the tenant exactly when the relation is scoped. *)
Theorem guard_query_arguments debug guard : dollar_free debug guard ->
  List.map (fun d => digits_val 0 (String d "")) (query_placeholders debug guard) =
    List.map (fun n => Some (N.of_nat n)) (seq 1 (length (query_args guard) - 1)) /\
  query_args guard = "q" :: "id" :: (if tenant_scoped guard then ["tenantID"] else []).
Proof. intros H. rewrite query_placeholders_eq by done. unfold query_args. by destruct (tenant_scoped guard). Qed.

(** Against the emitted tables: the soft-delete column a guard tests is there;
    the [tenant_id] it compares for a tenant-scoped relation is not, unless the
    author wrote that column. *)
Theorem guard_columns module f r index :
  let scope := snd (restrict_on_delete_scope_entry r) in let names := List.map col_name (table_spec module f r index) in
  (scope.2 = true -> In "deleted_at" names) /\
  (scope.1 = true -> ~ authored r "tenant_id" -> ~ In "tenant_id" names).
Proof.
  cbn [restrict_on_delete_scope_entry snd fst]. split.
  - intros H. apply (deleted_at_column module f r index) in H. by apply (in_map col_name) in H.
  - intros _ Ha Hi. by apply Ha, (tenant_id_authored module f r index).
Qed.

(** ** At concrete inputs *)

Definition sample_guard (rel column : string) : RestrictOnDelete :=
  {| relation := rel; fk := column; extra_where := None; tenant_scoped := false; g_soft_delete := false; g_error_code := None |}.
Definition guarded_resource (n : string) (t : option Tenancy) (soft : bool) (gs : list RestrictOnDelete) : Resource :=
  {| r_name := n; tenancy := t; soft_delete := soft; soft_delete_actor := false; timestamps := None; fields := []; constraints := [];
     composite_key := None; polymorphic_refs := []; restrict_on_delete := gs |}.
Definition guarded_feature (n : string) (t : option Tenancy) (rs : list Resource) : Feature :=
  {| f_name := n; defaults := {| df_tenancy := t; df_timestamps := true |}; enums := []; resources := rs; records := []; auth := None |}.
Definition no_upper (c : string) : string := c.
Definition no_debug (p : EvalPredicate) : string := "".

Definition sample_guards : Feature :=
  guarded_feature "billing" None [guarded_resource "BillingType" None false [sample_guard "Invoice" "billing_type_id"]; guarded_resource "Invoice" (Some Org) true []].

Lemma guard_scopes_exact_witness :
  let m := {| features := [sample_guards] |} in
  derived (all_resources m) (sample_guard "Invoice" "billing_type_id") = with_scope (sample_guard "Invoice" "billing_type_id") (true, true).
Proof.
  intros m. destruct (guard_scopes_exact m) as (_ & _ & H). apply (H _ (guarded_resource "Invoice" (Some Org) true [])).
  - right. by left.
  - by vm_compute.
  - intros r' [<-|[<-|[]]] E; [by vm_compute in E|done].
Defined.

Lemma guard_file_stable_witness :
  let f' := with_resources sample_guards (rev (resources sample_guards)) in
  emit_referential_guard_file no_upper no_debug "app.lzi" f' = emit_referential_guard_file no_upper no_debug "app.lzi" sample_guards /\
  emit_referential_guard_file no_upper no_debug "app.lzi" sample_guards <> None.
Proof.
  intros f'. assert (Hn : List.NoDup (List.map r_name (resources sample_guards))) by (apply NoDup_ListNoDup; vm_compute; by apply (bool_decide_unpack _)).
  destruct (guard_file_stable no_upper no_debug "app.lzi" sample_guards f' eq_refl (symmetry (Permutation_rev _)) Hn) as [H1 H2].
  split; [exact H1|]. intros E. pose proof (proj1 H2 E (guarded_resource "BillingType" None false [sample_guard "Invoice" "billing_type_id"]) (or_introl eq_refl)) as H. done.
Defined.

Lemma guard_query_arguments_witness :
  let g := with_scope (sample_guard "invoice" "billing_type_id") (true, false) in
  query_args g = ["q"; "id"; "tenantID"] /\ query_placeholders no_debug g = ["1"; "2"]%char.
Proof.
  intros g. assert (H : dollar_free no_debug g) by done. destruct (guard_query_arguments no_debug g H) as [_ H2].
  split; [exact H2|by vm_compute].
Defined.

Lemma guard_columns_witness :
  let r := guarded_resource "Invoice" (Some Org) true [] in let m := {| features := [sample_guards] |} in
  snd (restrict_on_delete_scope_entry r) = (true, true) /\
  In "deleted_at" (List.map col_name (table_spec m sample_guards r (build m))) /\
  ~ In "tenant_id" (List.map col_name (table_spec m sample_guards r (build m))).
Proof.
  intros r m. split; [done|]. destruct (guard_columns m sample_guards r (build m)) as [H1 H2]. split; [by apply H1|].
  apply H2; [done|]. intros [(f & [] & _)|(p & [] & _)].
Defined.

(** Two features with a resource of the same name: the pass over the module
    replaces the scope the feature's own pass had found. *)
Definition clashing : Module_ :=
  {| features := [sample_guards; guarded_feature "legacy" None [guarded_resource "Invoice" None false []]] |}.
Definition guards_in (m : Module_) : list RestrictOnDelete := List.concat (List.map restrict_on_delete (all_resources m)).

Theorem guard_scope_overwritten :
  List.map tenant_scoped (guards_in (lowered clashing)) = [true] /\
  List.map tenant_scoped (guards_in (resolve_restrict_on_delete_scopes_module (lowered clashing))) = [false].
Proof. by vm_compute. Qed.

(** A tenancy the relation inherits from its feature reaches its table and not
    the guards that probe it. *)
Theorem guard_misses_inherited_tenancy :
  let r := guarded_resource "Invoice" None false [] in let f := guarded_feature "billing" (Some Org) [r] in
  effective_tenancy f r = Org /\ has_tenant_axis (tenancy r) = false /\
  In "org_id" (List.map col_name (table_spec {| features := [f] |} f r (build {| features := [f] |}))).
Proof. split_and!; [done|done|]. vm_compute. auto. Qed.

(** The relation is written as the author spelled it: the scope of [OrderItem]
    is found and the table probed is not the one created; neither is it for an
    acronym, which the two slug functions cut differently. *)
Theorem guard_relation_spelling :
  let probes rel n := read_ident rel = Some (lower_snake n) in
  pascal_to_snake "OrderItem" = pascal_to_snake "order_item" /\ ~ probes "OrderItem" "OrderItem" /\ probes "order_item" "OrderItem" /\
  pascal_to_snake "HTTPLog" = pascal_to_snake "http_log" /\ ~ probes "http_log" "HTTPLog".
Proof. by vm_compute. Qed.

(** A compound [where] in SQL is cut at its first comparison, and what is left
    of it is quoted as one identifier; a dotted path has no SQL at all. *)
Theorem restrict_where_mangled :
  (restrict_where_sql no_debug <$> parse_closed_predicate "status = 'open' AND total > 0") = Some (quoted "status = 'open' AND total" +:+ " > 0") /\
  (restrict_where_sql no_debug <$> parse_closed_predicate "status = 'open'") = Some "status = 'open'" /\
  (eval_predicate_sql <$> parse_closed_predicate "owner.kind == nil") = Some None.
Proof. by vm_compute. Qed.

(** Two clauses that differ in the column, or whose words run together, are two
    functions of one name. *)
Theorem guard_names_collide :
  guard_fn_name no_upper "Team" "member" = guard_fn_name no_upper "Team" "member" /\
  length (guards_of no_upper no_debug [guarded_resource "Team" None false [sample_guard "member" "team_id"; sample_guard "member" "old_team_id"]]) = 2 /\
  guard_fn_name no_upper "Order" "item_line" = guard_fn_name no_upper "OrderItem" "line".
Proof. by vm_compute. Qed.
