(* ===== verification/PlanSyntax.v ===== *)
(** Plan blocks and gate directives: the catalog parser and the gate scanner of
    [lazuli_syntax/src/parser/lzi/plan.rs] and their AST ([ast/plan.rs]).

    As in [LifecycleSyntax], a parser position is the list of the lines from
    that index on; the number of lines a block consumed is returned with it. *)
From S2P Require Import Prelude Str BTree Fmt Lines Lex LifecycleSyntax.

(** * AST *)

Inductive PlanFeatureRefAst :=
| FeatureIdent (name : string)
| FeatureCrossPlan (other : string).

Inductive PlanLimitRefAst :=
| LimitInteger (name : string) (value : N)
| LimitUnlimited (name : string)
| LimitCrossPlan (other : string).

Record PlanTrialAst := { duration : string; then_plan : string; trial_span : Span }.

Record PlanBlockAst := {
  plan_name : string;
  features : list PlanFeatureRefAst;
  limits : list PlanLimitRefAst;
  trial : option PlanTrialAst;
  plan_span : Span
}.

Inductive GateDirectiveAst :=
| Behind (feature : string) (span : Span)
| Quota (limit : string) (span : Span).

(** [GateDirectiveAst::span] *)
Definition gate_span (g : GateDirectiveAst) : Span :=
  match g with Behind _ span => span | Quota _ span => span end.

(** [FeatureGatesAst]: the map of its only field. *)
Definition FeatureGatesAst := list (string * list GateDirectiveAst).

(** * Lexical rules *)

Definition is_plan_ident (s : string) : bool :=
  match s with
  | "" => false
  | String c r =>
    is_ascii_lowercase c && str_all (fun c => is_ascii_lowercase c || is_ascii_digit c || (c =a? "_")) r
  end.

Definition is_valid_trial_duration (s : string) : bool :=
  if (str_len s <? 2)%nat then false
  else match last_byte s with
  | None => false
  | Some last =>
    if negb ((last =a? "s") || (last =a? "m") || (last =a? "h") || (last =a? "d")) then false
    else let head := str_take (str_len s - 1) s in nonempty head && str_all is_ascii_digit head
  end.

(** [s.parse::<u64>().ok()]: an optional plus sign, at least one digit, no
    overflow. *)
Definition u64_max : N := 18446744073709551615.
Definition parse_u64 (s : string) : option N :=
  let ds := match s with String b r => if b =a? "+" then r else s | "" => "" end in
  if ds =? "" then None else
  n ← digits_val 0 ds;
  if (n <=? u64_max)%N then Some n else None.

(** * Plan blocks *)

(** The loop over the comma-separated pieces of a line. *)
Fixpoint pieces_go {A} (entry : string -> presult A) (pieces : list string) : presult (list A) :=
  match pieces with
  | [] => Ok []
  | piece :: pieces =>
    let piece := trim piece in
    if piece =? "" then pieces_go entry pieces
    else ref ← entry piece; out ← pieces_go entry pieces; Ok (ref :: out)
  end.

Definition feature_ref (line : SourceLine) (piece : string) : presult PlanFeatureRefAst :=
  match strip_suffix ".features" piece with
  | Some target =>
    if negb (is_plan_ident target) then
      Err (line_error line "cross-plan `<other>.features` reference requires a lowercase plan id")
    else Ok (FeatureCrossPlan target)
  | None =>
    if is_plan_ident piece then Ok (FeatureIdent piece)
    else Err (line_error line "`features` entries must be `[a-z][a-z0-9_]*` or `<other>.features`")
  end.
Definition parse_plan_feature_refs (line : SourceLine) (rest : string) : presult (list PlanFeatureRefAst) :=
  pieces_go (feature_ref line) (split_char "," rest).

(** One [<name> <value>] entry. *)
Definition limit_entry (line : SourceLine) (piece : string) : presult PlanLimitRefAst :=
  match split_whitespace piece with
  | [] => Err (line_error line "`limits` entry requires `<name> <value>`")
  | [_] => Err (line_error line "`limits` entry requires a value after the name")
  | [name; value] =>
    if negb (is_plan_ident name) then
      Err (line_error line "`limits` entry name must match `[a-z][a-z0-9_]*`")
    else if value =? "unlimited" then Ok (LimitUnlimited name)
    else match parse_u64 value with
    | Some v => Ok (LimitInteger name v)
    | None => Err (line_error line "`limits` value must be a positive integer or `unlimited`")
    end
  | _ => Err (line_error line "`limits` entry must be `<name> <integer>` or `<name> unlimited`")
  end.

Definition limit_ref (line : SourceLine) (piece : string) : presult PlanLimitRefAst :=
  match strip_suffix ".limits" piece with
  | Some target =>
    if negb (is_plan_ident target) then
      Err (line_error line "cross-plan `<other>.limits` reference requires a lowercase plan id")
    else Ok (LimitCrossPlan target)
  | None => limit_entry line piece
  end.
Definition parse_plan_limit_refs (line : SourceLine) (rest : string) : presult (list PlanLimitRefAst) :=
  pieces_go (limit_ref line) (split_char "," rest).

Definition parse_plan_trial (line : SourceLine) (rest : string) : presult PlanTrialAst :=
  let body := trim rest in
  '(lhs, rhs) ← ok_or (split_once "," body)
    (line_error line "`trial` requires `duration <d>, then <plan>` (comma separator)");
  d ← ok_or (strip_prefix "duration " (trim lhs))
    (line_error line "`trial` left side must be `duration <integer><s|m|h|d>`");
  let duration := trim d in
  if negb (is_valid_trial_duration duration) then
    Err (line_error line "`trial duration` must be `<integer><s|m|h|d>` (e.g. `14d`, `48h`)")
  else
    t ← ok_or (strip_prefix "then " (trim rhs))
      (line_error line "`trial` right side must be `then <plan>`");
    let then_plan := trim t in
    if negb (is_plan_ident then_plan) then
      Err (line_error line "`trial then <plan>` requires a lowercase plan id")
    else Ok {| duration := duration; then_plan := then_plan; trial_span := span_new (start line) (end_ line) |}.

(** The variables of [parse_plan_block]'s loop. *)
Record PlanAcc := {
  p_features : list PlanFeatureRefAst; p_limits : list PlanLimitRefAst;
  p_trial : option PlanTrialAst; p_last_end : nat
}.

(** One child line. *)
Definition plan_child (line : SourceLine) (a : PlanAcc) : presult PlanAcc :=
  let trimmed := trim_start (text line) in
  match strip_prefix "features " trimmed with
  | Some rest =>
    refs ← parse_plan_feature_refs line rest;
    Ok {| p_features := p_features a ++ refs; p_limits := p_limits a; p_trial := p_trial a; p_last_end := end_ line |}
  | None =>
  match strip_prefix "limits " trimmed with
  | Some rest =>
    refs ← parse_plan_limit_refs line rest;
    Ok {| p_features := p_features a; p_limits := p_limits a ++ refs; p_trial := p_trial a; p_last_end := end_ line |}
  | None =>
  match strip_prefix "trial " trimmed with
  | Some rest =>
    if is_some (p_trial a) then Err (line_error line "`plan` may declare at most one `trial` block")
    else
      t ← parse_plan_trial line rest;
      Ok {| p_features := p_features a; p_limits := p_limits a; p_trial := Some t; p_last_end := end_ line |}
  | None =>
    Err (line_error line "`plan` children are `features`, `limits`, or `trial duration ..., then ...`")
  end end end.

(** The loop: the state reached and the number of lines read. *)
Fixpoint plan_children (lines : list SourceLine) (a : PlanAcc) : presult (PlanAcc * nat) :=
  match lines with
  | [] => Ok (a, 0)
  | line :: rest =>
    let trimmed := trim_start (text line) in
    if is_trivia trimmed then '(a, n) ← plan_children rest a; Ok (a, S n)
    else if (indent line =? 0)%nat then Ok (a, 0)
    else if negb (indent line =? 2)%nat then Err (line_error line "`plan` children use two-space indentation")
    else a ← plan_child line a; '(a, n) ← plan_children rest a; Ok (a, S n)
  end.

Definition parse_plan_block (header : SourceLine) (lines : list SourceLine) (name : string)
    : presult (PlanBlockAst * nat) :=
  '(a, next) ← plan_children lines
    {| p_features := []; p_limits := []; p_trial := None; p_last_end := end_ header |};
  match p_features a, p_limits a, p_trial a with
  | [], [], None => Err (line_error header "`plan` requires at least one of `features`, `limits`, or `trial`")
  | _, _, _ => Ok ({| plan_name := name; features := p_features a; limits := p_limits a; trial := p_trial a;
                      plan_span := span_new (start header) (p_last_end a) |}, next)
  end.

(** The loop of [parse_plan_blocks]; [skip] lines belong to the block just
    read. *)
Fixpoint plan_blocks_go (skip : nat) (lines : list SourceLine) : presult (list PlanBlockAst) :=
  match lines with
  | [] => Ok []
  | line :: rest =>
    match skip with
    | S skip => plan_blocks_go skip rest
    | O =>
      let trimmed := trim_start (text line) in
      if is_trivia trimmed then plan_blocks_go 0 rest
      else if (indent line =? 0)%nat then
        match strip_prefix "plan " trimmed with
        | Some name =>
          let name := trim name in
          if name =? "" then Err (line_error line "plan header requires a name: `plan <name>`")
          else if negb (is_plan_ident name) then Err (line_error line "plan name must match `[a-z][a-z0-9_]*`")
          else
            '(block, next) ← parse_plan_block line rest name;
            plans ← plan_blocks_go next rest;
            Ok (block :: plans)
        | None => plan_blocks_go 0 rest
        end
      else plan_blocks_go 0 rest
    end
  end.
Definition parse_plan_blocks (source : string) : presult (list PlanBlockAst) :=
  plan_blocks_go 0 (source_lines source).

(** * Gates *)

Definition callable_prefixes : list (string * string) :=
  [("command ", "command"); ("job ", "job"); ("webhook ", "webhook"); ("api ", "api");
   ("query.list ", "query.list"); ("query.lookup ", "query.lookup"); ("query.sql ", "query.sql");
   ("query.view ", "query.view")].

Fixpoint header_key_go (trimmed : string) (prefixes : list (string * string)) : option string :=
  match prefixes with
  | [] => None
  | (prefix, kind) :: prefixes =>
    match strip_prefix prefix trimmed with
    | Some rest =>
      let name := default "" (head (split_whitespace rest)) in
      if nonempty name then Some (kind +:+ ":" +:+ name) else header_key_go trimmed prefixes
    | None => header_key_go trimmed prefixes
    end
  end.
Definition callable_header_key (trimmed : string) : option string := header_key_go trimmed callable_prefixes.

Definition parse_gate_directive_line (line : SourceLine) (rest : string) : presult GateDirectiveAst :=
  let body := trim rest in
  match strip_prefix "behind plan.feature:" body with
  | Some after =>
    let feature := trim after in
    if feature =? "" then Err (line_error line "`gate behind plan.feature:` requires a feature identifier")
    else if negb (is_plan_ident feature) then
      Err (line_error line "`gate behind plan.feature:` requires a lowercase identifier ([a-z][a-z0-9_]*)")
    else Ok (Behind feature (span_new (start line) (end_ line)))
  | None =>
  match strip_prefix "quota plan.limit:" body with
  | Some after =>
    let limit := trim after in
    if limit =? "" then Err (line_error line "`gate quota plan.limit:` requires a limit identifier")
    else if negb (is_plan_ident limit) then
      Err (line_error line "`gate quota plan.limit:` requires a lowercase identifier ([a-z][a-z0-9_]*)")
    else Ok (Quota limit (span_new (start line) (end_ line)))
  | None =>
    Err (line_error line
      "`gate` directives are `gate behind plan.feature: <name>` or `gate quota plan.limit: <name>`")
  end end.

(** [callables.entry(key).or_default().push(directive)] *)
Definition push_gate (key : string) (d : GateDirectiveAst) (m : FeatureGatesAst) : FeatureGatesAst :=
  bt_insert key (default [] (bt_get key m) ++ [d])%list m.

(** The loop; [current] is the key and the indentation of the callable the scan
    is in. *)
Fixpoint gates_go (lines : list SourceLine) (callables : FeatureGatesAst) (current : option (string * nat))
    : presult FeatureGatesAst :=
  match lines with
  | [] => Ok callables
  | line :: rest =>
    let trimmed := trim_start (text line) in
    if is_trivia trimmed then gates_go rest callables current
    else
      let current :=
        match current with
        | Some (_, header_indent) => if (indent line <=? header_indent)%nat then None else current
        | None => None
        end in
      match callable_header_key trimmed with
      | Some key => gates_go rest callables (Some (key, indent line))
      | None =>
        match strip_prefix "gate " trimmed with
        | Some body =>
          directive ← parse_gate_directive_line line body;
          match current with
          | Some (key, _) => gates_go rest (push_gate key directive callables) current
          | None => Err (line_error line "`gate` directive must appear inside a callable body")
          end
        | None => gates_go rest callables current
        end
      end
  end.
Definition parse_feature_gates (source : string) : presult FeatureGatesAst :=
  gates_go (source_lines source) [] None.

(** * Printing *)

Definition print_feature (r : PlanFeatureRefAst) : string :=
  match r with FeatureIdent name => name | FeatureCrossPlan other => other +:+ ".features" end.
Definition print_limit (r : PlanLimitRefAst) : string :=
  match r with
  | LimitInteger name value => name +:+ " " +:+ show_N value
  | LimitUnlimited name => name +:+ " unlimited"
  | LimitCrossPlan other => other +:+ ".limits"
  end.

(** A line of a block. *)
Inductive child :=
| Features (refs : list PlanFeatureRefAst)
| Limits (refs : list PlanLimitRefAst)
| Trial (t : PlanTrialAst).

Definition print_child (c : child) : nat * string :=
  (2, match c with
      | Features refs => "features " +:+ join ", " (List.map print_feature refs)
      | Limits refs => "limits " +:+ join ", " (List.map print_limit refs)
      | Trial t => "trial duration " +:+ duration t +:+ ", then " +:+ then_plan t
      end).

Definition child_features (c : child) := match c with Features refs => refs | _ => [] end.
Definition child_limits (c : child) := match c with Limits refs => refs | _ => [] end.
Definition child_trials (c : child) := match c with Trial t => [t] | _ => [] end.

(** A file: plan blocks, each with its lines, and other top-level blocks. *)
Inductive item :=
| IPlan (name : string) (children : list child)
| IOther (header : string) (body : list (nat * string)).

Definition print_item (i : item) : list (nat * string) :=
  match i with
  | IPlan name children => (0, "plan " +:+ name) :: List.map print_child children
  | IOther header body => (0, header) :: body
  end.

(** The block an item stands for, without positions. *)
Definition erase_trial (t : PlanTrialAst) : PlanTrialAst :=
  {| duration := duration t; then_plan := then_plan t; trial_span := no_span |}.
Definition erase_plan (b : PlanBlockAst) : PlanBlockAst :=
  {| plan_name := plan_name b; features := features b; limits := limits b;
     trial := option_map erase_trial (trial b); plan_span := no_span |}.
Definition item_plans (i : item) : list PlanBlockAst :=
  match i with
  | IPlan name children =>
    [{| plan_name := name; features := flat_map child_features children; limits := flat_map child_limits children;
        trial := head (List.map erase_trial (flat_map child_trials children)); plan_span := no_span |}]
  | IOther _ _ => []
  end.

(** ** Well-formed blocks *)

Definition feature_ok (r : PlanFeatureRefAst) : bool :=
  match r with FeatureIdent name => is_plan_ident name | FeatureCrossPlan other => is_plan_ident other end.
Definition limit_ok (r : PlanLimitRefAst) : bool :=
  match r with
  | LimitInteger name value => is_plan_ident name && (value <=? u64_max)%N
  | LimitUnlimited name => is_plan_ident name
  | LimitCrossPlan other => is_plan_ident other
  end.
Definition trial_ok (t : PlanTrialAst) : bool := is_valid_trial_duration (duration t) && is_plan_ident (then_plan t).
Definition plan_ok (b : PlanBlockAst) : bool :=
  is_plan_ident (plan_name b) && forallb feature_ok (features b) && forallb limit_ok (limits b) &&
  match trial b with Some t => trial_ok t | None => true end &&
  match features b, limits b, trial b with [], [], None => false | _, _, _ => true end.

Definition child_ok (c : child) : bool :=
  match c with
  | Features refs => negb (List.length refs =? 0)%nat && forallb feature_ok refs
  | Limits refs => negb (List.length refs =? 0)%nat && forallb limit_ok refs
  | Trial t => trial_ok t
  end.
Definition item_ok (i : item) : bool :=
  match i with
  | IPlan name children =>
    is_plan_ident name && forallb child_ok children && negb (List.length children =? 0)%nat &&
    (List.length (flat_map child_trials children) <=? 1)%nat
  | IOther header body => negb (starts_with "plan " header) && forallb (fun l => (0 <? l.1)%nat) body
  end.

(** * Lemmas *)

(** ** Identifiers and numbers *)

Definition ident_byte (c : byte) : bool := is_ascii_lowercase c || is_ascii_digit c || (c =a? "_").

Lemma ident_bytes s : is_plan_ident s = true -> s <> "" /\ str_all ident_byte s = true.
Proof.
  destruct s as [|c r]; [done|]. cbn [is_plan_ident str_all]. unfold ident_byte at 1. intros [-> Hr]%andb_true_iff. done.
Qed.

Lemma ident_byte_graphic c : ident_byte c = true -> graphic c && negb (c =a? ",") && negb (c =a? ".") = true.
Proof. by_bytes c. Qed.

Lemma plan_ident_word s : is_plan_ident s = true -> word s = true.
Proof.
  intros [Hn Hs]%ident_bytes. unfold word. apply andb_true_iff. split; [by destruct s|].
  eapply str_all_impl; [|exact Hs]. intros b Hb%ident_byte_graphic. by bool_prop.
Qed.

Lemma plan_ident_lacks s : is_plan_ident s = true -> lacks "," s /\ lacks "." s.
Proof.
  intros [_ Hs]%ident_bytes. split; (eapply str_all_impl; [|exact Hs]); intros b Hb%ident_byte_graphic;
    apply andb_true_iff in Hb as [[_ H1]%andb_true_iff H2]; done.
Qed.

Lemma plan_ident_edges s : is_plan_ident s = true -> edges_ok s = true.
Proof. intros H. by apply word_edges, plan_ident_word. Qed.

Lemma lacks_strip_suffix p s : is_plan_ident s = true -> strip_suffix (String "." p) s = None.
Proof.
  intros [_ Hs]%plan_ident_lacks. apply strip_suffix_None. intros t ->. rewrite str_all_app in Hs. cbn in Hs.
  by rewrite andb_false_r in Hs.
Qed.

Lemma parse_show_u64 n : (n <=? u64_max)%N = true -> parse_u64 (show_N n) = Some n.
Proof.
  intros Hn. unfold parse_u64. destruct (show_N_cons n) as (b & r & E & Hb).
  assert (Hp : (b =a? "+") = false) by (revert Hb; clear; by_bytes b).
  rewrite E, Hp, <- E. replace (show_N n =? "") with false by (by rewrite E).
  rewrite show_N_val. cbn. by rewrite Hn.
Qed.

Lemma parse_u64_bound s n : parse_u64 s = Some n -> (n <= u64_max)%N.
Proof.
  unfold parse_u64. case_match; [done|]. destruct (digits_val _ _); [|done]. cbn.
  destruct (N.leb_spec n0 u64_max) as [Hl|]; [|done]. by intros [= <-].
Qed.

Lemma show_N_word n : word (show_N n) = true.
Proof.
  unfold word. destruct (show_N_cons n) as (b & r & E & _). apply andb_true_iff. split; [by rewrite E|].
  eapply str_all_impl; [|apply show_N_digits]. clear. intros b. by_bytes b.
Qed.

Lemma show_N_lacks n c : is_ascii_digit c = false -> lacks c (show_N n).
Proof.
  intros Hc. eapply str_all_impl; [|apply show_N_digits]. cbn. intros b Hb. destruct (Ascii.eqb_spec b c) as [->|]; [|done].
  by rewrite Hc in Hb.
Qed.

(** ** Entries *)

Lemma pieces_go_list {A} (entry : string -> presult A) l pieces :
  List.filter nonempty (List.map trim pieces) = l -> pieces_go entry pieces = mapM entry l.
Proof.
  revert l. induction pieces as [|p ps IH]; intros l; cbn; [by intros <-|]. unfold nonempty at 1.
  destruct (trim p =? ""); cbn [negb]; [apply IH|]. intros <-. cbn. destruct (entry (trim p)); [|done]. cbn.
  by rewrite (IH _ eq_refl).
Qed.

Lemma mapM_print {A} (entry : string -> presult A) (print : A -> string) l :
  Forall (fun r => entry (print r) = Ok r) l -> mapM entry (List.map print l) = Ok l.
Proof. induction 1 as [|r l Hr _ IH]; cbn; [done|]. rewrite Hr. cbn. by rewrite IH. Qed.

(** Printed entries are read back. *)
Lemma pieces_print {A} (entry : string -> presult A) (print : A -> string) l :
  l <> [] -> Forall (fun r => clean_entry (print r) /\ entry (print r) = Ok r) l ->
  pieces_go entry (split_char "," (join ", " (List.map print l))) = Ok l.
Proof.
  intros Hne H. apply Forall_and in H as [Hc He]. rewrite (pieces_go_list _ (List.map print l)).
  - by apply mapM_print.
  - destruct l as [|x l]; [done|]. apply (split_lzx_list_join (print x) (List.map print l)).
    change (Forall clean_entry (print <$> (x :: l))); apply Forall_fmap; exact Hc.
Qed.

Lemma edges_clean s : edges_ok s = true -> lacks "," s -> clean_entry s.
Proof. intros He Hl. split_and!; [by apply trim_edges|by intros ->|done]. Qed.

Lemma feature_print line r : feature_ok r = true ->
  clean_entry (print_feature r) /\ feature_ref line (print_feature r) = Ok r.
Proof.
  unfold feature_ref. destruct r as [s|s]; cbn [feature_ok print_feature]; intros H; pose proof (plan_ident_lacks _ H) as [Hc _].
  - split; [apply edges_clean; [by apply plan_ident_edges|done]|]. by rewrite lacks_strip_suffix, H.
  - split; [|by rewrite strip_suffix_app, H].
    apply edges_clean; [by apply edges_ok_app; [apply plan_ident_edges|]|]. by rewrite str_all_app, Hc.
Qed.

Lemma limit_print line r : limit_ok r = true ->
  clean_entry (print_limit r) /\ limit_ref line (print_limit r) = Ok r.
Proof.
  assert (Hsuf : forall n v, is_plan_ident n = true -> lacks "." v -> strip_suffix ".limits" (n +:+ " " +:+ v) = None).
  { intros n v [_ Hn]%plan_ident_lacks Hv. apply strip_suffix_None. intros t E.
    assert (Hl : lacks "." (n +:+ " " +:+ v)) by (by rewrite !str_all_app, Hn, Hv). rewrite E, str_all_app in Hl. cbn in Hl.
    by rewrite andb_false_r in Hl. }
  assert (Hent : forall n v, is_plan_ident n = true -> word v = true -> lacks "." v ->
    limit_ref line (n +:+ " " +:+ v) = (if v =? "unlimited" then Ok (LimitUnlimited n) else
      match parse_u64 v with Some x => Ok (LimitInteger n x)
      | None => Err (line_error line "`limits` value must be a positive integer or `unlimited`") end)).
  { intros n v Hn Hv Hd. unfold limit_ref. rewrite Hsuf by done. unfold limit_entry.
    change (n +:+ " " +:+ v) with (join " " [n; v]). rewrite split_whitespace_words by (repeat constructor; [by apply plan_ident_word|done]).
    by rewrite Hn. }
  destruct r as [n v|n|s]; cbn [limit_ok print_limit]; intros H.
  - apply andb_true_iff in H as [Hn Hv]. pose proof (plan_ident_lacks _ Hn) as [Hc _]. split.
    + apply edges_clean; [apply edges_ok_mid; [by apply plan_ident_edges|apply word_edges, show_N_word]|].
      by rewrite !str_all_app, Hc, show_N_lacks by done.
    + rewrite Hent; [|done|apply show_N_word|by apply show_N_lacks].
      rewrite parse_show_u64 by done. destruct (String.eqb_spec (show_N v) "unlimited") as [E|]; [|done].
      pose proof (show_N_digits v) as Hd. by rewrite E in Hd.
  - pose proof (plan_ident_lacks _ H) as [Hc _]. split.
    + apply edges_clean; [by apply (edges_ok_mid n " " "unlimited"); [apply plan_ident_edges|]|]. by rewrite !str_all_app, Hc.
    + change " unlimited" with (" " +:+ "unlimited"). by rewrite Hent.
  - pose proof (plan_ident_lacks _ H) as [Hc _]. split.
    + apply edges_clean; [by apply edges_ok_app; [apply plan_ident_edges|]|]. by rewrite str_all_app, Hc.
    + unfold limit_ref. by rewrite strip_suffix_app, H.
Qed.

(** ** Durations *)

Definition unit_byte (b : byte) : bool := (b =a? "s") || (b =a? "m") || (b =a? "h") || (b =a? "d").

Lemma valid_duration_iff s : is_valid_trial_duration s = true <->
  exists h u, s = h +:+ String u "" /\ h <> "" /\ str_all is_ascii_digit h = true /\ unit_byte u = true.
Proof.
  unfold is_valid_trial_duration. split.
  - destruct (str_len s <? 2)%nat; [done|]. destruct (str_snoc s) as [->|(h & u & ->)]; [done|]. rewrite last_byte_snoc. fold (unit_byte u).
    destruct (unit_byte u) eqn:Hu; [|done]. cbn [negb]. rewrite len_app. cbn [str_len String.length].
    replace (str_len h + 1 - 1) with (str_len h) by lia. rewrite take_app. intros [Hn Hd]%andb_true_iff.
    exists h, u. split_and!; try done. by destruct h.
  - intros (h & u & -> & Hn & Hd & Hu). rewrite len_app, last_byte_snoc. cbn [str_len String.length]. fold (unit_byte u).
    rewrite Hu. destruct h as [|b h]; [done|]. replace (str_len (String b h) + 1 <? 2)%nat with false
      by (symmetry; apply Nat.ltb_ge; cbn; lia).
    cbn [negb]. replace (str_len (String b h) + 1 - 1) with (str_len (String b h)) by lia. rewrite take_app. by rewrite Hd.
Qed.

Lemma duration_word s : is_valid_trial_duration s = true -> word s = true /\ lacks "," s.
Proof.
  intros (h & u & -> & Hn & Hd & Hu)%valid_duration_iff.
  assert (Hg : str_all (fun b => graphic b && negb (b =a? ",")) (h +:+ String u "") = true).
  { rewrite str_all_app. apply andb_true_iff. split.
    - eapply str_all_impl; [|exact Hd]. clear. intros b. by_bytes b.
    - cbn. rewrite andb_true_r. revert Hu. clear. by_bytes u. }
  unfold word. split.
  - apply andb_true_iff. split; [by destruct h|]. eapply str_all_impl; [|exact Hg]. intros b [Hb _]%andb_true_iff. done.
  - eapply str_all_impl; [|exact Hg]. intros b [_ Hb]%andb_true_iff. done.
Qed.

Lemma trial_print line t : trial_ok t = true ->
  parse_plan_trial line ("duration " +:+ duration t +:+ ", then " +:+ then_plan t) =
  Ok {| duration := duration t; then_plan := then_plan t; trial_span := span_new (start line) (end_ line) |}.
Proof.
  unfold trial_ok. intros [Hd Hp]%andb_true_iff. pose proof (duration_word _ Hd) as [Hdw Hdc].
  unfold parse_plan_trial.
  assert (He1 : edges_ok ("duration " +:+ duration t) = true)
    by (apply (edges_ok_mid "duration" " " (duration t)); [done|by apply word_edges]).
  assert (He2 : edges_ok ("then " +:+ then_plan t) = true)
    by (apply (edges_ok_mid "then" " " (then_plan t)); [done|by apply plan_ident_edges]).
  rewrite trim_edges.
  2: { change ("duration " +:+ duration t +:+ ", then " +:+ then_plan t) with
         ("duration " +:+ duration t +:+ ", " +:+ ("then " +:+ then_plan t)). rewrite <- sapp_assoc. by apply edges_ok_mid. }
  change ("duration " +:+ duration t +:+ ", then " +:+ then_plan t) with
    ("duration " +:+ duration t +:+ String "," (" " +:+ ("then " +:+ then_plan t))).
  rewrite <- sapp_assoc, split_once_app by (rewrite str_all_app; by rewrite Hdc). cbn [ok_or mbind result_bind].
  rewrite (trim_edges _ He1). rewrite strip_prefix_app. cbn [ok_or mbind result_bind].
  rewrite (trim_edges (duration t)) by by apply word_edges. rewrite Hd. cbn [negb].
  change (" " +:+ ("then " +:+ then_plan t)) with (String " " ("then " +:+ then_plan t)). rewrite (trim_space_edges _ He2).
  rewrite strip_prefix_app. cbn [ok_or mbind result_bind].
  rewrite trim_edges by by apply plan_ident_edges. by rewrite Hp.
Qed.

(** ** Blocks *)

Definition erase_acc (a : PlanAcc) : PlanAcc :=
  {| p_features := p_features a; p_limits := p_limits a; p_trial := option_map erase_trial (p_trial a); p_last_end := 0 |}.

(** What one printed child adds. *)
Definition add_child (c : child) (a : PlanAcc) : PlanAcc :=
  {| p_features := p_features a ++ child_features c; p_limits := p_limits a ++ child_limits c;
     p_trial := match c with Trial t => Some (erase_trial t) | _ => p_trial a end; p_last_end := 0 |}.

Lemma forallb_Forall {A} (p : A -> bool) l : forallb p l = true <-> Forall (fun x => p x = true) l.
Proof. rewrite forallb_forall, Forall_forall. by setoid_rewrite list_elem_of_In. Qed.

Lemma entries_ne {A} (l : list A) : negb (List.length l =? 0)%nat = true -> l <> [].
Proof. by destruct l. Qed.

Lemma plan_child_print line c a : child_ok c = true -> renders line (print_child c) ->
  (forall t, c = Trial t -> p_trial a = None) ->
  exists a', plan_child line a = Ok a' /\ erase_acc a' = add_child c (erase_acc a).
Proof.
  intros Hok [_ Ht] Hone. unfold plan_child. fold (trimmed line). rewrite Ht. destruct c as [refs|refs|t]; cbn [print_child snd child_ok] in *.
  - apply andb_true_iff in Hok as [Hn%entries_ne Hf%forallb_Forall]. rewrite strip_prefix_app. unfold parse_plan_feature_refs.
    rewrite pieces_print; [|done|]. 2: { eapply Forall_impl; [exact Hf|]. intros r Hr. by apply feature_print. }
    cbn. eexists. split; [done|]. unfold erase_acc, add_child. cbn. by rewrite app_nil_r.
  - apply andb_true_iff in Hok as [Hn%entries_ne Hf%forallb_Forall]. cbn [strip_prefix starts_with]. rewrite strip_prefix_app.
    unfold parse_plan_limit_refs.
    rewrite pieces_print; [|done|]. 2: { eapply Forall_impl; [exact Hf|]. intros r Hr. by apply limit_print. }
    cbn. eexists. split; [done|]. unfold erase_acc, add_child. cbn. by rewrite app_nil_r.
  - change ("trial duration " +:+ ?x) with ("trial " +:+ ("duration " +:+ x)). rewrite strip_prefix_app.
    rewrite (Hone t eq_refl). cbn [is_some]. rewrite trial_print by done. cbn. eexists. split; [done|].
    unfold erase_acc, add_child, erase_trial. cbn. by rewrite !app_nil_r.
Qed.

(** Where a block ends: at the first top-level line. *)
Definition top (r : list SourceLine) : Prop :=
  match r with [] => True | l :: _ => indent l = 0 end.

Lemma nt_split l r ls : nt ls = l :: r ->
  exists pre rest, ls = (pre ++ l :: rest)%list /\ nt rest = r /\ nontrivia l = true /\
    Forall (fun x => is_trivia (trimmed x) = true) pre.
Proof.
  induction ls as [|x ls IH]; [done|]. unfold nt. cbn [List.filter]. destruct (nontrivia x) eqn:E.
  - intros [= <- <-]. by exists [], ls.
  - intros (pre & rest & -> & Hr & Hl & Hp)%IH. exists (x :: pre), rest. split_and!; [done..|]. constructor; [|done].
    unfold nontrivia in E. by apply negb_false_iff.
Qed.

(** Trivia in front is read as part of the block. *)
Lemma plan_children_trivia pre ls a : Forall (fun x => is_trivia (trimmed x) = true) pre ->
  plan_children (pre ++ ls) a = '(a', n) ← plan_children ls a; Ok (a', List.length pre + n).
Proof.
  induction 1 as [|x pre Hx _ IH]; cbn [app plan_children List.length Nat.add].
  - by destruct (plan_children ls a) as [[??]|].
  - change (is_trivia (trim_start (text x))) with (is_trivia (trimmed x)). rewrite Hx, IH.
    by destruct (plan_children ls a) as [[??]|].
Qed.

Lemma plan_children_end ls tail a : nt ls = tail -> top tail ->
  exists n, plan_children ls a = Ok (a, n) /\ nt (List.skipn n ls) = tail.
Proof.
  intros Hnt Ht. destruct tail as [|l r].
  - exists (List.length ls). split; [|by rewrite List.skipn_all]. revert Hnt. induction ls as [|x ls IH]; [done|].
    cbn [plan_children]. fold (trimmed x). destruct (is_trivia (trimmed x)) eqn:E.
    + rewrite nt_trivia by done. intros H. by rewrite IH.
    + by rewrite nt_nontrivia.
  - destruct (nt_split _ _ _ Hnt) as (pre & rest & -> & <- & Hl & Hp). cbn in Ht.
    rewrite plan_children_trivia by done. cbn [plan_children]. unfold nontrivia in Hl. apply negb_true_iff in Hl.
    fold (trimmed l). rewrite Hl, Ht. cbn. eexists. split; [done|]. rewrite Nat.add_0_r, List.skipn_app, Nat.sub_diag, List.skipn_all.
    cbn [app List.skipn]. by rewrite nt_nontrivia.
Qed.

Definition acc_trials (a : PlanAcc) : nat := if is_some (p_trial a) then 1 else 0.

(** Reading printed children. *)
Lemma plan_children_print cs : forall printed ls tail a,
  nt ls = (printed ++ tail)%list -> Forall2 renders printed (List.map print_child cs) -> forallb child_ok cs = true ->
  acc_trials a + List.length (flat_map child_trials cs) <= 1 -> top tail ->
  exists a' n, plan_children ls a = Ok (a', n) /\ nt (List.skipn n ls) = tail /\
    erase_acc a' = foldl (fun a c => add_child c a) (erase_acc a) cs.
Proof.
  induction cs as [|c cs IH]; intros printed ls tail a Hnt Hr Hok Htr Ht.
  - inversion Hr; subst. destruct (plan_children_end ls tail a Hnt Ht) as (n & -> & Hn). by exists a, n.
  - inversion Hr as [|l ? printed' ? Hl Hr']; subst. cbn [forallb] in Hok. apply andb_true_iff in Hok as [Hc Hok].
    destruct (nt_split _ _ _ Hnt) as (pre & rest & -> & Hrest & Hnl & Hp).
    assert (Hone : forall t, c = Trial t -> p_trial a = None).
    { intros t ->. cbn in Htr. unfold acc_trials in Htr. destruct (p_trial a); [cbn in Htr; lia|done]. }
    destruct (plan_child_print l c a Hc Hl Hone) as (a1 & E1 & Ha1).
    assert (Htr1 : acc_trials a1 + List.length (flat_map child_trials cs) <= 1).
    { apply (f_equal p_trial) in Ha1. cbn in Ha1, Htr. rewrite length_app in Htr. unfold acc_trials in *.
      destruct c as [?|?|t]; cbn in Ha1, Htr; destruct (p_trial a1), (p_trial a); cbn in *; try done; lia. }
    destruct (IH printed' rest tail a1 Hrest Hr' Hok Htr1 Ht) as (a' & n & E & Hn & Ha').
    exists a', (List.length pre + S n). rewrite plan_children_trivia by done. cbn [plan_children].
    unfold nontrivia in Hnl. apply negb_true_iff in Hnl. fold (trimmed l). destruct Hl as [Hi Hlt]. cbn in Hi.
    rewrite Hnl, Hi, E1. cbn. rewrite E. cbn. split; [done|].
    split; [|by rewrite Ha', Ha1]. rewrite List.skipn_app, List.skipn_all2 by lia.
    by replace (List.length pre + S n - List.length pre) with (S n) by lia.
Qed.

Lemma fold_children cs a : foldl (fun a c => add_child c a) a cs =
  match cs with [] => a | _ =>
  {| p_features := p_features a ++ flat_map child_features cs; p_limits := p_limits a ++ flat_map child_limits cs;
     p_trial := match last (flat_map child_trials cs) with Some t => Some (erase_trial t) | None => p_trial a end;
     p_last_end := 0 |} end.
Proof.
  revert a. induction cs as [|c cs IH]; intros a; [done|]. cbn [foldl]. rewrite IH. destruct cs as [|c' cs].
  - cbn. rewrite !app_nil_r. unfold add_child. f_equal; [by destruct c..|]. by destruct c.
  - cbn [p_features p_limits p_trial add_child]. f_equal.
    + rewrite <- app_assoc. done.
    + rewrite <- app_assoc. done.
    + change (flat_map child_trials (c :: c' :: cs)) with (child_trials c ++ flat_map child_trials (c' :: cs))%list.
      rewrite last_app. destruct (last (flat_map child_trials (c' :: cs))); [done|]. by destruct c.
Qed.

Lemma plan_blocks_skip n ls : plan_blocks_go n ls = plan_blocks_go 0 (List.skipn n ls).
Proof. revert n. induction ls as [|l ls IH]; intros [|n]; try done. apply IH. Qed.

Lemma plan_blocks_trivia pre ls : Forall (fun x => is_trivia (trimmed x) = true) pre ->
  plan_blocks_go 0 (pre ++ ls) = plan_blocks_go 0 ls.
Proof.
  induction 1 as [|x pre Hx _ IH]; [done|]. cbn [app plan_blocks_go].
  change (is_trivia (trim_start (text x))) with (is_trivia (trimmed x)). by rewrite Hx.
Qed.

Lemma plan_blocks_nil ls : nt ls = [] -> plan_blocks_go 0 ls = Ok [].
Proof.
  induction ls as [|x ls IH]; [done|]. cbn [plan_blocks_go]. fold (trimmed x). destruct (is_trivia (trimmed x)) eqn:E.
  - by rewrite nt_trivia.
  - by rewrite nt_nontrivia.
Qed.

Lemma plan_blocks_body body : forall printed ls tail, nt ls = (printed ++ tail)%list -> Forall2 renders printed body ->
  forallb (fun l => (0 <? l.1)%nat) body = true ->
  exists ls', plan_blocks_go 0 ls = plan_blocks_go 0 ls' /\ nt ls' = tail.
Proof.
  induction body as [|b body IH]; intros printed ls tail Hnt Hr Hb; inversion Hr as [|l ? printed' ? Hl Hr']; subst; [by exists ls|].
  cbn [forallb] in Hb. apply andb_true_iff in Hb as [Hb Hbody]. destruct (nt_split _ _ _ Hnt) as (pre & rest & -> & Hrest & Hnl & Hp).
  destruct (IH printed' rest tail Hrest Hr' Hbody) as (ls' & E & Hls'). exists ls'. split; [|done].
  rewrite plan_blocks_trivia by done. cbn [plan_blocks_go]. unfold nontrivia in Hnl. apply negb_true_iff in Hnl.
  fold (trimmed l). destruct Hl as [Hi _]. rewrite Hnl, Hi. destruct (b.1); [done|]. exact E.
Qed.

Lemma item_tail_top items printed : Forall2 renders printed (flat_map print_item items) -> top printed.
Proof.
  destruct items as [|i items]; [by inversion 1|]. cbn [flat_map]. destruct i; cbn; inversion 1 as [|? ? ? ? [Hi _]]; subst; done.
Qed.

Lemma head_last {A} (l : list A) : List.length l <= 1 -> last l = head l.
Proof. destruct l as [|? [|? ?]]; cbn; [done|done|lia]. Qed.

Lemma parse_block_print header name cs ls printed tail : child_ok <$> cs = (fun _ => true) <$> cs -> cs <> [] ->
  nt ls = (printed ++ tail)%list -> Forall2 renders printed (List.map print_child cs) ->
  List.length (flat_map child_trials cs) <= 1 -> top tail ->
  exists b n, parse_plan_block header ls name = Ok (b, n) /\ nt (List.skipn n ls) = tail /\
    [erase_plan b] = item_plans (IPlan name cs).
Proof.
  intros Hok Hne Hnt Hr Htr Ht.
  assert (Hoks : forallb child_ok cs = true).
  { clear - Hok. induction cs as [|c cs IH]; [done|]. cbn in *. injection Hok as -> H. by apply IH. }
  destruct (plan_children_print cs printed ls tail
    {| p_features := []; p_limits := []; p_trial := None; p_last_end := end_ header |}) as (a & n & E & Hn & Ha); try done.
  rewrite fold_children in Ha. destruct cs as [|c cs]; [done|]. unfold parse_plan_block. rewrite E. cbn [mbind result_bind].
  assert (Hfull : match p_features a, p_limits a, p_trial a with [], [], None => False | _, _, _ => True end).
  { apply (f_equal p_features) in Ha as Hf. apply (f_equal p_limits) in Ha as Hl. apply (f_equal p_trial) in Ha as Hp.
    cbn in Hf, Hl, Hp. rewrite Hf, Hl. destruct c as [[|??]|[|??]|t]; cbn; try done.
    - by destruct (flat_map child_features cs).
    - change (t :: flat_map child_trials cs) with ([t] ++ flat_map child_trials cs)%list in Hp. rewrite last_app in Hp.
      destruct (flat_map child_features cs), (flat_map child_limits cs), (p_trial a); try done.
      by destruct (last (flat_map child_trials cs)). }
  assert (Hb : [erase_plan {| plan_name := name; features := p_features a; limits := p_limits a; trial := p_trial a;
                              plan_span := span_new (start header) (p_last_end a) |}] = item_plans (IPlan name (c :: cs))).
  { unfold erase_plan, item_plans. cbn [plan_name features limits trial plan_span].
    injection Ha as -> -> Hp. rewrite Hp, head_last by done. unfold option_map. cbn [erase_acc p_trial p_features p_limits app flat_map].
    by destruct (child_trials c ++ flat_map child_trials cs)%list. }
  exists {| plan_name := name; features := p_features a; limits := p_limits a; trial := p_trial a;
            plan_span := span_new (start header) (p_last_end a) |}, n.
  split; [|done]. by destruct (p_features a), (p_limits a), (p_trial a).
Qed.

Lemma plan_blocks_items items : forall printed ls,
  nt ls = printed -> Forall2 renders printed (flat_map print_item items) -> forallb item_ok items = true ->
  exists bs, plan_blocks_go 0 ls = Ok bs /\ List.map erase_plan bs = flat_map item_plans items.
Proof.
  induction items as [|i items IH]; intros printed ls Hnt Hr Hok.
  - inversion Hr; subst. exists []. split; [|done]. by apply plan_blocks_nil.
  - cbn [flat_map forallb] in *. apply andb_true_iff in Hok as [Hi Hok].
    apply Forall2_app_inv_r in Hr as (p1 & p2 & Hp1 & Hp2 & ->). pose proof (item_tail_top _ _ Hp2) as Htop.
    destruct i as [name cs|header body]; cbn [print_item item_ok] in *.
    + inversion Hp1 as [|l ? p1' ? Hl Hp1']; subst. cbn [app] in Hnt.
      destruct (nt_split _ _ _ Hnt) as (pre & rest & -> & Hrest & Hnl & Hp).
      apply andb_true_iff in Hi as [[[Hname Hc]%andb_true_iff Hne%entries_ne]%andb_true_iff Htr%Nat.leb_le].
      destruct (parse_block_print l name cs rest p1' p2) as (b & n & E & Hn & Hb); try done.
      { apply forallb_Forall in Hc. apply list_fmap_ext. intros ? c Hlk. by eapply Forall_lookup_1 in Hc. }
      destruct (IH p2 (List.skipn n rest) Hn Hp2 Hok) as (bs & E' & Hbs). exists (b :: bs).
      rewrite plan_blocks_trivia by done. cbn [plan_blocks_go]. unfold nontrivia in Hnl. apply negb_true_iff in Hnl.
      fold (trimmed l). destruct Hl as [Hli Hlt]. cbn [fst snd] in *. rewrite Hnl, Hli, Hlt. cbn [Nat.eqb].
      change (strip_prefix "plan " _) with (strip_prefix "plan " ("plan " +:+ name)). rewrite strip_prefix_app, (trim_edges _ (plan_ident_edges _ Hname)).
      replace (name =? "") with false by (by destruct name). rewrite Hname. cbn [negb]. rewrite E. cbn [mbind result_bind].
      rewrite plan_blocks_skip, E'. cbn [mbind result_bind]. split; [done|]. cbn [List.map]. rewrite Hbs, <- Hb. done.
    + inversion Hp1 as [|l ? p1' ? Hl Hp1']; subst. cbn [app] in Hnt.
      destruct (nt_split _ _ _ Hnt) as (pre & rest & -> & Hrest & Hnl & Hp).
      apply andb_true_iff in Hi as [Hh Hb].
      destruct (plan_blocks_body body p1' rest p2 Hrest Hp1' Hb) as (ls' & E & Hls').
      destruct (IH p2 ls' Hls' Hp2 Hok) as (bs & E' & Hbs). exists bs. split; [|done].
      rewrite plan_blocks_trivia by done. cbn [plan_blocks_go]. unfold nontrivia in Hnl. apply negb_true_iff in Hnl.
      fold (trimmed l). destruct Hl as [Hli Hlt]. cbn [fst snd] in *. rewrite Hnl, Hli, Hlt. cbn [Nat.eqb].
      apply negb_true_iff in Hh. unfold strip_prefix. by rewrite Hh, E.
Qed.

(** ** What is accepted *)

Lemma pieces_go_Forall {A} (entry : string -> presult A) (P : A -> Prop) pieces refs :
  (forall s r, entry s = Ok r -> P r) -> pieces_go entry pieces = Ok refs -> Forall P refs.
Proof.
  intros HP. revert refs. induction pieces as [|p ps IH]; intros refs; cbn; [by intros [= <-]|].
  destruct (trim p =? ""); [apply IH|]. intros (r & Hr & (out & Ho & [= <-])%bind_Ok)%bind_Ok.
  constructor; [by eapply HP|by apply IH].
Qed.

Lemma feature_ref_ok line s r : feature_ref line s = Ok r -> feature_ok r = true.
Proof.
  unfold feature_ref. destruct (strip_suffix _ s) as [t|].
  - destruct (is_plan_ident t) eqn:E; [|done]. by intros [= <-].
  - destruct (is_plan_ident s) eqn:E; [|done]. by intros [= <-].
Qed.

Lemma limit_ref_ok line s r : limit_ref line s = Ok r -> limit_ok r = true.
Proof.
  unfold limit_ref, limit_entry. destruct (strip_suffix _ s) as [t|].
  - destruct (is_plan_ident t) eqn:E; [|done]. by intros [= <-].
  - destruct (split_whitespace s) as [|n [|v [|? ?]]]; try done. destruct (is_plan_ident n) eqn:E; [|done]. cbn [negb].
    destruct (v =? "unlimited"); [by intros [= <-]|]. destruct (parse_u64 v) as [x|] eqn:Ev; [|done]. intros [= <-]. cbn.
    rewrite E. apply N.leb_le. by eapply parse_u64_bound.
Qed.

Lemma parse_plan_trial_ok line s t : parse_plan_trial line s = Ok t -> trial_ok t = true.
Proof.
  unfold parse_plan_trial. intros ([l r] & _ & (d & _ & H)%bind_Ok)%bind_Ok.
  destruct (is_valid_trial_duration (trim d)) eqn:Ed; [|done]. cbn [negb] in H. apply bind_Ok in H as (p & _ & H).
  destruct (is_plan_ident (trim p)) eqn:Ep; [|done]. injection H as <-. unfold trial_ok. cbn. by rewrite Ed, Ep.
Qed.

Definition acc_ok (a : PlanAcc) : bool :=
  forallb feature_ok (p_features a) && forallb limit_ok (p_limits a) &&
  match p_trial a with Some t => trial_ok t | None => true end.

Lemma plan_child_ok line a a' : acc_ok a = true -> plan_child line a = Ok a' -> acc_ok a' = true.
Proof.
  unfold acc_ok. intros [[Hf Hl]%andb_true_iff Ht]%andb_true_iff. unfold plan_child.
  destruct (strip_prefix "features " _) as [r|].
  { intros (refs & Hr & [= <-])%bind_Ok. cbn. apply (pieces_go_Forall _ (fun r => feature_ok r = true)) in Hr;
      [|intros; by eapply feature_ref_ok]. rewrite forallb_app, Hf, Hl, Ht. cbn. by rewrite (proj2 (forallb_Forall _ _) Hr). }
  destruct (strip_prefix "limits " _) as [r|].
  { intros (refs & Hr & [= <-])%bind_Ok. cbn. apply (pieces_go_Forall _ (fun r => limit_ok r = true)) in Hr;
      [|intros; by eapply limit_ref_ok]. rewrite forallb_app, Hf, Hl, Ht. cbn. by rewrite (proj2 (forallb_Forall _ _) Hr). }
  destruct (strip_prefix "trial " _) as [r|]; [|done]. destruct (is_some _); [done|].
  intros (t & Hp%parse_plan_trial_ok & [= <-])%bind_Ok. cbn. by rewrite Hf, Hl, Hp.
Qed.

Lemma plan_children_ok ls a a' n : acc_ok a = true -> plan_children ls a = Ok (a', n) -> acc_ok a' = true.
Proof.
  revert a n. induction ls as [|l ls IH]; intros a n Ha; cbn [plan_children]; [by intros [= <- _]|].
  destruct (is_trivia _). { intros ([a1 n1] & H & [= <- _])%bind_Ok. by eapply IH. }
  destruct (indent l =? 0)%nat; [by intros [= <- _]|]. destruct (negb _); [done|].
  intros (a1 & Hc & ([a2 n2] & H & [= <- _])%bind_Ok)%bind_Ok. eapply IH; [|exact H]. by eapply plan_child_ok.
Qed.

Lemma parse_plan_block_ok header ls name b n : is_plan_ident name = true ->
  parse_plan_block header ls name = Ok (b, n) -> plan_ok b = true.
Proof.
  unfold parse_plan_block. intros Hname ([a n'] & Ha%plan_children_ok & H)%bind_Ok; [|done]. cbn beta iota in H.
  assert (Hb : b = {| plan_name := name; features := p_features a; limits := p_limits a; trial := p_trial a;
                      plan_span := span_new (start header) (p_last_end a) |} /\
               match p_features a, p_limits a, p_trial a with [], [], None => false | _, _, _ => true end = true).
  { by destruct (p_features a), (p_limits a), (p_trial a); try done; injection H as <- <-. }
  destruct Hb as [-> Hfull]. unfold plan_ok. cbn [plan_name features limits trial]. unfold acc_ok in Ha.
  apply andb_true_iff in Ha as [[-> ->]%andb_true_iff ->]. by rewrite Hname, Hfull.
Qed.

Lemma plan_blocks_ok n ls bs : plan_blocks_go n ls = Ok bs -> Forall (fun b => plan_ok b = true) bs.
Proof.
  revert n bs. induction ls as [|l ls IH]; intros n bs; cbn [plan_blocks_go]; [by intros [= <-]|].
  destruct n as [|n]; [|apply IH]. destruct (is_trivia _); [apply IH|].
  destruct (indent l =? 0)%nat; [|apply IH]. destruct (strip_prefix "plan " _) as [name|]; [|apply IH].
  destruct (trim name =? ""); [done|]. destruct (is_plan_ident (trim name)) eqn:E; [|done]. cbn [negb].
  intros ([b n'] & Hb & (bs' & Hbs & [= <-])%bind_Ok)%bind_Ok. constructor; [by eapply parse_plan_block_ok|by eapply IH].
Qed.

(** ** Gates *)

Definition is_gate_line (l : SourceLine) : bool :=
  nontrivia l && is_some (strip_prefix "gate " (trimmed l)).

(** After the lines [pre] the scan is inside the callable [k], whose header has
    the indentation [ind]: the header is the last one in [pre] and no line after
    it is as shallow. *)
Definition in_callable (pre : list SourceLine) (k : string) (ind : nat) : Prop :=
  exists p h q, pre = (p ++ h :: q)%list /\ nontrivia h = true /\ callable_header_key (trimmed h) = Some k /\ indent h = ind /\
    Forall (fun l => nontrivia l = true -> ind < indent l /\ callable_header_key (trimmed l) = None) q.

(** The gate on line [l] after [pre] reads as [d] and belongs to [k]. *)
Definition site (pre : list SourceLine) (l : SourceLine) (kd : string * GateDirectiveAst) : Prop :=
  exists ind body, in_callable pre kd.1 ind /\ ind < indent l /\ strip_prefix "gate " (trimmed l) = Some body /\
    parse_gate_directive_line l body = Ok kd.2.

(** The gate lines of [ls] with the lines before each, [pre] being before all. *)
Fixpoint gate_lines (pre ls : list SourceLine) : list (list SourceLine * SourceLine) :=
  match ls with
  | [] => []
  | l :: ls =>
    let rest := gate_lines (pre ++ [l]) ls in
    if is_gate_line l then (pre, l) :: rest else rest
  end.

(** The directives of one callable. *)
Definition gates_of (k : string) (gs : list (string * GateDirectiveAst)) : list GateDirectiveAst :=
  List.map snd (List.filter (fun kd => kd.1 =? k) gs).

(** [current] is what the lines [pre] leave it at. *)
Definition tracks (pre : list SourceLine) (current : option (string * nat)) : Prop :=
  match current with
  | Some (k, ind) => in_callable pre k ind
  | None => forall k ind, ~ in_callable pre k ind
  end.

Lemma in_callable_snoc pre l k ind :
  in_callable (pre ++ [l]) k ind <->
  (nontrivia l = true /\ callable_header_key (trimmed l) = Some k /\ indent l = ind) \/
  (in_callable pre k ind /\ (nontrivia l = true -> ind < indent l /\ callable_header_key (trimmed l) = None)).
Proof.
  split.
  - intros (p & h & q & E & Hn & Hk & Hi & Hq). destruct q as [|x q _] using rev_ind.
    + apply app_inj_tail in E as [-> ->]. by left.
    + rewrite app_comm_cons, app_assoc in E. apply app_inj_tail in E as [-> ->]. apply Forall_app in Hq as [Hq Hl].
      rewrite Forall_singleton in Hl. right. split; [|exact Hl]. by exists p, h, q.
  - intros [(Hn & Hk & Hi)|[(p & h & q & -> & Hn & Hk & Hi & Hq) Hl]].
    + by exists pre, l, [].
    + exists p, h, (q ++ [l])%list. rewrite <- app_assoc. split_and!; [done..|]. apply Forall_app. split; [done|]. apply Forall_singleton. exact Hl.
Qed.

Lemma in_callable_fun pre k ind k' ind' : in_callable pre k ind -> in_callable pre k' ind' -> k = k' /\ ind = ind'.
Proof.
  induction pre as [|l pre IH] using rev_ind; [by intros (p & ? & ? & E & _); destruct p|].
  rewrite !in_callable_snoc. intros [(Hn & Hk & Hi)|[H Hl]] [(Hn' & Hk' & Hi')|[H' Hl']].
  - split; congruence.
  - destruct (Hl' Hn). congruence.
  - destruct (Hl Hn'). congruence.
  - by apply IH.
Qed.

Lemma tracks_nil : tracks [] None.
Proof. intros k ind (p & ? & ? & E & _). by destruct p. Qed.

Lemma tracks_trivia pre l cur : nontrivia l = false -> tracks pre cur -> tracks (pre ++ [l]) cur.
Proof.
  intros Hl. destruct cur as [[k ind]|]; cbn.
  - intros H. apply in_callable_snoc. right. split; [done|]. by rewrite Hl.
  - intros H k ind [(E & _)|[E _]]%in_callable_snoc; [by rewrite Hl in E|by eapply H].
Qed.

Definition leave (l : SourceLine) (cur : option (string * nat)) : option (string * nat) :=
  match cur with
  | Some (_, ind) => if (indent l <=? ind)%nat then None else cur
  | None => None
  end.

Lemma tracks_line pre l cur : nontrivia l = true -> tracks pre cur ->
  tracks (pre ++ [l]) (match callable_header_key (trimmed l) with Some k => Some (k, indent l) | None => leave l cur end).
Proof.
  intros Hl H. destruct (callable_header_key (trimmed l)) as [k|] eqn:Ek.
  - apply in_callable_snoc. by left.
  - destruct cur as [[k ind]|]; cbn [leave].
    + destruct (Nat.leb_spec (indent l) ind) as [Hle|Hlt].
      * intros k' ind' [(_ & E & _)|[E Hd]]%in_callable_snoc; [congruence|].
        destruct (in_callable_fun _ _ _ _ _ H E) as [-> ->]. destruct (Hd Hl). lia.
      * apply in_callable_snoc. right. split; [done|]. intros _. by split.
    + intros k ind [(_ & E & _)|[E Hd]]%in_callable_snoc; [congruence|by eapply H].
Qed.

(** A gate line is no header. *)
Lemma gate_no_header body : callable_header_key ("gate " +:+ body) = None.
Proof. done. Qed.

Lemma push_gate_get key d m k :
  bt_get k (push_gate key d m) = if keqb key k then Some (default [] (bt_get key m) ++ [d])%list else bt_get k m.
Proof.
  unfold push_gate. destruct (keqb key k) eqn:E.
  - apply keqb_eq in E as ->. apply bt_get_insert_eq.
  - apply bt_get_insert_ne. intros ->. by rewrite keqb_refl in E.
Qed.

Lemma fold_push_get gs m k :
  bt_get k (foldl (fun m kd => push_gate kd.1 kd.2 m) m gs) =
  match gates_of k gs with [] => bt_get k m | l => Some (default [] (bt_get k m) ++ l)%list end.
Proof.
  revert m. induction gs as [|[k' d] gs IH]; intros m; [done|]. cbn [foldl]. rewrite IH. unfold gates_of. cbn [List.filter fst].
  rewrite push_gate_get. cbn [fst snd]. destruct (String.eqb_spec k' k) as [->|Hne].
  - rewrite keqb_refl. cbn [List.map snd].
    fold (gates_of k gs). destruct (gates_of k gs) as [|g l]; [done|]. cbn. by rewrite <- app_assoc.
  - by rewrite (proj2 (keqb_neq k' k) Hne).
Qed.

Lemma gates_go_spec ls : forall pre m cur, tracks pre cur ->
  match gates_go ls m cur with
  | Ok m' => exists gs, Forall2 (fun pl => site pl.1 pl.2) (gate_lines pre ls) gs /\
               m' = foldl (fun m kd => push_gate kd.1 kd.2 m) m gs
  | Err _ => exists pl, In pl (gate_lines pre ls) /\ forall kd, ~ site pl.1 pl.2 kd
  end.
Proof.
  induction ls as [|l ls IH]; intros pre m cur Hc; cbn [gates_go gate_lines]; [by exists []|].
  fold (trimmed l). unfold is_gate_line. destruct (is_trivia (trimmed l)) eqn:Et.
  { assert (Hn : nontrivia l = false) by (unfold nontrivia; by rewrite Et). rewrite Hn. cbn [andb].
    apply IH. by apply tracks_trivia. }
  assert (Hn : nontrivia l = true) by (unfold nontrivia; by rewrite Et). rewrite Hn. cbn [andb].
  pose proof (tracks_line pre l cur Hn Hc) as Ht. fold (leave l cur).
  destruct (callable_header_key (trimmed l)) as [k|] eqn:Ek.
  { destruct (strip_prefix "gate " (trimmed l)) as [b|] eqn:Eg.
    - apply strip_prefix_Some in Eg. by rewrite Eg, gate_no_header in Ek.
    - cbn [is_some]. by apply IH. }
  destruct (strip_prefix "gate " (trimmed l)) as [b|] eqn:Eg; cbn [is_some]; [|by apply IH].
  destruct (parse_gate_directive_line l b) as [d|e] eqn:Ed; cbn [mbind result_bind].
  2: { exists (pre, l). split; [by left|]. intros kd (ind & body & _ & _ & E & E'). cbn [fst snd] in *. congruence. }
  destruct (leave l cur) as [[k ind]|] eqn:Ecur.
  - specialize (IH (pre ++ [l])%list (push_gate k d m) (Some (k, ind)) Ht). destruct (gates_go _ _ _) as [m'|e].
    + destruct IH as (gs & HF & ->). exists ((k, d) :: gs). split; [|done]. constructor; [|done].
      unfold leave in Ecur. destruct cur as [[k0 i0]|]; [|done]. destruct (Nat.leb_spec (indent l) i0); [done|].
      injection Ecur as -> ->. exists ind, b. done.
    + destruct IH as (pl & Hin & Hno). exists pl. split; [by right|done].
  - exists (pre, l). split; [by left|]. intros kd (ind & body & Hin & Hlt & _). cbn [fst snd] in *.
    destruct cur as [[k0 i0]|]; cbn in Hc; [|by eapply Hc]. destruct (in_callable_fun _ _ _ _ _ Hc Hin) as [-> ->].
    unfold leave in Ecur. destruct (Nat.leb_spec (indent l) ind); [lia|done].
Qed.

Lemma fold_push_sorted gs m : bt_sorted m -> bt_sorted (foldl (fun m kd => push_gate kd.1 kd.2 m) m gs).
Proof. revert m. induction gs as [|[k d] gs IH]; intros m Hm; [done|]. cbn [foldl]. apply IH. by apply bt_insert_sorted. Qed.

(** ** Parsed gates name identifiers *)

Definition directive_ok (d : GateDirectiveAst) : bool :=
  match d with Behind f _ => is_plan_ident f | Quota l _ => is_plan_ident l end.

Lemma parse_directive_ok line body d : parse_gate_directive_line line body = Ok d -> directive_ok d = true.
Proof.
  unfold parse_gate_directive_line. destruct (strip_prefix "behind plan.feature:" _) as [a|].
  - destruct (trim a =? ""); [done|]. destruct (is_plan_ident (trim a)) eqn:E; [|done]. by intros [= <-].
  - destruct (strip_prefix "quota plan.limit:" _) as [a|]; [|done].
    destruct (trim a =? ""); [done|]. destruct (is_plan_ident (trim a)) eqn:E; [|done]. by intros [= <-].
Qed.

Lemma parse_feature_gates_ok source m : parse_feature_gates source = Ok m ->
  forall k ds, In (k, ds) m -> Forall (fun d => directive_ok d = true) ds.
Proof.
  intros H k ds Hin. pose proof (gates_go_spec (source_lines source) [] [] None tracks_nil) as G.
  unfold parse_feature_gates in H. rewrite H in G. destruct G as (gs & HF & ->).
  apply bt_In_get in Hin; [|by apply fold_push_sorted]. rewrite fold_push_get in Hin.
  assert (Hgs : Forall (fun kd => directive_ok kd.2 = true) gs).
  { clear - HF. induction HF as [|pl kd pls kds Hs _ IH]; constructor; [|done].
    destruct Hs as (ind & body & _ & _ & _ & E). by eapply parse_directive_ok. }
  assert (Hof : Forall (fun d => directive_ok d = true) (gates_of k gs)).
  { unfold gates_of. apply Forall_forall. intros d Hd. apply list_elem_of_In, in_map_iff in Hd as (kd & <- & [Hkd _]%filter_In).
    rewrite Forall_forall in Hgs. apply Hgs. by apply list_elem_of_In. }
  destruct (gates_of k gs); [done|]. cbn in Hin. by injection Hin as <-.
Qed.

(** * Properties *)

(** What parses is a plan: identifiers by the grammar, limits that fit 64 bits,
    durations of digits and a unit, and at least one child. *)
Theorem parse_plan_blocks_wf source bs : parse_plan_blocks source = Ok bs -> Forall (fun b => plan_ok b = true) bs.
Proof. apply plan_blocks_ok. Qed.

(** C31: The plan blocks of any file are read back: whatever other top-level blocks,
    comments and blank lines stand around them, however their entries are spread
    over lines, and in order. *)
Theorem parse_plan_blocks_roundtrip source items :
  forallb item_ok items = true -> Forall2 renders (nt (source_lines source)) (flat_map print_item items) ->
  exists bs, parse_plan_blocks source = Ok bs /\ List.map erase_plan bs = flat_map item_plans items.
Proof. intros Hok Hr. by eapply plan_blocks_items. Qed.

Definition sample_items : list item :=
  [IOther "app Shop" [(2, "title " +:+ "Shop")];
   IPlan "starter" [Features [FeatureIdent "search"]; Limits [LimitInteger "seats" 5; LimitUnlimited "api_calls"];
                    Features [FeatureCrossPlan "free"]];
   IPlan "trial_pro" [Limits [LimitCrossPlan "starter"]; Trial {| duration := "14d"; then_plan := "starter"; trial_span := no_span |}];
   IOther "feature billing" [(2, "command pay"); (4, "gate quota plan.limit: seats")]].

Definition sample_source : string := unlines
  ["app Shop"; "  title Shop"; ""; "plan starter"; "  # the entry tier"; "  features search"; "  limits seats 5, api_calls unlimited";
   "  features free.features"; "plan trial_pro"; "  limits starter.limits"; "    "; "  trial duration 14d, then starter";
   "feature billing"; "  command pay"; "    gate quota plan.limit: seats"].

Lemma parse_plan_blocks_roundtrip_witness :
  exists bs, parse_plan_blocks sample_source = Ok bs /\ List.map erase_plan bs = flat_map item_plans sample_items.
Proof. apply parse_plan_blocks_roundtrip; [reflexivity|repeat constructor]. Defined.

Lemma parse_plan_blocks_wf_witness : exists bs, parse_plan_blocks sample_source = Ok bs /\ Forall (fun b => plan_ok b = true) bs.
Proof.
  let v := eval vm_compute in (parse_plan_blocks sample_source) in
  match v with
  | Ok ?bs =>
    assert (E : parse_plan_blocks sample_source = Ok bs) by (vm_compute; reflexivity);
    exists bs; exact (conj E (parse_plan_blocks_wf _ bs E))
  end.
Defined.

(** C35: The gate scan: it succeeds exactly when every gate line is well formed and
    inside a callable, the nearest header above it with no shallower line
    between; the map then holds, for each callable, its gates in source order. *)
Theorem parse_feature_gates_exact source :
  match parse_feature_gates source with
  | Ok m => bt_sorted m /\ exists gs, Forall2 (fun pl => site pl.1 pl.2) (gate_lines [] (source_lines source)) gs /\
              forall k, bt_get k m = match gates_of k gs with [] => None | l => Some l end
  | Err _ => exists pl, In pl (gate_lines [] (source_lines source)) /\ forall kd, ~ site pl.1 pl.2 kd
  end.
Proof.
  pose proof (gates_go_spec (source_lines source) [] [] None tracks_nil) as H. unfold parse_feature_gates.
  destruct (gates_go _ _ _) as [m|e]; [|done]. destruct H as (gs & HF & ->). split; [by apply fold_push_sorted|].
  exists gs. split; [done|]. intros k. rewrite fold_push_get. done.
Qed.
