(* ===== verification/PlanCatalog.v ===== *)
(** The plan catalog and its diagnostics: the IR of
    [lazuli_ir/src/nodes/plan_and_gate.rs], the aggregation of
    [lazuli_analyzer/src/plan_gate/mod.rs], the diagnostics of
    [plan_gate/diagnostics.rs], and the two passes that feed them, the doctor's
    ([lazuli_doctor_run], [package/load_plan_gate.rs] and
    [facts/canonical/mod.rs]) and the generator's
    ([lazuli_cli/src/module_loader/mod.rs]).

    A file is its stem and its source: walking the project directory is left
    out, and so is a file that cannot be read. *)
From S2P Require Import Prelude Str BTree Fmt Lines Helpers Lex LifecycleSyntax PlanSyntax.

(** * IR *)

Inductive PlanLimitValue :=
| Integer (n : N)
| Unlimited.

Record PlanLimit := { l_name : string; l_value : PlanLimitValue }.
Record TrialPolicy := { t_duration : string; t_then_plan : string }.
Record Plan := {
  name : string;
  plan_features : list string;
  plan_limits : list PlanLimit;
  plan_trial : option TrialPolicy;
  span_ref : option Span
}.
Record PlanCatalog := {
  plans : list Plan;
  feature_catalog : list string;
  limit_catalog : list string
}.
Record SubscriptionAnchor := {
  a_feature : string; a_field : string; tenancy_axis : option string; a_span_ref : option Span
}.
Inductive Gate :=
| GateBehind (feature : string)
| GateQuota (limit : string).

(** * Facts *)

Record PlanGateFacts := {
  catalog : option PlanCatalog;
  subscription_anchor : option SubscriptionAnchor;
  gates : list (string * list Gate)
}.

(** [parse_subscription_anchor] *)
Fixpoint anchor_go (in_app : bool) (offset : nat) (ls : list string) : option SubscriptionAnchor :=
  match ls with
  | [] => None
  | line :: ls =>
    let line_len := str_len line in
    let next := offset + line_len + 1 in
    let trimmed := trim_start line in
    if (trimmed =? "") || starts_with "#" trimmed then anchor_go in_app next ls
    else
      let indent := line_len - str_len trimmed in
      if (indent =? 0)%nat then anchor_go (starts_with "app " trimmed) next ls
      else if negb in_app then anchor_go in_app next ls
      else if negb (indent =? 2)%nat then anchor_go in_app next ls
      else
        match
          rest ← strip_prefix "subscription resource " trimmed;
          '(feature, field) ← split_once "." (trim rest);
          let feature := trim feature in
          let field := trim field in
          if nonempty feature && nonempty field then
            Some {| a_feature := feature; a_field := field; tenancy_axis := None;
                    a_span_ref := Some (span_new offset (offset + line_len)) |}
          else None
        with
        | Some anchor => Some anchor
        | None => anchor_go in_app next ls
        end
  end.
Definition parse_subscription_anchor (app_lzi_source : string) : option SubscriptionAnchor :=
  anchor_go false 0 (str_lines app_lzi_source).

(** ** The catalog *)

Record Staging := {
  direct_features : list string;
  feature_refs : list string;
  direct_limits : list (string * PlanLimitValue);
  limit_refs : list string;
  s_trial : option TrialPolicy;
  s_span_ref : option Span
}.

Definition feature_idents (refs : list PlanFeatureRefAst) : list string :=
  omap (fun r => match r with FeatureIdent s => Some s | FeatureCrossPlan _ => None end) refs.
Definition feature_others (refs : list PlanFeatureRefAst) : list string :=
  omap (fun r => match r with FeatureIdent _ => None | FeatureCrossPlan other => Some other end) refs.
Definition limit_values (refs : list PlanLimitRefAst) : list (string * PlanLimitValue) :=
  omap (fun r => match r with
    | LimitInteger n v => Some (n, Integer v)
    | LimitUnlimited n => Some (n, Unlimited)
    | LimitCrossPlan _ => None end) refs.
Definition limit_others (refs : list PlanLimitRefAst) : list string :=
  omap (fun r => match r with LimitCrossPlan other => Some other | _ => None end) refs.

(** Pass 1, one block. *)
Definition stage (plan : PlanBlockAst) : Staging := {|
  direct_features := feature_idents (features plan);
  feature_refs := feature_others (features plan);
  direct_limits := bt_collect (limit_values (limits plan));
  limit_refs := limit_others (limits plan);
  s_trial := option_map (fun t => {| t_duration := duration t; t_then_plan := then_plan t |}) (trial plan);
  s_span_ref := Some (span_new (span_start (plan_span plan)) (span_end (plan_span plan))) |}.
Definition staging (plan_blocks : list PlanBlockAst) : list (string * Staging) :=
  bt_collect (List.map (fun plan => (plan_name plan, stage plan)) plan_blocks).

(** Pass 2, one plan against the direct sets of all. *)
Definition expand_features (st : list (string * Staging)) (s : Staging) : list string :=
  foldl (fun set other =>
    match bt_get other st with
    | Some o => fold_left (fun set f => bs_insert f set) (direct_features o) set
    | None => set
    end) (bs_collect (direct_features s)) (feature_refs s).
Definition expand_limits (st : list (string * Staging)) (s : Staging) : list (string * PlanLimitValue) :=
  foldl (fun m other =>
    match bt_get other st with
    | Some o => foldl (fun m kv => bt_or_insert kv.1 kv.2 m) m (direct_limits o)
    | None => m
    end) (direct_limits s) (limit_refs s).
Definition expand_plan (st : list (string * Staging)) (ns : string * Staging) : Plan := {|
  name := ns.1;
  plan_features := sort_by id (expand_features st ns.2);
  plan_limits := sort_by l_name (List.map (fun nv => {| l_name := nv.1; l_value := nv.2 |}) (expand_limits st ns.2));
  plan_trial := s_trial ns.2;
  span_ref := s_span_ref ns.2 |}.

Definition build_plan_catalog (plan_blocks : list PlanBlockAst) : PlanCatalog :=
  let st := staging plan_blocks in
  let plans := List.map (expand_plan st) st in {|
  plans := sort_by name plans;
  feature_catalog := bs_collect (flat_map plan_features plans);
  limit_catalog := bs_collect (flat_map (fun p => List.map l_name (plan_limits p)) plans) |}.

(** ** Aggregation *)

Definition lower_gate (d : GateDirectiveAst) : Gate :=
  match d with Behind feature _ => GateBehind feature | Quota limit _ => GateQuota limit end.

Definition qualified (feature callable_key : string) : string := feature +:+ "/" +:+ callable_key.

(** The map the two loops build. *)
Definition aggregate_gates (feature_gates : list (string * FeatureGatesAst)) : list (string * list Gate) :=
  bt_collect (flat_map (fun fg =>
    List.map (fun kd => (qualified fg.1 kd.1, List.map lower_gate kd.2)) fg.2) feature_gates).

Definition aggregate_plan_gate_facts (plan_blocks : list PlanBlockAst)
    (feature_gates : list (string * FeatureGatesAst)) (anchor : option SubscriptionAnchor) : PlanGateFacts := {|
  catalog := match plan_blocks with [] => None | _ => Some (build_plan_catalog plan_blocks) end;
  subscription_anchor := anchor;
  gates := aggregate_gates feature_gates |}.

(** * Diagnostics *)

Inductive PlanGateCode :=
| FeatureUndeclared | QuotaMissing | NoSubscription | TrialWithoutFallback | SubscriptionTenancy | GateEvalOrder.

Definition as_str (code : PlanGateCode) : string :=
  match code with
  | FeatureUndeclared => "PLAN-FEATURE-UNDECLARED-001"
  | QuotaMissing => "PLAN-QUOTA-MISSING-001"
  | NoSubscription => "PLAN-NO-SUBSCRIPTION-001"
  | TrialWithoutFallback => "PLAN-TRIAL-WITHOUT-FALLBACK-001"
  | SubscriptionTenancy => "PLAN-SUBSCRIPTION-TENANCY-001"
  | GateEvalOrder => "GATE-EVAL-ORDER-001"
  end.

Record PlanGateDiagnostic := { d_code : PlanGateCode; message : string; d_span : Span }.

Definition package_wide : Span := span_new 0 0.

(** PLAN-NO-SUBSCRIPTION-001 *)
Definition diagnose_subscription (facts : PlanGateFacts) : list PlanGateDiagnostic :=
  match gates facts, subscription_anchor facts with
  | (example, _) :: _, None =>
    [{| d_code := NoSubscription;
        message := "callable `" +:+ example +:+ "` declares a `gate` but `app.lzi` does not declare `subscription resource <feature>.<field>`; the runtime has no anchor to resolve the active plan";
        d_span := package_wide |}]
  | _, _ => []
  end.

Definition limit_to_plans (plans : list Plan) : list (string * list string) :=
  foldl (fun m plan => foldl (fun m lim => bt_insert (l_name lim) (bs_insert (name plan) (default [] (bt_get (l_name lim) m))) m)
    m (plan_limits plan)) [] plans.
Definition all_plans (c : PlanCatalog) : list string := bs_collect (List.map name (plans c)).

(** The equality of two [BTreeSet]s. *)
Definition bs_eqb (a b : list string) : bool := if decide (a = b) then true else false.

(** PLAN-FEATURE-UNDECLARED-001 and PLAN-QUOTA-MISSING-001 *)
Definition diagnose_gate (c : PlanCatalog) (callable_key : string) (gate : Gate) : list PlanGateDiagnostic :=
  match gate with
  | GateBehind feature =>
    if negb (bs_mem feature (bs_collect (feature_catalog c))) then
      [{| d_code := FeatureUndeclared;
          message := "gate `behind plan.feature: " +:+ feature +:+ "` on `" +:+ callable_key +:+ "` references a feature not declared by any plan; the feature catalog is the union of every plan's `features` list";
          d_span := package_wide |}]
    else []
  | GateQuota limit =>
    if negb (bs_mem limit (bs_collect (limit_catalog c))) then
      [{| d_code := QuotaMissing;
          message := "gate `quota plan.limit: " +:+ limit +:+ "` on `" +:+ callable_key +:+ "` references a limit not declared by any plan";
          d_span := package_wide |}]
    else
      match bt_get limit (limit_to_plans (plans c)) with
      | Some declaring =>
        if bs_eqb declaring (all_plans c) then []
        else
          let missing := List.filter (fun p => negb (bs_mem p declaring)) (all_plans c) in
          [{| d_code := QuotaMissing;
              message := "gate `quota plan.limit: " +:+ limit +:+ "` on `" +:+ callable_key +:+ "` is not declared by plan(s) " +:+ join ", " missing +:+ "; quota gates must be honored by every tier (set `<X> unlimited` to opt out)";
              d_span := package_wide |}]
      | None => []
      end
  end.

(** PLAN-TRIAL-WITHOUT-FALLBACK-001 *)
Definition diagnose_trial (c : PlanCatalog) (plan : Plan) : list PlanGateDiagnostic :=
  match plan_trial plan with
  | None => []
  | Some trial =>
    let span := default package_wide (span_ref plan) in
    match List.find (fun p => name p =? t_then_plan trial) (plans c) with
    | None =>
      [{| d_code := TrialWithoutFallback;
          message := "plan `" +:+ name plan +:+ "` declares `trial then " +:+ t_then_plan trial +:+ "` but `" +:+ t_then_plan trial +:+ "` is not a declared plan";
          d_span := span |}]
    | Some then_ =>
      let then_features := bs_collect (plan_features then_) in
      match List.filter (fun f => negb (bs_mem f then_features)) (plan_features plan) with
      | [] => []
      | missing =>
        [{| d_code := TrialWithoutFallback;
            message := "plan `" +:+ name plan +:+ "` declares `trial then " +:+ t_then_plan trial +:+ "` but `" +:+ t_then_plan trial +:+ "`'s feature set is missing " +:+ join ", " missing +:+ " — trial revert would lose features the caller had during trial (declare `unlimited` on the fallback or move features out of the trial plan)";
            d_span := span |}]
      end
    end
  end.

Definition diagnose_catalog (facts : PlanGateFacts) : list PlanGateDiagnostic :=
  match catalog facts with
  | Some c =>
    flat_map (fun kg => flat_map (diagnose_gate c kg.1) kg.2) (gates facts) ++ flat_map (diagnose_trial c) (plans c)
  | None =>
    List.map (fun kg =>
      {| d_code := FeatureUndeclared;
         message := "callable `" +:+ kg.1 +:+ "` declares a `gate` but no `plan` blocks are authored; declare at least one plan with `features` / `limits`";
         d_span := package_wide |}) (gates facts)
  end.

(** GATE-EVAL-ORDER-001 *)
Definition diagnose_order (src : (string * string) * Span) : list PlanGateDiagnostic :=
  let '((callable_key, body), span) := src in
  match find_keyword_line_offset body "policy ", find_keyword_line_offset body "gate " with
  | Some policy_pos, Some gate_pos =>
    if (policy_pos <? gate_pos)%nat then
      [{| d_code := GateEvalOrder;
          message := "callable `" +:+ callable_key +:+ "` declares `gate` after `policy`; gates evaluate before policy and must be authored in that order";
          d_span := span |}]
    else []
  | _, _ => []
  end.

Definition diagnose_plan_gate_facts (facts : PlanGateFacts) (sources : list ((string * string) * Span))
    : list PlanGateDiagnostic :=
  (diagnose_subscription facts ++ diagnose_catalog facts ++ flat_map diagnose_order sources)%list.

(** * The passes over the files *)

(** [derive_feature_name] *)
Fixpoint feature_name_go (ls : list string) : option string :=
  match ls with
  | [] => None
  | line :: ls =>
    match strip_prefix "feature " (trim_start line) with
    | Some rest => head (split_whitespace rest)
    | None => feature_name_go ls
    end
  end.
Definition derive_feature_name (source : string) : option string := feature_name_go (str_lines source).

(** The feature a file's gates are filed under. *)
Definition feature_of (file : string * string) : string := default file.1 (derive_feature_name file.2).

Definition plan_blocks_of (file : string * string) : list PlanBlockAst :=
  match parse_plan_blocks file.2 with Ok blocks => blocks | Err _ => [] end.
Definition feature_gates_of (file : string * string) : list (string * FeatureGatesAst) :=
  match parse_feature_gates file.2 with
  | Ok [] => []
  | Ok fg => [(feature_of file, fg)]
  | Err _ => []
  end.

Definition facts_of (blocks : list PlanBlockAst) (fgs : list (string * FeatureGatesAst))
    (anchor : option SubscriptionAnchor) : option PlanGateFacts :=
  match blocks, fgs, anchor with
  | [], [], None => None
  | _, _, _ => Some (aggregate_plan_gate_facts blocks fgs anchor)
  end.

(** The doctor's pass; [app] is the source of the app manifest. *)
Definition build_plan_gate_facts (files : list (string * string)) (app : option string) : option PlanGateFacts :=
  facts_of (flat_map plan_blocks_of files) (flat_map feature_gates_of files) (app ≫= parse_subscription_anchor).

(** The generator's pass: the first file with an anchor. *)
Fixpoint first_anchor (files : list (string * string)) : option SubscriptionAnchor :=
  match files with
  | [] => None
  | file :: files =>
    match parse_subscription_anchor file.2 with Some a => Some a | None => first_anchor files end
  end.
Definition collect_plan_gate_facts_for_generate (files : list (string * string)) : option PlanGateFacts :=
  facts_of (flat_map plan_blocks_of files) (flat_map feature_gates_of files) (first_anchor files).

(** [collect_callable_bodies_for_eval_order], one file: [current] is the key, the
    header's indentation, where the body starts and the body so far. *)
Definition close_body (feature : string) (offset : nat) (current : option (((string * nat) * nat) * string))
    : list ((string * string) * Span) :=
  match current with
  | Some (((key, _), body_start), body) => [((qualified feature key, body), span_new body_start offset)]
  | None => []
  end.
Fixpoint bodies_go (feature : string) (offset : nat) (current : option (((string * nat) * nat) * string)) (ls : list string)
    : list ((string * string) * Span) :=
  match ls with
  | [] => close_body feature offset current
  | line :: ls =>
    let line_len := str_len line in
    let trimmed := trim_start line in
    let indent := line_len - str_len trimmed in
    let closes :=
      match current with
      | Some (((_, header_indent), _), _) => nonempty trimmed && (indent <=? header_indent)%nat
      | None => false
      end in
    let out := if closes then close_body feature offset current else [] in
    let current := if closes then None else current in
    let next := offset + line_len + 1 in
    let extended :=
      match current with
      | Some (h, body) => Some (h, body +:+ line +:+ NL)
      | None => None
      end in
    (out ++
     match callable_header_key trimmed with
     | Some key =>
       if (indent =? 2)%nat then bodies_go feature next (Some (((key, indent), next), "")) ls
       else bodies_go feature next extended ls
     | None => bodies_go feature next extended ls
     end)%list
  end.
Definition collect_callable_bodies_for_eval_order (files : list (string * string)) : list ((string * string) * Span) :=
  flat_map (fun file => bodies_go (feature_of file) 0 None (str_lines file.2)) files.

(** The plan-gate part of the doctor's run. *)
Definition plan_gate_diagnostics (files : list (string * string)) (app : option string) : list PlanGateDiagnostic :=
  match build_plan_gate_facts files app with
  | Some facts => diagnose_plan_gate_facts facts (collect_callable_bodies_for_eval_order files)
  | None => []
  end.

(** * What a plan block declares *)

(** The block a plan name stands for: the last one. *)
Definition last_block (blocks : list PlanBlockAst) (n : string) : option PlanBlockAst :=
  List.find (fun b => keqb n (plan_name b)) (rev blocks).

(** A feature of a plan: its own, or one of a plan it refers to. *)
Definition unlocks (blocks : list PlanBlockAst) (b : PlanBlockAst) (f : string) : Prop :=
  In (FeatureIdent f) (features b) \/
  exists other b', In (FeatureCrossPlan other) (features b) /\ last_block blocks other = Some b' /\
    In (FeatureIdent f) (features b').

(** The value a block itself gives a limit: the last entry. *)
Definition own_limit (b : PlanBlockAst) (n : string) : option PlanLimitValue :=
  snd <$> List.find (fun kv => keqb n kv.1) (rev (limit_values (limits b))).

(** The first of the plans referred to that gives the limit a value. *)
Fixpoint inherited (blocks : list PlanBlockAst) (others : list string) (n : string) : option PlanLimitValue :=
  match others with
  | [] => None
  | other :: others =>
    match b ← last_block blocks other; own_limit b n with
    | Some v => Some v
    | None => inherited blocks others n
    end
  end.
Definition limit_of (blocks : list PlanBlockAst) (b : PlanBlockAst) (n : string) : option PlanLimitValue :=
  match own_limit b n with Some v => Some v | None => inherited blocks (limit_others (limits b)) n end.

(** The value a compiled plan gives a limit. *)
Definition plan_limit (p : Plan) (n : string) : option PlanLimitValue :=
  l_value <$> List.find (fun l => l_name l =? n) (plan_limits p).

(** * Lemmas *)

Lemma feature_idents_In refs f : In f (feature_idents refs) <-> In (FeatureIdent f) refs.
Proof.
  unfold feature_idents. induction refs as [|[s|s] refs IH]; cbn; [done|rewrite IH|rewrite IH]; split; try naive_solver.
Qed.

Lemma feature_others_In refs f : In f (feature_others refs) <-> In (FeatureCrossPlan f) refs.
Proof.
  unfold feature_others. induction refs as [|[s|s] refs IH]; cbn; [done|rewrite IH|rewrite IH]; split; try naive_solver.
Qed.

Lemma staging_get blocks n : bt_get n (staging blocks) = stage <$> last_block blocks n.
Proof.
  unfold staging, last_block. rewrite bt_collect_get, <- map_rev. induction (rev blocks) as [|b bs IH]; [done|]. cbn.
  by destruct (keqb n (plan_name b)).
Qed.

Lemma staging_sorted blocks : bt_sorted (staging blocks).
Proof. apply bt_collect_sorted. Qed.

Lemma last_block_name blocks n b : last_block blocks n = Some b -> plan_name b = n /\ In b blocks.
Proof. intros [Hin Hk]%find_some. apply keqb_eq in Hk as ->. split; [done|]. by apply in_rev. Qed.

Lemma last_block_Some blocks b : In b blocks -> exists b', last_block blocks (plan_name b) = Some b'.
Proof.
  intros Hb. unfold last_block. destruct (List.find _ _) as [b'|] eqn:E; [by exists b'|]. apply in_rev in Hb.
  apply (find_none _ _ E) in Hb. by rewrite keqb_refl in Hb.
Qed.

Lemma expand_features_In st s f : In f (expand_features st s) <->
  In f (direct_features s) \/ exists other o, In other (feature_refs s) /\ bt_get other st = Some o /\ In f (direct_features o).
Proof.
  unfold expand_features. rewrite <- (bs_collect_In (direct_features s) f). generalize (bs_collect (direct_features s)) as set.
  induction (feature_refs s) as [|r rs IH]; intros set; cbn [foldl].
  - split; [by left|]. by intros [?|(? & ? & [] & _)].
  - rewrite IH. destruct (bt_get r st) as [o|] eqn:E.
    + rewrite (bs_fold_In (direct_features o) set f). cbn. naive_solver.
    + cbn. naive_solver.
Qed.

Lemma expand_features_sorted st s : bs_sorted (expand_features st s).
Proof.
  unfold expand_features. pose proof (bs_collect_sorted (direct_features s)) as Hs. revert Hs.
  generalize (bs_collect (direct_features s)) as set. induction (feature_refs s) as [|r rs IH]; intros set Hs; [done|].
  cbn [foldl]. apply IH. destruct (bt_get r st); [|done]. by apply bs_fold_sorted.
Qed.

Lemma or_insert_fold_get (l : list (string * PlanLimitValue)) m n :
  bt_sorted l ->
  bt_get n (foldl (fun m kv => bt_or_insert kv.1 kv.2 m) m l) =
  match bt_get n m with Some v => Some v | None => bt_get n l end.
Proof.
  revert m. induction l as [|[k v] l IH]; intros m Hl; cbn [foldl bt_get]; [by destruct (bt_get n m)|].
  destruct Hl as [Hk Hl]. rewrite IH by done. rewrite bt_or_insert_get. cbn [fst snd]. destruct (bt_get n m); [done|].
  by destruct (keqb n k).
Qed.

Lemma or_insert_fold_sorted (l : list (string * PlanLimitValue)) m :
  bt_sorted m -> bt_sorted (foldl (fun m kv => bt_or_insert kv.1 kv.2 m) m l).
Proof. revert m. induction l as [|kv l IH]; intros m Hm; cbn [foldl]; [done|]. by apply IH, bt_or_insert_sorted. Qed.

Lemma stage_limit b n : bt_get n (direct_limits (stage b)) = own_limit b n.
Proof. apply bt_collect_get. Qed.

Lemma expand_limits_get blocks b n : bt_get n (expand_limits (staging blocks) (stage b)) = limit_of blocks b n.
Proof.
  unfold expand_limits, limit_of. rewrite <- stage_limit. cbn [limit_refs stage].
  generalize (direct_limits (stage b)) as m. induction (limit_others (limits b)) as [|r rs IH]; intros m; cbn [foldl inherited].
  - by destruct (bt_get n m).
  - rewrite IH, staging_get. destruct (last_block blocks r) as [b'|]; cbn [fmap option_fmap option_map mbind option_bind].
    + rewrite or_insert_fold_get by apply bt_collect_sorted. rewrite stage_limit.
      destruct (bt_get n m); [done|]. by destruct (own_limit b' n).
    + done.
Qed.

Lemma expand_limits_sorted st b : bt_sorted (expand_limits st (stage b)).
Proof.
  unfold expand_limits. assert (Hs : bt_sorted (direct_limits (stage b))) by apply bt_collect_sorted. revert Hs.
  generalize (direct_limits (stage b)) as m. induction (limit_refs (stage b)) as [|r rs IH]; intros m Hm; [done|].
  cbn [foldl]. apply IH. destruct (bt_get r st); [|done]. by apply or_insert_fold_sorted.
Qed.

Lemma find_get (m : list (string * PlanLimitValue)) n :
  l_value <$> List.find (fun l => l_name l =? n) (List.map (fun nv => {| l_name := nv.1; l_value := nv.2 |}) m) = bt_get n m.
Proof.
  induction m as [|[k v] m IH]; [done|]. cbn. destruct (String.eqb_spec k n) as [->|Hne].
  - by rewrite keqb_refl.
  - rewrite IH. by rewrite (proj2 (keqb_neq n k)) by congruence.
Qed.

(** The sorting of ordered lists is the identity. *)
Lemma expand_plan_eq blocks n b : expand_plan (staging blocks) (n, stage b) = {|
  name := n; plan_features := expand_features (staging blocks) (stage b);
  plan_limits := List.map (fun nv => {| l_name := nv.1; l_value := nv.2 |}) (expand_limits (staging blocks) (stage b));
  plan_trial := s_trial (stage b); span_ref := s_span_ref (stage b) |}.
Proof.
  unfold expand_plan. cbn [fst snd]. f_equal.
  - apply sort_by_sorted. rewrite map_id. apply expand_features_sorted.
  - apply sort_by_sorted. rewrite map_map. cbn. apply bt_sorted_keys, expand_limits_sorted.
Qed.

Lemma build_plans blocks : plans (build_plan_catalog blocks) = List.map (expand_plan (staging blocks)) (staging blocks).
Proof.
  unfold build_plan_catalog. cbn [plans]. apply sort_by_sorted. rewrite map_map.
  change (bs_sorted (List.map fst (staging blocks))). apply bt_sorted_keys, staging_sorted.
Qed.

Lemma staging_entry blocks n s : In (n, s) (staging blocks) <-> exists b, last_block blocks n = Some b /\ s = stage b.
Proof.
  split.
  - intros H. apply bt_In_get in H; [|apply staging_sorted]. rewrite staging_get in H.
    destruct (last_block blocks n) as [b|]; [|done]. injection H as <-. eauto.
  - intros (b & Hb & ->). apply bt_get_In. by rewrite staging_get, Hb.
Qed.

(** The plans of the catalog are the blocks that count, by name. *)
Lemma plans_In blocks p : In p (plans (build_plan_catalog blocks)) <->
  exists b, last_block blocks (name p) = Some b /\ p = expand_plan (staging blocks) (name p, stage b).
Proof.
  rewrite build_plans, in_map_iff. split.
  - intros ([n s] & <- & (b & Hb & ->)%staging_entry). exists b. cbn. done.
  - intros (b & Hb & E). exists (name p, stage b). split; [done|]. apply staging_entry. eauto.
Qed.

Lemma plans_names blocks : List.map name (plans (build_plan_catalog blocks)) = List.map fst (staging blocks).
Proof. rewrite build_plans, map_map. done. Qed.

Lemma plans_sorted blocks : bs_sorted (List.map name (plans (build_plan_catalog blocks))).
Proof. rewrite plans_names. apply bt_sorted_keys, staging_sorted. Qed.

Lemma plans_unique blocks p q : In p (plans (build_plan_catalog blocks)) -> In q (plans (build_plan_catalog blocks)) ->
  name p = name q -> p = q.
Proof.
  intros (b & Hb & Ep)%plans_In (b' & Hb' & Eq)%plans_In E.
  rewrite E, Hb' in Hb. injection Hb as <-. rewrite E in Ep. congruence.
Qed.

Lemma plan_limit_In p n : In n (List.map l_name (plan_limits p)) <-> plan_limit p n <> None.
Proof.
  unfold plan_limit. split.
  - intros (l & <- & Hl)%in_map_iff. destruct (List.find _ _) eqn:E; [done|]. apply (find_none _ _ E) in Hl.
    by rewrite String.eqb_refl in Hl.
  - destruct (List.find _ _) as [l|] eqn:E; [|done]. intros _. apply find_some in E as [Hl Hn%String.eqb_eq]. rewrite <- Hn.
    by apply in_map.
Qed.

Lemma catalog_features blocks f : In f (feature_catalog (build_plan_catalog blocks)) <->
  exists p, In p (plans (build_plan_catalog blocks)) /\ In f (plan_features p).
Proof.
  cbn [feature_catalog build_plan_catalog plans]. rewrite bs_collect_In, in_flat_map. by setoid_rewrite sort_by_In.
Qed.

Lemma catalog_limits blocks n : In n (limit_catalog (build_plan_catalog blocks)) <->
  exists p, In p (plans (build_plan_catalog blocks)) /\ plan_limit p n <> None.
Proof.
  cbn [limit_catalog build_plan_catalog plans]. rewrite bs_collect_In, in_flat_map. setoid_rewrite sort_by_In.
  by setoid_rewrite plan_limit_In.
Qed.

(** ** Which plans declare a limit *)

Abbreviation declarers m n := (default [] (bt_get n m)).

Definition add_limits (p : Plan) (lims : list PlanLimit) (m : list (string * list string)) : list (string * list string) :=
  foldl (fun m lim => bt_insert (l_name lim) (bs_insert (name p) (declarers m (l_name lim))) m) m lims.

Lemma add_limits_In p lims m n x : In x (declarers (add_limits p lims m) n) <->
  In x (declarers m n) \/ (x = name p /\ In n (List.map l_name lims)).
Proof.
  revert m. induction lims as [|l lims IH]; intros m; cbn [add_limits foldl List.map In]; [naive_solver|].
  change (foldl _ ?m0 lims) with (add_limits p lims m0). rewrite IH, bt_get_insert. destruct (keqb n (l_name l)) eqn:E.
  - apply keqb_eq in E as ->. cbn. rewrite bs_insert_In. naive_solver.
  - apply keqb_neq in E. naive_solver.
Qed.

Lemma add_limits_sorted p lims m : (forall n, bs_sorted (declarers m n)) -> forall n, bs_sorted (declarers (add_limits p lims m) n).
Proof.
  revert m. induction lims as [|l lims IH]; intros m Hm; [done|]. cbn [add_limits foldl].
  change (foldl _ ?m0 lims) with (add_limits p lims m0). apply IH. intros n. rewrite bt_get_insert.
  destruct (keqb n (l_name l)); [|done]. by apply bs_insert_sorted.
Qed.

Lemma limit_to_plans_spec ps n : bs_sorted (declarers (limit_to_plans ps) n) /\
  forall x, In x (declarers (limit_to_plans ps) n) <-> exists p, In p ps /\ x = name p /\ plan_limit p n <> None.
Proof.
  setoid_rewrite <- plan_limit_In. unfold limit_to_plans.
  assert (G : forall m, (forall n, bs_sorted (declarers m n)) ->
    bs_sorted (declarers (foldl (fun m p => add_limits p (plan_limits p) m) m ps) n) /\
    forall x, In x (declarers (foldl (fun m p => add_limits p (plan_limits p) m) m ps) n) <->
      In x (declarers m n) \/ exists p, In p ps /\ x = name p /\ In n (List.map l_name (plan_limits p))).
  { induction ps as [|p ps IH]; intros m Hm; cbn [foldl]; [split; [done|]; cbn; naive_solver|].
    destruct (IH (add_limits p (plan_limits p) m)) as [Hs Hx]; [by apply add_limits_sorted|]. split; [done|].
    intros x. rewrite Hx, add_limits_In. cbn. naive_solver. }
  destruct (G []) as [Hs Hx]; [done|]. split; [exact Hs|]. intros x. etransitivity; [apply Hx|]. cbn. naive_solver.
Qed.

Lemma bs_eqb_true a b : bs_eqb a b = true <-> a = b.
Proof. unfold bs_eqb. by destruct (decide (a = b)). Qed.

(** A quota gate is fine when every plan declares its limit. *)
Lemma diagnose_quota blocks key n : blocks <> [] ->
  diagnose_gate (build_plan_catalog blocks) key (GateQuota n) = [] <->
  forall p, In p (plans (build_plan_catalog blocks)) -> plan_limit p n <> None.
Proof.
  intros Hne. set (c := build_plan_catalog blocks). cbn [diagnose_gate].
  destruct (limit_to_plans_spec (plans c) n) as [Hs Hx]. destruct (bs_mem n (bs_collect (limit_catalog c))) eqn:Em; cbn [negb].
  - apply bs_mem_In, bs_collect_In, catalog_limits in Em as (p0 & Hp0 & Hl0).
    assert (Hd : exists d, bt_get n (limit_to_plans (plans c)) = Some d).
    { destruct (bt_get n (limit_to_plans (plans c))) as [d|]; [by exists d|]. cbn in Hx. exfalso. apply (Hx (name p0)). eauto. }
    destruct Hd as [d Hd]. rewrite Hd in *. cbn [default from_option id] in *. destruct (bs_eqb d (all_plans c)) eqn:Eb.
    + apply bs_eqb_true in Eb as ->. split; [|done]. intros _ p Hp.
      assert (Hin : In (name p) (all_plans c)) by (apply bs_collect_In; by apply in_map).
      apply Hx in Hin as (q & Hq & E & Hl). by rewrite (plans_unique _ _ _ Hp Hq E).
    + split; [done|]. intros H. exfalso. enough (bs_eqb d (all_plans c) = true) by congruence. apply bs_eqb_true.
      apply bs_ext; [done|apply bs_collect_sorted|]. intros x. rewrite Hx. unfold all_plans. rewrite bs_collect_In, in_map_iff.
      split; [intros (p & Hp & -> & _); eauto|intros (p & <- & Hp); eauto].
  - apply bs_mem_false in Em. split; [done|]. intros H. exfalso. apply Em. apply bs_collect_In, catalog_limits.
    destruct blocks as [|b bs]; [done|]. destruct (last_block_Some (b :: bs) b) as [b' Hb']; [by left|].
    exists (expand_plan (staging (b :: bs)) (plan_name b, stage b')).
    assert (Hp : In (expand_plan (staging (b :: bs)) (plan_name b, stage b')) (plans c)).
    { apply plans_In. exists b'. split; [exact Hb'|done]. }
    split; [done|by apply H].
Qed.

Lemma diagnose_behind blocks key f :
  diagnose_gate (build_plan_catalog blocks) key (GateBehind f) = [] <->
  exists p, In p (plans (build_plan_catalog blocks)) /\ In f (plan_features p).
Proof.
  rewrite <- catalog_features. cbn [diagnose_gate].
  destruct (bs_mem f (bs_collect (feature_catalog (build_plan_catalog blocks)))) eqn:E; cbn [negb].
  - apply bs_mem_In in E. rewrite bs_collect_In in E. by split.
  - apply bs_mem_false in E. rewrite bs_collect_In in E. split; [done|tauto].
Qed.

Lemma diagnose_trial_nil c p : diagnose_trial c p = [] <->
  forall t, plan_trial p = Some t ->
    exists q, List.find (fun p => name p =? t_then_plan t) (plans c) = Some q /\
      forall f, In f (plan_features p) -> In f (plan_features q).
Proof.
  unfold diagnose_trial. destruct (plan_trial p) as [t|]; [|done].
  destruct (List.find _ (plans c)) as [q|] eqn:Ef.
  - destruct (List.filter _ _) as [|x xs] eqn:E.
    + split; [|done]. intros _ t' [= <-]. exists q. split; [done|]. intros f Hf.
      destruct (bs_mem f (bs_collect (plan_features q))) eqn:Em; [apply bs_mem_In in Em; by rewrite bs_collect_In in Em|].
      assert (Hin : In f []) by (rewrite <- E; apply filter_In; by rewrite Em). done.
    + split; [done|]. intros H. destruct (H t eq_refl) as (q' & E' & Hq). rewrite Ef in E'. injection E' as <-. exfalso.
      assert (Hin : In x (x :: xs)) by by left. rewrite <- E in Hin. apply filter_In in Hin as [Hx%Hq Hm].
      apply negb_true_iff, bs_mem_false in Hm. by rewrite bs_collect_In in Hm.
  - split; [done|]. intros H. destruct (H t eq_refl) as (q' & ? & _). congruence.
Qed.

Lemma find_plan blocks n q : List.find (fun p => name p =? n) (plans (build_plan_catalog blocks)) = Some q <->
  In q (plans (build_plan_catalog blocks)) /\ name q = n.
Proof.
  split.
  - by intros [H Hn%String.eqb_eq]%find_some.
  - intros [Hq <-]. destruct (List.find _ _) as [p|] eqn:E.
    + apply find_some in E as [Hp Hn%String.eqb_eq]. f_equal. by eapply plans_unique.
    + apply (find_none _ _ E) in Hq. by rewrite String.eqb_refl in Hq.
Qed.

Lemma flat_map_nil {A B} (f : A -> list B) l : flat_map f l = [] <-> forall x, In x l -> f x = [].
Proof.
  induction l as [|a l IH]; cbn; [done|]. split.
  - intros [Ha Hl]%app_eq_nil x [<-|Hx]; [done|]. by apply IH.
  - intros H. rewrite (H a) by by left. apply IH. auto.
Qed.

Lemma diagnose_order_nil key body span : diagnose_order ((key, body), span) = [] <->
  forall policy_pos gate_pos, find_keyword_line_offset body "policy " = Some policy_pos ->
    find_keyword_line_offset body "gate " = Some gate_pos -> gate_pos <= policy_pos.
Proof.
  unfold diagnose_order. destruct (find_keyword_line_offset body "policy ") as [a|]; [|done].
  destruct (find_keyword_line_offset body "gate ") as [b|]; [|done]. destruct (Nat.ltb_spec a b).
  - split; [done|]. intros H'. specialize (H' a b eq_refl eq_refl). lia.
  - split; [|done]. by intros _ ? ? [= <-] [= <-].
Qed.

(** ** The order of the files *)

Lemma bt_collect_order {V} (l l' : list (string * V)) : l ≡ₚ l' -> List.NoDup (List.map fst l) -> bt_collect l = bt_collect l'.
Proof.
  intros Hp Hn. apply bt_ext; [apply bt_collect_sorted..|]. intros k. rewrite !bt_collect_get.
  assert (Hn' : List.NoDup (List.map fst l')) by (by rewrite <- (Permutation_map fst Hp)).
  assert (G : forall m1 m2 : list (string * V), m1 ≡ₚ m2 -> List.NoDup (List.map fst m1) -> List.NoDup (List.map fst m2) ->
    forall kv, List.find (fun kv => keqb k kv.1) (rev m1) = Some kv -> List.find (fun kv => keqb k kv.1) (rev m2) = Some kv).
  { intros m1 m2 H12 H1 H2 kv [Hin Hk]%find_some. apply keqb_eq in Hk. destruct (List.find _ (rev m2)) as [kv'|] eqn:E.
    - apply find_some in E as [Hin' Hk']. apply keqb_eq in Hk'. f_equal. symmetry. eapply (NoDup_map_eq fst m2); [done| | |congruence].
      + apply in_rev in Hin. by eapply Permutation_in.
      + by apply in_rev.
    - apply in_rev in Hin. eapply Permutation_in in Hin; [|exact H12]. apply in_rev in Hin. apply (find_none _ _ E) in Hin.
      rewrite Hk in Hin. by rewrite keqb_refl in Hin. }
  destruct (List.find _ (rev l)) as [kv|] eqn:E1.
  - by rewrite (G _ _ Hp Hn Hn' kv E1).
  - destruct (List.find _ (rev l')) as [kv|] eqn:E2; [|done]. by rewrite (G _ _ (Permutation_sym Hp) Hn' Hn kv E2) in E1.
Qed.

(** Plan names and gated callables declared once. *)
Definition plan_names (files : list (string * string)) : list string :=
  List.map plan_name (flat_map plan_blocks_of files).
Definition gate_keys (files : list (string * string)) : list string :=
  flat_map (fun fg => List.map (fun kd => qualified fg.1 kd.1) fg.2) (flat_map feature_gates_of files).

Lemma facts_perm files files' anchor : files ≡ₚ files' ->
  List.NoDup (plan_names files) -> List.NoDup (gate_keys files) ->
  facts_of (flat_map plan_blocks_of files) (flat_map feature_gates_of files) anchor =
  facts_of (flat_map plan_blocks_of files') (flat_map feature_gates_of files') anchor.
Proof.
  intros Hp Hn Hg.
  assert (Hb : flat_map plan_blocks_of files ≡ₚ flat_map plan_blocks_of files') by (by apply Permutation_flat_map).
  assert (Hf : flat_map feature_gates_of files ≡ₚ flat_map feature_gates_of files') by (by apply Permutation_flat_map).
  assert (Hst : staging (flat_map plan_blocks_of files) = staging (flat_map plan_blocks_of files')).
  { apply bt_collect_order; [by apply Permutation_map|]. rewrite map_map. exact Hn. }
  assert (Hag : aggregate_gates (flat_map feature_gates_of files) = aggregate_gates (flat_map feature_gates_of files')).
  { apply bt_collect_order; [by apply Permutation_flat_map|]. unfold gate_keys in Hg. revert Hg. clear.
    generalize (flat_map feature_gates_of files) as fgs. intros fgs. rewrite !flat_map_concat_map, concat_map, map_map. intros H.
    erewrite map_ext; [exact H|]. intros a. cbn. by rewrite map_map. }
  assert (Hc : build_plan_catalog (flat_map plan_blocks_of files) = build_plan_catalog (flat_map plan_blocks_of files'))
    by (unfold build_plan_catalog; by rewrite Hst).
  unfold facts_of, aggregate_plan_gate_facts. rewrite Hc, Hag.
  destruct (flat_map plan_blocks_of files) as [|b bs], (flat_map plan_blocks_of files') as [|b' bs'];
    [|by apply Permutation_nil in Hb|symmetry in Hb; by apply Permutation_nil in Hb|done].
  destruct (flat_map feature_gates_of files), (flat_map feature_gates_of files');
    [done|by apply Permutation_nil in Hf|symmetry in Hf; by apply Permutation_nil in Hf|done].
Qed.

Lemma first_anchor_of files app :
  (forall f a, In f files -> parse_subscription_anchor f.2 = Some a -> app = Some f.2) ->
  (forall s, app = Some s -> In s (List.map snd files)) ->
  first_anchor files = app ≫= parse_subscription_anchor.
Proof.
  intros Honly Hin. destruct (first_anchor files) as [a|] eqn:E.
  - revert Honly E. clear. induction files as [|f files IH]; intros Honly; [done|]. cbn [first_anchor].
    destruct (parse_subscription_anchor f.2) as [a'|] eqn:Ea.
    + intros [= ->]. rewrite (Honly f a (or_introl eq_refl) Ea). cbn. by rewrite Ea.
    + apply IH. intros f' a' Hf'. apply Honly. by right.
  - destruct app as [s|]; [|done]. cbn. specialize (Hin s eq_refl) as (f & <- & Hf)%in_map_iff. revert Hf E. clear.
    induction files as [|g files IH]; [done|]. cbn [first_anchor]. intros [->|Hf].
    + by destruct (parse_subscription_anchor f.2).
    + destruct (parse_subscription_anchor g.2); [done|]. by apply IH.
Qed.

(** ** Silence *)

Lemma diagnostics_silent blocks fgs anchor sources :
  let facts := aggregate_plan_gate_facts blocks fgs anchor in
  let ps := plans (build_plan_catalog blocks) in
  diagnose_plan_gate_facts facts sources = [] <->
  (gates facts <> [] -> anchor <> None /\ blocks <> []) /\
  (forall key gs, In (key, gs) (gates facts) -> forall g, In g gs ->
     match g with
     | GateBehind f => exists p, In p ps /\ In f (plan_features p)
     | GateQuota l => forall p, In p ps -> plan_limit p l <> None
     end) /\
  (forall p t, In p ps -> plan_trial p = Some t ->
     exists q, In q ps /\ name q = t_then_plan t /\ forall f, In f (plan_features p) -> In f (plan_features q)) /\
  (forall key body span, In ((key, body), span) sources -> forall policy_pos gate_pos,
     find_keyword_line_offset body "policy " = Some policy_pos -> find_keyword_line_offset body "gate " = Some gate_pos ->
     gate_pos <= policy_pos).
Proof.
  cbn zeta. unfold diagnose_plan_gate_facts. set (facts := aggregate_plan_gate_facts blocks fgs anchor).
  assert (Hord : flat_map diagnose_order sources = [] <-> forall key body span, In ((key, body), span) sources -> forall policy_pos gate_pos,
     find_keyword_line_offset body "policy " = Some policy_pos -> find_keyword_line_offset body "gate " = Some gate_pos ->
     gate_pos <= policy_pos).
  { rewrite flat_map_nil. split.
    - intros H key body span Hin. apply (proj1 (diagnose_order_nil key body span)). by apply (H ((key, body), span)).
    - intros H [[key body] span] Hin. apply diagnose_order_nil. exact (H key body span Hin). }
  assert (Hsub : diagnose_subscription facts = [] <-> (gates facts <> [] -> anchor <> None)).
  { unfold diagnose_subscription. cbn [subscription_anchor facts aggregate_plan_gate_facts]. change (gates facts) with (aggregate_gates fgs).
    destruct (aggregate_gates fgs) as [|[k g] gs], anchor; cbn; split; try done; try (intros H; exfalso; by apply H). }
  assert (Hcat : diagnose_catalog facts = [] <->
    (gates facts <> [] -> blocks <> []) /\
    (forall key gs, In (key, gs) (gates facts) -> forall g, In g gs ->
     match g with
     | GateBehind f => exists p, In p (plans (build_plan_catalog blocks)) /\ In f (plan_features p)
     | GateQuota l => forall p, In p (plans (build_plan_catalog blocks)) -> plan_limit p l <> None
     end) /\
    (forall p t, In p (plans (build_plan_catalog blocks)) -> plan_trial p = Some t ->
     exists q, In q (plans (build_plan_catalog blocks)) /\ name q = t_then_plan t /\ forall f, In f (plan_features p) -> In f (plan_features q))).
  { unfold diagnose_catalog. change (catalog facts) with (match blocks with [] => None | _ => Some (build_plan_catalog blocks) end).
    destruct blocks as [|b bs] eqn:Eb.
    - destruct (gates facts) as [|kg gs]; cbn [List.map]; [split; [|done]|].
      + intros _. split_and!; [done|by intros ? ? []|by intros ? ? []].
      + split; [done|]. intros [H _]. by destruct (H ltac:(done)).
    - set (c := build_plan_catalog (b :: bs)).
      assert (Hne : b :: bs <> []) by done. split.
      + intros [Hg Ht]%app_eq_nil. pose proof (proj1 (flat_map_nil _ _) Hg) as Hg'. pose proof (proj1 (flat_map_nil _ _) Ht) as Ht'. split_and!; [done| |].
        * intros key gs Hin g Hgin. pose proof (proj1 (flat_map_nil _ _) (Hg' _ Hin) g Hgin) as Hg1. cbn [fst] in Hg1.
          destruct g; [by apply (diagnose_behind (b :: bs)) in Hg1|exact (proj1 (diagnose_quota (b :: bs) _ _ Hne) Hg1)].
        * intros p t Hp Etr. destruct (proj1 (diagnose_trial_nil c p) (Ht' p Hp) t Etr) as (q & [Hq Hn]%find_plan & Hf). eauto.
      + intros (_ & Hg & Ht). apply app_nil; split; apply flat_map_nil.
        * intros [key gs] Hin. apply flat_map_nil. intros g Hgin. specialize (Hg key gs Hin g Hgin). cbn [fst].
          destruct g; [by apply (diagnose_behind (b :: bs))|exact (proj2 (diagnose_quota (b :: bs) _ _ Hne) Hg)].
        * intros p Hp. apply diagnose_trial_nil. intros t Et. destruct (Ht p t Hp Et) as (q & Hq & Hn & Hf). exists q.
          split; [|done]. by apply find_plan. }
  split.
  - intros [Hs [Hc Ho]%app_eq_nil]%app_eq_nil. destruct (proj1 Hcat Hc) as (H1 & H2 & H3).
    split; [|split; [exact H2|split; [exact H3|exact (proj1 Hord Ho)]]]. intros H. split; [by apply Hsub|by apply H1].
  - intros (H1 & H2 & H3 & H4). apply app_nil; split; [|apply app_nil; split].
    + apply Hsub. intros H. by apply H1.
    + apply Hcat. split_and!; [|done..]. intros H. by apply H1.
    + by apply Hord.
Qed.

(** * Properties *)

(** C36: The catalog holds one plan per declared name, in order: the last block of
    that name, with its own features and those of the plans it refers to, and for
    each limit its own value or else that of the first plan referred to that
    gives one; the two unions are exact. *)
Theorem build_plan_catalog_exact blocks : let c := build_plan_catalog blocks in
  bs_sorted (List.map name (plans c)) /\
  (forall n, In n (List.map name (plans c)) <-> In n (List.map plan_name blocks)) /\
  (forall p, In p (plans c) -> exists b, last_block blocks (name p) = Some b /\
     bs_sorted (plan_features p) /\ (forall f, In f (plan_features p) <-> unlocks blocks b f) /\
     bs_sorted (List.map l_name (plan_limits p)) /\ (forall n, plan_limit p n = limit_of blocks b n) /\
     plan_trial p = option_map (fun t => {| t_duration := duration t; t_then_plan := then_plan t |}) (trial b)) /\
  (bs_sorted (feature_catalog c) /\ forall f, In f (feature_catalog c) <-> exists p, In p (plans c) /\ In f (plan_features p)) /\
  (bs_sorted (limit_catalog c) /\ forall n, In n (limit_catalog c) <-> exists p, In p (plans c) /\ plan_limit p n <> None).
Proof.
  cbn zeta. split_and!.
  - apply plans_sorted.
  - intros n. rewrite plans_names. unfold staging.
    change (In n ((bt_collect (List.map (fun plan => (plan_name plan, stage plan)) blocks)).*1) <-> In n (List.map plan_name blocks)).
    rewrite bt_collect_keys. change (fmap (M := list) fst) with (@List.map (string * Staging) string fst). by rewrite map_map.
  - intros p (b & Hb & Ep)%plans_In. exists b. split; [done|]. rewrite expand_plan_eq in Ep. rewrite Ep. cbn [plan_features plan_limits plan_trial].
    split_and!; [apply expand_features_sorted| | | |done].
    + intros f. rewrite expand_features_In. unfold unlocks. cbn [direct_features feature_refs stage]. rewrite feature_idents_In.
      setoid_rewrite feature_others_In. setoid_rewrite staging_get. split; (intros [?|H]; [by left|right]).
      * destruct H as (o & s & Ho & Hs & Hf). destruct (last_block blocks o) as [b'|] eqn:Eo; [|done]. injection Hs as <-.
        exists o, b'. by apply feature_idents_In in Hf.
      * destruct H as (o & b' & Ho & Eo & Hf). exists o, (stage b'). rewrite Eo. by apply feature_idents_In in Hf.
    + rewrite map_map. apply bt_sorted_keys, expand_limits_sorted.
    + intros n. unfold plan_limit. cbn [plan_limits]. rewrite find_get. apply expand_limits_get.
  - apply bs_collect_sorted.
  - apply catalog_features.
  - apply bs_collect_sorted.
  - apply catalog_limits.
Qed.

(** C28: The plan and gate diagnostics are silent if and only if: gates come with a
    subscription anchor and at least one plan; every [behind] gate names a
    feature of some plan and every [quota] gate a limit that every plan declares;
    every trial falls back to a plan of the catalog that keeps all features; and
    in every callable the first gate is not after the first policy. *)
Theorem plan_diagnostics_exact blocks fgs anchor sources :
  let facts := aggregate_plan_gate_facts blocks fgs anchor in
  let ps := plans (build_plan_catalog blocks) in
  diagnose_plan_gate_facts facts sources = [] <->
  (gates facts <> [] -> anchor <> None /\ blocks <> []) /\
  (forall key gs, In (key, gs) (gates facts) -> forall g, In g gs ->
     match g with
     | GateBehind f => exists p, In p ps /\ In f (plan_features p)
     | GateQuota l => forall p, In p ps -> plan_limit p l <> None
     end) /\
  (forall p t, In p ps -> plan_trial p = Some t ->
     exists q, In q ps /\ name q = t_then_plan t /\ forall f, In f (plan_features p) -> In f (plan_features q)) /\
  (forall key body span, In ((key, body), span) sources -> forall policy_pos gate_pos,
     find_keyword_line_offset body "policy " = Some policy_pos -> find_keyword_line_offset body "gate " = Some gate_pos ->
     gate_pos <= policy_pos).
Proof. apply diagnostics_silent. Qed.

(** The generator compiles the facts the doctor checked, in whatever order the two
    walk the project, when plans and gated callables are declared once and only
    the app manifest has a subscription anchor. *)
Theorem generated_facts_checked files files' app : files ≡ₚ files' ->
  List.NoDup (plan_names files) -> List.NoDup (gate_keys files) ->
  (forall f a, In f files -> parse_subscription_anchor f.2 = Some a -> app = Some f.2) ->
  (forall s, app = Some s -> In s (List.map snd files)) ->
  collect_plan_gate_facts_for_generate files' = build_plan_gate_facts files app.
Proof.
  intros Hp Hn Hg Honly Hin. unfold collect_plan_gate_facts_for_generate, build_plan_gate_facts.
  rewrite (first_anchor_of files' app).
  - symmetry. by apply facts_perm.
  - intros f a Hf. apply Honly. eapply Permutation_in; [by symmetry|done].
  - intros s Hs. eapply Permutation_in; [by apply Permutation_map|]. by apply Hin.
Qed.

Definition app_file : string * string := ("app", unlines
  ["app Shop"; "  subscription resource billing.subscription"; "plan starter"; "  features search"; "  limits seats 5";
   "plan pro"; "  features search, export"; "  limits seats unlimited"; "  trial duration 14d, then pro"]).
Definition billing_file : string * string := ("billing", unlines
  ["feature billing"; "  command pay"; "    gate behind plan.feature: export"; "    gate quota plan.limit: seats";
   "    policy @policy.owner"]).

Lemma generated_facts_checked_witness :
  collect_plan_gate_facts_for_generate [billing_file; app_file] =
  build_plan_gate_facts [app_file; billing_file] (Some app_file.2).
Proof.
  apply generated_facts_checked.
  - apply Permutation_swap.
  - repeat constructor; cbn; intuition discriminate.
  - repeat constructor; cbn; intuition discriminate.
  - intros f a [<-|[<-|[]]]; [intros _; reflexivity|]. vm_compute. discriminate.
  - intros s [= <-]. left. reflexivity.
Defined.

(** The sample is clean. *)
Example sample_clean : plan_gate_diagnostics [app_file; billing_file] (Some app_file.2) = [].
Proof. reflexivity. Qed.

(** * What the passes miss *)

(** PLAN-SUBSCRIPTION-TENANCY-001 is documented as a diagnostic of this pass; no
    input makes it one. *)
Theorem subscription_tenancy_never facts sources d :
  In d (diagnose_plan_gate_facts facts sources) -> d_code d <> SubscriptionTenancy.
Proof.
  assert (Hgate : forall c key g, In d (diagnose_gate c key g) -> d_code d <> SubscriptionTenancy).
  { intros c key [f|l]; cbn [diagnose_gate].
    - destruct (negb _); [|done]. by intros [<-|[]].
    - destruct (negb _); [by intros [<-|[]]|]. destruct (bt_get _ _); [|done]. destruct (bs_eqb _ _); [done|]. by intros [<-|[]]. }
  assert (Htrial : forall c p, In d (diagnose_trial c p) -> d_code d <> SubscriptionTenancy).
  { intros c p. unfold diagnose_trial. destruct (plan_trial p); [|done]. destruct (List.find _ _).
    - destruct (List.filter _ _); [done|]. by intros [<-|[]].
    - by intros [<-|[]]. }
  unfold diagnose_plan_gate_facts. rewrite !in_app_iff. intros [H|[H|H]].
  - unfold diagnose_subscription in H. destruct (gates facts) as [|[? ?] ?], (subscription_anchor facts); try done.
    by destruct H as [<-|[]].
  - unfold diagnose_catalog in H. destruct (catalog facts).
    + apply in_app_iff in H as [(x & _ & (g & _ & Hg)%in_flat_map)%in_flat_map|(q & _ & Hq)%in_flat_map]; eauto.
    + by apply in_map_iff in H as (x & <- & _).
  - apply in_flat_map in H as ([[key body] span] & _ & H). unfold diagnose_order in H.
    destruct (find_keyword_line_offset body "policy "); [|done]. destruct (find_keyword_line_offset body "gate "); [|done].
    destruct (_ <? _)%nat; [|done]. by destruct H as [<-|[]].
Qed.

Lemma subscription_tenancy_never_witness :
  Forall (fun d => d_code d <> SubscriptionTenancy) (diagnose_plan_gate_facts
    (aggregate_plan_gate_facts [] [("billing", [("command:pay", [Quota "seats" no_span])])] None) []).
Proof. apply Forall_forall. intros d Hd. apply list_elem_of_In in Hd. exact (subscription_tenancy_never _ _ d Hd). Defined.

(** A plan declared in two files: the catalog is that of the file read last, and
    neither order is reported. *)
Definition starter_file (limit : string) : string * string :=
  ("plans", unlines ["plan starter"; "  features search"; "  limits seats " +:+ limit]).
Theorem duplicate_plan_unreported :
  plan_gate_diagnostics [starter_file "5"; starter_file "500"] None = [] /\
  plan_gate_diagnostics [starter_file "500"; starter_file "5"] None = [] /\
  collect_plan_gate_facts_for_generate [starter_file "5"; starter_file "500"] <>
  collect_plan_gate_facts_for_generate [starter_file "500"; starter_file "5"].
Proof. split_and!; [reflexivity..|]. vm_compute. discriminate. Qed.

(** One malformed gate and all the gates of its file are gone, without a
    diagnostic: the callables are left ungated. *)
Definition typo_file : string * string := ("billing", unlines
  ["feature billing"; "  command pay"; "    gate behind plan.feature: export"; "  command refund";
   "    gate behind plan.feature export"]).
Theorem malformed_gate_drops_all :
  plan_gate_diagnostics [app_file; typo_file] (Some app_file.2) = [] /\
  gates <$> collect_plan_gate_facts_for_generate [app_file; typo_file] = Some [].
Proof. split; reflexivity. Qed.

(** The gates of a file's second feature are filed under its first. *)
Definition two_features : string * string := ("both", unlines
  ["feature catalog"; "  command list_items"; "feature billing"; "  command pay"; "    gate behind plan.feature: export"]).
Theorem second_feature_misfiled :
  plan_gate_diagnostics [app_file; two_features] (Some app_file.2) = [] /\
  gates <$> collect_plan_gate_facts_for_generate [app_file; two_features] =
    Some [("catalog/command:pay", [GateBehind "export"])].
Proof. split; reflexivity. Qed.

(** A reference to a plan that does not exist, and the features a plan gets only
    through another's references, are dropped without a diagnostic. *)
Definition chain_file : string * string := ("plans", unlines
  ["plan free"; "  features search"; "plan pro"; "  features export, free.features"; "plan max";
   "  features pro.features, premium.features"]).
Theorem plan_reference_dropped :
  plan_gate_diagnostics [chain_file] None = [] /\
  (c ← (f ← collect_plan_gate_facts_for_generate [chain_file]; catalog f);
   plan_features <$> List.find (fun p => name p =? "max") (plans c)) = Some ["export"].
Proof. split; reflexivity. Qed.

(** Only the first gate is compared with the first policy. *)
Definition late_gate_file : string * string := ("billing", unlines
  ["feature billing"; "  command pay"; "    gate quota plan.limit: seats"; "    policy @policy.owner";
   "    gate behind plan.feature: export"]).
Theorem late_gate_unreported : plan_gate_diagnostics [app_file; late_gate_file] (Some app_file.2) = [].
Proof. reflexivity. Qed.
