(* ===== verification/PlanRuntime.v ===== *)
(** The runtime of the plan gates: [runtime/go/lazuli/billing/contract.go],
    [gate.go] and [usage.go].

    The subscription store, the usage store and the clock are parameters; [log]
    is a usage store that keeps its promise. *)
From S2P Require Import Prelude Str BTree PlanCatalog.

(** * The runtime *)

Module billing.

Record LimitValue := { unlimited : bool; value : N }.
Definition LimitInt (v : N) : LimitValue := {| unlimited := false; value := v |}.
Definition LimitUnlimited : LimitValue := {| unlimited := true; value := 0 |}.

(** [Duration] in nanoseconds. *)
Record TrialPolicy := { Duration : Z; ThenPlan : string }.
Record Plan := { Name : string; Features : list string; Limits : list (string * LimitValue); Trial : option TrialPolicy }.
(** The [Plans] of a catalog; the runtime reads nothing else of it. *)
Definition PlanCatalog := list (string * Plan).

Definition Has (f : list string) (name : string) : bool := bs_mem name f.

Inductive GateError :=
| ErrPlanFeatureForbidden (plan feature : string)
| ErrPlanQuotaExceeded (plan limit : string) (used max : N)
| ErrPlanLookupFailed (reason : string)
| ErrStore (message : string).

Record ActiveSubscription := { SubscriptionID : string; PlanName : string }.

(** The caller and what the runtime is wired to: the subscription store, if one
    is registered, and the month the clock is in. *)
Record Env := {
  store : option (string -> result GateError ActiveSubscription);
  user : option string;
  period : nat
}.

(** A usage counter: one subscription, limit and period. *)
Definition bucket : Type := (string * string) * nat.

(** The usage store's interface. *)
Class UsageStore (S : Type) := {
  u_read : S -> bucket -> result GateError N;
  u_incr : S -> bucket -> result GateError S
}.

(** What the store promises: an increment adds one to its own counter only. *)
Class UsageLaws (S : Type) `{UsageStore S} := {
  incr_same s s' b : u_incr s b = Ok s' -> u_read s' b = n ← u_read s b; Ok (n + 1)%N;
  incr_other s s' b b' : b <> b' -> u_incr s b = Ok s' -> u_read s' b' = u_read s b'
}.

Definition Resolve (env : Env) : result GateError ActiveSubscription :=
  match store env with
  | None => Err (ErrPlanLookupFailed "no SubscriptionStore registered")
  | Some lookup =>
    match user env with
    | None => Err (ErrPlanLookupFailed "no authenticated caller")
    | Some id => lookup id
    end
  end.

(** The result is the subscription and the plan. *)
Definition LookupPlan (env : Env) (catalog : PlanCatalog) : result GateError Plan :=
  active ← Resolve env;
  match bt_get (PlanName active) catalog with
  | None => Err (ErrPlanLookupFailed ("active plan `" +:+ PlanName active +:+ "` not in catalog"))
  | Some plan => Ok plan
  end.

Definition CheckFeature (env : Env) (catalog : PlanCatalog) (feature : string) : result GateError unit :=
  plan ← LookupPlan env catalog;
  if negb (Has (Features plan) feature) then Err (ErrPlanFeatureForbidden (Name plan) feature) else Ok tt.

Section Usage.
Context {S : Type} `{UsageStore S}.

(** [None] is a runtime without a usage store. *)
Definition readUsage (env : Env) (usage : option S) (id limit : string) : result GateError N :=
  match usage with None => Ok 0%N | Some s => u_read s ((id, limit), period env) end.
Definition incrUsage (env : Env) (usage : option S) (id limit : string) : result GateError (option S) :=
  match usage with None => Ok None | Some s => s' ← u_incr s ((id, limit), period env); Ok (Some s') end.

Definition CheckQuota (env : Env) (catalog : PlanCatalog) (usage : option S) (limit : string) : result GateError unit :=
  plan ← LookupPlan env catalog;
  match bt_get limit (Limits plan) with
  | None => Err (ErrPlanLookupFailed ("limit `" +:+ limit +:+ "` missing from plan `" +:+ Name plan +:+ "`"))
  | Some v =>
    if unlimited v then Ok tt
    else
      active ← Resolve env;
      used ← readUsage env usage (SubscriptionID active) limit;
      if (value v <=? used)%N then Err (ErrPlanQuotaExceeded (Name plan) limit used (value v)) else Ok tt
  end.

Definition IncrQuota (env : Env) (catalog : PlanCatalog) (usage : option S) (limit : string) : result GateError (option S) :=
  plan ← LookupPlan env catalog;
  match bt_get limit (Limits plan) with
  | None => Ok usage
  | Some v =>
    if unlimited v then Ok usage
    else active ← Resolve env; incrUsage env usage (SubscriptionID active) limit
  end.

(** [walkPrelude] of [gate.go]; [activeCatalog] is what [RegisterCatalog]
    installed. *)
Fixpoint check_all {A} (check : A -> result GateError unit) (l : list A) : result GateError unit :=
  match l with [] => Ok tt | x :: l => _ ← check x; check_all check l end.
Definition walkPrelude (env : Env) (activeCatalog : option PlanCatalog) (usage : option S) (prelude : list Gate)
    : result GateError unit :=
  match prelude, activeCatalog with
  | [], _ => Ok tt
  | _, None => Ok tt
  | _, Some catalog =>
    _ ← check_all (fun g => match g with GateBehind f => CheckFeature env catalog f | GateQuota _ => Ok tt end) prelude;
    check_all (fun g => match g with GateBehind _ => Ok tt | GateQuota l => CheckQuota env catalog usage l end) prelude
  end.

(** [walkIncrement]: the counters bumped before the first failure stay bumped. *)
Fixpoint increments (env : Env) (catalog : PlanCatalog) (usage : option S) (prelude : list Gate) : option S * option GateError :=
  match prelude with
  | [] => (usage, None)
  | GateBehind _ :: rest => increments env catalog usage rest
  | GateQuota l :: rest =>
    match IncrQuota env catalog usage l with
    | Err e => (usage, Some e)
    | Ok usage' => increments env catalog usage' rest
    end
  end.
Definition walkIncrement (env : Env) (activeCatalog : option PlanCatalog) (usage : option S) (prelude : list Gate)
    : option S * option GateError :=
  match prelude, activeCatalog with
  | [], _ => (usage, None)
  | _, None => (usage, None)
  | _, Some catalog => increments env catalog usage prelude
  end.
End Usage.
End billing.

(** * A usage store *)

(** A store that counts a log of increments. *)
Definition log := list billing.bucket.
#[export] Instance log_store : billing.UsageStore log := {
  u_read s b := Ok (N.of_nat (List.length (List.filter (fun b' => if decide (b' = b) then true else false) s)));
  u_incr s b := Ok (b :: s)
}.
#[export] Instance log_laws : billing.UsageLaws log.
Proof.
  constructor.
  - intros s s' b [= <-]. cbn. destruct (decide (b = b)); [|done]. cbn. f_equal. lia.
  - intros s s' b b' Hne [= <-]. cbn. by destruct (decide (b = b')).
Qed.

(** A caller on a plan. *)
Definition subscriber (plan : string) : billing.Env := {|
  billing.store := Some (fun id => Ok {| billing.SubscriptionID := id; billing.PlanName := plan |});
  billing.user := Some "u1"; billing.period := 0 |}.
