(* ===== verification/PlanGate.v ===== *)
(** Compiled gates: the catalog file of
    [lazuli_codegen_go/src/emitter/plan.rs] and the gate preludes of
    [emitter/command/emit_p1.rs] and [emitter/query/header.rs], against the
    runtime that enforces them.

    The Go text is read back by a reader of the fragment it is written in. *)
From stdpp Require Import relations.
From S2P Require Import Prelude Str BTree Fmt Lines Helpers Lex LifecycleSyntax PlanSyntax PlanCatalog PlanRuntime.
From S2P Require Import ReferentialGuard.

(** * The catalog file *)

(** [duration_literal]; a literal that is not ASCII would be split inside a
    character, but the parser accepts none. *)
Definition duration_literal (literal : string) : string :=
  let len := str_len literal in
  if (len <? 2)%nat then "0"
  else
    let head := str_take (len - 1) literal in
    let tail := str_drop (len - 1) literal in
    if tail =? "d" then head +:+ " * 24 * time.Hour"
    else if tail =? "s" then head +:+ " * time.Second"
    else if tail =? "m" then head +:+ " * time.Minute"
    else if tail =? "h" then head +:+ " * time.Hour"
    else "0".

Definition emit_anchor (anchor : option SubscriptionAnchor) : list string :=
  ([tabs 1 "Anchor: billing.SubscriptionAnchor{"] ++
   match anchor with
   | Some a =>
     [tabs 2 ("OwnerFeature: " +:+ debug_str (a_feature a) +:+ ",");
      tabs 2 ("Field:        " +:+ debug_str (a_field a) +:+ ",")] ++
     match tenancy_axis a with Some axis => [tabs 2 ("TenancyAxis:  " +:+ debug_str axis +:+ ",")] | None => [] end
   | None => []
   end ++
   [tabs 1 "},"])%list.

Definition limit_rhs (v : PlanLimitValue) : string :=
  match v with Integer n => "billing.LimitInt(" +:+ show_N n +:+ ")" | Unlimited => "billing.LimitUnlimited" end.

Definition emit_plan_entry (plan : Plan) : list string :=
  ([tabs 2 (debug_str (name plan) +:+ ": {");
    tabs 3 ("Name: " +:+ debug_str (name plan) +:+ ",");
    tabs 3 ("Features: billing.NewFeatureSet(" +:+ join ", " (List.map debug_str (plan_features plan)) +:+ "),")] ++
   match plan_limits plan with
   | [] => []
   | limits =>
     [tabs 3 "Limits: map[string]billing.LimitValue{"] ++
     List.map (fun l => tabs 4 (debug_str (l_name l) +:+ ": " +:+ limit_rhs (l_value l) +:+ ",")) limits ++
     [tabs 3 "},"]
   end ++
   match plan_trial plan with
   | Some trial =>
     [tabs 3 "Trial: &billing.TrialPolicy{";
      tabs 4 ("Duration: " +:+ duration_literal (t_duration trial) +:+ ",");
      tabs 4 ("ThenPlan: " +:+ debug_str (t_then_plan trial) +:+ ",");
      tabs 3 "},"]
   | None => []
   end ++
   [tabs 2 "},"])%list.

Definition emit_plans (c : PlanCatalog) : list string :=
  (tabs 1 "Plans: map[string]billing.Plan{" :: flat_map emit_plan_entry (plans c) ++ [tabs 1 "},"])%list.

Definition gate_ref (g : Gate) : string :=
  match g with
  | GateBehind feature => "{Kind: billing.GateBehind, Name: " +:+ debug_str feature +:+ "},"
  | GateQuota limit => "{Kind: billing.GateQuota, Name: " +:+ debug_str limit +:+ "},"
  end.

Definition emit_gate_helpers (gates : list (string * list Gate)) : list string :=
  match gates with
  | [] => []
  | _ =>
    ["// GatedCallables enumerates every callable carrying a gate";
     "// directive, keyed by `<feature>/<callable_kind>:<callable_name>`.";
     "// Handler bodies invoke billing.CheckFeature / billing.CheckQuota";
     "// directly against `Catalog`; this map exists for inspection /";
     "// runtime debug surfacing.";
     "var GatedCallables = map[string][]billing.GateRef{"] ++
    flat_map (fun kg =>
      [tabs 1 (debug_str kg.1 +:+ ": {")] ++ List.map (fun g => tabs 2 (gate_ref g)) kg.2 ++ [tabs 1 "},"]) gates ++
    ["}"]
  end%list.

Definition imports : list string :=
  ["import ("; tabs 1 (quoted "time"); ""; tabs 1 (quoted "lazuli.dev/runtime/lazuli/billing"); ")"].

(** The lines of the file after the imports. *)
Definition catalog_body (facts : PlanGateFacts) (c : PlanCatalog) : list string :=
  ([""; "// Catalog is the package-wide plan catalog lowered from"; "// `plan ...` blocks in app.lzi / registry.lzi.";
    "var Catalog = billing.PlanCatalog{"] ++
   emit_anchor (subscription_anchor facts) ++ emit_plans c ++ ["}"; ""] ++ emit_gate_helpers (gates facts))%list.

Definition catalog_lines (facts : PlanGateFacts) (c : PlanCatalog) : list string :=
  (["// Code generated by Lazuli. DO NOT EDIT."; "// Source: PG.C plan emitter (docs/proposals/plan-and-gate-vocab.md).";
    ""; "package plan"; ""] ++ imports ++ catalog_body facts c)%list.

Definition emit_plan_catalog_file (facts : PlanGateFacts) : option string :=
  match catalog facts with
  | None => None
  | Some c => Some (unlines (catalog_lines facts c))
  end.

(** * The preludes of the callables *)

(** [EmitContext::gates_for] of the context of a feature. *)
Definition gates_for (gates : option (list (string * list Gate))) (feature callable_kind callable_name : string) : list Gate :=
  match gates with
  | None => []
  | Some map => default [] (bt_get (feature +:+ "/" +:+ callable_kind +:+ ":" +:+ callable_name) map)
  end.

(** The [Prelude] field of a query; jobs, webhooks and APIs have the same. *)
Definition emit_gate_annotations (level : nat) (gates : list Gate) : list string :=
  match gates with
  | [] => []
  | _ => ([tabs level "Prelude: []billing.GateRef{"] ++ List.map (fun g => tabs (level + 1) (gate_ref g)) gates ++
          [tabs level "},"])%list
  end.

Definition partition_gates (gates : list Gate) : list string * list string :=
  foldl (fun bq gate =>
    match gate with
    | GateBehind feature => (bq.1 ++ [feature], bq.2)
    | GateQuota limit => (bq.1, bq.2 ++ [limit])
    end)%list ([], []) gates.

Definition zero_value_for_go_type (ty : string) : string :=
  let trimmed := trim ty in
  if trimmed =? "string" then quoted ""
  else if trimmed =? "bool" then "false"
  else if existsb (fun t => trimmed =? t) ["int"; "int8"; "int16"; "int32"; "int64"] then "0"
  else if existsb (fun t => trimmed =? t) ["uint"; "uint8"; "uint16"; "uint32"; "uint64"] then "0"
  else if existsb (fun t => trimmed =? t) ["float32"; "float64"] then "0"
  else if trimmed =? "any" then "nil"
  else if trimmed =? "error" then "nil"
  else if trimmed =? "struct{}" then "struct{}{}"
  else if starts_with "*" trimmed || starts_with "[" trimmed || starts_with "map[" trimmed || starts_with "chan " trimmed then "nil"
  else "*new(" +:+ trimmed +:+ ")".

(** One check of the prelude: its comment, the call, and the early return. *)
Definition check_lines (output_type comment call_ name_ : string) : list string :=
  [tabs 1 ("// gate: " +:+ comment +:+ " " +:+ name_);
   tabs 1 ("if err := billing." +:+ call_ +:+ "(ctx, plan.Catalog, " +:+ debug_str name_ +:+ "); err != nil {");
   tabs 2 ("return " +:+ zero_value_for_go_type output_type +:+ ", err");
   tabs 1 "}"].
Definition emit_command_gate_prelude (output_type : string) (behind_gates quota_gates : list string) : list string :=
  (flat_map (check_lines output_type "behind plan.feature" "CheckFeature") behind_gates ++
   flat_map (check_lines output_type "quota plan.limit" "CheckQuota") quota_gates)%list.

(** The end of the wrapper: the call of the handler and the increments. *)
Definition emit_command_handle (var_name : string) (quota_gates : list string) : list string :=
  match quota_gates with
  | [] => [tabs 1 ("return " +:+ var_name +:+ ".Handle(ctx, input)")]
  | _ =>
    ([tabs 1 ("out, err := " +:+ var_name +:+ ".Handle(ctx, input)"); tabs 1 "if err == nil {"] ++
     List.map (fun limit => tabs 2 ("_ = billing.IncrQuota(ctx, plan.Catalog, " +:+ debug_str limit +:+ ")")) quota_gates ++
     [tabs 1 "}"; tabs 1 "return out, err"])%list
  end.

(** The gate lines of a command's wrapper, [guards] being the referential guards
    between the prelude and the call. *)
Definition emit_gated_wrapper (output_type var_name : string) (guards : list string) (gates : list Gate) : list string :=
  let '(behind_gates, quota_gates) := partition_gates gates in
  (emit_command_gate_prelude output_type behind_gates quota_gates ++ guards ++ emit_command_handle var_name quota_gates)%list.

(** * Reading the Go text

    The fragment of Go the catalog file is written in: string and integer
    literals, durations, and the composite literal line by line. *)

Definition between (p q s : string) : option string := r ← strip_prefix p s; strip_suffix q r.

(** A string literal without escapes. *)
Definition go_string (s : string) : option string :=
  r ← between (String DQ "") (String DQ "") s; if plain r then Some r else None.

Fixpoint octal_val (acc : N) (s : string) : option N :=
  match s with
  | "" => Some acc
  | String b s => if in_range 48 55 b then octal_val (acc * 8 + (code b - 48))%N s else None
  end.

(** An integer literal: octal after a leading zero. *)
Definition go_int (s : string) : option N :=
  match s with
  | "" => None
  | String b r => if (b =a? "0") && nonempty r then octal_val 0 r else digits_val 0 s
  end.

Definition second : Z := 1000000000.
Definition unit_ns (u : byte) : Z :=
  if u =a? "s" then second else if u =a? "m" then 60 * second else if u =a? "h" then 3600 * second else 86400 * second.

(** A constant expression of type [time.Duration], an [int64]. *)
Definition fit (z : Z) : option Z := if in_i64 z then Some z else None.
Definition go_duration (s : string) : option Z :=
  if s =? "0" then Some 0%Z
  else match strip_suffix " * 24 * time.Hour" s with
  | Some h => n ← go_int h; fit (Z.of_N n * (24 * 3600 * second))
  | None =>
    match strip_suffix " * time.Second" s with
    | Some h => n ← go_int h; fit (Z.of_N n * second)
    | None =>
      match strip_suffix " * time.Minute" s with
      | Some h => n ← go_int h; fit (Z.of_N n * (60 * second))
      | None => h ← strip_suffix " * time.Hour" s; n ← go_int h; fit (Z.of_N n * (3600 * second))
      end
    end
  end.

(** The arguments of [NewFeatureSet]. *)
Definition go_args (s : string) : option (list string) :=
  if s =? "" then Some []
  else match split_char "," s with
  | [] => None
  | a :: l => a ← go_string a; l ← mapM (fun x => r ← strip_prefix " " x; go_string r) l; Some (a :: l)
  end.

Definition go_limit (s : string) : option billing.LimitValue :=
  if s =? "billing.LimitUnlimited" then Some billing.LimitUnlimited
  else
    r ← between "billing.LimitInt(" ")" s;
    n ← go_int r;
    if (n <=? u64_max)%N then Some (billing.LimitInt n) else None.

(** Where the reader is. *)
Inductive mode :=
| Between
| InPlan (key : string) (p : billing.Plan)
| InLimits (key : string) (p : billing.Plan)
| InTrial (key : string) (p : billing.Plan) (d : option Z) (th : option string).

Definition set_name (n : string) (p : billing.Plan) : billing.Plan := {|
  billing.Name := n; billing.Features := billing.Features p; billing.Limits := billing.Limits p; billing.Trial := billing.Trial p |}.
Definition set_features (f : list string) (p : billing.Plan) : billing.Plan := {|
  billing.Name := billing.Name p; billing.Features := f; billing.Limits := billing.Limits p; billing.Trial := billing.Trial p |}.
Definition add_limit (k : string) (v : billing.LimitValue) (p : billing.Plan) : billing.Plan := {|
  billing.Name := billing.Name p; billing.Features := billing.Features p; billing.Limits := billing.Limits p ++ [(k, v)];
  billing.Trial := billing.Trial p |}.
Definition set_trial (d : Z) (t : string) (p : billing.Plan) : billing.Plan := {|
  billing.Name := billing.Name p; billing.Features := billing.Features p; billing.Limits := billing.Limits p;
  billing.Trial := Some {| billing.Duration := d; billing.ThenPlan := t |} |}.

(** A key may not be given twice. *)
Definition fresh {V} (k : string) (m : list (string * V)) : option unit := if bt_contains k m then None else Some tt.

Definition read_field (key : string) (p : billing.Plan) (s : string) : option mode :=
  match between "Name: " "," s with
  | Some r => n ← go_string r; Some (InPlan key (set_name n p))
  | None =>
    match between "Features: billing.NewFeatureSet(" ")," s with
    | Some r => l ← go_args r; Some (InPlan key (set_features (bs_collect l) p))
    | None =>
      if s =? "Limits: map[string]billing.LimitValue{" then Some (InLimits key p)
      else if s =? "Trial: &billing.TrialPolicy{" then Some (InTrial key p None None)
      else None
    end
  end.

Definition read_limit (p : billing.Plan) (s : string) : option billing.Plan :=
  r ← strip_suffix "," s;
  '(k, v) ← split_once ":" r;
  k ← go_string k;
  v ← strip_prefix " " v;
  v ← go_limit v;
  _ ← fresh k (billing.Limits p);
  Some (add_limit k v p).

Definition read_line (acc : list (string * billing.Plan)) (m : mode) (line : string)
    : option (list (string * billing.Plan) * mode) :=
  match m with
  | Between =>
    r ← strip_prefix (tabs 2 "") line;
    r ← strip_suffix ": {" r;
    key ← go_string r;
    _ ← fresh key acc;
    Some (acc, InPlan key {| billing.Name := ""; billing.Features := []; billing.Limits := []; billing.Trial := None |})
  | InPlan key p =>
    if line =? tabs 2 "}," then Some ((acc ++ [(key, p)])%list, Between)
    else r ← strip_prefix (tabs 3 "") line; m ← read_field key p r; Some (acc, m)
  | InLimits key p =>
    if line =? tabs 3 "}," then Some (acc, InPlan key p)
    else r ← strip_prefix (tabs 4 "") line; p ← read_limit p r; Some (acc, InLimits key p)
  | InTrial key p d th =>
    if line =? tabs 3 "}," then
      d ← d; th ← th; Some (acc, InPlan key (set_trial d th p))
    else
      r ← strip_prefix (tabs 4 "") line;
      match between "Duration: " "," r with
      | Some s => d ← go_duration s; Some (acc, InTrial key p (Some d) th)
      | None => s ← between "ThenPlan: " "," r; t ← go_string s; Some (acc, InTrial key p d (Some t))
      end
  end.

(** The entries of [Plans], up to its closing brace. *)
Fixpoint read_plans (acc : list (string * billing.Plan)) (m : mode) (lines : list string) : option billing.PlanCatalog :=
  match lines with
  | [] => None
  | line :: lines =>
    match m with
    | Between => if line =? tabs 1 "}," then Some acc else '(acc, m) ← read_line acc m line; read_plans acc m lines
    | _ => '(acc, m) ← read_line acc m line; read_plans acc m lines
    end
  end.
Fixpoint read_catalog (lines : list string) : option billing.PlanCatalog :=
  match lines with
  | [] => None
  | line :: lines =>
    if line =? tabs 1 "Plans: map[string]billing.Plan{" then read_plans [] Between lines else read_catalog lines
  end.
(** The value of [Catalog]. *)
Definition go_catalog (text : string) : option billing.PlanCatalog := read_catalog (str_lines text).

(** The packages a file imports, and the lines after the imports. *)
Fixpoint import_block (lines : list string) : option (list string * list string) :=
  match lines with
  | [] => None
  | line :: lines =>
    if line =? ")" then Some ([], lines)
    else if line =? "" then import_block lines
    else r ← strip_prefix (tabs 1 "") line; path ← go_string r; '(paths, rest) ← import_block lines; Some (path :: paths, rest)
  end.
Fixpoint read_imports (lines : list string) : option (list string * list string) :=
  match lines with
  | [] => None
  | line :: lines => if line =? "import (" then import_block lines else read_imports lines
  end.
Definition package_name (path : string) : string := List.last (split_char "/" path) "".
(** The line names something of the package: [pkg.] outside strings and comments,
    not after a letter or a digit. *)
Fixpoint mentions (pkg : string) (in_string boundary : bool) (s : string) : bool :=
  match s with
  | "" => false
  | String b r =>
    if in_string then
      if b =a? BSL then match r with String _ r => mentions pkg true true r | "" => false end
      else mentions pkg (negb (b =a? DQ)) true r
    else if starts_with "//" s then false
    else (boundary && starts_with (pkg +:+ ".") s) || mentions pkg (b =a? DQ) (negb (ident_tail b)) r
  end.
(** Go compiles no file with an import it does not use. *)
Definition imports_used (text : string) : bool :=
  match read_imports (str_lines text) with
  | Some (paths, rest) => forallb (fun path => existsb (mentions (package_name path) false true) rest) paths
  | None => false
  end.
Definition read_file (text : string) : option billing.PlanCatalog := if imports_used text then go_catalog text else None.

(** What a plan is at run time. *)
Definition go_value (v : PlanLimitValue) : billing.LimitValue :=
  match v with Integer n => billing.LimitInt n | Unlimited => billing.LimitUnlimited end.
Definition trial_ns (literal : string) : option Z :=
  u ← last_byte literal; n ← digits_val 0 (str_take (str_len literal - 1) literal); Some (Z.of_N n * unit_ns u)%Z.
Definition go_plan (p : Plan) : string * billing.Plan := (name p, {|
  billing.Name := name p;
  billing.Features := plan_features p;
  billing.Limits := List.map (fun l => (l_name l, go_value (l_value l))) (plan_limits p);
  billing.Trial := option_map (fun t => {| billing.Duration := default 0%Z (trial_ns (t_duration t)); billing.ThenPlan := t_then_plan t |})
    (plan_trial p) |}).

(** A duration Go reads as it is meant: no leading zero, and within [int64]. *)
Definition canonical (h : string) : bool :=
  match h with String b r => negb ((b =a? "0") && nonempty r) | "" => false end.
Definition duration_fits (literal : string) : bool :=
  canonical (str_take (str_len literal - 1) literal) &&
  match trial_ns literal with Some z => in_i64 z | None => false end.

(** * Lemmas *)

(** ** Literals *)

Lemma between_app p q s : between p q (p +:+ s +:+ q) = Some s.
Proof. unfold between. rewrite strip_prefix_app. cbn. by rewrite strip_suffix_app. Qed.

Lemma plan_ident_plain s : is_plan_ident s = true -> plain s = true.
Proof. intros [_ H]%ident_bytes. eapply str_all_impl; [|exact H]. clear. intros b. by_bytes b. Qed.

Lemma debug_ident s : is_plan_ident s = true -> debug_str s = quoted s.
Proof. intros H. by apply debug_str_plain, plan_ident_plain. Qed.

Lemma go_string_quoted s : plain s = true -> go_string (quoted s) = Some s.
Proof.
  intros H. unfold go_string, quoted. change (String DQ (s +:+ String DQ "")) with (String DQ "" +:+ s +:+ String DQ "").
  rewrite between_app. cbn. by rewrite H.
Qed.

Lemma go_string_ident s : is_plan_ident s = true -> go_string (debug_str s) = Some s.
Proof. intros H. rewrite debug_ident by done. by apply go_string_quoted, plan_ident_plain. Qed.

Lemma digits_go_head fuel n acc : (n < 10 ^ N.of_nat fuel)%N -> n <> 0%N ->
  exists b r, digits_go fuel n acc = String b r /\ (b =a? "0") = false.
Proof.
  revert n acc. induction fuel as [|fuel IH]; intros n acc Hn H0; [cbn in Hn; lia|]. cbn [digits_go].
  destruct (N.ltb_spec n 10) as [Hl|Hl].
  - eexists _, _. split; [done|]. rewrite N.mod_small by done.
    assert (Hi : In n [1;2;3;4;5;6;7;8;9]%N) by (cbn; lia). cbn in Hi. repeat (destruct Hi as [<-|Hi]; [done|]). done.
  - apply IH.
    + rewrite Nat2N.inj_succ, N.pow_succ_r' in Hn. apply N.Div0.div_lt_upper_bound. lia.
    + intros E. apply N.div_small_iff in E; lia.
Qed.

Lemma go_int_show n : go_int (show_N n) = Some n.
Proof.
  destruct (N.eq_dec n 0%N) as [->|Hn]; [done|].
  destruct (digits_go_head (S (N.to_nat (N.log2 n))) n "") as (b & r & E & Hb); [|done|].
  - rewrite Nat2N.inj_succ, N2Nat.id. destruct (N.log2_spec n) as [_ H]; [lia|].
    eapply N.lt_le_trans; [exact H|]. by apply N.pow_le_mono_l.
  - fold (show_N n) in E. pose proof (show_N_val n) as Hv. rewrite E in *. unfold go_int. by rewrite Hb.
Qed.

Lemma go_limit_rhs v : match v with Integer n => (n <= u64_max)%N | Unlimited => True end ->
  go_limit (limit_rhs v) = Some (go_value v).
Proof.
  destruct v as [n|]; [|done]. intros Hn. unfold go_limit, limit_rhs.
  replace ("billing.LimitInt(" +:+ show_N n +:+ ")" =? "billing.LimitUnlimited") with false by done.
  rewrite between_app. cbn [mbind option_bind]. rewrite go_int_show. cbn [mbind option_bind]. by rewrite (proj2 (N.leb_le _ _) Hn).
Qed.

Lemma join_comma x l : join ", " (x :: l) = join "," (x :: List.map (fun y => " " +:+ y) l).
Proof.
  revert x. induction l as [|y l IH]; intros x; [done|]. rewrite join_cons by done. rewrite IH. cbn [List.map].
  rewrite (join_cons "," x) by done. destruct l; done.
Qed.

Lemma go_args_print fs : Forall (fun f => is_plan_ident f = true) fs -> go_args (join ", " (List.map debug_str fs)) = Some fs.
Proof.
  intros H. assert (Hq : Forall (fun f => lacks "," (debug_str f)) fs).
  { eapply Forall_impl; [exact H|]. intros f Hf. rewrite debug_ident by done. unfold quoted. cbn [str_all]. rewrite str_all_app.
    by rewrite (proj1 (plan_ident_lacks f Hf)). }
  destruct fs as [|f fs]; [done|]. unfold go_args. cbn [List.map]. rewrite join_comma.
  assert (Hne : (join "," (debug_str f :: List.map (fun y => " " +:+ y) (List.map debug_str fs)) =? "") = false).
  { apply Forall_inv in H. rewrite debug_ident by done. by destruct fs. }
  rewrite Hne. inversion_clear Hq as [|? ? Hf Hfs]. inversion_clear H as [|? ? Hi His].
  rewrite split_join.
  - cbn [mbind option_bind]. rewrite go_string_ident by done. cbn [mbind option_bind]. rewrite map_map.
    assert (E : mapM (fun x => r ← strip_prefix " " x; go_string r) (List.map (fun x => " " +:+ debug_str x) fs) = Some fs).
    { clear - His. induction His as [|g gs Hg _ IH]; [done|]. cbn [List.map mapM]. rewrite strip_prefix_app. cbn [mbind option_bind].
      rewrite go_string_ident by done. cbn [mbind option_bind]. by rewrite IH. }
    by rewrite E.
  - constructor; [done|]. rewrite map_map. apply Forall_forall. intros s Hs. apply list_elem_of_In, in_map_iff in Hs as (g & <- & Hg).
    cbn. rewrite Forall_forall in Hfs. apply Hfs. by apply list_elem_of_In.
Qed.

(** ** Durations *)

Lemma duration_literal_eq h u : h <> "" -> unit_byte u = true ->
  duration_literal (h +:+ String u "") =
  (if u =a? "d" then h +:+ " * 24 * time.Hour" else if u =a? "s" then h +:+ " * time.Second"
   else if u =a? "m" then h +:+ " * time.Minute" else h +:+ " * time.Hour").
Proof.
  intros Hh Hu. unfold duration_literal. rewrite len_app. cbn [str_len String.length].
  destruct h as [|b h]; [done|]. replace (str_len (String b h) + 1 <? 2)%nat with false by (symmetry; apply Nat.ltb_ge; cbn; lia).
  replace (str_len (String b h) + 1 - 1) with (str_len (String b h)) by lia. rewrite take_app, drop_app.
  revert Hu. by_bytes u.
Qed.

Lemma eqb_zero_app h p : str_len p <> 0 -> str_len p <> 1 -> (h +:+ p =? "0") = false.
Proof.
  intros H0 H1. apply String.eqb_neq. intros E. apply (f_equal str_len) in E. rewrite len_app in E. cbn in E. lia.
Qed.

(** What Go makes of an emitted duration. *)
Lemma go_duration_literal h u : h <> "" -> unit_byte u = true -> str_all is_ascii_digit h = true ->
  go_duration (duration_literal (h +:+ String u "")) = n ← go_int h; fit (Z.of_N n * unit_ns u).
Proof.
  intros Hh Hu Hd. rewrite duration_literal_eq by done. unfold go_duration, unit_ns, unit_byte in *.
  destruct (Ascii.eqb_spec u "d") as [->|Hnd]; [|destruct (Ascii.eqb_spec u "s") as [->|Hns]; [|destruct (Ascii.eqb_spec u "m") as [->|Hnm]]].
  - rewrite eqb_zero_app, strip_suffix_app by done. done.
  - rewrite eqb_zero_app by done. rewrite (strip_suffix_other h " * time.Second") by done. by rewrite strip_suffix_app.
  - rewrite eqb_zero_app by done. rewrite !(strip_suffix_other h " * time.Minute") by done. by rewrite strip_suffix_app.
  - destruct (Ascii.eqb_spec u "h") as [->|]; [|done]. rewrite eqb_zero_app by done.
    assert (E : strip_suffix " * 24 * time.Hour" (h +:+ " * time.Hour") = None).
    { apply strip_suffix_None. intros t E. change " * 24 * time.Hour" with (" * 24" +:+ " * time.Hour") in E. rewrite <- sapp_assoc in E.
      apply sapp_inj_r in E. rewrite E, str_all_app in Hd. cbn in Hd. by rewrite andb_false_r in Hd. }
    rewrite E. rewrite (strip_suffix_other h " * time.Hour" " * time.Second") by done.
    rewrite (strip_suffix_other h " * time.Hour" " * time.Minute") by done. by rewrite strip_suffix_app.
Qed.

Lemma go_int_canonical h : canonical h = true -> go_int h = digits_val 0 h.
Proof. unfold canonical, go_int. destruct h as [|b r]; [done|]. by destruct ((b =a? "0") && nonempty r). Qed.

Lemma trial_ns_eq h u : trial_ns (h +:+ String u "") = n ← digits_val 0 h; Some (Z.of_N n * unit_ns u)%Z.
Proof.
  unfold trial_ns. rewrite last_byte_snoc, len_app. cbn [mbind option_bind str_len String.length].
  replace (str_len h + 1 - 1) with (str_len h) by lia. by rewrite take_app.
Qed.

Lemma go_duration_fits d : is_valid_trial_duration d = true -> duration_fits d = true ->
  go_duration (duration_literal d) = Some (default 0%Z (trial_ns d)).
Proof.
  intros (h & u & -> & Hh & Hd & Hu)%valid_duration_iff. unfold duration_fits. rewrite len_app. cbn [str_len String.length].
  replace (str_len h + 1 - 1) with (str_len h) by lia. rewrite take_app. intros [Hc Hf]%andb_true_iff.
  rewrite go_duration_literal, go_int_canonical by done. rewrite trial_ns_eq in *. destruct (digits_val 0 h) as [n|]; [|done].
  cbn in *. unfold fit. by rewrite Hf.
Qed.

(** ** Plans of identifiers *)

Record plan_wf (p : Plan) : Prop := {
  wf_name : is_plan_ident (name p) = true;
  wf_features : Forall (fun f => is_plan_ident f = true) (plan_features p);
  wf_features_sorted : bs_sorted (plan_features p);
  wf_limits : Forall (fun l => is_plan_ident (l_name l) = true /\
    match l_value l with Integer n => (n <= u64_max)%N | Unlimited => True end) (plan_limits p);
  wf_limits_sorted : bs_sorted (List.map l_name (plan_limits p));
  wf_trial : forall t, plan_trial p = Some t -> is_valid_trial_duration (t_duration t) = true /\ is_plan_ident (t_then_plan t) = true
}.

Lemma plan_ok_parts b : plan_ok b = true ->
  is_plan_ident (plan_name b) = true /\ Forall (fun r => feature_ok r = true) (features b) /\
  Forall (fun r => limit_ok r = true) (limits b) /\ (forall t, trial b = Some t -> trial_ok t = true).
Proof.
  unfold plan_ok. intros [[[[Hn Hf%forallb_Forall]%andb_true_iff Hl%forallb_Forall]%andb_true_iff Ht]%andb_true_iff _]%andb_true_iff.
  split_and!; try done. intros t E. by rewrite E in Ht.
Qed.

Lemma limit_values_ok refs : Forall (fun r => limit_ok r = true) refs ->
  Forall (fun nv => is_plan_ident nv.1 = true /\ match nv.2 with Integer n => (n <= u64_max)%N | Unlimited => True end) (limit_values refs).
Proof.
  unfold limit_values. induction 1 as [|r refs Hr _ IH]; cbn; [constructor|]. destruct r as [n v|n|o]; cbn in *.
  - apply andb_true_iff in Hr as [? ?%N.leb_le]. by constructor.
  - by constructor.
  - done.
Qed.

Lemma own_limit_ok b n v : plan_ok b = true -> own_limit b n = Some v ->
  is_plan_ident n = true /\ match v with Integer n => (n <= u64_max)%N | Unlimited => True end.
Proof.
  intros (_ & _ & Hl%limit_values_ok & _)%plan_ok_parts. unfold own_limit.
  destruct (List.find _ _) as [[k w]|] eqn:E; [|done]. intros [= ->]. apply find_some in E as [Hin%in_rev Hk]. cbn in Hk.
  apply keqb_eq in Hk as ->. rewrite Forall_forall in Hl. apply (Hl (k, v)). by apply list_elem_of_In.
Qed.

Lemma last_block_ok blocks n b : Forall (fun b => plan_ok b = true) blocks -> last_block blocks n = Some b -> plan_ok b = true.
Proof. intros H [_ Hin]%last_block_name. rewrite Forall_forall in H. apply H. by apply list_elem_of_In. Qed.

Lemma limit_of_ok blocks b n v : Forall (fun b => plan_ok b = true) blocks -> plan_ok b = true -> limit_of blocks b n = Some v ->
  is_plan_ident n = true /\ match v with Integer n => (n <= u64_max)%N | Unlimited => True end.
Proof.
  intros Hb Hok. unfold limit_of. destruct (own_limit b n) as [w|] eqn:E; [intros [= ->]; by eapply own_limit_ok|].
  induction (limit_others (limits b)) as [|o os IH]; cbn [inherited]; [done|].
  destruct (last_block blocks o) as [b'|] eqn:Eo; cbn [mbind option_bind]; [|done].
  destruct (own_limit b' n) as [w|] eqn:Ew; [|done]. intros [= ->]. eapply own_limit_ok; [|exact Ew]. by eapply last_block_ok.
Qed.

Lemma unlocks_ident blocks b f : Forall (fun b => plan_ok b = true) blocks -> plan_ok b = true -> unlocks blocks b f ->
  is_plan_ident f = true.
Proof.
  intros Hb Hok H. assert (G : forall b', plan_ok b' = true -> In (FeatureIdent f) (features b') -> is_plan_ident f = true).
  { intros b' (_ & Hf & _)%plan_ok_parts Hin. rewrite Forall_forall in Hf. apply (Hf (FeatureIdent f)). by apply list_elem_of_In. }
  destruct H as [H|(o & b' & _ & Hl & H)]; [by apply (G b)|]. apply (G b'); [|done]. by eapply last_block_ok.
Qed.

Lemma In_direct_features b f : In f (direct_features (stage b)) <-> In (FeatureIdent f) (features b).
Proof. apply feature_idents_In. Qed.

Lemma expanded_unlocks blocks b f : In f (expand_features (staging blocks) (stage b)) -> unlocks blocks b f.
Proof.
  rewrite expand_features_In. intros [H|(o & s & Ho & Hs & Hf)]; [left; by apply In_direct_features|right].
  rewrite staging_get in Hs. destruct (last_block blocks o) as [b'|] eqn:E; [|done]. injection Hs as <-. exists o, b'.
  split_and!; [by apply feature_others_In|done|by apply In_direct_features].
Qed.

(** The plans of the catalog of accepted blocks. *)
Lemma catalog_wf blocks p : Forall (fun b => plan_ok b = true) blocks -> In p (plans (build_plan_catalog blocks)) -> plan_wf p.
Proof.
  intros Hok (b & Hb & Ep)%plans_In. rewrite expand_plan_eq in Ep. pose proof (last_block_ok _ _ _ Hok Hb) as Hpb.
  pose proof (plan_ok_parts _ Hpb) as (Hn & _ & _ & Ht). destruct (last_block_name _ _ _ Hb) as [En _].
  constructor.
  - by rewrite <- En.
  - rewrite Ep. cbn [plan_features]. apply Forall_forall. intros f Hf%list_elem_of_In%expanded_unlocks. by eapply unlocks_ident.
  - rewrite Ep. apply expand_features_sorted.
  - rewrite Ep. cbn [plan_limits]. apply Forall_forall. intros l Hl. apply list_elem_of_In, in_map_iff in Hl as ([n v] & <- & Hl). cbn.
    apply bt_In_get in Hl; [|apply expand_limits_sorted]. rewrite expand_limits_get in Hl. by eapply limit_of_ok.
  - rewrite Ep. cbn [plan_limits]. rewrite map_map. apply bt_sorted_keys, expand_limits_sorted.
  - rewrite Ep. cbn [plan_trial stage s_trial]. intros t Et. destruct (trial b) as [t0|] eqn:E; [|done]. injection Et as <-. cbn.
    specialize (Ht t0 eq_refl). unfold trial_ok in Ht. by apply andb_true_iff in Ht.
Qed.

(** ** Reading an entry *)

Lemma read_plans_line acc m l ls : m <> Between ->
  read_plans acc m (l :: ls) = '(acc, m) ← read_line acc m l; read_plans acc m ls.
Proof. by destruct m. Qed.

Lemma fresh_None {V} k (m : list (string * V)) : ~ In k (List.map fst m) -> fresh k m = Some tt.
Proof.
  intros H. unfold fresh. destruct (bt_contains k m) eqn:E; [|done]. apply bt_contains_iff, bt_keys_In in E. by destruct H.
Qed.

Lemma bs_collect_id l : bs_sorted l -> bs_collect (K := string) l = l.
Proof. intros H. apply bs_ext; [apply bs_collect_sorted|done|]. intros k. apply bs_collect_In. Qed.

Lemma read_limit_print p l : is_plan_ident (l_name l) = true ->
  match l_value l with Integer n => (n <= u64_max)%N | Unlimited => True end ->
  ~ In (l_name l) (List.map fst (billing.Limits p)) ->
  read_limit p (debug_str (l_name l) +:+ ": " +:+ limit_rhs (l_value l) +:+ ",") = Some (add_limit (l_name l) (go_value (l_value l)) p).
Proof.
  intros Hn Hv Hf. unfold read_limit.
  replace (debug_str (l_name l) +:+ ": " +:+ limit_rhs (l_value l) +:+ ",") with
    ((debug_str (l_name l) +:+ String ":" (" " +:+ limit_rhs (l_value l))) +:+ ",") by (by rewrite sapp_assoc).
  rewrite strip_suffix_app. cbn [mbind option_bind]. rewrite split_once_app.
  - cbn [mbind option_bind]. rewrite go_string_ident by done. cbn [mbind option_bind]. rewrite strip_prefix_app. cbn [mbind option_bind].
    rewrite go_limit_rhs by done. cbn [mbind option_bind]. by rewrite fresh_None.
  - rewrite debug_ident by done. unfold quoted. cbn [str_all]. rewrite str_all_app. cbn.
    apply ident_bytes in Hn as [_ Hn]. rewrite andb_true_r. eapply str_all_impl; [|exact Hn]. clear. intros b. by_bytes b.
Qed.

Lemma read_limits_print acc key ls rest : forall p,
  Forall (fun l => is_plan_ident (l_name l) = true /\ match l_value l with Integer n => (n <= u64_max)%N | Unlimited => True end) ls ->
  List.NoDup (List.map fst (billing.Limits p) ++ List.map l_name ls) ->
  read_plans acc (InLimits key p) (List.map (fun l => tabs 4 (debug_str (l_name l) +:+ ": " +:+ limit_rhs (l_value l) +:+ ",")) ls ++ tabs 3 "}," :: rest) =
  read_plans acc (InPlan key {| billing.Name := billing.Name p; billing.Features := billing.Features p;
    billing.Limits := billing.Limits p ++ List.map (fun l => (l_name l, go_value (l_value l))) ls; billing.Trial := billing.Trial p |}) rest.
Proof.
  induction ls as [|l ls IH]; intros p Hok Hnd; cbn [List.map app].
  - rewrite read_plans_line by done. cbn. rewrite app_nil_r. by destruct p.
  - inversion_clear Hok as [|? ? [Hn Hv] Hls]. rewrite read_plans_line by done. cbn [read_line].
    set (line := debug_str (l_name l) +:+ ": " +:+ limit_rhs (l_value l) +:+ ",").
    replace (tabs 4 line =? tabs 3 "},") with false by done.
    change (strip_prefix (tabs 4 "") (tabs 4 line)) with (strip_prefix (tabs 4 "") (tabs 4 "" +:+ line)). rewrite strip_prefix_app.
    cbn [mbind option_bind]. unfold line. rewrite read_limit_print; [|done..|].
    2: { intros Hin. apply NoDup_remove_2 in Hnd. apply Hnd. apply in_or_app. by left. }
    cbn [mbind option_bind]. rewrite IH; [|done|].
    + unfold add_limit. cbn. by rewrite <- app_assoc.
    + cbn. rewrite map_app, <- app_assoc. exact Hnd.
Qed.

Definition trial_fits (p : Plan) : bool :=
  match plan_trial p with Some t => duration_fits (t_duration t) | None => true end.

Lemma read_in_plan acc key p s ls m : tabs 3 s <> tabs 2 "}," -> read_field key p s = Some m ->
  read_plans acc (InPlan key p) (tabs 3 s :: ls) = read_plans acc m ls.
Proof.
  intros Hne Hr. rewrite read_plans_line by done. cbn [read_line]. rewrite (proj2 (String.eqb_neq _ _) Hne).
  change (strip_prefix (tabs 3 "") (tabs 3 s)) with (strip_prefix (tabs 3 "") (tabs 3 "" +:+ s)). rewrite strip_prefix_app.
  cbn [mbind option_bind]. by rewrite Hr.
Qed.

Lemma read_in_trial acc key p d th s ls d' th' : tabs 4 s <> tabs 3 "}," ->
  match between "Duration: " "," s with
  | Some s => d ← go_duration s; Some (Some d, th)
  | None => s ← between "ThenPlan: " "," s; t ← go_string s; Some (d, Some t)
  end = Some (d', th') ->
  read_plans acc (InTrial key p d th) (tabs 4 s :: ls) = read_plans acc (InTrial key p d' th') ls.
Proof.
  intros Hne Hr. rewrite read_plans_line by done. cbn [read_line].
  replace (tabs 4 s =? tabs 3 "},") with false by done.
  change (strip_prefix (tabs 4 "") (tabs 4 s)) with (strip_prefix (tabs 4 "") (tabs 4 "" +:+ s)). rewrite strip_prefix_app.
  cbn [mbind option_bind]. destruct (between "Duration: " "," s) as [r|].
  - destruct (go_duration r) as [x|]; [|done]. cbn in *. by injection Hr as <- <-.
  - destruct (between "ThenPlan: " "," s) as [r|]; [|done]. cbn in *. destruct (go_string r) as [x|]; [|done]. cbn in *.
    by injection Hr as <- <-.
Qed.

Lemma read_trial_print acc key p t rest : is_valid_trial_duration (t_duration t) = true -> is_plan_ident (t_then_plan t) = true ->
  duration_fits (t_duration t) = true ->
  read_plans acc (InPlan key p)
    (tabs 3 "Trial: &billing.TrialPolicy{" :: tabs 4 ("Duration: " +:+ duration_literal (t_duration t) +:+ ",") ::
     tabs 4 ("ThenPlan: " +:+ debug_str (t_then_plan t) +:+ ",") :: tabs 3 "}," :: rest) =
  read_plans acc (InPlan key (set_trial (default 0%Z (trial_ns (t_duration t))) (t_then_plan t) p)) rest.
Proof.
  intros Hv Hi Hf. rewrite (read_in_plan _ _ _ _ _ (InTrial key p None None)) by done.
  rewrite (read_in_trial _ _ _ _ _ _ _ (Some (default 0%Z (trial_ns (t_duration t)))) None); [|done|].
  2: { rewrite between_app, go_duration_fits by done. done. }
  rewrite (read_in_trial _ _ _ _ _ _ _ (Some (default 0%Z (trial_ns (t_duration t)))) (Some (t_then_plan t))); [|done|].
  2: { replace (between "Duration: " "," ("ThenPlan: " +:+ debug_str (t_then_plan t) +:+ ",")) with (@None string) by done.
       rewrite between_app. cbn [mbind option_bind]. by rewrite go_string_ident. }
  by rewrite read_plans_line.
Qed.

Lemma read_entry acc p rest : plan_wf p -> trial_fits p = true -> ~ In (name p) (List.map fst acc) ->
  read_plans acc Between (emit_plan_entry p ++ rest) = read_plans (acc ++ [go_plan p]) Between rest.
Proof.
  intros Hwf Hfit Hfresh. pose proof (wf_name p Hwf) as Hn. unfold emit_plan_entry. cbn [app].
  set (p0 := {| billing.Name := ""; billing.Features := []; billing.Limits := []; billing.Trial := None |}).
  assert (H1 : forall ls, read_plans acc Between (tabs 2 (debug_str (name p) +:+ ": {") :: ls) = read_plans acc (InPlan (name p) p0) ls).
  { intros ls. cbn [read_plans]. replace (tabs 2 (debug_str (name p) +:+ ": {") =? tabs 1 "},") with false by done. cbn [read_line].
    change (strip_prefix (tabs 2 "") (tabs 2 (debug_str (name p) +:+ ": {"))) with (strip_prefix (tabs 2 "") (tabs 2 "" +:+ (debug_str (name p) +:+ ": {"))).
    rewrite strip_prefix_app. cbn [mbind option_bind]. rewrite strip_suffix_app. cbn [mbind option_bind].
    rewrite go_string_ident by done. cbn [mbind option_bind]. rewrite fresh_None by done. done. }
  rewrite H1. rewrite (read_in_plan _ _ _ _ _ (InPlan (name p) (set_name (name p) p0))); [|done|].
  2: { unfold read_field. rewrite between_app, go_string_ident by done. done. }
  rewrite (read_in_plan _ _ _ _ _ (InPlan (name p) (set_features (plan_features p) (set_name (name p) p0)))); [|done|].
  2: { unfold read_field.
       replace (between "Name: " "," ("Features: billing.NewFeatureSet(" +:+ join ", " (List.map debug_str (plan_features p)) +:+ "),"))
         with (@None string) by done.
       rewrite between_app, go_args_print by apply wf_features, Hwf. cbn [mbind option_bind].
       by rewrite bs_collect_id by apply wf_features_sorted, Hwf. }
  set (p1 := set_features (plan_features p) (set_name (name p) p0)).
  rewrite <- !app_assoc.
  set (tl := (match plan_trial p with Some trial => _ | None => _ end ++ [tabs 2 "},"] ++ rest)%list).
  set (p2 := {| billing.Name := name p; billing.Features := plan_features p;
                billing.Limits := List.map (fun l => (l_name l, go_value (l_value l))) (plan_limits p); billing.Trial := None |}).
  assert (H2 : read_plans acc (InPlan (name p) p1)
    (match plan_limits p with
     | [] => []
     | limits => [tabs 3 "Limits: map[string]billing.LimitValue{"] ++
         List.map (fun l => tabs 4 (debug_str (l_name l) +:+ ": " +:+ limit_rhs (l_value l) +:+ ",")) limits ++ [tabs 3 "},"]
     end ++ tl)%list = read_plans acc (InPlan (name p) p2) tl).
  { pose proof (wf_limits p Hwf) as Hl. pose proof (wf_limits_sorted p Hwf) as Hs. unfold p2.
    destruct (plan_limits p) as [|l ls]; [done|]. rewrite <- !app_assoc. cbn [app].
    rewrite (read_in_plan _ _ _ _ _ (InLimits (name p) p1)) by done.
    rewrite read_limits_print; [done|done|]. cbn. by apply NoDup_ListNoDup, bs_sorted_NoDup. }
  etransitivity; [exact H2|]. unfold tl. clear H2 tl. unfold go_plan. pose proof (wf_trial p Hwf) as Ht. unfold trial_fits in Hfit.
  destruct (plan_trial p) as [t|].
  - destruct (Ht t eq_refl) as [Hv Hi]. cbn [app]. rewrite read_trial_print by done. by rewrite read_plans_line.
  - cbn [app]. by rewrite read_plans_line.
Qed.

Lemma read_entries ps rest : forall acc, Forall plan_wf ps -> forallb trial_fits ps = true ->
  List.NoDup (List.map fst acc ++ List.map name ps) ->
  read_plans acc Between (flat_map emit_plan_entry ps ++ tabs 1 "}," :: rest) = Some (acc ++ List.map go_plan ps)%list.
Proof.
  induction ps as [|p ps IH]; intros acc Hwf Hfit Hnd; cbn [flat_map List.map app].
  - cbn. by rewrite app_nil_r.
  - inversion_clear Hwf. cbn [forallb] in Hfit. apply andb_true_iff in Hfit as [Hp Hps]. rewrite <- app_assoc, read_entry; [|done..|].
    + rewrite IH; [by rewrite <- app_assoc|done..|]. rewrite map_app, <- app_assoc. exact Hnd.
    + intros Hin. apply NoDup_remove_2 in Hnd. apply Hnd. apply in_or_app. by left.
Qed.

(** ** The lines of the file *)

Lemma plain_tabs n s : plain_line (tabs n s) = plain_line s.
Proof. induction n as [|n IH]; [done|]. exact IH. Qed.

Lemma plain_debug_byte b : plain_line (debug_byte b) = true.
Proof. by_bytes b. Qed.

Lemma plain_debug s : plain_line (debug_str s) = true.
Proof.
  unfold debug_str, quoted. cbn [plain_line str_all]. assert (H : plain_line (debug_body s) = true).
  { induction s as [|b s IH]; [done|]. cbn [debug_body]. by rewrite plain_app, plain_debug_byte, IH. }
  change (plain_line (String DQ (debug_body s +:+ String DQ "")) = true). change (String DQ (debug_body s +:+ String DQ "")) with
    (String DQ "" +:+ (debug_body s +:+ String DQ "")). by rewrite !plain_app, H.
Qed.

Lemma graphic_plain s : str_all graphic s = true -> plain_line s = true.
Proof. intros H. eapply str_all_impl; [|exact H]. clear. intros b. by_bytes b. Qed.

Lemma plain_show n : plain_line (show_N n) = true.
Proof. pose proof (show_N_word n) as [_ H]%andb_true_iff. by apply graphic_plain. Qed.

Lemma plain_rhs v : plain_line (limit_rhs v) = true.
Proof. destruct v as [n|]; [|done]. unfold limit_rhs. by rewrite !plain_app, plain_show. Qed.

Lemma plain_duration d : is_valid_trial_duration d = true -> plain_line (duration_literal d) = true.
Proof.
  intros (h & u & -> & Hh & Hd & Hu)%valid_duration_iff. rewrite duration_literal_eq by done.
  assert (Hp : plain_line h = true) by (eapply str_all_impl; [|exact Hd]; clear; intros b; by_bytes b).
  destruct (u =a? "d"), (u =a? "s"), (u =a? "m"); by rewrite plain_app, Hp.
Qed.

Lemma plain_join l : Forall (fun s => plain_line s = true) l -> plain_line (join ", " l) = true.
Proof.
  induction 1 as [|x l Hx Hl IH]; [done|]. destruct l as [|y l]; [done|]. rewrite join_cons by done. by rewrite !plain_app, Hx, IH.
Qed.

Create Rewrite HintDb plain.
#[local] Hint Rewrite plain_tabs plain_app plain_debug plain_show plain_rhs : plain.

Lemma plain_flat {A} (f : A -> list string) l :
  (forall x, In x l -> Forall (fun s => plain_line s = true) (f x)) -> Forall (fun s => plain_line s = true) (flat_map f l).
Proof. induction l as [|x l IH]; intros H; [constructor|]. cbn. apply Forall_app. split; [apply H; by left|apply IH; intros; apply H; by right]. Qed.

Lemma plain_map {A} (f : A -> string) l : (forall x, In x l -> plain_line (f x) = true) -> Forall (fun s => plain_line s = true) (List.map f l).
Proof. induction l as [|x l IH]; intros H; [constructor|]. constructor; [apply H; by left|apply IH; intros; apply H; by right]. Qed.

Lemma plain_anchor a : Forall (fun s => plain_line s = true) (emit_anchor a).
Proof. destruct a as [[f fd [t|] sp]|]; unfold emit_anchor; cbn [a_feature a_field tenancy_axis]; repeat constructor; by autorewrite with plain. Qed.

Lemma plain_entry p : plan_wf p -> Forall (fun s => plain_line s = true) (emit_plan_entry p).
Proof.
  intros Hwf. unfold emit_plan_entry. repeat apply Forall_app_2.
  - repeat constructor; autorewrite with plain; try done.
    rewrite plain_join; [done|]. apply plain_map. intros x _. apply plain_debug.
  - destruct (plan_limits p) as [|l ls]; [constructor|]. repeat apply Forall_app_2; [repeat constructor; by autorewrite with plain| |repeat constructor].
    apply plain_map. intros x _. by autorewrite with plain.
  - pose proof (wf_trial p Hwf) as Ht. destruct (plan_trial p) as [t|]; [|constructor]. destruct (Ht t eq_refl) as [Hv _].
    repeat constructor; autorewrite with plain; try done. by rewrite plain_duration.
  - by repeat constructor.
Qed.

Lemma plain_gate_ref g : plain_line (gate_ref g) = true.
Proof. destruct g; unfold gate_ref; by autorewrite with plain. Qed.

Lemma plain_helpers gs : Forall (fun s => plain_line s = true) (emit_gate_helpers gs).
Proof.
  unfold emit_gate_helpers. destruct gs as [|kg gs]; [constructor|]. apply Forall_app_2; [by repeat constructor|apply Forall_app_2; [|by repeat constructor]].
  apply plain_flat. intros x _. repeat apply Forall_app_2; [repeat constructor; by autorewrite with plain| |by repeat constructor].
  apply plain_map. intros g _. by rewrite plain_tabs, plain_gate_ref.
Qed.

(** The lines before [Plans] are skipped. *)
Lemma read_catalog_skip ls rest : Forall (fun l => l <> tabs 1 "Plans: map[string]billing.Plan{") ls ->
  read_catalog (ls ++ rest) = read_catalog rest.
Proof. induction 1 as [|l ls Hl _ IH]; [done|]. cbn [app read_catalog]. by rewrite (proj2 (String.eqb_neq _ _) Hl). Qed.

Lemma anchor_not_plans a : Forall (fun l => l <> tabs 1 "Plans: map[string]billing.Plan{") (emit_anchor a).
Proof. destruct a as [[f fd [t|] sp]|]; repeat constructor; discriminate. Qed.

Lemma catalog_lines_plain facts c : Forall plan_wf (plans c) -> Forall (fun s => plain_line s = true) (catalog_lines facts c).
Proof.
  intros Hwf. unfold catalog_lines, catalog_body, imports, emit_plans.
  do 3 (apply Forall_app_2; [by repeat constructor|]). apply Forall_app_2; [apply plain_anchor|].
  apply Forall_app_2; [|apply Forall_app_2; [by repeat constructor|apply plain_helpers]].
  constructor; [done|]. apply Forall_app_2; [|by repeat constructor]. apply plain_flat. intros p Hp. apply plain_entry.
  rewrite Forall_forall in Hwf. apply Hwf. by apply list_elem_of_In.
Qed.

Lemma read_emitted facts c text : Forall plan_wf (plans c) -> forallb trial_fits (plans c) = true ->
  List.NoDup (List.map name (plans c)) -> catalog facts = Some c -> emit_plan_catalog_file facts = Some text ->
  go_catalog text = Some (List.map go_plan (plans c)).
Proof.
  intros Hwf Hfit Hnd Hc He. unfold emit_plan_catalog_file in He. rewrite Hc in He. apply Some_inj in He as <-. unfold go_catalog.
  rewrite str_lines_unlines by by apply catalog_lines_plain. unfold catalog_lines, catalog_body, imports, emit_plans.
  do 3 (rewrite read_catalog_skip by (repeat constructor; discriminate)).
  rewrite read_catalog_skip by apply anchor_not_plans. cbn [app read_catalog]. rewrite String.eqb_refl.
  rewrite <- app_assoc. cbn [app]. by rewrite read_entries.
Qed.

(** ** The imports *)

Definition has_trial (ps : list Plan) : bool := existsb (fun p => match plan_trial p with Some _ => true | None => false end) ps.

(** *** Strings and numbers name nothing *)

Definition inert (b : byte) : bool := negb (b =a? BSL) && negb (b =a? DQ).
Definition escaped (e : string) : bool :=
  match e with String b r => if b =a? BSL then match r with String _ r => str_all inert r | "" => false end else inert b && str_all inert r | "" => true end.
Lemma debug_byte_escaped b : escaped (debug_byte b) = true.
Proof. by_bytes b. Qed.

Section mentions.
Context (pkg : string).
Lemma mentions_inert e t : str_all inert e = true -> mentions pkg true true (e +:+ t) = mentions pkg true true t.
Proof.
  induction e as [|b e IH]; [done|]. cbn [str_all String.append mentions]. intros [[Hb%negb_true_iff Hq%negb_true_iff]%andb_true_iff He]%andb_true_iff.
  rewrite Hb, Hq. by apply IH.
Qed.
(** A string literal is passed over. *)
Lemma mentions_body s r : mentions pkg true true (debug_body s +:+ String DQ r) = mentions pkg false true r.
Proof.
  induction s as [|b s IH]; [done|]. cbn [debug_body]. rewrite sapp_assoc. rewrite <-IH. generalize (debug_body s +:+ String DQ r) as t. intros t.
  pose proof (debug_byte_escaped b) as H. destruct (debug_byte b) as [|c e]; [done|]. unfold escaped in H. cbn [String.append mentions]. destruct (c =a? BSL).
  - destruct e as [|d e]; [done|]. by apply mentions_inert.
  - apply andb_true_iff in H as [[_ Hq%negb_true_iff]%andb_true_iff He]. rewrite Hq. by apply mentions_inert.
Qed.
End mentions.
Lemma mentions_string bd s r : mentions "time" false bd (debug_str s +:+ r) = mentions "time" false true r.
Proof.
  rewrite <-(mentions_body "time" s r). unfold debug_str, quoted. cbn [String.append]. rewrite sapp_assoc. cbn [String.append]. by destruct bd.
Qed.
Definition calm (b : byte) : bool := negb (b =a? "t") && negb (b =a? "/") && negb (b =a? DQ).
Lemma mentions_calm bd b r : calm b = true -> mentions "time" false bd (String b r) = mentions "time" false (negb (ident_tail b)) r.
Proof.
  unfold calm. intros [[Ht%negb_true_iff Hs%negb_true_iff]%andb_true_iff Hq%negb_true_iff]%andb_true_iff. cbn [mentions]. rewrite Hq.
  assert (starts_with "//" (String b r) = false) as -> by (cbn [starts_with]; replace ("/" =a? b) with (b =a? "/") by apply Ascii.eqb_sym; by rewrite Hs).
  assert (starts_with ("time" +:+ ".") (String b r) = false) as -> by (cbn [String.append starts_with]; replace ("t" =a? b) with (b =a? "t") by apply Ascii.eqb_sym; by rewrite Ht).
  by rewrite andb_false_r.
Qed.
Lemma mentions_digits bd d c r : str_all is_ascii_digit d = true -> calm c = true -> ident_tail c = false ->
  mentions "time" false bd (d +:+ String c r) = mentions "time" false true r.
Proof.
  intros Hd Hc Hi. revert bd. induction d as [|b d IH]; intros bd; [cbn [String.append]; by rewrite mentions_calm, Hi|].
  cbn [str_all] in Hd. apply andb_true_iff in Hd as [Hb Hd]. cbn [String.append]. rewrite mentions_calm; [by apply IH|]. revert Hb. clear. by_bytes b.
Qed.

(** *** Every line but a trial's is silent *)

Definition silent (line : string) : Prop := mentions "time" false true line = false.
Lemma silent_args l r : mentions "time" false true (join ", " (List.map debug_str l) +:+ r) = mentions "time" false true r.
Proof.
  induction l as [|x l IH]; [done|]. destruct l as [|y l].
  - cbn [List.map join]. by rewrite mentions_string.
  - cbn [List.map] in *. rewrite join_cons by done. rewrite !sapp_assoc, mentions_string. cbn [String.append]. rewrite !mentions_calm by done. exact IH.
Qed.
Ltac quiet := repeat first [reflexivity|rewrite mentions_string|rewrite silent_args|rewrite sapp_assoc|progress cbn -[debug_str show_N]|rewrite mentions_calm by reflexivity].
Lemma silent_anchor a : Forall silent (emit_anchor a).
Proof. destruct a as [[f fd [t|] sp]|]; repeat constructor; unfold silent; cbn [a_feature a_field tenancy_axis]; quiet. Qed.
Lemma silent_rhs v : mentions "time" false true (limit_rhs v +:+ ",") = false.
Proof. destruct v as [n|]; [|done]. unfold limit_rhs. rewrite !sapp_assoc. cbn -[show_N]. by rewrite mentions_digits by (apply show_N_digits || done). Qed.
Lemma silent_gate g : Forall silent [tabs 2 (gate_ref g)].
Proof. destruct g; repeat constructor; unfold silent; cbn [gate_ref]; quiet. Qed.
Lemma silent_helpers gs : Forall silent (emit_gate_helpers gs).
Proof.
  unfold emit_gate_helpers. destruct gs as [|kg gs]; [constructor|]. apply Forall_app_2; [by repeat constructor|apply Forall_app_2; [|by repeat constructor]].
  apply Forall_forall. intros l (kg' & _ & [Hl|Hl]%in_app_iff)%list_elem_of_In%in_flat_map.
  - destruct Hl as [<-|[]]. unfold silent. quiet.
  - apply in_app_iff in Hl as [(g & <- & _)%in_map_iff|[<-|[]]]; [|done]. pose proof (silent_gate g) as H. by inversion H.
Qed.
Lemma silent_entry p : plan_trial p = None -> Forall silent (emit_plan_entry p).
Proof.
  intros E. unfold emit_plan_entry. rewrite E. repeat apply Forall_app_2; try by repeat constructor.
  - repeat constructor; unfold silent; quiet.
  - destruct (plan_limits p) as [|l ls]; [constructor|]. repeat apply Forall_app_2; try by repeat constructor.
    apply Forall_forall. intros x (y & <- & _)%list_elem_of_In%in_map_iff. unfold silent. cbn -[debug_str limit_rhs]. rewrite mentions_string. cbn -[limit_rhs]. apply silent_rhs.
Qed.
Lemma trial_mentions p : plan_wf p -> forall t, plan_trial p = Some t -> existsb (mentions "time" false true) (emit_plan_entry p) = true.
Proof.
  intros Hwf t Et. destruct (wf_trial p Hwf t Et) as [Hv _]. unfold emit_plan_entry. rewrite Et, !existsb_app. apply orb_true_iff. right. apply orb_true_iff. right. apply orb_true_iff. left.
  cbn [existsb]. apply orb_true_iff. right. apply orb_true_iff. left. apply valid_duration_iff in Hv as (h & u & -> & Hh & Hd & Hu). rewrite duration_literal_eq by done.
  cbn -[mentions]. cbn. destruct (u =a? "d"), (u =a? "s"), (u =a? "m"); rewrite !sapp_assoc; cbn [String.append]; by rewrite mentions_digits by done.
Qed.

Lemma silent_mentions ls : Forall silent ls -> existsb (mentions "time" false true) ls = false.
Proof. induction 1 as [|l ls Hl _ IH]; [done|]. cbn [existsb]. by rewrite Hl, IH. Qed.
Lemma entries_mention ps : Forall plan_wf ps -> existsb (mentions "time" false true) (flat_map emit_plan_entry ps) = has_trial ps.
Proof.
  induction 1 as [|p ps Hp _ IH]; [done|]. cbn [flat_map]. rewrite existsb_app, IH. unfold has_trial. cbn [existsb]. destruct (plan_trial p) as [t|] eqn:E.
  - by rewrite (trial_mentions p Hp t E).
  - by rewrite silent_mentions by by apply silent_entry.
Qed.
(** The file compiles exactly when a plan has a trial. *)
Lemma imports_emitted facts c text : Forall plan_wf (plans c) -> catalog facts = Some c -> emit_plan_catalog_file facts = Some text ->
  imports_used text = has_trial (plans c).
Proof.
  intros Hwf Hc He. unfold emit_plan_catalog_file in He. rewrite Hc in He. apply Some_inj in He as <-. unfold imports_used.
  rewrite str_lines_unlines by by apply catalog_lines_plain.
  change (read_imports (catalog_lines facts c)) with (Some (["time"; "lazuli.dev/runtime/lazuli/billing"], catalog_body facts c)). cbn [forallb].
  assert (Hb : existsb (mentions (package_name "lazuli.dev/runtime/lazuli/billing") false true) (catalog_body facts c) = true).
  { unfold catalog_body. rewrite existsb_app. reflexivity. }
  rewrite Hb, !andb_true_r. change (package_name "time") with "time". unfold catalog_body, emit_plans. rewrite !existsb_app. cbn [existsb].
  rewrite existsb_app, entries_mention by done. rewrite (silent_mentions (emit_anchor _)) by apply silent_anchor.
  rewrite (silent_mentions (emit_gate_helpers _)) by apply silent_helpers. cbn. by rewrite !orb_false_r.
Qed.

(** * The command's prelude as a program *)

Inductive call :=
| CallFeature (feature : string)
| CallQuota (limit : string).

(** The guarded call of a line. *)
Definition read_call (line : string) : option call :=
  s ← strip_prefix (tabs 1 "") line;
  match between "if err := billing.CheckFeature(ctx, plan.Catalog, " "); err != nil {" s with
  | Some r => f ← go_string r; Some (CallFeature f)
  | None => r ← between "if err := billing.CheckQuota(ctx, plan.Catalog, " "); err != nil {" s; l ← go_string r; Some (CallQuota l)
  end.
Definition calls (lines : list string) : list call := omap read_call lines.

(** Every call returns from the wrapper when it fails. *)
Definition run_call {S} `{billing.UsageStore S} (env : billing.Env) (catalog : billing.PlanCatalog) (usage : option S) (c : call)
    : result billing.GateError unit :=
  match c with
  | CallFeature f => billing.CheckFeature env catalog f
  | CallQuota l => billing.CheckQuota env catalog usage l
  end.
Definition run_prelude {S} `{billing.UsageStore S} (env : billing.Env) (catalog : billing.PlanCatalog) (usage : option S)
    (lines : list string) : result billing.GateError unit :=
  billing.check_all (run_call env catalog usage) (calls lines).

Definition gate_ok (g : Gate) : bool := match g with GateBehind f => is_plan_ident f | GateQuota l => is_plan_ident l end.

Definition behinds (gs : list Gate) : list string := omap (fun g => match g with GateBehind f => Some f | GateQuota _ => None end) gs.
Definition quotas (gs : list Gate) : list string := omap (fun g => match g with GateBehind _ => None | GateQuota l => Some l end) gs.

Lemma partition_gates_eq gs : partition_gates gs = (behinds gs, quotas gs).
Proof.
  unfold partition_gates. assert (G : forall b q, foldl (fun bq gate =>
    match gate with
    | GateBehind feature => (bq.1 ++ [feature], bq.2)
    | GateQuota limit => (bq.1, bq.2 ++ [limit])
    end)%list (b, q) gs = (b ++ behinds gs, q ++ quotas gs)%list).
  { induction gs as [|[f|l] gs IH]; intros b q; cbn [foldl behinds quotas omap list_omap]; [by rewrite !app_nil_r|..];
      rewrite IH; cbn; by rewrite <- app_assoc. }
  apply (G [] []).
Qed.

Lemma behinds_In gs f : In f (behinds gs) <-> In (GateBehind f) gs.
Proof. unfold behinds. induction gs as [|[g|g] gs IH]; cbn; [done|rewrite IH|rewrite IH]; split; try naive_solver. Qed.
Lemma quotas_In gs l : In l (quotas gs) <-> In (GateQuota l) gs.
Proof. unfold quotas. induction gs as [|[g|g] gs IH]; cbn; [done|rewrite IH|rewrite IH]; split; try naive_solver. Qed.

Lemma calls_app a b : calls (a ++ b) = (calls a ++ calls b)%list.
Proof. unfold calls. apply omap_app. Qed.

Lemma calls_features ty fs : Forall (fun f => is_plan_ident f = true) fs ->
  calls (flat_map (check_lines ty "behind plan.feature" "CheckFeature") fs) = List.map CallFeature fs.
Proof.
  induction 1 as [|f fs Hf _ IH]; [done|]. cbn [flat_map List.map]. rewrite calls_app, IH.
  enough (E : calls (check_lines ty "behind plan.feature" "CheckFeature" f) = [CallFeature f]) by (by rewrite E).
  unfold check_lines, calls. cbn [omap list_omap].
  replace (read_call (tabs 1 ("// gate: " +:+ "behind plan.feature" +:+ " " +:+ f))) with (@None call) by done.
  assert (E : read_call (tabs 1 ("if err := billing." +:+ "CheckFeature" +:+ "(ctx, plan.Catalog, " +:+ debug_str f +:+ "); err != nil {")) = Some (CallFeature f)).
  { unfold read_call. change (tabs 1 ("if err := billing." +:+ "CheckFeature" +:+ "(ctx, plan.Catalog, " +:+ debug_str f +:+ "); err != nil {")) with
      (tabs 1 "" +:+ ("if err := billing.CheckFeature(ctx, plan.Catalog, " +:+ debug_str f +:+ "); err != nil {")).
    rewrite strip_prefix_app. cbn [mbind option_bind]. rewrite between_app. by rewrite go_string_ident. }
  rewrite E. done.
Qed.

Lemma calls_quotas ty ls : Forall (fun l => is_plan_ident l = true) ls ->
  calls (flat_map (check_lines ty "quota plan.limit" "CheckQuota") ls) = List.map CallQuota ls.
Proof.
  induction 1 as [|l ls Hl _ IH]; [done|]. cbn [flat_map List.map]. rewrite calls_app, IH.
  enough (E : calls (check_lines ty "quota plan.limit" "CheckQuota" l) = [CallQuota l]) by (by rewrite E).
  unfold check_lines, calls. cbn [omap list_omap].
  replace (read_call (tabs 1 ("// gate: " +:+ "quota plan.limit" +:+ " " +:+ l))) with (@None call) by done.
  assert (E : read_call (tabs 1 ("if err := billing." +:+ "CheckQuota" +:+ "(ctx, plan.Catalog, " +:+ debug_str l +:+ "); err != nil {")) = Some (CallQuota l)).
  { unfold read_call. change (tabs 1 ("if err := billing." +:+ "CheckQuota" +:+ "(ctx, plan.Catalog, " +:+ debug_str l +:+ "); err != nil {")) with
      (tabs 1 "" +:+ ("if err := billing.CheckQuota(ctx, plan.Catalog, " +:+ debug_str l +:+ "); err != nil {")).
    rewrite strip_prefix_app. cbn [mbind option_bind].
    replace (between "if err := billing.CheckFeature(ctx, plan.Catalog, " "); err != nil {"
      ("if err := billing.CheckQuota(ctx, plan.Catalog, " +:+ debug_str l +:+ "); err != nil {")) with (@None string) by done.
    rewrite between_app. cbn [mbind option_bind]. by rewrite go_string_ident. }
  rewrite E. done.
Qed.

Lemma calls_prelude ty gs : forallb gate_ok gs = true ->
  calls (emit_command_gate_prelude ty (behinds gs) (quotas gs)) = (List.map CallFeature (behinds gs) ++ List.map CallQuota (quotas gs))%list.
Proof.
  intros Hok. rewrite forallb_forall in Hok. unfold emit_command_gate_prelude. rewrite calls_app, calls_features, calls_quotas; [done|..];
    apply Forall_forall; intros x Hx; apply list_elem_of_In in Hx.
  - apply quotas_In in Hx. exact (Hok _ Hx).
  - apply behinds_In in Hx. exact (Hok _ Hx).
Qed.

Lemma check_all_spec {A} (check : A -> result billing.GateError unit) l :
  match billing.check_all check l with
  | Ok _ => forall x, In x l -> check x = Ok tt
  | Err e => exists x, In x l /\ check x = Err e
  end.
Proof.
  induction l as [|x l IH]; cbn; [done|]. destruct (check x) as [[]|e] eqn:E; cbn [mbind result_bind].
  - destruct (billing.check_all check l) as [[]|e]; [by intros ? [<-|?]; auto|]. destruct IH as (y & Hy & Ey). exists y. auto.
  - exists x. auto.
Qed.

Lemma check_all_app {A} (check : A -> result billing.GateError unit) a b :
  billing.check_all check (a ++ b) = _ ← billing.check_all check a; billing.check_all check b.
Proof. induction a as [|x a IH]; cbn; [done|]. destruct (check x); cbn; [done|done]. Qed.

Lemma check_all_map {A B} (f : A -> B) (check : B -> result billing.GateError unit) l :
  billing.check_all check (List.map f l) = billing.check_all (fun x => check (f x)) l.
Proof. induction l as [|x l IH]; cbn; [done|]. by rewrite IH. Qed.

Lemma check_behinds (check : string -> result billing.GateError unit) gs :
  billing.check_all (fun g => match g with GateBehind f => check f | GateQuota _ => Ok tt end) gs = billing.check_all check (behinds gs).
Proof. unfold behinds. induction gs as [|[f|l] gs IH]; cbn; [done|by rewrite IH|by rewrite IH]. Qed.
Lemma check_quotas (check : string -> result billing.GateError unit) gs :
  billing.check_all (fun g => match g with GateBehind _ => Ok tt | GateQuota l => check l end) gs = billing.check_all check (quotas gs).
Proof. unfold quotas. induction gs as [|[f|l] gs IH]; cbn; [done|by rewrite IH|by rewrite IH]. Qed.

(** ** From the files to the runtime *)

Lemma file_blocks_ok files : Forall (fun b => plan_ok b = true) (flat_map plan_blocks_of files).
Proof.
  apply Forall_forall. intros b Hb. apply list_elem_of_In, in_flat_map in Hb as (f & _ & Hb). unfold plan_blocks_of in Hb.
  destruct (parse_plan_blocks f.2) as [bs|] eqn:E; [|done]. apply plan_blocks_ok in E. rewrite Forall_forall in E.
  apply E. by apply list_elem_of_In.
Qed.

Lemma lower_gate_ok d : directive_ok d = true -> gate_ok (lower_gate d) = true.
Proof. by destruct d. Qed.

Lemma file_gates_ok files key gs : In (key, gs) (aggregate_gates (flat_map feature_gates_of files)) -> forallb gate_ok gs = true.
Proof.
  intros Hin. apply bt_In_get in Hin; [|apply bt_collect_sorted]. unfold aggregate_gates in Hin. rewrite bt_collect_get in Hin.
  destruct (List.find _ _) as [[k v]|] eqn:E; [|done]. injection Hin as ->. apply find_some in E as [Hin _].
  apply in_rev, in_flat_map in Hin as ([fn fg] & Hfg & ([k' ds] & [= <- <-] & Hds)%in_map_iff).
  apply in_flat_map in Hfg as (f & _ & Hf). unfold feature_gates_of in Hf.
  destruct (parse_feature_gates f.2) as [m|] eqn:Ep; [|done]. pose proof (parse_feature_gates_ok _ _ Ep) as Hok.
  destruct m as [|kd m]; [done|]. destruct Hf as [[= <- <-]|[]]. cbn [fst snd] in Hds. specialize (Hok _ _ Hds). clear - Hok.
  induction Hok as [|d ds Hd _ IH]; [done|]. cbn. by rewrite lower_gate_ok, IH.
Qed.

Lemma go_plan_get ps n : bt_get n (List.map go_plan ps) = (fun p => (go_plan p).2) <$> List.find (fun p => name p =? n) ps.
Proof.
  induction ps as [|p ps IH]; [done|]. cbn [List.map bt_get List.find]. unfold go_plan at 1. destruct (String.eqb_spec (name p) n) as [<-|Hne].
  - by rewrite keqb_refl.
  - by rewrite (proj2 (keqb_neq n (name p))) by congruence.
Qed.

Lemma go_limit_get p l : bt_get l (billing.Limits (go_plan p).2) = go_value <$> plan_limit p l.
Proof.
  unfold plan_limit. cbn [go_plan snd billing.Limits]. induction (plan_limits p) as [|x xs IH]; [done|]. cbn [List.map bt_get List.find fst].
  destruct (String.eqb_spec (l_name x) l) as [<-|Hne].
  - by rewrite keqb_refl.
  - by rewrite (proj2 (keqb_neq l (l_name x))) by congruence.
Qed.

Section Compiled.
Context (files : list (string * string)) (app : option string) (facts : PlanGateFacts) (c : PlanCatalog) (text : string).
Hypothesis Hfacts : build_plan_gate_facts files app = Some facts.
Hypothesis Hc : catalog facts = Some c.

Lemma facts_aggregate : facts = aggregate_plan_gate_facts (flat_map plan_blocks_of files) (flat_map feature_gates_of files)
  (app ≫= parse_subscription_anchor).
Proof.
  clear Hc. unfold build_plan_gate_facts, facts_of in Hfacts.
  destruct (flat_map plan_blocks_of files), (flat_map feature_gates_of files), (app ≫= parse_subscription_anchor); congruence.
Qed.

Lemma catalog_built : flat_map plan_blocks_of files <> [] /\ c = build_plan_catalog (flat_map plan_blocks_of files).
Proof.
  rewrite facts_aggregate in Hc. cbn [catalog aggregate_plan_gate_facts] in Hc.
  destruct (flat_map plan_blocks_of files); [done|]. split; [done|]. congruence.
Qed.

Lemma built_plans_wf : Forall plan_wf (plans c).
Proof.
  destruct catalog_built as [_ E]. rewrite E. apply Forall_forall. intros p Hp. apply list_elem_of_In in Hp. eapply catalog_wf; [apply file_blocks_ok|done].
Qed.

Lemma imports_compiled : emit_plan_catalog_file facts = Some text -> imports_used text = has_trial (plans c).
Proof. apply imports_emitted; [apply built_plans_wf|exact Hc]. Qed.

Hypothesis Hfits : forallb trial_fits (plans c) = true.
Hypothesis Htext : emit_plan_catalog_file facts = Some text.

Lemma compiled_catalog : go_catalog text = Some (List.map go_plan (plans c)).
Proof.
  destruct catalog_built as [_ E]. apply (read_emitted facts); [by apply built_plans_wf|done| |done|done].
  - rewrite E. apply NoDup_ListNoDup, bs_sorted_NoDup, plans_sorted.
Qed.

Lemma compiled_plan p : In p (plans c) -> bt_get (name p) (List.map go_plan (plans c)) = Some (go_plan p).2.
Proof.
  intros Hp. destruct catalog_built as [_ E]. rewrite go_plan_get. rewrite E in *. by rewrite (proj2 (find_plan _ _ _) (conj Hp eq_refl)).
Qed.

Context (env : billing.Env) (active : billing.ActiveSubscription) (p : Plan).
Hypothesis Hres : billing.Resolve env = Ok active.
Hypothesis Hname : billing.PlanName active = name p.
Hypothesis Hp : In p (plans c).

Lemma lookup_compiled : billing.LookupPlan env (List.map go_plan (plans c)) = Ok (go_plan p).2.
Proof. unfold billing.LookupPlan. rewrite Hres. cbn [mbind result_bind]. by rewrite Hname, compiled_plan. Qed.

Lemma check_feature_compiled f : billing.CheckFeature env (List.map go_plan (plans c)) f =
  if bs_mem f (plan_features p) then Ok tt else Err (billing.ErrPlanFeatureForbidden (name p) f).
Proof.
  unfold billing.CheckFeature. rewrite lookup_compiled. cbn [mbind result_bind]. unfold billing.Has. cbn [go_plan snd billing.Features billing.Name].
  by destruct (bs_mem f (plan_features p)).
Qed.

Context {S : Type} `{billing.UsageStore S} (usage : option S).

Lemma check_quota_compiled l : plan_limit p l <> None -> billing.CheckQuota env (List.map go_plan (plans c)) usage l =
  match plan_limit p l with
  | Some (Integer n) =>
    used ← billing.readUsage env usage (billing.SubscriptionID active) l;
    if (n <=? used)%N then Err (billing.ErrPlanQuotaExceeded (name p) l used n) else Ok tt
  | _ => Ok tt
  end.
Proof.
  intros Hl. unfold billing.CheckQuota. rewrite lookup_compiled. cbn [mbind result_bind]. rewrite go_limit_get.
  destruct (plan_limit p l) as [[n|]|]; [|done|done]. cbn [fmap option_fmap option_map go_value billing.LimitInt billing.unlimited].
  rewrite Hres. cbn [mbind result_bind]. done.
Qed.
End Compiled.

(** * Properties *)

(** C26: The catalog file compiled from a project whose trials are written without
    a leading zero and fit in the 64 bits of a duration: with a trial in some plan
    Go reads it as the catalog, every plan under its name with its features,
    limits and trial; without any it does not compile, [time] being imported and
    not used. *)
Theorem compiled_catalog_exact files app facts c text :
  build_plan_gate_facts files app = Some facts -> catalog facts = Some c ->
  forallb trial_fits (plans c) = true -> emit_plan_catalog_file facts = Some text ->
  read_file text = if has_trial (plans c) then Some (List.map go_plan (plans c)) else None.
Proof.
  intros Hf Hc Hfit Ht. unfold read_file. rewrite (imports_compiled _ _ _ _ _ Hf Hc Ht).
  destruct (has_trial _); [|done]. by apply (compiled_catalog files app facts).
Qed.

(** C15: A gated command of a project without plan diagnostics, called by a subscriber
    of a plan of the catalog: the prelude lets the call through when the plan has
    every feature and every quota has room, and otherwise answers with the
    feature or the quota that fails; it never misses a plan or a limit. *)
Theorem gated_command_exact {S} `{billing.UsageStore S} files app facts c text cat key gs ty env (usage : option S) active p :
  plan_gate_diagnostics files app = [] ->
  build_plan_gate_facts files app = Some facts -> catalog facts = Some c ->
  forallb trial_fits (plans c) = true -> emit_plan_catalog_file facts = Some text -> go_catalog text = Some cat ->
  In (key, gs) (gates facts) ->
  billing.Resolve env = Ok active -> In p (plans c) -> billing.PlanName active = name p ->
  (forall l, is_ok (billing.readUsage env usage (billing.SubscriptionID active) l) = true) ->
  match run_prelude env cat usage (emit_command_gate_prelude ty (partition_gates gs).1 (partition_gates gs).2) with
  | Ok _ =>
    (forall f, In (GateBehind f) gs -> In f (plan_features p)) /\
    (forall l, In (GateQuota l) gs -> plan_limit p l = Some Unlimited \/
       exists max used, plan_limit p l = Some (Integer max) /\
         billing.readUsage env usage (billing.SubscriptionID active) l = Ok used /\ (used < max)%N)
  | Err e =>
    (exists f, In (GateBehind f) gs /\ ~ In f (plan_features p) /\ e = billing.ErrPlanFeatureForbidden (name p) f) \/
    (exists l max used, In (GateQuota l) gs /\ plan_limit p l = Some (Integer max) /\
       billing.readUsage env usage (billing.SubscriptionID active) l = Ok used /\ (max <= used)%N /\
       e = billing.ErrPlanQuotaExceeded (name p) l used max)
  end.
Proof.
  intros Hd Hf Hc Hfit Ht Hr Hg Hres Hp Hn Hread.
  rewrite (compiled_catalog _ _ _ _ _ Hf Hc Hfit Ht) in Hr. injection Hr as <-.
  assert (Hlim : forall l, In (GateQuota l) gs -> plan_limit p l <> None).
  { intros l Hl. unfold plan_gate_diagnostics in Hd. rewrite Hf in Hd. destruct (catalog_built _ _ _ _ Hf Hc) as [_ Ec].
    rewrite (facts_aggregate _ _ _ Hf) in Hd. apply diagnostics_silent in Hd as (_ & Hgs & _).
    rewrite (facts_aggregate _ _ _ Hf) in Hg. specialize (Hgs _ _ Hg _ Hl). cbn in Hgs. apply Hgs. rewrite Ec in Hp. exact Hp. }
  assert (Hok : forallb gate_ok gs = true).
  { rewrite (facts_aggregate _ _ _ Hf) in Hg. exact (file_gates_ok _ _ _ Hg). }
  rewrite partition_gates_eq. cbn [fst snd]. unfold run_prelude. rewrite calls_prelude by done.
  pose proof (check_all_spec (run_call env (List.map go_plan (plans c)) usage)
    (List.map CallFeature (behinds gs) ++ List.map CallQuota (quotas gs))) as Hspec.
  assert (HF : forall f, billing.CheckFeature env (List.map go_plan (plans c)) f =
    if bs_mem f (plan_features p) then Ok tt else Err (billing.ErrPlanFeatureForbidden (name p) f)).
  { intros f. by eapply check_feature_compiled. }
  assert (HQ : forall l, plan_limit p l <> None -> billing.CheckQuota env (List.map go_plan (plans c)) usage l =
    match plan_limit p l with
    | Some (Integer n) =>
      used ← billing.readUsage env usage (billing.SubscriptionID active) l;
      if (n <=? used)%N then Err (billing.ErrPlanQuotaExceeded (name p) l used n) else Ok tt
    | _ => Ok tt
    end).
  { intros l. by eapply check_quota_compiled. }
  destruct (billing.check_all _ _) as [[]|e].
  - split.
    + intros f Hin. specialize (Hspec (CallFeature f)). cbn [run_call] in Hspec. rewrite HF in Hspec.
      destruct (bs_mem f (plan_features p)) eqn:E; [by apply bs_mem_In|].
      specialize (Hspec (in_or_app _ _ _ (or_introl (in_map _ _ _ (proj2 (behinds_In gs f) Hin))))). done.
    + intros l Hin. specialize (Hspec (CallQuota l)). cbn [run_call] in Hspec. rewrite HQ in Hspec by auto.
      assert (Hcall : In (CallQuota l) (List.map CallFeature (behinds gs) ++ List.map CallQuota (quotas gs))).
      { apply in_or_app. right. apply in_map. by apply quotas_In. }
      specialize (Hspec Hcall). specialize (Hread l). specialize (Hlim l Hin).
      destruct (plan_limit p l) as [[max|]|]; [right|by left|done].
      destruct (billing.readUsage env usage (billing.SubscriptionID active) l) as [used|]; [|done]. cbn in Hspec.
      exists max, used. destruct (N.leb_spec max used); [done|]. done.
  - destruct Hspec as (x & Hin & E). apply in_app_iff in Hin as [(f & <- & Hfin%behinds_In)%in_map_iff|(l & <- & Hlin%quotas_In)%in_map_iff];
      cbn [run_call] in E.
    + left. exists f. rewrite HF in E. destruct (bs_mem f (plan_features p)) eqn:Em; [done|]. injection E as <-.
      split_and!; [done| |done]. by apply bs_mem_false.
    + right. rewrite HQ in E by auto. specialize (Hread l). destruct (plan_limit p l) as [[max|]|] eqn:Epl; [|done|done].
      destruct (billing.readUsage env usage (billing.SubscriptionID active) l) as [used|] eqn:Eu; [|done]. cbn in E.
      destruct (N.leb_spec max used); [|done]. injection E as <-. exists l, max, used. done.
Qed.

Definition sample_files : list (string * string) := [app_file; billing_file].
Definition sample_facts : PlanGateFacts :=
  default (aggregate_plan_gate_facts [] [] None) (build_plan_gate_facts sample_files (Some app_file.2)).
Definition sample_catalog : PlanCatalog := default {| plans := []; feature_catalog := []; limit_catalog := [] |} (catalog sample_facts).
Definition sample_text : string := default "" (emit_plan_catalog_file sample_facts).
Definition starter : Plan := default {| name := ""; plan_features := []; plan_limits := []; plan_trial := None; span_ref := None |}
  (List.find (fun p => name p =? "starter") (plans sample_catalog)).

Lemma compiled_catalog_exact_witness : has_trial (plans sample_catalog) = true /\
  read_file sample_text = if has_trial (plans sample_catalog) then Some (List.map go_plan (plans sample_catalog)) else None.
Proof. split; [vm_compute; reflexivity|]. apply (compiled_catalog_exact sample_files (Some app_file.2) sample_facts); vm_compute; reflexivity. Defined.

(** The starter plan has no [export]: the call of [pay] is refused. *)
Lemma gated_command_exact_witness :
  match run_prelude (subscriber "starter") (List.map go_plan (plans sample_catalog)) (Some ([] : log))
    (emit_command_gate_prelude "*Out" ["export"] ["seats"]) with
  | Ok _ =>
    (forall f, In (GateBehind f) [GateBehind "export"; GateQuota "seats"] -> In f (plan_features starter)) /\
    (forall l, In (GateQuota l) [GateBehind "export"; GateQuota "seats"] -> plan_limit starter l = Some Unlimited \/
       exists max used, plan_limit starter l = Some (Integer max) /\
         billing.readUsage (subscriber "starter") (Some ([] : log)) "u1" l = Ok used /\ (used < max)%N)
  | Err e =>
    (exists f, In (GateBehind f) [GateBehind "export"; GateQuota "seats"] /\ ~ In f (plan_features starter) /\
       e = billing.ErrPlanFeatureForbidden (name starter) f) \/
    (exists l max used, In (GateQuota l) [GateBehind "export"; GateQuota "seats"] /\ plan_limit starter l = Some (Integer max) /\
       billing.readUsage (subscriber "starter") (Some ([] : log)) "u1" l = Ok used /\ (max <= used)%N /\
       e = billing.ErrPlanQuotaExceeded (name starter) l used max)
  end.
Proof.
  apply (gated_command_exact sample_files (Some app_file.2) sample_facts sample_catalog sample_text _
    "billing/command:pay" [GateBehind "export"; GateQuota "seats"] "*Out" (subscriber "starter") (Some ([] : log))
    {| billing.SubscriptionID := "u1"; billing.PlanName := "starter" |} starter).
  - vm_compute. reflexivity.
  - vm_compute. reflexivity.
  - vm_compute. reflexivity.
  - vm_compute. reflexivity.
  - vm_compute. reflexivity.
  - vm_compute. reflexivity.
  - vm_compute. left. reflexivity.
  - reflexivity.
  - vm_compute. right. left. reflexivity.
  - vm_compute. reflexivity.
  - intros l. reflexivity.
Defined.

(** When a trial of a project without plan diagnostics ends, the plan it falls
    back to is in the compiled catalog and no feature check that passed fails. *)
Theorem trial_keeps_features files app facts c text cat p t f env env' active active' :
  plan_gate_diagnostics files app = [] ->
  build_plan_gate_facts files app = Some facts -> catalog facts = Some c ->
  forallb trial_fits (plans c) = true -> emit_plan_catalog_file facts = Some text -> go_catalog text = Some cat ->
  In p (plans c) -> plan_trial p = Some t ->
  billing.Resolve env = Ok active -> billing.PlanName active = name p ->
  billing.Resolve env' = Ok active' -> billing.PlanName active' = t_then_plan t ->
  billing.CheckFeature env cat f = Ok tt -> billing.CheckFeature env' cat f = Ok tt.
Proof.
  intros Hd Hf Hc Hfit Ht Hr Hp Htr Hres Hn Hres' Hn' Hok.
  rewrite (compiled_catalog _ _ _ _ _ Hf Hc Hfit Ht) in Hr. injection Hr as <-.
  destruct (catalog_built _ _ _ _ Hf Hc) as [_ Ec]. unfold plan_gate_diagnostics in Hd. rewrite Hf in Hd.
  rewrite (facts_aggregate _ _ _ Hf) in Hd. apply diagnostics_silent in Hd as (_ & _ & Hts & _). rewrite <- Ec in Hts.
  destruct (Hts p t Hp Htr) as (q & Hq & Hqn & Hsub).
  assert (Hin : In f (plan_features p)).
  { erewrite check_feature_compiled in Hok by done.
    destruct (bs_mem f (plan_features p)) eqn:E; [by apply bs_mem_In|done]. }
  assert (HF : billing.CheckFeature env' (List.map go_plan (plans c)) f =
    if bs_mem f (plan_features q) then Ok tt else Err (billing.ErrPlanFeatureForbidden (name q) f)).
  { eapply check_feature_compiled; try done. congruence. }
  rewrite HF. by rewrite (proj2 (bs_mem_In f (plan_features q)) (Hsub f Hin)).
Qed.

Lemma trial_keeps_features_witness :
  billing.CheckFeature (subscriber "pro") (List.map go_plan (plans sample_catalog)) "export" = Ok tt.
Proof.
  apply (trial_keeps_features sample_files (Some app_file.2) sample_facts sample_catalog sample_text _
    (default starter (List.find (fun p => name p =? "pro") (plans sample_catalog))) {| t_duration := "14d"; t_then_plan := "pro" |}
    "export" (subscriber "pro") (subscriber "pro")
    {| billing.SubscriptionID := "u1"; billing.PlanName := "pro" |} {| billing.SubscriptionID := "u1"; billing.PlanName := "pro" |});
    try (vm_compute; reflexivity).
  vm_compute. left. reflexivity.
Defined.

(** A trial length written without a leading zero is what Go computes exactly when
    it fits the 64 bits of a duration, about 292 years; a longer one does not
    compile. *)
Theorem trial_duration_bounds d z : is_valid_trial_duration d = true ->
  canonical (str_take (str_len d - 1) d) = true -> trial_ns d = Some z ->
  go_duration (duration_literal d) = (if (z <=? i64_max)%Z then Some z else None).
Proof.
  intros (h & u & -> & Hh & Hd & Hu)%valid_duration_iff Hc Hz.
  rewrite len_app in Hc. cbn [str_len String.length] in Hc. replace (str_len h + 1 - 1) with (str_len h) in Hc by lia. rewrite take_app in Hc.
  rewrite go_duration_literal, go_int_canonical by done. rewrite trial_ns_eq in Hz. destruct (digits_val 0 h) as [n|]; [|done].
  cbn in Hz. injection Hz as <-. cbn. unfold fit, in_i64.
  assert (Hpos : (0 <= Z.of_N n * unit_ns u)%Z).
  { apply Z.mul_nonneg_nonneg; [lia|]. unfold unit_ns, second. destruct (u =? "s")%char, (u =? "m")%char, (u =? "h")%char; lia. }
  replace (i64_min <=? Z.of_N n * unit_ns u)%Z with true; [done|]. symmetry. apply Z.leb_le. unfold i64_min. lia.
Qed.

Lemma trial_duration_bounds_witness :
  go_duration (duration_literal "106751d") = Some 9223286400000000000%Z /\ go_duration (duration_literal "106752d") = None.
Proof.
  split.
  - rewrite (trial_duration_bounds "106751d" 9223286400000000000); reflexivity.
  - rewrite (trial_duration_bounds "106752d" 9223372800000000000); reflexivity.
Defined.

(** After a leading zero Go reads the digits in base eight: the ten days of [010d]
    become eight, and [08d] does not compile.  The parser accepts all three. *)
Theorem trial_duration_octal :
  is_valid_trial_duration "010d" = true /\ is_valid_trial_duration "08d" = true /\ is_valid_trial_duration "106752d" = true /\
  go_duration (duration_literal "010d") = trial_ns "8d" /\ go_duration (duration_literal "08d") = None /\
  go_duration (duration_literal "106752d") = None.
Proof. split_and!; reflexivity. Qed.

(** Without a trial the file imports [time] and does not use it, which Go
    rejects. *)
Definition no_trial_file : string * string := ("app", unlines
  ["app Shop"; "  subscription resource billing.subscription"; "plan starter"; "  features search"]).
Definition no_trial_facts : PlanGateFacts :=
  default (aggregate_plan_gate_facts [] [] None) (build_plan_gate_facts [no_trial_file] (Some no_trial_file.2)).
Theorem time_import_unused : exists text c, emit_plan_catalog_file no_trial_facts = Some text /\ go_catalog text = Some c /\ read_file text = None.
Proof. eexists _, _. split; [vm_compute; reflexivity|]. split; vm_compute; reflexivity. Qed.

(** The gates the generator finds for a callable are those of its source. *)
Theorem source_gates_compiled files app facts file m kind cname ds :
  build_plan_gate_facts files app = Some facts -> List.NoDup (gate_keys files) -> In file files ->
  parse_feature_gates file.2 = Ok m -> bt_get (kind +:+ ":" +:+ cname) m = Some ds ->
  gates_for (Some (gates facts)) (feature_of file) kind cname = List.map lower_gate ds.
Proof.
  intros Hf Hn Hin Hp Hds. rewrite (facts_aggregate _ _ _ Hf). unfold gates_for. cbn [gates aggregate_plan_gate_facts].
  assert (E : bt_get (qualified (feature_of file) (kind +:+ ":" +:+ cname)) (aggregate_gates (flat_map feature_gates_of files)) =
    Some (List.map lower_gate ds)).
  { unfold aggregate_gates. rewrite bt_collect_get.
    set (l := flat_map (fun fg : string * FeatureGatesAst => List.map (fun kd => (qualified fg.1 kd.1, List.map lower_gate kd.2)) fg.2)
                (flat_map feature_gates_of files)).
    assert (Hl : In (qualified (feature_of file) (kind +:+ ":" +:+ cname), List.map lower_gate ds) l).
    { apply in_flat_map. exists (feature_of file, m). split.
      - apply in_flat_map. exists file. split; [done|]. unfold feature_gates_of. rewrite Hp. destruct m; [done|by left].
      - apply in_map_iff. exists (kind +:+ ":" +:+ cname, ds). split; [done|]. by apply bt_get_In. }
    assert (Hnl : List.NoDup (List.map fst l)).
    { unfold l. clear - Hn. unfold gate_keys in Hn. revert Hn. generalize (flat_map feature_gates_of files) as fgs. intros fgs.
      rewrite !flat_map_concat_map, concat_map, map_map. intros H. erewrite map_ext; [exact H|]. intros a. cbn. by rewrite map_map. }
    destruct (List.find _ _) as [kv|] eqn:Ef.
    - apply find_some in Ef as [Hkv Hk]. apply in_rev in Hkv. apply keqb_eq in Hk. cbn. f_equal.
      pose proof (NoDup_map_eq fst l _ _ Hnl Hkv Hl (eq_sym Hk)) as ->. done.
    - apply in_rev in Hl. apply (find_none _ _ Ef) in Hl. cbn [fst] in Hl. by rewrite keqb_refl in Hl. }
  change (feature_of file +:+ "/" +:+ kind +:+ ":" +:+ cname) with (qualified (feature_of file) (kind +:+ ":" +:+ cname)). by rewrite E.
Qed.

Lemma source_gates_compiled_witness :
  gates_for (Some (gates sample_facts)) "billing" "command" "pay" = [GateBehind "export"; GateQuota "seats"].
Proof.
  apply (source_gates_compiled sample_files (Some app_file.2) sample_facts billing_file
    [("command:pay", [Behind "export" (span_new 30 66); Quota "seats" (span_new 67 99)])] "command" "pay"
    [Behind "export" (span_new 30 66); Quota "seats" (span_new 67 99)]).
  - vm_compute. reflexivity.
  - repeat constructor; cbn; intuition discriminate.
  - right. left. reflexivity.
  - vm_compute. reflexivity.
  - reflexivity.
Defined.
