(* ===== verification/PlanQuota.v ===== *)
(** Calls of gated callables: the usage counters under every interleaving of the
    wrappers that [emitter/command/emit_p1.rs] writes, and the dispatchers of
    queries, jobs, webhooks and APIs ([runtime/go/lazuli/billing/gate.go])
    against the commands. *)
From stdpp Require Import relations.
From S2P Require Import Prelude Str BTree Fmt PlanSyntax PlanCatalog PlanRuntime PlanGate.
From S2P Require Import ReferentialGuard.

(** * Concurrent calls

    The wrapper of a gated command, one atomic store access at a time: the
    feature checks, the quota checks, the referential guards, the handler, and
    after a success the increments, whose errors are dropped. *)

(** A call: who makes it, the gates of its command, and what its guards and its
    handler answer. *)
Record call := { caller : billing.Env; gates : list Gate; guards_pass : bool; handler_succeeds : bool }.

(** The checks of the prelude, in the order the emitter writes them. *)
Definition prelude (c : call) : list Gate :=
  (List.map GateBehind (partition_gates (gates c)).1 ++ List.map GateQuota (partition_gates (gates c)).2)%list.

Inductive phase :=
| Idle
| Checking (c : call) (todo : list Gate)
| Handling (c : call)
| Recording (c : call) (todo : list string).

(** A worker serves the calls of its queue one after another: what is in flight
    at a time is one call per worker. *)
Record worker := { queue : list call; w_phase : phase }.
Definition waiting (q : list call) : worker := {| queue := q; w_phase := Idle |}.

Section Concurrent.
Context {S : Type} `{billing.UsageStore S} (catalog : billing.PlanCatalog).

Definition check_gate (c : call) (s : S) (g : Gate) : result billing.GateError unit :=
  match g with
  | GateBehind f => billing.CheckFeature (caller c) catalog f
  | GateQuota l => billing.CheckQuota (caller c) catalog (Some s) l
  end.

Inductive wstep : S * worker -> S * worker -> Prop :=
| call_start s q c : wstep (s, waiting (c :: q)) (s, {| queue := q; w_phase := Checking c (prelude c) |})
| check_pass s q c g todo : check_gate c s g = Ok tt ->
    wstep (s, {| queue := q; w_phase := Checking c (g :: todo) |}) (s, {| queue := q; w_phase := Checking c todo |})
| check_fail s q c g todo e : check_gate c s g = Err e ->
    wstep (s, {| queue := q; w_phase := Checking c (g :: todo) |}) (s, waiting q)
| guards_done s q c :
    wstep (s, {| queue := q; w_phase := Checking c [] |}) (s, {| queue := q; w_phase := if guards_pass c then Handling c else Idle |})
| handled s q c :
    wstep (s, {| queue := q; w_phase := Handling c |})
      (s, {| queue := q; w_phase := if handler_succeeds c then Recording c (partition_gates (gates c)).2 else Idle |})
| record s s' q c l todo : billing.IncrQuota (caller c) catalog (Some s) l = Ok (Some s') ->
    wstep (s, {| queue := q; w_phase := Recording c (l :: todo) |}) (s', {| queue := q; w_phase := Recording c todo |})
| record_lost s q c l todo e : billing.IncrQuota (caller c) catalog (Some s) l = Err e ->
    wstep (s, {| queue := q; w_phase := Recording c (l :: todo) |}) (s, {| queue := q; w_phase := Recording c todo |})
| call_end s q c : wstep (s, {| queue := q; w_phase := Recording c [] |}) (s, waiting q).

(** Any worker may take the next step. *)
Inductive step : S * list worker -> S * list worker -> Prop :=
| step_at s s' ws1 w w' ws2 : wstep (s, w) (s', w') -> step (s, ws1 ++ w :: ws2)%list (s', ws1 ++ w' :: ws2)%list.
End Concurrent.

(** ** The counter of one limit *)

Definition count (l : string) (ls : list string) : nat := List.length (List.filter (String.eqb l) ls).
Definition quota_gates (c : call) : list string := (partition_gates (gates c)).2.

Lemma count_cons l x ls : count l (x :: ls) = (if l =? x then 1 else 0) + count l ls.
Proof. unfold count. cbn. by destruct (l =? x). Qed.

Section Counter.
Context {S : Type} `{!billing.UsageStore S, !billing.UsageLaws S} (catalog : billing.PlanCatalog).
(** The subscription, the limit, the month, and what every plan the
    subscription is found on allows of it. *)
Context (sid limit : string) (month : nat) (max : N).

Definition usage (s : S) : result billing.GateError N := billing.u_read s ((sid, limit), month).
(** The call counts on the counter. *)
Definition pays (c : call) : bool :=
  match billing.Resolve (caller c) with
  | Ok active => (billing.SubscriptionID active =? sid) && (billing.period (caller c) =? month)%nat
  | Err _ => false
  end.
Definition limited (c : call) : Prop := forall active, billing.Resolve (caller c) = Ok active -> billing.SubscriptionID active = sid ->
  exists plan, bt_get (billing.PlanName active) catalog = Some plan /\ bt_get limit (billing.Limits plan) = Some (billing.LimitInt max).

Lemma pays_resolves c : limited c -> pays c = true -> exists active plan, billing.Resolve (caller c) = Ok active /\ billing.SubscriptionID active = sid /\
  billing.period (caller c) = month /\ billing.LookupPlan (caller c) catalog = Ok plan /\ bt_get limit (billing.Limits plan) = Some (billing.LimitInt max).
Proof.
  unfold pays. intros Hl. destruct (billing.Resolve (caller c)) as [active|] eqn:E; [|done]. intros [Hs%String.eqb_eq Hp%Nat.eqb_eq]%andb_true_iff.
  destruct (Hl active E Hs) as (plan & Hb & Hm). exists active, plan. split_and!; try done. unfold billing.LookupPlan. rewrite E. cbn [mbind result_bind]. by rewrite Hb.
Qed.

(** The check passes exactly while there is room. *)
Lemma check_room c s n : limited c -> pays c = true -> usage s = Ok n ->
  (billing.CheckQuota (caller c) catalog (Some s) limit = Ok tt /\ (n < max)%N) \/
  ((exists e, billing.CheckQuota (caller c) catalog (Some s) limit = Err e) /\ (max <= n)%N).
Proof.
  intros Hl Hp Hn. destruct (pays_resolves c Hl Hp) as (active & plan & Hr & Hs & Hm & Hlp & Hb). unfold billing.CheckQuota. rewrite Hlp.
  cbn [mbind result_bind]. rewrite Hb. cbn [billing.LimitInt billing.unlimited billing.value]. rewrite Hr. cbn [mbind result_bind billing.readUsage].
  rewrite Hs, Hm. fold (usage s). rewrite Hn. cbn [mbind result_bind]. destruct (N.leb_spec max n); [right|left]; eauto.
Qed.
Lemma check_reads c s : limited c -> pays c = true -> billing.CheckQuota (caller c) catalog (Some s) limit = Ok tt -> exists n, usage s = Ok n /\ (n < max)%N.
Proof.
  intros Hl Hp Hc. destruct (usage s) as [n|e] eqn:Hn; [destruct (check_room c s n Hl Hp Hn) as [[_ ?]|[[e E] _]]; [by exists n|congruence]|].
  destruct (pays_resolves c Hl Hp) as (active & plan & Hr & Hs & Hm & Hlp & Hb). unfold billing.CheckQuota in Hc. rewrite Hlp in Hc. cbn [mbind result_bind] in Hc.
  rewrite Hb in Hc. cbn [billing.LimitInt billing.unlimited] in Hc. rewrite Hr in Hc. cbn [mbind result_bind billing.readUsage] in Hc.
  rewrite Hs, Hm in Hc. fold (usage s) in Hc. by rewrite Hn in Hc.
Qed.

(** What an increment adds to the counter. *)
Definition adds (c : call) (l : string) : nat := if pays c && (limit =? l) then 1 else 0.
Lemma record_usage c s s' l n' : limited c -> billing.IncrQuota (caller c) catalog (Some s) l = Ok (Some s') -> usage s' = Ok n' ->
  exists n, usage s = Ok n /\ n' = (n + N.of_nat (adds c l))%N.
Proof.
  intros Hl Hi Hn'. unfold billing.IncrQuota in Hi. apply bind_Ok in Hi as (plan & Hlp & Hi).
  assert (Hsame : s' = s -> adds c l = 0 -> exists n, usage s = Ok n /\ n' = (n + N.of_nat (adds c l))%N) by (intros -> ->; exists n'; split; [done|lia]).
  assert (Hother : forall x active, billing.Resolve (caller c) = Ok active -> billing.incrUsage (caller c) (Some s) (billing.SubscriptionID active) l = Ok x -> x = Some s' ->
    exists n, usage s = Ok n /\ n' = (n + N.of_nat (adds c l))%N).
  { intros x active Hr Hx ->. cbn [billing.incrUsage] in Hx. apply bind_Ok in Hx as (y & Hx & [= ->]). unfold adds, pays. rewrite Hr.
    destruct (decide (((billing.SubscriptionID active, l), billing.period (caller c)) = ((sid, limit), month))) as [E|Hne].
    - injection E as Es El Em. subst l. rewrite Es, Em, !String.eqb_refl, Nat.eqb_refl. rewrite Es, Em in Hx. unfold usage in *. rewrite (billing.incr_same _ _ _ Hx) in Hn'.
      apply bind_Ok in Hn' as (n & Hn & [= <-]). exists n. split; [done|]. cbn. lia.
    - exists n'. unfold usage in *. split; [rewrite <-Hn'; symmetry; by apply (billing.incr_other _ _ _ _ Hne Hx)|].
      destruct (String.eqb_spec (billing.SubscriptionID active) sid), (Nat.eqb_spec (billing.period (caller c)) month), (String.eqb_spec limit l); cbn; try lia. exfalso. apply Hne. congruence. }
  destruct (bt_get l (billing.Limits plan)) as [v|] eqn:Eb.
  - destruct (billing.unlimited v) eqn:Eu.
    + injection Hi as ->. apply Hsame; [done|]. unfold adds. destruct (pays c) eqn:Ep; [|done]. destruct (String.eqb_spec limit l) as [<-|]; [|done].
      destruct (pays_resolves c Hl Ep) as (a & p & _ & _ & _ & Hlp' & Hb). rewrite Hlp in Hlp'. injection Hlp' as <-. rewrite Eb in Hb. injection Hb as ->. done.
    + apply bind_Ok in Hi as (active & Hr & Hi). by apply (Hother (Some s') active).
  - injection Hi as ->. apply Hsame; [done|]. unfold adds. destruct (pays c) eqn:Ep; [|done]. destruct (String.eqb_spec limit l) as [<-|]; [|done].
    destruct (pays_resolves c Hl Ep) as (a & p & _ & _ & _ & Hlp' & Hb). rewrite Hlp in Hlp'. injection Hlp' as <-. by rewrite Eb in Hb.
Qed.

(** ** The bound *)

(** The increments a worker may still make of the counter without another check. *)
Definition checks_limit (g : Gate) : bool := match g with GateQuota l => limit =? l | GateBehind _ => false end.
Definition owed (c : call) (ls : list string) : nat := if pays c then count limit ls else 0.
Definition pending (w : worker) : nat :=
  match w_phase w with
  | Idle => 0
  | Checking c todo => if existsb checks_limit todo then 0 else owed c (quota_gates c)
  | Handling c => owed c (quota_gates c)
  | Recording c todo => owed c todo
  end.
Definition all_pending (ws : list worker) : nat := list_sum (List.map pending ws).

(** A call that puts the limit on at most [m] of its gates. *)
Definition gated (m : nat) (c : call) : Prop := limited c /\ count limit (quota_gates c) <= m.
Definition fits (m : nat) (w : worker) : Prop :=
  Forall (gated m) (queue w) /\
  match w_phase w with
  | Idle => True
  | Checking c _ | Handling c => gated m c
  | Recording c todo => gated m c /\ count limit todo <= m
  end.

Lemma fits_step m s w s' w' : wstep catalog (s, w) (s', w') -> fits m w -> fits m w'.
Proof.
  intros Hs [Hq Hp]. inversion Hs; subst; unfold fits in *; cbn [queue w_phase waiting] in *; try done.
  - by apply Forall_cons in Hq as [Hc Hq].
  - destruct (guards_pass c); done.
  - destruct (handler_succeeds c); [|done]. split; [done|]. split; [done|]. exact (proj2 Hp).
  - destruct Hp as [Hc Hl]. rewrite count_cons in Hl. split; [done|]. split; [done|lia].
  - destruct Hp as [Hc Hl]. rewrite count_cons in Hl. split; [done|]. split; [done|lia].
Qed.
Lemma pending_le m w : fits m w -> pending w <= m.
Proof.
  intros [_ Hp]. unfold pending, owed. destruct (w_phase w) as [|c todo|c|c todo]; [lia|destruct (existsb _ _); [lia|]|..]; destruct (pays c); try lia; unfold gated in Hp; lia.
Qed.
Lemma all_pending_app a b : all_pending (a ++ b) = all_pending a + all_pending b.
Proof. unfold all_pending. by rewrite map_app, list_sum_app. Qed.
Lemma all_pending_le m ws : Forall (fits m) ws -> all_pending ws <= List.length ws * m.
Proof.
  induction 1 as [|w ws Hw _ IH]; [done|]. pose proof (pending_le m w Hw). change (pending w + all_pending ws <= m + List.length ws * m). lia.
Qed.
Lemma prelude_checks c : existsb checks_limit (prelude c) = false -> count limit (quota_gates c) = 0.
Proof.
  unfold prelude, quota_gates. rewrite existsb_app, orb_false_iff. intros [_ Hno]. induction (partition_gates (gates c)).2 as [|l ls IH]; [done|].
  cbn [List.map existsb checks_limit] in Hno. apply orb_false_iff in Hno as [Hl Hno]. rewrite count_cons, Hl. by apply IH.
Qed.

(** A step other than the last check of the limit adds nothing to what is counted
    and owed. *)
Lemma wstep_sum m s w s' w' n' : wstep catalog (s, w) (s', w') -> fits m w -> usage s' = Ok n' ->
  (exists n, usage s = Ok n /\ (n' + N.of_nat (pending w') <= n + N.of_nat (pending w))%N) \/ (s' = s /\ (n' < max)%N).
Proof.
  intros Hs [_ Hp] Hn'. assert (Hkeep : s' = s -> pending w' <= pending w -> exists n, usage s = Ok n /\ (n' + N.of_nat (pending w') <= n + N.of_nat (pending w))%N).
  { intros -> Hle. exists n'. split; [done|lia]. }
  inversion Hs as [? q c|? q c g todo Hc|? q c g todo e Hc|? q c|? q c|? ? q c l todo Hi|? q c l todo e Hi|? q c]; subst; unfold fits, pending, owed in *; cbn [queue w_phase waiting] in *.
  - left. apply Hkeep; [done|]. destruct (existsb checks_limit (prelude c)) eqn:E; [lia|]. apply prelude_checks in E. destruct (pays c); lia.
  - destruct (checks_limit g) eqn:Eg; [|left; apply Hkeep; [done|by cbn [existsb]; rewrite Eg]]. destruct g as [f|l]; [done|]. cbn [checks_limit] in Eg. apply String.eqb_eq in Eg as <-.
    destruct (pays c) eqn:Ep; [|left; apply Hkeep; [done|]; cbn [existsb]; by do 2 (destruct (existsb _ _)); destruct (checks_limit _)]. right. split; [done|].
    destruct Hp as [Hl _]. destruct (check_reads c s' Hl Ep Hc) as (n & Hn & Hlt). congruence.
  - left. apply Hkeep; [done|lia].
  - left. apply Hkeep; [done|]. cbn. by destruct (guards_pass c); [|lia].
  - left. apply Hkeep; [done|]. by destruct (handler_succeeds c); [|lia].
  - left. destruct Hp as [[Hl _] _]. destruct (record_usage c s s' l n' Hl Hi Hn') as (n & Hn & ->). exists n. split; [done|]. unfold adds. rewrite count_cons.
    destruct (pays c), (limit =? l); cbn; lia.
  - left. apply Hkeep; [done|]. rewrite count_cons. destruct (pays c); lia.
  - left. apply Hkeep; [done|]. lia.
Qed.

(** The counter and the increments still to come stay within the bound. *)
Definition within (bound : N) (st : S * list worker) : Prop := forall n, usage st.1 = Ok n -> (n + N.of_nat (all_pending st.2) <= bound)%N.

Lemma step_within m k st st' : 1 <= k * m -> step catalog st st' -> List.length st.2 = k -> Forall (fits m) st.2 -> within (max + N.of_nat (k * m) - 1) st ->
  List.length st'.2 = k /\ Forall (fits m) st'.2 /\ within (max + N.of_nat (k * m) - 1) st'.
Proof.
  intros Hm Hs Hk Hf Hw. destruct Hs as [s s' ws1 w w' ws2 Hs]. cbn [fst snd] in *. apply Forall_app in Hf as [Hf1 Hf2]. inversion_clear Hf2 as [|? ? Hw0 Hf2'].
  assert (Hf' : Forall (fits m) (ws1 ++ w' :: ws2)) by (apply Forall_app; split; [done|constructor; [by eapply fits_step|done]]).
  assert (Hk' : List.length (ws1 ++ w' :: ws2) = k) by (by rewrite length_app in *). split; [done|]. split; [done|]. intros n' Hn'. cbn [fst snd] in *.
  destruct (wstep_sum m _ _ _ _ n' Hs Hw0 Hn') as [(n & Hn & Hle)|[-> Hlt]].
  - specialize (Hw n Hn). cbn [snd] in Hw. rewrite all_pending_app in *. unfold all_pending in *. cbn [List.map list_sum] in *. simpl in *. lia.
  - pose proof (all_pending_le m _ Hf'). rewrite Hk' in *. lia.
Qed.
Lemma waiting_pending clients : all_pending (List.map waiting clients) = 0.
Proof. by induction clients as [|q qs IH]. Qed.
End Counter.

(** C16: However the calls of the callers interleave, and whatever guards refuse,
    handlers fail and increments are lost: the counter of a limit does not pass
    the limit by more than the increments in flight, however many calls are made.
    With [k] calls at a time, each with at most [m] gates on the limit, it stays
    below [max + k * m]; one call at a time with one gate never passes it. *)
Theorem quota_bound {S} `{!billing.UsageStore S, !billing.UsageLaws S} catalog sid limit month max m clients s0 n0 s ws n :
  1 <= m -> clients <> [] -> Forall (Forall (gated catalog sid limit max m)) clients ->
  usage sid limit month s0 = Ok n0 -> (n0 <= max)%N ->
  rtc (step catalog) (s0, List.map waiting clients) (s, ws) -> usage sid limit month s = Ok n ->
  (n < max + N.of_nat (List.length clients * m))%N.
Proof.
  intros Hm Hne Hcalls Hn0 Hle Hrtc Hn. set (k := List.length clients).
  assert (Hk : 1 <= k * m) by (unfold k; destruct clients; [done|cbn; nia]).
  assert (G : forall st st', rtc (step catalog) st st' -> List.length st.2 = k -> Forall (fits catalog sid limit max m) st.2 ->
    within sid limit month (max + N.of_nat (k * m) - 1) st -> within sid limit month (max + N.of_nat (k * m) - 1) st').
  { induction 1 as [|x y z Hxy _ IH]; intros Hl Hf Hw; [done|]. destruct (step_within catalog sid limit month max m k x y Hk Hxy Hl Hf Hw) as (? & ? & ?). by apply IH. }
  assert (Hend : within sid limit month (max + N.of_nat (k * m) - 1) (s, ws)).
  { apply (G _ _ Hrtc); cbn [snd].
    - by rewrite length_map.
    - apply Forall_forall. intros w (q & <- & Hq)%list_elem_of_In%in_map_iff. split; [|done]. rewrite Forall_forall in Hcalls. by apply Hcalls, list_elem_of_In.
    - intros x Hx. cbn [fst snd] in *. rewrite waiting_pending. rewrite Hn0 in Hx. injection Hx as <-. lia. }
  specialize (Hend n Hn). cbn [snd] in Hend. lia.
Qed.

(** One plan with one seat, and commands that count on it. *)
Definition solo_plan : billing.Plan := {| billing.Name := "solo"; billing.Features := ["export"]; billing.Limits := [("seats", billing.LimitInt 1)]; billing.Trial := None |}.
Definition solo_catalog : billing.PlanCatalog := [("solo", solo_plan)].
Definition seat_used : log := [(("u1", "seats"), 0)].
Definition seat_call : call := {| caller := subscriber "solo"; gates := [GateQuota "seats"; GateBehind "export"]; guards_pass := true; handler_succeeds := true |}.
Lemma seat_call_gated : gated solo_catalog "u1" "seats" 1 1 seat_call.
Proof. split; [|apply le_n]. intros active [= <-] _. by exists solo_plan. Qed.

(** The next step of the first worker, or of the second of two. *)
Ltac next w := eapply rtc_l; [match w with 0 => first [eapply (step_at _ _ _ [] _ _ [])|eapply (step_at _ _ _ [] _ _ [_])] | _ => eapply (step_at _ _ _ [_] _ _ []) end;
  first [apply call_start|apply check_pass; reflexivity|apply guards_done|apply handled|apply record; reflexivity|apply call_end]|cbn [guards_pass handler_succeeds seat_call]].

Lemma quota_bound_witness : (1 < 1 + N.of_nat (1 * 1))%N.
Proof.
  apply (quota_bound (S := log) solo_catalog "u1" "seats" 0 1 1 [[seat_call]] [] 0 seat_used [waiting []]).
  - apply le_n.
  - discriminate.
  - repeat constructor. intros active [= <-] _. by exists solo_plan.
  - reflexivity.
  - discriminate.
  - do 7 next 0. apply rtc_refl.
  - reflexivity.
Defined.

(** The bound is met: two calls that both check before either counts use a limit
    of one twice. *)
Theorem quota_overrun : exists s,
  rtc (step (S := log) solo_catalog) ([], List.map waiting [[seat_call]; [seat_call]]) (s, [waiting []; waiting []]) /\
  usage "u1" "seats" 0 s = Ok 2%N.
Proof.
  eexists. split; [|shelve]. do 3 next 0. do 3 next 1. do 4 next 0. do 4 next 1. apply rtc_refl. Unshelve. reflexivity.
Qed.

(** * The calls end *)

(** The steps a worker has left. *)
Definition cost (c : call) : nat := 4 + List.length (prelude c) + List.length (quota_gates c).
Definition steps_left (w : worker) : nat :=
  list_sum (List.map cost (queue w)) +
  match w_phase w with
  | Idle => 0
  | Checking c todo => 3 + List.length todo + List.length (quota_gates c)
  | Handling c => 2 + List.length (quota_gates c)
  | Recording c todo => 1 + List.length todo
  end.

Lemma wstep_left {S} `{billing.UsageStore S} catalog (s s' : S) w w' : wstep catalog (s, w) (s', w') -> steps_left w' < steps_left w.
Proof.
  intros Hs. inversion Hs; subst; unfold steps_left, cost, quota_gates in *; cbn -[prelude partition_gates]; try lia.
  - destruct (guards_pass c); lia.
  - destruct (handler_succeeds c); lia.
Qed.
Lemma step_left {S} `{billing.UsageStore S} catalog (st st' : S * list worker) :
  step catalog st st' -> list_sum (List.map steps_left st'.2) < list_sum (List.map steps_left st.2).
Proof.
  intros [s s' ws1 w w' ws2 Hs%wstep_left]. cbn [snd]. rewrite !map_app, !list_sum_app. cbn [List.map]. simpl. lia.
Qed.

Lemma incr_some {S} `{billing.UsageStore S} env catalog (s : S) l u : billing.IncrQuota env catalog (Some s) l = Ok u -> exists s', u = Some s'.
Proof.
  unfold billing.IncrQuota. intros (plan & _ & E)%bind_Ok. destruct (bt_get l (billing.Limits plan)) as [v|]; [|injection E as <-; eauto].
  destruct (billing.unlimited v); [injection E as <-; eauto|]. apply bind_Ok in E as (active & _ & E).
  apply bind_Ok in E as (s' & _ & [= <-]). eauto.
Qed.

(** A worker with work left can go on, whatever the counters are. *)
Definition idle (w : worker) : bool := match queue w, w_phase w with [], Idle => true | _, _ => false end.
Lemma idle_waiting w : idle w = true -> w = waiting [].
Proof. by destruct w as [[|? ?] []]. Qed.
Lemma wstep_progress {S} `{billing.UsageStore S} catalog (s : S) w : idle w = false -> exists sw, wstep catalog (s, w) sw.
Proof.
  destruct w as [q [|c [|g todo]|c|c [|l todo]]]; intros Hw.
  - destruct q as [|c q]; [done|]. eexists. apply call_start.
  - eexists. apply guards_done.
  - destruct (check_gate catalog c s g) as [[]|e] eqn:E; eexists; [by apply check_pass|by eapply check_fail].
  - eexists. apply handled.
  - eexists. apply call_end.
  - destruct (billing.IncrQuota (caller c) catalog (Some s) l) as [u|e] eqn:E; [|eexists; by eapply record_lost].
    destruct (incr_some _ _ _ _ _ E) as [s' ->]. eexists. by apply record.
Qed.

Section Served.
Context {S : Type} `{!billing.UsageStore S, !billing.UsageLaws S} (catalog : billing.PlanCatalog) (sid limit : string) (month : nat) (max : N).
(** A store that answers. *)
Definition answers : Prop := forall (s : S) b, (exists n, billing.u_read s b = Ok n) /\ exists s', billing.u_incr s b = Ok s'.
(** A call that counts once on the limit, its caller's plan with every feature it
    needs, its guards and its handler in its favour. *)
Definition servable (c : call) : Prop :=
  limited catalog sid limit max c /\ pays sid month c = true /\ quota_gates c = [limit] /\
  (forall f, In (GateBehind f) (gates c) -> exists active plan, billing.Resolve (caller c) = Ok active /\
     bt_get (billing.PlanName active) catalog = Some plan /\ billing.Has (billing.Features plan) f = true) /\
  guards_pass c = true /\ handler_succeeds c = true.
Context (Hstore : answers).

(** The calls a worker has still to count. *)
Definition to_serve (w : worker) : nat :=
  List.length (queue w) + match w_phase w with Idle => 0 | Recording _ todo => List.length todo | _ => 1 end.
Definition serves (w : worker) : Prop :=
  Forall servable (queue w) /\
  match w_phase w with
  | Idle => True
  | Checking c todo => servable c /\ exists done_, prelude c = (done_ ++ todo)%list
  | Handling c => servable c
  | Recording c todo => servable c /\ (todo = [limit] \/ todo = [])
  end.
(** Every call still to come or counted, or the limit reached. *)
Definition on_course (total : N) (st : S * list worker) : Prop :=
  exists u, usage sid limit month st.1 = Ok u /\ ((max <= u)%N \/ (total <= u + N.of_nat (list_sum (List.map to_serve st.2)))%N).

Lemma feature_passes c s f : servable c -> In (GateBehind f) (gates c) -> check_gate catalog c s (GateBehind f) = Ok tt.
Proof.
  intros (_ & _ & _ & Hf & _) Hin. destruct (Hf f Hin) as (active & plan & Hr & Hb & Hh). cbn. unfold billing.CheckFeature, billing.LookupPlan.
  rewrite Hr. cbn [mbind result_bind]. rewrite Hb. cbn [mbind result_bind]. by rewrite Hh.
Qed.
Lemma prelude_gate c g : servable c -> In g (prelude c) -> g = GateQuota limit \/ exists f, g = GateBehind f /\ In (GateBehind f) (gates c).
Proof.
  intros (_ & _ & Hq & _) Hin. unfold prelude in Hin. change (partition_gates (gates c)).2 with (quota_gates c) in Hin. rewrite Hq, partition_gates_eq in Hin.
  apply in_app_iff in Hin as [(f & <- & Hf%behinds_In)%in_map_iff|[<-|[]]]; [right; by exists f|by left].
Qed.
Lemma counts_one c s : servable c -> exists s', billing.IncrQuota (caller c) catalog (Some s) limit = Ok (Some s') /\
  usage sid limit month s' = n ← usage sid limit month s; Ok (n + 1)%N.
Proof.
  intros (Hl & Hp & _). destruct (pays_resolves catalog sid limit month max c Hl Hp) as (active & plan & Hr & Hs & Hm & Hlp & Hb).
  destruct (Hstore s ((sid, limit), month)) as [_ [s' Hi]]. exists s'. unfold billing.IncrQuota. rewrite Hlp. cbn [mbind result_bind]. rewrite Hb.
  cbn [billing.LimitInt billing.unlimited]. rewrite Hr. cbn [mbind result_bind billing.incrUsage]. rewrite Hs, Hm, Hi. split; [done|].
  by apply billing.incr_same.
Qed.

Lemma serves_step total s w s' w' ws1 ws2 : wstep catalog (s, w) (s', w') -> serves w -> on_course total (s, ws1 ++ w :: ws2)%list ->
  serves w' /\ on_course total (s', ws1 ++ w' :: ws2)%list.
Proof using All.
  intros Hs [Hq Hp] (u & Hu & Hc). cbn [fst snd] in Hu, Hc. rewrite map_app, list_sum_app in Hc. cbn [List.map] in Hc. simpl list_sum in Hc.
  assert (Hkeep : s' = s -> to_serve w <= to_serve w' -> on_course total (s', ws1 ++ w' :: ws2)%list).
  { intros -> Hle. exists u. split; [done|]. cbn [snd]. rewrite map_app, list_sum_app. cbn [List.map]. simpl list_sum. lia. }
  inversion Hs as [? q c|? q c g todo Hg|? q c g todo e Hg|? q c|? q c|? ? q c l todo Hi|? q c l todo e Hi|? q c]; subst; unfold serves in *; cbn [queue w_phase waiting] in *.
  - apply Forall_cons in Hq as [Hc0 Hq]. split; [split; [done|]; split; [done|by exists []]|]. apply Hkeep; [done|unfold to_serve; cbn; lia].
  - destruct Hp as [Hc0 (d & E)]. split; [split; [done|]; split; [done|]; exists (d ++ [g])%list; by rewrite <-app_assoc|]. apply Hkeep; [done|unfold to_serve; cbn; lia].
  - destruct Hp as [Hc0 (d & E)]. split; [by split|]. exists u. split; [done|]. left.
    destruct (prelude_gate c g Hc0) as [->|(f & -> & Hf)]; [rewrite E; apply in_or_app; right; by left| |by rewrite (feature_passes c s' f) in Hg].
    destruct (check_room catalog sid limit month max c s' u) as [[Hok _]|[_ Hle]]; [apply Hc0|apply Hc0|done| |done]. cbn in Hg. congruence.
  - destruct Hp as [Hc0 _]. assert (Eg : guards_pass c = true) by apply Hc0. rewrite Eg in Hkeep |- *. split; [done|]. apply Hkeep; [done|unfold to_serve; cbn; lia].
  - assert (Eg : handler_succeeds c = true) by apply Hp. assert (E : (partition_gates (gates c)).2 = [limit]) by apply Hp. rewrite Eg, E in Hkeep |- *. split; [split; [done|]; split; [done|by left]|].
    apply Hkeep; [done|unfold to_serve; cbn; lia].
  - destruct Hp as [Hc0 [[= -> ->]|[=]]]. split; [split; [done|]; split; [done|by right]|]. destruct (counts_one c s Hc0) as (x & Hx & Hux). rewrite Hx in Hi. injection Hi as ->.
    rewrite Hu in Hux. exists (u + 1)%N. split; [done|]. cbn [snd]. rewrite map_app, list_sum_app. cbn [List.map]. simpl list_sum. change (to_serve {| queue := q; w_phase := Recording c [] |}) with (List.length q + 0). change (to_serve {| queue := q; w_phase := Recording c [limit] |}) with (List.length q + 1) in Hc. lia.
  - exfalso. destruct Hp as [Hc0 [[= -> ->]|[=]]]. destruct (counts_one c s' Hc0) as (x & Hx & _). congruence.
  - split; [by split|]. apply Hkeep; [done|unfold to_serve; cbn; lia].
Qed.
Lemma serves_run total k st st' : nsteps (step catalog) k st st' -> Forall serves st.2 -> on_course total st ->
  Forall serves st'.2 /\ on_course total st' /\ k + list_sum (List.map steps_left st'.2) <= list_sum (List.map steps_left st.2).
Proof using All.
  induction 1 as [st|k st st1 st' H1 _ IH]; intros Hf Hc; [done|]. pose proof (step_left catalog _ _ H1) as Hl. destruct H1 as [s s' ws1 w w' ws2 Hw]. cbn [snd] in *.
  apply Forall_app in Hf as [Hf1 [Hf0 Hf2]%Forall_cons]. destruct (serves_step total s w s' w' ws1 ws2 Hw Hf0 Hc) as [Hw' Hc'].
  destruct IH as (? & ? & ?); [by apply Forall_app; split; [|constructor]|done|]. split_and!; [done..|lia].
Qed.
End Served.

(** C38: However the calls interleave, every run of them ends, and no room is
    wasted: calls that need one unit each of a limit, by callers whose plans have
    the features, have used, when none of them can go on, a unit each or the
    whole limit. *)
Theorem limit_used_up {S} `{!billing.UsageStore S, !billing.UsageLaws S} catalog sid limit month max clients (s0 : S) n0 steps st :
  answers (S := S) -> Forall (Forall (servable catalog sid limit month max)) clients -> usage sid limit month s0 = Ok n0 ->
  nsteps (step catalog) steps (s0, List.map waiting clients) st ->
  steps <= list_sum (List.map cost (List.concat clients)) /\
  ((forall st', ~ step catalog st st') ->
   exists n, usage sid limit month st.1 = Ok n /\ (N.min max (n0 + N.of_nat (List.length (List.concat clients))) <= n)%N).
Proof.
  intros Hstore Hcalls Hn0 Hrun. set (total := (n0 + N.of_nat (List.length (List.concat clients)))%N).
  assert (Hlen : list_sum (List.map to_serve (List.map waiting clients)) = List.length (List.concat clients)).
  { clear. induction clients as [|q qs IH]; [done|]. cbn [List.map List.concat]. simpl list_sum. rewrite length_app, IH. unfold to_serve. cbn. lia. }
  assert (Hcost : list_sum (List.map steps_left (List.map waiting clients)) = list_sum (List.map cost (List.concat clients))).
  { clear. induction clients as [|q qs IH]; [done|]. cbn [List.map List.concat]. simpl list_sum. rewrite map_app, list_sum_app, IH. change (steps_left (waiting q)) with (list_sum (List.map cost q) + 0). lia. }
  destruct (serves_run catalog sid limit month max Hstore total _ _ _ Hrun) as (Hf & (u & Hu & Hc) & Hk).
  - apply Forall_forall. intros w (q & <- & Hq)%list_elem_of_In%in_map_iff. split; [|done]. rewrite Forall_forall in Hcalls. by apply Hcalls, list_elem_of_In.
  - exists n0. split; [done|]. right. cbn [snd]. rewrite Hlen. unfold total. lia.
  - cbn [snd] in Hk. split; [rewrite Hcost in Hk; lia|]. intros Hstuck. exists u. split; [done|].
    assert (E : list_sum (List.map to_serve st.2) = 0).
    { destruct st as [s ws]. cbn [snd] in *. clear - Hstuck. assert (Hall : Forall (fun w => w = waiting []) ws).
      { apply Forall_forall. intros w (ws1 & ws2 & ->)%list_elem_of_split. destruct (idle w) eqn:Hne; [by apply idle_waiting|].
        destruct (wstep_progress catalog s w Hne) as [[s' w'] Hs]. destruct (Hstuck _ (step_at catalog s s' ws1 w w' ws2 Hs)). }
      induction Hall as [|w ws -> _ IH]; [done|]. simpl. apply IH. intros st' Hs. inversion Hs as [? s' ws1 w w' ws2 Hw]; subst.
      exact (Hstuck _ (step_at catalog s s' (waiting [] :: ws1) w w' ws2 Hw)). }
    rewrite E in Hc. unfold total in *. lia.
Qed.

Lemma log_answers : answers (S := log).
Proof. intros s b. split; eexists; reflexivity. Qed.
Lemma limit_used_up_witness : 7 <= 7 /\
  ((forall st', ~ step solo_catalog (seat_used, [waiting []]) st') -> exists n, usage "u1" "seats" 0 seat_used = Ok n /\ (N.min 1 1 <= n)%N).
Proof.
  apply (limit_used_up (S := log) solo_catalog "u1" "seats" 0 1 [[seat_call]] [] 0 7).
  - exact log_answers.
  - repeat constructor.
    + intros active [= <-] _. by exists solo_plan.
    + intros f [[= ]|[[= <-]|[]]]. eexists _, solo_plan. by repeat split.
  - reflexivity.
  - do 7 (eapply nsteps_l; [eapply (step_at _ _ _ [] _ _ []);
      first [apply call_start|apply check_pass; reflexivity|apply guards_done|apply handled|apply record; reflexivity|apply call_end]|cbn [guards_pass handler_succeeds seat_call]]).
    apply nsteps_O.
Defined.

(** * The dispatchers *)

(** The increment of a line of the wrapper, and the wrapper's increments, whose
    errors Go drops. *)
Definition read_increment (line : string) : option string :=
  s ← strip_prefix (tabs 2 "") line; r ← between "_ = billing.IncrQuota(ctx, plan.Catalog, " ")" s; go_string r.
Definition run_increments {S} `{billing.UsageStore S} (env : billing.Env) (catalog : billing.PlanCatalog) (usage : option S)
    (lines : list string) : option S :=
  foldl (fun usage l => match billing.IncrQuota env catalog usage l with Ok usage' => usage' | Err _ => usage end)
    usage (omap read_increment lines).

Lemma read_increment_print l : is_plan_ident l = true ->
  read_increment (tabs 2 ("_ = billing.IncrQuota(ctx, plan.Catalog, " +:+ debug_str l +:+ ")")) = Some l.
Proof.
  intros Hl. unfold read_increment.
  change (tabs 2 ("_ = billing.IncrQuota(ctx, plan.Catalog, " +:+ debug_str l +:+ ")")) with
    (tabs 2 "" +:+ ("_ = billing.IncrQuota(ctx, plan.Catalog, " +:+ debug_str l +:+ ")")).
  rewrite strip_prefix_app. cbn [mbind option_bind]. rewrite between_app. cbn [mbind option_bind]. by apply go_string_ident.
Qed.

Lemma increments_print var ls : Forall (fun l => is_plan_ident l = true) ls -> omap read_increment (emit_command_handle var ls) = ls.
Proof.
  intros Hls. unfold emit_command_handle. destruct ls as [|l0 ls0]; [done|]. remember (l0 :: ls0) as ls eqn:E. clear E.
  rewrite !omap_app. replace (omap read_increment [tabs 1 ("out, err := " +:+ var +:+ ".Handle(ctx, input)"); tabs 1 "if err == nil {"]) with (@nil string) by done.
  replace (omap read_increment [tabs 1 "}"; tabs 1 "return out, err"]) with (@nil string) by done. rewrite app_nil_r. cbn [app].
  induction Hls as [|l ls Hl _ IH]; [done|]. cbn [List.map omap list_omap]. rewrite read_increment_print by done. by f_equal.
Qed.

Lemma quotas_ok gs : forallb gate_ok gs = true -> Forall (fun l => is_plan_ident l = true) (quotas gs).
Proof. rewrite forallb_forall. intros Hok. apply Forall_forall. intros l Hl%list_elem_of_In%quotas_In. exact (Hok _ Hl). Qed.

Lemma increments_quotas {S} `{billing.UsageStore S} env catalog gs : forall usage : option S,
  (billing.increments env catalog usage gs).2 = None ->
  (billing.increments env catalog usage gs).1 =
  foldl (fun usage l => match billing.IncrQuota env catalog usage l with Ok usage' => usage' | Err _ => usage end) usage (quotas gs).
Proof.
  induction gs as [|[f|l] gs IH]; intros usage Hn; [done|by apply IH|]. cbn in *.
  destruct (billing.IncrQuota env catalog usage l) as [u|e] eqn:E; [|done]. by apply IH.
Qed.

(** The dispatcher of queries, jobs, webhooks and APIs decides as the prelude of a
    command does, given the same catalog, and when no increment fails it leaves
    the counters as the command's wrapper leaves them. *)
Theorem dispatcher_as_command {S} `{billing.UsageStore S} env catalog (usage : option S) gs ty var : forallb gate_ok gs = true ->
  billing.walkPrelude env (Some catalog) usage gs =
    run_prelude env catalog usage (emit_command_gate_prelude ty (partition_gates gs).1 (partition_gates gs).2) /\
  ((billing.walkIncrement env (Some catalog) usage gs).2 = None ->
   (billing.walkIncrement env (Some catalog) usage gs).1 =
     run_increments env catalog usage (emit_command_handle var (partition_gates gs).2)).
Proof.
  intros Hok. rewrite partition_gates_eq. cbn [fst snd]. unfold run_prelude, run_increments. rewrite calls_prelude by done.
  rewrite increments_print by (by apply quotas_ok). rewrite check_all_app, !check_all_map. split.
  - destruct gs as [|g gs]; [done|]. unfold billing.walkPrelude. rewrite check_behinds, check_quotas. done.
  - destruct gs as [|g gs]; [done|]. apply increments_quotas.
Qed.

Lemma dispatcher_as_command_witness :
  let gs := [GateQuota "seats"; GateBehind "export"] in
  billing.walkPrelude (subscriber "solo") (Some solo_catalog) (Some seat_used) gs =
    run_prelude (subscriber "solo") solo_catalog (Some seat_used) (emit_command_gate_prelude "*Out" ["export"] ["seats"]) /\
  (None = None :> option billing.GateError ->
   Some ((("u1", "seats"), 0) :: seat_used) = run_increments (subscriber "solo") solo_catalog (Some seat_used) (emit_command_handle "cmd" ["seats"])).
Proof.
  exact (dispatcher_as_command (subscriber "solo") solo_catalog (Some seat_used) [GateQuota "seats"; GateBehind "export"] "*Out" "cmd" eq_refl).
Defined.

(** Until a catalog is registered, which no generated code does, every gate of a
    query, job, webhook or API is open, even to a caller without a
    subscription, and nothing is counted. *)
Theorem dispatcher_open {S} `{billing.UsageStore S} env (usage : option S) gs :
  billing.walkPrelude env None usage gs = Ok tt /\ billing.walkIncrement env None usage gs = (usage, None).
Proof. by destruct gs. Qed.

(** A store that cannot count [seats]. *)
Record flaky := { f_log : log }.
Definition flaky_store : billing.UsageStore flaky := {|
  billing.u_read := fun s b => billing.u_read (f_log s) b;
  billing.u_incr := fun s b => if b.1.2 =? "seats" then Err (billing.ErrStore "down") else Ok {| f_log := b :: f_log s |}
|}.
Definition two_limits : billing.PlanCatalog :=
  [("solo", {| billing.Name := "solo"; billing.Features := [];
               billing.Limits := [("calls", billing.LimitInt 9); ("seats", billing.LimitInt 1)]; billing.Trial := None |})].

(** A failed increment stops the dispatcher's walk: the limits after it are not
    counted, while a command counts them. *)
Theorem failed_increment_stops :
  let gs := [GateQuota "seats"; GateQuota "calls"] in
  let usage := Some {| f_log := [] |} in
  (billing.walkIncrement (H := flaky_store) (subscriber "solo") (Some two_limits) usage gs).1 = usage /\
  run_increments (H := flaky_store) (subscriber "solo") two_limits usage (emit_command_handle "cmd" (partition_gates gs).2) =
    Some {| f_log := [(("u1", "calls"), 0)] |}.
Proof. split; reflexivity. Qed.
