(* ===== verification/SqlRows.v ===== *)
(** The fragment of PostgreSQL the Go runtime writes: values, rows and tables,
    three-valued conditions, and a reader of the statement text.

    This file is the specification side of [RuntimeSql]: it models the database,
    not a file of the repository.  Comparing values of different types is never
    true (PostgreSQL refuses such a statement before it reads a row), a
    statement that names a table or a column that does not exist fails, and
    [ILIKE] folds the case of ASCII letters. *)
From Stdlib Require Import Sorted.
From stdpp Require Import gmap.
From S2P Require Import Prelude Str Fmt.

(** * Values and tables *)

(** A value of the runtime's [any]: SQL scalars, and the Go shapes an input can
    hold.  [Nil] is no value, [Ptr None] the nil of a pointer, slice or map type,
    and a [Slice] is not nil.  [Time] counts from Go's zero time. *)
Inductive Value :=
| Nil | Int (n : Z) | Text (s : string) | Bool (b : bool) | Time (t : Z)
| Ptr (p : option Value) | Struct (fields : list ((string * string) * Value)) | Slice (l : list Value).

Abbreviation Row := (gmap string Value).
Record Table := { columns : list string; rows : list Row }.
Abbreviation Db := (gmap string Table).

Definition cell (row : Row) (c : string) : Value := default Nil (row !! c).

(** * Conditions *)

Inductive Cond :=
| IsNull (column : string)
| Equals (column : string) (n : nat)
| OwnedIn (column table owner : string) (n : nat)
| Matches (cols : list string) (n : nat).

(** [=] on values: unknown on NULL. *)
Definition sql_eq (a b : Value) : option bool :=
  match a, b with
  | Int x, Int y => Some (x =? y)%Z
  | Text x, Text y => Some (x =? y)
  | Bool x, Bool y => Some (Bool.eqb x y)
  | Time x, Time y => Some (x =? y)%Z
  | _, _ => None
  end.

Definition or3 (a b : option bool) : option bool :=
  match a, b with
  | Some true, _ | _, Some true => Some true
  | Some false, Some false => Some false
  | _, _ => None
  end.
Definition any3 (l : list (option bool)) : option bool := foldr or3 (Some false) l.

(** The tokens of an [ILIKE] pattern; a trailing escape is an error. *)
Inductive pattern_token := AnyText | AnyOne | Literal (b : byte).
Fixpoint pattern_tokens (s : string) : option (list pattern_token) :=
  match s with
  | "" => Some []
  | String b s =>
    if b =a? BSL then
      match s with "" => None | String c s => rest ← pattern_tokens s; Some (Literal c :: rest) end
    else
      rest ← pattern_tokens s;
      Some ((if b =a? "%" then AnyText else if b =a? "_" then AnyOne else Literal b) :: rest)
  end.
Definition same_letter (a b : byte) : bool := to_ascii_lowercase a =a? to_ascii_lowercase b.
(** [f] on every suffix. *)
Fixpoint some_suffix (f : string -> bool) (s : string) : bool :=
  f s || match s with "" => false | String _ s => some_suffix f s end.
Fixpoint token_match (p : list pattern_token) (s : string) : bool :=
  match p with
  | [] => s =? ""
  | AnyText :: p => some_suffix (token_match p) s
  | AnyOne :: p => match s with "" => false | String _ s => token_match p s end
  | Literal b :: p => match s with "" => false | String c s => same_letter b c && token_match p s end
  end.
Definition ilike (v pattern : Value) : option bool :=
  match v, pattern with
  | Text s, Text p => (fun p => token_match p s) <$> pattern_tokens p
  | _, _ => None
  end.

(** [$n] *)
Definition param (ps : list Value) (n : nat) : Value := default Nil (ps !! (n - 1)).

Definition eval_cond (db : Db) (ps : list Value) (row : Row) (c : Cond) : option bool :=
  match c with
  | IsNull col => Some (match cell row col with Nil => true | _ => false end)
  | Equals col n => sql_eq (cell row col) (param ps n)
  | OwnedIn col t owner n =>
    any3 (List.map (fun r => sql_eq (cell row col) (cell r "id"))
      (List.filter (fun r => bool_decide (sql_eq (cell r owner) (param ps n) = Some true))
        (from_option rows [] (db !! t))))
  | Matches cols n => any3 (List.map (fun col => ilike (cell row col) (param ps n)) cols)
  end.

(** [WHERE c1 AND c2 ...] keeps the rows on which every condition is true. *)
Definition holds (db : Db) (ps : list Value) (conds : list Cond) (row : Row) : bool :=
  forallb (fun c => bool_decide (eval_cond db ps row c = Some true)) conds.

(** The columns and tables a condition on [t] names exist. *)
Definition cond_names (db : Db) (t : Table) (c : Cond) : bool :=
  match c with
  | IsNull col | Equals col _ => bool_decide (col ∈ columns t)
  | OwnedIn col t' owner _ =>
    bool_decide (col ∈ columns t) &&
    match db !! t' with Some t' => bool_decide ("id" ∈ columns t') && bool_decide (owner ∈ columns t') | None => false end
  | Matches cols _ => forallb (fun col => bool_decide (col ∈ columns t)) cols
  end.

(** * Statements *)

(** An item of a [SELECT] list: a column, or a constant under its name. *)
Inductive Item := Column (c : string) | Constant (v : Value) (c : string).
Inductive Projection := Star | Items (l : list Item).
Inductive SetExpr := Param (n : nat) | Now.

(** The owner check of an [INSERT]: a row of [oc_table] with that id and owner. *)
Record OwnerCte := { oc_table : string; oc_id : nat; oc_owner : string; oc_actor : nat }.

Inductive Stmt :=
| Select (p : Projection) (t : string) (conds : list Cond) (order : list (string * bool)) (limit : nat)
| Update (t : string) (sets : list (string * SetExpr)) (conds : list Cond)
| Delete (t : string) (conds : list Cond)
| Insert (check : option OwnerCte) (t : string) (cols : list (string * nat))
| Reposition (t column : string) (tuples : list (nat * nat)).

Definition project (p : Projection) (row : Row) : Row :=
  match p with
  | Star => row
  | Items l => list_to_map (List.map (fun i => match i with Column c => (c, cell row c) | Constant v c => (c, v) end) l)
  end.

(** The sort keys; ascending puts NULL last, descending first. *)
Definition value_le (a b : Value) : bool :=
  match a, b with
  | _, Nil => true
  | Nil, _ => false
  | Int x, Int y => (x <=? y)%Z
  | Time x, Time y => (x <=? y)%Z
  | Text x, Text y => String.leb x y
  | Bool x, Bool y => implb x y
  | _, _ => true
  end.
Definition key_le (k : string * bool) (a b : Row) : bool :=
  if k.2 then value_le (cell b k.1) (cell a k.1) else value_le (cell a k.1) (cell b k.1).
Fixpoint order_le (keys : list (string * bool)) (a b : Row) : bool :=
  match keys with
  | [] => true
  | k :: keys => key_le k a b && (negb (key_le k b a) || order_le keys a b)
  end.

(** The answers of a [SELECT]: rows that compare equal may come in any order. *)
Definition selects (db : Db) (ps : list Value) (p : Projection) (t : string) (conds : list Cond)
    (order : list (string * bool)) (limit : nat) (out : list Row) : Prop :=
  exists tab sorted, db !! t = Some tab /\ forallb (cond_names db tab) conds = true /\
    sorted ≡ₚ List.filter (holds db ps conds) (rows tab) /\
    StronglySorted (fun a b => order_le order a b = true) sorted /\
    out = List.map (project p) (take limit sorted).

Definition set_value (ps : list Value) (now : Z) (e : SetExpr) : Value := match e with Param n => param ps n | Now => Time now end.
Definition apply_sets (ps : list Value) (now : Z) (sets : list (string * SetExpr)) (row : Row) : Row :=
  foldl (fun row ce => <[ce.1 := set_value ps now ce.2]> row) row sets.

(** [UPDATE ... RETURNING *]: the new database and the rows changed. *)
Definition updates (db : Db) (ps : list Value) (now : Z) (t : string) (sets : list (string * SetExpr)) (conds : list Cond)
    : option (Db * list Row) :=
  tab ← db !! t;
  if forallb (cond_names db tab) conds && forallb (fun ce => bool_decide (ce.1 ∈ columns tab)) sets &&
     bool_decide (NoDup sets.*1) then
    let change row := if holds db ps conds row then apply_sets ps now sets row else row in
    Some (<[t := {| columns := columns tab; rows := List.map change (rows tab) |}]> db,
          List.map (apply_sets ps now sets) (List.filter (holds db ps conds) (rows tab)))
  else None.

Definition deletes (db : Db) (ps : list Value) (t : string) (conds : list Cond) : option (Db * list Row) :=
  tab ← db !! t;
  if forallb (cond_names db tab) conds then
    Some (<[t := {| columns := columns tab; rows := List.filter (fun row => negb (holds db ps conds row)) (rows tab) |}]> db,
          List.filter (holds db ps conds) (rows tab))
  else None.

(** [base] holds what the schema fills in: the id and the defaults. *)
Definition inserts (db : Db) (ps : list Value) (base : Row) (check : option OwnerCte) (t : string) (cols : list (string * nat))
    : option (Db * list Row) :=
  tab ← db !! t;
  if forallb (fun cn => bool_decide (cn.1 ∈ columns tab)) cols && bool_decide (NoDup cols.*1) then
    let row := foldl (fun row cn => <[cn.1 := param ps cn.2]> row) base cols in
    owned ← match check with
      | None => Some true
      | Some o =>
        related ← db !! oc_table o;
        Some (existsb (fun r => bool_decide (sql_eq (cell r "id") (param ps (oc_id o)) = Some true) &&
                                bool_decide (sql_eq (cell r (oc_owner o)) (param ps (oc_actor o)) = Some true)) (rows related))
      end;
    if owned : bool then Some (<[t := {| columns := columns tab; rows := rows tab ++ [row] |}]> db, [row])
    else Some (db, [])
  else None.

(** [UPDATE ... FROM (VALUES ...) AS data(id, position)]. *)
Definition repositions (db : Db) (ps : list Value) (t column : string) (tuples : list (nat * nat)) : option Db :=
  tab ← db !! t;
  if bool_decide (column ∈ columns tab) then
    let change row :=
      match List.find (fun ip => bool_decide (sql_eq (cell row "id") (param ps ip.1) = Some true)) tuples with
      | Some ip => <[column := Int (Z.of_nat ip.2)]> row
      | None => row
      end in
    Some (<[t := {| columns := columns tab; rows := List.map change (rows tab) |}]> db)
  else None.

(** * Reading statements *)

Definition ident_char (c : byte) : bool := is_ascii_alphanumeric c || (c =a? "_").

(** A token made of the bytes of [p]. *)
Definition sql_span (p : byte -> bool) (s : string) : string * string := (str_take (count_while p s) s, str_drop (count_while p s) s).

(** A quoted identifier. *)
Definition sql_ident_tok (s : string) : option (string * string) :=
  s ← strip_prefix (String DQ "") s;
  let '(name, s) := sql_span ident_char s in
  s ← strip_prefix (String DQ "") s; Some (name, s).
Definition sql_number (s : string) : option (nat * string) :=
  let '(digits, s) := sql_span is_ascii_digit s in
  if digits =? "" then None else n ← digits_val 0 digits; Some (N.to_nat n, s).
Definition sql_param (s : string) : option (nat * string) := s ← strip_prefix "$" s; sql_number s.

(** One or more items; [sep] between them. *)
Fixpoint sql_list {A} (item : string -> option (A * string)) (sep : string) (fuel : nat) (s : string) : option (list A * string) :=
  match fuel with
  | O => None
  | S fuel =>
    '(x, s) ← item s;
    match strip_prefix sep s with
    | Some s => '(xs, s) ← sql_list item sep fuel s; Some (x :: xs, s)
    | None => Some ([x], s)
    end
  end.

Definition sql_match (s : string) : option ((string * nat) * string) :=
  '(c, s) ← sql_ident_tok s; s ← strip_prefix " ILIKE " s; '(n, s) ← sql_param s; Some ((c, n), s).

Definition sql_cond (s : string) : option (Cond * string) :=
  match strip_prefix "deleted_at IS NULL" s with
  | Some s => Some (IsNull "deleted_at", s)
  | None =>
    match strip_prefix "org_id = " s with
    | Some s => '(n, s) ← sql_param s; Some (Equals "org_id" n, s)
    | None =>
      match strip_prefix "(" s with
      | Some s =>
        '(ms, s) ← sql_list sql_match " OR " (str_len s) s;
        s ← strip_prefix ")" s;
        n ← snd <$> head ms;
        if forallb (fun m => (m.2 =? n)%nat) ms then Some (Matches ms.*1 n, s) else None
      | None =>
        '(c, s) ← sql_ident_tok s;
        match strip_prefix " = " s with
        | Some s => '(n, s) ← sql_param s; Some (Equals c n, s)
        | None =>
          s ← strip_prefix " IN (SELECT id FROM " s;
          '(t, s) ← sql_ident_tok s;
          s ← strip_prefix " WHERE " s;
          '(o, s) ← sql_ident_tok s;
          s ← strip_prefix " = " s;
          '(n, s) ← sql_param s;
          s ← strip_prefix ")" s;
          Some (OwnedIn c t o n, s)
        end
      end
    end
  end.
Definition sql_conds (s : string) : option (list Cond * string) := sql_list sql_cond " AND " (str_len s) s.

Definition sql_item (s : string) : option (Item * string) :=
  match sql_ident_tok s with
  | Some (c, s) => Some (Column c, s)
  | None =>
    '(v, s) ←
      match strip_prefix "NULL" s with
      | Some s => Some (Nil, s)
      | None =>
        match strip_prefix "''" s with
        | Some s => Some (Text "", s)
        | None =>
          match strip_prefix "FALSE" s with
          | Some s => Some (Bool false, s)
          | None => s ← strip_prefix "0" s; Some (Int 0, s)
          end
        end
      end;
    s ← strip_prefix " AS " s; '(c, s) ← sql_ident_tok s; Some (Constant v c, s)
  end.
Definition sql_projection (s : string) : option (Projection * string) :=
  match strip_prefix "*" s with
  | Some s => Some (Star, s)
  | None => '(l, s) ← sql_list sql_item ", " (str_len s) s; Some (Items l, s)
  end.
Definition sql_key (s : string) : option ((string * bool) * string) :=
  '(c, s) ← match strip_prefix "created_at" s with Some s => Some ("created_at", s) | None => sql_ident_tok s end;
  match strip_prefix " DESC" s with
  | Some s => Some ((c, true), s)
  | None => s ← strip_prefix " ASC" s; Some ((c, false), s)
  end.
Definition sql_set (s : string) : option ((string * SetExpr) * string) :=
  '(c, s) ← sql_ident_tok s; s ← strip_prefix " = " s;
  match strip_prefix "now()" s with
  | Some s => Some ((c, Now), s)
  | None => '(n, s) ← sql_param s; Some ((c, Param n), s)
  end.
Definition sql_tuple (s : string) : option ((nat * nat) * string) :=
  s ← strip_prefix "(" s; '(n, s) ← sql_param s; s ← strip_prefix ", " s; '(i, s) ← sql_number s; s ← strip_prefix ")" s; Some ((n, i), s).

Definition sql_where (s : string) : option (list Cond * string) :=
  match strip_prefix " WHERE " s with Some s => sql_conds s | None => Some ([], s) end.

Definition read_select (s : string) : option Stmt :=
  s ← strip_prefix "SELECT " s;
  '(p, s) ← sql_projection s;
  s ← strip_prefix " FROM " s;
  '(t, s) ← sql_ident_tok s;
  '(conds, s) ← sql_where s;
  '(order, s) ← match strip_prefix " ORDER BY " s with
    | Some s => sql_list sql_key ", " (str_len s) s
    | None => Some ([], s)
    end;
  s ← strip_prefix " LIMIT " s;
  '(n, s) ← sql_number s;
  if s =? "" then Some (Select p t conds order n) else None.
Definition read_update (s : string) : option Stmt :=
  s ← strip_prefix "UPDATE " s;
  '(t, s) ← sql_ident_tok s;
  s ← strip_prefix " SET " s;
  '(sets, s) ← sql_list sql_set ", " (str_len s) s;
  s ← strip_prefix " WHERE " s;
  '(conds, s) ← sql_conds s;
  if s =? " RETURNING *" then Some (Update t sets conds) else None.
Definition read_delete (s : string) : option Stmt :=
  s ← strip_prefix "DELETE FROM " s;
  '(t, s) ← sql_ident_tok s;
  s ← strip_prefix " WHERE " s;
  '(conds, s) ← sql_conds s;
  if s =? " RETURNING *" then Some (Delete t conds) else None.
(** [col1, col2] and [$1, $2] of an [INSERT]. *)
Definition read_insert_into (check : option OwnerCte) (open close : string) (s : string) : option Stmt :=
  s ← strip_prefix "INSERT INTO " s;
  '(t, s) ← sql_ident_tok s;
  s ← strip_prefix " (" s;
  '(cols, s) ← sql_list sql_ident_tok ", " (str_len s) s;
  s ← strip_prefix open s;
  '(ns, s) ← sql_list sql_param ", " (str_len s) s;
  if (s =? close) && (List.length cols =? List.length ns)%nat then Some (Insert check t (List.combine cols ns)) else None.
Definition read_insert (s : string) : option Stmt :=
  match strip_prefix "WITH owner_check AS (SELECT 1 FROM " s with
  | None => read_insert_into None ") VALUES (" ") RETURNING *" s
  | Some s =>
    '(t, s) ← sql_ident_tok s;
    s ← strip_prefix " WHERE id = " s;
    '(id, s) ← sql_param s;
    s ← strip_prefix " AND " s;
    '(o, s) ← sql_ident_tok s;
    s ← strip_prefix " = " s;
    '(actor, s) ← sql_param s;
    s ← strip_prefix ") " s;
    read_insert_into (Some {| oc_table := t; oc_id := id; oc_owner := o; oc_actor := actor |}) ") SELECT " " FROM owner_check RETURNING *" s
  end.
Definition read_reposition (s : string) : option Stmt :=
  s ← strip_prefix "UPDATE " s;
  '(t, s) ← sql_ident_tok s;
  s ← strip_prefix " SET " s;
  '(c, s) ← sql_ident_tok s;
  s ← strip_prefix " = data.position FROM (VALUES " s;
  '(tuples, s) ← sql_list sql_tuple ", " (str_len s) s;
  s ← strip_prefix ") AS data(id, position) WHERE " s;
  '(t', s) ← sql_ident_tok s;
  if (t =? t') && (s =? ".id = data.id") then Some (Reposition t c tuples) else None.
Definition read_stmt (s : string) : option Stmt :=
  match read_select s with
  | Some st => Some st
  | None =>
    match read_reposition s with
    | Some st => Some st
    | None =>
      match read_update s with
      | Some st => Some st
      | None => match read_delete s with Some st => Some st | None => read_insert s end
      end
    end
  end.

(** * What the readers make of a text *)

Definition digit_head (s : string) : bool := match s with String b _ => is_ascii_digit b | "" => false end.

(** [item] reads [s] as [x], whatever follows that does not extend a number. *)
Definition reads {A} (item : string -> option (A * string)) (s : string) (x : A) : Prop :=
  s <> "" /\ forall rest, digit_head rest = false -> item (s +:+ rest) = Some (x, rest).

Lemma count_while_app p a b : str_all p a = true -> match b with String c _ => p c | "" => false end = false -> count_while p (a +:+ b) = str_len a.
Proof.
  intros Ha Hb. induction a as [|c a IH]; cbn in *.
  - destruct b as [|c b]; cbn; [done|]. by rewrite Hb.
  - apply andb_true_iff in Ha as [-> Ha]. by rewrite IH.
Qed.

Lemma sql_span_app p a b : str_all p a = true -> match b with String c _ => p c | "" => false end = false -> sql_span p (a +:+ b) = (a, b).
Proof. intros Ha Hb. unfold sql_span. rewrite count_while_app by done. by rewrite take_app, drop_app. Qed.

Lemma reads_ident name : str_all ident_char name = true -> reads sql_ident_tok (quoted name) name.
Proof.
  intros H. split; [done|]. intros rest _. unfold sql_ident_tok, quoted. cbn [String.append].
  change (String DQ ((name +:+ String DQ "") +:+ rest)) with (String DQ "" +:+ ((name +:+ String DQ "") +:+ rest)).
  rewrite strip_prefix_app. cbn [mbind option_bind]. rewrite sapp_assoc. rewrite sql_span_app by done. cbn [String.append].
  change (String DQ rest) with (String DQ "" +:+ rest). by rewrite strip_prefix_app.
Qed.

Lemma sql_number_show n rest : digit_head rest = false -> sql_number (show_N (N.of_nat n) +:+ rest) = Some (n, rest).
Proof.
  intros H. unfold sql_number. rewrite sql_span_app; [|apply show_N_digits|by destruct rest].
  destruct (show_N_cons (N.of_nat n)) as (b & r & E & _). pose proof (show_N_val (N.of_nat n)) as Hv. rewrite E in *. cbn [String.eqb].
  rewrite Hv. cbn. by rewrite Nat2N.id.
Qed.

Lemma reads_number n : reads sql_number (show_N (N.of_nat n)) n.
Proof. split; [|intros rest H; by apply sql_number_show]. destruct (show_N_cons (N.of_nat n)) as (b & r & -> & _). done. Qed.

Lemma reads_param n : reads sql_param ("$" +:+ show_N (N.of_nat n)) n.
Proof. split; [done|]. intros rest H. unfold sql_param. rewrite sapp_assoc, strip_prefix_app. by apply sql_number_show. Qed.

Lemma join_len sep l : Forall (fun s => s <> "") l -> List.length l <= str_len (join sep l).
Proof.
  induction 1 as [|x l Hx Hl IH]; [done|]. assert (1 <= str_len x) by (destruct x; [done|cbn; lia]). destruct l as [|y l].
  - cbn. lia.
  - rewrite join_cons by done. rewrite !len_app. cbn [List.length] in *. lia.
Qed.

(** A list of printed items is read back, when [sep] is not a digit and does not
    start what follows. *)
Lemma sql_list_reads {A} (item : string -> option (A * string)) sep ss xs : Forall2 (reads item) ss xs -> ss <> [] ->
  sep <> "" -> digit_head sep = false -> forall fuel rest, List.length ss <= fuel -> strip_prefix sep rest = None -> digit_head rest = false ->
  sql_list item sep fuel (join sep ss +:+ rest) = Some (xs, rest).
Proof.
  intros Hr Hne Hsep Hd. induction Hr as [|s x ss xs [Hs Hx] Hr IH]; [done|]. intros fuel rest Hf Hrest Hdr.
  destruct fuel as [|fuel]; [cbn in Hf; lia|]. cbn [sql_list]. destruct ss as [|s' ss].
  - inversion Hr; subst. cbn [join]. rewrite Hx by done. cbn [mbind option_bind]. by rewrite Hrest.
  - rewrite join_cons by done. rewrite !sapp_assoc. rewrite Hx by (by destruct sep). cbn [mbind option_bind]. rewrite strip_prefix_app.
    rewrite IH; [done|done| |done|done]. cbn in *. lia.
Qed.

Lemma sql_list_len {A} (item : string -> option (A * string)) sep ss xs rest : Forall2 (reads item) ss xs -> ss <> [] ->
  sep <> "" -> digit_head sep = false -> strip_prefix sep rest = None -> digit_head rest = false ->
  sql_list item sep (str_len (join sep ss +:+ rest)) (join sep ss +:+ rest) = Some (xs, rest).
Proof.
  intros Hr Hne Hsep Hd Hrest Hdr. apply sql_list_reads; try done. rewrite len_app.
  enough (List.length ss <= str_len (join sep ss)) by lia. apply join_len. eapply Forall2_Forall_l; [exact Hr|].
  apply Forall_forall. by intros x _ s [Hs _].
Qed.

(** One step of a reader that starts with a literal or with an item. *)
Ltac sql_lit := rewrite strip_prefix_app; cbn [mbind option_bind].
Ltac sql_item_tac H := rewrite (proj2 H) by done; cbn [mbind option_bind].

Lemma reads_match c n : str_all ident_char c = true ->
  reads sql_match (quoted c +:+ " ILIKE " +:+ "$" +:+ show_N (N.of_nat n)) (c, n).
Proof.
  intros Hc. split; [done|]. intros rest H. unfold sql_match. rewrite !sapp_assoc. sql_item_tac (reads_ident c Hc). sql_lit.
  pose proof (proj2 (reads_param n) rest H) as E. rewrite sapp_assoc in E. by rewrite E.
Qed.

Lemma quoted_not_prefix p b s : p <> "" -> match p with String a _ => a =a? DQ | "" => true end = false -> strip_prefix p (quoted b +:+ s) = None.
Proof.
  intros Hp Ha. destruct p as [|a p]; [done|]. unfold strip_prefix, quoted. cbn [starts_with String.append]. by rewrite Ha.
Qed.

Lemma reads_equals c n : str_all ident_char c = true ->
  reads sql_cond (quoted c +:+ " = " +:+ "$" +:+ show_N (N.of_nat n)) (Equals c n).
Proof.
  intros Hc. split; [done|]. intros rest H. unfold sql_cond. rewrite !sapp_assoc. rewrite !quoted_not_prefix by done.
  sql_item_tac (reads_ident c Hc). sql_lit.
  pose proof (proj2 (reads_param n) rest H) as E. rewrite sapp_assoc in E. by rewrite E.
Qed.

Lemma reads_org n : reads sql_cond ("org_id = " +:+ "$" +:+ show_N (N.of_nat n)) (Equals "org_id" n).
Proof.
  split; [done|]. intros rest H. unfold sql_cond. rewrite !sapp_assoc.
  replace (strip_prefix "deleted_at IS NULL" ("org_id = " +:+ "$" +:+ show_N (N.of_nat n) +:+ rest)) with (@None string) by done. sql_lit.
  pose proof (proj2 (reads_param n) rest H) as E. rewrite sapp_assoc in E. by rewrite E.
Qed.

Lemma reads_deleted : reads sql_cond "deleted_at IS NULL" (IsNull "deleted_at").
Proof. split; [done|]. intros rest H. unfold sql_cond. by rewrite strip_prefix_app. Qed.

Lemma reads_owned_in c t o n : str_all ident_char c = true -> str_all ident_char t = true -> str_all ident_char o = true ->
  reads sql_cond (quoted c +:+ " IN (SELECT id FROM " +:+ quoted t +:+ " WHERE " +:+ quoted o +:+ " = " +:+ ("$" +:+ show_N (N.of_nat n)) +:+ ")")
    (OwnedIn c t o n).
Proof.
  intros Hc Ht Ho. split; [done|]. intros rest H. unfold sql_cond. rewrite !sapp_assoc. rewrite !quoted_not_prefix by done.
  sql_item_tac (reads_ident c Hc).
  replace (strip_prefix " = " (" IN (SELECT id FROM " +:+ quoted t +:+ " WHERE " +:+ quoted o +:+ " = " +:+ "$" +:+ show_N (N.of_nat n) +:+ ")" +:+ rest))
    with (@None string) by done.
  sql_lit. sql_item_tac (reads_ident t Ht). sql_lit. sql_item_tac (reads_ident o Ho). sql_lit.
  pose proof (proj2 (reads_param n) (")" +:+ rest) eq_refl) as E. rewrite sapp_assoc in E. rewrite E. cbn [mbind option_bind].
  by sql_lit.
Qed.

Lemma reads_matches cols n : Forall (fun c => str_all ident_char c = true) cols -> cols <> [] ->
  reads sql_cond ("(" +:+ join " OR " (List.map (fun c => quoted c +:+ " ILIKE " +:+ ("$" +:+ show_N (N.of_nat n))) cols) +:+ ")") (Matches cols n).
Proof.
  intros Hc Hne. split; [done|]. intros rest H. unfold sql_cond. rewrite !sapp_assoc.
  set (body := join " OR " (List.map (fun c => quoted c +:+ " ILIKE " +:+ ("$" +:+ show_N (N.of_nat n))) cols)).
  replace (strip_prefix "deleted_at IS NULL" ("(" +:+ body +:+ ")" +:+ rest)) with (@None string) by done.
  replace (strip_prefix "org_id = " ("(" +:+ body +:+ ")" +:+ rest)) with (@None string) by done. sql_lit.
  unfold body. rewrite (sql_list_len sql_match " OR " _ (List.map (fun c => (c, n)) cols)); try done.
  - cbn [mbind option_bind]. sql_lit. destruct cols as [|c cols]; [done|]. cbn [List.map head fmap option_fmap option_map mbind option_bind snd].
    replace (forallb (fun m : string * nat => (m.2 =? n)%nat) ((c, n) :: List.map (fun c => (c, n)) cols)) with true.
    + do 3 f_equal. clear. induction cols as [|c' cols IH]; cbn in *; congruence.
    + symmetry. apply forallb_forall. intros m Hm. destruct Hm as [<-|Hm]; [apply Nat.eqb_refl|].
      apply in_map_iff in Hm as (c' & <- & _). apply Nat.eqb_refl.
  - clear -Hc. induction Hc as [|c cols Hc Hcs IH]; cbn; constructor; [|done]. by apply reads_match.
  - by destruct cols.
Qed.

Lemma reads_set c n : str_all ident_char c = true -> reads sql_set (quoted c +:+ " = " +:+ "$" +:+ show_N (N.of_nat n)) (c, Param n).
Proof.
  intros Hc. split; [done|]. intros rest H. unfold sql_set. rewrite !sapp_assoc. sql_item_tac (reads_ident c Hc). sql_lit.
  replace (strip_prefix "now()" ("$" +:+ show_N (N.of_nat n) +:+ rest)) with (@None string) by done.
  pose proof (proj2 (reads_param n) rest H) as E. rewrite sapp_assoc in E. by rewrite E.
Qed.

Lemma reads_set_now c : str_all ident_char c = true -> reads sql_set (quoted c +:+ " = now()") (c, Now).
Proof.
  intros Hc. split; [done|]. intros rest H. unfold sql_set. rewrite !sapp_assoc. sql_item_tac (reads_ident c Hc).
  change (" = now()" +:+ rest) with (" = " +:+ "now()" +:+ rest). by do 2 sql_lit.
Qed.

Lemma reads_key c (desc : bool) : str_all ident_char c = true ->
  reads sql_key (quoted c +:+ " " +:+ (if desc then "DESC" else "ASC")) (c, desc).
Proof.
  intros Hc. split; [done|]. intros rest H. unfold sql_key. rewrite !sapp_assoc. rewrite quoted_not_prefix by done.
  sql_item_tac (reads_ident c Hc). destruct desc.
  - change (" " +:+ "DESC" +:+ rest) with (" DESC" +:+ rest). by sql_lit.
  - replace (strip_prefix " DESC" (" " +:+ "ASC" +:+ rest)) with (@None string) by done.
    change (" " +:+ "ASC" +:+ rest) with (" ASC" +:+ rest). by sql_lit.
Qed.

Lemma reads_created_at : reads sql_key "created_at DESC" ("created_at", true).
Proof.
  split; [done|]. intros rest H. unfold sql_key. change ("created_at DESC" +:+ rest) with ("created_at" +:+ " DESC" +:+ rest).
  by do 2 sql_lit.
Qed.

Lemma reads_item_column c : str_all ident_char c = true -> reads sql_item (quoted c) (Column c).
Proof. intros Hc. split; [done|]. intros rest H. unfold sql_item. by sql_item_tac (reads_ident c Hc). Qed.

(** The text of a constant of a [SELECT] list. *)
Inductive constant_text : string -> Value -> Prop :=
| text_null : constant_text "NULL" Nil
| text_empty : constant_text "''" (Text "")
| text_false : constant_text "FALSE" (Bool false)
| text_zero : constant_text "0" (Int 0).

Lemma reads_constant t v c : constant_text t v -> str_all ident_char c = true -> reads sql_item (t +:+ " AS " +:+ quoted c) (Constant v c).
Proof.
  intros Ht Hc. split; [by destruct Ht|]. intros rest H. unfold sql_item. rewrite !sapp_assoc.
  assert (sql_ident_tok (t +:+ " AS " +:+ quoted c +:+ rest) = None) as -> by by destruct Ht.
  destruct Ht;
    repeat first [progress cbn [mbind option_bind]
                 |rewrite strip_prefix_app
                 |match goal with |- context [strip_prefix ?p (?t +:+ ?s)] => replace (strip_prefix p (t +:+ s)) with (@None string) by done end];
    by sql_item_tac (reads_ident c Hc).
Qed.

Lemma reads_tuple n i : reads sql_tuple ("(" +:+ ("$" +:+ show_N (N.of_nat n)) +:+ ", " +:+ show_N (N.of_nat i) +:+ ")") (n, i).
Proof.
  split; [done|]. intros rest H. unfold sql_tuple. rewrite !sapp_assoc. sql_lit.
  pose proof (proj2 (reads_param n) (", " +:+ show_N (N.of_nat i) +:+ ")" +:+ rest) eq_refl) as E. rewrite sapp_assoc in E. rewrite E.
  cbn [mbind option_bind]. sql_lit. rewrite (proj2 (reads_number i)) by done. cbn [mbind option_bind]. by sql_lit.
Qed.
