(* ===== verification/RuntimeSql.v ===== *)
(** The data plane of the Go runtime: how a query or an effect becomes one SQL
    statement ([runtime/go/lazuli/run.go], [handle.go], [effect.go], [query.go],
    [resource.go], [read_projection.go], [retention.go]).

    Parameters ([Host]): the registered binding functions, the default tenant
    resolver, the HTML sanitizer and the cipher of the columns written, the
    text of the values [fmt.Sprint] renders by reflection, and the RBAC hooks.
    [ctx] is never nil: every caller passes one. *)
From S2P Require Import Prelude Str BTree Fmt Casing SqlRows.
From S2P Require PolicyRuntime.

(** * Errors *)

Inductive Fault := Error (status : nat) (code message : string) | Panic (message : string).
Abbreviation go := (result Fault).

Definition CodeInternal : string := "internal".
Definition CodePolicyDenied : string := "policy_denied".
Definition CodeNotFound : string := "not_found".
Definition CodeTenantMismatch : string := "tenant_mismatch".
Definition CodeBadRequest : string := "bad_request".

(** * Sources *)

(** [Source]: the kinds with the fields each reads. *)
Inductive Source :=
| FromInput (path : string) | FromInputOptional (path : string) | FromCtx (path : string) | FromTarget (path : string)
| FromConst (v : Value) | FromFn (name : string) (args : list Source)
| FromCtxOwnedVia (relatedTable ownerColumn path : string).

(** A map literal; [bt_collect] gives its keys in the order of [sort.Strings]. *)
Definition Bindings := list (string * Source).
Definition sortedBind (b : Bindings) : list (string * Source) := bt_collect b.

Record User := { ID : Z; OrgID : Z; u_Roles : list string }.
Record Ctx := { ctx_User : option User; ctx_Tenant : option Z; ctx_Actor : PolicyRuntime.Actor; Now_ : Z; clock : Z }.

Record Host := {
  binding_fn : string -> option (list Value -> go Value);
  default_tenant : option (go (option Z));
  store_column : string -> string -> Value -> go Value;
  sprint_other : Value -> string;
  rbacHasRole : string -> string -> bool;
  rbacHasPermission : string -> string -> bool
}.

(** [pascalCase] on a word: [strings.ToUpper] of its first byte. *)
Definition raise_byte (b : byte) : string :=
  if (code b <? 128)%N then String (to_ascii_uppercase b) ""
  else String (ascii_of_N 239) (String (ascii_of_N 191) (String (ascii_of_N 189) "")).
Definition pascalCase (s : string) : string :=
  join "" (List.map (fun word =>
    match word with
    | "" => ""
    | String b rest => if is_acronym word then upper_ascii word else raise_byte b +:+ rest
    end) (split_words s)).

(** A field of the input: its Go name and the name of its [json] tag. *)
Definition resolveField (fields : list ((string * string) * Value)) (part : string) : option Value :=
  let by_ (p : string * string -> bool) := snd <$> List.find (fun f => p f.1) fields in
  match by_ (fun n => n.1 =? part) with
  | Some v => Some v
  | None =>
    match by_ (fun n => n.1 =? pascalCase part) with
    | Some v => Some v
    | None =>
      match by_ (fun n => n.2 =? part) with
      | Some v => Some v
      | None => by_ (fun n => lower_ascii n.1 =? lower_ascii part)
      end
    end
  end.

Fixpoint walk_path (path : string) (v : Value) (parts : list string) : go Value :=
  match parts with
  | [] => Ok v
  | part :: parts =>
    match v with
    | Struct fields =>
      match resolveField fields part with
      | None => Err (Error 400 CodeBadRequest ("input field not found: " +:+ path))
      | Some v => walk_path path v parts
      end
    | _ => Err (Error 500 CodeInternal ("input path " +:+ path +:+ " hit non-struct value"))
    end
  end.
Definition readPath (input : Value) (path : string) : go Value :=
  let start := match input with Ptr (Some v) => v | v => v end in
  v ← walk_path path start (split_char "." path);
  Ok (match v with Ptr None => Nil | Ptr (Some v) => v | v => v end).

Definition no_user : Fault := Error 401 CodePolicyDenied "no authenticated user in context".
Definition readCtx (ctx : Ctx) (path : string) : go Value :=
  let user_field (f : User -> Z) := match ctx_User ctx with None => Err no_user | Some u => Ok (Int (f u)) end in
  if (path =? "user") || (path =? "user.id") then user_field ID
  else if (path =? "user.org_id") || (path =? "user.org") then user_field OrgID
  else if (path =? "actor.user_id") || (path =? "actor.id") then user_field ID
  else if (path =? "actor.org_id") || (path =? "actor.tenant_id") then
    match ctx_User ctx, ctx_Tenant ctx with
    | Some u, _ => Ok (Int (OrgID u))
    | None, Some org => Ok (Int org)
    | None, None => Err (Error 400 CodeTenantMismatch "no actor org in context")
    end
  else if path =? "tenant.org_id" then
    match ctx_Tenant ctx with
    | Some org => Ok (Int org)
    | None => Err (Error 400 CodeTenantMismatch "no tenant in context")
    end
  else if path =? "now" then Ok (Time (if (Now_ ctx =? 0)%Z then clock ctx else Now_ ctx))
  else Err (Error 500 CodeInternal ("unknown ctx path: " +:+ path)).

Section Resolve.
Variable host : Host.
Variable ctx : Ctx.
Variable input : Value.

Fixpoint resolveSource (src : Source) : go Value :=
  match src with
  | FromConst v => Ok v
  | FromInput path | FromInputOptional path => readPath input path
  | FromCtx path | FromCtxOwnedVia _ _ path => readCtx ctx path
  | FromTarget _ => Err (Error 501 CodeInternal "target binding not yet implemented in runtime spike")
  | FromFn name args =>
    match binding_fn host name with
    | None => Err (Error 500 CodeInternal ("binding fn not registered in either registry: @fn." +:+ name))
    | Some fn =>
      vs ← (fix go_args (args : list Source) : go (list Value) :=
              match args with
              | [] => Ok []
              | a :: args => v ← resolveSource a; vs ← go_args args; Ok (v :: vs)
              end) args;
      fn vs
    end
  end.
End Resolve.

(** * Names *)

Definition quoteIdent (name : string) : go string :=
  if str_all ident_char name then Ok (quoted name)
  else Err (Panic ("lazuli: refusing to quote suspicious identifier: " +:+ name)).

(** [snakeCase], over bytes: a letter outside ASCII does not pass [quoteIdent].
    [last_out] is the last byte written, [prev] the last one read. *)
Fixpoint snake_go (first : bool) (last_out prev : option byte) (s : string) : string :=
  match s with
  | "" => ""
  | String r rest =>
    let sep := match last_out with Some l => negb (l =a? "_") | None => false end in
    if (r =a? "-") || (r =a? " ") || (r =a? ".") then
      if sep then String "_" (snake_go false (Some ("_" : byte)%char) (Some ("_" : byte)%char) rest)
      else snake_go false last_out (Some ("_" : byte)%char) rest
    else if r =a? "_" then
      if sep then String "_" (snake_go false (Some ("_" : byte)%char) (Some r) rest) else snake_go false last_out (Some r) rest
    else
      let lower := to_ascii_lowercase r in
      let boundary := is_ascii_uppercase r && negb first && negb (match prev with Some p => p =a? "_" | None => false end) in
      (if boundary then String "_" (String lower (snake_go false (Some lower) (Some r) rest))
       else String lower (snake_go false (Some lower) (Some r) rest))
  end.
Fixpoint trim_underscores_start (s : string) : string :=
  match s with String b rest => if b =a? "_" then trim_underscores_start rest else s | "" => "" end.
Fixpoint trim_underscores_end (s : string) : string :=
  match s with
  | "" => ""
  | String b rest => match trim_underscores_end rest with "" => if b =a? "_" then "" else String b "" | t => String b t end
  end.
Definition snakeCase (name : string) : string := trim_underscores_end (trim_underscores_start (snake_go true None None name)).
Definition quoteResourceTable (name : string) : go string := quoteIdent (snakeCase name).

(** * Resources *)

Inductive TenancyMode := TenancyNone | TenancyOrg | TenancyTeam | TenancyCustom.
(** [resourceErased]; the columns it stores sanitized or encrypted are behind
    [store_column]. *)
Record ResourceErased := {
  Name : string; Tenancy : TenancyMode; SoftDelete : bool; SoftDeleteActor : bool; Timestamps : bool;
  FieldReadPolicies : list (string * PolicyRuntime.GoPolicy)
}.
Definition HasColumn (r : ResourceErased) (name : string) : bool :=
  if (name =? "updated_at") || (name =? "created_at") then Timestamps r
  else if name =? "deleted_at" then SoftDelete r
  else if name =? "deleted_by" then SoftDeleteActor r
  else false.

(** * Conditions *)

Definition dollar (n : nat) : string := "$" +:+ show_N (N.of_nat n).

Definition tenantRequiredError : Fault := Error 500 CodeInternal "internal server error".
Definition baseScopeConditions (ctx : Ctx) (res : ResourceErased) (placeholderStart : nat) : go (list string * list Value) :=
  let conds := if SoftDelete res then ["deleted_at IS NULL"] else [] in
  match Tenancy res with
  | TenancyOrg =>
    match ctx_Tenant ctx with
    | None => Err tenantRequiredError
    | Some org => Ok ((conds ++ ["org_id = " +:+ dollar placeholderStart])%list, [Int org])
    end
  | _ => Ok (conds, [])
  end.

Definition whereConditionFragment (col : string) (src : Source) (placeholderIdx : nat) : go string :=
  match src with
  | FromCtxOwnedVia table owner _ =>
    c ← quoteIdent col; t ← quoteIdent table; o ← quoteIdent owner;
    Ok (c +:+ " IN (SELECT id FROM " +:+ t +:+ " WHERE " +:+ o +:+ " = " +:+ dollar placeholderIdx +:+ ")")
  | _ => c ← quoteIdent col; Ok (c +:+ " = " +:+ dollar placeholderIdx)
  end.

(** [isNilOrZero] of a value the runtime binds: no interface, a typed pointer,
    slice or map that is nil ([Ptr None]), or else [reflect.Value.IsZero]; a
    [Slice] is one that is not nil, if only empty. *)
Fixpoint is_zero (v : Value) : bool :=
  match v with
  | Nil | Ptr None => true
  | Int n => (n =? 0)%Z
  | Text s => s =? ""
  | Bool b => negb b
  | Time t => (t =? 0)%Z
  | Ptr (Some _) => false
  | Struct fields => (fix all (fs : list ((string * string) * Value)) := match fs with [] => true | f :: fs => is_zero f.2 && all fs end) fields
  | Slice _ => false
  end.
Definition isNilOrZero (v : Value) : bool := is_zero v.

(** * Queries *)

Record FilterRule := { f_Column : string; When : Source }.
Record OrderClause := { o_Column : string; Desc : bool }.
Record LookupKey := { k_Column : string; k_Source : Source }.
Inductive SearchMode := SearchContains | SearchStartsWith | SearchExact.
Record SearchSpec := { s_Source : Source; Over : list string; Mode : SearchMode }.

(** A [db]-tagged field of the row type: exported, the tag, the kind. *)
Inductive Kind := KPointer | KString | KBool | KNumber | KOther.
Record StructField := { exported : bool; db_tag : option string; kind : Kind }.

Record Query := {
  q_Name : string; q_Resource : option ResourceErased; row_type : list StructField;
  Filters : list FilterRule; Order : list OrderClause; Search : option SearchSpec; Paginate : Z; LookupBy : list LookupKey
}.

Definition dbColumnsOf (t : list StructField) : list (string * Kind) :=
  omap (fun f =>
    if exported f then
      tag ← db_tag f;
      let name := trim (match split_once "," tag with Some (h, _) => h | None => tag end) in
      if (name =? "") || (name =? "-") then None else Some (name, kind f)
    else None) t.

Definition maskedProjection (col : string * Kind) : go string :=
  c ← quoteIdent col.1;
  Ok (match col.2 with
      | KPointer | KOther => "NULL"
      | KString => "''"
      | KBool => "FALSE"
      | KNumber => "0"
      end +:+ " AS " +:+ c).

(** [replacer.Replace] of [buildSearchPattern]. *)
Fixpoint escape_pattern (s : string) : string :=
  match s with
  | "" => ""
  | String b s =>
    if (b =a? BSL) || (b =a? "%") || (b =a? "_") then String BSL (String b (escape_pattern s)) else String b (escape_pattern s)
  end.
Definition buildSearchPattern (term : string) (mode : SearchMode) : string :=
  match mode with
  | SearchStartsWith => escape_pattern term +:+ "%"
  | SearchExact => escape_pattern term
  | SearchContains => "%" +:+ escape_pattern term +:+ "%"
  end.

Definition buildOrder (order : list OrderClause) : go string :=
  match order with
  | [] => Ok "ORDER BY created_at DESC"
  | _ =>
    parts ← mapM (fun o => c ← quoteIdent (o_Column o); Ok (c +:+ " " +:+ (if Desc o then "DESC" else "ASC"))) order;
    Ok ("ORDER BY " +:+ join ", " parts)
  end.
Definition paginateOrDefault (n : Z) : N := if (n <=? 0)%Z then 100 else Z.to_N n.

Definition policy_ctx (ctx : Ctx) : PolicyRuntime.Ctx := {|
  PolicyRuntime.ctx_Actor := ctx_Actor ctx;
  PolicyRuntime.ctx_User := (fun u => {| PolicyRuntime.Roles := u_Roles u |}) <$> ctx_User ctx;
  PolicyRuntime.ctx_Tenant := bool_decide (is_Some (ctx_Tenant ctx)) |}.

Section Run.
Variable host : Host.
Variable ctx : Ctx.

(** [EvalPolicy(ctx, p) == nil] *)
Definition allows (p : PolicyRuntime.GoPolicy) : bool :=
  match PolicyRuntime.EvalPolicyInput (rbacHasRole host) (rbacHasPermission host) (policy_ctx ctx) None p with
  | Some (Ok _) => true
  | _ => false
  end.

Definition readProjection (res : ResourceErased) (rowType : list StructField) : go string :=
  match dbColumnsOf rowType with
  | [] => Ok "*"
  | cols =>
    parts ← mapM (fun col =>
      match bt_get col.1 (FieldReadPolicies res) with
      | Some pol => if allows pol then quoteIdent col.1 else maskedProjection col
      | None => quoteIdent col.1
      end) cols;
    Ok (join ", " parts)
  end.

Variable input : Value.
Abbreviation resolve := (resolveSource host ctx input).

(** [fmt.Sprint] *)
Definition sprint (v : Value) : string :=
  match v with
  | Text s => s
  | Int n => show_Z n
  | Bool b => if b then "true" else "false"
  | Nil => "<nil>"
  | v => sprint_other host v
  end.

(** The conditions so far and the values they bind. *)
Definition Scope : Type := list string * list Value.

Definition add_filter (st : Scope) (f : FilterRule) : go Scope :=
  val ← resolve (When f);
  if isNilOrZero val then Ok st
  else
    let values := (st.2 ++ [val])%list in
    c ← whereConditionFragment (f_Column f) (When f) (List.length values);
    Ok ((st.1 ++ [c])%list, values).
Definition add_search (st : Scope) (spec : option SearchSpec) : go Scope :=
  match spec with
  | None => Ok st
  | Some s =>
    match Over s with
    | [] => Ok st
    | over =>
      val ← resolve (s_Source s);
      if isNilOrZero val then Ok st
      else
        let values := (st.2 ++ [Text (buildSearchPattern (sprint val) (Mode s))])%list in
        ors ← mapM (fun col => c ← quoteIdent col; Ok (c +:+ " ILIKE " +:+ dollar (List.length values))) over;
        Ok ((st.1 ++ ["(" +:+ join " OR " ors +:+ ")"])%list, values)
    end
  end.
Definition add_key (st : Scope) (k : LookupKey) : go Scope :=
  val ← resolve (k_Source k);
  if isNilOrZero val then Err (Error 400 CodeBadRequest ("lookup key " +:+ k_Column k +:+ " is required"))
  else
    let values := (st.2 ++ [val])%list in
    c ← whereConditionFragment (k_Column k) (k_Source k) (List.length values);
    Ok ((st.1 ++ [c])%list, values).
Fixpoint fold_scope {A} (step : Scope -> A -> go Scope) (st : Scope) (l : list A) : go Scope :=
  match l with [] => Ok st | x :: l => st ← step st x; fold_scope step st l end.

Definition where_text (conds : list string) : string :=
  match conds with [] => "" | _ => " WHERE " +:+ join " AND " conds end.

Definition resourceErased (q : Query) : go ResourceErased :=
  match q_Resource q with
  | Some res => Ok res
  | None => Err (Error 500 CodeInternal ("query " +:+ q_Name q +:+ " has no resource"))
  end.

Definition buildListSQL (q : Query) : go (string * list Value) :=
  res ← resourceErased q;
  st ← baseScopeConditions ctx res 1;
  st ← fold_scope add_filter st (Filters q);
  st ← add_search st (Search q);
  projection ← readProjection res (row_type q);
  table ← quoteResourceTable (Name res);
  order ← buildOrder (Order q);
  Ok ("SELECT " +:+ projection +:+ " FROM " +:+ table +:+ where_text st.1 +:+ " " +:+ order +:+
      " LIMIT " +:+ show_N (paginateOrDefault (Paginate q)), st.2).

Definition buildLookupSQL (q : Query) : go (string * list Value) :=
  res ← resourceErased q;
  match LookupBy q with
  | [] => Err (Error 500 CodeInternal ("lookup query has no LookupBy keys: " +:+ q_Name q))
  | keys =>
    st ← baseScopeConditions ctx res 1;
    st ← fold_scope add_key st keys;
    projection ← readProjection res (row_type q);
    table ← quoteResourceTable (Name res);
    Ok ("SELECT " +:+ projection +:+ " FROM " +:+ table +:+ where_text st.1 +:+ " LIMIT 1", st.2)
  end.

(** * Effects *)

(** The bindings of a [where]: conditions after those of [st]. *)
Definition add_where (st : Scope) (cs : string * Source) : go Scope :=
  val ← resolve cs.2;
  let values := (st.2 ++ [val])%list in
  c ← whereConditionFragment cs.1 cs.2 (List.length values);
  Ok ((st.1 ++ [c])%list, values).

(** The columns a [bind] writes, each with its quoted form; an omitted optional
    input is left out. *)
Definition Bound : Type := (string * string) * Value.
Fixpoint bound_columns (l : list (string * Source)) : go (list Bound) :=
  match l with
  | [] => Ok []
  | (col, src) :: l =>
    val ← resolve src;
    match src, val with
    | FromInputOptional _, Nil => bound_columns l
    | _, _ => c ← quoteIdent col; rest ← bound_columns l; Ok (((col, c), val) :: rest)
    end
  end.

(** [sanitizeColumnValues] and [encryptColumnValues]. *)
Definition stored (res : ResourceErased) (cols : list Bound) : go (list Value) :=
  mapM (fun b => store_column host (Name res) b.1.1 b.2) cols.

Record UpdatesEffect := { u_Resource : ResourceErased; u_Where : Bindings; u_Bind : Bindings }.
Record DeletesEffect := { d_Resource : ResourceErased; d_Where : Bindings }.
Record OwnerCheckSpec := { FKColumn : string; RelatedTable : string; ThroughColumn : string }.
Record CreatesEffect := { c_Resource : ResourceErased; c_Bind : Bindings; OwnerCheck : option OwnerCheckSpec }.

Definition selectByEffectWhere (eff : UpdatesEffect) : go (string * list Value) :=
  st ← baseScopeConditions ctx (u_Resource eff) 1;
  st ← fold_scope add_where st (sortedBind (u_Where eff));
  table ← quoteResourceTable (Name (u_Resource eff));
  Ok ("SELECT * FROM " +:+ table +:+ " WHERE " +:+ join " AND " st.1 +:+ " LIMIT 1", st.2).

(** The statement of [applyUpdates]. *)
Definition applyUpdates (eff : UpdatesEffect) : go (string * list Value) :=
  let res := u_Resource eff in
  match u_Where eff, u_Bind eff with
  | [], _ => Err (Error 500 CodeInternal "updates effect requires Where bindings")
  | _, [] => Err (Error 500 CodeInternal "updates effect requires Bind bindings")
  | _, _ =>
    cols ← bound_columns (sortedBind (u_Bind eff));
    let sets := imap (fun i (b : Bound) => b.1.2 +:+ " = " +:+ dollar (S i)) cols in
    values ← stored res cols;
    let sets := if negb (bt_contains "updated_at" (sortedBind (u_Bind eff))) && HasColumn res "updated_at"
                then (sets ++ [quoted "updated_at" +:+ " = now()"])%list else sets in
    match sets with
    | [] => selectByEffectWhere eff
    | _ =>
      st ← baseScopeConditions ctx res (S (List.length values));
      st ← fold_scope add_where (st.1, values ++ st.2)%list (sortedBind (u_Where eff));
      table ← quoteResourceTable (Name res);
      Ok ("UPDATE " +:+ table +:+ " SET " +:+ join ", " sets +:+ " WHERE " +:+ join " AND " st.1 +:+ " RETURNING *", st.2)
    end
  end.

(** The statement of [applyDeletes]. *)
Definition applyDeletes (eff : DeletesEffect) : go (string * list Value) :=
  let res := d_Resource eff in
  match d_Where eff with
  | [] => Err (Error 500 CodeInternal "deletes effect requires Where bindings")
  | _ =>
    st ← baseScopeConditions ctx res 1;
    st ← fold_scope add_where st (sortedBind (d_Where eff));
    table ← quoteResourceTable (Name res);
    if SoftDelete res then
      let softSets := ([quoted "deleted_at" +:+ " = now()"] ++
        (if HasColumn res "updated_at" then [quoted "updated_at" +:+ " = now()"] else []))%list in
      let '(softSets, values) :=
        if SoftDeleteActor res then
          let values := (st.2 ++ [match ctx_User ctx with Some u => Int (ID u) | None => Nil end])%list in
          ((softSets ++ [quoted "deleted_by" +:+ " = " +:+ dollar (List.length values)])%list, values)
        else (softSets, st.2) in
      Ok ("UPDATE " +:+ table +:+ " SET " +:+ join ", " softSets +:+ " WHERE " +:+ join " AND " st.1 +:+ " RETURNING *", values)
    else Ok ("DELETE FROM " +:+ table +:+ " WHERE " +:+ join " AND " st.1 +:+ " RETURNING *", st.2)
  end.

(** The tenant [applyCreates] pins on the request. *)
Definition create_tenant (res : ResourceErased) : go (option Z) :=
  match Tenancy res, ctx_Tenant ctx with
  | TenancyOrg, None => match default_tenant host with None => Ok None | Some r => r end
  | _, tenant => Ok tenant
  end.

(** The statement of [applyCreates]; the clock is read once. *)
Definition applyCreates (eff : CreatesEffect) : go (string * list Value) :=
  let res := c_Resource eff in
  let bind := sortedBind (c_Bind eff) in
  cols ← bound_columns bind;
  tenant ← create_tenant res;
  let cols :=
    match Tenancy res, tenant with
    | TenancyOrg, Some org =>
      (cols ++ omap (fun col => if bt_contains col bind then None else Some ((col, quoted col), Int org)) ["org_id"; "org"])%list
    | _, _ => cols
    end in
  let cols := if HasColumn res "updated_at" && negb (bt_contains "updated_at" bind)
              then (cols ++ [(("updated_at", quoted "updated_at"), Time (clock ctx))])%list else cols in
  let names := List.map (fun b : Bound => b.1.2) cols in
  values ← stored res cols;
  let placeholders := imap (fun i (_ : Bound) => dollar (S i)) cols in
  match OwnerCheck eff with
  | None =>
    table ← quoteResourceTable (Name res);
    Ok ("INSERT INTO " +:+ table +:+ " (" +:+ join ", " names +:+ ") VALUES (" +:+ join ", " placeholders +:+ ") RETURNING *", values)
  | Some oc =>
    match list_find (fun b : Bound => b.1.1 = FKColumn oc) cols with
    | None => Err (Error 500 CodeInternal ("owner-check FK column not bound: " +:+ FKColumn oc))
    | Some (i, _) =>
      actor ← readCtx ctx "user.id";
      related ← quoteIdent (RelatedTable oc);
      through ← quoteIdent (ThroughColumn oc);
      table ← quoteResourceTable (Name res);
      Ok ("WITH owner_check AS (SELECT 1 FROM " +:+ related +:+ " WHERE id = " +:+ dollar (S i) +:+ " AND " +:+ through +:+ " = " +:+
          dollar (S (List.length values)) +:+ ") INSERT INTO " +:+ table +:+ " (" +:+ join ", " names +:+ ") SELECT " +:+
          join ", " placeholders +:+ " FROM owner_check RETURNING *", (values ++ [actor])%list)
    end
  end.

Record ReorderEffect := { r_Resource : ResourceErased; PositionColumn : string }.

(** The statement of [applyReorder]; an empty list runs none. *)
Definition applyReorder (eff : ReorderEffect) : go (option (string * list Value)) :=
  match readPath input "ids" with
  | Err _ => Err (Error 400 CodeBadRequest "reorder command requires an ordered `ids` list")
  | Ok (Slice []) => Ok None
  | Ok (Slice ids) =>
    table ← quoteResourceTable (Name (r_Resource eff));
    pos ← quoteIdent (PositionColumn eff);
    let tuples := imap (fun i _ => "(" +:+ dollar (S i) +:+ ", " +:+ show_N (N.of_nat i) +:+ ")") ids in
    Ok (Some ("UPDATE " +:+ table +:+ " SET " +:+ pos +:+ " = data.position FROM (VALUES " +:+ join ", " tuples +:+
        ") AS data(id, position) WHERE " +:+ table +:+ ".id = data.id", ids))
  | Ok _ => Err (Error 400 CodeBadRequest "reorder `ids` must be a list")
  end.
End Run.

(** * Running *)

(** What the driver may do with a statement: refuse it, or execute it. *)
Inductive executes (db : Db) (now : Z) (base : Row) (sql : string) (ps : list Value) : Db -> list Row -> Prop :=
| exec_select p t conds order limit out : read_stmt sql = Some (Select p t conds order limit) ->
    selects db ps p t conds order limit out -> executes db now base sql ps db out
| exec_update t sets conds db' out : read_stmt sql = Some (Update t sets conds) ->
    updates db ps now t sets conds = Some (db', out) -> executes db now base sql ps db' out
| exec_delete t conds db' out : read_stmt sql = Some (Delete t conds) ->
    deletes db ps t conds = Some (db', out) -> executes db now base sql ps db' out
| exec_insert check t cols db' out : read_stmt sql = Some (Insert check t cols) ->
    inserts db ps base check t cols = Some (db', out) -> executes db now base sql ps db' out
| exec_reposition t c tuples db' : read_stmt sql = Some (Reposition t c tuples) ->
    repositions db ps t c tuples = Some db' -> executes db now base sql ps db' [].
