(* ===== verification/RuntimeRead.v ===== *)
(** What the reading statements of the Go runtime return: the list query, the
    lookup query, and what tenancy, soft deletion and read policies keep out of
    their answers.

    The specification ([wanted], [looked_up], [visible]) is stated on rows and
    resolved values; the theorems compare it with the execution of the text the
    runtime writes, read back by [SqlRows.read_stmt]. *)
From Stdlib Require Import Sorted Btauto.
From stdpp Require Import gmap.
From S2P Require Import Prelude Str BTree Fmt Casing SqlRows RuntimeSql.
From S2P Require PolicyRuntime.

(** Peel a [?] off a hypothesis that a computation succeeded. *)
Ltac step_ok H E := first [apply bind_Ok in H as (? & E & H) | destruct (bind_Ok _ _ _ H) as (? & E & H)].

(** * Identifiers *)

Lemma quoteIdent_Ok c q : quoteIdent c = Ok q <-> str_all ident_char c = true /\ q = quoted c.
Proof. unfold quoteIdent. destruct (str_all ident_char c); naive_solver. Qed.

(** [injection] would compute the strings. *)
Lemma Ok_pair {E A B} (a c : A) (b d : B) : @Ok E _ (a, b) = Ok (c, d) -> a = c /\ b = d.
Proof. naive_solver. Qed.

(** [mapM] of a fallible function succeeds element by element. *)
Lemma mapM_Ok {E A B} (f : A -> result E B) l k : mapM f l = Ok k -> Forall2 (fun x y => f x = Ok y) l k.
Proof.
  revert k. induction l as [|x l IH]; intros k H.
  - injection H as <-. constructor.
  - change (mapM f (x :: l)) with (y ← f x; ys ← mapM f l; Ok (y :: ys)) in H. step_ok H Ex. step_ok H El. injection H as <-.
    constructor; [done|by apply IH].
Qed.

(** * What a condition asks of a row *)

(** The condition [whereConditionFragment] writes, on the value it binds. *)
Definition bound_match (db : Db) (row : Row) (col : string) (src : Source) (v : Value) : bool :=
  match src with
  | FromCtxOwnedVia t owner _ =>
    existsb (fun r => bool_decide (sql_eq (cell r owner) v = Some true) && bool_decide (sql_eq (cell row col) (cell r "id") = Some true))
      (from_option rows [] (db !! t))
  | _ => bool_decide (sql_eq (cell row col) v = Some true)
  end.
Definition bound_names (db : Db) (t : Table) (col : string) (src : Source) : bool :=
  match src with
  | FromCtxOwnedVia t' owner _ => cond_names db t (OwnedIn col t' owner 0)
  | _ => bool_decide (col ∈ columns t)
  end.

Definition live (res : ResourceErased) (row : Row) : bool :=
  negb (SoftDelete res) || match cell row "deleted_at" with Nil => true | _ => false end.
Definition of_tenant (org : Z) (row : Row) : bool := bool_decide (sql_eq (cell row "org_id") (Int org) = Some true).
(** Not deleted, and of the tenant of the request. *)
Definition visible (ctx : Ctx) (res : ResourceErased) (row : Row) : bool :=
  live res row &&
  match Tenancy res with
  | TenancyOrg => match ctx_Tenant ctx with Some org => of_tenant org row | None => false end
  | _ => true
  end.
Definition base_names (res : ResourceErased) (t : Table) : bool :=
  (negb (SoftDelete res) || bool_decide ("deleted_at" ∈ columns t)) &&
  match Tenancy res with TenancyOrg => bool_decide ("org_id" ∈ columns t) | _ => true end.

Lemma any3_true l : any3 l = Some true <-> In (Some true) l.
Proof.
  unfold any3. induction l as [|o l IH]; cbn; [done|]. rewrite <-IH. destruct o as [[|]|]; cbn.
  - split; [by left|done].
  - destruct (foldr or3 (Some false) l) as [[|]|]; naive_solver.
  - destruct (foldr or3 (Some false) l) as [[|]|]; naive_solver.
Qed.

Lemma holds_app db ps cs1 cs2 row : holds db ps (cs1 ++ cs2) row = holds db ps cs1 row && holds db ps cs2 row.
Proof. apply forallb_app. Qed.

Lemma param_app ps v more : param ((ps ++ [v]) ++ more) (List.length (ps ++ [v])) = v.
Proof.
  unfold param. rewrite length_app. cbn [List.length]. rewrite <-(assoc_L app), lookup_app_r by lia.
  replace (List.length ps + 1 - 1 - List.length ps) with 0 by lia. done.
Qed.

(** The scope [st] asks [P] of a row, whatever values are bound after its own,
    and names what [N] requires of the schema. *)
Definition means (st : Scope) (P : Db -> Row -> bool) (N : Db -> Table -> bool) : Prop :=
  exists cs, Forall2 (reads sql_cond) st.1 cs /\
    (forall db more row, holds db (st.2 ++ more) cs row = P db row) /\
    (forall db t, forallb (cond_names db t) cs = N db t).

Lemma means_ext st P N P' N' : means st P N -> (forall db row, P db row = P' db row) -> (forall db t, N db t = N' db t) -> means st P' N'.
Proof. intros (cs & Hr & HP & HN) EP EN. exists cs. split; [done|]. split; [intros; by rewrite HP|intros; by rewrite HN]. Qed.

(** One condition more, on one value more. *)
Lemma means_snoc st P N text c v Q M : means st P N -> reads sql_cond text c ->
  (forall db more row, bool_decide (eval_cond db ((st.2 ++ [v]) ++ more) row c = Some true) = Q db row) ->
  (forall db t, cond_names db t c = M db t) ->
  means ((st.1 ++ [text])%list, (st.2 ++ [v])%list) (fun db row => P db row && Q db row) (fun db t => N db t && M db t).
Proof.
  intros (cs & Hr & HP & HN) Ht HQ HM. exists (cs ++ [c])%list. cbn. split; [|split].
  - apply Forall2_app; [done|]. by constructor.
  - intros db more row. rewrite holds_app. unfold holds at 2. cbn [forallb]. rewrite andb_true_r, HQ.
    rewrite <-(assoc_L app). by rewrite HP.
  - intros db t. rewrite forallb_app. cbn. by rewrite andb_true_r, HN, HM.
Qed.

Lemma fragment_reads col src n text : whereConditionFragment col src n = Ok text ->
  exists c, reads sql_cond text c /\
    match src with FromCtxOwnedVia t o _ => c = OwnedIn col t o n | _ => c = Equals col n end.
Proof.
  unfold whereConditionFragment, dollar. intros H. destruct src;
    try (step_ok H E; apply quoteIdent_Ok in E as [Hc ->]; injection H as <-; eexists; split; [by apply reads_equals|done]).
  step_ok H E1. apply quoteIdent_Ok in E1 as [Hc ->]. step_ok H E2. apply quoteIdent_Ok in E2 as [Ht ->].
  step_ok H E3. apply quoteIdent_Ok in E3 as [Ho ->]. injection H as <-. eexists. split; [by apply reads_owned_in|done].
Qed.

Lemma eval_fragment db ps v more row col src c :
  match src with FromCtxOwnedVia t o _ => c = OwnedIn col t o (List.length (ps ++ [v])) | _ => c = Equals col (List.length (ps ++ [v])) end ->
  bool_decide (eval_cond db ((ps ++ [v]) ++ more) row c = Some true) = bound_match db row col src v.
Proof.
  destruct src; intros ->; cbn [eval_cond bound_match]; rewrite ?param_app; try done.
  apply eq_true_iff_eq. rewrite bool_decide_eq_true, any3_true, in_map_iff, existsb_exists. split.
  - intros (r & E & Hin). apply filter_In in Hin as [Hin Hf]. exists r. rewrite Hf. split; [done|].
    by apply bool_decide_eq_true.
  - intros (r & Hin & [Hf E]%andb_true_iff). exists r. split; [by apply bool_decide_eq_true in E|]. by apply filter_In.
Qed.

Lemma means_fragment st P N col src v text : means st P N ->
  whereConditionFragment col src (List.length (st.2 ++ [v])) = Ok text ->
  means ((st.1 ++ [text])%list, (st.2 ++ [v])%list) (fun db row => P db row && bound_match db row col src v)
    (fun db t => N db t && bound_names db t col src).
Proof.
  intros HP H. apply fragment_reads in H as (c & Hr & Hc). apply (means_snoc st P N text c v); [done|done| |].
  - intros db more row. by apply eval_fragment.
  - intros db t. by destruct src; subst c.
Qed.

(** The base scope, after the values bound so far. *)
Lemma means_base ctx res vs st : baseScopeConditions ctx res (S (List.length vs)) = Ok st ->
  means (st.1, vs ++ st.2)%list (fun _ row => visible ctx res row) (fun _ t => base_names res t).
Proof.
  intros H. unfold baseScopeConditions in H.
  assert (Hd : means ((if SoftDelete res then ["deleted_at IS NULL"] else []), vs) (fun _ row => live res row)
    (fun _ t => negb (SoftDelete res) || bool_decide ("deleted_at" ∈ columns t))).
  { unfold live. destruct (SoftDelete res); [exists [IsNull "deleted_at"]|exists []]; cbn; (split; [|split]).
    - constructor; [apply reads_deleted|constructor].
    - intros db more row. unfold holds. cbn. rewrite andb_true_r. by destruct (cell row "deleted_at").
    - intros. by rewrite andb_true_r.
    - constructor.
    - done.
    - done. }
  unfold visible, base_names, of_tenant. destruct (Tenancy res).
  2: { destruct (ctx_Tenant ctx) as [org|]; [|done]. injection H as <-. cbn [fst snd].
    replace (S (List.length vs)) with (List.length (vs ++ [Int org])) by (rewrite length_app; cbn; lia).
    refine (means_snoc (_, vs) _ _ _ (Equals "org_id" (List.length (vs ++ [Int org]))) (Int org) _ _ Hd _ _ _).
    - apply reads_org.
    - intros db more row. cbn [eval_cond snd]. by rewrite param_app.
    - done. }
  all: injection H as <-; cbn [fst snd]; rewrite app_nil_r; refine (means_ext _ _ _ _ _ Hd _ _); intros; by rewrite andb_true_r.
Qed.

(** * Search *)

(** A stored text matches a term, case aside. *)
Definition search_match (mode : SearchMode) (term s : string) : bool :=
  let term := lower_ascii term in
  let s := lower_ascii s in
  match mode with
  | SearchContains => contains term s
  | SearchStartsWith => starts_with term s
  | SearchExact => term =? s
  end.

Definition tokens_of (term : string) : list pattern_token := List.map Literal (list_ascii_of_string term).

Lemma pattern_tokens_escape term p ts : pattern_tokens p = Some ts -> pattern_tokens (escape_pattern term +:+ p) = Some (tokens_of term ++ ts)%list.
Proof.
  intros H. induction term as [|b term IH]; cbn [escape_pattern String.append tokens_of list_ascii_of_string List.map app]; [done|].
  destruct (b =a? BSL) eqn:E1; cbn [orb].
  - cbn [String.append pattern_tokens]. cbn. by rewrite IH.
  - destruct ((b =a? "%") || (b =a? "_")) eqn:E2.
    + cbn [String.append pattern_tokens]. cbn. by rewrite IH.
    + apply orb_false_iff in E2 as [E2 E3]. cbn [String.append pattern_tokens]. by rewrite E1, E2, E3, IH.
Qed.

Lemma token_match_literals term ts s : token_match (tokens_of term ++ ts) s =
  starts_with (lower_ascii term) (lower_ascii s) && token_match ts (str_drop (str_len term) s).
Proof.
  revert s. induction term as [|b term IH]; intros s; [done|]. destruct s as [|c s]; [done|].
  cbn [tokens_of list_ascii_of_string List.map app token_match lower_ascii starts_with str_len str_drop]. change (List.map Literal (list_ascii_of_string term)) with (tokens_of term). rewrite IH.
  unfold same_letter. by destruct (to_ascii_lowercase b =a? to_ascii_lowercase c).
Qed.

Lemma some_suffix_true f s : f "" = true -> some_suffix f s = true.
Proof. intros H. induction s as [|b s IH]; cbn; [by rewrite H|]. rewrite IH. apply orb_true_r. Qed.

Lemma match_any_text s : token_match [AnyText] s = true.
Proof. cbn. apply some_suffix_true. done. Qed.

Lemma some_suffix_contains f term s : (forall s, f s = starts_with term (lower_ascii s)) -> some_suffix f s = contains term (lower_ascii s).
Proof.
  intros H. induction s as [|b s IH]; cbn [some_suffix]; rewrite H.
  - cbn. rewrite orb_false_r. by destruct term.
  - rewrite IH. cbn [lower_ascii]. unfold contains. cbn [str_find]. destruct (starts_with term (String (to_ascii_lowercase b) (lower_ascii s))) eqn:E; [done|].
    by destruct (str_find term (lower_ascii s)).
Qed.

Lemma lower_exact term s : starts_with (lower_ascii term) (lower_ascii s) && (str_drop (str_len term) s =? "") = (lower_ascii term =? lower_ascii s).
Proof.
  revert s. induction term as [|b term IH]; intros s; [by destruct s|]. destruct s as [|c s]; [done|].
  cbn [lower_ascii starts_with str_len str_drop String.eqb]. rewrite <-andb_assoc, IH.
  by destruct (to_ascii_lowercase b =a? to_ascii_lowercase c).
Qed.

(** A search finds exactly the texts that contain (start with, are) the
    term, case aside: the characters [ILIKE] interprets are escaped. *)
Lemma search_pattern_exact mode term s : ilike (Text s) (Text (buildSearchPattern term mode)) = Some (search_match mode term s).
Proof.
  assert (Hpre : forall s, token_match (tokens_of term ++ [AnyText]) s = starts_with (lower_ascii term) (lower_ascii s)).
  { intros s'. by rewrite token_match_literals, match_any_text, andb_true_r. }
  assert (Hesc : pattern_tokens (escape_pattern term +:+ "%") = Some (tokens_of term ++ [AnyText])%list) by by apply pattern_tokens_escape.
  destruct mode; cbn [ilike buildSearchPattern search_match].
  - cbn [String.append pattern_tokens]. cbn -[token_match]. rewrite Hesc. cbn -[token_match]. f_equal.
    cbn [token_match]. by apply some_suffix_contains.
  - rewrite Hesc. cbn -[token_match]. by rewrite Hpre.
  - rewrite <-(sapp_nil_r (escape_pattern term)), (pattern_tokens_escape term "" []) by done.
    cbn -[token_match]. rewrite token_match_literals. cbn [token_match]. f_equal. apply lower_exact.
Qed.

(** * The scope of a query *)

Section Scope.
Variable host : Host.
Variable ctx : Ctx.
Variable input : Value.
Abbreviation resolve := (resolveSource host ctx input).

(** A binding that resolves to [v] compares the column with [v]. *)
Definition binding_match (db : Db) (row : Row) (cs : string * Source) : bool :=
  match resolve cs.2 with Ok v => bound_match db row cs.1 cs.2 v | Err _ => false end.
(** An unset filter asks nothing. *)
Definition filter_match (db : Db) (row : Row) (f : FilterRule) : bool :=
  match resolve (When f) with
  | Ok v => isNilOrZero v || bound_match db row (f_Column f) (When f) v
  | Err _ => false
  end.
Definition filter_names (db : Db) (t : Table) (f : FilterRule) : bool :=
  match resolve (When f) with Ok v => isNilOrZero v || bound_names db t (f_Column f) (When f) | Err _ => false end.
Definition text_match (mode : SearchMode) (term : string) (v : Value) : bool :=
  match v with Text s => search_match mode term s | _ => false end.
Definition search_rows (spec : option SearchSpec) (row : Row) : bool :=
  match spec with
  | None => true
  | Some s =>
    match Over s, resolve (s_Source s) with
    | [], _ => true
    | over, Ok v => isNilOrZero v || existsb (fun col => text_match (Mode s) (sprint host v) (cell row col)) over
    | _, Err _ => false
    end
  end.
Definition search_names (spec : option SearchSpec) (t : Table) : bool :=
  match spec with
  | None => true
  | Some s =>
    match Over s, resolve (s_Source s) with
    | [], _ => true
    | over, Ok v => isNilOrZero v || forallb (fun col => bool_decide (col ∈ columns t)) over
    | _, Err _ => false
    end
  end.

Lemma means_bindings l : forall st st' P N, means st P N -> fold_scope (add_where host ctx input) st l = Ok st' ->
  means st' (fun db row => P db row && forallb (binding_match db row) l) (fun db t => N db t && forallb (fun cs => bound_names db t cs.1 cs.2) l) /\
  List.length st'.1 = List.length st.1 + List.length l.
Proof.
  induction l as [|cs l IH]; intros st st' P N HP H; cbn [fold_scope] in H.
  - injection H as <-. split; [|cbn; lia]. refine (means_ext _ _ _ _ _ HP _ _); intros; by rewrite andb_true_r.
  - step_ok H E. unfold add_where in E. step_ok E Ev. step_ok E Et. injection E as <-.
    apply (IH _ _ _ _ (means_fragment _ _ _ _ _ _ _ HP Et)) in H as [Hm Hl]. split.
    + refine (means_ext _ _ _ _ _ Hm _ _); intros; cbn [forallb]; unfold binding_match; rewrite ?Ev; by rewrite andb_assoc.
    + rewrite Hl. cbn. rewrite length_app. cbn. lia.
Qed.

Lemma filter_Ok db t row f v : resolve (When f) = Ok v ->
  filter_match db row f = isNilOrZero v || bound_match db row (f_Column f) (When f) v /\
  filter_names db t f = isNilOrZero v || bound_names db t (f_Column f) (When f).
Proof. intros E. unfold filter_match, filter_names. by rewrite E. Qed.

Lemma means_filters l : forall st st' P N, means st P N -> fold_scope (add_filter host ctx input) st l = Ok st' ->
  means st' (fun db row => P db row && forallb (filter_match db row) l) (fun db t => N db t && forallb (filter_names db t) l).
Proof.
  induction l as [|f l IH]; intros st st' P N HP H; cbn [fold_scope] in H.
  - injection H as <-. refine (means_ext _ _ _ _ _ HP _ _); intros; by rewrite andb_true_r.
  - step_ok H E. unfold add_filter in E. step_ok E Ev. destruct (isNilOrZero _) eqn:Hz.
    + injection E as <-. refine (means_ext _ _ _ _ _ (IH _ _ _ _ HP H) _ _); intros; cbn [forallb];
        rewrite ?(proj1 (filter_Ok _ {| columns := []; rows := [] |} _ _ _ Ev)), ?(proj2 (filter_Ok _ _ ∅ _ _ Ev)); by rewrite Hz.
    + step_ok E Et. injection E as <-. refine (means_ext _ _ _ _ _ (IH _ _ _ _ (means_fragment _ _ _ _ _ _ _ HP Et) H) _ _);
        intros; cbn [forallb];
        rewrite ?(proj1 (filter_Ok _ {| columns := []; rows := [] |} _ _ _ Ev)), ?(proj2 (filter_Ok _ _ ∅ _ _ Ev)); rewrite Hz; by rewrite andb_assoc.
Qed.

(** A key that resolves to nothing is an error. *)
Lemma means_keys l : forall st st' P N, means st P N -> fold_scope (add_key host ctx input) st l = Ok st' ->
  means st' (fun db row => P db row && forallb (fun k => binding_match db row (k_Column k, k_Source k)) l)
    (fun db t => N db t && forallb (fun k => bound_names db t (k_Column k) (k_Source k)) l) /\
  Forall (fun k => exists v, resolve (k_Source k) = Ok v /\ isNilOrZero v = false) l.
Proof.
  induction l as [|k l IH]; intros st st' P N HP H; cbn [fold_scope] in H.
  - injection H as <-. split; [|constructor]. refine (means_ext _ _ _ _ _ HP _ _); intros; by rewrite andb_true_r.
  - step_ok H E. unfold add_key in E. step_ok E Ev. destruct (isNilOrZero _) eqn:Hz; [done|]. step_ok E Et. injection E as <-.
    apply (IH _ _ _ _ (means_fragment _ _ _ _ _ _ _ HP Et)) in H as [Hm Hl]. split; [|constructor; eauto].
    refine (means_ext _ _ _ _ _ Hm _ _); intros; cbn [forallb]; unfold binding_match; cbn [fst snd]; rewrite ?Ev; by rewrite andb_assoc.
Qed.

Lemma mapM_quote l n ors : mapM (fun col => c ← quoteIdent col; Ok (c +:+ " ILIKE " +:+ dollar n)) l = Ok ors ->
  Forall (fun c => str_all ident_char c = true) l /\ ors = List.map (fun c => quoted c +:+ " ILIKE " +:+ ("$" +:+ show_N (N.of_nat n))) l.
Proof.
  intros H%mapM_Ok. induction H as [|c q l ors Hq H [IH ->]]; [done|]. step_ok Hq E. apply quoteIdent_Ok in E as [Hc ->].
  injection Hq as <-. by split; [constructor|].
Qed.

Lemma means_search spec st st' P N : means st P N -> add_search host ctx input st spec = Ok st' ->
  means st' (fun db row => P db row && search_rows spec row) (fun db t => N db t && search_names spec t).
Proof.
  intros HP H. unfold add_search in H. unfold search_rows, search_names. destruct spec as [s|].
  2: { injection H as <-. refine (means_ext _ _ _ _ _ HP _ _); intros; by rewrite andb_true_r. }
  destruct (Over s) as [|c over] eqn:Ho.
  { injection H as <-. refine (means_ext _ _ _ _ _ HP _ _); intros; by rewrite andb_true_r. }
  step_ok H Ev. rewrite Ev. destruct (isNilOrZero _) eqn:Hz.
  { injection H as <-. refine (means_ext _ _ _ _ _ HP _ _); intros; by rewrite andb_true_r. }
  step_ok H E. injection H as <-. apply mapM_quote in E as [Hc ->].
  refine (means_snoc _ _ _ _ (Matches (c :: over) (List.length (st.2 ++ [_]))) _ _ _ HP _ _ _).
  - by apply reads_matches.
  - intros db more row. cbn [eval_cond orb]. rewrite param_app. apply eq_true_iff_eq.
    rewrite bool_decide_eq_true, any3_true, in_map_iff, existsb_exists.
    assert (Ht : forall col, ilike (cell row col) (Text (buildSearchPattern (sprint host x) (Mode s))) = Some true <->
      text_match (Mode s) (sprint host x) (cell row col) = true).
    { intros col. unfold text_match. destruct (cell row col); try done. rewrite search_pattern_exact. split; congruence. }
    split; intros (col & H1 & H2); exists col; by rewrite Ht in *.
  - done.
Qed.

(** * The statement of a query *)

Definition zero_of (k : Kind) : Value := match k with KPointer | KOther => Nil | KString => Text "" | KBool => Bool false | KNumber => Int 0 end.
(** A field with a read policy the actor does not satisfy is a constant. *)
Definition item_of (res : ResourceErased) (col : string * Kind) : Item :=
  match bt_get col.1 (FieldReadPolicies res) with
  | Some pol => if allows host ctx pol then Column col.1 else Constant (zero_of col.2) col.1
  | None => Column col.1
  end.
Definition projection_of (res : ResourceErased) (rowType : list StructField) : Projection :=
  match dbColumnsOf rowType with [] => Star | cols => Items (List.map (item_of res) cols) end.

Lemma reads_masked col text : maskedProjection col = Ok text -> reads sql_item text (Constant (zero_of col.2) col.1) /\ strip_prefix "*" text = None.
Proof.
  unfold maskedProjection. intros H. step_ok H E. apply quoteIdent_Ok in E as [Hc ->]. injection H as <-.
  destruct col as [c []]; cbn [fst snd zero_of]; (split; [apply reads_constant; [constructor|done]|done]).
Qed.

Lemma reads_projected col text c : quoteIdent col = Ok text -> c = Column col -> reads sql_item text c /\ strip_prefix "*" text = None.
Proof. intros [Hc ->]%quoteIdent_Ok ->. split; [by apply reads_item_column|done]. Qed.

Lemma strip_star a b : a <> "" -> strip_prefix "*" a = None -> strip_prefix "*" (a +:+ b) = None.
Proof.
  destruct a as [|c a]; [done|]. unfold strip_prefix. intros _ H. change (String c a +:+ b) with (String c (a +:+ b)).
  cbn [starts_with] in *. rewrite andb_true_r in *. by case_in H.
Qed.

Lemma readProjection_reads res t text rest : readProjection host ctx res t = Ok text ->
  strip_prefix ", " rest = None -> digit_head rest = false -> sql_projection (text +:+ rest) = Some (projection_of res t, rest).
Proof.
  unfold readProjection, projection_of. intros H Hr Hd. destruct (dbColumnsOf t) as [|col cols].
  - injection H as <-. unfold sql_projection. by rewrite strip_prefix_app.
  - step_ok H E. injection H as <-. apply mapM_Ok in E.
    assert (Hi : Forall2 (fun col text => reads sql_item text (item_of res col) /\ strip_prefix "*" text = None) (col :: cols) x).
    { eapply Forall2_impl; [exact E|]. intros c q. unfold item_of. destruct (bt_get c.1 (FieldReadPolicies res)) as [pol|]; intros Hq.
      - destruct (allows host ctx pol); [by eapply reads_projected|by apply reads_masked].
      - by eapply reads_projected. }
    unfold sql_projection. inversion Hi as [|? q ? qs [Hq Hs] Hqs]; subst.
    assert (strip_prefix "*" (join ", " (q :: qs) +:+ rest) = None) as ->.
    { destruct qs; [|rewrite join_cons by done; rewrite sapp_assoc]; apply strip_star; by try destruct Hq. }
    rewrite (sql_list_len sql_item ", " (q :: qs) (List.map (item_of res) (col :: cols))); try done.
    clear -Hi. remember (col :: cols) as l eqn:El. clear El. induction Hi as [|c' q' l qs' [H _] Hi IH]; cbn; by constructor.
Qed.

Definition order_keys (order : list OrderClause) : list (string * bool) :=
  match order with [] => [("created_at", true)] | _ => List.map (fun o => (o_Column o, Desc o)) order end.

Lemma buildOrder_reads order text : buildOrder order = Ok text ->
  exists keys, text = "ORDER BY " +:+ join ", " keys /\ Forall2 (reads sql_key) keys (order_keys order) /\ keys <> [].
Proof.
  unfold buildOrder, order_keys. intros H. destruct order as [|o order].
  - injection H as <-. exists ["created_at DESC"]. split; [done|]. split; [|done]. constructor; [apply reads_created_at|constructor].
  - step_ok H E. injection H as <-. apply mapM_Ok in E. exists x. split; [done|]. split; [|by inversion E].
    remember (o :: order) as l eqn:El. clear El. induction E as [|c q l qs Hq E IH]; cbn; constructor; [|done].
    step_ok Hq Ec. apply quoteIdent_Ok in Ec as [Hc ->]. injection Hq as <-. by apply reads_key.
Qed.

Lemma where_reads st P N rest : means st P N -> strip_prefix " WHERE " rest = None -> strip_prefix " AND " rest = None -> digit_head rest = false ->
  exists conds, sql_where (where_text st.1 +:+ rest) = Some (conds, rest) /\
    (forall db row, holds db st.2 conds row = P db row) /\ (forall db t, forallb (cond_names db t) conds = N db t).
Proof.
  intros (cs & Hr & HP & HN) Hw Ha Hd. exists cs. split; [|split; [|done]].
  - unfold sql_where, where_text. destruct st.1 as [|c conds].
    + inversion Hr; subst. cbn. by rewrite Hw.
    + rewrite sapp_assoc, strip_prefix_app. unfold sql_conds. by apply sql_list_len.
  - intros db row. rewrite <-HP with (more := []). by rewrite app_nil_r.
Qed.

Lemma table_reads name table : quoteResourceTable name = Ok table -> reads sql_ident_tok table (snakeCase name).
Proof. intros [Hc ->]%quoteIdent_Ok. by apply reads_ident. Qed.

Definition limit_of (q : Query) : nat := N.to_nat (paginateOrDefault (Paginate q)).
End Scope.

(** * The list query *)

(** The rows a list query asks for. *)
Definition wanted (host : Host) (ctx : Ctx) (args : Value) (q : Query) (res : ResourceErased) (db : Db) (row : Row) : bool :=
  visible ctx res row && forallb (filter_match host ctx args db row) (Filters q) && search_rows host ctx args (Search q) row.
Definition list_names (host : Host) (ctx : Ctx) (args : Value) (q : Query) (res : ResourceErased) (db : Db) (t : Table) : bool :=
  base_names res t && forallb (filter_names host ctx args db t) (Filters q) && search_names host ctx args (Search q) t.

(** Its answers: the first of the rows asked for, in the order asked for, as
    far as the actor may read them. *)
Definition list_answer (host : Host) (ctx : Ctx) (args : Value) (q : Query) (res : ResourceErased) (db : Db) (out : list Row) : Prop :=
  exists t sorted, db !! snakeCase (Name res) = Some t /\ list_names host ctx args q res db t = true /\
    sorted ≡ₚ List.filter (wanted host ctx args q res db) (rows t) /\
    StronglySorted (fun a b => order_le (order_keys (Order q)) a b = true) sorted /\
    out = List.map (project (projection_of host ctx res (row_type q))) (take (limit_of q) sorted).

Lemma filter_ext_in {A} (f g : A -> bool) l : (forall x, f x = g x) -> List.filter f l = List.filter g l.
Proof. intros H. induction l as [|x l IH]; cbn; [done|]. by rewrite H, IH. Qed.

Lemma list_reads host ctx args q res sql ps : q_Resource q = Some res -> buildListSQL host ctx args q = Ok (sql, ps) ->
  exists conds, read_stmt sql =
      Some (Select (projection_of host ctx res (row_type q)) (snakeCase (Name res)) conds (order_keys (Order q)) (limit_of q)) /\
    (forall db row, holds db ps conds row = wanted host ctx args q res db row) /\
    (forall db t, forallb (cond_names db t) conds = list_names host ctx args q res db t).
Proof.
  unfold buildListSQL, resourceErased. intros -> H. cbn [mbind result_bind] in H.
  step_ok H Eb. step_ok H Ef. step_ok H Es. step_ok H Ep. step_ok H Et. step_ok H Eo. apply Ok_pair in H as [<- <-].
  apply (means_base _ _ []) in Eb. rewrite app_nil_l, <-surjective_pairing in Eb.
  apply (means_filters _ _ _ _ _ _ _ _ Eb) in Ef. apply (means_search _ _ _ _ _ _ _ _ Ef) in Es.
  apply buildOrder_reads in Eo as (keys & -> & Hk & Hne). apply table_reads in Et.
  set (lim := " LIMIT " +:+ show_N (paginateOrDefault (Paginate q))).
  destruct (where_reads _ _ _ (" ORDER BY " +:+ join ", " keys +:+ lim) Es eq_refl eq_refl eq_refl) as (conds & Hw & HP & HN).
  exists conds. split; [|done]. unfold read_stmt, read_select. rewrite strip_prefix_app. cbn [mbind option_bind].
  rewrite (readProjection_reads _ _ _ _ _ _ Ep) by done. cbn [mbind option_bind]. rewrite strip_prefix_app. cbn [mbind option_bind].
  rewrite (proj2 Et) by (destruct x1 as [[|]]; done). cbn [mbind option_bind].
  change (" " +:+ ("ORDER BY " +:+ join ", " keys) +:+ lim) with (" ORDER BY " +:+ join ", " keys +:+ lim). rewrite Hw. cbn [mbind option_bind].
  rewrite strip_prefix_app, (sql_list_len sql_key ", " keys (order_keys (Order q))) by done. cbn [mbind option_bind].
  unfold lim. rewrite strip_prefix_app. cbn [mbind option_bind].
  rewrite <-(N2Nat.id (paginateOrDefault (Paginate q))), <-(sapp_nil_r (show_N _)), sql_number_show by done. cbn [mbind option_bind]. done.
Qed.

Lemma executes_select db now base sql ps p t conds order limit db' out : read_stmt sql = Some (Select p t conds order limit) ->
  executes db now base sql ps db' out <-> db' = db /\ selects db ps p t conds order limit out.
Proof.
  intros H. split.
  - intros He; inversion He; by simplify_eq.
  - intros [-> Hs]. by eapply exec_select.
Qed.

Lemma list_query_spec host ctx args q res sql ps : q_Resource q = Some res -> buildListSQL host ctx args q = Ok (sql, ps) ->
  is_Some (read_stmt sql) /\
  forall db now base db' out, executes db now base sql ps db' out <-> db' = db /\ list_answer host ctx args q res db out.
Proof.
  intros Hres H. destruct (list_reads _ _ _ _ _ _ _ Hres H) as (conds & Hr & HP & HN). split; [by eauto|].
  intros db now base db' out. rewrite (executes_select _ _ _ _ _ _ _ _ _ _ _ _ Hr). unfold selects, list_answer.
  split; intros [-> (t & sorted & Ht & Hn & Hp & Ho)]; (split; [done|]); exists t, sorted; rewrite HN in *; (split; [done|]; split; [done|]); split; try done;
    [rewrite <-(filter_ext_in (holds db ps conds)) by apply HP|rewrite (filter_ext_in (holds db ps conds) _ _ (HP db))]; done.
Qed.

(** the statement of a list query is one the database reads, and executing
    it leaves the database as it is and returns the rows the query asks for:
    not deleted, of the tenant of the request, matching every filter that is
    set and the search; in the order declared, up to the page size, and with
    constants for the columns the actor may not read. *)
Theorem list_query_exact host ctx args q res sql ps : q_Resource q = Some res -> buildListSQL host ctx args q = Ok (sql, ps) ->
  is_Some (read_stmt sql) /\
  forall db now base db' out, executes db now base sql ps db' out <-> db' = db /\ list_answer host ctx args q res db out.
Proof. apply list_query_spec. Qed.

(** A [LIMIT 1] without an order returns any of the rows. *)
Lemma selects_first db ps p t conds out : selects db ps p t conds [] 1 out <->
  exists tab, db !! t = Some tab /\ forallb (cond_names db tab) conds = true /\
    match out with
    | [] => List.filter (holds db ps conds) (rows tab) = []
    | [r] => exists row, In row (rows tab) /\ holds db ps conds row = true /\ r = project p row
    | _ => False
    end.
Proof.
  unfold selects. split.
  - intros (tab & sorted & Ht & Hn & Hp & Hs & ->). exists tab. split; [done|]. split; [done|].
    destruct sorted as [|row sorted]; cbn [take List.map]; [by apply Permutation_nil_l in Hp|].
    rewrite firstn_O. cbn. exists row. assert (Hin : In row (List.filter (holds db ps conds) (rows tab))).
    { eapply Permutation_in; [exact Hp|by left]. } apply filter_In in Hin. naive_solver.
  - intros (tab & Ht & Hn & Ho). exists tab. destruct out as [|r [|]]; [|destruct Ho as (row & Hin & Hl & ->)|done].
    + exists []. rewrite Ho. repeat split; try done. constructor.
    + assert (Hf : In row (List.filter (holds db ps conds) (rows tab))) by by apply filter_In.
      apply in_split in Hf as (a & b & Hf). exists (row :: a ++ b)%list. rewrite Hf. split; [done|]. split; [done|].
      split; [by rewrite Permutation_middle|]. split; [|cbn; by rewrite firstn_O].
      clear. generalize (row :: a ++ b)%list. intros l. induction l; constructor; [done|]. by apply Forall_forall.
Qed.

(** * The lookup query *)

Definition looked_up (host : Host) (ctx : Ctx) (args : Value) (q : Query) (res : ResourceErased) (db : Db) (row : Row) : bool :=
  visible ctx res row && forallb (fun k => binding_match host ctx args db row (k_Column k, k_Source k)) (LookupBy q).
Definition lookup_names (q : Query) (res : ResourceErased) (db : Db) (t : Table) : bool :=
  base_names res t && forallb (fun k => bound_names db t (k_Column k) (k_Source k)) (LookupBy q).

Lemma lookup_reads host ctx args q res sql ps : q_Resource q = Some res -> buildLookupSQL host ctx args q = Ok (sql, ps) ->
  (exists conds, read_stmt sql = Some (Select (projection_of host ctx res (row_type q)) (snakeCase (Name res)) conds [] 1) /\
    (forall db row, holds db ps conds row = looked_up host ctx args q res db row) /\
    (forall db t, forallb (cond_names db t) conds = lookup_names q res db t)) /\
  Forall (fun k => exists v, resolveSource host ctx args (k_Source k) = Ok v /\ isNilOrZero v = false) (LookupBy q).
Proof.
  unfold buildLookupSQL, resourceErased, looked_up, lookup_names. intros -> H. cbn [mbind result_bind] in H.
  remember (LookupBy q) as keys eqn:Ek. clear Ek. destruct keys as [|k keys]; [done|]. remember (k :: keys) as ks eqn:Ek. clear Ek.
  step_ok H Eb. step_ok H Ef. step_ok H Ep. step_ok H Et. apply Ok_pair in H as [<- <-].
  apply (means_base _ _ []) in Eb. rewrite app_nil_l, <-surjective_pairing in Eb.
  apply (means_keys _ _ _ _ _ _ _ _ Eb) in Ef as [Ef Hk]. split; [|done]. apply table_reads in Et.
  destruct (where_reads _ _ _ " LIMIT 1" Ef eq_refl eq_refl eq_refl) as (conds & Hw & HP & HN).
  exists conds. split; [|done]. unfold read_stmt, read_select. rewrite strip_prefix_app. cbn [mbind option_bind].
  rewrite (readProjection_reads _ _ _ _ _ _ Ep) by done. cbn [mbind option_bind]. rewrite strip_prefix_app. cbn [mbind option_bind].
  rewrite (proj2 Et) by (destruct x0 as [[|]]; done). cbn [mbind option_bind]. rewrite Hw. cbn [mbind option_bind]. done.
Qed.

Lemma lookup_query_spec host ctx args q res sql ps : q_Resource q = Some res -> buildLookupSQL host ctx args q = Ok (sql, ps) ->
  Forall (fun k => exists v, resolveSource host ctx args (k_Source k) = Ok v /\ isNilOrZero v = false) (LookupBy q) /\
  is_Some (read_stmt sql) /\
  forall db now base db' out, executes db now base sql ps db' out <->
    db' = db /\ exists t, db !! snakeCase (Name res) = Some t /\ lookup_names q res db t = true /\
    match out with
    | [] => List.filter (looked_up host ctx args q res db) (rows t) = []
    | [r] => exists row, In row (rows t) /\ looked_up host ctx args q res db row = true /\ r = project (projection_of host ctx res (row_type q)) row
    | _ => False
    end.
Proof.
  intros Hres H. destruct (lookup_reads _ _ _ _ _ _ _ Hres H) as [(conds & Hr & HP & HN) Hk]. split; [done|]. split; [by eauto|].
  intros db now base db' out. rewrite (executes_select _ _ _ _ _ _ _ _ _ _ _ _ Hr), selects_first.
  split; intros [-> (t & Ht & Hn & Ho)]; (split; [done|]); exists t; rewrite HN in *; (split; [done|]; split; [done|]).
  - destruct out as [|r [|]]; rewrite <-?(filter_ext_in _ _ _ (HP db)); [done| |done]. destruct Ho as (row & Hin & Hh & E). rewrite HP in Hh. eauto.
  - destruct out as [|r [|]]; rewrite ?(filter_ext_in _ _ _ (HP db)); [done| |done]. destruct Ho as (row & Hin & Hh & E). rewrite <-HP in Hh. eauto.
Qed.

(** a lookup is refused unless every key is set; its statement returns one
    row with those keys that is not deleted and belongs to the tenant, and
    returns none only if there is none. *)
Theorem lookup_query_exact host ctx args q res sql ps : q_Resource q = Some res -> buildLookupSQL host ctx args q = Ok (sql, ps) ->
  Forall (fun k => exists v, resolveSource host ctx args (k_Source k) = Ok v /\ isNilOrZero v = false) (LookupBy q) /\
  is_Some (read_stmt sql) /\
  forall db now base db' out, executes db now base sql ps db' out <->
    db' = db /\ exists t, db !! snakeCase (Name res) = Some t /\ lookup_names q res db t = true /\
    match out with
    | [] => List.filter (looked_up host ctx args q res db) (rows t) = []
    | [r] => exists row, In row (rows t) /\ looked_up host ctx args q res db row = true /\ r = project (projection_of host ctx res (row_type q)) row
    | _ => False
    end.
Proof. apply lookup_query_spec. Qed.

(** ** Statements are built *)

(** The tenant a resource needs is known, and every name a statement quotes is
    an identifier. *)
Definition tenant_known (ctx : Ctx) (res : ResourceErased) : Prop := Tenancy res = TenancyOrg -> is_Some (ctx_Tenant ctx).
Definition names_plain (q : Query) (res : ResourceErased) : Prop :=
  str_all ident_char (snakeCase (Name res)) = true /\
  Forall (fun col : string * Kind => str_all ident_char col.1 = true) (dbColumnsOf (row_type q)) /\
  Forall (fun o => str_all ident_char (o_Column o) = true) (Order q).
Definition condition_plain (col : string) (src : Source) : Prop :=
  str_all ident_char col = true /\
  match src with FromCtxOwnedVia t o _ => str_all ident_char t = true /\ str_all ident_char o = true | _ => True end.

Lemma quoteIdent_plain c : str_all ident_char c = true -> quoteIdent c = Ok (quoted c).
Proof. intros H. by apply quoteIdent_Ok. Qed.

Lemma mapM_all {E A B} (f : A -> result E B) l : Forall (fun x => exists y, f x = Ok y) l -> exists k, mapM f l = Ok k.
Proof.
  induction 1 as [|x l [y Hy] _ [k IH]]; [by exists []|]. change (mapM f (x :: l)) with (y ← f x; ys ← mapM f l; Ok (y :: ys)).
  rewrite Hy. cbn [mbind result_bind]. rewrite IH. by eexists.
Qed.

Lemma base_builds ctx res n : tenant_known ctx res -> exists st, baseScopeConditions ctx res n = Ok st.
Proof. intros H. unfold baseScopeConditions. destruct (Tenancy res) eqn:E; try by eexists. destruct (H E) as [org ->]. by eexists. Qed.
Lemma fragment_builds col src n : condition_plain col src -> exists text, whereConditionFragment col src n = Ok text.
Proof.
  intros [Hc Hs]. unfold whereConditionFragment. destruct src; rewrite ?(quoteIdent_plain col) by done; cbn [mbind result_bind]; try by eexists.
  destruct Hs as [Ht Ho]. rewrite !quoteIdent_plain by done. cbn [mbind result_bind]. by eexists.
Qed.
Lemma projection_builds host ctx res (row_type : list StructField) :
  Forall (fun col : string * Kind => str_all ident_char col.1 = true) (dbColumnsOf row_type) -> exists text, readProjection host ctx res row_type = Ok text.
Proof.
  intros H. unfold readProjection. destruct (dbColumnsOf row_type) as [|c cols]; [by eexists|].
  set (f := fun col : string * Kind => match bt_get col.1 (FieldReadPolicies res) with
    | Some pol => if allows host ctx pol then quoteIdent col.1 else maskedProjection col | None => quoteIdent col.1 end).
  destruct (mapM_all f (c :: cols)) as [k Hk].
  - eapply List.Forall_impl; [|exact H]. intros col Hc. unfold f, maskedProjection. rewrite quoteIdent_plain by done.
    destruct (bt_get _ _); [destruct (allows _ _ _)|]; cbn [mbind result_bind]; by eexists.
  - rewrite Hk. by eexists.
Qed.
Lemma order_builds order : Forall (fun o => str_all ident_char (o_Column o) = true) order -> exists text, buildOrder order = Ok text.
Proof.
  intros H. unfold buildOrder. destruct order as [|o order]; [by eexists|].
  set (f := fun o : OrderClause => c ← quoteIdent (o_Column o); Ok (c +:+ " " +:+ (if Desc o then "DESC" else "ASC"))).
  destruct (mapM_all f (o :: order)) as [k Hk].
  - eapply List.Forall_impl; [|exact H]. intros x Hx. unfold f. rewrite quoteIdent_plain by done. by eexists.
  - rewrite Hk. by eexists.
Qed.
Lemma fold_builds {A} (step : Scope -> A -> go Scope) l : Forall (fun x => forall st, exists st', step st x = Ok st') l ->
  forall st, exists st', fold_scope step st l = Ok st'.
Proof.
  induction 1 as [|x l Hx _ IH]; intros st; [by eexists|]. cbn [fold_scope]. destruct (Hx st) as [st' ->]. cbn [mbind result_bind]. apply IH.
Qed.

(** A list query whose filters have values is always given a statement. *)
Lemma list_query_builds host ctx args q res : q_Resource q = Some res -> tenant_known ctx res -> names_plain q res -> Search q = None ->
  Forall (fun f => (exists v, resolveSource host ctx args (When f) = Ok v) /\ condition_plain (f_Column f) (When f)) (Filters q) ->
  exists sql ps, buildListSQL host ctx args q = Ok (sql, ps).
Proof.
  intros Hres Ht (Hn & Hp & Ho) Hs Hf. unfold buildListSQL, resourceErased. rewrite Hres, Hs. cbn [mbind result_bind].
  destruct (base_builds ctx res 1 Ht) as [st ->]. cbn [mbind result_bind].
  destruct (fold_builds (add_filter host ctx args) (Filters q)) with (st := st) as [st' ->].
  { eapply List.Forall_impl; [|exact Hf]. intros f [[v Hv] Hc] st0. unfold add_filter. rewrite Hv. cbn [mbind result_bind].
    destruct (isNilOrZero v); [by eexists|].
    destruct (fragment_builds (f_Column f) (When f) (List.length (st0.2 ++ [v])%list) Hc) as [c ->]. by eexists. }
  cbn [mbind result_bind add_search]. destruct (projection_builds host ctx res _ Hp) as [p ->]. cbn [mbind result_bind].
  unfold quoteResourceTable. rewrite quoteIdent_plain by done. cbn [mbind result_bind].
  destruct (order_builds _ Ho) as [o ->]. by eexists _, _.
Qed.

(** A lookup with its keys set is always given a statement. *)
Lemma lookup_query_builds host ctx args q res : q_Resource q = Some res -> tenant_known ctx res -> names_plain q res -> LookupBy q <> [] ->
  Forall (fun k => (exists v, resolveSource host ctx args (k_Source k) = Ok v /\ isNilOrZero v = false) /\ condition_plain (k_Column k) (k_Source k)) (LookupBy q) ->
  exists sql ps, buildLookupSQL host ctx args q = Ok (sql, ps).
Proof.
  intros Hres Ht (Hn & Hp & Ho) Hne Hk. unfold buildLookupSQL, resourceErased. rewrite Hres. cbn [mbind result_bind].
  destruct (LookupBy q) as [|k0 keys] eqn:El; [done|]. rewrite <-El in *. clear El.
  destruct (base_builds ctx res 1 Ht) as [st ->]. cbn [mbind result_bind].
  destruct (fold_builds (add_key host ctx args) (LookupBy q)) with (st := st) as [st' ->].
  { eapply List.Forall_impl; [|exact Hk]. intros k [(v & Hv & Hz) Hc] st0. unfold add_key. rewrite Hv. cbn [mbind result_bind]. rewrite Hz.
    destruct (fragment_builds (k_Column k) (k_Source k) (List.length (st0.2 ++ [v])%list) Hc) as [c ->]. by eexists. }
  cbn [mbind result_bind]. destruct (projection_builds host ctx res _ Hp) as [p ->]. cbn [mbind result_bind].
  unfold quoteResourceTable. rewrite quoteIdent_plain by done. by eexists _, _.
Qed.

(** * Tenant isolation *)

(** The rows of an owner table that hold what the owner condition looks for:
    those of the user of the request, of whichever tenant. *)
Definition owner_rows (ctx : Ctx) (path owner : string) (t : Table) : list Row :=
  match readCtx ctx path with
  | Ok v => List.filter (fun r => bool_decide (sql_eq (cell r owner) v = Some true)) (rows t)
  | Err _ => []
  end.

(** What a request of tenant [org] may see of the tables a query reads: the
    rows of the tenant, and the rows of the user in the tables its owner
    conditions look into. *)
Definition same_view (org : Z) (ctx : Ctx) (res : ResourceErased) (sources : list Source) (db1 db2 : Db) : Prop :=
  match db1 !! snakeCase (Name res), db2 !! snakeCase (Name res) with
  | Some t1, Some t2 => columns t1 = columns t2 /\ List.filter (of_tenant org) (rows t1) ≡ₚ List.filter (of_tenant org) (rows t2)
  | None, None => True
  | _, _ => False
  end /\
  forall t owner path, In (FromCtxOwnedVia t owner path) sources ->
    match db1 !! t, db2 !! t with
    | Some t1, Some t2 => columns t1 = columns t2 /\ owner_rows ctx path owner t1 ≡ₚ owner_rows ctx path owner t2
    | None, None => True
    | _, _ => False
    end.

Lemma same_view_sym org ctx res sources db1 db2 : same_view org ctx res sources db1 db2 -> same_view org ctx res sources db2 db1.
Proof.
  unfold same_view. intros [H1 H2]. split; [by destruct (db1 !! _), (db2 !! _); [destruct H1; split| | |]|].
  intros t owner path Hin. specialize (H2 t owner path Hin). by destruct (db1 !! t), (db2 !! t); [destruct H2; split| | |].
Qed.

Lemma existsb_filter {A} (f g : A -> bool) l : existsb (fun x => f x && g x) l = existsb g (List.filter f l).
Proof. induction l as [|x l IH]; cbn; [done|]. destruct (f x); cbn; by rewrite IH. Qed.
Lemma existsb_perm {A} (f : A -> bool) l1 l2 : l1 ≡ₚ l2 -> existsb f l1 = existsb f l2.
Proof. induction 1; cbn; try congruence. btauto. Qed.

(** Both databases show an owner condition the same rows. *)
Definition same_owners (ctx : Ctx) (db1 db2 : Db) (src : Source) : Prop :=
  forall t owner path, src = FromCtxOwnedVia t owner path ->
    match db1 !! t, db2 !! t with
    | Some t1, Some t2 => columns t1 = columns t2 /\ owner_rows ctx path owner t1 ≡ₚ owner_rows ctx path owner t2
    | None, None => True
    | _, _ => False
    end.

Lemma bound_match_view host ctx input db1 db2 row col src v : resolveSource host ctx input src = Ok v -> same_owners ctx db1 db2 src ->
  bound_match db1 row col src v = bound_match db2 row col src v.
Proof.
  intros Hv H. destruct src as [| | | | | |t owner path]; try done. cbn [resolveSource] in Hv. cbn [bound_match]. rewrite !existsb_filter.
  specialize (H t owner path eq_refl). unfold owner_rows in H. rewrite Hv in H.
  destruct (db1 !! t), (db2 !! t); try done. cbn [from_option]. destruct H as [_ H]. by apply existsb_perm.
Qed.

Lemma bound_names_view ctx db1 db2 t1 t2 col src : columns t1 = columns t2 -> same_owners ctx db1 db2 src ->
  bound_names db1 t1 col src = bound_names db2 t2 col src.
Proof.
  intros Hc H. destruct src as [| | | | | |t owner path]; cbn; rewrite ?Hc; try done. specialize (H t owner path eq_refl).
  destruct (db1 !! t), (db2 !! t); try done. by destruct H as [-> _].
Qed.

Lemma forallb_ext_In {A} (f g : A -> bool) l : (forall x, In x l -> f x = g x) -> forallb f l = forallb g l.
Proof. intros H. induction l as [|x l IH]; cbn; [done|]. rewrite H, IH; [done| |by left]. intros y Hy. apply H. by right. Qed.

Lemma filter_filter {A} (f g : A -> bool) l : List.filter f (List.filter g l) = List.filter (fun x => g x && f x) l.
Proof. induction l as [|x l IH]; cbn; [done|]. destruct (g x); cbn; by rewrite IH. Qed.

Lemma filter_Permutation {A} (f : A -> bool) l1 l2 : l1 ≡ₚ l2 -> List.filter f l1 ≡ₚ List.filter f l2.
Proof.
  induction 1 as [|x l1 l2 H IH|x y l|l1 l2 l3 H1 IH1 H2 IH2]; cbn; [done| | |by rewrite IH1].
  - destruct (f x); [by constructor|done].
  - destruct (f x), (f y); try done. constructor.
Qed.

Lemma list_answer_view host ctx args q res org db1 db2 out : Tenancy res = TenancyOrg -> ctx_Tenant ctx = Some org ->
  same_view org ctx res (List.map When (Filters q)) db1 db2 -> list_answer host ctx args q res db1 out -> list_answer host ctx args q res db2 out.
Proof.
  intros Hten Hctx [Hv Hs] (t1 & sorted & Ht & Hn & Hp & Ho). rewrite Ht in Hv. destruct (db2 !! snakeCase (Name res)) as [t2|] eqn:Ht2; [|done].
  destruct Hv as [Hc Hr]. exists t2, sorted. split; [done|].
  assert (Hf : forall f, In f (Filters q) -> same_owners ctx db1 db2 (When f)).
  { intros f Hin t o p Hw. apply (Hs t o p). rewrite <-Hw. by apply in_map. }
  split; [|split; [|done]].
  - rewrite <-Hn. unfold list_names, base_names. rewrite Hc. f_equal; [f_equal|].
    + apply forallb_ext_In. intros f Hin. unfold filter_names. destruct (resolveSource _ _ _ _); [|done]. f_equal. symmetry. apply (bound_names_view ctx); eauto.
    + unfold search_names. destruct (Search q) as [s|]; [|done]. destruct (Over s); [done|]. by rewrite Hc.
  - rewrite Hp. set (g row := live res row && forallb (filter_match host ctx args db1 row) (Filters q) && search_rows host ctx args (Search q) row).
    assert (Hw : forall db, db = db1 \/ db = db2 -> forall row, wanted host ctx args q res db row = of_tenant org row && g row).
    { intros db Hdb row. unfold wanted, visible, g. rewrite Hten, Hctx.
      replace (forallb (filter_match host ctx args db row) (Filters q)) with (forallb (filter_match host ctx args db1 row) (Filters q)); [btauto|].
      apply forallb_ext_In. intros f Hin. unfold filter_match. destruct (resolveSource _ _ _ _) eqn:Ev; [|done]. f_equal.
      destruct Hdb as [->| ->]; [done|]. by apply (bound_match_view host ctx args); [|apply Hf]. }
    rewrite (filter_ext_in _ _ _ (Hw db1 (or_introl eq_refl))), (filter_ext_in _ _ _ (Hw db2 (or_intror eq_refl))), <-!filter_filter.
    by apply filter_Permutation.
Qed.

(** C13: A list query of a tenant-scoped resource is refused without a tenant;
    with one, what the statement returns is determined by the rows of the tenant,
    together with, when a filter is an owner condition ([FromCtxOwnedVia]), the
    rows of the owner table that hold the user of the request. The lookup of those
    names no tenant, so of the owner table they count in whichever tenant they are
    ([owner_rows_of_any_tenant]); no other row of another tenant does. *)
Theorem list_tenant_noninterference host ctx args q res : q_Resource q = Some res -> Tenancy res = TenancyOrg ->
  match ctx_Tenant ctx with
  | None => buildListSQL host ctx args q = Err tenantRequiredError
  | Some org => forall sql ps db1 db2 now base out, buildListSQL host ctx args q = Ok (sql, ps) ->
      same_view org ctx res (List.map When (Filters q)) db1 db2 ->
      executes db1 now base sql ps db1 out <-> executes db2 now base sql ps db2 out
  end.
Proof.
  intros Hres Hten. destruct (ctx_Tenant ctx) as [org|] eqn:Hctx.
  - intros sql ps db1 db2 now base out H Hv. destruct (list_reads _ _ _ _ _ _ _ Hres H) as (conds & Hr & HP & HN).
    assert (He : forall db, executes db now base sql ps db out <-> list_answer host ctx args q res db out).
    { intros db. rewrite (executes_select _ _ _ _ _ _ _ _ _ _ _ _ Hr). unfold selects, list_answer.
      setoid_rewrite HN. setoid_rewrite (filter_ext_in (holds db ps conds) _ _ (HP db)). tauto. }
    rewrite !He. split; eapply list_answer_view; eauto using same_view_sym.
  - unfold buildListSQL, resourceErased, baseScopeConditions. rewrite Hres. cbn [mbind result_bind]. by rewrite Hten, Hctx.
Qed.

(** * Field read policies *)

Lemma project_items host ctx res cols row c k : NoDup cols.*1 -> In (c, k) cols ->
  cell (project (Items (List.map (item_of host ctx res) cols)) row) c =
  match bt_get c (FieldReadPolicies res) with Some pol => if allows host ctx pol then cell row c else zero_of k | None => cell row c end.
Proof.
  intros Hnd Hin. unfold cell at 1, project. rewrite List.map_map.
  set (f := fun x : string * Kind => match item_of host ctx res x with Column c => (c, cell row c) | Constant v c => (c, v) end).
  assert (Hf : forall x, (f x).1 = x.1).
  { intros x. unfold f, item_of. destruct (bt_get x.1 _) as [pol|]; [destruct (allows host ctx pol)|]; done. }
  assert (Hl : (list_to_map (List.map f cols) : Row) !! c = Some (f (c, k)).2).
  { apply elem_of_list_to_map_1.
    - replace (List.map f cols).*1 with cols.*1; [done|]. clear -Hf. induction cols as [|x cols IH]; cbn; [done|]. by rewrite Hf, IH.
    - apply list_elem_of_In, in_map_iff. exists (c, k). split; [|done]. pose proof (Hf (c, k)) as E. cbn [fst] in E.
      destruct (f (c, k)) as [c' v]. cbn in *. by subst. }
  setoid_rewrite Hl. cbn [default from_option id]. unfold f, item_of. cbn [fst snd].
  destruct (bt_get c (FieldReadPolicies res)) as [pol|]; [destruct (allows host ctx pol)|]; done.
Qed.

(** C23: whatever a list query returns comes from a stored row, with every
    column the actor may not read replaced by the zero of its type. *)
Theorem read_policy_masks host ctx args q res sql ps db now base db' out r : q_Resource q = Some res ->
  buildListSQL host ctx args q = Ok (sql, ps) -> executes db now base sql ps db' out -> In r out ->
  dbColumnsOf (row_type q) <> [] -> NoDup (dbColumnsOf (row_type q)).*1 ->
  exists t row, db !! snakeCase (Name res) = Some t /\ In row (rows t) /\ wanted host ctx args q res db row = true /\
    forall c k, In (c, k) (dbColumnsOf (row_type q)) ->
      cell r c = match bt_get c (FieldReadPolicies res) with
                 | Some pol => if allows host ctx pol then cell row c else zero_of k
                 | None => cell row c
                 end.
Proof.
  intros Hres H He Hin Hne Hnd. destruct (list_reads _ _ _ _ _ _ _ Hres H) as (conds & Hr & HP & HN).
  apply (executes_select _ _ _ _ _ _ _ _ _ _ _ _ Hr) in He as [-> (t & sorted & Ht & _ & Hp & _ & ->)].
  apply in_map_iff in Hin as (row & <- & Hrow). apply In_firstn in Hrow.
  apply (Permutation_in _ Hp), filter_In in Hrow as [Hrow Hh]. rewrite HP in Hh.
  exists t, row. repeat (split; [done|]). intros c k Hck. unfold projection_of. destruct (dbColumnsOf (row_type q)) as [|x l] eqn:E; [done|].
  by apply project_items.
Qed.

(** A filter on a constant zero, as [archived = false], is never applied. *)
Lemma constant_zero_filter_skipped host ctx args q res db row c v fs : Filters q = {| f_Column := c; When := FromConst v |} :: fs -> isNilOrZero v = true ->
  wanted host ctx args q res db row = visible ctx res row && forallb (filter_match host ctx args db row) fs && search_rows host ctx args (Search q) row.
Proof. intros Hf Hz. unfold wanted. rewrite Hf. cbn. unfold filter_match at 1. cbn. by rewrite Hz. Qed.

(** * A request *)

(** Rows already in order: the answer of a [SELECT] as it is computed. *)
Fixpoint in_order (keys : list (string * bool)) (l : list Row) : bool :=
  match l with [] => true | x :: l => forallb (order_le keys x) l && in_order keys l end.
Lemma in_order_sorted keys l : in_order keys l = true -> StronglySorted (fun a b => order_le keys a b = true) l.
Proof.
  induction l as [|x l IH]; [constructor|]. cbn [in_order]. intros [Hx Hl]%andb_true_iff. constructor; [by apply IH|].
  apply List.Forall_forall. by apply List.forallb_forall.
Qed.
Lemma runs_select db now base sql ps p t conds order limit tab out : read_stmt sql = Some (Select p t conds order limit) -> db !! t = Some tab ->
  forallb (cond_names db tab) conds && in_order order (List.filter (holds db ps conds) (rows tab)) = true ->
  out = List.map (project p) (take limit (List.filter (holds db ps conds) (rows tab))) -> executes db now base sql ps db out.
Proof.
  intros Hr Ht [Hn Ho]%andb_true_iff ->. eapply exec_select; [exact Hr|]. exists tab, (List.filter (holds db ps conds) (rows tab)).
  repeat (split; [done|]). split; [by apply in_order_sorted|done].
Qed.

(** A user of an organisation, and notes of two. *)
Definition a_host : Host := {|
  binding_fn := fun _ => None; default_tenant := None; store_column := fun _ _ v => Ok v; sprint_other := fun _ => "";
  rbacHasRole := fun _ _ => false; rbacHasPermission := fun _ _ => false |}.
Definition a_ctx : Ctx := {|
  ctx_User := Some {| ID := 7; OrgID := 1; u_Roles := ["member"] |}; ctx_Tenant := Some 1%Z; ctx_Actor := PolicyRuntime.ActorUser; Now_ := 0; clock := 50 |}.
Definition note (id org user : Z) (title : string) (deleted : Value) : Row :=
  list_to_map [("id", Int id); ("org_id", Int org); ("user_id", Int user); ("title", Text title); ("created_at", Time id); ("deleted_at", deleted)].
Definition note_columns : list string := ["id"; "org_id"; "org"; "user_id"; "title"; "created_at"; "updated_at"; "deleted_at"].
Definition notes : ResourceErased := {|
  Name := "Note"; Tenancy := TenancyOrg; SoftDelete := true; SoftDeleteActor := false; Timestamps := true;
  FieldReadPolicies := [("title", {| PolicyRuntime.PolicyName := "staff"; PolicyRuntime.Atoms := [PolicyRuntime.Build_GoAtom "role" "staff" None] |})] |}.
Definition notes_db (l : list Row) : Db := {["note" := {| columns := note_columns; rows := l |}]}.
Definition my_notes : Query := {|
  q_Name := "notes.list"; q_Resource := Some notes;
  row_type := [{| exported := true; db_tag := Some "id"; kind := KNumber |}; {| exported := true; db_tag := Some "title"; kind := KString |}];
  Filters := [{| f_Column := "user_id"; When := FromCtx "user.id" |}]; Order := [{| o_Column := "id"; Desc := true |}]; Search := None; Paginate := 20;
  LookupBy := [] |}.

(** Notes kept under a host: the host of the note is a row of another tenant, and
    whether it is there decides whether the note is listed. *)
Definition hosted_notes : Query := {|
  q_Name := "notes.hosted"; q_Resource := Some notes; row_type := row_type my_notes;
  Filters := [{| f_Column := "user_id"; When := FromCtxOwnedVia "host" "user" "user.id" |}]; Order := []; Search := None; Paginate := 20; LookupBy := [] |}.
Definition hosts_db (hosts : list Row) : Db :=
  <["host" := {| columns := ["id"; "org_id"; "user"]; rows := hosts |}]> (notes_db [note 3 1 5 "mine" Nil]).
Definition foreign_host : Row := list_to_map [("id", Int 5); ("org_id", Int 9); ("user", Int 7)].

Theorem owner_rows_of_any_tenant :
  wanted a_host a_ctx (Struct []) hosted_notes notes (hosts_db [foreign_host]) (note 3 1 5 "mine" Nil) = true /\
  wanted a_host a_ctx (Struct []) hosted_notes notes (hosts_db []) (note 3 1 5 "mine" Nil) = false /\
  of_tenant 1 foreign_host = false.
Proof. split; [|split]; apply (bool_decide_eq_true_1 _); vm_compute; reflexivity. Qed.

Lemma list_query_exact_witness : exists sql ps, buildListSQL a_host a_ctx (Struct []) my_notes = Ok (sql, ps) /\ ps = [Int 1; Int 7] /\ is_Some (read_stmt sql) /\
  forall db now base db' out, executes db now base sql ps db' out <-> db' = db /\ list_answer a_host a_ctx (Struct []) my_notes notes db out.
Proof. eexists _, _. split; [vm_compute; reflexivity|]. split; [reflexivity|]. apply (list_query_exact a_host a_ctx (Struct []) my_notes notes); vm_compute; reflexivity. Defined.

Lemma list_tenant_noninterference_witness : exists sql ps, buildListSQL a_host a_ctx (Struct []) my_notes = Ok (sql, ps) /\
  let mine := note 3 1 7 "mine" Nil in
  executes (notes_db [mine]) 0 empty sql ps (notes_db [mine]) [list_to_map [("id", Int 3); ("title", Text "")]] /\
  (executes (notes_db [mine]) 0 empty sql ps (notes_db [mine]) [list_to_map [("id", Int 3); ("title", Text "")]] <->
   executes (notes_db [note 2 9 7 "theirs" Nil; mine]) 0 empty sql ps (notes_db [note 2 9 7 "theirs" Nil; mine]) [list_to_map [("id", Int 3); ("title", Text "")]]).
Proof.
  eexists _, _. split; [vm_compute; reflexivity|]. intros mine. split.
  - eapply (runs_select (notes_db [mine]) 0%Z); compute_eq.
  - apply (list_tenant_noninterference a_host a_ctx (Struct []) my_notes notes); [reflexivity|reflexivity|compute_eq|].
    split; [by split|]. intros t o p [H|[]]. discriminate H.
Defined.

Lemma read_policy_masks_witness : exists sql ps, buildListSQL a_host a_ctx (Struct []) my_notes = Ok (sql, ps) /\
  let mine := note 3 1 7 "mine" Nil in
  exists t row, notes_db [mine] !! "note" = Some t /\ In row (rows t) /\ wanted a_host a_ctx (Struct []) my_notes notes (notes_db [mine]) row = true /\
    forall c k, In (c, k) (dbColumnsOf (row_type my_notes)) ->
      cell (list_to_map [("id", Int 3); ("title", Text "")]) c =
      match bt_get c (FieldReadPolicies notes) with Some pol => if allows a_host a_ctx pol then cell row c else zero_of k | None => cell row c end.
Proof.
  eexists _, _. split; [vm_compute; reflexivity|]. intros mine.
  eapply (read_policy_masks a_host a_ctx (Struct []) my_notes notes _ _ (notes_db [mine]) 0%Z empty (notes_db [mine]) [list_to_map [("id", Int 3); ("title", Text "")]]);
    [reflexivity|vm_compute; reflexivity| |by left|done|apply (bool_decide_eq_true_1 _); vm_compute; reflexivity].
  eapply (runs_select (notes_db [mine]) 0%Z); compute_eq.
Defined.
