(* ===== verification/RuntimeWrite.v ===== *)
(** What the writing statements of the Go runtime do to the database: the
    updates, deletes, creates and reorder effects, the rows they change and the
    rows they cannot reach. *)
From Stdlib Require Import Btauto.
From stdpp Require Import gmap.
From S2P Require Import Prelude Str BTree Fmt Casing SqlRows RuntimeSql RuntimeRead.

(** * Reading the writing statements *)

Definition set_text (ce : string * SetExpr) (s : string) : Prop :=
  str_all ident_char ce.1 = true /\
  match ce.2 with
  | Param n => s = quoted ce.1 +:+ " = " +:+ "$" +:+ show_N (N.of_nat n)
  | Now => s = quoted ce.1 +:+ " = now()"
  end.

Lemma set_text_reads ce s : set_text ce s -> reads sql_set s ce.
Proof. destruct ce as [c []]; intros [Hc ->]; [by apply reads_set|by apply reads_set_now]. Qed.

Lemma read_stmt_update table T texts sets cs conds : reads sql_ident_tok table T -> Forall2 set_text sets texts -> texts <> [] ->
  Forall2 (reads sql_cond) cs conds -> cs <> [] ->
  read_stmt ("UPDATE " +:+ table +:+ " SET " +:+ join ", " texts +:+ " WHERE " +:+ join " AND " cs +:+ " RETURNING *") = Some (Update T sets conds).
Proof.
  intros Ht Hs Hne Hc Hcs. unfold read_stmt.
  set (tail := " WHERE " +:+ join " AND " cs +:+ " RETURNING *").
  assert (read_select ("UPDATE " +:+ table +:+ " SET " +:+ join ", " texts +:+ tail) = None) as -> by done.
  assert (read_reposition ("UPDATE " +:+ table +:+ " SET " +:+ join ", " texts +:+ tail) = None) as ->.
  { unfold read_reposition. rewrite strip_prefix_app. cbn [mbind option_bind]. rewrite (proj2 Ht) by done. cbn [mbind option_bind].
    rewrite strip_prefix_app. cbn [mbind option_bind]. destruct Hs as [|ce s sets texts [Hce Hse] Hs]; [done|].
    assert (exists rest, join ", " (s :: texts) +:+ tail = quoted ce.1 +:+ " = $" +:+ rest \/ join ", " (s :: texts) +:+ tail = quoted ce.1 +:+ " = n" +:+ rest) as (rest & [-> | ->]).
    { destruct texts as [|s' texts]; [cbn [join]|rewrite join_cons by done]; destruct (ce.2) eqn:E; rewrite Hse, !sapp_assoc; eexists; by (left + right). }
    all: by rewrite (proj2 (reads_ident _ Hce)). }
  unfold read_update. rewrite strip_prefix_app. cbn [mbind option_bind]. rewrite (proj2 Ht) by done. cbn [mbind option_bind].
  rewrite strip_prefix_app. cbn [mbind option_bind].
  rewrite (sql_list_len sql_set ", " texts sets) by (done || (eapply Forall2_flip, Forall2_impl; [exact Hs|]; apply set_text_reads)).
  cbn [mbind option_bind]. unfold tail. rewrite strip_prefix_app. cbn [mbind option_bind]. unfold sql_conds.
  by rewrite (sql_list_len sql_cond " AND " cs conds).
Qed.

Lemma read_stmt_delete table T cs conds : reads sql_ident_tok table T -> Forall2 (reads sql_cond) cs conds -> cs <> [] ->
  read_stmt ("DELETE FROM " +:+ table +:+ " WHERE " +:+ join " AND " cs +:+ " RETURNING *") = Some (Delete T conds).
Proof.
  intros Ht Hc Hcs. unfold read_stmt. set (s := "DELETE FROM " +:+ _).
  assert (read_select s = None) as -> by done. assert (read_reposition s = None) as -> by done. assert (read_update s = None) as -> by done.
  unfold read_delete, s. rewrite strip_prefix_app. cbn [mbind option_bind]. rewrite (proj2 Ht) by done. cbn [mbind option_bind].
  rewrite strip_prefix_app. cbn [mbind option_bind]. unfold sql_conds. by rewrite (sql_list_len sql_cond " AND " cs conds).
Qed.

Lemma read_insert_into_reads check open close table T names cols phs ns : reads sql_ident_tok table T -> Forall2 (reads sql_ident_tok) names cols -> names <> [] ->
  Forall2 (reads sql_param) phs ns -> phs <> [] -> List.length cols = List.length ns ->
  strip_prefix ", " open = None -> open <> "" -> digit_head open = false -> strip_prefix ", " (open +:+ join ", " phs +:+ close) = None ->
  strip_prefix ", " close = None -> digit_head close = false ->
  read_insert_into check open close ("INSERT INTO " +:+ table +:+ " (" +:+ join ", " names +:+ open +:+ join ", " phs +:+ close) = Some (Insert check T (List.combine cols ns)).
Proof.
  intros Ht Hn Hne Hp Hpe Hl Ho Hoe Hod Hoc Hc Hcd. unfold read_insert_into. rewrite strip_prefix_app. cbn [mbind option_bind].
  rewrite (proj2 Ht) by done. cbn [mbind option_bind]. rewrite strip_prefix_app. cbn [mbind option_bind].
  rewrite (sql_list_len sql_ident_tok ", " names cols) by (done || by destruct open). cbn [mbind option_bind].
  rewrite strip_prefix_app. cbn [mbind option_bind]. rewrite (sql_list_len sql_param ", " phs ns) by done. cbn [mbind option_bind].
  by rewrite String.eqb_refl, Hl, Nat.eqb_refl.
Qed.

(** * The columns an effect writes *)

Lemma params_values_go vs : forall k ps (more : list Value), List.length ps = k ->
  List.map (param ((ps ++ vs) ++ more)) (seq (S k) (List.length vs)) = vs.
Proof.
  induction vs as [|v vs IH]; intros k ps more Hk; [done|]. cbn [List.length seq List.map]. f_equal.
  - unfold param. rewrite <-(assoc_L app), lookup_app_r by lia. replace (S k - 1 - List.length ps) with 0 by lia. done.
  - etransitivity; [|apply (IH (S k) (ps ++ [v])%list more); rewrite length_app; cbn; lia]. by rewrite <-(assoc_L app ps [v] vs).
Qed.

(** [$1], ..., [$k] are the first [k] values. *)
Lemma params_values vs more : List.map (param (vs ++ more)) (seq 1 (List.length vs)) = vs.
Proof. by apply (params_values_go vs 0 [] more). Qed.

Section Written.
Variable host : Host.
Variable ctx : Ctx.
Variable input : Value.
Abbreviation resolve := (resolveSource host ctx input).

(** The columns of a [bind] with their values: an optional input that is absent
    leaves its column alone. *)
Definition written (l : list (string * Source)) : list (string * Value) :=
  omap (fun cs =>
    match resolve cs.2 with
    | Err _ => None
    | Ok v => match cs.2, v with FromInputOptional _, Nil => None | _, _ => Some (cs.1, v) end
    end) l.

Definition bound_ok (b : Bound) : Prop := b.1.2 = quoted b.1.1 /\ str_all ident_char b.1.1 = true.

Lemma bound_columns_spec l : forall cols, bound_columns host ctx input l = Ok cols ->
  List.map (fun b : Bound => (b.1.1, b.2)) cols = written l /\ Forall bound_ok cols.
Proof.
  induction l as [|[col src] l IH]; intros cols H; cbn [bound_columns] in H.
  - injection H as <-. by split; [|constructor].
  - step_ok H E. unfold written. cbn [omap list_omap snd fst]. rewrite E.
    assert (Hgo : (c ← quoteIdent col; rest ← bound_columns host ctx input l; Ok (((col, c), x) :: rest)) = Ok cols ->
      List.map (fun b : Bound => (b.1.1, b.2)) cols = (col, x) :: written l /\ Forall bound_ok cols).
    { intros G. step_ok G Ec. step_ok G Er. injection G as <-. apply quoteIdent_Ok in Ec as [Hc ->]. apply IH in Er as [<- Hf].
      split; [done|]. by constructor. }
    destruct src; try (apply Hgo in H; exact H). destruct x; try (apply Hgo in H; exact H). by apply IH.
Qed.

Lemma written_keys l : sublist (written l).*1 l.*1.
Proof.
  unfold written. induction l as [|[col src] l IH]; cbn; [constructor|].
  destruct (resolve src) as [v|]; [|by apply sublist_cons].
  destruct src; try (by apply sublist_skip). destruct v; by apply sublist_skip || by apply sublist_cons.
Qed.

(** The values as stored: sanitized and encrypted. *)
Definition stored_values (res : ResourceErased) (cols : list (string * Value)) (vs : list Value) : Prop :=
  Forall2 (fun cv v => store_column host (Name res) cv.1 cv.2 = Ok v) cols vs.

Lemma stored_spec res (cols : list Bound) vs : stored host res cols = Ok vs -> stored_values res (List.map (fun b : Bound => (b.1.1, b.2)) cols) vs.
Proof. intros H%mapM_Ok. induction H; cbn; constructor; done. Qed.
End Written.

(** * The updates effect *)

(** The rows an effect reaches. *)
Definition target (host : Host) (ctx : Ctx) (input : Value) (res : ResourceErased) (where_ : Bindings) (db : Db) (row : Row) : bool :=
  visible ctx res row && forallb (binding_match host ctx input db row) (sortedBind where_).
Definition target_names (res : ResourceErased) (where_ : Bindings) (db : Db) (t : Table) : bool :=
  base_names res t && forallb (fun cs => bound_names db t cs.1 cs.2) (sortedBind where_).

Definition set_columns (row : Row) (cvs : list (string * Value)) : Row := foldl (fun row cv => <[cv.1 := cv.2]> row) row cvs.
(** [updated_at] is set unless the command binds it. *)
Definition touches (res : ResourceErased) (bind : Bindings) : bool := negb (bt_contains "updated_at" (sortedBind bind)) && HasColumn res "updated_at".
Definition changed (res : ResourceErased) (bind : Bindings) (cols : list string) (vs : list Value) (now : Z) (row : Row) : Row :=
  let row := set_columns row (List.combine cols vs) in
  if touches res bind then <["updated_at" := Time now]> row else row.

(** The assignments of the bound columns, from [$(k+1)] on. *)
Definition sets_from (k : nat) (cols : list string) : list (string * SetExpr) := List.combine cols (List.map Param (seq (S k) (List.length cols))).

Lemma sets_texts (cols : list Bound) : forall k, Forall bound_ok cols ->
  Forall2 set_text (sets_from k (List.map (fun b : Bound => b.1.1) cols)) (imap (fun i (b : Bound) => b.1.2 +:+ " = " +:+ dollar (S (k + i))) cols).
Proof.
  induction cols as [|b cols IH]; intros k H; [constructor|]. inversion H as [|? ? [Hq Hc] Hf]; subst. rewrite imap_cons.
  unfold sets_from. cbn [List.map List.length seq List.combine]. constructor.
  - split; [done|]. cbn [snd fst]. rewrite Hq. unfold dollar. by rewrite Nat.add_0_r.
  - erewrite imap_ext; [apply (IH (S k) Hf)|]. intros i x _. cbn. by rewrite Nat.add_succ_r.
Qed.

Lemma apply_sets_from cols : forall k ps now row, apply_sets ps now (sets_from k cols) row =
  set_columns row (List.combine cols (List.map (param ps) (seq (S k) (List.length cols)))).
Proof.
  induction cols as [|c cols IH]; intros k ps now row; [done|].
  unfold sets_from, apply_sets, set_columns. cbn. apply (IH (S k)).
Qed.

Lemma sets_from_keys k cols : (sets_from k cols).*1 = cols.
Proof. unfold sets_from. revert k. induction cols as [|c cols IH]; intros k; cbn; [done|]. f_equal. apply IH. Qed.

Lemma executes_update db now base sql ps t sets conds db' out : read_stmt sql = Some (Update t sets conds) ->
  executes db now base sql ps db' out <-> updates db ps now t sets conds = Some (db', out).
Proof.
  intros H. split.
  - intros He; inversion He; by simplify_eq.
  - intros Hu. by eapply exec_update.
Qed.

Lemma updates_iff db ps now T sets conds (P : Row -> bool) (N : Table -> bool) (f : Row -> Row) db' out : NoDup sets.*1 ->
  (forall row, holds db ps conds row = P row) -> (forall t, forallb (cond_names db t) conds = N t) -> (forall row, apply_sets ps now sets row = f row) ->
  updates db ps now T sets conds = Some (db', out) <->
  exists t, db !! T = Some t /\ N t = true /\ forallb (fun c => bool_decide (c ∈ columns t)) sets.*1 = true /\
    db' = <[T := {| columns := columns t; rows := List.map (fun row => if P row then f row else row) (rows t) |}]> db /\
    out = List.map f (List.filter P (rows t)).
Proof.
  intros Hnd HP HN Hf. unfold updates. destruct (db !! T) as [t|]; cbn [mbind option_bind]; [|by split; [|intros (t & ? & _)]].
  rewrite HN, (bool_decide_eq_true_2 _ Hnd), andb_true_r.
  assert (forallb (fun ce : string * SetExpr => bool_decide (ce.1 ∈ columns t)) sets = forallb (fun c => bool_decide (c ∈ columns t)) sets.*1) as ->.
  { clear. induction sets as [|s sets IH]; cbn; [done|]. by rewrite IH. }
  rewrite (filter_ext_in _ _ _ HP).
  assert (forall l, List.map (apply_sets ps now sets) l = List.map f l) as Hm by (intros; by apply map_ext).
  assert (forall l, List.map (fun row => if holds db ps conds row then apply_sets ps now sets row else row) l = List.map (fun row => if P row then f row else row) l) as Hm2
    by (intros; apply map_ext; intros; by rewrite HP, Hf).
  rewrite Hm, Hm2. destruct (N t) eqn:En; cbn [andb].
  - destruct (forallb _ sets.*1) eqn:Ec.
    + split; [intros [= <- <-]; by exists t|]. intros (t' & [= <-] & _ & _ & -> & ->). done.
    + split; [done|]. intros (t' & [= <-] & _ & Hc & _). congruence.
  - split; [done|]. intros (t' & [= <-] & Hn & _). congruence.
Qed.

Lemma sortedBind_nil b : sortedBind b = [] -> b = [].
Proof.
  unfold sortedBind. destruct b as [|[c s] b]; [done|]. intros E.
  assert (H : In c ((bt_collect ((c, s) :: b)).*1)) by (apply bt_collect_keys; by left). by rewrite E in H.
Qed.

Lemma sortedBind_NoDup b : NoDup (sortedBind b).*1.
Proof. apply bt_sorted_NoDup, bt_collect_sorted. Qed.

Lemma read_stmt_first table T st P N : reads sql_ident_tok table T -> means st P N -> st.1 <> [] ->
  exists conds, read_stmt ("SELECT * FROM " +:+ table +:+ " WHERE " +:+ join " AND " st.1 +:+ " LIMIT 1") = Some (Select Star T conds [] 1) /\
    (forall db row, holds db st.2 conds row = P db row) /\ (forall db t, forallb (cond_names db t) conds = N db t).
Proof.
  intros Ht Hm Hne. destruct (where_reads _ _ _ " LIMIT 1" Hm eq_refl eq_refl eq_refl) as (conds & Hw & HP & HN). exists conds. split; [|done].
  unfold read_stmt, read_select. change ("SELECT * FROM " +:+ table +:+ " WHERE " +:+ join " AND " st.1 +:+ " LIMIT 1") with
    ("SELECT " +:+ "*" +:+ " FROM " +:+ table +:+ " WHERE " +:+ join " AND " st.1 +:+ " LIMIT 1").
  rewrite strip_prefix_app. cbn [mbind option_bind]. unfold sql_projection. rewrite strip_prefix_app. cbn [mbind option_bind].
  rewrite strip_prefix_app. cbn [mbind option_bind]. rewrite (proj2 Ht) by done. cbn [mbind option_bind].
  unfold where_text in Hw. destruct st.1 as [|c l]; [done|]. rewrite sapp_assoc in Hw. by rewrite Hw.
Qed.

(** What an update with columns [cols] of values [vs] does. *)
Definition update_answer (host : Host) (ctx : Ctx) (input : Value) (eff : UpdatesEffect) (cols : list string) (vs : list Value)
    (db : Db) (now : Z) (db' : Db) (out : list Row) : Prop :=
  let res := u_Resource eff in
  let target := target host ctx input res (u_Where eff) db in
  exists t, db !! snakeCase (Name res) = Some t /\ target_names res (u_Where eff) db t = true /\
    match cols, touches res (u_Bind eff) with
    | [], false =>
      db' = db /\ match out with
                  | [] => List.filter target (rows t) = []
                  | [r] => In r (rows t) /\ target r = true
                  | _ => False
                  end
    | _, touched =>
      forallb (fun c => bool_decide (c ∈ columns t)) (cols ++ if touched then ["updated_at"] else []) = true /\
      db' = <[snakeCase (Name res) := {| columns := columns t;
        rows := List.map (fun row => if target row then changed res (u_Bind eff) cols vs now row else row) (rows t) |}]> db /\
      out = List.map (changed res (u_Bind eff) cols vs now) (List.filter target (rows t))
    end.

Lemma fold_where_means host ctx input res bind vs st st' : bind <> [] -> baseScopeConditions ctx res (S (List.length vs)) = Ok st ->
  fold_scope (add_where host ctx input) (st.1, vs ++ st.2)%list (sortedBind bind) = Ok st' ->
  means st' (fun db row => target host ctx input res bind db row) (fun db t => target_names res bind db t) /\ st'.1 <> [].
Proof.
  intros Hne Hb Hf. apply means_base in Hb. eapply means_bindings in Hf as [Hm Hl]; [|exact Hb]. split; [exact Hm|].
  intros E. rewrite E in Hl. cbn [List.length] in Hl. destruct (sortedBind bind) eqn:Es; [by apply sortedBind_nil in Es|]. cbn in Hl. lia.
Qed.

Lemma fold_scope_values host ctx input (l : list (string * Source)) : forall st st', fold_scope (add_where host ctx input) st l = Ok st' -> exists more, st'.2 = (st.2 ++ more)%list.
Proof.
  induction l as [|x l IH]; intros st st' H; cbn [fold_scope] in H; [injection H as <-; exists []; by rewrite app_nil_r|].
  step_ok H E. unfold add_where in E. step_ok E Ev. step_ok E Et. apply IH in H as [more ->]. injection E as <-. cbn.
  eexists. by rewrite <-(assoc_L app).
Qed.

Lemma updates_sets res bind host ctx input cols x : bound_columns host ctx input (sortedBind bind) = Ok cols -> stored host res cols = Ok x ->
  let names := List.map (fun b : Bound => b.1.1) cols in
  let sets := (sets_from 0 names ++ if touches res bind then [("updated_at", Now)] else [])%list in
  Forall2 set_text sets (imap (fun i (b : Bound) => b.1.2 +:+ " = " +:+ dollar (S i)) cols ++ if touches res bind then [quoted "updated_at" +:+ " = now()"] else [])%list /\
  NoDup sets.*1 /\ sets.*1 = (names ++ if touches res bind then ["updated_at"] else [])%list /\
  forall more now row, apply_sets (x ++ more) now sets row = changed res bind names x now row.
Proof.
  intros Hc Hx names sets. apply bound_columns_spec in Hc as [Hw Hf]. apply stored_spec in Hx.
  assert (Hkeys : sets.*1 = (names ++ if touches res bind then ["updated_at"] else [])%list).
  { unfold sets. rewrite fmap_app, sets_from_keys. by destruct (touches res bind). }
  split; [|split; [|split; [done|]]].
  - apply Forall2_app; [apply (sets_texts cols 0 Hf)|]. destruct (touches res bind); constructor; [|constructor]. by split.
  - rewrite Hkeys. assert (Hsub : sublist names (sortedBind bind).*1).
    { unfold names. replace (List.map (fun b : Bound => b.1.1) cols) with (List.map (fun b : Bound => (b.1.1, b.2)) cols).*1; [rewrite Hw; apply written_keys|].
      clear. induction cols as [|b cols IH]; cbn; [done|]. by f_equal. }
    assert (NoDup names) by (eapply sublist_NoDup; [apply sortedBind_NoDup|exact Hsub]).
    unfold touches. destruct (bt_contains "updated_at" (sortedBind bind)) eqn:Eb; cbn [negb andb]; [by rewrite app_nil_r|].
    destruct (HasColumn res "updated_at"); [|by rewrite app_nil_r]. apply NoDup_app. split; [done|]. split; [|apply NoDup_singleton].
    intros c Hin ->%list_elem_of_singleton. apply (elem_of_sublist _ _ _ Hin) in Hsub. clear Hin. rename Hsub into Hin. apply list_elem_of_In, bt_keys_In in Hin.
    apply bt_contains_iff in Hin. congruence.
  - intros more now row. unfold sets, apply_sets. rewrite foldl_app. change (foldl _ row (sets_from 0 names)) with (apply_sets (x ++ more) now (sets_from 0 names) row).
    rewrite apply_sets_from. assert (Hl : List.length names = List.length x).
    { unfold names. rewrite length_map. apply Forall2_length in Hx. by rewrite length_map in Hx. }
    rewrite Hl, params_values. unfold changed. by destruct (touches res bind).
Qed.

(** An [UPDATE] of the rows an effect reaches; [extra] are values bound after
    those of the conditions. *)
Lemma effect_update host ctx input res where_ table sets texts vs st st' extra (f : Z -> Row -> Row) :
  reads sql_ident_tok table (snakeCase (Name res)) -> Forall2 set_text sets texts -> texts <> [] -> where_ <> [] ->
  baseScopeConditions ctx res (S (List.length vs)) = Ok st ->
  fold_scope (add_where host ctx input) (st.1, vs ++ st.2)%list (sortedBind where_) = Ok st' ->
  NoDup sets.*1 -> (forall now row, apply_sets (st'.2 ++ extra) now sets row = f now row) ->
  let sql := "UPDATE " +:+ table +:+ " SET " +:+ join ", " texts +:+ " WHERE " +:+ join " AND " st'.1 +:+ " RETURNING *" in
  is_Some (read_stmt sql) /\
  forall db now base db' out, executes db now base sql (st'.2 ++ extra) db' out <->
    exists t, db !! snakeCase (Name res) = Some t /\ target_names res where_ db t = true /\
      forallb (fun c => bool_decide (c ∈ columns t)) sets.*1 = true /\
      db' = <[snakeCase (Name res) := {| columns := columns t;
        rows := List.map (fun row => if target host ctx input res where_ db row then f now row else row) (rows t) |}]> db /\
      out = List.map (f now) (List.filter (target host ctx input res where_ db) (rows t)).
Proof.
  intros Ht Hs Hne Hw Hb Hf Hnd Ha sql. subst sql. destruct (fold_where_means _ _ _ _ _ _ _ _ Hw Hb Hf) as [(conds & Hcr & HP & HN) Hst].
  pose proof (read_stmt_update _ _ _ _ _ _ Ht Hs Hne Hcr Hst) as Hr. split; [by eexists|]. intros db now base db' out.
  rewrite (executes_update _ _ _ _ _ _ _ _ _ _ Hr). by apply updates_iff.
Qed.

Lemma select_effect host ctx input eff sql ps : u_Where eff <> [] -> selectByEffectWhere host ctx input eff = Ok (sql, ps) ->
  let res := u_Resource eff in
  is_Some (read_stmt sql) /\
  forall db now base db' out, executes db now base sql ps db' out <->
    exists t, db !! snakeCase (Name res) = Some t /\ target_names res (u_Where eff) db t = true /\ db' = db /\
      match out with
      | [] => List.filter (target host ctx input res (u_Where eff) db) (rows t) = []
      | [r] => In r (rows t) /\ target host ctx input res (u_Where eff) db r = true
      | _ => False
      end.
Proof.
  intros Hw H res. unfold selectByEffectWhere in H. step_ok H Ebs. step_ok H Efs. step_ok H Et.
  apply Ok_pair in H as [<- <-]. apply table_reads in Et.
  destruct (fold_where_means host ctx input res (u_Where eff) [] x x0) as [Hm Hne]; [done|done|by rewrite app_nil_l, <-surjective_pairing|].
  destruct (read_stmt_first _ _ _ _ _ Et Hm Hne) as (conds & Hr & HP & HN). split; [by eauto|]. intros db now base db' out.
  rewrite (executes_select _ _ _ _ _ _ _ _ _ _ _ _ Hr), selects_first. cbn [project]. split.
  - intros [-> (t & HT & Hn & Ho)]. exists t. rewrite HN in Hn. split; [done|]. split; [done|]. split; [done|].
    destruct out as [|r [|]]; rewrite <-?(filter_ext_in _ _ _ (HP db)); [done| |done]. destruct Ho as (row & Hin & Hh & ->). by rewrite <-HP.
  - intros (t & HT & Hn & -> & Ho). split; [done|]. exists t. rewrite HN. split; [done|]. split; [done|].
    destruct out as [|r [|]]; rewrite ?(filter_ext_in _ _ _ (HP db)); [done| |done]. exists r. rewrite HP. by destruct Ho.
Qed.

Lemma updates_spec host ctx input eff sql ps : applyUpdates host ctx input eff = Ok (sql, ps) ->
  let cols := written host ctx input (sortedBind (u_Bind eff)) in
  exists vs, stored_values host (u_Resource eff) cols vs /\ is_Some (read_stmt sql) /\
  forall db now base db' out, executes db now base sql ps db' out <-> update_answer host ctx input eff cols.*1 vs db now db' out.
Proof.
  intros H cols. assert (Hcols : cols = written host ctx input (sortedBind (u_Bind eff))) by done. clearbody cols.
  unfold applyUpdates in H. destruct (u_Where eff) as [|w ws] eqn:Ew; [done|]. destruct (u_Bind eff) as [|b bs] eqn:Eb; [done|].
  rewrite <-Ew, <-Eb in *. assert (u_Where eff <> []) as Hw0 by by rewrite Ew. clear Ew Eb w ws b bs. step_ok H Ec. step_ok H Ex.
  set (res := u_Resource eff) in *. destruct (updates_sets _ _ _ _ _ _ _ Ec Ex) as (Ht & Hnd & Hk & Ha).
  pose proof (bound_columns_spec _ _ _ _ _ Ec) as [Hw Hf]. rewrite <-Hcols in Hw.
  assert (Hnames : cols.*1 = List.map (fun b : Bound => b.1.1) x).
  { rewrite <-Hw. clear. induction x as [|b x IH]; cbn; [done|]. by f_equal. }
  rewrite Hnames in *. exists x0. split; [rewrite <-Hw; by apply stored_spec|].
  fold (touches res (u_Bind eff)) in H. unfold update_answer. fold res. cbv zeta.
  set (sets := imap _ x) in *. replace (if touches res (u_Bind eff) then _ else sets) with
    (sets ++ if touches res (u_Bind eff) then [quoted "updated_at" +:+ " = now()"] else [])%list in H
    by (destruct (touches res (u_Bind eff)); [done|by rewrite app_nil_r]).
  remember (sets ++ _)%list as texts eqn:Etx. destruct texts as [|t0 texts].
  - symmetry in Etx. apply app_eq_nil in Etx as [E1 E2]. destruct x; [|done]. destruct (touches res (u_Bind eff)); [done|].
    by apply select_effect.
  - rewrite Etx in *. step_ok H Ebs. step_ok H Efs. step_ok H Et. rewrite <-Etx in H. apply Ok_pair in H as [<- <-]. apply table_reads in Et.
    destruct (fold_scope_values _ _ _ _ _ _ Efs) as [more Hmore]. cbn [snd] in Hmore. rewrite <-(assoc_L app) in Hmore.
    assert (Htx : t0 :: texts <> []) by done. rewrite Etx in *.
    destruct (effect_update host ctx input res (u_Where eff) x3 _ _ x0 x1 x2 [] (fun now => changed res (u_Bind eff) (List.map (fun b : Bound => b.1.1) x) x0 now)
      Et Ht Htx Hw0 Ebs Efs Hnd) as [Hr He]; [intros; rewrite app_nil_r, Hmore; apply Ha|]. rewrite app_nil_r in He.
    split; [exact Hr|]. intros db now base db' out. rewrite He, Hk. clear -Htx.
    destruct x as [|c cs]; [|done]. cbn [List.map]. by destruct (touches res (u_Bind eff)).
Qed.

(** ** Effects are always given a statement *)

Definition resolves (host : Host) (ctx : Ctx) (input : Value) (cs : string * Source) : Prop := exists v, resolveSource host ctx input cs.2 = Ok v.

Lemma sorted_Forall (P : string * Source -> Prop) b : Forall P b -> Forall P (sortedBind b).
Proof.
  unfold sortedBind, bt_collect. intros H. assert (Hn : Forall P []) by constructor. revert Hn. generalize (@nil (string * Source)).
  induction H as [|[c s] b Hx _ IH]; intros m Hm; [done|]. apply IH. by apply bt_insert_Forall.
Qed.

Lemma where_builds host ctx input (l : list (string * Source)) st : Forall (fun cs => resolves host ctx input cs /\ condition_plain cs.1 cs.2) l ->
  exists st', fold_scope (add_where host ctx input) st l = Ok st'.
Proof.
  intros H. apply fold_builds. eapply List.Forall_impl; [|exact H]. intros [c src] [[v Hv] Hc] st0. unfold add_where. cbn [fst snd] in *. rewrite Hv.
  cbn [mbind result_bind]. destruct (fragment_builds c src (List.length (st0.2 ++ [v])%list) Hc) as [t ->]. by eexists.
Qed.
Lemma bound_builds host ctx input l : Forall (fun cs => resolves host ctx input cs /\ str_all ident_char cs.1 = true) l ->
  exists cols, bound_columns host ctx input l = Ok cols.
Proof.
  induction 1 as [|[c src] l [[v Hv] Hc] _ [cols IH]]; [by eexists|]. cbn [bound_columns fst snd] in *. rewrite Hv. cbn [mbind result_bind].
  assert (Hgo : exists out, (q ← quoteIdent c; rest ← bound_columns host ctx input l; Ok (((c, q), v) :: rest)) = Ok out)
    by (rewrite quoteIdent_plain, IH by done; by eexists).
  destruct src; try exact Hgo. destruct v; try exact Hgo. by eexists.
Qed.
Lemma stored_builds host res cols : (forall c v, exists w, store_column host (Name res) c v = Ok w) -> exists vs, stored host res cols = Ok vs.
Proof. intros H. apply mapM_all, List.Forall_forall. intros b _. apply H. Qed.

Lemma updates_builds host ctx input eff : let res := u_Resource eff in
  tenant_known ctx res -> str_all ident_char (snakeCase (Name res)) = true -> u_Where eff <> [] -> u_Bind eff <> [] ->
  Forall (fun cs => resolves host ctx input cs /\ condition_plain cs.1 cs.2) (u_Where eff) ->
  Forall (fun cs => resolves host ctx input cs /\ str_all ident_char cs.1 = true) (u_Bind eff) ->
  (forall c v, exists w, store_column host (Name res) c v = Ok w) ->
  exists sql ps, applyUpdates host ctx input eff = Ok (sql, ps).
Proof.
  intros res Ht Hn Hw Hb Hws Hbs Hst. unfold applyUpdates. fold res. apply sorted_Forall in Hws, Hbs.
  destruct (u_Where eff) as [|w0 ws] eqn:Ew; [done|]. destruct (u_Bind eff) as [|b0 bs] eqn:Eb; [done|]. rewrite <-Ew, <-Eb in *.
  destruct (bound_builds _ _ _ _ Hbs) as [cols ->]. cbn [mbind result_bind]. destruct (stored_builds host res cols Hst) as [vs ->]. cbn [mbind result_bind].
  match goal with |- context [match ?x with [] => selectByEffectWhere _ _ _ _ | _ => _ end] => destruct x end.
  - unfold selectByEffectWhere. fold res. destruct (base_builds ctx res 1 Ht) as [st ->]. cbn [mbind result_bind].
    destruct (where_builds _ _ _ _ st Hws) as [st' ->]. cbn [mbind result_bind]. unfold quoteResourceTable. rewrite quoteIdent_plain by done. by eexists _, _.
  - destruct (base_builds ctx res (S (List.length vs)) Ht) as [st ->]. cbn [mbind result_bind].
    destruct (where_builds _ _ _ _ (st.1, vs ++ st.2)%list Hws) as [st' ->]. cbn [mbind result_bind]. unfold quoteResourceTable. rewrite quoteIdent_plain by done. by eexists _, _.
Qed.
Lemma deletes_builds host ctx input eff : let res := d_Resource eff in
  tenant_known ctx res -> str_all ident_char (snakeCase (Name res)) = true -> d_Where eff <> [] ->
  Forall (fun cs => resolves host ctx input cs /\ condition_plain cs.1 cs.2) (d_Where eff) ->
  exists sql ps, applyDeletes host ctx input eff = Ok (sql, ps).
Proof.
  intros res Ht Hn Hw Hws. unfold applyDeletes. fold res. apply sorted_Forall in Hws.
  destruct (d_Where eff) as [|w0 ws] eqn:Ew; [done|]. rewrite <-Ew in *. destruct (base_builds ctx res 1 Ht) as [st ->]. cbn [mbind result_bind].
  destruct (where_builds _ _ _ _ st Hws) as [st' ->]. cbn [mbind result_bind]. unfold quoteResourceTable. rewrite quoteIdent_plain by done. cbn [mbind result_bind].
  destruct (SoftDelete res); [destruct (SoftDeleteActor res)|]; by eexists _, _.
Qed.

(** an updates effect runs one statement, which the database reads; it
    changes exactly the rows its [where] names among those not deleted and of
    the tenant, writes the bound columns (an absent optional input leaves its
    column as it is) and [updated_at], and returns the changed rows; nothing
    else in the database changes. *)
Theorem updates_effect_exact host ctx input eff sql ps : applyUpdates host ctx input eff = Ok (sql, ps) ->
  let cols := written host ctx input (sortedBind (u_Bind eff)) in
  exists vs, stored_values host (u_Resource eff) cols vs /\ is_Some (read_stmt sql) /\
  forall db now base db' out, executes db now base sql ps db' out <-> update_answer host ctx input eff cols.*1 vs db now db' out.
Proof. apply updates_spec. Qed.

(** * The deletes effect *)

(** What soft deletion writes on a row. *)
Definition buried (ctx : Ctx) (res : ResourceErased) (now : Z) (row : Row) : Row :=
  let row := <["deleted_at" := Time now]> row in
  let row := if HasColumn res "updated_at" then <["updated_at" := Time now]> row else row in
  if SoftDeleteActor res then <["deleted_by" := match ctx_User ctx with Some u => Int (ID u) | None => Nil end]> row else row.
Definition buried_columns (res : ResourceErased) : list string :=
  (["deleted_at"] ++ (if HasColumn res "updated_at" then ["updated_at"] else []) ++ if SoftDeleteActor res then ["deleted_by"] else [])%list.

Definition delete_answer (host : Host) (ctx : Ctx) (input : Value) (eff : DeletesEffect) (db : Db) (now : Z) (db' : Db) (out : list Row) : Prop :=
  let res := d_Resource eff in
  let target := target host ctx input res (d_Where eff) db in
  exists t, db !! snakeCase (Name res) = Some t /\ target_names res (d_Where eff) db t = true /\
    if SoftDelete res then
      forallb (fun c => bool_decide (c ∈ columns t)) (buried_columns res) = true /\
      db' = <[snakeCase (Name res) := {| columns := columns t;
        rows := List.map (fun row => if target row then buried ctx res now row else row) (rows t) |}]> db /\
      out = List.map (buried ctx res now) (List.filter target (rows t))
    else
      db' = <[snakeCase (Name res) := {| columns := columns t; rows := List.filter (fun row => negb (target row)) (rows t) |}]> db /\
      out = List.filter target (rows t).

Lemma executes_delete db now base sql ps t conds db' out : read_stmt sql = Some (Delete t conds) ->
  executes db now base sql ps db' out <-> deletes db ps t conds = Some (db', out).
Proof.
  intros H. split.
  - intros He; inversion He; by simplify_eq.
  - intros Hu. by eapply exec_delete.
Qed.

Lemma deletes_iff db ps T conds (P : Row -> bool) (N : Table -> bool) db' out :
  (forall row, holds db ps conds row = P row) -> (forall t, forallb (cond_names db t) conds = N t) ->
  deletes db ps T conds = Some (db', out) <->
  exists t, db !! T = Some t /\ N t = true /\
    db' = <[T := {| columns := columns t; rows := List.filter (fun row => negb (P row)) (rows t) |}]> db /\ out = List.filter P (rows t).
Proof.
  intros HP HN. unfold deletes. destruct (db !! T) as [t|]; cbn [mbind option_bind]; [|by split; [|intros (t & ? & _)]].
  rewrite HN, (filter_ext_in _ _ _ HP). rewrite (filter_ext_in (fun row => negb (holds db ps conds row)) (fun row => negb (P row))) by (intros; by rewrite HP).
  destruct (N t) eqn:En.
  - split; [intros [= <- <-]; by exists t|]. intros (t' & [= <-] & _ & -> & ->). done.
  - split; [done|]. intros (t' & [= <-] & Hn & _). congruence.
Qed.

Definition buried_extra (ctx : Ctx) (res : ResourceErased) : list Value :=
  if SoftDeleteActor res then [match ctx_User ctx with Some u => Int (ID u) | None => Nil end] else [].
(** The assignments of a soft deletion, the actor bound as [$n]. *)
Definition buried_sets (res : ResourceErased) (n : nat) : list (string * SetExpr) :=
  ([("deleted_at", Now)] ++ (if HasColumn res "updated_at" then [("updated_at", Now)] else []) ++
   if SoftDeleteActor res then [("deleted_by", Param n)] else [])%list.
Definition buried_texts (res : ResourceErased) (n : nat) : list string :=
  (([quoted "deleted_at" +:+ " = now()"] ++ (if HasColumn res "updated_at" then [quoted "updated_at" +:+ " = now()"] else [])) ++
   if SoftDeleteActor res then [quoted "deleted_by" +:+ " = " +:+ dollar n] else [])%list.

Lemma buried_set_texts res n : Forall2 set_text (buried_sets res n) (buried_texts res n).
Proof.
  unfold buried_sets, buried_texts. rewrite <-(assoc_L app).
  repeat apply Forall2_app; [|destruct (HasColumn _ _)|destruct (SoftDeleteActor res)]; repeat constructor.
Qed.

Lemma buried_spec ctx res (vs : list Value) :
  let sets := buried_sets res (List.length (vs ++ buried_extra ctx res)) in
  NoDup sets.*1 /\ sets.*1 = buried_columns res /\ forall now row, apply_sets (vs ++ buried_extra ctx res) now sets row = buried ctx res now row.
Proof.
  intros sets. unfold sets, buried_sets, buried_extra, buried, buried_columns.
  destruct (HasColumn res "updated_at"), (SoftDeleteActor res); cbn -[param];
    (split; [apply (bool_decide_eq_true_1 _); vm_compute; reflexivity|split; [done|intros now row]]); try done.
  all: f_equal; rewrite <-(app_nil_r (vs ++ _)%list) at 1; by rewrite param_app.
Qed.

Lemma deletes_spec host ctx input eff sql ps : applyDeletes host ctx input eff = Ok (sql, ps) ->
  is_Some (read_stmt sql) /\
  forall db now base db' out, executes db now base sql ps db' out <-> delete_answer host ctx input eff db now db' out.
Proof.
  intros H. unfold applyDeletes in H. destruct (d_Where eff) as [|w ws] eqn:Ew; [done|]. rewrite <-Ew in *.
  assert (d_Where eff <> []) as Hw0 by by rewrite Ew. clear Ew w ws. set (res := d_Resource eff) in *.
  step_ok H Eb. step_ok H Ef. step_ok H Et. apply table_reads in Et. unfold delete_answer. fold res. cbv zeta.
  assert (Ef' : fold_scope (add_where host ctx input) (x.1, [] ++ x.2)%list (sortedBind (d_Where eff)) = Ok x0) by (by destruct x).
  destruct (SoftDelete res).
  - set (n := List.length (x0.2 ++ buried_extra ctx res)). destruct (buried_spec ctx res x0.2) as (Hnd & Hk & Ha). fold n in Hnd, Hk, Ha.
    destruct (effect_update host ctx input res (d_Where eff) x1 _ _ [] x x0 _ _ Et (buried_set_texts res n) ltac:(done) Hw0 Eb Ef' Hnd Ha) as [Hr He].
    rewrite Hk in He. unfold n, buried_texts, buried_extra in Hr, He.
    destruct (SoftDeleteActor res); apply Ok_pair in H as [<- <-]; rewrite ?app_nil_r in *; by split.
  - apply Ok_pair in H as [<- <-]. destruct (fold_where_means _ _ _ _ _ [] _ _ Hw0 Eb Ef') as [(conds & Hcr & HP & HN) Hst].
    pose proof (read_stmt_delete _ _ _ _ Et Hcr Hst) as Hr. split; [by eexists|]. intros db now base db' out.
    rewrite (executes_delete _ _ _ _ _ _ _ _ _ Hr). apply deletes_iff; [|done]. intros row. by rewrite <-(app_nil_r x0.2), HP.
Qed.

(** a deletes effect removes, or marks deleted with the time and the actor,
    exactly the rows its [where] names among those not yet deleted and of the
    tenant, and returns them; nothing else in the database changes. *)
Theorem deletes_effect_exact host ctx input eff sql ps : applyDeletes host ctx input eff = Ok (sql, ps) ->
  is_Some (read_stmt sql) /\
  forall db now base db' out, executes db now base sql ps db' out <-> delete_answer host ctx input eff db now db' out.
Proof. apply deletes_spec. Qed.

(** * What a write cannot reach *)

(** [db'] differs from [db] in [T] only, where every row that is not [P] is where
    it was. *)
Definition confined_to (T : string) (P : Row -> bool) (db db' : Db) : Prop :=
  (forall T', T' <> T -> db' !! T' = db !! T') /\
  exists t t' (g : Row -> list Row), db !! T = Some t /\ db' !! T = Some t' /\ columns t' = columns t /\
    rows t' = flat_map g (rows t) /\ forall row, P row = false -> g row = [row].
(** Every row the request cannot see is where it was. *)
Definition confined (ctx : Ctx) (res : ResourceErased) : Db -> Db -> Prop := confined_to (snakeCase (Name res)) (visible ctx res).

Lemma confined_mono T (P Q : Row -> bool) db db' : (forall row, Q row = false -> P row = false) -> confined_to T P db db' -> confined_to T Q db db'.
Proof. intros H [Ho (t & t' & g & H1 & H2 & H3 & H4 & H5)]. split; [done|]. exists t, t', g. repeat split; auto. Qed.

Lemma flat_map_map {A} (f : A -> A) l : List.map f l = flat_map (fun x => [f x]) l.
Proof. induction l as [|x l IH]; cbn; [done|]. by f_equal. Qed.

Lemma flat_map_filter {A} (p : A -> bool) l : List.filter p l = flat_map (fun x => if p x then [x] else []) l.
Proof. induction l as [|x l IH]; cbn; [done|]. destruct (p x); cbn; by rewrite IH. Qed.

Lemma target_visible host ctx input res where_ db row : visible ctx res row = false -> target host ctx input res where_ db row = false.
Proof. unfold target. by intros ->. Qed.

Lemma confined_insert T P (db : Db) t g : db !! T = Some t -> (forall row, P row = false -> g row = [row]) ->
  confined_to T P db (<[T := {| columns := columns t; rows := flat_map g (rows t) |}]> db).
Proof.
  intros Ht Hg. split; [intros; by apply lookup_insert_ne|]. eexists t, _, g. split; [done|]. split; [apply lookup_insert_eq|done].
Qed.

Lemma confined_refl T P (db : Db) t : db !! T = Some t -> confined_to T P db db.
Proof.
  intros Ht. split; [done|]. exists t, t, (fun row => [row]). split; [done|]. split; [done|]. split; [done|]. split; [|done].
  induction (rows t) as [|x l IH]; cbn; [done|]. by f_equal.
Qed.

Lemma update_target host ctx input eff cols vs db now db' out : update_answer host ctx input eff cols vs db now db' out ->
  confined_to (snakeCase (Name (u_Resource eff))) (target host ctx input (u_Resource eff) (u_Where eff) db) db db'.
Proof.
  intros (t & Ht & _ & H). set (f := changed (u_Resource eff) (u_Bind eff) cols vs now).
  assert (Hc : db' = <[snakeCase (Name (u_Resource eff)) := {| columns := columns t;
        rows := List.map (fun row => if target host ctx input (u_Resource eff) (u_Where eff) db row then f row else row) (rows t) |}]> db ->
    confined_to (snakeCase (Name (u_Resource eff))) (target host ctx input (u_Resource eff) (u_Where eff) db) db db').
  { intros ->. rewrite flat_map_map. apply confined_insert; [done|]. by intros row ->. }
  destruct cols as [|c cols]; [destruct (touches _ _)|]; try (destruct H as (_ & H & _); by apply Hc).
  destruct H as [-> _]. by eapply confined_refl.
Qed.

Lemma delete_target host ctx input eff db now db' out : delete_answer host ctx input eff db now db' out ->
  confined_to (snakeCase (Name (d_Resource eff))) (target host ctx input (d_Resource eff) (d_Where eff) db) db db'.
Proof.
  intros (t & Ht & _ & H). destruct (SoftDelete (d_Resource eff)) eqn:E.
  - destruct H as (_ & -> & _). rewrite flat_map_map. apply confined_insert; [done|]. by intros row ->.
  - destruct H as [-> _]. rewrite flat_map_filter. apply confined_insert; [done|]. by intros row ->.
Qed.

Lemma update_confined host ctx input eff cols vs db now db' out : update_answer host ctx input eff cols vs db now db' out -> confined ctx (u_Resource eff) db db'.
Proof. intros H. eapply confined_mono, update_target, H. intros row. apply target_visible. Qed.
Lemma delete_confined host ctx input eff db now db' out : delete_answer host ctx input eff db now db' out -> confined ctx (d_Resource eff) db db'.
Proof. intros H. eapply confined_mono, delete_target, H. intros row. apply target_visible. Qed.

Lemma base_tenant ctx res n st : baseScopeConditions ctx res n = Ok st -> Tenancy res = TenancyOrg -> is_Some (ctx_Tenant ctx).
Proof. unfold baseScopeConditions. intros H E. rewrite E in H. by destruct (ctx_Tenant ctx). Qed.

Lemma updates_tenant host ctx input eff sql ps : applyUpdates host ctx input eff = Ok (sql, ps) -> Tenancy (u_Resource eff) = TenancyOrg -> is_Some (ctx_Tenant ctx).
Proof.
  intros H Ht. unfold applyUpdates in H. destruct (u_Where eff) as [|w ws] eqn:Ew; [done|]. destruct (u_Bind eff) as [|b bs] eqn:Eb; [done|].
  step_ok H Ec. step_ok H Ex. case_in H.
  - unfold selectByEffectWhere in H. step_ok H Eb'. by eapply base_tenant.
  - step_ok H Eb'. by eapply base_tenant.
Qed.

Lemma deletes_tenant host ctx input eff sql ps : applyDeletes host ctx input eff = Ok (sql, ps) -> Tenancy (d_Resource eff) = TenancyOrg -> is_Some (ctx_Tenant ctx).
Proof.
  intros H Ht. unfold applyDeletes in H. destruct (d_Where eff); [done|]. step_ok H Eb'. by eapply base_tenant.
Qed.

(** C12: an update or a deletion touches one table, and there no row that is
    deleted or, on a tenant-scoped resource, of another tenant; it is refused
    there without a tenant. *)
Theorem writes_stay_in_tenant host ctx input sql ps :
  (forall eff, applyUpdates host ctx input eff = Ok (sql, ps) ->
    (Tenancy (u_Resource eff) = TenancyOrg -> is_Some (ctx_Tenant ctx)) /\
    forall db now base db' out, executes db now base sql ps db' out -> confined ctx (u_Resource eff) db db') /\
  (forall eff, applyDeletes host ctx input eff = Ok (sql, ps) ->
    (Tenancy (d_Resource eff) = TenancyOrg -> is_Some (ctx_Tenant ctx)) /\
    forall db now base db' out, executes db now base sql ps db' out -> confined ctx (d_Resource eff) db db').
Proof.
  split; intros eff H.
  - split; [by eapply updates_tenant|]. intros db now base db' out He. destruct (updates_spec _ _ _ _ _ _ H) as (vs & _ & _ & Hs).
    eapply update_confined, Hs, He.
  - split; [by eapply deletes_tenant|]. intros db now base db' out He. eapply delete_confined, deletes_spec; [exact H|exact He].
Qed.

Lemma buried_dead ctx res now row : SoftDelete res = true -> live res (buried ctx res now row) = false.
Proof.
  intros H. unfold live, buried. rewrite H. unfold cell.
  destruct (SoftDeleteActor res), (HasColumn res "updated_at"); rewrite ?lookup_insert_ne by done; by rewrite lookup_insert_eq.
Qed.

(** C22: A row that a deletes effect removed or marked is returned by no list
    statement ([buildListSQL]) of the resource run on the database after it, of
    whatever request: every row returned is the projection of one the deletion did
    not target. An answer kept in the query cache from before is not run on the
    database and is outside: [RunList] serves it until it is evicted. *)
Theorem deleted_never_listed host ctx input eff sql ps db now base db' out ctx' args q sql' ps' now' base' db'' out' r :
  applyDeletes host ctx input eff = Ok (sql, ps) -> executes db now base sql ps db' out ->
  q_Resource q = Some (d_Resource eff) -> buildListSQL host ctx' args q = Ok (sql', ps') -> executes db' now' base' sql' ps' db'' out' -> In r out' ->
  exists t row, db !! snakeCase (Name (d_Resource eff)) = Some t /\ In row (rows t) /\
    target host ctx input (d_Resource eff) (d_Where eff) db row = false /\ r = project (projection_of host ctx' (d_Resource eff) (row_type q)) row.
Proof.
  intros Hd He Hq Hl He' Hin. destruct (list_reads _ _ _ _ _ _ _ Hq Hl) as (conds & Hr & HP & _).
  apply (executes_select _ _ _ _ _ _ _ _ _ _ _ _ Hr) in He' as [-> (t' & sorted & Ht' & _ & Hp & _ & ->)].
  apply in_map_iff in Hin as (row & <- & Hrow). apply In_firstn in Hrow. apply (Permutation_in _ Hp), filter_In in Hrow as [Hrow Hh].
  rewrite HP in Hh. unfold wanted, visible in Hh.
  apply andb_true_iff in Hh as [Hh _]. apply andb_true_iff in Hh as [Hh _]. apply andb_true_iff in Hh as [Hlive _].
  destruct (deletes_spec _ _ _ _ _ _ Hd) as [_ Hs]. apply Hs in He as (t & Ht & _ & He). destruct (SoftDelete (d_Resource eff)) eqn:Esd.
  - destruct He as (_ & -> & _). rewrite lookup_insert_eq in Ht'. injection Ht' as <-. cbn [rows] in Hrow. apply in_map_iff in Hrow as (row0 & E & Hrow).
    case_in E; subst row; [by rewrite buried_dead in Hlive|]. by exists t, row0.
  - destruct He as [-> _]. rewrite lookup_insert_eq in Ht'. injection Ht' as <-. cbn [rows] in Hrow. apply filter_In in Hrow as [Hrow Ht0].
    exists t, row. by rewrite negb_true_iff in Ht0.
Qed.

(** * The creates effect *)

(** The columns of a created row: the bound ones, the tenant's unless bound, and
    [updated_at] unless bound. *)
Definition tenant_columns (res : ResourceErased) (bind : Bindings) (tenant : option Z) : list (string * Value) :=
  match Tenancy res, tenant with
  | TenancyOrg, Some org => omap (fun c => if bt_contains c (sortedBind bind) then None else Some (c, Int org)) ["org_id"; "org"]
  | _, _ => []
  end.
Definition created_columns (host : Host) (ctx : Ctx) (input : Value) (eff : CreatesEffect) (tenant : option Z) : list (string * Value) :=
  let res := c_Resource eff in
  (written host ctx input (sortedBind (c_Bind eff)) ++ tenant_columns res (c_Bind eff) tenant ++
   if touches res (c_Bind eff) then [("updated_at", Time (clock ctx))] else [])%list.

(** A row of [table] has the id and the owner. *)
Definition owns (db : Db) (t : Table) (oc : OwnerCheckSpec) (id actor : Value) : bool :=
  existsb (fun r => bool_decide (sql_eq (cell r "id") id = Some true) && bool_decide (sql_eq (cell r (ThroughColumn oc)) actor = Some true)) (rows t).

Definition create_answer (ctx : Ctx) (eff : CreatesEffect) (cols : list string) (vs : list Value) (db : Db) (base : Row) (db' : Db) (out : list Row) : Prop :=
  let T := snakeCase (Name (c_Resource eff)) in
  let row := set_columns base (List.combine cols vs) in
  exists t, db !! T = Some t /\ forallb (fun c => bool_decide (c ∈ columns t)) cols = true /\
    let inserted := db' = <[T := {| columns := columns t; rows := rows t ++ [row] |}]> db /\ out = [row] in
    match OwnerCheck eff with
    | None => inserted
    | Some oc =>
      exists related u id, db !! RelatedTable oc = Some related /\ ctx_User ctx = Some u /\ In (FKColumn oc, id) (List.combine cols vs) /\
        if owns db related oc id (Int (ID u)) then inserted else db' = db /\ out = []
    end.

Lemma executes_insert db now base sql ps check t cols db' out : read_stmt sql = Some (Insert check t cols) ->
  executes db now base sql ps db' out <-> inserts db ps base check t cols = Some (db', out).
Proof.
  intros H. split.
  - intros He; inversion He; by simplify_eq.
  - intros Hu. by eapply exec_insert.
Qed.

Lemma read_stmt_insert s : (starts_with "INSERT" s || starts_with "WITH" s) = true -> read_stmt s = read_insert s.
Proof.
  intros H. assert (exists c r, s = String c r /\ ((c =a? "S") || (c =a? "U") || (c =a? "D")) = false) as (c & r & -> & Hc).
  { destruct s as [|c r]; [done|]. exists c, r. split; [done|]. cbn [starts_with] in H.
    destruct (Ascii.eqb_spec "I" c); [by subst|]. destruct (Ascii.eqb_spec "W" c); [by subst|done]. }
  apply orb_false_iff in Hc as [Hc H3]. apply orb_false_iff in Hc as [H1 H2]. unfold read_stmt, read_select, read_reposition, read_update, read_delete, strip_prefix.
  cbn [starts_with]. rewrite Ascii.eqb_sym, H1, (Ascii.eqb_sym "U"), H2, (Ascii.eqb_sym "D"), H3. done.
Qed.

Lemma placeholders_reads {A} (l : list A) : forall k, Forall2 (reads sql_param) (imap (fun i (_ : A) => dollar (S (k + i))) l) (seq (S k) (List.length l)).
Proof.
  induction l as [|x l IH]; intros k; [constructor|]. rewrite imap_cons. cbn [List.length seq]. constructor.
  - rewrite Nat.add_0_r. apply reads_param.
  - erewrite imap_ext; [apply (IH (S k))|]. intros i y _. cbn. by rewrite Nat.add_succ_r.
Qed.

Lemma insert_params names : forall k ps (base : Row),
  foldl (fun row (cn : string * nat) => <[cn.1 := param ps cn.2]> row) base (List.combine names (seq (S k) (List.length names))) =
  set_columns base (List.combine names (List.map (param ps) (seq (S k) (List.length names)))).
Proof. unfold set_columns. induction names as [|n names IH]; intros k ps base; [done|]. cbn. apply (IH (S k)). Qed.

Lemma insert_keys (names : list string) k : (List.combine names (seq k (List.length names))).*1 = names.
Proof. revert k. induction names as [|n names IH]; intros k; cbn; [done|]. by rewrite IH. Qed.

(** The columns of the statement, with their quoted forms. *)
Definition quoted_bound (cv : string * Value) : Bound := ((cv.1, quoted cv.1), cv.2).

Lemma created_bounds host ctx input eff cols tenant : bound_columns host ctx input (sortedBind (c_Bind eff)) = Ok cols ->
  let res := c_Resource eff in
  let bind := sortedBind (c_Bind eff) in
  let cols1 := match Tenancy res, tenant with
    | TenancyOrg, Some org =>
      (cols ++ omap (fun col => if bt_contains col bind then None else Some ((col, quoted col), Int org)) ["org_id"; "org"])%list
    | _, _ => cols
    end in
  (if HasColumn res "updated_at" && negb (bt_contains "updated_at" bind)
   then (cols1 ++ [(("updated_at", quoted "updated_at"), Time (clock ctx))])%list else cols1) =
  List.map quoted_bound (created_columns host ctx input eff tenant).
Proof.
  intros H res bind cols1. apply bound_columns_spec in H as [Hw Hf].
  assert (Hq : List.map quoted_bound (written host ctx input bind) = cols).
  { unfold bind. rewrite <-Hw. clear -Hf. induction Hf as [|b cols [E _] _ IH]; [done|]. cbn [List.map]. rewrite IH.
    destruct b as [[c q] v]. cbn in *. by subst. }
  unfold created_columns, touches, tenant_columns, cols1. fold res bind. rewrite !map_app, Hq, (andb_comm (HasColumn res "updated_at")).
  destruct (negb (bt_contains "updated_at" bind) && HasColumn res "updated_at"), (Tenancy res), tenant; cbn [List.map]; rewrite ?app_nil_r; try done;
    rewrite ?(assoc_L app); repeat f_equal; cbn; by destruct (bt_contains "org_id" bind), (bt_contains "org" bind).
Qed.

Lemma created_NoDup host ctx input eff tenant : NoDup (created_columns host ctx input eff tenant).*1.
Proof.
  unfold created_columns. rewrite !fmap_app. set (bind := sortedBind (c_Bind eff)).
  assert (Hsub : forall c, In c (written host ctx input bind).*1 -> bt_contains c bind = true).
  { intros c Hc. apply bt_contains_iff, bt_keys_In. apply list_elem_of_In. eapply elem_of_sublist; [by apply list_elem_of_In|apply written_keys]. }
  assert (Ht : forall c, In c (tenant_columns (c_Resource eff) (c_Bind eff) tenant).*1 -> bt_contains c bind = false /\ (c = "org_id" \/ c = "org")).
  { intros c Hc. unfold tenant_columns in Hc. fold bind in Hc. destruct (Tenancy (c_Resource eff)), tenant; try done. cbn in Hc.
    destruct (bt_contains "org_id" bind) eqn:E1, (bt_contains "org" bind) eqn:E2; cbn in Hc; naive_solver. }
  apply NoDup_app. split; [|split].
  - eapply sublist_NoDup; [apply (sortedBind_NoDup (c_Bind eff))|apply written_keys].
  - intros c Hc%list_elem_of_In Hin%list_elem_of_In. apply Hsub in Hc. apply in_app_or in Hin as [Hin|Hin].
    + apply Ht in Hin as [Hin _]. congruence.
    + unfold touches in Hin. fold bind in Hin. destruct (bt_contains "updated_at" bind) eqn:E; [done|]. cbn in Hin.
      destruct (Timestamps _); [|done]. cbn in Hin. destruct Hin as [<-|[]]. congruence.
  - apply NoDup_app. split; [|split].
    + unfold tenant_columns. destruct (Tenancy (c_Resource eff)), tenant; try constructor. cbn.
      destruct (bt_contains "org_id" _), (bt_contains "org" _); apply (bool_decide_eq_true_1 _); vm_compute; reflexivity.
    + intros c Hc%list_elem_of_In Hin%list_elem_of_In. apply Ht in Hc as [_ Hc]. destruct (touches _ _); [|done]. cbn in Hin. naive_solver.
    + destruct (touches _ _); cbn; [apply NoDup_singleton|constructor].
Qed.

Lemma bounds_names (cvs : list (string * Value)) : Forall (fun cv => str_all ident_char cv.1 = true) cvs ->
  Forall2 (reads sql_ident_tok) (List.map (fun b : Bound => b.1.2) (List.map quoted_bound cvs)) cvs.*1.
Proof. induction 1 as [|cv cvs Hc _ IH]; cbn; constructor; [by apply reads_ident|done]. Qed.

Lemma bounds_keys (cvs : list (string * Value)) : List.map (fun b : Bound => (b.1.1, b.2)) (List.map quoted_bound cvs) = cvs.
Proof. induction cvs as [|[c v] cvs IH]; cbn; [done|]. by rewrite IH. Qed.

Lemma created_idents host ctx input eff cols tenant : bound_columns host ctx input (sortedBind (c_Bind eff)) = Ok cols ->
  Forall (fun cv => str_all ident_char cv.1 = true) (created_columns host ctx input eff tenant).
Proof.
  intros H. apply bound_columns_spec in H as [Hw Hf]. unfold created_columns. repeat apply Forall_app_2.
  - rewrite <-Hw. clear -Hf. induction Hf as [|b cols [_ Hc] _ IH]; cbn; by constructor.
  - unfold tenant_columns. destruct (Tenancy _), tenant; try constructor. cbn. destruct (bt_contains "org_id" _), (bt_contains "org" _); repeat constructor.
  - destruct (touches _ _); repeat constructor.
Qed.

(** An [INSERT] of [cvs], checked or not. *)
Lemma inserts_iff db ps base check T names (vs more : list Value) db' out : List.length names = List.length vs -> NoDup names -> ps = (vs ++ more)%list ->
  let row := set_columns base (List.combine names vs) in
  inserts db ps base check T (List.combine names (seq 1 (List.length names))) = Some (db', out) <->
  exists t, db !! T = Some t /\ forallb (fun c => bool_decide (c ∈ columns t)) names = true /\
    let inserted := db' = <[T := {| columns := columns t; rows := rows t ++ [row] |}]> db /\ out = [row] in
    match check with
    | None => inserted
    | Some o => exists related, db !! oc_table o = Some related /\
        if existsb (fun r => bool_decide (sql_eq (cell r "id") (param ps (oc_id o)) = Some true) &&
                             bool_decide (sql_eq (cell r (oc_owner o)) (param ps (oc_actor o)) = Some true)) (rows related)
        then inserted else db' = db /\ out = []
    end.
Proof.
  intros Hl Hnd -> row. unfold inserts. destruct (db !! T) as [t|]; cbn [mbind option_bind]; [|by split; [|intros (t & ? & _)]].
  rewrite insert_params, Hl, params_values. fold row. rewrite <-Hl, insert_keys, (bool_decide_eq_true_2 _ Hnd), andb_true_r.
  assert (forallb (fun cn : string * nat => bool_decide (cn.1 ∈ columns t)) (List.combine names (seq 1 (List.length names))) = forallb (fun c => bool_decide (c ∈ columns t)) names) as ->.
  { rewrite <-(insert_keys names 1) at 3. generalize (List.combine names (seq 1 (List.length names))). intros l. induction l as [|x l IH]; cbn; [done|]. by rewrite IH. }
  destruct (forallb _ names) eqn:Ec; [|split; [done|intros (t' & [= <-] & Hc & _); congruence]].
  destruct check as [o|]; cbn [mbind option_bind].
  - destruct (db !! oc_table o) as [related|]; cbn [mbind option_bind]; [|split; [done|intros (t' & _ & _ & r & ? & _); done]].
    destruct (existsb _ (rows related)) eqn:E; (split;
      [intros [= <- <-]; exists t; split; [done|]; split; [done|]; exists related; split; [done|]; by rewrite E
      |intros (t' & [= <-] & _ & r & [= <-] & H); rewrite E in H; by destruct H as [-> ->]]).
  - split; [intros [= <- <-]; by exists t|intros (t' & [= <-] & _ & -> & ->); done].
Qed.

Lemma param_last (vs : list Value) v : param (vs ++ [v]) (S (List.length vs)) = v.
Proof. unfold param. rewrite lookup_app_r by lia. by replace (S (List.length vs) - 1 - List.length vs) with 0 by lia. Qed.

Lemma param_at (vs more : list Value) i v : vs !! i = Some v -> param (vs ++ more) (S i) = v.
Proof. intros H. unfold param. replace (S i - 1) with i by lia. by rewrite (lookup_app_l_Some _ _ _ _ H). Qed.

Lemma read_stmt_plain table T names cols phs : reads sql_ident_tok table T -> Forall2 (reads sql_ident_tok) names cols -> names <> [] ->
  Forall2 (reads sql_param) phs (seq 1 (List.length cols)) ->
  read_stmt ("INSERT INTO " +:+ table +:+ " (" +:+ join ", " names +:+ ") VALUES (" +:+ join ", " phs +:+ ") RETURNING *") =
  Some (Insert None T (List.combine cols (seq 1 (List.length cols)))).
Proof.
  intros Ht Hn Hne Hp. rewrite read_stmt_insert by done. unfold read_insert. cbn [strip_prefix].
  replace (strip_prefix "WITH owner_check AS (SELECT 1 FROM " _) with (@None string) by done.
  apply read_insert_into_reads; try done; [|by rewrite length_seq].
  intros ->. apply Forall2_length in Hp, Hn. rewrite length_seq in Hp. destruct names, cols; done.
Qed.

Lemma read_stmt_checked table T names cols phs related R through O i n : reads sql_ident_tok table T -> Forall2 (reads sql_ident_tok) names cols -> names <> [] ->
  Forall2 (reads sql_param) phs (seq 1 (List.length cols)) -> reads sql_ident_tok related R -> reads sql_ident_tok through O ->
  read_stmt ("WITH owner_check AS (SELECT 1 FROM " +:+ related +:+ " WHERE id = " +:+ dollar i +:+ " AND " +:+ through +:+ " = " +:+
          dollar n +:+ ") INSERT INTO " +:+ table +:+ " (" +:+ join ", " names +:+ ") SELECT " +:+ join ", " phs +:+ " FROM owner_check RETURNING *") =
  Some (Insert (Some {| oc_table := R; oc_id := i; oc_owner := O; oc_actor := n |}) T (List.combine cols (seq 1 (List.length cols)))).
Proof.
  intros Ht Hn Hne Hp Hr Ho. rewrite read_stmt_insert by done. unfold read_insert. rewrite strip_prefix_app.
  rewrite (proj2 Hr) by done. cbn [mbind option_bind]. rewrite strip_prefix_app. cbn [mbind option_bind].
  rewrite (proj2 (reads_param i)) by done. cbn [mbind option_bind]. rewrite strip_prefix_app. cbn [mbind option_bind].
  rewrite (proj2 Ho) by done. cbn [mbind option_bind]. rewrite strip_prefix_app. cbn [mbind option_bind].
  rewrite (proj2 (reads_param n)) by done. cbn [mbind option_bind].
  set (rest := table +:+ " (" +:+ _). change (") INSERT INTO " +:+ rest) with (") " +:+ "INSERT INTO " +:+ rest). rewrite strip_prefix_app. cbn [mbind option_bind].
  unfold rest. apply read_insert_into_reads; try done; [|by rewrite length_seq].
  intros ->. apply Forall2_length in Hp, Hn. rewrite length_seq in Hp. destruct names, cols; done.
Qed.

Lemma create_statement host ctx input eff sql ps : applyCreates host ctx input eff = Ok (sql, ps) ->
  exists tenant vs more table, create_tenant host ctx (c_Resource eff) = Ok tenant /\
    stored_values host (c_Resource eff) (created_columns host ctx input eff tenant) vs /\ ps = (vs ++ more)%list /\
    reads sql_ident_tok table (snakeCase (Name (c_Resource eff))) /\
    let cvs := created_columns host ctx input eff tenant in
    let names := List.map (fun b : Bound => b.1.2) (List.map quoted_bound cvs) in
    let phs := imap (fun i (_ : Bound) => dollar (S i)) (List.map quoted_bound cvs) in
    Forall2 (reads sql_ident_tok) names cvs.*1 /\
    match OwnerCheck eff with
    | None => more = [] /\ sql = "INSERT INTO " +:+ table +:+ " (" +:+ join ", " names +:+ ") VALUES (" +:+ join ", " phs +:+ ") RETURNING *"
    | Some oc => exists i v u related through, list_find (fun b : Bound => b.1.1 = FKColumn oc) (List.map quoted_bound cvs) = Some (i, v) /\
        ctx_User ctx = Some u /\ more = [Int (ID u)] /\ reads sql_ident_tok related (RelatedTable oc) /\ reads sql_ident_tok through (ThroughColumn oc) /\
        sql = "WITH owner_check AS (SELECT 1 FROM " +:+ related +:+ " WHERE id = " +:+ dollar (S i) +:+ " AND " +:+ through +:+ " = " +:+
          dollar (S (List.length vs)) +:+ ") INSERT INTO " +:+ table +:+ " (" +:+ join ", " names +:+ ") SELECT " +:+ join ", " phs +:+ " FROM owner_check RETURNING *"
    end.
Proof.
  intros H. unfold applyCreates in H. cbv zeta in H. step_ok H Ec. step_ok H Et. cbv zeta in H. rewrite (created_bounds _ _ _ _ _ _ Ec) in H.
  step_ok H Es. apply stored_spec in Es. rewrite bounds_keys in Es. pose proof (bounds_names _ (created_idents _ _ _ _ _ x0 Ec)) as Hn.
  exists x0, x1. destruct (OwnerCheck eff) as [oc|].
  - destruct (list_find _ _) as [[i v]|] eqn:Ef; [|done]. step_ok H Ea. step_ok H Er. step_ok H Eth. step_ok H Etb. apply Ok_pair in H as [<- <-].
    apply table_reads in Etb. apply quoteIdent_Ok in Er as [Hr ->], Eth as [Hth ->].
    assert (exists u, ctx_User ctx = Some u /\ x2 = Int (ID u)) as (u & Hu & ->).
    { unfold readCtx in Ea. cbn in Ea. destruct (ctx_User ctx) as [u|]; [|done]. injection Ea as <-. by exists u. }
    exists [Int (ID u)], x5. repeat (split; [done|]). exists i, v, u, (quoted (RelatedTable oc)), (quoted (ThroughColumn oc)).
    repeat (split; [done || by apply reads_ident|]). done.
  - step_ok H Etb. apply Ok_pair in H as [<- <-]. apply table_reads in Etb. exists [], x2. rewrite app_nil_r. by repeat (split; [done|]).
Qed.

(** The value the owner check compares with the related id. *)
Lemma fk_value cvs fk i v (vs : list Value) : list_find (fun b : Bound => b.1.1 = fk) (List.map quoted_bound cvs) = Some (i, v) -> List.length cvs = List.length vs ->
  exists id, vs !! i = Some id /\ In (fk, id) (List.combine cvs.*1 vs).
Proof.
  intros (Hi & Hv & _)%list_find_Some Hl. rewrite list_lookup_fmap in Hi. destruct (cvs !! i) as [[c w]|] eqn:Ei; [|done]. injection Hi as <-. cbn in Hv. subst c.
  assert (is_Some (vs !! i)) as [id Hid] by (apply lookup_lt_is_Some; rewrite <-Hl; by eapply lookup_lt_Some).
  exists id. split; [done|]. clear Hl. revert cvs vs Ei Hid. induction i as [|i IH]; intros [|[c w'] cvs] [|v' vs] Ei Hid; try done; cbn in *.
  - left. congruence.
  - right. by eapply IH.
Qed.

Lemma combine_functional {A} (names : list string) (vs : list A) c x y : NoDup names -> In (c, x) (List.combine names vs) -> In (c, y) (List.combine names vs) -> x = y.
Proof.
  revert vs. induction names as [|n names IH]; intros [|v vs] Hnd Hx Hy; try done. apply NoDup_cons in Hnd as [Hn Hnd]. cbn in Hx, Hy.
  rewrite list_elem_of_In in Hn. destruct Hx as [Hx|Hx], Hy as [Hy|Hy].
  - congruence.
  - simplify_eq. by apply in_combine_l in Hy.
  - simplify_eq. by apply in_combine_l in Hx.
  - by eapply IH.
Qed.

Lemma creates_spec host ctx input eff sql ps : applyCreates host ctx input eff = Ok (sql, ps) ->
  exists tenant vs, create_tenant host ctx (c_Resource eff) = Ok tenant /\
    let cols := created_columns host ctx input eff tenant in
    stored_values host (c_Resource eff) cols vs /\ NoDup cols.*1 /\
    (cols <> [] -> is_Some (read_stmt sql) /\
      forall db now base db' out, executes db now base sql ps db' out <-> create_answer ctx eff cols.*1 vs db base db' out).
Proof.
  intros H. apply create_statement in H as (tenant & vs & more & table & Ht & Hs & -> & Htb & Hn & H). exists tenant, vs. split; [done|].
  set (cols := created_columns host ctx input eff tenant) in *. cbv zeta in *. split; [done|]. pose proof (created_NoDup host ctx input eff tenant) as Hnd. fold cols in Hnd.
  split; [done|]. intros Hne. assert (Hl : List.length cols.*1 = List.length vs) by (rewrite length_fmap; by eapply Forall2_length).
  assert (Hnames : List.map (fun b : Bound => b.1.2) (List.map quoted_bound cols) <> []) by (by destruct cols).
  assert (Hphs : Forall2 (reads sql_param) (imap (fun i (_ : Bound) => dollar (S i)) (List.map quoted_bound cols)) (seq 1 (List.length cols.*1))).
  { rewrite length_fmap, <-(length_map quoted_bound cols). apply (placeholders_reads (List.map quoted_bound cols) 0). }
  unfold create_answer. destruct (OwnerCheck eff) as [oc|].
  - destruct H as (i & v & u & related & through & Hi & Hu & -> & Hr & Hth & ->).
    pose proof (read_stmt_checked _ _ _ _ _ _ _ _ _ (S i) (S (List.length vs)) Htb Hn Hnames Hphs Hr Hth) as Hrd. split; [by eexists|].
    intros db now base db' out. rewrite (executes_insert _ _ _ _ _ _ _ _ _ _ Hrd), (inserts_iff _ _ _ _ _ _ vs _ _ _ Hl Hnd eq_refl).
    cbn [oc_table oc_id oc_owner oc_actor]. destruct (fk_value _ _ _ _ vs Hi) as (id & Hid & Hin); [by rewrite <-(length_fmap fst)|].
    rewrite (param_at vs _ i id Hid), param_last.
    split; intros (t & HT & Hc & Hrest); exists t; (split; [done|]; split; [done|]).
    + destruct Hrest as (r & HR & Hrest). by exists r, u, id.
    + destruct Hrest as (r & u' & id' & HR & Hu' & Hin' & Hrest). exists r. split; [done|]. rewrite Hu in Hu'. injection Hu' as <-.
      by rewrite (combine_functional _ _ _ _ _ Hnd Hin Hin').
  - destruct H as [-> ->]. pose proof (read_stmt_plain _ _ _ _ _ Htb Hn Hnames Hphs) as Hrd. split; [by eexists|].
    intros db now base db' out. by rewrite (executes_insert _ _ _ _ _ _ _ _ _ _ Hrd), (inserts_iff _ _ _ _ _ _ vs _ _ _ Hl Hnd eq_refl).
Qed.

(** A create whose columns have values is given a statement; under an owner check
    its reference is among them, and there is a user. *)
Lemma creates_builds host ctx input eff : let res := c_Resource eff in
  (exists tenant, create_tenant host ctx res = Ok tenant) -> str_all ident_char (snakeCase (Name res)) = true ->
  Forall (fun cs => resolves host ctx input cs /\ str_all ident_char cs.1 = true) (c_Bind eff) ->
  (forall c v, exists w, store_column host (Name res) c v = Ok w) ->
  match OwnerCheck eff with
  | Some oc => In (FKColumn oc) (written host ctx input (sortedBind (c_Bind eff))).*1 /\ is_Some (ctx_User ctx) /\
      str_all ident_char (RelatedTable oc) = true /\ str_all ident_char (ThroughColumn oc) = true
  | None => True
  end ->
  exists sql ps, applyCreates host ctx input eff = Ok (sql, ps).
Proof.
  intros res [tenant Ht] Hn Hb Hst Hoc. unfold applyCreates. cbv zeta. subst res. apply sorted_Forall in Hb.
  destruct (bound_builds _ _ _ _ Hb) as [cols Ec]. rewrite Ec. cbn [mbind result_bind]. rewrite Ht. cbn [mbind result_bind].
  set (cvs := created_columns host ctx input eff tenant).
  match goal with |- context [stored host _ ?l] => replace l with (List.map quoted_bound cvs) by (symmetry; exact (created_bounds host ctx input eff cols tenant Ec)) end.
  destruct (stored_builds host (c_Resource eff) (List.map quoted_bound cvs) Hst) as [vs ->]. cbn [mbind result_bind]. unfold quoteResourceTable.
  destruct (OwnerCheck eff) as [oc|].
  - destruct Hoc as (Hin & [u Hu] & Hr & Hth). destruct (list_find _ (List.map quoted_bound cvs)) as [[i v]|] eqn:Ef.
    + unfold readCtx. cbn [String.eqb orb]. rewrite Hu. cbn. rewrite !quoteIdent_plain by done. by eexists _, _.
    + exfalso. apply list_find_None in Ef. rewrite List.Forall_forall in Ef. apply in_map_iff in Hin as ([c v] & Ecv & Hin).
      apply (Ef (quoted_bound (c, v))); [|exact Ecv]. apply in_map. unfold cvs, created_columns. apply in_or_app. by left.
  - rewrite quoteIdent_plain by done. by eexists _, _.
Qed.

(** a creates effect writes each of its columns once: the bound ones, the
    tenant's on a tenant-scoped resource, and [updated_at]; its statement
    inserts that row and returns it, or, under an owner check, does so exactly
    when a related row has the id given and belongs to the user. *)
Theorem creates_effect_exact host ctx input eff sql ps : applyCreates host ctx input eff = Ok (sql, ps) ->
  exists tenant vs, create_tenant host ctx (c_Resource eff) = Ok tenant /\
    let cols := created_columns host ctx input eff tenant in
    stored_values host (c_Resource eff) cols vs /\ NoDup cols.*1 /\
    (cols <> [] -> is_Some (read_stmt sql) /\
      forall db now base db' out, executes db now base sql ps db' out <-> create_answer ctx eff cols.*1 vs db base db' out).
Proof. apply creates_spec. Qed.

Lemma set_columns_other cvs c row : ~ In c cvs.*1 -> set_columns row cvs !! c = row !! c.
Proof.
  unfold set_columns. revert row. induction cvs as [|[c' v] cvs IH]; intros row H; [done|]. cbn in *.
  rewrite IH by naive_solver. apply lookup_insert_ne. naive_solver.
Qed.

Lemma set_columns_at cvs c v row : NoDup cvs.*1 -> In (c, v) cvs -> set_columns row cvs !! c = Some v.
Proof.
  unfold set_columns. revert row. induction cvs as [|[c' w] cvs IH]; intros row Hnd H; [done|]. cbn in *. apply NoDup_cons in Hnd as [Hn Hnd].
  rewrite list_elem_of_In in Hn. destruct H as [[= -> ->]|H]; [|by apply IH].
  change (foldl _ (<[c := v]> row) cvs) with (set_columns (<[c := v]> row) cvs). rewrite set_columns_other by done. apply lookup_insert_eq.
Qed.

Lemma combine_fst {A B} (l : list A) (k : list B) : List.length l = List.length k -> (List.combine l k).*1 = l.
Proof. revert k. induction l as [|x l IH]; intros [|y k] H; try done. cbn. f_equal. apply IH. cbn in H. lia. Qed.

(** C29: a row created on a tenant-scoped resource belongs to the tenant of the
    request and is visible to it: the command cannot omit the tenant, and
    cannot pick another unless it binds [org_id] itself. *)
Theorem created_row_visible host ctx input eff sql ps org db now base db' out row :
  applyCreates host ctx input eff = Ok (sql, ps) -> Tenancy (c_Resource eff) = TenancyOrg -> ctx_Tenant ctx = Some org ->
  bt_contains "org_id" (sortedBind (c_Bind eff)) = false -> bt_contains "deleted_at" (sortedBind (c_Bind eff)) = false ->
  store_column host (Name (c_Resource eff)) "org_id" (Int org) = Ok (Int org) -> cell base "deleted_at" = Nil ->
  executes db now base sql ps db' out -> In row out ->
  visible ctx (c_Resource eff) row = true /\ exists t, db' !! snakeCase (Name (c_Resource eff)) = Some t /\ In row (rows t).
Proof.
  intros H Hten Hctx Hb Hd Hst Hbase He Hin. destruct (creates_spec _ _ _ _ _ _ H) as (tenant & vs & Ht & Hs & Hnd & Hex).
  set (cols := created_columns host ctx input eff tenant) in *.
  assert (tenant = Some org) as -> by (unfold create_tenant in Ht; rewrite Hten, Hctx in Ht; congruence).
  assert (Horg : In ("org_id", Int org) cols).
  { unfold cols, created_columns, tenant_columns. rewrite Hten. cbn. rewrite Hb. apply in_or_app. right. by left. }
  assert (Hl : List.length cols.*1 = List.length vs) by (rewrite length_fmap; by eapply Forall2_length).
  assert (Horg' : In ("org_id", Int org) (List.combine cols.*1 vs)).
  { clear -Hs Horg Hst. induction Hs as [|cv v cols vs Hv Hs IH]; [done|]. cbn in *. destruct Horg as [->|Horg]; [left|right; by apply IH]. cbn in *. congruence. }
  assert (Hdel : ~ In "deleted_at" (List.combine cols.*1 vs).*1).
  { rewrite combine_fst by done. unfold cols, created_columns. rewrite !fmap_app. intros [Hin'|Hin']%in_app_or.
    - apply list_elem_of_In in Hin'. eapply elem_of_sublist in Hin'; [|apply written_keys]. apply list_elem_of_In, bt_keys_In, bt_contains_iff in Hin'. congruence.
    - apply in_app_or in Hin' as [Hin'|Hin']; [|destruct (touches _ _); cbn in Hin'; naive_solver].
      unfold tenant_columns in Hin'. rewrite Hten in Hin'. cbn in Hin'. rewrite Hb in Hin'. destruct (bt_contains "org" _); cbn in Hin'; naive_solver. }
  assert (Hvis : visible ctx (c_Resource eff) (set_columns base (List.combine cols.*1 vs)) = true).
  { unfold visible, live, of_tenant. rewrite Hten, Hctx. unfold cell. rewrite set_columns_other by done. fold (cell base "deleted_at"). rewrite Hbase, orb_true_r.
    rewrite (set_columns_at _ "org_id" (Int org)) by (done || by rewrite combine_fst). cbn. by rewrite Z.eqb_refl. }
  assert (cols <> []) as Hne by (by intros E; rewrite E in Horg). destruct (Hex Hne) as [_ Hex']. apply Hex' in He as (t & HT & _ & Ha).
  destruct (OwnerCheck eff) as [oc|].
  - destruct Ha as (r & u & id & _ & _ & _ & Ha). destruct (owns _ _ _ _ _); destruct Ha as [-> ->]; [|done]. destruct Hin as [<-|[]].
    split; [done|]. eexists. split; [apply lookup_insert_eq|]. cbn. apply in_or_app. right. by left.
  - destruct Ha as [-> ->]. destruct Hin as [<-|[]]. split; [done|]. eexists. split; [apply lookup_insert_eq|]. cbn. apply in_or_app. right. by left.
Qed.

(** A creates effect all of whose columns are absent writes a statement the
    database does not read. *)
Lemma create_without_columns_unreadable host ctx input eff sql ps : OwnerCheck eff = None -> applyCreates host ctx input eff = Ok (sql, ps) ->
  (forall tenant, create_tenant host ctx (c_Resource eff) = Ok tenant -> created_columns host ctx input eff tenant = []) -> read_stmt sql = None.
Proof.
  intros Hoc H Hc. apply create_statement in H as (tenant & vs & more & table & Ht & _ & _ & Htb & _ & H). rewrite Hoc, (Hc _ Ht) in H.
  destruct H as [_ ->]. cbn [List.map imap join]. rewrite read_stmt_insert by done. unfold read_insert.
  replace (strip_prefix "WITH owner_check AS (SELECT 1 FROM " _) with (@None string) by done. unfold read_insert_into. rewrite strip_prefix_app. cbn [mbind option_bind].
  rewrite (proj2 Htb) by done. cbn [mbind option_bind]. by rewrite strip_prefix_app.
Qed.

(** * The reorder effect *)

(** The position of a row's id in the list. *)
Definition place (ids : list Value) (row : Row) : option nat := fst <$> list_find (fun v => sql_eq (cell row "id") v = Some true) ids.
Definition moved (column : string) (ids : list Value) (row : Row) : Row :=
  match place ids row with Some i => <[column := Int (Z.of_nat i)]> row | None => row end.

Lemma reorder_tuples (ids : list Value) : forall k, Forall2 (reads sql_tuple)
  (imap (fun i (_ : Value) => "(" +:+ dollar (S (k + i)) +:+ ", " +:+ show_N (N.of_nat (k + i)) +:+ ")") ids)
  (List.combine (seq (S k) (List.length ids)) (seq k (List.length ids))).
Proof.
  induction ids as [|v ids IH]; intros k; [constructor|]. rewrite imap_cons. cbn [List.length seq List.combine]. constructor.
  - rewrite !Nat.add_0_r. apply reads_tuple.
  - erewrite imap_ext; [apply (IH (S k))|]. intros i y _. cbn. by rewrite Nat.add_succ_r.
Qed.

Lemma find_place (P : Value -> Prop) `{!∀ v, Decision (P v)} ids : forall k ps, List.length ps = k ->
  List.find (fun ip : nat * nat => bool_decide (P (param (ps ++ ids) ip.1))) (List.combine (seq (S k) (List.length ids)) (seq k (List.length ids))) =
  (fun iv : nat * Value => (S (k + iv.1), k + iv.1)) <$> list_find P ids.
Proof.
  induction ids as [|v ids IH]; intros k ps Hk; [done|]. cbn [List.length seq List.combine List.find fst list_find].
  assert (param (ps ++ v :: ids) (S k) = v) as ->.
  { unfold param. rewrite lookup_app_r by lia. by replace (S k - 1 - List.length ps) with 0 by lia. }
  case_decide as Hp.
  - rewrite bool_decide_eq_true_2 by done. cbn. by rewrite Nat.add_0_r.
  - rewrite bool_decide_eq_false_2 by done. replace (ps ++ v :: ids)%list with ((ps ++ [v]) ++ ids)%list by by rewrite <-(assoc_L app).
    rewrite (IH (S k)) by (rewrite length_app; cbn; lia). destruct (list_find P ids) as [[i w]|]; [|done]. cbn. by rewrite Nat.add_succ_r.
Qed.

Lemma read_stmt_reposition table T column tuples texts : reads sql_ident_tok table T -> str_all ident_char column = true ->
  Forall2 (reads sql_tuple) texts tuples -> texts <> [] ->
  read_stmt ("UPDATE " +:+ table +:+ " SET " +:+ quoted column +:+ " = data.position FROM (VALUES " +:+ join ", " texts +:+
    ") AS data(id, position) WHERE " +:+ table +:+ ".id = data.id") = Some (Reposition T column tuples).
Proof.
  intros Ht Hc Hx Hne. unfold read_stmt. match goal with |- context [read_select ?s] => assert (read_select s = None) as -> by done end.
  unfold read_reposition. rewrite strip_prefix_app. cbn [mbind option_bind]. rewrite (proj2 Ht) by done. cbn [mbind option_bind].
  rewrite strip_prefix_app. cbn [mbind option_bind]. rewrite (proj2 (reads_ident _ Hc)) by done. cbn [mbind option_bind].
  rewrite strip_prefix_app. cbn [mbind option_bind]. rewrite (sql_list_len sql_tuple ", " texts tuples) by done. cbn [mbind option_bind].
  rewrite strip_prefix_app. cbn [mbind option_bind]. rewrite (proj2 Ht) by done. cbn [mbind option_bind]. by rewrite String.eqb_refl.
Qed.

Lemma executes_reposition db now base sql ps t c tuples db' out : read_stmt sql = Some (Reposition t c tuples) ->
  executes db now base sql ps db' out <-> out = [] /\ repositions db ps t c tuples = Some db'.
Proof.
  intros H. split.
  - intros He; inversion He; by simplify_eq.
  - intros [-> Hu]. by eapply exec_reposition.
Qed.

Lemma Ok_some_pair {E A B} (a c : A) (b d : B) : @Ok E _ (Some (a, b)) = Ok (Some (c, d)) -> a = c /\ b = d.
Proof. naive_solver. Qed.

(** reordering gives every row whose id is in the list, whatever its tenant
    and deleted or not, its place in the list, and changes nothing else. *)
Theorem reorder_effect_exact input eff sql ids : applyReorder input eff = Ok (Some (sql, ids)) ->
  is_Some (read_stmt sql) /\
  forall db now base db' out, executes db now base sql ids db' out <->
    out = [] /\ exists t, db !! snakeCase (Name (r_Resource eff)) = Some t /\ PositionColumn eff ∈ columns t /\
      db' = <[snakeCase (Name (r_Resource eff)) := {| columns := columns t; rows := List.map (moved (PositionColumn eff) ids) (rows t) |}]> db.
Proof.
  intros H. unfold applyReorder in H. destruct (readPath input "ids") as [v|]; [|done]. destruct v as [| | | | | | |l]; try done. destruct l as [|v l]; [done|].
  step_ok H Et. step_ok H Ep. remember (v :: l) as ids0 eqn:Hids. apply Ok_some_pair in H as [<- <-]. apply table_reads in Et. apply quoteIdent_Ok in Ep as [Hc ->].
  assert (Hne : imap (fun i (_ : Value) => "(" +:+ dollar (S i) +:+ ", " +:+ show_N (N.of_nat i) +:+ ")") ids0 <> []) by by subst.
  pose proof (read_stmt_reposition _ _ _ _ _ Et Hc (reorder_tuples ids0 0) Hne) as Hr. split; [by eexists|]. intros db now base db' out.
  rewrite (executes_reposition _ _ _ _ _ _ _ _ _ _ Hr). unfold repositions. destruct (db !! _) as [t|]; cbn [mbind option_bind]; [|naive_solver].
  assert (Hm : forall row, match List.find (fun ip : nat * nat => bool_decide (sql_eq (cell row "id") (param ids0 ip.1) = Some true))
      (List.combine (seq 1 (List.length ids0)) (seq 0 (List.length ids0))) with
    | Some ip => <[PositionColumn eff := Int (Z.of_nat ip.2)]> row | None => row end = moved (PositionColumn eff) ids0 row).
  { intros row. unfold moved, place. pose proof (find_place (fun v => sql_eq (cell row "id") v = Some true) ids0 0 [] eq_refl) as Hp. cbn [app] in Hp. cbv beta in Hp. rewrite Hp.
    by destruct (list_find _ ids0) as [[i w]|]. }
  rewrite (map_ext _ _ Hm). case_bool_decide; naive_solver.
Qed.

(** * A request that writes *)

(** The first part of the goal is an update that runs. *)
Ltac run_first H :=
  match goal with |- ?P /\ _ => assert (H : P) by (eapply exec_update; compute_eq) end; split; [exact H|].

Definition a_key : Value := Struct [(("ID", "id"), Int 3); (("Title", "title"), Text "new")].
Definition rename : UpdatesEffect := {| u_Resource := notes; u_Where := [("id", FromInput "ID")]; u_Bind := [("title", FromInput "title")] |}.
Definition discard : DeletesEffect := {| d_Resource := notes; d_Where := [("id", FromInput "ID")] |}.
Definition write : CreatesEffect := {| c_Resource := notes; c_Bind := [("title", FromInput "title")]; OwnerCheck := None |}.
Definition my_note : Row := note 3 1 7 "mine" Nil.
Definition old_note : Row := note 4 1 7 "old" Nil.
Definition their_note : Row := note 3 9 8 "theirs" Nil.

Lemma writes_stay_in_tenant_witness : exists sql ps, applyUpdates a_host a_ctx a_key rename = Ok (sql, ps) /\
  let db := notes_db [their_note; my_note] in
  let db' := notes_db [their_note; <["updated_at" := Time 9]> (<["title" := Text "new"]> my_note)] in
  executes db 9 empty sql ps db' [<["updated_at" := Time 9]> (<["title" := Text "new"]> my_note)] /\ confined a_ctx notes db db'.
Proof.
  eexists _, _. split; [vm_compute; reflexivity|]. intros db db'. run_first H.
  exact (proj2 (proj1 (writes_stay_in_tenant a_host a_ctx a_key _ _) rename ltac:(vm_compute; reflexivity)) db 9%Z empty db' _ H).
Defined.

Lemma deleted_never_listed_witness : exists sql ps sql' ps', applyDeletes a_host a_ctx a_key discard = Ok (sql, ps) /\
  buildListSQL a_host a_ctx (Struct []) my_notes = Ok (sql', ps') /\
  let db := notes_db [my_note; old_note] in
  let db' := notes_db [<["updated_at" := Time 9]> (<["deleted_at" := Time 9]> my_note); old_note] in
  executes db 9 empty sql ps db' [<["updated_at" := Time 9]> (<["deleted_at" := Time 9]> my_note)] /\
  let listed := list_to_map [("id", Int 4); ("title", Text "")] in
  executes db' 9 empty sql' ps' db' [listed] /\
  exists t row, db !! "note" = Some t /\ In row (rows t) /\ target a_host a_ctx a_key notes (d_Where discard) db row = false /\
    listed = project (projection_of a_host a_ctx notes (row_type my_notes)) row.
Proof.
  eexists _, _, _, _. split; [vm_compute; reflexivity|]. split; [vm_compute; reflexivity|]. intros db db'. run_first H. intros listed.
  match goal with |- ?P /\ _ => assert (H' : P) by (eapply (runs_select db' 9%Z); compute_eq) end. split; [exact H'|].
  exact (deleted_never_listed a_host a_ctx a_key discard _ _ db 9%Z empty db' _ a_ctx (Struct []) my_notes _ _ 9%Z empty db' [listed] listed
    ltac:(vm_compute; reflexivity) H eq_refl ltac:(vm_compute; reflexivity) H' (or_introl eq_refl)).
Defined.

Lemma created_row_visible_witness : exists sql ps, applyCreates a_host a_ctx a_key write = Ok (sql, ps) /\
  let base := list_to_map [("id", Int 5); ("created_at", Time 9)] : Row in
  let row := <["updated_at" := Time 50]> (<["org" := Int 1]> (<["org_id" := Int 1]> (<["title" := Text "new"]> base))) in
  let db' := notes_db [my_note; row] in
  executes (notes_db [my_note]) 9 base sql ps db' [row] /\ visible a_ctx notes row = true /\ exists t, db' !! "note" = Some t /\ In row (rows t).
Proof.
  eexists _, _. split; [vm_compute; reflexivity|]. intros base row db'.
  match goal with |- ?P /\ _ => assert (H : P) by (eapply exec_insert; compute_eq) end. split; [exact H|].
  exact (created_row_visible a_host a_ctx a_key write _ _ 1%Z (notes_db [my_note]) 9%Z base db' [row] row
    ltac:(vm_compute; reflexivity) eq_refl eq_refl eq_refl eq_refl eq_refl eq_refl H (or_introl eq_refl)).
Defined.

Lemma reorder_effect_exact_witness :
  let eff := {| r_Resource := notes; PositionColumn := "created_at" |} in
  let input := Struct [(("IDs", "ids"), Slice [Int 4; Int 3])] in
  exists sql ids, applyReorder input eff = Ok (Some (sql, ids)) /\
  forall db now base db' out, executes db now base sql ids db' out <->
    out = [] /\ exists t, db !! "note" = Some t /\ "created_at" ∈ columns t /\
      db' = <["note" := {| columns := columns t; rows := List.map (moved "created_at" [Int 4; Int 3]) (rows t) |}]> db.
Proof.
  intros eff input. eexists _, _. split; [vm_compute; reflexivity|].
  exact (proj2 (reorder_effect_exact input eff _ _ ltac:(vm_compute; reflexivity))).
Defined.
