(* ===== verification/RuntimeNames.v ===== *)
(** The names the Go runtime derives while it runs agree with those the compiler
    wrote: input fields ([pascalCase] of [handle.go] and [casing.rs]) and tables
    ([snakeCase] of [retention.go] and the migration's [lower_snake]). *)
From S2P Require Import Prelude Str Fmt SqlName Casing SqlRows RuntimeSql.

(** * Fields *)

Lemma split_go_all p prev current s : str_all p current = true -> str_all p s = true -> Forall (fun w => str_all p w = true) (split_go prev current s).
Proof.
  assert (Hflush : forall w ws, str_all p w = true -> Forall (fun w => str_all p w = true) ws -> Forall (fun w => str_all p w = true) (flush w ws)).
  { intros w ws Hw Hws. destruct w; [done|by constructor]. }
  revert prev current. induction s as [|b s IH]; intros prev current Hc Hs; cbn [split_go]; [by apply Hflush|].
  cbn [str_all] in Hs. apply andb_true_iff in Hs as [Hb Hs].
  assert (Hcb : str_all p (current +:+ String b "") = true) by (rewrite str_all_app, Hc; cbn [str_all]; by rewrite Hb).
  assert (Hb1 : str_all p (String b "") = true) by (cbn [str_all]; by rewrite Hb).
  destruct (_ || _); [by apply Hflush; [|apply IH]|]. destruct (is_ascii_uppercase b); [|by apply IH]. destruct (_ && _); [|by apply IH].
  destruct (negb _); [by apply IH|]. by apply Hflush; [|apply IH].
Qed.

Lemma pascal_agrees_spec up s : Helpers.is_ascii s = true -> pascalCase s = Casing.pascal_case up s.
Proof.
  intros H. unfold pascalCase, pascal_case. f_equal. pose proof (split_go_all _ None "" s eq_refl H) as Hw. fold (split_words s) in Hw.
  apply map_ext_in. intros w Hin. rewrite List.Forall_forall in Hw. specialize (Hw w Hin). destruct w as [|b w]; [done|]. cbn [String.eqb]. unfold cased.
  destruct (is_acronym (String b w)); [done|]. rewrite raise_ascii by done. unfold raise_byte. cbn [str_all] in Hw.
  apply andb_true_iff in Hw as [-> _]. done.
Qed.

(** the name the runtime looks an input field up by is the name the compiler
    gave the field, for an ASCII path. *)
Theorem runtime_pascal_agrees up s : Helpers.is_ascii s = true -> pascalCase s = Casing.pascal_case up s.
Proof. apply pascal_agrees_spec. Qed.

(** * Tables *)

(** Letters and digits, every capital after the first character following a
    small letter or a digit: [Host], [UserSession], [Tier2Plan]. *)
Fixpoint camel_go (prev_low : bool) (s : string) : bool :=
  match s with
  | "" => true
  | String b s =>
    if is_ascii_uppercase b then prev_low && camel_go false s
    else (is_ascii_lowercase b || is_ascii_digit b) && camel_go true s
  end.
Definition camel (s : string) : bool :=
  match s with "" => false | String b rest => is_ascii_alphanumeric b && camel_go (negb (is_ascii_uppercase b)) rest end.

Lemma capital_facts b : is_ascii_uppercase b = true ->
  is_snake_sep b = false /\ ((b =a? "-") || (b =a? " ") || (b =a? ".")) = false /\ (b =a? "_") = false /\ (to_ascii_lowercase b =a? "_") = false.
Proof. by_bytes b. Qed.

Lemma small_facts b : (is_ascii_lowercase b || is_ascii_digit b) = true ->
  is_snake_sep b = false /\ ((b =a? "-") || (b =a? " ") || (b =a? ".")) = false /\ (b =a? "_") = false /\ (to_ascii_lowercase b =a? "_") = false /\
  is_ascii_alphanumeric b = true.
Proof. by_bytes b. Qed.

Lemma snake_camel s : forall low last prev out, camel_go low s = true -> (last =a? "_") = false -> (prev =a? "_") = false -> out <> "" ->
  lower_snake_go out low false s = out +:+ snake_go false (Some last) (Some prev) s.
Proof.
  induction s as [|b s IH]; intros low last prev out Hc Hl Hp Ho; [cbn; by rewrite sapp_nil_r|]. cbn [camel_go] in Hc. cbn [lower_snake_go snake_go].
  rewrite Hp. destruct (is_ascii_uppercase b) eqn:Eu; apply andb_true_iff in Hc as [Hb Hc].
  - destruct (capital_facts b Eu) as (-> & -> & E1 & E2). rewrite E1. subst low. cbn [andb negb].
    rewrite (IH false (to_ascii_lowercase b) b) by (done || by destruct out). by rewrite !sapp_assoc.
  - destruct (small_facts b Hb) as (-> & -> & E1 & E2 & ->). rewrite E1, Hb. cbn [andb negb].
    rewrite (IH true (to_ascii_lowercase b) b) by (done || by destruct out). by rewrite !sapp_assoc.
Qed.

Lemma camel_snake name : camel name = true -> snakeCase name = lower_snake name.
Proof.
  destruct name as [|b s]; [done|]. cbn [camel]. intros [Hb Hs]%andb_true_iff. unfold snakeCase, lower_snake.
  enough (trim_underscores_start (snake_go true None None (String b s)) = lower_snake_go "" false false (String b s)) as E by (by rewrite E).
  assert (Hf : is_snake_sep b = false /\ ((b =a? "-") || (b =a? " ") || (b =a? ".")) = false /\ (b =a? "_") = false /\ (to_ascii_lowercase b =a? "_") = false).
  { revert Hb. clear. by_bytes b. }
  destruct Hf as (E0 & E1 & E2 & E3). cbn [snake_go lower_snake_go]. rewrite E0, E1, E2. cbn [negb andb]. rewrite andb_false_r. cbn [trim_underscores_start andb]. rewrite E3.
  pose proof (snake_camel s (negb (is_ascii_uppercase b)) (to_ascii_lowercase b) b (String (to_ascii_lowercase b) "") Hs E3 E2 ltac:(done)) as E. cbn [String.append] in E. rewrite <-E.
  destruct (is_ascii_uppercase b) eqn:Eu; cbn [String.append andb negb]; [done|]. rewrite Hb.
  assert ((is_ascii_lowercase b || is_ascii_digit b) = true) as -> by (revert Hb Eu; clear; by_bytes b). done.
Qed.

Lemma slug_ident p s : slug_go p s = true -> str_all ident_char s = true.
Proof.
  revert p. induction s as [|b s IH]; intros p H; [done|]. cbn [slug_go str_all] in *. destruct (b =a? "_") eqn:E.
  - apply andb_true_iff in H as [_ H]. rewrite (IH _ H). unfold ident_char. by rewrite E, orb_true_r.
  - apply andb_true_iff in H as [Hb H]. rewrite (IH _ H), andb_true_r. revert Hb. clear. by_bytes b.
Qed.

(** C37: for a resource whose name has no two capitals in a row, the runtime
    quotes the very table the migration creates. *)
Theorem runtime_table_agrees name : camel name = true -> quoteResourceTable name = Ok (quoted (lower_snake name)).
Proof.
  intros H. unfold quoteResourceTable. rewrite camel_snake by done. unfold quoteIdent.
  assert (str_all ident_char (lower_snake name) = true) as ->; [|done].
  pose proof (lower_snake_slug name) as Hs. unfold slug in Hs. apply orb_true_iff in Hs as [->%String.eqb_eq|Hs]; [done|]. by eapply slug_ident.
Qed.

(** An acronym breaks it: the table of [UserID] is [user_id]; the runtime looks
    for [user_i_d]. *)
Lemma runtime_table_differs : lower_snake "UserID" = "user_id" /\ quoteResourceTable "UserID" = Ok (quoted "user_i_d").
Proof. split; vm_compute; reflexivity. Qed.
Lemma runtime_table_agrees_witness : quoteResourceTable "UserSession" = Ok (quoted "user_session").
Proof. exact (runtime_table_agrees "UserSession" eq_refl). Defined.
