(* ===== verification/FieldConstraints.v ===== *)
(** Inline field constraints ([lazuli_syntax/src/parser/lzi/field_constraints/],
    [parser/lzi/command/slots.rs]): the clauses that follow a type in an input
    slot or a query parameter, and its [required]/[optional] modifiers. *)
From S2P Require Import Prelude Str Fmt Lex PlanSyntax.
From S2P Require Waiver.

(** * Declarations *)

(** [FieldConstraintsDecl] *)
Record FieldConstraintsDecl := {
  min : option Z;
  max : option Z;
  pattern : option string;
  between : option (Z * Z);
  length : option nat;
  in_ : option (list string);
  sanitize_html : option string;
  utf8_safe : option bool;
  max_recursion : option N;
  max_size : option N;
  covers_pii : option string
}.
Definition no_constraints : FieldConstraintsDecl := {|
  min := None; max := None; pattern := None; between := None; length := None; in_ := None; sanitize_html := None; utf8_safe := None; max_recursion := None; max_size := None; covers_pii := None |}.

(** [CommandInputSlot] *)
Record CommandInputSlot := {
  sl_name : string; type_text : string; sl_required : bool; sl_optional : bool; sl_constraints : FieldConstraintsDecl; sl_span : Span
}.

(** * Clauses *)

Inductive ParsedValidateConstraint := SanitizeHtml (profile : string) | Utf8Safe | MaxRecursion (n : N) | MaxSize (n : N).

(** [s.find(|c| c.is_whitespace())] *)
Fixpoint find_ws (s : string) : option nat :=
  match ws_len s with
  | O => match s with "" => None | String _ s => S <$> find_ws s end
  | S _ => Some 0
  end.
(** The word [s] starts with, and what follows it. *)
Definition take_word (s : string) : string * string :=
  let end_ := default (str_len s) (find_ws s) in (str_take end_ s, str_drop end_ s).

Definition parse_constraint_int (line : SourceLine) (text keyword : string) : presult (Z * string) :=
  rest ← ok_or (strip_prefix keyword (trim_start text)) (line_error_owned line ("expected `" +:+ keyword +:+ "` constraint keyword"));
  let '(value_str, tail) := take_word (trim_start rest) in
  n ← ok_or (parse_i64 value_str)
        (line_error_owned line ("`" +:+ keyword +:+ "` constraint expects an integer, got `" +:+ value_str +:+ "`"));
  Ok (n, tail).

Definition parse_constraint_string (line : SourceLine) (text keyword : string) : presult (string * string) :=
  rest ← ok_or (strip_prefix keyword (trim_start text)) (line_error_owned line ("expected `" +:+ keyword +:+ "` keyword"));
  match trim_start rest with
  | String b body =>
    if b =a? DQ then
      match split_once DQ body with
      | Some (value, tail) => Ok (value, tail)
      | None => Err (line_error_owned line ("`" +:+ keyword +:+ "` constraint string is missing a closing `" +:+ String DQ "`"))
      end
    else Err (line_error_owned line ("`" +:+ keyword +:+ "` constraint expects a quoted string (e.g. `pattern " +:+ quoted "^[a-z]+$" +:+ "`)"))
  | "" => Err (line_error_owned line ("`" +:+ keyword +:+ "` constraint expects a quoted string (e.g. `pattern " +:+ quoted "^[a-z]+$" +:+ "`)"))
  end.

Definition parse_constraint_between (line : SourceLine) (text : string) : presult ((Z * Z) * string) :=
  rest ← ok_or (strip_prefix "between" (trim_start text)) (line_error line "expected `between` keyword");
  let rest := trim_start rest in
  end_ ← ok_or (find_ws rest) (line_error line "`between` constraint requires `<A> and <B>`");
  let lo_str := str_take end_ rest in
  lo ← ok_or (parse_i64 lo_str) (line_error_owned line ("`between` expects integer, got `" +:+ lo_str +:+ "`"));
  rest ← ok_or (strip_prefix "and" (trim_start (str_drop end_ rest)))
           (line_error line "`between <A> and <B>` requires the `and` keyword");
  let '(hi_str, tail) := take_word (trim_start rest) in
  hi ← ok_or (parse_i64 hi_str) (line_error_owned line ("`between` expects integer, got `" +:+ hi_str +:+ "`"));
  Ok ((lo, hi), tail).

(** An entry of an [in] list, its quotes dropped. *)
Definition in_value (piece : string) : string :=
  let trimmed := trim piece in
  if (2 <=? str_len trimmed)%nat && starts_with (String DQ "") trimmed && ends_with (String DQ "") trimmed
  then str_take (str_len trimmed - 2) (str_drop 1 trimmed) else trimmed.

Definition parse_constraint_in_list (line : SourceLine) (text : string) : presult (list string * string) :=
  rest ← ok_or (strip_prefix "in" (trim_start text)) (line_error line "expected `in` keyword");
  match strip_prefix "[" (trim_start rest) with
  | Some body =>
    match split_once "]" body with
    | Some (inner, tail) => Ok (List.filter nonempty (List.map in_value (Waiver.split_top_level_commas inner)), tail)
    | None => Err (line_error line "`in` constraint list is missing a closing `]`")
    end
  | None => Err (line_error line ("`in` constraint expects a bracketed list (e.g. `in [" +:+ quoted "a" +:+ ", " +:+ quoted "b" +:+ "]`)"))
  end.

Definition take_constraint_value (text : string) : string * string := take_word (trim_start text).

Definition u32_max : N := 4294967295.
(** [s.parse::<u32>().ok()] *)
Definition parse_u32 (s : string) : option N := n ← parse_u64 s; if (n <=? u32_max)%N then Some n else None.

Definition parse_constraint_validate (line : SourceLine) (text : string) : presult (ParsedValidateConstraint * string) :=
  rest ← ok_or (strip_prefix "validate " (trim_start text)) (line_error line "expected `validate <constraint>`");
  let rest := trim_start rest in
  match strip_prefix "sanitize_html(" rest with
  | Some inside =>
    '(profile, tail) ← ok_or (split_once ")" inside) (line_error line "`validate sanitize_html` profile is missing a closing `)`");
    let profile := trim profile in
    if profile =? "" then Err (line_error line "`validate sanitize_html` requires a profile") else Ok (SanitizeHtml profile, tail)
  | None =>
  match strip_prefix "utf8_safe" rest with
  | Some tail => Ok (Utf8Safe, tail)
  | None =>
  match strip_prefix "max_recursion:" rest with
  | Some after =>
    let '(raw, tail) := take_constraint_value after in
    value ← ok_or (parse_u32 raw) (line_error_owned line ("`validate max_recursion` expects u32, got `" +:+ raw +:+ "`"));
    Ok (MaxRecursion value, tail)
  | None =>
  match strip_prefix "max_size:" rest with
  | Some after =>
    let '(raw, tail) := take_constraint_value after in
    value ← ok_or (parse_u64 raw) (line_error_owned line ("`validate max_size` expects bytes as u64, got `" +:+ raw +:+ "`"));
    Ok (MaxSize value, tail)
  | None => Err (line_error line
      "`validate` supports `sanitize_html(<profile>)`, `utf8_safe`, `max_recursion:<n>`, or `max_size:<bytes>`")
  end end end end.

Definition parse_constraint_validator (line : SourceLine) (text : string) : presult (string * string) :=
  rest ← ok_or (strip_prefix "validator " (trim_start text)) (line_error line "expected `validator covers_pii`");
  let '(raw, tail) := take_constraint_value (trim_start rest) in
  let value := default raw (strip_prefix "covers_pii:" raw) in
  if negb (value =? "covers_pii") && negb (starts_with "covers_pii_" value)
  then Err (line_error line "`validator` currently supports `covers_pii` entries only") else Ok (value, tail).

(** * The scan *)

Inductive ConstraintKw := Min | Max | Pattern | Between | Length | In | Validate | Validator.

Definition needles : list string := [" min "; " max "; " pattern "; " between "; " length "; " in "; " validate "; " validator "].
Definition earlier (best : option nat) (idx : option nat) : option nat :=
  match best, idx with Some b, Some i => Some (Nat.min b i) | None, i => i | b, None => b end.
Definition find_constraint_keyword (text : string) : option (string * string) :=
  idx ← foldl (fun best needle => earlier best (find_token text needle)) None needles;
  Some (str_take idx text, str_drop (idx + 1) text).

Definition before_keyword_after (after_keyword_text : string) : ConstraintKw :=
  if starts_with "min " after_keyword_text then Min
  else if starts_with "max " after_keyword_text then Max
  else if starts_with "pattern " after_keyword_text then Pattern
  else if starts_with "between " after_keyword_text then Between
  else if starts_with "length " after_keyword_text then Length
  else if starts_with "in " after_keyword_text then In
  else if starts_with "validate " after_keyword_text then Validate
  else if starts_with "validator " after_keyword_text then Validator
  else Min.

(** Each clause sets its slot once. *)
Definition with_min v c : FieldConstraintsDecl := {| min := Some v; max := max c; pattern := pattern c; between := between c; length := length c; in_ := in_ c; sanitize_html := sanitize_html c; utf8_safe := utf8_safe c; max_recursion := max_recursion c; max_size := max_size c; covers_pii := covers_pii c |}.
Definition with_max v c : FieldConstraintsDecl := {| min := min c; max := Some v; pattern := pattern c; between := between c; length := length c; in_ := in_ c; sanitize_html := sanitize_html c; utf8_safe := utf8_safe c; max_recursion := max_recursion c; max_size := max_size c; covers_pii := covers_pii c |}.
Definition with_pattern v c : FieldConstraintsDecl := {| min := min c; max := max c; pattern := Some v; between := between c; length := length c; in_ := in_ c; sanitize_html := sanitize_html c; utf8_safe := utf8_safe c; max_recursion := max_recursion c; max_size := max_size c; covers_pii := covers_pii c |}.
Definition with_between v c : FieldConstraintsDecl := {| min := min c; max := max c; pattern := pattern c; between := Some v; length := length c; in_ := in_ c; sanitize_html := sanitize_html c; utf8_safe := utf8_safe c; max_recursion := max_recursion c; max_size := max_size c; covers_pii := covers_pii c |}.
Definition with_length v c : FieldConstraintsDecl := {| min := min c; max := max c; pattern := pattern c; between := between c; length := Some v; in_ := in_ c; sanitize_html := sanitize_html c; utf8_safe := utf8_safe c; max_recursion := max_recursion c; max_size := max_size c; covers_pii := covers_pii c |}.
Definition with_in_ v c : FieldConstraintsDecl := {| min := min c; max := max c; pattern := pattern c; between := between c; length := length c; in_ := Some v; sanitize_html := sanitize_html c; utf8_safe := utf8_safe c; max_recursion := max_recursion c; max_size := max_size c; covers_pii := covers_pii c |}.
Definition with_sanitize_html v c : FieldConstraintsDecl := {| min := min c; max := max c; pattern := pattern c; between := between c; length := length c; in_ := in_ c; sanitize_html := Some v; utf8_safe := utf8_safe c; max_recursion := max_recursion c; max_size := max_size c; covers_pii := covers_pii c |}.
Definition with_utf8_safe v c : FieldConstraintsDecl := {| min := min c; max := max c; pattern := pattern c; between := between c; length := length c; in_ := in_ c; sanitize_html := sanitize_html c; utf8_safe := Some v; max_recursion := max_recursion c; max_size := max_size c; covers_pii := covers_pii c |}.
Definition with_max_recursion v c : FieldConstraintsDecl := {| min := min c; max := max c; pattern := pattern c; between := between c; length := length c; in_ := in_ c; sanitize_html := sanitize_html c; utf8_safe := utf8_safe c; max_recursion := Some v; max_size := max_size c; covers_pii := covers_pii c |}.
Definition with_max_size v c : FieldConstraintsDecl := {| min := min c; max := max c; pattern := pattern c; between := between c; length := length c; in_ := in_ c; sanitize_html := sanitize_html c; utf8_safe := utf8_safe c; max_recursion := max_recursion c; max_size := Some v; covers_pii := covers_pii c |}.
Definition with_covers_pii v c : FieldConstraintsDecl := {| min := min c; max := max c; pattern := pattern c; between := between c; length := length c; in_ := in_ c; sanitize_html := sanitize_html c; utf8_safe := utf8_safe c; max_recursion := max_recursion c; max_size := max_size c; covers_pii := Some v |}.

Definition once {A} (line : SourceLine) (slot : option A) (what : string) : presult unit :=
  match slot with Some _ => Err (line_error line ("duplicate " +:+ what +:+ " constraint on field")) | None => Ok tt end.

(** One clause, at the head of [rest]. *)
Definition constraint_clause (line : SourceLine) (rest : string) (c : FieldConstraintsDecl) : presult (FieldConstraintsDecl * string) :=
  match before_keyword_after rest with
  | In => '(values, tail) ← parse_constraint_in_list line rest; _ ← once line (in_ c) "`in`"; Ok (with_in_ values c, tail)
  | Min => '(n, tail) ← parse_constraint_int line rest "min"; _ ← once line (min c) "`min`"; Ok (with_min n c, tail)
  | Max => '(n, tail) ← parse_constraint_int line rest "max"; _ ← once line (max c) "`max`"; Ok (with_max n c, tail)
  | Length =>
    '(n, tail) ← parse_constraint_int line rest "length";
    if (n <? 0)%Z then Err (line_error line "`length` constraint must be a non-negative integer")
    else _ ← once line (length c) "`length`"; Ok (with_length (Z.to_nat n) c, tail)
  | Pattern => '(pat, tail) ← parse_constraint_string line rest "pattern"; _ ← once line (pattern c) "`pattern`"; Ok (with_pattern pat c, tail)
  | Between => '(lh, tail) ← parse_constraint_between line rest; _ ← once line (between c) "`between`"; Ok (with_between lh c, tail)
  | Validate =>
    '(validated, tail) ← parse_constraint_validate line rest;
    match validated with
    | SanitizeHtml profile => _ ← once line (sanitize_html c) "`validate sanitize_html`"; Ok (with_sanitize_html profile c, tail)
    | Utf8Safe => _ ← once line (utf8_safe c) "`validate utf8_safe`"; Ok (with_utf8_safe true c, tail)
    | MaxRecursion n => _ ← once line (max_recursion c) "`validate max_recursion`"; Ok (with_max_recursion n c, tail)
    | MaxSize n => _ ← once line (max_size c) "`validate max_size`"; Ok (with_max_size n c, tail)
    end
  | Validator => '(v, tail) ← parse_constraint_validator line rest; _ ← once line (covers_pii c) "`validator covers_pii`"; Ok (with_covers_pii v c, tail)
  end.

(** The loop; every round shortens [head], see [extract_go_enough]. *)
Fixpoint extract_go (fuel : nat) (line : SourceLine) (head : string) (c : FieldConstraintsDecl) : option (presult (string * FieldConstraintsDecl)) :=
  match find_constraint_keyword head with
  | None => Some (Ok (head, c))
  | Some (before, rest) =>
    match fuel with
    | O => None
    | S fuel =>
      match constraint_clause line (trim_start rest) c with
      | Err e => Some (Err e)
      | Ok (c, tail) => extract_go fuel line (trim_end (before +:+ tail)) c
      end
    end
  end.
Definition extract_field_constraints (line : SourceLine) (text : string) : presult (string * FieldConstraintsDecl) :=
  default (Err (line_error line "")) (extract_go (str_len text) line text no_constraints).

(** * Modifiers *)

(** The loop peels a suffix per round. *)
Fixpoint modifiers_go (fuel : nat) (type_text : string) (required optional : bool) : string * bool * bool :=
  let trimmed := trim_end type_text in
  match fuel with
  | O => (trimmed, required, optional)
  | S fuel =>
    match strip_suffix " required" trimmed with
    | Some rest => modifiers_go fuel rest true optional
    | None =>
      match strip_suffix " optional" trimmed with
      | Some rest => modifiers_go fuel rest required true
      | None => (trimmed, required, optional)
      end
    end
  end.
Definition split_command_input_modifiers (rest : string) : string * bool * bool := modifiers_go (str_len rest) rest false false.

(** * Lemmas *)

(** ** The scan ends *)

Lemma strip_prefix_shrinks p s t : strip_prefix p s = Some t -> str_len t <= str_len s.
Proof. intros [= ->]%strip_prefix_Some. rewrite len_app. lia. Qed.

Lemma split_once_shrinks c s h t : split_once c s = Some (h, t) -> str_len t <= str_len s.
Proof. intros [-> _]%split_once_Some. rewrite len_app. cbn. lia. Qed.

Lemma take_word_shrinks s w t : take_word s = (w, t) -> str_len t <= str_len s.
Proof. intros [= _ <-]. rewrite len_drop. lia. Qed.

Lemma ok_or_Ok {E A} (o : option A) (e : E) v : ok_or o e = Ok v -> o = Some v.
Proof. destruct o; cbn; congruence. Qed.

(** Follow a parser down to what it leaves. *)
Ltac shrink :=
  repeat match goal with
  | H : _ ≫= _ = Ok _ |- _ => apply bind_Ok in H as (? & ? & ?)
  | H : ok_or _ _ = Ok _ |- _ => apply ok_or_Ok in H
  | H : strip_prefix _ _ = Some _ |- _ => apply strip_prefix_shrinks in H
  | H : split_once _ _ = Some _ |- _ => apply split_once_shrinks in H
  | H : take_word _ = _ |- _ => apply take_word_shrinks in H
  | H : Ok _ = Ok _ |- _ => injection H as H; subst
  | H : (_, _) = (_, _) |- _ => injection H as H; subst
  | H : Err _ = Ok _ |- _ => discriminate H
  | H : (let '(_, _) := ?x in _) = Ok _ |- _ => destruct x eqn:?
  | H : match ?x with _ => _ end = Ok _ |- _ => destruct x eqn:?
  end;
  repeat match goal with
  | H : context [str_len (trim_start ?s)] |- _ => lazymatch goal with _ : str_len (trim_start s) <= str_len s |- _ => fail | _ => pose proof (len_trim_start s) end
  | H : context [str_len (str_drop ?n ?s)] |- _ =>
    lazymatch goal with _ : str_len (str_drop n s) = str_len s - n |- _ => fail | _ => pose proof (len_drop n s) end
  end;
  try lia.

Lemma int_shrinks line text k n tail : parse_constraint_int line text k = Ok (n, tail) -> str_len tail <= str_len text.
Proof. unfold parse_constraint_int. intros H. shrink. Qed.

Lemma string_shrinks line text k v tail : parse_constraint_string line text k = Ok (v, tail) -> str_len tail <= str_len text.
Proof.
  unfold parse_constraint_string. intros H. apply bind_Ok in H as (rest & H1 & H). pose proof (len_trim_start rest) as Hl.
  destruct (trim_start rest) as [|b body] eqn:E; [done|]. destruct (b =a? DQ); [|done]. cbn [str_len] in Hl. shrink.
Qed.

Lemma between_shrinks line text v tail : parse_constraint_between line text = Ok (v, tail) -> str_len tail <= str_len text.
Proof. unfold parse_constraint_between. intros H. shrink. Qed.

Lemma in_list_shrinks line text v tail : parse_constraint_in_list line text = Ok (v, tail) -> str_len tail <= str_len text.
Proof. unfold parse_constraint_in_list. intros H. shrink. Qed.

Lemma validate_shrinks line text v tail : parse_constraint_validate line text = Ok (v, tail) -> str_len tail <= str_len text.
Proof. unfold parse_constraint_validate, take_constraint_value. intros H. shrink. Qed.

Lemma validator_shrinks line text v tail : parse_constraint_validator line text = Ok (v, tail) -> str_len tail <= str_len text.
Proof. unfold parse_constraint_validator, take_constraint_value. intros H. shrink. Qed.

Lemma clause_shrinks line rest c c' tail : constraint_clause line rest c = Ok (c', tail) -> str_len tail <= str_len rest.
Proof.
  unfold constraint_clause. intros H. destruct (before_keyword_after rest); apply bind_Ok in H as ([v t] & E & H).
  - apply int_shrinks in E. shrink.
  - apply int_shrinks in E. shrink.
  - apply string_shrinks in E. shrink.
  - apply between_shrinks in E. shrink.
  - apply int_shrinks in E. shrink.
  - apply in_list_shrinks in E. shrink.
  - apply validate_shrinks in E. shrink.
  - apply validator_shrinks in E. shrink.
Qed.

Lemma find_token_lt text n i : find_token text n = Some i -> i < str_len text.
Proof.
  unfold find_token. change (str_len text) with (0 + str_len text). generalize 0%Z. generalize 0. induction text as [|b s IH]; intros k d H; [done|].
  cbn [find_token_go] in H. case_in H; [|done]. cbn [str_len]. case_in H; [injection H as <-; lia|]. apply IH in H. lia.
Qed.

Lemma keyword_splits text before rest : find_constraint_keyword text = Some (before, rest) -> str_len before + str_len rest < str_len text.
Proof.
  unfold find_constraint_keyword. intros H. destruct (foldl _ None needles) as [idx|] eqn:E; [|done]. injection H as <- <-.
  enough (idx < str_len text) by (rewrite len_take, len_drop; lia).
  assert (Hn : forall n i, find_token text n = Some i -> i < str_len text) by apply find_token_lt.
  revert E. assert (Hg : forall l best, (forall b, best = Some b -> b < str_len text) -> foldl (fun best needle => earlier best (find_token text needle)) best l = Some idx -> idx < str_len text).
  { induction l as [|n l IH]; intros best Hb E; [by apply Hb|]. cbn [foldl] in E. apply IH in E; [done|]. intros b Eb.
    unfold earlier in Eb. destruct best as [b0|], (find_token text n) as [i|] eqn:Ei; try done.
    - injection Eb as <-. pose proof (Hb b0 eq_refl). pose proof (Hn n i Ei). lia.
    - injection Eb as <-. by apply Hb.
    - injection Eb as <-. by eapply Hn. }
  by apply Hg.
Qed.

(** peeling the inline constraints off a type always ends: each round
    shortens the text, so as many rounds as it has bytes suffice. *)
Theorem extract_field_constraints_ends line text : exists r, extract_go (str_len text) line text no_constraints = Some r.
Proof.
  generalize no_constraints. remember (str_len text) as n eqn:Hn. assert (str_len text <= n) as Hle by lia. clear Hn. revert text Hle.
  induction n as [|n IH]; intros text Hle c; cbn [extract_go]; destruct (find_constraint_keyword text) as [[before rest]|] eqn:E; try (by eexists);
    apply keyword_splits in E; [lia|].
  destruct (constraint_clause line (trim_start rest) c) as [[c' tail]|e] eqn:Ec; [|by eexists]. apply clause_shrinks in Ec.
  apply IH. pose proof (len_trim_end (before +:+ tail)). rewrite len_app in *. pose proof (len_trim_start rest). lia.
Qed.

(** ** Plain types *)

(** A type with no clause after it is left alone. *)
Lemma extract_plain line text : find_constraint_keyword text = None -> extract_field_constraints line text = Ok (text, no_constraints).
Proof. unfold extract_field_constraints. intros H. destruct (str_len text); cbn [extract_go]; by rewrite H. Qed.
