(* ===== verification/QuerySyntax.v ===== *)
(** The [query.*] blocks of a feature ([lazuli_syntax/src/parser/lzi/query/],
    [ast/query.rs]).

    Positions in the line list are suffixes of it; the variables the three block
    loops keep are one record. *)
From S2P Require Import Prelude Str Fmt Lines Lex PlanSyntax FieldConstraints.
From S2P Require Policy LifecycleSyntax.
Import Policy (PolicyExprAst).

(** * Declarations *)

Record QuerySearch := { source : string; over_fields : list string; mode : option string; search_span : Span }.

(** Public contracts are attached by another pass. *)
Record ListQueryDecl := {
  lq_name : string; lq_policy : option string; lq_policy_expr : option PolicyExprAst; lq_modifier : option string;
  lq_params : list CommandInputSlot; lq_scope_override : bool; lq_scope_reason : option string;
  lq_scope_assignments : list string; lq_scope_lines : list string; lq_filters : list string; lq_search : option QuerySearch;
  lq_cache : list string; lq_cache_profile_ref : option string; lq_paginate : option N; lq_order : list string; lq_span : Span
}.
Record LookupKey := { lk_name : string; lk_type_text : string; lk_span : Span }.
Record LookupQueryDecl := {
  lu_name : string; lu_policy : option string; lu_policy_expr : option PolicyExprAst; lu_keys : list LookupKey;
  lu_filters : list string; lu_span : Span
}.
Inductive SqlQueryKind := Sql | View.
Record SqlQueryDecl := {
  sq_name : string; sq_kind : SqlQueryKind; sq_policy : option string; sq_policy_expr : option PolicyExprAst;
  sq_params : list CommandInputSlot; sq_scope_lines : list string; sq_returns : string; sq_path : string; sq_span : Span
}.
Inductive QueryDecl := DList (q : ListQueryDecl) | DLookup (q : LookupQueryDecl) | DSql (q : SqlQueryDecl).

Abbreviation trimmed := LifecycleSyntax.trimmed.

(** [s.split_once(sep)] *)
Definition split_once_str (sep s : string) : option (string * string) :=
  i ← str_find sep s; Some (str_take i s, str_drop (i + str_len sep) s).

(** * Nested blocks *)

(** A line deeper than the header's children belongs to the block. *)
Fixpoint params_lines (deepest : nat) (slots : list CommandInputSlot) (lines : list SourceLine)
    : presult (list CommandInputSlot * list SourceLine) :=
  match lines with
  | [] => Ok (slots, [])
  | line :: rest =>
    if is_trivia (trimmed line) then params_lines deepest slots rest
    else if (indent line <? deepest)%nat then Ok (slots, lines)
    else if negb (indent line =? deepest)%nat then Err (line_error line "query `params` children use the deepest indentation level")
    else
      '(name_part, type_part) ← ok_or (split_once ":" (trimmed line))
          (line_error line "query `params` slots use `<name>: <Type> [required|optional]`");
      let name := trim name_part in
      if name =? "" then Err (line_error line "query `params` slot requires a name before `:`") else
      '(after_constraints, constraints) ← extract_field_constraints line (trim type_part);
      let '(type_text, required, optional) := split_command_input_modifiers (trim after_constraints) in
      params_lines deepest
        (slots ++ [{| sl_name := name; type_text := type_text; sl_required := required; sl_optional := optional;
                      sl_constraints := constraints; sl_span := span_new (start line) (end_ line) |}])%list rest
  end.
Definition parse_query_params_block (lines : list SourceLine) (deepest : nat) := params_lines deepest [] lines.

Fixpoint scope_override_lines (deepest : nat) (reason : option string) (assignments : list string) (lines : list SourceLine)
    : presult ((option string * list string) * list SourceLine) :=
  match lines with
  | [] => Ok ((reason, assignments), [])
  | line :: rest =>
    if is_trivia (trimmed line) then scope_override_lines deepest reason assignments rest
    else if (indent line <? deepest)%nat then Ok ((reason, assignments), lines)
    else if negb (indent line =? deepest)%nat then Err (line_error line "`scope override` children use the deepest indentation level")
    else
      match strip_prefix "reason " (trimmed line) with
      | Some r => scope_override_lines deepest (Some (unquote_lzx_value (trim r))) assignments rest
      | None => scope_override_lines deepest reason (assignments ++ [trimmed line])%list rest
      end
  end.
Definition parse_query_scope_override_block (lines : list SourceLine) (deepest : nat) := scope_override_lines deepest None [] lines.

Fixpoint indented_lines (deepest : nat) (out : list string) (lines : list SourceLine) : list string * list SourceLine :=
  match lines with
  | [] => (out, [])
  | line :: rest =>
    if is_trivia (trimmed line) then indented_lines deepest out rest
    else if (indent line <? deepest)%nat then (out, lines)
    else indented_lines deepest (out ++ [trimmed line])%list rest
  end.
Definition parse_query_indented_block (lines : list SourceLine) (deepest : nat) := indented_lines deepest [] lines.

Fixpoint search_lines (deepest : nat) (mode : option string) (lines : list SourceLine) : presult (option string * list SourceLine) :=
  match lines with
  | [] => Ok (mode, [])
  | line :: rest =>
    if is_trivia (trimmed line) then search_lines deepest mode rest
    else if (indent line <? deepest)%nat then Ok (mode, lines)
    else if negb (indent line =? deepest)%nat then Err (line_error line "`search` children use the deepest indentation level")
    else
      match strip_prefix "mode " (trimmed line) with
      | Some r => search_lines deepest (Some (trim r)) rest
      | None => Err (line_error line "`search` children are `mode <kind>` only")
      end
  end.
Definition parse_query_search (header : SourceLine) (lines : list SourceLine) (rest : string) (deepest : nat) : presult (QuerySearch * list SourceLine) :=
  '(source, fields) ← ok_or (split_once_str " over " rest)
      (line_error header "`search` requires `<path> over <field>, <field>` (e.g. `search params.search over name, email`)");
  '(mode, next) ← search_lines deepest None lines;
  Ok ({| source := trim source; over_fields := List.filter nonempty (List.map trim (split_char "," fields)); mode := mode;
         search_span := span_new (start header) (end_ header) |}, next).

(** * Block loops *)

(** The loops' variables. *)
Record QueryAcc := {
  q_policy : option string; q_policy_expr : option PolicyExprAst; q_modifier : option string; q_params : list CommandInputSlot; q_scope_override : bool; q_scope_reason : option string; q_scope_assignments : list string; q_scope_lines : list string; q_filters : list string; q_search : option QuerySearch; q_cache : list string; q_cache_profile : option string; q_paginate : option N; q_order : list string; q_returns : option string; q_sql_path : option string;
  last_end : nat
}.
Definition acc_new (e : nat) : QueryAcc := {|
  q_policy := None; q_policy_expr := None; q_modifier := None; q_params := []; q_scope_override := false; q_scope_reason := None; q_scope_assignments := []; q_scope_lines := []; q_filters := []; q_search := None; q_cache := []; q_cache_profile := None; q_paginate := None; q_order := []; q_returns := None; q_sql_path := None;
  last_end := e |}.

Definition set_policy (v : string) (x : option PolicyExprAst) (e : nat) (a : QueryAcc) : QueryAcc := {|
  q_policy := Some v; q_policy_expr := x; q_modifier := q_modifier a; q_params := q_params a; q_scope_override := q_scope_override a; q_scope_reason := q_scope_reason a; q_scope_assignments := q_scope_assignments a; q_scope_lines := q_scope_lines a; q_filters := q_filters a; q_search := q_search a; q_cache := q_cache a; q_cache_profile := q_cache_profile a; q_paginate := q_paginate a; q_order := q_order a; q_returns := q_returns a; q_sql_path := q_sql_path a;
  last_end := e |}.
Definition set_modifier (v : string) (e : nat) (a : QueryAcc) : QueryAcc := {|
  q_policy := q_policy a; q_policy_expr := q_policy_expr a; q_modifier := Some v; q_params := q_params a; q_scope_override := q_scope_override a; q_scope_reason := q_scope_reason a; q_scope_assignments := q_scope_assignments a; q_scope_lines := q_scope_lines a; q_filters := q_filters a; q_search := q_search a; q_cache := q_cache a; q_cache_profile := q_cache_profile a; q_paginate := q_paginate a; q_order := q_order a; q_returns := q_returns a; q_sql_path := q_sql_path a;
  last_end := e |}.
Definition set_params (v : list CommandInputSlot) (e : nat) (a : QueryAcc) : QueryAcc := {|
  q_policy := q_policy a; q_policy_expr := q_policy_expr a; q_modifier := q_modifier a; q_params := v; q_scope_override := q_scope_override a; q_scope_reason := q_scope_reason a; q_scope_assignments := q_scope_assignments a; q_scope_lines := q_scope_lines a; q_filters := q_filters a; q_search := q_search a; q_cache := q_cache a; q_cache_profile := q_cache_profile a; q_paginate := q_paginate a; q_order := q_order a; q_returns := q_returns a; q_sql_path := q_sql_path a;
  last_end := e |}.
Definition set_scope_override (r : option string) (l : list string) (e : nat) (a : QueryAcc) : QueryAcc := {|
  q_policy := q_policy a; q_policy_expr := q_policy_expr a; q_modifier := q_modifier a; q_params := q_params a; q_scope_override := true; q_scope_reason := r; q_scope_assignments := l; q_scope_lines := q_scope_lines a; q_filters := q_filters a; q_search := q_search a; q_cache := q_cache a; q_cache_profile := q_cache_profile a; q_paginate := q_paginate a; q_order := q_order a; q_returns := q_returns a; q_sql_path := q_sql_path a;
  last_end := e |}.
Definition set_scope (v : list string) (e : nat) (a : QueryAcc) : QueryAcc := {|
  q_policy := q_policy a; q_policy_expr := q_policy_expr a; q_modifier := q_modifier a; q_params := q_params a; q_scope_override := q_scope_override a; q_scope_reason := q_scope_reason a; q_scope_assignments := q_scope_assignments a; q_scope_lines := v; q_filters := q_filters a; q_search := q_search a; q_cache := q_cache a; q_cache_profile := q_cache_profile a; q_paginate := q_paginate a; q_order := q_order a; q_returns := q_returns a; q_sql_path := q_sql_path a;
  last_end := e |}.
Definition set_filters (v : list string) (e : nat) (a : QueryAcc) : QueryAcc := {|
  q_policy := q_policy a; q_policy_expr := q_policy_expr a; q_modifier := q_modifier a; q_params := q_params a; q_scope_override := q_scope_override a; q_scope_reason := q_scope_reason a; q_scope_assignments := q_scope_assignments a; q_scope_lines := q_scope_lines a; q_filters := v; q_search := q_search a; q_cache := q_cache a; q_cache_profile := q_cache_profile a; q_paginate := q_paginate a; q_order := q_order a; q_returns := q_returns a; q_sql_path := q_sql_path a;
  last_end := e |}.
Definition set_search (v : QuerySearch) (e : nat) (a : QueryAcc) : QueryAcc := {|
  q_policy := q_policy a; q_policy_expr := q_policy_expr a; q_modifier := q_modifier a; q_params := q_params a; q_scope_override := q_scope_override a; q_scope_reason := q_scope_reason a; q_scope_assignments := q_scope_assignments a; q_scope_lines := q_scope_lines a; q_filters := q_filters a; q_search := Some v; q_cache := q_cache a; q_cache_profile := q_cache_profile a; q_paginate := q_paginate a; q_order := q_order a; q_returns := q_returns a; q_sql_path := q_sql_path a;
  last_end := e |}.
Definition set_cache (v : list string) (e : nat) (a : QueryAcc) : QueryAcc := {|
  q_policy := q_policy a; q_policy_expr := q_policy_expr a; q_modifier := q_modifier a; q_params := q_params a; q_scope_override := q_scope_override a; q_scope_reason := q_scope_reason a; q_scope_assignments := q_scope_assignments a; q_scope_lines := q_scope_lines a; q_filters := q_filters a; q_search := q_search a; q_cache := v; q_cache_profile := q_cache_profile a; q_paginate := q_paginate a; q_order := q_order a; q_returns := q_returns a; q_sql_path := q_sql_path a;
  last_end := e |}.
Definition set_cache_profile (v : string) (e : nat) (a : QueryAcc) : QueryAcc := {|
  q_policy := q_policy a; q_policy_expr := q_policy_expr a; q_modifier := q_modifier a; q_params := q_params a; q_scope_override := q_scope_override a; q_scope_reason := q_scope_reason a; q_scope_assignments := q_scope_assignments a; q_scope_lines := q_scope_lines a; q_filters := q_filters a; q_search := q_search a; q_cache := q_cache a; q_cache_profile := Some v; q_paginate := q_paginate a; q_order := q_order a; q_returns := q_returns a; q_sql_path := q_sql_path a;
  last_end := e |}.
Definition set_paginate (v : N) (e : nat) (a : QueryAcc) : QueryAcc := {|
  q_policy := q_policy a; q_policy_expr := q_policy_expr a; q_modifier := q_modifier a; q_params := q_params a; q_scope_override := q_scope_override a; q_scope_reason := q_scope_reason a; q_scope_assignments := q_scope_assignments a; q_scope_lines := q_scope_lines a; q_filters := q_filters a; q_search := q_search a; q_cache := q_cache a; q_cache_profile := q_cache_profile a; q_paginate := Some v; q_order := q_order a; q_returns := q_returns a; q_sql_path := q_sql_path a;
  last_end := e |}.
Definition push_order (v : string) (e : nat) (a : QueryAcc) : QueryAcc := {|
  q_policy := q_policy a; q_policy_expr := q_policy_expr a; q_modifier := q_modifier a; q_params := q_params a; q_scope_override := q_scope_override a; q_scope_reason := q_scope_reason a; q_scope_assignments := q_scope_assignments a; q_scope_lines := q_scope_lines a; q_filters := q_filters a; q_search := q_search a; q_cache := q_cache a; q_cache_profile := q_cache_profile a; q_paginate := q_paginate a; q_order := q_order a ++ [v]; q_returns := q_returns a; q_sql_path := q_sql_path a;
  last_end := e |}%list.
Definition set_returns (v : string) (e : nat) (a : QueryAcc) : QueryAcc := {|
  q_policy := q_policy a; q_policy_expr := q_policy_expr a; q_modifier := q_modifier a; q_params := q_params a; q_scope_override := q_scope_override a; q_scope_reason := q_scope_reason a; q_scope_assignments := q_scope_assignments a; q_scope_lines := q_scope_lines a; q_filters := q_filters a; q_search := q_search a; q_cache := q_cache a; q_cache_profile := q_cache_profile a; q_paginate := q_paginate a; q_order := q_order a; q_returns := Some v; q_sql_path := q_sql_path a;
  last_end := e |}.
Definition set_sql_path (v : string) (e : nat) (a : QueryAcc) : QueryAcc := {|
  q_policy := q_policy a; q_policy_expr := q_policy_expr a; q_modifier := q_modifier a; q_params := q_params a; q_scope_override := q_scope_override a; q_scope_reason := q_scope_reason a; q_scope_assignments := q_scope_assignments a; q_scope_lines := q_scope_lines a; q_filters := q_filters a; q_search := q_search a; q_cache := q_cache a; q_cache_profile := q_cache_profile a; q_paginate := q_paginate a; q_order := q_order a; q_returns := q_returns a; q_sql_path := Some v;
  last_end := e |}.
Definition seen (e : nat) (a : QueryAcc) : QueryAcc := {|
  q_policy := q_policy a; q_policy_expr := q_policy_expr a; q_modifier := q_modifier a; q_params := q_params a; q_scope_override := q_scope_override a; q_scope_reason := q_scope_reason a; q_scope_assignments := q_scope_assignments a; q_scope_lines := q_scope_lines a; q_filters := q_filters a; q_search := q_search a; q_cache := q_cache a; q_cache_profile := q_cache_profile a; q_paginate := q_paginate a; q_order := q_order a; q_returns := q_returns a; q_sql_path := q_sql_path a;
  last_end := e |}.

(** A child: what it leaves in the variables, and how many of the lines after it
    it takes. *)
Definition Child : Type := QueryAcc * nat.

(** [try_parse_policy_expr], which always answers
    ([Policy.try_parse_policy_expr_wf]). *)
Definition policy_of (line : SourceLine) (payload : string) : presult (option PolicyExprAst) :=
  default (Err (line_error line "")) (Policy.try_parse_policy_expr line payload).

(** The end of the last line a nested block takes. *)
Definition end_at (line : SourceLine) (rest : list SourceLine) (taken : nat) : nat :=
  match taken with O => end_ line | S k => match nth_error rest k with Some l => end_ l | None => end_ line end end.
Definition taken (rest next : list SourceLine) : nat := List.length rest - List.length next.

(** The children the three blocks share: [policy], [params], and [gate], which a
    pass of its own reads. *)
Definition common_child (deepest : nat) (a : QueryAcc) (line : SourceLine) (rest : list SourceLine) : option (presult Child) :=
  match strip_prefix "policy " (trimmed line) with
  | Some r => Some (x ← policy_of line r; Ok (set_policy (trim r) x (end_ line) a, 0))
  | None =>
    if trimmed line =? "params" then Some
      ('(slots, next) ← parse_query_params_block rest deepest;
       Ok (set_params slots (end_at line rest (taken rest next)) a, taken rest next))
    else None
  end.
Definition gate_child (a : QueryAcc) (line : SourceLine) (message : string) : presult Child :=
  if starts_with "gate " (trimmed line) then Ok (seen (end_ line) a, 0) else Err (line_error line message).

(** A child that collects the lines below it. *)
Definition block_child (deepest : nat) (set : list string -> nat -> QueryAcc -> QueryAcc) (a : QueryAcc) (line : SourceLine) (rest : list SourceLine) : presult Child :=
  let '(l, next) := parse_query_indented_block rest deepest in
  Ok (set l (end_at line rest (taken rest next)) a, taken rest next).

Definition list_child (deepest : nat) (a : QueryAcc) (line : SourceLine) (rest : list SourceLine) : presult Child :=
  let t := trimmed line in
  let e := end_ line in
  match strip_prefix "policy " t with
  | Some r => x ← policy_of line r; Ok (set_policy (trim r) x e a, 0)
  | None =>
  match strip_prefix "modifier " t with
  | Some r => Ok (set_modifier (trim r) e a, 0)
  | None =>
  if t =? "params" then
    '(slots, next) ← parse_query_params_block rest deepest;
    Ok (set_params slots (end_at line rest (taken rest next)) a, taken rest next)
  else if t =? "scope override" then
    '((reason, assignments), next) ← parse_query_scope_override_block rest deepest;
    Ok (set_scope_override reason assignments (end_at line rest (taken rest next)) a, taken rest next)
  else if t =? "scope" then block_child deepest set_scope a line rest
  else if t =? "filters" then block_child deepest set_filters a line rest
  else
  match strip_prefix "search " t with
  | Some r =>
    '(s, next) ← parse_query_search line rest r deepest;
    Ok (set_search s (end_at line rest (taken rest next)) a, taken rest next)
  | None =>
  if t =? "cache" then
    match q_cache_profile a with
    | Some _ => Err (line_error line
        "`query.list` may declare either an inline `cache` block or a `cache <profile>` reference, not both")
    | None => block_child deepest set_cache a line rest
    end
  else
  match strip_prefix "cache " t with
  | Some r =>
    let name := trim r in
    if name =? "" then Err (line_error line
      "`cache <profile>` requires a profile name (declare it as a feature-level `cache <name>` block)")
    else match q_cache a, q_cache_profile a with
    | _ :: _, _ => Err (line_error line
        "`query.list` may declare either an inline `cache` block or a `cache <profile>` reference, not both")
    | [], Some _ => Err (line_error line "`query.list` may declare `cache <profile>` only once")
    | [], None => Ok (set_cache_profile name e a, 0)
    end
  | None =>
  match strip_prefix "paginate " t with
  | Some r =>
    n ← ok_or (parse_u32 (trim r)) (line_error line "`paginate` requires a positive integer page size");
    Ok (set_paginate n e a, 0)
  | None =>
  match strip_prefix "order " t with
  | Some r => Ok (push_order (trim r) e a, 0)
  | None => gate_child a line
      "`query.list` children are `policy`, `modifier`, `params`, `scope`/`scope override`, `filters`, `search`, `cache`, `paginate`, `order`, or `gate behind/quota plan.*`"
  end end end end end end.

Definition lookup_child (deepest : nat) (a : QueryAcc) (line : SourceLine) (rest : list SourceLine) : presult Child :=
  match common_child deepest a line rest with
  | Some r => r
  | None =>
    if trimmed line =? "filters" then block_child deepest set_filters a line rest
    else gate_child a line "`query.lookup` children are `policy`, `params`, `filters`, or `gate behind/quota plan.*`"
  end.

Definition sql_child (kind : SqlQueryKind) (deepest : nat) (a : QueryAcc) (line : SourceLine) (rest : list SourceLine) : presult Child :=
  let t := trimmed line in
  let e := end_ line in
  match common_child deepest a line rest with
  | Some r => r
  | None =>
  if t =? "scope" then block_child deepest set_scope a line rest
  else
  match strip_prefix "returns " t with
  | Some r => Ok (set_returns (trim r) e a, 0)
  | None =>
  match strip_prefix "sql " t with
  | Some r =>
    match kind with
    | View => Err (line_error line
        ("`query.view` uses `source @file.<name>.sql`; `sql " +:+ quoted "./<path>.sql" +:+ "` is reserved for `query.sql`"))
    | Sql => Ok (set_sql_path (unquote_lzx_value (trim r)) e a, 0)
    end
  | None =>
  match strip_prefix "source " t with
  | Some r =>
    match kind with
    | Sql => Err (line_error line
        ("`source @file.<name>.sql` is only valid on `query.view`; use `sql " +:+ quoted "./<path>.sql" +:+ "` on `query.sql`"))
    | View =>
      let source := trim r in
      if negb (starts_with "@file." source) || negb (ends_with ".sql" source) then
        Err (line_error line "`query.view source` must be shaped `@file.<name>.sql`")
      else Ok (set_sql_path source e a, 0)
    end
  | None => gate_child a line
      match kind with
      | Sql => "`query.sql` children are `policy`, `params`, `scope`, `returns`, `sql`, or `gate behind/quota plan.*`"
      | View => "`query.view` children are `policy`, `returns`, `source`, `params`, `scope`, or `gate behind/quota plan.*`"
      end
  end end end end.

(** The loop of a block; [skip] lines at the head belong to the last child. *)
Fixpoint block_lines (child : QueryAcc -> SourceLine -> list SourceLine -> presult Child) (header_indent : nat) (misplaced : string)
    (skip : nat) (a : QueryAcc) (lines : list SourceLine) : presult (QueryAcc * list SourceLine) :=
  match lines with
  | [] => Ok (a, [])
  | line :: rest =>
    match skip with
    | S skip => block_lines child header_indent misplaced skip a rest
    | O =>
      if is_trivia (trimmed line) then block_lines child header_indent misplaced 0 a rest
      else if (indent line <=? header_indent)%nat then Ok (a, lines)
      else if negb (indent line =? header_indent + 2)%nat then Err (line_error line misplaced)
      else '(a, skip) ← child a line rest; block_lines child header_indent misplaced skip a rest
    end
  end.

(** * Queries *)

Definition parse_query_list_decl (header : SourceLine) (lines : list SourceLine) (rest : string) : presult (QueryDecl * list SourceLine) :=
  let name := trim rest in
  if name =? "" then Err (line_error header "`query.list` requires a name") else
  '(a, next) ← block_lines (list_child (indent header + 4)) (indent header)
      "`query.list` body children use one indentation level deeper than the header" 0 (acc_new (end_ header)) lines;
  Ok (DList {| lq_name := name; lq_policy := q_policy a; lq_policy_expr := q_policy_expr a; lq_modifier := q_modifier a;
       lq_params := q_params a; lq_scope_override := q_scope_override a; lq_scope_reason := q_scope_reason a;
       lq_scope_assignments := q_scope_assignments a; lq_scope_lines := q_scope_lines a; lq_filters := q_filters a;
       lq_search := q_search a; lq_cache := q_cache a; lq_cache_profile_ref := q_cache_profile a; lq_paginate := q_paginate a;
       lq_order := q_order a; lq_span := span_new (start header) (last_end a) |}, next).

Definition parse_lookup_key (line : SourceLine) (rest : string) : presult LookupKey :=
  '(name, type_text) ← ok_or (split_once ":" rest) (line_error line "`query.lookup ... by <field>: <Type>` requires `<field>: <Type>`");
  let name := trim name in
  if name =? "" then Err (line_error line "`query.lookup ... by <field>: <Type>` requires a field name before `:`") else
  let type_text := trim type_text in
  if type_text =? "" then Err (line_error line "`query.lookup ... by <field>: <Type>` requires a type after `:`") else
  Ok {| lk_name := name; lk_type_text := type_text; lk_span := span_new (start line) (end_ line) |}.

Definition parse_query_lookup_decl (header : SourceLine) (lines : list SourceLine) (rest : string) : presult (QueryDecl * list SourceLine) :=
  let rest := trim rest in
  '(name, inline_key) ←
    match split_once_str " by " rest with
    | Some (name, after) => key ← parse_lookup_key header after; Ok (trim name, Some key)
    | None => Ok (rest, None)
    end;
  if name =? "" then Err (line_error header "`query.lookup` requires a name") else
  '(a, next) ← block_lines (lookup_child (indent header + 4)) (indent header)
      "`query.lookup` body children use one indentation level deeper than the header" 0 (acc_new (end_ header)) lines;
  let keys := match inline_key with
    | Some key => [key]
    | None => List.map (fun p => {| lk_name := sl_name p; lk_type_text := type_text p; lk_span := sl_span p |}) (q_params a)
    end in
  Ok (DLookup {| lu_name := name; lu_policy := q_policy a; lu_policy_expr := q_policy_expr a; lu_keys := keys; lu_filters := q_filters a;
       lu_span := span_new (start header) (last_end a) |}, next).

Definition parse_sql_backed_query_decl (header : SourceLine) (lines : list SourceLine) (rest : string) (kind : SqlQueryKind)
    : presult (QueryDecl * list SourceLine) :=
  let name := trim rest in
  let word := match kind with Sql => "sql" | View => "view" end in
  if name =? "" then Err (line_error header ("`query." +:+ word +:+ "` requires a name")) else
  '(a, next) ← block_lines (sql_child kind (indent header + 4)) (indent header)
      ("`query." +:+ word +:+ "` body children use one indentation level deeper than the header") 0 (acc_new (end_ header)) lines;
  returns ← ok_or (q_returns a) (line_error header ("`query." +:+ word +:+ "` requires a `returns <Type>` declaration"));
  sql_path ← ok_or (q_sql_path a) (line_error header
    match kind with
    | Sql => "`query.sql` requires a `sql " +:+ quoted "./<path>.sql" +:+ "` declaration"
    | View => "`query.view` requires a `source @file.<name>.sql` declaration"
    end);
  Ok (DSql {| sq_name := name; sq_kind := kind; sq_policy := q_policy a; sq_policy_expr := q_policy_expr a; sq_params := q_params a;
       sq_scope_lines := q_scope_lines a; sq_returns := returns; sq_path := sql_path; sq_span := span_new (start header) (last_end a) |}, next).

(** [parse_query_decl] at [header], the lines after it in [lines]. *)
Definition parse_query_decl (header : SourceLine) (lines : list SourceLine) : presult (QueryDecl * list SourceLine) :=
  match strip_prefix "query.lookup " (trimmed header) with
  | Some rest => parse_query_lookup_decl header lines rest
  | None =>
  match strip_prefix "query.list " (trimmed header) with
  | Some rest => parse_query_list_decl header lines rest
  | None =>
  match strip_prefix "query.sql " (trimmed header) with
  | Some rest => parse_sql_backed_query_decl header lines rest Sql
  | None =>
  match strip_prefix "query.view " (trimmed header) with
  | Some rest => parse_sql_backed_query_decl header lines rest View
  | None => Err (line_error header
      "query header must be `query.list <name>`, `query.lookup <name> by ...`, `query.sql <name>`, or `query.view <name>`")
  end end end end.
