(* ===== verification/TypeToken.v ===== *)
(** Type tokens ([lazuli_analyzer/src/types.rs]): the text of a field's or a
    slot's type to a [TypeRef].

    A capability keeps of its arguments what [Catalog.CapabilityRef] carries;
    the others decide only whether the token is that capability. *)
From S2P Require Import Prelude Str BTree Fmt Helpers Ir Catalog.
From S2P Require Expr FieldConstraints.
Import FieldConstraints (parse_u32).
Import Expr (ident, ident_char).

(** [s.strip_prefix(a).or_else(|| s.strip_prefix(b)) ..] *)
Fixpoint strip_any (prefixes : list string) (s : string) : option string :=
  match prefixes with
  | [] => None
  | p :: ps => match strip_prefix p s with Some r => Some r | None => strip_any ps s end
  end.
Fixpoint strip_any_suffix (suffixes : list string) (s : string) : option string :=
  match suffixes with
  | [] => None
  | p :: ps => match strip_suffix p s with Some r => Some r | None => strip_any_suffix ps s end
  end.

(** * Capability arguments *)

(** A [BTreeMap]: the last value of a key counts. *)
Definition parse_capability_args (inner : string) : list (string * string) :=
  bt_collect (omap (fun part =>
    '(k, v) ← split_once ":" part; Some (trim k, trim v))
    (List.filter nonempty (List.map trim (split_char "," inner)))).

Definition strip_cap (ty name : string) : option string :=
  inner ← strip_any ["@cap." +:+ name +:+ "("; name +:+ "("] ty; strip_suffix ")" inner.

Definition arg (key ty name : string) : option string := inner ← strip_cap ty name; bt_get key (parse_capability_args inner).

Definition parse_cap_hashed_type (ty : string) : option CapabilityRef :=
  algorithm ← arg "algorithm" ty "Hashed";
  if (algorithm =? "argon2id") || (algorithm =? "bcrypt") then Some CHashed else None.
Definition parse_cap_encrypted_type (ty : string) : option CapabilityRef :=
  key ← arg "key" ty "Encrypted"; if starts_with "@key." key then Some (CEncrypted key) else None.
Definition parse_cap_e2ee_type (ty : string) : option CapabilityRef :=
  key ← arg "key" ty "E2ee"; if starts_with "@key." key then Some (CE2ee key) else None.

Definition parse_cap_token_type (ty : string) : option CapabilityRef :=
  ttl ← arg "ttl" ty "Token";
  single_use ← arg "single_use" ty "Token";
  if negb ((single_use =? "true") || (single_use =? "false")) then None else
  store ← arg "store" ty "Token";
  if store =? "hashed" then Some CToken else None.

(** The amount of a [kb], [mb] or [gb] size. *)
Definition parse_file_size (raw : string) : option (N * string) :=
  let digit_count := count_while is_ascii_digit raw in
  if (digit_count =? 0)%nat || (digit_count =? str_len raw)%nat then None else
  amount ← parse_u32 (str_take digit_count raw);
  let unit_ := str_drop digit_count raw in
  if (unit_ =? "kb") || (unit_ =? "mb") || (unit_ =? "gb") then Some (amount, unit_) else None.

Fixpoint mime_tokens (tokens : list string) : option (list (string * string)) :=
  match tokens with
  | [] => Some []
  | token :: tokens =>
    let token := trim token in
    if token =? "" then None else
    '(family, subtype) ← split_once "/" token;
    let family := trim family in
    let subtype := trim subtype in
    if (family =? "") || (subtype =? "") then None else
    rest ← mime_tokens tokens; Some ((family, subtype) :: rest)
  end.
Definition parse_mime_list (raw : string) : option (list (string * string)) := mime_tokens (split_char "|" raw).

(** The optional [visibility], [signed_ttl] and [auto_photo_policy] never fail. *)
Definition parse_cap_file_type (ty : string) : option CapabilityRef :=
  let ty := first_paren_balanced_token ty in
  size ← arg "max_size" ty "File"; max_size ← parse_file_size size;
  mimes ← arg "accept" ty "File"; accept ← parse_mime_list mimes;
  match accept with [] => None | _ => Some CFile end.

Definition unquote_capability_arg (value : string) : string :=
  default value (inner ← strip_prefix (String DQ "") value; strip_suffix (String DQ "") inner).
Definition parse_cap_pii_type (ty : string) : option CapabilityRef :=
  let ty := first_paren_balanced_token ty in
  class ← arg "class" ty "PII";
  if unquote_capability_arg class =? "" then None else
  match arg "log_redact" ty "PII" with
  | Some r => if (r =? "true") || (r =? "false") then Some CPII else None
  | None => Some CPII
  end.

Definition from_iso (raw : string) : option CurrencyCode :=
  if raw =? "BRL" then Some BRL else if raw =? "USD" then Some USD else if raw =? "EUR" then Some EUR
  else if raw =? "GBP" then Some GBP else if raw =? "JPY" then Some JPY else if raw =? "CHF" then Some CHF else None.
Definition parse_semantic_money_type (ty : string) : option BuiltinType :=
  rest ← strip_any ["@semantic.Money("; "Money("] ty;
  inner ← strip_suffix ")" rest;
  raw ← bt_get "currency" (parse_capability_args inner);
  currency ← from_iso raw;
  Some (SemanticMoney currency).

(** * Names *)

(** The closed catalog of semantic scalars, spelled bare or with its sigil. *)
Definition semantic_types : list (string * BuiltinType) :=
  [("Email", SemanticEmail); ("Phone", SemanticPhone); ("Url", SemanticUrl); ("Uuid", SemanticUuid); ("Currency", SemanticCurrency);
   ("GeoPoint", SemanticGeoPoint); ("HexColor", SemanticHexColor); ("Percentage", SemanticPercentage);
   ("PositiveDecimal", SemanticPositiveDecimal); ("NonNegativeInt", SemanticNonNegativeInt); ("Money", SemanticMoney BRL)].
Definition semantic_of (ty : string) : option BuiltinType :=
  snd <$> List.find (fun nt => (ty =? nt.1) || (ty =? "@semantic." +:+ nt.1)) semantic_types.

Definition plain_types : list (string * BuiltinType) :=
  [("ID", Id); ("Id", Id); ("Text", Text); ("String", Text); ("Boolean", Boolean); ("Bool", Boolean); ("Integer", Integer); ("Int", Integer);
   ("Decimal", Decimal); ("Float", Decimal); ("Money", SemanticMoney BRL); ("Date", Date); ("DateTime", DateTime); ("JSON", Json);
   ("Json", Json); ("Email", SemanticEmail)].
Definition plain_of (ty : string) : option BuiltinType := snd <$> List.find (fun nt => ty =? nt.1) plain_types.

Definition first_some {A} (l : list (option A)) : option A := foldr (fun o acc => match o with Some x => Some x | None => acc end) None l.

(** The token after the list forms. *)
Definition atom_type (ty : string) : TypeRef :=
  let member_id :=
    match strip_any_suffix [".ID"; ".Id"] ty with
    | Some prefix => nonempty prefix && negb (contains "." prefix)
    | None => false
    end in
  if member_id then Builtin Id else
  match first_some [parse_cap_file_type ty; parse_cap_pii_type ty; parse_cap_hashed_type ty; parse_cap_encrypted_type ty;
                    parse_cap_e2ee_type ty; parse_cap_token_type ty] with
  | Some c => Capability c
  | None =>
    match first_some [parse_semantic_money_type ty; semantic_of ty; plain_of ty] with
    | Some b => Builtin b
    | None => UserDefined {| qn_feature := None; qn_name := ty |}
    end
  end.

Definition list_prefixes : list string := ["list of "; "List of "; "list "; "List "].

(** The body, on the recursive call. *)
Definition type_step (rec : string -> TypeRef) (ty : string) : TypeRef :=
  let raw := trim ty in
  match strip_any list_prefixes raw with
  | Some inner => Many (rec (trim inner))
  | None =>
    let ty := first_paren_balanced_token raw in
    match strip_suffix "[]" ty with
    | Some stripped => Many (rec (trim_end stripped))
    | None => atom_type ty
    end
  end.
Fixpoint type_fuel (fuel : nat) (ty : string) : TypeRef :=
  type_step (match fuel with O => fun ty => UserDefined {| qn_feature := None; qn_name := ty |} | S fuel => type_fuel fuel end) ty.
Definition type_ref_from_syntax (ty : string) : TypeRef := type_fuel (str_len ty) ty.
Definition type_ref_from_text (text : string) : TypeRef := type_ref_from_syntax (trim text).

(** [None] for text outside ASCII: the tables of Unicode decide whether it is an
    identifier. *)
Definition parse_default (raw : string) : option DefaultValue :=
  if raw =? "true" then Some (DBoolean true)
  else if raw =? "false" then Some (DBoolean false)
  else if raw =? "nil" then Some DNil
  else match parse_i64 raw with
  | Some value => Some (DInteger value)
  | None =>
    if negb (is_ascii raw) then None
    else if match raw with String c _ => is_ascii_alphabetic c || (c =a? "_") | "" => false end
            && str_all (fun c => is_ascii_alphanumeric c || (c =a? "_")) raw
    then Some (DEnumLiteral {| type_name := None; variant := raw |})
    else Some (DString raw)
  end.

(** * The recursion *)

Lemma len_strip_any ps s r : strip_any ps s = Some r -> List.Forall (fun p => p <> "") ps -> str_len r < str_len s.
Proof.
  induction ps as [|p ps IH]; intros H Hp; [done|]. inversion_clear Hp as [|?? Hne Hps]. cbn [strip_any] in H.
  destruct (strip_prefix p s) as [r'|] eqn:E; [|by apply IH].
  injection H as <-. apply strip_prefix_Some in E as ->. rewrite len_app. destruct p; simpl; [done|lia].
Qed.

Lemma len_balanced text depth idx s : str_len (balanced_token_go text depth idx s) <= str_len text.
Proof.
  revert depth idx. induction s as [|b s IH]; intros depth idx; cbn [balanced_token_go]; [done|].
  destruct (opens b), (closes b), ((0 <? ws_len (String b s))%nat && (depth =? 0)%Z); auto;
    etransitivity; try apply len_trim_end; rewrite len_take; lia.
Qed.

Lemma type_step_ext rec rec' ty : (forall t, str_len t < str_len ty -> rec t = rec' t) -> type_step rec ty = type_step rec' ty.
Proof.
  intros H. unfold type_step. pose proof (Expr.len_trim ty) as Ht.
  destruct (strip_any list_prefixes (trim ty)) as [inner|] eqn:E.
  - f_equal. apply H. apply len_strip_any in E; [|by repeat constructor]. pose proof (Expr.len_trim inner). lia.
  - destruct (strip_suffix "[]" _) as [st|] eqn:Es; [|done]. f_equal. apply H.
    apply strip_suffix_Some in Es. pose proof (len_balanced (trim (trim ty)) 0 0 (trim (trim ty))) as Hb.
    unfold first_paren_balanced_token in Es. rewrite Es, len_app in Hb. simpl in Hb.
    pose proof (len_trim_end st). pose proof (Expr.len_trim (trim ty)). lia.
Qed.

Lemma type_fuel_enough f f' ty : str_len ty <= f -> str_len ty <= f' -> type_fuel f ty = type_fuel f' ty.
Proof.
  revert f' ty. induction f as [|f IH]; intros [|f'] ty H H'; [done| | |]; cbn [type_fuel];
    apply type_step_ext; intros t Ht; try lia. apply IH; lia.
Qed.

Lemma type_ref_eq ty : type_ref_from_syntax ty = type_step type_ref_from_syntax ty.
Proof.
  unfold type_ref_from_syntax at 1. destruct (str_len ty) as [|n] eqn:E; cbn [type_fuel];
    apply type_step_ext; intros t Ht; [lia|]. apply type_fuel_enough; lia.
Qed.

(** * Spelling *)

(** One spelling of each type an author can write; the arguments a [TypeRef]
    does not keep are filled in. *)
Definition currency_iso (c : CurrencyCode) : string :=
  match c with BRL => "BRL" | USD => "USD" | EUR => "EUR" | GBP => "GBP" | JPY => "JPY" | CHF => "CHF" end.
Definition builtin_name (b : BuiltinType) : option string :=
  match b with
  | SemanticMoney c => Some ("Money(currency:" +:+ currency_iso c +:+ ")")
  | SemanticPluginType _ _ _ _ _ _ _ _ _ | CapSecret | CapFile => None
  | b => fst <$> List.find (fun nt => match semantic_of nt.1, plain_of nt.1 with
      | Some b', _ | None, Some b' =>
        match b, b' with
        | Id, Id | Text, Text | Boolean, Boolean | Integer, Integer | Decimal, Decimal | Date, Date | DateTime, DateTime | Json, Json
        | SemanticEmail, SemanticEmail | SemanticPhone, SemanticPhone | SemanticUrl, SemanticUrl | SemanticUuid, SemanticUuid
        | SemanticCurrency, SemanticCurrency | SemanticGeoPoint, SemanticGeoPoint | SemanticHexColor, SemanticHexColor
        | SemanticPercentage, SemanticPercentage | SemanticPositiveDecimal, SemanticPositiveDecimal
        | SemanticNonNegativeInt, SemanticNonNegativeInt => true
        | _, _ => false
        end
      | None, None => false
      end) (plain_types ++ semantic_types)
  end.
Definition capability_text (c : CapabilityRef) : string :=
  match c with
  | CFile => "File(max_size:25mb,accept:text/csv|image/png)"
  | CPII => "PII(class:contact)"
  | CHashed => "Hashed(algorithm:argon2id)"
  | CEncrypted k => "Encrypted(key:" +:+ k +:+ ")"
  | CE2ee k => "E2ee(key:" +:+ k +:+ ")"
  | CToken => "Token(ttl:15m,single_use:true,store:hashed)"
  end.
Fixpoint show_type (t : TypeRef) : option string :=
  match t with
  | Builtin b => builtin_name b
  | UserDefined q =>
    if match qn_feature q with None => true | Some _ => false end && ident (qn_name q) &&
       match semantic_of (qn_name q), plain_of (qn_name q) with None, None => true | _, _ => false end &&
       negb ((qn_name q =? "list") || (qn_name q =? "List") || (qn_name q =? "of"))
    then Some (qn_name q) else None
  | EnumRef _ | Unresolved _ => None
  | Many t => s ← show_type t; Some ("list " +:+ s)
  | Capability (CEncrypted k) | Capability (CE2ee k) =>
    match strip_prefix "@key." k with
    | Some name => if ident name then match t with Capability c => Some (capability_text c) | _ => None end else None
    | None => None
    end
  | Capability c => Some (capability_text c)
  end.

Definition bare (b : byte) : bool := graphic b && negb (opens b) && negb (closes b).

(** Text [first_paren_balanced_token] takes whole: no white space outside its
    brackets, which balance. *)
Definition token (s : string) : Prop :=
  forall text idx r, balanced_token_go text 0 idx (s +:+ r) = balanced_token_go text 0 (idx + str_len s) r.

Lemma token_app a b : token a -> token b -> token (a +:+ b).
Proof. intros Ha Hb text idx r. rewrite sapp_assoc, Ha, Hb, len_app. f_equal. lia. Qed.

Lemma token_plain s : str_all bare s = true -> token s.
Proof.
  induction s as [|b s IH]; intros H text idx r; [by rewrite Nat.add_0_r|].
  cbn [str_all] in H. apply andb_true_iff in H as [[[Hg Ho]%andb_true_iff Hc]%andb_true_iff Hs]. apply negb_true_iff in Ho, Hc.
  cbn [String.append balanced_token_go]. rewrite ws_len_graphic, Ho, Hc by done. cbn [Nat.ltb Nat.leb andb].
  rewrite IH by done. f_equal. simpl. lia.
Qed.

Lemma token_ident s : ident s = true -> token s.
Proof. intros [H _]%Expr.ident_chars. apply token_plain. eapply str_all_impl; [|done]. intros b. by_bytes b. Qed.

(** In brackets, anything without brackets. *)
Lemma inside_brackets s : str_all bare s = true ->
  forall text idx r, balanced_token_go text 1 idx (s +:+ r) = balanced_token_go text 1 (idx + str_len s) r.
Proof.
  induction s as [|b s IH]; intros H text idx r; [by rewrite Nat.add_0_r|].
  cbn [str_all] in H. apply andb_true_iff in H as [[[Hg Ho]%andb_true_iff Hc]%andb_true_iff Hs]. apply negb_true_iff in Ho, Hc.
  cbn [String.append balanced_token_go]. rewrite ws_len_graphic, Ho, Hc by done. cbn [Nat.ltb Nat.leb andb].
  rewrite IH by done. f_equal. simpl. lia.
Qed.
Lemma token_call f s : ident f = true -> str_all bare s = true ->
  token (f +:+ "(" +:+ s +:+ ")").
Proof.
  intros Hf Hs. apply token_app; [by apply token_ident|]. intros text idx r.
  rewrite !sapp_assoc. change ("(" +:+ ?x) with (String "(" x). cbn [balanced_token_go opens]. cbn [Ascii.eqb orb].
  change (0 + 1)%Z with 1%Z. cbn. rewrite inside_brackets by done. cbn.
  rewrite !len_app. f_equal. cbn. lia.
Qed.

Lemma first_token s d : edges_ok s = true -> token s -> edges_ok d = true -> first_paren_balanced_token (s +:+ " " +:+ d) = s.
Proof.
  intros Hs Ht Hd. unfold first_paren_balanced_token. rewrite trim_edges by (by apply edges_ok_mid). rewrite Ht.
  change (" " +:+ d) with (String " " d). cbn [balanced_token_go]. cbn. rewrite take_app.
  destruct (proj1 (edges_ok_iff s) Hs) as [_ (r & b & -> & Hb)]. by apply trim_end_graphic.
Qed.
Lemma first_token_whole s : edges_ok s = true -> token s -> first_paren_balanced_token s = s.
Proof.
  intros Hs Ht. unfold first_paren_balanced_token. rewrite trim_edges by done.
  rewrite <-(sapp_nil_r s) at 2. by rewrite Ht.
Qed.

(** ** Tokens that are no list *)

(** The two ways of asking for the word [w] at the head of a word [s]. *)
Lemma strip_word w p s d : lacks " " s -> lacks " " w -> s <> w ->
  strip_prefix (w +:+ " " +:+ p) s = None /\ strip_prefix (w +:+ " " +:+ p) (s +:+ " " +:+ d) = None.
Proof.
  intros Hs Hw Hne. split; destruct (strip_prefix _ _) as [y|] eqn:E; try done; apply strip_prefix_Some in E.
  - rewrite E in Hs. rewrite !str_all_app in Hs. cbn in Hs. by rewrite !andb_false_r in Hs.
  - rewrite !sapp_assoc in E. pose proof (split_once_app " " s d Hs) as E1.
    pose proof (split_once_app " " w (p +:+ y) Hw) as E2.
    change (String " " d) with (" " +:+ d) in E1. change (String " " (p +:+ y)) with (" " +:+ p +:+ y) in E2. congruence.
Qed.

Lemma not_list s d : lacks " " s -> (s =? "list") || (s =? "List") || (s =? "of") = false ->
  (strip_any list_prefixes s = None /\ strip_any list_prefixes (s +:+ " " +:+ d) = None) /\
  strip_prefix "of " s = None /\ strip_prefix "of " (s +:+ " " +:+ d) = None.
Proof.
  intros Hs Hn. apply orb_false_iff in Hn as [[N1%String.eqb_neq N2%String.eqb_neq]%orb_false_iff N3%String.eqb_neq].
  split; [|by apply (strip_word "of" "")]. unfold list_prefixes. cbn [strip_any].
  destruct (strip_word "list" "of " s d) as [E1 F1]; [done..|]. destruct (strip_word "List" "of " s d) as [E2 F2]; [done..|].
  destruct (strip_word "list" "" s d) as [E3 F3]; [done..|]. destruct (strip_word "List" "" s d) as [E4 F4]; [done..|].
  cbn [String.append] in *. by rewrite E1, E2, E3, E4, F1, F2, F3, F4.
Qed.

Lemma foreign_suffix c a b s : lacks c s -> strip_suffix (a +:+ String c b) s = None.
Proof.
  intros H. apply strip_suffix_None. intros t ->. rewrite !str_all_app in H. cbn in H.
  by rewrite Ascii.eqb_refl, !andb_false_r in H.
Qed.
Lemma foreign_prefix c a b s : lacks c s -> strip_prefix (a +:+ String c b) s = None.
Proof.
  intros H. destruct (strip_prefix _ _) as [t|] eqn:E; [|done]. apply strip_prefix_Some in E as ->.
  rewrite !str_all_app in H. cbn in H. by rewrite Ascii.eqb_refl, !andb_false_r in H.
Qed.

Lemma ident_lacks c s : ident s = true -> ident_char c = false -> lacks c s.
Proof.
  intros [H _]%Expr.ident_chars Hc. eapply str_all_impl; [|done]. intros b Hb.
  destruct (Ascii.eqb_spec b c) as [->|]; [congruence|done].
Qed.

(** A token the list forms leave alone. *)
Record atom (s : string) (t : TypeRef) : Prop := {
  at_edges : edges_ok s = true; at_token : token s; at_space : lacks " " s; at_list : (s =? "list") || (s =? "List") || (s =? "of") = false;
  at_array : strip_suffix "[]" s = None; at_type : atom_type s = t
}.

Lemma strip_cap_ident s name : ident s = true -> strip_cap s name = None.
Proof.
  intros H. unfold strip_cap. cbn [strip_any].
  rewrite (foreign_prefix "(" ("@cap." +:+ name) "") by (by apply ident_lacks).
  by rewrite (foreign_prefix "(" name "") by (by apply ident_lacks).
Qed.

Lemma atom_ident s t : ident s = true -> (s =? "list") || (s =? "List") || (s =? "of") = false ->
  t = match first_some [semantic_of s; plain_of s] with Some b => Builtin b | None => UserDefined {| qn_feature := None; qn_name := s |} end ->
  atom s t.
Proof.
  intros Hs Hl ->. pose proof (Expr.ident_edges s Hs) as He. pose proof (token_ident s Hs) as Ht.
  constructor; try done; try (by apply ident_lacks).
  - by apply (foreign_suffix "[" "" "]"), ident_lacks.
  - unfold atom_type. cbn [strip_any_suffix]. rewrite (foreign_suffix "." "" "ID"), (foreign_suffix "." "" "Id") by (by apply ident_lacks).
    unfold parse_cap_file_type, parse_cap_pii_type, parse_cap_hashed_type, parse_cap_encrypted_type, parse_cap_e2ee_type,
      parse_cap_token_type, parse_semantic_money_type, arg.
    rewrite first_token_whole by done. rewrite !strip_cap_ident by done. cbn [mbind option_bind first_some foldr strip_any].
    rewrite (foreign_prefix "(" "@semantic.Money" ""), (foreign_prefix "(" "Money" "") by (by apply ident_lacks).
    cbn [mbind option_bind]. done.
Qed.

(** A capability with one argument, the name of a key. *)
Lemma args_key name : ident name = true -> parse_capability_args ("key:@key." +:+ name) = [("key", "@key." +:+ name)].
Proof.
  intros Hn. pose proof (Expr.ident_edges _ Hn) as He. unfold parse_capability_args.
  rewrite split_char_none by (by apply (ident_lacks ",") in Hn). cbn [List.map].
  assert (H : edges_ok ("key:@key." +:+ name) = true) by (by apply edges_ok_app).
  assert (H' : edges_ok ("@key." +:+ name) = true) by (by apply (edges_ok_app "@key.")).
  rewrite trim_edges by done. change ("key:@key." +:+ name) with ("key" +:+ String ":" ("@key." +:+ name)).
  cbn [List.filter nonempty]. cbn [String.append nonempty negb String.eqb]. cbn [omap list_omap].
  change (String "k" (String "e" (String "y" (String ":" ?x)))) with ("key" +:+ String ":" x).
  rewrite split_once_app by done. cbn [mbind option_bind]. cbn [String.append] in H'. rewrite (trim_edges _ H'). done.
Qed.

Lemma key_arg f name : ident name = true -> strip_any ["@cap." +:+ f +:+ "("; f +:+ "("] (f +:+ "(key:@key." +:+ name +:+ ")") = Some ("key:@key." +:+ name +:+ ")") ->
  arg "key" (f +:+ "(key:@key." +:+ name +:+ ")") f = Some ("@key." +:+ name).
Proof.
  intros Hn Hf. unfold arg, strip_cap. rewrite Hf. cbn [mbind option_bind].
  change ("key:@key." +:+ name +:+ ")") with (("key:@key." +:+ name) +:+ ")"). rewrite strip_suffix_app. cbn [mbind option_bind].
  rewrite args_key by done. done.
Qed.

Lemma lacks_key f name c : lacks c f -> ident name = true -> lacks c ("(key:@key." +:+ name +:+ ")") -> lacks c (f +:+ "(key:@key." +:+ name +:+ ")").
Proof. intros Hf Hn H. rewrite str_all_app, Hf. done. Qed.

Lemma atom_key f name c : ident name = true -> ident f = true -> (f = "Encrypted" /\ c = CEncrypted ("@key." +:+ name)) \/ (f = "E2ee" /\ c = CE2ee ("@key." +:+ name)) ->
  atom (f +:+ "(key:@key." +:+ name +:+ ")") (Capability c).
Proof.
  intros Hn Hf Hc. pose proof (Expr.ident_edges _ Hf) as Ef.
  assert (Hb : str_all bare ("key:@key." +:+ name) = true).
  { rewrite str_all_app. apply andb_true_iff. split; [done|]. apply Expr.ident_chars in Hn as [Hn _]. eapply str_all_impl; [|done]. intros b. by_bytes b. }
  assert (He : edges_ok (f +:+ "(key:@key." +:+ name +:+ ")") = true).
  { change ("(key:@key." +:+ name +:+ ")") with (("(key:@key." +:+ name) +:+ ")"). by apply edges_ok_mid. }
  assert (Ht : token (f +:+ "(key:@key." +:+ name +:+ ")")).
  { change ("(key:@key." +:+ name +:+ ")") with ("(" +:+ ("key:@key." +:+ name) +:+ ")"). by apply token_call. }
  constructor; try done.
  - destruct Hc as [[-> _]|[-> _]]; cbn; by rewrite str_all_app, (ident_lacks " " name Hn eq_refl).
  - by destruct Hc as [[-> _]|[-> _]].
  - change ("(key:@key." +:+ name +:+ ")") with (("(key:@key." +:+ name) +:+ ")"). rewrite <-sapp_assoc. by apply strip_suffix_other.
  - unfold atom_type. cbn [strip_any_suffix].
    assert (Hs : forall p, strip_suffix p ")" = None -> strip_suffix ")" p = None -> strip_suffix p (f +:+ "(key:@key." +:+ name +:+ ")") = None).
    { intros p H1 H2. change ("(key:@key." +:+ name +:+ ")") with (("(key:@key." +:+ name) +:+ ")"). rewrite <-sapp_assoc. by apply strip_suffix_other. }
    rewrite !Hs by done.
    unfold parse_cap_file_type, parse_cap_pii_type, parse_cap_hashed_type, parse_cap_encrypted_type, parse_cap_e2ee_type, parse_cap_token_type.
    rewrite first_token_whole by done.
    destruct Hc as [[-> ->]|[-> ->]].
    + rewrite (key_arg "Encrypted") by done. done.
    + rewrite (key_arg "E2ee") by done. done.
Qed.

Lemma atom_builtin b s : builtin_name b = Some s -> atom s (Builtin b).
Proof.
  intros H. destruct b as [ | | | | | | | | |c| | | | | | | | | | | | ]; try discriminate H.
  10: { cbn [builtin_name] in H. injection H as <-.
        constructor; [by destruct c| |by destruct c|by destruct c|by destruct c|by destruct c].
        destruct c; [by apply (token_call "Money" "currency:BRL")|by apply (token_call "Money" "currency:USD")|
          by apply (token_call "Money" "currency:EUR")|by apply (token_call "Money" "currency:GBP")|
          by apply (token_call "Money" "currency:JPY")|by apply (token_call "Money" "currency:CHF")]. }
  all: vm_compute in H; injection H as <-; apply atom_ident; vm_compute; done.
Qed.

Lemma atom_fixed f args c : capability_text c = f +:+ "(" +:+ args +:+ ")" -> ident f = true -> str_all bare args = true ->
  edges_ok (capability_text c) && str_all (fun b => negb (b =a? " ")) (capability_text c) &&
    negb ((capability_text c =? "list") || (capability_text c =? "List") || (capability_text c =? "of")) = true ->
  strip_suffix "[]" (capability_text c) = None -> atom_type (capability_text c) = Capability c ->
  atom (capability_text c) (Capability c).
Proof.
  intros E Hf Ha Hc Hs Ht. apply andb_true_iff in Hc as [[He Hsp]%andb_true_iff Hl%negb_true_iff].
  constructor; try done. rewrite E. by apply token_call.
Qed.

Lemma atom_capability c s : show_type (Capability c) = Some s -> atom s (Capability c).
Proof.
  intros H. destruct c as [| | |k|k| ].
  4-5: cbn [show_type] in H; destruct (strip_prefix "@key." k) as [name|] eqn:E; [|done]; destruct (ident name) eqn:Hn; [|done];
    apply strip_prefix_Some in E as ->; injection H as <-; unfold capability_text.
  4: by apply (atom_key "Encrypted" name); auto.
  4: by apply (atom_key "E2ee" name); auto.
  all: injection H as <-.
  - by apply (atom_fixed "File" "max_size:25mb,accept:text/csv|image/png" CFile).
  - by apply (atom_fixed "PII" "class:contact" CPII).
  - by apply (atom_fixed "Hashed" "algorithm:argon2id" CHashed).
  - by apply (atom_fixed "Token" "ttl:15m,single_use:true,store:hashed" CToken).
Qed.

Lemma atom_step s t d : atom s t -> edges_ok d = true ->
  type_ref_from_syntax s = t /\ type_ref_from_syntax (s +:+ " " +:+ d) = t.
Proof.
  intros [He Ht Hs Hl Ha Hty] Hd. destruct (not_list s d Hs Hl) as [[L1 L2] _]. rewrite !type_ref_eq. unfold type_step.
  rewrite !trim_edges, L1, L2, first_token_whole, first_token, Ha by (done || by apply edges_ok_mid). done.
Qed.

Lemma show_type_edges t s : show_type t = Some s -> edges_ok s = true.
Proof.
  revert s. induction t as [b|q|q|t IH|u|c]; intros s H; try discriminate H.
  - by apply atom_builtin in H as [].
  - cbn [show_type] in H. destruct (_ && _) eqn:E in H; [|done]. injection H as <-.
    repeat match goal with H : _ && _ = true |- _ => apply andb_true_iff in H as [? ?] end. by apply Expr.ident_edges.
  - cbn [show_type] in H. destruct (show_type t) as [s'|]; [|done]. injection H as <-. by apply (edges_ok_mid "list" " " s'), IH.
  - by apply atom_capability in H as [].
Qed.

Lemma show_user q s : show_type (UserDefined q) = Some s -> atom s (UserDefined q).
Proof.
  intros H. cbn [show_type] in H. destruct (_ && _) eqn:E in H; [|done]. injection H as <-.
  apply andb_true_iff in E as [[[Hf Hi]%andb_true_iff Hn]%andb_true_iff Hl%negb_true_iff].
  apply atom_ident; [done..|]. destruct q as [[?|] name]; [done|]. cbn [qn_name] in *.
  destruct (semantic_of name), (plain_of name); done.
Qed.

(** After [list], no spelling is taken for [of]. *)
Lemma shown_not_of t s d : show_type t = Some s -> strip_prefix "of " s = None /\ strip_prefix "of " (s +:+ " " +:+ d) = None.
Proof.
  intros H. assert (A : forall t, atom s t -> strip_prefix "of " s = None /\ strip_prefix "of " (s +:+ " " +:+ d) = None).
  { intros t' [_ _ Hs Hl _ _]. by apply (not_list s d). }
  destruct t as [b|q|q|t|u|c]; try discriminate H.
  - by eapply A, atom_builtin.
  - by eapply A, show_user.
  - cbn [show_type] in H. destruct (show_type t) as [s'|]; [|done]. by injection H as <-.
  - by eapply A, atom_capability.
Qed.

Lemma strip_list x : strip_prefix "of " x = None -> strip_any list_prefixes ("list " +:+ x) = Some x.
Proof.
  intros H. unfold list_prefixes. cbn [strip_any].
  change (strip_prefix "list of " ("list " +:+ x)) with (strip_prefix "of " x). rewrite H.
  by rewrite (strip_prefix_app "list " x : strip_prefix "list " ("list " +:+ x) = _).
Qed.

Lemma shown_type t s d : show_type t = Some s -> edges_ok d = true ->
  type_ref_from_syntax s = t /\ type_ref_from_syntax (s +:+ " " +:+ d) = t.
Proof.
  intros H Hd. revert s H. induction t as [b|q|q|t IH|u|c]; intros s H; try discriminate H.
  - by apply atom_step; [apply atom_builtin|].
  - by apply atom_step; [apply show_user|].
  - cbn [show_type] in H. destruct (show_type t) as [s'|] eqn:Es; [|done]. assert (s = "list " +:+ s') as -> by (by apply Some_inj in H). destruct (IH s' eq_refl) as [I1 I2].
    pose proof (show_type_edges t s' Es) as He. destruct (shown_not_of t s' d Es) as [O1 O2]. rewrite !type_ref_eq. unfold type_step.
    rewrite (sapp_assoc "list " s').
    assert (E2 : edges_ok (s' +:+ " " +:+ d) = true) by (by apply edges_ok_mid).
    rewrite (trim_edges ("list " +:+ s')), (trim_edges ("list " +:+ s' +:+ " " +:+ d)) by (by apply (edges_ok_mid "list" " ")).
    rewrite !strip_list, !trim_edges, I1, I2 by done. done.
  - by apply atom_step; [apply atom_capability|].
Qed.

(** C34: Every type an author can write is read back from its spelling, with or
    without decorators after it: lists nested to any depth, the closed scalars,
    currencies, capabilities with their key, and names of the project. *)
Theorem type_ref_roundtrip t s d : show_type t = Some s -> edges_ok d = true ->
  type_ref_from_text s = t /\ type_ref_from_text (s +:+ " " +:+ d) = t.
Proof.
  intros H Hd. unfold type_ref_from_text. pose proof (show_type_edges t s H). rewrite !trim_edges by (done || by apply edges_ok_mid).
  by apply shown_type.
Qed.

Lemma type_ref_roundtrip_witness :
  type_ref_from_text "list list Encrypted(key:@key.tenant)" = Many (Many (Capability (CEncrypted "@key.tenant"))) /\
  type_ref_from_text ("list list Encrypted(key:@key.tenant)" +:+ " " +:+ "@pii.contact") = Many (Many (Capability (CEncrypted "@key.tenant"))).
Proof. apply (type_ref_roundtrip (Many (Many (Capability (CEncrypted "@key.tenant"))))); reflexivity. Defined.
