(* ===== verification/QueryLowering.v ===== *)
(** Queries in the intermediate representation ([lazuli_ir/src/nodes/query.rs],
    [command_p2.rs], [resource/field.rs]) and their lowering from the syntax tree
    ([lazuli_analyzer/src/query.rs], [resource_validators.rs]).

    [None] is the panic of [find_top_level_operator] inside a character outside
    ASCII.  Public contracts, denial messages and earlier names are not kept. *)
From S2P Require Import Prelude Str Fmt Lex Helpers Ir Expr Catalog TypeToken PlanSyntax FieldConstraints.
From S2P Require Policy QuerySyntax PolicyCodegen.

(** * The representation *)

Record TypedSlot := {
  ts_name : string; ts_type : TypeRef; ts_required : bool; ts_constraints : FieldConstraints; ts_validate_skip : bool
}.

Inductive CacheTtlLiteral := Seconds (n : N) | Minutes (n : N) | Hours (n : N) | Days (n : N).
Inductive CacheTtl := TtlLiteral (l : CacheTtlLiteral) | TtlQuoted (s : string).
Record QueryCache := {
  qc_key : string; qc_ttl : CacheTtl; qc_tags : list string; qc_namespace : option string; qc_profile_ref : option string
}.
Record CacheProfile := {
  cp_name : string; cp_key : string; cp_ttl : CacheTtl; cp_namespace : option string; cp_tags : list string;
  cp_stale_while_revalidate : option CacheTtl; cp_coalesce : option bool; cp_sliding : option bool; cp_span : option Span
}.

Record Filter := { predicate : Predicate; when_ : option string }.
Record KeyClause := { k_path : Path; k_equals : Expr }.
Inductive OrderDir := Asc | Desc_.
Record OrderBy := { o_field : string; o_direction : OrderDir }.
Record OwnerScopeSql := {
  os_field_name : string; os_fk_target : string; os_through_column : string; os_where_predicate : string; os_cte_owner_check : option string
}.

Record ListQuery := {
  l_name : string; l_params : list TypedSlot; l_scope : list Predicate; l_scope_override : bool; l_filters : list Filter;
  l_order : list OrderBy; l_paginate : option N; l_modifier : option string; l_cache : option QueryCache; l_policy : PolicyRef;
  l_policy_expr : option ir.PolicyExpr; l_span : option Span; l_owner_scope : option OwnerScopeSql
}.
Record LookupQuery := {
  u_name : string; u_params : list TypedSlot; u_keys : list KeyClause; u_scope : list Predicate; u_scope_override : bool;
  u_filters : list Filter; u_policy : PolicyRef; u_policy_expr : option ir.PolicyExpr; u_span : option Span;
  u_owner_scope : option OwnerScopeSql
}.
Inductive SqlQueryKind := KSql | KView.
Record SqlQuery := {
  s_name : string; s_kind : SqlQueryKind; s_params : list TypedSlot; s_scope : list Predicate; s_scope_override : bool;
  s_returns : TypeRef; s_sql_path : string; s_sql_text : option string; s_cache : option QueryCache; s_policy : PolicyRef;
  s_policy_expr : option ir.PolicyExpr; s_span : option Span
}.
Inductive Query := QList (q : ListQuery) | QLookup (q : LookupQuery) | QSql (q : SqlQuery).
Definition name (q : Query) : string := match q with QList q => l_name q | QLookup q => u_name q | QSql q => s_name q end.

(** [AnalyzeError], the variants of the inline constraints and of the fields. *)
Inductive AnalyzeError :=
| UnknownSanitizeHtmlProfile (field profile : string) | ConstraintConflict (field combo : string)
| InlineValidatorRangeInvariant (field rule low high : string)
| InlineValidatorTypeMismatch (field field_type constraint applies_to : string)
| InlineValidatorPatternCompile (field pattern reason : string)
| DefaultViolatesConstraint (field value rule : string) | OwnerAxisOnNonFk (field type_text : string).

(** * Typed slots *)

Definition lower_sanitize_html_profile (field profile : string) : result AnalyzeError SanitizeHtmlProfile :=
  if profile =? "strict" then Ok Strict
  else if profile =? "basic" then Ok Basic
  else if profile =? "markdown_safe" then Ok MarkdownSafe
  else Err (UnknownSanitizeHtmlProfile field profile).

Definition lift_field_constraints (field : string) (decl : FieldConstraintsDecl) : result AnalyzeError FieldConstraints :=
  sanitize ← match sanitize_html decl with
             | Some profile => p ← lower_sanitize_html_profile field profile; Ok (Some p)
             | None => Ok None
             end;
  Ok {| ic_min := min decl; ic_max := max decl; ic_pattern := pattern decl; ic_between := between decl; ic_length := length decl;
        ic_in := in_ decl; ic_sanitize_html := sanitize; ic_utf8_safe := utf8_safe decl; ic_max_recursion := max_recursion decl;
        ic_max_size := max_size decl; ic_covers_pii := covers_pii decl |}.

(** [s.replace(needle, rep)], [skip] bytes of an occurrence to go. *)
Fixpoint replace_go (needle rep : string) (skip : nat) (s : string) : string :=
  match s with
  | "" => ""
  | String b r =>
    match skip with
    | S skip => replace_go needle rep skip r
    | O => if starts_with needle s then rep +:+ replace_go needle rep (str_len needle - 1) r else String b (replace_go needle rep 0 r)
    end
  end.

Definition strip_validate_skip (text : string) : string * bool :=
  if negb (contains "@validate.skip" text) then (text, false)
  else (join " " (split_whitespace (replace_go "@validate.skip" " " 0 text)), true).

Definition lower_command_input_to_typed (slot : CommandInputSlot) : result AnalyzeError TypedSlot :=
  let '(cleaned_type_text, skip) := strip_validate_skip (type_text slot) in
  constraints ← lift_field_constraints (sl_name slot) (sl_constraints slot);
  Ok {| ts_name := sl_name slot; ts_type := type_ref_from_text cleaned_type_text; ts_required := sl_required slot;
        ts_constraints := constraints; ts_validate_skip := skip |}.

(** * Filters *)

Definition path_of (text : string) : Path := {| segments := split_char "." text |}.
Definition filter_lhs_expr (text : string) : Expr := EPath (path_of text).
Definition filter_rhs_expr (text : string) : Expr :=
  let text := trim text in
  match literal_of text with
  | Some e => e
  | None => if contains "." text then EPath (path_of text) else EEnum {| type_name := None; variant := text |}
  end.

(** The loop over the comparison operators. *)
Fixpoint filter_ops (trimmed : string) (ops : list (string * CompareOp)) : option (option Filter) :=
  match ops with
  | [] => Some None
  | (token, op) :: ops =>
    found ← find_top_level_operator trimmed token;
    match found with
    | None => filter_ops trimmed ops
    | Some idx =>
      let lhs := trim (str_take idx trimmed) in
      let rhs := trim (str_drop (idx + str_len token) trimmed) in
      if (lhs =? "") || (rhs =? "") then Some None
      else Some (Some {| predicate := Comparison (filter_lhs_expr lhs) op (filter_rhs_expr rhs); when_ := None |})
    end
  end.
Definition parse_query_filter_line (text : string) : option (option Filter) :=
  let trimmed := trim text in
  if (trimmed =? "") || starts_with "#" trimmed then Some None else filter_ops trimmed predicate_ops.

Fixpoint lower_query_filter_lines (lines : list string) : option (list Filter) :=
  match lines with
  | [] => Some []
  | line :: lines =>
    f ← parse_query_filter_line line;
    fs ← lower_query_filter_lines lines;
    Some (match f with Some f => f :: fs | None => fs end)
  end.

(** * Caches *)

Fixpoint trim_quotes_start (s : string) : string :=
  match s with String b r => if b =a? DQ then trim_quotes_start r else s | "" => "" end.
Fixpoint trim_quotes_end (s : string) : string :=
  match s with
  | "" => ""
  | String b r => match trim_quotes_end r with "" => if b =a? DQ then "" else String b "" | r => String b r end
  end.
(** [value.trim_matches] of the double quote *)
Definition trim_quotes (s : string) : string := trim_quotes_end (trim_quotes_start s).

(** [bytes.iter().rposition(..)] *)
Fixpoint rposition (p : byte -> bool) (s : string) : option nat :=
  match s with
  | "" => None
  | String b r => match rposition p r with Some i => Some (S i) | None => if p b then Some 0 else None end
  end.

Definition parse_cache_ttl (value : string) : CacheTtl :=
  if starts_with (String DQ "") value then TtlQuoted (trim_quotes value) else
  match rposition is_ascii_alphabetic value with
  | None => TtlQuoted value
  | Some idx =>
    let unit_ := trim (str_drop idx value) in
    match parse_u32 (trim (str_take idx value)) with
    | None => TtlQuoted value
    | Some n =>
      if unit_ =? "s" then TtlLiteral (Seconds n)
      else if unit_ =? "m" then TtlLiteral (Minutes n)
      else if unit_ =? "h" then TtlLiteral (Hours n)
      else if unit_ =? "d" then TtlLiteral (Days n)
      else TtlQuoted value
    end
  end.

(** The variables of the loop over a [cache] body. *)
Record CacheAcc := { a_key : option string; a_ttl : option CacheTtl; a_tags : list string; a_namespace : option string }.
Definition cache_line (a : CacheAcc) (raw : string) : CacheAcc :=
  let trimmed := trim raw in
  match strip_prefix "key " trimmed with
  | Some rest => {| a_key := Some (trim rest); a_ttl := a_ttl a; a_tags := a_tags a; a_namespace := a_namespace a |}
  | None =>
  match strip_prefix "ttl " trimmed with
  | Some rest => {| a_key := a_key a; a_ttl := Some (parse_cache_ttl (trim rest)); a_tags := a_tags a; a_namespace := a_namespace a |}
  | None =>
  match strip_prefix "tags " trimmed with
  | Some rest => {| a_key := a_key a; a_ttl := a_ttl a;
                    a_tags := a_tags a ++ List.filter nonempty (List.map trim (split_char "," rest)); a_namespace := a_namespace a |}
  | None =>
  match strip_prefix "namespace " trimmed with
  | Some rest => {| a_key := a_key a; a_ttl := a_ttl a; a_tags := a_tags a; a_namespace := Some (trim rest) |}
  | None => a
  end end end end%list.
Definition lower_query_cache (lines : list string) : option QueryCache :=
  match lines with
  | [] => None
  | _ =>
    let a := fold_left cache_line lines {| a_key := None; a_ttl := None; a_tags := []; a_namespace := None |} in
    key ← a_key a; ttl ← a_ttl a;
    Some {| qc_key := key; qc_ttl := ttl; qc_tags := a_tags a; qc_namespace := a_namespace a; qc_profile_ref := None |}
  end.

(** [syntax::CacheProfileDecl] *)
Record CacheProfileDecl := {
  cd_name : string; cd_key : string; cd_ttl : string; cd_namespace : option string; cd_tags : list string;
  cd_stale_while_revalidate : option string; cd_coalesce : option bool; cd_sliding : option bool; cd_span : Span
}.

Definition lower_query_cache_with_profile (inline_lines : list string) (profile_ref : option string) (caches : list CacheProfileDecl)
    : option QueryCache :=
  match lower_query_cache inline_lines with
  | Some inline => Some inline
  | None =>
    nm ← profile_ref;
    match List.find (fun c => cd_name c =? nm) caches with
    | Some profile => Some {| qc_key := cd_key profile; qc_ttl := parse_cache_ttl (cd_ttl profile); qc_tags := cd_tags profile;
                              qc_namespace := cd_namespace profile; qc_profile_ref := Some nm |}
    | None => Some {| qc_key := ""; qc_ttl := TtlQuoted ""; qc_tags := []; qc_namespace := None; qc_profile_ref := Some nm |}
    end
  end.

Definition lower_cache_profile_decl (decl : CacheProfileDecl) : CacheProfile := {|
  cp_name := cd_name decl; cp_key := cd_key decl; cp_ttl := parse_cache_ttl (cd_ttl decl); cp_namespace := cd_namespace decl;
  cp_tags := cd_tags decl; cp_stale_while_revalidate := parse_cache_ttl <$> cd_stale_while_revalidate decl;
  cp_coalesce := cd_coalesce decl; cp_sliding := cd_sliding decl; cp_span := Some (cd_span decl) |}.

(** * Queries *)

Fixpoint trim_end_matches (fuel : nat) (p s : string) : string :=
  match fuel with
  | O => s
  | S fuel => match strip_suffix p s with Some s => trim_end_matches fuel p s | None => s end
  end.

Definition lower_sql_file_ref (feature_name source : string) : string :=
  let trimmed := trim source in
  match strip_prefix "@file." trimmed with
  | None => trimmed
  | Some rest =>
    if ends_with ".sql" rest && negb (contains "/" rest) && negb (contains (String BSL "") rest) &&
       str_all (fun c => is_ascii_alphanumeric c || (c =a? "_")) (trim_end_matches (str_len rest) ".sql" rest)
    then "app/features/" +:+ feature_name +:+ "/queries/" +:+ rest
    else trimmed
  end.

Definition policy_ref (policy : option string) : PolicyRef := match policy with Some p => lower_policy_atom p | None => RNone end.
Definition key_of (k : QuerySyntax.LookupKey) : KeyClause :=
  {| k_path := {| segments := [QuerySyntax.lk_name k] |}; k_equals := EPath {| segments := [QuerySyntax.lk_name k] |} |}.

Definition lower_query_decl (feature_name : string) (q : QuerySyntax.QueryDecl) (caches : list CacheProfileDecl)
    : option (result AnalyzeError Query) :=
  match q with
  | QuerySyntax.DList q =>
    match mapM lower_command_input_to_typed (QuerySyntax.lq_params q) with
    | Err e => Some (Err e)
    | Ok params =>
      filters ← lower_query_filter_lines (QuerySyntax.lq_filters q);
      Some (Ok (QList {|
        l_name := QuerySyntax.lq_name q; l_params := params; l_scope := []; l_scope_override := QuerySyntax.lq_scope_override q;
        l_filters := filters; l_order := []; l_paginate := QuerySyntax.lq_paginate q; l_modifier := QuerySyntax.lq_modifier q;
        l_cache := lower_query_cache_with_profile (QuerySyntax.lq_cache q) (QuerySyntax.lq_cache_profile_ref q) caches;
        l_policy := policy_ref (QuerySyntax.lq_policy q);
        l_policy_expr := PolicyCodegen.lower_policy_expr <$> QuerySyntax.lq_policy_expr q; l_span := Some (QuerySyntax.lq_span q);
        l_owner_scope := None |}))
    end
  | QuerySyntax.DLookup q =>
    filters ← lower_query_filter_lines (QuerySyntax.lu_filters q);
    Some (Ok (QLookup {|
      u_name := QuerySyntax.lu_name q; u_params := []; u_keys := List.map key_of (QuerySyntax.lu_keys q); u_scope := [];
      u_scope_override := false; u_filters := filters; u_policy := policy_ref (QuerySyntax.lu_policy q);
      u_policy_expr := PolicyCodegen.lower_policy_expr <$> QuerySyntax.lu_policy_expr q; u_span := Some (QuerySyntax.lu_span q);
      u_owner_scope := None |}))
  | QuerySyntax.DSql q =>
    match mapM lower_command_input_to_typed (QuerySyntax.sq_params q) with
    | Err e => Some (Err e)
    | Ok params =>
      Some (Ok (QSql {|
        s_name := QuerySyntax.sq_name q; s_kind := match QuerySyntax.sq_kind q with QuerySyntax.Sql => KSql | QuerySyntax.View => KView end;
        s_params := params; s_scope := []; s_scope_override := false; s_returns := type_ref_from_text (QuerySyntax.sq_returns q);
        s_sql_path := lower_sql_file_ref feature_name (QuerySyntax.sq_path q); s_sql_text := None; s_cache := None;
        s_policy := policy_ref (QuerySyntax.sq_policy q);
        s_policy_expr := PolicyCodegen.lower_policy_expr <$> QuerySyntax.sq_policy_expr q; s_span := Some (QuerySyntax.sq_span q) |}))
    end
  end.

(** * Filter lines *)

(** A filter line [x OP t]: the two texts and the operator between them. *)
Lemma filter_line_text x op t : edges_ok x = true -> edges_ok t = true -> str_all op_free x = true -> starts_with "#" x = false ->
  (forall tok i, is_op tok -> operator_go tok false i t = Some None) ->
  parse_query_filter_line (x +:+ " " +:+ op_token op +:+ " " +:+ t) =
  Some (Some {| predicate := Comparison (filter_lhs_expr x) op (filter_rhs_expr t); when_ := None |}).
Proof.
  intros Ex Et Hx Hh Ht.
  assert (El : edges_ok (x +:+ " " +:+ op_token op +:+ " " +:+ t) = true).
  { apply (edges_ok_mid x (" " +:+ op_token op +:+ " ") t) in Ex; [|done]. by rewrite !sapp_assoc in Ex. }
  assert (Hsplit : forall tok, tok = op_token op ->
    trim (str_take (str_len x + 1) (x +:+ " " +:+ op_token op +:+ " " +:+ t)) = x /\
    trim (str_drop (str_len x + 1 + str_len tok) (x +:+ " " +:+ op_token op +:+ " " +:+ t)) = t).
  { intros tok ->. replace (str_len x + 1) with (str_len (x +:+ " ")) by (by rewrite len_app).
    rewrite <- (sapp_assoc x " "), take_app, <- drop_drop, !drop_app. split; [by apply trim_edges_space|by apply trim_space_edges]. }
  assert (Hne : (x =? "") || (t =? "") = false) by (apply orb_false_iff; split; [by destruct x|by destruct t]).
  unfold parse_query_filter_line. rewrite trim_edges by done.
  replace ((x +:+ " " +:+ op_token op +:+ " " +:+ t =? "") || starts_with "#" (x +:+ " " +:+ op_token op +:+ " " +:+ t)) with false
    by (destruct x; [done|]; symmetry; exact Hh).
  destruct op; unfold predicate_ops; cbn [filter_ops];
    repeat (rewrite find_operator_text by (done || (unfold is_op; simpl; tauto) || (intros; apply Ht; unfold is_op; simpl; tauto));
            cbn [mbind option_bind];
            match goal with |- context [starts_with ?t ?u] =>
              let b := eval vm_compute in (starts_with t u) in change (starts_with t u) with b end; cbv iota);
    destruct (Hsplit _ eq_refl) as [Hl Hr]; cbn [op_token] in Hl, Hr |- *; rewrite Hl, Hr, Hne; done.
Qed.

(** The right-hand sides an author can write: literals, paths of several
    segments, and the variants of an enum. *)
Definition rhs_text (e : Expr) : option string :=
  match e with
  | EPath p => if spellable e && match segments p with _ :: _ :: _ => true | _ => false end then Some (show_expr e) else None
  | EEnum {| type_name := None; variant := v |} => if ident v && negb (reserved v) then Some v else None
  | EEnum _ | EFnCall _ _ => None
  | e => if literal e then Some (show_expr e) else None
  end.

Lemma op_free_path x : str_all path_char x = true -> str_all op_free x = true.
Proof. apply str_all_impl. intros b. by_bytes b. Qed.
Lemma op_free_none tok i t : is_op tok -> str_all op_free t = true -> operator_go tok false i t = Some None.
Proof. intros Ht H. rewrite <-(sapp_nil_r t), operator_go_skip by done. done. Qed.

Lemma ident_path_chars v : ident v = true -> str_all path_char v = true.
Proof. intros [H _]%ident_chars. eapply str_all_impl; [|done]. intros b. by_bytes b. Qed.

Lemma literal_of_ident v : ident v = true -> reserved v = false -> literal_of v = None.
Proof.
  intros Hv Hr. destruct v as [|a v]; [done|]. cbn [ident] in Hv. apply andb_true_iff in Hv as [Ha _].
  apply literal_of_word; [apply unquote_head|apply parse_i64_head|done]; revert Ha; by_bytes a.
Qed.

Lemma literal_facts e : literal e = true -> edges_ok (show_expr e) = true /\ filter_rhs_expr (show_expr e) = e /\
  forall tok i, is_op tok -> operator_go tok false i (show_expr e) = Some None.
Proof.
  intros H. pose proof (literal_edges _ H) as He. split; [done|]. split; [|intros tok i Ht; by apply operator_go_literal].
  unfold filter_rhs_expr. by rewrite trim_edges, literal_of_show.
Qed.

Lemma rhs_facts e t : rhs_text e = Some t -> edges_ok t = true /\ filter_rhs_expr t = e /\
  forall tok i, is_op tok -> operator_go tok false i t = Some None.
Proof.
  intros H. destruct e as [p|s|n|b|[[q|] v]| |f args]; cbn [rhs_text] in H; try discriminate H.
  - destruct (spellable (EPath p) && _) eqn:E; [|done]. injection H as <-. apply andb_true_iff in E as [Hs Hp].
    pose proof (show_edges _ Hs) as He. split; [done|].
    assert (Hc : expr_from_text (show_expr (EPath p)) = EPath p) by (by apply expr_from_path).
    pose proof Hs as Hs'. cbn [spellable show_expr] in *. bool_prop. apply path_text in H1 as [Hi Hch]. split.
    + unfold filter_rhs_expr, expr_from_text in *. rewrite trim_edges in * by done.
      destruct (literal_of (join "." (segments p))); [done|].
      destruct p as [[|x [|y l]]]; try done. cbn [segments] in *. rewrite join_cons by done.
      rewrite (proj2 (contains_iff _ _)); [by rewrite join_cons in Hc by done|]. by exists x, (join "." (y :: l)).
    + intros tok i Ht. apply op_free_none; [done|]. by apply op_free_path.
  - destruct (literal (EString s)) eqn:E; [|done]. injection H as <-. by apply (literal_facts (EString s)).
  - destruct (literal (EInteger n)) eqn:E; [|done]. injection H as <-. by apply (literal_facts (EInteger n)).
  - destruct (literal (EBoolean b)) eqn:E; [|done]. injection H as <-. by apply (literal_facts (EBoolean b)).
  - destruct (ident v && negb (reserved v)) eqn:E; [|done]. injection H as <-. apply andb_true_iff in E as [Hv Hr%negb_true_iff].
    pose proof (ident_edges _ Hv) as He. split; [done|]. split.
    + unfold filter_rhs_expr. rewrite trim_edges, literal_of_ident by done. by rewrite PolicyCodegen.contains_byte_false by (by apply ident_lacks_dot).
    + intros tok i Ht. apply op_free_none; [done|]. by apply op_free_path, ident_path_chars.
  - injection H as <-. by apply (literal_facts ENil).
Qed.

(** The left-hand side of a filter line: a column, or a path to one. *)
Definition lhs_text (p : Path) : option string :=
  if forallb ident (segments p) && nonempty (join "." (segments p)) then Some (join "." (segments p)) else None.

Lemma filter_line_spec p op e x t : lhs_text p = Some x -> rhs_text e = Some t ->
  parse_query_filter_line (x +:+ " " +:+ op_token op +:+ " " +:+ t) =
  Some (Some {| predicate := Comparison (EPath p) op e; when_ := None |}).
Proof.
  intros Hx Ht. unfold lhs_text in Hx. destruct (_ && _) eqn:E in Hx; [|done]. injection Hx as <-.
  apply andb_true_iff in E as [Hi Hne]. destruct (rhs_facts e t Ht) as (Et & Er & Ho). apply path_text in Hi as [Hi Hc].
  destruct p as [segs]. cbn [segments] in *.
  assert (Ex : edges_ok (join "." segs) = true).
  { apply join_edges; [by intros ->|]. eapply List.Forall_impl; [|exact Hi]. apply ident_edges. }
  rewrite filter_line_text; try done.
  - rewrite Er. unfold filter_lhs_expr, path_of. do 4 f_equal.
    destruct segs as [|s segs]; [done|]. rewrite split_join; [done|]. eapply List.Forall_impl; [|exact Hi]. apply ident_lacks_dot.
  - by apply op_free_path.
  - destruct segs as [|[|c s] segs]; [done|by apply List.Forall_inv in Hi|]. apply List.Forall_inv in Hi. cbn [ident] in Hi.
    apply andb_true_iff in Hi as [Hc' _]. destruct segs; cbn; rewrite andb_true_r; revert Hc'; by_bytes c.
Qed.

(** A filter line is the comparison it spells, for each operator and each kind of
    right-hand side, quoted operators included. *)
Theorem filter_line_roundtrip p op e x t : lhs_text p = Some x -> rhs_text e = Some t ->
  parse_query_filter_line (x +:+ " " +:+ op_token op +:+ " " +:+ t) =
  Some (Some {| predicate := Comparison (EPath p) op e; when_ := None |}).
Proof. apply filter_line_spec. Qed.

Lemma filter_line_roundtrip_witness :
  parse_query_filter_line ("note" +:+ " " +:+ op_token Ne +:+ " " +:+ quoted "a <= b") = Some (Some {| predicate := Comparison (EPath {| segments := ["note"] |}) Ne (EString "a <= b"); when_ := None |}).
Proof. apply (filter_line_roundtrip {| segments := ["note"] |} Ne (EString "a <= b")); reflexivity. Defined.

(** * Totality and errors *)

Lemma operator_go_ascii op q i s : is_ascii s = true -> exists r, operator_go op q i s = Some r.
Proof.
  revert q i. induction s as [|b s IH]; intros q i H; [by eexists|]. unfold is_ascii in *. cbn [str_all] in H.
  apply andb_true_iff in H as [Hb Hs]. cbn [operator_go]. destruct (b =a? DQ); [by apply IH|]. destruct q; [by apply IH|].
  assert (Hc : char_start (String b s) = true) by (cbn; revert Hb; by_bytes b). rewrite Hc. cbn [negb].
  destruct (starts_with op (String b s)); [by eexists|by apply IH].
Qed.

Lemma filter_ops_ascii ops s : is_ascii s = true -> exists f, filter_ops s ops = Some f.
Proof.
  intros Hs. induction ops as [|[tok op] ops IH]; [by eexists|]. cbn [filter_ops].
  destruct (operator_go_ascii tok false 0 s Hs) as [[i|] E]; unfold find_top_level_operator; rewrite E; cbn [mbind option_bind]; [|done].
  case_match; by eexists.
Qed.

Lemma filter_lines_ascii lines : Forall (fun l => is_ascii (trim l) = true) lines -> exists fs, lower_query_filter_lines lines = Some fs.
Proof.
  induction 1 as [|l lines Hl _ [fs IH]]; [by eexists|]. cbn [lower_query_filter_lines].
  assert (exists f, parse_query_filter_line l = Some f) as [f ->].
  { unfold parse_query_filter_line. case_match; [by eexists|by apply filter_ops_ascii]. }
  cbn [mbind option_bind]. rewrite IH. by eexists.
Qed.

Definition known_profile (profile : string) : bool := (profile =? "strict") || (profile =? "basic") || (profile =? "markdown_safe").
Definition slot_ok (slot : CommandInputSlot) : bool :=
  match sanitize_html (sl_constraints slot) with Some p => known_profile p | None => true end.

Lemma lower_slot_error slot :
  match lower_command_input_to_typed slot with
  | Ok t => slot_ok slot = true /\ ts_name t = sl_name slot /\ ts_required t = sl_required slot
  | Err e => slot_ok slot = false /\
      exists p, sanitize_html (sl_constraints slot) = Some p /\ e = UnknownSanitizeHtmlProfile (sl_name slot) p
  end.
Proof.
  unfold lower_command_input_to_typed, lift_field_constraints, slot_ok, known_profile, lower_sanitize_html_profile.
  destruct (strip_validate_skip (type_text slot)) as [text skip].
  destruct (sanitize_html (sl_constraints slot)) as [p|] eqn:E; [|done].
  destruct (p =? "strict") eqn:E1; [done|]. destruct (p =? "basic") eqn:E2; [done|].
  destruct (p =? "markdown_safe") eqn:E3; [done|]. split; [done|]. by exists p.
Qed.

Definition decl_params (q : QuerySyntax.QueryDecl) : list CommandInputSlot :=
  match q with QuerySyntax.DList q => QuerySyntax.lq_params q | QuerySyntax.DLookup _ => [] | QuerySyntax.DSql q => QuerySyntax.sq_params q end.
Definition decl_filters (q : QuerySyntax.QueryDecl) : list string :=
  match q with QuerySyntax.DList q => QuerySyntax.lq_filters q | QuerySyntax.DLookup q => QuerySyntax.lu_filters q | QuerySyntax.DSql _ => [] end.
Definition decl_name (q : QuerySyntax.QueryDecl) : string :=
  match q with QuerySyntax.DList q => QuerySyntax.lq_name q | QuerySyntax.DLookup q => QuerySyntax.lu_name q | QuerySyntax.DSql q => QuerySyntax.sq_name q end.

Lemma lower_slots_error slots :
  match mapM lower_command_input_to_typed slots with
  | Ok ts => forallb slot_ok slots = true /\ List.map ts_name ts = List.map sl_name slots
  | Err e => exists slot p, List.In slot slots /\ sanitize_html (sl_constraints slot) = Some p /\ known_profile p = false /\
      e = UnknownSanitizeHtmlProfile (sl_name slot) p
  end.
Proof.
  induction slots as [|s slots IH]; [done|].
  change (mapM lower_command_input_to_typed (s :: slots)) with
    (y ← lower_command_input_to_typed s; ys ← mapM lower_command_input_to_typed slots; Ok (y :: ys)).
  pose proof (lower_slot_error s) as Hs. destruct (lower_command_input_to_typed s) as [t|e]; cbn [mbind result_bind].
  - destruct Hs as (Hs & Hn & _). destruct (mapM lower_command_input_to_typed slots) as [ts|e]; cbn [mbind result_bind].
    + cbn [forallb List.map]. destruct IH as [-> ->]. by rewrite Hs, Hn.
    + destruct IH as (s' & p & Hin & H). exists s', p. by split; [right|].
  - destruct Hs as (Hs & p & Hp & ->). exists s, p. unfold slot_ok in Hs. rewrite Hp in Hs. by split; [left|].
Qed.

(** Lowering a query whose filter lines are ASCII never panics: it keeps the
    query under its name, or reports the first slot whose sanitizer profile is
    outside the catalog, and the latter exactly when there is one. *)
Theorem lower_query_decl_exact feature q caches : Forall (fun l => is_ascii (trim l) = true) (decl_filters q) ->
  exists r, lower_query_decl feature q caches = Some r /\
  match r with
  | Ok query => forallb slot_ok (decl_params q) = true /\ name query = decl_name q
  | Err e => exists slot p, List.In slot (decl_params q) /\ sanitize_html (sl_constraints slot) = Some p /\ known_profile p = false /\
      e = UnknownSanitizeHtmlProfile (sl_name slot) p
  end.
Proof.
  intros Hf. destruct q as [q|q|q]; cbn [lower_query_decl decl_params decl_filters decl_name] in *.
  - pose proof (lower_slots_error (QuerySyntax.lq_params q)) as Hs. destruct (filter_lines_ascii _ Hf) as [fs ->].
    destruct (mapM _ _) as [ts|e]; (eexists; split; [done|]); [|done]. by destruct Hs.
  - destruct (filter_lines_ascii _ Hf) as [fs ->]. eexists. by split.
  - pose proof (lower_slots_error (QuerySyntax.sq_params q)) as Hs.
    destruct (mapM _ _) as [ts|e]; (eexists; split; [done|]); [|done]. by destruct Hs.
Qed.

Definition listing : QuerySyntax.QueryDecl := QuerySyntax.DList {|
  QuerySyntax.lq_name := "notes"; QuerySyntax.lq_policy := None; QuerySyntax.lq_policy_expr := None; QuerySyntax.lq_modifier := None;
  QuerySyntax.lq_params := []; QuerySyntax.lq_scope_override := false; QuerySyntax.lq_scope_reason := None;
  QuerySyntax.lq_scope_assignments := []; QuerySyntax.lq_scope_lines := ["owner == ctx.actor.user_id"];
  QuerySyntax.lq_filters := ["status == open"; "# a note"; "author == params.author"]; QuerySyntax.lq_search := None;
  QuerySyntax.lq_cache := []; QuerySyntax.lq_cache_profile_ref := None; QuerySyntax.lq_paginate := Some 20%N;
  QuerySyntax.lq_order := ["created_at desc"]; QuerySyntax.lq_span := span_new 0 0 |}.
Lemma lower_query_decl_exact_witness : exists r, lower_query_decl "notes" listing [] = Some r /\
  match r with
  | Ok query => forallb slot_ok (decl_params listing) = true /\ name query = "notes"
  | Err e => exists slot p, List.In slot (decl_params listing) /\ sanitize_html (sl_constraints slot) = Some p /\ known_profile p = false /\
      e = UnknownSanitizeHtmlProfile (sl_name slot) p
  end.
Proof. apply (lower_query_decl_exact "notes" listing []). repeat constructor. Defined.

(** * What lowering drops *)

(** The [order], [scope] and [search] of a list are not in its representation. *)
Lemma list_clauses_dropped feature q q' caches query : lower_query_decl feature (QuerySyntax.DList q) caches = Some (Ok query) ->
  q' = {| QuerySyntax.lq_name := QuerySyntax.lq_name q; QuerySyntax.lq_policy := QuerySyntax.lq_policy q;
    QuerySyntax.lq_policy_expr := QuerySyntax.lq_policy_expr q; QuerySyntax.lq_modifier := QuerySyntax.lq_modifier q;
    QuerySyntax.lq_params := QuerySyntax.lq_params q; QuerySyntax.lq_scope_override := QuerySyntax.lq_scope_override q;
    QuerySyntax.lq_scope_reason := None; QuerySyntax.lq_scope_assignments := []; QuerySyntax.lq_scope_lines := [];
    QuerySyntax.lq_filters := QuerySyntax.lq_filters q; QuerySyntax.lq_search := None; QuerySyntax.lq_cache := QuerySyntax.lq_cache q;
    QuerySyntax.lq_cache_profile_ref := QuerySyntax.lq_cache_profile_ref q; QuerySyntax.lq_paginate := QuerySyntax.lq_paginate q;
    QuerySyntax.lq_order := []; QuerySyntax.lq_span := QuerySyntax.lq_span q |} ->
  lower_query_decl feature (QuerySyntax.DList q') caches = Some (Ok query).
Proof. by intros H ->. Qed.

(** * Durations *)

Definition unit_text (l : CacheTtlLiteral) : string := match l with Seconds _ => "s" | Minutes _ => "m" | Hours _ => "h" | Days _ => "d" end.
Definition amount (l : CacheTtlLiteral) : N := match l with Seconds n | Minutes n | Hours n | Days n => n end.
Definition ttl_text (t : CacheTtl) : option string :=
  match t with
  | TtlLiteral l => if (amount l <=? u32_max)%N then Some (show_N (amount l) +:+ unit_text l) else None
  | TtlQuoted s => if str_all (fun b => negb (b =a? DQ)) s then Some (quoted s) else None
  end.

Lemma trim_quotes_quoted s : lacks DQ s -> trim_quotes (quoted s) = s.
Proof.
  intros H. unfold trim_quotes, quoted. cbn [trim_quotes_start]. rewrite Ascii.eqb_refl.
  assert (E : forall s, lacks DQ s -> trim_quotes_end (s +:+ String DQ "") = s).
  { clear. induction s as [|b s IH]; intros H; [done|]. cbn [str_all] in H. apply andb_true_iff in H as [Hb Hs].
    cbn [String.append trim_quotes_end]. rewrite IH by done.
    apply negb_true_iff in Hb. rewrite Hb. by destruct s. }
  destruct s as [|b s]; [done|]. cbn [String.append trim_quotes_start]. pose proof (E (String b s) H) as E'.
  cbn [str_all] in H. apply andb_true_iff in H as [Hb%negb_true_iff _]. by rewrite Hb.
Qed.

Lemma rposition_last p s b : p b = true -> rposition p (s +:+ String b "") = Some (str_len s).
Proof. intros H. induction s as [|a s IH]; cbn; [by rewrite H|by rewrite IH]. Qed.

(** A cache lifetime is read back from its spelling: an amount of 32 bits with
    its unit, or quoted prose. *)
Theorem cache_ttl_roundtrip t x : ttl_text t = Some x -> parse_cache_ttl x = t.
Proof.
  intros H. destruct t as [l|s]; cbn [ttl_text] in H.
  - destruct (amount l <=? u32_max)%N eqn:E; [|done]. injection H as <-. unfold parse_cache_ttl.
    assert (Hu : exists u, unit_text l = String u "" /\ is_ascii_alphabetic u = true /\ graphic u = true) by (destruct l; eexists; by split).
    destruct Hu as (u & Eu & Ha & Hg). rewrite Eu, rposition_last by done.
    rewrite take_app, drop_app, (trim_edges (show_N _)) by (by apply word_edges, show_N_word).
    replace (starts_with (String DQ "") (show_N (amount l) +:+ String u "")) with false.
    2: { destruct (show_N_cons (amount l)) as (b & r & -> & Hb). cbn. revert Hb. by_bytes b. }
    unfold parse_u32. rewrite parse_show_u64 by (apply N.leb_le in E; apply N.leb_le; unfold u64_max, u32_max in *; lia).
    cbn [mbind option_bind]. rewrite E. rewrite <-Eu. by destruct l.
  - destruct (str_all _ s) eqn:E; [|done]. injection H as <-. unfold parse_cache_ttl.
    replace (starts_with (String DQ "") (quoted s)) with true by done. by rewrite trim_quotes_quoted.
Qed.

Lemma cache_ttl_roundtrip_witness : parse_cache_ttl "15m" = TtlLiteral (Minutes 15).
Proof. apply (cache_ttl_roundtrip (TtlLiteral (Minutes 15)) "15m"). reflexivity. Defined.
