(* ===== verification/QueryCodegen.v ===== *)
(** The Go values the generator writes for queries
    ([lazuli_codegen_go/src/emitter/query/]: [filters.rs], [util.rs], [args.rs],
    [lookup_args.rs], [lookup_wrapper.rs], and the names of [list.rs] and
    [lookup.rs]), and what Go makes of the filters, orders and keys it reads back. *)
From S2P Require Import Prelude Str BTree Fmt Ir Catalog SqlColumn Casing SqlRows RuntimeSql.
From S2P Require Expr PolicyCodegen ReferentialGuard QueryLowering PlanSyntax FieldConstraints.
Import ReferentialGuard (tabs, emit_pattern_header).
Import PolicyCodegen (escape_string).
Import QueryLowering (KeyClause, k_path, k_equals, OrderBy, o_field, o_direction, OrderDir, Asc, Desc_,
  OwnerScopeSql, os_field_name, os_fk_target, os_through_column, TypedSlot, ts_name, ts_type, ts_required, ts_constraints, ts_validate_skip,
  LookupQuery, u_params, u_keys, u_name, QueryCache, qc_key, qc_ttl, qc_tags, qc_namespace, CacheTtl, TtlLiteral, TtlQuoted,
  CacheTtlLiteral, Seconds, Minutes, Hours, Days).

(** * Names ([util.rs]) *)

(** [word] ends a token of [split_ident_tokens]. *)
Definition push_token (current : string) (words : list string) : list string :=
  match current with "" => words | _ => lower_ascii current :: words end.
Fixpoint ident_tokens_go (prev_lower_or_digit : bool) (current s : string) : list string :=
  match s with
  | "" => push_token current []
  | String ch s =>
    if (ch =a? "_") || (ch =a? "-") || (ch =a? " ") then push_token current (ident_tokens_go false "" s)
    else
      let low := is_ascii_lowercase ch || is_ascii_digit ch in
      if is_ascii_uppercase ch && prev_lower_or_digit && nonempty current
      then push_token current (ident_tokens_go low (String ch "") s)
      else ident_tokens_go low (current +:+ String ch "") s
  end.
Definition split_ident_tokens (s : string) : list string := ident_tokens_go false "" s.

Fixpoint pascal_to_snake_go (first : bool) (s : string) : string :=
  match s with
  | "" => ""
  | String ch s =>
    if is_ascii_uppercase ch then
      let rest := String (to_ascii_lowercase ch) (pascal_to_snake_go false s) in if first then rest else String "_" rest
    else String ch (pascal_to_snake_go false s)
  end.
Definition pascal_to_snake (s : string) : string := pascal_to_snake_go true s.

Definition plural (word : string) : string :=
  match strip_suffix "y" word with
  | Some stem => stem +:+ "ies"
  | None => if ends_with "s" word then word +:+ "es" else word +:+ "s"
  end.
Definition plural_pascal (s : string) : string := plural s.

(** The body of a Go string literal on one line. *)
Fixpoint escape_go_string_multiline (raw : string) : string :=
  match raw with
  | "" => ""
  | String ch raw =>
    let rest := escape_go_string_multiline raw in
    if ch =a? BSL then String BSL (String BSL rest)
    else if ch =a? DQ then String BSL (String DQ rest)
    else if ch =a? LF then String BSL (String "n" rest)
    else if ch =a? CR then String BSL (String "r" rest)
    else if ch =a? TAB then String BSL (String "t" rest)
    else String ch rest
  end.

Definition query_kind_rank (q : QueryLowering.Query) : nat :=
  match q with
  | QueryLowering.QList _ => 0
  | QueryLowering.QLookup _ => 1
  | QueryLowering.QSql q => match QueryLowering.s_kind q with QueryLowering.KView => 2 | QueryLowering.KSql => 3 end
  end.

Definition is_token (query_tokens : list string) (token : string) : bool :=
  existsb (fun q => (q =? token) || (q =? plural token)) query_tokens.
Definition resource_score (query_tokens : list string) (r : Resource) : nat :=
  let tokens := split_ident_tokens (r_name r) in
  let last := List.last tokens "" in
  (10 * List.length (List.filter (is_token query_tokens) tokens) +
   (if nonempty last && is_token query_tokens last then 50 else 0))%nat.

(** [max_by]: the later of two that compare equal. *)
Definition better (a b : nat * Resource) : nat * Resource :=
  match Nat.compare (fst a) (fst b) with
  | Lt => b
  | Gt => a
  | Eq => match str_cmp (r_name (snd b)) (r_name (snd a)) with Gt => a | _ => b end
  end.
Definition resource_for_query (feature : Feature) (query_name : string) : option Resource :=
  match sort_by r_name (resources feature) with
  | [] => None
  | [r] => Some r
  | resources =>
    let query_tokens := split_ident_tokens query_name in
    match List.map (fun r => (resource_score query_tokens r, r)) resources with
    | [] => None
    | x :: l => Some (snd (fold_left better l x))
    end
  end.

(** * Sources ([filters.rs]) *)

Section Emit.
Variable to_uppercase : string -> string.
Abbreviation pascal := (pascal_case to_uppercase).

Definition input_source_path (segs : list string) : string := join "." (List.map pascal segs).

Definition format_path_source (segs : list string) : string :=
  match segs with
  | head :: rest =>
    if (head =? "params") || (head =? "input") || (head =? "route") then "lazuli.FromInput(" +:+ quoted (input_source_path rest) +:+ ")"
    else if head =? "ctx" then "lazuli.FromCtx(" +:+ quoted (join "." rest) +:+ ")"
    else if head =? "target" then "lazuli.FromTarget(" +:+ quoted (input_source_path rest) +:+ ")"
    else "lazuli.FromInput(" +:+ quoted (input_source_path segs) +:+ ")"
  | [] => "lazuli.FromInput(" +:+ quoted "" +:+ ")"
  end.

Fixpoint format_source_expr (e : Expr) : string :=
  match e with
  | EPath p => format_path_source (segments p)
  | EString s => "lazuli.FromConst(" +:+ quoted (escape_string s) +:+ ")"
  | EInteger n => "lazuli.FromConst(" +:+ show_Z n +:+ ")"
  | EBoolean b => "lazuli.FromConst(" +:+ (if b then "true" else "false") +:+ ")"
  | EEnum literal =>
    let qualifier := match type_name literal with Some q => pascal (qn_name q) | None => "" end in
    if qualifier =? "" then "lazuli.FromConst(" +:+ quoted (escape_string (variant literal)) +:+ ")"
    else "lazuli.FromConst(" +:+ qualifier +:+ pascal (variant literal) +:+ ")"
  | ENil => "lazuli.FromConst(nil)"
  | EFnCall fn args =>
    let args_arr := match args with [] => "nil" | _ => "[]lazuli.Source{" +:+ join ", " (List.map format_source_expr args) +:+ "}" end in
    "lazuli.FromFn(" +:+ quoted (escape_string (qn_name fn)) +:+ ", " +:+ args_arr +:+ ")"
  end.

(** * Columns *)

Definition is_source_path (segs : list string) : bool :=
  match segs with
  | head :: _ => (head =? "params") || (head =? "input") || (head =? "ctx") || (head =? "target") || (head =? "route")
  | [] => false
  end.

Definition column_from_segments (segs : list string) : string :=
  let trimmed := match segs with "self" :: rest => rest | _ => segs end in
  match trimmed with
  | [] => ""
  | [one] => lower_ascii one
  | [head; tail] => if tail =? "id" then lower_ascii head +:+ "_id" else join "_" (List.map lower_ascii trimmed)
  | many => join "_" (List.map lower_ascii many)
  end.

Definition has_field (resource : Resource) (column : string) : bool := existsb (fun f => fd_name f =? column) (fields resource).
Definition is_fk_field (f : Field) : bool := match type_ref f with UserDefined _ => true | _ => false end.
Definition resource_has_column (feature : Feature) (resource : Resource) (column : string) : bool :=
  (column =? "id") ||
  (match effective_tenancy feature resource with Org => true | _ => false end && (column =? "org_id")) ||
  has_field resource column.

Definition normalize_resource_column (feature : Feature) (resource : option Resource) (column : string) : string :=
  match resource with
  | None => column
  | Some resource =>
    if resource_has_column feature resource column then column else
    match strip_suffix "_id" column with
    | Some stem => if existsb (fun f => (fd_name f =? stem) && is_fk_field f) (fields resource) then stem else column
    | None =>
      let suffixed := column +:+ "_id" in
      if negb (has_field resource column) && resource_has_column feature resource suffixed then suffixed else column
    end
  end.

Definition column_from_expr (e : Expr) (feature : Feature) (resource : option Resource) : option string :=
  match e with
  | EPath p => if is_source_path (segments p) then None
               else Some (normalize_resource_column feature resource (column_from_segments (segments p)))
  | _ => None
  end.

(** * Rules *)

Definition owned_via_source (column : string) (rhs : Expr) (resource : option Resource) : option string :=
  resource ← resource;
  field ← List.find (fun f => fd_name f =? column) (fields resource);
  match type_ref field with
  | UserDefined qname =>
    let related_type := qn_name qname in
    if related_type =? "User" then None else
    match rhs with
    | EPath {| segments := "ctx" :: rest |} =>
      let ctx_path := join "." rest in
      if ctx_path =? "actor.user_id"
      then Some ("lazuli.FromCtxOwnedVia(" +:+ quoted (pascal_to_snake related_type) +:+ ", " +:+ quoted "user" +:+ ", " +:+
                 quoted ctx_path +:+ ")")
      else None
    | _ => None
    end
  | _ => None
  end.

Definition filter_rule (filter : QueryLowering.Filter) (feature : Feature) (resource : option Resource) : result string (string * string) :=
  match QueryLowering.predicate filter with
  | Comparison lhs Eq_ rhs =>
    let left_col := column_from_expr lhs feature resource in
    let right_col := column_from_expr rhs feature resource in
    match match left_col with Some c => Some c | None => right_col end with
    | None => Err "filter predicate has no column side."
    | Some column =>
      let value_expr := match left_col with Some _ => rhs | None => lhs end in
      match QueryLowering.when_ filter with
      | None =>
        match owned_via_source column value_expr resource with
        | Some owned_via => Ok (column, owned_via)
        | None => Ok (column, format_source_expr value_expr)
        end
      | Some param => Ok (column, "lazuli.FromInput(" +:+ quoted (input_source_path [param]) +:+ ")")
      end
    end
  | Comparison _ _ _ => Err "FilterRule only supports equality predicates today."
  | _ => Err "FilterRule only supports comparison predicates today."
  end.

Definition owner_scope_filter_entry (scope : OwnerScopeSql) : string * string :=
  (os_field_name scope,
   "lazuli.FromCtxOwnedVia(" +:+ quoted (escape_string (pascal_to_snake (os_fk_target scope))) +:+ ", " +:+
   quoted (escape_string (os_through_column scope)) +:+ ", " +:+ quoted "user.id" +:+ ")").

Definition rule_line (level : nat) (cs : string * string) : string :=
  tabs level ("{Column: " +:+ quoted (escape_string cs.1) +:+ ", When: " +:+ cs.2 +:+ "},").
Definition todo_line (level : nat) (message : string) : string := tabs level ("// TODO(ir): " +:+ message).

(** The lines of [emit_filters] at [level] tabs. *)
Definition emit_filters (level : nat) (feature : Feature) (resource : option Resource) (filters : list QueryLowering.Filter)
    (owner_scope : option OwnerScopeSql) : list string :=
  let owner_scope_entry := owner_scope_filter_entry <$> owner_scope in
  match filters, owner_scope_entry with
  | [], None => []
  | _, _ =>
    ([tabs level "Filters: []lazuli.FilterRule{"] ++
     List.map (fun f => match filter_rule f feature resource with
                        | Ok cs => rule_line (S level) cs
                        | Err message => todo_line (S level) message
                        end) filters ++
     match owner_scope_entry with
     | Some cs => [tabs (S level) "// owner-scope: synth from @owner_axis (cell O2 + codegen-os projection)"; rule_line (S level) cs]
     | None => []
     end ++
     [tabs level "},"])%list
  end.

Definition emit_order (level : nat) (feature : Feature) (resource : option Resource) (order : list OrderBy) : list string :=
  match order with
  | [] => []
  | _ =>
    ([tabs level "Order: []lazuli.OrderClause{"] ++
     List.map (fun clause =>
       let column := normalize_resource_column feature resource (column_from_segments [o_field clause]) in
       tabs (S level) ("{Column: " +:+ quoted (escape_string column) +:+ ", Desc: " +:+
                       (match o_direction clause with Desc_ => "true" | Asc => "false" end) +:+ "},")) order ++
     [tabs level "},"])%list
  end.

(** The entries of a [LookupBy] and the comments written before it. *)
Definition lookup_entries (feature : Feature) (resource : option Resource) (keys : list KeyClause) (filters : list QueryLowering.Filter)
    (owner_scope : option OwnerScopeSql) : list (string * string) :=
  let of_keys := List.map (fun key =>
    (normalize_resource_column feature resource (column_from_segments (segments (k_path key))), format_source_expr (k_equals key))) keys in
  let of_filters := omap (fun f => match filter_rule f feature resource with Ok cs => Some cs | Err _ => None end) filters in
  let entries := (of_keys ++ of_filters)%list in
  match owner_scope with
  | None => entries
  | Some scope =>
    let cs := owner_scope_filter_entry scope in
    if existsb (fun e => fst e =? fst cs) entries then entries else (entries ++ [cs])%list
  end.
Definition emit_lookup_by_with_filters (level : nat) (feature : Feature) (resource : option Resource) (keys : list KeyClause)
    (filters : list QueryLowering.Filter) (owner_scope : option OwnerScopeSql) : list string :=
  let todos := omap (fun f => match filter_rule f feature resource with Ok _ => None | Err message => Some (todo_line level message) end) filters in
  match lookup_entries feature resource keys filters owner_scope with
  | [] => todos
  | entries =>
    (todos ++ [tabs level "LookupBy: []lazuli.LookupKey{"] ++
     List.map (fun e => tabs (S level) ("{Column: " +:+ quoted (escape_string (fst e)) +:+ ", Source: " +:+ snd e +:+ "},")) entries ++
     [tabs level "},"])%list
  end.

(** * Arguments ([lookup_args.rs], [args.rs]) *)

Definition last_segment (key : KeyClause) : string := List.last (segments (k_path key)) "value".
Definition lookup_arg_name (key : KeyClause) : string :=
  match k_equals key with
  | EPath p =>
    let segs := match segments p with
      | head :: rest => if (head =? "params") || (head =? "input") || (head =? "route") then rest else segments p
      | [] => []
      end in
    match segs with [] => last_segment key | _ => join "_" segs end
  | _ => last_segment key
  end.

Definition infer_lookup_type (key : KeyClause) (resource : option Resource) : TypeRef :=
  if match segments (k_path key) with [] => false | segs => List.last segs "" =? "id" end then Builtin Id else
  match (r ← resource; head ← List.head (segments (k_path key)); List.find (fun f => fd_name f =? head) (fields r)) with
  | Some f => type_ref f
  | None => Builtin types.Text
  end.

Definition add_lookup_arg (resource : option Resource) (args : list TypedSlot) (key : KeyClause) : list TypedSlot :=
  let nm := lookup_arg_name key in
  if existsb (fun slot => ts_name slot =? nm) args then args
  else (args ++ [{| ts_name := nm; ts_type := infer_lookup_type key resource; ts_required := true;
                    ts_constraints := default_constraints; ts_validate_skip := false |}])%list.
Definition lookup_args (query : LookupQuery) (resource : option Resource) : list TypedSlot :=
  fold_left (add_lookup_arg resource) (u_keys query) (u_params query).

(** The Go name and the [json] name of an argument in the struct of
    [emit_args_struct]. *)
Definition arg_names (slot : TypedSlot) : string * string := (pascal (ts_name slot), ts_name slot).

(** * Names of the emitted values ([list.rs], [lookup.rs]) *)

Definition query_error_keys_var (var_name : string) : string := var_name +:+ "ErrorKeys".
Definition list_args_struct_name (query_name resource_pascal : string) : string :=
  if query_name =? "list" then "List" +:+ plural_pascal resource_pascal +:+ "Args" else pascal query_name +:+ "Args".
Definition list_var_name (query_name resource_pascal : string) : string :=
  if query_name =? "list" then "list" +:+ plural_pascal resource_pascal else lower_camel to_uppercase query_name.
Definition by_query (query_name : string) : bool := starts_with "by_" query_name || (query_name =? "by").
Definition lookup_args_struct_name (query_name resource_pascal : string) : string :=
  if by_query query_name then resource_pascal +:+ pascal query_name +:+ "Args" else pascal query_name +:+ "Args".
Definition lookup_var_name (query_name resource_pascal : string) : string :=
  if by_query query_name then lower_camel to_uppercase resource_pascal +:+ pascal query_name else lower_camel to_uppercase query_name.

Definition is_actor_keyed_lookup (query : LookupQuery) : bool :=
  match u_params query, u_keys query with
  | [], (_ :: _) as keys => forallb (fun key => match k_equals key with
      | EPath {| segments := "ctx" :: _ |} => true
      | _ => false
      end) keys
  | _, _ => false
  end.

Definition PATTERN_QUERY_PGX_LIST : string * string := ("query_pgx_list", "v1").
Definition PATTERN_QUERY_PGX_LOOKUP : string * string := ("query_pgx_lookup", "v1").
Definition emit_list_query_wrapper (query_name var_name args_struct resource_type : string) : list string :=
  let func_name := pascal query_name in
  [emit_pattern_header PATTERN_QUERY_PGX_LIST;
   "// " +:+ func_name +:+ " is the exported Go wrapper around the package-private";
   "// `" +:+ var_name +:+ "` value. Mirrors the command-side Handle<Name> shape";
   "// so Go-internal callers (other handlers, helpers, tests) can";
   "// invoke the list without going through the HTTP router.";
   "func " +:+ func_name +:+ "(ctx *lazuli.Ctx, args " +:+ args_struct +:+ ") ([]" +:+ resource_type +:+ ", error) {";
   tabs 1 ("return " +:+ var_name +:+ ".RunList(ctx, args)");
   "}"].
Definition emit_lookup_query_wrapper (query_name var_name args_struct resource_type : string) (actor_keyed : bool) : list string :=
  let func_name := pascal query_name in
  [emit_pattern_header PATTERN_QUERY_PGX_LOOKUP; "// " +:+ func_name +:+ " is the exported Go wrapper around the package-private"] ++
  (if actor_keyed then
    ["// `" +:+ var_name +:+ "` value. Callers invoke " +:+ func_name +:+ "(ctx) without";
     "// passing an args struct — the actor identity drives the LookupBy";
     "// keys via ctx-sourced bindings.";
     "func " +:+ func_name +:+ "(ctx *lazuli.Ctx) (" +:+ resource_type +:+ ", error) {";
     tabs 1 ("return " +:+ var_name +:+ ".RunLookup(ctx, " +:+ args_struct +:+ "{})");
     "}"]
   else
    ["// `" +:+ var_name +:+ "` value. Mirrors the command-side Handle<Name> shape";
     "// so Go-internal callers (other handlers, helpers, tests) can";
     "// invoke the lookup without going through the HTTP router.";
     "func " +:+ func_name +:+ "(ctx *lazuli.Ctx, args " +:+ args_struct +:+ ") (" +:+ resource_type +:+ ", error) {";
     tabs 1 ("return " +:+ var_name +:+ ".RunLookup(ctx, args)");
     "}"])%list.
End Emit.

(** * Caches ([args.rs]) *)

Definition cache_uses_time (cache : QueryCache) : bool := match qc_ttl cache with TtlLiteral _ => true | TtlQuoted _ => false end.
(** [n.saturating_mul(24)] on 32 bits. *)
Definition saturating_day (n : N) : N := N.min (n * 24) FieldConstraints.u32_max.
Definition format_cache_ttl (ttl : CacheTtlLiteral) : string :=
  match ttl with
  | Seconds n => show_N n +:+ " * time.Second"
  | Minutes n => show_N n +:+ " * time.Minute"
  | Hours n => show_N n +:+ " * time.Hour"
  | Days n => show_N (saturating_day n) +:+ " * time.Hour"
  end.
Definition emit_cache (level : nat) (cache : QueryCache) : list string :=
  ([tabs level "Cache: &lazuli.CacheSpec{"; tabs (S level) ("Key: " +:+ quoted (escape_string (qc_key cache)) +:+ ",")] ++
   match qc_ttl cache with
   | TtlLiteral ttl => [tabs (S level) ("TTL: " +:+ format_cache_ttl ttl +:+ ",")]
   | TtlQuoted prose =>
     [tabs (S level) "TTL: 0,";
      tabs (S level) ("// TODO(runtime): quoted QueryCache.ttl " +:+ quoted (escape_string prose) +:+ " has no CacheSpec prose slot.")]
   end ++
   match qc_tags cache with
   | [] => []
   | tags => [tabs (S level) ("// TODO(runtime): QueryCache.tags not yet in Lazuli Go lib: " +:+ join ", " tags +:+ ".")]
   end ++
   match qc_namespace cache with
   | Some ns => [tabs (S level) ("// TODO(runtime): QueryCache.namespace not yet in Lazuli Go lib: " +:+ escape_string ns +:+ ".")]
   | None => []
   end ++
   [tabs level "},"])%list.
