(* ===== verification/GoSource.v ===== *)
(** What Go makes of the binding sources the generator writes: the calls of the
    [lazuli.From..] factories ([runtime/go/lazuli/effect.go]) in generated text.

    Constants of the generated package are a parameter of the reader. *)
From S2P Require Import Prelude Str Fmt SqlRows RuntimeSql.
From S2P Require Expr PolicyCodegen ReferentialGuard.
Import PolicyCodegen (escape_string).
Import ReferentialGuard (tabs).

(** * Literals *)

(** The rest of an interpreted string literal, after its opening quote. *)
Fixpoint go_lit_tail (s : string) : option (string * string) :=
  match s with
  | "" => None
  | String b r =>
    if b =a? DQ then Some ("", r)
    else if b =a? LF then None
    else if b =a? BSL then
      match r with
      | String c r => if (c =a? BSL) || (c =a? DQ) then '(v, rest) ← go_lit_tail r; Some (String c v, rest) else None
      | "" => None
      end
    else '(v, rest) ← go_lit_tail r; Some (String b v, rest)
  end.
Definition go_lit (s : string) : option (string * string) := r ← strip_prefix (String DQ "") s; go_lit_tail r.

Definition one_line (s : string) : bool := str_all (fun b => negb (b =a? LF)) s.
(** Text a literal holds without escapes. *)
Definition bare_text (s : string) : bool := str_all (fun b => negb (b =a? LF) && negb (b =a? DQ) && negb (b =a? BSL)) s.

Section Reader.
Variable constants : string -> option Value.

(** A constant: a literal, [nil], a boolean, a decimal integer or a name. *)
Definition go_constant (s : string) : option (Value * string) :=
  if starts_with (String DQ "") s then '(t, rest) ← go_lit s; Some (Text t, rest)
  else
    let n := count_while (fun b => negb (b =a? ")")) s in
    let word := str_take n s in
    let rest := str_drop n s in
    if word =? "nil" then Some (Nil, rest)
    else if word =? "true" then Some (Bool true, rest)
    else if word =? "false" then Some (Bool false, rest)
    else match parse_i64 word with
    | Some n => if word =? show_Z n then Some (Int n, rest) else None
    | None => v ← constants word; Some (v, rest)
    end.

(** [f("path")] *)
Definition go_call (f : string) (s : string) : option (string * string) :=
  r ← strip_prefix (f +:+ "(") s; '(p, r) ← go_lit r; r ← strip_prefix ")" r; Some (p, r).

Fixpoint read_source (fuel : nat) (s : string) : option (Source * string) :=
  match fuel with
  | O => None
  | S fuel =>
    match go_call "lazuli.FromInput" s with
    | Some (p, r) => Some (FromInput p, r)
    | None =>
    match go_call "lazuli.FromInputOptional" s with
    | Some (p, r) => Some (FromInputOptional p, r)
    | None =>
    match go_call "lazuli.FromCtx" s with
    | Some (p, r) => Some (FromCtx p, r)
    | None =>
    match go_call "lazuli.FromTarget" s with
    | Some (p, r) => Some (FromTarget p, r)
    | None =>
    match strip_prefix "lazuli.FromConst(" s with
    | Some r => '(v, r) ← go_constant r; r ← strip_prefix ")" r; Some (FromConst v, r)
    | None =>
    match strip_prefix "lazuli.FromCtxOwnedVia(" s with
    | Some r =>
      '(t, r) ← go_lit r; r ← strip_prefix ", " r; '(o, r) ← go_lit r; r ← strip_prefix ", " r; '(p, r) ← go_lit r;
      r ← strip_prefix ")" r; Some (FromCtxOwnedVia t o p, r)
    | None =>
      r ← strip_prefix "lazuli.FromFn(" s;
      '(f, r) ← go_lit r;
      r ← strip_prefix ", " r;
      match strip_prefix "nil)" r with
      | Some r => Some (FromFn f [], r)
      | None =>
        r ← strip_prefix "[]lazuli.Source{" r;
        '(args, r) ← sql_list (read_source fuel) ", " (str_len r) r;
        r ← strip_prefix "})" r; Some (FromFn f args, r)
      end
    end end end end end end
  end.
Definition go_source (s : string) : option (Source * string) := read_source (str_len s) s.

(** * Composite literals *)

(** [{Column: "c", <label>: <source>},] *)
Definition read_entry (label : string) (s : string) : option (string * Source) :=
  r ← strip_prefix "{Column: " s; '(c, r) ← go_lit r;
  r ← strip_prefix (", " +:+ label +:+ ": ") r; '(src, r) ← go_source r;
  if r =? "}," then Some (c, src) else None.

(** The lines of a literal up to its end; comments say nothing. *)
Fixpoint read_lines {A} (entry : string -> option A) (level : nat) (lines : list string) : option (list A) :=
  match lines with
  | [] => None
  | line :: rest =>
    match strip_prefix (tabs (S level) "") line with
    | Some s =>
      if starts_with "//" s then read_lines entry level rest
      else x ← entry s; xs ← read_lines entry level rest; Some (x :: xs)
    | None => if line =? tabs level "}," then match rest with [] => Some [] | _ => None end else None
    end
  end.
(** A field of the value, or nothing; comments may come before it. *)
Fixpoint read_field {A} (entry : string -> option A) (header : string) (level : nat) (lines : list string) : option (list A) :=
  match lines with
  | [] => Some []
  | line :: rest =>
    s ← strip_prefix (tabs level "") line;
    if starts_with "//" s then read_field entry header level rest
    else if s =? header then read_lines entry level rest else None
  end.

(** [{Column: "c", Desc: <bool>},] *)
Definition read_order_entry (s : string) : option (string * bool) :=
  r ← strip_prefix "{Column: " s; '(c, r) ← go_lit r;
  if r =? ", Desc: true}," then Some (c, true) else if r =? ", Desc: false}," then Some (c, false) else None.
End Reader.

(** * What is read back *)

Lemma go_lit_escaped s rest : one_line s = true -> go_lit (quoted (escape_string s) +:+ rest) = Some (s, rest).
Proof.
  intros H. unfold go_lit, quoted. cbn [String.append]. change (String DQ ((?x +:+ ?y) +:+ rest)) with (String DQ "" +:+ ((x +:+ y) +:+ rest)).
  rewrite strip_prefix_app. cbn [mbind option_bind]. rewrite sapp_assoc. cbn [String.append].
  induction s as [|b s IH]; [done|]. cbn [str_all one_line] in H. unfold one_line in *. cbn [str_all] in H.
  apply andb_true_iff in H as [Hb Hs]. apply negb_true_iff in Hb. cbn [escape_string].
  destruct (b =a? BSL) eqn:E1; [apply Ascii.eqb_eq in E1 as ->; cbn [String.append go_lit_tail]; change (BSL =a? DQ) with false; change (BSL =a? LF) with false; rewrite Ascii.eqb_refl; cbn [orb]; by rewrite IH|].
  destruct (b =a? DQ) eqn:E2; [apply Ascii.eqb_eq in E2 as ->; cbn [String.append go_lit_tail]; change (BSL =a? DQ) with false; change (BSL =a? LF) with false; rewrite !Ascii.eqb_refl, orb_true_r; by rewrite IH|].
  cbn [String.append go_lit_tail]. by rewrite E2, Hb, E1, IH.
Qed.

Lemma escape_bare s : bare_text s = true -> escape_string s = s.
Proof.
  unfold bare_text. induction s as [|b s IH]; [done|]. cbn [str_all escape_string]. intros [[[_ H1]%andb_true_iff H2]%andb_true_iff H3]%andb_true_iff.
  apply negb_true_iff in H1, H2. by rewrite H1, H2, IH.
Qed.
Lemma bare_one_line s : bare_text s = true -> one_line s = true.
Proof. apply str_all_impl. intros b H. by apply andb_true_iff in H as [[H _]%andb_true_iff _]. Qed.

Lemma go_lit_bare s rest : bare_text s = true -> go_lit (quoted s +:+ rest) = Some (s, rest).
Proof. intros H. rewrite <-(escape_bare s) at 1 by done. by apply go_lit_escaped, bare_one_line. Qed.

Lemma reads_lit s : one_line s = true -> reads go_lit (quoted (escape_string s)) s.
Proof. intros H. split; [done|]. intros rest _. by apply go_lit_escaped. Qed.
Lemma reads_bare s : bare_text s = true -> reads go_lit (quoted s) s.
Proof. intros H. split; [done|]. intros rest _. by apply go_lit_bare. Qed.

(** One step of a reader over a literal or an item. *)
Ltac go_item H := rewrite (proj2 H) by done; cbn [mbind option_bind].

Section Reads.
Variable constants : string -> option Value.
Abbreviation rs := (read_source constants).

Lemma call_reads f p rest : bare_text p = true -> go_call f ((f +:+ "(" +:+ quoted p +:+ ")") +:+ rest) = Some (p, rest).
Proof.
  intros Hp. unfold go_call. rewrite !sapp_assoc, <-(sapp_assoc f "("). sql_lit.
  rewrite go_lit_bare by done. cbn [mbind option_bind]. by sql_lit.
Qed.

Lemma reads_input fuel p : bare_text p = true -> reads (rs (S fuel)) ("lazuli.FromInput(" +:+ quoted p +:+ ")") (FromInput p).
Proof.
  intros Hp. split; [done|]. intros rest _. cbn [read_source].
  by rewrite (call_reads "lazuli.FromInput" p rest Hp : go_call "lazuli.FromInput" (("lazuli.FromInput(" +:+ quoted p +:+ ")") +:+ rest) = _).
Qed.
Lemma reads_optional fuel p : bare_text p = true -> reads (rs (S fuel)) ("lazuli.FromInputOptional(" +:+ quoted p +:+ ")") (FromInputOptional p).
Proof.
  intros Hp. split; [done|]. intros rest _. cbn [read_source].
  replace (go_call "lazuli.FromInput" (("lazuli.FromInputOptional(" +:+ quoted p +:+ ")") +:+ rest)) with (@None (string * string)) by done.
  by rewrite (call_reads "lazuli.FromInputOptional" p rest Hp : go_call "lazuli.FromInputOptional" (("lazuli.FromInputOptional(" +:+ quoted p +:+ ")") +:+ rest) = _).
Qed.
Lemma reads_ctx fuel p : bare_text p = true -> reads (rs (S fuel)) ("lazuli.FromCtx(" +:+ quoted p +:+ ")") (FromCtx p).
Proof.
  intros Hp. split; [done|]. intros rest _. cbn [read_source].
  replace (go_call "lazuli.FromInput" (("lazuli.FromCtx(" +:+ quoted p +:+ ")") +:+ rest)) with (@None (string * string)) by done.
  replace (go_call "lazuli.FromInputOptional" (("lazuli.FromCtx(" +:+ quoted p +:+ ")") +:+ rest)) with (@None (string * string)) by done.
  by rewrite (call_reads "lazuli.FromCtx" p rest Hp : go_call "lazuli.FromCtx" (("lazuli.FromCtx(" +:+ quoted p +:+ ")") +:+ rest) = _).
Qed.
Lemma reads_target fuel p : bare_text p = true -> reads (rs (S fuel)) ("lazuli.FromTarget(" +:+ quoted p +:+ ")") (FromTarget p).
Proof.
  intros Hp. split; [done|]. intros rest _. cbn [read_source].
  replace (go_call "lazuli.FromInput" (("lazuli.FromTarget(" +:+ quoted p +:+ ")") +:+ rest)) with (@None (string * string)) by done.
  replace (go_call "lazuli.FromInputOptional" (("lazuli.FromTarget(" +:+ quoted p +:+ ")") +:+ rest)) with (@None (string * string)) by done.
  replace (go_call "lazuli.FromCtx" (("lazuli.FromTarget(" +:+ quoted p +:+ ")") +:+ rest)) with (@None (string * string)) by done.
  by rewrite (call_reads "lazuli.FromTarget" p rest Hp : go_call "lazuli.FromTarget" (("lazuli.FromTarget(" +:+ quoted p +:+ ")") +:+ rest) = _).
Qed.

(** No factory of one path reads [s]. *)
Definition no_call (s : string) : Prop := forall f, List.In f ["lazuli.FromInput"; "lazuli.FromInputOptional"; "lazuli.FromCtx"; "lazuli.FromTarget"] -> go_call f s = None.
Lemma skip_calls fuel s : no_call s -> rs (S fuel) s =
  match strip_prefix "lazuli.FromConst(" s with
  | Some r => '(v, r) ← go_constant constants r; r ← strip_prefix ")" r; Some (FromConst v, r)
  | None =>
  match strip_prefix "lazuli.FromCtxOwnedVia(" s with
  | Some r =>
    '(t, r) ← go_lit r; r ← strip_prefix ", " r; '(o, r) ← go_lit r; r ← strip_prefix ", " r; '(p, r) ← go_lit r;
    r ← strip_prefix ")" r; Some (FromCtxOwnedVia t o p, r)
  | None =>
    r ← strip_prefix "lazuli.FromFn(" s;
    '(f, r) ← go_lit r;
    r ← strip_prefix ", " r;
    match strip_prefix "nil)" r with
    | Some r => Some (FromFn f [], r)
    | None =>
      r ← strip_prefix "[]lazuli.Source{" r;
      '(args, r) ← sql_list (rs fuel) ", " (str_len r) r;
      r ← strip_prefix "})" r; Some (FromFn f args, r)
    end
  end end.
Proof. intros H. cbn [read_source]. by rewrite !H by (cbn; tauto). Qed.

Lemma no_call_head p s : (forall f, List.In f ["lazuli.FromInput("; "lazuli.FromInputOptional("; "lazuli.FromCtx("; "lazuli.FromTarget("] ->
  strip_prefix f (p +:+ s) = None) -> no_call (p +:+ s).
Proof.
  intros H f Hf. unfold go_call. rewrite H; [done|]. cbn in Hf |- *.
  repeat (destruct Hf as [<-|Hf]; [cbn; tauto|]). done.
Qed.
Ltac no_call_tac := apply no_call_head; intros ? Hf_; cbn in Hf_; repeat (destruct Hf_ as [<-|Hf_]; [reflexivity|]); done.

Lemma reads_const fuel t v : (forall rest, go_constant constants (t +:+ ")" +:+ rest) = Some (v, ")" +:+ rest)) ->
  reads (rs (S fuel)) ("lazuli.FromConst(" +:+ t +:+ ")") (FromConst v).
Proof.
  intros Ht. split; [done|]. intros rest _. rewrite sapp_assoc, skip_calls by no_call_tac. sql_lit. rewrite sapp_assoc, Ht.
  cbn [mbind option_bind]. by sql_lit.
Qed.

Lemma reads_owned fuel t o p : bare_text t = true -> bare_text o = true -> bare_text p = true ->
  reads (rs (S fuel)) ("lazuli.FromCtxOwnedVia(" +:+ quoted t +:+ ", " +:+ quoted o +:+ ", " +:+ quoted p +:+ ")") (FromCtxOwnedVia t o p).
Proof.
  intros Ht Ho Hp. split; [done|]. intros rest _. rewrite sapp_assoc, skip_calls by no_call_tac.
  replace (strip_prefix "lazuli.FromConst(" _) with (@None string) by done. sql_lit. rewrite !sapp_assoc.
  rewrite go_lit_bare by done. cbn [mbind option_bind]. sql_lit. rewrite go_lit_bare by done. cbn [mbind option_bind]. sql_lit.
  rewrite go_lit_bare by done. cbn [mbind option_bind]. by sql_lit.
Qed.

Lemma reads_fn fuel f texts args : one_line f = true -> Forall2 (reads (rs fuel)) texts args ->
  reads (rs (S fuel)) ("lazuli.FromFn(" +:+ quoted (escape_string f) +:+ ", " +:+
    match texts with [] => "nil" | _ => "[]lazuli.Source{" +:+ join ", " texts +:+ "}" end +:+ ")") (FromFn f args).
Proof.
  intros Hf Ha. split; [done|]. intros rest _. rewrite sapp_assoc, skip_calls by no_call_tac.
  replace (strip_prefix "lazuli.FromConst(" _) with (@None string) by done.
  replace (strip_prefix "lazuli.FromCtxOwnedVia(" _) with (@None string) by done. sql_lit. rewrite !sapp_assoc.
  rewrite go_lit_escaped by done. cbn [mbind option_bind]. sql_lit. inversion Ha as [|t a ts l Hta Htl]; subst.
  - change ("nil" +:+ ")" +:+ rest) with ("nil)" +:+ rest). by rewrite strip_prefix_app.
  - replace (strip_prefix "nil)" _) with (@None string) by done. rewrite !sapp_assoc. sql_lit.
    rewrite (sql_list_len (rs fuel) ", " (t :: ts) (a :: l)); [|by constructor|done..].
    cbn [mbind option_bind]. change ("}" +:+ ")" +:+ rest) with ("})" +:+ rest). by rewrite strip_prefix_app.
Qed.

(** ** Constants *)

Definition const_reads (t : string) (v : Value) : Prop := forall rest, go_constant constants (t +:+ ")" +:+ rest) = Some (v, ")" +:+ rest).

Lemma const_text s : one_line s = true -> const_reads (quoted (escape_string s)) (Text s).
Proof.
  intros H rest. unfold go_constant. replace (starts_with (String DQ "") _) with true by done.
  rewrite go_lit_escaped by done. done.
Qed.

(** A word: no parenthesis and no quote. *)
Lemma const_word w : str_all (fun b => negb (b =a? ")")) w = true -> starts_with (String DQ "") w = false -> w <> "" -> forall rest,
  go_constant constants (w +:+ ")" +:+ rest) =
    if w =? "nil" then Some (Nil, ")" +:+ rest)
    else if w =? "true" then Some (Bool true, ")" +:+ rest)
    else if w =? "false" then Some (Bool false, ")" +:+ rest)
    else match parse_i64 w with
    | Some n => if w =? show_Z n then Some (Int n, ")" +:+ rest) else None
    | None => v ← constants w; Some (v, ")" +:+ rest)
    end.
Proof.
  intros Hw Hq Hne rest. unfold go_constant.
  replace (starts_with (String DQ "") (w +:+ ")" +:+ rest)) with false by (destruct w; [done|]; cbn in *; by rewrite Hq).
  rewrite count_while_app by done. by rewrite take_app, drop_app.
Qed.

Lemma const_int n : in_i64 n = true -> const_reads (show_Z n) (Int n).
Proof.
  intros Hn rest. pose proof (Expr.show_Z_chars n) as Hc. pose proof (parse_show_Z n Hn) as Hp.
  rewrite const_word.
  - destruct (String.eqb_spec (show_Z n) "nil") as [E|_]; [by rewrite E in Hc|].
    destruct (String.eqb_spec (show_Z n) "true") as [E|_]; [by rewrite E in Hc|].
    destruct (String.eqb_spec (show_Z n) "false") as [E|_]; [by rewrite E in Hc|]. by rewrite Hp, String.eqb_refl.
  - eapply str_all_impl; [|exact Hc]. intros b. by_bytes b.
  - destruct (show_Z n) as [|b r]; [done|]. cbn in Hc |- *. apply andb_true_iff in Hc as [Hb _]. revert Hb. by_bytes b.
  - intros E. by rewrite E in Hp.
Qed.
Lemma const_nil : const_reads "nil" Nil.
Proof. intros rest. by rewrite const_word. Qed.
Lemma const_bool (b : bool) : const_reads (if b then "true" else "false") (Bool b).
Proof. intros rest. destruct b; by rewrite const_word. Qed.
End Reads.

(** ** Lines *)

Lemma strip_tabs k s : strip_prefix (tabs k "") (tabs k s) = Some s.
Proof.
  assert (E : forall k s, tabs k s = tabs k "" +:+ s) by (clear; induction k as [|k IH]; intros s; [done|]; cbn; by rewrite IH).
  rewrite (E k s). apply strip_prefix_app.
Qed.
Lemma strip_tabs_less k s : starts_with (String TAB "") s = false -> strip_prefix (tabs (S k) "") (tabs k s) = None.
Proof.
  intros H. destruct (strip_prefix _ _) as [y|] eqn:E; [|done]. apply strip_prefix_Some in E.
  induction k as [|k IH]; cbn in E; [by rewrite E in H|]. apply IH. injection E as E. cbn. exact E.
Qed.

Section Blocks.
Context {A : Type} (entry : string -> option A).

(** The line an entry is written on, and the lines that say nothing. *)
Inductive says (level : nat) : string -> option A -> Prop :=
| says_entry s x : starts_with "//" s = false -> entry s = Some x -> says level (tabs (S level) s) (Some x)
| says_comment s : says level (tabs (S level) ("//" +:+ s)) None.

Lemma omap_id_some {B} (l : list B) : omap id (List.map Some l) = l.
Proof. induction l as [|x l IH]; cbn; [done|by rewrite IH]. Qed.
Lemma omap_id_map {B C} (f : B -> option C) l : omap id (List.map f l) = omap f l.
Proof. induction l as [|x l IH]; cbn; [done|]. destruct (f x); cbn; by rewrite IH. Qed.

Lemma lines_read level lines xs : Forall2 (says level) lines xs ->
  read_lines entry level (lines ++ [tabs level "},"])%list = Some (omap id xs).
Proof.
  induction 1 as [|line x lines xs H _ IH]; cbn [read_lines app].
  - rewrite strip_tabs_less by done. by rewrite String.eqb_refl.
  - inversion H as [s y Hc Hs|s]; subst; cbn [read_lines app]; rewrite strip_tabs.
    + rewrite Hc, Hs. cbn [mbind option_bind]. by rewrite IH.
    + rewrite (starts_with_app "//" s). exact IH.
Qed.

Lemma field_reads header level (comments lines : list string) xs : starts_with "//" header = false ->
  Forall (fun line => exists s, line = tabs level ("//" +:+ s)) comments -> Forall2 (says level) lines xs ->
  read_field entry header level (comments ++ tabs level header :: lines ++ [tabs level "},"])%list = Some (omap id xs).
Proof.
  intros Hh Hc Hl. induction Hc as [|line comments [s ->] _ IH]; cbn [read_field app].
  - rewrite strip_tabs. cbn [mbind option_bind]. rewrite Hh, String.eqb_refl. by apply lines_read.
  - rewrite strip_tabs. cbn [mbind option_bind]. rewrite (starts_with_app "//" s). exact IH.
Qed.
Lemma field_reads_eq header level (comments lines all : list string) xs : all = (comments ++ tabs level header :: lines ++ [tabs level "},"])%list ->
  starts_with "//" header = false -> Forall (fun line => exists s, line = tabs level ("//" +:+ s)) comments -> Forall2 (says level) lines xs ->
  read_field entry header level all = Some (omap id xs).
Proof. intros ->. apply field_reads. Qed.
Lemma field_absent header level (comments : list string) : Forall (fun line => exists s, line = tabs level ("//" +:+ s)) comments ->
  read_field entry header level comments = Some [].
Proof.
  induction 1 as [|line comments [s ->] _ IH]; [done|]. cbn [read_field]. rewrite strip_tabs. cbn [mbind option_bind].
  rewrite (starts_with_app "//" s). exact IH.
Qed.
End Blocks.

Lemma entry_reads constants label c text src : one_line c = true -> (forall fuel, str_len text <= fuel -> reads (read_source constants fuel) text src) ->
  read_entry constants label ("{Column: " +:+ quoted (escape_string c) +:+ ", " +:+ label +:+ ": " +:+ text +:+ "},") = Some (c, src).
Proof.
  intros Hc Ht. unfold read_entry. sql_lit. rewrite go_lit_escaped by done. cbn [mbind option_bind].
  replace (", " +:+ label +:+ ": " +:+ text +:+ "},") with ((", " +:+ label +:+ ": ") +:+ (text +:+ "},")) by (by rewrite !sapp_assoc).
  sql_lit. unfold go_source. rewrite (proj2 (Ht (str_len (text +:+ "},")) ltac:(rewrite len_app; lia))) by done. done.
Qed.

(** ** Sources of any length *)

Section Texts.
Variable constants : string -> option Value.

Definition text_reads (text : string) (src : Source) : Prop :=
  forall fuel, str_len text <= fuel -> reads (read_source constants fuel) text src.

(** Names of constants Go cannot take for anything else. *)
Definition constant_name (c : string) : bool :=
  str_all (fun b => negb (b =a? ")")) c && negb (starts_with (String DQ "") c) && nonempty c && negb (Expr.reserved c) &&
  match parse_i64 c with None => true | Some _ => false end && match constants c with Some _ => true | None => false end.
Lemma const_name c : constant_name c = true -> const_reads constants c (default Nil (constants c)).
Proof.
  unfold constant_name. rewrite !andb_true_iff, !negb_true_iff. intros [[[[[H1 H2] H3] H4] H5] H6] rest.
  unfold Expr.reserved in H4. rewrite !orb_false_iff in H4. destruct H4 as [[T F] N].
  rewrite const_word; [|done|done|by intros E'; rewrite E' in H3]. rewrite T, F, N.
  destruct (parse_i64 _); [done|]. by destruct (constants _).
Qed.

Lemma len_join_In sep l x : List.In x l -> str_len x <= str_len (join sep l).
Proof.
  induction l as [|y l IH]; [done|]. intros [->|Hx]; destruct l as [|z l]; try done.
  - rewrite join_cons by done. rewrite len_app. lia.
  - rewrite join_cons by done. rewrite !len_app. specialize (IH Hx). lia.
Qed.

Lemma fn_reads {A} (text : A -> string) (src : A -> Source) f args : one_line f = true -> Forall (fun a => text_reads (text a) (src a)) args ->
  text_reads ("lazuli.FromFn(" +:+ quoted (escape_string f) +:+ ", " +:+
    match args with [] => "nil" | _ => "[]lazuli.Source{" +:+ join ", " (List.map text args) +:+ "}" end +:+ ")") (FromFn f (List.map src args)).
Proof.
  intros Hf Ha [|fuel] Hl; [cbn in Hl; lia|].
  assert (Hr : Forall2 (reads (read_source constants fuel)) (List.map text args) (List.map src args)).
  { assert (Hs : Forall (fun a => str_len (text a) <= fuel) args).
    { destruct args as [|a args]; [done|]. apply List.Forall_forall. intros x Hx. pose proof (len_join_In ", " _ _ (in_map text _ _ Hx)) as Hj.
      rewrite !len_app in Hl. change (str_len "lazuli.FromFn(") with 14 in Hl. lia. }
    clear Hl. induction Ha as [|a args Ha _ IH]; [constructor|]. inversion Hs; subst. constructor; auto. }
  pose proof (reads_fn constants fuel f _ _ Hf Hr) as R. destruct args; exact R.
Qed.
End Texts.
