(* ===== verification/QueryExact.v ===== *)
(** From a query as it is written to the rows it answers: the filters, orders and
    keys of the generated Go values, read back and run by the runtime. *)
From Stdlib Require Import Sorted Permutation.
From S2P Require Import Prelude Str BTree Fmt Helpers Ir Catalog SqlColumn Casing SqlRows RuntimeSql RuntimeRead RuntimeNames GoSource QueryCodegen.
From S2P Require Lex Expr PolicyCodegen QueryLowering.
Import Expr (ident, ident_char, op_token).
Import QueryLowering (lhs_text, rhs_text, KeyClause, k_path, k_equals, OrderBy, o_field, o_direction, Asc, Desc_,
  OwnerScopeSql, os_field_name, os_fk_target, os_through_column).
Import PolicyCodegen (escape_string).
Import ReferentialGuard (tabs).

(** * Sources *)

Section Codegen.
Variable up : string -> string.
Variable constants : string -> option Value.
Abbreviation pascal := (pascal_case up).

Definition path_source (segs : list string) : Source :=
  match segs with
  | head :: rest =>
    if (head =? "params") || (head =? "input") || (head =? "route") then FromInput (input_source_path up rest)
    else if head =? "ctx" then FromCtx (join "." rest)
    else if head =? "target" then FromTarget (input_source_path up rest)
    else FromInput (input_source_path up segs)
  | [] => FromInput ""
  end.
Definition source_path (src : Source) : string := match src with FromInput p | FromCtx p | FromTarget p => p | _ => "" end.

(** The name of an enum constant of the generated package. *)
Definition enum_constant (l : EnumLiteral) : option string :=
  let qualifier := match type_name l with Some q => pascal (qn_name q) | None => "" end in
  if qualifier =? "" then None else Some (qualifier +:+ pascal (variant l)).

(** What an expression binds. *)
Fixpoint source_of (e : Expr) : Source :=
  match e with
  | EPath p => path_source (segments p)
  | EString s => FromConst (SqlRows.Text s)
  | EInteger n => FromConst (Int n)
  | EBoolean b => FromConst (Bool b)
  | ENil => FromConst Nil
  | EEnum l => match enum_constant l with
               | None => FromConst (SqlRows.Text (variant l))
               | Some c => FromConst (default Nil (constants c))
               end
  | EFnCall f args => FromFn (qn_name f) (List.map source_of args)
  end.

(** Text a Go literal can hold: one line, and no quote in a path. *)
Fixpoint clean (e : Expr) : bool :=
  match e with
  | EPath p => bare_text (source_path (path_source (segments p)))
  | EString s => one_line s
  | EInteger n => in_i64 n
  | EBoolean _ | ENil => true
  | EEnum l => match enum_constant l with None => one_line (variant l) | Some c => constant_name constants c end
  | EFnCall f args => one_line (qn_name f) && forallb clean args
  end.

Lemma path_reads fuel segs : bare_text (source_path (path_source segs)) = true ->
  reads (read_source constants (S fuel)) (format_path_source up segs) (path_source segs).
Proof.
  unfold path_source, format_path_source. destruct segs as [|head rest]; [by apply (reads_input constants fuel "")|].
  destruct (_ || _); [by apply reads_input|]. destruct (head =? "ctx"); [by apply reads_ctx|].
  destruct (head =? "target"); [by apply reads_target|by apply reads_input].
Qed.

Lemma format_len e : 0 < str_len (format_source_expr up e).
Proof.
  destruct e as [p|s|n|b|l| |f args]; cbn [format_source_expr]; try (cbn; lia).
  - unfold format_path_source. repeat case_match; cbn; lia.
  - case_match; cbn; lia.
Qed.

Lemma source_reads e : clean e = true -> text_reads constants (format_source_expr up e) (source_of e).
Proof.
  induction e as [p|s|n|b|l| |f args IH] using Expr_ind'; intros Hc fuel Hf;
    (destruct fuel as [|fuel]; [exfalso; match type of Hf with str_len (format_source_expr up ?e) <= 0 => pose proof (format_len e); lia end|]).
  - cbn [format_source_expr source_of clean] in *. by apply path_reads.
  - apply reads_const, const_text. exact Hc.
  - apply reads_const, const_int. exact Hc.
  - apply reads_const, const_bool.
  - cbn [format_source_expr source_of clean] in *. unfold enum_constant in *.
    destruct (_ =? "") eqn:E; [by apply reads_const, const_text|].
    rewrite <-(sapp_assoc (match type_name l with Some q => pascal (qn_name q) | None => "" end)). by apply reads_const, const_name.
  - exact (reads_const constants fuel "nil" Nil (const_nil constants)).
  - cbn [format_source_expr source_of clean] in *. apply andb_true_iff in Hc as [Hn Ha].
    refine (fn_reads constants (format_source_expr up) source_of _ args Hn _ _ Hf).
    clear Hf Hn. induction args as [|a args IHa]; [constructor|]. cbn [forallb] in Ha. apply andb_true_iff in Ha as [Ha1 Ha2].
    inversion IH; subst. constructor; [exact (H1 Ha1)|by apply IHa].
Qed.

(** * Filters, orders and keys *)

Section Resource.
Variable feature : Feature.
Variable resource : option Resource.

(** The table an owner is looked up in: the column refers to a resource other
    than [User], and is compared with the acting user. *)
Definition owned_table (column : string) (rhs : Expr) : option string :=
  resource ← resource;
  field ← List.find (fun f => fd_name f =? column) (fields resource);
  match type_ref field with
  | UserDefined q =>
    if qn_name q =? "User" then None
    else match rhs with
    | EPath {| segments := "ctx" :: rest |} => if join "." rest =? "actor.user_id" then Some (pascal_to_snake (qn_name q)) else None
    | _ => None
    end
  | _ => None
  end.
Definition value_source (column : string) (rhs : Expr) : Source :=
  match owned_table column rhs with Some t => FromCtxOwnedVia t "user" "actor.user_id" | None => source_of rhs end.

(** The rule of a filter; none for what is not an equality with a column. *)
Definition filter_column (f : QueryLowering.Filter) : option (string * Expr) :=
  match QueryLowering.predicate f with
  | Comparison lhs Eq_ rhs =>
    match column_from_expr lhs feature resource, column_from_expr rhs feature resource with
    | Some c, _ => Some (c, rhs)
    | None, Some c => Some (c, lhs)
    | None, None => None
    end
  | _ => None
  end.
Definition filter_means (f : QueryLowering.Filter) : option (string * Source) :=
  '(c, value) ← filter_column f;
  Some (c, match QueryLowering.when_ f with Some param => FromInput (input_source_path up [param]) | None => value_source c value end).

Definition filter_clean (f : QueryLowering.Filter) : bool :=
  match filter_column f with
  | None => true
  | Some (c, value) =>
    one_line c &&
    match QueryLowering.when_ f with
    | Some param => bare_text (input_source_path up [param])
    | None => match owned_table c value with Some t => bare_text t | None => clean value end
    end
  end.

Lemma owned_via_means c value : owned_via_source c value resource =
  (fun t => "lazuli.FromCtxOwnedVia(" +:+ quoted t +:+ ", " +:+ quoted "user" +:+ ", " +:+ quoted "actor.user_id" +:+ ")") <$> owned_table c value.
Proof.
  unfold owned_via_source, owned_table. destruct resource as [r|]; [|done]. cbn [mbind option_bind].
  destruct (List.find _ (fields r)) as [f|]; [|done]. cbn [mbind option_bind]. destruct (type_ref f); try done.
  destruct (_ =? "User"); [done|]. destruct value as [[segs]|s|n|b|l| |g args]; try done.
  destruct segs as [|h rest]; [done|]. repeat case_match; try done.
  match goal with H : (_ =? "actor.user_id") = true |- _ => apply String.eqb_eq in H; by rewrite H end.
Qed.

Lemma filter_rule_means f : filter_clean f = true ->
  match filter_rule up f feature resource, filter_means f with
  | Ok (c, text), Some (c', src) => c = c' /\ one_line c = true /\ text_reads constants text src
  | Err message, None => one_line message = true
  | _, _ => False
  end.
Proof.
  unfold filter_clean, filter_means, filter_rule, filter_column. destruct (QueryLowering.predicate f) as [l o r| | |]; try done.
  destruct o; try done.
  set (lc := column_from_expr l feature resource). set (rc := column_from_expr r feature resource).
  assert (H : forall c value, one_line c &&
      match QueryLowering.when_ f with
      | Some param => bare_text (input_source_path up [param])
      | None => match owned_table c value with Some t => bare_text t | None => clean value end
      end = true ->
    match
      match QueryLowering.when_ f with
      | None => match owned_via_source c value resource with Some owned_via => Ok (c, owned_via) | None => Ok (c, format_source_expr up value) end
      | Some param => Ok (c, "lazuli.FromInput(" +:+ quoted (input_source_path up [param]) +:+ ")")
      end : result string (string * string)
    with
    | Ok (c', text) => c' = c /\ one_line c' = true /\
        text_reads constants text (match QueryLowering.when_ f with Some param => FromInput (input_source_path up [param]) | None => value_source c value end)
    | Err _ => False
    end).
  { intros c value [Hc Hv]%andb_true_iff. destruct (QueryLowering.when_ f) as [param|].
    - split; [done|]. split; [done|]. intros [|fuel] Hf; [cbn in Hf; lia|]. by apply reads_input.
    - rewrite owned_via_means. unfold value_source. destruct (owned_table c value) as [t|]; cbn [fmap option_fmap option_map].
      + split; [done|]. split; [done|]. intros [|fuel] Hf; [cbn in Hf; lia|]. by apply reads_owned.
      + split; [done|]. split; [done|]. intros fuel Hf. by apply source_reads. }
  destruct lc as [c|]; [|destruct rc as [c|]; [|done]]; intros Hcl; specialize (H _ _ Hcl);
    destruct (match QueryLowering.when_ f with Some _ => _ | None => _ end) as [[c' text]|]; try done; by destruct H as (-> & ? & ?).
Qed.

Definition owner_clean (owner : option OwnerScopeSql) : bool :=
  match owner with
  | Some o => one_line (os_field_name o) && bare_text (pascal_to_snake (os_fk_target o)) && bare_text (os_through_column o)
  | None => true
  end.
Definition owner_means (o : OwnerScopeSql) : string * Source :=
  (os_field_name o, FromCtxOwnedVia (pascal_to_snake (os_fk_target o)) (os_through_column o) "user.id").

Lemma owner_reads o : owner_clean (Some o) = true -> (owner_scope_filter_entry o).1 = (owner_means o).1 /\
  text_reads constants (owner_scope_filter_entry o).2 (owner_means o).2.
Proof.
  cbn [owner_clean]. intros [[_ Ht]%andb_true_iff Hc]%andb_true_iff. split; [done|]. unfold owner_scope_filter_entry. cbn [snd].
  rewrite !escape_bare by done. intros [|fuel] Hf; [cbn in Hf; lia|]. by apply reads_owned.
Qed.

Lemma rule_says level c text src : one_line c = true -> text_reads constants text src ->
  says (read_entry constants "When") level (rule_line (S level) (c, text)) (Some (c, src)).
Proof. intros Hc Ht. apply says_entry; [done|]. by apply (entry_reads constants "When"). Qed.

Lemma filters_said level filters : forallb filter_clean filters = true ->
  Forall2 (says (read_entry constants "When") level)
    (List.map (fun f => match filter_rule up f feature resource with
                        | Ok cs => rule_line (S level) cs
                        | Err message => todo_line (S level) message
                        end) filters)
    (List.map filter_means filters).
Proof.
  induction filters as [|f filters IH]; [constructor|]. cbn [forallb]. intros [Hf Hfs]%andb_true_iff. constructor; [|by apply IH].
  pose proof (filter_rule_means f Hf) as H. destruct (filter_rule up f feature resource) as [[c text]|message], (filter_means f) as [[c' src]|]; try done.
  - destruct H as (<- & Hc & Ht). by apply rule_says.
  - unfold todo_line. exact (says_comment _ level (" TODO(ir): " +:+ message)).
Qed.

Lemma filters_reads level filters owner : forallb filter_clean filters = true -> owner_clean owner = true ->
  read_field (read_entry constants "When") "Filters: []lazuli.FilterRule{" level (emit_filters up level feature resource filters owner) =
  Some (omap filter_means filters ++ match owner with Some o => [owner_means o] | None => [] end)%list.
Proof.
  intros Hf Ho. unfold emit_filters. pose proof (filters_said level filters Hf) as Hs.
  destruct owner as [o|]; cbn [fmap option_fmap option_map].
  - pose proof (owner_reads o Ho) as [E Hr]. pose proof Ho as Hc. cbn [owner_clean] in Hc. apply andb_true_iff in Hc as [[Hc _]%andb_true_iff _].
    rewrite (field_reads_eq _ _ level [] (List.map (fun f => match filter_rule up f feature resource with
          | Ok cs => rule_line (S level) cs | Err message => todo_line (S level) message end) filters ++
        [tabs (S level) "// owner-scope: synth from @owner_axis (cell O2 + codegen-os projection)"; rule_line (S level) (owner_scope_filter_entry o)])
      _ (List.map filter_means filters ++ [None; Some (owner_means o)])); [|by destruct filters; cbn [app]; rewrite <-?app_assoc|done|constructor|].
    + by rewrite omap_app, omap_id_map.
    + apply Forall2_app; [done|]. constructor; [exact (says_comment _ level " owner-scope: synth from @owner_axis (cell O2 + codegen-os projection)")|].
      constructor; [|constructor]. destruct (owner_scope_filter_entry o) as [c text]. cbn in E. subst c. by apply (rule_says level (os_field_name o)).
  - destruct filters as [|f filters]; [done|].
    etransitivity; [eapply (field_reads_eq _ _ level [] _ _ (List.map filter_means (f :: filters))); [reflexivity|done|constructor|exact Hs]|].
    by rewrite omap_id_map, app_nil_r.
Qed.

(** ** Orders *)

Definition order_means (o : OrderBy) : string * bool :=
  (normalize_resource_column feature resource (column_from_segments [o_field o]), match o_direction o with Desc_ => true | Asc => false end).

Lemma order_reads level order : forallb (fun o => one_line (order_means o).1) order = true ->
  read_field read_order_entry "Order: []lazuli.OrderClause{" level (emit_order level feature resource order) = Some (List.map order_means order).
Proof.
  intros H. destruct order as [|o order]; [done|]. unfold emit_order.
  etransitivity; [eapply (field_reads_eq _ _ level [] _ _ (List.map Some (List.map order_means (o :: order)))); [reflexivity|done|constructor|]|by rewrite omap_id_some].
  revert H. generalize (o :: order). clear. induction l as [|x l IH]; [constructor|]. cbn [forallb]. intros [Hx Hl]%andb_true_iff.
  constructor; [|by apply IH]. apply says_entry; [done|]. unfold read_order_entry. sql_lit. rewrite go_lit_escaped by done.
  cbn [mbind option_bind]. unfold order_means. by destruct (o_direction x).
Qed.

(** ** Keys *)

Definition key_means (key : KeyClause) : string * Source :=
  (normalize_resource_column feature resource (column_from_segments (segments (k_path key))), source_of (k_equals key)).
Definition key_clean (key : KeyClause) : bool := one_line (key_means key).1 && clean (k_equals key).
Definition entries_mean (keys : list KeyClause) (filters : list QueryLowering.Filter) (owner : option OwnerScopeSql) : list (string * Source) :=
  let entries := (List.map key_means keys ++ omap filter_means filters)%list in
  match owner with
  | None => entries
  | Some o => if existsb (fun e => fst e =? os_field_name o) entries then entries else (entries ++ [owner_means o])%list
  end.

Definition entry_means (e : string * string) (m : string * Source) : Prop := e.1 = m.1 /\ one_line e.1 = true /\ text_reads constants e.2 m.2.

Lemma lookup_entries_mean keys filters owner : forallb key_clean keys = true -> forallb filter_clean filters = true -> owner_clean owner = true ->
  Forall2 entry_means (lookup_entries up feature resource keys filters owner) (entries_mean keys filters owner).
Proof.
  intros Hk Hf Ho. unfold lookup_entries, entries_mean.
  assert (H : Forall2 entry_means
    (List.map (fun key => (normalize_resource_column feature resource (column_from_segments (segments (k_path key))), format_source_expr up (k_equals key))) keys ++
     omap (fun f => match filter_rule up f feature resource with Ok cs => Some cs | Err _ => None end) filters)%list
    (List.map key_means keys ++ omap filter_means filters)%list).
  { apply Forall2_app.
    - clear -Hk. induction keys as [|k keys IH]; [constructor|]. cbn [forallb] in Hk. apply andb_true_iff in Hk as [[Hc Hs]%andb_true_iff Hks].
      constructor; [|by apply IH]. split; [done|]. split; [done|]. intros fuel Hl. by apply source_reads.
    - clear -Hf. induction filters as [|f filters IH]; [constructor|]. cbn [forallb] in Hf. apply andb_true_iff in Hf as [Hf Hfs].
      pose proof (filter_rule_means f Hf) as H. cbn. destruct (filter_rule up f feature resource) as [[c text]|message], (filter_means f) as [[c' src]|]; try done.
      + constructor; [|by apply IH]. by destruct H as (-> & ? & ?).
      + by apply IH. }
  destruct owner as [o|]; [|done]. cbv zeta. change ((owner_scope_filter_entry o).1) with (os_field_name o).
  assert (E : existsb (fun e => fst e =? os_field_name o)
      (List.map (fun key => (normalize_resource_column feature resource (column_from_segments (segments (k_path key))), format_source_expr up (k_equals key))) keys ++
       omap (fun f => match filter_rule up f feature resource with Ok cs => Some cs | Err _ => None end) filters)%list =
    existsb (fun e => fst e =? os_field_name o) (List.map key_means keys ++ omap filter_means filters)%list).
  { clear -H. induction H as [|e m es ms [E _] _ IH]; [done|]. cbn. by rewrite E, IH. }
  rewrite E. clear E. match goal with |- Forall2 _ (if ?b then _ else _) _ => destruct b end; [exact H|]. apply Forall2_app; [exact H|]. constructor; [|constructor].
  destruct (owner_reads o Ho) as [E1 E2]. split; [done|]. split; [|done]. cbn [owner_clean] in Ho. by apply andb_true_iff in Ho as [[Ho _]%andb_true_iff _].
Qed.

Lemma lookup_by_reads level keys filters owner : forallb key_clean keys = true -> forallb filter_clean filters = true -> owner_clean owner = true ->
  read_field (read_entry constants "Source") "LookupBy: []lazuli.LookupKey{" level
    (emit_lookup_by_with_filters up level feature resource keys filters owner) = Some (entries_mean keys filters owner).
Proof.
  intros Hk Hf Ho. pose proof (lookup_entries_mean keys filters owner Hk Hf Ho) as He. unfold emit_lookup_by_with_filters.
  assert (Ht : Forall (fun line => exists s, line = tabs level ("//" +:+ s))
    (omap (fun f => match filter_rule up f feature resource with Ok _ => None | Err message => Some (todo_line level message) end) filters)).
  { clear. induction filters as [|f filters IH]; cbn; [constructor|]. destruct (filter_rule up f feature resource) as [|message]; [done|].
    constructor; [|done]. by exists (" TODO(ir): " +:+ message). }
  set (M := entries_mean keys filters owner) in *. clearbody M.
  destruct (lookup_entries up feature resource keys filters owner) as [|e es]; inversion He as [|e' m es' ms Hem Hes]; subst.
  - by apply field_absent.
  - etransitivity; [eapply (field_reads_eq _ _ level _ _ _ (List.map Some (m :: ms))); [reflexivity|done|exact Ht|]|by rewrite omap_id_some].
    revert He. generalize (e :: es), (m :: ms). clear. induction 1 as [|[c text] [c' src] l k (E & Hc & Hr) _ IH]; [constructor|].
    cbn in E. subst c'. constructor; [|done]. apply says_entry; [done|]. by apply (entry_reads constants "Source").
Qed.
End Resource.

(** * Arguments *)

(** The args struct of a query, with the value of each argument. *)
Definition arg_struct (args : list (string * Value)) : Value := Struct (List.map (fun xv => ((pascal xv.1, xv.1), xv.2)) args).
(** Nothing behind a pointer to nothing. *)
Definition deref (v : Value) : Value := match v with Ptr None => Nil | Ptr (Some v) => v | v => v end.
Definition arg_value (args : list (string * Value)) (x : string) : option Value := snd <$> List.find (fun xv => xv.1 =? x) args.
Definition args_ok (args : list (string * Value)) : Prop :=
  NoDup (List.map (fun xv => pascal xv.1) args) /\ Forall (fun xv => ident xv.1 = true) args.

Lemma pascal_chars s : str_all ident_char s = true -> str_all ident_char (pascal s) = true.
Proof.
  intros H. assert (Ha : Helpers.is_ascii s = true) by (eapply str_all_impl; [|exact H]; intros b; by_bytes b).
  rewrite <-pascal_agrees_spec by done. unfold pascalCase.
  pose proof (split_go_all ident_char None "" s eq_refl H) as Hw. fold (split_words s) in Hw.
  apply Expr.str_all_join; [done|]. apply List.Forall_map. eapply List.Forall_impl; [|exact Hw].
  intros [|b w]; [done|]. intros Hbw. cbn [str_all] in Hbw. apply andb_true_iff in Hbw as [Hb Hr]. destruct (is_acronym (String b w)).
  - clear -Hb Hr. assert (U : forall b, ident_char b = true -> ident_char (to_ascii_uppercase b) = true) by (clear; intros b; by_bytes b).
    cbn. rewrite (U b Hb). cbn. clear Hb. induction w as [|c w IH]; [done|]. cbn in Hr |- *. apply andb_true_iff in Hr as [Hc Hr]. by rewrite (U c Hc), IH.
  - unfold raise_byte. replace (code b <? 128)%N with true by (symmetry; revert Hb; by_bytes b). cbn. rewrite Hr.
    revert Hb. by_bytes b.
Qed.

Lemma ident_chars_bare s : str_all ident_char s = true -> bare_text s = true.
Proof. apply str_all_impl. intros b. by_bytes b. Qed.

Lemma field_value args x v : args_ok args -> arg_value args x = Some v -> readPath (arg_struct args) (pascal x) = Ok (deref v).
Proof.
  intros [Hn Hi] Hv. unfold arg_value in Hv. destruct (List.find _ args) as [[y w]|] eqn:E; [|done]. injection Hv as ->.
  apply List.find_some in E as [Hin Hy]. cbn [fst] in Hy. apply String.eqb_eq in Hy as ->.
  assert (Hx : ident x = true) by (rewrite List.Forall_forall in Hi; by apply (Hi _ Hin)).
  unfold readPath, arg_struct. rewrite split_char_none.
  2: { eapply str_all_impl; [|apply pascal_chars; by apply Expr.ident_chars]. intros b. by_bytes b. }
  cbn [walk_path]. unfold resolveField.
  assert (Hf : List.find (fun f => f.1.1 =? pascal x) (List.map (fun xv => ((pascal xv.1, xv.1), xv.2)) args) = Some ((pascal x, x), v)).
  { clear Hi. induction args as [|[y w] args IH]; [done|]. cbn [List.map List.find fst snd]. apply NoDup_cons in Hn as [Hy Hn].
    destruct Hin as [[= -> ->]|Hin]; [by rewrite String.eqb_refl|].
    destruct (String.eqb_spec (pascal y) (pascal x)) as [Ep|_]; [|by apply IH]. exfalso. apply Hy. cbn [fst]. rewrite Ep.
    apply list_elem_of_In, in_map_iff. by exists (x, v). }
  rewrite Hf. cbn. by destruct v as [| | | | |[]| |].
Qed.

(** * Filters of a list *)

Section List_.
Variable host : Host.
Variable ctx : Ctx.
Variable args : list (string * Value).
Variable feature : Feature.
Variable resource : Resource.

(** The value of the right-hand side of a filter: a literal, an argument, or what
    the context holds. *)
Definition rhs_value (e : Expr) : option (go Value) :=
  match e with
  | EString s => Some (Ok (SqlRows.Text s))
  | EInteger n => Some (Ok (Int n))
  | EBoolean b => Some (Ok (Bool b))
  | ENil => Some (Ok Nil)
  | EEnum {| type_name := None; variant := v |} => Some (Ok (SqlRows.Text v))
  | EPath {| segments := [head; x] |} =>
    if (head =? "params") || (head =? "input") || (head =? "route") then (fun v => Ok (deref v)) <$> arg_value args x
    else if head =? "ctx" then Some (readCtx ctx x) else None
  | EPath {| segments := head :: rest |} => if head =? "ctx" then Some (readCtx ctx (join "." rest)) else None
  | _ => None
  end.

Definition column_of (p : Path) : string := normalize_resource_column feature (Some resource) (column_from_segments (segments p)).

(** The right-hand side is an argument of the query. *)
Definition is_argument (e : Expr) : bool :=
  match e with EPath {| segments := [head; _] |} => (head =? "params") || (head =? "input") || (head =? "route") | _ => false end.

(** Whether a row is as the line [p == e] asks: its column is equal to the value,
    or refers to a row of the owner table that holds the actor. An argument left
    out asks nothing; nothing else is equal to no value. *)
Definition line_says (db : Db) (row : Row) (p : Path) (e : Expr) : bool :=
  match owned_table (Some resource) (column_of p) e with
  | Some t =>
    match readCtx ctx "actor.user_id" with
    | Ok actor =>
      existsb (fun r => bool_decide (sql_eq (cell r "user") actor = Some true) && bool_decide (sql_eq (cell row (column_of p)) (cell r "id") = Some true))
        (from_option rows [] (db !! t))
    | Err _ => false
    end
  | None =>
    match rhs_value e with
    | Some (Ok Nil) => is_argument e
    | Some (Ok v) => bool_decide (sql_eq (cell row (column_of p)) v = Some true)
    | _ => false
    end
  end.
(** Lines with another operator ask nothing. *)
Definition line_asks (db : Db) (row : Row) (l : (Path * CompareOp) * Expr) : bool :=
  match l.1.2 with Eq_ => line_says db row l.1.1 l.2 | _ => true end.

(** A filter line an author can write, with a value in this request. *)
Definition line_text (l : (Path * CompareOp) * Expr) : option string :=
  let '((p, op), e) := l in
  x ← lhs_text p; t ← rhs_text e; Some (x +:+ " " +:+ op_token op +:+ " " +:+ t).
Definition line_ok (l : (Path * CompareOp) * Expr) : bool :=
  negb (is_source_path (segments l.1.1)) && match rhs_value l.2 with Some _ => true | None => false end && clean l.2 &&
  match owned_table (Some resource) (column_of l.1.1) l.2 with Some t => bare_text t | None => true end.

Definition filter_of (l : (Path * CompareOp) * Expr) : QueryLowering.Filter :=
  {| QueryLowering.predicate := Comparison (EPath l.1.1) l.1.2 l.2; QueryLowering.when_ := None |}.

Lemma lines_lower ls texts : mapM line_text ls = Some texts -> QueryLowering.lower_query_filter_lines texts = Some (List.map filter_of ls).
Proof.
  revert texts. induction ls as [|[[p op] e] ls IH]; intros texts H; [by injection H as <-|].
  change (mapM line_text (((p, op), e) :: ls)) with (y ← line_text ((p, op), e); ys ← mapM line_text ls; Some (y :: ys)) in H.
  destruct (line_text _) as [text|] eqn:El; [|done]. destruct (mapM line_text ls) as [ts|]; [|done]. injection H as <-.
  cbn [line_text] in El. destruct (lhs_text p) as [x|] eqn:Ex; [|done]. destruct (rhs_text e) as [t|] eqn:Et; [|done]. apply Some_inj in El as <-.
  cbn [QueryLowering.lower_query_filter_lines]. rewrite (QueryLowering.filter_line_spec p op e x t Ex Et). cbn [mbind option_bind].
  rewrite (IH ts eq_refl). done.
Qed.

Lemma value_resolves e v : args_ok args -> rhs_value e = Some v -> resolveSource host ctx (arg_struct args) (source_of e) = v.
Proof.
  intros Ha H. destruct e as [[segs]|s|n|b|[[q|] vr]| |f l]; cbn [rhs_value] in H; try (by injection H as <-); try done.
  cbn [source_of segments]. destruct segs as [|head [|x [|y rest]]]; cbn [path_source]; try done.
  - destruct (head =? "ctx") eqn:E; [|done]. apply String.eqb_eq in E as ->. injection H as <-. done.
  - destruct (_ || _) eqn:E.
    + destruct (arg_value args x) as [w|] eqn:Ew; [|done]. injection H as <-. cbn [resolveSource]. unfold input_source_path. cbn [List.map join].
      by apply field_value.
    + destruct (head =? "ctx"); [|done]. injection H as <-. done.
  - destruct (head =? "ctx") eqn:E; [|done]. apply String.eqb_eq in E as ->. injection H as <-. done.
Qed.

Lemma lower_chars s : str_all ident_char s = true -> str_all ident_char (lower_ascii s) = true.
Proof.
  assert (U : forall b, ident_char b = true -> ident_char (to_ascii_lowercase b) = true) by (intros b; by_bytes b).
  induction s as [|b s IH]; [done|]. cbn. intros [Hb Hs]%andb_true_iff. by rewrite (U b Hb), IH.
Qed.
Lemma column_chars segs : Forall (fun s => ident s = true) segs -> str_all ident_char (column_from_segments segs) = true.
Proof.
  intros H. assert (Hl : Forall (fun s => str_all ident_char s = true) (List.map lower_ascii segs)).
  { apply List.Forall_map. eapply List.Forall_impl; [|exact H]. intros s [Hs _]%Expr.ident_chars. by apply lower_chars. }
  assert (Hj : forall l, Forall (fun s => str_all ident_char s = true) (List.map lower_ascii l) ->
    str_all ident_char (match l with
      | [] => ""
      | [one] => lower_ascii one
      | [head; tail] => if tail =? "id" then lower_ascii head +:+ "_id" else join "_" (List.map lower_ascii l)
      | many => join "_" (List.map lower_ascii many)
      end) = true).
  { intros l Hl'. assert (J : str_all ident_char (join "_" (List.map lower_ascii l)) = true) by (by apply Expr.str_all_join).
    destruct l as [|a [|b [|c l]]]; [done|by apply List.Forall_inv in Hl'| |exact J]. destruct (b =? "id"); [|exact J].
    apply List.Forall_inv in Hl'. by rewrite str_all_app, Hl'. }
  unfold column_from_segments.
  destruct segs as [|h rest]; [done|]. pose proof (Hj (h :: rest) Hl) as H1. cbn [List.map] in Hl.
  apply List.Forall_inv_tail in Hl. pose proof (Hj rest Hl) as H2.
  assert (Es : match h with "self" => rest | _ => h :: rest end = rest \/ match h with "self" => rest | _ => h :: rest end = h :: rest)
    by (repeat case_match; auto).
  by destruct Es as [-> | ->].
Qed.
Lemma normalize_chars c : str_all ident_char c = true -> str_all ident_char (normalize_resource_column feature (Some resource) c) = true.
Proof.
  intros H. cbn [normalize_resource_column]. destruct (resource_has_column _ _ _); [done|]. destruct (strip_suffix "_id" c) as [stem|] eqn:E.
  - apply strip_suffix_Some in E. rewrite E, str_all_app in H. apply andb_true_iff in H as [H ?]. destruct (existsb _ _); [done|].
    by rewrite E, str_all_app, H.
  - destruct (_ && _); [|done]. by rewrite str_all_app, H.
Qed.

Lemma column_of_clean p x : lhs_text p = Some x -> one_line (column_of p) = true.
Proof.
  unfold lhs_text, column_of. intros H. destruct (forallb ident (segments p) && _) eqn:E; [|done]. apply andb_true_iff in E as [E _].
  apply bare_one_line, ident_chars_bare, normalize_chars, column_chars. by apply Expr.path_text in E as [E _].
Qed.

Lemma filter_column_of p e x : is_source_path (segments p) = false -> lhs_text p = Some x ->
  filter_column feature (Some resource) (filter_of ((p, Eq_), e)) = Some (column_of p, e).
Proof. intros Hs _. unfold filter_column, filter_of. cbn [QueryLowering.predicate fst snd column_from_expr]. by rewrite Hs. Qed.

Lemma line_clean l text : line_text l = Some text -> line_ok l = true -> filter_clean feature (Some resource) (filter_of l) = true.
Proof.
  destruct l as [[p op] e]. cbn [line_text line_ok fst snd]. intros Ht Hok. unfold line_ok in Hok. cbn [fst snd] in Hok.
  rewrite !andb_true_iff, negb_true_iff in Hok. destruct Hok as [[[Hs Hv] Hc] Ho].
  destruct (lhs_text p) as [x|] eqn:Ex; [|done]. unfold filter_clean. destruct op; try done.
  rewrite (filter_column_of p e x Hs Ex), (column_of_clean p x Ex). cbn [QueryLowering.when_ filter_of andb].
  by destruct (owned_table (Some resource) (column_of p) e).
Qed.

(** The line has a value in this request that is not the zero of its type (nor
    nothing): its right-hand side, or the actor whose rows it asks for; or its
    right-hand side is an argument left out. *)
Definition line_valued (l : (Path * CompareOp) * Expr) : Prop :=
  match owned_table (Some resource) (column_of l.1.1) l.2 with
  | Some t => str_all SqlRows.ident_char t = true /\ exists actor, readCtx ctx "actor.user_id" = Ok actor /\ is_zero actor = false
  | None => exists v, rhs_value l.2 = Some (Ok v) /\ (is_zero v = false \/ v = Nil /\ is_argument l.2 = true)
  end.

Definition rule (cs : string * Source) : FilterRule := {| f_Column := cs.1; When := cs.2 |}.

Lemma line_match db row p e x : args_ok args -> lhs_text p = Some x -> line_ok ((p, Eq_), e) = true -> line_valued ((p, Eq_), e) ->
  filter_match host ctx (arg_struct args) db row (rule (column_of p, value_source (Some resource) (column_of p) e)) = line_says db row p e.
Proof.
  intros Ha Hx Hok Hval. unfold line_ok in Hok. cbn [fst snd] in Hok. rewrite !andb_true_iff, negb_true_iff in Hok. destruct Hok as [[[Hs Hv] Hc] Ho].
  unfold filter_match, rule, line_says, value_source. unfold line_valued in Hval. cbn [f_Column When fst snd] in *.
  destruct (owned_table (Some resource) (column_of p) e) as [t|].
  { destruct Hval as (_ & actor & Hu & Hz). cbn [resolveSource]. rewrite Hu. unfold isNilOrZero. by rewrite Hz. }
  clear Hv. destruct Hval as (v & Ev & Hz). rewrite Ev, (value_resolves e _ Ha Ev).
  assert (Hb : bound_match db row (column_of p) (source_of e) v = bool_decide (sql_eq (cell row (column_of p)) v = Some true)).
  { destruct e as [[[|h segs]]|s|n|b|[[q|] vr]| |f l]; cbn [source_of segments path_source]; try done. repeat case_match; done. }
  unfold isNilOrZero. destruct Hz as [Hz|[-> Hz]]; [|by rewrite Hz]. rewrite Hz, Hb. by destruct v.
Qed.

Lemma lines_match db row ls texts : args_ok args -> mapM line_text ls = Some texts -> forallb line_ok ls = true -> Forall line_valued ls ->
  forallb (filter_match host ctx (arg_struct args) db row) (List.map rule (omap (filter_means feature (Some resource)) (List.map filter_of ls))) =
  forallb (line_asks db row) ls.
Proof.
  intros Ha. revert texts. induction ls as [|[[p op] e] ls IH]; intros texts H Hok Hval; [done|]. inversion_clear Hval as [|?? Hv Hvs].
  change (mapM line_text (((p, op), e) :: ls)) with (y ← line_text ((p, op), e); ys ← mapM line_text ls; Some (y :: ys)) in H.
  destruct (line_text _) as [text|] eqn:El; [|done]. destruct (mapM line_text ls) as [ts|] eqn:Els; [|done].
  cbn [forallb] in Hok. apply andb_true_iff in Hok as [Hl Hls]. specialize (IH ts eq_refl Hls Hvs).
  assert (Hx : exists x, lhs_text p = Some x) by (cbn in El; destruct (lhs_text p); [by eexists|done]). destruct Hx as [x Hx].
  cbn [List.map omap list_omap forallb line_asks fst snd]. unfold line_asks at 1. cbn [fst snd].
  destruct op; try (unfold filter_means, filter_column; cbn [filter_of QueryLowering.predicate fst snd mbind option_bind]; exact IH).
  pose proof Hl as Hl'. unfold line_ok in Hl'. cbn [fst snd] in Hl'. rewrite !andb_true_iff, negb_true_iff in Hl'. destruct Hl' as [[[Hs _] _] _].
  unfold filter_means at 1. rewrite (filter_column_of p e x Hs Hx). cbn [mbind option_bind filter_of QueryLowering.when_ List.map forallb].
  by rewrite (line_match db row p e x Ha Hx Hl Hv), IH.
Qed.

(** Such a line gets its condition. *)
Lemma line_builds l text : args_ok args -> line_text l = Some text -> line_ok l = true -> line_valued l ->
  match filter_means feature (Some resource) (filter_of l) with
  | Some cs => (exists v, resolveSource host ctx (arg_struct args) cs.2 = Ok v) /\ condition_plain cs.1 cs.2
  | None => True
  end.
Proof.
  intros Ha Ht Hok Hv. destruct l as [[p op] e]. unfold line_valued in Hv. cbn [line_text fst snd] in *. unfold line_ok in Hok. cbn [fst snd] in Hok.
  rewrite !andb_true_iff, negb_true_iff in Hok. destruct Hok as [[[Hs _] _] _].
  destruct (lhs_text p) as [x|] eqn:Ex; [|done]. destruct op; try done. unfold filter_means. rewrite (filter_column_of p e x Hs Ex).
  cbn [mbind option_bind filter_of QueryLowering.when_ fst snd]. unfold value_source.
  assert (Hc : str_all SqlRows.ident_char (column_of p) = true).
  { unfold lhs_text in Ex. destruct (forallb ident (segments p) && _) eqn:E; [|done]. apply andb_true_iff in E as [E _].
    apply Expr.path_text in E as [E _]. apply (normalize_chars _ (column_chars _ E)). }
  destruct (owned_table (Some resource) (column_of p) e) as [t|] eqn:Et.
  - destruct Hv as [Hi (a & Hu & _)]. split; [by exists a|]. by split.
  - destruct Hv as (v & Ev & _). split; [exists v; by apply value_resolves|].
    split; [done|]. destruct e as [[[|h segs]]|s|n|b|[[q|] vr]| |f l]; cbn [source_of segments path_source]; try done. repeat case_match; done.
Qed.

(** The answer of a list whose filter lines are [ls]. *)
Definition lines_answer (Q : RuntimeSql.Query) (res : ResourceErased) (ls : list ((Path * CompareOp) * Expr)) (db : Db) (out : list Row) : Prop :=
  exists t sorted, db !! snakeCase (Name res) = Some t /\ list_names host ctx (arg_struct args) Q res db t = true /\
    sorted ≡ₚ List.filter (fun row => visible ctx res row && forallb (line_asks db row) ls) (rows t) /\
    StronglySorted (fun a b => order_le (order_keys (Order Q)) a b = true) sorted /\
    out = List.map (project (projection_of host ctx res (row_type Q))) (take (limit_of Q) sorted).

Lemma lines_answer_iff Q res ls texts db out : args_ok args -> mapM line_text ls = Some texts -> forallb line_ok ls = true -> Forall line_valued ls ->
  Filters Q = List.map rule (omap (filter_means feature (Some resource)) (List.map filter_of ls)) -> Search Q = None ->
  list_answer host ctx (arg_struct args) Q res db out <-> lines_answer Q res ls db out.
Proof.
  intros Ha Ht Hok Hv Hf Hs. unfold list_answer, lines_answer.
  assert (E : forall row, wanted host ctx (arg_struct args) Q res db row = visible ctx res row && forallb (line_asks db row) ls).
  { intros row. unfold wanted. rewrite Hf, Hs, (lines_match db row ls texts Ha Ht Hok Hv). cbn [search_rows]. by rewrite andb_true_r. }
  by setoid_rewrite (filter_ext_in _ _ _ E).
Qed.
End List_.
End Codegen.

(** * Compiled lists *)

(** C7: Filter lines written by an author, lowered, emitted as Go, read back and run.
    In a request where the actor, the literals and the arguments given are not
    the zero of their type ([line_valued]; an argument may be left out), the list
    is always given a statement, and its rows are exactly those visible to the
    request that every [==] line asks for - equality with its value, or an owner
    that is the actor - in order, up to the page size. Outside: a line with a zero
    on its right asks nothing of the runtime ([constant_zero_filter_skipped] of
    RuntimeRead), and a line with another operator is lost on the way. *)
Theorem compiled_list_exact up constants host ctx args feature resource ls texts : args_ok up args ->
  mapM line_text ls = Some texts -> forallb (line_ok up constants ctx args feature resource) ls = true ->
  exists filters rules, QueryLowering.lower_query_filter_lines texts = Some filters /\
    read_field (read_entry constants "When") "Filters: []lazuli.FilterRule{" 1 (emit_filters up 1 feature (Some resource) filters None) = Some rules /\
    forall Q res, q_Resource Q = Some res -> Filters Q = List.map rule rules -> Search Q = None ->
    Forall (line_valued ctx args feature resource) ls ->
    (tenant_known ctx res -> names_plain Q res -> exists sql ps, buildListSQL host ctx (arg_struct up args) Q = Ok (sql, ps)) /\
    forall sql ps, buildListSQL host ctx (arg_struct up args) Q = Ok (sql, ps) ->
      forall db now base db' out, executes db now base sql ps db' out <->
        db' = db /\ lines_answer up host ctx args feature resource Q res ls db out.
Proof.
  intros Ha Ht Hok. exists (List.map filter_of ls), (omap (filter_means up constants feature (Some resource)) (List.map filter_of ls)).
  split; [by apply lines_lower|].
  assert (Hlines : Forall (fun l => exists text, line_text l = Some text) ls).
  { clear Hok. revert texts Ht. induction ls as [|l ls IH]; intros texts Ht; [constructor|].
    change (mapM line_text (l :: ls)) with (y ← line_text l; ys ← mapM line_text ls; Some (y :: ys)) in Ht.
    destruct (line_text l) as [text|] eqn:El; [|done]. destruct (mapM line_text ls) as [ts|] eqn:Els; [|done]. constructor; [by eexists|by eapply IH]. }
  rewrite List.forallb_forall in Hok. rewrite List.Forall_forall in Hlines. split.
  { rewrite filters_reads; [by rewrite app_nil_r| |done]. rewrite List.forallb_forall. intros f Hf. apply in_map_iff in Hf as (l & <- & Hl).
    destruct (Hlines l Hl) as [text El]. by apply (line_clean up constants ctx args feature resource l text El (Hok l Hl)). }
  intros Q res Hres Hf Hs Hv. split.
  - intros Hten Hn. apply (list_query_builds host ctx _ Q res); try done. rewrite Hf. apply List.Forall_map, List.Forall_forall.
    intros cs Hcs. apply list_elem_of_In, list_elem_of_omap in Hcs as (f & Hfin & Hcs). apply list_elem_of_In, in_map_iff in Hfin as (l & <- & Hl).
    destruct (Hlines l Hl) as [text El]. rewrite List.Forall_forall in Hv.
    pose proof (line_builds up constants host ctx args feature resource l text Ha El (Hok l Hl) (Hv l Hl)) as H. by rewrite Hcs in H.
  - intros sql ps H db now base db' out. destruct (list_query_spec _ _ _ _ _ _ _ Hres H) as [_ ->].
    by rewrite (lines_answer_iff up constants host ctx args feature resource Q res ls texts db out Ha Ht (proj2 (List.forallb_forall _ _) Hok) Hv Hf Hs).
Qed.

(** * Compiled lookups *)

Section Lookup.
Variable up : string -> string.
Variable constants : string -> option Value.
Variable host : Host.
Variable ctx : Ctx.
Variable args : list (string * Value).
Variable feature : Feature.
Variable resource : Resource.

(** A key an author names: no word a source path starts with. *)
Definition key_name (k : string) : bool := ident k && negb (is_source_path [k]).
Definition key_column (k : string) : string := column_of feature resource {| segments := [k] |}.
Definition clause (k : string) : KeyClause := {| k_path := {| segments := [k] |}; k_equals := EPath {| segments := [k] |} |}.

Definition key_set (k : string) : Prop := exists v, arg_value args k = Some v /\ isNilOrZero (deref v) = false.
Definition key_says (row : Row) (k : string) : bool :=
  match arg_value args k with
  | Some v => bool_decide (sql_eq (cell row (key_column k)) (deref v) = Some true)
  | None => false
  end.

Lemma clause_means k : key_name k = true -> key_means up constants feature (Some resource) (clause k) = (key_column k, FromInput (pascal_case up k)).
Proof.
  unfold key_name, is_source_path, key_means, key_column, column_of, clause. intros [_ H]%andb_true_iff. apply negb_true_iff in H.
  cbn [k_path k_equals segments source_of path_source]. rewrite !orb_false_iff in H. destruct H as [[[[-> ->] ->] ->] ->]. cbn. done.
Qed.

Lemma clause_clean k : key_name k = true -> key_clean up constants feature (Some resource) (clause k) = true.
Proof.
  intros Hk. unfold key_clean. rewrite clause_means by done. cbn [fst]. unfold key_name in Hk. apply andb_true_iff in Hk as [Hi Hs].
  assert (Hc : one_line (key_column k) = true).
  { apply (column_of_clean feature resource {| segments := [k] |} k). unfold lhs_text. cbn [segments forallb join]. rewrite Hi. by destruct k. }
  rewrite Hc. cbn [andb clean k_equals clause segments path_source]. unfold is_source_path in Hs. rewrite negb_true_iff, !orb_false_iff in Hs.
  destruct Hs as [[[[-> ->] ->] ->] ->]. cbn [orb source_path]. unfold input_source_path. cbn [List.map join].
  apply ident_chars_bare, pascal_chars. by apply Expr.ident_chars.
Qed.

(** Every key has an argument. *)
Lemma add_arg_names r slots key : List.In (lookup_arg_name key) (List.map QueryLowering.ts_name (add_lookup_arg r slots key)) /\
  (forall x, List.In x (List.map QueryLowering.ts_name slots) -> List.In x (List.map QueryLowering.ts_name (add_lookup_arg r slots key))).
Proof.
  unfold add_lookup_arg. destruct (existsb _ slots) eqn:E.
  - split; [|done]. apply existsb_exists in E as (s & Hs & Es). apply String.eqb_eq in Es as <-. by apply in_map.
  - rewrite List.map_app. split; [apply in_app_iff; right; by left|]. intros x Hx. apply in_app_iff. by left.
Qed.
Lemma args_of_keys r ks slots k : Forall (fun k => key_name k = true) ks -> List.In k ks \/ List.In k (List.map QueryLowering.ts_name slots) ->
  List.In k (List.map QueryLowering.ts_name (fold_left (add_lookup_arg r) (List.map clause ks) slots)).
Proof.
  intros Hks. revert slots. induction Hks as [|k' ks Hk Hks IH]; intros slots H; [by destruct H|]. cbn [List.map fold_left]. apply IH.
  destruct (add_arg_names r slots (clause k')) as [H1 H2]. destruct H as [[<-|H]|H]; [|by left|right; by apply H2]. right.
  replace (lookup_arg_name (clause k')) with k' in H1; [done|]. unfold lookup_arg_name, clause. cbn [k_equals segments].
  unfold key_name, is_source_path in Hk. rewrite andb_true_iff, negb_true_iff, !orb_false_iff in Hk. by destruct Hk as [_ [[[[-> ->] _] _] ->]].
Qed.

Lemma arg_value_In k : List.In k (List.map fst args) -> exists v, arg_value args k = Some v.
Proof.
  intros H. apply in_map_iff in H as ([x v] & Ex & Hin). cbn in Ex. subst x. unfold arg_value.
  destruct (List.find (fun xv => xv.1 =? k) args) as [[y w]|] eqn:E; [by eexists|]. pose proof (List.find_none _ _ E _ Hin) as Hn. cbn in Hn.
  by rewrite String.eqb_refl in Hn.
Qed.

Definition key_rule (cs : string * Source) : RuntimeSql.LookupKey := {| k_Column := cs.1; k_Source := cs.2 |}.

Lemma key_binding k : args_ok up args -> key_name k = true ->
  forall db row, binding_match host ctx (arg_struct up args) db row (key_column k, FromInput (pascal_case up k)) =
    match arg_value args k with
    | Some v => bool_decide (sql_eq (cell row (key_column k)) (deref v) = Some true)
    | None => binding_match host ctx (arg_struct up args) db row (key_column k, FromInput (pascal_case up k))
    end.
Proof.
  intros Ha Hk db row. destruct (arg_value args k) as [v|] eqn:Ev; [|done]. unfold binding_match. cbn [fst snd resolveSource].
  by rewrite (field_value up args k v Ha Ev).
Qed.

Lemma keys_say ks db row : args_ok up args -> Forall (fun k => key_name k = true) ks -> Forall (fun k => exists v, arg_value args k = Some v) ks ->
  forallb (fun k => binding_match host ctx (arg_struct up args) db row (k_Column k, k_Source k))
    (List.map key_rule (List.map (key_means up constants feature (Some resource)) (List.map clause ks))) = forallb (key_says row) ks.
Proof.
  intros Ha Hks Hv. induction Hks as [|k ks Hk Hks IH]; [done|]. inversion_clear Hv as [|?? [v Hvk] Hvs]. cbn [List.map forallb].
  rewrite clause_means by done. unfold key_rule at 1. cbn [k_Column k_Source fst snd]. rewrite key_binding by done. rewrite IH by done.
  unfold key_says at 2. by rewrite Hvk.
Qed.
End Lookup.

(** C18: A [query.lookup] an author declares by its keys, without filter lines, lowered, emitted as Go, read back and
    run on the arguments the generator gives it: it is given a statement exactly
    when every key is set, and returns one visible row with those keys, or none
    if there is none. *)
Theorem compiled_lookup_exact up constants host ctx args feature resource fname d caches q :
  QueryLowering.lower_query_decl fname (QuerySyntax.DLookup d) caches = Some (Ok (QueryLowering.QLookup q)) ->
  QuerySyntax.lu_filters d = [] -> QuerySyntax.lu_keys d <> [] -> Forall (fun k => key_name (QuerySyntax.lk_name k) = true) (QuerySyntax.lu_keys d) ->
  args_ok up args -> List.map fst args = List.map QueryLowering.ts_name (lookup_args q (Some resource)) ->
  exists keys, read_field (read_entry constants "Source") "LookupBy: []lazuli.LookupKey{" 1
    (emit_lookup_by_with_filters up 1 feature (Some resource) (QueryLowering.u_keys q) (QueryLowering.u_filters q) (QueryLowering.u_owner_scope q)) = Some keys /\
  let names := List.map QuerySyntax.lk_name (QuerySyntax.lu_keys d) in
  forall Q res, q_Resource Q = Some res -> LookupBy Q = List.map key_rule keys ->
  (tenant_known ctx res -> names_plain Q res -> Forall (key_set args) names ->
   exists sql ps, buildLookupSQL host ctx (arg_struct up args) Q = Ok (sql, ps)) /\
  forall sql ps, buildLookupSQL host ctx (arg_struct up args) Q = Ok (sql, ps) ->
    Forall (key_set args) names /\
    forall db now base db' out, executes db now base sql ps db' out <->
      db' = db /\ exists t, db !! snakeCase (Name res) = Some t /\ lookup_names Q res db t = true /\
      let asked := fun row => visible ctx res row && forallb (key_says args feature resource row) names in
      match out with
      | [] => List.filter asked (rows t) = []
      | [r] => exists row, List.In row (rows t) /\ asked row = true /\ r = project (projection_of host ctx res (row_type Q)) row
      | _ => False
      end.
Proof.
  intros Hq Hf Hne Hk Ha Hargs. cbn [QueryLowering.lower_query_decl] in Hq. rewrite Hf in Hq. cbn in Hq.
  injection Hq as <-. cbn [QueryLowering.u_keys QueryLowering.u_filters QueryLowering.u_owner_scope].
  set (ks := List.map QuerySyntax.lk_name (QuerySyntax.lu_keys d)).
  assert (Ek : List.map QueryLowering.key_of (QuerySyntax.lu_keys d) = List.map clause ks) by (unfold ks; by rewrite List.map_map).
  unfold lookup_args in Hargs. cbn [QueryLowering.u_keys QueryLowering.u_params] in Hargs. rewrite Ek in *.
  assert (Hks : Forall (fun k => key_name k = true) ks) by (unfold ks; by apply List.Forall_map).
  assert (Hv : Forall (fun k => exists v, arg_value args k = Some v) ks).
  { apply List.Forall_forall. intros k Hin. apply arg_value_In. rewrite Hargs. apply args_of_keys; [done|by left]. }
  exists (List.map (key_means up constants feature (Some resource)) (List.map clause ks)). split.
  { rewrite lookup_by_reads; [unfold entries_mean; cbn; by rewrite app_nil_r| |done|done]. clear -Hks.
    induction Hks as [|k ks Hk _ IH]; [done|]. cbn [List.map forallb]. by rewrite clause_clean, IH. }
  cbv zeta. intros Q res Hres HQ. split.
  - intros Hten Hn Hset. apply (lookup_query_builds host ctx _ Q res); try done.
    { rewrite HQ. unfold ks. by destruct (QuerySyntax.lu_keys d). }
    rewrite HQ. apply List.Forall_map, List.Forall_map, List.Forall_map, List.Forall_forall. intros k Hin.
    rewrite List.Forall_forall in Hset, Hks. destruct (Hset k Hin) as (v & Hvk & Hz). rewrite clause_means by auto. cbn [key_rule k_Column k_Source fst snd].
    split; [exists (deref v); split; [cbn [resolveSource]; by apply field_value|done]|]. split; [|done].
    specialize (Hks k Hin). unfold key_name in Hks. apply andb_true_iff in Hks as [Hi _]. unfold key_column, column_of.
    apply (normalize_chars feature resource). apply (column_chars [k]). by constructor.
  - intros sql ps H. destruct (lookup_query_spec _ _ _ _ _ _ _ Hres H) as (Hset & _ & He). split.
    + rewrite HQ in Hset. rewrite !List.Forall_map in Hset. apply List.Forall_forall. intros k Hin. rewrite List.Forall_forall in Hset, Hks, Hv.
      destruct (Hset k Hin) as (w & Hw & Hz). destruct (Hv k Hin) as [v Hvk]. rewrite clause_means in Hw by auto.
      cbn [key_rule k_Source snd resolveSource] in Hw. rewrite (field_value up args k v Ha Hvk) in Hw. injection Hw as <-. by exists v.
    + intros db now base db' out. rewrite He. unfold looked_up. rewrite HQ.
      assert (E : forall row, visible ctx res row && forallb (fun k => binding_match host ctx (arg_struct up args) db row (k_Column k, k_Source k))
          (List.map key_rule (List.map (key_means up constants feature (Some resource)) (List.map clause ks))) =
        visible ctx res row && forallb (key_says args feature resource row) ks) by (intros row; by rewrite keys_say).
      split; intros [-> (t & Ht & Hn & Ho)]; (split; [done|]); exists t; (split; [done|]; split; [done|]).
      * destruct out as [|r [|]]; rewrite <-?(filter_ext_in _ _ _ E); [done| |done]. destruct Ho as (row & Hin & Hh & Er). rewrite E in Hh. eauto.
      * destruct out as [|r [|]]; rewrite ?(filter_ext_in _ _ _ E); [done| |done]. destruct Ho as (row & Hin & Hh & Er). rewrite <-E in Hh. eauto.
Qed.

(** * A list and a lookup *)

Definition an_upper (s : string) : string := upper_ascii s.
Definition no_constants (c : string) : option Value := None.
Definition notes_feature : Feature := {|
  f_name := "notes"; defaults := {| df_tenancy := Some Org; df_timestamps := true |}; enums := []; resources := []; records := []; auth := None |}.
Definition note_field (name : string) (t : TypeRef) : Field := {|
  fd_name := name; type_ref := t; required := true; unique := false; fd_default := None; derived_from := None; full_text := false;
  cross_feature_target := None; fd_constraints := default_constraints; owner_axis := None |}.
Definition note_resource : Resource := {|
  r_name := "Note"; tenancy := Some Org; soft_delete := true; soft_delete_actor := false; timestamps := Some true;
  fields := [note_field "title" (Builtin SemanticUrl); note_field "user_id" (Builtin Integer)];
  constraints := []; composite_key := None; polymorphic_refs := []; restrict_on_delete := [] |}.
Definition plain_notes : ResourceErased := {|
  Name := "Note"; Tenancy := TenancyOrg; SoftDelete := true; SoftDeleteActor := false; Timestamps := true; FieldReadPolicies := [] |}.
Definition path (segs : list string) : Path := {| segments := segs |}.
Definition note_lines : list ((Path * CompareOp) * Expr) :=
  [((path ["user_id"], Eq_), EPath (path ["ctx"; "user"; "id"])); ((path ["title"], Eq_), EPath (path ["params"; "title"]))].
Definition note_args : list (string * Value) := [("title", SqlRows.Text "mine")].
Definition asking (f : list FilterRule) (k : list RuntimeSql.LookupKey) : RuntimeSql.Query := {|
  q_Name := "notes"; q_Resource := Some plain_notes; row_type := []; Filters := f; Order := []; Search := None; Paginate := 20; LookupBy := k |}.

Lemma compiled_list_exact_witness : exists filters rules,
  QueryLowering.lower_query_filter_lines ["user_id == ctx.user.id"; "title == params.title"] = Some filters /\
  read_field (read_entry no_constants "When") "Filters: []lazuli.FilterRule{" 1 (emit_filters an_upper 1 notes_feature (Some note_resource) filters None) = Some rules /\
  exists sql ps, buildListSQL a_host a_ctx (arg_struct an_upper note_args) (asking (List.map rule rules) []) = Ok (sql, ps) /\
  forall db now base db' out, executes db now base sql ps db' out <->
    db' = db /\ lines_answer an_upper a_host a_ctx note_args notes_feature note_resource (asking (List.map rule rules) []) plain_notes note_lines db out.
Proof.
  destruct (compiled_list_exact an_upper no_constants a_host a_ctx note_args notes_feature note_resource note_lines
    ["user_id == ctx.user.id"; "title == params.title"]) as (filters & rules & H1 & H2 & H).
  - split; [apply (bool_decide_eq_true_1 _); vm_compute; reflexivity|repeat constructor].
  - vm_compute; reflexivity.
  - vm_compute; reflexivity.
  - exists filters, rules. split; [exact H1|]. split; [exact H2|].
    destruct (H (asking (List.map rule rules) []) plain_notes eq_refl eq_refl eq_refl) as [Hb He].
    { constructor; [exists (Int 7)|constructor; [exists (SqlRows.Text "mine")|constructor]]; (split; [reflexivity|left; reflexivity]). }
    destruct Hb as (sql & ps & Hs).
    + intros _. by exists 1%Z.
    + split; [vm_compute; reflexivity|]. split; constructor.
    + exists sql, ps. split; [exact Hs|]. exact (He sql ps Hs).
Defined.

Definition by_title : QuerySyntax.LookupQueryDecl := {|
  QuerySyntax.lu_name := "by_title"; QuerySyntax.lu_policy := None; QuerySyntax.lu_policy_expr := None;
  QuerySyntax.lu_keys := [{| QuerySyntax.lk_name := "title"; QuerySyntax.lk_type_text := "Text"; QuerySyntax.lk_span := Lex.span_new 0 0 |}];
  QuerySyntax.lu_filters := []; QuerySyntax.lu_span := Lex.span_new 0 0 |}.
Lemma compiled_lookup_exact_witness : exists q keys,
  QueryLowering.lower_query_decl "notes" (QuerySyntax.DLookup by_title) [] = Some (Ok (QueryLowering.QLookup q)) /\
  read_field (read_entry no_constants "Source") "LookupBy: []lazuli.LookupKey{" 1
    (emit_lookup_by_with_filters an_upper 1 notes_feature (Some note_resource) (QueryLowering.u_keys q) (QueryLowering.u_filters q) (QueryLowering.u_owner_scope q)) = Some keys /\
  exists sql ps, buildLookupSQL a_host a_ctx (arg_struct an_upper note_args) (asking [] (List.map key_rule keys)) = Ok (sql, ps) /\
  Forall (key_set note_args) ["title"].
Proof.
  eexists. destruct (compiled_lookup_exact an_upper no_constants a_host a_ctx note_args notes_feature note_resource "notes" by_title [] _ eq_refl)
    as (keys & Hk & H).
  - reflexivity.
  - discriminate.
  - repeat constructor.
  - split; [apply (bool_decide_eq_true_1 _); vm_compute; reflexivity|repeat constructor].
  - reflexivity.
  - exists keys. split; [reflexivity|]. split; [exact Hk|].
    destruct (H (asking [] (List.map key_rule keys)) plain_notes eq_refl eq_refl) as [Hb He].
    destruct Hb as (sql & ps & Hs).
    + intros _. by exists 1%Z.
    + split; [vm_compute; reflexivity|]. split; constructor.
    + constructor; [|constructor]. by exists (SqlRows.Text "mine").
    + exists sql, ps. split; [exact Hs|]. exact (proj1 (He sql ps Hs)).
Defined.
