(* ===== verification/CommandSyntax.v ===== *)
(** The children of a [command] block that describe its input and its effect
    ([lazuli_syntax/src/parser/lzi/command/effect.rs], [slots.rs], [mod.rs],
    [ast/command.rs]).

    Positions in the line list are suffixes of it. *)
From S2P Require Import Prelude Str Fmt Lex FieldConstraints.
From S2P Require LifecycleSyntax Waiver Expr.

(** * Declarations *)

Record AssignmentDecl := { ad_field : string; ad_value : string; ad_span : Span }.
Inductive CommandEffectKindDecl := Creates | Updates | Deletes.
Record CommandEffectDecl := {
  e_kind : CommandEffectKindDecl; e_resource : string; e_from_input : bool; e_assignments : list AssignmentDecl;
  e_where : list AssignmentDecl; e_span : Span
}.
Record CommandEmit := { em_name : string; em_from : option CommandEffectKindDecl; em_fields : list AssignmentDecl; em_span : Span }.
Record LetBindingDecl := { lb_name : string; lb_value : string; lb_span : Span }.
Record TargetExprDecl := { tg_query : string; tg_args : list Waiver.TargetArgDecl; tg_span : Span }.
Inductive CommandRouteSlotKind := Plain | OpaqueToken | SignedToken.
Record CommandRouteSlot := {
  rs_name : string; rs_type_text : string; rs_from : option string; rs_kind : CommandRouteSlotKind; rs_span : Span
}.
Inductive CommandInputDecl := Empty | Short (name : string) | Typed (slots : list CommandInputSlot).
Record CommandReorderDecl := { ro_resource : string; ro_position_field : string; ro_span : Span }.

Abbreviation trimmed := LifecycleSyntax.trimmed.
Definition AGENT_INDENT_AGENT_CHILD : nat := 4.
Definition AGENT_INDENT_GRANDCHILD : nat := 6.
Definition span_of_line (line : SourceLine) : Span := span_new (start line) (end_ line).

(** * One-line children *)

Definition parse_target_expr (line : SourceLine) (rest : string) : presult TargetExprDecl :=
  '(query_part, args_part) ← Waiver.split_call_signature line (trim rest);
  args ← Waiver.parse_named_args line args_part;
  Ok {| tg_query := query_part; tg_args := args; tg_span := span_of_line line |}.

Definition parse_let_binding (line : SourceLine) (rest : string) : presult LetBindingDecl :=
  '(name, value) ← ok_or (split_once "=" (trim rest))
    (line_error line "`let` requires `<name> = <expr>` (e.g. `let resolved = user.query.by_id(id: input.id)`)");
  let name := trim name in
  if name =? "" then Err (line_error line "`let` requires a binding name before `=`")
  else Ok {| lb_name := name; lb_value := trim value; lb_span := span_of_line line |}.

Definition parse_command_reorder (line : SourceLine) (rest : string) : presult CommandReorderDecl :=
  '(resource, by_) ← ok_or (i ← str_find " by " (trim rest); Some (str_take i (trim rest), str_drop (i + 4) (trim rest)))
    (line_error line "`reorder` requires `reorder <Resource> by <position_field>`");
  let resource := trim resource in
  let position_field := trim by_ in
  if resource =? "" then Err (line_error line "`reorder` requires a resource name")
  else if (position_field =? "") || negb (List.length (split_whitespace position_field) =? 1)%nat then
    Err (line_error line "`reorder <Resource> by` requires exactly one position field name")
  else Ok {| ro_resource := resource; ro_position_field := position_field; ro_span := span_of_line line |}.

Definition parse_command_route_slot (line : SourceLine) (rest : string) : presult CommandRouteSlot :=
  let rest := trim rest in
  if rest =? "signed_token" then
    Ok {| rs_name := "signed_token"; rs_type_text := "Text"; rs_from := None; rs_kind := SignedToken; rs_span := span_of_line line |}
  else
    let '(kind, rest) :=
      match strip_prefix "opaque " rest with
      | Some after => (OpaqueToken, trim after)
      | None =>
        match strip_prefix "signed_token:" rest with
        | Some after => (SignedToken, "signed_token:" +:+ after)
        | None => (Plain, rest)
        end
      end in
    '(name, after) ← ok_or (split_once ":" rest) (line_error line "`route` requires `<name>: <Type>` (e.g. `route id: ID`)");
    let name := trim name in
    if name =? "" then Err (line_error line "`route` requires a slot name before `:`") else
    let after := trim after in
    let '(type_text, from) :=
      match str_find " from " after with
      | Some idx => (trim (str_take idx after), Some (trim (str_drop (idx + 6) after)))
      | None => (after, None)
      end in
    if type_text =? "" then Err (line_error line "`route` requires a type after `:` (e.g. `ID`)")
    else Ok {| rs_name := name; rs_type_text := type_text; rs_from := from; rs_kind := kind; rs_span := span_of_line line |}.

(** * Blocks *)

Fixpoint input_lines (slots : list CommandInputSlot) (lines : list SourceLine) : presult (list CommandInputSlot * list SourceLine) :=
  match lines with
  | [] => Ok (slots, [])
  | line :: rest =>
    if is_trivia (trimmed line) then input_lines slots rest
    else if (indent line <=? AGENT_INDENT_AGENT_CHILD)%nat then Ok (slots, lines)
    else if negb (indent line =? AGENT_INDENT_GRANDCHILD)%nat then
      Err (line_error line "`command input` children use six-space indentation")
    else
      '(name_part, type_part) ← ok_or (split_once ":" (trimmed line))
        (line_error line "`command input` slots use `<name>: <Type> [required|optional]`");
      let name := trim name_part in
      if name =? "" then Err (line_error line "`command input` slot requires a name before `:`") else
      '(rest_after, constraints) ← extract_field_constraints line (trim type_part);
      let '(type_text, required, optional) := split_command_input_modifiers rest_after in
      if type_text =? "" then Err (line_error line "`command input` slot requires a type after `:`") else
      input_lines
        (slots ++ [{| sl_name := name; type_text := type_text; sl_required := required; sl_optional := optional;
                      sl_constraints := constraints; sl_span := span_of_line line |}])%list rest
  end.
Definition parse_command_input_block (lines : list SourceLine) : presult (CommandInputDecl * list SourceLine) :=
  '(slots, next) ← input_lines [] lines; Ok (Typed slots, next).

(** A [<field> = <expr>] row; the two messages are those of the caller. *)
Definition assignment (line : SourceLine) (text no_sign no_field : string) : presult AssignmentDecl :=
  '(field, value) ← ok_or (split_once "=" text) (line_error line no_sign);
  let field := trim field in
  if field =? "" then Err (line_error line no_field)
  else Ok {| ad_field := field; ad_value := trim value; ad_span := span_of_line line |}.

(** The children of an effect: the assignments and the [where] rows so far. *)
Fixpoint effect_lines (assignments where_clause : list AssignmentDecl) (lines : list SourceLine)
    : presult ((list AssignmentDecl * list AssignmentDecl) * list SourceLine) :=
  match lines with
  | [] => Ok ((assignments, where_clause), [])
  | line :: rest =>
    if is_trivia (trimmed line) then effect_lines assignments where_clause rest
    else if (indent line <=? AGENT_INDENT_AGENT_CHILD)%nat then Ok ((assignments, where_clause), lines)
    else if negb (indent line =? AGENT_INDENT_GRANDCHILD)%nat then
      Err (line_error line "command effect children use six-space indentation")
    else
      match strip_prefix "where " (trimmed line) with
      | Some where_body =>
        w ← assignment line where_body "`where` clauses use `where <column> = <expr>` (e.g. `where id = ctx.actor.id`)"
              "`where` clause requires a column name before `=`";
        effect_lines assignments (where_clause ++ [w])%list rest
      | None =>
        a ← assignment line (trimmed line) "command effect assignments use `<field> = <expr>`"
              "command effect assignment requires a field name before `=`";
        effect_lines (assignments ++ [a])%list where_clause rest
      end
  end.

Definition parse_command_effect (header : SourceLine) (lines : list SourceLine) (kind : CommandEffectKindDecl) (rest : string)
    : presult (CommandEffectDecl * list SourceLine) :=
  let rest := trim rest in
  let '(resource, from_input) := match strip_suffix " from input" rest with Some res => (trim res, true) | None => (rest, false) end in
  if resource =? "" then Err (line_error header "`creates`/`updates`/`deletes` requires a resource name") else
  '((assignments, where_clause), next) ← effect_lines [] [] lines;
  Ok ({| e_kind := kind; e_resource := resource; e_from_input := from_input; e_assignments := assignments;
         e_where := where_clause; e_span := span_of_line header |}, next).

Fixpoint emit_lines (fields : list AssignmentDecl) (lines : list SourceLine) : presult (list AssignmentDecl * list SourceLine) :=
  match lines with
  | [] => Ok (fields, [])
  | line :: rest =>
    if is_trivia (trimmed line) then emit_lines fields rest
    else if (indent line <=? AGENT_INDENT_AGENT_CHILD)%nat then Ok (fields, lines)
    else if negb (indent line =? AGENT_INDENT_GRANDCHILD)%nat then
      Err (line_error line "`emits` children use six-space indentation")
    else
      a ← assignment line (trimmed line) "`emits` field children use `<field> = <expr>`" "`emits` field child requires a field name before `=`";
      emit_lines (fields ++ [a])%list rest
  end.
Definition parse_command_emit (header : SourceLine) (lines : list SourceLine) (rest : string) : presult (list CommandEmit * list SourceLine) :=
  let rest := trim rest in
  let '(names_part, from) :=
    match strip_suffix " from creates" rest with
    | Some n => (trim n, Some Creates)
    | None =>
      match strip_suffix " from updates" rest with
      | Some n => (trim n, Some Updates)
      | None => match strip_suffix " from deletes" rest with Some n => (trim n, Some Deletes) | None => (rest, None) end
      end
    end in
  if names_part =? "" then Err (line_error header "`emits` requires an event name") else
  match List.filter nonempty (List.map trim (split_char "," names_part)) with
  | [] => Err (line_error header "`emits` requires an event name")
  | names =>
    '(fields, next) ← emit_lines [] lines;
    if (1 <? List.length names)%nat && negb match fields with [] => true | _ => false end then
      Err (line_error header
        "a multi-name `emits` (e.g. `emits a, b`) cannot carry a payload child block — give each event its own `emits` line to bind fields")
    else Ok (List.map (fun name => {| em_name := name; em_from := from; em_fields := fields; em_span := span_of_line header |}) names, next)
  end.

(** * Effect blocks *)

(** The rows of an effect: a [where] (marked) or an assignment. *)
Definition row_text (is_where : bool) (field value : string) : string := (if is_where then "where " else "") +:+ field +:+ " = " +:+ value.
Definition row_ok (field value : string) : bool := Expr.ident field && negb (field =? "where") && edges_ok value.

Lemma assignment_read line field value e1 e2 : row_ok field value = true ->
  assignment line (field +:+ " = " +:+ value) e1 e2 = Ok {| ad_field := field; ad_value := value; ad_span := span_of_line line |}.
Proof.
  unfold row_ok. intros [[Hf _]%andb_true_iff Hv]%andb_true_iff. unfold assignment.
  assert (Hl : lacks "=" (field +:+ " ")).
  { rewrite str_all_app. apply Expr.ident_chars in Hf as [Hc _]. replace (str_all _ field) with true; [done|].
    symmetry. eapply str_all_impl; [|exact Hc]. intros b. by_bytes b. }
  change (field +:+ " = " +:+ value) with (field +:+ " " +:+ String "=" (" " +:+ value)). rewrite <-sapp_assoc, split_once_app by done.
  cbn [ok_or mbind result_bind]. pose proof (Expr.ident_edges _ Hf) as He. rewrite (trim_edges_space field) by done.
  replace (field =? "") with false by (by destruct field). cbn [String.append]. by rewrite (trim_space_edges value).
Qed.

(** A line of an effect block: nothing, or a row. *)
Inductive says : SourceLine -> option (bool * AssignmentDecl) -> Prop :=
| says_trivia line : is_trivia (trimmed line) = true -> says line None
| says_row line (is_where : bool) field value : indent line = AGENT_INDENT_GRANDCHILD -> row_ok field value = true ->
    trimmed line = row_text is_where field value -> says line (Some (is_where, {| ad_field := field; ad_value := value; ad_span := span_of_line line |})).
Definition of_kind (is_where : bool) (rows : list (option (bool * AssignmentDecl))) : list AssignmentDecl :=
  omap (fun r => '(w, a) ← r; if Bool.eqb w is_where then Some a else None) rows.

(** The line the block stops at. *)
Definition ends (tail : list SourceLine) : Prop :=
  match tail with [] => True | line :: _ => is_trivia (trimmed line) = false /\ indent line <= AGENT_INDENT_AGENT_CHILD end.

Lemma row_not_trivia is_where field value : row_ok field value = true -> is_trivia (row_text is_where field value) = false.
Proof.
  unfold row_ok. intros [[Hf _]%andb_true_iff _]%andb_true_iff. destruct is_where; [done|]. destruct field as [|b field]; [done|]. cbn in Hf.
  apply andb_true_iff in Hf as [Hb _]. unfold is_trivia. cbn. revert Hb. by_bytes b.
Qed.

Lemma row_not_where field value : row_ok field value = true -> strip_prefix "where " (row_text false field value) = None.
Proof.
  unfold row_ok. intros [[Hf Hw]%andb_true_iff _]%andb_true_iff. destruct (strip_prefix _ _) as [s|] eqn:E; [|done].
  apply strip_prefix_Some in E. apply Expr.ident_chars in Hf as [Hf _].
  assert (Hl : lacks " " field) by (eapply str_all_impl; [|exact Hf]; intros b; by_bytes b).
  pose proof (split_once_app " " field ("= " +:+ value) Hl) as H1.
  change (field +:+ String " " ("= " +:+ value)) with (row_text false field value) in H1. rewrite E in H1.
  change ("where " +:+ s) with ("where" +:+ String " " s) in H1. rewrite split_once_app in H1 by done.
  apply Some_inj in H1. apply (f_equal fst) in H1. cbn [fst] in H1. by rewrite <-H1 in Hw.
Qed.

Lemma effect_lines_read lines rows tail : Forall2 says lines rows -> ends tail -> forall assignments where_clause,
  effect_lines assignments where_clause (lines ++ tail) =
  Ok ((assignments ++ of_kind false rows, where_clause ++ of_kind true rows)%list, tail).
Proof.
  intros H Ht. induction H as [|line row lines rows Hl _ IH]; intros assignments where_clause; cbn [app].
  - cbn. rewrite !app_nil_r. destruct tail as [|line tail]; [done|]. destruct Ht as [Hn Hi]. cbn [effect_lines]. rewrite Hn.
    apply Nat.leb_le in Hi as ->. done.
  - cbn [effect_lines]. destruct Hl as [line Htr|line w field value Hi Hok Htx].
    + rewrite Htr. apply IH.
    + rewrite Htx, (row_not_trivia w field value Hok), Hi. cbn [Nat.leb AGENT_INDENT_GRANDCHILD AGENT_INDENT_AGENT_CHILD Nat.eqb negb]. destruct w.
      * unfold row_text. rewrite strip_prefix_app. rewrite assignment_read by done. cbn [mbind result_bind]. rewrite IH.
        unfold of_kind. cbn. by rewrite <-app_assoc.
      * rewrite row_not_where by done. change (row_text false field value) with (field +:+ " = " +:+ value). rewrite assignment_read by done. cbn [mbind result_bind]. rewrite IH.
        unfold of_kind. cbn. by rewrite <-app_assoc.
Qed.

(** A resource name an author can write. *)
Definition resource_ok (name : string) : bool := forallb Expr.ident (split_char "." name) && nonempty name.

Lemma effect_roundtrip_spec header kind resource (from_input : bool) lines rows tail : edges_ok resource = true -> strip_suffix " from input" resource = None ->
  Forall2 says lines rows -> ends tail ->
  parse_command_effect header (lines ++ tail) kind (" " +:+ resource +:+ if from_input then " from input" else "") =
  Ok ({| e_kind := kind; e_resource := resource; e_from_input := from_input; e_assignments := of_kind false rows;
         e_where := of_kind true rows; e_span := span_of_line header |}, tail).
Proof.
  intros Hr Hs Hl Ht. unfold parse_command_effect.
  assert (Hne : (resource =? "") = false) by (by destruct resource).
  destruct from_input.
  - assert (He : edges_ok (resource +:+ " from input") = true).
    { exact (edges_ok_mid resource " from " "input" Hr eq_refl). }
    change (" " +:+ resource +:+ " from input") with (String " " (resource +:+ " from input")). rewrite (trim_space_edges (resource +:+ " from input")) by done. rewrite strip_suffix_app. cbv beta iota. rewrite trim_edges by done. rewrite Hne.
    by rewrite (effect_lines_read lines rows).
  - rewrite sapp_nil_r. change (" " +:+ resource) with (String " " resource). rewrite (trim_space_edges resource) by done. rewrite Hs, Hne. by rewrite (effect_lines_read lines rows).
Qed.

(** C32: An effect block printed with its rows in any order, with comments and blank
    lines anywhere, is read back: the [where] rows and the assignments, each in
    their order, and nothing of what follows the block. *)
Theorem parse_command_effect_roundtrip header kind resource (from_input : bool) lines rows tail : edges_ok resource = true -> strip_suffix " from input" resource = None ->
  Forall2 says lines rows -> ends tail ->
  parse_command_effect header (lines ++ tail) kind (" " +:+ resource +:+ if from_input then " from input" else "") =
  Ok ({| e_kind := kind; e_resource := resource; e_from_input := from_input; e_assignments := of_kind false rows;
         e_where := of_kind true rows; e_span := span_of_line header |}, tail).
Proof. apply effect_roundtrip_spec. Qed.

Lemma parse_command_effect_roundtrip_witness :
  let line k i t := {| text := Waiver.spaces i +:+ t; indent := i; start := k; end_ := k + 10 |} in
  parse_command_effect (line 0 4 "updates Listing")
    [line 20 6 "where id = route.id"; line 40 0 ""; line 50 6 "title = input.title"; line 70 6 "# a comment"; line 90 6 "done = true"; line 110 4 "policy @scope.owner"]
    Updates " Listing" =
  Ok ({| e_kind := Updates; e_resource := "Listing"; e_from_input := false;
         e_assignments := [{| ad_field := "title"; ad_value := "input.title"; ad_span := span_new 50 60 |};
                           {| ad_field := "done"; ad_value := "true"; ad_span := span_new 90 100 |}];
         e_where := [{| ad_field := "id"; ad_value := "route.id"; ad_span := span_new 20 30 |}]; e_span := span_new 0 10 |},
      [line 110 4 "policy @scope.owner"]).
Proof.
  intros line.
  apply (parse_command_effect_roundtrip (line 0 4 "updates Listing") Updates "Listing" false
    [line 20 6 "where id = route.id"; line 40 0 ""; line 50 6 "title = input.title"; line 70 6 "# a comment"; line 90 6 "done = true"]
    [Some (true, {| ad_field := "id"; ad_value := "route.id"; ad_span := span_new 20 30 |}); None;
     Some (false, {| ad_field := "title"; ad_value := "input.title"; ad_span := span_new 50 60 |}); None;
     Some (false, {| ad_field := "done"; ad_value := "true"; ad_span := span_new 90 100 |})]
    [line 110 4 "policy @scope.owner"]); [reflexivity|reflexivity| |split; [reflexivity|by apply Nat.leb_le]].
  repeat first [apply Forall2_nil_2 | apply Forall2_cons_2].
  - by apply (says_row (line 20 6 "where id = route.id") true "id" "route.id").
  - by apply says_trivia.
  - by apply (says_row (line 50 6 "title = input.title") false "title" "input.title").
  - by apply says_trivia.
  - by apply (says_row (line 90 6 "done = true") false "done" "true").
Defined.

(** A comparison is not refused: [where deleted_at == nil] asks for the column to
    equal the text [= nil]. *)
Lemma where_comparison_accepted line e1 e2 : assignment line "deleted_at == nil" e1 e2 =
  Ok {| ad_field := "deleted_at"; ad_value := "= nil"; ad_span := span_of_line line |}.
Proof. reflexivity. Qed.
