(* ===== verification/CommandLowering.v ===== *)
(** Commands in the intermediate representation ([lazuli_ir/src/nodes/command_p1.rs],
    [command_p2.rs]) and the lowering of their parts
    ([lazuli_analyzer/src/command.rs], [command_decl.rs],
    [resource_validators.rs]).

    A record carries the slots the modelled passes read. *)
From S2P Require Import Prelude Str Fmt Lex Ir Expr Catalog TypeToken FieldConstraints.
From S2P Require CommandSyntax LifecycleLowering QueryLowering Waiver.
Import QueryLowering (TypedSlot, ts_name, ts_required, AnalyzeError, ConstraintConflict, InlineValidatorRangeInvariant,
  InlineValidatorTypeMismatch, InlineValidatorPatternCompile).

(** * The representation *)

Record Assignment := { as_field : string; as_value : Expr }.
Inductive RouteSlotKind := Plain | OpaqueToken | SignedToken.
Record RouteSlot := { rt_name : string; rt_type : TypeRef; rt_from : option string; rt_kind : RouteSlotKind }.
Inductive CommandInput := Short (names : list string) | Typed (slots : list TypedSlot) | Empty.
Record LetBinding := { let_name : string; let_value : Expr }.
Record NamedArg := { na_name : string; na_value : Expr }.
Record TargetExpr := { tx_query : QualifiedName; tx_args : list NamedArg }.

Record CreateEffect := { cr_resource : QualifiedName; from_input : bool; cr_assignments : list Assignment }.
Record UpdateEffect := { up_resource : QualifiedName; up_assignments : list Assignment; up_where : list Assignment }.
Record DeleteEffect := { de_resource : QualifiedName; de_where : list Assignment }.
Record ReorderEffect := { re_resource : QualifiedName; position_field : string }.
Inductive CommandEffect :=
| Creates (c : CreateEffect) | Updates (u : UpdateEffect) | Deletes (d : DeleteEffect) | Returns (return_type : TypeRef)
| Reorders (r : ReorderEffect) | NoEffect.

(** [synthesized_from_cap_file.is_some()] *)
Record Command := {
  c_name : string; c_route : list RouteSlot; c_input : CommandInput; c_lets : list LetBinding; c_effect : CommandEffect;
  c_policy : PolicyRef; c_policy_expr : option ir.PolicyExpr; c_handler : option LifecycleLowering.HandlerRef; c_triggers : list string;
  c_from_cap_file : bool; c_owner_scope_sql : option QueryLowering.OwnerScopeSql
}.

Record Resource := {
  r_name : string; fields : list Field; r_lifecycle : option LifecycleLowering.Lifecycle; restrict_on_delete : list RestrictOnDelete
}.
Record Feature := { f_name : string; resources : list Resource; f_policies : Policies }.

(** * Parts ([command.rs]) *)

Definition lower_named_arg (arg : Waiver.TargetArgDecl) : NamedArg :=
  {| na_name := Waiver.arg_name arg; na_value := lower_raw_expr (Waiver.arg_value arg) |}.
Definition lower_target_expr (t : CommandSyntax.TargetExprDecl) : TargetExpr :=
  {| tx_query := lower_qualified_name (CommandSyntax.tg_query t); tx_args := List.map lower_named_arg (CommandSyntax.tg_args t) |}.
Definition lower_let_binding (l : CommandSyntax.LetBindingDecl) : LetBinding :=
  {| let_name := CommandSyntax.lb_name l; let_value := lower_raw_expr (CommandSyntax.lb_value l) |}.
Definition lower_assignment (a : CommandSyntax.AssignmentDecl) : Assignment :=
  {| as_field := CommandSyntax.ad_field a; as_value := lower_raw_expr (CommandSyntax.ad_value a) |}.

Definition lower_command_effect (effect : CommandSyntax.CommandEffectDecl) : CommandEffect :=
  let resource := lower_qualified_name (CommandSyntax.e_resource effect) in
  let assignments := List.map lower_assignment (CommandSyntax.e_assignments effect) in
  let where_clause := List.map lower_assignment (CommandSyntax.e_where effect) in
  match CommandSyntax.e_kind effect with
  | CommandSyntax.Creates => Creates {| cr_resource := resource; from_input := CommandSyntax.e_from_input effect; cr_assignments := assignments |}
  | CommandSyntax.Updates => Updates {| up_resource := resource; up_assignments := assignments; up_where := where_clause |}
  | CommandSyntax.Deletes => Deletes {| de_resource := resource; de_where := where_clause |}
  end.

(** The effect of a command block ([lower_command_decl]). *)
Definition lower_effect (effect : option CommandSyntax.CommandEffectDecl) (reorder : option CommandSyntax.CommandReorderDecl)
    (returns : option string) : CommandEffect :=
  match effect, reorder, returns with
  | Some e, _, _ => lower_command_effect e
  | None, Some r, _ => Reorders {| re_resource := lower_qualified_name (CommandSyntax.ro_resource r); position_field := CommandSyntax.ro_position_field r |}
  | None, None, Some t => Returns (type_ref_from_text t)
  | None, None, None => NoEffect
  end.

Definition lower_invalidates_query_ref (current_feature text : string) : QualifiedName :=
  let trimmed := trim text in
  match split_char "." trimmed with
  | [q; name] =>
    if (q =? "query") && nonempty name then {| qn_feature := Some current_feature; qn_name := name |} else lower_qualified_name trimmed
  | [feature; q; name] =>
    if (q =? "query") && nonempty feature && nonempty name then {| qn_feature := Some feature; qn_name := name |}
    else lower_qualified_name trimmed
  | [name] => if nonempty name then {| qn_feature := Some current_feature; qn_name := name |} else lower_qualified_name trimmed
  | _ => lower_qualified_name trimmed
  end.

Definition lower_route_slot_kind (kind : CommandSyntax.CommandRouteSlotKind) : RouteSlotKind :=
  match kind with CommandSyntax.Plain => Plain | CommandSyntax.OpaqueToken => OpaqueToken | CommandSyntax.SignedToken => SignedToken end.
(** A route slot ([lower_command_decl]). *)
Definition lower_route_slot (r : CommandSyntax.CommandRouteSlot) : RouteSlot := {|
  rt_name := CommandSyntax.rs_name r; rt_type := type_ref_from_text (CommandSyntax.rs_type_text r); rt_from := CommandSyntax.rs_from r;
  rt_kind := lower_route_slot_kind (CommandSyntax.rs_kind r) |}.

(** * Input slots ([resource_validators.rs], [command_decl.rs]) *)

Definition check_ (b : bool) (e : AnalyzeError) : result AnalyzeError unit := if b then Err e else Ok tt.
Definition given {A} (o : option A) : bool := match o with Some _ => true | None => false end.

Definition validate_constraint_combinations (field : string) (c : FieldConstraintsDecl) : result AnalyzeError unit :=
  _ ← check_ (given (length c) && given (min c)) (ConstraintConflict field "length+min");
  _ ← check_ (given (length c) && given (max c)) (ConstraintConflict field "length+max");
  _ ← check_ (given (between c) && given (min c)) (ConstraintConflict field "between+min");
  _ ← check_ (given (between c) && given (max c)) (ConstraintConflict field "between+max");
  check_ (given (in_ c) && given (pattern c)) (ConstraintConflict field "in+pattern").

Definition validate_constraint_range_invariant (field : string) (c : FieldConstraintsDecl) : result AnalyzeError unit :=
  _ ← match min c, max c with
      | Some lo, Some hi => check_ (hi <? lo)%Z (InlineValidatorRangeInvariant field "min>max" (show_Z lo) (show_Z hi))
      | _, _ => Ok tt
      end;
  match between c with
  | Some (a, b) => check_ (b <? a)%Z (InlineValidatorRangeInvariant field "between" (show_Z a) (show_Z b))
  | None => Ok tt
  end.

Definition is_text_like (b : BuiltinType) : bool :=
  match b with
  | types.Text | SemanticEmail | SemanticPhone | SemanticUrl | SemanticUuid | SemanticCurrency | SemanticHexColor => true
  | SemanticPluginType _ _ types.Text _ _ _ _ _ _ => true
  | _ => false
  end.
Definition is_numeric (b : BuiltinType) : bool :=
  match b with Integer | Decimal | SemanticPercentage | SemanticPositiveDecimal | SemanticNonNegativeInt => true | _ => false end.

Definition validate_constraint_type_compatibility (field type_text : string) (c : FieldConstraintsDecl) : result AnalyzeError unit :=
  match type_ref_from_syntax type_text with
  | Builtin b =>
    let mismatch := InlineValidatorTypeMismatch field (trim type_text) in
    _ ← check_ (given (min c) && negb (is_text_like b || is_numeric b)) (mismatch "min" "Text, Integer, Decimal");
    _ ← check_ (given (max c) && negb (is_text_like b || is_numeric b)) (mismatch "max" "Text, Integer, Decimal");
    _ ← check_ (given (length c) && negb (is_text_like b)) (mismatch "length" "Text");
    _ ← check_ (given (pattern c) && negb (is_text_like b)) (mismatch "pattern" "Text");
    _ ← check_ (given (between c) && negb (is_numeric b)) (mismatch "between" "Integer, Decimal");
    check_ (given (in_ c) && negb (is_text_like b || is_numeric b)) (mismatch "in" "Text, Integer, Decimal")
  | _ => Ok tt
  end.

(** [s.chars().rev().take_while(..).count()] of the backslashes *)
Fixpoint trailing_backslashes (n : nat) (s : string) : nat :=
  match s with "" => n | String b s => if b =a? BSL then trailing_backslashes (S n) s else trailing_backslashes 0 s end.

(** The walk over a pattern; an escape skips one character, whose further bytes
    are none of those looked for. *)
Fixpoint pattern_walk (escaped in_class : bool) (depth : Z) (s : string) : result string (bool * Z) :=
  match s with
  | "" => Ok (in_class, depth)
  | String b s =>
    if escaped then pattern_walk false in_class depth s
    else if b =a? BSL then pattern_walk true in_class depth s
    else if (b =a? "[") && negb in_class then pattern_walk false true depth s
    else if (b =a? "]") && in_class then pattern_walk false false depth s
    else if (b =a? "(") && negb in_class then pattern_walk false in_class (depth + 1) s
    else if (b =a? ")") && negb in_class then
      if (depth - 1 <? 0)%Z then Err "unbalanced `)`" else pattern_walk false in_class (depth - 1) s
    else pattern_walk false in_class depth s
  end.
Definition validate_constraint_pattern_compile (field : string) (c : FieldConstraintsDecl) : result AnalyzeError unit :=
  match pattern c with
  | None => Ok tt
  | Some p =>
    let fails := InlineValidatorPatternCompile field p in
    _ ← check_ (Nat.odd (trailing_backslashes 0 p)) (fails ("trailing unescaped `" +:+ String BSL "`"));
    match pattern_walk false false 0 p with
    | Err reason => Err (fails reason)
    | Ok (in_class, depth) =>
      _ ← check_ in_class (fails "unbalanced `[`");
      check_ (negb (depth =? 0)%Z) (fails "unbalanced `(`")
    end
  end.

Definition lower_typed_input_slot (s : CommandInputSlot) : result AnalyzeError TypedSlot :=
  _ ← validate_constraint_combinations (sl_name s) (sl_constraints s);
  _ ← validate_constraint_range_invariant (sl_name s) (sl_constraints s);
  let '(cleaned, vskip) := QueryLowering.strip_validate_skip (type_text s) in
  _ ← validate_constraint_type_compatibility (sl_name s) cleaned (sl_constraints s);
  _ ← validate_constraint_pattern_compile (sl_name s) (sl_constraints s);
  constraints ← QueryLowering.lift_field_constraints (sl_name s) (sl_constraints s);
  Ok {| ts_name := sl_name s; QueryLowering.ts_type := type_ref_from_text cleaned; ts_required := sl_required s;
        QueryLowering.ts_constraints := constraints; QueryLowering.ts_validate_skip := vskip |}.
Definition lower_typed_input_slots (slots : list CommandInputSlot) : result AnalyzeError (list TypedSlot) := mapM lower_typed_input_slot slots.

Definition lower_input (input : CommandSyntax.CommandInputDecl) : result AnalyzeError CommandInput :=
  match input with
  | CommandSyntax.Empty => Ok Empty
  | CommandSyntax.Short name => Ok (Short [name])
  | CommandSyntax.Typed slots => slots ← lower_typed_input_slots slots; Ok (Typed slots)
  end.
