(* ===== verification/CommandCodegen.v ===== *)
(** The effects of commands in generated Go
    ([lazuli_codegen_go/src/emitter/command/]: [scope.rs], [effects.rs],
    [effects_format.rs], [lifecycle.rs], [naming.rs], [format.rs], and of
    [emit_p1.rs] the bindings and the delete guards).

    Lines are written at [level] tabs.  The text of a return type
    ([types::go_return_type_for]) is an argument. *)
From S2P Require Import Prelude Str BTree Fmt Ir Catalog Casing CommandLowering.
From S2P Require PolicyCodegen ReferentialGuard QueryCodegen QueryLowering LifecycleLowering PlanGate.
Import PolicyCodegen (escape_string).
Import ReferentialGuard (tabs).
Import QueryLowering (TypedSlot, ts_name, ts_required, OwnerScopeSql, os_field_name, os_fk_target, os_through_column, os_cte_owner_check).

(** * Formats ([format.rs]) *)

Definition format_path (path : Path) : string := join "." (segments path).
Definition format_qname (default_feature : option string) (qname : QualifiedName) : string :=
  match qn_feature qname with
  | None => if contains "." (qn_name qname) then qn_name qname
            else match default_feature with Some feature => feature +:+ "." +:+ qn_name qname | None => qn_name qname end
  | Some feature => feature +:+ "." +:+ qn_name qname
  end.
Fixpoint format_expr (expr : Expr) : string :=
  match expr with
  | EPath path => format_path path
  | EString value => quoted (escape_string value)
  | EInteger value => show_Z value
  | EBoolean value => if value then "true" else "false"
  | EEnum literal => match type_name literal with Some qname => format_qname None qname +:+ "." +:+ variant literal | None => variant literal end
  | ENil => "nil"
  | EFnCall fn args => "@fn." +:+ qn_name fn +:+ "(" +:+ join ", " (List.map format_expr args) +:+ ")"
  end.

Section Emit.
Variable to_uppercase : string -> string.
Abbreviation pascal := (pascal_case to_uppercase).
Abbreviation camel := (lower_camel to_uppercase).

(** * Names ([naming.rs]) *)

Definition command_name_parts (short_name : string) : string * list string :=
  match split_char "_" short_name with verb :: words => (verb, words) | [] => ("", []) end.
Definition command_input_struct_name (short_name resource_pascal : string) : string :=
  let '(verb, words) := command_name_parts short_name in
  pascal verb +:+ resource_pascal +:+ join "" (List.map pascal words) +:+ "Input".
Definition command_var_name (short_name resource_pascal : string) : string :=
  let '(verb, words) := command_name_parts short_name in
  lower_ascii verb +:+ resource_pascal +:+ join "" (List.map pascal words).
Definition command_handler_func_name (short_name : string) : string := "Handle" +:+ pascal short_name.
Definition resource_var_for_qname (qname : QualifiedName) : string := camel (qn_name qname) +:+ "Resource".
Definition effect_resource (effect : CommandEffect) : option QualifiedName :=
  match effect with
  | Creates c => Some (cr_resource c)
  | Updates u => Some (up_resource u)
  | Deletes d => Some (de_resource d)
  | Reorders r => Some (re_resource r)
  | Returns _ | NoEffect => None
  end.
Definition effect_resource_pascal (effect : CommandEffect) : string :=
  match effect_resource effect, effect with
  | Some q, _ => pascal (qn_name q)
  | None, Returns (UserDefined q | EnumRef q) => pascal (qn_name q)
  | None, _ => "Result"
  end.
Definition effect_resource_var (effect : CommandEffect) : option string := resource_var_for_qname <$> effect_resource effect.

(** * Keys and scopes ([scope.rs]) *)

Record WhereKeyBinding := { wk_column : string; input_field : string }.
Definition key_of_slot (name : string) : WhereKeyBinding := {| wk_column := name; input_field := pascal name |}.
Definition resolve_where_keys (command : Command) : list WhereKeyBinding :=
  match c_route command with
  | _ :: _ => List.map (fun slot => key_of_slot (rt_name slot)) (c_route command)
  | [] =>
    match c_input command with
    | Typed [slot] => [key_of_slot (ts_name slot)]
    | _ => [{| wk_column := "id"; input_field := "ID" |}]
    end
  end.

Record ScopeBinding := { sb_atom : string; sb_column : string; ctx_path : string; via : option (string * string) }.

Definition emit_scope_binding_row (level : nat) (binding : ScopeBinding) : list string :=
  match via binding with
  | None =>
    [tabs level ("// scope: " +:+ sb_atom binding +:+ " resolved → " +:+ sb_column binding +:+ " = ctx." +:+ ctx_path binding);
     tabs level (quoted (escape_string (sb_column binding)) +:+ ": lazuli.FromCtx(" +:+ quoted (ctx_path binding) +:+ "),")]
  | Some (related_table, owner_column) =>
    [tabs level ("// scope: " +:+ sb_atom binding +:+ " resolved via " +:+ sb_column binding +:+ " → " +:+ related_table +:+ "." +:+ owner_column +:+
                 " = ctx." +:+ ctx_path binding);
     tabs level (quoted (escape_string (sb_column binding)) +:+ ": lazuli.FromCtxOwnedVia(" +:+ quoted (escape_string related_table) +:+ ", " +:+
                 quoted (escape_string owner_column) +:+ ", " +:+ quoted (ctx_path binding) +:+ "),")]
  end.

(** Written as [pascal_to_snake] of [query/util.rs] is. *)
Definition command_pascal_to_snake (s : string) : string := QueryCodegen.pascal_to_snake s.
Definition owner_scope_binding (scope : option OwnerScopeSql) : option ScopeBinding :=
  scope ← scope;
  Some {| sb_atom := "@owner_axis"; sb_column := os_field_name scope; ctx_path := "user.id";
          via := Some (command_pascal_to_snake (os_fk_target scope), os_through_column scope) |}.

Definition OWNER_COLUMNS : list string := ["user_id"; "user"; "owner_id"; "owner"].
Definition SAME_ORG_COLUMNS : list string := ["org_id"; "org"; "tenant_id"; "tenant"].
Definition find_scope_column (resource : Resource) (priority : list string) : option string :=
  List.find (fun candidate => existsb (fun f => fd_name f =? candidate) (fields resource)) priority.

Record OwnerViaRelation := { fk_column : string; related_table : string; related_owner_column : string }.
Fixpoint owner_via_go (resource : Resource) (resources : list Resource) (fs : list Field) : option OwnerViaRelation :=
  match fs with
  | [] => None
  | field :: fs =>
    match
      match type_ref field with
      | UserDefined q => Some (qn_name q)
      | Unresolved name => Some name
      | _ => None
      end
    with
    | None => owner_via_go resource resources fs
    | Some related_name =>
      if related_name =? r_name resource then owner_via_go resource resources fs else
      match List.find (fun r => r_name r =? related_name) resources with
      | None => owner_via_go resource resources fs
      | Some related =>
        match find_scope_column related OWNER_COLUMNS with
        | None => owner_via_go resource resources fs
        | Some owner_col => Some {| fk_column := fd_name field; related_table := r_name related; related_owner_column := owner_col |}
        end
      end
    end
  end.
Definition find_owner_via_relation (resource : Resource) (feature : Feature) : option OwnerViaRelation :=
  owner_via_go resource (resources feature) (fields resource).

Definition push_new (atoms : list string) (a : string) : list string := if existsb (String.eqb a) atoms then atoms else (atoms ++ [a])%list.
Definition command_policy_atoms (command : Command) (policies : Policies) : list string :=
  let atoms :=
    match c_policy command with
    | RLocal name =>
      match List.find (fun c => pc_name c =? name) (categories policies) with
      | Some category => fold_left push_new (pc_atoms category) []
      | None => []
      end
    | RAtom atom => ["@" +:+ atom]
    | RExternal _ _ | RNone | RUnresolved _ => []
    end in
  match c_policy_expr command with
  | Some expr => fold_left push_new (PolicyCodegen.walk_policy_expr_atoms expr) atoms
  | None => atoms
  end.

Definition direct (atom column path : string) : ScopeBinding := {| sb_atom := atom; sb_column := column; ctx_path := path; via := None |}.
(** The binding of one atom. *)
Definition scope_binding_of (resource : Resource) (feature : Feature) (atom : string) : option ScopeBinding :=
  if atom =? "@scope.owner" then
    match find_scope_column resource OWNER_COLUMNS with
    | Some column => Some (direct atom column "user.id")
    | None =>
      v ← find_owner_via_relation resource feature;
      Some {| sb_atom := atom; sb_column := fk_column v; ctx_path := "user.id"; via := Some (related_table v, related_owner_column v) |}
    end
  else if atom =? "@scope.same_org" then column ← find_scope_column resource SAME_ORG_COLUMNS; Some (direct atom column "user.org_id")
  else if atom =? "@scope.self" then Some (direct atom "id" "user.id")
  else None.

(** The resource an update or a delete writes, when it is one of the feature. *)
Definition scoped_resource (effect : CommandEffect) (feature : Feature) : option Resource :=
  qname ← match effect with Updates u => Some (up_resource u) | Deletes d => Some (de_resource d) | _ => None end;
  if match qn_feature qname with Some f => negb (f =? f_name feature) | None => false end then None
  else List.find (fun r => r_name r =? qn_name qname) (resources feature).
Definition resolve_scope_bindings (command : Command) (feature : Feature) : list ScopeBinding :=
  match scoped_resource (c_effect command) feature with
  | None => []
  | Some resource => omap (scope_binding_of resource feature) (command_policy_atoms command (f_policies feature))
  end.

(** The bindings [emit_command] gives to [emit_effect]. *)
Definition scope_bindings (command : Command) (feature : Feature) : list ScopeBinding :=
  let bindings := resolve_scope_bindings command feature in
  match owner_scope_binding (c_owner_scope_sql command) with
  | Some b => if existsb (fun b' => sb_column b' =? sb_column b) bindings then bindings else (bindings ++ [b])%list
  | None => bindings
  end.

(** * Sources ([effects_format.rs]) *)

Definition collect_optional_inputs (command : Command) : list string :=
  match c_input command with
  | Typed slots => List.map ts_name (List.filter (fun slot => negb (ts_required slot)) slots)
  | _ => []
  end.
(** [let_bindings] of [emit_command]: a [BTreeMap]. *)
Definition let_bindings (command : Command) : list (string * Expr) :=
  bt_collect (List.map (fun b => (let_name b, let_value b)) (c_lets command)).

Section Sources.
Variable lets : list (string * Expr).
Variable optional_inputs : list string.

Definition bound_let (segs : list string) : option (string * Expr) :=
  match segs with [name] => e ← bt_get name lets; Some (name, e) | _ => None end.
Definition format_path_source (segs : list string) : string :=
  match bound_let segs with
  | Some (name, target_expr) =>
    "lazuli.FromConst(" +:+ quoted (escape_string name) +:+ ") /* let " +:+ name +:+ " = " +:+ format_expr target_expr +:+ " */"
  | None =>
    let head := match segs with head :: _ => head | [] => "" end in
    let tail := join "." (List.tl segs) in
    if head =? "input" then
      let first_segment := match split_char "." tail with first :: _ => first | [] => tail end in
      if existsb (String.eqb first_segment) optional_inputs then "lazuli.FromInputOptional(" +:+ quoted tail +:+ ")"
      else "lazuli.FromInput(" +:+ quoted tail +:+ ")"
    else if head =? "ctx" then "lazuli.FromCtx(" +:+ quoted tail +:+ ")"
    else if head =? "target" then "lazuli.FromTarget(" +:+ quoted tail +:+ ")"
    else if head =? "route" then "lazuli.FromInput(" +:+ quoted tail +:+ ")"
    else
      "lazuli.UnresolvedBindingSource /* CODEGEN-UNRESOLVED-BINDING-SOURCE-001: binding RHS " +:+ quoted (escape_string (join "." segs)) +:+
      " resolves to none of {input, ctx, target, route, @fn(), literal, let} — run `lazuli doctor` */"
  end.

Fixpoint format_binding_source (expr : Expr) : string :=
  match expr with
  | EPath path => format_path_source (segments path)
  | EString s => "lazuli.FromConst(" +:+ quoted (escape_string s) +:+ ")"
  | EInteger n => "lazuli.FromConst(" +:+ show_Z n +:+ ")"
  | EBoolean b => "lazuli.FromConst(" +:+ (if b then "true" else "false") +:+ ")"
  | EEnum literal =>
    let qualifier := match type_name literal with Some q => pascal (qn_name q) | None => "" end in
    if qualifier =? "" then "lazuli.FromConst(" +:+ quoted (variant literal) +:+ ")"
    else "lazuli.FromConst(" +:+ qualifier +:+ pascal (variant literal) +:+ ")"
  | ENil => "lazuli.FromConst(nil)"
  | EFnCall fn args =>
    let args_arr := match args with [] => "nil" | _ => "[]lazuli.Source{" +:+ join ", " (List.map format_binding_source args) +:+ "}" end in
    "lazuli.FromFn(" +:+ quoted (escape_string (qn_name fn)) +:+ ", " +:+ args_arr +:+ ")"
  end.

Definition format_binding_row (assignment : Assignment) : string :=
  quoted (lower_ascii (as_field assignment)) +:+ ": " +:+ format_binding_source (as_value assignment) +:+ ",".
End Sources.

(** * Lifecycles ([lifecycle.rs]) *)

Definition enum_variant_name (enum_name variant : string) : string := enum_name +:+ pascal variant.
Definition is_initial (s : LifecycleLowering.LifecycleState) : bool :=
  match LifecycleLowering.ls_kind s with LifecycleLowering.Initial => true | _ => false end.
Definition initial_lifecycle_state (l : LifecycleLowering.Lifecycle) : option string :=
  LifecycleLowering.ls_name <$>
  match List.find is_initial (LifecycleLowering.lc_states l) with Some s => Some s | None => List.head (LifecycleLowering.lc_states l) end.
Definition lifecycle_machine_var (resource : Resource) : string := camel (r_name resource) +:+ "Lifecycle".

(** [find_map] over the resources of that name. *)
Definition lifecycle_transition_for (feature : Feature) (command : Command)
    : option (Resource * LifecycleLowering.Lifecycle * LifecycleLowering.LifecycleTransition) :=
  match c_effect command with
  | Updates update =>
    List.head (omap (fun resource =>
      lifecycle ← r_lifecycle resource;
      transition ← List.find (fun t => LifecycleLowering.lt_name t =? c_name command) (LifecycleLowering.lc_transitions lifecycle);
      Some (resource, lifecycle, transition))
      (List.filter (fun r => r_name r =? qn_name (up_resource update)) (resources feature)))
  | _ => None
  end.

(** The lifecycle the triggers of an update advance. *)
Definition triggered_lifecycle (feature : Feature) (effect : CommandEffect) (triggers : list string) : option LifecycleLowering.Lifecycle :=
  match triggers, effect with
  | _ :: _, Updates update => r ← List.find (fun r => r_name r =? qn_name (up_resource update)) (resources feature); r_lifecycle r
  | _, _ => None
  end.
Record TransitionAdvanceLiteral := { ta_from : list string; ta_to : string }.
Definition transition_advances_for_triggers (feature : Feature) (effect : CommandEffect) (triggers : list string) : list TransitionAdvanceLiteral :=
  match triggered_lifecycle feature effect triggers with
  | None => []
  | Some lifecycle =>
    omap (fun trigger =>
      t ← List.find (fun t => LifecycleLowering.lt_name t =? trigger) (LifecycleLowering.lc_transitions lifecycle);
      Some {| ta_from := match LifecycleLowering.lt_from t with [] => [""] | from => from end; ta_to := LifecycleLowering.lt_to t |}) triggers
  end.
Definition lifecycle_column_for_triggers (feature : Feature) (effect : CommandEffect) (triggers : list string) : option string :=
  LifecycleLowering.lc_discriminator <$> triggered_lifecycle feature effect triggers.

Definition string_list (l : list string) : string := join ", " (List.map (fun s => quoted (escape_string s)) l).
Definition emit_transition_advances (level : nat) (transitions : list TransitionAdvanceLiteral) (lifecycle_column : option string) : list string :=
  match transitions with
  | [] => []
  | _ =>
    ([tabs level "Transitions: []lazuli.TransitionAdvance{"] ++
     List.map (fun t => tabs (S level)
       ("{From: " +:+ quoted (escape_string (List.hd "" (ta_from t))) +:+ ", FromAny: []string{" +:+ string_list (ta_from t) +:+
        "}, To: " +:+ quoted (escape_string (ta_to t)) +:+ "},")) transitions ++
     [tabs level "},"] ++
     match lifecycle_column with Some column => [tabs level ("LifecycleColumn: " +:+ quoted (escape_string column) +:+ ",")] | None => [] end)%list
  end.

Definition machine_lines (resource : Resource) (lifecycle : LifecycleLowering.Lifecycle) : list string :=
  let enum_name := pascal (LifecycleLowering.generated_enum lifecycle) in
  let initial := match initial_lifecycle_state lifecycle with
                 | Some state => enum_variant_name enum_name state
                 | None => enum_name +:+ "(" +:+ quoted "" +:+ ")"
                 end in
  ([tabs 0 ("var " +:+ lifecycle_machine_var resource +:+ " = lifecycle.New[" +:+ enum_name +:+ "](" +:+ initial +:+
            ", []lifecycle.Transition[" +:+ enum_name +:+ "]{")] ++
   List.map (fun t => tabs 1
     ("{Name: " +:+ quoted (escape_string (LifecycleLowering.lt_name t)) +:+ ", From: []string{" +:+ string_list (LifecycleLowering.lt_from t) +:+
      "}, To: " +:+ enum_variant_name enum_name (LifecycleLowering.lt_to t) +:+ "},")) (LifecycleLowering.lc_transitions lifecycle) ++
   [tabs 0 "})"])%list.
(** The blank line between two blocks. *)
Definition separated (blocks : list (list string)) : list string :=
  match blocks with [] => [] | b :: bs => (b ++ flat_map (fun b => "" :: b) bs)%list end.
Definition emit_lifecycle_machines (feature : Feature) : list string :=
  separated (omap (fun r => machine_lines r <$> r_lifecycle r) (sort_by r_name (resources feature))).

(** * Effects ([effects.rs]) *)

Definition handler_ref_name (handler : option LifecycleLowering.HandlerRef) : option string :=
  h ← handler; if LifecycleLowering.hr_namespace h =? "fn" then Some (LifecycleLowering.hr_name h) else None.

Definition lifecycle_initial_binding (create : CreateEffect) (resources : list Resource) : option string :=
  resource ← List.find (fun r => r_name r =? qn_name (cr_resource create)) resources;
  lifecycle ← r_lifecycle resource;
  let field := LifecycleLowering.lc_discriminator lifecycle in
  if existsb (fun a => lower_ascii (as_field a) =? lower_ascii field) (cr_assignments create) then None else
  initial ← initial_lifecycle_state lifecycle;
  Some (quoted (lower_ascii field) +:+ ": lazuli.FromConst(" +:+ enum_variant_name (pascal (LifecycleLowering.generated_enum lifecycle)) initial +:+ "),").

Definition emit_creates_effect (level : nat) (command : Command) (create : CreateEffect) (lets : list (string * Expr)) (resources : list Resource) : list string :=
  let resource_var := resource_var_for_qname (cr_resource create) in
  let optional_inputs := collect_optional_inputs command in
  match cr_assignments create, from_input create with
  | [], true =>
    [tabs level ("Effect: lazuli.Creates(&" +:+ resource_var +:+ ", lazuli.Bindings{}),");
     tabs level "// TODO(from-input): `creates X from input` — expand bindings from typed input slots."]
  | assignments, _ =>
    let rows := (List.map (fun a => tabs (S level) (format_binding_row lets optional_inputs a)) assignments ++
                 match lifecycle_initial_binding create resources with Some row => [tabs (S level) row] | None => [] end)%list in
    match c_owner_scope_sql command with
    | Some {| os_cte_owner_check := Some _ |} as scope =>
      match scope with
      | None => []
      | Some scope =>
        ([tabs level ("Effect: lazuli.CreatesWithOwnerCheck(&" +:+ resource_var +:+ ", lazuli.Bindings{")] ++ rows ++
         [tabs level "}, lazuli.OwnerCheckSpec{";
          tabs (S level) ("FKColumn:      " +:+ quoted (escape_string (os_field_name scope)) +:+ ",");
          tabs (S level) ("RelatedTable:  " +:+ quoted (escape_string (command_pascal_to_snake (os_fk_target scope))) +:+ ",");
          tabs (S level) ("ThroughColumn: " +:+ quoted (escape_string (os_through_column scope)) +:+ ",");
          tabs level "}),"])%list
      end
    | _ => ([tabs level ("Effect: lazuli.Creates(&" +:+ resource_var +:+ ", lazuli.Bindings{")] ++ rows ++ [tabs level "}),"])%list
    end
  end.

Definition scope_rows (level : nat) (bindings : list ScopeBinding) : list string := flat_map (emit_scope_binding_row level) bindings.
Definition key_row (level : nat) (k : WhereKeyBinding) : string :=
  tabs level (quoted (escape_string (wk_column k)) +:+ ": lazuli.FromInput(" +:+ quoted (input_field k) +:+ "),").
Definition BULK : string := "// bulk: no id/route key — `@scope.*` alone scopes the affected rows.".

Definition emit_authored_where_map (level : nat) (authored_where : list Assignment) (optional_inputs : list string) (bindings : list ScopeBinding) : list string :=
  ([tabs level "lazuli.Bindings{"] ++
   List.map (fun w => tabs (S level) (quoted (escape_string (lower_ascii (as_field w))) +:+ ": " +:+ format_binding_source [] optional_inputs (as_value w) +:+ ","))
     authored_where ++
   scope_rows (S level) bindings ++
   [tabs level "},"])%list.

(** The keys no scope binding claims the column of. *)
Definition free_keys (command : Command) (bindings : list ScopeBinding) : list WhereKeyBinding :=
  List.filter (fun k => negb (existsb (fun b => sb_column b =? wk_column k) bindings)) (resolve_where_keys command).
Definition is_nil {A} (l : list A) : bool := match l with [] => true | _ => false end.

Definition emit_updates_effect (level : nat) (command : Command) (update : UpdateEffect) (lets : list (string * Expr))
    (transition : option (Resource * LifecycleLowering.Lifecycle * LifecycleLowering.LifecycleTransition)) (bindings : list ScopeBinding) : list string :=
  let optional_inputs := collect_optional_inputs command in
  let where_keys := free_keys command bindings in
  let bulk := is_nil where_keys && negb (is_nil bindings) in
  (match transition with
   | Some (resource, lifecycle, t) =>
     [tabs level ("// lifecycle: newState, err := " +:+ lifecycle_machine_var resource +:+ ".Apply(ctx, current." +:+
                  pascal (LifecycleLowering.lc_discriminator lifecycle) +:+ ", " +:+ quoted (escape_string (LifecycleLowering.lt_name t)) +:+ ")")]
   | None => []
   end ++
   [tabs level ("Effect: lazuli.Updates(&" +:+ resource_var_for_qname (up_resource update) +:+ ",")] ++
   match up_where update, bindings, where_keys with
   | _ :: _, _, _ => emit_authored_where_map (S level) (up_where update) optional_inputs bindings
   | [], [], [k] => [tabs (S level) ("lazuli.Bindings{" +:+ quoted (escape_string (wk_column k)) +:+ ": lazuli.FromInput(" +:+ quoted (input_field k) +:+ ")},")]
   | [], _, _ =>
     [tabs (S level) "lazuli.Bindings{"] ++ (if bulk then [tabs (S (S level)) BULK] else []) ++
     List.map (key_row (S (S level))) where_keys ++ scope_rows (S (S level)) bindings ++ [tabs (S level) "},"]
   end ++
   [tabs (S level) "lazuli.Bindings{"] ++
   List.map (fun a => tabs (S (S level)) (format_binding_row lets optional_inputs a)) (up_assignments update) ++
   [tabs (S level) "},"; tabs level "),"])%list.

(** The keys of a delete: in bulk mode the legacy [id] goes. *)
Definition delete_keys (command : Command) (bindings : list ScopeBinding) : list WhereKeyBinding :=
  let bulk_mode := match c_input command, c_route command with Empty, [] => negb (is_nil bindings) | _, _ => false end in
  let keys := free_keys command bindings in
  if bulk_mode then List.filter (fun k => negb ((wk_column k =? "id") && (input_field k =? "ID"))) keys else keys.
Definition emit_deletes_effect (level : nat) (command : Command) (delete : DeleteEffect) (bindings : list ScopeBinding) : list string :=
  let resource_var := resource_var_for_qname (de_resource delete) in
  match de_where delete with
  | _ :: _ =>
    ([tabs level ("Effect: lazuli.Deletes(&" +:+ resource_var +:+ ", ")] ++
     emit_authored_where_map (S level) (de_where delete) (collect_optional_inputs command) bindings ++ [tabs level "),"])%list
  | [] =>
    let where_keys := delete_keys command bindings in
    ([tabs level ("Effect: lazuli.Deletes(&" +:+ resource_var +:+ ", lazuli.Bindings{")] ++
     (if is_nil where_keys && negb (is_nil bindings) then [tabs (S level) BULK] else []) ++
     List.map (key_row (S level)) where_keys ++ scope_rows (S level) bindings ++ [tabs level "}),"])%list
  end.

(** The three lines of a registered handler. *)
Definition registry_lines (level : nat) (qualified input_type return_type short : string) : list string :=
  [tabs level ("Effect: lazuli.ReturnsFromRegistry[" +:+ input_type +:+ ", " +:+ return_type +:+ "](" +:+ quoted qualified +:+ "),");
   tabs level ("// Wire " +:+ pascal short +:+ " as `func(ctx *lazuli.Ctx, input " +:+ input_type +:+ ") (" +:+ return_type +:+ ", error)`");
   tabs level ("// then register with `lazuli.RegisterFn(" +:+ quoted qualified +:+ ", " +:+ pascal short +:+ ")` at init().")].

Definition emit_effect (level : nat) (feature_name : string) (command : Command) (input_type return_type : string) (lets : list (string * Expr))
    (transition : option (Resource * LifecycleLowering.Lifecycle * LifecycleLowering.LifecycleTransition)) (bindings : list ScopeBinding)
    (resources : list Resource) : list string :=
  match c_effect command with
  | Creates create => emit_creates_effect level command create lets resources
  | Updates update => emit_updates_effect level command update lets transition bindings
  | Deletes delete => emit_deletes_effect level command delete bindings
  | Reorders reorder =>
    [tabs level ("Effect: lazuli.Reorder(&" +:+ resource_var_for_qname (re_resource reorder) +:+ ", " +:+ quoted (escape_string (position_field reorder)) +:+ "),")]
  | Returns _ =>
    let short := default (c_name command) (handler_ref_name (c_handler command)) in
    registry_lines level (feature_name +:+ "." +:+ short) input_type return_type short
  | NoEffect =>
    match handler_ref_name (c_handler command) with
    | Some short => registry_lines level (feature_name +:+ "." +:+ short) input_type "struct{}" short
    | None =>
      if c_from_cap_file command then
        let qualified := feature_name +:+ "." +:+ c_name command in
        [tabs level ("Effect: lazuli.ReturnsFromRegistry[" +:+ input_type +:+ ", struct{}](" +:+ quoted qualified +:+ "),");
         tabs level ("// cap_file synth: handler registered by auto_photo.gen.go under " +:+ quoted qualified +:+ ".")]
      else
        [tabs level "Effect: nil,"; tabs level "// No-effect commands are pure-read legacy APIs invoked via command.Invoke."]
    end
  end.

(** The effect of a command as [emit_command] writes it, with its transitions. *)
Definition command_effect_lines (feature : Feature) (command : Command) (input_type return_type : string) : list string :=
  (emit_effect 1 (f_name feature) command input_type return_type (let_bindings command) (lifecycle_transition_for feature command)
     (scope_bindings command feature) (resources feature) ++
   emit_transition_advances 1 (transition_advances_for_triggers feature (c_effect command) (c_triggers command))
     (lifecycle_column_for_triggers feature (c_effect command) (c_triggers command)))%list.

(** * Delete guards ([emit_p1.rs]) *)

Definition deleted_resource (effect : CommandEffect) : option string :=
  match effect with
  | Deletes d => Some (qn_name (de_resource d))
  | Updates u => if existsb (fun a => as_field a =? "deleted_at") (up_assignments u) then Some (qn_name (up_resource u)) else None
  | _ => None
  end.
Definition emit_referential_guard_prelude (feature : Feature) (command : Command) (output_type : string) : list string :=
  match
    resource_name ← deleted_resource (c_effect command);
    List.find (fun r => r_name r =? resource_name) (resources feature)
  with
  | None => []
  | Some resource =>
    match resolve_where_keys command with
    | [key] =>
      flat_map (fun guard =>
        [tabs 1 ("// referential guard: restrict on_delete references " +:+ relation guard +:+ " via " +:+ fk guard);
         tabs 1 ("if err := " +:+ ReferentialGuard.guard_fn_name to_uppercase (r_name resource) (relation guard) +:+
                 "(ctx, lazuli.DB(), lazuli.TenantOrgID(ctx), input." +:+ input_field key +:+ "); err != nil {");
         tabs 2 ("return " +:+ PlanGate.zero_value_for_go_type output_type +:+ ", err");
         tabs 1 "}"]) (restrict_on_delete resource)
    | _ => []
    end
  end.
End Emit.
