(* ===== verification/CommandExact.v ===== *)
(** From a command's effect as it is written to the rows it changes: the effect
    value of the generated Go, read back and run by the runtime, and the owner
    scope it keeps to. *)
From Stdlib Require Import Sorted Permutation.
From stdpp Require Import gmap.
From S2P Require Import Prelude Str BTree Fmt Lex Helpers Ir Catalog Casing SqlRows RuntimeSql RuntimeRead RuntimeWrite RuntimeNames GoSource CommandLowering CommandCodegen.
From S2P Require Expr PolicyCodegen PolicyRuntime QueryLowering QueryExact CommandSyntax LifecycleSyntax.
Import Expr (ident, ident_char, lower_qualified_name).
Import QueryLowering (rhs_text, ts_name, ts_required, OwnerScopeSql, os_field_name, os_fk_target, os_through_column).
Import PolicyCodegen (escape_string).
Import ReferentialGuard (tabs).
Import LifecycleSyntax (trimmed).
Import QueryExact (arg_struct, arg_value, args_ok, deref).

(** * Reading effects *)

Section Reader.
Variable constants : string -> option Value.

(** ["column": <source><close>] *)
Definition read_pair (close : string) (s : string) : option (string * Source) :=
  '(c, r) ← go_lit s; r ← strip_prefix ": " r; '(src, r) ← go_source constants r;
  if r =? close then Some (c, src) else None.

(** The entries at one level, up to the first line of a lower one. *)
Fixpoint read_pairs (level : nat) (lines : list string) : option (Bindings * list string) :=
  match lines with
  | [] => None
  | line :: rest =>
    match strip_prefix (tabs level "") line with
    | None => Some ([], lines)
    | Some s =>
      if starts_with "//" s then read_pairs level rest
      else x ← read_pair "," s; '(xs, rest) ← read_pairs level rest; Some (x :: xs, rest)
    end
  end.
(** A map literal with a key twice does not compile. *)
Definition distinct (b : Bindings) : option Bindings := if bool_decide (NoDup b.*1) then Some b else None.
Definition read_map (close : string) (level : nat) (lines : list string) : option (Bindings * list string) :=
  '(b, rest) ← read_pairs (S level) lines;
  b ← distinct b;
  match rest with
  | line :: rest => if line =? tabs level close then Some (b, rest) else None
  | [] => None
  end.
(** [lazuli.Bindings{...},] on one line or several. *)
Definition read_bindings (level : nat) (lines : list string) : option (Bindings * list string) :=
  match lines with
  | [] => None
  | line :: rest =>
    s ← strip_prefix (tabs level "lazuli.Bindings{") line;
    if s =? "" then read_map "}," level rest else x ← read_pair "}," s; Some ([x], rest)
  end.

Fixpoint skip_comments (level : nat) (lines : list string) : list string :=
  match lines with
  | line :: rest => if starts_with (tabs level "//") line then skip_comments level rest else lines
  | [] => []
  end.
Definition go_name (s : string) : string * string := let n := count_while ident_char s in (str_take n s, str_drop n s).

(** [Effect: lazuli.Updates(&v, <where>, <bind>),] *)
Definition read_updates (level : nat) (lines : list string) : option (string * (Bindings * Bindings)) :=
  match skip_comments level lines with
  | [] => None
  | line :: rest =>
    s ← strip_prefix (tabs level "Effect: lazuli.Updates(&") line;
    let '(v, r) := go_name s in
    if r =? "," then
      '(w, rest) ← read_bindings (S level) rest; '(b, rest) ← read_bindings (S level) rest;
      match rest with [last] => if last =? tabs level ")," then Some (v, (w, b)) else None | _ => None end
    else None
  end.

(** [Effect: lazuli.Deletes(&v, <where>),] *)
Definition read_deletes (level : nat) (lines : list string) : option (string * Bindings) :=
  match lines with
  | [] => None
  | line :: rest =>
    s ← strip_prefix (tabs level "Effect: lazuli.Deletes(&") line;
    let '(v, r) := go_name s in
    if r =? ", lazuli.Bindings{" then
      '(w, rest) ← read_map "})," level rest; match rest with [] => Some (v, w) | _ => None end
    else if r =? ", " then
      '(w, rest) ← read_bindings (S level) rest;
      match rest with [last] => if last =? tabs level ")," then Some (v, w) else None | _ => None end
    else None
  end.
End Reader.

(** * What the emitted bindings mean *)

Section Codegen.
Variable up : string -> string.
Variable constants : string -> option Value.
Abbreviation pascal := (pascal_case up).

Section Values.
Variable lets : list (string * Expr).
Variable optional : list string.

Definition first_segment (tail : string) : string := match split_char "." tail with first :: _ => first | [] => tail end.
Definition path_source (segs : list string) : option Source :=
  match segs with
  | [] => None
  | head :: rest =>
    let tail := join "." rest in
    if head =? "input" then Some (if existsb (String.eqb (first_segment tail)) optional then FromInputOptional tail else FromInput tail)
    else if head =? "ctx" then Some (FromCtx tail)
    else if head =? "target" then Some (FromTarget tail)
    else if head =? "route" then Some (FromInput tail)
    else None
  end.

Fixpoint source_of (e : Expr) : Source :=
  match e with
  | EPath p => default (FromConst Nil) (path_source (segments p))
  | EString s => FromConst (SqlRows.Text s)
  | EInteger n => FromConst (Int n)
  | EBoolean b => FromConst (Bool b)
  | ENil => FromConst Nil
  | EEnum l =>
    match QueryExact.enum_constant up l with
    | None => FromConst (SqlRows.Text (variant l))
    | Some c => FromConst (default Nil (constants c))
    end
  | EFnCall f args => FromFn (qn_name f) (List.map source_of args)
  end.

(** Values Go reads: a path starts with a word of its own and is no [let]. *)
Fixpoint clean (e : Expr) : bool :=
  match e with
  | EPath p =>
    match bound_let lets (segments p), path_source (segments p) with
    | None, Some _ => bare_text (join "." (List.tl (segments p)))
    | _, _ => false
    end
  | EString s => one_line s
  | EInteger n => in_i64 n
  | EBoolean _ | ENil => true
  | EEnum l => match QueryExact.enum_constant up l with None => bare_text (variant l) | Some c => constant_name constants c end
  | EFnCall f args => one_line (qn_name f) && forallb clean args
  end.

Abbreviation text e := (format_binding_source up lets optional e).

Lemma binding_path_reads fuel p : clean (EPath p) = true -> reads (read_source constants (S fuel)) (text (EPath p)) (source_of (EPath p)).
Proof.
  destruct p as [segs]. cbn [clean segments format_binding_source source_of]. unfold format_path_source, path_source.
  destruct (bound_let lets segs); [done|]. destruct segs as [|head rest]; [done|]. cbn [List.tl]. unfold first_segment.
  destruct (head =? "input"); [intros H; destruct (existsb _ optional); [by apply reads_optional|by apply reads_input]|].
  destruct (head =? "ctx"); [by apply reads_ctx|]. destruct (head =? "target"); [by apply reads_target|].
  destruct (head =? "route"); [by apply reads_input|done].
Qed.

Lemma text_len e : 0 < str_len (text e).
Proof.
  destruct e as [p|s|n|b|l| |f args]; cbn [format_binding_source]; try (cbn; lia).
  - unfold format_path_source. repeat case_match; cbn; lia.
  - case_match; cbn; lia.
Qed.

Lemma binding_source_reads e : clean e = true -> text_reads constants (text e) (source_of e).
Proof.
  induction e as [p|s|n|b|l| |f args IH] using Expr_ind'; intros Hc fuel Hf;
    (destruct fuel as [|fuel]; [exfalso; match type of Hf with str_len (format_binding_source _ _ _ ?e) <= 0 => pose proof (text_len e); lia end|]).
  - by apply binding_path_reads.
  - apply reads_const, const_text. exact Hc.
  - apply reads_const, const_int. exact Hc.
  - apply reads_const, const_bool.
  - cbn [format_binding_source source_of clean] in *. unfold QueryExact.enum_constant in *.
    destruct (_ =? "") eqn:E; [rewrite <-(escape_bare (variant l)) at 1 by done; by apply reads_const, const_text, bare_one_line|].
    rewrite <-(sapp_assoc (match type_name l with Some q => pascal (qn_name q) | None => "" end)).
    by apply reads_const, const_name.
  - exact (reads_const constants fuel "nil" Nil (const_nil constants)).
  - cbn [format_binding_source source_of clean] in *. apply andb_true_iff in Hc as [Hn Ha].
    apply fn_reads; [done| |exact Hf]. clear Hf Hn. induction args as [|a args IHa]; [constructor|].
    cbn [forallb] in Ha. apply andb_true_iff in Ha as [Ha1 Ha2]. inversion IH; subst. constructor; [by auto|by apply IHa].
Qed.
End Values.

(** ** Entries and maps *)

Section Entries.
Variable lets : list (string * Expr).
Variable optional : list string.

Definition assignment_means (a : Assignment) : string * Source := (lower_ascii (as_field a), source_of optional (as_value a)).
Definition assignment_clean (a : Assignment) : bool := bare_text (lower_ascii (as_field a)) && clean lets optional (as_value a).
Definition key_means (k : WhereKeyBinding) : string * Source := (wk_column k, FromInput (input_field k)).
Definition key_clean (k : WhereKeyBinding) : bool := bare_text (wk_column k) && bare_text (input_field k).
Definition scope_means (b : ScopeBinding) : string * Source :=
  (sb_column b, match via b with None => FromCtx (ctx_path b) | Some (t, o) => FromCtxOwnedVia t o (ctx_path b) end).
Definition scope_clean (b : ScopeBinding) : bool :=
  bare_text (sb_column b) && bare_text (ctx_path b) && match via b with None => true | Some (t, o) => bare_text t && bare_text o end.

Lemma pair_reads close c text src : bare_text c = true -> digit_head close = false -> text_reads constants text src ->
  read_pair constants close (quoted c +:+ ": " +:+ text +:+ close) = Some (c, src).
Proof.
  intros Hc Hd Ht. unfold read_pair. rewrite go_lit_bare by done. cbn [mbind option_bind]. rewrite strip_prefix_app. cbn [mbind option_bind].
  unfold go_source. rewrite (proj2 (Ht (str_len (text +:+ close)) ltac:(rewrite len_app; lia))) by done. cbn [mbind option_bind].
  by rewrite String.eqb_refl.
Qed.
Lemma key_reads close k : key_clean k = true -> digit_head close = false ->
  read_pair constants close (quoted (escape_string (wk_column k)) +:+ ": lazuli.FromInput(" +:+ quoted (input_field k) +:+ ")" +:+ close) = Some (key_means k).
Proof.
  unfold key_clean. intros [Hc Hi]%andb_true_iff Hd. rewrite escape_bare by done.
  pose proof (pair_reads close (wk_column k) ("lazuli.FromInput(" +:+ quoted (input_field k) +:+ ")") (FromInput (input_field k)) Hc Hd) as H.
  rewrite !sapp_assoc in H. apply H. intros [|fuel] Hf; [cbn in Hf; lia|]. by apply reads_input.
Qed.

Abbreviation pair_says := (says (read_pair constants ",")).

Lemma entry_says level c text src : bare_text c = true -> text_reads constants text src ->
  pair_says level (tabs (S level) (quoted c +:+ ": " +:+ text +:+ ",")) (Some (c, src)).
Proof. intros Hc Ht. apply says_entry; [done|]. by apply pair_reads. Qed.

Lemma rows_said level l : forallb assignment_clean l = true ->
  Forall2 (pair_says level) (List.map (fun a => tabs (S level) (format_binding_row up lets optional a)) l) (List.map (fun a => Some (assignment_means a)) l).
Proof.
  induction l as [|a l IH]; [constructor|]. cbn [forallb]. intros [[Hf Hv]%andb_true_iff Hl]%andb_true_iff. constructor; [|by apply IH].
  by apply entry_says; [|apply binding_source_reads].
Qed.
Lemma keys_said level keys : forallb key_clean keys = true ->
  Forall2 (pair_says level) (List.map (key_row (S level)) keys) (List.map (fun k => Some (key_means k)) keys).
Proof.
  induction keys as [|k keys IH]; [constructor|]. cbn [forallb]. intros [Hk Hks]%andb_true_iff. constructor; [|by apply IH].
  apply says_entry; [done|]. pose proof (key_reads "," k Hk eq_refl) as H. by rewrite <-H.
Qed.
Lemma scopes_said level bindings : forallb scope_clean bindings = true ->
  Forall2 (pair_says level) (scope_rows (S level) bindings) (flat_map (fun b => [None; Some (scope_means b)]) bindings).
Proof.
  unfold scope_rows. induction bindings as [|b bs IH]; [constructor|]. cbn [forallb flat_map]. intros [Hb Hbs]%andb_true_iff.
  apply Forall2_app; [|by apply IH]. clear IH Hbs. unfold scope_clean in Hb. rewrite !andb_true_iff in Hb. destruct Hb as [[Hc Hp] Hv].
  unfold emit_scope_binding_row, scope_means. destruct (via b) as [[t o]|].
  - apply andb_true_iff in Hv as [Ht Ho]. rewrite !escape_bare by done. constructor; [by apply (says_comment _ level (" scope: " +:+ _))|]. constructor; [|constructor].
    pose proof (entry_says level (sb_column b) ("lazuli.FromCtxOwnedVia(" +:+ quoted t +:+ ", " +:+ quoted o +:+ ", " +:+ quoted (ctx_path b) +:+ ")")
      (FromCtxOwnedVia t o (ctx_path b)) Hc) as H. rewrite !sapp_assoc in H. apply H. intros [|fuel] Hf; [cbn in Hf; lia|]. by apply reads_owned.
  - rewrite !escape_bare by done. constructor; [by apply (says_comment _ level (" scope: " +:+ _))|]. constructor; [|constructor].
    pose proof (entry_says level (sb_column b) ("lazuli.FromCtx(" +:+ quoted (ctx_path b) +:+ ")") (FromCtx (ctx_path b)) Hc) as H.
    rewrite !sapp_assoc in H. apply H. intros [|fuel] Hf; [cbn in Hf; lia|]. by apply reads_ctx.
Qed.

Lemma omap_scopes bindings : omap id (flat_map (fun b => [None; Some (scope_means b)]) bindings) = List.map scope_means bindings.
Proof. induction bindings as [|b bs IH]; cbn; [done|]. by f_equal. Qed.
Lemma omap_somes {A B} (f : A -> B) l : omap id (List.map (fun a => Some (f a)) l) = List.map f l.
Proof. induction l as [|x l IH]; cbn; [done|]. by f_equal. Qed.

Lemma pairs_read level lines xs close rest : starts_with (String TAB "") close = false -> Forall2 (pair_says level) lines xs ->
  read_pairs constants (S level) (lines ++ tabs level close :: rest) = Some (omap id xs, tabs level close :: rest).
Proof.
  intros Hc. induction 1 as [|line x lines xs H _ IH]; cbn [app read_pairs]; [by rewrite strip_tabs_less|].
  inversion H as [s y Hs He|s]; subst; rewrite strip_tabs.
  - rewrite Hs, He. cbn [mbind option_bind]. by rewrite IH.
  - rewrite (starts_with_app "//" s). exact IH.
Qed.
Lemma map_reads close level lines xs rest : starts_with (String TAB "") close = false -> Forall2 (pair_says level) lines xs ->
  read_map constants close level (lines ++ tabs level close :: rest) = b ← distinct (omap id xs); Some (b, rest).
Proof.
  intros Hc Hl. unfold read_map. rewrite (pairs_read level lines xs close rest Hc Hl). cbn [mbind option_bind].
  destruct (distinct _); [|done]. cbn [mbind option_bind]. by rewrite String.eqb_refl.
Qed.

Lemma tabs_app k s t : tabs k (s +:+ t) = tabs k s +:+ t.
Proof. induction k as [|k IH]; [done|]. cbn. by rewrite IH. Qed.
Lemma strip_tabs_head k p s : strip_prefix (tabs k p) (tabs k (p +:+ s)) = Some s.
Proof. rewrite tabs_app. apply strip_prefix_app. Qed.

Lemma block_reads level lines xs rest : Forall2 (pair_says level) lines xs ->
  read_bindings constants level (tabs level "lazuli.Bindings{" :: lines ++ tabs level "}," :: rest) = b ← distinct (omap id xs); Some (b, rest).
Proof.
  intros Hl. cbn [read_bindings]. pose proof (strip_tabs_head level "lazuli.Bindings{" "") as E. rewrite sapp_nil_r in E. rewrite E.
  cbn [mbind option_bind]. by apply map_reads.
Qed.
Lemma compact_reads level k rest : key_clean k = true ->
  read_bindings constants level
    (tabs level ("lazuli.Bindings{" +:+ quoted (escape_string (wk_column k)) +:+ ": lazuli.FromInput(" +:+ quoted (input_field k) +:+ ")},") :: rest) =
  Some ([key_means k], rest).
Proof.
  intros Hk. cbn [read_bindings]. rewrite strip_tabs_head. cbn [mbind option_bind]. pose proof (key_reads "}," k Hk eq_refl) as H.
  change (quoted (escape_string (wk_column k)) +:+ ": lazuli.FromInput(" +:+ quoted (input_field k) +:+ ")" +:+ "},") with
    (quoted (escape_string (wk_column k)) +:+ ": lazuli.FromInput(" +:+ quoted (input_field k) +:+ ")},") in H.
  rewrite H. by destruct (quoted (escape_string (wk_column k))).
Qed.
End Entries.

(** ** Effects *)

(** The [where] of an effect: the authored one, or the free keys; the scopes. *)
Definition where_of (optional : list string) (authored : list Assignment) (keys : list WhereKeyBinding) (bindings : list ScopeBinding) : Bindings :=
  (match authored with [] => List.map key_means keys | _ => List.map (assignment_means optional) authored end ++ List.map scope_means bindings)%list.
Definition where_clean (optional : list string) (authored : list Assignment) (keys : list WhereKeyBinding) (bindings : list ScopeBinding) : bool :=
  forallb (assignment_clean [] optional) authored && forallb key_clean keys && forallb scope_clean bindings.
Definition names_go (q : QualifiedName) : bool := str_all ident_char (resource_var_for_qname up q).

Lemma authored_said optional level l : forallb (assignment_clean [] optional) l = true ->
  Forall2 (says (read_pair constants ",") level)
    (List.map (fun w => tabs (S level) (quoted (escape_string (lower_ascii (as_field w))) +:+ ": " +:+ format_binding_source up [] optional (as_value w) +:+ ",")) l)
    (List.map (fun a => Some (assignment_means optional a)) l).
Proof.
  intros H. rewrite (map_ext_in _ (fun a => tabs (S level) (format_binding_row up [] optional a))); [by apply rows_said|].
  intros a Ha. rewrite List.forallb_forall in H. specialize (H a Ha). unfold assignment_clean in H. apply andb_true_iff in H as [H _].
  by rewrite escape_bare.
Qed.

Lemma authored_reads optional level authored bindings rest : forallb (assignment_clean [] optional) authored = true -> forallb scope_clean bindings = true ->
  read_bindings constants level (emit_authored_where_map up level authored optional bindings ++ rest) =
  b ← distinct (List.map (assignment_means optional) authored ++ List.map scope_means bindings)%list; Some (b, rest).
Proof.
  intros Ha Hs. unfold emit_authored_where_map.
  pose proof (block_reads level _ _ rest (Forall2_app (authored_said optional level authored Ha) (scopes_said level bindings Hs))) as H.
  rewrite omap_app, omap_somes, omap_scopes in H. rewrite <-H. cbn [app]. by rewrite <-!app_assoc.
Qed.

(** The bindings of keys and scopes, with a comment on the first line or not. *)
Lemma scoped_said level (bulk : bool) keys bindings : forallb key_clean keys = true -> forallb scope_clean bindings = true ->
  exists xs, Forall2 (says (read_pair constants ",") level)
    ((if bulk then [tabs (S level) BULK] else []) ++ List.map (key_row (S level)) keys ++ scope_rows (S level) bindings) xs /\
  omap id xs = (List.map key_means keys ++ List.map scope_means bindings)%list.
Proof.
  intros Hk Hs. exists ((if bulk then [None] else []) ++ List.map (fun k => Some (key_means k)) keys ++ flat_map (fun b => [None; Some (scope_means b)]) bindings)%list.
  split.
  - apply Forall2_app; [destruct bulk; repeat constructor; exact (says_comment _ level " bulk: no id/route key — `@scope.*` alone scopes the affected rows.")|].
    apply Forall2_app; [by apply keys_said|by apply scopes_said].
  - rewrite !omap_app, omap_somes, omap_scopes. by destruct bulk.
Qed.

Lemma go_name_reads name rest : str_all ident_char name = true -> match rest with String c _ => ident_char c | "" => false end = false ->
  go_name (name +:+ rest) = (name, rest).
Proof. intros Hn Hr. unfold go_name. rewrite count_while_app by done. by rewrite take_app, drop_app. Qed.

Lemma starts_tabs k p s : starts_with (tabs k p) (tabs k s) = starts_with p s.
Proof. induction k as [|k IH]; [done|]. cbn. exact IH. Qed.

Lemma updates_read level command update lets transition bindings :
  let optional := collect_optional_inputs command in
  let keys := free_keys up command bindings in
  names_go (up_resource update) = true -> where_clean optional (up_where update) keys bindings = true ->
  forallb (assignment_clean lets optional) (up_assignments update) = true ->
  read_updates constants level (emit_updates_effect up level command update lets transition bindings) =
  w ← distinct (where_of optional (up_where update) keys bindings);
  b ← distinct (List.map (assignment_means optional) (up_assignments update));
  Some (resource_var_for_qname up (up_resource update), (w, b)).
Proof.
  intros optional keys Hn Hw Ha. unfold where_clean in Hw. apply andb_true_iff in Hw as [[Hau Hk]%andb_true_iff Hs].
  unfold emit_updates_effect. fold optional. fold keys. set (bulk := is_nil keys && negb (is_nil bindings)). cbv zeta.
  set (header := tabs level ("Effect: lazuli.Updates(&" +:+ resource_var_for_qname up (up_resource update) +:+ ",")).
  set (bind := ([tabs (S level) "lazuli.Bindings{"] ++
   List.map (fun a => tabs (S (S level)) (format_binding_row up lets optional a)) (up_assignments update) ++ [tabs (S level) "},"; tabs level "),"])%list).
  set (where_ := match up_where update with [] => _ | _ => _ end).
  assert (Hwhere : read_bindings constants (S level) (where_ ++ bind) = b ← distinct (where_of optional (up_where update) keys bindings); Some (b, bind)).
  { unfold where_, where_of. destruct (up_where update) as [|w ws] eqn:Eu; [|by apply authored_reads].
    destruct (scoped_said (S level) bulk keys bindings Hk Hs) as (xs & Hxs & E). pose proof (block_reads (S level) _ _ bind Hxs) as R.
    rewrite E in R. rewrite <-!app_assoc in R. clear Hau E Hxs.
    assert (Hblock : read_bindings constants (S level) (([tabs (S level) "lazuli.Bindings{"] ++ (if bulk then [tabs (S (S level)) BULK] else []) ++
      List.map (key_row (S (S level))) keys ++ scope_rows (S (S level)) bindings ++ [tabs (S level) "},"]) ++ bind) =
      b ← distinct (List.map key_means keys ++ List.map scope_means bindings)%list; Some (b, bind)) by (rewrite <-R; cbn [app]; by rewrite <-!app_assoc).
    destruct bindings as [|b bs]; [|exact Hblock]. destruct keys as [|k [|k' ks]]; [exact Hblock| |exact Hblock].
    cbn [forallb] in Hk. apply andb_true_iff in Hk as [Hk _]. exact (compact_reads (S level) k bind Hk). }
  assert (Hbind : read_bindings constants (S level) bind = b ← distinct (List.map (assignment_means optional) (up_assignments update)); Some (b, [tabs level "),"])).
  { pose proof (block_reads (S level) _ _ [tabs level "),"] (rows_said lets optional (S level) _ Ha)) as R. rewrite omap_somes in R. exact R. }
  assert (Hskip : forall front, Forall (fun line => starts_with (tabs level "//") line = true) front ->
    skip_comments level (front ++ [header] ++ where_ ++ bind) = header :: (where_ ++ bind)).
  { intros front. induction 1 as [|line front H _ IH]; cbn [app skip_comments].
    - unfold header. by rewrite starts_tabs.
    - by rewrite H. }
  unfold read_updates. rewrite Hskip.
  2: { destruct transition as [[[r l] t]|]; [|constructor]. constructor; [|constructor]. by rewrite starts_tabs. }
  unfold header. rewrite strip_tabs_head. cbn [mbind option_bind]. rewrite go_name_reads by done. rewrite String.eqb_refl, Hwhere.
  destruct (distinct _); [|done]. cbn [mbind option_bind]. rewrite Hbind. destruct (distinct _); [|done]. cbn [mbind option_bind]. by rewrite String.eqb_refl.
Qed.

(** The keys of a delete. *)
Lemma deletes_read level command delete bindings :
  let optional := collect_optional_inputs command in
  let keys := delete_keys up command bindings in
  names_go (de_resource delete) = true -> where_clean optional (de_where delete) keys bindings = true ->
  read_deletes constants level (emit_deletes_effect up level command delete bindings) =
  w ← distinct (where_of optional (de_where delete) keys bindings); Some (resource_var_for_qname up (de_resource delete), w).
Proof.
  intros optional keys Hn Hw. unfold where_clean in Hw. apply andb_true_iff in Hw as [[Hau Hk]%andb_true_iff Hs].
  unfold emit_deletes_effect, where_of. fold optional. fold keys. destruct (de_where delete) as [|w ws] eqn:Ed.
  - cbn [app read_deletes]. rewrite strip_tabs_head. cbn [mbind option_bind]. rewrite go_name_reads by done. cbv iota beta.
    change (", lazuli.Bindings{" =? ", lazuli.Bindings{") with true. cbv iota.
    destruct (scoped_said level (is_nil keys && negb (is_nil bindings)) keys bindings Hk Hs) as (xs & Hxs & E).
    pose proof (map_reads "})," level _ _ [] eq_refl Hxs) as R. rewrite E, <-!app_assoc in R. rewrite R.
    by destruct (distinct _).
  - rewrite <-Ed. cbn [app read_deletes]. rewrite strip_tabs_head. cbn [mbind option_bind]. rewrite go_name_reads by done. cbv iota beta.
    change (", " =? ", lazuli.Bindings{") with false. change (", " =? ", ") with true. cbv iota. rewrite <-Ed in Hau.
    rewrite authored_reads by done. rewrite Ed. destruct (distinct _); [|done]. cbn [mbind option_bind]. by rewrite String.eqb_refl.
Qed.
End Codegen.

(** * What an author asks for *)

Section Meaning.
Variable up : string -> string.
Variable constants : string -> option Value.
Variable host : Host.
Variable ctx : Ctx.
Variable args : list (string * Value).
Variable optional : list string.
Abbreviation input := (arg_struct up args).
Abbreviation resolve := (resolveSource host ctx input).

Definition okay {A} (r : go A) : option A := match r with Ok x => Some x | Err _ => None end.

(** The value of an expression in a request: inputs and route slots are fields
    of the input, [ctx] is the context. *)
Definition path_value (segs : list string) : option Value :=
  match segs with
  | head :: rest =>
    if (head =? "input") || (head =? "route") then match rest with [x] => deref <$> arg_value args x | _ => None end
    else if head =? "ctx" then okay (readCtx ctx (join "." rest)) else None
  | [] => None
  end.
Fixpoint eval (e : Expr) : option Value :=
  match e with
  | EPath p => path_value (segments p)
  | EString s => Some (SqlRows.Text s)
  | EInteger n => Some (Int n)
  | EBoolean b => Some (Bool b)
  | ENil => Some Nil
  | EEnum l => match QueryExact.enum_constant up l with None => Some (SqlRows.Text (variant l)) | Some c => Some (default Nil (constants c)) end
  | EFnCall f es =>
    fn ← binding_fn host (qn_name f);
    vs ← (fix go es := match es with [] => Some [] | e :: es => v ← eval e; vs ← go es; Some (v :: vs) end) es;
    okay (fn vs)
  end.

(** The inputs an expression reads are fields, no other of which has a Go name
    that is the name read. *)
Definition field_known (x : string) : bool :=
  ident x && match arg_value args x with Some _ => true | None => false end && negb (existsb (fun xv => pascal_case up xv.1 =? x) args).
Fixpoint known (e : Expr) : bool :=
  match e with
  | EPath p =>
    match segments p with
    | head :: rest => if (head =? "input") || (head =? "route") then match rest with [x] => field_known x | _ => false end
      else (head =? "ctx") || (head =? "target")
    | [] => false
    end
  | EFnCall _ es => forallb known es
  | _ => true
  end.

Lemma raw_value x v : args_ok up args -> field_known x = true -> arg_value args x = Some v -> readPath input x = Ok (deref v).
Proof.
  intros Ha Hk Hv. unfold field_known in Hk. rewrite !andb_true_iff, negb_true_iff in Hk. destruct Hk as [[Hi _] Hf].
  pose proof (QueryExact.field_value up args x v Ha Hv) as Hp. apply Expr.ident_chars in Hi as [Hc _].
  unfold readPath in *. rewrite split_char_none in Hp.
  2: { eapply str_all_impl; [|by apply QueryExact.pascal_chars]. intros b. by_bytes b. }
  rewrite split_char_none by (eapply str_all_impl; [|exact Hc]; intros b; by_bytes b).
  unfold arg_struct in *. cbn [walk_path] in *. unfold resolveField in *.
  assert (E : List.find (fun f : (string * string) * Value => f.1.1 =? x) (List.map (fun xv => ((pascal_case up xv.1, xv.1), xv.2)) args) = None).
  { clear -Hf. induction args as [|[y w] l IH]; [done|]. cbn in *. apply orb_false_iff in Hf as [-> Hf]. by apply IH. }
  rewrite E. cbn [fmap option_fmap option_map].
  rewrite (pascal_agrees_spec up) by (eapply str_all_impl; [|exact Hc]; intros b; by_bytes b).
  destruct (List.find (fun f : (string * string) * Value => f.1.1 =? pascal_case up x) _) as [f|] eqn:Ef; cbn [fmap option_fmap option_map] in *; [exact Hp|].
  exfalso. unfold arg_value in Hv. destruct (List.find _ args) as [[y w]|] eqn:Ey; [|done]. apply List.find_some in Ey as [Hin Hy].
  cbn in Hy. apply String.eqb_eq in Hy as ->. pose proof (List.find_none _ _ Ef ((pascal_case up x, x), w)) as H. cbn in H. rewrite String.eqb_refl in H.
  by discriminate H; apply in_map_iff; exists (x, w).
Qed.

Lemma resolve_fn name es : okay (resolve (FromFn name es)) =
  fn ← binding_fn host name; vs ← mapM (fun e => okay (resolve e)) es; okay (fn vs).
Proof.
  cbn [resolveSource]. destruct (binding_fn host name) as [fn|]; [|done]. cbn [mbind option_bind].
  match goal with |- okay (vs ← ?go es; fn vs) = _ => set (args_go := go) end.
  assert (E : forall l, okay (args_go l) = mapM (fun e => okay (resolve e)) l).
  { induction l as [|e l IH]; [done|]. cbn. destruct (resolveSource host ctx input e) as [v|]; [|done]. cbn. cbn in IH.
    rewrite <-IH. by destruct (args_go l). }
  rewrite <-E. by destruct (args_go es).
Qed.

Lemma eval_resolves e : args_ok up args -> known e = true -> okay (resolve (source_of up constants optional e)) = eval e.
Proof.
  intros Ha. induction e as [p|s|n|b|l| |f es IH] using Expr_ind'; intros Hk; try done.
  - destruct p as [segs]. cbn [source_of eval known segments] in *. destruct segs as [|head rest]; [done|]. unfold path_source, path_value in *.
    destruct (String.eqb_spec head "input") as [->|Hi]; cbn [orb] in *.
    { destruct rest as [|x [|]]; [done| |done]. cbn [join]. pose proof Hk as Hk'. unfold field_known in Hk'.
      destruct (arg_value args x) as [v|] eqn:Ev; [|by rewrite andb_false_r in Hk']. clear Hk'.
      destruct (existsb _ optional); cbn -[readPath]; by rewrite (raw_value x v Ha Hk Ev). }
    destruct (String.eqb_spec head "route") as [->|Hr]; cbn [orb] in *.
    { destruct rest as [|x [|]]; [done| |done]. cbn [join String.eqb]. pose proof Hk as Hk'. unfold field_known in Hk'.
      destruct (arg_value args x) as [v|] eqn:Ev; [|by rewrite andb_false_r in Hk']. cbn -[readPath]. by rewrite (raw_value x v Ha Hk Ev). }
    destruct (head =? "ctx"); [done|]. by destruct (head =? "target").
  - cbn [source_of eval]. by destruct (QueryExact.enum_constant up l).
  - cbn [source_of]. rewrite resolve_fn. cbn [eval]. destruct (binding_fn host (qn_name f)) as [fn|]; [|done]. cbn [mbind option_bind].
    match goal with |- _ = (vs ← ?go es; _) => set (eval_go := go) end.
    assert (E : mapM (fun e => okay (resolve e)) (List.map (source_of up constants optional) es) = eval_go es).
    { cbn [known] in Hk. clear -IH Hk. induction es as [|e es IHe]; [done|]. cbn [forallb] in Hk. apply andb_true_iff in Hk as [H1 H2].
      inversion IH as [|? ? He Hes]; subst. cbn [List.map].
      change (mapM (fun e => okay (resolve e)) (?a :: ?l)) with (v ← okay (resolve a); vs ← mapM (fun e => okay (resolve e)) l; Some (v :: vs)).
      rewrite (He H1), (IHe Hes H2). done. }
    by rewrite E.
Qed.

(** ** Rows *)

Definition equals (row : Row) (column : string) (v : option Value) : bool :=
  match v with Some v => bool_decide (sql_eq (cell row column) v = Some true) | None => false end.
Definition asks (row : Row) (a : Assignment) : bool := equals row (lower_ascii (as_field a)) (eval (as_value a)).
Definition key_asks (row : Row) (k : WhereKeyBinding) : bool := equals row (wk_column k) (okay (readPath input (input_field k))).
(** The row belongs to the user (or the organisation) of the request, itself or
    through the row its column refers to. *)
Definition scope_asks (db : Db) (row : Row) (b : ScopeBinding) : bool :=
  let actor := okay (readCtx ctx (ctx_path b)) in
  match via b with
  | None => equals row (sb_column b) actor
  | Some (t, o) => existsb (fun r => equals r o actor && equals row (sb_column b) (Some (cell r "id"))) (from_option rows [] (db !! t))
  end.
Definition asked (authored : list Assignment) (keys : list WhereKeyBinding) (bindings : list ScopeBinding) (db : Db) (row : Row) : bool :=
  match authored with [] => forallb (key_asks row) keys | _ => forallb (asks row) authored end && forallb (scope_asks db row) bindings.

Definition optional_input (e : Expr) : bool :=
  match e with
  | EPath p => match segments p with head :: rest => (head =? "input") && existsb (String.eqb (first_segment (join "." rest))) optional | [] => false end
  | _ => false
  end.
Definition absent (e : Expr) (v : Value) : bool := optional_input e && match v with Nil => true | _ => false end.
(** The columns a command writes: an absent optional input leaves its column. *)
Definition assigned (l : list Assignment) : list (string * Value) :=
  omap (fun a => v ← eval (as_value a); if absent (as_value a) v then None else Some (lower_ascii (as_field a), v)) l.

Lemma assignment_match db row a : args_ok up args -> known (as_value a) = true ->
  binding_match host ctx input db row (assignment_means up constants optional a) = asks row a.
Proof.
  intros Ha Hk. pose proof (eval_resolves (as_value a) Ha Hk) as H. unfold binding_match, asks, assignment_means. cbn [fst snd]. rewrite <-H.
  destruct (resolve _) as [v|]; [|done]. cbn [okay equals].
  destruct (as_value a) as [p|s|n|b|l| |f es]; try done; cbn [source_of].
  - unfold path_source. destruct (segments p); [done|]. repeat case_match; done.
  - by destruct (QueryExact.enum_constant up l).
Qed.
Lemma key_match db row k : binding_match host ctx input db row (key_means k) = key_asks row k.
Proof. unfold binding_match, key_asks, key_means. cbn [fst snd resolveSource]. by destruct (readPath input (input_field k)). Qed.
Lemma scope_match db row b : binding_match host ctx input db row (scope_means b) = scope_asks db row b.
Proof.
  unfold binding_match, scope_asks, scope_means. cbn [fst snd]. destruct (via b) as [[t o]|]; cbn [resolveSource].
  - destruct (readCtx ctx (ctx_path b)) as [v|]; [done|]. cbn [okay equals andb]. induction (from_option rows [] (db !! t)); [done|]. by cbn.
  - by destruct (readCtx ctx (ctx_path b)).
Qed.

Lemma forallb_perm {A} (p : A -> bool) l k : l ≡ₚ k -> forallb p l = forallb p k.
Proof. induction 1 as [|x l k _ IH|x y l|l k m _ IH1 _ IH2]; cbn; [done|by rewrite IH|by rewrite !andb_assoc, (andb_comm (p y))|congruence]. Qed.
Lemma forallb_map_eq {A B} (p : B -> bool) (q : A -> bool) f (l : list A) : (forall x, List.In x l -> p (f x) = q x) -> forallb p (List.map f l) = forallb q l.
Proof. induction l as [|x l IH]; [done|]. intros H. cbn. rewrite (H x) by (by left). f_equal. apply IH. intros y Hy. apply H. by right. Qed.

Lemma where_match authored keys bindings db row : args_ok up args -> forallb (fun a => known (as_value a)) authored = true ->
  NoDup (where_of up constants optional authored keys bindings).*1 ->
  forallb (binding_match host ctx input db row) (sortedBind (where_of up constants optional authored keys bindings)) = asked authored keys bindings db row.
Proof.
  intros Ha Hk Hd. unfold sortedBind. rewrite (forallb_perm _ _ _ (bt_collect_perm _ Hd)). unfold where_of, asked. rewrite forallb_app. f_equal.
  - destruct authored as [|a l]; [by apply forallb_map_eq; intros; apply key_match|]. apply forallb_map_eq. intros x Hx. apply assignment_match; [done|].
    rewrite List.forallb_forall in Hk. by apply Hk.
  - apply forallb_map_eq. intros. apply scope_match.
Qed.

Lemma target_asked res authored keys bindings db row : args_ok up args -> forallb (fun a => known (as_value a)) authored = true ->
  NoDup (where_of up constants optional authored keys bindings).*1 ->
  target host ctx input res (where_of up constants optional authored keys bindings) db row = visible ctx res row && asked authored keys bindings db row.
Proof. intros Ha Hk Hd. unfold target. by rewrite where_match. Qed.

Lemma written_assigned l : args_ok up args -> forallb (fun a => known (as_value a)) l = true -> NoDup (List.map (assignment_means up constants optional) l).*1 ->
  written host ctx input (sortedBind (List.map (assignment_means up constants optional) l)) ≡ₚ assigned l.
Proof.
  intros Ha Hk Hd. unfold written, sortedBind. rewrite (bt_collect_perm _ Hd). clear Hd.
  match goal with |- ?x ≡ₚ ?y => assert (x = y) as ->; [|done] end.
  induction l as [|a l IH]; [done|]. cbn [forallb] in Hk. apply andb_true_iff in Hk as [Hk Hl]. cbn [List.map omap list_omap assigned].
  rewrite IH by done. cbn [assignment_means fst snd]. pose proof (eval_resolves (as_value a) Ha Hk) as He. rewrite <-He.
  destruct (resolve (source_of up constants optional (as_value a))) as [v|] eqn:Er; [|done]. cbn [okay mbind option_bind].
  unfold absent, optional_input. destruct (as_value a) as [p|s|n|b|en| |f es]; try done; cbn [source_of].
  - unfold path_source. destruct (segments p) as [|head rest]; [done|]. destruct (head =? "input").
    2: { destruct (head =? "ctx"); [done|]. destruct (head =? "target"); [done|]. by destruct (head =? "route"). }
    cbn [andb]. destruct (existsb _ optional); cbn [default andb]; [|done]. by destruct v.
  - by destruct (QueryExact.enum_constant up en).
Qed.

(** ** Requests an effect runs in *)

Definition plain (c : string) : bool := str_all SqlRows.ident_char c.
Definition has_value (l : list Assignment) : Prop :=
  Forall (fun a => is_Some (eval (as_value a)) /\ plain (lower_ascii (as_field a)) = true) l.
Definition keys_set (keys : list WhereKeyBinding) : Prop :=
  Forall (fun k => is_Some (okay (readPath input (input_field k))) /\ plain (wk_column k) = true) keys.
Definition actor_known (bindings : list ScopeBinding) : Prop :=
  Forall (fun b => is_Some (okay (readCtx ctx (ctx_path b))) /\ plain (sb_column b) = true /\
    match via b with Some (t, o) => plain t = true /\ plain o = true | None => True end) bindings.
(** Everything the [where] of an effect reads is there, and there is a [where]. *)
Definition where_set (authored : list Assignment) (keys : list WhereKeyBinding) (bindings : list ScopeBinding) : Prop :=
  match authored with [] => keys_set keys /\ (keys <> [] \/ bindings <> []) | _ => has_value authored end /\ actor_known bindings.

Lemma okay_is_Some {A} (r : go A) : is_Some (okay r) -> exists x, r = Ok x.
Proof. destruct r as [x|]; [by exists x|]. by intros []. Qed.
Lemma assignments_resolve l : args_ok up args -> forallb (fun a => known (as_value a)) l = true -> has_value l ->
  Forall (fun cs => resolves host ctx input cs /\ plain cs.1 = true /\ forall t o p, cs.2 <> FromCtxOwnedVia t o p) (List.map (assignment_means up constants optional) l).
Proof.
  intros Ha Hk Hv. apply List.Forall_map. rewrite List.forallb_forall in Hk. unfold has_value in Hv. rewrite List.Forall_forall in Hv |- *. intros a Hin.
  destruct (Hv a Hin) as [He Hp]. rewrite <-(eval_resolves _ Ha (Hk a Hin)) in He. split; [by apply okay_is_Some|]. split; [exact Hp|].
  intros t o p. cbn [assignment_means snd]. destruct (as_value a) as [q|s|n|b|l'| |f es]; try done; cbn [source_of].
  - unfold path_source. destruct (segments q); [done|]. repeat case_match; done.
  - by destruct (QueryExact.enum_constant up l').
Qed.
Lemma where_resolves authored keys bindings : args_ok up args -> forallb (fun a => known (as_value a)) authored = true -> where_set authored keys bindings ->
  Forall (fun cs => resolves host ctx input cs /\ condition_plain cs.1 cs.2) (where_of up constants optional authored keys bindings) /\
  where_of up constants optional authored keys bindings <> [].
Proof.
  intros Ha Hk [Hw Hs]. unfold where_of. split.
  - apply Forall_app. split.
    + destruct authored as [|a l].
      * destruct Hw as [Hw _]. apply List.Forall_map. eapply List.Forall_impl; [|exact Hw]. intros k [Hv Hp]. split; [by apply okay_is_Some|by split].
      * eapply List.Forall_impl; [|by apply assignments_resolve]. intros [c src] (Hv & Hp & Hn). split; [done|]. split; [done|].
        destruct src; try done. by destruct (Hn _ _ _ eq_refl).
    + apply List.Forall_map. eapply List.Forall_impl; [|exact Hs]. intros b (Hv & Hp & Hvia). unfold scope_means, resolves, condition_plain. cbn [fst snd].
      destruct (via b) as [[t o]|]; (split; [by apply okay_is_Some|by split]).
  - destruct authored as [|a l]; [|done]. destruct Hw as [_ [Hne|Hne]]; [by destruct keys|]. destruct bindings; [done|]. by destruct (List.map key_means keys).
Qed.
End Meaning.

(** * From the source text *)

(** A line of an effect block an author writes: nothing, or [field = value],
    with [where] before it or not. *)
Inductive written_line : SourceLine -> option (bool * Assignment) -> Prop :=
| written_trivia line : is_trivia (trimmed line) = true -> written_line line None
| written_row line (is_where : bool) a : indent line = CommandSyntax.AGENT_INDENT_GRANDCHILD -> ident (as_field a) = true -> as_field a <> "where" ->
    Expr.spellable (as_value a) = true -> trimmed line = CommandSyntax.row_text is_where (as_field a) (Expr.show_expr (as_value a)) ->
    written_line line (Some (is_where, a)).
Definition of_kind (is_where : bool) (rows : list (option (bool * Assignment))) : list Assignment :=
  omap (fun r => '(w, a) ← r; if Bool.eqb w is_where then Some a else None) rows.

Lemma line_says line row : written_line line row -> exists row', CommandSyntax.says line row' /\
  (fun wa => (wa.1, lower_assignment wa.2)) <$> row' = row.
Proof.
  intros [l Ht|l w [f e] Hi Hf Hw He Ht].
  - exists None. split; [by constructor|done].
  - cbn [as_field as_value] in *. eexists. split.
    + apply (CommandSyntax.says_row l w f (Expr.show_expr e)); [done| |done]. unfold CommandSyntax.row_ok. rewrite Hf. cbn [andb].
      apply String.eqb_neq in Hw as ->. cbn [negb andb]. by apply Expr.show_edges.
    + cbn [fmap option_fmap option_map fst snd]. unfold lower_assignment. cbn [CommandSyntax.ad_field CommandSyntax.ad_value]. by rewrite Expr.lower_raw_expr_roundtrip.
Qed.
Lemma lines_say lines rows : Forall2 written_line lines rows -> exists rows', Forall2 CommandSyntax.says lines rows' /\
  forall w, List.map lower_assignment (CommandSyntax.of_kind w rows') = of_kind w rows.
Proof.
  induction 1 as [|line row lines rows H _ (rows' & Hs & E)]; [by exists []|]. apply line_says in H as (row' & Hr & Er).
  exists (row' :: rows'). split; [by constructor|]. intros w. specialize (E w). unfold of_kind, CommandSyntax.of_kind in *. cbn [omap list_omap].
  destruct row' as [[w' a]|]; cbn in Er; subst row; cbn [mbind option_bind]; [|exact E]. destruct (Bool.eqb w' w); [cbn; by f_equal|exact E].
Qed.

(** An effect block is read back and lowered to its rows. *)
Lemma effect_lowers header kind resource lines rows tail : edges_ok resource = true -> strip_suffix " from input" resource = None ->
  Forall2 written_line lines rows -> CommandSyntax.ends tail ->
  exists decl, CommandSyntax.parse_command_effect header (lines ++ tail) kind (" " +:+ resource) = Ok (decl, tail) /\
  lower_command_effect decl =
    let q := lower_qualified_name resource in
    match kind with
    | CommandSyntax.Creates => Creates {| cr_resource := q; from_input := false; cr_assignments := of_kind false rows |}
    | CommandSyntax.Updates => Updates {| up_resource := q; up_assignments := of_kind false rows; up_where := of_kind true rows |}
    | CommandSyntax.Deletes => Deletes {| de_resource := q; de_where := of_kind true rows |}
    end.
Proof.
  intros Hr Hs Hl Ht. apply lines_say in Hl as (rows' & Hl & E).
  pose proof (CommandSyntax.effect_roundtrip_spec header kind resource false lines rows' tail Hr Hs Hl Ht) as H. rewrite sapp_nil_r in H.
  eexists. split; [exact H|]. unfold lower_command_effect. cbn. rewrite !E. by destruct kind.
Qed.

(** * Compiled updates and deletes *)

(** An effect the generated package compiles with: names and texts Go holds,
    columns bound once, inputs that are fields. *)
Section Ready.
Variable up : string -> string.
Variable constants : string -> option Value.
Variable args : list (string * Value).
Variable feature : Feature.
Variable command : Command.
Abbreviation optional := (collect_optional_inputs command).
Abbreviation bindings := (scope_bindings command feature).
Definition where_columns (authored : list Assignment) (keys : list WhereKeyBinding) : list string :=
  (match authored with [] => List.map wk_column keys | _ => List.map (fun a => lower_ascii (as_field a)) authored end ++ List.map sb_column bindings)%list.
Definition where_ready (q : QualifiedName) (authored : list Assignment) (keys : list WhereKeyBinding) : bool :=
  names_go up q && where_clean up constants optional authored keys bindings && bool_decide (NoDup (where_columns authored keys)) &&
  forallb (fun a => known up args (as_value a)) authored.
Definition bind_ready (l : list Assignment) : bool :=
  forallb (assignment_clean up constants (let_bindings command) optional) l && bool_decide (NoDup (List.map (fun a => lower_ascii (as_field a)) l)) &&
  forallb (fun a => known up args (as_value a)) l.

Lemma where_fst authored keys : (where_of up constants optional authored keys bindings).*1 = where_columns authored keys.
Proof.
  unfold where_of, where_columns. rewrite fmap_app. f_equal; [|by induction bindings as [|b bs IH]; cbn; [|f_equal]].
  assert (E : forall l, (List.map (assignment_means up constants optional) l).*1 = List.map (fun a => lower_ascii (as_field a)) l)
    by (induction l as [|x l IH]; cbn; [done|by f_equal]).
  destruct authored; [|apply E]. induction keys as [|k ks IH]; cbn; [done|by f_equal].
Qed.
Lemma bind_fst l : (List.map (assignment_means up constants optional) l).*1 = List.map (fun a => lower_ascii (as_field a)) l.
Proof. induction l as [|x l IH]; cbn; [done|by f_equal]. Qed.
Lemma distinct_ok b : NoDup b.*1 -> distinct b = Some b.
Proof. intros H. unfold distinct. by rewrite bool_decide_eq_true_2. Qed.

Lemma where_ready_spec q authored keys : where_ready q authored keys = true ->
  names_go up q = true /\ where_clean up constants optional authored keys bindings = true /\
  NoDup (where_of up constants optional authored keys bindings).*1 /\ forallb (fun a => known up args (as_value a)) authored = true.
Proof. unfold where_ready. intros [[[H1 H2]%andb_true_iff H3%bool_decide_eq_true_1]%andb_true_iff H4]%andb_true_iff. by rewrite where_fst. Qed.
Lemma bind_ready_spec l : bind_ready l = true ->
  forallb (assignment_clean up constants (let_bindings command) optional) l = true /\
  NoDup (List.map (assignment_means up constants optional) l).*1 /\ forallb (fun a => known up args (as_value a)) l = true.
Proof. unfold bind_ready. intros [[H1 H2%bool_decide_eq_true_1]%andb_true_iff H3]%andb_true_iff. by rewrite bind_fst. Qed.
End Ready.

(** C2: An [updates] block an author writes, parsed, lowered, emitted as Go, read
    back and run by the runtime: in a request where they have values it is always
    given a statement, which changes exactly the visible rows its [where] rows (or,
    without them, its keys) ask for that the scopes of its policy allow, and writes
    the columns its assignments give a value. The scopes are those the generator
    binds ([scope_bindings]), of plain policies and owner axes; it binds none of a
    structured policy ([structured_scope_unbound]). *)
Theorem compiled_update_exact up constants host ctx args feature command header resource lines rows tail :
  edges_ok resource = true -> strip_suffix " from input" resource = None -> Forall2 written_line lines rows -> CommandSyntax.ends tail ->
  args_ok up args ->
  let update := {| up_resource := lower_qualified_name resource; up_assignments := of_kind false rows; up_where := of_kind true rows |} in
  let bindings := scope_bindings command feature in
  let keys := free_keys up command bindings in
  c_effect command = Updates update -> where_ready up constants args feature command (up_resource update) (of_kind true rows) keys = true ->
  bind_ready up constants args command (of_kind false rows) = true ->
  exists decl w b, CommandSyntax.parse_command_effect header (lines ++ tail) CommandSyntax.Updates (" " +:+ resource) = Ok (decl, tail) /\
  lower_command_effect decl = c_effect command /\
  read_updates constants 1 (emit_updates_effect up 1 command update (let_bindings command) (lifecycle_transition_for feature command) bindings) =
    Some (resource_var_for_qname up (up_resource update), (w, b)) /\
  forall res, let eff := {| u_Resource := res; u_Where := w; u_Bind := b |} in
  (tenant_known ctx res -> plain (snakeCase (Name res)) = true -> where_set up constants host ctx args (of_kind true rows) keys bindings ->
   of_kind false rows <> [] -> has_value up constants host ctx args (of_kind false rows) ->
   (forall c v, exists v', store_column host (Name res) c v = Ok v') -> exists sql ps, applyUpdates host ctx (arg_struct up args) eff = Ok (sql, ps)) /\
  forall sql ps, applyUpdates host ctx (arg_struct up args) eff = Ok (sql, ps) ->
    exists cols vs, cols ≡ₚ assigned up constants host ctx args (collect_optional_inputs command) (of_kind false rows) /\ stored_values host res cols vs /\
    (forall db row, target host ctx (arg_struct up args) res w db row =
       visible ctx res row && asked up constants host ctx args (of_kind true rows) keys bindings db row) /\
    forall db now base db' out, executes db now base sql ps db' out <->
      update_answer host ctx (arg_struct up args) eff cols.*1 vs db now db' out.
Proof.
  intros Hr Hs Hl Ht Ha update bindings keys He Hw Hb. destruct (effect_lowers header CommandSyntax.Updates resource lines rows tail Hr Hs Hl Ht) as (decl & Hp & Hd).
  cbv zeta in Hd. apply where_ready_spec in Hw as (Hn & Hc & Hwd & Hwk). apply bind_ready_spec in Hb as (Hbc & Hbd & Hbk).
  exists decl, (where_of up constants (collect_optional_inputs command) (of_kind true rows) keys bindings),
    (List.map (assignment_means up constants (collect_optional_inputs command)) (of_kind false rows)).
  split; [exact Hp|]. split; [by rewrite Hd, He|]. split.
  { rewrite (updates_read up constants 1 command update (let_bindings command) (lifecycle_transition_for feature command) bindings Hn Hc Hbc).
    fold keys. cbn [up_where up_assignments update]. by rewrite !distinct_ok. }
  intros res eff. split.
  { intros Hten Hname Hset Hne Hval Hst. destruct (where_resolves up constants host ctx args (collect_optional_inputs command) _ keys bindings Ha Hwk Hset) as [Hres Hwne].
    apply updates_builds; try done; [by destruct (of_kind false rows)|].
    eapply List.Forall_impl; [|exact (assignments_resolve up constants host ctx args (collect_optional_inputs command) _ Ha Hbk Hval)]. intros cs (H1 & H2 & _). by split. }
  intros sql ps H. apply updates_spec in H as (vs & Hv & _ & Hex). eexists _, vs.
  split; [by apply written_assigned|]. split; [exact Hv|]. split; [|exact Hex]. intros db row. by apply target_asked.
Qed.

(** C21: A [deletes] block an author writes, parsed, lowered, emitted as Go, read
    back and run by the runtime: in a request where its keys have values it is
    always given a statement, which removes, or marks deleted, exactly the visible
    rows its [where] rows (or, without them, its keys) ask for that the scopes of
    its policy allow: those the generator binds, as for the update. *)
Theorem compiled_delete_exact up constants host ctx args feature command header resource lines rows tail :
  edges_ok resource = true -> strip_suffix " from input" resource = None -> Forall2 written_line lines rows -> CommandSyntax.ends tail ->
  args_ok up args ->
  let delete := {| de_resource := lower_qualified_name resource; de_where := of_kind true rows |} in
  let bindings := scope_bindings command feature in
  let keys := delete_keys up command bindings in
  c_effect command = Deletes delete -> where_ready up constants args feature command (de_resource delete) (of_kind true rows) keys = true ->
  exists decl w, CommandSyntax.parse_command_effect header (lines ++ tail) CommandSyntax.Deletes (" " +:+ resource) = Ok (decl, tail) /\
  lower_command_effect decl = c_effect command /\
  read_deletes constants 1 (emit_deletes_effect up 1 command delete bindings) = Some (resource_var_for_qname up (de_resource delete), w) /\
  forall res, let eff := {| d_Resource := res; d_Where := w |} in
  (tenant_known ctx res -> plain (snakeCase (Name res)) = true -> where_set up constants host ctx args (of_kind true rows) keys bindings ->
   exists sql ps, applyDeletes host ctx (arg_struct up args) eff = Ok (sql, ps)) /\
  forall sql ps, applyDeletes host ctx (arg_struct up args) eff = Ok (sql, ps) ->
    (forall db row, target host ctx (arg_struct up args) res w db row =
       visible ctx res row && asked up constants host ctx args (of_kind true rows) keys bindings db row) /\
    forall db now base db' out, executes db now base sql ps db' out <->
      delete_answer host ctx (arg_struct up args) eff db now db' out.
Proof.
  intros Hr Hs Hl Ht Ha delete bindings keys He Hw. destruct (effect_lowers header CommandSyntax.Deletes resource lines rows tail Hr Hs Hl Ht) as (decl & Hp & Hd).
  cbv zeta in Hd. apply where_ready_spec in Hw as (Hn & Hc & Hwd & Hwk).
  exists decl, (where_of up constants (collect_optional_inputs command) (of_kind true rows) keys bindings).
  split; [exact Hp|]. split; [by rewrite Hd, He|]. split.
  { rewrite (deletes_read up constants 1 command delete bindings Hn Hc). fold keys. cbn [de_where delete]. by rewrite !distinct_ok. }
  intros res eff. split.
  { intros Hten Hname Hset. destruct (where_resolves up constants host ctx args (collect_optional_inputs command) _ keys bindings Ha Hwk Hset) as [Hres Hwne].
    by apply deletes_builds. }
  intros sql ps H. apply deletes_spec in H as [_ Hex]. split; [|exact Hex]. intros db row. by apply target_asked.
Qed.

(** * The owner scope *)

(** The row's owner column holds the user of the request. *)
Definition owned_by_user (ctx : Ctx) (column : string) (row : Row) : bool :=
  match ctx_User ctx with Some u => bool_decide (sql_eq (cell row column) (Int (ID u)) = Some true) | None => false end.

(** The plain policy of a command names an atom: [policy @x] does so itself,
    [policy c] by the atoms the first category [c] of the feature lists. A
    structured policy ([and], [or], [when]) is none of the two. *)
Inductive plain_policy_names (policies : Policies) : PolicyRef -> string -> Prop :=
| names_atom atom : plain_policy_names policies (RAtom atom) ("@" +:+ atom)
| names_category before c after atom : categories policies = (before ++ c :: after)%list ->
    (forall c', List.In c' before -> pc_name c' <> pc_name c) -> List.In atom (pc_atoms c) ->
    plain_policy_names policies (RLocal (pc_name c)) atom.

Lemma push_new_mono l acc a : List.In a acc -> List.In a (fold_left push_new l acc).
Proof.
  revert acc. induction l as [|x l IH]; intros acc H; [done|]. cbn. apply IH. unfold push_new.
  destruct (existsb _ acc); [done|]. apply in_app_iff. by left.
Qed.

Lemma push_new_all l acc a : List.In a l -> List.In a (fold_left push_new l acc).
Proof.
  revert acc. induction l as [|x l IH]; intros acc; [done|]. intros [->|H]; [|by apply IH]. cbn.
  apply push_new_mono. unfold push_new. destruct (existsb (String.eqb a) acc) eqn:E; [|apply in_app_iff; right; by left].
  apply existsb_exists in E as (y & Hy & Hay). apply String.eqb_eq in Hay as ->. done.
Qed.

Lemma plain_policy_atoms command policies atom : plain_policy_names policies (c_policy command) atom ->
  List.In atom (command_policy_atoms command policies).
Proof.
  intros H. unfold command_policy_atoms.
  assert (forall l, List.In atom l -> List.In atom (match c_policy_expr command with
    | Some expr => fold_left push_new (PolicyCodegen.walk_policy_expr_atoms expr) l | None => l end)) as Hexpr.
  { intros l Hl. destruct (c_policy_expr command); [by apply push_new_mono|done]. }
  apply Hexpr. destruct H as [a|before c after a Hc Hb Ha]; [by left|].
  enough (List.find (fun c' => pc_name c' =? pc_name c) (categories policies) = Some c) as -> by by apply push_new_all.
  rewrite Hc. clear -Hb. induction before as [|x before IH]; cbn; [by rewrite String.eqb_refl|].
  destruct (String.eqb_spec (pc_name x) (pc_name c)) as [E|]; [|apply IH; intros y Hy; apply Hb; by right].
  exfalso. by apply (Hb x (or_introl eq_refl)).
Qed.

Lemma owner_binding command feature resource column : scoped_resource (c_effect command) feature = Some resource ->
  List.In "@scope.owner" (command_policy_atoms command (f_policies feature)) -> find_scope_column resource OWNER_COLUMNS = Some column ->
  List.In (direct "@scope.owner" column "user.id") (scope_bindings command feature).
Proof.
  intros Hr Ha Hc. assert (H : List.In (direct "@scope.owner" column "user.id") (resolve_scope_bindings command feature)).
  { unfold resolve_scope_bindings. rewrite Hr. apply list_elem_of_In, list_elem_of_omap. exists "@scope.owner". split; [by apply list_elem_of_In|].
    unfold scope_binding_of. by rewrite String.eqb_refl, Hc. }
  unfold scope_bindings. destruct (owner_scope_binding _) as [b|]; [|done]. destruct (existsb _ _); [done|]. apply in_app_iff. by left.
Qed.

Lemma scoped_owned host ctx input res W column db row : NoDup W.*1 -> List.In (column, FromCtx "user.id") W ->
  target host ctx input res W db row = true -> owned_by_user ctx column row = true.
Proof.
  intros Hd Hin [_ H]%andb_true_iff. unfold sortedBind in H. rewrite (forallb_perm _ _ _ (bt_collect_perm _ Hd)), List.forallb_forall in H.
  specialize (H _ Hin). unfold binding_match in H. cbn [fst snd resolveSource] in H. unfold owned_by_user.
  change (readCtx ctx "user.id") with (match ctx_User ctx with None => Err no_user | Some u => Ok (Int (ID u)) end : go Value) in H.
  by destruct (ctx_User ctx).
Qed.

(** C3: With a plain policy that names [@scope.owner] ([policy @scope.owner], or a
    category of the feature that lists it), on a resource with an owner column,
    an update or a deletion (the value read from the generated package, run by the
    runtime) changes no row but those whose owner column holds the user of the
    request, whatever else it asks for; without a user it changes none. A
    structured policy is outside: a scope inside one binds nothing
    ([structured_scope_unbound]). *)
Theorem owner_scope_enforced up constants host ctx input feature command resource column :
  scoped_resource (c_effect command) feature = Some resource ->
  plain_policy_names (f_policies feature) (c_policy command) "@scope.owner" -> find_scope_column resource OWNER_COLUMNS = Some column ->
  let bindings := scope_bindings command feature in
  let optional := collect_optional_inputs command in
  (forall update transition var w b, c_effect command = Updates update -> names_go up (up_resource update) = true ->
    where_clean up constants optional (up_where update) (free_keys up command bindings) bindings = true ->
    forallb (assignment_clean up constants (let_bindings command) optional) (up_assignments update) = true ->
    read_updates constants 1 (emit_updates_effect up 1 command update (let_bindings command) transition bindings) = Some (var, (w, b)) ->
    forall res sql ps, applyUpdates host ctx input {| u_Resource := res; u_Where := w; u_Bind := b |} = Ok (sql, ps) ->
      forall db now base db' out, executes db now base sql ps db' out -> confined_to (snakeCase (Name res)) (owned_by_user ctx column) db db') /\
  (forall delete var w, c_effect command = Deletes delete -> names_go up (de_resource delete) = true ->
    where_clean up constants optional (de_where delete) (delete_keys up command bindings) bindings = true ->
    read_deletes constants 1 (emit_deletes_effect up 1 command delete bindings) = Some (var, w) ->
    forall res sql ps, applyDeletes host ctx input {| d_Resource := res; d_Where := w |} = Ok (sql, ps) ->
      forall db now base db' out, executes db now base sql ps db' out -> confined_to (snakeCase (Name res)) (owned_by_user ctx column) db db').
Proof.
  intros Hr Ha%plain_policy_atoms Hc bindings optional. pose proof (owner_binding command feature resource column Hr Ha Hc) as Hin.
  assert (Hw : forall authored keys W, distinct (where_of up constants optional authored keys bindings) = Some W ->
    NoDup W.*1 /\ List.In (column, FromCtx "user.id") W).
  { intros authored keys W H. unfold distinct in H. case_bool_decide as Hd; [|done]. injection H as <-. split; [done|]. unfold where_of. apply in_app_iff.
    right. apply in_map_iff. by exists (direct "@scope.owner" column "user.id"). }
  split.
  - intros update transition var w b He Hn Hcl Hb H. rewrite (updates_read up constants 1 command update (let_bindings command) transition bindings Hn Hcl Hb) in H.
    destruct (distinct (where_of _ _ _ _ _ _)) as [W|] eqn:Ew; [|done]. apply Hw in Ew as [Hd Hi]. cbn [mbind option_bind] in H.
    destruct (distinct _); [|done]. injection H as _ -> _. intros res sql ps H db now base db' out Hex.
    apply updates_spec in H as (vs & _ & _ & Hs). apply Hs, update_target in Hex. cbn [u_Resource u_Where] in Hex.
    eapply confined_mono, Hex. intros row Ho. destruct (target _ _ _ _ _ _ _) eqn:Et; [|done]. apply scoped_owned with (column := column) in Et; [congruence|done|done].
  - intros delete var w He Hn Hcl H. rewrite (deletes_read up constants 1 command delete bindings Hn Hcl) in H.
    destruct (distinct (where_of _ _ _ _ _ _)) as [W|] eqn:Ew; [|done]. apply Hw in Ew as [Hd Hi]. injection H as _ ->. intros res sql ps H db now base db' out Hex.
    apply deletes_spec in H as [_ Hs]. apply Hs, delete_target in Hex. cbn [d_Resource d_Where] in Hex.
    eapply confined_mono, Hex. intros row Ho. destruct (target _ _ _ _ _ _ _) eqn:Et; [|done]. apply scoped_owned with (column := column) in Et; [congruence|done|done].
Qed.

(** * What the scopes and keys miss *)

(** The atoms of a structured policy are Go literals, which are no scope atom. *)
Lemma structured_scope_unbound command feature : c_policy command = RNone -> resolve_scope_bindings command feature = [].
Proof.
  intros Hp. unfold resolve_scope_bindings. destruct (scoped_resource _ _) as [resource|]; [|done]. unfold command_policy_atoms. rewrite Hp.
  destruct (c_policy_expr command) as [e|]; [|done].
  assert (H : forall a, a ∈ fold_left push_new (PolicyCodegen.walk_policy_expr_atoms e) [] -> starts_with "{" a = true).
  { rewrite PolicyCodegen.walk_flatten. assert (Hnil : forall a : string, a ∈ ([] : list string) -> starts_with "{" a = true) by (intros a Hin%elem_of_nil; done).
    revert Hnil. generalize ([] : list string). induction (PolicyCodegen.flatten e) as [|x l IH]; intros acc Hacc; [exact Hacc|]. cbn [List.map fold_left]. apply IH.
    intros a. unfold push_new. destruct (existsb _ acc); [by apply Hacc|]. intros [Hin|Hin%list_elem_of_singleton]%elem_of_app; [by apply Hacc|]. subst a. unfold PolicyCodegen.go_atom_literal. by destruct (PolicyRuntime.When x). }
  induction (fold_left _ _ []) as [|a l IH]; [done|]. cbn. assert (Ha := H a (list_elem_of_here _ _)). rewrite IH by (intros b Hb; apply H; by right).
  destruct (scope_binding_of resource feature a) eqn:E; [|done]. exfalso. unfold scope_binding_of in E.
  repeat case_match; try done; match goal with Hx : (a =? _) = true |- _ => apply String.eqb_eq in Hx as -> end; done.
Qed.

(** One typed input and no route: that input is the key of the row, also where it
    is the value written. *)
Lemma single_input_is_key up command slot : c_route command = [] -> c_input command = Typed [slot] ->
  resolve_where_keys up command = [key_of_slot up (ts_name slot)].
Proof. intros Hr Hi. unfold resolve_where_keys. by rewrite Hr, Hi. Qed.

(** An update without inputs and route keeps the key [id], read from an input the
    command does not have, unless a scope takes it. *)
Lemma inputless_update_keyed up command bindings : c_route command = [] -> c_input command = Empty ->
  existsb (fun b => sb_column b =? "id") bindings = false -> free_keys up command bindings = [{| wk_column := "id"; input_field := "ID" |}].
Proof. intros Hr Hi Hb. unfold free_keys, resolve_where_keys. rewrite Hr, Hi. cbn [List.filter wk_column]. by rewrite Hb. Qed.

(** A [where] row on the column a scope binds: the map has its key twice. *)
Lemma authored_scope_clash up constants level command update lets transition bindings a b :
  let optional := collect_optional_inputs command in
  names_go up (up_resource update) = true -> where_clean up constants optional (up_where update) (free_keys up command bindings) bindings = true ->
  forallb (assignment_clean up constants lets optional) (up_assignments update) = true ->
  List.In a (up_where update) -> List.In b bindings -> lower_ascii (as_field a) = sb_column b ->
  read_updates constants level (emit_updates_effect up level command update lets transition bindings) = None.
Proof.
  intros optional Hn Hw Hb Ha Hi E. rewrite (updates_read up constants level command update lets transition bindings Hn Hw Hb).
  match goal with |- (w ← distinct ?W; _) = None => destruct (distinct W) as [w|] eqn:Ed; [|done] end. exfalso.
  unfold distinct in Ed. case_bool_decide as Hd; [|done]. clear Ed. unfold where_of in Hd. destruct (up_where update) as [|a0 l] eqn:El; [done|]. rewrite <-El in *.
  rewrite fmap_app in Hd. apply NoDup_app in Hd as (_ & Hd & _). apply (Hd (sb_column b)).
  - rewrite <-E. apply list_elem_of_In, in_map_iff. exists (assignment_means up constants optional a). split; [done|]. by apply in_map.
  - apply list_elem_of_In, in_map_iff. exists (scope_means b). split; [done|]. by apply in_map.
Qed.

(** * A command *)

Definition note_resource : Resource := {|
  r_name := "Note"; fields := [QueryExact.note_field "title" (Builtin SemanticUrl); QueryExact.note_field "user_id" (Builtin Integer)];
  r_lifecycle := None; restrict_on_delete := [] |}.
Definition notes_feature : Feature := {|
  f_name := "notes"; resources := [note_resource]; f_policies := {| categories := [] |} |}.
Definition title_slot : QueryLowering.TypedSlot := {|
  QueryLowering.ts_name := "title"; QueryLowering.ts_type := Builtin SemanticUrl; QueryLowering.ts_required := true;
  QueryLowering.ts_constraints := default_constraints; QueryLowering.ts_validate_skip := false |}.
Definition note_command (effect : CommandEffect) : Command := {|
  c_name := "rename"; c_route := [{| rt_name := "id"; rt_type := Builtin Id; rt_from := None; rt_kind := Plain |}];
  c_input := Typed [title_slot]; c_lets := []; c_effect := effect; c_policy := RAtom "scope.owner"; c_policy_expr := None; c_handler := None;
  c_triggers := []; c_from_cap_file := false; c_owner_scope_sql := None |}.
Definition rename_args : list (string * Value) := [("id", Int 3); ("title", SqlRows.Text "new")].
Definition block_line (k : nat) (i : nat) (t : string) : SourceLine := {| text := Waiver.spaces i +:+ t; indent := i; start := k; end_ := k + 10 |}.
Definition path (segs : list string) : Path := {| segments := segs |}.
Definition note_rows : list (option (bool * Assignment)) :=
  [Some (true, {| as_field := "id"; as_value := EPath (path ["route"; "id"]) |}); None;
   Some (false, {| as_field := "title"; as_value := EPath (path ["input"; "title"]) |})].
Definition note_block : list SourceLine := [block_line 20 6 "where id = route.id"; block_line 40 6 "# the title"; block_line 50 6 "title = input.title"].
Lemma note_block_written : Forall2 written_line note_block note_rows.
Proof.
  repeat first [apply Forall2_nil_2 | apply Forall2_cons_2]; [by apply written_row|by apply written_trivia|by apply written_row].
Defined.
Definition renaming : UpdateEffect := {|
  up_resource := lower_qualified_name "Note"; up_assignments := of_kind false note_rows; up_where := of_kind true note_rows |}.
Definition discarding : DeleteEffect := {| de_resource := lower_qualified_name "Note"; de_where := of_kind true note_rows |}.
Definition an_upper := QueryExact.an_upper.
Definition no_constants := QueryExact.no_constants.
Lemma rename_args_ok : args_ok an_upper rename_args.
Proof. split; [apply (bool_decide_eq_true_1 _); vm_compute; reflexivity|repeat constructor]. Defined.

Lemma compiled_update_exact_witness :
  let command := note_command (Updates renaming) in
  let bindings := scope_bindings command notes_feature in
  exists w b, read_updates no_constants 1 (emit_updates_effect an_upper 1 command renaming (let_bindings command) (lifecycle_transition_for notes_feature command) bindings) =
    Some ("noteResource", (w, b)) /\
  exists sql ps, applyUpdates a_host a_ctx (arg_struct an_upper rename_args) {| u_Resource := notes; u_Where := w; u_Bind := b |} = Ok (sql, ps) /\
  forall db row, target a_host a_ctx (arg_struct an_upper rename_args) notes w db row =
    visible a_ctx notes row && asked an_upper no_constants a_host a_ctx rename_args (of_kind true note_rows) (free_keys an_upper command bindings) bindings db row.
Proof.
  intros command bindings.
  destruct (compiled_update_exact an_upper no_constants a_host a_ctx rename_args notes_feature command
    (block_line 0 4 "updates Note") "Note" note_block note_rows [] eq_refl eq_refl note_block_written I rename_args_ok eq_refl)
    as (decl & w & b & _ & _ & H & Hrun); [vm_compute; reflexivity|vm_compute; reflexivity|].
  exists w, b. split; [exact H|]. destruct (Hrun notes) as [Hb Hex]. destruct Hb as (sql & ps & Hs).
  - intros _. by exists 1%Z.
  - vm_compute; reflexivity.
  - split; [constructor; [|constructor]; split; [by exists (Int 3)|vm_compute; reflexivity]|].
    constructor; [|constructor]. split; [by exists (Int 7)|]. split; [vm_compute; reflexivity|done].
  - discriminate.
  - constructor; [|constructor]. split; [by exists (SqlRows.Text "new")|vm_compute; reflexivity].
  - intros c v. by exists v.
  - exists sql, ps. split; [exact Hs|]. destruct (Hex sql ps Hs) as (cols & vs & _ & _ & Ht & _). exact Ht.
Defined.

Lemma compiled_delete_exact_witness :
  let command := note_command (Deletes discarding) in
  let bindings := scope_bindings command notes_feature in
  exists w, read_deletes no_constants 1 (emit_deletes_effect an_upper 1 command discarding bindings) = Some ("noteResource", w) /\
  exists sql ps, applyDeletes a_host a_ctx (arg_struct an_upper rename_args) {| d_Resource := notes; d_Where := w |} = Ok (sql, ps) /\
  forall db row, target a_host a_ctx (arg_struct an_upper rename_args) notes w db row =
    visible a_ctx notes row && asked an_upper no_constants a_host a_ctx rename_args (of_kind true note_rows) (delete_keys an_upper command bindings) bindings db row.
Proof.
  intros command bindings.
  destruct (compiled_delete_exact an_upper no_constants a_host a_ctx rename_args notes_feature command
    (block_line 0 4 "deletes Note") "Note" note_block note_rows [] eq_refl eq_refl note_block_written I rename_args_ok eq_refl)
    as (decl & w & _ & _ & H & Hrun); [vm_compute; reflexivity|].
  exists w. split; [exact H|]. destruct (Hrun notes) as [Hb Hex]. destruct Hb as (sql & ps & Hs).
  - intros _. by exists 1%Z.
  - vm_compute; reflexivity.
  - split; [constructor; [|constructor]; split; [by exists (Int 3)|vm_compute; reflexivity]|].
    constructor; [|constructor]. split; [by exists (Int 7)|]. split; [vm_compute; reflexivity|done].
  - exists sql, ps. split; [exact Hs|]. exact (proj1 (Hex sql ps Hs)).
Defined.

Lemma owner_scope_enforced_witness :
  let command := note_command (Updates renaming) in
  exists var w b sql ps,
    read_updates no_constants 1 (emit_updates_effect an_upper 1 command renaming (let_bindings command) None (scope_bindings command notes_feature)) = Some (var, (w, b)) /\
    applyUpdates a_host a_ctx (arg_struct an_upper rename_args) {| u_Resource := notes; u_Where := w; u_Bind := b |} = Ok (sql, ps) /\
    let db := notes_db [my_note; note 3 1 8 "theirs" Nil] in
    let db' := notes_db [<["updated_at" := Time 9]> (<["title" := SqlRows.Text "new"]> my_note); note 3 1 8 "theirs" Nil] in
    executes db 9 empty sql ps db' [<["updated_at" := Time 9]> (<["title" := SqlRows.Text "new"]> my_note)] /\
    confined_to "note" (owned_by_user a_ctx "user_id") db db'.
Proof.
  intros command. eexists _, _, _, _, _. split; [vm_compute; reflexivity|]. split; [vm_compute; reflexivity|]. intros db db'. run_first H.
  exact (proj1 (owner_scope_enforced an_upper no_constants a_host a_ctx (arg_struct an_upper rename_args) notes_feature command note_resource "user_id"
    eq_refl (names_atom (f_policies notes_feature) "scope.owner") eq_refl) renaming None "noteResource" _ _ eq_refl ltac:(vm_compute; reflexivity) ltac:(vm_compute; reflexivity)
    ltac:(vm_compute; reflexivity) ltac:(vm_compute; reflexivity) notes _ _ ltac:(vm_compute; reflexivity) db 9%Z empty db' _ H).
Defined.
