(* ===== verification/CommandCreate.v ===== *)
(** From a [creates] block as it is written to the row it inserts: the generated
    effect value, read back and run by the runtime. *)
From Stdlib Require Import Permutation.
From stdpp Require Import gmap.
From S2P Require Import Prelude Str BTree Fmt Lex Helpers Ir Catalog Casing SqlRows RuntimeSql RuntimeRead RuntimeWrite GoSource CommandLowering CommandCodegen CommandExact.
From S2P Require Expr PolicyCodegen LifecycleLowering QueryLowering QueryExact CommandSyntax.
Import Expr (lower_qualified_name).
Import QueryLowering (OwnerScopeSql, os_field_name, os_fk_target, os_through_column, os_cte_owner_check).
Import PolicyCodegen (escape_string).
Import ReferentialGuard (tabs).
Import QueryExact (arg_struct, args_ok).

(** * Reading a create *)

(** [<label>"text",] *)
Definition read_text_field (level : nat) (label line : string) : option string :=
  s ← strip_prefix (tabs level label) line; '(t, r) ← go_lit s; if r =? "," then Some t else None.
Definition read_owner_check (level : nat) (lines : list string) : option OwnerCheckSpec :=
  match lines with
  | [a; b; c; close] =>
    f ← read_text_field (S level) "FKColumn:      " a; t ← read_text_field (S level) "RelatedTable:  " b;
    o ← read_text_field (S level) "ThroughColumn: " c;
    if close =? tabs level "})," then Some {| FKColumn := f; RelatedTable := t; ThroughColumn := o |} else None
  | _ => None
  end.
(** [Effect: lazuli.Creates(&v, <bind>),] or, with a check,
    [Effect: lazuli.CreatesWithOwnerCheck(&v, <bind>, <check>),] *)
Definition read_creates (constants : string -> option Value) (level : nat) (lines : list string) : option (string * (Bindings * option OwnerCheckSpec)) :=
  match lines with
  | [] => None
  | line :: rest =>
    match strip_prefix (tabs level "Effect: lazuli.Creates(&") line with
    | Some s =>
      let '(v, r) := go_name s in
      if r =? ", lazuli.Bindings{" then
        '(b, rest) ← read_map constants "})," level rest; match rest with [] => Some (v, (b, None)) | _ => None end
      else None
    | None =>
      s ← strip_prefix (tabs level "Effect: lazuli.CreatesWithOwnerCheck(&") line;
      let '(v, r) := go_name s in
      if r =? ", lazuli.Bindings{" then
        '(b, rest) ← read_map constants "}, lazuli.OwnerCheckSpec{" level rest; oc ← read_owner_check level rest; Some (v, (b, Some oc))
      else None
    end
  end.

(** * What the emitted effect means *)

Section Codegen.
Variable up : string -> string.
Variable constants : string -> option Value.
Abbreviation pascal := (pascal_case up).

(** The constant of the state a lifecycle starts in. *)
Definition state_constant (l : LifecycleLowering.Lifecycle) (state : string) : string :=
  enum_variant_name up (pascal (LifecycleLowering.generated_enum l)) state.
(** The state a created row starts in: of the lifecycle of its resource, unless the
    command assigns the discriminator. *)
Definition initial_state (create : CreateEffect) (resources : list Resource) : option (string * string) :=
  resource ← List.find (fun r => r_name r =? qn_name (cr_resource create)) resources;
  lifecycle ← r_lifecycle resource;
  let column := lower_ascii (LifecycleLowering.lc_discriminator lifecycle) in
  if existsb (fun a => lower_ascii (as_field a) =? column) (cr_assignments create) then None else
  state ← initial_lifecycle_state lifecycle; Some (column, state_constant lifecycle state).
Definition initial_means (create : CreateEffect) (resources : list Resource) : Bindings :=
  match initial_state create resources with Some (column, c) => [(column, FromConst (default Nil (constants c)))] | None => [] end.
Definition initial_clean (create : CreateEffect) (resources : list Resource) : bool :=
  match initial_state create resources with Some (column, c) => bare_text column && constant_name constants c | None => true end.

Definition owner_check_means (scope : option OwnerScopeSql) : option OwnerCheckSpec :=
  scope ← scope; _ ← os_cte_owner_check scope;
  Some {| FKColumn := os_field_name scope; RelatedTable := command_pascal_to_snake (os_fk_target scope); ThroughColumn := os_through_column scope |}.
Definition owner_check_clean (scope : option OwnerScopeSql) : bool :=
  match owner_check_means scope with Some oc => one_line (FKColumn oc) && one_line (RelatedTable oc) && one_line (ThroughColumn oc) | None => true end.

Definition bind_of (optional : list string) (create : CreateEffect) (resources : list Resource) : Bindings :=
  (List.map (assignment_means up constants optional) (cr_assignments create) ++ initial_means create resources)%list.

Lemma initial_row create resources : lifecycle_initial_binding up create resources =
  (fun cs => quoted cs.1 +:+ ": lazuli.FromConst(" +:+ cs.2 +:+ "),") <$> initial_state create resources.
Proof.
  unfold lifecycle_initial_binding, initial_state. destruct (List.find _ resources) as [r|]; [|done]. cbn [mbind option_bind].
  destruct (r_lifecycle r) as [l|]; [|done]. cbn [mbind option_bind]. destruct (existsb _ _); [done|]. by destruct (initial_lifecycle_state l).
Qed.

Lemma initial_said level create resources : initial_clean create resources = true ->
  Forall2 (says (read_pair constants ",") level)
    (match lifecycle_initial_binding up create resources with Some row => [tabs (S level) row] | None => [] end) (List.map Some (initial_means create resources)).
Proof.
  rewrite initial_row. unfold initial_clean, initial_means. destruct (initial_state create resources) as [[c k]|]; [|constructor].
  intros [Hc Hk]%andb_true_iff. cbn [fmap option_fmap option_map List.map fst snd]. constructor; [|constructor].
  pose proof (entry_says constants level c ("lazuli.FromConst(" +:+ k +:+ ")") (FromConst (default Nil (constants k))) Hc) as H. rewrite !sapp_assoc in H. apply H.
  intros [|fuel] Hf; [cbn in Hf; lia|]. by apply reads_const, const_name.
Qed.

Lemma text_field_reads level label s : one_line s = true ->
  read_text_field level label (tabs level (label +:+ quoted (escape_string s) +:+ ",")) = Some s.
Proof. intros H. unfold read_text_field. rewrite strip_tabs_head. cbn [mbind option_bind]. by rewrite go_lit_escaped. Qed.

Lemma strip_tabs_other k p q : strip_prefix p q = None -> strip_prefix (tabs k p) (tabs k q) = None.
Proof.
  intros H. destruct (strip_prefix (tabs k p) (tabs k q)) as [r|] eqn:E; [|done]. apply strip_prefix_Some in E. rewrite <-tabs_app in E.
  assert (q = p +:+ r) as ->; [|by rewrite strip_prefix_app in H]. clear -E. induction k as [|k IH]; [exact E|]. cbn in E. injection E as E. by apply IH.
Qed.

Lemma creates_read level command create lets resources :
  let optional := collect_optional_inputs command in
  names_go up (cr_resource create) = true -> forallb (assignment_clean up constants lets optional) (cr_assignments create) = true ->
  initial_clean create resources = true -> owner_check_clean (c_owner_scope_sql command) = true ->
  cr_assignments create <> [] \/ from_input create = false ->
  read_creates constants level (emit_creates_effect up level command create lets resources) =
  b ← distinct (bind_of optional create resources);
  Some (resource_var_for_qname up (cr_resource create), (b, owner_check_means (c_owner_scope_sql command))).
Proof.
  intros optional Hn Ha Hi Ho Hf.
  set (rows := (List.map (fun a => tabs (S level) (format_binding_row up lets optional a)) (cr_assignments create) ++
    match lifecycle_initial_binding up create resources with Some row => [tabs (S level) row] | None => [] end)%list).
  assert (Hrows : forall close rest, starts_with (String TAB "") close = false ->
    read_map constants close level (rows ++ tabs level close :: rest) = b ← distinct (bind_of optional create resources); Some (b, rest)).
  { intros close rest Hc. pose proof (map_reads constants close level rows _ rest Hc
      (Forall2_app (rows_said up constants lets optional level _ Ha) (initial_said level create resources Hi))) as H.
    rewrite omap_app, omap_somes, omap_id_some in H. exact H. }
  set (var := resource_var_for_qname up (cr_resource create)).
  assert (E : emit_creates_effect up level command create lets resources =
    match c_owner_scope_sql command with
    | Some {| os_field_name := f; os_fk_target := t; os_through_column := o; os_cte_owner_check := Some _ |} =>
      ([tabs level ("Effect: lazuli.CreatesWithOwnerCheck(&" +:+ var +:+ ", lazuli.Bindings{")] ++ rows ++
       [tabs level "}, lazuli.OwnerCheckSpec{"; tabs (S level) ("FKColumn:      " +:+ quoted (escape_string f) +:+ ",");
        tabs (S level) ("RelatedTable:  " +:+ quoted (escape_string (command_pascal_to_snake t)) +:+ ",");
        tabs (S level) ("ThroughColumn: " +:+ quoted (escape_string o) +:+ ","); tabs level "}),"])%list
    | _ => ([tabs level ("Effect: lazuli.Creates(&" +:+ var +:+ ", lazuli.Bindings{")] ++ rows ++ [tabs level "}),"])%list
    end).
  { unfold emit_creates_effect. fold optional var. unfold rows. destruct (cr_assignments create) as [|a l] eqn:El.
    - destruct Hf as [Hf|Hf]; [done|]. rewrite Hf. by destruct (c_owner_scope_sql command) as [[f t o wp [check|]]|].
    - by destruct (c_owner_scope_sql command) as [[f t o wp [check|]]|]. }
  rewrite E. clear E. unfold var.
  destruct (c_owner_scope_sql command) as [[f t o wp [check|]]|] eqn:Eo.
  - cbn [app read_creates]. rewrite (strip_tabs_other level "Effect: lazuli.Creates(&") by done.
    rewrite strip_tabs_head. cbn [mbind option_bind]. rewrite (go_name_reads (resource_var_for_qname up (cr_resource create)) ", lazuli.Bindings{") by done.
    rewrite String.eqb_refl. rewrite Hrows by done. destruct (distinct _) as [b|]; [|done]. cbn [mbind option_bind].
    unfold owner_check_clean, owner_check_means in Ho. cbn in Ho. apply andb_true_iff in Ho as [[H1 H2]%andb_true_iff H3].
    unfold read_owner_check. rewrite !text_field_reads by done. cbn [mbind option_bind]. by rewrite String.eqb_refl.
  - cbn [app read_creates]. rewrite strip_tabs_head. cbn [mbind option_bind].
    rewrite (go_name_reads (resource_var_for_qname up (cr_resource create)) ", lazuli.Bindings{") by done. rewrite String.eqb_refl.
    rewrite Hrows by done. by destruct (distinct _).
  - cbn [app read_creates]. rewrite strip_tabs_head. cbn [mbind option_bind].
    rewrite (go_name_reads (resource_var_for_qname up (cr_resource create)) ", lazuli.Bindings{") by done. rewrite String.eqb_refl.
    rewrite Hrows by done. by destruct (distinct _).
Qed.
End Codegen.

(** * Compiled creates *)

(** The state a row starts in, as a column with its value. *)
Definition starts_in up constants (create : CreateEffect) (resources : list Resource) : list (string * Value) :=
  match initial_state up create resources with Some (column, c) => [(column, default Nil (constants c))] | None => [] end.

Lemma written_app host ctx input l k : written host ctx input (l ++ k) = (written host ctx input l ++ written host ctx input k)%list.
Proof. unfold written. apply omap_app. Qed.

Lemma bind_written up constants host ctx args optional create resources : args_ok up args ->
  forallb (fun a => known up args (as_value a)) (cr_assignments create) = true -> NoDup (bind_of up constants optional create resources).*1 ->
  written host ctx (arg_struct up args) (sortedBind (bind_of up constants optional create resources)) ≡ₚ
  (assigned up constants host ctx args optional (cr_assignments create) ++ starts_in up constants create resources)%list.
Proof.
  intros Ha Hk Hd. unfold written, sortedBind. rewrite (bt_collect_perm _ Hd). fold (written host ctx (arg_struct up args) (bind_of up constants optional create resources)).
  unfold bind_of in *. rewrite written_app. f_equiv.
  - rewrite fmap_app in Hd. apply NoDup_app in Hd as [Hd _]. rewrite <-(written_assigned up constants host ctx args optional (cr_assignments create) Ha Hk Hd).
    unfold written, sortedBind. by rewrite (bt_collect_perm _ Hd).
  - unfold initial_means, starts_in. by destruct (initial_state up create resources) as [[c k]|].
Qed.

Lemma bind_resolves up constants host ctx args optional create resources : args_ok up args ->
  forallb (fun a => known up args (as_value a)) (cr_assignments create) = true -> has_value up constants host ctx args (cr_assignments create) ->
  match initial_state up create resources with Some (column, _) => plain column = true | None => True end ->
  Forall (fun cs => resolves host ctx (arg_struct up args) cs /\ plain cs.1 = true) (bind_of up constants optional create resources).
Proof.
  intros Ha Hk Hv Hi. apply Forall_app. split.
  - eapply List.Forall_impl; [|exact (assignments_resolve up constants host ctx args optional _ Ha Hk Hv)]. intros cs (H1 & H2 & _). by split.
  - unfold initial_means. destruct (initial_state up create resources) as [[c k]|]; constructor; [|constructor]. split; [by eexists|exact Hi].
Qed.

(** What a create the generated package compiles with needs. *)
Definition create_ready up constants args feature command (create : CreateEffect) : bool :=
  names_go up (cr_resource create) && forallb (assignment_clean up constants (let_bindings command) (collect_optional_inputs command)) (cr_assignments create) &&
  initial_clean up constants create (resources feature) && owner_check_clean (c_owner_scope_sql command) &&
  bool_decide (NoDup (bind_of up constants (collect_optional_inputs command) create (resources feature)).*1) &&
  forallb (fun a => known up args (as_value a)) (cr_assignments create).


(** * A command *)

Definition create_rows : list (option (bool * Assignment)) := [Some (false, {| as_field := "title"; as_value := EPath (path ["input"; "title"]) |})].
Lemma create_block_written : Forall2 written_line [block_line 20 6 "title = input.title"] create_rows.
Proof. apply Forall2_cons_2; [by apply written_row|apply Forall2_nil_2]. Defined.
Definition creating : CreateEffect := {| cr_resource := lower_qualified_name "Note"; from_input := false; cr_assignments := of_kind false create_rows |}.

