(* ===== verification/IrEq.v ===== *)
(** Decidable equality of the intermediate representation: what [PartialEq]
    derives for the nodes of [lazuli_ir]. *)
From S2P Require Import Prelude Str Lex Ir Catalog.
From S2P Require Import QueryLowering.

#[export] Instance QualifiedName_eq_dec : EqDecision QualifiedName.
Proof. solve_decision. Defined.
#[export] Instance EnumLiteral_eq_dec : EqDecision EnumLiteral.
Proof. solve_decision. Defined.
#[export] Instance Path_eq_dec : EqDecision Path.
Proof. solve_decision. Defined.
#[export] Instance CompareOp_eq_dec : EqDecision CompareOp.
Proof. solve_decision. Defined.
#[export] Instance PolicyAtom_eq_dec : EqDecision ir.PolicyAtom.
Proof. solve_decision. Defined.
#[export] Instance PolicyRef_eq_dec : EqDecision PolicyRef.
Proof. solve_decision. Defined.

(** Equality of lists of trees, from that of the trees. *)
Section Trees.
Context {A : Type} (eq_dec : forall x y : A, Decision (x = y)).
Fixpoint trees_eq_dec (l k : list A) : Decision (l = k).
Proof.
  refine (match l, k with
          | [], [] => left eq_refl
          | x :: l, y :: k => cast_if_and (eq_dec x y) (trees_eq_dec l k)
          | _, _ => right _
          end); congruence.
Defined.
End Trees.

#[export] Instance Expr_eq_dec : EqDecision Expr.
Proof.
  unfold EqDecision, RelDecision. fix go 1. intros x y.
  refine (match x, y with
          | EPath p, EPath q => cast_if (decide (p = q))
          | EString s, EString t => cast_if (decide (s = t))
          | EInteger n, EInteger m => cast_if (decide (n = m))
          | EBoolean b, EBoolean c => cast_if (decide (b = c))
          | EEnum e, EEnum f => cast_if (decide (e = f))
          | ENil, ENil => left eq_refl
          | EFnCall f a, EFnCall g b => cast_if_and (decide (f = g)) (trees_eq_dec go a b)
          | _, _ => right _
          end); congruence.
Defined.

#[export] Instance Predicate_eq_dec : EqDecision Predicate.
Proof.
  unfold EqDecision, RelDecision. fix go 1. intros x y.
  refine (match x, y with
          | Comparison a o b, Comparison c p d => cast_if_and3 (decide (a = c)) (decide (o = p)) (decide (b = d))
          | Has a b, Has c d => cast_if_and (decide (a = c)) (decide (b = d))
          | PAnd ps, PAnd qs => cast_if (trees_eq_dec go ps qs)
          | POr ps, POr qs => cast_if (trees_eq_dec go ps qs)
          | _, _ => right _
          end); congruence.
Defined.

#[export] Instance PolicyExpr_eq_dec : EqDecision ir.PolicyExpr.
Proof.
  unfold EqDecision, RelDecision. fix go 1. intros x y.
  refine (match x, y with
          | ir.Authenticated, ir.Authenticated => left eq_refl
          | ir.HasRole a, ir.HasRole b => cast_if (decide (a = b))
          | ir.HasPermission a, ir.HasPermission b => cast_if (decide (a = b))
          | ir.Atom a, ir.Atom b => cast_if (decide (a = b))
          | ir.And a, ir.And b => cast_if (trees_eq_dec go a b)
          | ir.Or a, ir.Or b => cast_if (trees_eq_dec go a b)
          | ir.Not a, ir.Not b => cast_if (go a b)
          | _, _ => right _
          end); congruence.
Defined.

#[export] Instance CurrencyCode_eq_dec : EqDecision types.CurrencyCode.
Proof. solve_decision. Defined.
#[export] Instance BuiltinType_eq_dec : EqDecision types.BuiltinType.
Proof. solve_decision. Defined.
#[export] Instance CapabilityRef_eq_dec : EqDecision CapabilityRef.
Proof. solve_decision. Defined.
#[export] Instance TypeRef_eq_dec : EqDecision TypeRef.
Proof. solve_decision. Defined.
#[export] Instance SanitizeHtmlProfile_eq_dec : EqDecision SanitizeHtmlProfile.
Proof. solve_decision. Defined.
#[export] Instance FieldConstraints_eq_dec : EqDecision FieldConstraints.
Proof. solve_decision. Defined.
#[export] Instance TypedSlot_eq_dec : EqDecision TypedSlot.
Proof. solve_decision. Defined.
#[export] Instance Filter_eq_dec : EqDecision Filter.
Proof. solve_decision. Defined.
#[export] Instance KeyClause_eq_dec : EqDecision KeyClause.
Proof. solve_decision. Defined.
#[export] Instance OrderDir_eq_dec : EqDecision OrderDir.
Proof. solve_decision. Defined.
#[export] Instance OrderBy_eq_dec : EqDecision OrderBy.
Proof. solve_decision. Defined.
#[export] Instance OwnerScopeSql_eq_dec : EqDecision OwnerScopeSql.
Proof. solve_decision. Defined.
