(* ===== verification/CrudSyntax.v ===== *)
(** The [conventions [..]] slot and the [crud] overlay of a resource
    ([lazuli_syntax/src/parser/lzi/resource/conventions.rs], [crud_overlay.rs],
    [ast/resource_p1.rs]).

    Positions in the line list are suffixes of it; [prev] is the end of the line
    before them. *)
From S2P Require Import Prelude Str Fmt Lex Helpers.
From S2P Require LifecycleSyntax CommandSyntax Expr Waiver.
Import CommandSyntax (AssignmentDecl, ad_field, ad_value, ad_span, span_of_line).

Abbreviation trimmed := LifecycleSyntax.trimmed.

(** * Declarations *)

Inductive ResourceConventionAst := Crud | Me.
Record CrudEffectOverlayAst := {
  policy : option string; validate : list string; input_excludes : list string; assigns : list AssignmentDecl; emits : list string;
  eo_span : Span
}.
Record CrudOverlayAst := {
  create : option CrudEffectOverlayAst; update : option CrudEffectOverlayAst; delete : option CrudEffectOverlayAst; co_span : Span
}.

(** * [conventions [crud, me]] *)

Definition resource_convention_ident (ident : string) : option ResourceConventionAst :=
  if ident =? "crud" then Some Crud else if ident =? "me" then Some Me else None.

(** [levenshtein_distance], written as [conventions_levenshtein] of the analyzer. *)
Definition levenshtein_distance (a b : string) : nat := conventions_levenshtein a b.
Definition nearest_resource_convention (ident : string) : option string :=
  fst <$> fold_left (fun best candidate =>
    let d := levenshtein_distance ident candidate in
    if (d <=? 1)%nat && match best with None => true | Some (_, bd) => (d <? bd)%nat end then Some (candidate, d) else best)
    ["crud"; "me"] None.

Fixpoint convention_entries (line : SourceLine) (raws : list string) : presult (list ResourceConventionAst) :=
  match raws with
  | [] => Ok []
  | raw :: raws =>
    let ident := trim raw in
    if ident =? "" then Err (line_error line "`conventions [...]` entries must be non-empty identifiers separated by commas")
    else
      match resource_convention_ident ident with
      | Some c => cs ← convention_entries line raws; Ok (c :: cs)
      | None =>
        Err (line_error_owned line
          match nearest_resource_convention ident with
          | Some s => "conventions_unknown: `" +:+ ident +:+ "` is not in the closed catalog. did you mean `" +:+ s +:+ "`?"
          | None => "conventions_unknown: `" +:+ ident +:+ "` is not in the closed catalog (known: `crud`)"
          end)
      end
  end.
Definition parse_resource_conventions_list (line : SourceLine) (rest : string) : presult (list ResourceConventionAst) :=
  inner ← ok_or (strip_prefix "[" (trim rest)) (line_error line "`conventions` requires a bracketed identifier list: `conventions [crud]`");
  inner ← ok_or (strip_suffix "]" inner) (line_error line "`conventions [<name>, ...]` must close with `]`");
  let inner_trimmed := trim inner in
  if inner_trimmed =? "" then
    Err (line_error line "`conventions []` is not allowed — list at least one convention or omit the slot entirely")
  else convention_entries line (split_char "," inner_trimmed).

(** * The [crud] block *)

Inductive CrudEffectKind := KCreate | KUpdate | KDelete.
Definition label (k : CrudEffectKind) : string := match k with KCreate => "create" | KUpdate => "update" | KDelete => "delete" end.
Definition effect_of (o : CrudOverlayAst) (k : CrudEffectKind) : option CrudEffectOverlayAst :=
  match k with KCreate => create o | KUpdate => update o | KDelete => delete o end.
Definition has (o : CrudOverlayAst) (k : CrudEffectKind) : bool := match effect_of o k with Some _ => true | None => false end.
Definition set (o : CrudOverlayAst) (k : CrudEffectKind) (e : CrudEffectOverlayAst) : CrudOverlayAst :=
  match k with
  | KCreate => {| create := Some e; update := update o; delete := delete o; co_span := co_span o |}
  | KUpdate => {| create := create o; update := Some e; delete := delete o; co_span := co_span o |}
  | KDelete => {| create := create o; update := update o; delete := Some e; co_span := co_span o |}
  end.
Definition with_span (o : CrudOverlayAst) (s : Span) : CrudOverlayAst :=
  {| create := create o; update := update o; delete := delete o; co_span := s |}.

(** One clause of a sub-block. *)
Definition overlay_clause (line : SourceLine) (text : string) (e : CrudEffectOverlayAst) : presult CrudEffectOverlayAst :=
  match strip_prefix "policy " text with
  | Some rest =>
    let value := trim rest in
    if value =? "" then Err (line_error line "`policy` requires a policy reference")
    else match policy e with
    | Some _ => Err (line_error line "a `crud` overlay sub-block may declare at most one `policy`")
    | None => Ok {| policy := Some value; validate := validate e; input_excludes := input_excludes e; assigns := assigns e; emits := emits e; eo_span := eo_span e |}
    end
  | None =>
  match strip_prefix "validate " text with
  | Some rest =>
    let value := trim rest in
    if value =? "" then Err (line_error line "`validate` requires a validator reference")
    else Ok {| policy := policy e; validate := validate e ++ [value]; input_excludes := input_excludes e; assigns := assigns e; emits := emits e; eo_span := eo_span e |}
  | None =>
  match strip_prefix "input " text with
  | Some rest =>
    match strip_prefix "excludes " (trim rest) with
    | None => Err (line_error line "`crud` overlay `input` clause must be `input excludes <field>, ...`")
    | Some fields =>
      match List.filter nonempty (List.map trim (split_char "," fields)) with
      | [] => Err (line_error line "`input excludes` requires at least one field name")
      | names => Ok {| policy := policy e; validate := validate e; input_excludes := input_excludes e ++ names; assigns := assigns e; emits := emits e; eo_span := eo_span e |}
      end
    end
  | None =>
  match strip_prefix "assign " text with
  | Some rest =>
    '(field, value) ← ok_or (split_once "=" (trim rest)) (line_error line "`assign` requires `<field> = <expr>`");
    let field := trim field in
    let value := trim value in
    if field =? "" then Err (line_error line "`assign` requires a field name before `=`")
    else if value =? "" then Err (line_error line "`assign` requires an expression after `=`")
    else Ok {| policy := policy e; validate := validate e; input_excludes := input_excludes e;
               assigns := assigns e ++ [{| ad_field := field; ad_value := value; ad_span := span_of_line line |}]; emits := emits e; eo_span := eo_span e |}
  | None =>
  match strip_prefix "emits " text with
  | Some rest =>
    let value := trim rest in
    if value =? "" then Err (line_error line "`emits` requires an event name")
    else Ok {| policy := policy e; validate := validate e; input_excludes := input_excludes e; assigns := assigns e;
               emits := emits e ++ List.filter nonempty (List.map trim (split_char "," value)); eo_span := eo_span e |}
  | None => Err (line_error line "`crud` overlay clauses are `policy`, `validate`, `input excludes`, `assign`, or `emits`")
  end end end end end%list.

(** The clauses of a sub-block whose header is at [header_indent]: the effect, the
    end of its last clause, the end of the last line read, the rest. *)
Fixpoint effect_clauses (header_indent clause_indent : nat) (e : CrudEffectOverlayAst) (last_end prev : nat) (lines : list SourceLine)
    : presult ((CrudEffectOverlayAst * (nat * nat)) * list SourceLine) :=
  match lines with
  | [] => Ok ((e, (last_end, prev)), [])
  | line :: rest =>
    if is_trivia (trimmed line) then effect_clauses header_indent clause_indent e last_end (end_ line) rest
    else if (indent line <=? header_indent)%nat then Ok ((e, (last_end, prev)), lines)
    else if negb (indent line =? clause_indent)%nat then
      Err (line_error line "`crud` overlay clauses use one indentation level deeper than the `create`/`update`/`delete` sub-header")
    else
      e ← overlay_clause line (trimmed line) e;
      effect_clauses header_indent clause_indent e (end_ line) (end_ line) rest
  end.
Definition empty_effect (s : Span) : CrudEffectOverlayAst :=
  {| policy := None; validate := []; input_excludes := []; assigns := []; emits := []; eo_span := s |}.
(** [parse_effect_overlay], with the end of the last line it read. *)
Definition parse_effect_overlay (header : SourceLine) (lines : list SourceLine) (clause_indent : nat)
    : presult ((CrudEffectOverlayAst * nat) * list SourceLine) :=
  '((e, (last_end, prev)), rest) ← effect_clauses (indent header) clause_indent (empty_effect (span_of_line header)) (end_ header) (end_ header) lines;
  Ok (({| policy := policy e; validate := validate e; input_excludes := input_excludes e; assigns := assigns e; emits := emits e;
          eo_span := span_new (start header) last_end |}, prev), rest).

Definition effect_kind (text : string) : option CrudEffectKind :=
  if text =? "create" then Some KCreate else if text =? "update" then Some KUpdate else if text =? "delete" then Some KDelete else None.

(** The sub-blocks; [fuel] bounds their number. *)
Fixpoint overlay_blocks (fuel crud_indent effect_indent clause_indent : nat) (o : CrudOverlayAst) (last_end : nat) (lines : list SourceLine)
    : presult ((CrudOverlayAst * nat) * list SourceLine) :=
  match fuel, lines with
  | O, _ | _, [] => Ok ((o, last_end), lines)
  | S fuel, line :: rest =>
    if is_trivia (trimmed line) then overlay_blocks fuel crud_indent effect_indent clause_indent o last_end rest
    else if (indent line <=? crud_indent)%nat then Ok ((o, last_end), lines)
    else if negb (indent line =? effect_indent)%nat then
      Err (line_error line "`crud` overlay sub-blocks (`create`/`update`/`delete`) use one indentation level deeper than the `crud` header")
    else
      match effect_kind (trimmed line) with
      | None =>
        Err (line_error_owned line ("`crud` overlay sub-blocks are `create`, `update`, or `delete` (got `" +:+ trimmed line +:+ "`)"))
      | Some kind =>
        if has o kind then
          Err (line_error_owned line ("duplicate `" +:+ label kind +:+ "` sub-block in the `crud` overlay — declare each effect at most once"))
        else
          '((e, prev), rest) ← parse_effect_overlay line rest clause_indent;
          overlay_blocks fuel crud_indent effect_indent clause_indent (set o kind e) prev rest
      end
  end.

(** The block after its header line; the resource's header is at [header_indent]. *)
Definition parse_resource_crud_overlay (header : SourceLine) (lines : list SourceLine) (header_indent : nat)
    : presult (CrudOverlayAst * list SourceLine) :=
  '((o, last_end), rest) ← overlay_blocks (S (List.length lines)) (indent header) (header_indent + 4) (header_indent + 6)
    {| create := None; update := None; delete := None; co_span := span_of_line header |} (end_ header) lines;
  match create o, update o, delete o with
  | None, None, None =>
    Err (line_error header "`crud` overlay requires at least one `create`/`update`/`delete` sub-block — omit the `crud` block entirely if there is no per-effect overlay")
  | _, _, _ => Ok (with_span o (span_new (start header) last_end), rest)
  end.

(** * A block an author writes *)

Inductive Clause := CPolicy (p : string) | CValidate (v : string) | CExcludes (names : list string) | CAssign (field value : string) | CEmits (names : list string).
Definition show_clause (c : Clause) : string :=
  match c with
  | CPolicy p => "policy " +:+ p
  | CValidate v => "validate " +:+ v
  | CExcludes names => "input excludes " +:+ join ", " names
  | CAssign field value => "assign " +:+ field +:+ " = " +:+ value
  | CEmits names => "emits " +:+ join ", " names
  end.
Definition name_ok (n : string) : bool := edges_ok n && str_all (fun b => negb (b =? ",")%char) n.
Definition clause_ok (c : Clause) : bool :=
  match c with
  | CPolicy s | CValidate s => edges_ok s
  | CExcludes names | CEmits names => match names with [] => false | _ => forallb name_ok names end
  | CAssign field value => Expr.ident field && edges_ok value
  end.
Definition with_clause (line : SourceLine) (c : Clause) (e : CrudEffectOverlayAst) : CrudEffectOverlayAst :=
  match c with
  | CPolicy p => {| policy := Some p; validate := validate e; input_excludes := input_excludes e; assigns := assigns e; emits := emits e; eo_span := eo_span e |}
  | CValidate v => {| policy := policy e; validate := validate e ++ [v]; input_excludes := input_excludes e; assigns := assigns e; emits := emits e; eo_span := eo_span e |}
  | CExcludes names => {| policy := policy e; validate := validate e; input_excludes := input_excludes e ++ names; assigns := assigns e; emits := emits e; eo_span := eo_span e |}
  | CAssign field value => {| policy := policy e; validate := validate e; input_excludes := input_excludes e;
      assigns := assigns e ++ [{| ad_field := field; ad_value := value; ad_span := span_of_line line |}]; emits := emits e; eo_span := eo_span e |}
  | CEmits names => {| policy := policy e; validate := validate e; input_excludes := input_excludes e; assigns := assigns e; emits := emits e ++ names; eo_span := eo_span e |}
  end%list.

Lemma comma_names l : forallb name_ok l = true -> l <> [] -> List.filter nonempty (List.map trim (split_char "," (join ", " l))) = l.
Proof.
  destruct l as [|n l]; [done|]. intros H _.
  assert (Hgo : forall l n s, name_ok n = true -> forallb name_ok l = true -> trim s = n -> lacks "," s ->
    List.filter nonempty (List.map trim (split_char "," (s +:+ match l with [] => "" | _ => ", " +:+ join ", " l end))) = n :: l).
  { clear. induction l as [|m l IH]; intros n s Hn Hl Ht Hs.
    - rewrite sapp_nil_r, split_char_none by done. cbn. rewrite Ht. by destruct n.
    - cbn [forallb] in Hl. apply andb_true_iff in Hl as [Hm Hl].
      change (s +:+ ", " +:+ join ", " (m :: l)) with (s +:+ String "," (" " +:+ join ", " (m :: l))). rewrite split_char_app by done.
      cbn [List.map List.filter]. rewrite Ht. assert (nonempty n = true) as -> by by destruct n. f_equal.
      pose proof Hm as [He Hc]%andb_true_iff.
      specialize (IH m (" " +:+ m) Hm Hl (trim_space_edges m He)). destruct l as [|k l]; cbn [join]; [rewrite <-(sapp_nil_r m) at 1|]; apply IH; exact Hc. }
  cbn [forallb] in H. apply andb_true_iff in H as [Hn Hl]. pose proof Hn as [He Hc]%andb_true_iff.
  specialize (Hgo l n n Hn Hl (trim_edges n He) Hc). destruct l; cbn [join]; [by rewrite <-(sapp_nil_r n) at 1|exact Hgo].
Qed.
Lemma names_edges l : forallb name_ok l = true -> l <> [] -> edges_ok (join ", " l) = true.
Proof.
  intros H Hne. apply Expr.join_edges; [done|]. apply List.Forall_forall. intros n Hin. rewrite List.forallb_forall in H. by apply H, andb_true_iff in Hin as [? _].
Qed.
Lemma edges_not_empty s : edges_ok s = true -> (s =? "") = false.
Proof. by destruct s. Qed.

Lemma clause_reads line c e : clause_ok c = true -> (match c with CPolicy _ => policy e = None | _ => True end) ->
  overlay_clause line (show_clause c) e = Ok (with_clause line c e).
Proof.
  intros Hok Hp. destruct c as [p|v|names|field value|names]; cbn [clause_ok] in Hok.
  - cbn [show_clause]. unfold overlay_clause. by rewrite strip_prefix_app, trim_edges, edges_not_empty, Hp.
  - cbn [show_clause]. unfold overlay_clause. rewrite strip_prefix_app, trim_edges, edges_not_empty by done. reflexivity.
  - assert (Hne : names <> []) by by destruct names. assert (Hf : forallb name_ok names = true) by by destruct names.
    unfold overlay_clause. change (show_clause (CExcludes names)) with ("input " +:+ ("excludes " +:+ join ", " names)).
    change (strip_prefix "policy " _) with (@None string). change (strip_prefix "validate " _) with (@None string). rewrite strip_prefix_app.
    rewrite trim_edges by (apply (edges_ok_mid "excludes" " "); [done|by apply names_edges]). rewrite strip_prefix_app, comma_names by done. by destruct names.
  - apply andb_true_iff in Hok as [Hf Hv]. pose proof (Expr.ident_edges _ Hf) as He.
    assert (Hl : lacks "=" (field +:+ " ")).
    { rewrite str_all_app. apply Expr.ident_chars in Hf as [Hc _]. replace (str_all _ field) with true; [done|].
      symmetry. eapply str_all_impl; [|exact Hc]. intros b. by_bytes b. }
    unfold overlay_clause. change (show_clause (CAssign field value)) with ("assign " +:+ (field +:+ " = " +:+ value)).
    change (strip_prefix "policy " _) with (@None string). change (strip_prefix "validate " _) with (@None string).
    change (strip_prefix "input " _) with (@None string). rewrite strip_prefix_app, trim_edges by (by apply (edges_ok_mid field " = ")).
    change (field +:+ " = " +:+ value) with (field +:+ " " +:+ String "=" (" " +:+ value)). rewrite <-sapp_assoc, split_once_app by done.
    cbn [ok_or mbind result_bind]. rewrite (trim_edges_space field), edges_not_empty by done. cbn [String.append].
    rewrite (trim_space_edges value), edges_not_empty by done. reflexivity.
  - assert (Hne : names <> []) by by destruct names. assert (Hf : forallb name_ok names = true) by by destruct names.
    unfold overlay_clause. change (show_clause (CEmits names)) with ("emits " +:+ join ", " names).
    do 4 (match goal with |- context [strip_prefix ?p (?q +:+ _)] => change (strip_prefix p (q +:+ _)) with (@None string) end; cbv iota).
    rewrite strip_prefix_app, trim_edges by (by apply names_edges). by rewrite edges_not_empty, comma_names by (done || by apply names_edges).
Qed.

(** ** Sub-blocks *)

(** A line of a sub-block: nothing, or a clause. *)
Definition says (clause_indent : nat) (lc : SourceLine * option Clause) : Prop :=
  match lc.2 with
  | None => is_trivia (trimmed lc.1) = true
  | Some c => indent lc.1 = clause_indent /\ trimmed lc.1 = show_clause c /\ clause_ok c = true
  end.
Definition policies (lines : list (SourceLine * option Clause)) : nat :=
  List.length (List.filter (fun lc => match lc.2 with Some (CPolicy _) => true | _ => false end) lines).
Definition said_effect (e : CrudEffectOverlayAst) (lines : list (SourceLine * option Clause)) : CrudEffectOverlayAst :=
  fold_left (fun e lc => match lc.2 with Some c => with_clause lc.1 c e | None => e end) lines e.
Definition last_clause_end (e : nat) (lines : list (SourceLine * option Clause)) : nat :=
  fold_left (fun last lc => match lc.2 with Some _ => end_ lc.1 | None => last end) lines e.
Definition last_line_end (e : nat) (lines : list (SourceLine * option Clause)) : nat := fold_left (fun _ lc => end_ lc.1) lines e.
(** The line a block at [k] stops at. *)
Definition stops (k : nat) (tail : list SourceLine) : Prop :=
  match tail with [] => True | line :: _ => is_trivia (trimmed line) = false /\ indent line <= k end.

Lemma clause_not_trivia c : clause_ok c = true -> is_trivia (show_clause c) = false.
Proof. by destruct c. Qed.
Lemma stops_le k k' tail : k <= k' -> stops k tail -> stops k' tail.
Proof. intros Hk. destruct tail; [done|]. intros [? ?]. split; [done|lia]. Qed.

Lemma effect_clauses_read header_indent clause_indent lines tail : header_indent < clause_indent -> Forall (says clause_indent) lines -> stops header_indent tail ->
  forall e last prev, policies lines + match policy e with Some _ => 1 | None => 0 end <= 1 ->
  effect_clauses header_indent clause_indent e last prev (List.map fst lines ++ tail) =
  Ok ((said_effect e lines, (last_clause_end last lines, last_line_end prev lines)), tail).
Proof.
  intros Hi H Ht. induction H as [|[line c] lines Hl _ IH]; intros e last prev Hp; cbn [List.map app].
  - destruct tail as [|line tail]; [done|]. destruct Ht as [Hn Hle]. cbn [effect_clauses]. rewrite Hn. by apply Nat.leb_le in Hle as ->.
  - cbn [effect_clauses fst]. destruct c as [c|]; unfold says in Hl; cbn [fst snd] in Hl.
    + destruct Hl as (Hind & Htx & Hok). rewrite Htx, clause_not_trivia, Hind, (proj2 (Nat.leb_gt _ _) Hi), Nat.eqb_refl by done. cbn [negb].
      unfold policies in Hp. cbn [List.filter snd] in Hp.
      rewrite clause_reads; [|done|destruct c; try done; destruct (policy e); [cbn in Hp; lia|done]]. cbn [mbind result_bind].
      rewrite IH; [done|]. fold (policies lines) in Hp. destruct c; cbn [with_clause policy] in *; try exact Hp; cbn in Hp; fold (policies lines) in Hp; lia.
    + rewrite Hl. by apply IH.
Qed.

Record Block := { b_kind : CrudEffectKind; b_header : SourceLine; b_lines : list (SourceLine * option Clause) }.
Definition block_text (b : Block) : list SourceLine := b_header b :: List.map fst (b_lines b).
Definition block_said (b : Block) : CrudEffectOverlayAst :=
  let e := said_effect (empty_effect (span_of_line (b_header b))) (b_lines b) in {|
  policy := policy e; validate := validate e; input_excludes := input_excludes e; assigns := assigns e; emits := emits e;
  eo_span := span_new (start (b_header b)) (last_clause_end (end_ (b_header b)) (b_lines b)) |}.
Definition block_end (b : Block) : nat := last_line_end (end_ (b_header b)) (b_lines b).
Definition block_ok (header_indent : nat) (b : Block) : Prop :=
  indent (b_header b) = header_indent + 4 /\ trimmed (b_header b) = label (b_kind b) /\ Forall (says (header_indent + 6)) (b_lines b) /\
  policies (b_lines b) <= 1.

#[export] Instance CrudEffectKind_eq_dec : EqDecision CrudEffectKind.
Proof. solve_decision. Defined.
Lemma label_kind k : effect_kind (label k) = Some k.
Proof. by destruct k. Qed.
Lemma effect_of_set o k e k' : effect_of (set o k e) k' = if bool_decide (k = k') then Some e else effect_of o k'.
Proof. by destruct k, k'. Qed.

(** ** Fuel *)

Lemma effect_clauses_shrinks hi ci lines : forall e last prev r rest, effect_clauses hi ci e last prev lines = Ok (r, rest) -> List.length rest <= List.length lines.
Proof.
  induction lines as [|line lines IH]; intros e last prev r rest H; cbn [effect_clauses] in H.
  - by injection H as _ <-.
  - destruct (is_trivia _); [apply IH in H; cbn; lia|]. destruct (indent line <=? hi)%nat; [by injection H as _ <-|].
    destruct (negb _); [done|]. destruct (overlay_clause _ _ _); [|done]. cbn in H. apply IH in H. cbn. lia.
Qed.
(** Any fuel above the number of lines gives the result of the loop. *)
Lemma overlay_blocks_fuel crud_indent effect_indent clause_indent fuel : forall lines o last, List.length lines < fuel ->
  overlay_blocks fuel crud_indent effect_indent clause_indent o last lines =
  overlay_blocks (S fuel) crud_indent effect_indent clause_indent o last lines.
Proof.
  induction fuel as [|fuel IH]; intros lines o last Hf; [lia|]. destruct lines as [|line lines]; [done|]. cbn in Hf.
  remember (S fuel) as fuel' eqn:Ef. cbn [overlay_blocks]. rewrite Ef at 1. cbn [overlay_blocks]. subst fuel'.
  destruct (is_trivia _); [apply IH; lia|]. destruct (indent line <=? crud_indent)%nat; [done|]. destruct (negb _); [done|].
  destruct (effect_kind _) as [k|]; [|done]. destruct (has o k); [done|].
  destruct (parse_effect_overlay _ _ _) as [[[e prev] rest]|] eqn:E; [|done]. cbn [mbind result_bind]. apply IH.
  unfold parse_effect_overlay in E. destruct (effect_clauses _ _ _ _ _ _) as [[[? [? ?]] rest']|] eqn:Ec; [|done]. injection E as _ _ <-.
  apply effect_clauses_shrinks in Ec. lia.
Qed.

Lemma blocks_read header_indent crud_indent tail : crud_indent < header_indent + 4 -> stops crud_indent tail ->
  forall blocks fuel o last, Forall (block_ok header_indent) blocks -> NoDup (List.map b_kind blocks) ->
  Forall (fun b => has o (b_kind b) = false) blocks -> List.length blocks < fuel ->
  overlay_blocks fuel crud_indent (header_indent + 4) (header_indent + 6) o last (flat_map block_text blocks ++ tail) =
  Ok ((fold_left (fun o b => set o (b_kind b) (block_said b)) blocks o, fold_left (fun _ b => block_end b) blocks last), tail).
Proof.
  intros Hc Ht blocks. induction blocks as [|b blocks IH]; intros fuel o last Hok Hnd Hfree Hf.
  - destruct fuel as [|fuel]; [lia|]. cbn [flat_map app overlay_blocks]. destruct tail as [|line tail]; [done|]. destruct Ht as [Hn Hle].
    rewrite Hn. by apply Nat.leb_le in Hle as ->.
  - destruct fuel as [|fuel]; [cbn in Hf; lia|]. inversion Hok as [|? ? (Hi & Htx & Hl & Hp) Hok']; subst. cbn [List.map] in Hnd. apply NoDup_cons in Hnd as [Hni Hnd].
    inversion Hfree as [|? ? Hhas Hfree']; subst. cbn [flat_map block_text app overlay_blocks]. rewrite Htx.
    assert (is_trivia (label (b_kind b)) = false) as -> by by destruct (b_kind b).
    rewrite Hi, (proj2 (Nat.leb_gt _ _) Hc), Nat.eqb_refl, label_kind, Hhas. cbn [negb]. unfold parse_effect_overlay. rewrite Hi, <-app_assoc.
    rewrite effect_clauses_read; [|lia|done| |cbn; lia].
    2: { destruct blocks as [|b' blocks]; [by apply (stops_le crud_indent); [lia|]|]. inversion Hok' as [|? ? (Hi' & Htx' & _) _]; subst. cbn.
      rewrite Htx', Hi'. split; [by destruct (b_kind b')|done]. }
    cbn [mbind result_bind fold_left]. rewrite IH; [done|done|done| |cbn in Hf; lia].
    apply List.Forall_forall. intros b' Hin. unfold has. rewrite effect_of_set. rewrite List.Forall_forall in Hfree'. rewrite bool_decide_eq_false_2; [by apply Hfree'|].
    intros E. apply Hni. rewrite E. apply list_elem_of_In, in_map_iff. by exists b'.
Qed.

Lemma trivia_skipped crud_indent header_indent o last rest : forall pre fuel, Forall (fun line => is_trivia (trimmed line) = true) pre ->
  overlay_blocks (List.length pre + fuel) crud_indent (header_indent + 4) (header_indent + 6) o last (pre ++ rest) =
  overlay_blocks fuel crud_indent (header_indent + 4) (header_indent + 6) o last rest.
Proof. intros pre fuel H. induction H as [|line pre Hl _ IH]; [done|]. cbn [List.length Nat.add app overlay_blocks]. by rewrite Hl. Qed.

Lemma set_all_effect blocks : NoDup (List.map b_kind blocks) -> forall o k,
  effect_of (fold_left (fun o b => set o (b_kind b) (block_said b)) blocks o) k =
  match List.find (fun b => bool_decide (b_kind b = k)) blocks with Some b => Some (block_said b) | None => effect_of o k end.
Proof.
  induction blocks as [|b blocks IH]; [done|]. cbn [List.map List.find fold_left]. intros [Hni Hnd]%NoDup_cons o k. rewrite IH by done.
  rewrite effect_of_set. case_bool_decide as Hk; [|done]. destruct (List.find _ blocks) as [b'|] eqn:E; [|done]. exfalso.
  apply List.find_some in E as [Hin Hb%bool_decide_eq_true_1]. apply Hni. rewrite Hk, <-Hb. by apply list_elem_of_In, in_map.
Qed.
Lemma set_all_span blocks : forall o, co_span (fold_left (fun o b => set o (b_kind b) (block_said b)) blocks o) = co_span o.
Proof. induction blocks as [|b blocks IH]; intros o; [done|]. cbn. rewrite IH. by destruct (b_kind b). Qed.

(** C33: The clauses an author writes under [create], [update] and [delete], in any
    order and with blank lines and comments anywhere, are the overlay read, whose
    span ends with the block's last line; the lines after the block are left. *)
Theorem crud_overlay_roundtrip header header_indent pre blocks tail : indent header < header_indent + 4 ->
  Forall (fun line => is_trivia (trimmed line) = true) pre -> blocks <> [] -> Forall (block_ok header_indent) blocks -> NoDup (List.map b_kind blocks) ->
  stops (indent header) tail ->
  let said k := block_said <$> List.find (fun b => bool_decide (b_kind b = k)) blocks in
  parse_resource_crud_overlay header (pre ++ flat_map block_text blocks ++ tail) header_indent =
  Ok ({| create := said KCreate; update := said KUpdate; delete := said KDelete;
         co_span := span_new (start header) (fold_left (fun _ b => block_end b) blocks (end_ header)) |}, tail).
Proof.
  intros Hi Hpre Hne Hok Hnd Ht said. unfold parse_resource_crud_overlay.
  assert (Hlen : List.length blocks <= List.length (flat_map block_text blocks)).
  { clear. induction blocks as [|b l IH]; [done|]. cbn. rewrite length_app. lia. }
  replace (S (List.length (pre ++ flat_map block_text blocks ++ tail))) with (List.length pre + S (List.length (flat_map block_text blocks ++ tail)))
    by (rewrite !length_app; lia).
  rewrite trivia_skipped, (blocks_read header_indent (indent header) tail Hi Ht blocks) by (done || (rewrite ?length_app; lia) || by apply List.Forall_forall; intros b _; destruct (b_kind b)).
  cbn [mbind result_bind]. set (o := fold_left _ blocks _).
  assert (Hs : forall k, effect_of o k = said k).
  { intros k. unfold o, said. rewrite set_all_effect by done. by destruct (List.find _ blocks); [|destruct k]. }
  pose proof (Hs KCreate) as Hc. pose proof (Hs KUpdate) as Hu. pose proof (Hs KDelete) as Hd. cbn [effect_of] in Hc, Hu, Hd. rewrite Hc, Hu, Hd.
  unfold with_span. rewrite Hc, Hu, Hd. destruct blocks as [|b blocks]; [done|].
  assert (Hsome : is_Some (said (b_kind b))) by (unfold said; cbn [List.find]; rewrite bool_decide_eq_true_2 by done; by eexists).
  destruct (said KCreate) eqn:E1; [done|]. destruct (said KUpdate) eqn:E2; [done|]. destruct (said KDelete) eqn:E3; [done|].
  exfalso. destruct (b_kind b); rewrite ?E1, ?E2, ?E3 in Hsome; by destruct Hsome.
Qed.

Lemma crud_overlay_roundtrip_witness :
  let line k i t := {| text := Waiver.spaces i +:+ t; indent := i; start := k; end_ := k + 10 |} in
  let assigning := line 60 6 "assign situation = prospect" in
  parse_resource_crud_overlay (line 0 2 "crud")
    [line 20 4 "create"; line 40 6 "policy @policy.edit"; assigning; line 80 0 ""; line 100 6 "input excludes situation, is_active"; line 120 4 "delete"; line 140 6 "emits note_deleted";
     line 160 2 "title: Text"] 0 =
  Ok ({| create := Some {| policy := Some "@policy.edit"; validate := []; input_excludes := ["situation"; "is_active"];
           assigns := [{| ad_field := "situation"; ad_value := "prospect"; ad_span := span_of_line assigning |}]; emits := []; eo_span := span_new 20 110 |};
         update := None;
         delete := Some {| policy := None; validate := []; input_excludes := []; assigns := []; emits := ["note_deleted"]; eo_span := span_new 120 150 |};
         co_span := span_new 0 150 |}, [line 160 2 "title: Text"]).
Proof.
  intros line assigning.
  refine (crud_overlay_roundtrip (line 0 2 "crud") 0 []
    [{| b_kind := KCreate; b_header := line 20 4 "create"; b_lines := [(line 40 6 "policy @policy.edit", Some (CPolicy "@policy.edit"));
        (assigning, Some (CAssign "situation" "prospect")); (line 80 0 "", None);
        (line 100 6 "input excludes situation, is_active", Some (CExcludes ["situation"; "is_active"]))] |};
     {| b_kind := KDelete; b_header := line 120 4 "delete"; b_lines := [(line 140 6 "emits note_deleted", Some (CEmits ["note_deleted"]))] |}]
    [line 160 2 "title: Text"] _ _ _ _ _ _).
  - cbn; lia.
  - constructor.
  - discriminate.
  - repeat constructor; vm_compute; lia.
  - apply (bool_decide_eq_true_1 _). vm_compute. reflexivity.
  - split; [reflexivity|cbn; lia].
Defined.
