(* ===== verification/Conventions.v ===== *)
(** Entries synthesized from [conventions [crud, me]]
    ([lazuli_analyzer/src/conventions/]): the commands and queries added to a
    feature, the owner scope of [@owner_axis], the [crud] overlays and the
    diagnostics.

    A command carries, besides the slots of [CommandLowering], those the pass
    fills in. *)
From S2P Require Import Prelude Str BTree Fmt Lex Helpers Ir Catalog IrEq QueryLowering.
From S2P Require CommandLowering LifecycleLowering CrudSyntax CommandSyntax Expr.
Import CommandLowering (Assignment, as_field, as_value, CommandInput, Empty, Short, Typed, RouteSlot, Creates, Updates, Deletes,
  CreateEffect, cr_resource, from_input, cr_assignments, UpdateEffect, up_resource, up_assignments, up_where, DeleteEffect, de_resource, de_where).

(** * The representation *)

(** [nodes/resource/convention.rs] *)
Inductive ConventionRef := Crud | Me.
#[export] Instance ConventionRef_eq_dec : EqDecision ConventionRef.
Proof. solve_decision. Defined.
Inductive ConventionOrigin := Synthesized (c : ConventionRef) | AuthorOverride (c : ConventionRef).

Record Resource := {
  declared : Catalog.Resource; r_lifecycle : option LifecycleLowering.Lifecycle; conventions : list ConventionRef
}.
Definition name (r : Resource) : string := Catalog.r_name (declared r).
Definition fields (r : Resource) : list Field := Catalog.fields (declared r).
(** The resource as the command emitter reads it. *)
Definition command_resource (r : Resource) : CommandLowering.Resource := {|
  CommandLowering.r_name := name r; CommandLowering.fields := fields r; CommandLowering.r_lifecycle := r_lifecycle r;
  CommandLowering.restrict_on_delete := Catalog.restrict_on_delete (declared r) |}.

(** [nodes/command_p1.rs], [nodes/rate_limit.rs] *)
Inductive CommandKind := Create | Update | Delete | Returns | Reorder.
Record AuditMaterialize := { am_feature : string; am_resource : string }.
Record AuditSpec := {
  subjects : list string; emit_to : option string; data_subject : option string; record_before : bool; record_after : bool;
  retain_for : option string; materialize : option AuditMaterialize
}.
Inductive EnvName := Production | Staging | Test_ | Dev | Local_.
Record RateLimitByEnv := { envs : list EnvName; unknown_envs : list string; limit : string }.
Record RateLimitSpec := { rl_default : string; by_env : list RateLimitByEnv }.
Definition from_default (s : string) : RateLimitSpec := {| rl_default := s; by_env := [] |}.
Record InvalidatesSpec := { iv_query : QualifiedName; iv_args : list CommandLowering.NamedArg }.
Record Command := {
  base : CommandLowering.Command; kind : CommandKind; c_emits : list string; rate_limit : option RateLimitSpec; audit : option AuditSpec;
  invalidates : list InvalidatesSpec
}.
Definition c_name (c : Command) : string := CommandLowering.c_name (base c).

Record Feature := {
  f_name : string; resources : list Resource; f_policies : Policies; commands : list Command; queries : list Query;
  synth_origins : list (string * ConventionOrigin)
}.
Definition command_feature (f : Feature) : CommandLowering.Feature := {|
  CommandLowering.f_name := f_name f; CommandLowering.resources := List.map command_resource (resources f); CommandLowering.f_policies := f_policies f |}.

(** * Fields ([fields.rs]) *)

(** [user: User required unique] *)
Definition user_typed (f : Field) : bool := match type_ref f with UserDefined q => qn_name q =? "User" | _ => false end.
Definition org_typed (f : Field) : bool := match type_ref f with UserDefined q => qn_name q =? "Org" | _ => false end.
Definition has_user_unique (r : Resource) : bool :=
  existsb (fun f => (fd_name f =? "user") && required f && unique f && user_typed f) (fields r).

Record CategorisedFields := { cf_required : list Field; cf_optional : list Field }.
Definition create_input_fields (c : CategorisedFields) : list (Field * bool) :=
  (List.map (fun f => (f, true)) (cf_required c) ++ List.map (fun f => (f, false)) (cf_optional c))%list.
Definition update_input_fields (c : CategorisedFields) : list (Field * bool) :=
  (List.map (fun f => (f, false)) (cf_required c) ++ List.map (fun f => (f, false)) (cf_optional c))%list.

Definition is_tenant (r : Resource) (f : Field) : bool := (fd_name f =? "org") || (has_user_unique r && (fd_name f =? "user")).
Definition is_auto (r : Resource) (f : Field) : bool :=
  existsb (String.eqb (fd_name f)) ["id"; "created_at"; "updated_at"] ||
  match r_lifecycle r with Some lc => LifecycleLowering.lc_discriminator lc =? fd_name f | None => false end.
Definition categorize_fields (r : Resource) : CategorisedFields :=
  let inputs := List.filter (fun f => negb (is_tenant r f || is_auto r f)) (fields r) in
  {| cf_required := List.filter required inputs; cf_optional := List.filter (fun f => negb (required f)) inputs |}.

Definition input_slot (fr : Field * bool) : TypedSlot := {|
  ts_name := fd_name fr.1; ts_type := type_ref fr.1; ts_required := fr.2; ts_constraints := fd_constraints fr.1; ts_validate_skip := false |}.
Definition input_to_command_input (inputs : list (Field * bool)) : CommandInput :=
  match inputs with [] => Empty | _ => Typed (List.map input_slot inputs) end.
Definition input_field_assignments (inputs : list (Field * bool)) : list Assignment :=
  List.map (fun fr => {| as_field := fd_name fr.1; as_value := EPath {| segments := ["input"; fd_name fr.1] |} |}) inputs.

(** * Entries ([crud.rs]) *)

Definition crud_write_rate_limit : string := "100 per 10 minutes per ip".
Definition AUTHENTICATED : PolicyRef := RLocal "authenticated".
Definition local_name (n : string) : QualifiedName := {| qn_feature := None; qn_name := n |}.
(** [..default_synth_command(rate_limit)] under the slots a builder sets. *)
Definition synth_command (rate : string) (name : string) (k : CommandKind) (route : list RouteSlot) (input : CommandInput)
    (effect : CommandLowering.CommandEffect) : Command := {|
  base := {| CommandLowering.c_name := name; CommandLowering.c_route := route; CommandLowering.c_input := input; CommandLowering.c_lets := [];
             CommandLowering.c_effect := effect; CommandLowering.c_policy := AUTHENTICATED; CommandLowering.c_policy_expr := None;
             CommandLowering.c_handler := None; CommandLowering.c_triggers := []; CommandLowering.c_from_cap_file := false;
             CommandLowering.c_owner_scope_sql := None |};
  kind := k; c_emits := []; rate_limit := Some (from_default rate);
  audit := Some {| subjects := ["default"]; emit_to := None; data_subject := None; record_before := false; record_after := false;
                   retain_for := None; materialize := None |};
  invalidates := [] |}.
Definition default_synth_command (rate : string) : Command := synth_command rate "" Returns [] Empty CommandLowering.NoEffect.

Definition id_route : RouteSlot := {|
  CommandLowering.rt_name := "id"; CommandLowering.rt_type := Builtin types.Id; CommandLowering.rt_from := None;
  CommandLowering.rt_kind := CommandLowering.Plain |}.
Definition build_create_command (name resource : string) (inputs : list (Field * bool)) : Command :=
  synth_command crud_write_rate_limit name Create [] (input_to_command_input inputs)
    (Creates {| cr_resource := local_name resource; from_input := true; cr_assignments := input_field_assignments inputs |}).
Definition build_update_command (name resource : string) (inputs : list (Field * bool)) : Command :=
  synth_command crud_write_rate_limit name Update [id_route] (input_to_command_input inputs)
    (Updates {| up_resource := local_name resource; up_assignments := input_field_assignments inputs; up_where := [] |}).
Definition build_delete_command (name resource : string) : Command :=
  synth_command crud_write_rate_limit name Delete [id_route] Empty (Deletes {| de_resource := local_name resource; de_where := [] |}).

Definition invalidation (q : string) : InvalidatesSpec := {| iv_query := local_name q; iv_args := [] |}.
Definition synth_crud_invalidates (lookup_name list_name : string) (has_me : bool) (resource_snake : string) : list InvalidatesSpec :=
  ([invalidation lookup_name; invalidation list_name] ++ if has_me then [invalidation ("lookup_my_" +:+ resource_snake)] else [])%list.

Definition id_key : KeyClause := {| k_path := {| segments := ["id"] |}; k_equals := EPath {| segments := ["id"] |} |}.
Definition build_lookup_query (name resource : string) : LookupQuery := {|
  u_name := name; u_params := []; u_keys := [id_key]; u_scope := []; u_scope_override := false; u_filters := []; u_policy := AUTHENTICATED;
  u_policy_expr := None; u_span := None; u_owner_scope := None |}.
Definition page_param (n : string) : TypedSlot := {|
  ts_name := n; ts_type := Builtin types.Integer; ts_required := false; ts_constraints := default_constraints; ts_validate_skip := false |}.
Definition build_list_query (name resource : string) : ListQuery := {|
  l_name := name; l_params := [page_param "limit"; page_param "offset"]; l_scope := []; l_scope_override := false; l_filters := [];
  l_order := []; l_paginate := Some 50%N; l_modifier := None; l_cache := None; l_policy := AUTHENTICATED; l_policy_expr := None;
  l_span := None; l_owner_scope := None |}.

(** * The actor's own row ([me_mode.rs]) *)

Inductive MeMode := UserKeyed | UserKeyedNoOrg | OrgKeyed | SelfKeyed.
Definition classify_me_mode (r : Resource) : option MeMode :=
  if name r =? "User" then Some SelfKeyed else
  let has_user_required := existsb (fun f => (fd_name f =? "user") && required f && user_typed f) (fields r) in
  let has_org_field := existsb (fun f => (fd_name f =? "org") && org_typed f) (fields r) in
  if has_user_required then Some (if has_org_field then UserKeyed else UserKeyedNoOrg)
  else if existsb (fun f => (fd_name f =? "org") && required f && org_typed f) (fields r) then Some OrgKeyed
  else None.

Definition actor_key (column actor : string) : KeyClause :=
  {| k_path := {| segments := [column] |}; k_equals := EPath {| segments := ["ctx"; "actor"; actor] |} |}.
Definition me_keys (m : MeMode) : list KeyClause :=
  match m with
  | UserKeyed => [actor_key "org" "org_id"; actor_key "user" "user_id"]
  | UserKeyedNoOrg => [actor_key "user" "user_id"]
  | OrgKeyed => [actor_key "org" "org_id"]
  | SelfKeyed => [actor_key "id" "user_id"]
  end.
Definition build_lookup_my_query (name resource : string) (m : MeMode) : LookupQuery := {|
  u_name := name; u_params := []; u_keys := me_keys m; u_scope := []; u_scope_override := false; u_filters := []; u_policy := AUTHENTICATED;
  u_policy_expr := None; u_span := None; u_owner_scope := None |}.

(** * Diagnostics ([diagnostics.rs]) *)

Inductive ConventionSynthDiagnostic :=
| PolicyNotFound (resource : string)
| NoRequiredFields (resource : string)
| SignatureMismatch (resource synth_name reason : string)
| MeNoActorResolution (resource : string)
| MeSignatureMismatch (resource synth_name reason : string)
| OwnerAxisUnknownThrough (resource field through fk_target : string) (suggestion : option string)
| OwnerAxisThroughNotUserKeyed (resource field through fk_target : string)
| OwnerAxisCollidesWithUniqueUser (resource field : string).
Definition diagnostic_code (d : ConventionSynthDiagnostic) : string :=
  match d with
  | SignatureMismatch _ _ _ => "@correctness.crud_synth_author_signature_mismatch"
  | PolicyNotFound _ => "crud_synth_policy_not_found"
  | NoRequiredFields _ => "crud_synth_no_required_fields"
  | MeNoActorResolution _ => "me_synth_no_actor_resolution"
  | MeSignatureMismatch _ _ _ => "me_synth_signature_mismatch"
  | OwnerAxisUnknownThrough _ _ _ _ _ => "owner_axis_unknown_through"
  | OwnerAxisThroughNotUserKeyed _ _ _ _ => "owner_axis_through_not_user_keyed"
  | OwnerAxisCollidesWithUniqueUser _ _ => "owner_axis_collides_with_unique_user"
  end.
Definition severity (d : ConventionSynthDiagnostic) : string := match d with SignatureMismatch _ _ _ => "warning" | _ => "error" end.

(** * Owner scopes ([owner_scope.rs]) *)

Inductive OwnerScopeResolution := Scoped (s : OwnerScopeSql) | Tenant.

Definition nearest_field_name (target : string) (fs : list Field) : option string :=
  let best := fold_left (fun best f =>
    let dist := levenshtein target (fd_name f) in
    match best with
    | Some (b, _) => if (b <=? dist)%nat then best else Some (dist, fd_name f)
    | None => Some (dist, fd_name f)
    end) fs None in
  '(dist, n) ← best;
  if (dist <=? Nat.max (str_len target) 1 / 2 + 1)%nat then Some n else None.

Definition build_owner_scope_where (fk_col fk_target through : string) : string :=
  fk_col +:+ " IN (SELECT id FROM " +:+ quoted_table fk_target +:+ " WHERE " +:+ quoted_ident through +:+ " = ctx.User.ID)".
Definition build_owner_scope_cte_prefix (fk_col fk_target through : string) : string :=
  "WITH owner_check AS (SELECT 1 FROM " +:+ quoted_table fk_target +:+ " WHERE id = $" +:+ fk_col +:+ " AND " +:+ quoted_ident through +:+
  " = ctx.User.ID)".

(** What one field with an axis adds, [fk_resource] of the same feature. *)
Definition axis_of_field (f : Feature) (r : Resource) (field : Field) (axis : OwnerAxis) (fk_qname : QualifiedName)
    : list ConventionSynthDiagnostic * option OwnerScopeSql :=
  let fk_target := qn_name fk_qname in
  let through := through_column axis in
  let scope := {| os_field_name := fd_name field; os_fk_target := fk_target; os_through_column := through;
                  os_where_predicate := build_owner_scope_where (fd_name field) fk_target through;
                  os_cte_owner_check := Some (build_owner_scope_cte_prefix (fd_name field) fk_target through) |} in
  match List.find (fun r' => name r' =? fk_target) (resources f) with
  | None => ([], Some scope)
  | Some fk_resource =>
    match List.find (fun f' => fd_name f' =? through) (fields fk_resource) with
    | None => ([OwnerAxisUnknownThrough (name r) (fd_name field) through fk_target (nearest_field_name through (fields fk_resource))], None)
    | Some through_field =>
      (if user_typed through_field then [] else [OwnerAxisThroughNotUserKeyed (name r) (fd_name field) through fk_target], Some scope)
    end
  end.

(** The loop over the fields: [emitted_collision_diag] and [chosen]. *)
Fixpoint owner_fields (f : Feature) (r : Resource) (emitted : bool) (chosen : option OwnerScopeSql) (fs : list Field)
    : list ConventionSynthDiagnostic * option OwnerScopeSql :=
  match fs with
  | [] => ([], chosen)
  | field :: fs =>
    match owner_axis field with
    | None => owner_fields f r emitted chosen fs
    | Some axis =>
      if has_user_unique r then
        let '(ds, c) := owner_fields f r true chosen fs in
        ((if emitted then [] else [OwnerAxisCollidesWithUniqueUser (name r) (fd_name field)]) ++ ds, c)%list
      else
        match type_ref field with
        | UserDefined q =>
          let '(d, scope) := axis_of_field f r field axis q in
          let '(ds, c) := owner_fields f r emitted (match chosen with Some c => Some c | None => scope end) fs in
          (d ++ ds, c)%list
        | _ => owner_fields f r emitted chosen fs
        end
    end
  end.
Definition resolve_owner_scope (f : Feature) (r : Resource) : list ConventionSynthDiagnostic * OwnerScopeResolution :=
  let '(ds, chosen) := owner_fields f r false None (fields r) in
  (ds, match chosen with Some s => Scoped s | None => Tenant end).

(** The scope of a statement that is not an insertion. *)
Definition without_cte (s : OwnerScopeSql) : OwnerScopeSql := {|
  os_field_name := os_field_name s; os_fk_target := os_fk_target s; os_through_column := os_through_column s;
  os_where_predicate := os_where_predicate s; os_cte_owner_check := None |}.
Definition create_scope (o : OwnerScopeResolution) : option OwnerScopeSql := match o with Scoped s => Some s | Tenant => None end.
Definition read_scope (o : OwnerScopeResolution) : option OwnerScopeSql := without_cte <$> create_scope o.

Definition with_base (c : Command) (b : CommandLowering.Command) : Command := {|
  base := b; kind := kind c; c_emits := c_emits c; rate_limit := rate_limit c; audit := audit c; invalidates := invalidates c |}.
Definition with_owner_scope (c : Command) (s : option OwnerScopeSql) : Command :=
  match s with
  | None => c
  | Some _ =>
    let b := base c in
    with_base c {| CommandLowering.c_name := CommandLowering.c_name b; CommandLowering.c_route := CommandLowering.c_route b;
      CommandLowering.c_input := CommandLowering.c_input b; CommandLowering.c_lets := CommandLowering.c_lets b;
      CommandLowering.c_effect := CommandLowering.c_effect b; CommandLowering.c_policy := CommandLowering.c_policy b;
      CommandLowering.c_policy_expr := CommandLowering.c_policy_expr b; CommandLowering.c_handler := CommandLowering.c_handler b;
      CommandLowering.c_triggers := CommandLowering.c_triggers b; CommandLowering.c_from_cap_file := CommandLowering.c_from_cap_file b;
      CommandLowering.c_owner_scope_sql := s |}
  end.
Definition with_invalidates (c : Command) (l : list InvalidatesSpec) : Command := {|
  base := base c; kind := kind c; c_emits := c_emits c; rate_limit := rate_limit c; audit := audit c; invalidates := l |}.
Definition lookup_with_scope (q : LookupQuery) (s : option OwnerScopeSql) : LookupQuery :=
  match s with
  | None => q
  | Some _ => {| u_name := u_name q; u_params := u_params q; u_keys := u_keys q; u_scope := u_scope q; u_scope_override := u_scope_override q;
                 u_filters := u_filters q; u_policy := u_policy q; u_policy_expr := u_policy_expr q; u_span := u_span q; u_owner_scope := s |}
  end.
Definition list_with_scope (q : ListQuery) (s : option OwnerScopeSql) : ListQuery :=
  match s with
  | None => q
  | Some _ => {| l_name := l_name q; l_params := l_params q; l_scope := l_scope q; l_scope_override := l_scope_override q; l_filters := l_filters q;
                 l_order := l_order q; l_paginate := l_paginate q; l_modifier := l_modifier q; l_cache := l_cache q; l_policy := l_policy q;
                 l_policy_expr := l_policy_expr q; l_span := l_span q; l_owner_scope := s |}
  end.

(** * Overlays ([crud_overlay.rs]) *)

Record ResolvedEffectOverlay := {
  ov_policy : option PolicyRef; ov_validate : list string; ov_input_excludes : list string; ov_assigns : list Assignment; ov_emits : list string
}.
Record ResolvedCrudOverlay := {
  ov_create : option ResolvedEffectOverlay; ov_update : option ResolvedEffectOverlay; ov_delete : option ResolvedEffectOverlay
}.
Definition resolve_effect_overlay (e : CrudSyntax.CrudEffectOverlayAst) : ResolvedEffectOverlay := {|
  ov_policy := Expr.lower_policy_atom <$> CrudSyntax.policy e; ov_validate := CrudSyntax.validate e;
  ov_input_excludes := CrudSyntax.input_excludes e;
  ov_assigns := List.map (fun a => {| as_field := CommandSyntax.ad_field a; as_value := Expr.lower_raw_expr (CommandSyntax.ad_value a) |}) (CrudSyntax.assigns e);
  ov_emits := CrudSyntax.emits e |}.
Definition resolve_crud_overlay (o : CrudSyntax.CrudOverlayAst) : ResolvedCrudOverlay := {|
  ov_create := resolve_effect_overlay <$> CrudSyntax.create o; ov_update := resolve_effect_overlay <$> CrudSyntax.update o;
  ov_delete := resolve_effect_overlay <$> CrudSyntax.delete o |}.
(** [collect_crud_overlays], of the names and overlays of the resources: the last
    of a name wins. *)
Definition collect_crud_overlays (l : list (string * option CrudSyntax.CrudOverlayAst)) (n : string) : option ResolvedCrudOverlay :=
  fold_left (fun found nr => match nr.2 with Some o => if nr.1 =? n then Some (resolve_crud_overlay o) else found | None => found end) l None.

Definition with_parts (c : Command) (input : CommandInput) (effect : CommandLowering.CommandEffect) (p : PolicyRef) (es : list string) : Command :=
  let b := base c in {|
  base := {| CommandLowering.c_name := CommandLowering.c_name b; CommandLowering.c_route := CommandLowering.c_route b;
    CommandLowering.c_input := input; CommandLowering.c_lets := CommandLowering.c_lets b; CommandLowering.c_effect := effect;
    CommandLowering.c_policy := p; CommandLowering.c_policy_expr := CommandLowering.c_policy_expr b;
    CommandLowering.c_handler := CommandLowering.c_handler b; CommandLowering.c_triggers := CommandLowering.c_triggers b;
    CommandLowering.c_from_cap_file := CommandLowering.c_from_cap_file b; CommandLowering.c_owner_scope_sql := CommandLowering.c_owner_scope_sql b |};
  kind := kind c; c_emits := es; rate_limit := rate_limit c; audit := audit c; invalidates := invalidates c |}.

Definition kept (excludes : list string) (n : string) : bool := negb (existsb (String.eqb n) excludes).
Definition exclude_input (excludes : list string) (input : CommandInput) : CommandInput :=
  match input with
  | Typed slots => match List.filter (fun s => kept excludes (ts_name s)) slots with [] => Empty | slots => Typed slots end
  | input => input
  end.
Definition exclude_assignments (excludes : list string) (l : list Assignment) : list Assignment :=
  List.filter (fun a => kept excludes (as_field a)) l.
Definition exclude_effect (excludes : list string) (e : CommandLowering.CommandEffect) : CommandLowering.CommandEffect :=
  match e with
  | Creates c => Creates {| cr_resource := cr_resource c; from_input := from_input c; cr_assignments := exclude_assignments excludes (cr_assignments c) |}
  | Updates u => Updates {| up_resource := up_resource u; up_assignments := exclude_assignments excludes (up_assignments u); up_where := up_where u |}
  | e => e
  end.
Definition apply_input_excludes (c : Command) (excludes : list string) : Command :=
  match excludes with
  | [] => c
  | _ => with_parts c (exclude_input excludes (CommandLowering.c_input (base c))) (exclude_effect excludes (CommandLowering.c_effect (base c)))
           (CommandLowering.c_policy (base c)) (c_emits c)
  end.

Definition overlaid_policy (c : Command) (o : ResolvedEffectOverlay) : PolicyRef :=
  match ov_policy o with Some p => p | None => CommandLowering.c_policy (base c) end.
Definition merge_create (c : Command) (o : ResolvedEffectOverlay) : Command :=
  let c := apply_input_excludes c (ov_input_excludes o) in
  with_parts c (CommandLowering.c_input (base c))
    (match CommandLowering.c_effect (base c) with
     | Creates e => Creates {| cr_resource := cr_resource e; from_input := from_input e; cr_assignments := (cr_assignments e ++ ov_assigns o)%list |}
     | e => e
     end) (overlaid_policy c o) (c_emits c ++ ov_emits o)%list.
Definition merge_update (c : Command) (o : ResolvedEffectOverlay) : Command :=
  let c := apply_input_excludes c (ov_input_excludes o) in
  with_parts c (CommandLowering.c_input (base c))
    (match CommandLowering.c_effect (base c) with
     | Updates e => Updates {| up_resource := up_resource e; up_assignments := (up_assignments e ++ ov_assigns o)%list; up_where := up_where e |}
     | e => e
     end) (overlaid_policy c o) (c_emits c ++ ov_emits o)%list.
Definition merge_delete (c : Command) (o : ResolvedEffectOverlay) : Command :=
  with_parts c (CommandLowering.c_input (base c)) (CommandLowering.c_effect (base c)) (overlaid_policy c o) (c_emits c ++ ov_emits o)%list.
Definition merge (merge_ : Command -> ResolvedEffectOverlay -> Command) (c : Command) (o : option ResolvedEffectOverlay) : Command :=
  match o with Some o => merge_ c o | None => c end.

(** * Signatures of authored entries ([signature.rs], [me_mode.rs]) *)

Inductive CanonicalReturn := CreatesResource (n : string) | UpdatesResource (n : string) | DeletesResource (n : string).
Definition effect_matches (e : CommandLowering.CommandEffect) (c : CanonicalReturn) : bool :=
  match e, c with
  | Creates e, CreatesResource n => qn_name (cr_resource e) =? n
  | Updates e, UpdatesResource n => qn_name (up_resource e) =? n
  | Deletes e, DeletesResource n => qn_name (de_resource e) =? n
  | _, _ => false
  end.
Definition input_names (i : CommandInput) : list string :=
  match i with Short ns => ns | Typed slots => List.map ts_name slots | Empty => [] end.
(** Equality of the two [BTreeSet]s. *)
Definition same_names (l k : list string) : bool :=
  forallb (fun n => existsb (String.eqb n) k) l && forallb (fun n => existsb (String.eqb n) l) k.
Definition check_command_signature_mismatch (f : Feature) (n : string) (inputs : list (Field * bool)) (canonical : CanonicalReturn) : option string :=
  cmd ← List.find (fun c => c_name c =? n) (commands f);
  if negb (effect_matches (CommandLowering.c_effect (base cmd)) canonical) then
    Some ("effect / target resource diverges from canonical shape for `" +:+ n +:+ "`")
  else if negb (same_names (input_names (CommandLowering.c_input (base cmd))) (List.map (fun fr => fd_name fr.1) inputs)) then
    Some ("input field list diverges from canonical shape for `" +:+ n +:+ "`")
  else None.

Definition differs {A} `{EqDecision A} (x y : A) : bool := negb (bool_decide (x = y)).
(** The first check that fails. *)
Fixpoint first_failing (n : string) (checks : list (bool * string)) : option string :=
  match checks with
  | [] => None
  | (b, what) :: checks => if b then Some (what +:+ " from canonical shape for `" +:+ n +:+ "`") else first_failing n checks
  end.
Definition check_query_signature_mismatch (f : Feature) (n : string) (canonical : Query) : option string :=
  query ← List.find (fun q => QueryLowering.name q =? n) (queries f);
  match query, canonical with
  | QLookup a, QLookup c => first_failing n
      [(differs (u_params a) (u_params c), "query params diverge"); (differs (u_keys a) (u_keys c), "lookup keys diverge");
       (differs (u_filters a) (u_filters c), "query filters diverge");
       (differs (u_policy a) (u_policy c) || differs (u_policy_expr a) (u_policy_expr c), "query policy diverges");
       (differs (u_owner_scope a) (u_owner_scope c), "owner-scope query shape diverges")]
  | QList a, QList c => first_failing n
      [(differs (l_params a) (l_params c), "query params diverge"); (differs (l_filters a) (l_filters c), "query filters diverge");
       (differs (l_order a) (l_order c), "query order diverges"); (differs (l_paginate a) (l_paginate c), "pagination diverges");
       (differs (l_policy a) (l_policy c) || differs (l_policy_expr a) (l_policy_expr c), "query policy diverges");
       (differs (l_owner_scope a) (l_owner_scope c), "owner-scope query shape diverges")]
  | _, _ => Some ("query kind / return shape diverges from canonical for `" +:+ n +:+ "`")
  end.
Definition check_me_lookup_signature_mismatch (f : Feature) (n resource : string) : option string :=
  query ← List.find (fun q => QueryLowering.name q =? n) (queries f);
  match query with
  | QLookup q =>
    match u_params q with
    | [] => None
    | _ => Some ("author-written `" +:+ n +:+ "` declares params; canonical `me` shape is route-less + parameter-less")
    end
  | _ => Some ("author-written `" +:+ n +:+ "` is not a `query.lookup`; canonical `me` shape is route-less Lookup")
  end.

(** * The pass ([mod.rs]) *)

Record Synth := {
  diagnostics : list ConventionSynthDiagnostic; to_add_commands : list Command; to_add_queries : list Query;
  origins : list (string * ConventionOrigin)
}.
Definition empty_synth : Synth := {| diagnostics := []; to_add_commands := []; to_add_queries := []; origins := [] |}.
Definition diagnose (s : Synth) (ds : list ConventionSynthDiagnostic) : Synth := {|
  diagnostics := (diagnostics s ++ ds)%list; to_add_commands := to_add_commands s; to_add_queries := to_add_queries s; origins := origins s |}.

Section Pass.
Variable f : Feature.
Variable overlays : string -> option ResolvedCrudOverlay.
Definition existing_command (n : string) : bool := existsb (fun c => c_name c =? n) (commands f).
Definition existing_query (n : string) : bool := existsb (fun q => QueryLowering.name q =? n) (queries f).
Definition has_authenticated : bool := existsb (fun p => pc_name p =? "authenticated") (categories (f_policies f)).

(** An entry of a bundle: left to the author, whose signature is checked, or
    added. *)
Definition mismatch_diagnostic (b : ConventionRef) (resource n reason : string) : ConventionSynthDiagnostic :=
  match b with Crud => SignatureMismatch resource n reason | Me => MeSignatureMismatch resource n reason end.
Definition authored (b : ConventionRef) (resource n : string) (mismatch : option string) (s : Synth) : Synth := {|
  diagnostics := (diagnostics s ++ match mismatch with Some reason => [mismatch_diagnostic b resource n reason] | None => [] end)%list;
  to_add_commands := to_add_commands s; to_add_queries := to_add_queries s; origins := (origins s ++ [(n, AuthorOverride b)])%list |}.
Definition add_command (n : string) (c : Command) (s : Synth) : Synth := {|
  diagnostics := diagnostics s; to_add_commands := (to_add_commands s ++ [c])%list; to_add_queries := to_add_queries s;
  origins := (origins s ++ [(n, Synthesized Crud)])%list |}.
Definition add_query (b : ConventionRef) (n : string) (q : Query) (s : Synth) : Synth := {|
  diagnostics := diagnostics s; to_add_commands := to_add_commands s; to_add_queries := (to_add_queries s ++ [q])%list;
  origins := (origins s ++ [(n, Synthesized b)])%list |}.
Definition command_entry (r : Resource) (n : string) (mismatch : option string) (c : Command) (s : Synth) : Synth :=
  if existing_command n then authored Crud (name r) n mismatch s else add_command n c s.
Definition query_entry (b : ConventionRef) (r : Resource) (mismatch : string -> option string) (q : Query) (s : Synth) : Synth :=
  let n := QueryLowering.name q in
  if existing_query n then authored b (name r) n (mismatch n) s else add_query b n q s.

(** The names of a resource's entries. *)
Definition resource_snake (r : Resource) : string := pascal_to_snake (name r).
Definition create_name (r : Resource) : string := "create_" +:+ resource_snake r.
Definition update_name (r : Resource) : string := "update_" +:+ resource_snake r.
Definition delete_name (r : Resource) : string := "delete_" +:+ resource_snake r.
Definition lookup_name (r : Resource) : string := "lookup_" +:+ resource_snake r.
Definition list_name (r : Resource) : string := "list_" +:+ resource_snake r +:+ "s".
Definition lookup_my_name (r : Resource) : string := "lookup_my_" +:+ resource_snake r.
Definition has_crud (r : Resource) : bool := bool_decide (Crud ∈ conventions r).
Definition has_me (r : Resource) : bool := bool_decide (Me ∈ conventions r).

(** The five entries of [crud] and the one of [me]. *)
Definition crud_invalidates (r : Resource) : list InvalidatesSpec :=
  synth_crud_invalidates (lookup_name r) (list_name r) (has_me r) (resource_snake r).
Definition create_entry (r : Resource) (o : OwnerScopeResolution) : Command :=
  let cmd := build_create_command (create_name r) (name r) (create_input_fields (categorize_fields r)) in
  merge merge_create (with_invalidates (with_owner_scope cmd (create_scope o)) (crud_invalidates r)) (o ← overlays (name r); ov_create o).
Definition update_entry (r : Resource) (o : OwnerScopeResolution) : Command :=
  let cmd := build_update_command (update_name r) (name r) (update_input_fields (categorize_fields r)) in
  merge merge_update (with_invalidates (with_owner_scope cmd (read_scope o)) (crud_invalidates r)) (o ← overlays (name r); ov_update o).
Definition delete_entry (r : Resource) (o : OwnerScopeResolution) : Command :=
  let cmd := build_delete_command (delete_name r) (name r) in
  merge merge_delete (with_invalidates (with_owner_scope cmd (read_scope o)) (crud_invalidates r)) (o ← overlays (name r); ov_delete o).
Definition lookup_entry (r : Resource) (o : OwnerScopeResolution) : Query :=
  QLookup (lookup_with_scope (build_lookup_query (lookup_name r) (name r)) (read_scope o)).
Definition list_entry (r : Resource) (o : OwnerScopeResolution) : Query :=
  QList (list_with_scope (build_list_query (list_name r) (name r)) (read_scope o)).
Definition me_entry (r : Resource) (m : MeMode) (o : OwnerScopeResolution) : Query :=
  QLookup (lookup_with_scope (build_lookup_my_query (lookup_my_name r) (name r) m) (read_scope o)).

Definition synth_crud (r : Resource) (o : OwnerScopeResolution) (s : Synth) : Synth :=
  let s := if has_authenticated then s else diagnose s [PolicyNotFound (name r)] in
  let categorised := categorize_fields r in
  let inputs := create_input_fields categorised in
  let s := match inputs with [] => diagnose s [NoRequiredFields (name r)] | _ => s end in
  let s := command_entry r (create_name r) (check_command_signature_mismatch f (create_name r) inputs (CreatesResource (name r))) (create_entry r o) s in
  let s := command_entry r (update_name r)
    (check_command_signature_mismatch f (update_name r) (update_input_fields categorised) (UpdatesResource (name r))) (update_entry r o) s in
  let s := command_entry r (delete_name r) (check_command_signature_mismatch f (delete_name r) [] (DeletesResource (name r))) (delete_entry r o) s in
  let s := query_entry Crud r (fun n => check_query_signature_mismatch f n (lookup_entry r o)) (lookup_entry r o) s in
  query_entry Crud r (fun n => check_query_signature_mismatch f n (list_entry r o)) (list_entry r o) s.

Definition policy_reported (r : Resource) (ds : list ConventionSynthDiagnostic) : bool :=
  existsb (fun d => match d with PolicyNotFound n => n =? name r | _ => false end) ds.
Definition synth_me (r : Resource) (o : OwnerScopeResolution) (s : Synth) : Synth :=
  let s := if has_authenticated || policy_reported r (diagnostics s) then s else diagnose s [PolicyNotFound (name r)] in
  match classify_me_mode r with
  | Some m => query_entry Me r (fun n => check_me_lookup_signature_mismatch f n (name r)) (me_entry r m o) s
  | None => diagnose s [MeNoActorResolution (name r)]
  end.

Definition synth_resource (s : Synth) (r : Resource) : Synth :=
  if negb (has_crud r) && negb (has_me r) then s else
  let '(ds, o) := resolve_owner_scope f r in
  let s := diagnose s ds in
  let s := if has_crud r then synth_crud r o s else s in
  if has_me r then synth_me r o s else s.
Definition synthesis : Synth := fold_left synth_resource (resources f) empty_synth.
End Pass.

Definition synthesize_conventions_with_overlays (f : Feature) (overlays : string -> option ResolvedCrudOverlay)
    : Feature * list ConventionSynthDiagnostic :=
  let s := synthesis f overlays in
  ({| f_name := f_name f; resources := resources f; f_policies := f_policies f; commands := (commands f ++ to_add_commands s)%list;
      queries := (queries f ++ to_add_queries s)%list;
      synth_origins := fold_left (fun m e => bt_insert e.1 e.2 m) (origins s) (synth_origins f) |}, diagnostics s).
Definition synthesize_conventions (f : Feature) : Feature * list ConventionSynthDiagnostic :=
  synthesize_conventions_with_overlays f (fun _ => None).

(** * What is added *)

Section Spec.
Variable f : Feature.
Variable overlays : string -> option ResolvedCrudOverlay.
Abbreviation scope := (fun r => snd (resolve_owner_scope f r)).

(** The entries of a resource, whoever writes them. *)
Definition bundle_commands (r : Resource) : list Command :=
  if has_crud r then [create_entry overlays r (scope r); update_entry overlays r (scope r); delete_entry overlays r (scope r)] else [].
Definition bundle_queries (r : Resource) : list (ConventionRef * Query) :=
  ((if has_crud r then [(Crud, lookup_entry r (scope r)); (Crud, list_entry r (scope r))] else []) ++
   (if has_me r then match classify_me_mode r with Some m => [(Me, me_entry r m (scope r))] | None => [] end else []))%list.
(** Those the author has not written. *)
Definition added_commands : list Command :=
  List.filter (fun c => negb (existing_command f (c_name c))) (flat_map bundle_commands (resources f)).
Definition added_queries : list Query :=
  List.filter (fun q => negb (existing_query f (QueryLowering.name q))) (List.map snd (flat_map bundle_queries (resources f))).

Definition command_mark (c : Command) : string * ConventionOrigin :=
  (c_name c, if existing_command f (c_name c) then AuthorOverride Crud else Synthesized Crud).
Definition query_mark (bq : ConventionRef * Query) : string * ConventionOrigin :=
  let n := QueryLowering.name bq.2 in (n, if existing_query f n then AuthorOverride bq.1 else Synthesized bq.1).
Definition bundle_marks (r : Resource) : list (string * ConventionOrigin) :=
  (List.map command_mark (bundle_commands r) ++ List.map query_mark (bundle_queries r))%list.

(** A declaration the pass has nothing to say about. *)
Definition command_sound (n : string) (inputs : list (Field * bool)) (c : CanonicalReturn) : bool :=
  match check_command_signature_mismatch f n inputs c with None => true | Some _ => false end.
Definition query_sound (q : Query) : bool :=
  match check_query_signature_mismatch f (QueryLowering.name q) q with None => true | Some _ => false end.
Definition crud_sound (r : Resource) : bool :=
  has_authenticated f && negb (match create_input_fields (categorize_fields r) with [] => true | _ => false end) &&
  command_sound (create_name r) (create_input_fields (categorize_fields r)) (CreatesResource (name r)) &&
  command_sound (update_name r) (update_input_fields (categorize_fields r)) (UpdatesResource (name r)) &&
  command_sound (delete_name r) [] (DeletesResource (name r)) &&
  query_sound (lookup_entry r (scope r)) && query_sound (list_entry r (scope r)).
Definition me_sound (r : Resource) : bool :=
  has_authenticated f && match classify_me_mode r with Some _ => true | None => false end &&
  match check_me_lookup_signature_mismatch f (lookup_my_name r) (name r) with None => true | Some _ => false end.
Definition resource_sound (r : Resource) : bool :=
  (negb (has_crud r) && negb (has_me r)) ||
  (match fst (resolve_owner_scope f r) with [] => true | _ => false end && (negb (has_crud r) || crud_sound r) && (negb (has_me r) || me_sound r)).

Lemma create_entry_name r o : c_name (create_entry overlays r o) = create_name r.
Proof. unfold create_entry, with_owner_scope. destruct (create_scope o), (_ ← overlays (name r); _) as [e|]; cbn; try done; unfold apply_input_excludes; by destruct (ov_input_excludes e). Qed.
Lemma update_entry_name r o : c_name (update_entry overlays r o) = update_name r.
Proof. unfold update_entry, with_owner_scope. destruct (read_scope o), (_ ← overlays (name r); _) as [e|]; cbn; try done; unfold apply_input_excludes; by destruct (ov_input_excludes e). Qed.
Lemma delete_entry_name r o : c_name (delete_entry overlays r o) = delete_name r.
Proof. unfold delete_entry, with_owner_scope. by destruct (read_scope o), (_ ← overlays (name r); _) as [e|]. Qed.
Lemma lookup_entry_name r o : QueryLowering.name (lookup_entry r o) = lookup_name r.
Proof. unfold lookup_entry, lookup_with_scope. by destruct (read_scope o). Qed.
Lemma list_entry_name r o : QueryLowering.name (list_entry r o) = list_name r.
Proof. unfold list_entry, list_with_scope. by destruct (read_scope o). Qed.
Lemma me_entry_name r m o : QueryLowering.name (me_entry r m o) = lookup_my_name r.
Proof. unfold me_entry, lookup_with_scope. by destruct (read_scope o). Qed.

(** ** The accumulated entries *)

(** What one step adds to each list, the diagnostics aside. *)
Definition extends (s s' : Synth) (cs : list Command) (qs : list Query) (os : list (string * ConventionOrigin)) : Prop :=
  to_add_commands s' = (to_add_commands s ++ cs)%list /\ to_add_queries s' = (to_add_queries s ++ qs)%list /\ origins s' = (origins s ++ os)%list.
Lemma synth_extends_refl s : extends s s [] [] [].
Proof. unfold extends. by rewrite !app_nil_r. Qed.
Lemma extends_diagnose s s' ds cs qs os : extends (diagnose s ds) s' cs qs os <-> extends s s' cs qs os.
Proof. done. Qed.
Lemma synth_extends_trans s s1 s2 cs qs os cs' qs' os' : extends s s1 cs qs os -> extends s1 s2 cs' qs' os' ->
  extends s s2 (cs ++ cs') (qs ++ qs') (os ++ os').
Proof. intros (H1 & H2 & H3) (H4 & H5 & H6). unfold extends. rewrite H4, H5, H6, H1, H2, H3. by rewrite !app_assoc. Qed.

Lemma extends_command r mismatch c s :
  extends s (command_entry f r (c_name c) mismatch c s) (if existing_command f (c_name c) then [] else [c]) [] [command_mark c].
Proof. unfold command_entry, command_mark, extends. destruct (existing_command f (c_name c)); cbn; by rewrite !app_nil_r. Qed.
Lemma extends_query b r mismatch q s :
  extends s (query_entry f b r mismatch q s) [] (if existing_query f (QueryLowering.name q) then [] else [q]) [query_mark (b, q)].
Proof. unfold query_entry, query_mark, extends. cbn [fst snd]. destruct (existing_query f (QueryLowering.name q)); cbn; by rewrite !app_nil_r. Qed.

Definition new_commands (l : list Command) : list Command := List.filter (fun c => negb (existing_command f (c_name c))) l.
Definition new_queries (l : list (ConventionRef * Query)) : list Query :=
  List.filter (fun q => negb (existing_query f (QueryLowering.name q))) (List.map snd l).
Lemma new_commands_cons c l : new_commands (c :: l) = ((if existing_command f (c_name c) then [] else [c]) ++ new_commands l)%list.
Proof. unfold new_commands. cbn. by destruct (existing_command f (c_name c)). Qed.
Lemma new_queries_cons b q l : new_queries ((b, q) :: l) = ((if existing_query f (QueryLowering.name q) then [] else [q]) ++ new_queries l)%list.
Proof. unfold new_queries. cbn. by destruct (existing_query f (QueryLowering.name q)). Qed.

Lemma extends_crud r s : extends s (synth_crud f overlays r (scope r) s)
  (new_commands [create_entry overlays r (scope r); update_entry overlays r (scope r); delete_entry overlays r (scope r)])
  (new_queries [(Crud, lookup_entry r (scope r)); (Crud, list_entry r (scope r))])
  (List.map command_mark [create_entry overlays r (scope r); update_entry overlays r (scope r); delete_entry overlays r (scope r)] ++
   List.map query_mark [(Crud, lookup_entry r (scope r)); (Crud, list_entry r (scope r))]).
Proof.
  unfold synth_crud. set (s1 := if has_authenticated f then s else _).
  set (s2 := match create_input_fields _ with [] => diagnose s1 _ | _ => s1 end).
  assert (H2 : extends s s2 [] [] []) by (unfold s2, s1, extends; destruct (has_authenticated f), (create_input_fields _); cbn; by rewrite !app_nil_r).
  rewrite !new_commands_cons, !new_queries_cons. rewrite <-(create_entry_name r (scope r)) at 1. rewrite <-(update_entry_name r (scope r)) at 1.
  rewrite <-(delete_entry_name r (scope r)) at 1.
  pose proof (synth_extends_trans _ _ _ _ _ _ _ _ _ H2 (extends_command r
    (check_command_signature_mismatch f (create_name r) (create_input_fields (categorize_fields r)) (CreatesResource (name r)))
    (create_entry overlays r (scope r)) s2)) as H. cbn [app] in H.
  pose proof (synth_extends_trans _ _ _ _ _ _ _ _ _ H (extends_command r
    (check_command_signature_mismatch f (update_name r) (update_input_fields (categorize_fields r)) (UpdatesResource (name r)))
    (update_entry overlays r (scope r)) _)) as H'. clear H.
  pose proof (synth_extends_trans _ _ _ _ _ _ _ _ _ H' (extends_command r
    (check_command_signature_mismatch f (delete_name r) [] (DeletesResource (name r))) (delete_entry overlays r (scope r)) _)) as H. clear H'.
  pose proof (synth_extends_trans _ _ _ _ _ _ _ _ _ H (extends_query Crud r
    (fun n => check_query_signature_mismatch f n (lookup_entry r (scope r))) (lookup_entry r (scope r)) _)) as H'. clear H.
  pose proof (synth_extends_trans _ _ _ _ _ _ _ _ _ H' (extends_query Crud r
    (fun n => check_query_signature_mismatch f n (list_entry r (scope r))) (list_entry r (scope r)) _)) as H. clear H'.
  cbn [app] in H. rewrite !app_nil_r in H. cbn [new_commands new_queries List.filter List.map app]. rewrite !app_nil_r, ?app_assoc in *.
  exact H.
Qed.

Lemma extends_me r s : extends s (synth_me f r (scope r) s) []
  (new_queries match classify_me_mode r with Some m => [(Me, me_entry r m (scope r))] | None => [] end)
  (List.map query_mark match classify_me_mode r with Some m => [(Me, me_entry r m (scope r))] | None => [] end).
Proof.
  unfold synth_me. set (s1 := if _ || _ then s else _).
  assert (H1 : extends s s1 [] [] []) by (unfold s1, extends; destruct (_ || _); cbn; by rewrite !app_nil_r).
  destruct (classify_me_mode r) as [m|]; [|exact H1]. rewrite new_queries_cons. cbn [new_queries List.filter List.map]. rewrite app_nil_r.
  exact (synth_extends_trans _ _ _ _ _ _ _ _ _ H1 (extends_query Me r (fun n => check_me_lookup_signature_mismatch f n (name r)) (me_entry r m (scope r)) s1)).
Qed.

Lemma new_queries_app l k : new_queries (l ++ k) = (new_queries l ++ new_queries k)%list.
Proof. unfold new_queries. by rewrite List.map_app, List.filter_app. Qed.
Lemma new_commands_app l k : new_commands (l ++ k) = (new_commands l ++ new_commands k)%list.
Proof. apply List.filter_app. Qed.

Lemma extends_resource r s : extends s (synth_resource f overlays s r) (new_commands (bundle_commands r)) (new_queries (bundle_queries r)) (bundle_marks r).
Proof.
  unfold synth_resource, bundle_marks, bundle_commands, bundle_queries. destruct (resolve_owner_scope f r) as [ds o] eqn:E.
  assert (o = scope r) as -> by (by rewrite E). rewrite !new_queries_app, List.map_app.
  destruct (has_crud r), (has_me r); cbn [negb andb]; rewrite <-?(extends_diagnose s _ ds).
  - pose proof (synth_extends_trans _ _ _ _ _ _ _ _ _ (extends_crud r (diagnose s ds)) (extends_me r (synth_crud f overlays r (scope r) (diagnose s ds)))) as H.
    by rewrite app_nil_r, <-app_assoc in H.
  - rewrite !app_nil_r. apply extends_crud.
  - apply extends_me.
  - apply extends_diagnose, synth_extends_refl.
Qed.

Lemma extends_all l s : extends s (fold_left (synth_resource f overlays) l s)
  (new_commands (flat_map bundle_commands l)) (new_queries (flat_map bundle_queries l)) (flat_map bundle_marks l).
Proof.
  revert s. induction l as [|r l IH]; intros s; [apply synth_extends_refl|]. cbn [fold_left flat_map]. rewrite new_commands_app, new_queries_app.
  eapply synth_extends_trans; [apply extends_resource|apply IH].
Qed.

Lemma synthesis_adds : to_add_commands (synthesis f overlays) = added_commands /\ to_add_queries (synthesis f overlays) = added_queries /\
  origins (synthesis f overlays) = flat_map bundle_marks (resources f).
Proof. exact (extends_all (resources f) empty_synth). Qed.

(** ** The accumulated diagnostics *)

Lemma app_nil_iff {A} (l k : list A) : (l ++ k)%list = [] <-> l = [] /\ k = [].
Proof. split; [apply app_eq_nil|by intros [-> ->]]. Qed.
Lemma diagnostics_command r n mismatch c s : (mismatch <> None -> existing_command f n = true) ->
  diagnostics (command_entry f r n mismatch c s) = [] <-> diagnostics s = [] /\ mismatch = None.
Proof.
  intros H. unfold command_entry. destruct (existing_command f n); cbn.
  - rewrite app_nil_iff. destruct mismatch; naive_solver.
  - destruct mismatch as [m|]; [by assert (false = true) by (by apply H)|tauto].
Qed.
Lemma diagnostics_query b r mismatch q s : (mismatch (QueryLowering.name q) <> None -> existing_query f (QueryLowering.name q) = true) ->
  diagnostics (query_entry f b r mismatch q s) = [] <-> diagnostics s = [] /\ mismatch (QueryLowering.name q) = None.
Proof.
  intros H. unfold query_entry. destruct (existing_query f _); cbn.
  - rewrite app_nil_iff. destruct (mismatch _); naive_solver.
  - destruct (mismatch _) as [m|]; [by assert (false = true) by (by apply H)|tauto].
Qed.
Lemma command_mismatch_exists n inputs c : check_command_signature_mismatch f n inputs c <> None -> existing_command f n = true.
Proof.
  unfold check_command_signature_mismatch. destruct (List.find _ _) as [cmd|] eqn:E; [|done]. intros _. apply List.find_some in E as [Hin Hn].
  apply existsb_exists. by exists cmd.
Qed.
Lemma found_query n : match List.find (fun q => QueryLowering.name q =? n) (queries f) with Some _ => existing_query f n = true | None => True end.
Proof. destruct (List.find _ _) as [q|] eqn:E; [|done]. apply List.find_some in E as [Hin Hn]. apply existsb_exists. by exists q. Qed.
Lemma query_mismatch_exists n q : check_query_signature_mismatch f n q <> None -> existing_query f n = true.
Proof. unfold check_query_signature_mismatch. pose proof (found_query n) as H. by destruct (List.find _ _). Qed.
Lemma me_mismatch_exists n r : check_me_lookup_signature_mismatch f n r <> None -> existing_query f n = true.
Proof. unfold check_me_lookup_signature_mismatch. pose proof (found_query n) as H. by destruct (List.find _ _). Qed.

Lemma crud_silent r s : diagnostics (synth_crud f overlays r (scope r) s) = [] <-> diagnostics s = [] /\ crud_sound r = true.
Proof.
  unfold synth_crud. rewrite !diagnostics_query by (intros H; by eapply query_mismatch_exists).
  rewrite !diagnostics_command by (intros H; by eapply command_mismatch_exists).
  unfold crud_sound, command_sound, query_sound. rewrite lookup_entry_name, list_entry_name.
  destruct (create_input_fields _) as [|fr l]; cbn [diagnose diagnostics negb]; [rewrite app_nil_iff, !andb_false_r; cbn; naive_solver|].
  destruct (has_authenticated f); cbn [diagnose diagnostics andb]; [|rewrite app_nil_iff; naive_solver].
  repeat (destruct (check_command_signature_mismatch _ _ _ _); cbn [andb]; [naive_solver|]).
  repeat (destruct (check_query_signature_mismatch _ _ _); cbn [andb]; [naive_solver|]). naive_solver.
Qed.
Lemma me_silent r s : diagnostics s = [] -> diagnostics (synth_me f r (scope r) s) = [] <-> me_sound r = true.
Proof.
  intros Hs. unfold synth_me, me_sound. rewrite Hs. cbn [policy_reported existsb]. rewrite orb_false_r.
  assert (H : forall s', diagnostics s' = [] -> diagnostics match classify_me_mode r with
    | Some m => query_entry f Me r (fun n => check_me_lookup_signature_mismatch f n (name r)) (me_entry r m (scope r)) s'
    | None => diagnose s' [MeNoActorResolution (name r)] end = [] <->
    match classify_me_mode r with Some _ => true | None => false end &&
    match check_me_lookup_signature_mismatch f (lookup_my_name r) (name r) with None => true | Some _ => false end = true).
  { intros s' Hs'. destruct (classify_me_mode r) as [m|]; cbn [andb]; [|cbn; rewrite Hs'; done].
    rewrite diagnostics_query by (intros Hm; by eapply me_mismatch_exists). rewrite me_entry_name.
    destruct (check_me_lookup_signature_mismatch _ _ _); naive_solver. }
  destruct (has_authenticated f); cbn [andb]; [by apply H|]. split; [|done]. intros Hd. exfalso.
  destruct (classify_me_mode r) as [m|].
  - apply diagnostics_query in Hd as [Hd _]; [|intros Hm; by eapply me_mismatch_exists]. cbn in Hd. by rewrite Hs in Hd.
  - cbn in Hd. by rewrite Hs in Hd.
Qed.
Lemma diagnostics_grow r s : diagnostics (synth_me f r (scope r) s) = [] -> diagnostics s = [].
Proof.
  unfold synth_me. destruct (classify_me_mode r) as [m|].
  - intros [Hd _]%diagnostics_query; [|intros Hm; by eapply me_mismatch_exists]. revert Hd. destruct (_ || _); [done|]. cbn. by intros [? _]%app_nil_iff.
  - destruct (_ || _); cbn; [by intros [? _]%app_nil_iff|]. rewrite <-app_assoc. by intros [? _]%app_nil_iff.
Qed.
Lemma resource_silent r s : diagnostics (synth_resource f overlays s r) = [] <-> diagnostics s = [] /\ resource_sound r = true.
Proof.
  unfold synth_resource, resource_sound. destruct (resolve_owner_scope f r) as [ds o] eqn:E.
  assert (o = scope r) as -> by (by rewrite E). cbn [fst].
  assert (Hd : diagnostics (diagnose s ds) = [] <-> diagnostics s = [] /\ ds = []) by (cbn; apply app_nil_iff).
  destruct (has_crud r), (has_me r); cbn [negb andb orb]; [| | |tauto].
  - split.
    + intros H. pose proof (diagnostics_grow _ _ H) as Hc. apply (me_silent r _ Hc) in H. apply crud_silent in Hc as [Hc1 Hc2]. apply Hd in Hc1 as [? ->].
      by rewrite Hc2, H.
    + intros [Hs H]. rewrite !andb_true_iff in H. destruct H as [[Hds Hc] Hm].
      assert (Hcs : diagnostics (synth_crud f overlays r (scope r) (diagnose s ds)) = []) by (apply crud_silent; split; [apply Hd; split; [done|by destruct ds]|done]).
      by apply (me_silent r _ Hcs).
  - rewrite crud_silent, Hd, !andb_true_iff. destruct ds; naive_solver.
  - split.
    + intros H. pose proof (diagnostics_grow _ _ H) as Hc. apply (me_silent r _ Hc) in H. apply Hd in Hc as [? ->]. by rewrite H.
    + intros [Hs H]. rewrite !andb_true_iff in H. destruct H as [[Hds _] Hm].
      assert (Hcs : diagnostics (diagnose s ds) = []) by (apply Hd; split; [done|by destruct ds]). by apply (me_silent r _ Hcs).
Qed.
Lemma synthesis_silent : diagnostics (synthesis f overlays) = [] <-> forallb resource_sound (resources f) = true.
Proof.
  unfold synthesis. assert (H : forall l s, diagnostics (fold_left (synth_resource f overlays) l s) = [] <-> diagnostics s = [] /\ forallb resource_sound l = true).
  { induction l as [|r l IH]; intros s; cbn [fold_left forallb]; [tauto|]. rewrite IH, resource_silent, andb_true_iff. tauto. }
  rewrite H. cbn. tauto.
Qed.
End Spec.

Lemma insert_all_get (l : list (string * ConventionOrigin)) m n o : NoDup l.*1 -> In (n, o) l ->
  bt_get n (fold_left (fun m e => bt_insert e.1 e.2 m) l m) = Some o.
Proof.
  revert m. induction l as [|e l IH]; intros m Hd Hin; [done|]. cbn in *. apply NoDup_cons in Hd as [Hn Hd].
  destruct Hin as [->|Hin]; [|by apply IH]. rewrite list_elem_of_In in Hn. cbn in Hn. clear IH Hd. revert m.
  induction l as [|e l IH] using rev_ind; intros m; [apply bt_get_insert_eq|]. rewrite fold_left_app. cbn.
  rewrite fmap_app, in_app_iff in Hn. cbn in Hn. rewrite bt_get_insert_ne by naive_solver. apply IH. naive_solver.
Qed.

(** C20: The pass leaves what the author wrote as it is and appends, for each resource
    in order, the entries of its bundles whose names the author has not taken;
    each entry is marked as the author's or as the bundle's; nothing is reported
    exactly when every annotated declaration is sound. *)
Theorem synthesis_exact f overlays :
  let '(f', ds) := synthesize_conventions_with_overlays f overlays in
  f_name f' = f_name f /\ resources f' = resources f /\ f_policies f' = f_policies f /\
  commands f' = (commands f ++ added_commands f overlays)%list /\ queries f' = (queries f ++ added_queries f)%list /\
  (let marks := flat_map (bundle_marks f overlays) (resources f) in
   NoDup marks.*1 -> forall n o, In (n, o) marks -> bt_get n (synth_origins f') = Some o) /\
  (ds = [] <-> forallb (resource_sound f) (resources f) = true).
Proof.
  destruct (synthesis_adds f overlays) as (H1 & H2 & H3). cbn. rewrite H1, H2, H3. repeat (split; [done|]).
  split; [intros Hd n o Hin; by apply insert_all_get|apply synthesis_silent].
Qed.

(** ** A second run *)

(** The scopes depend on the declarations only. *)
Lemma owner_fields_resources f f' r fs : resources f = resources f' -> forall e c, owner_fields f r e c fs = owner_fields f' r e c fs.
Proof.
  intros H. induction fs as [|x fs IH]; intros e c; [done|]. cbn. destruct (owner_axis x) as [a|]; [|apply IH].
  destruct (has_user_unique r); [by rewrite IH|]. destruct (type_ref x); try apply IH.
  replace (axis_of_field f' r x a q) with (axis_of_field f r x a q) by (unfold axis_of_field; by rewrite H).
  destruct (axis_of_field f r x a q). by rewrite IH.
Qed.
Lemma resolve_resources f f' r : resources f = resources f' -> resolve_owner_scope f r = resolve_owner_scope f' r.
Proof. intros H. unfold resolve_owner_scope. by rewrite (owner_fields_resources f f'). Qed.

Lemma bundle_names_taken f overlays c : In c (flat_map (bundle_commands f overlays) (resources f)) ->
  existing_command (fst (synthesize_conventions_with_overlays f overlays)) (c_name c) = true.
Proof.
  intros Hin. destruct (synthesis_adds f overlays) as (H1 & _). unfold existing_command. cbn. rewrite H1, existsb_app. apply orb_true_iff.
  destruct (existing_command f (c_name c)) eqn:E; [by left|right]. apply existsb_exists. exists c. split; [|apply String.eqb_refl].
  apply filter_In. by rewrite E.
Qed.
Lemma query_names_taken f overlays q : In q (List.map snd (flat_map (bundle_queries f) (resources f))) ->
  existing_query (fst (synthesize_conventions_with_overlays f overlays)) (QueryLowering.name q) = true.
Proof.
  intros Hin. destruct (synthesis_adds f overlays) as (_ & H2 & _). unfold existing_query. cbn. rewrite H2, existsb_app. apply orb_true_iff.
  destruct (existing_query f (QueryLowering.name q)) eqn:E; [by left|right]. apply existsb_exists. exists q. split; [|apply String.eqb_refl].
  apply filter_In. by rewrite E.
Qed.

(** A run over its own result adds nothing, even with other overlays. *)
Theorem synthesis_idempotent f overlays overlays' :
  let f1 := fst (synthesize_conventions_with_overlays f overlays) in
  let f2 := fst (synthesize_conventions_with_overlays f1 overlays') in
  commands f2 = commands f1 /\ queries f2 = queries f1 /\ resources f2 = resources f1.
Proof.
  intros f1 f2. destruct (synthesis_adds f1 overlays') as (H1 & H2 & _). unfold f2. cbn [synthesize_conventions_with_overlays fst commands queries resources].
  rewrite H1, H2. unfold added_commands, added_queries. change (resources f1) with (resources f).
  replace (List.filter _ (flat_map _ _)) with (@nil Command); [replace (List.filter _ (List.map _ _)) with (@nil Query); [by rewrite !app_nil_r|]|].
  - symmetry. apply filter_none. intros q Hin. apply negb_false_iff, query_names_taken.
    erewrite flat_map_ext; [exact Hin|]. intros r. unfold bundle_queries. by rewrite (resolve_resources f f1).
  - symmetry. apply filter_none. intros c Hin. apply negb_false_iff. apply in_flat_map in Hin as (r & Hr & Hc).
    unfold bundle_commands in Hc. destruct (has_crud r) eqn:Ec; [|done].
    assert (Hn : In (c_name c) (List.map c_name (flat_map (bundle_commands f overlays) (resources f)))).
    { apply in_map_iff. unfold bundle_commands. destruct Hc as [<-|[<-|[<-|[]]]].
      - rewrite create_entry_name. eexists. split; [apply (create_entry_name overlays r (snd (resolve_owner_scope f r)))|].
        apply in_flat_map. exists r. rewrite Ec. cbn. tauto.
      - rewrite update_entry_name. eexists. split; [apply (update_entry_name overlays r (snd (resolve_owner_scope f r)))|].
        apply in_flat_map. exists r. rewrite Ec. cbn. tauto.
      - rewrite delete_entry_name. eexists. split; [apply (delete_entry_name overlays r (snd (resolve_owner_scope f r)))|].
        apply in_flat_map. exists r. rewrite Ec. cbn. tauto. }
    apply in_map_iff in Hn as (c' & <- & Hin). by apply bundle_names_taken.
Qed.

(** * A feature *)

Definition stay_field (n : string) (t : TypeRef) (req : bool) (axis : option OwnerAxis) : Field := {|
  fd_name := n; type_ref := t; required := req; unique := false; fd_default := None; derived_from := None; full_text := false;
  cross_feature_target := None; fd_constraints := default_constraints; owner_axis := axis |}.
Definition stay_resource (n : string) (fs : list Field) (bundles : list ConventionRef) : Resource := {|
  declared := {| Catalog.r_name := n; tenancy := Some Org; soft_delete := false; soft_delete_actor := false; timestamps := Some true; Catalog.fields := fs;
                 constraints := []; composite_key := None; polymorphic_refs := []; Catalog.restrict_on_delete := [] |};
  r_lifecycle := None; conventions := bundles |}.
Definition host_resource : Resource := stay_resource "Host" [stay_field "user" (UserDefined (local_name "User")) true None] [Me].
Definition place_resource : Resource := stay_resource "Place"
  [stay_field "host" (UserDefined (local_name "Host")) true (Some {| through_column := "user" |}); stay_field "title" (Builtin types.Text) true None;
   stay_field "blurb" (Builtin types.Text) false None] [Crud].
Definition stays : Feature := {|
  f_name := "stays"; resources := [host_resource; place_resource];
  f_policies := {| categories := [{| pc_name := "authenticated"; pc_atoms := []; pc_conditional_atoms := [] |}] |}; commands := []; queries := []; synth_origins := [] |}.

Lemma synthesis_exact_witness :
  let '(f', ds) := synthesize_conventions stays in
  List.map c_name (commands f') = ["create_place"; "update_place"; "delete_place"] /\
  List.map QueryLowering.name (queries f') = ["lookup_my_host"; "lookup_place"; "list_places"] /\ ds = [] /\
  bt_get "list_places" (synth_origins f') = Some (Synthesized Crud).
Proof.
  pose proof (synthesis_exact stays (fun _ => None)) as H. unfold synthesize_conventions.
  destruct (synthesize_conventions_with_overlays stays (fun _ => None)) as [f' ds]. destruct H as (_ & _ & _ & Hc & Hq & Ho & Hd).
  rewrite Hc, Hq. split; [vm_compute; reflexivity|]. split; [vm_compute; reflexivity|]. split; [apply Hd; vm_compute; reflexivity|].
  apply Ho; [apply (bool_decide_eq_true_1 _); vm_compute; reflexivity|vm_compute; tauto].
Defined.

(** * Divergences *)

(** A resource with a unique user has no owner scope, whatever axis it declares,
    and its create writes no user. *)
Lemma unique_user_unscoped f r : has_user_unique r = true -> snd (resolve_owner_scope f r) = Tenant.
Proof.
  intros Hu. unfold resolve_owner_scope.
  assert (H : forall fs e, snd (owner_fields f r e None fs) = None).
  { induction fs as [|x fs IH]; intros e; [done|]. cbn. destruct (owner_axis x); [|apply IH]. rewrite Hu. specialize (IH true).
    by destruct (owner_fields f r true None fs). }
  specialize (H (fields r) false). destruct (owner_fields _ _ _ _ _). cbn in *. by subst.
Qed.
Lemma unique_user_unwritten r o e : has_user_unique r = true -> CommandLowering.c_effect (base (create_entry (fun _ => None) r o)) = Creates e ->
  ~ In "user" (List.map as_field (cr_assignments e)).
Proof.
  intros Hu He. assert (E : cr_assignments e = input_field_assignments (create_input_fields (categorize_fields r))).
  { unfold create_entry, with_owner_scope in He. destruct (create_scope o); cbn -[input_field_assignments create_input_fields] in He; by injection He as <-. }
  rewrite E. unfold input_field_assignments. rewrite List.map_map. cbn [as_field]. intros (fr & Hn & Hin)%in_map_iff.
  unfold create_input_fields, categorize_fields in Hin. cbn [cf_required cf_optional] in Hin.
  assert (Hf : In fr.1 (List.filter (fun f => negb (is_tenant r f || is_auto r f)) (fields r))).
  { apply in_app_iff in Hin as [Hin|Hin]; apply in_map_iff in Hin as (x & <- & Hx); by apply filter_In in Hx as [Hx _]. }
  apply filter_In in Hf as [_ Hf]. unfold is_tenant in Hf. by rewrite Hu, Hn, orb_true_r in Hf.
Qed.

Lemma first_failing_some n checks : existsb fst checks = true -> is_Some (first_failing n checks).
Proof. induction checks as [|[b what] l IH]; [done|]. cbn. destruct b; [by eexists|exact IH]. Qed.
(** An authored list of a resource with an owner axis is always reported: no
    authored query has an owner scope. *)
Lemma authored_list_flagged f r s q : List.find (fun q => QueryLowering.name q =? list_name r) (queries f) = Some (QList q) -> l_owner_scope q = None ->
  is_Some (check_query_signature_mismatch f (list_name r) (list_entry r (Scoped s))).
Proof.
  intros Hf Hs. unfold check_query_signature_mismatch. rewrite Hf. cbn [mbind option_bind list_entry read_scope create_scope fmap option_fmap option_map list_with_scope].
  apply first_failing_some, existsb_exists. eexists. split; [do 5 right; left; reflexivity|]. cbn [fst]. rewrite Hs. reflexivity.
Qed.
Lemma through_not_user_severity resource field through target :
  severity (OwnerAxisThroughNotUserKeyed resource field through target) = "error".
Proof. reflexivity. Qed.
