(* ===== verification/ConventionsExact.v ===== *)
(** What the synthesized entries of a resource do when the generated package runs
    them: the effects and keys of [Conventions], emitted as Go, read back and run
    by the runtime. *)
From Stdlib Require Import Permutation.
From stdpp Require Import gmap.
From S2P Require Import Prelude Str BTree Fmt Lex Helpers Ir Catalog Casing SqlRows RuntimeSql RuntimeRead RuntimeWrite GoSource CommandLowering CommandCodegen CommandExact CommandCreate.
From S2P Require Expr CommandSyntax PolicyCodegen QueryLowering QueryCodegen QueryExact LifecycleLowering ReferentialGuard.
From S2P Require Conventions.
Import Expr (ident).
Import QueryLowering (OwnerScopeSql, os_field_name, os_fk_target, os_through_column, os_where_predicate, os_cte_owner_check).
Import QueryExact (arg_struct, args_ok, arg_value, deref).
Import Conventions (Scoped, resolve_owner_scope, update_entry, delete_entry, create_entry, lookup_entry, list_entry, me_entry,
  ResolvedCrudOverlay, OwnerScopeResolution, create_scope, read_scope, with_owner_scope, command_feature, base).

(** * The entries *)

(** The parts of an entry the overlays leave alone. *)
Lemma update_parts overlays r o : let c := base (update_entry overlays r o) in
  c_route c = [Conventions.id_route] /\ c_owner_scope_sql c = read_scope o /\ c_lets c = [] /\
  exists l, c_effect c = Updates {| up_resource := Conventions.local_name (Conventions.name r); up_assignments := l; up_where := [] |}.
Proof.
  unfold update_entry, with_owner_scope. destruct (read_scope o), (_ ← overlays (Conventions.name r); _) as [e|]; cbn; try (repeat split; by eexists);
    unfold Conventions.apply_input_excludes; destruct (Conventions.ov_input_excludes e); cbn; repeat split; by eexists.
Qed.
Lemma delete_parts overlays r o : let c := base (delete_entry overlays r o) in
  c_route c = [Conventions.id_route] /\ c_owner_scope_sql c = read_scope o /\ c_input c = Empty /\
  c_effect c = Deletes {| de_resource := Conventions.local_name (Conventions.name r); de_where := [] |}.
Proof. unfold delete_entry, with_owner_scope. by destruct (read_scope o), (_ ← overlays (Conventions.name r); _) as [e|]. Qed.
Lemma create_parts overlays r o : let c := base (create_entry overlays r o) in
  c_owner_scope_sql c = create_scope o /\ c_lets c = [] /\
  exists l, c_effect c = Creates {| cr_resource := Conventions.local_name (Conventions.name r); from_input := true; cr_assignments := l |}.
Proof.
  unfold create_entry, with_owner_scope. destruct (create_scope o), (_ ← overlays (Conventions.name r); _) as [e|]; cbn; try (repeat split; by eexists);
    unfold Conventions.apply_input_excludes; destruct (Conventions.ov_input_excludes e); cbn; repeat split; by eexists.
Qed.

(** * Owners *)

(** The row refers to a row of the owner table that holds the user of the
    request. *)
Definition owner_owns (ctx : Ctx) (db : Db) (s : OwnerScopeSql) (row : Row) : bool :=
  match ctx_User ctx with
  | None => false
  | Some u =>
    existsb (fun r => bool_decide (sql_eq (cell r (os_through_column s)) (Int (ID u)) = Some true) &&
                      bool_decide (sql_eq (cell row (os_field_name s)) (cell r "id") = Some true))
      (from_option rows [] (db !! QueryCodegen.pascal_to_snake (os_fk_target s)))
  end.
Definition axis_binding (s : OwnerScopeSql) : ScopeBinding := {|
  sb_atom := "@owner_axis"; sb_column := os_field_name s; ctx_path := "user.id";
  via := Some (command_pascal_to_snake (os_fk_target s), os_through_column s) |}.
(** No scope of the policy restricts the owner column itself. *)
Definition axis_free (command : Command) (feature : Feature) (s : OwnerScopeSql) : bool :=
  negb (existsb (fun b => sb_column b =? os_field_name s) (resolve_scope_bindings command feature)).

Lemma axis_bound command feature s s' : c_owner_scope_sql command = Some s' -> os_field_name s' = os_field_name s ->
  os_fk_target s' = os_fk_target s -> os_through_column s' = os_through_column s -> axis_free command feature s = true ->
  List.In (axis_binding s) (scope_bindings command feature).
Proof.
  intros Hs H1 H2 H3 Hf. unfold scope_bindings. rewrite Hs. cbn [owner_scope_binding mbind option_bind sb_column]. rewrite H1, H2, H3.
  unfold axis_free in Hf. apply negb_true_iff in Hf. rewrite Hf. apply in_app_iff. right. by left.
Qed.

Lemma axis_match host ctx input db row s : binding_match host ctx input db row (scope_means (axis_binding s)) = owner_owns ctx db s row.
Proof.
  unfold binding_match, owner_owns. cbn [scope_means axis_binding via fst snd sb_column ctx_path resolveSource].
  change (readCtx ctx "user.id") with (match ctx_User ctx with None => Err no_user | Some u => Ok (Int (ID u)) end : go Value).
  destruct (ctx_User ctx) as [u|]; reflexivity.
Qed.

(** A binding of the scopes confines the statement to the rows it holds for. *)
Section Confined.
Variable up : string -> string.
Variable constants : string -> option Value.
Variable host : Host.
Variable ctx : Ctx.
Variable input : Value.
Variable command : Command.
Variable feature : Feature.
Abbreviation bindings := (scope_bindings command feature).
Abbreviation optional := (collect_optional_inputs command).

Lemma scoped_target res authored keys W b db row : distinct (where_of up constants optional authored keys bindings) = Some W -> List.In b bindings ->
  target host ctx input res W db row = true -> binding_match host ctx input db row (scope_means b) = true.
Proof.
  intros Hd Hin [_ H]%andb_true_iff. unfold distinct in Hd. case_bool_decide as Hnd; [|done]. injection Hd as <-.
  unfold sortedBind in H. rewrite (forallb_perm _ _ _ (bt_collect_perm _ Hnd)), List.forallb_forall in H. apply H.
  unfold where_of. apply in_app_iff. right. apply in_map_iff. by exists b.
Qed.

Lemma scoped_update b update transition var w bd : List.In b bindings -> names_go up (up_resource update) = true ->
  where_clean up constants optional (up_where update) (free_keys up command bindings) bindings = true ->
  forallb (assignment_clean up constants (let_bindings command) optional) (up_assignments update) = true ->
  read_updates constants 1 (emit_updates_effect up 1 command update (let_bindings command) transition bindings) = Some (var, (w, bd)) ->
  forall res sql ps, applyUpdates host ctx input {| u_Resource := res; u_Where := w; u_Bind := bd |} = Ok (sql, ps) ->
    forall db now base db' out, executes db now base sql ps db' out ->
      confined_to (snakeCase (Name res)) (fun row => binding_match host ctx input db row (scope_means b)) db db'.
Proof.
  intros Hin Hn Hcl Hb H. rewrite (updates_read up constants 1 command update (let_bindings command) transition bindings Hn Hcl Hb) in H.
  destruct (distinct (where_of _ _ _ _ _ _)) as [W|] eqn:Ew; [|done]. cbn [mbind option_bind] in H. destruct (distinct (List.map _ _)); [|done]. injection H as _ -> _.
  intros res sql ps H db now base db' out Hex. apply updates_spec in H as (vs & _ & _ & Hs). apply Hs, update_target in Hex.
  eapply confined_mono, Hex. cbn [u_Resource u_Where]. intros row Ho. destruct (target _ _ _ _ _ _ _) eqn:Et; [|done].
  eapply scoped_target in Et; [|done..]. congruence.
Qed.

Lemma scoped_delete b delete var w : List.In b bindings -> names_go up (de_resource delete) = true ->
  where_clean up constants optional (de_where delete) (delete_keys up command bindings) bindings = true ->
  read_deletes constants 1 (emit_deletes_effect up 1 command delete bindings) = Some (var, w) ->
  forall res sql ps, applyDeletes host ctx input {| d_Resource := res; d_Where := w |} = Ok (sql, ps) ->
    forall db now base db' out, executes db now base sql ps db' out ->
      confined_to (snakeCase (Name res)) (fun row => binding_match host ctx input db row (scope_means b)) db db'.
Proof.
  intros Hin Hn Hcl H. rewrite (deletes_read up constants 1 command delete bindings Hn Hcl) in H.
  destruct (distinct (where_of _ _ _ _ _ _)) as [W|] eqn:Ew; [|done]. injection H as _ ->.
  intros res sql ps H db now base db' out Hex. apply deletes_spec in H as [_ Hs]. apply Hs, delete_target in Hex.
  eapply confined_mono, Hex. cbn [d_Resource d_Where]. intros row Ho. destruct (target _ _ _ _ _ _ _) eqn:Et; [|done].
  eapply scoped_target in Et; [|done..]. congruence.
Qed.
End Confined.

(** C4: The synthesized update and delete of a resource with an owner axis change
    no row but those that refer to a row of the owner table that holds the user of
    the request - with any overlay, unless the policy of the command (the
    overlay's, or the category [authenticated]) has a scope that is bound to the
    owner column itself ([axis_free]); the generator then drops the axis
    ([axis_dropped]), and the rows are those of that scope. *)
Theorem crud_writes_owned up constants host ctx input f overlays r ds s : resolve_owner_scope f r = (ds, Scoped s) ->
  let feature := command_feature f in
  (let command := base (update_entry overlays r (Scoped s)) in
   let bindings := scope_bindings command feature in
   forall update transition var w b, axis_free command feature s = true -> c_effect command = Updates update -> names_go up (up_resource update) = true ->
     where_clean up constants (collect_optional_inputs command) [] (free_keys up command bindings) bindings = true ->
     forallb (assignment_clean up constants [] (collect_optional_inputs command)) (up_assignments update) = true ->
     read_updates constants 1 (emit_updates_effect up 1 command update (let_bindings command) transition bindings) = Some (var, (w, b)) ->
     forall res sql ps, applyUpdates host ctx input {| u_Resource := res; u_Where := w; u_Bind := b |} = Ok (sql, ps) ->
       forall db now base db' out, executes db now base sql ps db' out -> confined_to (snakeCase (Name res)) (owner_owns ctx db s) db db') /\
  (let command := base (delete_entry overlays r (Scoped s)) in
   let bindings := scope_bindings command feature in
   forall delete var w, axis_free command feature s = true -> c_effect command = Deletes delete -> names_go up (de_resource delete) = true ->
     where_clean up constants [] [] (delete_keys up command bindings) bindings = true ->
     read_deletes constants 1 (emit_deletes_effect up 1 command delete bindings) = Some (var, w) ->
     forall res sql ps, applyDeletes host ctx input {| d_Resource := res; d_Where := w |} = Ok (sql, ps) ->
       forall db now base db' out, executes db now base sql ps db' out -> confined_to (snakeCase (Name res)) (owner_owns ctx db s) db db').
Proof.
  intros Hs feature. split.
  - intros command bindings update transition var w b Hf He Hn Hcl Hb H res sql ps Hap db now base_ db' out Hex.
    destruct (update_parts overlays r (Scoped s)) as (_ & Hos & Hl & l & He'). fold command in Hos, Hl, He'.
    assert (Hw : up_where update = []) by (rewrite He' in He; by injection He as <-).
    assert (Hin : List.In (axis_binding s) (scope_bindings command feature)) by exact (axis_bound _ _ s (Conventions.without_cte s) Hos eq_refl eq_refl eq_refl Hf).
    rewrite <-Hw in Hcl. assert (Hlets : let_bindings command = []) by (unfold let_bindings; rewrite Hl; reflexivity). rewrite <-Hlets in Hb.
    pose proof (scoped_update up constants host ctx input command feature _ _ _ _ _ _ Hin Hn Hcl Hb H _ _ _ Hap _ _ _ _ _ Hex) as Hc.
    eapply confined_mono; [|exact Hc]. intros row. cbv beta. by rewrite axis_match.
  - intros command bindings delete var w Hf He Hn Hcl H res sql ps Hap db now base_ db' out Hex.
    destruct (delete_parts overlays r (Scoped s)) as (_ & Hos & Hi & He'). fold command in Hos, Hi, He'.
    assert (Hw : de_where delete = []) by (rewrite He' in He; by injection He as <-).
    assert (Hin : List.In (axis_binding s) (scope_bindings command feature)) by exact (axis_bound _ _ s (Conventions.without_cte s) Hos eq_refl eq_refl eq_refl Hf).
    assert (Ho : collect_optional_inputs command = []) by (unfold collect_optional_inputs; rewrite Hi; reflexivity). rewrite <-Hw, <-Ho in Hcl.
    pose proof (scoped_delete up constants host ctx input command feature _ _ _ _ Hin Hn Hcl H _ _ _ Hap _ _ _ _ _ Hex) as Hc.
    eapply confined_mono; [|exact Hc]. intros row. cbv beta. by rewrite axis_match.
Qed.

(** ** Creations *)

Lemma owner_fields_check f r fs : forall e c, match c with Some s => is_Some (os_cte_owner_check s) | None => True end ->
  match snd (Conventions.owner_fields f r e c fs) with Some s => is_Some (os_cte_owner_check s) | None => True end.
Proof.
  induction fs as [|x fs IH]; intros e c Hc; [exact Hc|]. cbn. destruct (owner_axis x) as [a|]; [|by apply IH].
  destruct (Conventions.has_user_unique r).
  { specialize (IH true c Hc). by destruct (Conventions.owner_fields f r true c fs). }
  destruct (type_ref x) as [| q | | | |]; try by apply IH. unfold Conventions.axis_of_field. cbv zeta.
  set (scope := {| os_field_name := _ |}). set (d := match List.find _ (Conventions.resources f) with Some _ => _ | None => _ end).
  assert (Hd : match snd d with Some s => is_Some (os_cte_owner_check s) | None => True end).
  { unfold d. destruct (List.find _ _) as [fk|]; [|by eexists]. destruct (List.find _ _) as [t|]; [by eexists|done]. }
  destruct d as [ds sc]. cbn [snd] in Hd. assert (Hn : match (match c with Some c => Some c | None => sc end) with Some s => is_Some (os_cte_owner_check s) | None => True end) by (by destruct c).
  specialize (IH e _ Hn). by destruct (Conventions.owner_fields _ _ _ _ _).
Qed.
Lemma scoped_check f r ds s : resolve_owner_scope f r = (ds, Scoped s) -> is_Some (os_cte_owner_check s).
Proof.
  unfold resolve_owner_scope. pose proof (owner_fields_check f r (Conventions.fields r) false None I) as H.
  destruct (Conventions.owner_fields _ _ _ _ _) as [ds' [c|]]; [|done]. by intros [= _ <-].
Qed.

Lemma sql_eq_sym a b : sql_eq a b = sql_eq b a.
Proof.
  destruct a as [|x|x|x| | | |x], b as [|y|y|y| | | |y]; try reflexivity; unfold sql_eq; f_equal; try apply Z.eqb_sym; try apply String.eqb_sym.
  all: try by destruct x, y.
Qed.

(** The row inserted under an owner check refers to a row of the user's. *)
Lemma checked_row_owned ctx s db related u id cols vs base_ : ctx_User ctx = Some u ->
  db !! QueryCodegen.pascal_to_snake (os_fk_target s) = Some related ->
  NoDup (List.combine cols vs).*1 -> List.In (os_field_name s, id) (List.combine cols vs) ->
  owns db related {| FKColumn := os_field_name s; RelatedTable := command_pascal_to_snake (os_fk_target s); ThroughColumn := os_through_column s |} id (Int (ID u)) = true ->
  owner_owns ctx db s (set_columns base_ (List.combine cols vs)) = true.
Proof.
  intros Hu Hr Hd Hin Ho. unfold owner_owns. rewrite Hu, Hr. cbn [from_option]. unfold owns in Ho. apply existsb_exists in Ho as (row & Hrow & Ho).
  apply andb_true_iff in Ho as [H1 H2]. apply existsb_exists. exists row. split; [exact Hrow|]. cbn [ThroughColumn] in H2. rewrite H2. cbn [andb].
  assert (Hc : cell (set_columns base_ (List.combine cols vs)) (os_field_name s) = id) by (unfold cell; by rewrite (set_columns_at _ _ _ base_ Hd Hin)).
  rewrite Hc, sql_eq_sym. exact H1.
Qed.

(** C10: The synthesized create of a resource with an owner axis inserts no row but
    one that refers to a row of the owner table that holds the user of the
    request; for any other input it changes nothing. *)
Theorem crud_create_owned up constants host ctx input f overlays r ds s : resolve_owner_scope f r = (ds, Scoped s) ->
  let command := base (create_entry overlays r (Scoped s)) in
  forall create var b oc, c_effect command = Creates create -> cr_assignments create <> [] -> names_go up (cr_resource create) = true ->
    forallb (assignment_clean up constants [] (collect_optional_inputs command)) (cr_assignments create) = true ->
    initial_clean up constants create (resources (command_feature f)) = true -> owner_check_clean (Some s) = true ->
    read_creates constants 1 (emit_creates_effect up 1 command create (let_bindings command) (resources (command_feature f))) = Some (var, (b, oc)) ->
    forall res sql ps, applyCreates host ctx input {| c_Resource := res; c_Bind := b; OwnerCheck := oc |} = Ok (sql, ps) ->
      forall db now base db' out, executes db now base sql ps db' out ->
        (db' = db /\ out = []) \/
        exists t row, db !! snakeCase (Name res) = Some t /\ owner_owns ctx db s row = true /\ out = [row] /\
          db' = <[snakeCase (Name res) := {| columns := columns t; rows := rows t ++ [row] |}]> db.
Proof.
  intros Hs command create var b oc He Hne Hn Ha Hi Ho H res sql ps Hap db now base_ db' out Hex.
  destruct (create_parts overlays r (Scoped s)) as (Hos & Hl & l & He'). fold command in Hos, Hl.
  assert (Hlets : let_bindings command = []) by (unfold let_bindings; rewrite Hl; reflexivity). rewrite <-Hlets in Ha. cbn [create_scope] in Hos.
  assert (Ho' : owner_check_clean (c_owner_scope_sql command) = true) by (by rewrite Hos).
  rewrite (creates_read up constants 1 command create (let_bindings command) (resources (command_feature f)) Hn Ha Hi Ho' (or_introl Hne)) in H.
  destruct (distinct (bind_of _ _ _ _ _)) as [W|] eqn:Ew; [|done]. injection H as _ <- <-. rewrite Hos in Hap.
  destruct (scoped_check _ _ _ _ Hs) as [check Hcheck]. unfold owner_check_means in Hap. cbn [mbind option_bind] in Hap. rewrite Hcheck in Hap. cbn [mbind option_bind] in Hap.
  destruct (creates_spec _ _ _ _ _ _ Hap) as (tenant & vs & Hten & Hst & Hnd & Hx). cbn [c_Resource] in *.
  assert (Hw : created_columns host ctx input {| c_Resource := res; c_Bind := W; OwnerCheck := Some {| FKColumn := os_field_name s;
    RelatedTable := command_pascal_to_snake (os_fk_target s); ThroughColumn := os_through_column s |} |} tenant <> []).
  { intros E. destruct (create_statement _ _ _ _ _ _ Hap) as (tenant' & vs' & more & table & Hten' & _ & _ & _ & _ & i & v & u & _ & _ & Hf & _).
    cbn [c_Resource] in Hten'. assert (tenant' = tenant) as -> by congruence. by rewrite E in Hf. }
  destruct (Hx Hw) as [_ Hx']. apply Hx' in Hex. destruct Hex as (t & Ht & _ & related & u & id & Hr & Hu & Hin & Hres). cbn [OwnerCheck] in *.
  destruct (owns db related _ id (Int (ID u))) eqn:Eo; [|by left]. right. destruct Hres as [-> ->]. eexists t, _. split; [exact Ht|]. split; [|done].
  eapply checked_row_owned; try done. rewrite combine_fst; [exact Hnd|]. rewrite length_fmap. by eapply Forall2_length.
Qed.

(** * Reads *)

Lemma owner_rule_match host ctx input db row s u : ctx_User ctx = Some u -> ID u <> 0%Z ->
  filter_match host ctx input db row (QueryExact.rule (QueryExact.owner_means s)) = owner_owns ctx db s row.
Proof.
  intros Hu Hz. unfold filter_match, owner_owns. cbn [QueryExact.rule QueryExact.owner_means f_Column When fst snd resolveSource]. unfold readCtx. cbn. rewrite Hu. cbn.
  by apply Z.eqb_neq in Hz as ->.
Qed.
Lemma owner_key_match host ctx input db row s : binding_match host ctx input db row (QueryExact.owner_means s) = owner_owns ctx db s row.
Proof.
  unfold binding_match, owner_owns. cbn [QueryExact.owner_means fst snd resolveSource]. unfold readCtx. cbn. by destruct (ctx_User ctx).
Qed.


(** * The actor's own row *)

(** The columns [lookup_my] compares, with what the request gives them. *)
Definition actor_org (ctx : Ctx) : option Z := match ctx_User ctx with Some u => Some (OrgID u) | None => ctx_Tenant ctx end.
Definition actor_user (ctx : Ctx) : option Z := ID <$> ctx_User ctx.
Definition actor_cells (ctx : Ctx) (m : Conventions.MeMode) : list (string * option Z) :=
  match m with
  | Conventions.UserKeyed => [("org", actor_org ctx); ("user", actor_user ctx)]
  | Conventions.UserKeyedNoOrg => [("user", actor_user ctx)]
  | Conventions.OrgKeyed => [("org", actor_org ctx)]
  | Conventions.SelfKeyed => [("id", actor_user ctx)]
  end.
Definition mine (ctx : Ctx) (m : Conventions.MeMode) (row : Row) : bool :=
  forallb (fun cv => match cv.2 with Some n => bool_decide (sql_eq (cell row cv.1) (Int n) = Some true) | None => false end) (actor_cells ctx m).
Definition actor_set (ctx : Ctx) (m : Conventions.MeMode) : Prop := Forall (fun cv => exists n, cv.2 = Some n /\ n <> 0%Z) (actor_cells ctx m).

(** The columns of a mode, each with the path its key reads. *)
Definition me_paths (m : Conventions.MeMode) : list (string * string) :=
  match m with
  | Conventions.UserKeyed => [("org", "actor.org_id"); ("user", "actor.user_id")]
  | Conventions.UserKeyedNoOrg => [("user", "actor.user_id")]
  | Conventions.OrgKeyed => [("org", "actor.org_id")]
  | Conventions.SelfKeyed => [("id", "actor.user_id")]
  end.
Definition me_rule (cp : string * string) : RuntimeSql.LookupKey := {| k_Column := cp.1; k_Source := FromCtx cp.2 |}.

Lemma typed_field n p l : existsb (fun f => (fd_name f =? n) && p f) l = true -> existsb (fun f => fd_name f =? n) l = true.
Proof. rewrite !existsb_exists. intros (x & Hin & [Hx _]%andb_true_iff). by exists x. Qed.
Lemma required_field n p q l : existsb (fun f => (fd_name f =? n) && p f && q f) l = true -> existsb (fun f => fd_name f =? n) l = true.
Proof. rewrite !existsb_exists. intros (x & Hin & [[Hx _]%andb_true_iff _]%andb_true_iff). by exists x. Qed.
Lemma me_column feature r m c p : Conventions.classify_me_mode r = Some m -> List.In (c, p) (me_paths m) ->
  QueryCodegen.normalize_resource_column feature (Some (Conventions.declared r)) c = c.
Proof.
  intros Hm Hin. unfold QueryCodegen.normalize_resource_column.
  replace (QueryCodegen.resource_has_column feature (Conventions.declared r) c) with true; [done|symmetry].
  unfold QueryCodegen.resource_has_column, QueryCodegen.has_field. change (Catalog.fields (Conventions.declared r)) with (Conventions.fields r).
  unfold Conventions.classify_me_mode in Hm. destruct (Conventions.name r =? "User"); [injection Hm as <-; by destruct Hin as [[= <- <-]|[]]|].
  destruct (existsb (fun f => (fd_name f =? "user") && required f && Conventions.user_typed f) _) eqn:Eu.
  - assert (Hu : existsb (fun f => fd_name f =? "user") (Conventions.fields r) = true).
    { by apply required_field in Eu. }
    destruct (existsb (fun f => (fd_name f =? "org") && Conventions.org_typed f) _) eqn:Eo; injection Hm as <-.
    + apply typed_field in Eo. destruct Hin as [[= <- <-]|[[= <- <-]|[]]]; by rewrite ?Eo, ?Hu, !orb_true_r.
    + destruct Hin as [[= <- <-]|[]]. by rewrite Hu, !orb_true_r.
  - destruct (existsb _ _) eqn:Eo in Hm; [|done]. injection Hm as <-. destruct Hin as [[= <- <-]|[]].
    replace (existsb (fun f => fd_name f =? "org") (Conventions.fields r)) with true; [by rewrite !orb_true_r|]. symmetry.
    by apply required_field in Eo.
Qed.

Lemma me_keys_mean up constants feature r m : Conventions.classify_me_mode r = Some m ->
  List.map QueryExact.key_rule (List.map (QueryExact.key_means up constants feature (Some (Conventions.declared r))) (Conventions.me_keys m)) = List.map me_rule (me_paths m) /\
  forallb (QueryExact.key_clean up constants feature (Some (Conventions.declared r))) (Conventions.me_keys m) = true.
Proof.
  intros Hm. pose proof (me_column feature r m) as H. destruct m; cbn [Conventions.me_keys List.map me_paths forallb] in *;
    unfold QueryExact.key_clean, QueryExact.key_means, QueryExact.key_rule, me_rule, Conventions.actor_key;
    cbn [QueryLowering.k_path QueryLowering.k_equals segments QueryCodegen.column_from_segments fst snd];
    repeat match goal with |- context [QueryCodegen.normalize_resource_column _ _ (lower_ascii ?c)] => change (lower_ascii c) with c end;
    rewrite ?(H "org" "actor.org_id") by (done || cbn; tauto); rewrite ?(H "user" "actor.user_id") by (done || cbn; tauto);
    rewrite ?(H "id" "actor.user_id") by (done || cbn; tauto); by vm_compute.
Qed.

Lemma actor_path host ctx input p : p = "actor.org_id" \/ p = "actor.user_id" ->
  resolveSource host ctx input (FromCtx p) =
  match (if p =? "actor.user_id" then actor_user ctx else actor_org ctx) with
  | Some n => Ok (Int n)
  | None => if p =? "actor.user_id" then Err no_user else Err (Error 400 CodeTenantMismatch "no actor org in context")
  end.
Proof. intros [->| ->]; cbn; unfold readCtx; cbn; unfold actor_org, actor_user; by destruct (ctx_User ctx), (ctx_Tenant ctx). Qed.

Lemma me_cells ctx m : actor_cells ctx m = List.map (fun cp => (cp.1, if cp.2 =? "actor.user_id" then actor_user ctx else actor_org ctx)) (me_paths m).
Proof. by destruct m. Qed.
Lemma me_paths_known m : Forall (fun cp => cp.2 = "actor.org_id" \/ cp.2 = "actor.user_id") (me_paths m).
Proof. destruct m; repeat constructor; cbn; tauto. Qed.

Lemma me_match host ctx input db row m :
  forallb (fun k => binding_match host ctx input db row (k_Column k, k_Source k)) (List.map me_rule (me_paths m)) = mine ctx m row.
Proof.
  unfold mine. rewrite me_cells. pose proof (me_paths_known m) as H. induction H as [|cp l Hp _ IH]; [done|]. cbn [List.map forallb]. rewrite IH. f_equal.
  unfold binding_match. cbn [me_rule k_Column k_Source fst snd]. rewrite actor_path by done. destruct (cp.2 =? "actor.user_id"); [by destruct (actor_user ctx)|by destruct (actor_org ctx)].
Qed.
Lemma me_set host ctx input m :
  Forall (fun k => exists v, resolveSource host ctx input (k_Source k) = Ok v /\ isNilOrZero v = false) (List.map me_rule (me_paths m)) <-> actor_set ctx m.
Proof.
  unfold actor_set. rewrite me_cells, !List.Forall_map. pose proof (me_paths_known m) as H. induction H as [|cp l Hp _ IH]; [by split|].
  rewrite !Forall_cons, IH. apply and_iff_compat_r. cbn [me_rule k_Source fst snd]. rewrite actor_path by done.
  destruct (if _ =? _ then _ else _) as [n|]; cbn.
  - split; [intros (v & [= <-] & Hz); exists n; split; [done|by apply Z.eqb_neq]|intros (n' & [= <-] & Hz); exists (Int n); split; [done|by apply Z.eqb_neq]].
  - split; [intros (v & Hv & _); by destruct (cp.2 =? "actor.user_id")|by intros (n & ? & _)].
Qed.


(** * Updates *)

(** The values a request gives, [nil] for an input it leaves out. *)
Definition given (args : list (string * Value)) (names : list string) : list (string * Value) :=
  omap (fun n => match deref <$> arg_value args n with None | Some Nil => None | Some v => Some (lower_ascii n, v) end) names.
Definition input_rows (names : list string) : list Assignment := List.map (fun n => {| as_field := n; as_value := EPath {| segments := ["input"; n] |} |}) names.

Lemma assigned_given up constants host ctx args names ns : Forall (fun n => ident n = true /\ List.In n names) ns ->
  assigned up constants host ctx args names (input_rows ns) = given args ns.
Proof.
  intros H. induction H as [|n l [Hi Hin] _ IH]; [done|]. unfold assigned, given, input_rows in *. cbn [List.map omap list_omap as_value as_field]. rewrite IH.
  assert (Ho : optional_input names (EPath {| segments := ["input"; n] |}) = true).
  { cbn. unfold first_segment. apply Expr.ident_chars in Hi as [Hi _].
    rewrite split_char_none by (eapply str_all_impl; [|exact Hi]; intros b; by_bytes b). apply existsb_exists. exists n. split; [done|apply String.eqb_refl]. }
  unfold absent. rewrite Ho. cbn [eval path_value segments String.eqb Ascii.eqb Bool.eqb orb andb].
  cbn. destruct (arg_value args n) as [v|]; [|done]. cbn. by destruct (deref v).
Qed.

(** The update with no overlay. *)
Definition update_names (r : Conventions.Resource) : list string :=
  List.map (fun fr => fd_name fr.1) (Conventions.update_input_fields (Conventions.categorize_fields r)).
Lemma update_plain r o : let c := base (update_entry (fun _ => None) r o) in
  c_effect c = Updates {| up_resource := Conventions.local_name (Conventions.name r); up_assignments := input_rows (update_names r); up_where := [] |} /\
  c_input c = Conventions.input_to_command_input (Conventions.update_input_fields (Conventions.categorize_fields r)) /\ c_lets c = [] /\ c_route c = [Conventions.id_route].
Proof.
  assert (E : Conventions.input_field_assignments (Conventions.update_input_fields (Conventions.categorize_fields r)) = input_rows (update_names r)).
  { unfold input_rows, update_names, Conventions.input_field_assignments. by rewrite List.map_map. }
  unfold update_entry, with_owner_scope. destruct (read_scope o);
    cbn -[Conventions.input_field_assignments Conventions.input_to_command_input Conventions.update_input_fields]; by rewrite E.
Qed.
Lemma update_optional r o : collect_optional_inputs (base (update_entry (fun _ => None) r o)) = update_names r.
Proof.
  destruct (update_plain r o) as (_ & Hi & _). unfold collect_optional_inputs. rewrite Hi. unfold update_names, Conventions.update_input_fields.
  set (l := (List.map (fun f => (f, false)) _ ++ _)%list). assert (Hl : Forall (fun fr : Field * bool => fr.2 = false) l) by (apply Forall_app; split; by apply List.Forall_map, List.Forall_forall).
  unfold Conventions.input_to_command_input. destruct l as [|fr l]; [done|]. clear Hi. revert Hl. generalize (fr :: l). intros k Hk.
  induction Hk as [|x k Hx _ IH]; [done|]. cbn. rewrite Hx. cbn. by f_equal.
Qed.

(** C11: The synthesized update of a resource without an overlay: it finds the row by
    its [id] within the scopes of the command and writes the inputs the request
    gives; a column whose input is left out keeps its value. *)
Theorem crud_update_exact up constants host ctx args f r o id : args_ok up args -> arg_value args "id" = Some id ->
  let command := base (update_entry (fun _ => None) r o) in
  let feature := command_feature f in
  let names := update_names r in
  let bindings := scope_bindings command feature in
  let update := {| up_resource := Conventions.local_name (Conventions.name r); up_assignments := input_rows names; up_where := [] |} in
  existsb (fun b => sb_column b =? "id") bindings = false -> forallb ident names = true ->
  where_ready up constants args feature command (up_resource update) [] (free_keys up command bindings) = true ->
  bind_ready up constants args command (input_rows names) = true ->
  c_effect command = Updates update /\
  exists w b, read_updates constants 1 (emit_updates_effect up 1 command update (let_bindings command) (lifecycle_transition_for feature command) bindings) =
    Some (resource_var_for_qname up (up_resource update), (w, b)) /\
  forall res, let eff := {| u_Resource := res; u_Where := w; u_Bind := b |} in
  (tenant_known ctx res -> plain (snakeCase (Name res)) = true -> actor_known ctx bindings -> names <> [] -> forallb (fun n => plain (lower_ascii n)) names = true ->
   (forall c v, exists v', store_column host (Name res) c v = Ok v') -> exists sql ps, applyUpdates host ctx (arg_struct up args) eff = Ok (sql, ps)) /\
  forall sql ps, applyUpdates host ctx (arg_struct up args) eff = Ok (sql, ps) ->
    exists cols vs, cols ≡ₚ given args names /\ stored_values host res cols vs /\
    (forall db row, target host ctx (arg_struct up args) res w db row =
       visible ctx res row && equals row "id" (Some (deref id)) && forallb (scope_asks ctx db row) bindings) /\
    forall db now base db' out, executes db now base sql ps db' out <->
      update_answer host ctx (arg_struct up args) eff cols.*1 vs db now db' out.
Proof.
  intros Ha Hid command feature names bindings update Hfree Hids Hw Hb. destruct (update_plain r o) as (He & Hi & Hl & Hr). split; [exact He|].
  apply where_ready_spec in Hw as (Hn & Hc & Hwd & Hwk). apply bind_ready_spec in Hb as (Hbc & Hbd & Hbk).
  assert (Hkeys : free_keys up command bindings = [{| wk_column := "id"; input_field := pascal_case up "id" |}]).
  { unfold free_keys, resolve_where_keys. fold command in Hr. rewrite Hr. cbn. by rewrite Hfree. }
  assert (Hidp : readPath (arg_struct up args) (pascal_case up "id") = Ok (deref id)) by by apply QueryExact.field_value.
  rewrite Hkeys in *.
  exists (where_of up constants (collect_optional_inputs command) [] [{| wk_column := "id"; input_field := pascal_case up "id" |}] bindings),
    (List.map (assignment_means up constants (collect_optional_inputs command)) (input_rows names)).
  split.
  { rewrite (updates_read up constants 1 command update (let_bindings command) (lifecycle_transition_for feature command) bindings Hn); [|by fold bindings; rewrite Hkeys|exact Hbc].
    fold bindings. rewrite Hkeys. cbn [up_where up_assignments update]. by rewrite !distinct_ok. }
  assert (Hopt : collect_optional_inputs command = names) by apply update_optional. rewrite List.forallb_forall in Hids.
  intros res eff. split.
  - intros Hten Hname Hact Hne Hpl Hst. rewrite List.forallb_forall in Hpl.
    destruct (where_resolves up constants host ctx args (collect_optional_inputs command) [] [{| wk_column := "id"; input_field := pascal_case up "id" |}] bindings Ha eq_refl) as [Hres Hwne].
    { split; [|exact Hact]. split; [|by left]. constructor; [|constructor]. cbn [input_field wk_column]. rewrite Hidp. split; [by exists (deref id)|reflexivity]. }
    apply updates_builds; try done; [by destruct names|].
    assert (Hval : has_value up constants host ctx args (input_rows names)).
    { unfold has_value, input_rows. apply List.Forall_map, List.Forall_forall. intros n Hin. cbn [as_value as_field]. split; [|by apply Hpl].
      rewrite List.forallb_forall in Hbk. specialize (Hbk {| as_field := n; as_value := EPath {| segments := ["input"; n] |} |} ltac:(apply in_map_iff; by exists n)).
      cbn in Hbk. unfold field_known in Hbk. cbn. destruct (arg_value args n); [by eexists|]. by rewrite andb_false_r in Hbk. }
    eapply List.Forall_impl; [|exact (assignments_resolve up constants host ctx args (collect_optional_inputs command) _ Ha Hbk Hval)]. intros cs (H1 & H2 & _). by split.
  - intros sql ps H. apply updates_spec in H as (vs & Hv & _ & Hex). eexists _, vs. split; [|split; [exact Hv|split; [|exact Hex]]].
    + cbn [u_Bind eff]. rewrite (written_assigned up constants host ctx args _ _ Ha Hbk Hbd), Hopt, assigned_given; [done|].
      apply List.Forall_forall. intros n Hin. split; [by apply Hids|done].
    + intros db row. rewrite (target_asked up constants host ctx args _ res [] _ bindings db row Ha eq_refl Hwd), <-andb_assoc. f_equal.
      unfold asked. cbn [forallb]. rewrite andb_true_r. f_equal. unfold key_asks. cbn [wk_column input_field]. by rewrite Hidp.
Qed.

(** * The stays of a host *)

Abbreviation stays := Conventions.stays.
Abbreviation place := Conventions.place_resource.
Definition host_scope : OwnerScopeSql := {|
  os_field_name := "host"; os_fk_target := "Host"; os_through_column := "user";
  os_where_predicate := Conventions.build_owner_scope_where "host" "Host" "user";
  os_cte_owner_check := Some (Conventions.build_owner_scope_cte_prefix "host" "Host" "user") |}.
Definition stay_args : list (string * Value) := [("id", Int 3); ("host", Int 1); ("title", SqlRows.Text "new"); ("blurb", Nil)].
Definition place_res : ResourceErased := {|
  Name := "Place"; Tenancy := TenancyOrg; SoftDelete := false; SoftDeleteActor := false; Timestamps := true; FieldReadPolicies := [] |}.
Definition a_place (id host : Z) (title : string) : Row :=
  list_to_map [("id", Int id); ("org_id", Int 1); ("host", Int host); ("title", SqlRows.Text title); ("blurb", SqlRows.Text "by the sea")].
Definition host_row (id user : Z) : Row := list_to_map [("id", Int id); ("org_id", Int 1); ("user", Int user)].
Definition hosts : Table := {| columns := ["id"; "org_id"; "user"; "created_at"; "updated_at"]; rows := [host_row 1 7; host_row 2 8] |}.
(** Host 1 is the user of [a_ctx]. *)
Definition stays_db (l : list Row) : Db := {[
  "place" := {| columns := ["id"; "org_id"; "org"; "host"; "title"; "blurb"; "created_at"; "updated_at"]; rows := l |};
  "host" := hosts ]}.
Lemma stay_args_ok : args_ok an_upper stay_args.
Proof. split; [apply (bool_decide_eq_true_1 _); vm_compute; reflexivity|repeat constructor]. Defined.
Lemma place_scoped : resolve_owner_scope stays place = ([], Scoped host_scope).
Proof. vm_compute. reflexivity. Defined.

Lemma crud_writes_owned_witness :
  let feature := command_feature stays in
  let command := base (update_entry (fun _ => None) place (Scoped host_scope)) in
  let update := {| up_resource := Conventions.local_name "Place"; up_assignments := input_rows (update_names place); up_where := [] |} in
  exists w b sql ps,
    read_updates no_constants 1 (emit_updates_effect an_upper 1 command update (let_bindings command) None (scope_bindings command feature)) = Some ("placeResource", (w, b)) /\
    applyUpdates a_host a_ctx (arg_struct an_upper stay_args) {| u_Resource := place_res; u_Where := w; u_Bind := b |} = Ok (sql, ps) /\
    let mine := a_place 3 1 "mine" in
    let mine' := <["updated_at" := Time 9]> (<["title" := SqlRows.Text "new"]> (<["host" := Int 1]> mine)) in
    let db := stays_db [mine; a_place 3 2 "theirs"] in
    let db' := stays_db [mine'; a_place 3 2 "theirs"] in
    executes db 9 empty sql ps db' [mine'] /\ confined_to "place" (owner_owns a_ctx db host_scope) db db'.
Proof.
  intros feature command update. eexists _, _, _, _. split; [vm_compute; reflexivity|]. split; [vm_compute; reflexivity|]. intros mine mine' db db'. run_first H.
  exact (proj1 (crud_writes_owned an_upper no_constants a_host a_ctx (arg_struct an_upper stay_args) stays (fun _ => None) place [] host_scope place_scoped)
    update None "placeResource" _ _ ltac:(vm_compute; reflexivity) ltac:(vm_compute; reflexivity) ltac:(vm_compute; reflexivity) ltac:(vm_compute; reflexivity)
    ltac:(vm_compute; reflexivity) ltac:(vm_compute; reflexivity) place_res _ _ ltac:(vm_compute; reflexivity) db 9%Z empty db' _ H).
Defined.

(** An owner column named [owner] and an overlay with [policy @scope.owner]: the
    scope takes the column, the axis is dropped, and the update reaches a place
    whose host (host 7, of another user) has the number of the user. *)
Definition lodge_resource : Conventions.Resource := Conventions.stay_resource "Lodge"
  [Conventions.stay_field "owner" (UserDefined (Conventions.local_name "Host")) true (Some {| through_column := "user" |});
   Conventions.stay_field "title" (Builtin types.Text) true None] [Conventions.Crud].
Definition lodges : Conventions.Feature := {|
  Conventions.f_name := "stays"; Conventions.resources := [Conventions.host_resource; lodge_resource];
  Conventions.f_policies := Conventions.f_policies stays; Conventions.commands := []; Conventions.queries := []; Conventions.synth_origins := [] |}.
Definition owner_overlay (n : string) : option Conventions.ResolvedCrudOverlay :=
  let scoped := Some {| Conventions.ov_policy := Some (RAtom "scope.owner"); Conventions.ov_validate := []; Conventions.ov_input_excludes := [];
                        Conventions.ov_assigns := []; Conventions.ov_emits := [] |} in
  Some {| Conventions.ov_create := None; Conventions.ov_update := scoped; Conventions.ov_delete := scoped |}.
Definition lodge_scope : OwnerScopeSql := {|
  os_field_name := "owner"; os_fk_target := "Host"; os_through_column := "user";
  os_where_predicate := Conventions.build_owner_scope_where "owner" "Host" "user";
  os_cte_owner_check := Some (Conventions.build_owner_scope_cte_prefix "owner" "Host" "user") |}.

Theorem axis_dropped :
  let row : Row := list_to_map [("id", Int 3); ("owner", Int 7)] in
  let db : Db := {[ "host" := {| columns := ["id"; "user"]; rows := [host_row 7 8] |} ]} in
  let command := base (update_entry owner_overlay lodge_resource (Scoped lodge_scope)) in
  resolve_owner_scope lodges lodge_resource = ([], Scoped lodge_scope) /\
  scope_bindings command (command_feature lodges) = [direct "@scope.owner" "owner" "user.id"] /\
  (forall host input, binding_match host a_ctx input db row (scope_means (direct "@scope.owner" "owner" "user.id")) = true) /\
  owner_owns a_ctx db lodge_scope row = false.
Proof.
  intros row db command. split; [vm_compute; reflexivity|]. split; [vm_compute; reflexivity|]. split; [intros host input|];
    apply (bool_decide_eq_true_1 _); vm_compute; reflexivity.
Qed.

Definition place_create : CreateEffect := {|
  cr_resource := Conventions.local_name "Place"; from_input := true; cr_assignments := input_rows ["host"; "title"; "blurb"] |}.
Lemma crud_create_owned_witness :
  let feature := command_feature stays in
  let command := base (create_entry (fun _ => None) place (Scoped host_scope)) in
  let row0 : Row := list_to_map [("id", Int 5); ("created_at", Time 9)] in
  let row : Row := <["updated_at" := Time 50]> (<["org" := Int 1]> (<["org_id" := Int 1]> (<["title" := SqlRows.Text "new"]> (<["host" := Int 1]> row0)))) in
  exists b oc sql ps,
    read_creates no_constants 1 (emit_creates_effect an_upper 1 command place_create (let_bindings command) (resources feature)) = Some ("placeResource", (b, oc)) /\
    applyCreates a_host a_ctx (arg_struct an_upper stay_args) {| c_Resource := place_res; c_Bind := b; OwnerCheck := oc |} = Ok (sql, ps) /\
    executes (stays_db []) 9 row0 sql ps (stays_db [row]) [row] /\ owner_owns a_ctx (stays_db []) host_scope row = true.
Proof.
  intros feature command row0 row. eexists _, _, _, _. split; [vm_compute; reflexivity|]. split; [vm_compute; reflexivity|].
  match goal with |- ?P /\ _ => assert (H : P) by (eapply exec_insert; compute_eq) end. split; [exact H|].
  pose proof (crud_create_owned an_upper no_constants a_host a_ctx (arg_struct an_upper stay_args) stays (fun _ => None) place [] host_scope place_scoped
    place_create "placeResource" _ _ ltac:(vm_compute; reflexivity) ltac:(discriminate) ltac:(vm_compute; reflexivity) ltac:(vm_compute; reflexivity)
    ltac:(vm_compute; reflexivity) ltac:(vm_compute; reflexivity) ltac:(vm_compute; reflexivity) place_res _ _ ltac:(vm_compute; reflexivity)
    (stays_db []) 9%Z row0 (stays_db [row]) [row] H) as Hc. clearbody row. clear -Hc.
  destruct Hc as [[_ E]|(t & row' & _ & Ho & E & _)]; [discriminate E|]. injection E as E. by rewrite E.
Defined.

Lemma crud_update_exact_witness :
  let feature := command_feature stays in
  let command := base (update_entry (fun _ => None) place (Scoped host_scope)) in
  let update := {| up_resource := Conventions.local_name "Place"; up_assignments := input_rows (update_names place); up_where := [] |} in
  exists w b, read_updates no_constants 1 (emit_updates_effect an_upper 1 command update (let_bindings command) None (scope_bindings command feature)) =
    Some ("placeResource", (w, b)) /\
  exists sql ps cols, applyUpdates a_host a_ctx (arg_struct an_upper stay_args) {| u_Resource := place_res; u_Where := w; u_Bind := b |} = Ok (sql, ps) /\
    cols ≡ₚ [("host", Int 1); ("title", SqlRows.Text "new")] /\
    forall db row, target a_host a_ctx (arg_struct an_upper stay_args) place_res w db row =
      visible a_ctx place_res row && equals row "id" (Some (Int 3)) && forallb (scope_asks a_ctx db row) [axis_binding host_scope].
Proof.
  intros feature command update.
  destruct (crud_update_exact an_upper no_constants a_host a_ctx stay_args stays place (Scoped host_scope) (Int 3) stay_args_ok eq_refl
    ltac:(vm_compute; reflexivity) ltac:(vm_compute; reflexivity) ltac:(vm_compute; reflexivity) ltac:(vm_compute; reflexivity)) as (_ & w & b & H & Hrun).
  exists w, b. split; [exact H|]. destruct (Hrun place_res) as [Hb Hex]. destruct Hb as (sql & ps & Hs).
  - intros _. by exists 1%Z.
  - vm_compute; reflexivity.
  - constructor; [|constructor]. split; [by exists (Int 7)|]. split; [vm_compute; reflexivity|]. split; vm_compute; reflexivity.
  - discriminate.
  - vm_compute; reflexivity.
  - intros c v. by exists v.
  - destruct (Hex sql ps Hs) as (cols & vs & Hc & _ & Ht & _). exists sql, ps, cols. split; [exact Hs|]. split; [exact Hc|exact Ht].
Defined.

Definition stay_query (res : ResourceErased) (columns : list string) (filters : list FilterRule) (keys : list RuntimeSql.LookupKey) : RuntimeSql.Query := {|
  q_Name := "stays"; q_Resource := Some res; row_type := List.map (fun c => {| exported := true; db_tag := Some c; kind := KString |}) columns;
  Filters := filters; Order := []; Search := None; Paginate := 50; LookupBy := keys |}.

Definition host_res : ResourceErased := {|
  Name := "Host"; Tenancy := TenancyOrg; SoftDelete := false; SoftDeleteActor := false; Timestamps := true; FieldReadPolicies := [] |}.

(** * Divergences *)

(** The scope confines the rows an update finds, not the owner it writes. *)
Lemma update_reassigns_owner :
  let command := base (update_entry (fun _ => None) place (Scoped host_scope)) in
  let update := {| up_resource := Conventions.local_name "Place"; up_assignments := input_rows (update_names place); up_where := [] |} in
  let args := arg_struct an_upper [("id", Int 3); ("host", Int 2); ("title", Nil); ("blurb", Nil)] in
  let mine := a_place 3 1 "mine" in
  let given_away := <["updated_at" := Time 9]> (<["host" := Int 2]> mine) in
  exists w b sql ps,
    read_updates no_constants 1 (emit_updates_effect an_upper 1 command update (let_bindings command) None (scope_bindings command (command_feature stays))) =
      Some ("placeResource", (w, b)) /\
    applyUpdates a_host a_ctx args {| u_Resource := place_res; u_Where := w; u_Bind := b |} = Ok (sql, ps) /\
    executes (stays_db [mine]) 9 empty sql ps (stays_db [given_away]) [given_away] /\ owner_owns a_ctx (stays_db [mine]) host_scope given_away = false.
Proof.
  intros command update args mine given_away. eexists _, _, _, _. split; [vm_compute; reflexivity|]. split; [vm_compute; reflexivity|]. run_first H.
  vm_compute. reflexivity.
Qed.

(** An overlay that assigns an input field it does not exclude gives the Go map
    two entries of one key. *)
Lemma overlay_assigns_twice :
  let assign := {| as_field := "title"; as_value := EString "untitled" |} in
  let overlays n := if n =? "Place" then Some {| Conventions.ov_create := Some {| Conventions.ov_policy := None; Conventions.ov_validate := []; Conventions.ov_input_excludes := [];
      Conventions.ov_assigns := [assign]; Conventions.ov_emits := [] |}; Conventions.ov_update := None; Conventions.ov_delete := None |} else None in
  let command := base (create_entry overlays place (Scoped host_scope)) in
  exists create, c_effect command = Creates create /\ List.map as_field (cr_assignments create) = ["host"; "title"; "blurb"; "title"] /\
  read_creates no_constants 1 (emit_creates_effect an_upper 1 command create (let_bindings command) (resources (command_feature stays))) = None.
Proof. eexists. split; [vm_compute; reflexivity|]. split; vm_compute; reflexivity. Qed.

(** The resource of a query is guessed from its name, here that of another. *)
Definition only_named (n : string) : Catalog.Resource := Conventions.declared (Conventions.stay_resource n [] []).
Definition guessed (names : list string) (query : string) : option string :=
  Catalog.r_name <$> QueryCodegen.resource_for_query {|
    Catalog.f_name := "shop"; Catalog.defaults := Catalog.defaults QueryExact.notes_feature; Catalog.enums := []; Catalog.resources := List.map only_named names;
    Catalog.records := []; Catalog.auth := None |} query.
Lemma synthesized_queries_misread :
  let names n := (Conventions.list_name (Conventions.stay_resource n [] []), Conventions.lookup_name (Conventions.stay_resource n [] [])) in
  (names "Category").1 = "list_categorys" /\ guessed ["Account"; "Category"] "list_categorys" <> Some "Category" /\
  (names "ListItem").2 = "lookup_list_item" /\ guessed ["Item"; "ListItem"] "list_items" = Some "ListItem" /\ (names "Item").1 = "list_items".
Proof. repeat split; try (vm_compute; discriminate); vm_compute; reflexivity. Qed.
