(* ===== verification/RecordSet.v ===== *)
(** Functional update of record fields: [s <| field := v |>], in the manner of
    the record-update libraries.

    A record declares its shape once, [Settable], as the constructor applied to
    its fields; the setter of a field abstracts that field in the shape. *)
From S2P Require Import Prelude.

Class Settable (R : Type) := shape : R -> R.
Class Setter {R T : Type} (field : R -> T) := set : (T -> T) -> R -> R.
Arguments set {R T} field {Setter} f s.

Ltac solve_setter R field :=
  let e := constr:(_ : Settable R) in
  let e := eval cbv [shape] in e in
  let e := match e with ?h => let h' := eval red in h in h' end in
  match eval pattern field in e with
  | ?update _ => exact (fun f => update (fun s => f (field s)))
  end.
#[export] Hint Extern 1 (@Setter ?R ?T ?field) => solve_setter R field : typeclass_instances.

Declare Scope record_set.
Delimit Scope record_set with rs.
#[global] Open Scope record_set.
Notation "s <| field := v |>" := (set field (fun _ => v) s)
  (at level 1, v at level 99, left associativity, format "s  <| field  :=  v |>") : record_set.
Notation "s <| field ::= f |>" := (set field f s)
  (at level 1, f at level 99, left associativity, format "s  <| field  ::=  f |>") : record_set.
