(* ===== verification/FieldSyntax.v ===== *)
(** Field lines of a resource or record
    ([lazuli_syntax/src/parser/lzi/resource/field.rs],
    [field_constraints/mod_p1.rs] and [mod_p2.rs], [ast/resource_p1.rs] and
    [resource_p2.rs]).

    Positions in the line list are suffixes of it. *)
From S2P Require Import Prelude Str Fmt Lex.
From S2P Require LifecycleSyntax FieldConstraints QuerySyntax.
Import FieldConstraints (FieldConstraintsDecl, extract_field_constraints, find_ws).
Import QuerySyntax (split_once_str).

Abbreviation trimmed := LifecycleSyntax.trimmed.

(** * Declarations *)

Inductive ComputedDateBaseAst := BaseField (name : string) | BaseRule (rule fn_ref : string).
Inductive ComputedDateOffsetAst := OffsetField (name : string) | OffsetLiteral (n : Z).
Record ComputedDateAst := { base : ComputedDateBaseAst; offset : ComputedDateOffsetAst }.
Record CrossFeatureTargetAst := { ct_feature : string; ct_resource : string }.
(** [OwnerAxisAst] is its column. *)
Record ResourceFieldDecl := {
  name : string; type_text : string; required : bool; optional : bool; unique : bool; slug : bool; fd_default : option string;
  derived_from : option string; computed_date : option ComputedDateAst; constraints : FieldConstraintsDecl; full_text : bool;
  owner_axis : option string; cross_feature_target : option CrossFeatureTargetAst; previously : list string; span : Span
}.

(** * The tail of a field line *)

Definition one_word (s : string) : bool := (List.length (split_whitespace s) =? 1)%nat.

(** The loop peels a modifier per round. *)
Fixpoint split_modifiers_go (fuel : nat) (head : string) (modifiers : list string) : string * list string :=
  let trimmed := trim_end head in
  match fuel with
  | O => (trimmed, modifiers)
  | S fuel =>
    match strip_suffix " required" trimmed with
    | Some rest => split_modifiers_go fuel rest (modifiers ++ ["required"])
    | None =>
    match strip_suffix " optional" trimmed with
    | Some rest => split_modifiers_go fuel rest (modifiers ++ ["optional"])
    | None =>
    match strip_suffix " unique" trimmed with
    | Some rest => split_modifiers_go fuel rest (modifiers ++ ["unique"])
    | None => (trimmed, modifiers)
    end end end
  end%list.
Definition split_type_and_modifiers (text : string) : string * string :=
  let '(head, modifiers) := split_modifiers_go (str_len text) text [] in (head, join " " modifiers).

Definition find_default_assignment (text : string) : option nat := find_token text " = ".

(** [@fn.<name>(<arg>)] *)
Definition parse_schedule_rule_base (line : SourceLine) (base_text : string) : presult ComputedDateBaseAst :=
  after ← ok_or (strip_prefix "@fn." base_text) (line_error line "`schedule_rule from` requires an `@fn.<name>(<rule_arg>)` base");
  open ← ok_or (str_find "(" after) (line_error line "`schedule_rule from @fn.<name>` requires a `(<rule_arg>)` argument");
  if negb (ends_with ")" after) then Err (line_error line "`schedule_rule from @fn.<name>(<rule_arg>)` is missing the closing `)`") else
  let fn_ref := trim (str_take open after) in
  let rule := trim (slice (open + 1) (str_len after - 1) after) in
  if fn_ref =? "" then Err (line_error line "`schedule_rule from @fn.` is missing the binding-fn name")
  else if rule =? "" then Err (line_error line "`schedule_rule from @fn.<name>()` is missing the rule argument")
  else Ok (BaseRule rule fn_ref).

(** The keyword at a word boundary: where it starts and the text after it. *)
Definition detect (text kw : string) : option (nat * string) :=
  match strip_prefix (kw +:+ " ") text with
  | Some rest => Some (0, rest)
  | None => idx ← find_token text (" " +:+ kw +:+ " "); Some (idx, str_drop (idx + str_len kw + 2) text)
  end.
Definition extract_computed_date (line : SourceLine) (text : string) : presult (string * option ComputedDateAst) :=
  let found :=
    match detect text "schedule_rule" with
    | Some (start, rest) => Some (start, rest, true)
    | None => match detect text "computed_date" with Some (start, rest) => Some (start, rest, false) | None => None end
    end in
  match found with
  | None => Ok (text, None)
  | Some (start, rest, is_rule) =>
    let kw := if is_rule : bool then "schedule_rule" else "computed_date" in
    body ← ok_or (strip_prefix "from " (trim_start rest)) (line_error_owned line ("`" +:+ kw +:+ "` requires `from <base> offset <offset>`"));
    let body := trim_start body in
    offset_idx ← ok_or (find_token body " offset ")
                   (line_error_owned line ("`" +:+ kw +:+ " from <base>` must be followed by `offset <offset>`"));
    let base_text := trim (str_take offset_idx body) in
    let offset_text := trim (str_drop (offset_idx + 8) body) in
    if base_text =? "" then Err (line_error_owned line ("`" +:+ kw +:+ " from` is missing the base operand"))
    else if offset_text =? "" then
      Err (line_error_owned line ("`" +:+ kw +:+ " ... offset` is missing the offset field or integer literal"))
    else if negb (one_word offset_text) then
      Err (line_error_owned line ("`" +:+ kw +:+ " from <base> offset <offset>` accepts exactly one offset operand"))
    else
      base_ ← (if is_rule : bool then parse_schedule_rule_base line base_text
               else if negb (one_word base_text) || contains "@" base_text then
                 Err (line_error line "`computed_date from <base>` expects a bare field name (use `schedule_rule` for an `@fn` base)")
               else Ok (BaseField base_text));
      let offset_ := match parse_i64 offset_text with Some n => OffsetLiteral n | None => OffsetField offset_text end in
      Ok (trim_end (str_take start text), Some {| base := base_; offset := offset_ |})
  end.

Record ResourceFieldTail := {
  t_type_text : string; t_modifiers_text : string; t_default : option string; t_derived_from : option string;
  t_computed_date : option ComputedDateAst; t_constraints : FieldConstraintsDecl
}.

(** [text] before and after the token [sep], when it occurs outside brackets. *)
Definition cut (text sep : string) (at_ : option nat) : string * option string :=
  match at_ with
  | Some idx => (trim_end (str_take idx text), Some (trim (str_drop (idx + str_len sep) text)))
  | None => (text, None)
  end.

Definition split_resource_field_after (line : SourceLine) (after : string) : presult ResourceFieldTail :=
  let after := trim after in
  '(head, computed_date) ← extract_computed_date line after;
  let '(head, derived_from) := cut head " derived from " (find_token head " derived from ") in
  if match computed_date, derived_from with Some _, Some _ => true | _, _ => false end then
    Err (line_error line "a field cannot combine `computed_date` and `derived from` — pick one computed-field kind")
  else
    let '(head, default_) := cut head " = " (find_default_assignment head) in
    '(head, constraints) ← extract_field_constraints line head;
    let '(type_text, modifiers_text) := split_type_and_modifiers head in
    Ok {| t_type_text := type_text; t_modifiers_text := modifiers_text; t_default := default_; t_derived_from := derived_from;
          t_computed_date := computed_date; t_constraints := constraints |}.

(** * Decorators peeled off the type text *)

Definition extract_slug_decorator (text : string) : string * bool :=
  let parts := split_whitespace text in
  (join " " (List.filter (fun tok => negb (tok =? "@slug")) parts), existsb (fun tok => tok =? "@slug") parts).

(** [(b as char).is_whitespace()] of one byte: the byte as a Latin-1 character. *)
Definition latin1_white (b : byte) : bool := ws1 b || (code b =? 133)%N || (code b =? 160)%N.
Definition white_before (prev : option byte) : bool := match prev with None => true | Some b => latin1_white b end.
Definition white_after (s : string) : bool := match s with "" => true | String b _ => latin1_white b end.

(** The text around a clause that was cut out, a space between. *)
Definition glue (before after : string) : string :=
  before +:+ (if nonempty before && nonempty after then " " else "") +:+ after.

(** The scan for [@full_text]: [prev] is the byte before [s], which is at [i];
    [skip] bytes of an occurrence are still to pass, [hit] is where one was. *)
Fixpoint full_text_go (line : SourceLine) (prev : option byte) (skip : nat) (depth : Z) (i : nat) (hit : option nat) (s : string)
    : presult (option nat) :=
  match s with
  | "" => Ok hit
  | String b r =>
    match skip with
    | S skip => full_text_go line (Some b) skip depth (S i) hit r
    | O =>
      let depth := depth_step depth b in
      if (depth =? 0)%Z && starts_with "@full_text" s && white_before prev && white_after (str_drop 10 s) then
        match hit with
        | Some _ => Err (line_error line "duplicate `@full_text` decorator on field")
        | None => full_text_go line (Some b) 9 depth (S i) (Some i) r
        end
      else full_text_go line (Some b) 0 depth (S i) hit r
    end
  end.
Definition extract_full_text_marker (line : SourceLine) (type_text : string) : presult (string * bool) :=
  hit ← full_text_go line None 0 0 0 None type_text;
  match hit with
  | None => Ok (type_text, false)
  | Some start => Ok (trim (glue (trim_end (str_take start type_text)) (trim_start (str_drop (start + 10) type_text))), true)
  end.

Definition parse_owner_axis_body (line : SourceLine) (body : string) : presult string :=
  if body =? "" then Err (line_error line "`@owner_axis()` requires `through: <ident>` — empty body is not allowed") else
  '(key, value) ← ok_or (split_once ":" body) (line_error line "`@owner_axis(...)` body must be `through: <ident>`");
  if negb (trim key =? "through") then Err (line_error line "`@owner_axis(...)` only accepts the `through:` keyword argument") else
  let value := trim value in
  if value =? "" then Err (line_error line "`@owner_axis(through:)` is missing the column identifier")
  else if starts_with (String DQ "") value || starts_with "'" value then
    Err (line_error line "`@owner_axis(through: <ident>)` requires a bare identifier, not a string literal")
  else if negb (str_all (fun c => is_ascii_alphanumeric c || (c =a? "_")) value) ||
          match value with String c _ => is_ascii_digit c | "" => true end then
    Err (line_error line "`@owner_axis(through: <ident>)` identifier must match `[A-Za-z_][A-Za-z0-9_]*`")
  else Ok value.

(** Where the parenthesis [s] starts with is closed; [s] is at [k]. *)
Fixpoint paren_close (d : Z) (k : nat) (s : string) : option nat :=
  match s with
  | "" => None
  | String b r =>
    if b =a? "(" then paren_close (d + 1) (S k) r
    else if b =a? ")" then if (d - 1 =? 0)%Z then Some k else paren_close (d - 1) (S k) r
    else paren_close d (S k) r
  end.
(** The scan for [@owner_axis(..)]; the offsets [open] and [close] are from [i]. *)
Fixpoint owner_axis_go (line : SourceLine) (prev : option byte) (skip : nat) (depth : Z) (i : nat) (hit : option (nat * nat * string)) (s : string)
    : presult (option (nat * nat * string)) :=
  match s with
  | "" => Ok hit
  | String b r =>
    match skip with
    | S skip => owner_axis_go line (Some b) skip depth (S i) hit r
    | O =>
      if (depth =? 0)%Z && starts_with "@owner_axis" s && white_before prev then
        let open := 11 + count_while latin1_white (str_drop 11 s) in
        if negb (starts_with "(" (str_drop open s)) then
          Err (line_error line "`@owner_axis` requires `(through: <ident>)` — bare keyword is not allowed")
        else
          close ← ok_or (paren_close 0 open (str_drop open s)) (line_error line "`@owner_axis(...)` is missing a closing `)`");
          through ← parse_owner_axis_body line (trim (slice (open + 1) close s));
          match hit with
          | Some _ => Err (line_error line "duplicate `@owner_axis(...)` decorator on field")
          | None => owner_axis_go line (Some b) close depth (S i) (Some (i, i + close + 1, through)) r
          end
      else owner_axis_go line (Some b) 0 (depth_step depth b) (S i) hit r
    end
  end.
Definition extract_owner_axis_decorator (line : SourceLine) (type_text : string) : presult (string * option string) :=
  hit ← owner_axis_go line None 0 0 0 None type_text;
  match hit with
  | None => Ok (type_text, None)
  | Some (start, end_, through_column) =>
    Ok (trim (glue (trim_end (str_take start type_text)) (trim_start (str_drop end_ type_text))), Some through_column)
  end.

Definition extract_cross_feature_target (line : SourceLine) (type_text : string) : presult (string * option CrossFeatureTargetAst) :=
  let hit := if starts_with "target " type_text then Some 0 else idx ← str_find " target " type_text; Some (idx + 1) in
  match hit with
  | None => Ok (type_text, None)
  | Some start =>
    let after := trim_start (str_drop (start + 7) type_text) in
    let '(reference, tail) :=
      match find_ws after with Some idx => (str_take idx after, trim_start (str_drop idx after)) | None => (after, "") end in
    qualified ← ok_or (strip_prefix "@feature." reference) (line_error line "`target` requires `@feature.<feature>.<Resource>`");
    let wrong := Err (line_error line "`target @feature.<feature>.<Resource>` requires exactly a feature and a resource segment") in
    match split_char "." qualified with
    | [feature; resource] =>
      let feature := trim feature in
      let resource := trim resource in
      if (feature =? "") || (resource =? "") then wrong else
      let cleaned := glue (trim_end (str_take start type_text)) tail in
      if contains "target @feature." cleaned then Err (line_error line "duplicate `target` clause on field")
      else Ok (trim cleaned, Some {| ct_feature := feature; ct_resource := resource |})
    | _ => wrong
    end
  end.

(** * The field *)

(** The [previously] lines under a field and the lines after them. *)
Fixpoint field_previously (grandchild_indent : nat) (lines : list SourceLine) : list string * list SourceLine :=
  match lines with
  | [] => ([], [])
  | line :: rest =>
    if is_trivia (trimmed line) then field_previously grandchild_indent rest
    else if negb (indent line =? grandchild_indent)%nat then ([], lines)
    else
      match strip_prefix "previously " (trimmed line) with
      | Some p => let '(ps, rest) := field_previously grandchild_indent rest in (trim p :: ps, rest)
      | None => ([], lines)
      end
  end.

Definition span_of_line (line : SourceLine) : Span := span_new (start line) (end_ line).

(** The field of one line, before its [previously] lines are read. *)
Definition field_line (header : SourceLine) : presult ResourceFieldDecl :=
  let trimmed := trim_end (strip_inline_comment (trimmed header)) in
  '(name_part, after) ← ok_or (split_once ":" trimmed) (line_error header "resource field must be `<name>: <Type> [modifiers...]`");
  let name_ := trim name_part in
  if name_ =? "" then Err (line_error header "resource field requires a name before `:`") else
  tail ← split_resource_field_after header (trim after);
  let modifiers_text := t_modifiers_text tail in
  let '(type_text, slug_) := extract_slug_decorator (t_type_text tail) in
  '(type_text, full_text_) ← extract_full_text_marker header type_text;
  '(type_text, owner_axis_) ← extract_owner_axis_decorator header type_text;
  '(type_text, target) ← extract_cross_feature_target header type_text;
  Ok {| name := name_; type_text := type_text; required := contains "required" modifiers_text; optional := contains "optional" modifiers_text;
        unique := contains "unique" modifiers_text; slug := slug_; fd_default := t_default tail; derived_from := t_derived_from tail;
        computed_date := t_computed_date tail; constraints := t_constraints tail; full_text := full_text_; owner_axis := owner_axis_;
        cross_feature_target := target; previously := []; span := span_of_line header |}.
Definition with_previously (f : ResourceFieldDecl) (ps : list string) : ResourceFieldDecl :=
  {| name := name f; type_text := type_text f; required := required f; optional := optional f; unique := unique f; slug := slug f;
     fd_default := fd_default f; derived_from := derived_from f; computed_date := computed_date f; constraints := constraints f;
     full_text := full_text f; owner_axis := owner_axis f; cross_feature_target := cross_feature_target f; previously := ps; span := span f |}.
Definition parse_resource_field_decl (header : SourceLine) (lines : list SourceLine) (grandchild_indent : nat)
    : presult (ResourceFieldDecl * list SourceLine) :=
  f ← field_line header;
  let '(ps, rest) := field_previously grandchild_indent lines in
  Ok (with_previously f ps, rest).
