(* ===== verification/ResourceSyntax.v ===== *)
(** Resource blocks ([lazuli_syntax/src/parser/lzi/resource/mod.rs],
    [body_handlers.rs], [index.rs], [has_many.rs], [retention.rs],
    [restrict_on_delete.rs], [composite_key_lock.rs], [lifecycle_routes.rs],
    [aggregate_invariant.rs], [lzi/defaults.rs], [ast/resource_p1.rs] and
    [resource_p2.rs]).

    Positions in the line list are suffixes of it.  A public contract is attached
    outside the block's parser. *)
From S2P Require Import Prelude RecordSet Str Fmt Lex FieldSyntax.
From S2P Require LifecycleSyntax QuerySyntax CrudSyntax Expr FieldConstraints.
Import QuerySyntax (split_once_str).
Import FieldConstraints (take_word).

(** * Declarations *)

Inductive DefaultsTenancy := Org | Team | NoTenancy | Custom (axis : string).
Record ResourceHasMany := { hm_name : string; hm_type_text : string; inverse : option string; hm_span : Span }.
Inductive ResourceRetentionAction := Anonymize | Delete | Archive.
Record ResourceRetention := { duration : string; action : ResourceRetentionAction; rt_span : Span }.
Record InvariantDecl := { iv_name : string; when_ : string; message : string; iv_span : Span }.
Inductive ResourceLock := Optimistic (version_field : string) | Pessimistic | RowLevel.
Record ResourceCompositeKey := { ck_fields : list string; primary : bool; ck_span : Span }.
Record ResourceLifecycleRouteArmAst := { arm_state : string; url : string; arm_span : Span }.
Record ResourceLifecycleRoutesAst := { arms : list ResourceLifecycleRouteArmAst; lr_span : Span }.
Inductive ResourceIndexMethodAst := Btree | Gin | Gist.
Record ResourceIndexAst := { ix_fields : list string; method : option ResourceIndexMethodAst; ix_full_text : bool; ix_span : Span }.
Record ResourceUniqueAst := { uq_fields : list string; uq_when : option string; error_code : option string; uq_span : Span }.
Inductive ResourceConstraintAst := Index (i : ResourceIndexAst) | Unique (u : ResourceUniqueAst).
Record ResourcePolymorphicRefAst := { type_field : string; id_field : string; targets : list string; pr_span : Span }.
Record ManyThroughAst := { mt_name : string; partner : string; payload : list ResourceFieldDecl; mt_span : Span }.
Record ResourceRestrictOnDelete := {
  relation : string; fk : string; extra_where : option string; rd_error_code : option string; rd_span : Span
}.

Record ResourceBodyState := {
  previously : list string; tenancy : option DefaultsTenancy; fields : list ResourceFieldDecl; has_many : list ResourceHasMany;
  soft_delete : bool; soft_delete_actor : bool; timestamps : bool; append_only : bool; retention : option ResourceRetention;
  validates : list string; lifecycle : option LifecycleSyntax.LifecycleBlockAst; invariants : list InvariantDecl;
  lock : option ResourceLock; composite_key : option ResourceCompositeKey; conventions : list CrudSyntax.ResourceConventionAst;
  crud_overlay : option CrudSyntax.CrudOverlayAst; constraints : list ResourceConstraintAst;
  polymorphic_refs : list ResourcePolymorphicRefAst; many_through : list ManyThroughAst;
  lifecycle_routes : option ResourceLifecycleRoutesAst; restrict_on_delete : list ResourceRestrictOnDelete
}.
#[global] Instance ResourceBodyState_shape : Settable ResourceBodyState := fun s => {|
  previously := previously s; tenancy := tenancy s; fields := fields s; has_many := has_many s; soft_delete := soft_delete s;
  soft_delete_actor := soft_delete_actor s; timestamps := timestamps s; append_only := append_only s; retention := retention s;
  validates := validates s; lifecycle := lifecycle s; invariants := invariants s; lock := lock s; composite_key := composite_key s;
  conventions := conventions s; crud_overlay := crud_overlay s; constraints := constraints s; polymorphic_refs := polymorphic_refs s;
  many_through := many_through s; lifecycle_routes := lifecycle_routes s; restrict_on_delete := restrict_on_delete s |}.
Definition empty_body : ResourceBodyState := {|
  previously := []; tenancy := None; fields := []; has_many := []; soft_delete := false; soft_delete_actor := false;
  timestamps := false; append_only := false; retention := None; validates := []; lifecycle := None; invariants := []; lock := None;
  composite_key := None; conventions := []; crud_overlay := None; constraints := []; polymorphic_refs := []; many_through := [];
  lifecycle_routes := None; restrict_on_delete := [] |}.
(** The block: what its lines say, with its name and place. *)
Record ResourceDecl := { r_name : string; body : ResourceBodyState; r_span : Span }.

Definition push {A} (x : A) (l : list A) : list A := (l ++ [x])%list.

(** * One-line children *)

Definition parse_defaults_tenancy (axis : string) : DefaultsTenancy :=
  let axis := trim axis in
  if axis =? "org" then Org else if axis =? "team" then Team else if axis =? "none" then NoTenancy else Custom axis.

(** ** [index on], [unique], [fts on] *)

Definition is_policy_identifier (text : string) : bool :=
  match text with
  | String first rest =>
    (is_ascii_alphabetic first || (first =a? "_")) && str_all (fun c => is_ascii_alphanumeric c || (c =a? "_")) rest
  | "" => false
  end.

Definition parse_resource_field_list (line : SourceLine) (fields : string) : presult (list string) :=
  let parsed := List.filter nonempty (List.map trim (split_char "," fields)) in
  match parsed with
  | [] => Err (line_error line "field list requires at least one field name")
  | _ =>
    match List.find (fun field => negb (is_policy_identifier field)) parsed with
    | Some field => Err (line_error_owned line ("`" +:+ field +:+ "` is not a valid field name in this list"))
    | None => Ok parsed
    end
  end.
Definition parse_parenthesized_field_list_with_trailing (line : SourceLine) (text : string) : presult (list string * string) :=
  let text := trim text in
  if negb (starts_with "(" text) then Err (line_error line "expected parenthesized field list") else
  end_ ← ok_or (str_find ")" text) (line_error line "field list is missing its closing `)`");
  fields ← parse_resource_field_list line (slice 1 end_ text);
  Ok (fields, str_drop (end_ + 1) text).

Definition parse_resource_index_method (line : SourceLine) (trailing : string) : presult (option ResourceIndexMethodAst) :=
  let trailing := trim trailing in
  if trailing =? "" then Ok None else
  let method := match strip_prefix "using " trailing with Some m => trim m | None => trailing end in
  if method =? "btree" then Ok (Some Btree) else if method =? "gin" then Ok (Some Gin) else if method =? "gist" then Ok (Some Gist)
  else Err (line_error_owned line ("`index on` supports optional methods `btree`, `gin`, or `gist` (got `" +:+ method +:+ "`)")).

Definition parse_resource_index_target (line : SourceLine) (target : string) : presult (list string * option ResourceIndexMethodAst) :=
  '(fields, trailing) ←
    (if starts_with "(" target then parse_parenthesized_field_list_with_trailing line target
     else
       let '(field, trailing) := take_word target in
       let field := trim field in
       if field =? "" then Err (line_error line "`index on` requires a field name or parenthesized field list")
       else if negb (is_policy_identifier field) then
         Err (line_error_owned line ("`" +:+ field +:+ "` is not a valid field name in `index on`"))
       else Ok ([field], trim trailing));
  method_ ← parse_resource_index_method line (trim trailing);
  Ok (fields, method_).

Definition parse_unique_trailing (line : SourceLine) (trailing : string) : presult (option string * option string) :=
  if trailing =? "" then Ok (None, None) else
  '(head, when_) ←
    match split_once_str "when " trailing with
    | Some (head, pred) =>
      let pred := trim pred in
      if pred =? "" then Err (line_error line "`unique ... when` requires a predicate (e.g. `when is_default = true`)")
      else Ok (trim head, Some pred)
    | None => Ok (trim trailing, None)
    end;
  error_code ←
    (if head =? "" then Ok None else
     match strip_prefix "error " head with
     | Some code =>
       let code := trim code in
       if (code =? "") || negb (one_word code) then
         Err (line_error line "`unique ... error <CODE>` takes exactly one domain error code (e.g. `error MEMBER_ALREADY_IN_JOB`)")
       else Ok (Some code)
     | None =>
       if head =? "error" then
         Err (line_error line "`unique ... error <CODE>` requires a domain error code (e.g. `error MEMBER_ALREADY_IN_JOB`)")
       else Err (line_error line "`unique (...)` only accepts optional `error <CODE>` and `when <predicate>` clauses")
     end);
  Ok (error_code, when_).

(** ** The handlers by keyword *)

Definition ResourceBodyHandler := SourceLine -> string -> ResourceBodyState -> presult ResourceBodyState.

Definition handle_resource_lifecycle : ResourceBodyHandler := fun line _ _ =>
  Err (line_error line "internal: lifecycle should be dispatched inline before registry").
Definition handle_resource_previously : ResourceBodyHandler := fun _ rest s => Ok (s <| previously ::= push (trim rest) |>).
Definition handle_resource_tenancy : ResourceBodyHandler := fun line rest s =>
  let axis := trim rest in
  if axis =? "" then Err (line_error line "`resource tenancy` requires an axis (`org`, `team`, `none`, or a custom name)")
  else Ok (s <| tenancy := Some (parse_defaults_tenancy axis) |>).

Definition parse_resource_retention (line : SourceLine) (rest : string) : presult ResourceRetention :=
  '(duration_, action_) ← ok_or (split_once_str " then " (trim rest))
    (line_error line "`retention` requires `<duration> then <action>` (e.g. `retention 7y then anonymize`)");
  let action_ := trim action_ in
  action_ ← (if action_ =? "anonymize" then Ok Anonymize else if action_ =? "delete" then Ok Delete
             else if action_ =? "archive" then Ok Archive
             else Err (line_error_owned line ("`retention then` requires `anonymize`, `delete`, or `archive` (got `" +:+ action_ +:+ "`)")));
  Ok {| duration := trim duration_; action := action_; rt_span := span_of_line line |}.
Definition handle_resource_retention : ResourceBodyHandler := fun line rest s =>
  r ← parse_resource_retention line rest; Ok (s <| retention := Some r |>).
Definition handle_resource_validates : ResourceBodyHandler := fun _ rest s => Ok (s <| validates ::= push (trim rest) |>).

Definition parse_resource_has_many (line : SourceLine) (rest : string) : presult ResourceHasMany :=
  '(name_, after) ← ok_or (split_once ":" rest)
    (line_error line "`has_many` requires `<name>: <Type> [inverse <field>]` (e.g. `has_many notes: CustomerNote inverse customer`)");
  let name_ := trim name_ in
  if name_ =? "" then Err (line_error line "`has_many` requires a relation name before `:`") else
  let after := trim after in
  let '(type_text_, inverse_) :=
    match split_once_str " inverse " after with Some (t, i) => (trim t, Some (trim i)) | None => (after, None) end in
  if type_text_ =? "" then Err (line_error line "`has_many` requires a resource type after `:`")
  else Ok {| hm_name := name_; hm_type_text := type_text_; inverse := inverse_; hm_span := span_of_line line |}.
Definition handle_resource_has_many : ResourceBodyHandler := fun line rest s =>
  h ← parse_resource_has_many line rest; Ok (s <| has_many ::= push h |>).

Definition handle_resource_index : ResourceBodyHandler := fun line rest s =>
  target ← ok_or (strip_prefix "on " (trim rest)) (line_error line "`index` requires `on <field>` or `on (<field>, ...)`");
  '(fields_, method_) ← parse_resource_index_target line (trim target);
  Ok (s <| constraints ::= push (Index {| ix_fields := fields_; method := method_; ix_full_text := false; ix_span := span_of_line line |}) |>).

Definition handle_resource_unique : ResourceBodyHandler := fun line rest s =>
  let rest := trim rest in
  '(fields_, trailing) ←
    (if starts_with "(" rest then
       '(fields_, trailing) ← parse_parenthesized_field_list_with_trailing line rest; Ok (fields_, trim trailing)
     else
       let '(field, trailing) := take_word rest in
       let field := trim field in
       let trailing := trim trailing in
       if (field =? "") || (trailing =? "") then
         Err (line_error line "`unique` resource constraints use `unique (<field>, ...)`, `unique <field> when <predicate>`, or `unique <field> error <CODE>`")
       else Ok ([field], trailing));
  '(error_code_, when__) ← parse_unique_trailing line (trim trailing);
  Ok (s <| constraints ::= push (Unique {| uq_fields := fields_; uq_when := when__; error_code := error_code_; uq_span := span_of_line line |}) |>).

Definition handle_resource_fts : ResourceBodyHandler := fun line rest s =>
  target ← ok_or (strip_prefix "on " (trim rest)) (line_error line "`fts` requires `on (<field>, ...)`");
  '(fields_, trailing) ← parse_parenthesized_field_list_with_trailing line (trim target);
  let trailing := trim trailing in
  method_ ← (if trailing =? "" then Ok None else if trailing =? "gin" then Ok (Some Gin)
             else Err (line_error_owned line ("`fts on (...)` only accepts an optional `gin` modifier (got `" +:+ trailing +:+ "`)")));
  Ok (s <| constraints ::= push (Index {| ix_fields := fields_; method := method_; ix_full_text := true; ix_span := span_of_line line |}) |>).

Definition handle_resource_polymorphic_ref : ResourceBodyHandler := fun line rest s =>
  '(head, list_) ← ok_or (split_once_str " targets " (trim rest))
    (line_error line "`polymorphic_ref` requires `<type_field> <id_field> targets [A, B, ...]`");
  match split_whitespace (trim head) with
  | [type_field_; id_field_] =>
    list_ ← ok_or (inner ← strip_prefix "[" (trim list_); strip_suffix "]" inner)
      (line_error line "`polymorphic_ref ... targets` requires a bracketed list `[A, B, ...]`");
    match List.filter nonempty (List.map trim (split_char "," list_)) with
    | [] => Err (line_error line "`polymorphic_ref ... targets [...]` requires at least one target resource")
    | targets_ =>
      Ok (s <| polymorphic_refs ::= push {| type_field := type_field_; id_field := id_field_; targets := targets_; pr_span := span_of_line line |} |>)
    end
  | _ =>
    Err (line_error line "`polymorphic_ref` takes exactly two field names before `targets`: `polymorphic_ref <type_field> <id_field> targets [...]`")
  end.

Definition resource_body_handlers : list (string * ResourceBodyHandler) :=
  [("previously ", handle_resource_previously); ("tenancy ", handle_resource_tenancy); ("retention ", handle_resource_retention);
   ("validates ", handle_resource_validates); ("has_many ", handle_resource_has_many); ("lifecycle ", handle_resource_lifecycle);
   ("index ", handle_resource_index); ("unique ", handle_resource_unique); ("fts ", handle_resource_fts);
   ("polymorphic_ref ", handle_resource_polymorphic_ref)].

(** The first handler whose keyword the line starts with, with the text after it. *)
Fixpoint matching_handler (trimmed : string) (handlers : list (string * ResourceBodyHandler)) : option (ResourceBodyHandler * string) :=
  match handlers with
  | [] => None
  | (prefix, handler) :: handlers =>
    match strip_prefix prefix trimmed with Some rest => Some (handler, rest) | None => matching_handler trimmed handlers end
  end.

(** ** [lock] and [restrict] *)

Definition parse_resource_lock (line : SourceLine) (rest : string) : presult ResourceLock :=
  let rest := trim rest in
  match strip_prefix "optimistic" rest with
  | Some after =>
    after ← ok_or (strip_prefix "version_field" (trim_start after))
      (line_error line "`lock optimistic` requires `version_field: <field>` (e.g. `lock optimistic version_field: lock_version`)");
    after ← ok_or (strip_prefix ":" (trim_start after))
      (line_error line "`lock optimistic version_field` expects `:` followed by the column name");
    let version_field := trim after in
    if version_field =? "" then Err (line_error line "`lock optimistic version_field:` requires a non-empty field name")
    else Ok (Optimistic version_field)
  | None =>
    if rest =? "pessimistic" then Ok Pessimistic else if rest =? "row_level" then Ok RowLevel
    else Err (line_error_owned line ("`lock` expects `optimistic version_field: <field>`, `pessimistic`, or `row_level` (got `" +:+ rest +:+ "`)"))
  end.

Definition parse_resource_restrict_on_delete (line : SourceLine) (rest : string) : presult ResourceRestrictOnDelete :=
  after_on_delete ← ok_or (strip_prefix "on_delete " (trim rest))
    (line_error line "`restrict` requires `on_delete references <relation> via <fk> [where <predicate>]` (e.g. `restrict on_delete references invoice via billing_type_id`)");
  after_references ← ok_or (strip_prefix "references " (trim after_on_delete))
    (line_error line "`restrict on_delete` requires `references <relation> via <fk>` (e.g. `restrict on_delete references invoice via billing_type_id`)");
  '(relation_, after_via) ← ok_or (split_once_str " via " after_references)
    (line_error line "`restrict on_delete references <relation>` requires a `via <fk>` clause naming the referencing column (e.g. `via billing_type_id`)");
  let relation_ := trim relation_ in
  if (relation_ =? "") || negb (one_word relation_) then
    Err (line_error line "`restrict on_delete references` takes exactly one relation name before `via`")
  else
  '(before_where, extra_where_) ←
    match split_once_str " where " after_via with
    | Some (head, pred) =>
      let pred := trim pred in
      if pred =? "" then Err (line_error line "`restrict on_delete ... where` requires a predicate (e.g. `where status = 'open'`)")
      else Ok (head, Some pred)
    | None => Ok (after_via, None)
    end;
  '(fk_, error_code_) ←
    match split_once_str " error " before_where with
    | Some (fk_, code) =>
      let code := trim code in
      if (code =? "") || negb (one_word code) then
        Err (line_error line "`restrict on_delete ... error <CODE>` takes exactly one domain error code (e.g. `error CATEGORY_HAS_CUSTOMERS`)")
      else Ok (trim fk_, Some code)
    | None =>
      let trimmed := trim before_where in
      if ends_with " error" trimmed || (trimmed =? "error") then
        Err (line_error line "`restrict on_delete ... error <CODE>` requires a domain error code (e.g. `error CATEGORY_HAS_CUSTOMERS`)")
      else Ok (trimmed, None)
    end;
  if (fk_ =? "") || negb (one_word fk_) then
    Err (line_error line "`restrict on_delete ... via <fk>` takes exactly one foreign-key column name")
  else Ok {| relation := relation_; fk := fk_; extra_where := extra_where_; rd_error_code := error_code_; rd_span := span_of_line line |}.

(** * Child blocks *)

(** ** [composite_key] *)

Record CompositeKeyAcc := { a_fields : list string; a_primary : bool; saw_primary : bool; a_last_end : nat }.
Fixpoint composite_key_lines (header_indent grandchild_indent : nat) (a : CompositeKeyAcc) (lines : list SourceLine)
    : presult (CompositeKeyAcc * list SourceLine) :=
  match lines with
  | [] => Ok (a, [])
  | line :: rest =>
    if is_trivia (trimmed line) then composite_key_lines header_indent grandchild_indent a rest
    else if (indent line <=? header_indent)%nat then Ok (a, lines)
    else if negb (indent line =? grandchild_indent)%nat then
      Err (line_error line "`composite_key` children use one indentation level deeper than the header")
    else
      a ← match strip_prefix "fields " (trimmed line) with
          | Some names =>
            match a_fields a with
            | _ :: _ => Err (line_error line "duplicate `fields` line in `composite_key`")
            | [] =>
              match List.filter nonempty (List.map trim (split_char "," names)) with
              | [] => Err (line_error line "`fields` requires at least one field name (e.g. `fields order, line_number`)")
              | names => Ok {| a_fields := names; a_primary := a_primary a; saw_primary := saw_primary a; a_last_end := end_ line |}
              end
            end
          | None =>
          match strip_prefix "primary " (trimmed line) with
          | Some value =>
            if saw_primary a then Err (line_error line "duplicate `primary` line in `composite_key`") else
            let value := trim value in
            primary_ ← (if value =? "true" then Ok true else if value =? "false" then Ok false
                        else Err (line_error_owned line ("`primary` expects `true` or `false` (got `" +:+ value +:+ "`)")));
            Ok {| a_fields := a_fields a; a_primary := primary_; saw_primary := true; a_last_end := end_ line |}
          | None => Err (line_error line "`composite_key` children are `fields <list>` and `primary true|false`")
          end end;
      composite_key_lines header_indent grandchild_indent a rest
  end.
Definition parse_resource_composite_key (header : SourceLine) (lines : list SourceLine) (grandchild_indent : nat)
    : presult (ResourceCompositeKey * list SourceLine) :=
  '(a, rest) ← composite_key_lines (indent header) grandchild_indent
    {| a_fields := []; a_primary := false; saw_primary := false; a_last_end := end_ header |} lines;
  match a_fields a with
  | [] => Err (line_error header "`composite_key` requires a `fields <a>, <b>, ...` child")
  | _ => Ok ({| ck_fields := a_fields a; primary := a_primary a; ck_span := span_new (start header) (a_last_end a) |}, rest)
  end.

(** ** [lifecycle_routes] *)

Definition route_arm (line : SourceLine) : presult ResourceLifecycleRouteArmAst :=
  '(state, rest) ← ok_or (split_once_str "->" (trimmed line))
    (line_error line ("`lifecycle_routes` arms use `<state> -> " +:+ quoted "<url>" +:+ "` (state name, `none`, or `*`)"));
  let state := trim state in
  if state =? "" then Err (line_error line "`lifecycle_routes` arm state must be a bare identifier, `none`, or `*`") else
  let url_text := trim rest in
  if negb (starts_with (String DQ "") url_text) || negb (ends_with (String DQ "") url_text) || (str_len url_text <? 2)%nat then
    Err (line_error line "`lifecycle_routes` arm URL must be a double-quoted string")
  else Ok {| arm_state := state; url := slice 1 (str_len url_text - 1) url_text; arm_span := span_of_line line |}.
Fixpoint route_arms (body_indent : nat) (arms_ : list ResourceLifecycleRouteArmAst) (last_end : nat) (lines : list SourceLine)
    : presult ((list ResourceLifecycleRouteArmAst * nat) * list SourceLine) :=
  match lines with
  | [] => Ok ((arms_, last_end), [])
  | line :: rest =>
    if is_trivia (trimmed line) then route_arms body_indent arms_ last_end rest
    else if (indent line <? body_indent)%nat then Ok ((arms_, last_end), lines)
    else if negb (indent line =? body_indent)%nat then
      Err (line_error line "`lifecycle_routes` arms use grandchild indentation (4 spaces)")
    else arm ← route_arm line; route_arms body_indent (push arm arms_) (end_ line) rest
  end.
Definition parse_resource_lifecycle_routes (header : SourceLine) (lines : list SourceLine)
    : presult (ResourceLifecycleRoutesAst * list SourceLine) :=
  '((arms_, last_end), rest) ← route_arms (indent header + 2) [] (end_ header) lines;
  match arms_ with
  | [] => Err (line_error header ("`lifecycle_routes` requires at least one `<state> -> " +:+ quoted "<url>" +:+ "` arm"))
  | _ => Ok ({| arms := arms_; lr_span := span_new (start header) last_end |}, rest)
  end.

(** ** [invariant] *)

Record InvariantAcc := { i_when : option string; i_message : string; message_seen : bool; i_last_end : nat }.
Fixpoint invariant_lines (header_indent : nat) (a : InvariantAcc) (lines : list SourceLine) : presult (InvariantAcc * list SourceLine) :=
  match lines with
  | [] => Ok (a, [])
  | line :: rest =>
    if is_trivia (trimmed line) then invariant_lines header_indent a rest
    else if (indent line <=? header_indent)%nat then Ok (a, lines)
    else if negb (indent line =? header_indent + 2)%nat then
      Err (line_error line "invariant body children use one indentation level deeper than the `invariant` header")
    else
      a ← match strip_prefix "when " (trimmed line) with
          | Some expr =>
            match i_when a with
            | Some _ => Err (line_error line "invariant declares `when` at most once")
            | None =>
              let expr := trim expr in
              if expr =? "" then Err (line_error line "`when` requires a predicate expression")
              else Ok {| i_when := Some expr; i_message := i_message a; message_seen := message_seen a; i_last_end := end_ line |}
            end
          | None =>
          match strip_prefix "message " (trimmed line) with
          | Some raw =>
            if message_seen a then Err (line_error line "invariant declares `message` at most once") else
            let raw := trim raw in
            let text := default raw (quoted_ ← strip_prefix (String DQ "") raw; strip_suffix (String DQ "") quoted_) in
            Ok {| i_when := i_when a; i_message := text; message_seen := true; i_last_end := end_ line |}
          | None =>
            Err (line_error line ("`invariant` children are `when <predicate>` and optional `message " +:+ quoted "<text>" +:+ "`"))
          end end;
      invariant_lines header_indent a rest
  end.
Definition parse_invariant_decl (header : SourceLine) (lines : list SourceLine) (name_rest : string)
    : presult (InvariantDecl * list SourceLine) :=
  let name_ := trim name_rest in
  if name_ =? "" then Err (line_error header "`invariant` requires a name (`invariant <name>`)")
  else if negb (one_word name_) then Err (line_error header "`invariant` accepts exactly one name identifier") else
  '(a, rest) ← invariant_lines (indent header) {| i_when := None; i_message := ""; message_seen := false; i_last_end := end_ header |} lines;
  when__ ← ok_or (i_when a) (line_error header "`invariant` requires a `when <predicate>` clause");
  Ok ({| iv_name := name_; when_ := when__; message := i_message a; iv_span := span_new (start header) (i_last_end a) |}, rest).

(** ** [many_through] *)

(** [lines[next.saturating_sub(1).max(i)].end] for a child whose first line is
    [line], the lines after it [rest], the lines after the child [next]. *)
Definition child_end (line : SourceLine) (rest next : list SourceLine) : nat :=
  end_ (List.last (firstn (List.length rest - List.length next) rest) line).

(** The payload fields; [fuel] bounds their number. *)
Fixpoint payload_fields (fuel header_indent grandchild_indent : nat) (fs : list ResourceFieldDecl) (last_end : nat) (lines : list SourceLine)
    : presult ((list ResourceFieldDecl * nat) * list SourceLine) :=
  match fuel, lines with
  | O, _ | _, [] => Ok ((fs, last_end), lines)
  | S fuel, line :: rest =>
    if is_trivia (trimmed line) then payload_fields fuel header_indent grandchild_indent fs last_end rest
    else if (indent line <=? header_indent)%nat then Ok ((fs, last_end), lines)
    else if negb (indent line =? grandchild_indent)%nat then
      Err (line_error line "`many_through` payload fields use one indentation level deeper than the header")
    else if negb (contains ":" (trimmed line)) then
      Err (line_error line "`many_through` children are payload field declarations `<name>: <Type> [modifiers]`")
    else
      '(field, next) ← parse_resource_field_decl line rest (grandchild_indent + 2);
      payload_fields fuel header_indent grandchild_indent (push field fs) (child_end line rest next) next
  end.
Definition parse_resource_many_through (header : SourceLine) (lines : list SourceLine) (rest : string) (grandchild_indent : nat)
    : presult (ManyThroughAst * list SourceLine) :=
  '(name_, partner_) ← ok_or (split_once_str " to " (trim rest))
    (line_error header "`many_through` requires `<JunctionName> to <PartnerResource>` (e.g. `many_through JobMember to User`)");
  let name_ := trim name_ in
  let partner_ := trim partner_ in
  if (name_ =? "") || negb (one_word name_) then
    Err (line_error header "`many_through` junction name must be a single identifier before `to` (e.g. `many_through JobMember to User`)")
  else if (partner_ =? "") || negb (one_word partner_) then
    Err (line_error header "`many_through ... to` requires exactly one partner resource name (e.g. `to User`)")
  else
  '((payload_, last_end), next) ← payload_fields (S (List.length lines)) (indent header) grandchild_indent [] (end_ header) lines;
  match payload_ with
  | [] => Err (line_error header "`many_through` requires at least one payload field — a junction with no metadata is a plain `has_many`")
  | _ => Ok ({| mt_name := name_; partner := partner_; payload := payload_; mt_span := span_new (start header) last_end |}, next)
  end.

(** * The block *)

Definition is_some {A} (o : option A) : bool := match o with Some _ => true | None => false end.

(** One child of the block: its first line, the lines after it. *)
Definition resource_child (header_indent : nat) (line : SourceLine) (rest : list SourceLine) (s : ResourceBodyState)
    : presult (ResourceBodyState * list SourceLine) :=
  let grandchild_indent := header_indent + 4 in
  let text := trimmed line in
  if text =? "soft_delete" then Ok (s <| soft_delete := true |>, rest)
  else if text =? "soft_delete by" then Ok (s <| soft_delete := true |> <| soft_delete_actor := true |>, rest)
  else if text =? "timestamps" then Ok (s <| timestamps := true |>, rest)
  else if text =? "append_only" then Ok (s <| append_only := true |>, rest)
  else if text =? "lifecycle" then
    Err (line_error line "`lifecycle` requires a discriminator field name: `lifecycle <field>`")
  else match strip_prefix "lifecycle " text with
  | Some r =>
    if is_some (lifecycle s) then Err (line_error line "a resource may declare at most one `lifecycle` block")
    else if trim r =? "" then Err (line_error line "`lifecycle` requires a discriminator field name: `lifecycle <field>`")
    else '(block, next) ← LifecycleSyntax.parse_lifecycle_block line rest; Ok (s <| lifecycle := Some block |>, next)
  | None =>
  if text =? "many_through" then
    Err (line_error line "`many_through` requires `<JunctionName> to <PartnerResource>` (e.g. `many_through JobMember to User`)")
  else match strip_prefix "many_through " text with
  | Some r => '(mt, next) ← parse_resource_many_through line rest r grandchild_indent; Ok (s <| many_through ::= push mt |>, next)
  | None =>
  if text =? "lifecycle_routes" then
    if is_some (lifecycle_routes s) then Err (line_error line "a resource may declare at most one `lifecycle_routes` block")
    else '(block, next) ← parse_resource_lifecycle_routes line rest; Ok (s <| lifecycle_routes := Some block |>, next)
  else match strip_prefix "invariant " text with
  | Some r => '(inv, next) ← parse_invariant_decl line rest r; Ok (s <| invariants ::= push inv |>, next)
  | None =>
  if text =? "lock" then
    Err (line_error line "`lock` requires a strategy: `lock optimistic version_field: <field>`, `lock pessimistic`, or `lock row_level`")
  else match strip_prefix "lock " text with
  | Some r =>
    if is_some (lock s) then Err (line_error line "a resource may declare at most one `lock` decorator")
    else l ← parse_resource_lock line r; Ok (s <| lock := Some l |>, rest)
  | None =>
  if text =? "composite_key" then
    if is_some (composite_key s) then Err (line_error line "a resource may declare at most one `composite_key` block")
    else '(ck, next) ← parse_resource_composite_key line rest grandchild_indent; Ok (s <| composite_key := Some ck |>, next)
  else if starts_with "composite_key " text then
    Err (line_error line "`composite_key` does not accept inline arguments — list fields under the block")
  else if text =? "conventions" then
    Err (line_error line "`conventions` requires a bracketed identifier list: `conventions [crud]`")
  else match strip_prefix "conventions " text with
  | Some r =>
    if match conventions s with [] => false | _ => true end then
      Err (line_error line "a resource may declare at most one `conventions` slot")
    else entries ← CrudSyntax.parse_resource_conventions_list line r; Ok (s <| conventions := entries |>, rest)
  | None =>
  if text =? "crud" then
    if is_some (crud_overlay s) then Err (line_error line "a resource may declare at most one `crud` overlay block")
    else '(overlay, next) ← CrudSyntax.parse_resource_crud_overlay line rest header_indent; Ok (s <| crud_overlay := Some overlay |>, next)
  else if starts_with "crud " text then
    Err (line_error line "`crud` overlay header takes no inline arguments — list `create`/`update`/`delete` sub-blocks under it")
  else if text =? "restrict" then
    Err (line_error line "`restrict` requires `on_delete references <relation> via <fk> [where <predicate>]` (e.g. `restrict on_delete references invoice via billing_type_id`)")
  else match strip_prefix "restrict " text with
  | Some r => g ← parse_resource_restrict_on_delete line r; Ok (s <| restrict_on_delete ::= push g |>, rest)
  | None =>
  if contains ":" text && negb (existsb (fun h => starts_with h.1 text) resource_body_handlers) then
    '(field, next) ← parse_resource_field_decl line rest grandchild_indent; Ok (s <| fields ::= push field |>, next)
  else match matching_handler text resource_body_handlers with
  | Some (handler, r) => s ← handler line r s; Ok (s, rest)
  | None =>
    Err (line_error line "`resource` children are `previously`, `tenancy`, `soft_delete`, `timestamps`, `append_only`, `retention`, `validates`, `has_many`, `lifecycle`, `conventions`, `restrict on_delete references ... via ...`, `index on`, `unique (...)`, `fts on (...)`, or `<field>: <Type>`")
  end end end end end end end.

(** The children; [fuel] bounds their number, see [resource_children_fuel]. *)
Fixpoint resource_children (fuel header_indent : nat) (s : ResourceBodyState) (last_end : nat) (lines : list SourceLine)
    : presult ((ResourceBodyState * nat) * list SourceLine) :=
  match fuel, lines with
  | O, _ | _, [] => Ok ((s, last_end), lines)
  | S fuel, line :: rest =>
    if is_trivia (trimmed line) then resource_children fuel header_indent s last_end rest
    else if (indent line <=? header_indent)%nat then Ok ((s, last_end), lines)
    else if negb (indent line =? header_indent + 2)%nat then
      Err (line_error line "resource body children use one indentation level deeper than the `resource` header")
    else
      '(s, next) ← resource_child header_indent line rest s;
      resource_children fuel header_indent s (child_end line rest next) next
  end.
Definition parse_resource_decl (header : SourceLine) (lines : list SourceLine) : presult (ResourceDecl * list SourceLine) :=
  rest ← ok_or (strip_prefix "resource " (trimmed header)) (line_error header "resource header must be `resource <Name>`");
  let name_ := default "" (head (split_whitespace rest)) in
  if name_ =? "" then Err (line_error header "resource header requires a name") else
  '((s, last_end), next) ← resource_children (S (List.length lines)) (indent header) empty_body (end_ header) lines;
  Ok ({| r_name := name_; body := s; r_span := span_new (start header) last_end |}, next).
