(* ===== verification/ResourceLowering.v ===== *)
(** Resources in the intermediate representation
    ([lazuli_ir/src/nodes/resource/{mod,field,convention}.rs], [aggregate.rs])
    and their lowering from the syntax tree
    ([lazuli_analyzer/src/resource_p1.rs], [resource_p2.rs],
    [resource_validators.rs], [feature_meta.rs], [feature.rs]).

    [None] is the panic of the predicate parser inside a character outside ASCII,
    or a default outside ASCII, which the tables of Unicode decide.  The
    lifecycle is attached by a later pass. *)
From S2P Require Import Prelude Str Fmt Lex Helpers Ir Catalog TypeToken.
From S2P Require FieldConstraints FieldSyntax ResourceSyntax LifecycleSyntax CrudSyntax Expr QueryLowering CommandLowering.
Import FieldConstraints (FieldConstraintsDecl).
Import QueryLowering (AnalyzeError, DefaultViolatesConstraint, OwnerAxisOnNonFk, lift_field_constraints).

Module ast := ResourceSyntax.
Module field_ast := FieldSyntax.

(** * The representation *)

Inductive ComputedDateBase := BaseField (name : string) | BaseRule (rule fn_ref : string).
Inductive ComputedDateOffset := OffsetField (name : string) | OffsetLiteral (n : Z).
Record ComputedDate := { base : ComputedDateBase; offset : ComputedDateOffset }.
(** [ir::Field]: the slots [Catalog.Field] carries, and the others. *)
Record FieldIr := {
  core : Field; slug : bool; computed_date : option ComputedDate; previous_names : list string; pii : option CapabilityRef;
  f_span : option Span
}.

Inductive RetentionAction := Anonymize | Delete | Archive.
Record RetentionSpec := { duration : string; action : RetentionAction }.
Record Invariant := { iv_name : string; when_ : EvalPredicate; message : string; iv_span : Span }.
Inductive LockSpec := Optimistic (version_field : string) | Pessimistic | RowLevel.
Inductive ConventionRef := Crud | Me.
Record LifecycleRouteArm := { arm_state : string; url : string }.
Record LifecycleRoutes := { arms : list LifecycleRouteArm; lr_span : Span }.
Record ManyThrough := { junction : string; partner : string; payload : list FieldIr }.
(** [ir::Resource], its public contract and lifecycle apart. *)
Record ResourceIr := {
  name : string; ir_tenancy : option Tenancy; ir_soft_delete : bool; ir_soft_delete_actor : bool; ir_timestamps : option bool;
  ir_fields : list FieldIr; ir_constraints : list Constraint; validate : option string; retention : option RetentionSpec;
  r_previous_names : list string; r_span : option Span; invariants : list Invariant; lock : option LockSpec;
  ir_composite_key : option CompositeKey; conventions : list ConventionRef; lifecycle_routes : option LifecycleRoutes;
  ir_polymorphic_refs : list PolymorphicRef; append_only : bool; many_through : list ManyThrough;
  ir_restrict_on_delete : list RestrictOnDelete
}.
(** What the passes of [Catalog] read of it. *)
Definition catalog (r : ResourceIr) : Resource := {|
  r_name := name r; tenancy := ir_tenancy r; soft_delete := ir_soft_delete r; soft_delete_actor := ir_soft_delete_actor r;
  timestamps := ir_timestamps r; fields := List.map core (ir_fields r); constraints := ir_constraints r;
  composite_key := ir_composite_key r; polymorphic_refs := ir_polymorphic_refs r; restrict_on_delete := ir_restrict_on_delete r |}.

(** * Outcomes *)

Definition outcome (A : Type) : Type := option (result AnalyzeError A).
Definition fine {A} (x : A) : outcome A := Some (Ok x).
Definition and_then {A B} (m : outcome A) (k : A -> outcome B) : outcome B :=
  match m with Some (Ok x) => k x | Some (Err e) => Some (Err e) | None => None end.
Definition known {A} (o : option A) : outcome A := Ok <$> o.
Declare Scope outcome_scope.
#[local] Open Scope outcome_scope.
Notation "x <- m ; k" := (and_then m (fun x => k)) (at level 100, m at level 90, k at level 200, right associativity) : outcome_scope.
(** [iter().map(f).collect::<Result<Vec<_>, _>>()?] *)
Fixpoint collect {A B} (f : A -> outcome B) (l : list A) : outcome (list B) :=
  match l with
  | [] => fine []
  | x :: l => y <- f x; ys <- collect f l; fine (y :: ys)
  end.

(** * Fields *)

(** The loop peels a modifier per round. *)
Fixpoint peel_go (fuel : nat) (head : string) (required unique : bool) : string * bool * bool :=
  let trimmed := trim_end head in
  match fuel with
  | O => (trimmed, required, unique)
  | S fuel =>
    match strip_suffix " required" trimmed with
    | Some rest => peel_go fuel rest true unique
    | None =>
    match strip_suffix " optional" trimmed with
    | Some rest => peel_go fuel rest required unique
    | None =>
    match strip_suffix " unique" trimmed with
    | Some rest => peel_go fuel rest required true
    | None => (trimmed, required, unique)
    end end end
  end.
Definition peel_trailing_field_modifiers (text : string) : string * bool * bool := peel_go (str_len text) (trim text) false false.

(** The scan for a field-level [@cap.PII(..)]: [s] is at [i] of [text], [prev]
    the byte before it. *)
Fixpoint cap_pii_go (text : string) (prev : option byte) (depth : Z) (in_string escaped : bool) (i : nat) (s : string) : option (nat * nat) :=
  match s with
  | "" => None
  | String b r =>
    if in_string then
      if escaped then cap_pii_go text (Some b) depth true false (S i) r
      else if b =a? BSL then cap_pii_go text (Some b) depth true true (S i) r
      else cap_pii_go text (Some b) depth (negb (b =a? DQ)) false (S i) r
    else
      match (if (depth =? 0)%Z && starts_with "@cap.PII(" s && field_ast.white_before prev
             then find_balanced_decorator_end text i else None) with
      | Some e => Some (i, e)
      | None => cap_pii_go text (Some b) (if b =a? DQ then depth else depth_step depth b) (b =a? DQ) escaped (S i) r
      end
  end.
Definition find_field_level_cap_pii_span (text : string) : option (nat * nat) := cap_pii_go text None 0 false false 0 text.

Definition extract_field_level_pii_decorator (type_text : string) : string * option CapabilityRef :=
  let original := trim type_text in
  match find_field_level_cap_pii_span type_text with
  | None => (original, None)
  | Some (start, end_) =>
    let before := trim_end (str_take start type_text) in
    if before =? "" then (original, None) else
    match parse_cap_pii_type (slice start end_ type_text) with
    | None => (original, None)
    | Some p => (trim (field_ast.glue before (trim_start (str_drop end_ type_text))), Some p)
    end
  end.

(** [resource_validators.rs] *)
Definition validate_default_against_constraints (field default_raw : string) (c : FieldConstraintsDecl) : result AnalyzeError unit :=
  let default_raw := trim default_raw in
  let unquoted :=
    if (2 <=? str_len default_raw)%nat && starts_with (String DQ "") default_raw && ends_with (String DQ "") default_raw
    then slice 1 (str_len default_raw - 1) default_raw else default_raw in
  let as_int := parse_i64 unquoted in
  let len := List.length (chars unquoted) in
  (** the number, or the length of the text *)
  let size := match as_int with Some n => n | None => Z.of_nat len end in
  let check (fails : bool) (rule : string) : result AnalyzeError unit :=
    if fails then Err (DefaultViolatesConstraint field default_raw rule) else Ok tt in
  _ ← match FieldConstraints.length c with Some n => check (negb (len =? n)%nat) ("length=" +:+ show_N (N.of_nat n)) | None => Ok tt end;
  _ ← match FieldConstraints.min c with Some lo => check (size <? lo)%Z ("min=" +:+ show_Z lo) | None => Ok tt end;
  _ ← match FieldConstraints.max c with Some hi => check (hi <? size)%Z ("max=" +:+ show_Z hi) | None => Ok tt end;
  _ ← match FieldConstraints.between c, as_int with
      | Some (lo, hi), Some n => check ((n <? lo)%Z || (hi <? n)%Z) ("between=" +:+ show_Z lo +:+ ".." +:+ show_Z hi)
      | _, _ => Ok tt
      end;
  _ ← match FieldConstraints.in_ c with
      | Some values => check (negb (existsb (fun v => v =? unquoted) values)) ("in=[" +:+ join ", " values +:+ "]")
      | None => Ok tt
      end;
  match FieldConstraints.pattern c with
  | Some pattern => check ((unquoted =? "") && nonempty pattern) ("pattern=" +:+ quoted pattern)
  | None => Ok tt
  end.

(** [previously migrated <old>], [previously alias <old>] *)
Definition strip_previously_mode (raw : string) : string :=
  let trimmed := trim raw in
  match strip_prefix "migrated " trimmed with
  | Some rest => trim rest
  | None => match strip_prefix "alias " trimmed with Some rest => trim rest | None => trimmed end
  end.

Definition lower_computed_date (a : field_ast.ComputedDateAst) : ComputedDate := {|
  base := match field_ast.base a with
          | field_ast.BaseField n => BaseField n
          | field_ast.BaseRule rule fn_ref => BaseRule rule fn_ref
          end;
  offset := match field_ast.offset a with
            | field_ast.OffsetField n => OffsetField n
            | field_ast.OffsetLiteral n => OffsetLiteral n
            end |}.

Definition lower_resource_field (f : field_ast.ResourceFieldDecl) : outcome FieldIr :=
  let field := field_ast.name f in
  let decl := field_ast.constraints f in
  let '(type_text, type_pii) := extract_field_level_pii_decorator (field_ast.type_text f) in
  let '(type_text, recovered_required, recovered_unique) := peel_trailing_field_modifiers type_text in
  let '(default_text, default_pii) :=
    match field_ast.fd_default f with
    | Some raw => let '(cleaned, p) := extract_field_level_pii_decorator raw in (Some cleaned, p)
    | None => (None, None)
    end in
  let pii_ := match type_pii with Some p => Some p | None => default_pii end in
  default_ <- match default_text with Some raw => d <- known (parse_default (trim raw)); fine (Some d) | None => fine None end;
  Some (
    constraints_ ← lift_field_constraints field decl;
    _ ← CommandLowering.validate_constraint_combinations field decl;
    _ ← CommandLowering.validate_constraint_range_invariant field decl;
    _ ← CommandLowering.validate_constraint_type_compatibility field type_text decl;
    _ ← CommandLowering.validate_constraint_pattern_compile field decl;
    _ ← match default_text with
        | Some default_text => validate_default_against_constraints field (trim default_text) decl
        | None => Ok tt
        end;
    let type_ref_ := type_ref_from_syntax type_text in
    owner_axis_ ← match field_ast.owner_axis f with
                  | Some column =>
                    match type_ref_ with
                    | UserDefined _ => Ok (Some {| through_column := column |})
                    | _ => Err (OwnerAxisOnNonFk field type_text)
                    end
                  | None => Ok None
                  end;
    Ok {| core := {| fd_name := field; type_ref := type_ref_; required := field_ast.required f || recovered_required;
                     unique := field_ast.unique f || recovered_unique; fd_default := default_;
                     derived_from := field_ast.derived_from f; full_text := field_ast.full_text f;
                     cross_feature_target := (fun t => {| ct_feature := field_ast.ct_feature t; ct_resource := field_ast.ct_resource t |})
                                               <$> field_ast.cross_feature_target f;
                     fd_constraints := constraints_; owner_axis := owner_axis_ |};
          slug := field_ast.slug f; computed_date := lower_computed_date <$> field_ast.computed_date f;
          previous_names := List.map strip_previously_mode (field_ast.previously f); pii := pii_;
          f_span := Some (field_ast.span f) |}).

(** * Resources *)

Definition lower_tenancy (t : ast.DefaultsTenancy) : Tenancy :=
  match t with ast.Org => Org | ast.Team => Team | ast.NoTenancy => NoTenancy | ast.Custom axis => Custom axis end.
Definition lower_retention (r : ast.ResourceRetention) : RetentionSpec := {|
  duration := ast.duration r;
  action := match ast.action r with ast.Anonymize => Anonymize | ast.Delete => Delete | ast.Archive => Archive end |}.
Definition lower_lock (l : ast.ResourceLock) : LockSpec :=
  match l with ast.Optimistic f => Optimistic f | ast.Pessimistic => Pessimistic | ast.RowLevel => RowLevel end.
Definition lower_convention (c : CrudSyntax.ResourceConventionAst) : ConventionRef :=
  match c with CrudSyntax.Crud => Crud | CrudSyntax.Me => Me end.
Definition lower_index_method (m : ast.ResourceIndexMethodAst) : IndexMethod :=
  match m with ast.Btree => Btree | ast.Gin => Gin | ast.Gist => Gist end.

Definition lower_invariant_decl (d : ast.InvariantDecl) : outcome Invariant :=
  p <- known (Expr.parse_closed_predicate (ast.when_ d));
  fine {| iv_name := ast.iv_name d; when_ := p; message := ast.message d; iv_span := ast.iv_span d |}.

(** [.as_deref().map(parse_closed_predicate)] *)
Definition lower_predicate (text : option string) : outcome (option EvalPredicate) :=
  match text with Some t => p <- known (Expr.parse_closed_predicate t); fine (Some p) | None => fine None end.
Definition lower_resource_constraint (c : ast.ResourceConstraintAst) : outcome Constraint :=
  match c with
  | ast.Unique u =>
    when__ <- lower_predicate (ast.uq_when u);
    fine (Unique {| uq_fields := ast.uq_fields u; per := None; uq_when := when__; error_code := ast.error_code u |})
  | ast.Index i =>
    fine (Index {| ix_fields := ast.ix_fields i; ix_method := lower_index_method <$> ast.method i; ix_full_text := ast.ix_full_text i |})
  end.
Definition lower_restrict (g : ast.ResourceRestrictOnDelete) : outcome RestrictOnDelete :=
  where_ <- lower_predicate (ast.extra_where g);
  fine {| relation := ast.relation g; fk := ast.fk g; extra_where := where_; tenant_scoped := false; g_soft_delete := false;
          g_error_code := ast.rd_error_code g |}.
Definition lower_many_through (mt : ast.ManyThroughAst) : outcome ManyThrough :=
  payload_ <- collect lower_resource_field (ast.payload mt);
  fine {| junction := ast.mt_name mt; partner := ast.partner mt; payload := payload_ |}.

Definition lower_resource_decl (r : ast.ResourceDecl) : outcome ResourceIr :=
  let b := ast.body r in
  fields_ <- collect lower_resource_field (ast.fields b);
  invariants_ <- collect lower_invariant_decl (ast.invariants b);
  constraints_ <- collect lower_resource_constraint (ast.constraints b);
  many_through_ <- collect lower_many_through (ast.many_through b);
  restrict_ <- collect lower_restrict (ast.restrict_on_delete b);
  fine {|
    name := ast.r_name r; ir_tenancy := lower_tenancy <$> ast.tenancy b; ir_soft_delete := ast.soft_delete b;
    ir_soft_delete_actor := ast.soft_delete_actor b; ir_timestamps := if ast.timestamps b then Some true else None;
    ir_fields := fields_; ir_constraints := constraints_; validate := head (ast.validates b);
    retention := lower_retention <$> ast.retention b;
    r_previous_names := List.map strip_previously_mode (ast.previously b); r_span := Some (ast.r_span r);
    invariants := invariants_; lock := lower_lock <$> ast.lock b;
    ir_composite_key := (fun ck => {| ck_fields := ast.ck_fields ck; primary := ast.primary ck |}) <$> ast.composite_key b;
    conventions := List.map lower_convention (ast.conventions b);
    lifecycle_routes := (fun lr => {| arms := List.map (fun a => {| arm_state := ast.arm_state a; url := ast.url a |}) (ast.arms lr);
                                      lr_span := ast.lr_span lr |}) <$> ast.lifecycle_routes b;
    ir_polymorphic_refs := List.map (fun p => {| type_field := ast.type_field p; id_field := ast.id_field p; targets := ast.targets p |})
                             (ast.polymorphic_refs b);
    append_only := ast.append_only b; many_through := many_through_; ir_restrict_on_delete := restrict_ |}.

(** * Junctions *)

Definition junction_fk_field (name_ target_resource : string) : FieldIr := {|
  core := {| fd_name := name_; type_ref := UserDefined {| qn_feature := None; qn_name := target_resource |}; required := true; unique := false;
             fd_default := None; derived_from := None; full_text := false; cross_feature_target := None;
             fd_constraints := default_constraints; owner_axis := None |};
  slug := false; computed_date := None; previous_names := []; pii := None; f_span := None |}.

Definition synthesize_junction_resource (declaring_resource : string) (mt : ManyThrough) : ResourceIr :=
  let declaring_fk := pascal_to_snake declaring_resource +:+ "_id" in
  let partner_fk := pascal_to_snake (partner mt) +:+ "_id" in {|
  name := junction mt; ir_tenancy := None; ir_soft_delete := false; ir_soft_delete_actor := false; ir_timestamps := None;
  ir_fields := junction_fk_field declaring_fk declaring_resource :: junction_fk_field partner_fk (partner mt) :: payload mt;
  ir_constraints := [Unique {| uq_fields := [declaring_fk; partner_fk]; per := None; uq_when := None; error_code := None |}];
  validate := None; retention := None; r_previous_names := []; r_span := None; invariants := []; lock := None; ir_composite_key := None;
  conventions := []; lifecycle_routes := None; ir_polymorphic_refs := []; append_only := false; many_through := [];
  ir_restrict_on_delete := [] |}.

(** The resources of a feature: the authored, then the junctions they declare
    ([lower_feature_skeleton_to_ir], before the guards get their scopes). *)
Definition lower_resources (decls : list ast.ResourceDecl) : outcome (list ResourceIr) :=
  resources_ <- collect lower_resource_decl decls;
  fine (resources_ ++ flat_map (fun r => List.map (synthesize_junction_resource (name r)) (many_through r)) resources_)%list.
