(* ===== verification/SpacedWords.v ===== *)
(** Texts that are words with single spaces between them: where a word occurs in
    such a text, and what the token scan of the parsers finds there. *)
From S2P Require Import Prelude Str Fmt Lines Lex.

Abbreviation words := (Forall (fun w => word w = true)).

Lemma word_lacks_space w : word w = true -> lacks " " w.
Proof. unfold word. intros [_ H]%andb_true_iff. eapply str_all_impl; [|exact H]. intros b. by_bytes b. Qed.
Lemma word_nonempty w : word w = true -> w <> "".
Proof. by intros H ->. Qed.
Lemma words_edges ws : words ws -> ws <> [] -> edges_ok (join " " ws) = true.
Proof.
  induction 1 as [|w ws Hw Hws IH]; [done|]. intros _. pose proof (word_edges _ Hw). destruct ws as [|w' ws]; [done|].
  rewrite join_cons by done. by apply (edges_ok_mid w " "), IH.
Qed.
Lemma join_words_app ws ws' : ws <> [] -> ws' <> [] -> join " " (ws ++ ws') = join " " ws +:+ " " +:+ join " " ws'.
Proof.
  intros Hne Hne'. induction ws as [|w ws IH]; [done|]. cbn [app]. rewrite join_cons by by destruct ws.
  destruct ws as [|w' ws]; [done|]. by rewrite IH, (join_cons " " w), !sapp_assoc.
Qed.

(** A byte inside the first of two texts. *)
Lemma drop_inside k w r : k < str_len w -> exists b t, str_drop k (w +:+ r) = String b (t +:+ r) /\ byte_at w k = Some b.
Proof.
  revert k. induction w as [|b w IH]; intros k H; [cbn in H; lia|]. destruct k as [|k]; [by exists b, w|].
  cbn [str_len] in H. destruct (IH k) as (c & t & E & Eb); [lia|]. by exists c, t.
Qed.
Lemma drop_past k w r : str_len w <= k -> str_drop k (w +:+ r) = str_drop (k - str_len w) r.
Proof. intros H. replace k with (str_len w + (k - str_len w)) at 1 by lia. by rewrite <-drop_drop, drop_app. Qed.
Lemma word_byte w k b : word w = true -> byte_at w k = Some b -> (b =? " ")%char = false.
Proof. intros H E. pose proof (str_all_byte_at _ _ _ _ (word_lacks_space w H) E) as Hb. by apply negb_true_iff in Hb. Qed.

(** ** Occurrences *)

Lemma first_word kw ws : word kw = true -> words ws -> starts_with (kw +:+ " ") (join " " ws) = true ->
  exists l, ws = kw :: l /\ l <> [].
Proof.
  intros Hk Hws (t & E)%starts_with_iff. rewrite sapp_assoc in E. destruct Hws as [|w l Hw Hl]; [by destruct kw|].
  pose proof (f_equal (split_once " ") E) as E'. change (" " +:+ t) with (String " " t) in E'.
  rewrite (split_once_app " " kw) in E' by by apply word_lacks_space. destruct l as [|w' l]; cbn [join] in E'.
  - by rewrite split_once_lacks in E' by by apply word_lacks_space.
  - change (w +:+ " " +:+ ?r) with (w +:+ String " " r) in E'. rewrite split_once_app in E' by by apply word_lacks_space.
    injection E' as -> _. by exists (w' :: l).
Qed.

(** A word with a space on both sides is one of the words, where it stands. *)
Lemma spaced_word kw ws : word kw = true -> words ws -> forall k, starts_with (" " +:+ kw +:+ " ") (str_drop k (join " " ws)) = true ->
  exists l l', ws = (l ++ kw :: l')%list /\ l <> [] /\ l' <> [] /\ k = str_len (join " " l).
Proof.
  intros Hk. induction 1 as [|w ws Hw Hws IH]; intros k H; [by rewrite drop_nil in H|].
  assert (Hin : k < str_len w -> False).
  { intros Hlt. assert (exists r, join " " (w :: ws) = w +:+ r) as [r Er] by (destruct ws; cbn [join]; [exists ""; by rewrite sapp_nil_r|by eexists]).
    destruct (drop_inside k w r Hlt) as (b & t & E & Eb). rewrite Er, E in H. cbn [starts_with String.append] in H.
    apply (word_byte _ _ _ Hw) in Eb. by rewrite Ascii.eqb_sym, Eb in H. }
  destruct ws as [|w' ws].
  { cbn [join] in H. rewrite <-(sapp_nil_r w), drop_past, drop_nil in H by lia. done. }
  rewrite join_cons in H by done. rewrite drop_past in H by lia. destruct (k - str_len w) as [|j] eqn:Ej.
  - rewrite drop_0 in H. cbn [starts_with String.append andb] in H. apply first_word in H as (l & E & Hl); [|done..].
    exists [w], l. rewrite E. split_and!; try done. cbn. lia.
  - cbn [String.append str_drop] in H. apply IH in H as (l & l' & E & Hl & Hl' & Hj). exists (w :: l), l'. rewrite E. split_and!; try done.
    rewrite join_cons, len_app by done. cbn [String.append str_len]. lia.
Qed.
Lemma no_spaced_word kw ws k : word kw = true -> words ws -> ~ In kw ws -> starts_with (" " +:+ kw +:+ " ") (str_drop k (join " " ws)) = false.
Proof.
  intros Hk Hws Hn. apply not_true_is_false. intros (l & l' & -> & _)%spaced_word; [|done..]. apply Hn, in_app_iff. right. by left.
Qed.

(** What follows the last space. *)
Lemma not_lacks_space a b : str_all (fun c => negb (c =? " ")%char) (a +:+ String " " b) = false.
Proof. rewrite str_all_app. cbn. apply andb_false_r. Qed.
Lemma after_last_space a b w w' : lacks " " w -> lacks " " w' -> a +:+ " " +:+ w = b +:+ " " +:+ w' -> w = w'.
Proof.
  intros Hw Hw'. revert b. induction a as [|c a IH]; intros [|d b] E; cbn [String.append] in E.
  - by injection E.
  - injection E as _ ->. by rewrite not_lacks_space in Hw.
  - injection E as _ <-. by rewrite not_lacks_space in Hw'.
  - injection E as _ E. by apply (IH b).
Qed.
Lemma not_last_word kw ws : word kw = true -> words ws -> ~ In kw ws -> strip_suffix (" " +:+ kw) (join " " ws) = None.
Proof.
  intros Hk Hws Hn. apply strip_suffix_None. intros t E. pose proof (word_lacks_space _ Hk) as Hl.
  destruct ws as [|w ws _] using rev_ind; [by destruct t|]. apply Forall_app in Hws as [Hws Hw]. apply Forall_cons in Hw as [Hw _].
  pose proof (word_lacks_space _ Hw) as Hlw. destruct ws as [|w0 ws].
  - cbn [app join] in E. rewrite E, str_all_app in Hlw. by apply andb_true_iff in Hlw as [_ ?].
  - rewrite join_snoc in E by done. apply after_last_space in E as ->; [|done..]. apply Hn, in_app_iff. right. by left.
Qed.

(** ** The token scan *)

Lemma find_token_none text needle : (forall k, starts_with needle (str_drop k text) = false) -> find_token text needle = None.
Proof.
  unfold find_token. generalize 0%Z. generalize 0. induction text as [|b s IH]; intros i d H; [done|]. cbn [find_token_go].
  destruct (str_len needle <=? _)%nat; [|done]. pose proof (H 0) as H0. rewrite drop_0 in H0. rewrite H0, andb_false_r. apply IH. intros k. apply (H (S k)).
Qed.
(** The depth of brackets after a text. *)
Fixpoint depth_after (d : Z) (s : string) : Z := match s with "" => d | String b r => depth_after (depth_step d b) r end.
Lemma find_token_first a needle r : (forall k, k < str_len a -> starts_with needle (str_drop k (a +:+ needle +:+ r)) = false) ->
  depth_after 0 a = 0%Z -> (match needle with String b _ => negb (is_open b) && negb (is_close b) | "" => false end = true) ->
  find_token (a +:+ needle +:+ r) needle = Some (str_len a).
Proof.
  unfold find_token. intros H Hd Hn.
  assert (Hgo : forall a i d, (forall k, k < str_len a -> starts_with needle (str_drop k (a +:+ needle +:+ r)) = false) -> depth_after d a = 0%Z ->
    find_token_go (a +:+ needle +:+ r) needle d i = Some (i + str_len a)).
  2: { by rewrite Hgo. }
  clear a H Hd. induction a as [|b a IH]; intros i d H Hd.
  - cbn [String.append depth_after] in *. subst d. destruct needle as [|c needle]; [done|]. apply andb_true_iff in Hn as [Ho%negb_true_iff Hc%negb_true_iff].
    cbn [String.append find_token_go]. change (String c (needle +:+ r)) with (String c needle +:+ r).
    rewrite (proj2 (Nat.leb_le _ _)) by (rewrite len_app; lia). unfold depth_step. rewrite Ho, Hc, Z.eqb_refl, starts_with_app. cbn. f_equal. lia.
  - cbn [String.append find_token_go]. rewrite (proj2 (Nat.leb_le _ _)) by (cbn [str_len]; rewrite !len_app; lia).
    pose proof (H 0) as H0. rewrite drop_0 in H0. cbn [String.append] in H0. rewrite H0, andb_false_r by (cbn; lia).
    replace (i + str_len (String b a)) with (S i + str_len a) by (cbn; lia). apply IH; [|exact Hd]. intros k Hk. apply (H (S k)). cbn. lia.
Qed.

(** A text without the needle, before a space or the end. *)
Lemma calm needle s r : contains needle s = false -> lacks " " needle -> (match r with "" => True | String b _ => b = " "%char end) ->
  forall k, k < str_len s -> starts_with needle (str_drop k (s +:+ r)) = false.
Proof.
  intros Hc Hl Hr k Hk. apply not_true_is_false. intros (t & E)%starts_with_iff.
  assert (Es : str_drop k (s +:+ r) = str_drop k s +:+ r).
  { clear -Hk. revert k Hk. induction s as [|b s IH]; intros k Hk; [cbn in Hk; lia|]. destruct k as [|k]; [done|]. cbn [String.append str_drop]. apply IH. cbn in Hk. lia. }
  rewrite Es in E. assert (Hne : str_drop k s <> "") by (intros E0; pose proof (len_drop k s) as L; rewrite E0 in L; cbn in L; lia).
  assert (Hin : forall x needle t, x +:+ r = needle +:+ t -> lacks " " needle -> x <> "" -> exists t', x = needle +:+ t').
  { clear -Hr. induction x as [|b x IH]; intros n t E Hl Hne; [done|]. destruct n as [|c n]; [by exists (String b x)|]. cbn [String.append] in E. injection E as <- E.
    cbn [str_all] in Hl. apply andb_true_iff in Hl as [_ Hl]. destruct x as [|b' x].
    - cbn [String.append] in E. destruct n as [|c n]; [by exists ""|]. destruct r as [|d r]; [done|]. subst d. injection E as <- _. done.
    - destruct (IH n t E Hl) as (t' & ->); [done|]. by exists t'. }
  destruct (Hin _ _ _ E Hl Hne) as (t' & E'). apply not_true_iff_false in Hc. apply Hc, contains_iff. exists (str_take k s), t'. by rewrite <-E', take_drop_id.
Qed.
