(* ===== verification/FieldExact.v ===== *)
(** A field line an author writes, through the parser and the lowering.

    The line is [<name>: <type> <decorators> <modifiers> = <default>], words with
    single spaces between them; decorators and modifiers come in any order. *)
From S2P Require Import Prelude Str Fmt Lines Lex Helpers Ir Catalog TypeToken SpacedWords.
From S2P Require FieldConstraints FieldSyntax QueryLowering CommandLowering ResourceLowering Expr.
Import FieldConstraints (no_constraints, extract_plain).

Module syntax := FieldSyntax.

(** * The line *)

Inductive Modifier := MRequired | MOptional | MUnique.
Inductive Decorator := DSlug | DFullText | DOwnerAxis (column : string).
Record FieldText := {
  ft_name : string; ft_type : TypeRef; ft_decorators : list Decorator; ft_modifiers : list Modifier; ft_default : option string
}.

Definition modifier_word (m : Modifier) : string := match m with MRequired => "required" | MOptional => "optional" | MUnique => "unique" end.
Definition decorator_words (d : Decorator) : list string :=
  match d with DSlug => ["@slug"] | DFullText => ["@full_text"] | DOwnerAxis c => ["@owner_axis(through:"; c +:+ ")"] end.
Definition type_words (f : FieldText) : list string := split_whitespace (default "" (show_type (ft_type f))).
Definition head_words (f : FieldText) : list string :=
  (type_words f ++ flat_map decorator_words (ft_decorators f) ++ List.map modifier_word (ft_modifiers f))%list.
Definition default_words (f : FieldText) : list string := match ft_default f with Some d => ["="; d] | None => [] end.
Definition tail_words (f : FieldText) : list string := (head_words f ++ default_words f)%list.
Definition show_field (f : FieldText) : string := ft_name f +:+ ": " +:+ join " " (tail_words f).

(** Words with a meaning after the colon. *)
Definition reserved : list string :=
  ["schedule_rule"; "computed_date"; "derived"; "="; "min"; "max"; "pattern"; "between"; "length"; "in"; "validate"; "validator";
   "required"; "optional"; "unique"; "@slug"].
Definition is_reserved (w : string) : bool := existsb (String.eqb w) reserved.

(** A spelling no clause can be mistaken in. *)
Definition plain_type (s : string) : bool :=
  let ws := split_whitespace s in
  match ws with [] => false | _ => true end && forallb (fun w => word w && negb (is_reserved w)) ws && (join " " ws =? s) &&
  (depth_after 0 s =? 0)%Z && forallb (fun k => negb (contains k s)) ["@cap.PII("; "@full_text"; "@owner_axis"; "target "].
Definition not_slug (d : Decorator) : bool := match d with DSlug => false | _ => true end.
Definition is_reference (t : TypeRef) : bool := match t with UserDefined _ => true | _ => false end.
(** [@full_text] and [@owner_axis] at most once each. *)
Definition decorators_ok (t : TypeRef) (ds : list Decorator) : bool :=
  match List.filter not_slug ds with
  | [] | [DFullText] => true
  | [DOwnerAxis c] | [DOwnerAxis c; DFullText] | [DFullText; DOwnerAxis c] => Expr.ident c && is_reference t
  | _ => false
  end.
Definition default_ok (d : string) : bool :=
  word d && negb (is_reserved d) && negb (contains "@cap.PII(" d) && match parse_default d with Some _ => true | None => false end.
Definition modifiers_ok (ms : list Modifier) : bool :=
  match ms with
  | [] | [_] => true
  | [a; b] => negb (modifier_word a =? modifier_word b)
  | [a; b; c] => negb (modifier_word a =? modifier_word b) && negb (modifier_word a =? modifier_word c) && negb (modifier_word b =? modifier_word c)
  | _ => false
  end.
Definition field_ok (f : FieldText) : bool :=
  Expr.ident (ft_name f) && match show_type (ft_type f) with Some s => plain_type s | None => false end &&
  decorators_ok (ft_type f) (ft_decorators f) && modifiers_ok (ft_modifiers f) &&
  match ft_default f with Some d => default_ok d | None => true end && str_all (fun b => negb (b =? "#")%char) (show_field f).

(** ** What it says *)

Definition has_modifier (m : Modifier) (f : FieldText) : bool := existsb (fun m' => modifier_word m' =? modifier_word m) (ft_modifiers f).
Definition has_slug (f : FieldText) : bool := existsb (fun d => negb (not_slug d)) (ft_decorators f).
Definition has_full_text (f : FieldText) : bool := existsb (fun d => match d with DFullText => true | _ => false end) (ft_decorators f).
Definition owner_column (f : FieldText) : option string :=
  head (omap (fun d => match d with DOwnerAxis c => Some c | _ => None end) (ft_decorators f)).
Definition field_said (line : SourceLine) (f : FieldText) (earlier : list string) : syntax.ResourceFieldDecl := {|
  syntax.name := ft_name f; syntax.type_text := default "" (show_type (ft_type f)); syntax.required := has_modifier MRequired f;
  syntax.optional := has_modifier MOptional f; syntax.unique := has_modifier MUnique f; syntax.slug := has_slug f;
  syntax.fd_default := ft_default f; syntax.derived_from := None; syntax.computed_date := None; syntax.constraints := no_constraints;
  syntax.full_text := has_full_text f; syntax.owner_axis := owner_column f; syntax.cross_feature_target := None;
  syntax.previously := earlier; syntax.span := syntax.span_of_line line |}.
(** The declaration the emitters read. *)
Definition field_declared (f : FieldText) : Field := {|
  fd_name := ft_name f; type_ref := ft_type f; required := has_modifier MRequired f; unique := has_modifier MUnique f;
  fd_default := ft_default f ≫= parse_default; derived_from := None; full_text := has_full_text f; cross_feature_target := None;
  fd_constraints := default_constraints; owner_axis := (fun c => {| through_column := c |}) <$> owner_column f |}.

(** * The tail of the line *)

(** A word that is none of a list of literals. *)
Ltac not_listed := let H := fresh in intros H; cbn in H; repeat (destruct H as [H|H]; [discriminate H|]); done.

Lemma is_reserved_In w : is_reserved w = true <-> In w reserved.
Proof. unfold is_reserved. rewrite existsb_exists. split; [by intros (x & H & ->%String.eqb_eq)|]. intros H. exists w. by rewrite String.eqb_refl. Qed.

Record type_facts (s : string) (ws : list string) : Prop := {
  tf_words : words ws; tf_some : ws <> []; tf_join : join " " ws = s; tf_depth : depth_after 0 s = 0%Z;
  tf_free : forall w, In w reserved -> ~ In w ws;
  tf_pii : contains "@cap.PII(" s = false; tf_full_text : contains "@full_text" s = false;
  tf_owner : contains "@owner_axis" s = false; tf_target : contains "target " s = false
}.
Lemma plain_type_facts s : plain_type s = true -> type_facts s (split_whitespace s).
Proof.
  unfold plain_type. intros H. bool_prop. cbn [forallb] in *. bool_prop. rewrite forallb_forall in H3.
  assert (Hw : words (split_whitespace s)) by (apply List.Forall_forall; intros w Hin; by apply H3, andb_true_iff in Hin as [? _]).
  split; try done; [by intros E; rewrite E in *|by apply Z.eqb_eq|].
  intros w Hr Hin. apply H3, andb_true_iff in Hin as [_ Hn%negb_true_iff]. by apply is_reserved_In in Hr; rewrite Hr in Hn.
Qed.

(** ** Decorators and modifiers *)

Definition decorator_ok (d : Decorator) : bool := match d with DOwnerAxis c => Expr.ident c | _ => true end.
Lemma decorators_each t ds : decorators_ok t ds = true -> forall d, In d ds -> decorator_ok d = true.
Proof.
  unfold decorators_ok. intros H d Hin. destruct d as [| |c]; [done..|].
  assert (Hf : In (DOwnerAxis c) (List.filter not_slug ds)) by (by apply filter_In).
  destruct (List.filter not_slug ds) as [|[| |c1] [|[| |c2] [|? ?]]]; try done; cbn [In] in Hf;
    repeat match goal with H : _ \/ _ |- _ => destruct H as [H|H] end; try done; injection Hf as ->; bool_prop; done.
Qed.
Lemma column_word c : Expr.ident c = true -> word (c +:+ ")") = true.
Proof.
  intros [H Hne]%Expr.ident_chars. unfold word. rewrite str_all_app. destruct c as [|b c]; [done|]. apply andb_true_iff. split; [done|].
  apply andb_true_iff. split; [|done]. eapply str_all_impl; [|exact H]. intros b'. by_bytes b'.
Qed.
Lemma column_not_reserved c w : In w reserved -> w <> c +:+ ")".
Proof.
  intros Hin ->. pose proof (strip_suffix_app ")" c) as Hs.
  assert (Hall : forall w, In w reserved -> strip_suffix ")" w = None) by (intros w Hw; cbn in Hw; repeat (destruct Hw as [<-|Hw]; [done|]); done).
  rewrite (Hall _ Hin) in Hs. done.
Qed.
Lemma decorator_words_words d : decorator_ok d = true -> words (decorator_words d).
Proof. destruct d as [| |c]; cbn; intros H; repeat constructor. by apply column_word. Qed.
Lemma decorator_words_free d w : In w reserved -> w <> "@slug" -> ~ In w (decorator_words d).
Proof.
  intros Hr Hs Hin. destruct d as [| |c]; cbn in Hin; repeat match goal with H : _ \/ _ |- _ => destruct H as [H|H] end; subst; try done.
  - cbn in Hr. repeat (destruct Hr as [Hr|Hr]; [discriminate Hr|]). done.
  - cbn in Hr. repeat (destruct Hr as [Hr|Hr]; [discriminate Hr|]). done.
  - by apply (column_not_reserved c _ Hr).
Qed.
Lemma modifier_is_word m : word (modifier_word m) = true.
Proof. by destruct m. Qed.

(** ** Depth *)

Lemma depth_after_app d a b : depth_after d (a +:+ b) = depth_after (depth_after d a) b.
Proof. revert d. induction a as [|c a IH]; intros d; [done|]. apply IH. Qed.
Lemma depth_after_ident d c : str_all Expr.ident_char c = true -> depth_after d c = d.
Proof.
  revert d. induction c as [|b c IH]; intros d; [done|]. cbn [str_all depth_after]. intros [Hb Hc]%andb_true_iff. rewrite IH by done.
  unfold depth_step. assert (is_open b || is_close b = false) as [-> ->]%orb_false_iff by (revert Hb; by_bytes b). done.
Qed.
Lemma depth_join ls : Forall (fun ws => ws <> [] /\ depth_after 0 (join " " ws) = 0%Z) ls -> depth_after 0 (join " " (List.concat ls)) = 0%Z.
Proof.
  induction 1 as [|ws ls [Hne Hd] Hls IH]; [done|]. cbn [List.concat]. destruct (List.concat ls) as [|w l] eqn:E; [by rewrite app_nil_r|].
  rewrite join_words_app by done. by rewrite !depth_after_app, Hd, <-depth_after_app.
Qed.
Lemma decorator_depth d : decorator_ok d = true -> decorator_words d <> [] /\ depth_after 0 (join " " (decorator_words d)) = 0%Z.
Proof.
  destruct d as [| |c]; intros H; [done..|]. split; [done|]. cbn [decorator_words join]. rewrite !depth_after_app. cbn in H.
  apply Expr.ident_chars in H as [H _]. by rewrite (depth_after_ident _ c H).
Qed.

(** ** The words of a line *)

Section line.
Context (f : FieldText) (s : string) (Hs : show_type (ft_type f) = Some s) (Hok : field_ok f = true).

Lemma field_ok_parts : Expr.ident (ft_name f) = true /\ type_facts s (type_words f) /\ decorators_ok (ft_type f) (ft_decorators f) = true /\
  modifiers_ok (ft_modifiers f) = true /\ match ft_default f with Some d => default_ok d = true | None => True end /\
  str_all (fun b => negb (b =? "#")%char) (show_field f) = true.
Proof using Hs Hok.
  unfold field_ok, type_words in *. rewrite Hs in *. cbn [default]. bool_prop. split_and!; try done; [by apply plain_type_facts|by destruct (ft_default f)].
Qed.

Definition bare_words : list string := (type_words f ++ flat_map decorator_words (ft_decorators f))%list.
Lemma head_words_eq : head_words f = (bare_words ++ List.map modifier_word (ft_modifiers f))%list.
Proof. unfold head_words, bare_words. by rewrite app_assoc. Qed.

Lemma bare_ok : words bare_words /\ bare_words <> [] /\ forall w, In w reserved -> w <> "@slug" -> ~ In w bare_words.
Proof using Hs Hok.
  destruct field_ok_parts as (_ & [Hw Hne _ _ Hf _ _ _ _] & Hd & _). unfold bare_words. split_and!.
  - apply Forall_app. split; [done|]. apply List.Forall_forall. intros w (d & Hin & Hw')%in_flat_map.
    pose proof (decorator_words_words d (decorators_each _ _ Hd _ Hin)) as Hd'. rewrite List.Forall_forall in Hd'. by apply Hd'.
  - by destruct (type_words f).
  - intros w Hr Hns [Hin|(d & _ & Hin)%in_flat_map]%in_app_iff; [by apply (Hf w)|]. by apply (decorator_words_free d w).
Qed.
Lemma head_ok : words (head_words f) /\ head_words f <> [] /\ depth_after 0 (join " " (head_words f)) = 0%Z /\
  forall w, In w reserved -> ~ In w ["required"; "optional"; "unique"; "@slug"] -> ~ In w (head_words f).
Proof using Hs Hok.
  destruct bare_ok as (Hw & Hne & Hf). destruct field_ok_parts as (_ & [_ Hne' Hj Hd _ _ _ _ _] & Hdec & _). rewrite head_words_eq. split_and!.
  - apply Forall_app. split; [done|]. apply List.Forall_forall. intros w (m & <- & _)%in_map_iff. apply modifier_is_word.
  - by destruct bare_words.
  - replace (bare_words ++ _)%list with (List.concat (type_words f :: List.map decorator_words (ft_decorators f) ++ List.map (fun m => [modifier_word m]) (ft_modifiers f))).
    + apply depth_join. constructor; [by rewrite Hj|]. apply Forall_app. split; apply List.Forall_forall; intros ws (x & <- & Hin)%in_map_iff.
      * apply decorator_depth. by apply (decorators_each _ _ Hdec).
      * by destruct x.
    + unfold bare_words. cbn [List.concat]. rewrite concat_app, <-flat_map_concat_map, <-app_assoc. do 2 f_equal.
      induction (ft_modifiers f) as [|m ms IH]; [done|]. cbn. by f_equal.
  - intros w Hr Hn [Hin|(m & <- & _)%in_map_iff]%in_app_iff.
    + apply (Hf w); [done| |done]. intros ->. apply Hn. cbn. tauto.
    + apply Hn. destruct m; cbn; tauto.
Qed.
Lemma tail_ok_words : words (tail_words f) /\ forall w, In w reserved -> ~ In w ["required"; "optional"; "unique"; "@slug"; "="] -> ~ In w (tail_words f).
Proof using Hs Hok.
  destruct head_ok as (Hw & _ & _ & Hf). destruct field_ok_parts as (_ & _ & _ & _ & Hd & _). unfold tail_words, default_words. split.
  - apply Forall_app. split; [done|]. destruct (ft_default f) as [d|]; [|done]. unfold default_ok in Hd. bool_prop. by repeat constructor.
  - intros w Hr Hn [Hin|Hin]%in_app_iff; [apply (Hf w); try done; cbn in *; tauto|]. destruct (ft_default f) as [d|]; [|done].
    cbn in Hin. destruct Hin as [<-|[<-|[]]]; [apply Hn; cbn; tauto|]. unfold default_ok in Hd. bool_prop. apply is_reserved_In in Hr. congruence.
Qed.

(** ** The clauses that are not there *)

Lemma no_token kw needle ws : In kw reserved -> words ws -> ~ In kw ws -> (exists r, needle = " " +:+ kw +:+ " " +:+ r) ->
  find_token (join " " ws) needle = None.
Proof.
  intros Hr Hw Hn (r & ->). apply find_token_none. intros k. apply not_true_is_false. intros (t & E)%starts_with_iff.
  assert (Hk : word kw = true) by (cbn in Hr; repeat (destruct Hr as [<-|Hr]; [done|]); done).
  pose proof (no_spaced_word kw ws k Hk Hw Hn) as Hno. rewrite E in Hno.
  replace ((" " +:+ kw +:+ " " +:+ r) +:+ t) with ((" " +:+ kw +:+ " ") +:+ (r +:+ t)) in Hno by (by rewrite !sapp_assoc).
  by rewrite starts_with_app in Hno.
Qed.
Lemma not_first kw ws : In kw reserved -> words ws -> ~ In kw ws -> strip_prefix (kw +:+ " ") (join " " ws) = None.
Proof.
  intros Hr Hw Hn. destruct (strip_prefix _ _) as [t|] eqn:E; [|done]. apply strip_prefix_Some in E.
  assert (Hk : word kw = true) by (cbn in Hr; repeat (destruct Hr as [<-|Hr]; [done|]); done).
  destruct (first_word kw ws Hk Hw) as (l & -> & _); [rewrite E; apply starts_with_app|]. exfalso. apply Hn. by left.
Qed.
Lemma not_detected kw : kw = "schedule_rule" \/ kw = "computed_date" -> syntax.detect (join " " (tail_words f)) kw = None.
Proof using Hs Hok.
  intros Hk. destruct tail_ok_words as [Hw Hf].
  assert (Hr : In kw reserved /\ ~ In kw ["required"; "optional"; "unique"; "@slug"; "="]).
  { destruct Hk as [-> | ->]; split; cbn; try tauto; not_listed. }
  destruct Hr as [Hr Hn]. unfold syntax.detect. rewrite not_first by (done || by apply Hf).
  rewrite (no_token kw) by (done || (by apply Hf) || (exists ""; by rewrite sapp_nil_r)). done.
Qed.
Lemma no_constraint ws : words ws -> (forall w, In w reserved -> ~ In w ["required"; "optional"; "unique"; "@slug"] -> ~ In w ws) ->
  FieldConstraints.find_constraint_keyword (join " " ws) = None.
Proof.
  intros Hw Hf. unfold FieldConstraints.find_constraint_keyword, FieldConstraints.needles. cbn [foldl].
  assert (Hno : forall kw, In kw ["min"; "max"; "pattern"; "between"; "length"; "in"; "validate"; "validator"] -> find_token (join " " ws) (" " +:+ kw +:+ " ") = None).
  { intros kw Hk. apply (no_token kw); [cbn in *; tauto|done| |by exists ""; rewrite sapp_nil_r]. apply Hf; [cbn in *; tauto|].
    intros H. cbn in Hk, H. repeat (destruct Hk as [<-|Hk]; [repeat (destruct H as [H|H]; [discriminate H|]); done|]). done. }
  pose proof (Hno "min" ltac:(cbn; tauto)) as E0.
  pose proof (Hno "max" ltac:(cbn; tauto)) as E1.
  pose proof (Hno "pattern" ltac:(cbn; tauto)) as E2.
  pose proof (Hno "between" ltac:(cbn; tauto)) as E3.
  pose proof (Hno "length" ltac:(cbn; tauto)) as E4.
  pose proof (Hno "in" ltac:(cbn; tauto)) as E5.
  pose proof (Hno "validate" ltac:(cbn; tauto)) as E6.
  pose proof (Hno "validator" ltac:(cbn; tauto)) as E7.
  cbn [String.append] in *. by rewrite E0, E1, E2, E3, E4, E5, E6, E7.
Qed.

(** ** Modifiers, default, type *)

Lemma trim_end_edges t : edges_ok t = true -> trim_end t = t.
Proof.
  intros H. pose proof (trim_edges t H) as E. unfold trim in E. rewrite trim_start_ws_len in E; [done|].
  apply edges_ok_iff in H as [(b & r & -> & Hb) _]. by apply ws_len_graphic.
Qed.
Lemma peel_one fuel ws m acc : words ws -> ws <> [] ->
  syntax.split_modifiers_go (S fuel) (join " " (ws ++ [modifier_word m])) acc = syntax.split_modifiers_go fuel (join " " ws) (acc ++ [modifier_word m]).
Proof.
  intros Hw Hne. cbn [syntax.split_modifiers_go]. rewrite trim_end_edges.
  2: { apply words_edges; [|by destruct ws]. apply Forall_app. split; [done|]. constructor; [apply modifier_is_word|done]. }
  rewrite join_snoc by done. destruct m; cbn [modifier_word].
  - by rewrite (strip_suffix_app " required" (join " " ws) : strip_suffix _ (_ +:+ " " +:+ "required") = _).
  - rewrite (strip_suffix_other (join " " ws) " optional" " required" eq_refl eq_refl : strip_suffix _ (_ +:+ " " +:+ "optional") = _).
    by rewrite (strip_suffix_app " optional" (join " " ws) : strip_suffix _ (_ +:+ " " +:+ "optional") = _).
  - rewrite (strip_suffix_other (join " " ws) " unique" " required" eq_refl eq_refl : strip_suffix _ (_ +:+ " " +:+ "unique") = _).
    rewrite (strip_suffix_other (join " " ws) " unique" " optional" eq_refl eq_refl : strip_suffix _ (_ +:+ " " +:+ "unique") = _).
    by rewrite (strip_suffix_app " unique" (join " " ws) : strip_suffix _ (_ +:+ " " +:+ "unique") = _).
Qed.
Lemma peel_none ws : words ws -> ws <> [] -> (forall w, In w ["required"; "optional"; "unique"] -> ~ In w ws) ->
  trim_end (join " " ws) = join " " ws /\ strip_suffix " required" (join " " ws) = None /\ strip_suffix " optional" (join " " ws) = None /\
  strip_suffix " unique" (join " " ws) = None.
Proof.
  intros Hw Hne Hf. split_and!; [by apply trim_end_edges, words_edges|..].
  - apply (not_last_word "required"); [done..|]. apply Hf. cbn; tauto.
  - apply (not_last_word "optional"); [done..|]. apply Hf. cbn; tauto.
  - apply (not_last_word "unique"); [done..|]. apply Hf. cbn; tauto.
Qed.
Lemma peel_all ws ms : words ws -> ws <> [] -> (forall w, In w ["required"; "optional"; "unique"] -> ~ In w ws) ->
  forall fuel acc, List.length ms <= fuel ->
  syntax.split_modifiers_go fuel (join " " (ws ++ List.map modifier_word ms)) acc = (join " " ws, (acc ++ List.rev (List.map modifier_word ms))%list).
Proof.
  intros Hw Hne Hf. induction ms as [|m ms IH] using rev_ind; intros fuel acc Hl.
  - cbn [List.map List.rev]. rewrite !app_nil_r. destruct (peel_none ws Hw Hne Hf) as (Ht & Hr & Ho & Hu).
    destruct fuel as [|fuel]; cbn [syntax.split_modifiers_go]; rewrite Ht; [done|]. by rewrite Hr, Ho, Hu.
  - rewrite length_app in Hl. cbn in Hl. destruct fuel as [|fuel]; [lia|]. rewrite map_app, app_assoc. cbn [List.map].
    rewrite peel_one; [rewrite IH by lia|..].
    + by rewrite rev_app_distr, <-app_assoc.
    + apply Forall_app. split; [done|]. apply List.Forall_forall. intros w (x & <- & _)%in_map_iff. apply modifier_is_word.
    + by destruct ws.
Qed.

Lemma words_len ws : words ws -> List.length ws <= str_len (join " " ws).
Proof.
  induction 1 as [|w ws Hw Hws IH]; [done|]. pose proof (word_nonempty _ Hw). assert (1 <= str_len w) by (destruct w; [done|cbn; lia]).
  destruct ws as [|w' ws]; [done|]. rewrite join_cons, !len_app by done. cbn [List.length str_len] in *. lia.
Qed.
Definition modifier_text : string := join " " (List.rev (List.map modifier_word (ft_modifiers f))).
Lemma modifiers_split : syntax.split_type_and_modifiers (join " " (head_words f)) = (join " " bare_words, modifier_text).
Proof using Hs Hok.
  destruct bare_ok as (Hw & Hne & Hf). unfold syntax.split_type_and_modifiers. rewrite head_words_eq, peel_all; [done|done|done| |].
  - intros w Hin. apply Hf; [cbn in *; tauto|]. intros ->. cbn in Hin. repeat (destruct Hin as [Hin|Hin]; [discriminate Hin|]). done.
  - destruct head_ok as (Hh & _). apply words_len in Hh. rewrite head_words_eq in Hh. rewrite length_app, length_map in Hh. lia.
Qed.

Lemma tail_reads line : syntax.split_resource_field_after line (join " " (tail_words f)) =
  Ok {| syntax.t_type_text := join " " bare_words; syntax.t_modifiers_text := modifier_text; syntax.t_default := ft_default f;
        syntax.t_derived_from := None; syntax.t_computed_date := None; syntax.t_constraints := no_constraints |}.
Proof using Hs Hok.
  destruct tail_ok_words as [Hw Hf]. destruct head_ok as (Hh & Hne & Hd & Hfh). unfold syntax.split_resource_field_after.
  assert (Ht : tail_words f <> []) by (unfold tail_words; by destruct (head_words f)).
  rewrite trim_edges by (by apply words_edges). unfold syntax.extract_computed_date.
  rewrite (not_detected "schedule_rule"), (not_detected "computed_date") by tauto. cbn [mbind result_bind].
  rewrite (no_token "derived" " derived from "); [|cbn; tauto|done| |by exists "from "].
  2: { apply Hf; [cbn; tauto|]. not_listed. }
  cbn [syntax.cut].
  assert (Hcut : syntax.cut (join " " (tail_words f)) " = " (syntax.find_default_assignment (join " " (tail_words f))) = (join " " (head_words f), ft_default f)).
  { unfold tail_words, default_words, syntax.find_default_assignment. destruct (ft_default f) as [d|] eqn:Ed.
    - rewrite join_words_app by done. change (join " " ["="; d]) with ("= " +:+ d). change (" " +:+ "= " +:+ d) with (" = " +:+ d).
      rewrite find_token_first; [|clear Hd|exact Hd|done].
      + cbn [syntax.cut]. rewrite take_app, trim_end_edges by (by apply words_edges). rewrite <-drop_drop, drop_app. cbn [str_len str_drop String.append].
        rewrite trim_edges; [done|]. apply word_edges. destruct field_ok_parts as (_ & _ & _ & _ & Hdef & _). rewrite Ed in Hdef. unfold default_ok in Hdef. by bool_prop.
      + intros k Hk. apply not_true_is_false. intros H.
        replace (join " " (head_words f) +:+ " = " +:+ d) with (join " " (head_words f ++ ["="; d])) in H by (by rewrite join_words_app).
        unfold tail_words, default_words in Hw. rewrite Ed in Hw.
        apply (spaced_word "=") in H as (l & l' & El & Hl & Hl' & ->); [|done..].
        assert (In "=" (head_words f)) as Hin.
        { assert (Hlen : List.length l < List.length (head_words f)).
          { destruct (decide (List.length l < List.length (head_words f))) as [?|Hge]; [done|]. exfalso. apply Nat.nlt_ge in Hge.
            assert (exists m, l = head_words f ++ m)%list as [m ->].
            { exists (drop (List.length (head_words f)) l). rewrite <-(take_drop (List.length (head_words f)) l) at 1. f_equal.
              rewrite <-(take_app_le l ("=" :: l')) by done. by rewrite <-El, take_app_length. }
            destruct m as [|w m]; [rewrite app_nil_r in Hk; lia|]. rewrite join_words_app, len_app in Hk by done. lia. }
          assert (E : nth_error (l ++ "=" :: l') (List.length l) = Some "=") by (rewrite nth_error_app2, Nat.sub_diag by lia; done).
          rewrite <-El, nth_error_app1 in E by done. by apply nth_error_In in E. }
        apply (Hfh "="); [cbn; tauto| |done]. not_listed.
    - rewrite app_nil_r. rewrite (no_token "=" " = "); [done|cbn; tauto|done| |by exists ""].
      apply Hfh; [cbn; tauto|]. not_listed. }
  rewrite Hcut. rewrite extract_plain by (by apply no_constraint). cbn [mbind result_bind]. by rewrite modifiers_split.
Qed.

(** ** Decorators *)

Fixpoint last_or (prev : option byte) (t : string) : option byte := match t with "" => prev | String b t => last_or (Some b) t end.
Lemma last_or_app prev a b : last_or prev (a +:+ b) = last_or (last_or prev a) b.
Proof. revert prev. induction a as [|c a IH]; intros prev; [done|]. apply IH. Qed.
Lemma step_calm needle b a r : (forall k, k < str_len (String b a) -> starts_with needle (str_drop k (String b a +:+ r)) = false) ->
  starts_with needle (String b (a +:+ r)) = false /\ forall k, k < str_len a -> starts_with needle (str_drop k (a +:+ r)) = false.
Proof. intros H. split; [apply (H 0); cbn; lia|]. intros k Hk. apply (H (S k)). cbn. lia. Qed.

Lemma full_text_skip line a r prev d i hit : (forall k, k < str_len a -> starts_with "@full_text" (str_drop k (a +:+ r)) = false) ->
  syntax.full_text_go line prev 0 d i hit (a +:+ r) = syntax.full_text_go line (last_or prev a) 0 (depth_after d a) (i + str_len a) hit r.
Proof.
  revert prev d i. induction a as [|b a IH]; intros prev d i H; [by rewrite Nat.add_0_r|]. apply step_calm in H as [H0 H].
  cbn [String.append syntax.full_text_go last_or depth_after str_len]. rewrite H0, andb_false_r. cbn [andb]. rewrite IH by done. f_equal. lia.
Qed.
Lemma owner_axis_skip line a r prev d i hit : (forall k, k < str_len a -> starts_with "@owner_axis" (str_drop k (a +:+ r)) = false) ->
  syntax.owner_axis_go line prev 0 d i hit (a +:+ r) = syntax.owner_axis_go line (last_or prev a) 0 (depth_after d a) (i + str_len a) hit r.
Proof.
  revert prev d i. induction a as [|b a IH]; intros prev d i H; [by rewrite Nat.add_0_r|]. apply step_calm in H as [H0 H].
  cbn [String.append syntax.owner_axis_go last_or depth_after str_len]. rewrite H0, andb_false_r. cbn [andb]. rewrite IH by done. f_equal. lia.
Qed.
Lemma owner_axis_passes line a r prev d i hit :
  syntax.owner_axis_go line prev (str_len a) d i hit (a +:+ r) = syntax.owner_axis_go line (last_or prev a) 0 d (i + str_len a) hit r.
Proof.
  revert prev i. induction a as [|b a IH]; intros prev i; [by rewrite Nat.add_0_r|]. cbn [String.append syntax.owner_axis_go last_or str_len].
  rewrite IH. f_equal. lia.
Qed.

Lemma contains_none needle t : (forall k, starts_with needle (str_drop k t) = false) -> contains needle t = false.
Proof.
  intros H. apply not_true_is_false. intros (a & b & ->)%contains_iff. specialize (H (str_len a)). by rewrite drop_app, starts_with_app in H.
Qed.
Lemma contains_word_app needle a b : contains needle a = false -> contains needle b = false -> lacks " " needle -> needle <> "" ->
  contains needle (a +:+ " " +:+ b) = false.
Proof.
  intros Ha Hb Hl Hne. apply contains_none. intros k. destruct (decide (k < str_len a)) as [Hk|Hk]; [by apply calm|].
  rewrite drop_past by lia. destruct (k - str_len a) as [|j].
  - rewrite drop_0. destruct needle as [|c n]; [done|]. cbn in Hl. apply andb_true_iff in Hl as [Hc%negb_true_iff _]. cbn [starts_with String.append]. by rewrite Hc.
  - cbn [String.append str_drop]. apply not_true_is_false. intros (t & E)%starts_with_iff. apply not_true_iff_false in Hb. apply Hb, contains_iff.
    exists (str_take j b), t. by rewrite <-E, take_drop_id.
Qed.
Lemma lacks_contains c needle t : lacks c t -> contains (String c needle) t = false.
Proof.
  intros Hl. apply not_true_is_false. intros (a & b & ->)%contains_iff. rewrite str_all_app in Hl. apply andb_true_iff in Hl as [_ Hl].
  cbn in Hl. by rewrite Ascii.eqb_refl in Hl.
Qed.
Lemma column_lacks c : Expr.ident c = true -> lacks "@" (c +:+ ")").
Proof. intros H. rewrite str_all_app, (ident_lacks "@" c H eq_refl). done. Qed.

Definition owner_text (c : string) : string := "@owner_axis(through:" +:+ " " +:+ c +:+ ")".
Lemma owner_no_full_text c : Expr.ident c = true -> contains "@full_text" (owner_text c) = false.
Proof. intros H. apply contains_word_app; try done. by apply lacks_contains, column_lacks. Qed.
Lemma owner_depth d c : Expr.ident c = true -> depth_after d (owner_text c) = d.
Proof.
  intros [H _]%Expr.ident_chars. unfold owner_text. rewrite !depth_after_app, (depth_after_ident _ c H).
  cbn. unfold depth_step. cbn. lia.
Qed.

Lemma full_text_none line t : contains "@full_text" t = false -> syntax.extract_full_text_marker line t = Ok (t, false).
Proof.
  intros H. unfold syntax.extract_full_text_marker. rewrite <-(sapp_nil_r t) at 1. rewrite full_text_skip; [done|]. by apply calm.
Qed.
(** A marker with calm text before it, and none or another decorator after. *)
Lemma full_text_found line a b : edges_ok a = true -> contains "@full_text" a = false -> depth_after 0 a = 0%Z ->
  (b = "" \/ exists b', b = " " +:+ b' /\ edges_ok b' = true /\ contains "@full_text" b' = false) ->
  syntax.extract_full_text_marker line (a +:+ " " +:+ "@full_text" +:+ b) = Ok (a +:+ b, true).
Proof.
  intros Ha Hc Hd Hb. unfold syntax.extract_full_text_marker. rewrite full_text_skip by (apply calm; done). rewrite Hd.
  change (" " +:+ "@full_text" +:+ b) with (String " " ("@full_text" +:+ b)). cbn [syntax.full_text_go]. change (depth_step 0 " ") with 0%Z.
  change (starts_with "@full_text" (String " " ("@full_text" +:+ b))) with false. cbn [andb Z.eqb].
  assert (Hw : syntax.white_after b = true) by (destruct Hb as [->|(b' & -> & _)]; done).
  assert (Hgo : syntax.full_text_go line (Some " "%char) 0 0 (S (0 + str_len a)) None ("@full_text" +:+ b) = Ok (Some (S (str_len a)))).
  { set (m := "@full_text" +:+ b). assert (starts_with "@full_text" m = true) as E by apply starts_with_app. assert (str_drop 10 m = b) as E' by done.
    change m with (String "@" ("full_text" +:+ b)). cbn [syntax.full_text_go]. change (String "@" ("full_text" +:+ b)) with m. rewrite E, E', Hw.
    change (depth_step 0 "@") with 0%Z. change (syntax.white_before (Some " "%char)) with true. cbn [andb Z.eqb String.append syntax.full_text_go].
    destruct Hb as [->|(b' & -> & _ & Hb')]; [done|]. rewrite <-(sapp_nil_r (" " +:+ b')), full_text_skip; [done|].
    apply calm; try done. by apply (contains_word_app "@full_text" "" b'). }
  rewrite Hgo. cbn [mbind result_bind]. do 2 f_equal. replace (S (str_len a)) with (str_len a + 1) by lia.
  assert (Et : str_take (str_len a + 1) (a +:+ String " " ("@full_text" +:+ b)) = a +:+ " ").
  { change (String " " ("@full_text" +:+ b)) with (" " +:+ ("@full_text" +:+ b)). rewrite <-sapp_assoc. replace (str_len a + 1) with (str_len (a +:+ " ")) by (rewrite len_app; done).
    apply take_app. }
  assert (Ed : str_drop (str_len a + 1 + 10) (a +:+ String " " ("@full_text" +:+ b)) = b).
  { rewrite <-Nat.add_assoc, <-drop_drop, drop_app. done. }
  rewrite Et, Ed, trim_end_space by done. unfold syntax.glue. assert (nonempty a = true) as -> by by destruct a. destruct Hb as [->|(b' & -> & Hb' & _)].
  - cbn. rewrite !sapp_nil_r. by apply trim_edges.
  - change (trim_start (" " +:+ b')) with (trim_start b'). rewrite trim_start_ws_len.
    2: { apply edges_ok_iff in Hb' as [(x & y & -> & Hx) _]. by apply ws_len_graphic. }
    assert (nonempty b' = true) as -> by by destruct b'. cbn [andb]. apply trim_edges. by apply (edges_ok_mid a " ").
Qed.

Lemma owner_axis_none line t : contains "@owner_axis" t = false -> syntax.extract_owner_axis_decorator line t = Ok (t, None).
Proof.
  intros H. unfold syntax.extract_owner_axis_decorator. rewrite <-(sapp_nil_r t) at 1. rewrite owner_axis_skip; [done|]. by apply calm.
Qed.
Lemma paren_close_ident c : forall k r, str_all Expr.ident_char c = true -> syntax.paren_close 1 k (c +:+ String ")" r) = Some (k + str_len c).
Proof.
  induction c as [|b c IH]; intros k r H; [by rewrite Nat.add_0_r|]. cbn [str_all] in H. apply andb_true_iff in H as [Hb Hc].
  cbn [String.append syntax.paren_close str_len]. assert ((b =? "(")%char = false /\ (b =? ")")%char = false) as [-> ->] by (split; revert Hb; by_bytes b).
  rewrite IH by done. f_equal. lia.
Qed.
Lemma owner_body line c : Expr.ident c = true -> syntax.parse_owner_axis_body line (trim ("through: " +:+ c)) = Ok c.
Proof.
  intros Hc. pose proof (Expr.ident_edges _ Hc) as He. rewrite trim_edges by (by apply (edges_ok_mid "through:" " ")).
  unfold syntax.parse_owner_axis_body. change ("through: " +:+ c) with ("through" +:+ String ":" (" " +:+ c)).
  rewrite split_once_app by done. change (("through" +:+ String ":" (" " +:+ c)) =? "") with false. cbn [ok_or mbind result_bind].
  change (negb (trim "through" =? "through")) with false. cbn [String.append]. rewrite (trim_space_edges c) by done.
  assert (Hfirst : (c =? "") = false /\ starts_with (String DQ "") c = false /\ starts_with "'" c = false /\
    (match c with String x _ => is_ascii_digit x | "" => true end) = false).
  { destruct c as [|b c]; [done|]. unfold Expr.ident in Hc. apply andb_true_iff in Hc as [Hb _]. cbn [starts_with]. rewrite !andb_true_r.
    split_and!; [done|..]; revert Hb; by_bytes b. }
  destruct Hfirst as (-> & -> & -> & ->). apply Expr.ident_chars in Hc as [Hc _]. cbn [orb].
  assert (str_all (fun b => is_ascii_alphanumeric b || (b =? "_")%char) c = true) as -> by (eapply str_all_impl; [|exact Hc]; intros b; by_bytes b). done.
Qed.
Lemma owner_axis_found line a c : edges_ok a = true -> contains "@owner_axis" a = false -> depth_after 0 a = 0%Z -> Expr.ident c = true ->
  syntax.extract_owner_axis_decorator line (a +:+ " " +:+ owner_text c) = Ok (a, Some c).
Proof.
  intros Ha Hca Hd Hc. unfold syntax.extract_owner_axis_decorator. rewrite owner_axis_skip by (apply calm; done). rewrite Hd.
  set (m := owner_text c). change (" " +:+ m) with (String " " m). cbn [syntax.owner_axis_go].
  change (starts_with "@owner_axis" (String " " m)) with false. rewrite andb_false_r. cbn [andb]. change (depth_step 0 " ") with 0%Z.
  assert (Hm : m = "@owner_axis" +:+ ("(through: " +:+ c +:+ ")")) by done.
  assert (Hlen : str_len m = 22 + str_len c) by (rewrite Hm, !len_app; cbn; lia).
  assert (Hgo : forall i, syntax.owner_axis_go line (Some " "%char) 0 0 i None m = Ok (Some (i, i + str_len m, c))).
  { intros i. assert (E1 : starts_with "@owner_axis" m = true) by done. assert (E2 : str_drop 11 m = "(through: " +:+ c +:+ ")") by done.
    assert (Em : m = String "@" ("owner_axis(through: " +:+ c +:+ ")")) by done. rewrite Em at 1. cbn [syntax.owner_axis_go]. rewrite <-Em, E1, E2.
    change (syntax.white_before (Some " "%char)) with true. cbn [andb Z.eqb]. change (count_while syntax.latin1_white ("(through: " +:+ c +:+ ")")) with 0.
    change (11 + 0) with 11. rewrite E2. change (negb (starts_with "(" ("(through: " +:+ c +:+ ")"))) with false.
    assert (Hp : syntax.paren_close 0 11 ("(through: " +:+ c +:+ ")") = Some (21 + str_len c)).
    { apply (paren_close_ident c 21 ""). by apply Expr.ident_chars in Hc as [? _]. }
    rewrite Hp. cbn [ok_or mbind result_bind].
    assert (Hsl : slice (11 + 1) (21 + str_len c) m = "through: " +:+ c).
    { assert (Eb : str_len ("through: " +:+ c) = 9 + str_len c) by (by rewrite len_app). replace m with ("@owner_axis(" +:+ ("through: " +:+ c) +:+ ")") by done.
      replace (21 + str_len c) with (str_len "@owner_axis(" + str_len ("through: " +:+ c)) by (rewrite Eb; cbn; lia). apply (slice_app "@owner_axis("). }
    rewrite Hsl, owner_body by done. cbn [mbind result_bind].
    assert (Er : "owner_axis(through: " +:+ c +:+ ")" = ("owner_axis(through: " +:+ c +:+ ")") +:+ "") by (by rewrite sapp_nil_r).
    replace (21 + str_len c) with (str_len ("owner_axis(through: " +:+ c +:+ ")")) by (rewrite !len_app; cbn; lia).
    rewrite Er at 3. rewrite owner_axis_passes. cbn [syntax.owner_axis_go]. do 4 f_equal. rewrite Hlen, !len_app. cbn. lia. }
  rewrite Hgo. cbn [mbind result_bind]. do 2 f_equal.
  assert (Et : str_take (S (0 + str_len a)) (a +:+ String " " m) = a +:+ " ").
  { change (String " " m) with (" " +:+ m). rewrite <-sapp_assoc. replace (S (0 + str_len a)) with (str_len (a +:+ " ")) by (rewrite len_app; cbn; lia). apply take_app. }
  rewrite Et, trim_end_space by done. rewrite drop_all by (rewrite len_app; cbn; lia). unfold syntax.glue. rewrite andb_false_r. cbn. rewrite !sapp_nil_r. by apply trim_edges.
Qed.

Lemma no_target line t : contains "target " t = false -> syntax.extract_cross_feature_target line t = Ok (t, None).
Proof.
  intros H. unfold syntax.extract_cross_feature_target. assert (starts_with "target " t = false) as ->.
  { apply not_true_is_false. intros (r & ->)%starts_with_iff. apply not_true_iff_false in H. apply H, contains_iff. by exists "", r. }
  destruct (str_find " target " t) as [i|] eqn:E; [|done]. exfalso. apply not_true_iff_false in H. apply H, contains_iff.
  apply str_find_Some in E as [(r & E)%starts_with_iff _]. exists (str_take i t +:+ " "), r. rewrite <-(take_drop_id i t) at 1. by rewrite E, !sapp_assoc.
Qed.

(** ** The line *)

Lemma slug_split : syntax.extract_slug_decorator (join " " bare_words) =
  (join " " (type_words f ++ flat_map decorator_words (List.filter not_slug (ft_decorators f))), has_slug f).
Proof using Hs Hok.
  destruct bare_ok as (Hw & _ & _). destruct field_ok_parts as (_ & [_ _ _ _ Hf _ _ _ _] & Hd & _). unfold syntax.extract_slug_decorator.
  rewrite split_whitespace_words by done. unfold bare_words. rewrite List.filter_app, existsb_app.
  assert (Ht : List.filter (fun tok => negb (tok =? "@slug")) (type_words f) = type_words f /\ existsb (fun tok => tok =? "@slug") (type_words f) = false).
  { assert (Hn : ~ In "@slug" (type_words f)) by (apply Hf; cbn; tauto). clear -Hn. induction (type_words f) as [|w ws IH]; [done|]. cbn [List.filter existsb].
    destruct (String.eqb_spec w "@slug") as [->|]; [exfalso; apply Hn; by left|]. cbn. destruct IH as [-> ->]; [|done]. intros H. apply Hn. by right. }
  destruct Ht as [-> ->]. cbn [orb]. unfold has_slug. apply (f_equal2 pair).
  - do 2 f_equal. generalize (ft_decorators f). clear. intros ds. induction ds as [|d ds IH]; [done|]. cbn [flat_map List.filter]. rewrite List.filter_app, IH. destruct d as [| |c]; [done..|]. cbn [decorator_words not_slug List.filter flat_map].
    assert ((c +:+ ")" =? "@slug") = false) as ->; [|done]. apply String.eqb_neq. intros E. by apply (column_not_reserved c "@slug"); [cbn; tauto|].
  - generalize (ft_decorators f). clear. intros ds. induction ds as [|d ds IH]; [done|]. cbn [flat_map existsb]. rewrite existsb_app, IH. destruct d as [| |c]; [done..|]. cbn [decorator_words not_slug existsb].
    assert ((c +:+ ")" =? "@slug") = false) as ->; [|done]. apply String.eqb_neq. intros E. by apply (column_not_reserved c "@slug"); [cbn; tauto|].
Qed.

Lemma owner_column_filter : owner_column f = head (omap (fun d => match d with DOwnerAxis c => Some c | _ => None end) (List.filter not_slug (ft_decorators f))).
Proof. unfold owner_column. f_equal. induction (ft_decorators f) as [|[| |c] ds IH]; [done|exact IH|exact IH|]. cbn. by f_equal. Qed.
Lemma full_text_filter : has_full_text f = existsb (fun d => match d with DFullText => true | _ => false end) (List.filter not_slug (ft_decorators f)).
Proof. unfold has_full_text. by induction (ft_decorators f) as [|[| |c] ds IH]. Qed.

Lemma decorators_read line : exists t1 t2,
  syntax.extract_full_text_marker line (join " " (type_words f ++ flat_map decorator_words (List.filter not_slug (ft_decorators f)))) = Ok (t1, has_full_text f) /\
  syntax.extract_owner_axis_decorator line t1 = Ok (t2, owner_column f) /\ syntax.extract_cross_feature_target line t2 = Ok (s, None).
Proof using Hs Hok.
  destruct field_ok_parts as (_ & [Hw Hne Hj Hdep _ _ Hft Hown Htgt] & Hd & _). rewrite owner_column_filter, full_text_filter.
  assert (He : edges_ok s = true) by (rewrite <-Hj; by apply words_edges). pose proof (no_target line s Htgt) as Ht.
  unfold decorators_ok in Hd. destruct (List.filter not_slug (ft_decorators f)) as [|d1 [|d2 [|d3 ds]]].
  - exists s, s. cbn [flat_map]. rewrite app_nil_r, Hj. split_and!; [by apply full_text_none|by apply owner_axis_none|done].
  - destruct d1 as [| |c]; [done| |].
    + exists s, s. cbn [flat_map app decorator_words]. rewrite join_snoc, Hj by done. split_and!; [|by apply owner_axis_none|done].
      rewrite <-(sapp_nil_r s) at 2. apply (full_text_found line s ""); try done. by left.
    + apply andb_true_iff in Hd as [Hc _]. exists (s +:+ " " +:+ owner_text c), s. cbn [flat_map app decorator_words]. rewrite join_words_app, Hj by done. split_and!; [|by apply owner_axis_found|done].
      apply full_text_none. apply contains_word_app; try done. by apply owner_no_full_text.
  - destruct d1 as [| |c1], d2 as [| |c2]; try done; apply andb_true_iff in Hd as [Hc _].
    + exists (s +:+ " " +:+ owner_text c2), s. cbn [flat_map app decorator_words]. rewrite join_words_app, Hj by done. split_and!; [|by apply owner_axis_found|done].
      apply (full_text_found line s (" " +:+ owner_text c2)); try done. right. exists (owner_text c2). split_and!; [done| |by apply owner_no_full_text].
      apply (edges_ok_mid "@owner_axis(through:" " "); [done|]. by apply word_edges, column_word.
    + exists (s +:+ " " +:+ owner_text c1), s. cbn [flat_map app decorator_words]. rewrite join_words_app, Hj by done. split_and!; [|by apply owner_axis_found|done].
      assert (Ej : join " " ["@owner_axis(through:"; c1 +:+ ")"; "@full_text"] = owner_text c1 +:+ " " +:+ "@full_text") by (unfold owner_text; cbn [join]; by rewrite !sapp_assoc).
      rewrite Ej. replace (s +:+ " " +:+ owner_text c1 +:+ " " +:+ "@full_text") with ((s +:+ " " +:+ owner_text c1) +:+ " " +:+ "@full_text" +:+ "") by (by rewrite sapp_nil_r, !sapp_assoc).
      rewrite <-(sapp_nil_r (s +:+ " " +:+ owner_text c1)) at 2. apply (full_text_found line _ ""); [| | |by left].
      * apply (edges_ok_mid s " "); [done|]. apply (edges_ok_mid "@owner_axis(through:" " "); [done|]. by apply word_edges, column_word.
      * apply contains_word_app; try done. by apply owner_no_full_text.
      * rewrite depth_after_app, Hdep. change (" " +:+ owner_text c1) with (String " " (owner_text c1)). cbn [depth_after]. by apply owner_depth.
  - by destruct d1 as [| |c1], d2 as [| |c2].
Qed.

Lemma modifiers_said m : contains (modifier_word m) modifier_text = has_modifier m f.
Proof using Hs Hok.
  destruct field_ok_parts as (_ & _ & _ & Hm & _). unfold modifier_text, has_modifier.
  destruct (ft_modifiers f) as [|m1 [|m2 [|m3 [|? ?]]]]; try done; destruct m; try destruct m1; try destruct m2; try destruct m3; done.
Qed.

Lemma no_hash t : lacks "#" t -> forall q i, comment_index t q i = None.
Proof.
  intros H q i. destruct (comment_index t q i) as [j|] eqn:E; [|done]. pose proof (comment_index_bound _ _ _ _ E). apply comment_index_hash in E.
  by pose proof (str_all_byte_at _ _ _ _ H E).
Qed.

Lemma field_line_reads header : syntax.trimmed header = show_field f -> syntax.field_line header = Ok (field_said header f []).
Proof using Hs Hok.
  intros Htx. destruct field_ok_parts as (Hn & _ & _ & _ & _ & Hh). destruct tail_ok_words as [Hw _]. destruct head_ok as (_ & Hne & _).
  assert (Ht : tail_words f <> []) by (unfold tail_words; by destruct (head_words f)). pose proof (words_edges _ Hw Ht) as He. pose proof (Expr.ident_edges _ Hn) as Hen.
  unfold syntax.field_line. rewrite Htx. unfold strip_inline_comment. rewrite no_hash by done.
  rewrite trim_end_edges by (by apply (edges_ok_mid (ft_name f) ": ")). unfold show_field. change (": " +:+ join " " (tail_words f)) with (String ":" (String " " (join " " (tail_words f)))).
  rewrite split_once_app by (by apply (ident_lacks ":")). cbn [ok_or mbind result_bind]. rewrite (trim_edges (ft_name f)), (trim_space_edges (join " " (tail_words f))) by done.
  assert ((ft_name f =? "") = false) as -> by by destruct (ft_name f). rewrite tail_reads. cbn [mbind result_bind syntax.t_type_text syntax.t_modifiers_text syntax.t_default syntax.t_derived_from syntax.t_computed_date syntax.t_constraints].
  rewrite slug_split. destruct (decorators_read header) as (t1 & t2 & -> & E2 & E3). cbn [mbind result_bind]. rewrite E2. cbn [mbind result_bind]. rewrite E3. cbn [mbind result_bind].
  unfold field_said. rewrite Hs. by rewrite <-!modifiers_said.
Qed.

(** * The lowering *)

Lemma cap_pii_none text : forall t prev d in_string escaped i, (forall k, starts_with "@cap.PII(" (str_drop k t) = false) ->
  ResourceLowering.cap_pii_go text prev d in_string escaped i t = None.
Proof.
  induction t as [|b t IH]; intros prev d in_string escaped i H; [done|]. cbn [ResourceLowering.cap_pii_go].
  pose proof (H 0) as H0. rewrite drop_0 in H0. rewrite H0, andb_false_r. cbn [andb].
  assert (Ht : forall k, starts_with "@cap.PII(" (str_drop k t) = false) by (intros k; apply (H (S k))).
  destruct in_string; [destruct escaped; [|destruct (b =? BSL)%char]|]; by apply IH.
Qed.
Lemma no_pii t : edges_ok t = true -> contains "@cap.PII(" t = false -> ResourceLowering.extract_field_level_pii_decorator t = (t, None).
Proof.
  intros He H. unfold ResourceLowering.extract_field_level_pii_decorator, ResourceLowering.find_field_level_cap_pii_span. rewrite cap_pii_none; [by rewrite trim_edges|].
  intros k. apply not_true_is_false. intros (r & E)%starts_with_iff. apply not_true_iff_false in H. apply H, contains_iff. exists (str_take k t), r. by rewrite <-E, take_drop_id.
Qed.
Lemma unconstrained_type field text : CommandLowering.validate_constraint_type_compatibility field text no_constraints = Ok tt.
Proof. unfold CommandLowering.validate_constraint_type_compatibility. by destruct (type_ref_from_syntax text). Qed.
Lemma type_not_peeled : ResourceLowering.peel_trailing_field_modifiers s = (s, false, false).
Proof using Hs Hok.
  destruct field_ok_parts as (_ & [Hw Hne Hj _ Hf _ _ _ _] & _). unfold ResourceLowering.peel_trailing_field_modifiers.
  assert (He : edges_ok s = true) by (rewrite <-Hj; by apply words_edges). rewrite trim_edges by done.
  destruct (peel_none (type_words f) Hw Hne) as (Ht & Hr & Ho & Hu); [intros w Hin; apply Hf; cbn in *; tauto|]. rewrite Hj in *.
  destruct (str_len s); cbn [ResourceLowering.peel_go]; rewrite Ht; [done|]. by rewrite Hr, Ho, Hu.
Qed.
Lemma owner_axis_typed : match owner_column f with Some _ => is_reference (ft_type f) = true | None => True end.
Proof using Hs Hok.
  destruct field_ok_parts as (_ & _ & Hd & _). rewrite owner_column_filter. unfold decorators_ok in Hd.
  destruct (List.filter not_slug (ft_decorators f)) as [|[| |c] [|[| |c'] [|? ?]]]; try done; by apply andb_true_iff in Hd as [_ ?].
Qed.

(** The field the lowering makes of the line. *)
Definition field_lowered (line : SourceLine) (earlier : list string) : ResourceLowering.FieldIr := {|
  ResourceLowering.core := field_declared f; ResourceLowering.slug := has_slug f; ResourceLowering.computed_date := None;
  ResourceLowering.previous_names := List.map ResourceLowering.strip_previously_mode earlier; ResourceLowering.pii := None;
  ResourceLowering.f_span := Some (syntax.span_of_line line) |}.
Lemma field_lowers line earlier : ResourceLowering.lower_resource_field (field_said line f earlier) = ResourceLowering.fine (field_lowered line earlier).
Proof using Hs Hok.
  destruct field_ok_parts as (_ & [Hw Hne Hj _ _ Hp _ _ _] & _ & _ & Hd & _). assert (He : edges_ok s = true) by (rewrite <-Hj; by apply words_edges).
  pose proof owner_axis_typed as Hax. destruct (shown_type _ _ "x" Hs eq_refl) as [Hty _].
  unfold ResourceLowering.lower_resource_field. cbn [field_said syntax.name syntax.type_text syntax.required syntax.unique syntax.slug syntax.fd_default
    syntax.derived_from syntax.computed_date syntax.constraints syntax.full_text syntax.owner_axis syntax.cross_feature_target syntax.previously syntax.span].
  rewrite Hs. cbn [from_option id]. rewrite (no_pii s) by done. cbv beta iota. rewrite type_not_peeled. cbv beta iota zeta. rewrite Hty, unconstrained_type, !orb_false_r. unfold field_lowered, field_declared.
  destruct (ft_default f) as [d|].
  - unfold default_ok in Hd. bool_prop. pose proof (word_edges _ H) as Hed. rewrite no_pii by done. cbv beta iota. rewrite trim_edges by done.
    change (Some d ≫= parse_default) with (parse_default d). destruct (parse_default d) as [v|]; [|done]. cbn [ResourceLowering.known ResourceLowering.and_then ResourceLowering.fine fmap option_fmap option_map].
    change (ResourceLowering.validate_default_against_constraints (ft_name f) d no_constraints) with (@Ok QueryLowering.AnalyzeError unit tt).
    destruct (owner_column f) as [c|]; [|done]. by destruct (ft_type f).
  - destruct (owner_column f) as [c|]; [|done]. destruct (ft_type f); done.
Qed.
End line.
