(* ===== verification/ResourceExact.v ===== *)
(** A resource block an author writes, through the parser, the lowering and the
    migration emitter, to the columns of its table. *)
From S2P Require Import Prelude RecordSet Str Fmt Lines Lex Helpers Ir Catalog TypeToken SpacedWords FieldExact.
From S2P Require FieldSyntax ResourceSyntax ResourceLowering CrudSyntax LifecycleSyntax Waiver Expr SqlColumn CreateTable SchemaDiff SchemaRead.

Module block := ResourceSyntax.
Import CrudSyntax (name_ok, comma_names, names_edges, edges_not_empty, stops).

(** * Termination *)

(** ** Children shorten the lines *)

Abbreviation shorter next lines := (List.length next <= List.length lines).

Lemma field_previously_shrinks gi lines : forall ps next, FieldSyntax.field_previously gi lines = (ps, next) -> shorter next lines.
Proof.
  induction lines as [|line lines IH]; intros ps next H; cbn [FieldSyntax.field_previously] in H; [by injection H as _ <-|].
  destruct (is_trivia _); [apply IH in H; cbn; lia|]. destruct (negb _); [by injection H as _ <-|].
  destruct (strip_prefix _ _); [|by injection H as _ <-]. destruct (FieldSyntax.field_previously gi lines) as [qs r] eqn:E. injection H as _ <-. pose proof (IH _ _ eq_refl). cbn. lia.
Qed.
Lemma field_shrinks line lines gi f next : FieldSyntax.parse_resource_field_decl line lines gi = Ok (f, next) -> shorter next lines.
Proof.
  unfold FieldSyntax.parse_resource_field_decl. intros (g & _ & H)%bind_Ok. destruct (FieldSyntax.field_previously gi lines) as [ps r] eqn:E.
  injection H as _ <-. by apply field_previously_shrinks in E.
Qed.
Lemma composite_key_shrinks hi gi lines : forall a b next, block.composite_key_lines hi gi a lines = Ok (b, next) -> shorter next lines.
Proof.
  induction lines as [|line lines IH]; intros a b next H; cbn [block.composite_key_lines] in H; [by injection H as _ <-|].
  destruct (is_trivia _); [apply IH in H; cbn; lia|]. destruct (_ <=? _)%nat; [by injection H as _ <-|]. destruct (negb _); [done|].
  apply bind_Ok in H as (c & _ & H). apply IH in H. cbn. lia.
Qed.
Lemma route_arms_shrinks bi lines : forall arms last b next, block.route_arms bi arms last lines = Ok (b, next) -> shorter next lines.
Proof.
  induction lines as [|line lines IH]; intros arms last b next H; cbn [block.route_arms] in H; [by injection H as _ <-|].
  destruct (is_trivia _); [apply IH in H; cbn; lia|]. destruct (_ <? _)%nat; [by injection H as _ <-|]. destruct (negb _); [done|].
  apply bind_Ok in H as (c & _ & H). apply IH in H. cbn. lia.
Qed.
Lemma invariant_shrinks hi lines : forall a b next, block.invariant_lines hi a lines = Ok (b, next) -> shorter next lines.
Proof.
  induction lines as [|line lines IH]; intros a b next H; cbn [block.invariant_lines] in H; [by injection H as _ <-|].
  destruct (is_trivia _); [apply IH in H; cbn; lia|]. destruct (_ <=? _)%nat; [by injection H as _ <-|]. destruct (negb _); [done|].
  apply bind_Ok in H as (c & _ & H). apply IH in H. cbn. lia.
Qed.
Lemma payload_shrinks hi gi fuel : forall lines fs last b next, block.payload_fields fuel hi gi fs last lines = Ok (b, next) -> shorter next lines.
Proof.
  induction fuel as [|fuel IH]; intros lines fs last b next H; [by injection H as _ <-|]. destruct lines as [|line lines]; cbn [block.payload_fields] in H; [by injection H as _ <-|].
  destruct (is_trivia _); [apply IH in H; cbn; lia|]. destruct (_ <=? _)%nat; [by injection H as _ <-|]. destruct (negb _); [done|]. destruct (negb _); [done|].
  apply bind_Ok in H as ([f r] & Hf & H). apply field_shrinks in Hf. apply IH in H. cbn. lia.
Qed.
Lemma overlay_shrinks ci ei cl fuel : forall lines o last b next, CrudSyntax.overlay_blocks fuel ci ei cl o last lines = Ok (b, next) -> shorter next lines.
Proof.
  induction fuel as [|fuel IH]; intros lines o last b next H; [by injection H as _ <-|]. destruct lines as [|line lines]; cbn [CrudSyntax.overlay_blocks] in H; [by injection H as _ <-|].
  destruct (is_trivia _); [apply IH in H; cbn; lia|]. destruct (_ <=? _)%nat; [by injection H as _ <-|]. destruct (negb _); [done|].
  destruct (CrudSyntax.effect_kind _); [|done]. destruct (CrudSyntax.has _ _); [done|]. apply bind_Ok in H as ([[e prev] r] & He & H). apply IH in H.
  unfold CrudSyntax.parse_effect_overlay in He. apply bind_Ok in He as ([[? [? ?]] ?] & He & E). injection E as _ _ <-. apply CrudSyntax.effect_clauses_shrinks in He. cbn. lia.
Qed.
Lemma lifecycle_shrinks line lines x next : LifecycleSyntax.parse_lifecycle_block line lines = Ok (x, next) -> shorter next lines.
Proof.
  unfold LifecycleSyntax.parse_lifecycle_block. intros ([a r] & Ha & H)%bind_Ok. apply LifecycleSyntax.block_lines_suffix in Ha as [p ->].
  destruct (_ <? _)%nat; [done|]. destruct (LifecycleSyntax.b_transitions a); [done|]. injection H as _ <-. rewrite length_app. lia.
Qed.

Lemma resource_child_shrinks hi line rest s s' next : block.resource_child hi line rest s = Ok (s', next) -> shorter next rest.
Proof.
  unfold block.resource_child. intros H.
  repeat match type of H with
  | (if ?b then _ else _) = _ => destruct b
  | match ?o with Some _ => _ | None => _ end = _ => destruct o as [?|]
  end;
  repeat match type of H with
  | Err _ = Ok _ => discriminate H
  | Ok _ = Ok _ => injection H as _ <-; done
  | (let '(_, _) := ?p in _) = _ => destruct p
  | _ ≫= _ = Ok _ => apply bind_Ok in H as (? & Hchild & H)
  | match ?o with (_, _) => _ end = _ => destruct o
  end;
  injection H as _ <-.
  - by apply lifecycle_shrinks in Hchild.
  - unfold block.parse_resource_many_through in Hchild. apply bind_Ok in Hchild as ([? ?] & _ & Hchild). do 2 (case_match; [done|]).
    apply bind_Ok in Hchild as ([[p ?] ?] & Hp & Hchild). apply payload_shrinks in Hp. destruct p; [done|]. by injection Hchild as _ <-.
  - unfold block.parse_resource_lifecycle_routes in Hchild. apply bind_Ok in Hchild as ([[a ?] ?] & Hp & Hchild). apply route_arms_shrinks in Hp.
    destruct a; [done|]. by injection Hchild as _ <-.
  - unfold block.parse_invariant_decl in Hchild. do 2 (case_match; [done|]). apply bind_Ok in Hchild as ([a ?] & Hp & Hchild). apply invariant_shrinks in Hp.
    apply bind_Ok in Hchild as (? & _ & Hchild). by injection Hchild as _ <-.
  - unfold block.parse_resource_composite_key in Hchild. apply bind_Ok in Hchild as ([a ?] & Hp & Hchild). apply composite_key_shrinks in Hp.
    destruct (block.a_fields a); [done|]. by injection Hchild as _ <-.
  - unfold CrudSyntax.parse_resource_crud_overlay in Hchild. apply bind_Ok in Hchild as ([[o ?] ?] & Hp & Hchild). apply overlay_shrinks in Hp.
    destruct (CrudSyntax.create o), (CrudSyntax.update o), (CrudSyntax.delete o); try done; by injection Hchild as _ <-.
  - by apply field_shrinks in Hchild.
Qed.

(** ** Fuel *)

(** Any fuel above the number of lines gives the result of the loop. *)
Lemma resource_children_fuel hi fuel : forall lines s last, List.length lines < fuel ->
  block.resource_children fuel hi s last lines = block.resource_children (S fuel) hi s last lines.
Proof.
  induction fuel as [|fuel IH]; intros lines s last Hf; [lia|]. destruct lines as [|line rest]; [done|]. cbn in Hf.
  remember (S fuel) as fuel' eqn:Ef. cbn [block.resource_children]. rewrite Ef at 1. cbn [block.resource_children]. subst fuel'.
  destruct (is_trivia _); [apply IH; lia|]. destruct (_ <=? hi)%nat; [done|]. destruct (negb _); [done|].
  destruct (block.resource_child hi line rest s) as [[s' next]|] eqn:E; [|done]. cbn [mbind result_bind]. apply resource_child_shrinks in E. apply IH. lia.
Qed.
Lemma payload_fields_fuel hi gi fuel : forall lines fs last, List.length lines < fuel ->
  block.payload_fields fuel hi gi fs last lines = block.payload_fields (S fuel) hi gi fs last lines.
Proof.
  induction fuel as [|fuel IH]; intros lines fs last Hf; [lia|]. destruct lines as [|line rest]; [done|]. cbn in Hf.
  remember (S fuel) as fuel' eqn:Ef. cbn [block.payload_fields]. rewrite Ef at 1. cbn [block.payload_fields]. subst fuel'.
  destruct (is_trivia _); [apply IH; lia|]. destruct (_ <=? hi)%nat; [done|]. do 2 (destruct (negb _); [done|]).
  destruct (FieldSyntax.parse_resource_field_decl _ _ _) as [[f next]|] eqn:E; [|done]. cbn [mbind result_bind]. apply field_shrinks in E. apply IH. lia.
Qed.
Lemma resource_children_enough hi f1 f2 lines s last : List.length lines < f1 -> f1 <= f2 ->
  block.resource_children f1 hi s last lines = block.resource_children f2 hi s last lines.
Proof. intros H Hle. induction Hle as [|f2 Hle IH]; [done|]. rewrite IH. apply resource_children_fuel. lia. Qed.

(** * The lines of a block *)

Inductive Child :=
| CField (f : FieldText) | CSoftDelete (by_actor : bool) | CTimestamps | CAppendOnly | CTenancy (t : block.DefaultsTenancy)
| CIndex (fields : list string) (method : option block.ResourceIndexMethodAst) | CFullText (fields : list string)
| CUnique (fields : list string) (code : option string) | CPolymorphic (type_field id_field : string) (targets : list string)
| CRestrict (relation fk : string) (code : option string).

Definition axis_text (t : block.DefaultsTenancy) : string :=
  match t with block.Org => "org" | block.Team => "team" | block.NoTenancy => "none" | block.Custom axis => axis end.
Definition field_list (fields : list string) : string := "(" +:+ join ", " fields +:+ ")".
Definition method_text (m : block.ResourceIndexMethodAst) : string :=
  match m with block.Btree => "btree" | block.Gin => "gin" | block.Gist => "gist" end.
Definition clause (keyword : string) (o : option string) : string := match o with Some x => " " +:+ keyword +:+ " " +:+ x | None => "" end.
Definition show_child (c : Child) : string :=
  match c with
  | CField f => show_field f
  | CSoftDelete b => if b then "soft_delete by" else "soft_delete"
  | CTimestamps => "timestamps"
  | CAppendOnly => "append_only"
  | CTenancy t => "tenancy " +:+ axis_text t
  | CIndex fs m => "index on " +:+ field_list fs +:+ clause "using" (method_text <$> m)
  | CFullText fs => "fts on " +:+ field_list fs
  | CUnique fs code => "unique " +:+ field_list fs +:+ clause "error" code
  | CPolymorphic t i targets => "polymorphic_ref " +:+ t +:+ " " +:+ i +:+ " targets [" +:+ join ", " targets +:+ "]"
  | CRestrict r fk code => "restrict on_delete references " +:+ r +:+ " via " +:+ fk +:+ clause "error" code
  end.
Definition idents (l : list string) : bool := match l with [] => false | _ => forallb Expr.ident l end.
Definition code_ok (code : option string) : bool := match code with Some c => Expr.ident c | None => true end.
Definition child_ok (c : Child) : bool :=
  match c with
  | CField f => field_ok f
  | CTenancy (block.Custom axis) => Expr.ident axis && negb (existsb (String.eqb axis) ["org"; "team"; "none"])
  | CIndex fs _ | CFullText fs => idents fs
  | CUnique fs code => idents fs && code_ok code
  | CPolymorphic t i targets => Expr.ident t && Expr.ident i && negb (i =? "targets") && idents targets
  | CRestrict r fk code => Expr.ident r && Expr.ident fk && negb (fk =? "error") && code_ok code
  | _ => true
  end.

(** What a child adds to the block. *)
Definition with_child (line : SourceLine) (c : Child) (s : block.ResourceBodyState) : block.ResourceBodyState :=
  let span := FieldSyntax.span_of_line line in
  match c with
  | CField f => s <| block.fields ::= block.push (field_said line f []) |>
  | CSoftDelete by_actor =>
    let s := s <| block.soft_delete := true |> in if by_actor : bool then s <| block.soft_delete_actor := true |> else s
  | CTimestamps => s <| block.timestamps := true |>
  | CAppendOnly => s <| block.append_only := true |>
  | CTenancy t => s <| block.tenancy := Some t |>
  | CIndex fs m => s <| block.constraints ::= block.push (block.Index {| block.ix_fields := fs; block.method := m; block.ix_full_text := false; block.ix_span := span |}) |>
  | CFullText fs => s <| block.constraints ::= block.push (block.Index {| block.ix_fields := fs; block.method := None; block.ix_full_text := true; block.ix_span := span |}) |>
  | CUnique fs code => s <| block.constraints ::= block.push (block.Unique {| block.uq_fields := fs; block.uq_when := None; block.error_code := code; block.uq_span := span |}) |>
  | CPolymorphic t i targets => s <| block.polymorphic_refs ::= block.push {| block.type_field := t; block.id_field := i; block.targets := targets; block.pr_span := span |} |>
  | CRestrict r fk code => s <| block.restrict_on_delete ::= block.push {| block.relation := r; block.fk := fk; block.extra_where := None; block.rd_error_code := code; block.rd_span := span |} |>
  end.

(** ** Dispatch *)

Definition keyword_lines : list string :=
  ["soft_delete"; "soft_delete by"; "timestamps"; "append_only"; "lifecycle"; "many_through"; "lifecycle_routes"; "lock"; "composite_key"; "conventions"; "crud"; "restrict"].
Definition keyword_heads : list string := ["lifecycle "; "many_through "; "invariant "; "lock "; "composite_key "; "conventions "; "crud "; "restrict "].
(** The children the block's parser takes before fields and handlers. *)
Definition inline_child (text : string) : bool := existsb (String.eqb text) keyword_lines || existsb (fun p => starts_with p text) keyword_heads.

Lemma no_prefix p t : starts_with p t = false -> strip_prefix p t = None.
Proof. unfold strip_prefix. by intros ->. Qed.
Lemma ordinary_child hi line rest s : inline_child (FieldSyntax.trimmed line) = false ->
  let text := FieldSyntax.trimmed line in
  (contains ":" text && negb (existsb (fun h => starts_with h.1 text) block.resource_body_handlers) = true ->
   block.resource_child hi line rest s =
   ('(field, next) ← FieldSyntax.parse_resource_field_decl line rest (hi + 4); Ok (s <| block.fields ::= block.push field |>, next))) /\
  (forall handler r, existsb (fun h => starts_with h.1 text) block.resource_body_handlers = true ->
   block.matching_handler text block.resource_body_handlers = Some (handler, r) ->
   block.resource_child hi line rest s = (s ← handler line r s; Ok (s, rest))).
Proof.
  unfold inline_child, keyword_lines, keyword_heads. cbn [existsb]. intros H.
  repeat match goal with H : _ || _ = false |- _ => apply orb_false_iff in H as [? ?] end.
  split; [intros Hf|intros handler r Hh Hm]; unfold block.resource_child;
    repeat match goal with
    | H : starts_with ?p ?t = false |- context [strip_prefix ?p ?t] => rewrite (no_prefix p t H)
    | H : ?b = false |- context [if ?b then _ else _] => rewrite H
    end.
  - by rewrite Hf.
  - by rewrite Hh, andb_false_r, Hm.
Qed.

(** ** Pieces *)

Lemma ident_is_word x : Expr.ident x = true -> word x = true.
Proof.
  intros [H Hne]%Expr.ident_chars. unfold word. apply andb_true_iff. split; [by destruct x|]. eapply str_all_impl; [|exact H]. intros b. by_bytes b.
Qed.
Lemma idents_names l : idents l = true -> l <> [] /\ forallb name_ok l = true /\ Forall (fun x => Expr.ident x = true) l.
Proof.
  intros H. assert (Hl : l <> [] /\ forallb Expr.ident l = true) by by destruct l. destruct Hl as [Hne Hl]. rewrite forallb_forall in Hl. split_and!; [done| |by apply List.Forall_forall].
  apply forallb_forall. intros x Hx. specialize (Hl x Hx). unfold name_ok. rewrite (Expr.ident_edges _ Hl). by apply (ident_lacks ",").
Qed.
Lemma join_lacks c l : Forall (fun x => Expr.ident x = true) l -> Expr.ident_char c = false -> (c =? ",")%char = false -> (c =? " ")%char = false ->
  lacks c (join ", " l).
Proof.
  intros H Hc H1 H2. induction H as [|x l Hx Hl IH]; [done|]. destruct l as [|y l]; [by apply ident_lacks|]. rewrite join_cons, !str_all_app by done.
  rewrite (ident_lacks c x Hx Hc), IH. cbn [str_all andb]. by rewrite (Ascii.eqb_sym "," c), (Ascii.eqb_sym " " c), H1, H2.
Qed.
Lemma find_close a r : lacks ")" a -> str_find ")" (a +:+ String ")" r) = Some (str_len a).
Proof.
  induction a as [|b a IH]; [done|]. cbn [str_all]. intros [Hb%negb_true_iff Ha]%andb_true_iff. cbn [String.append str_find].
  assert (starts_with ")" (String b (a +:+ String ")" r)) = false) as -> by (cbn [starts_with]; by rewrite Ascii.eqb_sym, Hb). by rewrite IH.
Qed.
Lemma clause_edges keyword a o : edges_ok a = true -> match o with Some x => Expr.ident x = true | None => True end -> edges_ok keyword = true ->
  edges_ok (a +:+ clause keyword o) = true.
Proof.
  intros Ha Ho Hk. destruct o as [x|]; cbn [clause]; [|by rewrite sapp_nil_r]. apply (edges_ok_mid a " "); [done|]. apply (edges_ok_mid keyword " "); [done|]. by apply Expr.ident_edges.
Qed.
Lemma list_edges l : idents l = true -> edges_ok (field_list l) = true.
Proof. intros H. by apply (edges_ok_mid "(" _ ")"). Qed.
Lemma paren_reads line l r : idents l = true -> edges_ok (field_list l +:+ r) = true ->
  block.parse_parenthesized_field_list_with_trailing line (field_list l +:+ r) = Ok (l, r).
Proof.
  intros H He. destruct (idents_names l H) as (Hne & Hn & Hi). unfold block.parse_parenthesized_field_list_with_trailing. rewrite trim_edges by done.
  change (starts_with "(" (field_list l +:+ r)) with true. cbn [negb]. unfold field_list.
  assert (E : ("(" +:+ join ", " l +:+ ")") +:+ r = ("(" +:+ join ", " l) +:+ String ")" r) by (by rewrite !sapp_assoc).
  rewrite E, find_close by (cbn; by apply join_lacks). cbn [ok_or mbind result_bind].
  rewrite sapp_assoc. assert (Es : slice 1 (str_len ("(" +:+ join ", " l)) ("(" +:+ join ", " l +:+ String ")" r) = join ", " l) by apply (slice_app "(").
  rewrite Es. unfold block.parse_resource_field_list. rewrite comma_names by done.
  assert (List.find (fun field => negb (block.is_policy_identifier field)) l = None) as ->.
  { clear -Hi. induction Hi as [|x l Hx Hl IH]; [done|]. cbn [List.find]. by replace (block.is_policy_identifier x) with true. }
  destruct l; [done|]. cbn [mbind result_bind]. rewrite <-sapp_assoc. replace (str_len ("(" +:+ join ", " (s :: l)) + 1) with (str_len (("(" +:+ join ", " (s :: l)) +:+ ")")) by (rewrite !len_app; cbn; lia).
  change (String ")" r) with (")" +:+ r). by rewrite <-sapp_assoc, drop_app.
Qed.

Lemma split_str_first sep a r : (forall k, k < str_len a -> starts_with sep (str_drop k (a +:+ sep +:+ r)) = false) ->
  sep <> "" -> QuerySyntax.split_once_str sep (a +:+ sep +:+ r) = Some (a, r).
Proof.
  intros H Hne. unfold QuerySyntax.split_once_str.
  assert (Hf : str_find sep (a +:+ sep +:+ r) = Some (str_len a)).
  { clear Hne. induction a as [|b a IH].
    - cbn [String.append]. pose proof (starts_with_app sep r) as E. destruct (sep +:+ r) eqn:Er; cbn [str_find]; by rewrite E.
    - cbn [String.append str_find]. pose proof (H 0) as H0. rewrite drop_0 in H0. cbn [String.append] in H0. rewrite H0 by (cbn; lia). rewrite IH; [done|].
      intros k Hk. apply (H (S k)). cbn. lia. }
  rewrite Hf. cbn [mbind option_bind]. rewrite take_app, <-drop_drop, !drop_app. done.
Qed.
Lemma split_str_none sep t : contains sep t = false -> QuerySyntax.split_once_str sep t = None.
Proof. unfold contains, QuerySyntax.split_once_str. by destruct (str_find sep t). Qed.
(** A token that starts with a space is not inside a word. *)
Lemma not_in_word sep w r k : word w = true -> k < str_len w -> starts_with (String " " sep) (str_drop k (w +:+ r)) = false.
Proof.
  intros Hw Hk. destruct (drop_inside k w r Hk) as (b & t & -> & Eb). apply (word_byte _ _ _ Hw) in Eb. cbn [starts_with]. by rewrite Ascii.eqb_sym, Eb.
Qed.
Lemma word_contains sep w : word w = true -> contains (String " " sep) w = false.
Proof.
  intros Hw. apply contains_none. intros k. destruct (decide (k < str_len w)) as [Hk|Hk].
  - rewrite <-(sapp_nil_r w). by apply not_in_word.
  - by rewrite drop_all by lia.
Qed.

(** ** Each child *)

Section child.
Context (hi : nat) (line : SourceLine) (rest : list SourceLine) (s : block.ResourceBodyState).

(** A child the handlers read. *)
Lemma handled text handler r s' : FieldSyntax.trimmed line = text -> inline_child text = false ->
  existsb (fun h => starts_with h.1 text) block.resource_body_handlers = true ->
  block.matching_handler text block.resource_body_handlers = Some (handler, r) -> handler line r s = Ok s' ->
  block.resource_child hi line rest s = Ok (s', rest).
Proof. intros <- Hi Hh Hm Hs. destruct (ordinary_child hi line rest s Hi) as [_ H]. by rewrite (H handler r Hh Hm), Hs. Qed.

Lemma tenancy_read t : child_ok (CTenancy t) = true -> FieldSyntax.trimmed line = show_child (CTenancy t) ->
  block.resource_child hi line rest s = Ok (with_child line (CTenancy t) s, rest).
Proof.
  intros Hok Htx. apply (handled _ block.handle_resource_tenancy (axis_text t) _ Htx); try reflexivity.
  destruct t as [| | |axis]; try reflexivity. cbn [child_ok axis_text] in *. apply andb_true_iff in Hok as [Ha Hn%negb_true_iff].
  pose proof (Expr.ident_edges _ Ha) as He. unfold block.handle_resource_tenancy, block.parse_defaults_tenancy. rewrite !trim_edges, edges_not_empty by done.
  cbn [existsb] in Hn. repeat apply orb_false_iff in Hn as [? Hn]. by repeat match goal with H : (axis =? _) = false |- _ => rewrite H; clear H end.
Qed.

Lemma index_read fs m : idents fs = true -> FieldSyntax.trimmed line = show_child (CIndex fs m) ->
  block.resource_child hi line rest s = Ok (with_child line (CIndex fs m) s, rest).
Proof.
  intros Hi Htx. pose proof (list_edges _ Hi) as He.
  apply (handled _ block.handle_resource_index ("on " +:+ (field_list fs +:+ clause "using" (method_text <$> m))) _ Htx); try reflexivity.
  assert (Hc : edges_ok (field_list fs +:+ clause "using" (method_text <$> m)) = true) by (apply clause_edges; [done| |done]; by destruct m as [[]|]).
  unfold block.handle_resource_index. rewrite trim_edges by (by apply (edges_ok_mid "on" " ")). rewrite strip_prefix_app. cbn [ok_or mbind result_bind].
  rewrite trim_edges by done. unfold block.parse_resource_index_target.
  change (starts_with "(" (field_list fs +:+ clause "using" (method_text <$> m))) with true. cbv iota. rewrite paren_reads by done. cbn [mbind result_bind].
  by destruct m as [[]|].
Qed.
Lemma full_text_read fs : idents fs = true -> FieldSyntax.trimmed line = show_child (CFullText fs) ->
  block.resource_child hi line rest s = Ok (with_child line (CFullText fs) s, rest).
Proof.
  intros Hi Htx. pose proof (list_edges _ Hi) as He. apply (handled _ block.handle_resource_fts ("on " +:+ field_list fs) _ Htx); try reflexivity.
  unfold block.handle_resource_fts. rewrite trim_edges by (by apply (edges_ok_mid "on" " ")). rewrite strip_prefix_app. cbn [ok_or mbind result_bind].
  rewrite trim_edges by done. pose proof (paren_reads line fs "" Hi) as E. rewrite !sapp_nil_r in E. by rewrite E.
Qed.
Lemma error_head c : Expr.ident c = true -> contains "when " ("error " +:+ c) = false.
Proof.
  intros Hc%ident_is_word. apply contains_none. intros k. destruct (decide (k < str_len "error ")) as [Hk|Hk].
  - cbn in Hk. do 6 (destruct k as [|k]; [reflexivity|]). lia.
  - rewrite drop_past by lia. apply not_true_is_false. intros (t & E)%starts_with_iff.
    pose proof (word_lacks_space _ Hc) as Hl. rewrite <-(take_drop_id (k - str_len "error ") c), str_all_app, E in Hl. apply andb_true_iff in Hl as [_ Hl].
    change ("when " +:+ t) with ("when" +:+ String " " t) in Hl. by rewrite not_lacks_space in Hl.
Qed.
Lemma unique_read fs code : idents fs = true -> code_ok code = true -> FieldSyntax.trimmed line = show_child (CUnique fs code) ->
  block.resource_child hi line rest s = Ok (with_child line (CUnique fs code) s, rest).
Proof.
  intros Hi Hc Htx. pose proof (list_edges _ Hi) as He. apply (handled _ block.handle_resource_unique (field_list fs +:+ clause "error" code) _ Htx); try reflexivity.
  assert (Hce : edges_ok (field_list fs +:+ clause "error" code) = true) by (apply clause_edges; [done| |done]; by destruct code).
  unfold block.handle_resource_unique. rewrite trim_edges by done. change (starts_with "(" (field_list fs +:+ clause "error" code)) with true. cbv iota.
  rewrite paren_reads by done. cbn [mbind result_bind]. destruct code as [c|]; [|reflexivity]. cbn [code_ok clause] in *.
  pose proof (Expr.ident_edges _ Hc) as Hec. assert (Hee : edges_ok ("error " +:+ c) = true) by (by apply (edges_ok_mid "error" " ")).
  change (" " +:+ "error" +:+ " " +:+ c) with (String " " ("error " +:+ c)). rewrite (trim_space_edges ("error " +:+ c)), trim_edges by done.
  unfold block.parse_unique_trailing. rewrite edges_not_empty, split_str_none by (done || by apply error_head). cbn [mbind result_bind]. rewrite trim_edges, edges_not_empty by done.
  rewrite strip_prefix_app, trim_edges, edges_not_empty by done. unfold FieldSyntax.one_word. rewrite split_whitespace_word by by apply ident_is_word. reflexivity.
Qed.
Lemma polymorphic_read t i targets : child_ok (CPolymorphic t i targets) = true -> FieldSyntax.trimmed line = show_child (CPolymorphic t i targets) ->
  block.resource_child hi line rest s = Ok (with_child line (CPolymorphic t i targets) s, rest).
Proof.
  cbn [child_ok]. intros Hok Htx. apply andb_true_iff in Hok as [Hok Hts]. apply andb_true_iff in Hok as [Hok Hn%negb_true_iff]. apply andb_true_iff in Hok as [Ht Hi].
  destruct (idents_names _ Hts) as (Hne & Hnames & _). pose proof (ident_is_word _ Ht) as Hwt. pose proof (ident_is_word _ Hi) as Hwi.
  assert (Et : show_child (CPolymorphic t i targets) = "polymorphic_ref " +:+ ((t +:+ " " +:+ i) +:+ " targets " +:+ ("[" +:+ join ", " targets +:+ "]"))) by (cbn [show_child]; by rewrite !sapp_assoc).
  rewrite Et in Htx. apply (handled _ block.handle_resource_polymorphic_ref ((t +:+ " " +:+ i) +:+ " targets " +:+ ("[" +:+ join ", " targets +:+ "]")) _ Htx); try reflexivity.
  unfold block.handle_resource_polymorphic_ref. assert (Heh : edges_ok (t +:+ " " +:+ i) = true) by (apply (edges_ok_mid t " "); by apply Expr.ident_edges).
  assert (Hel : edges_ok ("[" +:+ join ", " targets +:+ "]") = true) by (by apply (edges_ok_mid "[" _ "]")).
  rewrite (trim_edges (_ +:+ _)) by (by apply (edges_ok_mid (t +:+ " " +:+ i) " targets ")). rewrite split_str_first; [|clear Hel|done].
  - cbn [ok_or mbind result_bind]. rewrite (trim_edges (t +:+ " " +:+ i)) by done. assert (split_whitespace (t +:+ " " +:+ i) = [t; i]) as -> by (apply (split_whitespace_words [t; i]); by repeat constructor).
    rewrite trim_edges by done. rewrite strip_prefix_app. cbn [mbind option_bind]. rewrite strip_suffix_app. cbn [ok_or mbind result_bind]. rewrite comma_names by done. by destruct targets.
  - intros k Hk. rewrite sapp_assoc. destruct (decide (k < str_len t)) as [Hkt|Hkt]; [by apply not_in_word|]. rewrite drop_past by lia. rewrite !len_app in Hk. cbn [str_len] in Hk.
    destruct (k - str_len t) as [|j] eqn:Ej.
    + apply not_true_is_false. rewrite drop_0. intros (u & E)%starts_with_iff. change ((" " +:+ i) +:+ ?r) with (String " " (i +:+ r)) in E.
      change (" targets " +:+ u) with (String " " ("targets" +:+ String " " u)) in E. injection E as E. apply (f_equal (split_once " ")) in E.
      change (i +:+ " targets " +:+ ?r) with (i +:+ String " " ("targets " +:+ r)) in E.
      rewrite !split_once_app in E by (done || by apply word_lacks_space). injection E as -> _. done.
    + change ((" " +:+ i) +:+ ?r) with (String " " (i +:+ r)). cbn [str_drop]. apply not_in_word; [done|lia].
Qed.
Lemma restrict_child r : FieldSyntax.trimmed line = "restrict " +:+ r -> nonempty r = true ->
  block.resource_child hi line rest s = (g ← block.parse_resource_restrict_on_delete line r; Ok (s <| block.restrict_on_delete ::= block.push g |>, rest)).
Proof. intros E Hr. unfold block.resource_child. rewrite E. by destruct r. Qed.

Lemma restrict_read rel fk code : child_ok (CRestrict rel fk code) = true -> FieldSyntax.trimmed line = show_child (CRestrict rel fk code) ->
  block.resource_child hi line rest s = Ok (with_child line (CRestrict rel fk code) s, rest).
Proof.
  cbn [child_ok]. intros Hok Htx. apply andb_true_iff in Hok as [Hok Hc]. apply andb_true_iff in Hok as [Hok Hn%negb_true_iff]. apply andb_true_iff in Hok as [Hr Hf].
  pose proof (ident_is_word _ Hr) as Hwr. pose proof (ident_is_word _ Hf) as Hwf. pose proof (Expr.ident_edges _ Hr) as Her. pose proof (Expr.ident_edges _ Hf) as Hef.
  set (tail := fk +:+ clause "error" code). assert (Het : edges_ok tail = true) by (apply clause_edges; [done| |done]; by destruct code).
  assert (Eb : edges_ok (rel +:+ " via " +:+ tail) = true) by (by apply (edges_ok_mid rel " via ")).
  rewrite (restrict_child ("on_delete " +:+ "references " +:+ rel +:+ " via " +:+ tail)) by (by rewrite ?Htx).
  unfold block.parse_resource_restrict_on_delete. rewrite trim_edges by (apply (edges_ok_mid "on_delete" " "); [done|]; by apply (edges_ok_mid "references" " ")).
  rewrite strip_prefix_app. cbn [ok_or mbind result_bind]. rewrite trim_edges by (by apply (edges_ok_mid "references" " ")). rewrite strip_prefix_app. cbn [ok_or mbind result_bind].
  rewrite split_str_first by (done || (intros k Hk; by apply not_in_word)). cbn [ok_or mbind result_bind].
  rewrite (trim_edges rel), (edges_not_empty rel) by done. unfold FieldSyntax.one_word. rewrite (split_whitespace_word rel) by done. cbn [List.length Nat.eqb negb orb].
  assert (Hw : QuerySyntax.split_once_str " where " tail = None).
  { apply split_str_none. subst tail. destruct code as [c|]; cbn [clause].
    - apply contains_none. intros k. apply not_true_is_false. intros H. replace (fk +:+ " " +:+ "error" +:+ " " +:+ c) with (join " " [fk; "error"; c]) in H by done.
      apply (spaced_word "where") in H as (l & l' & E & Hl & Hl' & _); [|done|repeat constructor; by try apply ident_is_word].
      destruct l as [|? [|? [|? l]]]; [done|by injection E|by injection E as _ _ _ <-|]. injection E as _ _ _ E. by destruct l.
    - rewrite sapp_nil_r. by apply word_contains. }
  rewrite Hw. cbn [mbind result_bind]. subst tail. destruct code as [c|]; cbn [clause].
  - cbn [code_ok] in Hc. change (" " +:+ "error" +:+ " " +:+ c) with (" error " +:+ c). rewrite split_str_first by (done || (intros k Hk; by apply not_in_word)).
    pose proof (Expr.ident_edges _ Hc) as Hec. rewrite (trim_edges c), (edges_not_empty c) by done. rewrite (split_whitespace_word c) by by apply ident_is_word. cbn [List.length Nat.eqb negb orb mbind result_bind].
    rewrite (trim_edges fk), (edges_not_empty fk), (split_whitespace_word fk) by done. reflexivity.
  - rewrite sapp_nil_r, split_str_none by by apply word_contains. rewrite (trim_edges fk) by done.
    assert (ends_with " error" fk = false) as ->.
    { apply not_true_is_false. intros (u & E)%ends_with_strip. pose proof (word_lacks_space _ Hwf) as Hl. rewrite E in Hl. change (u +:+ " error") with (u +:+ String " " "error") in Hl. by rewrite not_lacks_space in Hl. }
    rewrite Hn. cbn [orb mbind result_bind]. rewrite (edges_not_empty fk), (split_whitespace_word fk) by done. reflexivity.
Qed.

(** ** Fields *)

Lemma starts_inside p n r : lacks ":" p -> starts_with p (n +:+ String ":" r) = true -> starts_with p n = true.
Proof.
  revert n. induction p as [|a p IH]; intros n Hl H; [by destruct n|]. cbn [str_all] in Hl. apply andb_true_iff in Hl as [Ha%negb_true_iff Hl].
  destruct n as [|b n]; cbn [String.append starts_with] in *; apply andb_true_iff in H as [Hb H].
  - congruence.
  - by rewrite Hb, (IH n Hl H).
Qed.
Lemma name_not_head p f : Expr.ident (ft_name f) = true -> lacks ":" p -> str_all Expr.ident_char p = false -> starts_with p (show_field f) = false.
Proof.
  intros Hn Hl Hp. apply not_true_is_false. intros H. apply starts_inside in H; [|done]. apply starts_with_iff in H as (t & E).
  apply Expr.ident_chars in Hn as [Hc _]. rewrite E, str_all_app in Hc. apply andb_true_iff in Hc as [Hc _]. congruence.
Qed.
Lemma field_dispatch f : Expr.ident (ft_name f) = true -> inline_child (show_field f) = false /\ contains ":" (show_field f) = true /\
  existsb (fun h => starts_with h.1 (show_field f)) block.resource_body_handlers = false.
Proof.
  intros Hn. assert (Hcol : contains ":" (show_field f) = true) by (apply contains_iff; by exists (ft_name f), (" " +:+ join " " (tail_words f))).
  split_and!; [|done|].
  - unfold inline_child. apply orb_false_iff. split.
    + apply not_true_is_false. intros (k & Hk & E)%existsb_exists. apply String.eqb_eq in E. rewrite E in Hcol. cbn in Hk. repeat (destruct Hk as [<-|Hk]; [done|]). done.
    + apply not_true_is_false. intros (k & Hk & E)%existsb_exists. cbn in Hk. repeat (destruct Hk as [<-|Hk]; [by rewrite name_not_head in E|]). done.
  - apply not_true_is_false. intros ([k h] & Hk & E)%existsb_exists. cbn [fst] in E. cbn [block.resource_body_handlers In] in Hk.
    repeat (destruct Hk as [[= <- _]|Hk]; [by rewrite name_not_head in E|]). done.
Qed.

(** The lines after their leading blank lines and comments. *)
Fixpoint skip_trivia (lines : list SourceLine) : list SourceLine :=
  match lines with line :: rest => if is_trivia (FieldSyntax.trimmed line) then skip_trivia rest else lines | [] => [] end.
Lemma no_previously gi lines : match skip_trivia lines with line :: _ => indent line <> gi | [] => True end ->
  FieldSyntax.field_previously gi lines = ([], skip_trivia lines).
Proof.
  induction lines as [|l lines IH]; [done|]. cbn [skip_trivia FieldSyntax.field_previously]. destruct (is_trivia _); [done|]. intros H. by apply Nat.eqb_neq in H as ->.
Qed.
Lemma field_read f : field_ok f = true -> FieldSyntax.trimmed line = show_field f ->
  match skip_trivia rest with l :: _ => indent l <> hi + 4 | [] => True end ->
  block.resource_child hi line rest s = Ok (with_child line (CField f) s, skip_trivia rest).
Proof.
  intros Hok Htx Hn. destruct (show_type (ft_type f)) as [ty|] eqn:Es; [|by unfold field_ok in Hok; rewrite Es in Hok; bool_prop].
  assert (Hid : Expr.ident (ft_name f) = true) by by apply (field_ok_parts f ty).
  destruct (field_dispatch f Hid) as (Hi & Hc & Hh). destruct (ordinary_child hi line rest s) as [H _]; [by rewrite Htx|]. rewrite H by (by rewrite Htx, Hc, Hh).
  unfold FieldSyntax.parse_resource_field_decl. rewrite (field_line_reads f ty) by done. cbn [mbind result_bind]. by rewrite no_previously.
Qed.

Lemma child_read c : child_ok c = true -> FieldSyntax.trimmed line = show_child c ->
  (match c, skip_trivia rest with CField _, l :: _ => indent l <> hi + 4 | _, _ => True end) ->
  block.resource_child hi line rest s = Ok (with_child line c s, match c with CField _ => skip_trivia rest | _ => rest end).
Proof.
  intros Hok Htx Hn. destruct c as [f|[]| | |t|fs m|fs|fs code|t i ts|r fk code].
  - by apply field_read.
  - unfold block.resource_child. by rewrite Htx.
  - unfold block.resource_child. by rewrite Htx.
  - unfold block.resource_child. by rewrite Htx.
  - unfold block.resource_child. by rewrite Htx.
  - by apply tenancy_read.
  - by apply index_read.
  - by apply full_text_read.
  - apply andb_true_iff in Hok as [? ?]. by apply unique_read.
  - by apply polymorphic_read.
  - by apply restrict_read.
Qed.
End child.

(** * The block *)

(** A line of the block: nothing, or a child. *)
Definition says (hi : nat) (lc : SourceLine * option Child) : Prop :=
  match lc.2 with
  | None => is_trivia (FieldSyntax.trimmed lc.1) = true
  | Some c => indent lc.1 = hi + 2 /\ FieldSyntax.trimmed lc.1 = show_child c /\ child_ok c = true
  end.
Definition said (s : block.ResourceBodyState) (lines : list (SourceLine * option Child)) : block.ResourceBodyState :=
  fold_left (fun s lc => match lc.2 with Some c => with_child lc.1 c s | None => s end) lines s.
(** How many blank lines and comments come first. *)
Fixpoint lead (lines : list (SourceLine * option Child)) : nat := match lines with (_, None) :: lines => S (lead lines) | _ => 0 end.
(** Where the block ends: a field takes the blank lines and comments after it. *)
Fixpoint last_end (last : nat) (lines : list (SourceLine * option Child)) : nat :=
  match lines with
  | [] => last
  | (line, None) :: lines => last_end last lines
  | (line, Some (CField _)) :: lines => last_end (end_ (List.last (List.map fst (firstn (lead lines) lines)) line)) lines
  | (line, Some _) :: lines => last_end (end_ line) lines
  end.

Lemma child_not_trivia c : child_ok c = true -> is_trivia (show_child c) = false.
Proof.
  destruct c as [f|[]| | |t|fs m|fs|fs code|t i ts|r fk code]; intros Hok; try done. cbn [show_child].
  assert (Hid : Expr.ident (ft_name f) = true) by (unfold child_ok, field_ok in Hok; by bool_prop).
  unfold show_field. destruct (ft_name f) as [|b n]; [done|]. cbn [String.append]. unfold is_trivia. unfold Expr.ident in Hid. apply andb_true_iff in Hid as [Hb _].
  cbn [starts_with String.eqb orb]. rewrite andb_true_r. revert Hb. by_bytes b.
Qed.
Lemma lead_skips hi tail lines : Forall (says hi) lines -> stops hi tail ->
  skip_trivia (List.map fst lines ++ tail) = (List.map fst (skipn (lead lines) lines) ++ tail)%list.
Proof.
  intros H Ht. induction H as [|[line [c|]] lines Hl _ IH]; cbn [List.map app].
  - destruct tail as [|line tail]; [done|]. destruct Ht as [Hn _]. cbn [skip_trivia]. by rewrite Hn.
  - unfold says in Hl. cbn [fst snd] in Hl. destruct Hl as (_ & Htx & Hok). cbn [skip_trivia fst lead skipn List.map app]. by rewrite Htx, child_not_trivia.
  - unfold says in Hl. cbn [fst snd] in Hl. cbn [skip_trivia fst lead skipn]. by rewrite Hl.
Qed.
Lemma lead_stops hi lines tail : Forall (says hi) lines -> stops hi tail ->
  match skip_trivia (List.map fst lines ++ tail) with l :: _ => indent l <> hi + 4 | [] => True end.
Proof.
  intros H Ht. rewrite (lead_skips hi) by done. induction H as [|[line [c|]] lines Hl _ IH]; [|cbn [lead skipn]..]; [|destruct Hl as (Hi & _); cbn in *; lia|exact IH].
  cbn. destruct tail as [|l tail]; [done|]. destruct Ht as [_ Hi]. lia.
Qed.
Lemma skip_trivia_length lines : List.length (skip_trivia lines) <= List.length lines.
Proof. induction lines as [|l lines IH]; [done|]. cbn [skip_trivia]. destruct (is_trivia _); cbn in *; lia. Qed.
Lemma skip_trivia_children hi s last : forall lines fuel, List.length lines < fuel ->
  block.resource_children fuel hi s last (skip_trivia lines) = block.resource_children fuel hi s last lines.
Proof.
  induction lines as [|line lines IH]; intros fuel Hf; [done|]. cbn [skip_trivia]. destruct (is_trivia (FieldSyntax.trimmed line)) eqn:E; [|done]. cbn in Hf.
  destruct fuel as [|fuel]; [lia|]. cbn [block.resource_children]. rewrite E. rewrite <-IH by lia. symmetry. apply resource_children_fuel.
  pose proof (skip_trivia_length lines). lia.
Qed.

Lemma block_lines_read hi tail lines : Forall (says hi) lines -> stops hi tail -> forall fuel s last, List.length (List.map fst lines ++ tail) < fuel ->
  block.resource_children fuel hi s last (List.map fst lines ++ tail) = Ok ((said s lines, last_end last lines), tail).
Proof.
  intros H Ht. induction H as [|[line c] lines Hl Hls IH]; intros fuel s last Hf; (destruct fuel as [|fuel]; [lia|]).
  - cbn [List.map app]. destruct tail as [|line tail]; [done|]. destruct Ht as [Hn Hle]. cbn [block.resource_children]. rewrite Hn. by apply Nat.leb_le in Hle as ->.
  - cbn [List.map app fst List.length] in *. destruct c as [c|]; unfold says in Hl; cbn [fst snd] in Hl.
    + destruct Hl as (Hi & Htx & Hok). cbn [block.resource_children]. rewrite Htx, child_not_trivia, Hi by done.
      assert ((hi + 2 <=? hi)%nat = false) as -> by (apply Nat.leb_gt; lia). rewrite Nat.eqb_refl. cbn [negb].
      rewrite (child_read hi line _ s c Hok Htx) by (destruct c; try done; by apply lead_stops). cbn [mbind result_bind].
      assert (Hend : block.child_end line (List.map fst lines ++ tail) (List.map fst lines ++ tail) = end_ line) by (unfold block.child_end; by rewrite Nat.sub_diag).
      assert (Hfend : block.child_end line (List.map fst lines ++ tail) (skip_trivia (List.map fst lines ++ tail)) =
        end_ (List.last (List.map fst (firstn (lead lines) lines)) line)).
      { unfold block.child_end. rewrite (lead_skips hi) by done. rewrite !length_app, !length_map, length_skipn. f_equal. f_equal.
        assert (Hll : lead lines <= List.length lines) by (clear; induction lines as [|[? [?|]] l IHl]; cbn; lia).
        replace (List.length lines + List.length tail - (List.length lines - lead lines + List.length tail)) with (lead lines) by lia.
        rewrite firstn_app, length_map, firstn_map. replace (lead lines - List.length lines) with 0 by lia. by rewrite firstn_0, app_nil_r. }
      destruct c; try (rewrite Hend; apply IH; lia). rewrite Hfend, skip_trivia_children by lia. apply IH. lia.
    + cbn [block.resource_children]. rewrite Hl. apply IH. lia.
Qed.

(** The block read. *)
Lemma block_read header name lines tail : FieldSyntax.trimmed header = "resource " +:+ name -> word name = true ->
  Forall (says (indent header)) lines -> stops (indent header) tail ->
  block.parse_resource_decl header (List.map fst lines ++ tail) =
  Ok ({| block.r_name := name; block.body := said block.empty_body lines;
         block.r_span := span_new (start header) (last_end (end_ header) lines) |}, tail).
Proof.
  intros Hh Hn Hl Ht. unfold block.parse_resource_decl. rewrite Hh, strip_prefix_app. cbn [ok_or mbind result_bind]. rewrite split_whitespace_word by done. cbn [hd_error from_option id].
  assert ((name =? "") = false) as -> by by destruct name. rewrite block_lines_read by (done || lia). reflexivity.
Qed.

(** * The resource the block declares *)

Definition children (lines : list (SourceLine * option Child)) : list Child := omap snd lines.
Definition declared_fields (cs : list Child) : list Field := omap (fun c => match c with CField f => Some (field_declared f) | _ => None end) cs.
Definition declared_constraint (c : Child) : option Constraint :=
  match c with
  | CIndex fs m => Some (Index {| ix_fields := fs; ix_method := ResourceLowering.lower_index_method <$> m; ix_full_text := false |})
  | CFullText fs => Some (Index {| ix_fields := fs; ix_method := None; ix_full_text := true |})
  | CUnique fs code => Some (Unique {| uq_fields := fs; per := None; uq_when := None; error_code := code |})
  | _ => None
  end.
Definition declared_ref (c : Child) : option PolymorphicRef :=
  match c with CPolymorphic t i targets => Some {| type_field := t; id_field := i; targets := targets |} | _ => None end.
Definition declared_guard (c : Child) : option RestrictOnDelete :=
  match c with
  | CRestrict r fk code => Some {| relation := r; fk := fk; extra_where := None; tenant_scoped := false; g_soft_delete := false; g_error_code := code |}
  | _ => None
  end.
Definition declared_tenancy (c : Child) : option Tenancy := match c with CTenancy t => Some (ResourceLowering.lower_tenancy t) | _ => None end.
Definition soft_deletes (c : Child) : bool := match c with CSoftDelete _ => true | _ => false end.
Definition names_actor (c : Child) : bool := match c with CSoftDelete b => b | _ => false end.
Definition keeps_timestamps (c : Child) : bool := match c with CTimestamps => true | _ => false end.
(** The last tenancy line holds; flags, however often they are written, hold once. *)
Definition declared_resource (name : string) (cs : list Child) : Resource := {|
  r_name := name; tenancy := last (omap declared_tenancy cs); soft_delete := existsb soft_deletes cs; soft_delete_actor := existsb names_actor cs;
  timestamps := if existsb keeps_timestamps cs then Some true else None; fields := declared_fields cs; constraints := omap declared_constraint cs;
  composite_key := None; polymorphic_refs := omap declared_ref cs; restrict_on_delete := omap declared_guard cs |}.

(** ** A slot of the block, over its lines *)

Section slot.
Context {A : Type} (slot : block.ResourceBodyState -> A).

Lemma slot_kept lines s : (forall line c s, slot (with_child line c s) = slot s) -> slot (said s lines) = slot s.
Proof. intros H. revert s. induction lines as [|[line [c|]] lines IH]; intros s; [done| |apply IH]. etrans; [apply (IH (with_child line c s))|apply H]. Qed.
End slot.

Lemma slot_flag (slot : block.ResourceBodyState -> bool) flag lines s : (forall line c s, slot (with_child line c s) = slot s || flag c) ->
  slot (said s lines) = slot s || existsb flag (children lines).
Proof.
  intros H. revert s. induction lines as [|[line [c|]] lines IH]; intros s; [symmetry; apply orb_false_r| |apply IH].
  etrans; [apply (IH (with_child line c s))|]. rewrite H, <-orb_assoc. reflexivity.
Qed.
Lemma slot_listed {A} (slot : block.ResourceBodyState -> list A) (add : SourceLine -> Child -> option A) lines s :
  (forall line c s, slot (with_child line c s) = (slot s ++ option_list (add line c))%list) ->
  slot (said s lines) = (slot s ++ omap (fun lc => lc.2 ≫= add lc.1) lines)%list.
Proof.
  intros H. revert s. induction lines as [|[line [c|]] lines IH]; intros s; [symmetry; apply app_nil_r| |apply IH].
  etrans; [apply (IH (with_child line c s))|]. rewrite H, <-app_assoc. cbn. by destruct (add line c).
Qed.
(** The lowering takes each element to what its child declares. *)
Lemma elements_lower {A B C} (add : SourceLine -> Child -> option A) (lower : A -> ResourceLowering.outcome B) (view : B -> C) (declared : Child -> option C) lines :
  (forall line c, In (line, Some c) lines -> match add line c with
     | Some a => exists b, lower a = ResourceLowering.fine b /\ declared c = Some (view b)
     | None => declared c = None end) ->
  exists bs, ResourceLowering.collect lower (omap (fun lc => lc.2 ≫= add lc.1) lines) = ResourceLowering.fine bs /\
    List.map view bs = omap declared (children lines).
Proof.
  induction lines as [|[line [c|]] lines IH]; intros H.
  - by exists [].
  - destruct IH as (bs & Hc & Hv); [intros line' c' Hin; apply H; by right|]. specialize (H line c (or_introl eq_refl)).
    unfold children. cbn [omap list_omap fst snd mbind option_bind]. change (omap snd lines) with (children lines). cbn [omap list_omap]. destruct (add line c) as [a|].
    + destruct H as (b & Hl & ->). exists (b :: bs). cbn [ResourceLowering.collect]. by rewrite Hl, Hc, <-Hv.
    + rewrite H. by exists bs.
  - apply IH. intros line' c' Hin. apply H. by right.
Qed.

Lemma tenancy_said lines s : block.tenancy (said s lines) = match last (omap (fun c => match c with CTenancy t => Some t | _ => None end) (children lines)) with
  | Some t => Some t | None => block.tenancy s end.
Proof.
  revert s. induction lines as [|[line [c|]] lines IH]; intros s; [done| |apply IH]. etrans; [apply (IH (with_child line c s))|].
  destruct c as [f|[]| | |t|fs m|fs|fs code|t i ts|r fk code]; try done. unfold children. cbn [omap list_omap snd]. change (omap snd lines) with (children lines). cbn [omap list_omap]. rewrite last_cons. by destruct (last _).
Qed.

Section lowered.
Context (name : string) (span : Span) (hi : nat) (lines : list (SourceLine * option Child)) (Hl : Forall (says hi) lines).

Lemma line_said line c : In (line, Some c) lines -> child_ok c = true.
Proof using Hl. intros Hin. rewrite List.Forall_forall in Hl. by apply Hl in Hin as (_ & _ & ?). Qed.

Definition field_element (line : SourceLine) (c : Child) := match c with CField f => Some (field_said line f []) | _ => None end.
Definition first_of {A} (slot : block.ResourceBodyState -> list A) (line : SourceLine) (c : Child) : option A := head (slot (with_child line c block.empty_body)).
Lemma fields_lower : exists fs, ResourceLowering.collect ResourceLowering.lower_resource_field (block.fields (said block.empty_body lines)) = ResourceLowering.fine fs /\
  List.map ResourceLowering.core fs = declared_fields (children lines).
Proof using Hl.
  rewrite (slot_listed block.fields field_element);
    [|intros line c s; destruct c as [f|[]| | |t|fs m|fs|fs code|t i ts|r fk code]; try done; symmetry; apply app_nil_r].
  apply (elements_lower field_element ResourceLowering.lower_resource_field). intros line c Hin%line_said. destruct c as [f|[]| | |t|fs m|fs|fs code|t i ts|r fk code]; try done. cbn [child_ok] in Hin.
  destruct (show_type (ft_type f)) as [ty|] eqn:Es; [|by unfold field_ok in Hin; rewrite Es in Hin; bool_prop]. eexists. split; [by apply (field_lowers f ty)|done].
Qed.
Lemma constraints_lower : ResourceLowering.collect ResourceLowering.lower_resource_constraint (block.constraints (said block.empty_body lines)) =
  ResourceLowering.fine (omap declared_constraint (children lines)).
Proof using Hl.
  rewrite (slot_listed block.constraints (first_of block.constraints));
    [|intros line c s; destruct c as [f|[]| | |t|fs m|fs|fs code|t i ts|r fk code]; try done; symmetry; apply app_nil_r].
  destruct (elements_lower (first_of block.constraints) ResourceLowering.lower_resource_constraint id declared_constraint lines) as (bs & Hc & Hv).
  - intros line c _. destruct c as [f|[]| | |t|fs m|fs|fs code|t i ts|r fk code]; try done; eexists; split; reflexivity.
  - rewrite List.map_id in Hv. by rewrite <-Hv.
Qed.
Lemma guards_lower : ResourceLowering.collect ResourceLowering.lower_restrict (block.restrict_on_delete (said block.empty_body lines)) =
  ResourceLowering.fine (omap declared_guard (children lines)).
Proof using Hl.
  rewrite (slot_listed block.restrict_on_delete (first_of block.restrict_on_delete));
    [|intros line c s; destruct c as [f|[]| | |t|fs m|fs|fs code|t i ts|r fk code]; try done; symmetry; apply app_nil_r].
  destruct (elements_lower (first_of block.restrict_on_delete) ResourceLowering.lower_restrict id declared_guard lines) as (bs & Hc & Hv).
  - intros line c _. destruct c as [f|[]| | |t|fs m|fs|fs code|t i ts|r fk code]; try done; eexists; split; reflexivity.
  - rewrite List.map_id in Hv. by rewrite <-Hv.
Qed.

Lemma refs_lower : List.map (fun p => {| type_field := block.type_field p; id_field := block.id_field p; targets := block.targets p |})
    (block.polymorphic_refs (said block.empty_body lines)) = omap declared_ref (children lines).
Proof using.
  rewrite (slot_listed block.polymorphic_refs (first_of block.polymorphic_refs));
    [|intros line c s; destruct c as [f|[]| | |t|fs m|fs|fs code|t i ts|r fk code]; try done; symmetry; apply app_nil_r].
  cbn [app block.polymorphic_refs block.empty_body]. clear Hl. induction lines as [|[line [c|]] ls IH]; [done| |exact IH].
  unfold children. cbn [omap list_omap fst snd mbind option_bind]. change (omap snd ls) with (children ls). destruct c as [f|[]| | |t|fs m|fs|fs code|t i ts|r fk code]; try exact IH. cbn. by f_equal.
Qed.
Lemma tenancy_lowers : ResourceLowering.lower_tenancy <$> block.tenancy (said block.empty_body lines) = last (omap declared_tenancy (children lines)).
Proof using.
  rewrite tenancy_said. cbn [block.tenancy block.empty_body]. clear Hl. induction (children lines) as [|c cs IH]; [done|].
  destruct c as [f|[]| | |t|fs m|fs|fs code|t i ts|r fk code]; try exact IH. cbn [omap list_omap]. cbn [omap list_omap declared_tenancy]. rewrite !last_cons.
  revert IH. destruct (last (omap _ cs)), (last (omap declared_tenancy cs)); cbn; intros IH; congruence.
Qed.

(** The block lowers to the resource it declares. *)
Lemma block_lowers : exists ir,
  ResourceLowering.lower_resource_decl {| block.r_name := name; block.body := said block.empty_body lines; block.r_span := span |} = ResourceLowering.fine ir /\
  ResourceLowering.catalog ir = declared_resource name (children lines) /\
  ResourceLowering.append_only ir = existsb (fun c => match c with CAppendOnly => true | _ => false end) (children lines).
Proof using Hl.
  assert (Hkept : forall A (slot : block.ResourceBodyState -> A), (forall line c s, slot (with_child line c s) = slot s) -> slot (said block.empty_body lines) = slot block.empty_body) by (intros; by apply slot_kept).
  destruct fields_lower as (fs & Hf & Hd). unfold ResourceLowering.lower_resource_decl. cbn [block.body block.r_name block.r_span].
  rewrite (Hkept _ block.invariants), (Hkept _ block.many_through) by (intros line c s; by destruct c as [f|[]| | |t|fs' m|fs'|fs' code|t i ts|r fk code]).
  rewrite Hf, constraints_lower, guards_lower. cbn. eexists. split; [reflexivity|]. unfold ResourceLowering.catalog. cbn.
  rewrite Hd, refs_lower, tenancy_lowers, (Hkept _ block.composite_key) by (intros line c s; by destruct c as [f|[]| | |t|fs' m|fs'|fs' code|t i ts|r fk code]).
  rewrite (slot_flag block.soft_delete soft_deletes), (slot_flag block.soft_delete_actor names_actor), (slot_flag block.timestamps keeps_timestamps),
    (slot_flag block.append_only (fun c => match c with CAppendOnly => true | _ => false end))
    by (intros line c s; destruct c as [f|[]| | |t|fs' m|fs'|fs' code|t i ts|r fk code]; cbn; by rewrite ?orb_false_r, ?orb_true_r).
  by split.
Qed.
End lowered.

(** * From the source to the table *)

(** C6: A resource block an author writes — fields with their types, decorators,
    modifiers and defaults, flags, tenancy, indexes, unique constraints,
    polymorphic references, guards — with comments and blank lines anywhere, is
    parsed up to the next block, lowers without a diagnostic to the resource it
    declares, and its migration, read back, is exactly the columns of that
    resource. *)
Theorem compiled_resource_exact module feature label index header name lines tail :
  FieldSyntax.trimmed header = "resource " +:+ name -> word name = true ->
  Forall (says (indent header)) lines -> stops (indent header) tail ->
  let declared := declared_resource name (children lines) in
  exists decl ir, block.parse_resource_decl header (List.map fst lines ++ tail) = Ok (decl, tail) /\
    ResourceLowering.lower_resource_decl decl = ResourceLowering.fine ir /\ ResourceLowering.catalog ir = declared /\
    (SchemaRead.clean_resource declared = true ->
     SchemaDiff.parse_baseline_from_str (CreateTable.emit_resource_migration module feature (ResourceLowering.catalog ir) label index) =
     Ok {| SchemaDiff.columns := SchemaRead.table_spec module feature declared index |}).
Proof.
  intros Hh Hn Hl Ht declared. destruct (block_lowers name (span_new (start header) (last_end (end_ header) lines)) (indent header) lines Hl) as (ir & Hlow & Hcat & _).
  eexists _, ir. split; [by apply block_read|]. split; [exact Hlow|]. split; [exact Hcat|]. rewrite Hcat. apply SchemaRead.baseline_exact.
Qed.

(** ** An example *)

Definition order_source : string := join (String "010" "")
  ["  resource Order"; "    # what the customer sees"; "    number: Text required unique"; "    status: Text @full_text = open";
   "    customer: Customer @owner_axis(through: account) required"; ""; "    soft_delete by"; "    tenancy org"; "    index on (status, number) using btree";
   "    unique (number, customer) error ORDER_TAKEN"; "    polymorphic_ref subject_type subject_id targets [Invoice, Quote]";
   "    restrict on_delete references line via order_id error ORDER_HAS_LINES"; "    timestamps"; "  resource Line"].
Definition text_field (n : string) (t : TypeRef) (ds : list Decorator) (ms : list Modifier) (d : option string) : Child :=
  CField {| ft_name := n; ft_type := t; ft_decorators := ds; ft_modifiers := ms; ft_default := d |}.
Definition order_children : list (option Child) :=
  [None; Some (text_field "number" (Builtin Text) [] [MRequired; MUnique] None); Some (text_field "status" (Builtin Text) [DFullText] [] (Some "open"));
   Some (text_field "customer" (UserDefined {| qn_feature := None; qn_name := "Customer" |}) [DOwnerAxis "account"] [MRequired] None); None;
   Some (CSoftDelete true); Some (CTenancy block.Org); Some (CIndex ["status"; "number"] (Some block.Btree));
   Some (CUnique ["number"; "customer"] (Some "ORDER_TAKEN")); Some (CPolymorphic "subject_type" "subject_id" ["Invoice"; "Quote"]);
   Some (CRestrict "line" "order_id" (Some "ORDER_HAS_LINES")); Some CTimestamps].
(** The lines of a text that starts with a header: it, the children, the rest. *)
Definition order_lines : list SourceLine := source_lines order_source.
Definition order_header : SourceLine := List.hd {| text := ""; indent := 0; start := 0; end_ := 0 |} order_lines.
Definition order_body : list (SourceLine * option Child) := combine (firstn 12 (List.tl order_lines)) order_children.
Definition order_tail : list SourceLine := skipn 13 order_lines.
Definition order_columns : list SchemaDiff.Column :=
  [SchemaDiff.column_new "id" "BIGSERIAL" true; SchemaDiff.column_new "org_id" "BIGINT" false; SchemaDiff.column_new "number" "TEXT" false;
   SchemaDiff.column_new "status" "TEXT" true; SchemaDiff.column_new "customer" "TEXT" false;
   SchemaDiff.with_default (SchemaDiff.column_new "created_at" "TIMESTAMPTZ" false) "NOW()"; SchemaDiff.with_default (SchemaDiff.column_new "updated_at" "TIMESTAMPTZ" false) "NOW()";
   SchemaDiff.column_new "deleted_at" "TIMESTAMPTZ" true; SchemaDiff.column_new "deleted_by" "BIGINT" true;
   SchemaDiff.column_new "subject_type" "TEXT" false; SchemaDiff.column_new "subject_id" "BIGINT" false].
Definition saysb (hi : nat) (lc : SourceLine * option Child) : bool :=
  match lc.2 with
  | None => is_trivia (FieldSyntax.trimmed lc.1)
  | Some c => (indent lc.1 =? hi + 2)%nat && (FieldSyntax.trimmed lc.1 =? show_child c) && child_ok c
  end.
Lemma saysb_says hi lines : forallb (saysb hi) lines = true -> Forall (says hi) lines.
Proof.
  rewrite forallb_forall, List.Forall_forall. intros H [line [c|]] Hin; specialize (H _ Hin); unfold saysb, says in *; cbn [fst snd] in *; [|done].
  apply andb_true_iff in H as [[->%Nat.eqb_eq ->%String.eqb_eq]%andb_true_iff ?]. done.
Qed.

Lemma compiled_resource_exact_witness :
  let declared := declared_resource "Order" (children order_body) in
  let f := SchemaRead.sample_feature declared None in let m := SchemaRead.sample_module f in
  exists decl ir, block.parse_resource_decl order_header (List.tl order_lines) = Ok (decl, order_tail) /\
    ResourceLowering.lower_resource_decl decl = ResourceLowering.fine ir /\ ResourceLowering.catalog ir = declared /\
    SchemaDiff.parse_baseline_from_str (CreateTable.emit_resource_migration m f (ResourceLowering.catalog ir) "app.lzi" (build m)) =
    Ok {| SchemaDiff.columns := order_columns |}.
Proof.
  intros declared f m.
  destruct (compiled_resource_exact m f "app.lzi" (build m) order_header "Order" order_body order_tail) as (decl & ir & Hp & Hlow & Hcat & Hm).
  - vm_compute. reflexivity.
  - vm_compute. reflexivity.
  - apply saysb_says. vm_compute. reflexivity.
  - vm_compute. split; [reflexivity|lia].
  - exists decl, ir. split; [exact Hp|]. split; [exact Hlow|]. split; [exact Hcat|]. rewrite Hm by (vm_compute; reflexivity). vm_compute. reflexivity.
Defined.

(** * Divergences *)

Definition one_line (text : string) : SourceLine := List.hd {| text := ""; indent := 0; start := 0; end_ := 0 |} (source_lines text).
(** Comments end a field's line, and no other child's: the axis is another then. *)
Lemma commented_tenancy_is_custom :
  block.resource_child 0 (one_line "  tenancy org # one per firm") [] block.empty_body = Ok (block.empty_body <| block.tenancy := Some (block.Custom "org # one per firm") |>, []) /\
  block.resource_child 0 (one_line "  tenancy org") [] block.empty_body = Ok (block.empty_body <| block.tenancy := Some block.Org |>, []).
Proof. split; vm_compute; reflexivity. Qed.
(** A modifier after the default is part of it. *)
Lemma modifier_after_default : exists f, FieldSyntax.field_line (one_line "  status: Text = open required") = Ok f /\
  FieldSyntax.fd_default f = Some "open required" /\ FieldSyntax.required f = false.
Proof. eexists. split; [vm_compute; reflexivity|by split]. Qed.
(** An equals sign inside a pattern is taken for the default. *)
Lemma pattern_split_at_equals : exists e, FieldSyntax.field_line (one_line ("  code: Text pattern " +:+ quoted "a = b")) = Err e.
Proof. eexists. vm_compute. reflexivity. Qed.
(** [@slug] alone makes no unique column. *)
Lemma slug_not_unique : exists f ir, FieldSyntax.field_line (one_line "  handle: Text @slug") = Ok f /\ ResourceLowering.lower_resource_field f = ResourceLowering.fine ir /\
  ResourceLowering.slug ir = true /\ unique (ResourceLowering.core ir) = false.
Proof. eexists _, _. split; [vm_compute; reflexivity|]. split; [vm_compute; reflexivity|by split]. Qed.
